(* ===== verification/_CoqProject ===== *)
-Q . S2P
Prelude.v
SimpleQueue.v
ByteQueue.v
JsString.v
Percent.v
Utf8.v
UrlHost.v
UrlParser.v
UrlTermination.v
UrlInvariant.v
UrlParserOk.v
StreamBase.v
UrlApi.v
UrlApiProps.v
LinkedList.v
LinkedListProps.v
LinkedListApi.v
LinkedListSort.v
WritableStream.v
WritableStreamWriters.v
WritableStreamInv.v
WritableStreamCalls.v
WritableStreamProps.v
ReadableStream.v
ReadableStreamInv.v
ReadableStreamProps.v
ByteData.v
ByteDataInv.v
ByteStream.v
ByteStreamInv.v
ByteStreamOps.v
ByteStreamRun.v
ByteStreamProps.v
JsNumber.v
Socks.v
SocksProps.v
Proxy.v
ProxyProps.v
HttpProxy.v
HttpProxyProps.v
Dns.v
DnsProps.v
DnsRoundtrip.v
Resolver.v
ResolverProps.v
Headers.v
HeadersProps.v
UriComponent.v
ServerResponse.v
ServerResponseProps.v
Request.v
RequestProps.v
Session.v
SessionProps.v
Middleware.v
FormData.v
Events.v
EventsProps.v
FedStream.v
Handoff.v
HttpClient.v
HttpClientProps.v
HttpClientRuns.v
HttpClientBody.v
HttpServer.v
HttpServerProps.v
Topics.v
TopicsProps.v
Router.v
RouterProps.v
Serve.v
ServeProps.v
App.v
AppProps.v
StreamCalls.v
TransformStream.v
TransformStreamInv.v
TransformStreamProps.v
StreamAdapter.v
StreamAdapterProps.v
