(* ===== verification/Prelude.v ===== *)
(** * qjs-lws: a verification library

    qjs-lws binds libwebsockets to QuickJS and builds the web platform's
    classes on top of it in JavaScript: URLs, headers, streams, an
    application framework, and programs that use them (a proxy, a DNS
    server, a crawler, chat clients).  This library models the JavaScript
    that carries logic of its own and proves what it promises.

    ** Conventions

    A JavaScript string is the list of its UTF-16 code units and a byte
    array the list of its bytes, both as [Z] ([JsString], this file).
    Code that can throw gives an [outcome]: [Ok v], or [Throw c m] with
    the class of the error and its message.  Code that mutates state
    passes it explicitly, in a monad where several calls are chained
    ([HM] for the list heap, [squeue] for the queue arena, the monads of
    [StreamBase] for streams and resolver).  What is asynchronous is cut
    where the code awaits: the environment's events (a promise of the
    source or the sink settles, a chunk arrives) are steps or list
    elements, and theorems hold for every sequence of them.  Native code
    (the text codec, numeric addresses, the network, the tables for case
    mapping outside ASCII) is a parameter or a class, with instances in
    [Utf8] and at the end of [UrlApiProps].  Where native code throws its
    model does: [decode] of [TextCodec] on bytes that are not UTF-8
    ([decode_lossy] is the variant that replaces them), the constructor of
    [LWSSockAddr46] ([sa_address] of [UrlHost]) on an unterminated bracket.
    A theorem whose condition is a predicate of the development names it in
    its comment.

    ** Parts, and the files that model them

    - Chunked queue, [lib/lws/simple-queue.js]: [SimpleQueue], an arena of
      array nodes that refines a plain FIFO list.
    - Byte queue, [lib/lws/byte-queue.js]: [ByteQueue], the promise of a
      read with its settlement log; nothing is lost or handed out twice.
    - URLs, [lib/lws/url.js]: [Percent] (escapes, form encoding), [UrlHost],
      [UrlParser] (a definition per state of [basicURLParse]), [UrlApi]
      ([URL], [URLSearchParams] and the link between them; a setter is a
      program on the object, so that one that throws half way leaves what
      it had changed).
      [UrlTermination] shows the state machine ends; [UrlInvariant] and
      [UrlParserOk] that every record is well formed and what the parser
      can throw; [UrlApiProps] that no use of the classes breaks a record,
      that mutations keep query and parameter list in agreement, and which
      setters can throw, with instances and examples at its end.
    - Linked lists, [lib/lws/list.js]: [LinkedList] (heap of cells),
      [LinkedListProps] (rings), [LinkedListApi] (the class refines lists
      of values, generators bear deletion), [LinkedListSort] (the merge
      sort sorts, is stable and ends).
    - Streams, [lib/lws/streams.js]: [StreamBase] (strategies, promises,
      the queue with sizes); [WritableStream] with [WritableStreamWriters],
      [WritableStreamInv], [WritableStreamCalls]
      (the invariant, event by event) and [WritableStreamProps] (safety,
      order of sink calls, backpressure, delivery, what hangs);
      [ReadableStream], [ReadableStreamInv] and [ReadableStreamProps]
      (safety, FIFO delivery, the closed promise, each branch of a read).
      Byte streams are [ByteData] (an arena of buffers that can be
      detached, the queue, the descriptors of waiting reads, the BYOB
      request) under [ByteStream] (controller and readers); [ByteDataInv]
      shows that bytes are moved and not lost, [ByteStreamInv],
      [ByteStreamOps] and [ByteStreamRun] carry the invariant through the
      operations of source and readers, [ByteStreamProps] has safety,
      order, and the runs that go wrong.  The history of a byte stream has
      every chunk [enqueue] takes, with its fate: passed on, or thrown away
      by the early return.
      [StreamCalls] says which calls into source and sink an operation
      adds, and [TransformStream] composes the two machines as
      [TransformStream] of the source does, with every answer the
      transformer may give and its use of the controller as events.
      [TransformStreamInv] is the invariant on the two sides together;
      [TransformStreamProps] has safety (with the two situations it does
      not cover, each shown by a run), the order of transformations and
      the identity transform, which loses and reorders nothing.
    - The proxy, [examples/proxy/lib]: [Socks] and [SocksProps] (codec,
      framing, round trips), [Proxy] and [ProxyProps] (SOCKS listener and
      dials), [HttpProxy] and [HttpProxyProps] (HTTP listener and CONNECT
      dial).  A dial and a listener are composed: each direction is what
      the other side sent, in whatever chunks.
    - The DNS server, [examples/dns-server]: [Dns], [DnsProps] and
      [DnsRoundtrip] (names with compression, records, messages),
      [Resolver] and [ResolverProps] (cache, exchanges,
      referrals and alias chains, the reply).  The resolver uses the codec,
      the list of answers is bounded whatever the servers say.
    - Streams fed by a connection, the body sources of
      [lib/lws/protocols.js]: [FedStream] (one chunk per callback, until
      it is closed or errored), under the clients and servers below.
    - HTTP as a client, [lib/lws/protocols.js]:
      [Handoff] (the sessions that wait for a connection, what each is
      told and in which order), [HttpClient]
      (the callbacks of libwebsockets as events of a state),
      [HttpClientProps] (each callback keeps the invariant),
      [HttpClientRuns] (over any sequence, the body of a request is
      written at most once and whole) and [HttpClientBody] (the response's
      stream is what its connection read).
    - HTTP as a server, [lib/lws/protocols.js]: [HttpServer] and
      [HttpServerProps] (the body of a request is what its own connection
      sent).
    - Sockets as streams, [StreamAdapter] of [lib/lws/protocols.js] under
      the web socket and raw roles: [StreamAdapter] and
      [StreamAdapterProps] (reader and writer of a connection are its own,
      nothing is lost or reordered, writes are paced; what a write meets
      when its connection goes), with the counter of a shared context,
      [lib/lws/context.js].
    - Topics of web sockets, [lib/websocket.js]: [Topics] and
      [TopicsProps] (the two maps are one list of subscriptions, whom a
      publication reaches before a socket that cannot send, corks that nest
      keep the order).
    - [serve], [lib/serve.js]: [Serve] and [ServeProps] (routes by method,
      upgrades and what the native side makes of a hook that throws, the
      answer to a request in every branch).
    - Headers, [lib/lws/headers.js]: [Headers] and [HeadersProps] (no line
      breaks out, multimap, sorted iteration).
    - The server side of HTTP, [lib/lws/response.js] and [lib/lws/app.js]:
      [ServerResponse] and [ServerResponseProps] (a client reads back the
      body whichever framing was chosen; the head goes out once and cannot
      be split), on top of [Headers]; [Router] and [RouterProps] (path
      patterns through a model of the regular expressions they compile
      to); [App] and [AppProps] (the middleware chain under every
      interleaving of its handlers, mounted routers included).
    - Requests, [lib/lws/request.js]: [Request] and [RequestProps] (cookies
      that [ServerResponse] sets come back, the query groups its fields).
    - Sessions, [lib/lws/session.js]: [Session] and [SessionProps], the
      store with its clock and the middleware as steps of concurrent
      requests, with the cookies of [Request] and [ServerResponse].
    - Middleware, [lib/lws/middleware.js]: [Middleware] (CORS, security headers, body parsers), programs
      on the response of [ServerResponse].
    - Forms, [lib/lws/formdata.js] and [multipart.js]: [FormData] (a reader of the encoder's output gets the fields).
    - Events, [lib/lws/events.js] and [abort.js]: [Events] (a heap of
      targets, functions and signals; dispatch is re-entrant) and
      [EventsProps] (wrappers and their map agree whatever listeners do;
      [AbortSignal.any], and examples of what goes wrong).
    - Shared: [Prelude] (errors, list and option lemmas, tactics),
      [JsString], [JsNumber] (strings, numbers, octets and conversions),
      [UriComponent] ([encodeURIComponent] and its inverse).

    ** Fuel

    Every loop that is not structural carries fuel, and a theorem says it
    is enough.  [parse_fuel n] is 22 (n + 3): each move of the URL parser
    backwards enters a state of smaller rank ([basicURLParse_terminates]).
    [name_fuel] is 130 (length + 2): at most 128 pointers, with fewer labels
    than bytes between two of them ([dns_decode_terminates]).  [ring_fuel]
    is one more than the cells of the heap, which no ring exceeds.
    Generators take theirs from the caller and the theorems say how much
    they need.  [decodeURIComponent] and the parser of regular expressions
    consume a unit per turn, and their fuel is the length.  The machine of
    [App] has no fuel: its states are those some schedule reaches.
    [CallPullIfNeeded] recurses once: while [pull] runs, [pulling] is set
    and no inner call runs it again.  The loops of byte streams take a unit
    per entry of the queue, descriptor or request.

    ** What is not modelled

    The C side (libwebsockets and its bindings) and the JavaScript that
    only adapts its callbacks: contexts and TLS set-up, the socket classes,
    [fetch.js].  Of [streams.js], tee and pipeTo, async iteration,
    sink methods that call back into their own stream, and failing
    allocations.  Of the framework, the JSON parser and the logger, the
    client's [Request], the immutable [Response], the reading of bodies,
    and multipart parsing, which is in the native LWSSPA; of events,
    timeouts and [waitOne].  The crawler, the chat clients, the debugger
    and the site generator are clients of I/O.  Log messages and
    interpolated parts of error messages are left out.

    ** Plan

    What an extension would take next, on top of what is here: tee and
    pipeTo, which read one modelled stream and write another but run as
    promise reactions between turns, so that the machine of
    [TransformStream] would need a queue of microtasks; the configuration
    of the proxy; the frontier and the Markdown writer of the crawler. *)

From stdpp Require Export base tactics numbers list gmap strings.
From Stdlib Require Export ZArith Lia.

(* ------------------------------------------------------------------ *)
(** ** JavaScript strings and bytes

    A JavaScript string is the list of its UTF-16 code units, a
    [Uint8Array] the list of its bytes; both as [Z]. [js] writes a
    literal of the source. *)

Abbreviation jsstr := (list Z) (only parsing).
Abbreviation bytes := (list Z) (only parsing).

Definition js (s : string) : jsstr :=
  (fun a => Z.of_nat (Ascii.nat_of_ascii a)) <$> String.list_ascii_of_string s.

Definition is_byte (b : Z) : Prop := (0 <= b < 256)%Z.

(* ------------------------------------------------------------------ *)
(** ** Exceptions

    [outcome A] is the completion of a JavaScript call: a value, or a
    thrown error with its class and its message. *)

Inductive error_class := ErrError | ErrTypeError | ErrRangeError | ErrAssertionError | ErrSyntaxError | ErrReferenceError | ErrURIError.

Inductive outcome (A : Type) :=
| Ok (a : A)
| Throw (c : error_class) (msg : string).
Arguments Ok {A} a.
Arguments Throw {A} c msg.

#[export] Instance outcome_ret : MRet outcome := fun A a => Ok a.
#[export] Instance outcome_bind : MBind outcome := fun A B f m =>
  match m with Ok a => f a | Throw c s => Throw c s end.
#[export] Instance outcome_fmap : FMap outcome := fun A B f m =>
  match m with Ok a => Ok (f a) | Throw c s => Throw c s end.

#[export] Instance error_class_eq_dec : EqDecision error_class.
Proof. solve_decision. Defined.
#[export] Instance outcome_eq_dec {A} `{EqDecision A} : EqDecision (outcome A).
Proof. solve_decision. Defined.

Lemma Ok_inj {B} (a b : B) : Ok a = Ok b -> a = b.
Proof. by intros [= ->]. Qed.

(** An exception comes from the first call or from its continuation. *)
Lemma bind_throws {A B} (m : outcome A) (f : A -> outcome B) c msg :
  m ≫= f = Throw c msg -> m = Throw c msg \/ exists a, m = Ok a /\ f a = Throw c msg.
Proof. unfold mbind, outcome_bind. destruct m as [a|c1 m1]; [right; by exists a|]. intros [= -> ->]. by left. Qed.

(** [assert_default] of [lib/lws/assert.js]. *)
Definition assert_default (b : bool) : outcome unit :=
  if b then Ok tt else Throw ErrAssertionError "Assertion failed".

(* ------------------------------------------------------------------ *)
(** ** Generic lemmas on lists *)

Lemma concat_length_uniform {A} (k : nat) (ls : list (list A)) :
  Forall (fun l => length l = k) ls -> length (concat ls) = length ls * k.
Proof.
  induction 1 as [|l ls Hl _ IH]; simpl; [done|].
  rewrite length_app, IH, Hl. lia.
Qed.

Lemma drop_S_lookup {A} (l : list A) (i : nat) (x : A) :
  l !! i = Some x -> drop i l = x :: drop (S i) l.
Proof. intros H. by rewrite (drop_S _ x). Qed.

Lemma concat_snoc {A} (ls : list (list A)) (l : list A) :
  concat (ls ++ [l]) = concat ls ++ l.
Proof. by rewrite concat_app; simpl; rewrite app_nil_r. Qed.

Lemma list_insert_snoc {A} (l : list A) (x y : A) :
  <[length l := y]> (l ++ [x]) = l ++ [y].
Proof. by rewrite <-(Nat.add_0_r (length l)), insert_app_r. Qed.

Lemma drop_S_app {A} (p s : list A) (x : A) : drop (S (length p)) (p ++ x :: s) = s.
Proof. by induction p. Qed.

Lemma filter_Forall {A} (P : A -> Prop) `{forall x, Decision (P x)} (l : list A) :
  Forall P l -> filter P l = l.
Proof.
  induction 1 as [|x l Hx _ IH]; [done|]. by rewrite filter_cons_True, IH.
Qed.

Lemma foldl_snoc {A} (l acc : list A) : foldl (fun seen v => seen ++ [v]) acc l = acc ++ l.
Proof.
  revert acc. induction l as [|v l IH]; intros acc; cbn; [by rewrite app_nil_r|].
  by rewrite IH, <-app_assoc.
Qed.

(** Length goals on concatenations. *)
Create Rewrite HintDb js_len.
#[export] Hint Rewrite @length_app @length_insert @length_fmap @length_drop @length_take
  @length_replicate @length_reverse : js_len.
Ltac solve_len := cbn in *; autorewrite with js_len in *; cbn in *; lia.

(** Split a [Forall] over an explicit list. *)
Ltac forall_list := repeat first [apply Forall_nil_2 | apply Forall_cons_2].

(* ------------------------------------------------------------------ *)
(** ** What a queue promises to its clients

    [lib/lws/streams.js] keeps its chunks and its write requests in
    queues of [lib/lws/simple-queue.js] and uses them only through these
    operations; [fifo_repr q xs] says that [q] holds exactly [xs]. *)

Class Fifo (Q : Type -> Type) := {
  fifo_new {A} : Q A;
  fifo_push {A} : A -> Q A -> outcome (Q A);
  fifo_shift {A} : Q A -> outcome (option A * Q A);
  fifo_peek {A} : Q A -> outcome (option A);
  fifo_length {A} : Q A -> nat;
  fifo_visit {A} : Q A -> list (option A);   (* the values forEach passes to its callback *)
  fifo_repr {A} : Q A -> list A -> Prop;
  fifo_new_repr {A} : fifo_repr (fifo_new (A:=A)) [];
  fifo_push_repr {A} (q : Q A) xs x :
    fifo_repr q xs -> exists q', fifo_push x q = Ok q' /\ fifo_repr q' (xs ++ [x]);
  fifo_shift_repr {A} (q : Q A) x xs :
    fifo_repr q (x :: xs) -> exists q', fifo_shift q = Ok (Some x, q') /\ fifo_repr q' xs;
  fifo_shift_empty {A} (q : Q A) :
    fifo_repr q [] -> fifo_shift q = Throw ErrAssertionError "Assertion failed";
  fifo_peek_repr {A} (q : Q A) x xs : fifo_repr q (x :: xs) -> fifo_peek q = Ok (Some x);
  fifo_peek_empty {A} (q : Q A) :
    fifo_repr q [] -> fifo_peek q = Throw ErrAssertionError "Assertion failed";
  fifo_length_repr {A} (q : Q A) xs : fifo_repr q xs -> fifo_length q = length xs;
  fifo_visit_repr {A} (q : Q A) xs : fifo_repr q xs -> fifo_visit q = Some <$> xs;
}.

(** The reference instance: a plain list. *)
#[export, refine] Instance list_fifo : Fifo list := {
  fifo_new A := [];
  fifo_push A x q := Ok (q ++ [x]);
  fifo_shift A q := match q with [] => Throw ErrAssertionError "Assertion failed" | x :: q => Ok (Some x, q) end;
  fifo_peek A q := match q with [] => Throw ErrAssertionError "Assertion failed" | x :: _ => Ok (Some x) end;
  fifo_length A q := length q;
  fifo_visit A q := Some <$> q;
  fifo_repr A := eq;
  fifo_new_repr A := eq_refl;
}.
Proof. all: intros; subst; eauto. Defined.

(** A client's session with a queue: the operations it calls and what
    each one returns. A thrown operation leaves the queue as it was. *)
Inductive fifo_op (A : Type) := OpPush (x : A) | OpShift | OpPeek | OpLength | OpVisit.
Arguments OpPush {A} x. Arguments OpShift {A}. Arguments OpPeek {A}.
Arguments OpLength {A}. Arguments OpVisit {A}.

Inductive fifo_out (A : Type) :=
| OutUnit | OutVal (v : option A) | OutLen (n : nat) | OutAll (vs : list (option A))
| OutThrow (c : error_class).
Arguments OutUnit {A}. Arguments OutVal {A} v. Arguments OutLen {A} n.
Arguments OutAll {A} vs. Arguments OutThrow {A} c.

Definition fifo_step {Q} `{Fifo Q} {A} (q : Q A) (op : fifo_op A) : fifo_out A * Q A :=
  match op with
  | OpPush x => match fifo_push x q with Ok q' => (OutUnit, q') | Throw c _ => (OutThrow c, q) end
  | OpShift => match fifo_shift q with Ok (v, q') => (OutVal v, q') | Throw c _ => (OutThrow c, q) end
  | OpPeek => match fifo_peek q with Ok v => (OutVal v, q) | Throw c _ => (OutThrow c, q) end
  | OpLength => (OutLen (fifo_length q), q)
  | OpVisit => (OutAll (fifo_visit q), q)
  end.

Fixpoint fifo_run {Q} `{Fifo Q} {A} (q : Q A) (ops : list (fifo_op A)) : list (fifo_out A) * Q A :=
  match ops with
  | [] => ([], q)
  | op :: ops => let '(o, q') := fifo_step q op in
                 let '(os, q'') := fifo_run q' ops in (o :: os, q'')
  end.

Lemma fifo_step_sim {Q} `{Fifo Q} {A} (q : Q A) (l : list A) op :
  fifo_repr q l ->
  (fifo_step q op).1 = (fifo_step l op).1 /\ fifo_repr (fifo_step q op).2 (fifo_step l op).2.
Proof.
  intros Hq. destruct op; cbn.
  - by destruct (fifo_push_repr q l x Hq) as (q' & -> & ?).
  - destruct l as [|y l]; [by rewrite fifo_shift_empty|].
    by destruct (fifo_shift_repr q y l Hq) as (q' & -> & ?).
  - destruct l as [|y l]; [by rewrite fifo_peek_empty|]. by rewrite (fifo_peek_repr q y l).
  - by rewrite (fifo_length_repr q l).
  - by rewrite (fifo_visit_repr q l).
Qed.

Lemma fifo_run_sim {Q} `{Fifo Q} {A} ops : forall (q : Q A) (l : list A),
  fifo_repr q l ->
  (fifo_run q ops).1 = (fifo_run l ops).1 /\ fifo_repr (fifo_run q ops).2 (fifo_run l ops).2.
Proof.
  induction ops as [|op ops IH]; intros q l Hq; [done|]. cbn [fifo_run].
  destruct (fifo_step_sim q l op Hq) as [Ho Hr].
  destruct (fifo_step q op) as [o q'], (fifo_step l op) as [o' l']; cbn in Ho, Hr; subst o'.
  destruct (IH _ _ Hr) as [Hos Hrs].
  destruct (fifo_run q' ops), (fifo_run l' ops); cbn in *. by subst.
Qed.
