(* ===== verification/SimpleQueue.v ===== *)
(** * The chunked FIFO of [lib/lws/simple-queue.js]

    [SimpleQueue] keeps its elements in a linked list of arrays of at most
    [QUEUE_MAX_ARRAY_SIZE] slots, so that [shift] never moves elements.
    Nodes live in an arena indexed by allocation order, [next] is a
    reference into it; a shifted slot holds [undefined] ([None]).  The
    theorems show that the chunked structure is a plain FIFO list. *)

From S2P Require Import Prelude.

Definition QUEUE_MAX_ARRAY_SIZE : nat := Z.to_nat 16384.

Record node (A : Type) := Node {
  elements : list (option A);
  next : option nat;
}.
Arguments Node {A} _ _.
Arguments elements {A} _.
Arguments next {A} _.

Record squeue (A : Type) := SQueue {
  sq_nodes : list (node A);   (* the heap of nodes, in allocation order *)
  sq_front : nat;
  sq_back : nat;
  sq_cursor : nat;
  sq_size : nat;
}.
Arguments SQueue {A} _ _ _ _ _.
Arguments sq_nodes {A} _.
Arguments sq_front {A} _.
Arguments sq_back {A} _.
Arguments sq_cursor {A} _.
Arguments sq_size {A} _.

(** [arr[i] = v]: JavaScript extends an array written past its end. *)
Definition array_set {A} (i : nat) (v : option A) (l : list (option A)) : list (option A) :=
  if decide (i < length l) then <[i := v]> l
  else l ++ replicate (i - length l) None ++ [v].

Section Ops.
Context {A : Type}.
(** The array bound; the code fixes it to [QUEUE_MAX_ARRAY_SIZE]. *)
Variable K : nat.

Definition empty_queue : squeue A := SQueue [Node [] None] 0 0 0 0.

Definition length_q (q : squeue A) : nat := sq_size q.

Definition get_node (q : squeue A) (i : nat) : outcome (node A) :=
  match sq_nodes q !! i with
  | Some n => Ok n
  | None => Throw ErrTypeError "cannot read property of undefined"
  end.

Definition push (x : A) (q : squeue A) : outcome (squeue A) :=
  oldBack ← get_node q (sq_back q);
  assert_default (bool_decide (next oldBack = None)) ;;
  let fresh := length (sq_nodes q) in
  let grow := bool_decide (length (elements oldBack) = K - 1) in
  let oldBack' := Node (elements oldBack ++ [Some x])
                       (if grow then Some fresh else next oldBack) in
  let nodes := <[sq_back q := oldBack']> (sq_nodes q) in
  Ok (SQueue (if grow then nodes ++ [Node [] None] else nodes)
             (sq_front q)
             (if grow then fresh else sq_back q)
             (sq_cursor q) (S (sq_size q))).

(** The new front node and cursor of [shift]. *)
Definition shift_target (q : squeue A) (oldFront : node A) : outcome (nat * nat) :=
  let newCursor := S (sq_cursor q) in
  if decide (newCursor = K) then
    assert_default (bool_decide (length (elements oldFront) = K)) ;;
    assert_default (bool_decide (is_Some (next oldFront))) ;;
    Ok (default 0 (next oldFront), 0)
  else Ok (sq_front q, newCursor).

Definition shift (q : squeue A) : outcome (option A * squeue A) :=
  assert_default (bool_decide (0 < sq_size q)) ;;
  oldFront ← get_node q (sq_front q);
  let element := elements oldFront !! sq_cursor q in
  tgt ← shift_target q oldFront;
  let oldFront' := Node (array_set (sq_cursor q) None (elements oldFront)) (next oldFront) in
  Ok (mjoin element,
      SQueue (<[sq_front q := oldFront']> (sq_nodes q))
             tgt.1 (sq_back q) tgt.2 (sq_size q - 1)).

Definition peek (q : squeue A) : outcome (option A) :=
  assert_default (bool_decide (0 < sq_size q)) ;;
  front ← get_node q (sq_front q);
  Ok (mjoin (elements front !! sq_cursor q)).

(** [next()] of the iterator: [done] and [value]. *)
Definition iterator_next (q : squeue A) : outcome (bool * option A * squeue A) :=
  if decide (length_q q = 0) then Ok (true, None, q)
  else '(v, q') ← shift q; Ok (false, v, q').

(** [forEach]: the loop reads the node and its array anew at each
    turn, so a callback that mutates the queue is seen.  [fuel] bounds
    the number of turns; [None] when it is spent. *)
Fixpoint forEach_loop {St} (fuel : nat) (cb : option A → squeue A * St → squeue A * St)
    (i : nat) (nd : nat) (st : squeue A * St) : option (outcome (squeue A * St)) :=
  match fuel with
  | 0 => None
  | S fuel =>
    match sq_nodes st.1 !! nd with
    | None => Some (Throw ErrTypeError "cannot read property of undefined")
    | Some n =>
      if decide (i ≠ length (elements n) ∨ is_Some (next n)) then
        if decide (i = length (elements n)) then
          match next n with
          | None => Some (Throw ErrAssertionError "Assertion failed")
          | Some nd' =>
            if decide (i = K) then
              match sq_nodes st.1 !! nd' with
              | None => Some (Throw ErrTypeError "cannot read property of undefined")
              | Some n' =>
                if decide (length (elements n') = 0) then Some (Ok st)
                else forEach_loop fuel cb 1 nd' (cb (mjoin (elements n' !! 0)) st)
              end
            else Some (Throw ErrAssertionError "Assertion failed")
          end
        else forEach_loop fuel cb (S i) nd (cb (mjoin (elements n !! i)) st)
      else Some (Ok st)
    end
  end.

Definition forEach {St} (fuel : nat) (cb : option A → squeue A * St → squeue A * St)
    (q : squeue A) (s : St) : option (outcome (squeue A * St)) :=
  forEach_loop fuel cb (sq_cursor q) (sq_front q) (q, s).
End Ops.

(* ------------------------------------------------------------------ *)
(** ** The representation invariant *)

Section Spec.
Context {A : Type}.
Variable K : nat.
Implicit Types (q : squeue A) (xs : list A).

(** The slots reachable from the front node. *)
Definition live (nodes : list (node A)) (front : nat) : list (option A) :=
  concat (elements <$> drop front nodes).

(** [q] holds exactly [xs]: its nodes are [fulls ++ [b]], every node
    but the last is full and linked to its successor, the last has
    room, and the slots from the cursor on are the elements of [xs]. *)
Record shape q xs (fulls : list (node A)) (b : node A) : Prop := {
  sh_nodes : sq_nodes q = fulls ++ [b];
  sh_back : sq_back q = length fulls;
  sh_front : sq_front q <= length fulls;
  sh_fulls : forall i n, fulls !! i = Some n ->
    length (elements n) = K /\ next n = Some (S i);
  sh_room : length (elements b) < K;
  sh_last : next b = None;
  sh_cursor : sq_cursor q < K;
  sh_cursor_live : sq_cursor q <= length (live (sq_nodes q) (sq_front q));
  sh_live : drop (sq_cursor q) (live (sq_nodes q) (sq_front q)) = Some <$> xs;
  sh_size : sq_size q = length xs;
}.

Definition represents q xs : Prop := exists fulls b, shape q xs fulls b.

#[local] Arguments live : simpl never.

Lemma live_cons nodes i n :
  nodes !! i = Some n -> live nodes i = elements n ++ live nodes (S i).
Proof. intros H. unfold live. by rewrite (drop_S _ n i H). Qed.

Lemma live_snoc fulls b i :
  i <= length fulls -> live (fulls ++ [b]) i = live fulls i ++ elements b.
Proof.
  intros H. unfold live. rewrite drop_app_le by done.
  rewrite fmap_app. cbn. apply concat_snoc.
Qed.

Lemma empty_represents : 0 < K -> represents empty_queue [].
Proof.
  intros HK. exists [], (Node [] None).
  split; cbn; try done; lia.
Qed.

Lemma push_represents q xs x :
  0 < K -> represents q xs -> exists q', push K x q = Ok q' /\ represents q' (xs ++ [x]).
Proof.
  intros HK (fulls & b & [Hn Hb Hf Hfu Hr Hl Hc Hcl Hlv Hs]).
  unfold push, get_node. rewrite Hb, Hn, list_lookup_middle by done. cbn.
  rewrite Hl. cbn.
  rewrite list_insert_snoc. eexists; split; [done|].
  rewrite Hn in Hcl, Hlv. rewrite live_snoc in Hcl, Hlv by done.
  case_bool_decide as Hgrow; cbn.
  - eexists (fulls ++ [_]), (Node [] None). split; cbn; try done; try lia.
    all: rewrite ?live_snoc by solve_len.
    1-2: solve_len.
    + intros i n Hi. apply lookup_app_Some in Hi as [Hi|[Hi Hi2]]; [eauto|].
      apply list_lookup_singleton_Some in Hi2 as [? <-]. cbn.
      split; [|f_equal]; solve_len.
    + solve_len.
    + cbn. rewrite app_nil_r, app_assoc, drop_app_le by done.
      by rewrite Hlv, fmap_app.
    + solve_len.
  - eexists fulls, _. split; cbn; try done; try lia.
    all: rewrite ?live_snoc by solve_len.
    1-2,4: solve_len.
    cbn. rewrite app_assoc, drop_app_le by done. by rewrite Hlv, fmap_app.
Qed.

(** The front slot of a non-empty queue. *)
Lemma shape_front q x xs fulls b :
  shape q (x :: xs) fulls b ->
  exists n, sq_nodes q !! sq_front q = Some n /\
    elements n !! sq_cursor q = Some (Some x) /\
    drop (S (sq_cursor q)) (elements n) ++ live (sq_nodes q) (S (sq_front q)) = Some <$> xs.
Proof.
  intros [Hn Hb Hf Hfu Hr Hl Hc Hcl Hlv Hs].
  destruct (lookup_lt_is_Some_2 (sq_nodes q) (sq_front q)) as [n Hfn].
  { rewrite Hn. solve_len. }
  exists n. split; [done|]. rewrite (live_cons _ _ _ Hfn) in Hlv.
  assert (sq_cursor q < length (elements n)) as Hlt.
  { rewrite Hn in Hfn. apply lookup_app_Some in Hfn as [Hi|[Hi Hi2]].
    - apply Hfu in Hi as [Hi _]. lia.
    - apply list_lookup_singleton_Some in Hi2 as [? <-].
      assert (live (sq_nodes q) (S (sq_front q)) = []) as Hnil.
      { unfold live. rewrite drop_ge; [done|]. rewrite Hn. solve_len. }
      rewrite Hnil in Hlv. apply (f_equal length) in Hlv. solve_len. }
  destruct (lookup_lt_is_Some_2 _ _ Hlt) as [o Ho].
  rewrite drop_app_le, (drop_S _ o _ Ho) in Hlv by lia. cbn in Hlv.
  by injection Hlv as -> ->.
Qed.

Lemma live_insert nodes i n n' :
  nodes !! i = Some n -> live (<[i := n']> nodes) (S i) = live nodes (S i).
Proof. intros H. unfold live. by rewrite drop_insert_lt by lia. Qed.

Lemma peek_represents q x xs :
  represents q (x :: xs) -> peek q = Ok (Some x).
Proof.
  intros (fulls & b & Hsh). pose proof (sh_size _ _ _ _ Hsh) as Hs.
  destruct (shape_front _ _ _ _ _ Hsh) as (n & Hn & Ho & _).
  unfold peek, get_node. rewrite Hs. cbn. by rewrite Hn; cbn; rewrite Ho.
Qed.

(** Overwriting a slot of a full front node keeps the shape. *)
Lemma shape_consume q x xs fulls b n :
  shape q (x :: xs) fulls b -> sq_nodes q !! sq_front q = Some n ->
  let n' := Node (<[sq_cursor q := None]> (elements n)) (next n) in
  exists fulls' b', <[sq_front q := n']> (sq_nodes q) = fulls' ++ [b'] /\
    length fulls' = length fulls /\
    (forall i m, fulls' !! i = Some m -> length (elements m) = K /\ next m = Some (S i)) /\
    length (elements b') < K /\ next b' = None.
Proof.
  intros Hsh Hn n'. destruct (Hsh) as [Hno Hb Hf Hfu Hr Hl _ _ _ _].
  rewrite Hno in Hn |- *. apply lookup_app_Some in Hn as [Hi|[Hi Hi2]].
  - pose proof (lookup_lt_Some _ _ _ Hi). rewrite insert_app_l by done.
    eexists _, b. split; [done|]. split; [solve_len|]. split; [|done].
    intros j m Hj. destruct (decide (j = sq_front q)) as [->|Hne].
    + rewrite list_lookup_insert_eq in Hj by done. injection Hj as <-. cbn.
      rewrite length_insert. by apply Hfu in Hi.
    + rewrite list_lookup_insert_ne in Hj by done. by apply Hfu.
  - apply list_lookup_singleton_Some in Hi2 as [Hi2 <-].
    replace (sq_front q) with (length fulls) by lia. rewrite list_insert_snoc.
    eexists _, _. split; [done|]. cbn. rewrite length_insert. done.
Qed.

Lemma shift_represents q x xs :
  represents q (x :: xs) -> exists q', shift K q = Ok (Some x, q') /\ represents q' xs.
Proof.
  intros (fulls & b & Hsh). pose proof Hsh as [Hno Hb Hf Hfu Hr Hl Hc Hcl Hlv Hs].
  destruct (shape_front _ _ _ _ _ Hsh) as (n & Hn & Ho & Hrest).
  destruct (shape_consume _ _ _ _ _ _ Hsh Hn) as (fulls' & b' & Hno' & Hlen & Hfu' & Hr' & Hl').
  pose proof (lookup_lt_Some _ _ _ Ho) as Hlt.
  unfold shift, get_node. rewrite Hs. cbn. rewrite Hn. cbn. rewrite Ho.
  unfold array_set. rewrite decide_True by done. unfold shift_target.
  assert (live (<[sq_front q := Node (<[sq_cursor q := None]> (elements n)) (next n)]> (sq_nodes q))
            (S (sq_front q)) = live (sq_nodes q) (S (sq_front q))) as Hlive
    by (eapply live_insert; done).
  rewrite Hno in Hn. destruct (decide (S (sq_cursor q) = K)) as [HK|HK].
  - apply lookup_app_Some in Hn as [Hn|[_ Hn]].
    2:{ apply list_lookup_singleton_Some in Hn as [_ <-]. lia. }
    pose proof (lookup_lt_Some _ _ _ Hn). destruct (Hfu _ _ Hn) as [HnK Hnn].
    rewrite Hnn, !bool_decide_eq_true_2 by (done || lia). cbn.
    eexists; split; [done|]. exists fulls', b'. rewrite Hnn in *.
    rewrite drop_ge in Hrest by lia. cbn in Hrest.
    split; cbn -[live]; rewrite ?Hlive, ?Hrest; try done; lia.
  - rewrite bool_decide_eq_true_2 by lia. cbn.
    eexists; split; [done|]. exists fulls', b'.
    assert (<[sq_front q := Node (<[sq_cursor q := None]> (elements n)) (next n)]> (sq_nodes q)
      !! sq_front q = Some (Node (<[sq_cursor q := None]> (elements n)) (next n))) as Hn'.
    { rewrite list_lookup_insert_eq; [done|]. rewrite Hno. eapply lookup_lt_Some, Hn. }
    split; cbn -[live]; try done; try lia.
    all: rewrite (live_cons _ _ _ Hn'), Hlive; cbn; try solve_len.
    rewrite drop_app_le by solve_len. by rewrite drop_insert_lt by lia.
Qed.

Lemma empty_shift q : represents q [] -> shift K q = Throw ErrAssertionError "Assertion failed".
Proof. intros (fulls & b & Hsh). unfold shift. by rewrite (sh_size _ _ _ _ Hsh). Qed.

Lemma empty_peek q : represents q [] -> peek q = Throw ErrAssertionError "Assertion failed".
Proof. intros (fulls & b & Hsh). unfold peek. by rewrite (sh_size _ _ _ _ Hsh). Qed.

(** A node is either full and linked, or the back node. *)
Lemma shape_node q xs fulls b nd n :
  shape q xs fulls b -> sq_nodes q !! nd = Some n ->
  (nd < length fulls /\ length (elements n) = K /\ next n = Some (S nd) /\
    exists n', sq_nodes q !! S nd = Some n') \/
  (n = b /\ next n = None /\ live (sq_nodes q) (S nd) = []).
Proof.
  intros [Hno _ _ Hfu _ Hl _ _ _ _] Hn. pose proof Hn as Hn0.
  rewrite Hno in Hn. apply lookup_app_Some in Hn as [Hn|[Hge Hn]].
  - pose proof (lookup_lt_Some _ _ _ Hn). apply Hfu in Hn as [? ?].
    left. split_and!; try done. apply lookup_lt_is_Some_2. rewrite Hno. solve_len.
  - apply list_lookup_singleton_Some in Hn as [? <-]. right. split_and!; try done.
    unfold live. rewrite drop_ge; [done|]. rewrite Hno. solve_len.
Qed.

(** The loop of [forEach] visits the slots from [i] on in order, when
    the callback leaves the queue alone. *)
Lemma forEach_loop_spec {St} (f : St -> option A -> St) q xs fulls b ys :
  shape q xs fulls b ->
  forall fuel i nd n (s : St), length ys < fuel ->
  sq_nodes q !! nd = Some n -> i <= length (elements n) ->
  drop i (live (sq_nodes q) nd) = Some <$> ys ->
  forEach_loop K fuel (fun v st => (st.1, f st.2 v)) i nd (q, s)
  = Some (Ok (q, foldl f s (Some <$> ys))).
Proof.
  intros Hsh. pose proof (sh_room _ _ _ _ Hsh) as HK.
  induction ys as [|y ys IH]; intros [|fuel] i nd n s Hfuel Hn Hi Hd; try (cbn in Hfuel; lia);
    pose proof (live_cons _ _ _ Hn) as Hlive; rewrite Hlive in Hd;
    cbn [length forEach_loop fst]; rewrite Hn;
    destruct (shape_node _ _ _ _ _ _ Hsh Hn) as [(Hlt & HnK & Hnn & n' & Hn')|(-> & Hnn & Hend)];
    rewrite Hnn.
  - rewrite decide_True by eauto. apply (f_equal length) in Hd.
    rewrite length_drop, length_app, (live_cons _ _ _ Hn'), length_app in Hd. cbn in Hd.
    rewrite !decide_True by lia. by rewrite Hn', decide_True by lia.
  - rewrite Hend, app_nil_r in Hd. apply (f_equal length) in Hd.
    rewrite decide_False; [done|]. intros [?|[? ?]]; [solve_len|done].
  - rewrite decide_True by eauto. destruct (decide (i = length (elements n))) as [->|Hne].
    + rewrite decide_True, Hn' by lia. rewrite drop_app_length in Hd.
      pose proof Hd as Hd'. rewrite (live_cons _ _ _ Hn') in Hd.
      destruct (elements n') as [|o os] eqn:Ho; cbn in Hd.
      { exfalso. destruct (shape_node _ _ _ _ _ _ Hsh Hn') as [(_ & Hz & _)|(_ & _ & Hend)].
        - rewrite Ho in Hz. cbn in Hz. lia.
        - by rewrite Hend in Hd. }
      rewrite decide_False by (cbn; lia). injection Hd as -> Hd.
      apply (IH fuel 1 (S nd) n'); [cbn in Hfuel; lia|done|rewrite Ho; cbn; lia|by rewrite Hd'].
    + destruct (lookup_lt_is_Some_2 (elements n) i) as [o Ho]; [lia|].
      rewrite drop_app_le, (drop_S _ o _ Ho) in Hd by lia.
      injection Hd as -> Hd. rewrite Ho.
      apply (IH fuel (S i) nd n); [cbn in Hfuel; lia|done|lia|]. by rewrite Hlive, drop_app_le by lia.
  - rewrite Hend, app_nil_r in Hd. assert (i < length (elements b)) as Hlt.
    { apply (f_equal length) in Hd. solve_len. }
    destruct (lookup_lt_is_Some_2 (elements b) i Hlt) as [o Ho].
    rewrite (drop_S _ o _ Ho) in Hd. injection Hd as -> Hd.
    rewrite decide_True, decide_False, Ho by lia.
    apply (IH fuel (S i) nd b); [cbn in Hfuel; lia|done|lia|]. by rewrite Hlive, Hend, app_nil_r.
Qed.

Lemma forEach_represents {St} (f : St -> option A -> St) q xs (s : St) fuel :
  represents q xs -> length xs < fuel ->
  forEach K fuel (fun v st => (st.1, f st.2 v)) q s
  = Some (Ok (q, foldl f s (Some <$> xs))).
Proof.
  intros (fulls & b & Hsh) Hfuel. pose proof Hsh as [Hno _ Hf _ _ _ _ Hcl Hlv _].
  destruct (lookup_lt_is_Some_2 (sq_nodes q) (sq_front q)) as [n Hn].
  { rewrite Hno. solve_len. }
  apply (forEach_loop_spec f q xs fulls b xs Hsh fuel _ _ n s Hfuel Hn); [|done].
  destruct (shape_node _ _ _ _ _ _ Hsh Hn) as [(_ & -> & _)|(_ & _ & Hend)].
  - apply Nat.lt_le_incl, (sh_cursor _ _ _ _ Hsh).
  - rewrite (live_cons _ _ _ Hn), Hend in Hcl. solve_len.
Qed.
End Spec.

(* ------------------------------------------------------------------ *)
(** ** The queue of the code, as an instance of the interface *)

Lemma queue_max_pos : 0 < QUEUE_MAX_ARRAY_SIZE.
Proof. unfold QUEUE_MAX_ARRAY_SIZE. lia. Qed.

(** [q.forEach(v => seen.push(v))]. *)
Definition visit {A} (q : squeue A) : list (option A) :=
  match forEach QUEUE_MAX_ARRAY_SIZE (S (length_q q)) (fun v st => (st.1, st.2 ++ [v])) q [] with
  | Some (Ok st) => st.2
  | _ => []
  end.

Lemma visit_represents {A} (q : squeue A) xs :
  represents QUEUE_MAX_ARRAY_SIZE q xs -> visit q = Some <$> xs.
Proof.
  intros Hq. unfold visit, length_q. pose proof Hq as (fulls & b & Hsh).
  rewrite (sh_size _ _ _ _ _ Hsh).
  rewrite (forEach_represents _ (fun seen v => seen ++ [v]) q xs) by (done || lia). cbn.
  apply foldl_snoc.
Qed.

#[export, refine] Instance simple_queue_fifo : Fifo squeue := {
  fifo_new A := empty_queue;
  fifo_push A := push QUEUE_MAX_ARRAY_SIZE;
  fifo_shift A := shift QUEUE_MAX_ARRAY_SIZE;
  fifo_peek A := peek;
  fifo_length A := length_q;
  fifo_visit A := visit;
  fifo_repr A := represents QUEUE_MAX_ARRAY_SIZE;
  fifo_new_repr A := empty_represents _ queue_max_pos;
  fifo_push_repr A q xs x := push_represents _ q xs x queue_max_pos;
  fifo_shift_repr A := shift_represents _;
  fifo_shift_empty A := empty_shift _;
  fifo_peek_repr A := peek_represents _;
  fifo_peek_empty A := empty_peek _;
  fifo_length_repr A q xs := _;
  fifo_visit_repr A := visit_represents;
}.
Proof. intros (fulls & b & Hsh). apply (sh_size _ _ _ _ _ Hsh). Defined.

(** C5: whatever sequence of [push], [shift], [peek], [length] and
    [forEach] a client runs on a fresh [SimpleQueue], every call returns
    what it would return on a plain list used as a FIFO; in particular no
    internal assertion of [push] ever fails and [shift]/[peek] throw on
    the empty queue only. *)
Theorem simple_queue_refines_list {A} (ops : list (fifo_op A)) :
  (fifo_run (Q:=squeue) empty_queue ops).1 = (fifo_run (Q:=list) [] ops).1.
Proof.
  change (empty_queue (A:=A)) with (fifo_new (Q:=squeue) (A:=A)).
  apply fifo_run_sim, fifo_new_repr.
Qed.
