(* ===== verification/ByteQueue.v ===== *)
(** * The byte queue of [lib/lws/byte-queue.js]

    [ByteQueue] turns pushed chunks ([feed]) into pull-style reads: a
    promise of exactly [n] bytes, or of [null] once closed.  [#waiting]
    holds at most one pending read.  Promises are numbered in creation
    order; settling one is an entry of the log [settled]. *)

From S2P Require Import Prelude.

Record bqueue := BQueue {
  buf : bytes;
  closed : bool;
  waiting : option (nat * nat);             (* { n, resolve }: length and promise *)
  next_promise : nat;
  settled : list (nat * option bytes);      (* resolve(v), in order; None is null *)
}.

Definition new_bqueue : bqueue := BQueue [] false None 0 [].

(** [#check] *)
Definition check (q : bqueue) : bqueue :=
  match waiting q with
  | None => q
  | Some (n, p) =>
    if decide (n <= length (buf q)) then
      BQueue (drop n (buf q)) (closed q) None (next_promise q)
             (settled q ++ [(p, Some (take n (buf q)))])
    else if closed q then
      BQueue (buf q) (closed q) None (next_promise q) (settled q ++ [(p, None)])
    else q
  end.

Definition feed (chunk : bytes) (q : bqueue) : bqueue :=
  check (BQueue (buf q ++ chunk) (closed q) (waiting q) (next_promise q) (settled q)).

Definition close (q : bqueue) : bqueue :=
  check (BQueue (buf q) true (waiting q) (next_promise q) (settled q)).

(** [read(n)] returns the promise [next_promise q]. *)
Definition read (n : nat) (q : bqueue) : bqueue :=
  check (BQueue (buf q) (closed q) (Some (n, next_promise q)) (S (next_promise q)) (settled q)).

Inductive bq_op := Feed (chunk : bytes) | Close | Read (n : nat).

Definition bq_step (q : bqueue) (op : bq_op) : bqueue :=
  match op with Feed c => feed c q | Close => close q | Read n => read n q end.

Definition bq_run (ops : list bq_op) : bqueue := foldl bq_step new_bqueue ops.

(** What a session fed, and what it asked for: read [p] is the [p]-th one. *)
Definition fed (ops : list bq_op) : bytes :=
  concat ((fun op => match op with Feed c => c | _ => [] end) <$> ops).
Definition asked (ops : list bq_op) : list nat :=
  omap (fun op => match op with Read n => Some n | _ => None end) ops.
Definition delivered (q : bqueue) : bytes := concat (default [] ∘ snd <$> settled q).

Record bq_inv (ops : list bq_op) (q : bqueue) : Prop := {
  inv_stream : delivered q ++ buf q = fed ops;
  inv_promise : next_promise q = length (asked ops);
  inv_waiting : forall n p, waiting q = Some (n, p) ->
    asked ops !! p = Some n /\ length (buf q) < n /\ closed q = false /\ p ∉ (settled q).*1;
  inv_settled : forall p v, (p, v) ∈ settled q ->
    exists n, asked ops !! p = Some n /\
      match v with Some bs => length bs = n | None => closed q = true end;
  inv_once : NoDup (settled q).*1;
}.

(* ------------------------------------------------------------------ *)
(** ** The invariant *)

Section Invariant.
Implicit Types (q : bqueue) (ops : list bq_op).

Lemma fed_snoc ops op :
  fed (ops ++ [op]) = fed ops ++ match op with Feed c => c | _ => [] end.
Proof. unfold fed. by rewrite fmap_app, concat_app; cbn; rewrite app_nil_r. Qed.

Lemma asked_snoc ops op :
  asked (ops ++ [op]) = asked ops ++ match op with Read n => [n] | _ => [] end.
Proof. unfold asked. rewrite omap_app. by destruct op. Qed.

Lemma settled_fresh ops q p :
  bq_inv ops q -> length (asked ops) <= p -> p ∉ (settled q).*1.
Proof.
  intros Hq Hp [[p' v] [-> Hin]]%list_elem_of_fmap.
  destruct (inv_settled _ _ Hq _ _ Hin) as (n & Hn & _).
  apply lookup_lt_Some in Hn. cbn in *. lia.
Qed.

(** [#check] re-establishes the invariant whatever is pending. *)
Lemma check_inv ops q :
  delivered q ++ buf q = fed ops -> next_promise q = length (asked ops) ->
  (forall n p, waiting q = Some (n, p) -> asked ops !! p = Some n /\ p ∉ (settled q).*1) ->
  (forall p v, (p, v) ∈ settled q -> exists n, asked ops !! p = Some n /\
     match v with Some bs => length bs = n | None => closed q = true end) ->
  NoDup (settled q).*1 -> bq_inv ops (check q).
Proof.
  intros Hs Hp Hw Hset Hnd. unfold check.
  destruct (waiting q) as [[n p]|] eqn:Hwq; [|by split; try done; rewrite Hwq].
  destruct (Hw n p eq_refl) as [Hn Hfresh].
  assert (forall v, NoDup (settled q ++ [(p, v)]).*1) as Hnd'.
  { intros v. rewrite fmap_app. apply NoDup_app; split_and!; [done| |apply NoDup_singleton].
    intros x Hx ->%list_elem_of_singleton. done. }
  case_decide as Hlen; [|destruct (closed q) eqn:Hc]; split; cbn; try done.
  - rewrite <-Hs. unfold delivered. cbn. rewrite fmap_app, concat_app. cbn.
    by rewrite app_nil_r, <-app_assoc, take_drop.
  - intros p' v [?|[= -> ->]%list_elem_of_singleton]%elem_of_app; [by apply Hset|].
    exists n. split; [done|]. rewrite length_take. lia.
  - rewrite <-Hs. unfold delivered. cbn. rewrite fmap_app, concat_app. cbn.
    by rewrite app_nil_r.
  - intros p' v [?|[= -> ->]%list_elem_of_singleton]%elem_of_app; [by apply Hset|by eauto].
  - intros n' p'. rewrite Hwq. intros [= -> ->]. split_and!; try done. lia.
  - rewrite Hc. exact Hset.
Qed.

Lemma step_inv ops q op : bq_inv ops q -> bq_inv (ops ++ [op]) (bq_step q op).
Proof.
  intros Hq. pose proof Hq as [Hs Hp Hw Hset Hnd].
  destruct op as [c| |n]; apply check_inv; cbn;
    rewrite ?fed_snoc, ?asked_snoc, ?app_nil_r; try done.
  - unfold delivered in *. cbn. by rewrite app_assoc, Hs.
  - intros n p (? & ? & ? & ?)%Hw. done.
  - intros n p (? & ? & ? & ?)%Hw. done.
  - intros p [v|] Hin; [by apply (Hset p (Some v))|]. destruct (Hset _ _ Hin) as (n & ? & _). eauto.
  - rewrite length_app, Hp. cbn. lia.
  - intros n' p [= <- <-]. rewrite Hp, lookup_app_r, Nat.sub_diag by lia.
    split; [done|]. by apply (settled_fresh ops q).
  - intros p v Hin. destruct (Hset _ _ Hin) as (m & Hm & ?). exists m.
    split; [by apply lookup_app_l_Some|done].
Qed.

Lemma run_inv ops : bq_inv ops (bq_run ops).
Proof.
  unfold bq_run. induction ops as [|op ops IH] using rev_ind.
  - split; cbn; try done; [by intros p v Hv%elem_of_nil|apply NoDup_nil_2].
  - rewrite foldl_app. by apply step_inv.
Qed.
End Invariant.

(** in every session, the bytes handed out by [read] so far followed
    by the bytes still buffered are exactly the bytes fed, in order:
    nothing is lost, duplicated or reordered. *)
Theorem byte_queue_stream ops :
  delivered (bq_run ops) ++ buf (bq_run ops) = fed ops.
Proof. apply run_inv. Qed.

(** a [read(n)] settles at most once, with exactly [n] bytes, or with
    [null] only after [close]; and a read is left pending only while
    fewer than [n] bytes are buffered and the queue is open. *)
Theorem byte_queue_reads ops :
  let q := bq_run ops in
  NoDup (settled q).*1 /\
  (forall p v, (p, v) ∈ settled q -> exists n, asked ops !! p = Some n /\
     match v with Some bs => length bs = n | None => closed q = true end) /\
  (forall n p, waiting q = Some (n, p) ->
     asked ops !! p = Some n /\ length (buf q) < n /\ closed q = false).
Proof.
  destruct (run_inv ops) as [_ _ Hw Hset Hnd]. split_and!; try done.
  intros n p (? & ? & ? & _)%Hw. done.
Qed.

Lemma byte_queue_reads_witness :
  let ops := [Read 3; Feed [1%Z; 2%Z]; Feed [3%Z; 4%Z]; Read 2] in
  (0, Some [1%Z; 2%Z; 3%Z]) ∈ settled (bq_run ops) /\ waiting (bq_run ops) = Some (2, 1) /\
  length (buf (bq_run ops)) < 2.
Proof.
  split; [vm_compute; constructor|]. split; [reflexivity|].
  apply (proj2 (proj2 (byte_queue_reads [Read 3; Feed [1%Z; 2%Z]; Feed [3%Z; 4%Z]; Read 2])) 2 1).
  reflexivity.
Defined.
