(* ===== verification/JsString.v ===== *)
(** * JavaScript strings and numbers

    The parts of the language's [String] and [Number] the modelled code
    uses, on strings as lists of UTF-16 code units: iteration by code
    points, ASCII case mapping, [split], [indexOf], [slice], [trim],
    [padStart], [toString(radix)] and [parseInt]. *)

From S2P Require Import Prelude.
Open Scope Z_scope.

(* ------------------------------------------------------------------ *)
(** ** Code points *)

Definition is_high (u : Z) : bool := (0xD800 <=? u) && (u <=? 0xDBFF).
Definition is_low (u : Z) : bool := (0xDC00 <=? u) && (u <=? 0xDFFF).

(** [[...s]]: the code points of [s], each as a string of one or two units. *)
Fixpoint spread (s : jsstr) : list jsstr :=
  match s with
  | [] => []
  | h :: t =>
    match t with
    | l :: t' => if is_high h && is_low l then [h; l] :: spread t' else [h] :: spread t
    | [] => [[h]]
    end
  end.

(** [ch.codePointAt(0)] *)
Definition codePointAt0 (ch : jsstr) : Z :=
  match ch with
  | h :: l :: _ => if is_high h && is_low l
                   then 0x10000 + (h - 0xD800) * 0x400 + (l - 0xDC00) else h
  | [h] => h
  | [] => 0
  end.

(** A string whose surrogates are all paired, and whose units are in range. *)
Definition scalar_char (ch : jsstr) : bool :=
  match ch with
  | [h; l] => is_high h && is_low l
  | [h] => (0 <=? h) && (h <=? 0xFFFF) && negb (is_high h) && negb (is_low h)
  | _ => false
  end.
Definition well_formed (s : jsstr) : bool := forallb scalar_char (spread s).

(* ------------------------------------------------------------------ *)
(** ** Character classes and case *)

Definition is_digit (u : Z) : bool := (0x30 <=? u) && (u <=? 0x39).
Definition is_upper (u : Z) : bool := (0x41 <=? u) && (u <=? 0x5a).
Definition is_lower (u : Z) : bool := (0x61 <=? u) && (u <=? 0x7a).
Definition is_alpha (u : Z) : bool := is_upper u || is_lower u.
Definition is_alnum (u : Z) : bool := is_alpha u || is_digit u.

Definition lower_unit (u : Z) : Z := if is_upper u then u + 0x20 else u.
Definition upper_unit (u : Z) : Z := if is_lower u then u - 0x20 else u.

(** The case mapping outside ASCII comes from the Unicode tables of the
    engine: a parameter. *)
Class UnicodeTables := { lower_nonascii : jsstr -> jsstr }.

Definition toLowerCase `{UnicodeTables} (s : jsstr) : jsstr :=
  concat ((fun ch => match ch with
                     | [u] => if u <? 128 then [lower_unit u] else lower_nonascii ch
                     | _ => lower_nonascii ch end) <$> spread s).

(** [toLowerCase] on strings the code has checked to be ASCII. *)
Definition ascii_lower (s : jsstr) : jsstr := lower_unit <$> s.
Definition ascii_upper (s : jsstr) : jsstr := upper_unit <$> s.

(* ------------------------------------------------------------------ *)
(** ** Slicing and searching *)

Fixpoint split_on (sep : Z) (s : jsstr) : list jsstr :=
  match s with
  | [] => [[]]
  | u :: t => if u =? sep then [] :: split_on sep t
              else match split_on sep t with
                   | p :: ps => (u :: p) :: ps
                   | [] => [[u]]
                   end
  end.

(** [arr.join(sep)] *)
Fixpoint join (sep : jsstr) (parts : list jsstr) : jsstr :=
  match parts with
  | [] => []
  | [p] => p
  | p :: ps => p ++ sep ++ join sep ps
  end.

Fixpoint index_of (c : Z) (s : jsstr) : option nat :=
  match s with
  | [] => None
  | u :: t => if u =? c then Some 0%nat else S <$> index_of c t
  end.

Definition starts_with (p s : jsstr) : bool := bool_decide (take (length p) s = p).
Definition ends_with (p s : jsstr) : bool :=
  bool_decide (drop (length s - length p)%nat s = p).

Fixpoint drop_while (f : Z -> bool) (s : jsstr) : jsstr :=
  match s with
  | u :: t => if f u then drop_while f t else s
  | [] => []
  end.

(** [s.replace(/^[f]+|[f]+$/g, '')] *)
Definition trim_by (f : Z -> bool) (s : jsstr) : jsstr :=
  reverse (drop_while f (reverse (drop_while f s))).

(** White space and line terminators of [String.prototype.trim]. *)
Definition is_js_space (u : Z) : bool :=
  bool_decide (u ∈ [0x09; 0x0a; 0x0b; 0x0c; 0x0d; 0x20; 0xa0; 0x1680; 0x2028; 0x2029; 0x202f; 0x205f; 0x3000; 0xfeff])
  || ((0x2000 <=? u) && (u <=? 0x200a)).
Definition trim (s : jsstr) : jsstr := trim_by is_js_space s.

Definition replace_unit (c : Z) (by_ : jsstr) (s : jsstr) : jsstr :=
  concat ((fun u => if u =? c then by_ else [u]) <$> s).

Definition padStart (n : nat) (c : Z) (s : jsstr) : jsstr :=
  replicate (n - length s) c ++ s.

(* ------------------------------------------------------------------ *)
(** ** The order of strings *)

(** JavaScript compares strings unit by unit. *)
Fixpoint str_ltb (a b : jsstr) : bool :=
  match a, b with
  | _, [] => false
  | [], _ :: _ => true
  | x :: a, y :: b => (x <? y) || ((x =? y) && str_ltb a b)
  end.

(* ------------------------------------------------------------------ *)
(** ** Numbers *)

(** The digit [d < 36] as [Number.prototype.toString(radix)] writes it. *)
Definition digit_char (d : Z) : Z := if d <? 10 then 0x30 + d else 0x57 + d.

Definition digit_value (u : Z) : option Z :=
  if is_digit u then Some (u - 0x30)
  else if is_lower u then Some (u - 0x57)
  else if is_upper u then Some (u - 0x37)
  else None.

Fixpoint to_string_loop (fuel : nat) (radix n : Z) (acc : jsstr) : jsstr :=
  match fuel with
  | O => acc
  | S fuel => let acc := digit_char (n mod radix) :: acc in
              if n / radix =? 0 then acc else to_string_loop fuel radix (n / radix) acc
  end.

(** [n.toString(radix)] of a non-negative integer; a number below [2^64]
    has at most 64 digits in any radix. *)
Definition to_string (radix n : Z) : jsstr := to_string_loop 64 radix n [].

(** The digits [parseInt(s, radix)] accumulates; it stops at the first
    character that is not a digit of the radix. *)
Fixpoint parse_digits (radix acc : Z) (s : jsstr) : Z :=
  match s with
  | [] => acc
  | u :: t => match digit_value u with
              | Some d => if d <? radix then parse_digits radix (acc * radix + d) t else acc
              | None => acc
              end
  end.

(** [parseInt(s, radix)] of a string that begins with a digit. *)
Definition parseInt (s : jsstr) (radix : Z) : Z := parse_digits radix 0 s.

(* ------------------------------------------------------------------ *)
(** ** Lemmas on code points *)

(** The code points of a string, one surrogate pair or one unit each. *)
Definition is_char (ch : jsstr) : Prop :=
  (exists u, ch = [u]) \/ (exists h l, ch = [h; l] /\ is_high h && is_low l = true).

(** Induction along [spread]: a pair, or one unit. *)
Lemma spread_ind (P : jsstr -> list jsstr -> Prop) :
  P [] [] ->
  (forall h l t, is_high h && is_low l = true -> P t (spread t) -> P (h :: l :: t) ([h; l] :: spread t)) ->
  (forall u t, spread (u :: t) = [u] :: spread t -> P t (spread t) -> P (u :: t) ([u] :: spread t)) ->
  forall s, P s (spread s).
Proof.
  intros Hnil Hpair Hone s.
  assert (forall n s, (length s <= n)%nat -> P s (spread s)) as Hall; [|by apply (Hall (length s))].
  clear s. induction n as [|n IH]; intros [|h [|l t]] Hlen; cbn in Hlen; try done; try lia.
  - apply (Hone h []); [done|apply Hnil].
  - cbn [spread]. destruct (is_high h && is_low l) eqn:E.
    + apply Hpair; [done|]. apply IH. lia.
    + apply (Hone h (l :: t)); [cbn [spread]; by rewrite E|]. apply IH. cbn. lia.
Qed.

Lemma concat_spread s : concat (spread s) = s.
Proof. apply (spread_ind (fun s l => concat l = s)); cbn; intros; congruence. Qed.

Lemma spread_chars s : Forall is_char (spread s).
Proof.
  apply (spread_ind (fun _ l => Forall is_char l)); intros; constructor; try done.
  - right; eauto.
  - left; eauto.
Qed.

Lemma spread_char ch : is_char ch -> spread ch = [ch].
Proof. intros [[u ->]|(h & l & -> & E)]; cbn; [done|by rewrite E]. Qed.

Lemma spread_elem s ch : ch ∈ spread s -> spread ch = [ch].
Proof. intros Hin. apply spread_char. by eapply Forall_forall in Hin; [|apply spread_chars]. Qed.

Lemma length_spread s : (length (spread s) <= length s)%nat.
Proof. apply (spread_ind (fun s l => (length l <= length s)%nat)); cbn; intros; lia. Qed.

(** Iterating a concatenation can only merge code points, at the seam. *)
Lemma length_spread_cons u s :
  (length (spread s) <= length (spread (u :: s)) <= S (length (spread s)))%nat.
Proof.
  assert (forall n s u, (length s <= n)%nat ->
    (length (spread s) <= length (spread (u :: s)) <= S (length (spread s)))%nat) as Hall;
    [|by apply (Hall (length s))].
  clear s u. induction n as [|n IH]; intros [|v s] u Hlen; cbn in Hlen; try (cbn; lia).
  cbn [spread]. destruct (is_high u && is_low v); [|cbn [length]; lia].
  pose proof (IH s v ltac:(lia)). cbn [length] in *. cbn [spread] in *. lia.
Qed.

Lemma length_spread_app s t : (length (spread (s ++ t)) <= length (spread s) + length (spread t))%nat.
Proof.
  apply (spread_ind (fun s l => (length (spread (s ++ t)) <= length l + length (spread t))%nat)).
  - done.
  - intros h l s' E IH. cbn [app spread]. rewrite E. cbn [length]. lia.
  - intros u s' _ IH. cbn [app length]. pose proof (length_spread_cons u (s' ++ t)). lia.
Qed.

Lemma spread_ascii s : Forall (fun u => u < 128) s -> spread s = (fun u => [u]) <$> s.
Proof.
  induction 1 as [|u s Hu Hs IH]; [done|]. rewrite fmap_cons, <-IH.
  destruct s as [|v s]; cbn [spread]; [done|].
  replace (is_high u) with false; [done|]. unfold is_high. symmetry.
  apply andb_false_iff. left. apply Z.leb_gt. lia.
Qed.

(* ------------------------------------------------------------------ *)
(** ** Lemmas on [split], [join] and [indexOf] *)

Lemma split_on_app sep p s :
  sep ∉ p -> split_on sep (p ++ sep :: s) = p :: split_on sep s.
Proof.
  induction p as [|u p IH]; cbn; intros Hp; [by rewrite Z.eqb_refl|].
  apply not_elem_of_cons in Hp as [Hu Hp]. rewrite IH by done.
  by destruct (Z.eqb_spec u sep).
Qed.

Lemma split_on_none sep p : sep ∉ p -> split_on sep p = [p].
Proof.
  induction p as [|u p IH]; cbn; intros Hp; [done|].
  apply not_elem_of_cons in Hp as [Hu Hp]. rewrite IH by done.
  by destruct (Z.eqb_spec u sep).
Qed.

Lemma split_on_join sep parts :
  parts <> [] -> Forall (fun p => sep ∉ p) parts -> split_on sep (join [sep] parts) = parts.
Proof.
  intros Hne Hall. induction Hall as [|p ps Hp Hps IH]; [done|].
  destruct ps as [|q ps]; [by apply split_on_none|]. cbn [join app].
  rewrite split_on_app by done. f_equal. by apply IH.
Qed.

(** [arr.join(sep)] undoes [split(sep)]. *)
Lemma join_split_on sep s : join [sep] (split_on sep s) = s.
Proof.
  induction s as [|u s IH]; [done|]. cbn [split_on].
  destruct (split_on sep s) as [|p ps] eqn:E.
  - destruct s; cbn in E; [done|]. repeat case_match; done.
  - destruct (Z.eqb_spec u sep) as [->|].
    + by destruct ps; cbn [join app] in *; rewrite IH.
    + by destruct ps; cbn [join app] in *; rewrite IH.
Qed.

Lemma split_on_not_in sep s : Forall (fun p => sep ∉ p) (split_on sep s).
Proof.
  induction s as [|u s IH]; cbn; [repeat constructor; apply not_elem_of_nil|].
  destruct (Z.eqb_spec u sep) as [|Hu]; [constructor; [apply not_elem_of_nil|done]|].
  destruct (split_on sep s); constructor; try done.
  - by apply not_elem_of_cons; split; [|apply not_elem_of_nil].
  - apply not_elem_of_cons; split; [done|]. by inversion IH.
  - by inversion IH.
Qed.

Lemma split_on_ne sep s : split_on sep s <> [].
Proof. destruct s as [|u s]; cbn; [done|]. repeat case_match; done. Qed.

Lemma index_of_app c p s : c ∉ p -> index_of c (p ++ c :: s) = Some (length p).
Proof.
  induction p as [|u p IH]; cbn; intros Hp; [by rewrite Z.eqb_refl|].
  apply not_elem_of_cons in Hp as [Hu Hp]. rewrite IH by done.
  by destruct (Z.eqb_spec u c).
Qed.

Lemma replace_unit_cons c by_ u s :
  replace_unit c by_ (u :: s) = (if u =? c then by_ else [u]) ++ replace_unit c by_ s.
Proof. done. Qed.

(* ------------------------------------------------------------------ *)
(** ** Lemmas on the order *)

Lemma str_ltb_irrefl a : str_ltb a a = false.
Proof. induction a as [|x a IH]; cbn; [done|]. rewrite IH, Z.ltb_irrefl, Z.eqb_refl. done. Qed.

Lemma str_ltb_trans a : forall b c, str_ltb a b = true -> str_ltb b c = true -> str_ltb a c = true.
Proof.
  induction a as [|x a IH]; intros [|y b] [|z c]; cbn; try done.
  intros [?|[? ?]%andb_prop]%orb_prop [?|[? ?]%andb_prop]%orb_prop; apply orb_true_iff; try (left; lia).
  right. apply andb_true_iff. split; [lia|]. by eapply IH.
Qed.

Lemma str_ltb_total a : forall b, str_ltb a b = false -> str_ltb b a = false -> a = b.
Proof.
  induction a as [|x a IH]; intros [|y b]; cbn; try done.
  intros [? Ha]%orb_false_iff [? Hb]%orb_false_iff. assert (x = y) as -> by lia.
  rewrite Z.eqb_refl in *. cbn in *. f_equal. by apply IH.
Qed.

Lemma str_ltb_asym a b : str_ltb a b = true -> str_ltb b a = false.
Proof.
  intros Hab. apply not_true_iff_false. intros Hba.
  pose proof (str_ltb_trans _ _ _ Hab Hba) as Haa. by rewrite str_ltb_irrefl in Haa.
Qed.

(** Names in order, [a <= b]. *)
Definition str_le (a b : jsstr) : Prop := str_ltb b a = false.

#[export] Instance str_le_dec : RelDecision str_le.
Proof. intros a b. unfold str_le. apply _. Defined.
#[export] Instance str_le_total : Total str_le.
Proof.
  intros a b. unfold str_le. destruct (str_ltb b a) eqn:E; [right|by left]. by apply str_ltb_asym.
Qed.
#[export] Instance str_le_trans : Transitive str_le.
Proof.
  intros a b c. unfold str_le. intros Hab Hbc. apply not_true_iff_false. intros Hca.
  destruct (str_ltb a b) eqn:E1; [by rewrite (str_ltb_trans _ _ _ Hca E1) in Hbc|].
  pose proof (str_ltb_total _ _ E1 Hab) as ->. by rewrite Hca in Hbc.
Qed.
#[export] Instance str_le_antisym : AntiSymm (=) str_le.
Proof. intros a b Hab Hba. by apply str_ltb_total. Qed.
