(* ===== verification/Percent.v ===== *)
(** * Percent-encoding and [application/x-www-form-urlencoded]

    The first two sections of [lib/lws/url.js]: the percent-encode sets,
    [utf8PercentEncode], [percentDecodeBytes], and the form-urlencoded
    parser and serializer behind [URLSearchParams]. *)

From S2P Require Import Prelude JsString.
Open Scope Z_scope.

(** What the code relies on of [toArrayBuffer]/[toString] of the native
    module, used as [TextEncoder] and [TextDecoder].  [toString(b)] throws
    on bytes that are not UTF-8; [toString(b, true)] replaces them. *)
Class TextCodec := {
  encode : jsstr -> bytes;
  decode : bytes -> outcome jsstr;
  decode_lossy : bytes -> jsstr;
  encode_spread s : encode s = concat (encode <$> spread s);
  encode_byte s : Forall is_byte (encode s);
  encode_ascii u : 0 <= u < 128 -> encode [u] = [u];
  decode_encode s : well_formed s = true -> decode (encode s) = Ok s;
  decode_throws bs c m : decode bs = Throw c m -> c = ErrTypeError /\ m = "invalid UTF-8"%string;
  decode_lossy_valid bs s : decode bs = Ok s -> decode_lossy bs = s;
}.

(* ------------------------------------------------------------------ *)
(** ** Percent-encode sets *)

Definition isC0ControlOrNonASCII (cp : Z) : bool := (cp <=? 0x1f) || (0x7e <? cp).

Definition FRAGMENT_EXTRA : list Z := [0x20; 0x22; 0x3c; 0x3e; 0x60].
Definition QUERY_EXTRA : list Z := [0x20; 0x22; 0x23; 0x3c; 0x3e].
Definition SPECIAL_QUERY_EXTRA : list Z := QUERY_EXTRA ++ [0x27].
Definition PATH_EXTRA : list Z := QUERY_EXTRA ++ [0x3f; 0x5e; 0x60; 0x7b; 0x7d].
Definition USERINFO_EXTRA : list Z :=
  PATH_EXTRA ++ [0x2f; 0x3a; 0x3b; 0x3d; 0x40; 0x5b; 0x5c; 0x5d; 0x5e; 0x7c].
Definition COMPONENT_EXTRA : list Z := USERINFO_EXTRA ++ [0x24; 0x25; 0x26; 0x2b; 0x2c].
Definition FORM_EXTRA : list Z := COMPONENT_EXTRA ++ [0x21; 0x27; 0x28; 0x29; 0x7e].
Definition C0_EXTRA : list Z := [].

Section Percent.
Context `{TextCodec}.

Definition percentEncodeByte (byte : Z) : jsstr :=
  0x25 :: padStart 2 0x30 (ascii_upper (to_string 16 byte)).

(** The loop body of [utf8PercentEncode] for one code point. *)
Definition percentEncodeChar (extraSet : list Z) (ch : jsstr) : jsstr :=
  let cp := codePointAt0 ch in
  if (cp <? 0x80) && negb (isC0ControlOrNonASCII cp) && negb (bool_decide (cp ∈ extraSet))
  then ch
  else concat (percentEncodeByte <$> encode ch).

Definition utf8PercentEncode (input : jsstr) (extraSet : list Z) : jsstr :=
  concat (percentEncodeChar extraSet <$> spread input).

Definition isHexDigit (byte : Z) : bool :=
  ((0x30 <=? byte) && (byte <=? 0x39)) || ((0x41 <=? byte) && (byte <=? 0x46))
  || ((0x61 <=? byte) && (byte <=? 0x66)).

Fixpoint percentDecodeBytes (bs : bytes) : bytes :=
  match bs with
  | [] => []
  | byte :: rest =>
    if negb (byte =? 0x25) then byte :: percentDecodeBytes rest
    else match rest with
         | h1 :: h2 :: rest' =>
           if isHexDigit h1 && isHexDigit h2
           then parseInt [h1; h2] 16 :: percentDecodeBytes rest'
           else byte :: percentDecodeBytes rest
         | _ => byte :: percentDecodeBytes rest
         end
  end.

Definition percentDecodeString (input : jsstr) : outcome jsstr :=
  decode (percentDecodeBytes (encode input)).

(* ---------------------------------------------------------------- *)
(** ** application/x-www-form-urlencoded *)

(** [.replace(/\+/g, ' ')] *)
Definition plus_to_space (s : jsstr) : jsstr := replace_unit 0x2b [0x20] s.

Definition parseFormSeq (seq : jsstr) : outcome (jsstr * jsstr) :=
  let eq := index_of 0x3d seq in
  let rawName := match eq with None => seq | Some i => take i seq end in
  let rawValue := match eq with None => [] | Some i => drop (S i) seq end in
  name ← percentDecodeString (plus_to_space rawName);
  value ← percentDecodeString (plus_to_space rawValue);
  Ok (name, value).

Definition parseFormURLEncoded (input : jsstr) : outcome (list (jsstr * jsstr)) :=
  match input with
  | [] => Ok []
  | _ => mapM parseFormSeq (filter (fun seq => (seq ≠ [])) (split_on 0x26 input))
  end.

(** [.replace(/%20/g, '+')] *)
Fixpoint pct20_to_plus (s : jsstr) : jsstr :=
  match s with
  | [] => []
  | u :: t =>
    match t with
    | v :: w :: t' => if (u =? 0x25) && (v =? 0x32) && (w =? 0x30)
                      then 0x2b :: pct20_to_plus t' else u :: pct20_to_plus t
    | _ => u :: pct20_to_plus t
    end
  end.

Definition formEncode (s : jsstr) : jsstr := pct20_to_plus (utf8PercentEncode s FORM_EXTRA).

Definition serializeFormURLEncoded (l : list (jsstr * jsstr)) : jsstr :=
  join [0x26] ((fun nv => formEncode nv.1 ++ [0x3d] ++ formEncode nv.2) <$> l).
End Percent.

(** The parser of a query throws only what the decoder does. *)
Section Throws.
Context `{TextCodec}.

Lemma mapM_throws {A B} (g : A -> outcome B) l c m :
  mapM g l = Throw c m -> exists x, x ∈ l /\ g x = Throw c m.
Proof.
  induction l as [|x l IH]; [done|]. cbn. destruct (g x) as [b|c' m'] eqn:E; cbn.
  - destruct (mapM g l) as [bs|c' m'] eqn:Em; cbn; [done|]. intros [= <- <-].
    destruct (IH eq_refl) as (y & ? & ?). exists y. split; [by right|done].
  - intros [= <- <-]. exists x. split; [by left|done].
Qed.

Lemma percentDecodeString_throws s c m : percentDecodeString s = Throw c m -> c = ErrTypeError /\ m = "invalid UTF-8"%string.
Proof. apply decode_throws. Qed.

Lemma parseFormSeq_throws s c m : parseFormSeq s = Throw c m -> c = ErrTypeError /\ m = "invalid UTF-8"%string.
Proof.
  unfold parseFormSeq. intros [Hn|(n & _ & Hn)]%bind_throws; [by eapply percentDecodeString_throws|].
  apply bind_throws in Hn as [Hv|(v & _ & Hv)]; [by eapply percentDecodeString_throws|done].
Qed.

Lemma parseFormURLEncoded_throws s c m : parseFormURLEncoded s = Throw c m -> c = ErrTypeError /\ m = "invalid UTF-8"%string.
Proof. destruct s; [done|]. intros (x & _ & Hx)%mapM_throws. by eapply parseFormSeq_throws. Qed.
End Throws.

(* ------------------------------------------------------------------ *)
(** ** Encoding one byte *)

Lemma byte_ind (P : Z -> bool) : forallb P (seqZ 0 256) = true -> forall b, is_byte b -> P b = true.
Proof.
  intros HP b Hb. rewrite forallb_forall in HP. apply HP.
  apply list_elem_of_In, elem_of_seqZ. unfold is_byte in Hb. lia.
Qed.

(** Upper-case hexadecimal digits, the ones the encoder writes. *)
Definition is_hex_upper (u : Z) : bool := is_digit u || ((0x41 <=? u) && (u <=? 0x46)).

Lemma percentEncodeByte_spec b : is_byte b ->
  exists h1 h2, percentEncodeByte b = [0x25; h1; h2] /\
    is_hex_upper h1 = true /\ is_hex_upper h2 = true /\ parseInt [h1; h2] 16 = b.
Proof.
  intros Hb. pose proof (byte_ind (fun b => match percentEncodeByte b with
    | [p; h1; h2] => ((p =? 0x25) && is_hex_upper h1 && is_hex_upper h2 && (parseInt [h1; h2] 16 =? b))%bool
    | _ => false end) ltac:(vm_compute; reflexivity) b Hb) as Hc. cbv beta in Hc.
  destruct (percentEncodeByte b) as [|p [|h1 [|h2 [|? ?]]]]; try done.
  apply andb_prop in Hc as [Hc ?]. apply andb_prop in Hc as [Hc ?]. apply andb_prop in Hc as [Hc ?].
  apply Z.eqb_eq in Hc as ->. exists h1, h2. split_and!; try done. by apply Z.eqb_eq.
Qed.

Lemma is_hex_upper_range u : is_hex_upper u = true -> 0x30 <= u <= 0x46.
Proof.
  unfold is_hex_upper, is_digit. lia.
Qed.

Lemma is_hex_upper_isHexDigit u : is_hex_upper u = true -> isHexDigit u = true.
Proof. unfold is_hex_upper, isHexDigit, is_digit. intros ->. done. Qed.

Lemma percentDecodeBytes_escape h1 h2 rest :
  is_hex_upper h1 = true -> is_hex_upper h2 = true ->
  percentDecodeBytes (0x25 :: h1 :: h2 :: rest) = parseInt [h1; h2] 16 :: percentDecodeBytes rest.
Proof. intros H1 H2. cbn. by rewrite !is_hex_upper_isHexDigit. Qed.

Lemma percentDecodeBytes_literal u rest :
  u <> 0x25 -> percentDecodeBytes (u :: rest) = u :: percentDecodeBytes rest.
Proof. intros Hu. cbn. by destruct (Z.eqb_spec u 0x25). Qed.

Section Roundtrip.
Context `{TextCodec}.

(** What one encoded code point looks like: itself, a printable ASCII
    character outside the set, or the escapes of its UTF-8 bytes. *)
Lemma percentEncodeChar_cases extra ch : is_char ch ->
  (exists u, ch = [u] /\ 0x20 <= u <= 0x7e /\ (u ∉ extra) /\ percentEncodeChar extra ch = [u]) \/
  percentEncodeChar extra ch = concat (percentEncodeByte <$> encode ch).
Proof.
  intros Hch. unfold percentEncodeChar.
  destruct (codePointAt0 ch <? 0x80) eqn:E1; [|by right].
  destruct (isC0ControlOrNonASCII (codePointAt0 ch)) eqn:E2; [by right|].
  case_bool_decide; [by right|]. left. cbn.
  destruct Hch as [[u ->]|(h & l & -> & E)].
  - exists u. cbn in *. unfold isC0ControlOrNonASCII in E2. apply orb_false_iff in E2 as [? ?].
    split_and!; try done; lia.
  - exfalso. cbn in E1. rewrite E in E1. unfold is_high, is_low in E. lia.
Qed.

(** Induction on the encoded string: one literal or one escape at a time. *)
Lemma utf8PercentEncode_ind (extra : list Z) (P : jsstr -> bytes -> Prop) :
  P [] [] ->
  (forall u s bs, 0x20 <= u <= 0x7e -> u ∉ extra -> P s bs -> P (u :: s) (u :: bs)) ->
  (forall b h1 h2 s bs, is_byte b -> percentEncodeByte b = [0x25; h1; h2] ->
     is_hex_upper h1 = true -> is_hex_upper h2 = true ->
     parseInt [h1; h2] 16 = b -> P s bs -> P (0x25 :: h1 :: h2 :: s) (b :: bs)) ->
  forall s, P (utf8PercentEncode s extra) (encode s).
Proof.
  intros Hnil Hlit Hesc s. unfold utf8PercentEncode. rewrite encode_spread.
  pose proof (spread_chars s) as Hchs. induction Hchs as [|ch chs Hch _ IH]; [done|].
  rewrite !fmap_cons. cbn [concat].
  destruct (percentEncodeChar_cases extra ch Hch) as [(u & -> & Hu & Hex & Hc)|Hc]; rewrite Hc.
  - rewrite encode_ascii by lia. by apply Hlit.
  - pose proof (encode_byte ch) as Hb. clear Hc. induction Hb as [|b bs Hb _ IHb]; [done|].
    destruct (percentEncodeByte_spec b Hb) as (h1 & h2 & Heq & Hh1 & Hh2 & Hp).
    rewrite fmap_cons. cbn [concat]. rewrite Heq. cbn [app]. by apply Hesc.
Qed.

Lemma encode_ascii_string s : Forall (fun u => 0 <= u < 128) s -> encode s = s.
Proof.
  intros Hs. rewrite encode_spread, spread_ascii by (eapply Forall_impl; [done|cbn; lia]).
  induction Hs as [|u s Hu _ IH]; [done|]. rewrite !fmap_cons. cbn [concat].
  by rewrite IH, encode_ascii.
Qed.

(** The output is printable ASCII, and avoids the set but for the
    percent sign and the digits of the escapes. *)
Lemma utf8PercentEncode_chars extra s :
  Forall (fun u => 0x20 <= u <= 0x7e /\ ((u ∉ extra) \/ u = 0x25 \/ is_hex_upper u = true))
    (utf8PercentEncode s extra).
Proof.
  apply (utf8PercentEncode_ind extra (fun e _ => Forall _ e)); [constructor| |].
  - intros u e _ Hu Hex IH. constructor; [|done]. auto.
  - intros b h1 h2 e _ _ _ H1 H2 _ IH.
    pose proof (is_hex_upper_range _ H1). pose proof (is_hex_upper_range _ H2).
    repeat constructor; auto; lia.
Qed.

Lemma utf8PercentEncode_ascii extra s : Forall (fun u => 0 <= u < 128) (utf8PercentEncode s extra).
Proof. eapply Forall_impl; [apply (utf8PercentEncode_chars extra s)|]. cbn. lia. Qed.

Lemma percentDecode_encoded extra s : 0x25 ∈ extra ->
  percentDecodeBytes (utf8PercentEncode s extra) = encode s.
Proof.
  intros Hpct. apply (utf8PercentEncode_ind extra (fun e bs => percentDecodeBytes e = bs)).
  - done.
  - intros u e bs _ Hex IH. rewrite percentDecodeBytes_literal, IH; [done|]. by intros ->.
  - intros b h1 h2 e bs _ _ H1 H2 <- IH. by rewrite percentDecodeBytes_escape, IH.
Qed.

(** percent-decoding an encoded string gives the string back, for
    every percent-encode set that escapes the percent sign itself. *)
Theorem percent_roundtrip s extra :
  well_formed s = true -> 0x25 ∈ extra ->
  percentDecodeString (utf8PercentEncode s extra) = Ok s.
Proof.
  intros Hs Hpct. unfold percentDecodeString.
  by rewrite encode_ascii_string, percentDecode_encoded, decode_encode by (done || apply utf8PercentEncode_ascii).
Qed.

(* ---------------------------------------------------------------- *)
(** ** The form-urlencoded round trip *)

Lemma pct20_to_plus_literal u t : u <> 0x25 -> pct20_to_plus (u :: t) = u :: pct20_to_plus t.
Proof.
  intros Hu. cbn. destruct t as [|v [|w t]]; try done. by destruct (Z.eqb_spec u 0x25).
Qed.

Lemma pct20_to_plus_escape h1 h2 t :
  is_hex_upper h1 = true -> is_hex_upper h2 = true ->
  pct20_to_plus (0x25 :: h1 :: h2 :: t) =
    if decide (h1 = 0x32 /\ h2 = 0x30) then 0x2b :: pct20_to_plus t
    else 0x25 :: h1 :: h2 :: pct20_to_plus t.
Proof.
  intros H1%is_hex_upper_range H2%is_hex_upper_range.
  change (pct20_to_plus (0x25 :: h1 :: h2 :: t)) with
    (if (0x25 =? 0x25) && (h1 =? 0x32) && (h2 =? 0x30) then 0x2b :: pct20_to_plus t
     else 0x25 :: pct20_to_plus (h1 :: h2 :: t)).
  rewrite !pct20_to_plus_literal by lia.
  destruct (Z.eqb_spec h1 0x32), (Z.eqb_spec h2 0x30); cbn; case_decide; try done; lia.
Qed.

(** What [formEncode] can write. *)
Definition form_safe (u : Z) : Prop := 0 <= u < 128 /\ u <> 0x26 /\ u <> 0x3d.

Lemma formEncode_safe s : Forall form_safe (formEncode s).
Proof.
  unfold formEncode.
  apply (utf8PercentEncode_ind FORM_EXTRA (fun e _ => Forall form_safe (pct20_to_plus e))); [done| |].
  - intros u e _ Hu Hex IH.
    assert (u <> 0x25 /\ u <> 0x26 /\ u <> 0x3d) as (? & ? & ?)
      by (split_and!; intros ->; apply Hex; by apply (bool_decide_unpack _)).
    rewrite pct20_to_plus_literal by done. constructor; [|done]. unfold form_safe. lia.
  - intros b h1 h2 e _ _ _ H1 H2 _ IH. rewrite pct20_to_plus_escape by done.
    pose proof (is_hex_upper_range _ H1). pose proof (is_hex_upper_range _ H2).
    case_decide; repeat constructor; try done; lia || (intros ->; done).
Qed.

Lemma formDecode_bytes s : percentDecodeBytes (plus_to_space (formEncode s)) = encode s.
Proof.
  unfold formEncode, plus_to_space.
  apply (utf8PercentEncode_ind FORM_EXTRA
    (fun e bs => percentDecodeBytes (replace_unit 0x2b [0x20] (pct20_to_plus e)) = bs)); [done| |].
  - intros u e bs Hu Hex IH.
    assert (u <> 0x25 /\ u <> 0x2b) as (? & ?)
      by (split_and!; intros ->; apply Hex; by apply (bool_decide_unpack _)).
    rewrite pct20_to_plus_literal, replace_unit_cons by done.
    destruct (Z.eqb_spec u 0x2b); [done|]. cbn [app].
    by rewrite percentDecodeBytes_literal, IH.
  - intros b h1 h2 e bs _ _ H1 H2 <- IH. rewrite pct20_to_plus_escape by done.
    pose proof (is_hex_upper_range _ H1). pose proof (is_hex_upper_range _ H2).
    case_decide as Hsp; rewrite !replace_unit_cons.
    + destruct Hsp as [-> ->]. cbn [Z.eqb Pos.eqb app].
      rewrite percentDecodeBytes_literal, IH by done. done.
    + destruct (Z.eqb_spec h1 0x2b), (Z.eqb_spec h2 0x2b); try lia. cbn [Z.eqb Pos.eqb app].
      by rewrite percentDecodeBytes_escape, IH.
Qed.

Lemma formEncode_roundtrip s :
  well_formed s = true -> percentDecodeString (plus_to_space (formEncode s)) = Ok s.
Proof.
  intros Hs. unfold percentDecodeString. rewrite encode_ascii_string.
  - by rewrite formDecode_bytes, decode_encode.
  - unfold plus_to_space, replace_unit. apply Forall_concat, Forall_fmap.
    eapply Forall_impl; [apply formEncode_safe|]. intros u Hu. cbn.
    destruct (u =? 0x2b); repeat constructor; unfold form_safe in Hu; lia.
Qed.

Lemma parseFormSeq_serialized n v :
  well_formed n = true -> well_formed v = true ->
  parseFormSeq (formEncode n ++ [0x3d] ++ formEncode v) = Ok (n, v).
Proof.
  intros Hn Hv. unfold parseFormSeq. cbn [app].
  rewrite index_of_app by (intros Hin; by destruct (proj1 (Forall_forall _ _) (formEncode_safe n) _ Hin) as (_ & _ & ?)).
  by rewrite take_app_length, drop_S_app, !formEncode_roundtrip.
Qed.

Lemma mapM_fmap_Ok {A B} (f : A -> B) (g : B -> outcome A) l :
  Forall (fun a => g (f a) = Ok a) l -> mapM g (f <$> l) = Ok l.
Proof. induction 1 as [|a l Ha _ IH]; [done|]. cbn. rewrite Ha. cbn. by rewrite IH. Qed.

(** The text round trip of [URLSearchParams]: parsing the serialization of
    any list of name/value pairs gives the same list, in the same
    order, duplicates and empty strings included. *)
Theorem form_urlencoded_roundtrip (l : list (jsstr * jsstr)) :
  Forall (fun nv => well_formed nv.1 = true /\ well_formed nv.2 = true) l ->
  parseFormURLEncoded (serializeFormURLEncoded l) = Ok l.
Proof.
  intros Hl. destruct l as [|nv l]; [done|].
  unfold parseFormURLEncoded, serializeFormURLEncoded.
  set (seqs := (fun nv => formEncode nv.1 ++ [0x3d] ++ formEncode nv.2) <$> nv :: l).
  assert (split_on 0x26 (join [0x26] seqs) = seqs) as Hsplit.
  { apply split_on_join; [done|]. apply Forall_fmap, Forall_true. intros [n v]. cbn.
    rewrite not_elem_of_app, not_elem_of_cons.
    assert (forall s, 0x26 ∉ formEncode s) as Hamp.
    { intros s Hin. by pose proof (proj1 (Forall_forall _ _) (formEncode_safe s) _ Hin) as (_ & ? & _). }
    split_and!; try done; apply Hamp. }
  destruct (join [0x26] seqs) as [|u t] eqn:Hj.
  { cbn in Hsplit. apply (f_equal head) in Hsplit. cbn in Hsplit.
    injection Hsplit as Hsplit. by destruct (formEncode nv.1). }
  rewrite <-Hj, Hj, Hsplit. clear Hj Hsplit u t.
  assert (filter (fun seq => (seq ≠ [])) seqs = seqs) as ->.
  { apply filter_Forall, Forall_fmap, Forall_true. intros [n v]. cbn.
    intros [_ [=]]%app_eq_nil. }
  unfold seqs. apply mapM_fmap_Ok. eapply Forall_impl; [exact Hl|]. intros [n v] [? ?]. by apply parseFormSeq_serialized.
Qed.
End Roundtrip.
