(* ===== verification/Utf8.v ===== *)
(** * A concrete text codec

    UTF-8 as the native [toArrayBuffer]/[toString] compute it, an
    instance of the interface [TextCodec] of [Percent]: the laws the URL
    component relies on are satisfiable, and witnesses evaluate with it.
    [toString] throws on a malformed sequence; its lossy form reads each
    malformed byte as U+FFFD. *)

From S2P Require Import Prelude JsString Percent.
Open Scope Z_scope.

Definition utf8_cp (cp : Z) : bytes :=
  if (cp <? 0) || (0x10ffff <? cp) then [0xef; 0xbf; 0xbd]
  else if cp <? 0x80 then [cp]
  else if cp <? 0x800 then [0xc0 + cp / 64; 0x80 + cp mod 64]
  else if cp <? 0x10000 then [0xe0 + cp / 4096; 0x80 + cp / 64 mod 64; 0x80 + cp mod 64]
  else [0xf0 + cp / 262144; 0x80 + cp / 4096 mod 64; 0x80 + cp / 64 mod 64; 0x80 + cp mod 64].

Definition from_cp (cp : Z) : jsstr :=
  if cp <? 0x10000 then [cp]
  else [0xD800 + (cp - 0x10000) / 0x400; 0xDC00 + (cp - 0x10000) mod 0x400].

Definition utf8_encode (s : jsstr) : bytes := concat (utf8_cp ∘ codePointAt0 <$> spread s).

Definition is_cont (b : Z) : bool := (0x80 <=? b) && (b <? 0xc0).

Fixpoint utf8_decode_loop (fuel : nat) (bs : bytes) : jsstr :=
  match fuel with
  | O => []
  | S fuel =>
    match bs with
    | [] => []
    | b0 :: r =>
      if b0 <? 0x80 then b0 :: utf8_decode_loop fuel r
      else match r with
      | b1 :: r1 =>
        if (0xc0 <=? b0) && (b0 <? 0xe0) && is_cont b1
        then from_cp ((b0 - 0xc0) * 64 + (b1 - 0x80)) ++ utf8_decode_loop fuel r1
        else match r1 with
        | b2 :: r2 =>
          if (0xe0 <=? b0) && (b0 <? 0xf0) && is_cont b1 && is_cont b2
          then from_cp ((b0 - 0xe0) * 4096 + (b1 - 0x80) * 64 + (b2 - 0x80)) ++ utf8_decode_loop fuel r2
          else match r2 with
          | b3 :: r3 =>
            if (0xf0 <=? b0) && (b0 <? 0xf8) && is_cont b1 && is_cont b2 && is_cont b3
            then from_cp ((b0 - 0xf0) * 262144 + (b1 - 0x80) * 4096 + (b2 - 0x80) * 64 + (b3 - 0x80))
                 ++ utf8_decode_loop fuel r3
            else 0xfffd :: utf8_decode_loop fuel r
          | [] => 0xfffd :: utf8_decode_loop fuel r
          end
        | [] => 0xfffd :: utf8_decode_loop fuel r
        end
      | [] => [0xfffd]
      end
    end
  end.

Definition utf8_lossy (bs : bytes) : jsstr := utf8_decode_loop (length bs) bs.

(** Valid bytes are those the decoded text encodes to. *)
Definition utf8_decode (bs : bytes) : outcome jsstr :=
  let s := utf8_lossy bs in
  if bool_decide (utf8_encode s = bs) then Ok s else Throw ErrTypeError "invalid UTF-8".

(* ------------------------------------------------------------------ *)

Ltac zb := repeat match goal with
  | H : context [Z.ltb ?a ?b] |- _ => destruct (Z.ltb_spec a b); cbn in H
  | |- context [Z.ltb ?a ?b] => destruct (Z.ltb_spec a b); cbn
  | H : context [Z.leb ?a ?b] |- _ => destruct (Z.leb_spec a b); cbn in H
  | |- context [Z.leb ?a ?b] => destruct (Z.leb_spec a b); cbn
  | H : context [Z.eqb ?a ?b] |- _ => destruct (Z.eqb_spec a b); cbn in H
  | |- context [Z.eqb ?a ?b] => destruct (Z.eqb_spec a b); cbn
  end.

Lemma utf8_cp_bytes cp : Forall is_byte (utf8_cp cp).
Proof.
  unfold utf8_cp, is_byte. zb; repeat constructor; try lia;
    Z.to_euclidean_division_equations; lia.
Qed.

Lemma utf8_cp_length cp : (1 <= length (utf8_cp cp))%nat.
Proof. unfold utf8_cp. repeat case_match; cbn; lia. Qed.

(** Decide every comparison of the goal that linear arithmetic settles. *)
Ltac z_tests := repeat match goal with
  | |- context [Z.ltb ?a ?b] =>
      first [ replace (Z.ltb a b) with true by (symmetry; apply Z.ltb_lt; lia)
            | replace (Z.ltb a b) with false by (symmetry; apply Z.ltb_ge; lia) ]
  | |- context [Z.leb ?a ?b] =>
      first [ replace (Z.leb a b) with true by (symmetry; apply Z.leb_le; lia)
            | replace (Z.leb a b) with false by (symmetry; apply Z.leb_gt; lia) ]
  end; cbn [andb orb negb].

(** Name the quotient and the remainder of [x] by [64]. *)
Ltac split64 x q r :=
  pose proof (Z.div_mod x 64 ltac:(lia)); pose proof (Z.mod_pos_bound x 64 ltac:(lia));
  set (q := x / 64) in *; set (r := x mod 64) in *; clearbody q r.

Lemma utf8_decode_cp fuel cp rest :
  0 <= cp <= 0x10ffff ->
  utf8_decode_loop (S fuel) (utf8_cp cp ++ rest) = from_cp cp ++ utf8_decode_loop fuel rest.
Proof.
  intros Hcp. unfold utf8_cp. z_tests.
  destruct (Z.ltb_spec cp 0x80) as [H0|H0]; [|destruct (Z.ltb_spec cp 0x800) as [H1|H1];
    [|destruct (Z.ltb_spec cp 0x10000) as [H2|H2]]]; cbn [app utf8_decode_loop]; unfold is_cont.
  - z_tests. unfold from_cp. z_tests. done.
  - split64 cp q r. z_tests. f_equal. f_equal. lia.
  - change 4096 with (64 * 64). rewrite <-Z.div_div by lia.
    split64 cp q r. split64 q q' r'. z_tests. f_equal. f_equal. lia.
  - change 262144 with (64 * 64 * 64). change 4096 with (64 * 64). rewrite <-!Z.div_div by lia.
    split64 cp q r. split64 q q' r'. split64 q' q'' r''. z_tests. f_equal. f_equal. lia.
Qed.

Lemma from_cp_char ch : scalar_char ch = true ->
  0 <= codePointAt0 ch <= 0x10ffff /\ from_cp (codePointAt0 ch) = ch.
Proof.
  destruct ch as [|h [|l [|? ?]]]; cbn; try done.
  - unfold is_high, is_low, from_cp. intros Hs. zb; done || lia || (split; [lia|done]).
  - intros Hs. rewrite Hs. unfold is_high, is_low in Hs. zb; try done.
    unfold from_cp. z_tests. split; [lia|].
    replace (65536 + (h - 55296) * 1024 + (l - 56320) - 65536)
      with ((l - 56320) + (h - 55296) * 1024) by lia.
    rewrite Z.div_add, Z.mod_add, Z.div_small, Z.mod_small by lia. f_equal; [lia|f_equal; lia].
Qed.

Lemma utf8_decode_chars chs : forall fuel,
  (length chs <= fuel)%nat -> forallb scalar_char chs = true ->
  utf8_decode_loop fuel (concat (utf8_cp ∘ codePointAt0 <$> chs)) = concat chs.
Proof.
  induction chs as [|ch chs IH]; intros [|fuel] Hf Hs; cbn in Hf, Hs; try done; try lia.
  apply andb_prop in Hs as [Hch Hs]. rewrite fmap_cons. cbn [concat compose]. destruct (from_cp_char _ Hch) as [Hr Hc].
  rewrite utf8_decode_cp by done. rewrite Hc, IH by (done || lia). done.
Qed.

Lemma utf8_lossy_encode s : well_formed s = true -> utf8_lossy (utf8_encode s) = s.
Proof.
  intros Hs. unfold utf8_lossy, utf8_encode. rewrite utf8_decode_chars; [apply concat_spread| |done].
  generalize (spread s). intros l. induction l as [|ch l IH]; cbn; [lia|].
  rewrite length_app. pose proof (utf8_cp_length (codePointAt0 ch)). cbn in IH. lia.
Qed.

#[export, refine] Instance utf8_codec : TextCodec := {
  encode := utf8_encode;
  decode := utf8_decode;
  decode_lossy := utf8_lossy;
}.
Proof.
  - intros s. unfold utf8_encode. f_equal. apply list_fmap_ext. intros i ch Hch.
    apply list_elem_of_lookup_2, spread_elem in Hch. rewrite Hch. cbn. by rewrite app_nil_r.
  - intros s. unfold utf8_encode. apply Forall_concat, Forall_fmap.
    apply Forall_true. intros ch. apply utf8_cp_bytes.
  - intros u Hu. cbn. rewrite app_nil_r. unfold utf8_cp. by z_tests.
  - intros s Hs. unfold utf8_decode. rewrite utf8_lossy_encode by done. by rewrite bool_decide_true.
  - intros bs c m. unfold utf8_decode. case_bool_decide; [done|]. by intros [= <- <-].
  - intros bs s. unfold utf8_decode. case_bool_decide; [|done]. by intros [= <-].
Defined.
