(* ===== verification/UrlHost.v ===== *)
(** * Host parsing and serializing of [lib/lws/url.js]

    [parseHost] and [serializeHost] with their helpers.  IPv4/IPv6
    literals go through the native [LWSSockAddr46] of lws-sockaddr46.c; the
    functions of libwebsockets below it are an interface. *)

From S2P Require Import Prelude JsString Percent.
Open Scope Z_scope.

(** What C sees of a string: the units before the first NUL. *)
Fixpoint c_string (s : jsstr) : jsstr :=
  match s with [] => [] | u :: t => if u =? 0 then [] else u :: c_string t end.

(** The numeric addresses that libwebsockets reads and writes:
    [lws_sa46_parse_numeric_address], the bytes of what it reads, and
    [new LWSSockAddr46(bytes).host]. *)
Class SockAddr46 := {
  parse_numeric_address : jsstr -> option bytes;
  sa_host : bytes -> jsstr;
}.

(** [new LWSSockAddr46(s).address] *)
Definition sa_address `{SockAddr46} (s : jsstr) : outcome (option bytes) :=
  let str := c_string s in
  if bool_decide (head str = Some 0x5b) then
    match index_of 0x5d (tail str) with
    | Some p => Ok (parse_numeric_address (take p (tail str)))
    | None => Throw ErrSyntaxError "missing ending ]"
    end
  else
    Ok (parse_numeric_address
      (if bool_decide (0x2e ∈ str) then match index_of 0x3a str with Some p => take p str | None => str end else str)).

(** A host is a number (IPv4), an array of eight pieces (IPv6) or a string. *)
Inductive host :=
| HostIPv4 (address : Z)
| HostIPv6 (pieces : list Z)
| HostString (s : jsstr).

#[export] Instance host_eq_dec : EqDecision host.
Proof. solve_decision. Defined.

Section Host.
Context `{TextCodec} `{UnicodeTables} `{SockAddr46}.

Definition all_of (f : Z -> bool) (s : jsstr) : bool :=
  match s with [] => false | _ => forallb f s end.   (* /^[f]+$/ *)

(** [None] is NaN. *)
Definition parseIPv4Number (input : jsstr) : option Z :=
  if bool_decide (input = []) then None else
  let '(input, radix) :=
    match input with
    | z :: x :: rest =>
      if (z =? 0x30) && ((x =? 0x78) || (x =? 0x58)) then (rest, 16)
      else if z =? 0x30 then (x :: rest, 8) else (input, 10)
    | _ => (input, 10)
    end in
  if bool_decide (input = []) then Some 0 else
  let ok := if radix =? 16 then all_of isHexDigit input
            else if radix =? 8 then all_of (fun u => (0x30 <=? u) && (u <=? 0x37)) input
            else all_of is_digit input in
  if ok then Some (parseInt input radix) else None.

Definition parseIPv4 (input : jsstr) : outcome (option host) :=
  addr ← sa_address input;
  Ok match addr with
     | Some [b0; b1; b2; b3] => Some (HostIPv4 (((b0 * 256 + b1) * 256 + b2) * 256 + b3))
     | _ => None
     end.

Definition serializeIPv4 (address : Z) : jsstr :=
  sa_host [address / 256 / 256 / 256 mod 256; address / 256 / 256 mod 256; address / 256 mod 256;
           address mod 256].

Fixpoint byte_pairs (bs : bytes) : list Z :=
  match bs with
  | hi :: lo :: rest => Z.lor (Z.shiftl hi 8) lo :: byte_pairs rest
  | _ => []
  end.

Definition parseIPv6 (input : jsstr) : outcome (option host) :=
  addr ← sa_address input;
  Ok match addr with
     | Some bs => if decide (length bs = 16%nat) then Some (HostIPv6 (byte_pairs bs)) else None
     | None => None
     end.

(** Stores into a [Uint8Array] keep the low eight bits. *)
Definition serializeIPv6 (address : list Z) : jsstr :=
  sa_host (concat ((fun p => [Z.shiftr p 8 mod 256; Z.land p 0xff]) <$> address)).

Definition FORBIDDEN_HOST_CODEPOINTS : list Z :=
  [0x00; 0x09; 0x0a; 0x0d; 0x20; 0x23; 0x2f; 0x3a; 0x3c; 0x3e; 0x3f; 0x40; 0x5b; 0x5c; 0x5d; 0x5e; 0x7c].
Definition FORBIDDEN_DOMAIN_EXTRA : list Z := FORBIDDEN_HOST_CODEPOINTS ++ [0x25].

(** [SET.has(ch)] for a set of one-character strings. *)
Definition set_has (set : list Z) (ch : jsstr) : bool :=
  match ch with [u] => bool_decide (u ∈ set) | _ => false end.

Definition containsForbiddenHostCodePoint (s : jsstr) : bool :=
  existsb (set_has FORBIDDEN_HOST_CODEPOINTS) (spread s).

Definition parseOpaqueHost (input : jsstr) : option host :=
  if containsForbiddenHostCodePoint input then None
  else Some (HostString (utf8PercentEncode input C0_EXTRA)).

Definition endsInANumber (input : jsstr) : bool :=
  let parts := split_on 0x2e input in
  let parts := if bool_decide (1 < length parts)%nat && bool_decide (last parts = Some [])
               then take (length parts - 1) parts else parts in
  match last parts with
  | None => false
  | Some l =>
    if negb (bool_decide (l = [])) && forallb (fun c => match c with [u] => is_digit u | _ => false end) (spread l)
    then true
    else bool_decide (is_Some (parseIPv4Number l))
  end.

(** A code point the domain may not contain. *)
Definition forbidden_domain_char (ch : jsstr) : bool :=
  let cp := codePointAt0 ch in
  set_has FORBIDDEN_DOMAIN_EXTRA ch || (cp <=? 0x1f) || (cp =? 0x7f).

Definition parseHost (input : jsstr) (isSpecialArg : bool) : outcome (option host) :=
  if bool_decide (head input = Some 0x5b) then
    if bool_decide (last input = Some 0x5d)
    then parseIPv6 (take (length input - 2) (drop 1 input)) else Ok None
  else if negb isSpecialArg then Ok (parseOpaqueHost input)
  else if bool_decide (input = []) then Ok None
  else
    domain ← percentDecodeString input;
    let asciiDomain := toLowerCase domain in
    if existsb forbidden_domain_char (spread asciiDomain) then Ok None
    else if endsInANumber asciiDomain then parseIPv4 asciiDomain
    else Ok (Some (HostString asciiDomain)).

Definition serializeHost (h : host) : jsstr :=
  match h with
  | HostIPv4 a => serializeIPv4 a
  | HostIPv6 p => [0x5b] ++ serializeIPv6 p ++ [0x5d]
  | HostString s => s
  end.
End Host.
