(* ===== verification/UrlParser.v ===== *)
(** * The basic URL parser of [lib/lws/url.js]

    The WHATWG state machine [basicURLParse]: one definition per [case]
    of its [switch], the dispatch, and the loop with the pointer
    arithmetic written out.  The record is mutated in place by the
    setters, so a failed run returns the mutated record too, and so does
    one that throws. *)

From S2P Require Import Prelude JsString Percent UrlHost.
Open Scope Z_scope.

(* ------------------------------------------------------------------ *)
(** ** The URL record *)

(** [url.path]: an array of segments, or a string when [opaquePath]. *)
Inductive upath := PList (segs : list jsstr) | PString (s : jsstr).

#[export] Instance upath_eq_dec : EqDecision upath.
Proof. solve_decision. Defined.

Record urlrec := Url {
  scheme : jsstr; username : jsstr; password : jsstr;
  u_host : option host; port : option Z;
  path : upath; opaquePath : bool;
  query : option jsstr; fragment : option jsstr;
}.

Definition newURLRecord : urlrec := Url [] [] [] None None (PList []) false None None.

Definition set_scheme v u := Url v (username u) (password u) (u_host u) (port u) (path u) (opaquePath u) (query u) (fragment u).
Definition set_username v u := Url (scheme u) v (password u) (u_host u) (port u) (path u) (opaquePath u) (query u) (fragment u).
Definition set_password v u := Url (scheme u) (username u) v (u_host u) (port u) (path u) (opaquePath u) (query u) (fragment u).
Definition set_host v u := Url (scheme u) (username u) (password u) v (port u) (path u) (opaquePath u) (query u) (fragment u).
Definition set_port v u := Url (scheme u) (username u) (password u) (u_host u) v (path u) (opaquePath u) (query u) (fragment u).
Definition set_path v u := Url (scheme u) (username u) (password u) (u_host u) (port u) v (opaquePath u) (query u) (fragment u).
Definition set_opaquePath v u := Url (scheme u) (username u) (password u) (u_host u) (port u) (path u) v (query u) (fragment u).
Definition set_query v u := Url (scheme u) (username u) (password u) (u_host u) (port u) (path u) (opaquePath u) v (fragment u).
Definition set_fragment v u := Url (scheme u) (username u) (password u) (u_host u) (port u) (path u) (opaquePath u) (query u) v.

(* ------------------------------------------------------------------ *)
(** ** Schemes *)

Definition SPECIAL_SCHEMES : list (jsstr * option Z) :=
  [(js "ftp", Some 21); (js "file", None); (js "http", Some 80); (js "https", Some 443);
   (js "ws", Some 80); (js "wss", Some 443)].

Definition isSpecialScheme (s : jsstr) : bool := bool_decide (s ∈ SPECIAL_SCHEMES.*1).
Definition isSpecial (u : urlrec) : bool := isSpecialScheme (scheme u).

Definition defaultPort (s : jsstr) : option Z :=
  match filter (fun kv => (kv.1 = s)) SPECIAL_SCHEMES with
  | (_, p) :: _ => p
  | [] => None
  end.

Definition includesCredentials (u : urlrec) : bool :=
  negb (bool_decide (username u = [])) || negb (bool_decide (password u = [])).

Definition cannotHaveUsernamePasswordPort (u : urlrec) : bool :=
  bool_decide (u_host u = None) || bool_decide (u_host u = Some (HostString []))
  || bool_decide (scheme u = js "file").

(* ------------------------------------------------------------------ *)
(** ** Windows drive letters, dot segments, paths *)

(** [/[A-Za-z]/.test(c)], false on [undefined]. *)
Definition isASCIIAlpha (c : option jsstr) : bool :=
  match c with Some s => existsb is_alpha s | None => false end.

Definition isWindowsDriveLetter (s : jsstr) : bool :=
  match s with
  | [a; b] => is_alpha a && ((b =? 0x3a) || (b =? 0x7c))
  | _ => false
  end.
Definition isNormalizedWindowsDriveLetter (s : jsstr) : bool :=
  match s with [a; b] => is_alpha a && (b =? 0x3a) | _ => false end.

(** [cp[i]], [undefined] out of range. *)
Definition cp_at (cp : list jsstr) (i : Z) : option jsstr :=
  if i <? 0 then None else cp !! Z.to_nat i.

Definition is_c (c : option jsstr) (u : Z) : bool := bool_decide (c = Some [u]).

Definition startsWithWindowsDriveLetter (cp : list jsstr) (pointer : Z) : bool :=
  let remaining := Z.of_nat (length cp) - pointer in
  if remaining <? 2 then false
  else if negb (isWindowsDriveLetter (default [] (cp_at cp pointer) ++ default [] (cp_at cp (pointer + 1)))) then false
  else if remaining =? 2 then true
  else let c2 := cp_at cp (pointer + 2) in
       is_c c2 0x2f || is_c c2 0x5c || is_c c2 0x3f || is_c c2 0x23.

Definition isSingleDotSegment (b : jsstr) : bool :=
  bool_decide (b = js ".") || bool_decide (ascii_lower b = js "%2e").
Definition isDoubleDotSegment (buf : jsstr) : bool :=
  bool_decide (ascii_lower buf ∈ [js ".."; js ".%2e"; js "%2e."; js "%2e%2e"]).

(** [path.length], [path[0]], [path.push], [path.pop], [[...path]] and
    [path += s] on either kind of path; a string has no [push]/[pop]. *)
Definition path_length (p : upath) : nat :=
  match p with PList l => length l | PString s => length s end.
Definition path_first (p : upath) : option jsstr :=
  match p with PList l => head l | PString s => (fun u => [u]) <$> head s end.
Definition path_push (seg : jsstr) (p : upath) : outcome upath :=
  match p with PList l => Ok (PList (l ++ [seg])) | PString _ => Throw ErrTypeError "not a function" end.
Definition path_pop (p : upath) : outcome upath :=
  match p with PList l => Ok (PList (take (length l - 1) l)) | PString _ => Throw ErrTypeError "not a function" end.
Definition path_copy (p : upath) : upath :=
  match p with PList l => PList l | PString s => PList (spread s) end.
Definition path_append (s : jsstr) (p : upath) : upath :=
  match p with PString t => PString (t ++ s) | PList l => PString (join [0x2c] l ++ s) end.

Definition push_segment (seg : jsstr) (u : urlrec) : outcome urlrec :=
  p ← path_push seg (path u); Ok (set_path p u).
Definition pop_segment (u : urlrec) : outcome urlrec :=
  p ← path_pop (path u); Ok (set_path p u).

Definition shortenPath (u : urlrec) : outcome urlrec :=
  if bool_decide (scheme u = js "file") && bool_decide (path_length (path u) = 1%nat)
     && isNormalizedWindowsDriveLetter (default [] (path_first (path u)))
  then Ok u
  else if bool_decide (path_length (path u) = 0%nat) then Ok u
  else pop_segment u.

(** [url.query += s] and [url.fragment += s]: [null] reads as ["null"]. *)
Definition append_query (s : jsstr) (u : urlrec) : urlrec :=
  set_query (Some (default (js "null") (query u) ++ s)) u.
Definition append_fragment (s : jsstr) (u : urlrec) : urlrec :=
  set_fragment (Some (default (js "null") (fragment u) ++ s)) u.

(* ------------------------------------------------------------------ *)
(** ** The state machine *)

Inductive state :=
| SchemeStart | Scheme | NoScheme | SpecialRelativeOrAuthority | PathOrAuthority
| Relative | RelativeSlash | SpecialAuthoritySlashes | SpecialAuthorityIgnoreSlashes
| Authority | Host | Hostname | Port | File | FileSlash | FileHost
| PathStart | Path | OpaquePath | Query | Fragment.

#[export] Instance state_eq_dec : EqDecision state.
Proof. solve_decision. Defined.

(** The local variables of [basicURLParse] at the head of its loop. *)
Record pstate := PS {
  p_state : state; pointer : Z; buffer : jsstr;
  atSignSeen : bool; insideBrackets : bool; passwordTokenSeen : bool;
  url : urlrec;
}.

(** The end of one pass through the [switch]: fall out of it, [return
    url], [return null] or a thrown exception (both with the record as
    mutated so far). *)
Inductive ctl :=
| Next (p : pstate)
| ReturnUrl (u : urlrec)
| ReturnNull (u : urlrec)
| Thrown (u : urlrec) (c : error_class) (msg : string).

Section Step.
Context `{TextCodec} `{UnicodeTables} `{SockAddr46}.
Variables (cp : list jsstr) (base : option urlrec) (stateOverride : option state).

Definition goto (s : state) (ptr : Z) (buf : jsstr) (u : urlrec) (p : pstate) : ctl :=
  Next (PS s ptr buf (atSignSeen p) (insideBrackets p) (passwordTokenSeen p) u).

(** Run an operation that may throw on the record [u], then continue. *)
Definition attempt {A} (u : urlrec) (m : outcome A) (k : A -> ctl) : ctl :=
  match m with Ok a => k a | Throw c s => Thrown u c s end.

Definition overridden : bool := bool_decide (is_Some stateOverride).

(** [c.toLowerCase()] of a character the code has matched as ASCII. *)
Definition lower_c (c : option jsstr) : jsstr := ascii_lower (default [] c).

Definition is_scheme_char (u : Z) : bool :=
  is_alnum u || (u =? 0x2b) || (u =? 0x2d) || (u =? 0x2e).

Definition step_scheme_start (c : option jsstr) (p : pstate) : ctl :=
  if isASCIIAlpha c then goto Scheme (pointer p) (buffer p ++ lower_c c) (url p) p
  else if negb overridden then goto NoScheme (pointer p - 1) (buffer p) (url p) p
  else ReturnNull (url p).

(** [scheme] after the colon. *)
Definition scheme_colon (p : pstate) : ctl :=
  let u := url p in
  if overridden && negb (bool_decide (isSpecial u = isSpecialScheme (buffer p))) then ReturnUrl u
  else if overridden && (includesCredentials u || bool_decide (is_Some (port u)))
          && bool_decide (buffer p = js "file") then ReturnUrl u
  else if overridden && bool_decide (scheme u = js "file")
          && (bool_decide (u_host u = Some (HostString [])) || bool_decide (u_host u = None)) then ReturnUrl u
  else
    let u := set_scheme (buffer p) u in
    if overridden then
      ReturnUrl (if bool_decide (port u = defaultPort (scheme u)) then set_port None u else u)
    else if bool_decide (scheme u = js "file") then goto File (pointer p) [] u p
    else if isSpecial u && bool_decide (scheme <$> base = Some (scheme u))
    then goto SpecialRelativeOrAuthority (pointer p) [] u p
    else if isSpecial u then goto SpecialAuthoritySlashes (pointer p) [] u p
    else if is_c (cp_at cp (pointer p + 1)) 0x2f then goto PathOrAuthority (pointer p + 1) [] u p
    else goto OpaquePath (pointer p) [] (set_path (PString []) (set_opaquePath true u)) p.

Definition step_scheme (c : option jsstr) (p : pstate) : ctl :=
  if match c with Some s => existsb is_scheme_char s | None => false end
  then goto Scheme (pointer p) (buffer p ++ lower_c c) (url p) p
  else if is_c c 0x3a then scheme_colon p
  else if negb overridden then goto NoScheme (-1) [] (url p) p
  else ReturnNull (url p).

Definition step_no_scheme (c : option jsstr) (p : pstate) : ctl :=
  match base with
  | None => ReturnNull (url p)
  | Some b =>
    if opaquePath b && negb (is_c c 0x23) then ReturnNull (url p)
    else if opaquePath b && is_c c 0x23 then
      let u := set_fragment (Some []) (set_query (query b)
                 (set_opaquePath true (set_path (path b) (set_scheme (scheme b) (url p))))) in
      goto Fragment (pointer p) (buffer p) u p
    else if negb (bool_decide (scheme b = js "file"))
    then goto Relative (pointer p - 1) (buffer p) (url p) p
    else goto File (pointer p - 1) (buffer p) (url p) p
  end.

Definition step_special_relative_or_authority (c : option jsstr) (p : pstate) : ctl :=
  if is_c c 0x2f && is_c (cp_at cp (pointer p + 1)) 0x2f
  then goto SpecialAuthorityIgnoreSlashes (pointer p + 1) (buffer p) (url p) p
  else goto Relative (pointer p - 1) (buffer p) (url p) p.

Definition step_path_or_authority (c : option jsstr) (p : pstate) : ctl :=
  if is_c c 0x2f then goto Authority (pointer p) (buffer p) (url p) p
  else goto Path (pointer p - 1) (buffer p) (url p) p.

Definition step_relative (c : option jsstr) (p : pstate) : ctl :=
  match base with
  | None => Thrown (url p) ErrTypeError "cannot read property of null"
  | Some b =>
    let u := set_scheme (scheme b) (url p) in
    if is_c c 0x2f || (isSpecial u && is_c c 0x5c)
    then goto RelativeSlash (pointer p) (buffer p) u p
    else
      let u := set_query (query b) (set_opaquePath (opaquePath b) (set_path (path_copy (path b))
                (set_port (port b) (set_host (u_host b) (set_password (password b)
                (set_username (username b) u)))))) in
      if is_c c 0x3f then goto Query (pointer p) (buffer p) (set_query (Some []) u) p
      else if is_c c 0x23 then goto Fragment (pointer p) (buffer p) (set_fragment (Some []) u) p
      else if bool_decide (is_Some c) then
        let u := set_query None u in
        attempt u (if negb (opaquePath u) then pop_segment u else Ok u) (fun u =>
          goto Path (pointer p - 1) (buffer p) u p)
      else goto Relative (pointer p) (buffer p) u p
  end.

Definition step_relative_slash (c : option jsstr) (p : pstate) : ctl :=
  if isSpecial (url p) && (is_c c 0x2f || is_c c 0x5c)
  then goto SpecialAuthorityIgnoreSlashes (pointer p) (buffer p) (url p) p
  else if is_c c 0x2f then goto Authority (pointer p) (buffer p) (url p) p
  else match base with
    | None => Thrown (url p) ErrTypeError "cannot read property of null"
    | Some b =>
      goto Path (pointer p - 1) (buffer p)
        (set_port (port b) (set_host (u_host b) (set_password (password b)
          (set_username (username b) (url p))))) p
    end.

Definition step_special_authority_slashes (c : option jsstr) (p : pstate) : ctl :=
  if is_c c 0x2f && is_c (cp_at cp (pointer p + 1)) 0x2f
  then goto SpecialAuthorityIgnoreSlashes (pointer p + 1) (buffer p) (url p) p
  else goto SpecialAuthorityIgnoreSlashes (pointer p - 1) (buffer p) (url p) p.

Definition step_special_authority_ignore_slashes (c : option jsstr) (p : pstate) : ctl :=
  if negb (is_c c 0x2f) && negb (is_c c 0x5c)
  then goto Authority (pointer p - 1) (buffer p) (url p) p
  else goto SpecialAuthorityIgnoreSlashes (pointer p) (buffer p) (url p) p.

(** The characters that end the authority and the host. *)
Definition ends_authority (c : option jsstr) (u : urlrec) : bool :=
  bool_decide (c = None) || is_c c 0x2f || is_c c 0x3f || is_c c 0x23 || (isSpecial u && is_c c 0x5c).

(** The loop over the userinfo before an [@]. *)
Definition userinfo_char (st : bool * urlrec) (ch : jsstr) : bool * urlrec :=
  let '(seen, u) := st in
  if bool_decide (ch = [0x3a]) && negb seen then (true, u)
  else let enc := utf8PercentEncode ch USERINFO_EXTRA in
       (seen, if seen then set_password (password u ++ enc) u else set_username (username u ++ enc) u).

Definition step_authority (c : option jsstr) (p : pstate) : ctl :=
  if is_c c 0x40 then
    let buf := if atSignSeen p then js "%40" ++ buffer p else buffer p in
    let '(seen, u) := foldl userinfo_char (passwordTokenSeen p, url p) (spread buf) in
    Next (PS Authority (pointer p) [] true (insideBrackets p) seen u)
  else if ends_authority c (url p) then
    if atSignSeen p && bool_decide (buffer p = []) then ReturnNull (url p)
    else goto Host (pointer p - (Z.of_nat (length (spread (buffer p))) + 1)) [] (url p) p
  else goto Authority (pointer p) (buffer p ++ default [] c) (url p) p.

(** The states [host] and [hostname] share one case. *)
Definition step_host (c : option jsstr) (p : pstate) : ctl :=
  let u := url p in
  if is_c c 0x3a && negb (insideBrackets p) then
    if bool_decide (buffer p = []) then ReturnNull u
    else if bool_decide (stateOverride = Some Hostname) then ReturnUrl u
    else attempt u (parseHost (buffer p) (isSpecial u)) (fun r => match r with
      | None => ReturnNull u
      | Some h => goto Port (pointer p) [] (set_host (Some h) u) p
      end)
  else if ends_authority c u then
    let ptr := pointer p - 1 in
    if isSpecial u && bool_decide (buffer p = []) then ReturnNull u
    else if overridden && bool_decide (buffer p = [])
            && (includesCredentials u || bool_decide (is_Some (port u))) then ReturnUrl u
    else attempt u (parseHost (buffer p) (isSpecial u)) (fun r => match r with
      | None => ReturnNull u
      | Some h =>
        let u := set_host (Some h) u in
        if overridden then ReturnUrl u else goto PathStart ptr [] u p
      end)
  else
    let br := if is_c c 0x5b then true else if is_c c 0x5d then false else insideBrackets p in
    Next (PS (p_state p) (pointer p) (buffer p ++ default [] c) (atSignSeen p) br
             (passwordTokenSeen p) u).

Definition step_port (c : option jsstr) (p : pstate) : ctl :=
  let u := url p in
  if match c with Some s => existsb is_digit s | None => false end
  then goto Port (pointer p) (buffer p ++ default [] c) u p
  else if ends_authority c u || overridden then
    let port_num := parseInt (buffer p) 10 in
    if negb (bool_decide (buffer p = [])) && (65535 <? port_num) then ReturnNull u
    else
      let u' := if bool_decide (buffer p = []) then u
                else set_port (if bool_decide (Some port_num = defaultPort (scheme u))
                               then None else Some port_num) u in
      if overridden then ReturnUrl u' else goto PathStart (pointer p - 1) [] u' p
  else ReturnNull u.

Definition step_file (c : option jsstr) (p : pstate) : ctl :=
  let u := set_host (Some (HostString [])) (set_scheme (js "file") (url p)) in
  if is_c c 0x2f || is_c c 0x5c then goto FileSlash (pointer p) (buffer p) u p
  else match base with
    | Some b =>
      if bool_decide (scheme b = js "file") then
        let u := set_query (query b) (set_opaquePath (opaquePath b)
                   (set_path (path_copy (path b)) (set_host (u_host b) u))) in
        if is_c c 0x3f then goto Query (pointer p) (buffer p) (set_query (Some []) u) p
        else if is_c c 0x23 then goto Fragment (pointer p) (buffer p) (set_fragment (Some []) u) p
        else if bool_decide (is_Some c) then
          let u := set_query None u in
          attempt u (if negb (startsWithWindowsDriveLetter cp (pointer p)) then shortenPath u
                   else Ok (set_path (PList []) u)) (fun u =>
            goto Path (pointer p - 1) (buffer p) u p)
        else goto File (pointer p) (buffer p) u p
      else goto Path (pointer p - 1) (buffer p) u p
    | None => goto Path (pointer p - 1) (buffer p) u p
    end.

Definition step_file_slash (c : option jsstr) (p : pstate) : ctl :=
  if is_c c 0x2f || is_c c 0x5c then goto FileHost (pointer p) (buffer p) (url p) p
  else match base with
    | Some b =>
      if bool_decide (scheme b = js "file") then
        let u := set_host (u_host b) (url p) in
        attempt u (if negb (startsWithWindowsDriveLetter cp (pointer p))
                    && negb (bool_decide (path_length (path b) = 0%nat))
                    && isNormalizedWindowsDriveLetter (default [] (path_first (path b)))
                 then push_segment (default [] (path_first (path b))) u else Ok u) (fun u =>
          goto Path (pointer p - 1) (buffer p) u p)
      else goto Path (pointer p - 1) (buffer p) (url p) p
    | None => goto Path (pointer p - 1) (buffer p) (url p) p
    end.

Definition step_file_host (c : option jsstr) (p : pstate) : ctl :=
  let u := url p in
  if bool_decide (c = None) || is_c c 0x2f || is_c c 0x5c || is_c c 0x3f || is_c c 0x23 then
    let ptr := pointer p - 1 in
    if negb overridden && isWindowsDriveLetter (buffer p) then goto Path ptr (buffer p) u p
    else if bool_decide (buffer p = []) then
      let u := set_host (Some (HostString [])) u in
      if overridden then ReturnUrl u else goto PathStart ptr [] u p
    else attempt u (parseHost (buffer p) (isSpecial u)) (fun r => match r with
      | None => ReturnNull u
      | Some h =>
        let h := if bool_decide (h = HostString (js "localhost")) then HostString [] else h in
        let u := set_host (Some h) u in
        if overridden then ReturnUrl u else goto PathStart ptr [] u p
      end)
  else goto FileHost (pointer p) (buffer p ++ default [] c) u p.

Definition step_path_start (c : option jsstr) (p : pstate) : ctl :=
  let u := url p in
  if isSpecial u then
    goto Path (if negb (is_c c 0x2f) && negb (is_c c 0x5c) then pointer p - 1 else pointer p) (buffer p) u p
  else if negb overridden && is_c c 0x3f then goto Query (pointer p) (buffer p) (set_query (Some []) u) p
  else if negb overridden && is_c c 0x23 then goto Fragment (pointer p) (buffer p) (set_fragment (Some []) u) p
  else if bool_decide (is_Some c) then
    goto Path (if negb (is_c c 0x2f) then pointer p - 1 else pointer p) (buffer p) u p
  else if overridden && bool_decide (u_host u = None) then
    attempt u (push_segment [] u) (fun u => goto PathStart (pointer p) (buffer p) u p)
  else goto PathStart (pointer p) (buffer p) u p.

(** The path segment in [buffer] is complete. *)
Definition path_segment (slashish : bool) (buf : jsstr) (u : urlrec) : outcome urlrec :=
  if isDoubleDotSegment buf then
    u ← shortenPath u; if negb slashish then push_segment [] u else Ok u
  else if isSingleDotSegment buf then
    if negb slashish then push_segment [] u else Ok u
  else
    let buf := if bool_decide (scheme u = js "file") && bool_decide (path_length (path u) = 0%nat)
                  && isWindowsDriveLetter buf
               then take 1 buf ++ [0x3a] else buf in
    push_segment buf u.

Definition step_path (c : option jsstr) (p : pstate) : ctl :=
  let u := url p in
  let slashish := is_c c 0x2f || (isSpecial u && is_c c 0x5c) in
  if bool_decide (c = None) || slashish || (negb overridden && (is_c c 0x3f || is_c c 0x23)) then
    attempt u (path_segment slashish (buffer p) u) (fun u =>
      if is_c c 0x3f then goto Query (pointer p) [] (set_query (Some []) u) p
      else if is_c c 0x23 then goto Fragment (pointer p) [] (set_fragment (Some []) u) p
      else goto Path (pointer p) [] u p)
  else goto Path (pointer p) (buffer p ++ utf8PercentEncode (default [] c) PATH_EXTRA) u p.

Definition step_opaque_path (c : option jsstr) (p : pstate) : ctl :=
  let u := url p in
  if is_c c 0x3f then goto Query (pointer p) (buffer p) (set_query (Some []) u) p
  else if is_c c 0x23 then goto Fragment (pointer p) (buffer p) (set_fragment (Some []) u) p
  else match c with
    | Some ch => goto OpaquePath (pointer p) (buffer p)
                   (set_path (path_append (utf8PercentEncode ch C0_EXTRA) (path u)) u) p
    | None => goto OpaquePath (pointer p) (buffer p) u p
    end.

Definition step_query (c : option jsstr) (p : pstate) : ctl :=
  let u := url p in
  if bool_decide (c = None) || (negb overridden && is_c c 0x23) then
    let set := if isSpecial u then SPECIAL_QUERY_EXTRA else QUERY_EXTRA in
    let u := append_query (utf8PercentEncode (buffer p) set) u in
    if is_c c 0x23 then goto Fragment (pointer p) [] (set_fragment (Some []) u) p
    else goto Query (pointer p) [] u p
  else goto Query (pointer p) (buffer p ++ default [] c) u p.

Definition step_fragment (c : option jsstr) (p : pstate) : ctl :=
  goto Fragment (pointer p) (buffer p)
    (match c with
     | Some ch => append_fragment (utf8PercentEncode ch FRAGMENT_EXTRA) (url p)
     | None => url p
     end) p.

(** One pass through the [switch]. *)
Definition step (p : pstate) : ctl :=
  let c := if pointer p <? Z.of_nat (length cp) then cp_at cp (pointer p) else None in
  match p_state p with
  | SchemeStart => step_scheme_start c p
  | Scheme => step_scheme c p
  | NoScheme => step_no_scheme c p
  | SpecialRelativeOrAuthority => step_special_relative_or_authority c p
  | PathOrAuthority => step_path_or_authority c p
  | Relative => step_relative c p
  | RelativeSlash => step_relative_slash c p
  | SpecialAuthoritySlashes => step_special_authority_slashes c p
  | SpecialAuthorityIgnoreSlashes => step_special_authority_ignore_slashes c p
  | Authority => step_authority c p
  | Host | Hostname => step_host c p
  | Port => step_port c p
  | File => step_file c p
  | FileSlash => step_file_slash c p
  | FileHost => step_file_host c p
  | PathStart => step_path_start c p
  | Path => step_path c p
  | OpaquePath => step_opaque_path c p
  | Query => step_query c p
  | Fragment => step_fragment c p
  end.

Definition bump (p : pstate) : pstate :=
  PS (p_state p) (pointer p + 1) (buffer p) (atSignSeen p) (insideBrackets p)
     (passwordTokenSeen p) (url p).

(** The loop: [pointer++], stop past the end.  [None] when the fuel is
    spent. *)
Fixpoint parse_loop (fuel : nat) (p : pstate) : option ctl :=
  match fuel with
  | O => None
  | S fuel =>
    match step p with
    | Next p' =>
      let p'' := bump p' in
      if Z.of_nat (length cp) <? pointer p'' then Some (ReturnUrl (url p''))
      else parse_loop fuel p''
    | r => Some r
    end
  end.
End Step.

(** The trimming of the input. *)
Definition clean_input (input : jsstr) : jsstr :=
  filter (fun u => (u ∉ [0x09; 0x0a; 0x0d])) (trim_by (fun u => (0 <=? u) && (u <=? 0x20)) input).

(** Enough turns for an input of [n] code points: each of the 21 states is
    left for good, and in each the pointer only moves forward. *)
Definition parse_fuel (n : nat) : nat := 22 * (n + 3).

Section Parse.
Context `{TextCodec} `{UnicodeTables} `{SockAddr46}.

Definition basicURLParse (input : jsstr) (base : option urlrec) (u : option urlrec)
    (stateOverride : option state) : option ctl :=
  let cp := spread (clean_input input) in
  parse_loop cp base stateOverride (parse_fuel (length cp))
    (PS (default SchemeStart stateOverride) 0 [] false false false (default newURLRecord u)).
End Parse.
