(* ===== verification/UrlTermination.v ===== *)
(** * Termination of the URL state machine

    [basicURLParse] moves its pointer backwards in several places
    ([pointer--], [pointer = -1], the rewind of [authority]).  Every such
    move enters a state of strictly smaller rank and never leaves the
    input, so the loop ends within [parse_fuel] turns. *)

From S2P Require Import Prelude JsString Percent UrlHost UrlParser.
Open Scope Z_scope.

Definition rank (s : state) : Z :=
  match s with
  | SchemeStart => 20 | Scheme => 19 | NoScheme => 18 | SpecialRelativeOrAuthority => 17
  | PathOrAuthority => 16 | Relative => 15 | RelativeSlash => 14 | SpecialAuthoritySlashes => 13
  | SpecialAuthorityIgnoreSlashes => 12 | Authority => 11 | Host | Hostname => 10 | File => 9
  | Port => 8 | FileSlash => 7 | FileHost => 6 | PathStart => 5 | Path => 4 | OpaquePath => 3
  | Query => 2 | Fragment => 1
  end.

(** What the buffer holds when a state is entered: [authority] rewinds by
    its length, so it may not be longer than what has been read. *)
Definition buffer_ok (p : pstate) : Prop :=
  match p_state p with
  | SchemeStart | NoScheme | SpecialRelativeOrAuthority | PathOrAuthority | Relative
  | RelativeSlash | SpecialAuthoritySlashes | SpecialAuthorityIgnoreSlashes | File | FileSlash =>
      buffer p = []
  | Authority => Z.of_nat (length (spread (buffer p))) <= pointer p
  | _ => True
  end.

(** Case analysis on one [switch] case down to its assignments. *)
Ltac step_cases :=
  unfold goto, attempt in *;
  repeat match goal with
  | H : context [match ?x with _ => _ end] |- _ => destruct x eqn:?
  | H : Next _ = Next _ |- _ => injection H as <-
  | H : _ = Next _ |- _ => discriminate H
  end.

Section Termination.
Context `{TextCodec} `{UnicodeTables} `{SockAddr46}.
Variables (cp : list jsstr) (base : option urlrec) (so : option state).
Hypothesis cp_chars : Forall (fun ch => spread ch = [ch]) cp.

(** A pass either stays in its state with the pointer where it was, or
    moves down in rank; it never goes before the input. *)
Definition progress (p p' : pstate) : Prop :=
  -1 <= pointer p' /\ buffer_ok (bump p') /\
  (rank (p_state p') < rank (p_state p) \/
   (p_state p' = p_state p /\ pointer p <= pointer p')).

Lemma spread_length_snoc b c ch : c = Some ch -> spread ch = [ch] ->
  Z.of_nat (length (spread (b ++ default [] c))) <= Z.of_nat (length (spread b)) + 1.
Proof.
  intros -> Hch. cbn. pose proof (length_spread_app b ch) as Hl. rewrite Hch in Hl. cbn in Hl. lia.
Qed.

Lemma progress_authority c p p' :
  (forall ch, c = Some ch -> spread ch = [ch]) -> p_state p = Authority ->
  0 <= pointer p -> buffer_ok p -> step_authority c p = Next p' -> progress p p'.
Proof.
  intros Hc Hst Hp Hb Hstep. unfold buffer_ok in Hb. rewrite Hst in Hb.
  unfold step_authority, goto in Hstep. unfold progress, buffer_ok. rewrite Hst.
  destruct (is_c c 0x40); [|destruct (ends_authority c (url p)) eqn:He].
  - destruct (foldl _ _ _) as [seen u]. injection Hstep as <-. cbn -[spread Z.of_nat].
    split_and!; [lia|cbn; lia|right; split; [done|lia]].
  - destruct (_ && _); [done|]. injection Hstep as <-. cbn -[spread Z.of_nat].
    split_and!; [lia|done|left; lia].
  - injection Hstep as <-. cbn [bump p_state pointer buffer]. destruct c as [ch|]; [|done].
    pose proof (spread_length_snoc (buffer p) _ ch eq_refl (Hc _ eq_refl)).
    split_and!; [lia|lia|right; split; [done|lia]].
Qed.

Lemma step_progress p p' :
  0 <= pointer p <= Z.of_nat (length cp) -> buffer_ok p ->
  step cp base so p = Next p' -> progress p p'.
Proof.
  intros Hp Hb Hstep. unfold step in Hstep.
  set (c := if pointer p <? _ then _ else _) in Hstep.
  assert (forall ch, c = Some ch -> spread ch = [ch]) as Hc.
  { intros ch Hch. unfold c, cp_at in Hch.
    destruct (_ <? _); [|done]. destruct (_ <? _); [done|].
    by apply (Forall_lookup_1 _ _ _ _ cp_chars Hch). }
  clearbody c. destruct (decide (p_state p = Authority)) as [Hst|Hna].
  { rewrite Hst in Hstep. cbv iota in Hstep.
    eapply progress_authority; eauto; lia. }
  destruct (p_state p) eqn:Hst; try done; clear Hna;
    unfold buffer_ok in Hb; rewrite Hst in Hb; unfold progress; rewrite Hst.
  all: unfold step_scheme_start, step_scheme, scheme_colon, step_no_scheme,
    step_special_relative_or_authority, step_path_or_authority, step_relative, step_relative_slash,
    step_special_authority_slashes, step_special_authority_ignore_slashes, step_host, step_port,
    step_file, step_file_slash, step_file_host, step_path_start, step_path, step_opaque_path,
    step_query, step_fragment in Hstep.
  all: step_cases; unfold buffer_ok; cbn; rewrite ?Hst, ?Hb; cbn; try (split_and!; first [done|lia|left; lia|right; split; [done|lia]]).
Qed.

Definition measure (p : pstate) : Z :=
  rank (p_state p) * (Z.of_nat (length cp) + 2) + (Z.of_nat (length cp) + 1 - pointer p).

Lemma parse_loop_terminates fuel : forall p,
  0 <= pointer p <= Z.of_nat (length cp) -> buffer_ok p ->
  measure p <= Z.of_nat fuel -> is_Some (parse_loop cp base so fuel p).
Proof.
  induction fuel as [|fuel IH]; intros p Hp Hb Hm.
  { exfalso. unfold measure in Hm. assert (0 < rank (p_state p)) by (destruct (p_state p); cbn; lia). nia. }
  cbn [parse_loop]. destruct (step cp base so p) as [p'|u|u|? ? ?] eqn:Hstep; try by eexists.
  destruct (step_progress p p' Hp Hb Hstep) as (Hlo & Hb' & Hrank).
  destruct (Z.ltb_spec (Z.of_nat (length cp)) (pointer (bump p'))); [by eexists|].
  cbn in *. apply IH; cbn; [lia|done|]. unfold measure in *. cbn.
  destruct Hrank as [Hr|[-> Hr]]; [|lia].
  assert (rank (p_state p') + 1 <= rank (p_state p)) by lia. nia.
Qed.
End Termination.

Section Parse.
Context `{TextCodec} `{UnicodeTables} `{SockAddr46}.

Lemma spread_chars_alone input : Forall (fun ch => spread ch = [ch]) (spread input).
Proof. apply Forall_forall. intros ch Hch. by eapply spread_elem. Qed.

(** Where [basicURLParse] starts its loop. *)
Definition start_state (u : option urlrec) (so : option state) : pstate :=
  PS (default SchemeStart so) 0 [] false false false (default newURLRecord u).

Lemma start_buffer_ok u so : buffer_ok (start_state u so).
Proof. unfold buffer_ok. cbn. by destruct so as [[]|]. Qed.

Lemma start_terminates cp base u so :
  Forall (fun ch => spread ch = [ch]) cp ->
  is_Some (parse_loop cp base so (parse_fuel (length cp)) (start_state u so)).
Proof.
  intros Hcp. apply parse_loop_terminates; [done|cbn; lia|apply start_buffer_ok|].
  unfold measure, parse_fuel. cbn [p_state pointer start_state].
  assert (rank (default SchemeStart so) <= 20) by (destruct so as [[]|]; cbn; lia). nia.
Qed.

(** C3: [basicURLParse] terminates: whatever the input string, the base,
    the record and the state override, the fuel of the model is never
    spent, so the loop returns a record or [null] (or throws). *)
Theorem basicURLParse_terminates input base u so :
  is_Some (basicURLParse input base u so).
Proof. apply start_terminates, spread_chars_alone. Qed.
End Parse.
