(* ===== verification/UrlInvariant.v ===== *)
(** * The URL record invariant

    What every record the parser returns satisfies: a lower-case scheme,
    userinfo, path, query and fragment in their escaped alphabets, a port
    in range that is not the default one, a host for special schemes, an
    opaque path exactly when the flag says so.  The parser establishes it
    from any input and any good base, and throws only on a host the native
    address class or text decoder rejects. *)

From S2P Require Import Prelude JsString Percent UrlHost UrlParser.
Open Scope Z_scope.

(** The alphabet of a component: printable ASCII outside a set. *)
Definition safe_in (set : list Z) (s : jsstr) : Prop :=
  Forall (fun u => 0x20 <= u <= 0x7e /\ u ∉ set) s.

(** [scheme] is a letter followed by letters, digits, [+], [-], [.], in
    lower case. *)
Definition scheme_char (u : Z) : Prop := is_scheme_char u = true /\ is_upper u = false.
Definition scheme_ok (s : jsstr) : Prop :=
  exists u t, s = u :: t /\ is_lower u = true /\ Forall scheme_char s.

Definition host_ok (h : host) : Prop :=
  match h with
  | HostString s => Forall (fun u => u ∉ FORBIDDEN_HOST_CODEPOINTS) s
  | _ => True
  end.

Definition port_ok (s : jsstr) (p : option Z) : Prop :=
  match p with
  | Some n => 0 <= n <= 65535 /\ Some n <> defaultPort s
  | None => True
  end.

Definition PATH_SET : list Z := 0x2f :: PATH_EXTRA.
Definition OPAQUE_SET : list Z := [0x23; 0x3f].

Definition path_ok (p : upath) : Prop :=
  match p with
  | PList segs => Forall (safe_in PATH_SET) segs
  | PString s => safe_in OPAQUE_SET s
  end.

(** The part that holds of the record at every turn of the loop. *)
Record pre_ok (u : urlrec) : Prop := {
  ok_username : safe_in USERINFO_EXTRA (username u);
  ok_password : safe_in USERINFO_EXTRA (password u);
  ok_host : forall h, u_host u = Some h -> host_ok h;
  ok_port : port_ok (scheme u) (port u);
  ok_path : path_ok (path u);
  ok_opaque : opaquePath u = match path u with PString _ => true | PList _ => false end;
  ok_query : forall q, query u = Some q -> safe_in QUERY_EXTRA q;
  ok_fragment : forall f, fragment u = Some f -> safe_in FRAGMENT_EXTRA f;
}.

(** The invariant of a finished record. *)
Record url_ok (u : urlrec) : Prop := {
  ok_pre : pre_ok u;
  ok_scheme : scheme_ok (scheme u);
  ok_special_host : isSpecial u = true -> u_host u <> None;
  ok_special_path : isSpecial u = true -> opaquePath u = false;
}.

(* ------------------------------------------------------------------ *)
(** ** The alphabets *)

Section Alphabets.
Context `{TextCodec}.

Lemma safe_in_app set s t : safe_in set (s ++ t) <-> safe_in set s /\ safe_in set t.
Proof. apply Forall_app. Qed.

(** No escape writes a character of [set]. *)
Definition escape_free (set : list Z) : bool :=
  forallb (fun u => negb (u =? 0x25) && negb (is_hex_upper u)) set.

Lemma encode_safe set s : escape_free set = true -> safe_in set (utf8PercentEncode s set).
Proof.
  intros Hset. eapply Forall_impl; [apply utf8PercentEncode_chars|].
  intros u [Hu Hcase]. split; [done|]. intros Hin. unfold escape_free in Hset.
  rewrite forallb_forall in Hset. pose proof (Hset u ltac:(by apply list_elem_of_In)) as Hu'.
  apply andb_prop in Hu' as [H1 H2]. destruct Hcase as [|[->|Hx]]; [done|done|].
  by rewrite Hx in H2.
Qed.

Lemma safe_in_weaken set set' s : set' ⊆ set -> safe_in set s -> safe_in set' s.
Proof.
  intros Hsub Hs. eapply Forall_impl; [exact Hs|]. intros u [? Hu]. split; [done|]. by intros ?%Hsub.
Qed.

(** A single character the parser has told apart from [u0] is encoded
    without [u0]. *)
Lemma encode_char_avoids set ch u0 :
  spread ch = [ch] -> escape_free [u0] = true -> ch <> [u0] ->
  escape_free set = true -> safe_in (u0 :: set) (utf8PercentEncode ch set).
Proof.
  intros Hch Hu0 Hne Hset. pose proof (encode_safe set ch Hset) as Hs.
  assert (Forall (fun u => u <> u0) (utf8PercentEncode ch set)) as Hav.
  { unfold utf8PercentEncode. rewrite Hch. cbn. rewrite app_nil_r.
    assert (is_char ch) as Hc.
    { pose proof (spread_chars ch) as Hall. rewrite Hch in Hall. by inversion Hall. }
    destruct (percentEncodeChar_cases set ch Hc) as [(u & -> & _ & _ & Heq)|Heq]; rewrite Heq.
    - forall_list. by intros ->.
    - apply Forall_concat, Forall_fmap. eapply Forall_impl; [apply encode_byte|].
      intros b Hb. cbn. destruct (percentEncodeByte_spec b Hb) as (h1 & h2 & Hpe & H1 & H2 & _).
      rewrite Hpe. cbn in Hu0. rewrite andb_true_r in Hu0. apply andb_prop in Hu0 as [Ha Hb0].
      forall_list; intros <-; [done|by rewrite H1 in Hb0|by rewrite H2 in Hb0]. }
  apply Forall_forall. intros u Hu. pose proof (proj1 (Forall_forall _ _) Hs u Hu) as [? ?].
  pose proof (proj1 (Forall_forall _ _) Hav u Hu) as Hne'. split; [done|].
  apply not_elem_of_cons. done.
Qed.
End Alphabets.

(* ------------------------------------------------------------------ *)
(** ** Hosts *)

Section Hosts.
Context `{TextCodec} `{UnicodeTables} `{SockAddr46}.

Lemma existsb_false {A} (f : A -> bool) l : existsb f l = false -> Forall (fun x => f x = false) l.
Proof.
  induction l as [|x l IH]; cbn; [constructor|]. intros [? ?]%orb_false_iff. constructor; auto.
Qed.

Lemma set_has_false set u : set_has set [u] = false -> u ∉ set.
Proof. cbn. by intros ?%bool_decide_eq_false. Qed.

Lemma forbidden_range u : u ∈ FORBIDDEN_HOST_CODEPOINTS -> 0 <= u <= 0x7c.
Proof.
  revert u. apply Forall_forall. unfold FORBIDDEN_HOST_CODEPOINTS. forall_list; done.
Qed.

Lemma parseOpaqueHost_ok s h : parseOpaqueHost s = Some h -> host_ok h.
Proof.
  unfold parseOpaqueHost, containsForbiddenHostCodePoint.
  destruct (existsb _ _) eqn:E; [done|]. intros [= <-]. cbn.
  apply existsb_false in E. unfold utf8PercentEncode. apply Forall_concat, Forall_fmap.
  pose proof (spread_chars s) as Hc. apply Forall_forall. intros ch Hin. cbn.
  pose proof (proj1 (Forall_forall _ _) E ch Hin) as Hf.
  destruct (percentEncodeChar_cases C0_EXTRA ch (proj1 (Forall_forall _ _) Hc ch Hin))
    as [(u & -> & _ & _ & Heq)|Heq]; rewrite Heq.
  - forall_list. by apply set_has_false.
  - apply Forall_concat, Forall_fmap. eapply Forall_impl; [apply encode_byte|].
    intros b Hb. cbn. destruct (percentEncodeByte_spec b Hb) as (h1 & h2 & -> & Hx1 & Hx2 & _).
    assert (forall u, is_hex_upper u = true -> u ∉ FORBIDDEN_HOST_CODEPOINTS) as Hhex.
    { intros u Hu Hin'. revert Hu. revert u Hin'. apply (Forall_forall (fun u => is_hex_upper u <> true)).
      unfold FORBIDDEN_HOST_CODEPOINTS. forall_list; done. }
    forall_list; [by apply (bool_decide_unpack _)|by apply Hhex..].
Qed.

Lemma domain_ok s :
  existsb forbidden_domain_char (spread s) = false -> host_ok (HostString s).
Proof.
  intros E%existsb_false. cbn. rewrite <-(concat_spread s). apply Forall_concat.
  pose proof (spread_chars s) as Hc. apply Forall_forall. intros ch Hin.
  pose proof (proj1 (Forall_forall _ _) E ch Hin) as Hf. cbv beta in Hf.
  unfold forbidden_domain_char in Hf. apply orb_false_iff in Hf as [Hf _].
  apply orb_false_iff in Hf as [Hf _].
  destruct (proj1 (Forall_forall _ _) Hc ch Hin) as [[u ->]|(x & y & -> & E')].
  - forall_list. apply set_has_false in Hf. intros Hu. apply Hf.
    apply elem_of_app. by left.
  - unfold is_high, is_low in E'. forall_list; intros Hu%forbidden_range; lia.
Qed.

Lemma parseHost_ok s sp h : parseHost s sp = Ok (Some h) -> host_ok h.
Proof.
  unfold parseHost, parseIPv6, parseIPv4. intros Hp.
  destruct (bool_decide _).
  { destruct (bool_decide _); [|done]. destruct (sa_address _) as [[bs|]|]; cbn in Hp; try done. destruct (decide _); [|done]. by injection Hp as <-. }
  destruct (negb sp); [injection Hp as Hp; by eapply parseOpaqueHost_ok|].
  destruct (bool_decide _); [done|]. destruct (percentDecodeString s) as [d|]; cbn in Hp; [|done].
  destruct (existsb _ _) eqn:E; [done|].
  destruct (endsInANumber _); [|injection Hp as <-; by apply domain_ok].
  destruct (sa_address _) as [[[|? [|? [|? [|? [|? ?]]]]]|]|]; try done. by injection Hp as <-.
Qed.

(** The strings that make the parser of hosts throw: an IPv6 literal that
    starts with another, unterminated bracket, and an escape in a domain
    that is not UTF-8. *)
Definition bad_host (s : jsstr) (c : error_class) (msg : string) : Prop :=
  (c = ErrSyntaxError /\ msg = "missing ending ]"%string /\
     exists t, s = [0x5b; 0x5b] ++ t ++ [0x5d] /\ 0x5d ∉ c_string t) \/
  (c = ErrTypeError /\ msg = "invalid UTF-8"%string /\ percentDecodeString s = Throw c msg).

(** An opening bracket that is never closed. *)
Definition unterminated (s : jsstr) : bool :=
  match s with u :: t => (u =? 0x5b) && negb (bool_decide (0x5d ∈ c_string t)) | [] => false end.

Lemma index_of_none u s : index_of u s = None <-> u ∉ s.
Proof.
  induction s as [|v s IH]; cbn [index_of]; [split; [by intros _ ?%not_elem_of_nil|done]|]. destruct (Z.eqb_spec v u) as [->|Hv].
  - split; [done|]. intros []. apply list_elem_of_here.
  - rewrite not_elem_of_cons. destruct (index_of u s); cbn; naive_solver.
Qed.

Lemma sa_throws s c m : sa_address s = Throw c m ->
  unterminated s = true /\ c = ErrSyntaxError /\ m = "missing ending ]"%string.
Proof.
  unfold sa_address, unterminated. intros Hs. destruct s as [|u t]; [done|]. cbn [c_string] in Hs.
  destruct (Z.eqb_spec u 0) as [->|]; [done|]. cbn [head tail] in Hs. case_bool_decide as E; [|done]. injection E as ->.
  destruct (index_of 0x5d (c_string t)) eqn:Ei; [done|]. injection Hs as <- <-. cbn.
  rewrite bool_decide_false by by apply index_of_none. done.
Qed.

(** A domain has no bracket, so that reading it as IPv4 does not throw. *)
Lemma host_not_unterminated s : host_ok (HostString s) -> unterminated s = false.
Proof.
  intros Hs. destruct s as [|u t]; [done|]. cbn. destruct (Z.eqb_spec u 0x5b) as [->|]; [|done].
  apply Forall_cons in Hs as [Hu _]. destruct Hu. by apply (bool_decide_unpack _).
Qed.

Lemma unbracket (s : jsstr) : head s = Some 0x5b -> last s = Some 0x5d ->
  s = 0x5b :: take (length s - 2) (drop 1 s) ++ [0x5d].
Proof.
  destruct s as [|u t]; [done|]. cbn [head]. intros [= ->] Hl. cbn [drop length].
  destruct t as [|v t'] using rev_ind; [done|]. rewrite app_comm_cons, last_snoc in Hl. injection Hl as ->.
  replace (S (length (t' ++ [0x5d%Z])) - 2)%nat with (length t') by (rewrite length_app; cbn; lia). by rewrite drop_0, take_app_length.
Qed.

Lemma parseHost_throws s sp c m : parseHost s sp = Throw c m -> bad_host s c m.
Proof.
  unfold parseHost, parseIPv6, parseIPv4. intros Hp.
  destruct (bool_decide (head s = _)) eqn:Eh.
  { destruct (bool_decide (last s = _)) eqn:El; [|done]. apply bool_decide_eq_true in Eh, El.
    pose proof (unbracket s Eh El) as Hs. set (t := take _ _) in *. destruct (sa_address t) as [|c' m'] eqn:Ea; [done|].
    apply sa_throws in Ea as (Hu & -> & ->). injection Hp as <- <-. left. split; [done|split; [done|]].
    clearbody t. subst s. destruct t as [|u t]; [done|]. cbn in Hu. apply andb_prop in Hu as [->%Z.eqb_eq Hu].
    apply negb_true_iff, bool_decide_eq_false in Hu. exists t. by split. }
  destruct (negb sp); [done|]. destruct (bool_decide (s = [])); [done|].
  destruct (percentDecodeString s) as [d|c' m'] eqn:Ed; unfold mbind, outcome_bind in Hp.
  - cbv zeta in Hp. destruct (existsb forbidden_domain_char _) eqn:E; [done|]. destruct (endsInANumber _); [|done].
    destruct (sa_address _) as [|c' m'] eqn:Ea; [done|]. apply sa_throws in Ea as (Hu & _).
    apply domain_ok, host_not_unterminated in E. congruence.
  - injection Hp as <- <-. right. destruct (percentDecodeString_throws _ _ _ Ed) as [-> ->]. by rewrite Ed.
Qed.
End Hosts.

(* ------------------------------------------------------------------ *)
(** ** Path operations on an ordinary path *)

Definition list_path (u : urlrec) : Prop := opaquePath u = false.

Lemma list_path_segs u : pre_ok u -> list_path u ->
  exists l, path u = PList l /\ Forall (safe_in PATH_SET) l.
Proof.
  intros Hu Hl. pose proof (ok_opaque _ Hu) as Ho. pose proof (ok_path _ Hu) as Hp.
  unfold list_path in Hl. rewrite Hl in Ho. destruct (path u) as [l|]; [by exists l|done].
Qed.

(** [f] replaces the path by another good one. *)
Definition repath (u : urlrec) (m : outcome urlrec) : Prop :=
  exists l, m = Ok (set_path (PList l) u) /\ Forall (safe_in PATH_SET) l.

Lemma push_segment_repath seg u :
  pre_ok u -> list_path u -> safe_in PATH_SET seg -> repath u (push_segment seg u).
Proof.
  intros Hu Hl Hs. destruct (list_path_segs u Hu Hl) as (l & Hp & Hf).
  unfold push_segment. rewrite Hp. cbn. eexists; split; [done|].
  apply Forall_app; split; [done|by constructor].
Qed.

Lemma pop_segment_repath u : pre_ok u -> list_path u -> repath u (pop_segment u).
Proof.
  intros Hu Hl. destruct (list_path_segs u Hu Hl) as (l & Hp & Hf).
  unfold pop_segment. rewrite Hp. cbn. eexists; split; [done|]. by apply Forall_take.
Qed.

Lemma same_path_repath u : pre_ok u -> list_path u -> repath u (Ok u).
Proof.
  intros Hu Hl. destruct (list_path_segs u Hu Hl) as (l & Hp & Hf).
  exists l. split; [|done]. destruct u; cbn in *. by rewrite Hp.
Qed.

Lemma shortenPath_repath u : pre_ok u -> list_path u -> repath u (shortenPath u).
Proof.
  intros Hu Hl. unfold shortenPath.
  repeat case_match; by (apply same_path_repath || apply pop_segment_repath).
Qed.

Lemma repath_bind u m (f : urlrec -> outcome urlrec) :
  repath u m ->
  (forall l, Forall (safe_in PATH_SET) l -> repath (set_path (PList l) u) (f (set_path (PList l) u))) ->
  repath u (m ≫= f).
Proof.
  intros (l & -> & Hl) Hf. cbn. destruct (Hf l Hl) as (l' & -> & Hl').
  exists l'. split; [by destruct u|done].
Qed.

Lemma pre_ok_set_path u l :
  pre_ok u -> list_path u -> Forall (safe_in PATH_SET) l ->
  pre_ok (set_path (PList l) u) /\ list_path (set_path (PList l) u).
Proof. intros [? ? ? ? ? ? ? ?] Hl Hs. by repeat split. Qed.

Lemma drive_letter_safe s : isWindowsDriveLetter s = true -> safe_in PATH_SET s /\
  safe_in PATH_SET (take 1 s ++ [0x3a]).
Proof.
  destruct s as [|a [|b [|? ?]]]; cbn; try done. intros Hab.
  assert (forall u, (is_alpha u || (u =? 0x3a) || (u =? 0x7c)) = true -> 0x20 <= u <= 0x7e /\ u ∉ PATH_SET) as Hs.
  { intros u Hu. split; [unfold is_alpha, is_upper, is_lower in Hu; lia|]. intros Hin.
    revert Hu. apply not_true_iff_false. revert u Hin.
    apply (Forall_forall (fun u => (is_alpha u || (u =? 0x3a) || (u =? 0x7c)) = false)).
    unfold PATH_SET. cbn. forall_list; done. }
  apply andb_prop in Hab as [Ha Hb].
  assert ((is_alpha b || (b =? 0x3a) || (b =? 0x7c)) = true) by (rewrite <-orb_assoc, Hb; by apply orb_true_r).
  unfold safe_in. split; forall_list; apply Hs; rewrite ?Ha; done.
Qed.

Lemma normalized_drive_letter s :
  isNormalizedWindowsDriveLetter s = true -> isWindowsDriveLetter s = true.
Proof. destruct s as [|a [|b [|? ?]]]; cbn; try done. intros [-> ->]%andb_prop. done. Qed.

Lemma path_segment_repath slashish buf u :
  pre_ok u -> list_path u -> safe_in PATH_SET buf -> repath u (path_segment slashish buf u).
Proof.
  intros Hu Hl Hb. unfold path_segment. assert (safe_in PATH_SET []) as Hnil by constructor.
  destruct (isDoubleDotSegment buf); [|destruct (isSingleDotSegment buf)].
  - apply repath_bind; [by apply shortenPath_repath|]. intros l Hs.
    destruct (pre_ok_set_path u l Hu Hl Hs).
    destruct (negb slashish); [by apply push_segment_repath|by apply same_path_repath].
  - destruct (negb slashish); [by apply push_segment_repath|by apply same_path_repath].
  - apply push_segment_repath; try done. destruct (_ && isWindowsDriveLetter buf) eqn:E; [|done].
    apply andb_prop in E as [_ E]. by apply drive_letter_safe.
Qed.

(* ------------------------------------------------------------------ *)
(** ** Changing one field of a good record *)

Lemma url_ok_set_path u l :
  url_ok u -> list_path u -> Forall (safe_in PATH_SET) l ->
  url_ok (set_path (PList l) u) /\ list_path (set_path (PList l) u).
Proof.
  intros [Hp ? ? ?] Hl Hs. destruct (pre_ok_set_path u l Hp Hl Hs). split; [|done]. by split.
Qed.

Lemma url_ok_repath u m : url_ok u -> list_path u -> repath u m ->
  exists u', m = Ok u' /\ url_ok u' /\ list_path u'.
Proof. intros Hu Hl (l & -> & Hs). eexists; split; [done|]. by apply url_ok_set_path. Qed.

Lemma url_ok_set_query u q :
  url_ok u -> (forall s, q = Some s -> safe_in QUERY_EXTRA s) -> url_ok (set_query q u).
Proof. intros [[] ? ? ?] Hq. by repeat split. Qed.

Lemma url_ok_set_fragment u f :
  url_ok u -> (forall s, f = Some s -> safe_in FRAGMENT_EXTRA s) -> url_ok (set_fragment f u).
Proof. intros [[] ? ? ?] Hq. by repeat split. Qed.

Lemma url_ok_set_host u h : url_ok u -> host_ok h -> url_ok (set_host (Some h) u).
Proof. intros [[] ? ? ?] Hq. repeat split; try done. by intros ? [= <-]. Qed.

Lemma url_ok_set_port u p : url_ok u -> port_ok (scheme u) p -> url_ok (set_port p u).
Proof. intros [[] ? ? ?] Hq. by repeat split. Qed.

Lemma safe_in_bool set s :
  forallb (fun u => (0x20 <=? u) && (u <=? 0x7e) && negb (bool_decide (u ∈ set))) s = true ->
  safe_in set s.
Proof.
  intros Hs. apply Forall_forall. intros u Hu%list_elem_of_In.
  rewrite forallb_forall in Hs. apply Hs in Hu. apply andb_prop in Hu as [Hr Hn].
  split; [lia|]. apply negb_true_iff, bool_decide_eq_false in Hn. done.
Qed.

Create HintDb url_ok.

Lemma safe_nil set : safe_in set [].
Proof. constructor. Qed.

Lemma some_nil_safe set s : Some [] = Some s -> safe_in set s.
Proof. intros [= <-]. constructor. Qed.
#[export] Hint Resolve safe_nil some_nil_safe : url_ok.
#[export] Hint Resolve url_ok_set_query url_ok_set_fragment url_ok_set_host url_ok_set_port : url_ok.

Section AppendOk.
Context `{TextCodec}.

Lemma append_query_ok u s : url_ok u -> safe_in QUERY_EXTRA s -> url_ok (append_query s u).
Proof.
  intros Hu Hs. apply url_ok_set_query; [done|]. intros s' [= <-]. apply safe_in_app.
  split; [|done]. destruct (query u) as [q|] eqn:E; [by apply (ok_query _ (ok_pre _ Hu))|].
  by apply safe_in_bool.
Qed.

Lemma append_fragment_ok u s : url_ok u -> safe_in FRAGMENT_EXTRA s -> url_ok (append_fragment s u).
Proof.
  intros Hu Hs. apply url_ok_set_fragment; [done|]. intros s' [= <-]. apply safe_in_app.
  split; [|done]. destruct (fragment u) as [q|] eqn:E; [by apply (ok_fragment _ (ok_pre _ Hu))|].
  by apply safe_in_bool.
Qed.
End AppendOk.
