(* ===== verification/UrlParserOk.v ===== *)
(** * The parser establishes the URL record invariant

    An invariant for each state of [basicURLParse], preserved by every
    case of the [switch]; with it the parser throws only on a host the
    native code rejects, every record it returns is good, and a setter's
    run leaves a good record good even when it fails or throws half way. *)

From S2P Require Import Prelude JsString Percent UrlHost UrlParser UrlTermination UrlInvariant.
Open Scope Z_scope.

Section StateInvariant.
Context `{TextCodec} `{UnicodeTables} `{SockAddr46}.
Variables (cp : list jsstr) (base : option urlrec) (so : option state).

(** Before the path: nothing but scheme, userinfo and host is set. *)
Record mid_ok (u : urlrec) : Prop := {
  mid_pre : pre_ok u;
  mid_list : list_path u;
  mid_port : port u = None;
}.

Definition base_ok : Prop := forall b, base = Some b -> url_ok b.

(** The record the parser starts with: fresh, or the setter's. *)
Definition start_ok (u : urlrec) : Prop :=
  match so with None => u = newURLRecord | Some _ => url_ok u end.

Definition host_stage_ok (u : urlrec) : Prop :=
  match so with None => mid_ok u /\ scheme_ok (scheme u) | Some _ => url_ok u end.

Definition inv (p : pstate) : Prop :=
  let u := url p in
  match p_state p with
  | SchemeStart => buffer p = [] /\ start_ok u
  | Scheme => scheme_ok (buffer p) /\ start_ok u
  | NoScheme => buffer p = [] /\ u = newURLRecord /\ so = None
  | SpecialRelativeOrAuthority =>
      buffer p = [] /\ mid_ok u /\ scheme_ok (scheme u) /\ so = None /\
      exists b, base = Some b /\ isSpecial b = true
  | PathOrAuthority =>
      buffer p = [] /\ mid_ok u /\ scheme_ok (scheme u) /\ so = None /\ isSpecial u = false
  | Relative => buffer p = [] /\ mid_ok u /\ so = None /\
      exists b, base = Some b /\ opaquePath b = false
  | RelativeSlash => buffer p = [] /\ mid_ok u /\ scheme_ok (scheme u) /\ so = None /\
      exists b, base = Some b /\ scheme u = scheme b
  | SpecialAuthoritySlashes | SpecialAuthorityIgnoreSlashes =>
      buffer p = [] /\ mid_ok u /\ scheme_ok (scheme u) /\ so = None
  | Authority => mid_ok u /\ scheme_ok (scheme u) /\ so = None
  | Host | Hostname => host_stage_ok u
  | Port => host_stage_ok u /\ (isSpecial u = true -> u_host u <> None)
  | File => buffer p = [] /\ mid_ok u /\ so = None
  | FileSlash => buffer p = [] /\ mid_ok u /\ so = None /\ scheme u = js "file" /\ u_host u <> None
  | FileHost => mid_ok u /\ so = None /\ scheme u = js "file" /\ u_host u <> None
  | PathStart => buffer p = [] /\ url_ok u /\ list_path u
  | Path => safe_in PATH_SET (buffer p) /\ url_ok u /\ list_path u
  | OpaquePath => url_ok u /\ opaquePath u = true
  | Query | Fragment => url_ok u
  end.

(** The states that read a host, and those a setter of another part of
    the URL can be in. *)
Definition reads_host (s : state) : Prop := s = Host \/ s = Hostname \/ s = FileHost.
Definition quiet (s : state) : bool :=
  match s with SchemeStart | Scheme | Port | PathStart | Path | OpaquePath | Query | Fragment => true | _ => false end.

Lemma reads_host_not_quiet s : reads_host s -> quiet s = false.
Proof. by intros [-> |[-> | ->]]. Qed.

(** What one pass guarantees: the invariant at the next turn if there
    is one, a good record when the loop may stop (the pass saw the end
    of the input and did not go back) or returns, and an exception only on
    a bad host, with the setter's record still good. *)
Definition step_ok (c : option jsstr) (p : pstate) (r : ctl) : Prop :=
  match r with
  | Next p' => (c <> None \/ pointer p' < pointer p -> inv p') /\ (c = None -> pointer p <= pointer p' -> url_ok (url p'))
  | ReturnUrl u => url_ok u /\ so <> None
  | ReturnNull u => so <> None -> url_ok u
  | Thrown u c msg => (so <> None -> url_ok u) /\ reads_host (p_state p) /\ exists host, bad_host host c msg
  end.

(** One character: what [cp] holds at an index. *)
Definition one_char (c : option jsstr) : Prop := forall ch, c = Some ch -> spread ch = [ch].

Lemma one_char_unit c f : one_char c ->
  match c with Some s => existsb f s | None => false end = true -> f 0xD800 = false ->
  (forall u, is_high u = true -> f u = false) -> (forall u, is_low u = true -> f u = false) ->
  exists u, c = Some [u] /\ f u = true.
Proof.
  intros Hc Hf _ Hhi Hlo. destruct c as [ch|]; [|done].
  assert (is_char ch) as Hch.
  { pose proof (spread_chars ch) as Hall. rewrite (Hc ch eq_refl) in Hall. by inversion Hall. }
  destruct Hch as [[u ->]|(h & l & -> & E)]; cbn in Hf.
  - exists u. by rewrite orb_false_r in Hf.
  - apply andb_prop in E as [Eh El]. by rewrite Hhi, Hlo in Hf.
Qed.

(** ASCII classes hold of no surrogate. *)
Lemma ascii_class_surrogate (f : Z -> bool) :
  (forall u, f u = true -> u < 0x80) ->
  (forall u, is_high u = true -> f u = false) /\ (forall u, is_low u = true -> f u = false).
Proof.
  intros Hf. split; intros u Hu; apply not_true_iff_false; intros Hfu%Hf;
    unfold is_high, is_low in Hu; lia.
Qed.

Lemma one_char_ascii c (f : Z -> bool) : one_char c -> (forall u, f u = true -> u < 0x80) ->
  match c with Some s => existsb f s | None => false end = true ->
  exists u, c = Some [u] /\ f u = true.
Proof.
  intros Hc Hf Hm. destruct (ascii_class_surrogate f Hf) as [Hhi Hlo].
  apply one_char_unit; try done. by apply Hhi.
Qed.

Lemma newURLRecord_mid : mid_ok newURLRecord.
Proof. split; [split|..]; cbn; try done; try constructor. Qed.

Lemma mid_set_scheme u s : mid_ok u -> mid_ok (set_scheme s u).
Proof. intros [[] ? Hp]. split; [split|..]; cbn; try done. by rewrite Hp. Qed.

Lemma mid_set_host u h : mid_ok u -> (forall x, h = Some x -> host_ok x) -> mid_ok (set_host h u).
Proof. intros [[] ? ?] Hh. by split; [split|..]. Qed.

(** A record whose authority is complete is good. *)
Lemma mid_url_ok u : mid_ok u -> scheme_ok (scheme u) ->
  (isSpecial u = true -> u_host u <> None) -> url_ok u /\ list_path u.
Proof. intros [Hp Hl _] Hs Hh. split; [split|]; done. Qed.
End StateInvariant.

#[export] Hint Resolve newURLRecord_mid mid_set_scheme mid_set_host : url_ok.

(* ------------------------------------------------------------------ *)
(** ** Schemes *)

Lemma lower_unit_scheme u : is_scheme_char u = true -> scheme_char (lower_unit u).
Proof.
  unfold scheme_char, is_scheme_char, lower_unit, is_alnum, is_alpha, is_digit, is_upper, is_lower.
  intros Hu. destruct ((0x41 <=? u) && (u <=? 0x5a)) eqn:E; lia.
Qed.

Lemma lower_unit_alpha u : is_alpha u = true -> is_lower (lower_unit u) = true.
Proof.
  unfold lower_unit, is_alpha, is_upper, is_lower.
  intros Hu. destruct ((0x41 <=? u) && (u <=? 0x5a)) eqn:E; lia.
Qed.

Lemma alpha_scheme_char u : is_alpha u = true -> is_scheme_char u = true.
Proof. unfold is_scheme_char, is_alnum. intros ->. done. Qed.

Lemma is_alpha_ascii u : is_alpha u = true -> u < 0x80.
Proof. unfold is_alpha, is_upper, is_lower. lia. Qed.

Lemma is_digit_ascii u : is_digit u = true -> u < 0x80.
Proof. unfold is_digit. lia. Qed.

Lemma is_scheme_char_ascii u : is_scheme_char u = true -> u < 0x80.
Proof. unfold is_scheme_char, is_alnum, is_alpha, is_upper, is_lower, is_digit. lia. Qed.

Lemma scheme_ok_one u : is_alpha u = true -> scheme_ok [lower_unit u].
Proof.
  intros Hu. exists (lower_unit u), []. split_and!; [done|by apply lower_unit_alpha|].
  forall_list. by apply lower_unit_scheme, alpha_scheme_char.
Qed.

Lemma scheme_ok_snoc s u : scheme_ok s -> is_scheme_char u = true -> scheme_ok (s ++ [lower_unit u]).
Proof.
  intros (a & t & -> & Ha & Hall) Hu. exists a, (t ++ [lower_unit u]). split_and!; try done.
  apply (Forall_app scheme_char (a :: t)). split; [done|]. forall_list. by apply lower_unit_scheme.
Qed.

Lemma file_scheme_ok : scheme_ok (js "file").
Proof. exists 0x66, (js "ile"). split_and!; try done. vm_compute. forall_list; done. Qed.

Lemma query_sets : QUERY_EXTRA ⊆ SPECIAL_QUERY_EXTRA.
Proof. apply (list_subseteq_app_l QUERY_EXTRA QUERY_EXTRA [0x27]). done. Qed.

Section Steps.
Context `{TextCodec} `{UnicodeTables} `{SockAddr46}.
Variables (cp : list jsstr) (base : option urlrec) (so : option state).
Hypothesis Hbase : base_ok base.

Abbreviation inv := (inv base so).
Abbreviation step_ok := (step_ok base so).

Lemma overridden_eq : overridden so = match so with Some _ => true | None => false end.
Proof. by unfold overridden; destruct so. Qed.

(** Open a state: its record, its invariant, and its pass. *)
Ltac open_state :=
  intros Hc Hst Hinv; unfold inv in Hinv; rewrite Hst in Hinv.

Lemma overridden_true : overridden so = true -> so <> None.
Proof. rewrite overridden_eq. by destruct so. Qed.

Lemma overridden_false : overridden so = false -> so = None.
Proof. rewrite overridden_eq. by destruct so. Qed.

Lemma is_c_None u : is_c None u = false.
Proof. done. Qed.

Lemma ends_authority_None u : ends_authority None u = true.
Proof. done. Qed.

(** The pass cannot be the last one: the character is there, or the
    pointer went back. *)
Ltac not_last :=
  let Hn := fresh in intros Hn; first [discriminate Hn | subst; rewrite ?is_c_None in *; cbn [pointer];
    first [done | discriminate | lia | congruence]].
Ltac to_state := split; [intros _; unfold inv; cbn | not_last].

Lemma scheme_start_ok c p :
  one_char c -> p_state p = SchemeStart -> inv p -> 0 <= pointer p -> step_ok c p (step_scheme_start so c p).
Proof.
  open_state. destruct Hinv as [Hb Hs]. intros Hp. unfold step_scheme_start, isASCIIAlpha.
  destruct (match c with Some s => existsb is_alpha s | None => false end) eqn:E.
  - destruct (one_char_ascii c _ Hc is_alpha_ascii E) as (u & -> & Hu).
    to_state. rewrite Hb. split; [by apply scheme_ok_one|done].
  - rewrite overridden_eq. unfold start_ok in Hs. destruct so; cbn.
    + done.
    + by split; [|lia].
Qed.

(** Setting the scheme of a fresh record. *)
Lemma fresh_scheme s : scheme_ok s -> mid_ok (set_scheme s newURLRecord) /\ scheme_ok s.
Proof. intros Hs. split; [|done]. apply mid_set_scheme, newURLRecord_mid. Qed.

Lemma scheme_colon_override s p :
  so = Some s -> scheme_ok (buffer p) -> url_ok (url p) ->
  exists u, scheme_colon cp base so p = ReturnUrl u /\ url_ok u.
Proof.
  intros Hso Hb Hu. unfold scheme_colon. rewrite overridden_eq, Hso. cbn [andb].
  case_bool_decide as Hsp; cbn [negb]; [|by eauto].
  repeat (destruct (_ && _); [by eauto|]). eexists; split; [done|].
  destruct Hu as [Hpre Hsc Hh Hpth]. pose proof (ok_port _ Hpre) as Hpo. destruct Hpre.
  assert (forall q, port_ok (buffer p) q -> url_ok (set_port q (set_scheme (buffer p) (url p)))) as Hset.
  { intros q Hq. repeat split; try done; unfold isSpecial in *; cbn; by rewrite <-Hsp. }
  case_bool_decide as Hdef; [by apply Hset|].
  assert (url_ok (set_port (port (url p)) (set_scheme (buffer p) (url p)))) as Hres; [|exact Hres].
  apply Hset. cbn in Hdef. destruct (port (url p)) as [n|]; [|done].
  cbn in *. by split; [destruct Hpo|].
Qed.

Lemma scheme_colon_fresh p :
  so = None -> scheme_ok (buffer p) -> url p = newURLRecord -> step_ok (Some [0x3a]) p (scheme_colon cp base so p).
Proof.
  intros Hso Hb Hu. unfold scheme_colon. rewrite overridden_eq, Hso. cbn [andb]. rewrite Hu.
  destruct (fresh_scheme _ Hb) as [Hm _].
  case_bool_decide as Hfile; [by to_state|].
  destruct (isSpecial _) eqn:Hsp; cbn [andb].
  - case_bool_decide as Hbs.
    + to_state. split_and!; try done. unfold isSpecial in *.
      destruct base as [b|]; [|done]. injection Hbs as Hbs. exists b. by rewrite Hbs.
    + by to_state.
  - destruct (is_c (cp_at _ _) _); [by to_state|]. to_state.
    split; [|done]. repeat split; cbn; try done; try constructor.
    all: unfold isSpecial in *; cbn in *; congruence.
Qed.

Lemma scheme_step_ok c p :
  one_char c -> p_state p = Scheme -> inv p -> 0 <= pointer p -> step_ok c p (step_scheme cp base so c p).
Proof.
  open_state. destruct Hinv as [Hb Hs]. intros Hp. unfold step_scheme.
  destruct (match c with Some s => existsb is_scheme_char s | None => false end) eqn:E.
  - destruct (one_char_ascii c _ Hc is_scheme_char_ascii E) as (u & -> & Hu).
    to_state. split; [by apply scheme_ok_snoc|done].
  - unfold start_ok in Hs. destruct (is_c c 0x3a) eqn:Ec.
    + apply bool_decide_eq_true in Ec as ->. destruct so as [s|] eqn:Hso.
      * destruct (scheme_colon_override s p Hso Hb Hs) as (u & Heq & Hu).
        rewrite <-Hso, Heq. split; [done|]. by rewrite Hso.
      * rewrite <-Hso. by apply scheme_colon_fresh.
    + rewrite overridden_eq. destruct so; cbn; [done|]. by split; [|lia].
Qed.

Lemma no_scheme_ok c p :
  p_state p = NoScheme -> inv p -> step_ok c p (step_no_scheme base c p).
Proof.
  intros Hst Hinv. unfold inv in Hinv. rewrite Hst in Hinv. destruct Hinv as (Hb & Hu & Hso).
  unfold step_no_scheme. destruct base as [b|] eqn:Hbeq; [|by cbn; rewrite Hso].
  pose proof (Hbase b ltac:(done)) as Hbok. rewrite Hu.
  destruct (opaquePath b) eqn:Ho, (is_c c 0x23) eqn:Ec; cbn [andb negb];
    try (case_bool_decide; to_state; split_and!; eauto using newURLRecord_mid; fail).
  - to_state. pose proof Hbok as [Hpre Hsc _ _]. destruct Hpre.
    repeat split; cbn; try done; try (intros ? [= <-]; constructor).
    all: try apply safe_nil; try congruence.
    all: intros Hsp; by rewrite (ok_special_path _ Hbok Hsp) in Ho.
  - cbn. by rewrite Hso.
Qed.

Lemma special_relative_or_authority_ok c p :
  p_state p = SpecialRelativeOrAuthority -> inv p ->
  step_ok c p (step_special_relative_or_authority cp c p).
Proof.
  intros Hst Hinv. unfold inv in Hinv. rewrite Hst in Hinv.
  destruct Hinv as (Hb & Hm & Hs & Hso & b & Hbeq & Hsp).
  unfold step_special_relative_or_authority. destruct (is_c c 0x2f) eqn:Ec; cbn [andb].
  - destruct (is_c (cp_at _ _) _); to_state; split_and!; try done.
    exists b. split; [done|]. by apply (ok_special_path _ (Hbase _ Hbeq)).
  - to_state. split_and!; try done.
    exists b. split; [done|]. by apply (ok_special_path _ (Hbase _ Hbeq)).
Qed.

Lemma path_or_authority_ok c p :
  p_state p = PathOrAuthority -> inv p -> step_ok c p (step_path_or_authority c p).
Proof.
  intros Hst Hinv. unfold inv in Hinv. rewrite Hst in Hinv. destruct Hinv as (Hb & Hm & Hs & Hso & Hsp).
  unfold step_path_or_authority. destruct (is_c c 0x2f) eqn:Ec; to_state.
  - done.
  - rewrite Hb. split; [apply safe_nil|]. apply mid_url_ok; [done|done|]. by rewrite Hsp.
Qed.

(** The copy of the base [relative] starts from. *)
Lemma relative_copy_ok u b : mid_ok u -> url_ok b -> opaquePath b = false ->
  let u' := set_query (query b) (set_opaquePath (opaquePath b) (set_path (path_copy (path b))
              (set_port (port b) (set_host (u_host b) (set_password (password b)
              (set_username (username b) (set_scheme (scheme b) u))))))) in
  url_ok u' /\ list_path u'.
Proof.
  intros [[] _ _] Hb Ho u'. split; [|done]. pose proof Hb as [[] Hsc Hh _].
  destruct (path b) as [l|] eqn:Hp; [|congruence].
  by repeat split; cbn; rewrite ?Hp, ?Ho.
Qed.

Lemma relative_ok c p :
  p_state p = Relative -> inv p -> step_ok c p (step_relative base c p).
Proof.
  intros Hst Hinv. unfold inv in Hinv. rewrite Hst in Hinv.
  destruct Hinv as (Hb & Hm & Hso & b & Hbeq & Ho).
  unfold step_relative. rewrite Hbeq. pose proof (Hbase _ Hbeq) as Hbok.
  destruct (is_c c 0x2f || _) eqn:Esl.
  - to_state. split_and!; eauto using mid_set_scheme, ok_scheme.
  - destruct (relative_copy_ok _ _ Hm Hbok Ho) as [Hu Hl]. set (u' := set_query _ _) in *.
    destruct (is_c c 0x3f) eqn:Eq; [to_state; eauto with url_ok|].
    destruct (is_c c 0x23) eqn:Eh; [to_state; eauto with url_ok|].
    case_bool_decide as Hsome.
    + assert (url_ok (set_query None u')) as Hu0 by (apply url_ok_set_query; done).
      replace (opaquePath (set_query None u')) with false by (symmetry; exact Hl). cbn [negb].
      destruct (url_ok_repath (set_query None u') (pop_segment (set_query None u')) Hu0 Hl)
        as (u2 & -> & Hu2 & Hl2); [by apply pop_segment_repath; [apply ok_pre|]|].
      to_state. rewrite Hb. split_and!; [apply safe_nil|done|done].
    + destruct c; [by destruct Hsome|]. split; [intros [?|?]; [done|cbn in *; lia]|done].
Qed.

Lemma relative_slash_ok c p :
  p_state p = RelativeSlash -> inv p -> step_ok c p (step_relative_slash base c p).
Proof.
  intros Hst Hinv. unfold inv in Hinv. rewrite Hst in Hinv.
  destruct Hinv as (Hb & Hm & Hs & Hso & b & Hbeq & Hsc).
  unfold step_relative_slash. rewrite Hbeq. pose proof (Hbase _ Hbeq) as Hbok.
  destruct (isSpecial (url p) && _) eqn:E1; [|destruct (is_c c 0x2f) eqn:E2].
  - split; [by intros _|]. intros ->. by rewrite andb_false_r in E1.
  - by to_state.
  - to_state. rewrite Hb. split; [apply safe_nil|]. destruct Hm as [[] Hl _].
    pose proof Hbok as [[] _ Hh _]. unfold isSpecial in *. rewrite <-Hsc in *.
    by repeat split.
Qed.

Lemma special_authority_slashes_ok c p :
  p_state p = SpecialAuthoritySlashes -> inv p ->
  step_ok c p (step_special_authority_slashes cp c p).
Proof.
  intros Hst Hinv. unfold inv in Hinv. rewrite Hst in Hinv.
  unfold step_special_authority_slashes. destruct (is_c c 0x2f) eqn:Ec; cbn [andb].
  - destruct (is_c (cp_at _ _) _); by to_state.
  - by to_state.
Qed.

Lemma special_authority_ignore_slashes_ok c p :
  p_state p = SpecialAuthorityIgnoreSlashes -> inv p ->
  step_ok c p (step_special_authority_ignore_slashes c p).
Proof.
  intros Hst Hinv. unfold inv in Hinv. rewrite Hst in Hinv.
  unfold step_special_authority_ignore_slashes.
  destruct (negb (is_c c 0x2f) && negb (is_c c 0x5c)) eqn:E; to_state; by destruct Hinv as (? & ? & ? & ?).
Qed.

Lemma mid_append_username u s : mid_ok u -> safe_in USERINFO_EXTRA s ->
  mid_ok (set_username (username u ++ s) u).
Proof. intros [[] ? ?] Hs. split; [split|..]; try done. by apply safe_in_app. Qed.

Lemma mid_append_password u s : mid_ok u -> safe_in USERINFO_EXTRA s ->
  mid_ok (set_password (password u ++ s) u).
Proof. intros [[] ? ?] Hs. split; [split|..]; try done. by apply safe_in_app. Qed.

Lemma userinfo_ok chs : forall seen u,
  mid_ok u ->
  mid_ok (foldl userinfo_char (seen, u) chs).2 /\
  scheme (foldl userinfo_char (seen, u) chs).2 = scheme u.
Proof.
  induction chs as [|ch chs IH]; intros seen u Hm; [done|]. cbn [foldl].
  unfold userinfo_char at 2 4. destruct (bool_decide _ && negb seen); [by apply IH|].
  assert (safe_in USERINFO_EXTRA (utf8PercentEncode ch USERINFO_EXTRA)) as Hs by by apply encode_safe.
  destruct seen; [apply (IH true _ (mid_append_password _ _ Hm Hs))
                 |apply (IH false _ (mid_append_username _ _ Hm Hs))].
Qed.

Lemma authority_ok c p :
  p_state p = Authority -> inv p -> step_ok c p (step_authority c p).
Proof.
  intros Hst Hinv. unfold inv in Hinv. rewrite Hst in Hinv. destruct Hinv as (Hm & Hs & Hso).
  unfold step_authority. destruct (is_c c 0x40) eqn:E1.
  - destruct (foldl userinfo_char _ _) as [seen u] eqn:Ef.
    set (chs := spread _) in Ef. destruct (userinfo_ok chs (passwordTokenSeen p) (url p) Hm) as [Hm' Hsc].
    rewrite Ef in Hm', Hsc. cbn in Hm', Hsc. to_state. by rewrite Hsc.
  - destruct (ends_authority c (url p)) eqn:E2.
    + destruct (_ && _); [by cbn; rewrite Hso|]. to_state. unfold host_stage_ok. by rewrite Hso.
    + to_state. done.
Qed.

Lemma host_stage_set_host u h :
  host_stage_ok so u -> host_ok h -> host_stage_ok so (set_host (Some h) u).
Proof.
  unfold host_stage_ok. destruct so; [by apply url_ok_set_host|].
  intros [Hm Hs] Hh. split; [|done]. apply mid_set_host; [done|]. by intros ? [= <-].
Qed.

Lemma host_stage_null u : host_stage_ok so u -> so <> None -> url_ok u.
Proof. unfold host_stage_ok. by destruct so. Qed.

(** A host stage with a host is complete. *)
Lemma host_stage_url_ok u :
  so = None -> host_stage_ok so u -> (isSpecial u = true -> u_host u <> None) -> url_ok u /\ list_path u.
Proof. intros -> [Hm Hs] Hh. by apply mid_url_ok. Qed.

Lemma host_step_ok c p :
  p_state p = Host \/ p_state p = Hostname -> inv p -> step_ok c p (step_host so c p).
Proof.
  intros Hst Hinv. assert (host_stage_ok so (url p)) as Hh
    by (unfold inv in Hinv; destruct Hst as [Hst|Hst]; by rewrite Hst in Hinv).
  pose proof (host_stage_null _ Hh) as Hnull. unfold step_host.
  destruct (is_c c 0x3a && _) eqn:E1.
  - case_bool_decide; [done|].
    destruct (bool_decide (so = Some Hostname)) eqn:Eso.
    { apply bool_decide_eq_true in Eso. cbn. rewrite Eso in *. split; [by apply Hnull|done]. }
    destruct (parseHost _ _) as [[h|]|c' m'] eqn:Eh; [|done|split_and!; [done|unfold reads_host; naive_solver|eexists; by eapply parseHost_throws]].
    pose proof (parseHost_ok _ _ _ Eh) as Hok.
    split; [intros _; unfold inv; cbn|intros ->; done].
    split; [by apply host_stage_set_host|done].
  - destruct (ends_authority c (url p)) eqn:E2.
    + destruct (isSpecial (url p) && _); [done|].
      destruct (overridden so && _ && _) eqn:E3.
      { apply andb_prop in E3 as [E3 _]. apply andb_prop in E3 as [E3%overridden_true _].
        split; [by apply Hnull|done]. }
      destruct (parseHost _ _) as [[h|]|c' m'] eqn:Eh; [|done|split_and!; [done|unfold reads_host; naive_solver|eexists; by eapply parseHost_throws]].
      pose proof (parseHost_ok _ _ _ Eh) as Hok. cbn [attempt].
      pose proof (host_stage_set_host _ _ Hh Hok) as Hh'. destruct (overridden so) eqn:Hso.
      * apply overridden_true in Hso. split; [by apply host_stage_null|done].
      * apply overridden_false in Hso. to_state. split; [done|]. by apply host_stage_url_ok.
    + split; [intros _|intros ->; by rewrite ends_authority_None in E2].
      unfold inv. cbn. by destruct Hst as [-> | ->].
Qed.

Lemma parseInt_nonneg s r : 0 <= r -> 0 <= parseInt s r.
Proof.
  intros Hr. unfold parseInt. assert (forall acc, 0 <= acc -> 0 <= parse_digits r acc s) as Hp; [|by apply Hp].
  induction s as [|u s IH]; cbn; intros acc Ha; [done|].
  destruct (digit_value u) as [d|] eqn:Ed; [|done]. destruct (d <? r); [|done]. apply IH.
  unfold digit_value, is_digit, is_lower, is_upper in Ed. repeat case_match; try done; injection Ed as <-; nia.
Qed.

Lemma port_step_ok c p :
  p_state p = Port -> inv p -> step_ok c p (step_port so c p).
Proof.
  intros Hst Hinv. unfold inv in Hinv. rewrite Hst in Hinv. destruct Hinv as [Hh Hsp].
  pose proof (host_stage_null _ Hh) as Hnull. unfold step_port.
  destruct (match c with Some s => existsb is_digit s | None => false end) eqn:E1.
  { destruct c; [|done]. by to_state. }
  destruct (ends_authority c (url p) || overridden so) eqn:E2; [|done].
  destruct (negb _ && (65535 <? _)) eqn:E3; [done|]. set (n := parseInt (buffer p) 10) in *.
  assert (port_ok (scheme (url p)) (if bool_decide (buffer p = []) then None else
    if bool_decide (Some n = defaultPort (scheme (url p))) then None else Some n)) as Hport.
  { case_bool_decide; [done|]. cbn in E3. case_bool_decide; [done|]. split; [|done].
    pose proof (parseInt_nonneg (buffer p) 10). lia. }
  set (u' := if bool_decide (buffer p = []) then url p else _).
  assert (so <> None -> url_ok u') as Hov.
  { intros Hne. unfold u'. case_bool_decide; [by apply Hnull|]. by apply url_ok_set_port; [apply Hnull|]. }
  assert (so = None -> url_ok u' /\ list_path u') as Hno.
  { intros Hne. destruct (host_stage_url_ok _ Hne Hh Hsp) as [Hu Hl]. unfold u'.
    case_bool_decide; [done|]. by split; [apply url_ok_set_port|]. }
  destruct (overridden so) eqn:Hso.
  - apply overridden_true in Hso. split; [by apply Hov|done].
  - apply overridden_false in Hso. to_state. split; [done|by apply Hno].
Qed.
(** The record [file] starts from. *)
Lemma file_record_ok u :
  mid_ok u ->
  let u' := set_host (Some (HostString [])) (set_scheme (js "file") u) in
  mid_ok u' /\ url_ok u' /\ list_path u'.
Proof.
  intros Hm u'. assert (mid_ok u') as Hm'.
  { apply mid_set_host; [by apply mid_set_scheme|]. intros ? [= <-]. constructor. }
  split; [done|]. by apply mid_url_ok; [|apply file_scheme_ok|].
Qed.

Lemma file_base_ok b : base = Some b -> scheme b = js "file" ->
  url_ok b /\ u_host b <> None /\ exists l, path b = PList l /\ Forall (safe_in PATH_SET) l.
Proof.
  intros Hbeq Hfile. pose proof (Hbase _ Hbeq) as Hb.
  assert (isSpecial b = true) as Hsp by (unfold isSpecial; by rewrite Hfile).
  split_and!; [done|by apply (ok_special_host _ Hb)|].
  apply list_path_segs; [apply Hb|]. by apply (ok_special_path _ Hb).
Qed.

(** The copy of a [file] base. *)
Lemma file_copy_ok u b : mid_ok u -> base = Some b -> scheme b = js "file" -> scheme u = js "file" ->
  let u' := set_query (query b) (set_opaquePath (opaquePath b)
              (set_path (path_copy (path b)) (set_host (u_host b) u))) in
  url_ok u' /\ list_path u'.
Proof.
  intros [[] ? Hpo] Hbeq Hfile Hsc u'. destruct (file_base_ok b Hbeq Hfile) as (Hb & Hh & l & Hl & Hs).
  pose proof Hb as [[] ? ? _]. rewrite Hl in *.
  assert (scheme_ok (scheme u)) by (rewrite Hsc; apply file_scheme_ok).
  by repeat split; cbn; rewrite ?Hl.
Qed.

Lemma file_ok c p : p_state p = File -> inv p -> step_ok c p (step_file cp base c p).
Proof.
  intros Hst Hinv. unfold inv in Hinv. rewrite Hst in Hinv. destruct Hinv as (Hb & Hm & Hso).
  pose proof file_copy_ok as Hcopy. unfold step_file. destruct (file_record_ok _ Hm) as (Hm' & Hu & Hl). set (u1 := set_host _ _) in *.
  destruct (is_c c 0x2f || is_c c 0x5c) eqn:Esl.
  { split; [by intros _|]. intros ->. done. }
  assert (inv (PS Path (pointer p - 1) (buffer p) (atSignSeen p) (insideBrackets p) (passwordTokenSeen p) u1))
    by (unfold inv; cbn; rewrite Hb; split_and!; [apply safe_nil|done|done]).
  destruct base as [b|] eqn:Hbeq; [|split; [done|cbn; lia]].
  case_bool_decide as Hfile; [|split; [done|cbn; lia]].
  destruct (Hcopy u1 b Hm' ltac:(done) Hfile eq_refl) as [Hu2 Hl2]. set (u2 := set_query _ _) in *.
  destruct (is_c c 0x3f) eqn:E1; [to_state; eauto with url_ok|].
  destruct (is_c c 0x23) eqn:E2; [to_state; eauto with url_ok|].
  case_bool_decide as Hsome.
  - rewrite <-Hbeq.
    assert (url_ok (set_query None u2)) as Hu0 by (apply url_ok_set_query; done).
    assert (forall m, repath (set_query None u2) m -> step_ok c p (attempt (set_query None u2) m (fun u =>
      goto Path (pointer p - 1) (buffer p) u p))) as Hpath.
    { intros m Hm0. destruct (url_ok_repath _ m Hu0 Hl2 Hm0) as (u3 & -> & ? & ?).
      to_state. rewrite Hb. split_and!; [apply safe_nil|done|done]. }
    destruct (negb _); apply Hpath.
    + by apply shortenPath_repath; [apply ok_pre|].
    + by exists [].
  - destruct c; [by destruct Hsome|]. split; [intros [?|?]; [done|cbn in *; lia]|done].
Qed.

Lemma mid_path_ok u l :
  mid_ok u -> scheme u = js "file" -> u_host u <> None -> Forall (safe_in PATH_SET) l ->
  url_ok (set_path (PList l) u) /\ list_path (set_path (PList l) u).
Proof.
  intros Hm Hs Hh Hl. apply url_ok_set_path; [|apply Hm|done].
  apply mid_url_ok; [done|rewrite Hs; apply file_scheme_ok|done].
Qed.

Lemma file_slash_ok c p : p_state p = FileSlash -> inv p -> step_ok c p (step_file_slash cp base c p).
Proof.
  intros Hst Hinv. unfold inv in Hinv. rewrite Hst in Hinv. destruct Hinv as (Hb & Hm & Hso & Hsc & Hh).
  pose proof file_base_ok as Hfb. unfold step_file_slash. destruct (is_c c 0x2f || is_c c 0x5c) eqn:Esl.
  { split; [intros _; split_and!; done|]. by intros ->. }
  assert (forall u, url_ok u /\ list_path u -> step_ok c p (goto Path (pointer p - 1) (buffer p) u p)) as Hgo.
  { intros u [? ?]. to_state. rewrite Hb. split_and!; [apply safe_nil|done|done]. }
  assert (forall u, mid_ok u -> scheme u = js "file" -> u_host u <> None -> url_ok u /\ list_path u) as Hmid.
  { intros u Hu Hsu Hhu. apply mid_url_ok; [done|rewrite Hsu; apply file_scheme_ok|done]. }
  destruct base as [b|] eqn:Hbeq; [|by apply Hgo, Hmid].
  case_bool_decide as Hfile; [|by apply Hgo, Hmid].
  destruct (Hfb b ltac:(done) Hfile) as (Hbok & Hhb & l & Hl & Hsl). rewrite Hl.
  assert (mid_ok (set_host (u_host b) (url p))) as Hm' by (apply mid_set_host; [done|apply Hbok]).
  destruct (_ && isNormalizedWindowsDriveLetter _) eqn:En.
  - apply andb_prop in En as [_ En]. cbn in En |- *.
    apply normalized_drive_letter, drive_letter_safe in En as [En _].
    destruct (Hmid _ Hm' Hsc Hhb) as [Hu1 Hl1].
    destruct (url_ok_repath _ (push_segment (default [] (head l)) (set_host (u_host b) (url p))) Hu1 Hl1)
      as (u3 & -> & ? & ?); [by apply push_segment_repath; [apply ok_pre| |]|].
    by apply Hgo.
  - by apply Hgo, Hmid.
Qed.

Lemma file_host_ok c p : p_state p = FileHost -> inv p -> step_ok c p (step_file_host so c p).
Proof.
  intros Hst Hinv. unfold inv in Hinv. rewrite Hst in Hinv. destruct Hinv as (Hm & Hso & Hsc & Hh).
  unfold step_file_host. rewrite overridden_eq, Hso. cbn match. cbn [negb andb].
  assert (forall h, host_ok h -> url_ok (set_host (Some h) (url p)) /\ list_path (set_host (Some h) (url p))) as Hhost.
  { intros h Hok. apply mid_url_ok; [|cbn; rewrite Hsc; apply file_scheme_ok|done].
    apply mid_set_host; [done|]. by intros ? [= <-]. }
  destruct (bool_decide (c = None) || _ || _ || _ || _) eqn:E.
  - destruct (isWindowsDriveLetter (buffer p)) eqn:Ew.
    { to_state. split; [by apply drive_letter_safe|].
      apply mid_url_ok; [done|rewrite Hsc; apply file_scheme_ok|done]. }
    destruct (bool_decide (buffer p = [])) eqn:Hb.
    { to_state. split; [done|]. apply Hhost. by apply Forall_nil. }
    destruct (parseHost _ _) as [[h|]|c' m'] eqn:Eh; [|by cbn|split_and!; [naive_solver|unfold reads_host; naive_solver|eexists; by eapply parseHost_throws]].
    pose proof (parseHost_ok _ _ _ Eh) as Hok. to_state. split; [done|]. apply Hhost.
    destruct (bool_decide (h = _)); [by apply Forall_nil|done].
  - to_state. done.
Qed.

Lemma path_start_ok c p : p_state p = PathStart -> inv p -> step_ok c p (step_path_start so c p).
Proof.
  intros Hst Hinv. unfold inv in Hinv. rewrite Hst in Hinv. destruct Hinv as (Hb & Hu & Hl).
  assert (safe_in PATH_SET (buffer p)) as Hs by (rewrite Hb; apply safe_nil).
  unfold step_path_start. destruct (isSpecial (url p)).
  { split; [done|]. intros -> . cbn. intros; done. }
  destruct (negb _ && is_c c 0x3f) eqn:E1; [split; [intros _; unfold inv; cbn|]; eauto with url_ok|].
  destruct (negb _ && is_c c 0x23) eqn:E2; [split; [intros _; unfold inv; cbn|]; eauto with url_ok|].
  case_bool_decide as Hsome.
  { by destruct (is_c c 0x2f) eqn:Esl; cbn [negb]; to_state. }
  destruct c; [by destruct Hsome|]. destruct (overridden so && _).
  - destruct (url_ok_repath _ (push_segment [] (url p)) Hu Hl) as (u2 & -> & Hu2 & Hl2);
      [by apply push_segment_repath; [apply ok_pre| |apply safe_nil]|]. by split; [intros _; split_and!|].
  - by split; [intros _; split_and!|].
Qed.

(** What [path] and the opaque path write for a character that does not
    end them. *)
Lemma path_char_safe ch :
  spread ch = [ch] -> is_c (Some ch) 0x2f = false -> safe_in PATH_SET (utf8PercentEncode ch PATH_EXTRA).
Proof.
  intros Hch Hne. apply encode_char_avoids; try done. intros ->. done.
Qed.

Lemma opaque_char_safe ch :
  spread ch = [ch] -> is_c (Some ch) 0x3f = false -> is_c (Some ch) 0x23 = false ->
  safe_in OPAQUE_SET (utf8PercentEncode ch C0_EXTRA).
Proof.
  intros Hch Hq Hh.
  assert (safe_in (0x3f :: C0_EXTRA) (utf8PercentEncode ch C0_EXTRA)) as Hs1
    by (apply encode_char_avoids; try done; by intros ->).
  assert (safe_in (0x23 :: C0_EXTRA) (utf8PercentEncode ch C0_EXTRA)) as Hs2
    by (apply encode_char_avoids; try done; by intros ->).
  apply Forall_forall. intros u Hu.
  pose proof (proj1 (Forall_forall _ _) Hs1 u Hu) as [? [? _]%not_elem_of_cons].
  pose proof (proj1 (Forall_forall _ _) Hs2 u Hu) as [_ [? _]%not_elem_of_cons].
  split; [done|]. unfold OPAQUE_SET. rewrite !not_elem_of_cons. split_and!; [done|done|apply not_elem_of_nil].
Qed.

Lemma path_state_ok c p : one_char c -> p_state p = Path -> inv p -> step_ok c p (step_path so c p).
Proof.
  intros Hc Hst Hinv. unfold inv in Hinv. rewrite Hst in Hinv. destruct Hinv as (Hb & Hu & Hl).
  unfold step_path. set (sl := is_c c 0x2f || _) in *.
  destruct (bool_decide (c = None) || sl || _) eqn:E.
  - destruct (url_ok_repath _ (path_segment sl (buffer p) (url p)) Hu Hl) as (u2 & -> & Hu2 & Hl2);
      [apply path_segment_repath; [apply ok_pre|..]; done|]. cbn [attempt].
    destruct (is_c c 0x3f) eqn:E1; [|destruct (is_c c 0x23) eqn:E2];
      (split; [intros _; unfold inv; cbn|]; eauto with url_ok).
  - apply orb_false_iff in E as [E _]. apply orb_false_iff in E as [E1 E2].
    destruct c as [ch|]; [|done]. to_state. split_and!; try done. apply safe_in_app. split; [done|].
    apply path_char_safe; [by apply Hc|]. unfold sl in E2. by apply orb_false_iff in E2 as [E2 _].
Qed.

Lemma opaque_path_ok c p : one_char c -> p_state p = OpaquePath -> inv p -> step_ok c p (step_opaque_path c p).
Proof.
  intros Hc Hst Hinv. unfold inv in Hinv. rewrite Hst in Hinv. destruct Hinv as (Hu & Ho).
  unfold step_opaque_path. destruct (is_c c 0x3f) eqn:E1; [|destruct (is_c c 0x23) eqn:E2].
  1-2: split; [intros _; unfold inv; cbn|]; eauto with url_ok.
  destruct c as [ch|]; [|by split; [intros _; split|]]. to_state.
  pose proof (opaque_char_safe ch (Hc _ eq_refl) E1 E2) as Hs.
  destruct Hu as [[] ? ? ?]. destruct (path (url p)) as [l|t] eqn:Hp; [congruence|].
  split_and!; [|done]. split; [split|..]; cbn; rewrite ?Hp; try done. by apply safe_in_app.
Qed.

Lemma query_ok c p : p_state p = Query -> inv p -> step_ok c p (step_query so c p).
Proof.
  intros Hst Hinv. unfold inv in Hinv. rewrite Hst in Hinv. unfold step_query.
  set (set := if isSpecial _ then _ else _).
  assert (url_ok (append_query (utf8PercentEncode (buffer p) set) (url p))) as Hq.
  { apply append_query_ok; [done|]. unfold set. destruct (isSpecial _); [|by apply encode_safe].
    eapply safe_in_weaken; [apply query_sets|by apply (encode_safe SPECIAL_QUERY_EXTRA)]. }
  destruct (bool_decide (c = None) || _) eqn:E; [destruct (is_c c 0x23) eqn:E2|].
  - split; [intros _; unfold inv; cbn|]; eauto with url_ok.
  - by split; [intros _|].
  - destruct c; [|done]. by to_state.
Qed.

Lemma fragment_ok c p : p_state p = Fragment -> inv p -> step_ok c p (step_fragment c p).
Proof.
  intros Hst Hinv. unfold inv in Hinv. rewrite Hst in Hinv. unfold step_fragment.
  destruct c as [ch|]; [|by split; [intros _|]]. split; [intros _; unfold inv; cbn|done].
  apply append_fragment_ok; [done|]. by apply encode_safe.
Qed.

(** A pass never jumps past the end of the input. *)
Lemma step_pointer p p' : 0 <= pointer p -> step cp base so p = Next p' ->
  pointer p' <= pointer p \/ (pointer p' = pointer p + 1 /\ is_Some (cp_at cp (pointer p + 1))).
Proof.
  intros Hp0. assert (forall u, is_c (cp_at cp (pointer p + 1)) u = true -> is_Some (cp_at cp (pointer p + 1))) as Hat.
  { intros u Hu%bool_decide_eq_true. by rewrite Hu. }
  unfold step. set (c := if pointer p <? _ then _ else _). clearbody c.
  destruct (p_state p) eqn:Hst;
    unfold step_scheme_start, step_scheme, scheme_colon, step_no_scheme,
      step_special_relative_or_authority, step_path_or_authority, step_relative, step_relative_slash,
      step_special_authority_slashes, step_special_authority_ignore_slashes, step_authority,
      step_host, step_port, step_file, step_file_slash, step_file_host, step_path_start, step_path,
      step_opaque_path, step_query, step_fragment;
    intros Hstep; step_cases; cbn -[Z.of_nat]; try (left; lia).
  all: right; split; [done|]; repeat match goal with
    | Hb : _ && _ = true |- _ => apply andb_prop in Hb as [? ?] end; eauto.
Qed.

Lemma step_all_ok p : Forall (fun ch => spread ch = [ch]) cp -> 0 <= pointer p -> inv p ->
  let c := if pointer p <? Z.of_nat (length cp) then cp_at cp (pointer p) else None in
  step_ok c p (step cp base so p).
Proof.
  intros Hcp Hp Hinv c. assert (one_char c) as Hc.
  { intros ch Hch. unfold c, cp_at in Hch. destruct (_ <? _); [|done]. destruct (_ <? _); [done|].
    by apply (Forall_lookup_1 _ _ _ _ Hcp Hch). }
  unfold step. fold c. destruct (p_state p) eqn:Hst;
    eauto using scheme_start_ok, scheme_step_ok, no_scheme_ok, special_relative_or_authority_ok,
      path_or_authority_ok, relative_ok, relative_slash_ok, special_authority_slashes_ok,
      special_authority_ignore_slashes_ok, authority_ok, host_step_ok, port_step_ok, file_ok,
      file_slash_ok, file_host_ok, path_start_ok, path_state_ok, opaque_path_ok, query_ok, fragment_ok.
Qed.

(** Under an override the other states never lead to a host. *)
Lemma step_quiet p p' : so <> None -> quiet (p_state p) = true -> step cp base so p = Next p' -> quiet (p_state p') = true.
Proof.
  intros Hso. assert (overridden so = true) as Hov by (rewrite overridden_eq; by destruct so).
  unfold step. set (c := if pointer p <? _ then _ else _). clearbody c.
  destruct (p_state p) eqn:Hst; try done; intros _;
    unfold step_scheme_start, step_scheme, scheme_colon, step_port, step_path_start, step_path,
      step_opaque_path, step_query, step_fragment; rewrite ?Hov; cbn [negb andb];
    intros Hstep; step_cases; done.
Qed.

(** [p] is where the loop goes on from. *)
Definition result_ok (p : pstate) (r : ctl) : Prop :=
  match r with
  | ReturnUrl u => url_ok u
  | ReturnNull u => so <> None -> url_ok u
  | Thrown u c msg => (so <> None -> url_ok u /\ quiet (p_state p) = false) /\ exists host, bad_host host c msg
  | Next _ => False
  end.

Lemma parse_loop_ok fuel : forall p r,
  Forall (fun ch => spread ch = [ch]) cp -> 0 <= pointer p <= Z.of_nat (length cp) ->
  buffer_ok p -> inv p -> parse_loop cp base so fuel p = Some r -> result_ok p r.
Proof.
  induction fuel as [|fuel IH]; intros p r Hcp Hp Hb Hinv; [done|]. cbn [parse_loop].
  pose proof (step_all_ok p Hcp ltac:(lia) Hinv) as Hstep. cbv zeta in Hstep.
  destruct (step cp base so p) as [p'|u|u|? ? ?] eqn:Hs; [|by intros [= <-]; apply Hstep|by intros [= <-]|].
  2: { intros [= <-]. destruct Hstep as (? & ?%reads_host_not_quiet & ?). split; [intros ?; split; auto|done]. }
  destruct (step_progress cp base so Hcp p p' Hp Hb Hs) as (Hlo & Hb' & _).
  pose proof (step_pointer p p' ltac:(lia) Hs) as Hptr. destruct Hstep as [Hgo Hstop].
  assert (pointer p < Z.of_nat (length cp) -> pointer p' < Z.of_nat (length cp)) as Hin.
  { intros ?. destruct Hptr as [?|[-> [ch Hch]]]; [lia|]. unfold cp_at in Hch.
    destruct (_ <? 0); [done|]. apply lookup_lt_Some in Hch. lia. }
  destruct (Z.ltb_spec (Z.of_nat (length cp)) (pointer (bump p'))) as [Hend|Hend]; cbn in Hend.
  - intros [= <-]. apply Hstop; [|lia]. destruct (Z.ltb_spec (pointer p) (Z.of_nat (length cp))); [lia|done].
  - intros Hl. assert (result_ok (bump p') r -> result_ok p r) as Hres.
    { destruct r as [| | |u c m]; try done. cbn. intros [Hq Hbad]. split; [|done]. intros Hso. destruct (Hq Hso) as [Hu Hq'].
      split; [done|]. apply not_true_iff_false. intros Hpq. by rewrite (step_quiet p p' Hso Hpq Hs) in Hq'. }
    apply Hres. eapply (IH (bump p')); [done|cbn; lia|done| |done].
    change (inv p'). apply Hgo. destruct (Z.ltb_spec (pointer p) (Z.of_nat (length cp))) as [Hlt|?]; [|right; lia].
    left. unfold cp_at. destruct (Z.ltb_spec (pointer p) 0); [lia|].
    intros Hnone%lookup_ge_None. lia.
Qed.
End Steps.

Section Parse.
Context `{TextCodec} `{UnicodeTables} `{SockAddr46}.

Lemma basicURLParse_result input base u so :
  base_ok base -> inv base so (start_state u so) ->
  exists r, basicURLParse input base u so = Some r /\ result_ok so (start_state u so) r.
Proof.
  intros Hbase Hinv. destruct (start_terminates (spread (clean_input input)) base u so) as [r Hr];
    [apply spread_chars_alone|].
  exists r. split; [exact Hr|]. eapply parse_loop_ok; [exact Hbase| | | |exact Hinv|exact Hr].
  - apply spread_chars_alone.
  - cbn. lia.
  - apply start_buffer_ok.
Qed.

(** C2: parsing any string against no base or a good base gives [null], or
    a record that satisfies the whole invariant (lower-case scheme, escaped
    alphabets, port in range and not the scheme's default, a host and a
    list path for special schemes), or throws; it throws only what the
    native code does on the text of a host: a [SyntaxError] on an IPv6
    literal of the form [[[...]] whose second bracket is not closed, a
    [TypeError] on a domain whose escapes are not UTF-8. *)
Theorem basicURLParse_good input base :
  base_ok base ->
  exists r, basicURLParse input base None None = Some r /\
    match r with
    | ReturnUrl u => url_ok u
    | ReturnNull _ => True
    | Thrown _ c msg => exists host, bad_host host c msg
    | Next _ => False
    end.
Proof.
  intros Hbase. destruct (basicURLParse_result input base None None Hbase) as (r & Hr & Hok); [done|].
  exists r. split; [done|]. destruct r; cbn in Hok; naive_solver.
Qed.

(** The override states the setters use, and what each needs. *)
Definition setter_state (s : state) (u : urlrec) : Prop :=
  match s with
  | SchemeStart | Host | Hostname | Port | Query | Fragment => True
  | PathStart => list_path u
  | _ => False
  end.

(** A run of the parser on behalf of a setter mutates the record in
    place; from a good record it leaves a good record, also when the run
    fails half way and the setter sees [null], or throws. *)
Lemma basicURLParse_setter input base u s :
  base_ok base -> url_ok u -> setter_state s u ->
  exists r, basicURLParse input base (Some u) (Some s) = Some r /\
    match r with
    | ReturnUrl u' | ReturnNull u' => url_ok u'
    | Thrown u' c msg => url_ok u' /\ quiet s = false /\ exists host, bad_host host c msg
    | Next _ => False
    end.
Proof.
  intros Hbase Hu Hs. destruct (basicURLParse_result input base (Some u) (Some s) Hbase) as (r & Hr & Hok).
  { destruct s; try done. cbn. split; [done|]. by apply ok_special_host. }
  exists r. split; [done|]. destruct r; cbn in Hok; naive_solver.
Qed.
End Parse.
