(* ===== verification/StreamBase.v ===== *)
(** * Numbers, reasons and promises of the streams code

    What [lib/lws/streams.js] shares between its classes: the numbers a
    strategy handles, error values, the table of promises with their
    settlement, the queue with sizes, and a monad for code that mutates a
    state and may throw half way, which the resolver uses too. *)

From S2P Require Import Prelude.
Open Scope Z_scope.

(* ------------------------------------------------------------------ *)
(** ** Numbers *)

(** A number of a queuing strategy: an integer of the exact range, or one
    of the special values. *)
Inductive jsnum := Fin (z : Z) | PosInf | NegInf | NaN.

#[export] Instance jsnum_eq_dec : EqDecision jsnum.
Proof. solve_decision. Defined.

(** [typeof v == 'number' && !isNaN(v) && v >= 0] *)
Definition IsNonNegativeNumber (v : jsnum) : bool :=
  match v with Fin z => 0 <=? z | PosInf => true | NegInf | NaN => false end.

(** [v - z] and [v <= 0] *)
Definition num_sub (v : jsnum) (z : Z) : jsnum := match v with Fin x => Fin (x - z) | _ => v end.
Definition num_nonpos (v : jsnum) : bool :=
  match v with Fin z => z <=? 0 | NegInf => true | PosInf | NaN => false end.

(* ------------------------------------------------------------------ *)
(** ** Error values *)

(** A rejection reason or stored error: [undefined], an error the code
    makes, or a value of the program. *)
Inductive reason := Undefined | ErrorObj (c : error_class) (msg : string) | User (n : Z).

#[export] Instance reason_eq_dec : EqDecision reason.
Proof. solve_decision. Defined.

(* ------------------------------------------------------------------ *)
(** ** Promises *)

Inductive settlement := Pending | Fulfilled | Rejected (r : reason).

#[export] Instance settlement_eq_dec : EqDecision settlement.
Proof. solve_decision. Defined.

(** The promises made so far; a promise is its index. *)
Abbreviation ptable := (list settlement) (only parsing).
Abbreviation pid := nat (only parsing).

(** [resolve] and [reject] act once. *)
Definition settle (p : pid) (v : settlement) (t : list settlement) : list settlement :=
  match t !! p with Some Pending => <[p := v]> t | _ => t end.

(* ------------------------------------------------------------------ *)
(** ** State and exceptions *)

(** Code on a state [S] that may throw, leaving the state as mutated. *)
Definition SM (S A : Type) := S -> outcome A * S.

#[export] Instance sm_ret S : MRet (SM S) := fun A a s => (Ok a, s).
#[export] Instance sm_bind S : MBind (SM S) := fun A B f m s =>
  match m s with
  | (Ok a, s') => f a s'
  | (Throw c e, s') => (Throw c e, s')
  end.

#[export] Instance sm_fmap S : FMap (SM S) := fun A B f m s =>
  match m s with
  | (Ok a, s') => (Ok (f a), s')
  | (Throw c e, s') => (Throw c e, s')
  end.

Section Monad.
Context {S : Type}.

Definition gets {A} (f : S -> A) : SM S A := fun s => (Ok (f s), s).
Definition modify (f : S -> S) : SM S unit := fun s => (Ok tt, f s).
Definition throw {A} (c : error_class) (msg : string) : SM S A := fun s => (Throw c msg, s).
Definition assert (b : bool) : SM S unit := fun s => (assert_default b, s).
Definition when (b : bool) (m : SM S unit) : SM S unit := if b then m else mret tt.

(** [try { m } catch(e) { f(e) }] *)
Definition try {A} (m : SM S A) (f : reason -> SM S A) : SM S A := fun s =>
  match m s with
  | (Throw c e, s') => f (ErrorObj c e) s'
  | r => r
  end.

Lemma bind_ok {A B} (m : SM S A) (f : A -> SM S B) s a s' : m s = (Ok a, s') -> (m ≫= f) s = f a s'.
Proof. unfold mbind, sm_bind. by intros ->. Qed.

Lemma bind_inv {A B} (m : SM S A) (f : A -> SM S B) s b s' : (m ≫= f) s = (Ok b, s') ->
  exists a s1, m s = (Ok a, s1) /\ f a s1 = (Ok b, s').
Proof. unfold mbind, sm_bind. destruct (m s) as [[a|c e] s1]; [by exists a, s1|done]. Qed.

Lemma gets_bind {A B} (g : S -> A) (f : A -> SM S B) s : (gets g ≫= f) s = f (g s) s.
Proof. done. Qed.
Lemma modify_bind {B} (g : S -> S) (f : unit -> SM S B) s : (modify g ≫= f) s = f tt (g s).
Proof. done. Qed.
Lemma ret_bind {A B} (a : A) (f : A -> SM S B) s : (mret a ≫= f) s = f a s.
Proof. done. Qed.
Lemma bind_assoc {A B C} (m : SM S A) (g : A -> SM S B) (f : B -> SM S C) s :
  ((m ≫= g) ≫= f) s = (m ≫= (fun a => g a ≫= f)) s.
Proof. unfold mbind, sm_bind. destruct (m s) as [[a|c e] s']; done. Qed.
Lemma assert_bind {B} b (f : unit -> SM S B) s : b = true -> (assert b ≫= f) s = f tt s.
Proof. by intros ->. Qed.
End Monad.

(* ------------------------------------------------------------------ *)
(** ** The queue with sizes *)

Section Queue.
Context {A : Type}.

(** The sum of the sizes of a queue. *)
Definition sizes (q : list (A * Z)) : Z := foldr (fun p t => p.2 + t) 0 q.

Lemma sizes_snoc q p : sizes (q ++ [p]) = sizes q + p.2.
Proof.
  induction q as [|p' q IH]; [cbn; lia|].
  change (p'.2 + sizes (q ++ [p]) = p'.2 + sizes q + p.2). lia.
Qed.

Lemma sizes_nonneg q : Forall (fun p => 0 <= p.2) q -> 0 <= sizes q.
Proof.
  induction 1 as [|p q Hp _ IH]; [done|]. change (0 <= p.2 + sizes q). lia.
Qed.
End Queue.
