(* ===== verification/UrlApi.v ===== *)
(** * [URL] and [URLSearchParams] of [lib/lws/url.js]

    The serializers, the class [URLSearchParams] with its link to the
    [URL] that owns it, and the class [URL]: constructor, getters and
    setters.  The record and the list are assigned in separate steps, so
    that the setters are programs on the object ([SM urlobj]): one that
    throws keeps what it has assigned. *)

From stdpp Require Import sorting.
From S2P Require Import Prelude JsString Percent UrlHost UrlParser UrlTermination UrlInvariant UrlParserOk StreamBase.
Open Scope Z_scope.

Abbreviation pair_list := (list (jsstr * jsstr)) (only parsing).

(* ------------------------------------------------------------------ *)
(** ** URLSearchParams *)

(** [[kList]], and the record of the URL behind [[kURL]] when there is
    one; an object of the class [URL] is such a pair with a record. *)
Record params := Params { p_list : pair_list; p_url : option urlrec }.

(** What the constructor is given. *)
Inductive params_init :=
| InitUndefined
| InitString (s : jsstr)
| InitParams (p : params)
| InitIterable (pairs : list (list jsstr))
| InitRecord (entries : pair_list)
| InitOther (s : jsstr).

(** The order of the comparator of [sort]: not after. *)
Definition sort_le (a b : (jsstr * jsstr) * nat) : Prop :=
  (if str_ltb a.1.1 b.1.1 then -1 else if str_ltb b.1.1 a.1.1 then 1
   else Z.of_nat a.2 - Z.of_nat b.2) <= 0.

#[export] Instance sort_le_dec : RelDecision sort_le.
Proof. intros a b. unfold sort_le. apply _. Defined.

Section Params.
Context `{TextCodec}.

Definition strip_first (u : Z) (s : jsstr) : jsstr :=
  if bool_decide (head s = Some u) then drop 1 s else s.

Fixpoint push_pairs (acc : pair_list) (pairs : list (list jsstr)) : outcome pair_list :=
  match pairs with
  | [] => Ok acc
  | [n; v] :: pairs => push_pairs (acc ++ [(n, v)]) pairs
  | _ :: _ => Throw ErrTypeError "sequence initializer must only contain pair elements"
  end.

Definition new_params (init : params_init) : outcome params :=
  match init with
  | InitUndefined => Ok (Params [] None)
  | InitString s => l ← parseFormURLEncoded (strip_first 0x3f s); Ok (Params l None)
  | InitParams p => Ok (Params (p_list p) None)
  | InitIterable pairs => l ← push_pairs [] pairs; Ok (Params l None)
  | InitRecord entries => Ok (Params ([] ++ entries) None)
  | InitOther s => l ← parseFormURLEncoded s; Ok (Params l None)
  end.

(** [#update]: the record of the owning URL follows the list. *)
Definition update (p : params) : params :=
  let s := serializeFormURLEncoded (p_list p) in
  Params (p_list p) (set_query (if bool_decide (s = []) then None else Some s) <$> p_url p).

Definition set_list (l : pair_list) (p : params) : params := Params l (p_url p).

Definition append (name value : jsstr) (p : params) : params :=
  update (set_list (p_list p ++ [(name, value)]) p).

Definition delete (name : jsstr) (value : option jsstr) (p : params) : params :=
  update (set_list (match value with
    | Some v => filter (fun nv => (¬ (nv.1 = name /\ nv.2 = v))) (p_list p)
    | None => filter (fun nv => (nv.1 <> name)) (p_list p)
    end) p).

Definition get (name : jsstr) (p : params) : option jsstr :=
  snd <$> head (filter (fun nv => (nv.1 = name)) (p_list p)).

Definition getAll (name : jsstr) (p : params) : list jsstr :=
  (filter (fun nv => (nv.1 = name)) (p_list p)).*2.

Definition has (name : jsstr) (value : option jsstr) (p : params) : bool :=
  match value with
  | Some v => existsb (fun nv => bool_decide (nv.1 = name) && bool_decide (nv.2 = v)) (p_list p)
  | None => existsb (fun nv => bool_decide (nv.1 = name)) (p_list p)
  end.

Definition set_pair (name value : jsstr) (st : bool * pair_list) (pair : jsstr * jsstr) : bool * pair_list :=
  let '(found, newList) := st in
  if bool_decide (pair.1 = name) then
    if negb found then (true, newList ++ [(name, value)]) else (found, newList)
  else (found, newList ++ [pair]).

Definition set (name value : jsstr) (p : params) : params :=
  let '(found, newList) := foldl (set_pair name value) (false, []) (p_list p) in
  let newList := if negb found then newList ++ [(name, value)] else newList in
  update (set_list newList p).

(** [.map((pair, i) => [pair, i]).sort(..).map(([pair]) => pair)] *)
Definition sort (p : params) : params :=
  update (set_list (merge_sort sort_le (zip (p_list p) (seq 0 (length (p_list p))))).*1 p).

Definition params_toString (p : params) : jsstr := serializeFormURLEncoded (p_list p).
Definition keys (p : params) : list jsstr := (p_list p).*1.
Definition values (p : params) : list jsstr := (p_list p).*2.
Definition entries (p : params) : pair_list := p_list p.
Definition size (p : params) : nat := length (p_list p).
End Params.

(* ------------------------------------------------------------------ *)
(** ** Serialization *)

Section Serialize.
Context `{SockAddr46}.

(** A path in a string context; an array reads as [join(',')]. *)
Definition path_string (p : upath) : jsstr :=
  match p with PString s => s | PList l => join [0x2c] l end.

Definition serializePath (u : urlrec) : outcome jsstr :=
  if opaquePath u then Ok (path_string (path u))
  else match path u with
    | PList l => Ok (concat ((fun seg => [0x2f] ++ seg) <$> l))
    | PString _ => Throw ErrTypeError "not a function"
    end.

Definition port_string (p : option Z) : jsstr :=
  match p with Some n => [0x3a] ++ to_string 10 n | None => [] end.

Definition serializeURL (u : urlrec) (excludeFragment : bool) : outcome jsstr :=
  let output := scheme u ++ [0x3a] in
  let output := match u_host u with
    | None => output
    | Some h =>
      let output := output ++ js "//" in
      let output := if includesCredentials u then
        let output := output ++ username u in
        let output := if bool_decide (password u = []) then output else output ++ [0x3a] ++ password u in
        output ++ [0x40] else output in
      (output ++ serializeHost h) ++ port_string (port u)
    end in
  let output := if bool_decide (u_host u = None) && negb (opaquePath u)
                   && bool_decide (1 < path_length (path u))%nat && bool_decide (path_first (path u) = Some [])
                then output ++ js "/." else output in
  p ← serializePath u;
  let output := output ++ p in
  let output := match query u with Some q => output ++ [0x3f] ++ q | None => output end in
  Ok (match fragment u with
      | Some f => if negb excludeFragment then output ++ [0x23] ++ f else output
      | None => output
      end).

Definition serializeOrigin (u : urlrec) : outcome jsstr :=
  if isSpecial u && negb (bool_decide (scheme u = js "file")) then
    match u_host u with
    | Some h => Ok ((scheme u ++ js "://" ++ serializeHost h) ++ port_string (port u))
    | None => Throw ErrTypeError "cannot read property of null"
    end
  else Ok (js "null").
End Serialize.

(* ------------------------------------------------------------------ *)
(** ** The class URL *)

Section UrlClass.
Context `{TextCodec} `{UnicodeTables} `{SockAddr46}.

(** The record and the list of an object of class [URL]. *)
Record urlobj := Obj { record : urlrec; qlist : pair_list }.

(** [basicURLParse] as a call: the record or [null].  The fuel is never
    spent ([basicURLParse_terminates]); were it, this would throw. *)
Definition parse_call (input : jsstr) (base : option urlrec) : outcome (option urlrec) :=
  match basicURLParse input base None None with
  | Some (ReturnUrl u) => Ok (Some u)
  | Some (ReturnNull _) => Ok None
  | Some (Thrown _ c s) => Throw c s
  | _ => Throw ErrRangeError "out of fuel"
  end.

Definition set_record (u : urlrec) (o : urlobj) : urlobj := Obj u (qlist o).
Definition set_qlist (l : pair_list) (o : urlobj) : urlobj := Obj (record o) l.

(** The call a setter makes: its result is ignored, the record is
    mutated in place. *)
Definition parse_into (input : jsstr) (s : state) : SM urlobj unit := fun o =>
  match basicURLParse input None (Some (record o)) (Some s) with
  | Some (ReturnUrl u) | Some (ReturnNull u) => (Ok tt, set_record u o)
  | Some (Thrown u c m) => (Throw c m, set_record u o)
  | _ => (Throw ErrRangeError "out of fuel", o)
  end.

Definition query_list (q : option jsstr) : outcome pair_list :=
  match q with Some q => parseFormURLEncoded q | None => Ok [] end.

(** A call that does not touch the object. *)
Definition call {A} (m : outcome A) : SM urlobj A := fun o => (m, o).

Definition new_URL (url : jsstr) (base : option jsstr) : outcome urlobj :=
  parsedBase ← match base with
    | None => Ok None
    | Some b =>
      r ← parse_call b None;
      match r with None => Throw ErrTypeError "Invalid base URL" | Some u => Ok (Some u) end
    end;
  parsedURL ← parse_call url parsedBase;
  match parsedURL with
  | None => Throw ErrTypeError "Invalid URL"
  | Some u => l ← query_list (query u); Ok (Obj u l)
  end.

Definition canParse (url : jsstr) (base : option jsstr) : bool :=
  match new_URL url base with Ok _ => true | Throw _ _ => false end.

Definition URL_parse (url : jsstr) (base : option jsstr) : option urlobj :=
  match new_URL url base with Ok o => Some o | Throw _ _ => None end.

(** The getters. *)
Definition href (o : urlobj) : outcome jsstr := serializeURL (record o) false.
Definition origin (o : urlobj) : outcome jsstr := serializeOrigin (record o).
Definition protocol (o : urlobj) : jsstr := scheme (record o) ++ [0x3a].
Definition get_host (o : urlobj) : jsstr :=
  match u_host (record o) with
  | None => []
  | Some h => match port (record o) with
              | None => serializeHost h
              | Some n => serializeHost h ++ [0x3a] ++ to_string 10 n
              end
  end.
Definition hostname (o : urlobj) : jsstr :=
  match u_host (record o) with None => [] | Some h => serializeHost h end.
Definition get_port (o : urlobj) : jsstr :=
  match port (record o) with None => [] | Some n => to_string 10 n end.
Definition pathname (o : urlobj) : outcome jsstr := serializePath (record o).
Definition search (o : urlobj) : jsstr :=
  match query (record o) with None | Some [] => [] | Some q => [0x3f] ++ q end.
Definition hash (o : urlobj) : jsstr :=
  match fragment (record o) with None | Some [] => [] | Some f => [0x23] ++ f end.

(** [url.searchParams]: the list of the object, linked to its record. *)
Definition searchParams (o : urlobj) : params := Params (qlist o) (Some (record o)).

(** The object after [f] was called on its [searchParams]. *)
Definition on_searchParams (f : params -> params) (o : urlobj) : urlobj :=
  let p := f (searchParams o) in Obj (default (record o) (p_url p)) (p_list p).

(** The setters. *)
Definition set_url (f : urlrec -> urlrec) : SM urlobj unit := modify (fun o => set_record (f (record o)) o).

Definition href_set (value : jsstr) : SM urlobj unit :=
  parsed ← call (parse_call value None);
  match parsed with
  | None => throw ErrTypeError "Invalid URL"
  | Some u =>
    modify (set_record u) ;;
    l ← call (query_list (query u));
    modify (set_qlist l)
  end.

Definition protocol_set (value : jsstr) : SM urlobj unit := parse_into (value ++ [0x3a]) SchemeStart.

Definition username_set (value : jsstr) : SM urlobj unit :=
  url ← gets record;
  if cannotHaveUsernamePasswordPort url then mret tt
  else set_url (set_username (utf8PercentEncode value USERINFO_EXTRA)).

Definition password_set (value : jsstr) : SM urlobj unit :=
  url ← gets record;
  if cannotHaveUsernamePasswordPort url then mret tt
  else set_url (set_password (utf8PercentEncode value USERINFO_EXTRA)).

Definition host_set (value : jsstr) : SM urlobj unit :=
  url ← gets record;
  if opaquePath url then mret tt else parse_into value Host.

Definition hostname_set (value : jsstr) : SM urlobj unit :=
  url ← gets record;
  if opaquePath url then mret tt else parse_into value Hostname.

Definition port_set (value : jsstr) : SM urlobj unit :=
  url ← gets record;
  if cannotHaveUsernamePasswordPort url then mret tt
  else if bool_decide (value = []) then set_url (set_port None)
  else parse_into value Port.

Definition pathname_set (value : jsstr) : SM urlobj unit :=
  url ← gets record;
  if opaquePath url then mret tt
  else set_url (set_path (PList [])) ;; parse_into value PathStart.

Definition search_set (value : jsstr) : SM urlobj unit :=
  if bool_decide (value = []) then set_url (set_query None) ;; modify (set_qlist [])
  else
    set_url (set_query (Some [])) ;;
    parse_into (strip_first 0x3f value) Query ;;
    q ← gets (fun o => query (record o));
    l ← call (match q with Some q => parseFormURLEncoded q | None => Throw ErrTypeError "cannot read property of null" end);
    modify (set_qlist l).

Definition hash_set (value : jsstr) : SM urlobj unit :=
  if bool_decide (value = []) then set_url (set_fragment None)
  else set_url (set_fragment (Some [])) ;; parse_into (strip_first 0x23 value) Fragment.

(** The mutating interface of an object, its [searchParams] included. *)
Inductive params_op :=
| PAppend (name value : jsstr) | PDelete (name : jsstr) (value : option jsstr)
| PSet (name value : jsstr) | PSort.

Definition run_params (op : params_op) : params -> params :=
  match op with
  | PAppend n v => append n v
  | PDelete n v => delete n v
  | PSet n v => set n v
  | PSort => sort
  end.

Inductive url_op :=
| OpHref (v : jsstr) | OpProtocol (v : jsstr) | OpUsername (v : jsstr) | OpPassword (v : jsstr)
| OpHost (v : jsstr) | OpHostname (v : jsstr) | OpPort (v : jsstr) | OpPathname (v : jsstr)
| OpSearch (v : jsstr) | OpHash (v : jsstr) | OpParams (op : params_op).

Definition run_op (op : url_op) : SM urlobj unit :=
  match op with
  | OpHref v => href_set v
  | OpProtocol v => protocol_set v
  | OpUsername v => username_set v
  | OpPassword v => password_set v
  | OpHost v => host_set v
  | OpHostname v => hostname_set v
  | OpPort v => port_set v
  | OpPathname v => pathname_set v
  | OpSearch v => search_set v
  | OpHash v => hash_set v
  | OpParams op => modify (on_searchParams (run_params op))
  end.

(** The object after an operation, when the program ignores what it
    throws. *)
Definition exec (o : urlobj) (op : url_op) : urlobj := (run_op op o).2.
End UrlClass.
