(* ===== verification/LinkedList.v ===== *)
(** * The intrusive doubly linked list of [lib/lws/list.js]

    Objects live in a heap of cells with [prev], [next] and [data]; a list
    is a ring of cells through a head, a deque of values the ring behind
    a [LinkedList] object.  Following a null link throws.  The theorems
    relate every operation to the operation on plain lists, with what it
    leaves alone in the rest of the heap. *)

From S2P Require Import Prelude.

Abbreviation loc := nat (only parsing).

(** An object with the fields the list code uses; [None] is [null] or
    [undefined], which the code does not tell apart. *)
Record cell (V : Type) := Cell { c_prev : option loc; c_next : option loc; c_data : option V }.
Arguments Cell {V} _ _ _.
Arguments c_prev {V} _.
Arguments c_next {V} _.
Arguments c_data {V} _.

Abbreviation heap V := (gmap loc (cell V)) (only parsing).

(** Code that reads and writes the heap and may throw. *)
Definition HM (V A : Type) := heap V -> outcome (A * heap V).

#[export] Instance hm_ret V : MRet (HM V) := fun A a h => Ok (a, h).
#[export] Instance hm_bind V : MBind (HM V) := fun A B f m h =>
  match m h with Ok (a, h') => f a h' | Throw c s => Throw c s end.

(** An object of the class [LinkedList] is its [#head]. *)
Abbreviation llist := (option loc) (only parsing).

Section Ops.
Context {V : Type}.
Implicit Types (h : heap V) (el prev next head : option loc).

Definition null_deref {A} : outcome A := Throw ErrTypeError "cannot read property of null".

(** [el.f] and [el.f = v]; a location is an existing object. *)
Definition read_cell el : HM V (cell V) := fun h =>
  match el with
  | Some l => match h !! l with Some c => Ok (c, h) | None => null_deref end
  | None => null_deref
  end.
Definition get_prev el : HM V (option loc) := c ← read_cell el; mret (c_prev c).
Definition get_next el : HM V (option loc) := c ← read_cell el; mret (c_next c).
Definition get_data el : HM V (option V) := c ← read_cell el; mret (c_data c).

Definition upd_prev (l : loc) (v : option loc) h : heap V :=
  alter (fun c => Cell v (c_next c) (c_data c)) l h.
Definition upd_next (l : loc) (v : option loc) h : heap V :=
  alter (fun c => Cell (c_prev c) v (c_data c)) l h.

Definition set_prev el v : HM V unit := fun h =>
  match el with
  | Some l => if decide (is_Some (h !! l)) then Ok (tt, upd_prev l v h) else null_deref
  | None => null_deref
  end.
Definition set_next el v : HM V unit := fun h =>
  match el with
  | Some l => if decide (is_Some (h !! l)) then Ok (tt, upd_next l v h) else null_deref
  | None => null_deref
  end.

(** A fresh object [{ data }]. *)
Definition new_cell (data : option V) : HM V (option loc) := fun h =>
  let l := fresh (dom h) in Ok (Some l, <[l := Cell None None data]> h).

Definition list_node el : HM V (option loc) :=
  el ← match el with None => new_cell None | Some _ => mret el end;
  set_prev el None ;; set_next el None ;; mret el.

Definition LIST_HEAD_INIT el : HM V (option loc) :=
  el ← match el with None => new_cell None | Some _ => mret el end;
  set_next el el ;; set_prev el el ;; mret el.

(** [list_entry(el)] with the default member. *)
Definition list_entry el : HM V (option V) := get_data el.

Definition init_list_head head : HM V unit := set_prev head head ;; set_next head head.

Definition __list_add el prev next : HM V unit :=
  set_next prev el ;; set_prev el prev ;; set_next el next ;; set_prev next el.

Definition list_add el head : HM V unit := n ← get_next head; __list_add el head n.
Definition list_add_tail el head : HM V unit := p ← get_prev head; __list_add el p head.

Definition list_del el : HM V unit :=
  prev ← get_prev el; next ← get_next el;
  set_prev next prev ;; set_next prev next ;; set_prev el None ;; set_next el None.

Definition list_empty head : HM V bool := n ← get_next head; mret (bool_decide (n = head)).

Definition __list_splice src dest : HM V unit :=
  next ← get_next src; prev ← get_prev src; at_ ← get_next dest;
  set_prev next dest ;; set_next dest next ;; set_next prev at_ ;; set_prev at_ prev.

Definition list_splice src dest : HM V unit :=
  e ← list_empty src; if (e : bool) then mret tt else __list_splice src dest.

(** The loop of [__list_reverse]: leaves at the last element, or when
    [p.next] is null. *)
Fixpoint reverse_loop (fuel : nat) (p prev head : option loc) : HM V unit :=
  match fuel with
  | O => fun h => Throw ErrRangeError "out of fuel"
  | S fuel =>
    q ← get_next p;
    match q with
    | None => mret tt
    | Some _ =>
      n ← get_next head;
      __list_add p head n ;;
      if bool_decide (p = prev) then mret tt else reverse_loop fuel q prev head
    end
  end.

(** A list is no longer than the heap is large. *)
Definition ring_fuel : HM V nat := fun h => Ok (S (size h), h).

Definition __list_reverse head : HM V unit :=
  next ← get_next head; prev ← get_prev head;
  list_del head ;; init_list_head head ;;
  fuel ← ring_fuel; reverse_loop fuel next prev head.

Definition list_reverse head : HM V unit :=
  e ← list_empty head; if (e : bool) then mret tt else __list_reverse head.

Definition list_move el head : HM V unit := list_del el ;; list_add el head.
Definition list_move_tail el head : HM V unit := list_del el ;; list_add_tail el head.

Definition list_replace old el : HM V unit :=
  on ← get_next old; set_next el on ;;
  n ← get_next el; set_prev n el ;;
  op ← get_prev old; set_prev el op ;;
  p ← get_prev el; set_next p el.

Definition __list_merge dprev shead stail dnext : HM V unit :=
  set_next dprev shead ;; set_prev shead dprev ;; set_next stail dnext ;; set_prev dnext stail.

Definition list_merge dest src : HM V unit :=
  e ← list_empty src;
  if (e : bool) then mret tt else
    sn ← get_next src; sp ← get_prev src; dn ← get_next dest; __list_merge dest sn sp dn.

Definition list_merge_tail dest src : HM V unit :=
  e ← list_empty src;
  if (e : bool) then mret tt else
    dp ← get_prev dest; sn ← get_next src; sp ← get_prev src; __list_merge dp sn sp dest.

(** The generators, consumed by a callback [f] that runs at each [yield]
    and may change the heap; the fuel bounds the number of yields. *)
Fixpoint for_each_loop {B} (fuel : nat) (step : option loc -> HM V (option loc))
    (f : B -> option loc -> HM V B) (el head : option loc) (acc : B) : HM V B :=
  match fuel with
  | O => fun h => Throw ErrRangeError "out of fuel"
  | S fuel =>
    if bool_decide (el = head) then mret acc
    else acc ← f acc el; n ← step el; for_each_loop fuel step f n head acc
  end.

Definition list_for_each {B} (fuel : nat) (f : B -> option loc -> HM V B) (acc : B) head : HM V B :=
  el ← get_next head; for_each_loop fuel get_next f el head acc.
Definition list_for_each_prev {B} (fuel : nat) (f : B -> option loc -> HM V B) (acc : B) head : HM V B :=
  el ← get_prev head; for_each_loop fuel get_prev f el head acc.

(** The safe variants read the following element before the [yield]. *)
Fixpoint for_each_safe_loop {B} (fuel : nat) (step : option loc -> HM V (option loc))
    (f : B -> option loc -> HM V B) (el el1 head : option loc) (acc : B) : HM V B :=
  match fuel with
  | O => fun h => Throw ErrRangeError "out of fuel"
  | S fuel =>
    if bool_decide (el = head) then mret acc
    else acc ← f acc el; n ← step el1; for_each_safe_loop fuel step f el1 n head acc
  end.

Definition list_for_each_safe {B} (fuel : nat) (f : B -> option loc -> HM V B) (acc : B) head : HM V B :=
  el ← get_next head; el1 ← get_next el;
  for_each_safe_loop fuel get_next f el el1 head acc.
Definition list_for_each_prev_safe {B} (fuel : nat) (f : B -> option loc -> HM V B) (acc : B) head : HM V B :=
  el ← get_prev head; el1 ← get_prev el;
  for_each_safe_loop fuel get_prev f el el1 head acc.

(* ------------------------------------------------------------------ *)
(** ** The class LinkedList *)

Implicit Types this : llist.

Definition ll_empty this : HM V bool := list_empty this.
Definition ll_front this : HM V (option V) := n ← get_next this; get_data n.
Definition ll_back this : HM V (option V) := p ← get_prev this; get_data p.

Definition pushFront this (data : V) : HM V unit :=
  el ← new_cell (Some data); n ← get_next this; __list_add el this n.
Definition pushBack this (data : V) : HM V unit :=
  el ← new_cell (Some data); p ← get_prev this; __list_add el p this.

Definition lift {A} (m : outcome A) : HM V A := fun h => a ← m; Ok (a, h).

Definition popFront this : HM V (option V) :=
  e ← list_empty this; lift (assert_default (negb e)) ;;
  next ← get_next this; list_del next ;; get_data next.
Definition popBack this : HM V (option V) :=
  e ← list_empty this; lift (assert_default (negb e)) ;;
  prev ← get_prev this; list_del prev ;; get_data prev.

Fixpoint prependRange_loop (head : option loc) (rng : list V) : HM V unit :=
  match rng with
  | [] => mret tt
  | data :: rng =>
    el ← new_cell (Some data); n ← get_next head; __list_add el head n ;; prependRange_loop el rng
  end.
Definition prependRange this (rng : list V) : HM V unit := prependRange_loop this rng.

Fixpoint appendRange this (rng : list V) : HM V unit :=
  match rng with
  | [] => mret tt
  | data :: rng =>
    el ← new_cell (Some data); p ← get_prev this; __list_add el p this ;; appendRange this rng
  end.

Definition new_LinkedList (iterable : list V) : HM V llist :=
  head ← LIST_HEAD_INIT None; appendRange head iterable ;; mret head.

Definition ll_reverse this : HM V llist := list_reverse this ;; mret this.

(** [for(const v of this) f(v)] *)
Definition ll_iterate {B} (fuel : nat) (f : B -> option V -> HM V B) (acc : B) this : HM V B :=
  list_for_each_safe fuel (fun acc el => d ← list_entry el; f acc d) acc this.

(** [new this.constructor(this)]: the new list grows while the generator
    of the old one runs. *)
Definition ll_clone (fuel : nat) this : HM V llist :=
  head ← LIST_HEAD_INIT None;
  ll_iterate fuel (fun _ d =>
    el ← new_cell d; p ← get_prev head; __list_add el p head) tt this ;;
  mret head.
End Ops.
