(* ===== verification/LinkedListProps.v ===== *)
(** * Rings of cells, and what the list operations do to them

    [ring h head xs]: the cells [xs] in order between two occurrences of
    [head], linked both ways.  Every operation of [LinkedList] is a list
    operation on rings that leaves the data and all other cells alone. *)

From S2P Require Import Prelude LinkedList.

Section Heap.
Context {V : Type}.
Implicit Types (h : heap V) (a b x p n el head : loc) (c xs ys l : list loc).

Definition nxt h a : option loc := h !! a ≫= c_next.
Definition prv h a : option loc := h !! a ≫= c_prev.
Definition dat h a : option V := h !! a ≫= c_data.

Definition exists_in h a : Prop := is_Some (h !! a).

(* ------------------------------------------------------------------ *)
(** ** Symbolic execution *)

Lemma hm_bind_ok {A B} (m : HM V A) (f : A -> HM V B) h r h' :
  m h = Ok (r, h') -> (m ≫= f) h = f r h'.
Proof. unfold mbind, hm_bind. by intros ->. Qed.

Lemma read_ok h a (f : cell V -> option loc) : exists_in h a ->
  (c ← read_cell (Some a); mret (f c)) h = Ok (h !! a ≫= f, h).
Proof. intros [c Hc]. unfold mbind at 1, hm_bind, read_cell. rewrite Hc. done. Qed.

Lemma get_next_ok h a : exists_in h a -> get_next (Some a) h = Ok (nxt h a, h).
Proof. apply read_ok. Qed.
Lemma get_prev_ok h a : exists_in h a -> get_prev (Some a) h = Ok (prv h a, h).
Proof. apply read_ok. Qed.
Lemma get_data_ok h a : exists_in h a -> get_data (Some a) h = Ok (dat h a, h).
Proof. intros [c Hc]. unfold get_data, mbind at 1, hm_bind, read_cell, dat. rewrite Hc. done. Qed.

Lemma set_next_ok h a v : exists_in h a -> set_next (Some a) v h = Ok (tt, upd_next a v h).
Proof. intros Ha. unfold set_next. by rewrite decide_True. Qed.
Lemma set_prev_ok h a v : exists_in h a -> set_prev (Some a) v h = Ok (tt, upd_prev a v h).
Proof. intros Ha. unfold set_prev. by rewrite decide_True. Qed.

Lemma exists_upd_next h a v x : exists_in (upd_next a v h) x <-> exists_in h x.
Proof.
  unfold exists_in, upd_next. destruct (decide (a = x)) as [->|].
  - by rewrite lookup_alter_eq, fmap_is_Some.
  - by rewrite lookup_alter_ne.
Qed.
Lemma exists_upd_prev h a v x : exists_in (upd_prev a v h) x <-> exists_in h x.
Proof.
  unfold exists_in, upd_prev. destruct (decide (a = x)) as [->|].
  - by rewrite lookup_alter_eq, fmap_is_Some.
  - by rewrite lookup_alter_ne.
Qed.

Lemma nxt_upd_next h a v x : exists_in h a ->
  nxt (upd_next a v h) x = if decide (x = a) then v else nxt h x.
Proof.
  intros [c Hc]. unfold nxt, upd_next. case_decide as E.
  - subst x. by rewrite lookup_alter_eq, Hc.
  - by rewrite lookup_alter_ne.
Qed.
Lemma nxt_upd_prev h a v x : nxt (upd_prev a v h) x = nxt h x.
Proof.
  unfold nxt, upd_prev. destruct (decide (a = x)) as [->|].
  - rewrite lookup_alter_eq. by destruct (h !! x).
  - by rewrite lookup_alter_ne.
Qed.
Lemma prv_upd_prev h a v x : exists_in h a ->
  prv (upd_prev a v h) x = if decide (x = a) then v else prv h x.
Proof.
  intros [c Hc]. unfold prv, upd_prev. case_decide as E.
  - subst x. by rewrite lookup_alter_eq, Hc.
  - by rewrite lookup_alter_ne.
Qed.
Lemma prv_upd_next h a v x : prv (upd_next a v h) x = prv h x.
Proof.
  unfold prv, upd_next. destruct (decide (a = x)) as [->|].
  - rewrite lookup_alter_eq. by destruct (h !! x).
  - by rewrite lookup_alter_ne.
Qed.
Lemma dat_upd_next h a v x : dat (upd_next a v h) x = dat h x.
Proof.
  unfold dat, upd_next. destruct (decide (a = x)) as [->|].
  - rewrite lookup_alter_eq. by destruct (h !! x).
  - by rewrite lookup_alter_ne.
Qed.
Lemma dat_upd_prev h a v x : dat (upd_prev a v h) x = dat h x.
Proof.
  unfold dat, upd_prev. destruct (decide (a = x)) as [->|].
  - rewrite lookup_alter_eq. by destruct (h !! x).
  - by rewrite lookup_alter_ne.
Qed.
End Heap.

Create Rewrite HintDb heap.
#[export] Hint Rewrite @exists_upd_next @exists_upd_prev @nxt_upd_prev @prv_upd_next @dat_upd_next @dat_upd_prev : heap.

(** [x] exists, after updates. *)
Ltac exists_tac := autorewrite with heap; solve [assumption | eauto].
(** Look up a field after updates. *)
Ltac heap_simpl := repeat first
  [ rewrite nxt_upd_next by exists_tac | rewrite prv_upd_prev by exists_tac | progress autorewrite with heap ].
(** Run one primitive of a bind. *)
Ltac run_step := erewrite hm_bind_ok;
  [|first [apply get_next_ok | apply get_prev_ok | apply get_data_ok | apply set_next_ok | apply set_prev_ok]; exists_tac].

Section Rings.
Context {V : Type}.
Implicit Types (h : heap V) (a b x p n el head : loc) (c xs ys l : list loc).

(** [b] follows [a]. *)
Definition link h a b : Prop := nxt h a = Some b /\ prv h b = Some a.

Fixpoint chain h c : Prop :=
  match c with
  | a :: (b :: _) as t => link h a b /\ chain h t
  | _ => True
  end.

Definition ring h head xs : Prop := chain h (head :: xs ++ [head]) /\ NoDup (head :: xs).

(** The cells of [l], their data, and everything outside [l]. *)
Definition same_outside l h h' : Prop :=
  (forall x, exists_in h x <-> exists_in h' x) /\ (forall x, dat h' x = dat h x) /\
  (forall x, x ∉ l -> nxt h' x = nxt h x /\ prv h' x = prv h x).

Lemma link_exists h a b : link h a b -> exists_in h a /\ exists_in h b.
Proof.
  unfold link, nxt, prv, exists_in. intros [Ha Hb].
  destruct (h !! a); [|done]. destruct (h !! b); [|done]. eauto.
Qed.

Lemma chain_exists h c x : chain h c -> (2 <= length c)%nat -> x ∈ c -> exists_in h x.
Proof.
  revert x. induction c as [|a [|b c] IH]; cbn [chain length]; intros x Hc Hl; [lia|lia|].
  destruct Hc as [Hl0 Hc]. apply link_exists in Hl0 as [? ?]. intros [->|Hx]%elem_of_cons; [done|].
  destruct c; [by apply list_elem_of_singleton in Hx as ->|]. apply IH; [done|cbn; lia|done].
Qed.

Lemma ring_exists h head xs x : ring h head xs -> x ∈ head :: xs -> exists_in h x.
Proof.
  intros [Hc _] Hx. eapply chain_exists; [exact Hc|rewrite length_cons, length_app; cbn; lia|].
  rewrite app_comm_cons. by apply elem_of_app; left.
Qed.

(** A chain splits at any link. *)
Lemma chain_split h l p n ys :
  chain h (l ++ p :: n :: ys) <-> chain h (l ++ [p]) /\ link h p n /\ chain h (n :: ys).
Proof.
  induction l as [|a l IH]; [cbn; tauto|]. destruct l as [|b l]; cbn [app chain] in *; tauto.
Qed.

Lemma chain_frame h h' c :
  chain h c -> (forall x, x ∈ removelast c -> nxt h' x = nxt h x) ->
  (forall x, x ∈ tail c -> prv h' x = prv h x) -> chain h' c.
Proof.
  induction c as [|a [|b c] IH]; [done|done|]. intros [[Ha Hb] Hc] Hn Hp. split.
  - split; [rewrite Hn; [done|left]|rewrite Hp; [done|left]].
  - apply IH; [done| |].
    + intros x Hx. apply Hn. by right.
    + intros x Hx. apply Hp. by right.
Qed.

Lemma removelast_snoc {A} (l : list A) (x : A) : removelast (l ++ [x]) = l.
Proof. by rewrite removelast_app, app_nil_r by done. Qed.

(** The same ring in another heap that agrees on its cells. *)
Lemma ring_frame h h' head xs :
  ring h head xs -> (forall x, x ∈ head :: xs -> nxt h' x = nxt h x /\ prv h' x = prv h x) -> ring h' head xs.
Proof.
  intros [Hc Hd] Hx. split; [|done]. eapply chain_frame; [exact Hc|..]; intros x Hin; apply Hx.
  - by rewrite app_comm_cons, removelast_snoc in Hin.
  - cbn in Hin. apply elem_of_app in Hin as [?|Hin%list_elem_of_singleton]; [by right|subst; left].
Qed.

Lemma ring_outside l h h' head xs :
  ring h head xs -> same_outside l h h' -> (forall x, x ∈ head :: xs -> x ∉ l) -> ring h' head xs.
Proof. intros Hr (_ & _ & Hs) Hd. eapply ring_frame; [done|]. auto. Qed.

Lemma chain_join h l p n ys :
  chain h (l ++ [p]) -> link h p n -> chain h (n :: ys) -> chain h (l ++ p :: n :: ys).
Proof. intros. by apply chain_split. Qed.

(** The neighbours of the place between [l1] and [l2] in a ring. *)
Definition before head l1 : loc := List.last l1 head.
Definition after head l2 : loc := List.hd head l2.

Lemma before_split head l1 : exists A, head :: l1 = A ++ [before head l1].
Proof.
  exists (removelast (head :: l1)). unfold before. replace (List.last l1 head) with (List.last (head :: l1) head).
  - by apply app_removelast_last.
  - by destruct l1.
Qed.

Lemma after_split head l2 : exists B, l2 ++ [head] = after head l2 :: B.
Proof. destruct l2; by eexists. Qed.

Lemma before_in head l1 : before head l1 ∈ head :: l1.
Proof. destruct (before_split head l1) as [A ->]. apply elem_of_app. right. by left. Qed.

Lemma after_in head l2 : after head l2 ∈ l2 ++ [head].
Proof. destruct (after_split head l2) as [B ->]. by left. Qed.

(** Cut a ring open at a place, and close it again. *)
Lemma ring_cut h head l1 l2 : ring h head (l1 ++ l2) <->
  chain h (head :: l1) /\ link h (before head l1) (after head l2) /\ chain h (l2 ++ [head]) /\ NoDup (head :: l1 ++ l2).
Proof.
  unfold ring. destruct (before_split head l1) as [A HA], (after_split head l2) as [B HB].
  rewrite <-app_assoc, app_comm_cons, HA, HB, <-app_assoc. cbn [app].
  rewrite chain_split. rewrite <-HA. tauto.
Qed.

(** The first part of a cut ring survives updates of [next] at its end
    and of [prev] outside it, the last part the other way round. *)
Lemma chain_first h h' head l1 :
  chain h (head :: l1) -> NoDup (head :: l1) ->
  (forall x, x ∈ head :: l1 -> x <> before head l1 -> nxt h' x = nxt h x) ->
  (forall x, x ∈ l1 -> prv h' x = prv h x) -> chain h' (head :: l1).
Proof.
  intros Hc Hd Hn Hp. eapply chain_frame; [exact Hc| |exact Hp]. intros x Hx.
  destruct (before_split head l1) as [A HA]. rewrite HA in Hd, Hx, Hn. rewrite removelast_snoc in Hx.
  apply Hn; [apply elem_of_app; by left|]. intros ->.
  apply NoDup_app in Hd as (_ & Hd & _). apply (Hd _ Hx). by left.
Qed.

Lemma chain_last h h' head l2 :
  chain h (l2 ++ [head]) -> NoDup (head :: l2) ->
  (forall x, x ∈ l2 -> nxt h' x = nxt h x) ->
  (forall x, x ∈ head :: l2 -> x <> after head l2 -> prv h' x = prv h x) -> chain h' (l2 ++ [head]).
Proof.
  intros Hc Hd Hn Hp. eapply chain_frame; [exact Hc|by rewrite removelast_snoc|]. intros x Hx.
  destruct l2 as [|y l2]; cbn in *; [by apply elem_of_nil in Hx|].
  apply NoDup_cons in Hd as [Hh Hd]. apply NoDup_cons in Hd as [Hy _].
  apply elem_of_app in Hx as [Hx|Hx%list_elem_of_singleton].
  - apply Hp; [by right; right|]. by intros ->.
  - subst x. apply Hp; [by left|]. intros ->. apply Hh. by left.
Qed.

(* ------------------------------------------------------------------ *)
(** ** Insertion *)

Definition add_heap el p n h : heap V :=
  upd_prev n (Some el) (upd_next el (Some n) (upd_prev el (Some p) (upd_next p (Some el) h))).

Lemma list_add_run h el p n : exists_in h el -> exists_in h p -> exists_in h n ->
  __list_add (Some el) (Some p) (Some n) h = Ok (tt, add_heap el p n h).
Proof.
  intros He Hp Hn. unfold __list_add. do 3 run_step. by rewrite set_prev_ok by exists_tac.
Qed.

Lemma nxt_add h el p n x : exists_in h el -> exists_in h p ->
  nxt (add_heap el p n h) x = if decide (x = el) then Some n else if decide (x = p) then Some el else nxt h x.
Proof. intros. unfold add_heap. by heap_simpl. Qed.

Lemma prv_add h el p n x : exists_in h el -> exists_in h n ->
  prv (add_heap el p n h) x = if decide (x = n) then Some el else if decide (x = el) then Some p else prv h x.
Proof. intros. unfold add_heap. by heap_simpl. Qed.

Lemma add_same_outside h el p n l : exists_in h el -> exists_in h p -> exists_in h n ->
  el ∈ l -> p ∈ l -> n ∈ l -> same_outside l h (add_heap el p n h).
Proof.
  intros He Hp Hn ???. split_and!.
  - intros x. unfold add_heap. by autorewrite with heap.
  - intros x. unfold add_heap. by autorewrite with heap.
  - intros x Hx. rewrite nxt_add, prv_add by done. by rewrite !decide_False by (intros ->; done).
Qed.

(** [__list_add] between two neighbours of a ring. *)
Lemma ring_insert h head l1 l2 el :
  ring h head (l1 ++ l2) -> exists_in h el -> el ∉ head :: l1 ++ l2 ->
  let h' := add_heap el (before head l1) (after head l2) h in
  __list_add (Some el) (Some (before head l1)) (Some (after head l2)) h = Ok (tt, h') /\
  ring h' head (l1 ++ el :: l2) /\ same_outside (el :: head :: l1 ++ l2) h h'.
Proof.
  intros Hr He Hel h'. set (p := before head l1) in *. set (n := after head l2) in *.
  assert (p ∈ head :: l1 ++ l2) as Hpin.
  { pose proof (before_in head l1) as Hin. rewrite app_comm_cons. apply elem_of_app. by left. }
  assert (n ∈ head :: l1 ++ l2) as Hnin.
  { pose proof (after_in head l2) as [Hin|Hin%list_elem_of_singleton]%elem_of_app; [|rewrite <-Hin; by left].
    right. apply elem_of_app. by right. }
  pose proof (ring_exists _ _ _ p Hr Hpin) as Hp. pose proof (ring_exists _ _ _ n Hr Hnin) as Hn.
  split_and!; [by apply list_add_run| |apply add_same_outside; try done; by (left || right)].
  apply ring_cut in Hr as (H1 & _ & H2 & Hd).
  pose proof Hd as Hd'. rewrite app_comm_cons in Hd'. apply NoDup_app in Hd' as (Hd1 & Hd12 & Hd2).
  assert (NoDup (head :: l2)) as Hdh.
  { apply NoDup_cons. split; [|done]. apply Hd12. by left. }
  apply ring_cut. split_and!.
  - eapply chain_first; [exact H1|done|..]; intros x Hx; fold p.
    + intros Hxp. unfold h'. rewrite nxt_add by done. rewrite !decide_False; [done|done|].
      intros ->. apply Hel. rewrite app_comm_cons. apply elem_of_app. by left.
    + unfold h'. rewrite prv_add by done. rewrite !decide_False; [done| |].
      * intros ->. apply Hel. right. apply elem_of_app. by left.
      * intros ->. pose proof (after_in head l2) as [Hin|Hin%list_elem_of_singleton]%elem_of_app.
        -- apply (Hd12 n); [by right|done].
        -- apply NoDup_cons in Hd1 as [Hd1 _]. fold n in Hin. by rewrite Hin in Hx.
  - fold p. cbn. unfold link, h'. rewrite nxt_add, prv_add by done. split.
    + rewrite decide_False by (intros ->; done). by rewrite decide_True.
    + rewrite decide_False by (intros ->; done). by rewrite decide_True.
  - destruct (after_split head l2) as [B HB]. cbn [app]. rewrite HB. fold n.
    change (link h' el n /\ chain h' (n :: B)). split.
    + unfold link, h'. rewrite nxt_add, prv_add by done. by rewrite !decide_True.
    + fold n in HB. rewrite <-HB. eapply chain_last; [exact H2|exact Hdh|..]; intros x Hx; fold n.
      * unfold h'. rewrite nxt_add by done. rewrite !decide_False; [done| |].
        -- intros ->. apply (Hd12 p); [by apply before_in|done].
        -- intros ->. apply Hel. right. apply elem_of_app. by right.
      * intros Hxn. unfold h'. rewrite prv_add by done. rewrite !decide_False; [done| |done].
        intros ->. apply Hel. apply elem_of_cons in Hx as [->|Hx]; [by left|]. right. apply elem_of_app. by right.
  - rewrite app_comm_cons. apply NoDup_app. split_and!; [done| |].
    + intros x Hx [->|Hx2]%elem_of_cons.
      * apply Hel. rewrite app_comm_cons. apply elem_of_app. by left.
      * by apply (Hd12 x).
    + apply NoDup_cons. split; [|done]. intros Hx. apply Hel. right. apply elem_of_app. by right.
Qed.

(* ------------------------------------------------------------------ *)
(** ** Deletion, merging *)

(** The cells around a place in a ring are distinct from the others. *)
Lemma before_not_in head l1 l2 : NoDup (head :: l1 ++ l2) -> before head l1 ∉ l2.
Proof.
  intros Hd. rewrite app_comm_cons in Hd. apply NoDup_app in Hd as (_ & Hd & _).
  apply Hd, before_in.
Qed.

Lemma after_not_in head l1 l2 : NoDup (head :: l1 ++ l2) -> after head l2 ∉ l1.
Proof.
  intros Hd Hx. pose proof Hd as Hd'. rewrite app_comm_cons in Hd'. apply NoDup_app in Hd' as (Hd1 & Hd12 & _).
  pose proof (after_in head l2) as [Hin|Hin%list_elem_of_singleton]%elem_of_app.
  - apply (Hd12 (after head l2)); [by right|done].
  - rewrite Hin in Hx. by apply NoDup_cons in Hd1 as [? _].
Qed.

(** A ring closes when its two parts survive and the cells at the seam
    are linked. *)
Lemma ring_bridge h h' head l1 l2 :
  chain h (head :: l1) -> chain h (l2 ++ [head]) -> NoDup (head :: l1 ++ l2) ->
  link h' (before head l1) (after head l2) ->
  (forall x, x ∈ head :: l1 ++ l2 -> x <> before head l1 -> nxt h' x = nxt h x) ->
  (forall x, x ∈ head :: l1 ++ l2 -> x <> after head l2 -> prv h' x = prv h x) ->
  ring h' head (l1 ++ l2).
Proof.
  intros H1 H2 Hd Hl Hn Hp. apply ring_cut.
  assert (NoDup (head :: l1) /\ NoDup (head :: l2)) as [Hd1 Hd2].
  { rewrite app_comm_cons in Hd. apply NoDup_app in Hd as (? & Hd12 & ?). split; [done|].
    apply NoDup_cons. split; [|done]. apply Hd12. by left. }
  split_and!; [|done| |done].
  - eapply chain_first; [exact H1|done|..]; intros x Hx; [intros ?; apply Hn; [|done]|apply Hp].
    + rewrite app_comm_cons. apply elem_of_app. by left.
    + right. apply elem_of_app. by left.
    + intros ->. by apply (after_not_in head l1 l2).
  - eapply chain_last; [exact H2|done|..]; intros x Hx; [apply Hn|intros ?; apply Hp; [|done]].
    + right. apply elem_of_app. by right.
    + intros ->. by apply (before_not_in head l1 l2).
    + apply elem_of_cons in Hx as [->|Hx]; [by left|]. right. apply elem_of_app. by right.
Qed.

Definition del_heap el p n h : heap V :=
  upd_next el None (upd_prev el None (upd_next p (Some n) (upd_prev n (Some p) h))).

Lemma list_del_run h el p n : exists_in h el -> exists_in h p -> exists_in h n ->
  nxt h el = Some n -> prv h el = Some p -> list_del (Some el) h = Ok (tt, del_heap el p n h).
Proof.
  intros He Hp Hn Hnx Hpv. unfold list_del. do 2 run_step. rewrite Hnx, Hpv.
  do 3 run_step. by rewrite set_next_ok by exists_tac.
Qed.

Lemma nxt_del h el p n x : exists_in h el -> exists_in h p ->
  nxt (del_heap el p n h) x = if decide (x = el) then None else if decide (x = p) then Some n else nxt h x.
Proof. intros. unfold del_heap. by heap_simpl. Qed.

Lemma prv_del h el p n x : exists_in h el -> exists_in h n ->
  prv (del_heap el p n h) x = if decide (x = el) then None else if decide (x = n) then Some p else prv h x.
Proof. intros. unfold del_heap. by heap_simpl. Qed.

Lemma del_same_outside h el p n l : exists_in h el -> exists_in h p -> exists_in h n ->
  el ∈ l -> p ∈ l -> n ∈ l -> same_outside l h (del_heap el p n h).
Proof.
  intros He Hp Hn ???. split_and!.
  - intros x. unfold del_heap. by autorewrite with heap.
  - intros x. unfold del_heap. by autorewrite with heap.
  - intros x Hx. rewrite nxt_del, prv_del by done. by rewrite !decide_False by (intros ->; done).
Qed.

(** An element of a ring: its neighbours, and the parts around it. *)
Lemma ring_at h head l1 el l2 : ring h head (l1 ++ el :: l2) ->
  chain h (head :: l1) /\ chain h (l2 ++ [head]) /\ NoDup (head :: l1 ++ l2) /\ (el ∉ head :: l1 ++ l2) /\
  link h (before head l1) el /\ link h el (after head l2).
Proof.
  intros Hr. apply ring_cut in Hr as (H1 & Hl & H2 & Hd). cbn in Hl, H2.
  destruct (after_split head l2) as [B HB]. rewrite HB in *. destruct H2 as [Hl2 H2].
  assert ((head :: l1 ++ el :: l2) ≡ₚ (el :: head :: l1 ++ l2)) as Hp by (rewrite <-Permutation_middle; constructor).
  rewrite Hp in Hd. apply NoDup_cons in Hd as [Hel Hd]. done.
Qed.

(** [list_del] of an element of a ring. *)
Lemma ring_delete h head l1 el l2 :
  ring h head (l1 ++ el :: l2) ->
  exists h', list_del (Some el) h = Ok (tt, h') /\ ring h' head (l1 ++ l2) /\
    same_outside (el :: head :: l1 ++ l2) h h' /\ nxt h' el = None /\ prv h' el = None.
Proof.
  intros Hr. pose proof (ring_at _ _ _ _ _ Hr) as (H1 & H2 & Hd & Hel & Hl1 & Hl2).
  destruct (link_exists _ _ _ Hl1) as [Hp He], (link_exists _ _ _ Hl2) as [_ Hn].
  assert (before head l1 ∈ head :: l1 ++ l2) as Hpin.
  { pose proof (before_in head l1). rewrite app_comm_cons. apply elem_of_app. by left. }
  assert (after head l2 ∈ head :: l1 ++ l2) as Hnin.
  { pose proof (after_in head l2) as [Hin|Hin%list_elem_of_singleton]%elem_of_app; [|rewrite Hin; by left].
    right. apply elem_of_app. by right. }
  exists (del_heap el (before head l1) (after head l2) h). split_and!.
  - apply list_del_run; try done; [apply Hl2|apply Hl1].
  - apply (ring_bridge h); try done; unfold link; rewrite ?nxt_del, ?prv_del by done.
    + rewrite !(decide_False (P := _ = el)) by (intros Heq; by rewrite Heq in *). by rewrite !decide_True.
    + intros x Hx Hne. rewrite nxt_del by done. by rewrite !decide_False by (intros ->; done).
    + intros x Hx Hne. rewrite prv_del by done. by rewrite !decide_False by (intros ->; done).
  - apply del_same_outside; try done; by (left || right).
  - rewrite nxt_del by done. by rewrite decide_True.
  - rewrite prv_del by done. by rewrite decide_True.
Qed.

Lemma chain_parts h l ys : chain h (l ++ ys) -> chain h l /\ chain h ys.
Proof.
  induction l as [|a l IH]; cbn [app]; [by intros|]. destruct l as [|b l].
  - intros Hc. split; [done|]. destruct ys; [done|apply Hc].
  - intros [Hl Hc]. destruct (IH Hc) as [H1 H2]. by split.
Qed.

(** First and last cell of a ring that is not empty. *)
Lemma ring_ends h head xs : ring h head xs -> xs <> [] ->
  exists sh X st Y, xs = sh :: Y /\ xs = X ++ [st] /\
    nxt h head = Some sh /\ prv h head = Some st /\ chain h xs.
Proof.
  intros [Hc _] Hne. destruct xs as [|sh Y]; [done|].
  destruct (exists_last Hne) as (X & st & HX). exists sh, X, st, Y.
  assert (chain h (sh :: Y)) as Hxs.
  { destruct Hc as [_ Hc]. change (chain h ((sh :: Y) ++ [head])) in Hc. by apply chain_parts in Hc as [? _]. }
  split_and!; try done.
  - apply Hc.
  - destruct Hc as [_ Hc]. change (chain h ((sh :: Y) ++ [head])) in Hc. rewrite HX, <-app_assoc in Hc.
    cbn [app] in Hc. apply chain_split in Hc as (_ & [_ Hl] & _). done.
Qed.

Lemma ring_merge h h' dest l1 l2 src xs sh X st Y :
  ring h dest (l1 ++ l2) -> ring h src xs -> xs = sh :: Y -> xs = X ++ [st] ->
  (forall x, x ∈ xs -> x ∉ dest :: l1 ++ l2) ->
  (forall x, nxt h' x = if decide (x = st) then Some (after dest l2)
                        else if decide (x = before dest l1) then Some sh else nxt h x) ->
  (forall x, prv h' x = if decide (x = after dest l2) then Some st
                        else if decide (x = sh) then Some (before dest l1) else prv h x) ->
  ring h' dest (l1 ++ xs ++ l2).
Proof.
  intros Hd Hs Hsh Hst Hdis Hn Hp. apply ring_cut in Hd as (H1 & _ & H2 & Hnd).
  assert (chain h xs) as Hxs by (destruct (ring_ends h src xs Hs) as (? & ? & ? & ? & _ & _ & _ & _ & ?); [by rewrite Hsh|done]).
  destruct Hs as [_ Hnds]. apply NoDup_cons in Hnds as [_ Hnds].
  assert (sh ∈ xs) as Hshin by (rewrite Hsh; by left).
  assert (st ∈ xs) as Hstin by (rewrite Hst; apply elem_of_app; right; by left).
  assert (forall x, x ∈ dest :: l1 -> x ∈ dest :: l1 ++ l2) as Hin1.
  { intros x. rewrite app_comm_cons, elem_of_app. by left. }
  assert (forall x, x ∈ l2 ++ [dest] -> x ∈ dest :: l1 ++ l2) as Hin2.
  { intros x. rewrite elem_of_app, !elem_of_cons, elem_of_app, elem_of_nil. tauto. }
  pose proof (Hin1 _ (before_in dest l1)) as Hbin. pose proof (Hin2 _ (after_in dest l2)) as Hain.
  assert (forall x y, x ∈ xs -> y ∈ dest :: l1 ++ l2 -> x <> y) as Hne by (intros x y Hx Hy ->; by eapply Hdis).
  assert (NoDup (dest :: l1 ++ xs ++ l2)) as Hnd'.
  { assert ((dest :: l1 ++ xs ++ l2) ≡ₚ (xs ++ dest :: l1 ++ l2)) as ->.
    { rewrite <-Permutation_middle. apply perm_skip. by rewrite app_assoc, (Permutation_app_comm l1 xs), <-app_assoc. }
    apply NoDup_app. by split_and!. }
  rewrite app_comm_cons in Hnd. apply NoDup_app in Hnd as (Hd1 & Hd12 & Hd2). apply ring_cut. split_and!; [| | |done].
  - eapply chain_first; [exact H1|done|..]; intros x Hx.
    + intros Hxb. rewrite Hn, !decide_False; [done|done|]. apply not_eq_sym, Hne; [done|by apply Hin1].
    + rewrite Hp, !decide_False; [done| |].
      * apply not_eq_sym, Hne; [done|]. apply Hin1. by right.
      * intros ->. apply (after_not_in dest l1 l2); [|done].
        rewrite app_comm_cons. apply NoDup_app. by split_and!.
  - replace (after dest (xs ++ l2)) with sh by (by rewrite Hsh). unfold link. rewrite Hn, Hp. split.
    + rewrite decide_False by (apply not_eq_sym, Hne; done). by rewrite decide_True.
    + rewrite decide_False by (apply Hne; done). by rewrite decide_True.
  - destruct (after_split dest l2) as [B HB]. rewrite <-app_assoc, HB, Hst, <-app_assoc. cbn [app].
    apply chain_join.
    + rewrite <-Hst. eapply chain_frame; [exact Hxs|..]; intros x Hx.
      * assert (x ∈ X) as HxX by (by rewrite Hst, removelast_snoc in Hx).
        rewrite Hst in Hnds. apply NoDup_app in Hnds as (_ & HX & _).
        rewrite Hn, !decide_False; [done| |].
        -- apply Hne; [|done]. rewrite Hst. apply elem_of_app. by left.
        -- intros ->. apply (HX _ HxX). by left.
      * rewrite Hsh in Hx. cbn in Hx. rewrite Hsh in Hnds. apply NoDup_cons in Hnds as [Hns _].
        rewrite Hp, !decide_False; [done|by intros ->|]. apply Hne; [|done]. rewrite Hsh. by right.
    + unfold link. rewrite Hn, Hp. by rewrite !decide_True.
    + rewrite <-HB. assert (NoDup (dest :: l2)) as Hdh
        by (apply NoDup_cons; split; [apply Hd12; by left|done]).
      eapply chain_last; [exact H2|exact Hdh|..]; intros x Hx.
      * rewrite Hn, !decide_False; [done| |].
        -- intros ->. apply (Hd12 (before dest l1)); [by apply before_in|done].
        -- apply not_eq_sym, Hne; [done|]. apply Hin2, elem_of_app. by left.
      * intros Hxa. rewrite Hp, !decide_False; [done| |done].
        apply not_eq_sym, Hne; [done|]. apply Hin2, elem_of_app.
        apply elem_of_cons in Hx as [->|Hx]; [right; by left|by left].
Qed.

(* ------------------------------------------------------------------ *)
(** ** The operations on rings *)

Lemma ring_nil_next h head : ring h head [] -> nxt h head = Some head /\ prv h head = Some head.
Proof. intros [[Hl _] _]. exact Hl. Qed.

Lemma list_empty_ring h head xs : ring h head xs ->
  list_empty (Some head) h = Ok (bool_decide (xs = []), h).
Proof.
  intros Hr. unfold list_empty. pose proof (ring_exists _ _ _ head Hr ltac:(by left)) as Hh. run_step.
  unfold mret, hm_ret. do 2 f_equal. destruct xs as [|x xs].
  - rewrite (proj1 (ring_nil_next _ _ Hr)). by rewrite !bool_decide_true.
  - destruct Hr as [[[Hn _] _] Hd]. rewrite Hn. rewrite !bool_decide_false; [done|done|].
    intros [= ->]. apply NoDup_cons in Hd as [Hd _]. apply Hd. by left.
Qed.

Lemma ring_next h head xs : ring h head xs -> nxt h head = Some (after head xs).
Proof.
  intros [Hc _]. destruct xs as [|x xs]; cbn in Hc; apply Hc.
Qed.

Lemma ring_prev h head xs : ring h head xs -> prv h head = Some (before head xs).
Proof.
  intros Hr. assert (ring h head (xs ++ [])) as Hr' by (by rewrite app_nil_r).
  apply ring_cut in Hr' as (_ & [_ Hp] & _). exact Hp.
Qed.

Lemma list_add_ring h head xs el :
  ring h head xs -> exists_in h el -> el ∉ head :: xs ->
  exists h', list_add (Some el) (Some head) h = Ok (tt, h') /\ ring h' head (el :: xs) /\
    same_outside (el :: head :: xs) h h'.
Proof.
  intros Hr He Hel. pose proof (ring_exists _ _ _ head Hr ltac:(by left)) as Hh.
  destruct (ring_insert h head [] xs el Hr He Hel) as (Hrun & Hr' & Hs).
  eexists. split; [|by split]. unfold list_add. run_step. rewrite (ring_next _ _ _ Hr). exact Hrun.
Qed.

Lemma list_add_tail_ring h head xs el :
  ring h head xs -> exists_in h el -> el ∉ head :: xs ->
  exists h', list_add_tail (Some el) (Some head) h = Ok (tt, h') /\ ring h' head (xs ++ [el]) /\
    same_outside (el :: head :: xs) h h'.
Proof.
  intros Hr He Hel. pose proof (ring_exists _ _ _ head Hr ltac:(by left)) as Hh.
  rewrite <-(app_nil_r xs) in Hel, Hr. destruct (ring_insert h head xs [] el Hr He Hel) as (Hrun & Hr' & Hs).
  rewrite app_nil_r in Hs. eexists. split; [|by split]. unfold list_add_tail. run_step.
  rewrite (ring_prev _ _ _ Hr), app_nil_r. exact Hrun.
Qed.

(** Join the ring of [src] into the ring of [dest], at either end. *)
Definition join_heap dprev sh st dnext h : heap V :=
  upd_prev dnext (Some st) (upd_next st (Some dnext) (upd_prev sh (Some dprev) (upd_next dprev (Some sh) h))).

Lemma merge_run h dprev sh st dnext :
  exists_in h dprev -> exists_in h sh -> exists_in h st -> exists_in h dnext ->
  __list_merge (Some dprev) (Some sh) (Some st) (Some dnext) h = Ok (tt, join_heap dprev sh st dnext h).
Proof. intros. unfold __list_merge. do 3 run_step. by rewrite set_prev_ok by exists_tac. Qed.

Lemma join_ring h dest l1 l2 src xs :
  ring h dest (l1 ++ l2) -> ring h src xs -> xs <> [] ->
  (forall x, x ∈ src :: xs -> x ∉ dest :: l1 ++ l2) ->
  exists sh st, nxt h src = Some sh /\ prv h src = Some st /\ exists_in h sh /\ exists_in h st /\
    exists_in h src /\ exists_in h (before dest l1) /\ exists_in h (after dest l2) /\
    let h' := join_heap (before dest l1) sh st (after dest l2) h in
    ring h' dest (l1 ++ xs ++ l2) /\ same_outside (src :: xs ++ dest :: l1 ++ l2) h h'.
Proof.
  intros Hd Hs Hne Hdis. destruct (ring_ends h src xs Hs Hne) as (sh & X & st & Y & Hsh & Hst & Hn & Hp & Hc).
  exists sh, st. assert (sh ∈ xs) as Hshin by (rewrite Hsh; by left).
  assert (st ∈ xs) as Hstin by (rewrite Hst; apply elem_of_app; right; by left).
  assert (before dest l1 ∈ dest :: l1 ++ l2) as Hb
    by (rewrite app_comm_cons; apply elem_of_app; left; apply before_in).
  assert (after dest l2 ∈ dest :: l1 ++ l2) as Ha.
  { pose proof (after_in dest l2) as Hin. rewrite elem_of_app, list_elem_of_singleton in Hin.
    rewrite elem_of_cons, elem_of_app. tauto. }
  pose proof (ring_exists _ _ _ sh Hs ltac:(by right)). pose proof (ring_exists _ _ _ st Hs ltac:(by right)).
  pose proof (ring_exists _ _ _ src Hs ltac:(by left)).
  pose proof (ring_exists _ _ _ _ Hd Hb). pose proof (ring_exists _ _ _ _ Hd Ha). intros.
  split_and!; try done; intros h'.
  assert (forall x, nxt h' x = if decide (x = st) then Some (after dest l2)
    else if decide (x = before dest l1) then Some sh else nxt h x) as Hn'.
  { intros x. unfold h', join_heap. by heap_simpl. }
  assert (forall x, prv h' x = if decide (x = after dest l2) then Some st
    else if decide (x = sh) then Some (before dest l1) else prv h x) as Hp'.
  { intros x. unfold h', join_heap. by heap_simpl. }
  split.
  - apply (ring_merge h h' dest l1 l2 src xs sh X st Y); try done. intros x Hx. apply Hdis. by right.
  - split_and!.
    + intros x. unfold h', join_heap. by autorewrite with heap.
    + intros x. unfold h', join_heap. by autorewrite with heap.
    + intros x Hx. assert ((x ∉ xs) /\ (x ∉ dest :: l1 ++ l2)) as [Hx1 Hx2] by (rewrite elem_of_cons, elem_of_app in Hx; tauto).
      rewrite Hn', Hp'. by rewrite !decide_False by (intros ->; done).
Qed.

Lemma list_merge_ring h dest ys src xs :
  ring h dest ys -> ring h src xs -> (forall x, x ∈ src :: xs -> x ∉ dest :: ys) ->
  exists h', list_merge (Some dest) (Some src) h = Ok (tt, h') /\ ring h' dest (xs ++ ys) /\
    same_outside (src :: xs ++ dest :: ys) h h'.
Proof.
  intros Hd Hs Hdis. unfold list_merge. erewrite hm_bind_ok by (by apply list_empty_ring).
  case_bool_decide as Hx; [subst xs; exists h; by split_and!|].
  destruct (join_ring h dest [] ys src xs Hd Hs Hx Hdis) as (sh & st & Hn & Hp & ? & ? & ? & ? & ? & Hr & Ho).
  cbn in Hr, Ho. eexists. split; [|by split]. do 2 run_step. rewrite Hn, Hp. run_step. rewrite (ring_next _ _ _ Hd).
  by apply merge_run.
Qed.

Lemma list_merge_tail_ring h dest ys src xs :
  ring h dest ys -> ring h src xs -> (forall x, x ∈ src :: xs -> x ∉ dest :: ys) ->
  exists h', list_merge_tail (Some dest) (Some src) h = Ok (tt, h') /\ ring h' dest (ys ++ xs) /\
    same_outside (src :: xs ++ dest :: ys) h h'.
Proof.
  intros Hd Hs Hdis. unfold list_merge_tail. erewrite hm_bind_ok by (by apply list_empty_ring).
  case_bool_decide as Hx; [subst xs; exists h; rewrite app_nil_r; by split_and!|].
  assert (ring h dest (ys ++ [])) as Hd' by (by rewrite app_nil_r).
  destruct (join_ring h dest ys [] src xs Hd' Hs Hx) as (sh & st & Hn & Hp & ? & ? & ? & ? & ? & Hr & Ho);
    [by rewrite app_nil_r|]. cbn in Hr, Ho. rewrite app_nil_r in Hr, Ho.
  eexists. split; [|by split]. do 3 run_step. rewrite Hn, Hp, (ring_prev _ _ _ Hd). by apply merge_run.
Qed.

(** [list_splice] writes the same four fields in another order. *)
Lemma list_splice_ring h dest ys src xs :
  ring h dest ys -> ring h src xs -> (forall x, x ∈ src :: xs -> x ∉ dest :: ys) ->
  exists h', list_splice (Some src) (Some dest) h = Ok (tt, h') /\ ring h' dest (xs ++ ys) /\
    same_outside (src :: xs ++ dest :: ys) h h'.
Proof.
  intros Hd Hs Hdis. unfold list_splice. erewrite hm_bind_ok by (by apply list_empty_ring).
  case_bool_decide as Hx; [subst xs; exists h; by split_and!|].
  destruct (join_ring h dest [] ys src xs Hd Hs Hx Hdis) as (sh & st & Hn & Hp & ? & ? & ? & ? & ? & Hr & Ho).
  cbn in Hr, Ho. change (before dest []) with dest in *.
  exists (upd_prev (after dest ys) (Some st) (upd_next st (Some (after dest ys)) (upd_next dest (Some sh) (upd_prev sh (Some dest) h)))).
  assert (upd_next dest (Some sh) (upd_prev sh (Some dest) h) = upd_prev sh (Some dest) (upd_next dest (Some sh) h)) as Hcomm.
  { unfold upd_next, upd_prev. destruct (decide (dest = sh)) as [->|]; [|by rewrite alter_alter_ne].
    by rewrite !alter_alter_eq. }
  rewrite Hcomm. fold (join_heap dest sh st (after dest ys) h). split; [|by split].
  unfold __list_splice. do 3 run_step. rewrite Hn, Hp, (ring_next _ _ _ Hd).
  do 3 run_step. rewrite set_prev_ok by exists_tac. unfold join_heap. by rewrite Hcomm.
Qed.

(** [list_replace] puts [el] in the place of [old]. *)
Lemma list_replace_ring h head l1 old l2 el :
  ring h head (l1 ++ old :: l2) -> exists_in h el -> el ∉ head :: l1 ++ old :: l2 ->
  exists h', list_replace (Some old) (Some el) h = Ok (tt, h') /\ ring h' head (l1 ++ el :: l2) /\
    same_outside (el :: head :: l1 ++ l2) h h'.
Proof.
  intros Hr He Hel. pose proof (ring_at _ _ _ _ _ Hr) as (_ & _ & Hd & Hold & [Hp1 Hp2] & [Hn1 Hn2]).
  assert (exists_in h old) as Ho by (eapply ring_exists; [done|]; right; apply elem_of_app; right; by left).
  assert (el <> old) as Hne by (intros ->; apply Hel; right; apply elem_of_app; right; by left).
  assert (el ∉ head :: l1 ++ l2) as Hel'.
  { intros Hin. apply Hel. revert Hin. rewrite !elem_of_cons, !elem_of_app, elem_of_cons. tauto. }
  destruct (ring_delete _ _ _ _ _ Hr) as (h1 & Hrun & Hr1 & (Hdom & _ & Hs1) & _).
  destruct (ring_insert h1 head l1 l2 el Hr1 (proj1 (Hdom el) He) Hel') as (_ & Hr2 & _).
  destruct (link_exists _ _ _ (conj Hp1 Hp2)) as [Hpe _], (link_exists _ _ _ (conj Hn1 Hn2)) as [_ Hne'].
  rewrite (list_del_run h old (before head l1) (after head l2)) in Hrun by done. injection Hrun as <-.
  set (p := before head l1) in *. set (n := after head l2) in *.
  exists (upd_next p (Some el) (upd_prev el (Some p) (upd_prev n (Some el) (upd_next el (Some n) h)))).
  assert (p ∈ head :: l1 ++ l2) as Hpin by (rewrite app_comm_cons; apply elem_of_app; left; apply before_in).
  assert (n ∈ head :: l1 ++ l2) as Hnin.
  { pose proof (after_in head l2) as Hin. fold n in Hin. rewrite elem_of_app, list_elem_of_singleton in Hin.
    rewrite elem_of_cons, elem_of_app. tauto. }
  assert (el <> p /\ el <> n) as [Hep Hen] by (split; by intros ->).
  split_and!.
  - unfold list_replace. do 2 run_step. rewrite Hn1. run_step. heap_simpl. rewrite decide_True by done.
    run_step. run_step. heap_simpl. rewrite Hp2. rewrite decide_False by (intros ->; done).
    run_step. run_step. heap_simpl. rewrite decide_True by done. by rewrite set_next_ok by exists_tac.
  - eapply ring_frame; [exact Hr2|]. intros x Hx.
    assert (x <> old) by (intros ->; revert Hx Hold; rewrite !elem_of_cons, !elem_of_app, elem_of_cons; intuition congruence).
    rewrite nxt_add, prv_add, nxt_del, prv_del by (done || unfold del_heap; autorewrite with heap; done).
    heap_simpl. repeat case_decide; subst; try done.
  - split_and!.
    + intros x. by autorewrite with heap.
    + intros x. by autorewrite with heap.
    + intros x Hx. heap_simpl. apply not_elem_of_cons in Hx as [? Hx]. by rewrite !decide_False by (intros ->; done).
Qed.

(** The [next] links along [l], the last one to [z]. *)
Fixpoint nlinks h l (z : loc) : Prop :=
  match l with
  | [] => True
  | a :: t => nxt h a = Some (List.hd z t) /\ nlinks h t z
  end.

Lemma nlinks_chain h l z : chain h (l ++ [z]) -> nlinks h l z.
Proof.
  induction l as [|a l IH]; [done|]. destruct l as [|b l]; cbn [app].
  - intros [[Hn _] _]. done.
  - intros [[Hn _] Hc]. split; [done|]. by apply IH.
Qed.

Lemma nlinks_frame h h' l z : nlinks h l z -> (forall x, x ∈ l -> nxt h' x = nxt h x) -> nlinks h' l z.
Proof.
  induction l as [|a l IH]; [done|]. intros [Hn Hl] Hx. split.
  - rewrite Hx; [done|by left].
  - apply IH; [done|]. intros x Hin. apply Hx. by right.
Qed.

Lemma ring_nlinks h head xs : ring h head xs -> nlinks h xs head.
Proof.
  intros [Hc _]. apply nlinks_chain. destruct (chain_parts h [head] _ Hc) as [_ ?]. done.
Qed.

Lemma reverse_loop_ring head z rest : forall fuel h acc prev0,
  (length rest <= fuel)%nat -> rest <> [] -> List.last rest prev0 = prev0 ->
  ring h head acc -> nlinks h rest z -> NoDup (rest ++ head :: acc) ->
  exists h', reverse_loop fuel (Some (List.hd z rest)) (Some prev0) (Some head) h = Ok (tt, h') /\
    ring h' head (reverse rest ++ acc) /\ same_outside (rest ++ head :: acc) h h'.
Proof.
  induction rest as [|p rest IH]; intros [|fuel] h acc prev0 Hf Hne Hlast Hr Hl Hd; cbn in Hf; try done; try lia.
  destruct Hl as [Hpn Hl]. cbn [app] in Hd. apply NoDup_cons in Hd as [Hp Hd].
  assert (exists_in h p) as Hpe by (unfold nxt in Hpn; unfold exists_in; destruct (h !! p); [eauto|done]).
  assert (p ∉ head :: acc) as Hpa by (intros Hin; apply Hp; apply elem_of_app; by right).
  cbn [List.hd reverse_loop]. run_step. rewrite Hpn.
  destruct (list_add_ring h head acc p Hr Hpe Hpa) as (h1 & Hrun & Hr1 & Hs1). unfold list_add in Hrun.
  pose proof (ring_exists _ _ _ head Hr ltac:(by left)) as Hh.
  erewrite hm_bind_ok in Hrun by (by apply get_next_ok). run_step. erewrite hm_bind_ok by exact Hrun.
  destruct rest as [|q rest].
  - cbn in Hlast. subst prev0. rewrite bool_decide_true by done. exists h1. by split_and!.
  - assert (p <> prev0) as Hpp.
    { intros ->. apply Hp. apply elem_of_app. left. cbn in Hlast.
      destruct (exists_last (l := q :: rest)) as (X & y & HX); [done|].
      change (List.last (q :: rest) prev0 = prev0) in Hlast. rewrite HX in *. rewrite last_last in Hlast.
      subst y. apply elem_of_app. right. by left. }
    rewrite bool_decide_false by congruence.
    destruct (IH fuel h1 (p :: acc) prev0) as (h2 & Hrun2 & Hr2 & Hs2); try done.
    + cbn in Hf |- *. lia.
    + eapply nlinks_frame; [exact Hl|]. intros x Hx. apply Hs1. intros [->|Hin]%elem_of_cons.
      * apply Hp. apply elem_of_app. by left.
      * apply NoDup_app in Hd as (_ & Hd & _). by apply (Hd x).
    + assert (((q :: rest) ++ head :: p :: acc) ≡ₚ (p :: (q :: rest) ++ head :: acc)) as ->.
      { rewrite (Permutation_swap p head acc). by rewrite <-Permutation_middle. }
      by apply NoDup_cons.
    + exists h2. split_and!; [exact Hrun2|by rewrite (reverse_cons (q :: rest) p), <-app_assoc|].
      destruct Hs1 as (Ha1 & Hb1 & Hc1), Hs2 as (Ha2 & Hb2 & Hc2). split_and!.
      * intros x. by rewrite Ha1.
      * intros x. by rewrite Hb2, Hb1.
      * intros x Hx. rewrite not_elem_of_app, !not_elem_of_cons in Hx.
        destruct (Hc2 x) as [-> ->]; [rewrite not_elem_of_app, !not_elem_of_cons; tauto|].
        apply Hc1. rewrite !not_elem_of_cons. tauto.
Qed.

Lemma ring_size h head xs : ring h head xs -> (S (length xs) <= size h)%nat.
Proof.
  intros Hr. rewrite <-size_dom. assert (NoDup (head :: xs)) as Hd by apply Hr.
  change (S (length xs)) with (length (head :: xs)). rewrite <-(size_list_to_set (C := gset loc)) by done.
  apply subseteq_size. intros x Hx. apply elem_of_list_to_set in Hx. apply elem_of_dom.
  by apply (ring_exists _ _ _ _ Hr).
Qed.

Lemma list_reverse_ring h head xs : ring h head xs ->
  exists h', list_reverse (Some head) h = Ok (tt, h') /\ ring h' head (reverse xs) /\ same_outside (head :: xs) h h'.
Proof.
  intros Hr. unfold list_reverse. erewrite hm_bind_ok by (by apply list_empty_ring).
  case_bool_decide as Hx; [subst xs; exists h; by split_and!|].
  destruct (ring_ends h head xs Hr Hx) as (sh & X & st & Y & Hsh & Hst & Hn & Hp & Hc).
  assert (sh ∈ xs) as Hshin by (rewrite Hsh; by left).
  assert (st ∈ xs) as Hstin by (rewrite Hst; apply elem_of_app; right; by left).
  pose proof (ring_exists _ _ _ sh Hr ltac:(by right)) as Hse. pose proof (ring_exists _ _ _ st Hr ltac:(by right)) as Hte.
  pose proof (ring_exists _ _ _ head Hr ltac:(by left)) as Hhe.
  pose proof (ring_nlinks _ _ _ Hr) as Hl. destruct Hr as [Hch Hnd].
  pose proof (ring_size h head xs (conj Hch Hnd)) as Hsz.
  unfold __list_reverse. do 2 run_step. rewrite Hn, Hp. erewrite hm_bind_ok by (by apply (list_del_run h head st sh)).
  set (h1 := del_heap head st sh h). assert (forall x, exists_in h1 x <-> exists_in h x) as He1
    by (intros x; unfold h1, del_heap; by autorewrite with heap).
  assert (exists_in h1 head) as Hh1 by (by apply He1).
  unfold init_list_head. erewrite hm_bind_ok; [|erewrite hm_bind_ok by (by apply set_prev_ok); apply set_next_ok; exists_tac].
  set (h2 := upd_next head (Some head) (upd_prev head (Some head) h1)).
  unfold ring_fuel at 1. erewrite hm_bind_ok by reflexivity.
  apply NoDup_cons in Hnd as [Hhx Hnd].
  assert (forall x, x ∈ xs -> x <> head) as Hxh by (intros x Hin ->; done).
  assert (ring h2 head []) as Hr2.
  { split; [|by apply NoDup_singleton]. split; [|done]. unfold link, h2. heap_simpl. by rewrite !decide_True. }
  destruct (reverse_loop_ring head sh xs (S (size h2)) h2 [] st) as (h3 & Hrun & Hr3 & Hs3).
  - replace (size h2) with (size h); [lia|]. rewrite <-!size_dom. f_equal. apply set_eq. intros x.
    rewrite !elem_of_dom. change (exists_in h x <-> exists_in h2 x). unfold h2. autorewrite with heap. by rewrite He1.
  - done.
  - rewrite Hst. by apply last_last.
  - done.
  - clear Hl. rewrite Hst in Hc. assert (nlinks h2 (X ++ [st]) sh) as Hgoal; [|by rewrite Hst].
    assert (forall x, x ∈ xs -> nxt h2 x = if decide (x = st) then Some sh else nxt h x) as Hnx.
    { intros x Hin. unfold h2. heap_simpl. rewrite decide_False by auto. unfold h1. rewrite nxt_del by done.
      by rewrite decide_False by auto. }
    rewrite Hst in Hnx, Hnd. clear -Hc Hnx Hnd. induction X as [|a X IH].
    + split; [|done]. rewrite Hnx by by left. by rewrite decide_True.
    + cbn [app] in *. apply NoDup_cons in Hnd as [Ha Hnd]. split.
      * rewrite Hnx by by left. rewrite decide_False.
        -- destruct X; cbn in *; apply Hc.
        -- intros ->. apply Ha, elem_of_app. right. by left.
      * apply IH; [done|by destruct X; cbn in *; apply Hc|]. intros x Hx. apply Hnx. by right.
  - apply NoDup_app. split_and!; [done| |by apply NoDup_singleton]. intros x Hin ->%list_elem_of_singleton. done.
  - rewrite app_nil_r in Hr3. exists h3. split_and!; [by rewrite <-Hrun, Hsh|done|].
    destruct Hs3 as (Ha & Hb & Hc3). split_and!.
    + intros x. rewrite <-Ha. unfold h2. autorewrite with heap. by rewrite He1.
    + intros x. rewrite Hb. unfold h2, h1, del_heap. by autorewrite with heap.
    + intros x Hx'. apply not_elem_of_cons in Hx' as [Hx1 Hx2]. destruct (Hc3 x) as [-> ->].
      { rewrite not_elem_of_app, not_elem_of_cons. split_and!; [done|done|apply not_elem_of_nil]. }
      unfold h2. heap_simpl. rewrite !decide_False by done. unfold h1. rewrite nxt_del, prv_del by done.
      by rewrite !decide_False by (done || intros ->; done).
Qed.
End Rings.
