(* ===== verification/LinkedListApi.v ===== *)
(** * The class LinkedList refines a list

    Iteration over a ring in the presence of callbacks that change the
    heap, and the class [LinkedList]: any program over any number of
    lists sees what it would see with plain lists of values. *)

From S2P Require Import Prelude LinkedList LinkedListProps.

(* ------------------------------------------------------------------ *)
(** ** Iteration *)

Section Iterate.
Context {V B : Type}.
Implicit Types (h : heap V) (a head : loc) (rem xs : list loc).
Variables (step : option loc -> HM V (option loc)) (fld : heap V -> loc -> option loc).
Hypothesis step_ok : forall h a, exists_in h a -> step (Some a) h = Ok (fld h a, h).
Variables (f : B -> option loc -> HM V B) (head : loc).

(** [Inv acc rem h]: the cells [rem] are still to come. *)
Variable Inv : B -> list loc -> heap V -> Prop.
Hypothesis inv_cell : forall acc a rem h, Inv acc (a :: rem) h ->
  a <> head /\ exists_in h a /\ fld h a = Some (List.hd head rem).
Hypothesis inv_head : forall acc rem h, Inv acc rem h -> exists_in h head.

Lemma hd_exists acc rem h : Inv acc rem h -> exists_in h (List.hd head rem).
Proof. intros Hi. destruct rem as [|a rem]; [by eapply inv_head|]. by apply (inv_cell acc a rem h). Qed.

(** A callback may do anything that keeps the invariant: the safe
    generators read one cell ahead. *)
Lemma for_each_safe_spec :
  (forall acc a rem h, Inv acc (a :: rem) h ->
    exists acc' h', f acc (Some a) h = Ok (acc', h') /\ Inv acc' rem h') ->
  forall fuel acc rem el1 h, (length rem < fuel)%nat -> Inv acc rem h ->
  match rem with a :: rem' => el1 = Some (List.hd head rem') | [] => True end ->
  exists acc' h', for_each_safe_loop fuel step f (Some (List.hd head rem)) el1 (Some head) acc h = Ok (acc', h') /\
    Inv acc' [] h'.
Proof.
  intros Hf fuel. induction fuel as [|fuel IH]; intros acc rem el1 h Hl Hi Hel; [lia|]. cbn [for_each_safe_loop].
  destruct rem as [|a rem]; cbn [List.hd].
  - rewrite bool_decide_true by done. by exists acc, h.
  - destruct (inv_cell _ _ _ _ Hi) as (Ha & _). rewrite bool_decide_false by congruence.
    destruct (Hf _ _ _ _ Hi) as (acc' & h' & Hrun & Hi'). erewrite hm_bind_ok by exact Hrun.
    subst el1. pose proof (hd_exists _ _ _ Hi') as Hh. erewrite hm_bind_ok by (by apply step_ok).
    apply IH; [cbn in Hl; lia|done|]. destruct rem as [|b rem]; [done|]. by apply inv_cell in Hi' as (_ & _ & ?).
Qed.

(** The plain generators read the link of the cell after the callback. *)
Lemma for_each_spec :
  (forall acc a rem h, Inv acc (a :: rem) h ->
    exists acc' h', f acc (Some a) h = Ok (acc', h') /\ Inv acc' rem h' /\
      exists_in h' a /\ fld h' a = Some (List.hd head rem)) ->
  forall fuel acc rem h, (length rem < fuel)%nat -> Inv acc rem h ->
  exists acc' h', for_each_loop fuel step f (Some (List.hd head rem)) (Some head) acc h = Ok (acc', h') /\
    Inv acc' [] h'.
Proof.
  intros Hf fuel. induction fuel as [|fuel IH]; intros acc rem h Hl Hi; [lia|]. cbn [for_each_loop].
  destruct rem as [|a rem]; cbn [List.hd].
  - rewrite bool_decide_true by done. by exists acc, h.
  - destruct (inv_cell _ _ _ _ Hi) as (Ha & _). rewrite bool_decide_false by congruence.
    destruct (Hf _ _ _ _ Hi) as (acc' & h' & Hrun & Hi' & Hx & Hn). erewrite hm_bind_ok by exact Hrun.
    erewrite hm_bind_ok by (by apply step_ok). rewrite Hn. apply IH; [cbn in Hl; lia|done].
Qed.
End Iterate.

Section Visits.
Context {V : Type}.
Implicit Types (h : heap V) (head : loc) (xs : list loc).

(** The callback that lists what it is given. *)
Definition collect (acc : list (option loc)) (el : option loc) : HM V (list (option loc)) := mret (acc ++ [el]).
(** The callback that deletes what it is given. *)
Definition collect_delete (acc : list (option loc)) (el : option loc) : HM V (list (option loc)) :=
  list_del el ;; mret (acc ++ [el]).

Definition prev_links h xs head : Prop := forall l1 a l2, xs = l1 ++ a :: l2 -> prv h a = Some (before head l1).

Lemma ring_prev_links h head xs : ring h head xs -> prev_links h xs head.
Proof.
  intros Hr l1 a l2 ->. apply ring_cut in Hr as (_ & [_ Hp] & _). exact Hp.
Qed.

Lemma ring_not_head h head xs a : ring h head xs -> a ∈ xs -> a <> head.
Proof. intros [_ Hd] Ha ->. by apply NoDup_cons in Hd as [? _]. Qed.

Lemma hd_reverse xs head : List.hd head (reverse xs) = List.last xs head.
Proof.
  destruct xs as [|x xs]; [done|]. destruct (exists_last (l := x :: xs)) as (X & y & HX); [done|].
  rewrite HX, reverse_app, last_last. done.
Qed.

(** The next cell of an element of a ring, going forward or backward. *)
Lemma ring_forward h head xs l1 a l2 : ring h head xs -> xs = l1 ++ a :: l2 ->
  a <> head /\ exists_in h a /\ nxt h a = Some (List.hd head l2).
Proof.
  intros Hr ->. assert (a ∈ l1 ++ a :: l2) as Ha by (apply elem_of_app; right; by left).
  split_and!; [by eapply ring_not_head|eapply ring_exists; [done|by right]|].
  destruct (ring_at _ _ _ _ _ Hr) as (_ & _ & _ & _ & _ & [Hn _]). exact Hn.
Qed.

Lemma ring_backward h head xs l1 a l2 : ring h head xs -> reverse xs = l1 ++ a :: l2 ->
  a <> head /\ exists_in h a /\ prv h a = Some (List.hd head l2).
Proof.
  intros Hr Hx. apply (f_equal reverse) in Hx. rewrite reverse_involutive, reverse_app, reverse_cons, <-app_assoc in Hx.
  cbn in Hx. assert (a ∈ xs) as Ha by (rewrite Hx; apply elem_of_app; right; by left).
  split_and!; [by eapply ring_not_head|eapply ring_exists; [done|by right]|].
  rewrite (ring_prev_links _ _ _ Hr _ _ _ Hx). unfold before. f_equal.
  rewrite <-(reverse_involutive l2) at 2. by rewrite hd_reverse.
Qed.

(** What a walk along [fld] through [all] needs of the heap. *)
Definition walk h head (fld : heap V -> loc -> option loc) (all : list loc) : Prop :=
  exists_in h head /\ fld h head = Some (List.hd head all) /\
  forall l1 a l2, all = l1 ++ a :: l2 -> a <> head /\ exists_in h a /\ fld h a = Some (List.hd head l2).

Lemma walk_forward h head xs : ring h head xs -> walk h head nxt xs.
Proof.
  intros Hr. split_and!; [by eapply ring_exists; [|left]|by apply ring_next|by intros; eapply ring_forward].
Qed.

Lemma walk_backward h head xs : ring h head xs -> walk h head prv (reverse xs).
Proof.
  intros Hr. split_and!; [by eapply ring_exists; [|left]|rewrite (ring_prev _ _ _ Hr)|by intros; eapply ring_backward].
  by rewrite hd_reverse.
Qed.

Definition seen_inv h head (all : list loc) (acc : list (option loc)) (rem : list loc) h' : Prop :=
  h' = h /\ exists l1, all = l1 ++ rem /\ acc = Some <$> l1.

Lemma seen_step h head all acc a rem h' : seen_inv h head all acc (a :: rem) h' ->
  collect acc (Some a) h' = Ok (acc ++ [Some a], h) /\ seen_inv h head all (acc ++ [Some a]) rem h.
Proof.
  intros (-> & l1 & -> & ->). split; [done|]. split; [done|]. exists (l1 ++ [a]).
  rewrite <-app_assoc, fmap_app. done.
Qed.

Lemma seen_end h head all acc h' : seen_inv h head all acc [] h' -> acc = Some <$> all /\ h' = h.
Proof. intros (-> & l1 & -> & ->). by rewrite app_nil_r. Qed.

Lemma walk_collect step fld h head all fuel :
  (forall h a, exists_in h a -> step (Some a) h = Ok (fld h a, h)) ->
  walk h head fld all -> (length all < fuel)%nat ->
  (el ← step (Some head); for_each_loop fuel step collect el (Some head) []) h = Ok (Some <$> all, h) /\
  (el ← step (Some head); el1 ← step el; for_each_safe_loop fuel step collect el el1 (Some head) []) h =
    Ok (Some <$> all, h).
Proof.
  intros Hstep (Hh & Hfirst & Hall) Hf.
  assert (forall acc a rem h', seen_inv h head all acc (a :: rem) h' ->
    a <> head /\ exists_in h' a /\ fld h' a = Some (List.hd head rem)) as Hcell.
  { intros acc a rem h' (-> & l1 & Heq & _). by apply (Hall l1). }
  assert (forall acc rem h', seen_inv h head all acc rem h' -> exists_in h' head) as Hhead by (by intros ??? [-> _]).
  assert (seen_inv h head all [] all h) as H0 by (split; [done|by exists []]).
  erewrite !hm_bind_ok by (by apply Hstep). rewrite Hfirst. split.
  - destruct (for_each_spec step fld Hstep collect head (seen_inv h head all) Hcell) with (fuel := fuel)
      (acc := @nil (option loc)) (rem := all) (h := h) as (acc & h' & Hrun & Hi); try done.
    + intros acc a rem h' Hi. destruct (seen_step _ _ _ _ _ _ _ Hi) as [Hrun Hi']. destruct (Hcell _ _ _ _ Hi) as (_ & ? & ?).
      destruct Hi as [-> _]. by exists (acc ++ [Some a]), h.
    + rewrite Hrun. by destruct (seen_end _ _ _ _ _ Hi) as [-> ->].
  - assert (exists_in h (List.hd head all)) as Hx by (by eapply hd_exists).
    erewrite hm_bind_ok by (by apply Hstep).
    destruct (for_each_safe_spec step fld Hstep collect head (seen_inv h head all) Hcell Hhead) with (fuel := fuel)
      (acc := @nil (option loc)) (rem := all) (h := h) (el1 := fld h (List.hd head all)) as (acc & h' & Hrun & Hi); try done.
    + intros acc a rem h' Hi. destruct (seen_step _ _ _ _ _ _ _ Hi) as [Hrun Hi']. by exists (acc ++ [Some a]), h.
    + destruct all as [|a all']; [done|]. by destruct (Hcell [] a all' h H0) as (_ & _ & ?).
    + rewrite Hrun. by destruct (seen_end _ _ _ _ _ Hi) as [-> ->].
Qed.

Definition kept_inv (head : loc) xs (acc : list (option loc)) (rem : list loc) h' : Prop :=
  ring h' head rem /\ exists l1, xs = l1 ++ rem /\ acc = Some <$> l1.

Lemma walk_delete h head xs fuel : ring h head xs -> (length xs < fuel)%nat ->
  exists h', list_for_each_safe fuel collect_delete [] (Some head) h = Ok (Some <$> xs, h') /\ ring h' head [].
Proof.
  intros Hr Hf. assert (forall acc a rem h', kept_inv head xs acc (a :: rem) h' ->
    a <> head /\ exists_in h' a /\ nxt h' a = Some (List.hd head rem)) as Hcell.
  { intros acc a rem h' [Hr' _]. by eapply (ring_forward h' head (a :: rem) []). }
  assert (forall acc rem h', kept_inv head xs acc rem h' -> exists_in h' head) as Hhead
    by (intros acc rem h' [Hr' _]; by eapply ring_exists; [|left]).
  assert (kept_inv head xs [] xs h) as H0 by (split; [done|by exists []]).
  assert (exists_in h (List.hd head xs)) as Hx by (by eapply hd_exists).
  destruct (for_each_safe_spec get_next nxt get_next_ok collect_delete head (kept_inv head xs) Hcell Hhead)
    with (fuel := fuel) (acc := @nil (option loc)) (rem := xs) (h := h) (el1 := nxt h (List.hd head xs))
    as (acc & h' & Hrun & Hi); try done.
  - intros acc a rem h' (Hr' & l1 & -> & ->). destruct (ring_delete h' head [] a rem Hr') as (h2 & Hdel & Hr2 & _).
    exists ((Some <$> l1) ++ [Some a]), h2. split; [unfold collect_delete; by erewrite hm_bind_ok by exact Hdel|].
    split; [done|]. exists (l1 ++ [a]). rewrite <-app_assoc, fmap_app. done.
  - destruct xs as [|a xs']; [done|]. by destruct (Hcell [] a xs' h H0) as (_ & _ & ?).
  - destruct Hi as (Hr' & l1 & Heq & ->). rewrite app_nil_r in Heq. subst l1. exists h'. split; [|done].
    unfold list_for_each_safe. erewrite hm_bind_ok by (apply get_next_ok; by eapply Hhead).
    rewrite (ring_next _ _ _ Hr). erewrite hm_bind_ok by (by apply get_next_ok). exact Hrun.
Qed.

(** the four generators visit the cells of a ring each once, forward
    or backward, when the callback leaves the links alone; the safe one
    also when the callback deletes the cell it is given, which ends with
    the empty list. *)
Theorem list_generators h head xs fuel : ring h head xs -> (length xs < fuel)%nat ->
  list_for_each fuel collect [] (Some head) h = Ok (Some <$> xs, h) /\
  list_for_each_safe fuel collect [] (Some head) h = Ok (Some <$> xs, h) /\
  list_for_each_prev fuel collect [] (Some head) h = Ok (Some <$> reverse xs, h) /\
  list_for_each_prev_safe fuel collect [] (Some head) h = Ok (Some <$> reverse xs, h) /\
  exists h', list_for_each_safe fuel collect_delete [] (Some head) h = Ok (Some <$> xs, h') /\ ring h' head [].
Proof.
  intros Hr Hf. destruct (walk_collect _ _ h head xs fuel get_next_ok (walk_forward _ _ _ Hr) Hf).
  destruct (walk_collect _ _ h head (reverse xs) fuel get_prev_ok (walk_backward _ _ _ Hr)); [by rewrite length_reverse|].
  split_and!; try done. by apply walk_delete.
Qed.
End Visits.

(* ------------------------------------------------------------------ *)
(** ** Many lists in one heap *)

Section Store.
Context {V : Type}.
Implicit Types (h : heap V) (hd : loc) (xs l : list loc) (vs : list V).

Implicit Types (rs : list (loc * list loc)) (r : loc * list loc).

(** A ring is its head and the cells after it. *)
Definition cells r : list loc := r.1 :: r.2.

Definition holds h r vs : Prop := ring h r.1 r.2 /\ dat h <$> r.2 = Some <$> vs.

(** The [i]-th list of values is held by the [i]-th ring, and no cell is
    in two rings. *)
Record store h rs (vss : list (list V)) : Prop := {
  store_length : length rs = length vss;
  store_holds i r vs : rs !! i = Some r -> vss !! i = Some vs -> holds h r vs;
  store_head i r : rs !! i = Some r -> dat h r.1 = None;
  store_disjoint i j r r' x : rs !! i = Some r -> rs !! j = Some r' -> x ∈ cells r -> x ∈ cells r' -> i = j;
}.

(** Nothing but the links of [l] has changed, among what existed. *)
Definition kept l h h' : Prop :=
  forall x, exists_in h x -> exists_in h' x /\ dat h' x = dat h x /\
    (x ∉ l -> nxt h' x = nxt h x /\ prv h' x = prv h x).

Lemma kept_same l h h' : same_outside l h h' -> kept l h h'.
Proof. intros (Hd & Ha & Hs) x Hx. split_and!; [by apply Hd|by apply Ha|by apply Hs]. Qed.

Lemma kept_refl l h : kept l h h.
Proof. by intros x. Qed.

Lemma kept_trans l1 l2 h1 h2 h3 : kept l1 h1 h2 -> kept l2 h2 h3 -> kept (l1 ++ l2) h1 h3.
Proof.
  intros H1 H2 x Hx. destruct (H1 x Hx) as (E1 & D1 & L1), (H2 x E1) as (E2 & D2 & L2).
  split_and!; [done|congruence|]. intros [Hx1 Hx2]%not_elem_of_app.
  destruct (L1 Hx1) as [<- <-], (L2 Hx2). done.
Qed.

Lemma holds_exists h r vs x : holds h r vs -> x ∈ cells r -> exists_in h x.
Proof. intros [Hr _] Hx. by eapply ring_exists. Qed.

Lemma holds_kept l h h' r vs : holds h r vs -> kept l h h' -> (forall x, x ∈ cells r -> x ∉ l) -> holds h' r vs.
Proof.
  intros [Hr Hd] Hk Hl. split.
  - eapply ring_frame; [done|]. intros x Hx. apply (Hk x); [by eapply ring_exists|by apply Hl].
  - rewrite <-Hd. apply list_fmap_ext. intros i x Hx. apply Hk.
    eapply ring_exists; [done|]. right. by apply list_elem_of_lookup_2 in Hx.
Qed.

Lemma store_some h rs vss i r : store h rs vss -> rs !! i = Some r -> exists vs, vss !! i = Some vs /\ holds h r vs.
Proof.
  intros Hs Hi. assert (is_Some (vss !! i)) as [vs Hv].
  { apply lookup_lt_is_Some. rewrite <-(store_length _ _ _ Hs). by eapply lookup_lt_Some. }
  exists vs. split; [done|]. by eapply store_holds.
Qed.

Lemma store_exists h rs vss i r x : store h rs vss -> rs !! i = Some r -> x ∈ cells r -> exists_in h x.
Proof. intros Hs Hi Hx. destruct (store_some _ _ _ _ _ Hs Hi) as (vs & _ & Hh). by eapply holds_exists. Qed.

(** One list changes; its cells stay its own or are new. *)
Lemma store_update h h' rs vss i hd xs xs' vs' l :
  store h rs vss -> rs !! i = Some (hd, xs) -> holds h' (hd, xs') vs' -> kept l h h' ->
  (forall x, x ∈ l -> x ∈ hd :: xs \/ ~ exists_in h x) ->
  (forall x, x ∈ xs' -> x ∈ xs \/ ~ exists_in h x) ->
  store h' (<[i := (hd, xs')]> rs) (<[i := vs']> vss).
Proof.
  intros Hs Hi Hh Hk Hl Hx. assert (i < length rs)%nat as Hlt by (by eapply lookup_lt_Some).
  assert (forall j r x, j <> i -> rs !! j = Some r -> x ∈ cells r -> x ∈ cells (hd, xs') -> False) as Hdis.
  { intros j r x Hj Hr Hin Hin'. assert (x ∈ hd :: xs) as Hin2.
    { apply elem_of_cons in Hin' as [->|Hin']; [by left|]. destruct (Hx x Hin') as [?|Hno]; [by right|].
      destruct Hno. by eapply store_exists. }
    by eapply Hj, (store_disjoint _ _ _ Hs). }
  split.
  - by rewrite !length_insert, (store_length _ _ _ Hs).
  - intros j r vs. destruct (decide (i = j)) as [<-|Hj].
    + rewrite !list_lookup_insert_eq by (done || rewrite <-(store_length _ _ _ Hs); done). by intros [= <-] [= <-].
    + rewrite !list_lookup_insert_ne by done. intros Hr Hv.
      eapply holds_kept; [by eapply store_holds|exact Hk|]. intros x Hin Hxl.
      destruct (Hl x Hxl) as [Hin'|Hno]; [by eapply Hj, (store_disjoint _ _ _ Hs)|].
      destruct Hno. by eapply store_exists.
  - assert (forall j r, rs !! j = Some r -> dat h' r.1 = None) as Hhd.
    { intros j r Hr. rewrite <-(store_head _ _ _ Hs j r Hr). apply Hk. by eapply store_exists; [..|left]. }
    intros j r. destruct (decide (i = j)) as [<-|Hj].
    + rewrite list_lookup_insert_eq by done. intros [= <-]. by apply (Hhd i (hd, xs)).
    + rewrite list_lookup_insert_ne by done. apply Hhd.
  - intros j k r r' x. destruct (decide (i = j)) as [<-|Hj], (decide (i = k)) as [<-|Hk'];
      rewrite ?list_lookup_insert_eq, ?list_lookup_insert_ne by done; try done.
    + intros [= <-] Hr' ??. exfalso. by eapply Hdis.
    + intros Hr [= <-] ??. exfalso. by eapply Hdis.
    + by apply (store_disjoint _ _ _ Hs).
Qed.

(** A new list. *)
Lemma store_snoc h h' rs vss r vs :
  store h rs vss -> holds h' r vs -> dat h' r.1 = None -> kept [] h h' -> (forall x, x ∈ cells r -> ~ exists_in h x) ->
  store h' (rs ++ [r]) (vss ++ [vs]).
Proof.
  intros Hs Hh Hhd Hk Hnew. assert (forall i r', (rs ++ [r]) !! i = Some r' -> (rs !! i = Some r') \/ (i = length rs /\ r' = r)) as Hcase.
  { intros i r' [?|[? Hi]]%lookup_app_Some; [by left|]. right. apply list_lookup_singleton_Some in Hi as [? <-]. split; [lia|done]. }
  split.
  - by rewrite !length_app, (store_length _ _ _ Hs).
  - intros i r' v' [Hr|[-> ->]]%Hcase Hv.
    + rewrite lookup_app_l in Hv by (rewrite <-(store_length _ _ _ Hs); by eapply lookup_lt_Some).
      eapply holds_kept; [by eapply store_holds|exact Hk|]. by intros x _ ?%elem_of_nil.
    + rewrite (store_length _ _ _ Hs), list_lookup_middle in Hv by done. by injection Hv as <-.
  - intros i r' [Hr|[-> ->]]%Hcase; [|done]. rewrite <-(store_head _ _ _ Hs i r' Hr). apply Hk.
    by eapply store_exists; [..|left].
  - intros i j r1 r2 x [H1|[-> ->]]%Hcase [H2|[-> ->]]%Hcase Hx1 Hx2; try done.
    + by eapply (store_disjoint _ _ _ Hs).
    + destruct (Hnew x Hx2). by eapply store_exists.
    + destruct (Hnew x Hx1). by eapply store_exists.
Qed.

(* ------------------------------------------------------------------ *)
(** ** The operations on a stored list *)

Lemma new_cell_spec (d : option V) h : exists a h', new_cell d h = Ok (Some a, h') /\
  ~ exists_in h a /\ exists_in h' a /\ dat h' a = d /\ kept [] h h'.
Proof.
  exists (fresh (dom h)), (<[fresh (dom h) := Cell None None d]> h). split; [done|].
  assert (h !! fresh (dom h) = None) as Hn by (apply not_elem_of_dom, is_fresh). split_and!.
  - unfold exists_in. rewrite Hn. by intros [? ?].
  - unfold exists_in. by rewrite lookup_insert_eq.
  - unfold dat. by rewrite lookup_insert_eq.
  - intros x [c Hx]. assert (x <> fresh (dom h)) by congruence.
    unfold exists_in, dat, nxt, prv. rewrite lookup_insert_ne by done. by eauto.
Qed.

Lemma holds_ring h hd xs vs : holds h (hd, xs) vs -> ring h hd xs.
Proof. by intros [? _]. Qed.

(** The data of the cells of a ring survive. *)
Lemma kept_data l h h' hd xs : ring h hd xs -> kept l h h' -> dat h' <$> xs = dat h <$> xs.
Proof.
  intros Hr Hk. apply list_fmap_ext. intros i x Hx. apply Hk. eapply ring_exists; [done|].
  right. by apply list_elem_of_lookup_2 in Hx.
Qed.

(** What one operation on the list [(hd, xs)] may do. *)
Definition op_result h hd xs (h' : heap V) (xs' : list loc) (vs' : list V) : Prop :=
  holds h' (hd, xs') vs' /\
  exists l, kept l h h' /\ (forall x, x ∈ l -> x ∈ hd :: xs \/ ~ exists_in h x) /\
    (forall x, x ∈ xs' -> x ∈ xs \/ ~ exists_in h x).

Lemma op_result_store h rs vss i hd xs h' xs' vs' :
  store h rs vss -> rs !! i = Some (hd, xs) -> op_result h hd xs h' xs' vs' ->
  store h' (<[i := (hd, xs')]> rs) (<[i := vs']> vss).
Proof. intros Hs Hi (Hh & l & Hk & Hl & Hx). by eapply store_update. Qed.

Lemma op_result_refl h hd xs vs : holds h (hd, xs) vs -> op_result h hd xs h xs vs.
Proof.
  intros Hh. split; [done|]. exists []. split_and!; [apply kept_refl|by intros x ?%elem_of_nil|by left].
Qed.

Lemma op_result_trans h1 h2 h3 hd xs1 xs2 xs3 vs2 vs3 :
  op_result h1 hd xs1 h2 xs2 vs2 -> op_result h2 hd xs2 h3 xs3 vs3 -> op_result h1 hd xs1 h3 xs3 vs3.
Proof.
  intros (_ & l1 & Hk1 & Hl1 & Hx1) (Hh & l2 & Hk2 & Hl2 & Hx2). split; [done|]. exists (l1 ++ l2).
  assert (forall x, ~ exists_in h2 x -> ~ exists_in h1 x) as Hnew by (intros x Hx Hx'; apply Hx; by apply Hk1).
  assert (forall x, x ∈ hd :: xs2 -> x ∈ hd :: xs1 \/ ~ exists_in h1 x) as Hxs.
  { intros x [->|Hx]%elem_of_cons; [left; by left|]. destruct (Hx1 x Hx); [left; by right|by right]. }
  split_and!; [by eapply kept_trans| |].
  - intros x [Hx|Hx]%elem_of_app; [by apply Hl1|]. destruct (Hl2 x Hx) as [?|?]; [by apply Hxs|right; auto].
  - intros x Hx. destruct (Hx2 x Hx) as [?|?]; [by apply Hx1|right; auto].
Qed.

(** [new_cell] and [__list_add] at a place of a ring. *)
Lemma add_new_spec h hd l1 l2 vs1 vs2 (d : V) :
  ring h hd (l1 ++ l2) -> dat h <$> l1 = Some <$> vs1 -> dat h <$> l2 = Some <$> vs2 ->
  exists a h1 h2, new_cell (Some d) h = Ok (Some a, h1) /\ kept [] h h1 /\
    __list_add (Some a) (Some (before hd l1)) (Some (after hd l2)) h1 = Ok (tt, h2) /\
    op_result h hd (l1 ++ l2) h2 (l1 ++ a :: l2) (vs1 ++ d :: vs2) /\
    dat h2 <$> l1 ++ [a] = Some <$> vs1 ++ [d] /\ dat h2 <$> l2 = Some <$> vs2 /\ ~ exists_in h a.
Proof.
  intros Hr H1 H2. destruct (new_cell_spec (Some d) h) as (a & h1 & Hrun & Hna & Ha & Hda & Hk).
  exists a, h1. assert (ring h1 hd (l1 ++ l2)) as Hr1.
  { eapply ring_frame; [done|]. intros x Hx. apply Hk; [by eapply ring_exists|apply not_elem_of_nil]. }
  assert (a ∉ hd :: l1 ++ l2) as Hin by (intros Hin; apply Hna; by eapply ring_exists).
  destruct (ring_insert h1 hd l1 l2 a Hr1 Ha Hin) as (Hrun2 & Hr2 & Hs2).
  set (h2 := add_heap _ _ _ _) in *. exists h2. pose proof (kept_same _ _ _ Hs2) as Hk2.
  pose proof (kept_trans _ _ _ _ _ Hk Hk2) as Hk3. pose proof (kept_data _ _ _ _ _ Hr Hk3) as Hdat.
  rewrite !fmap_app in Hdat. apply app_inj_1 in Hdat as [Hd1 Hd2]; [|by rewrite !length_fmap].
  assert (dat h2 a = Some d) as Hd by (destruct Hs2 as (_ & -> & _); done).
  split_and!; try done; [| |by rewrite Hd2].
  - split; [split; [done|]|].
    + cbn [snd]. rewrite !fmap_app, !fmap_cons, Hd1, Hd2, H1, H2, Hd. done.
    + exists ([] ++ a :: hd :: l1 ++ l2). split_and!; [done| |].
      * cbn. intros x [->|Hx]%elem_of_cons; [by right|by left].
      * intros x. rewrite !elem_of_app, elem_of_cons. intros [?|[->|?]]; [left; tauto|by right|left; tauto].
  - rewrite !fmap_app, Hd1, H1. cbn. by rewrite Hd.
Qed.

(** An operation on the list of [hd] gives [out] and the values [vs']. *)
Definition does {A} (m : HM V A) (out : A) h hd xs (vs' : list V) : Prop :=
  exists h' xs', m h = Ok (out, h') /\ op_result h hd xs h' xs' vs'.

Lemma pushFront_spec h hd xs vs v : holds h (hd, xs) vs -> does (pushFront (Some hd) v) tt h hd xs (v :: vs).
Proof.
  intros [Hr Hd]. cbn [fst snd] in *. destruct (add_new_spec h hd [] xs [] vs v Hr eq_refl Hd)
    as (a & h1 & h2 & Hnew & Hk & Hadd & Hres & _). cbn [app] in *.
  exists h2, (a :: xs). split; [|done]. unfold pushFront. erewrite hm_bind_ok by exact Hnew.
  assert (ring h1 hd xs) as Hr1.
  { eapply ring_frame; [exact Hr|]. intros x Hx. apply Hk; [by eapply ring_exists|apply not_elem_of_nil]. }
  erewrite hm_bind_ok by (apply get_next_ok; by eapply ring_exists; [|left]). by rewrite (ring_next _ _ _ Hr1).
Qed.

Lemma push_tail_run h h1 hd xs a v :
  ring h hd xs -> kept [] h h1 -> new_cell (Some v) h = Ok (Some a, h1) ->
  (el ← new_cell (Some v); p ← get_prev (Some hd); __list_add el p (Some hd)) h =
  __list_add (Some a) (Some (before hd xs)) (Some hd) h1.
Proof.
  intros Hr Hk Hnew. erewrite hm_bind_ok by exact Hnew. assert (ring h1 hd xs) as Hr1.
  { eapply ring_frame; [exact Hr|]. intros x Hx. apply Hk; [by eapply ring_exists|apply not_elem_of_nil]. }
  erewrite hm_bind_ok by (apply get_prev_ok; by eapply ring_exists; [|left]). by rewrite (ring_prev _ _ _ Hr1).
Qed.

Lemma pushBack_spec h hd xs vs v : holds h (hd, xs) vs -> does (pushBack (Some hd) v) tt h hd xs (vs ++ [v]).
Proof.
  intros [Hr Hd]. cbn [fst snd] in *. assert (ring h hd (xs ++ [])) as Hr' by (by rewrite app_nil_r).
  destruct (add_new_spec h hd xs [] vs [] v Hr' Hd eq_refl) as (a & h1 & h2 & Hnew & Hk & Hadd & Hres & _).
  rewrite app_nil_r in Hres. exists h2, (xs ++ [a]). split; [|done]. unfold pushBack.
  by rewrite (push_tail_run h h1 hd xs a v Hr Hk Hnew).
Qed.

Lemma appendRange_spec hd rng : forall h xs vs,
  holds h (hd, xs) vs -> does (appendRange (Some hd) rng) tt h hd xs (vs ++ rng).
Proof.
  induction rng as [|v rng IH]; intros h xs vs Hh.
  { exists h, xs. rewrite app_nil_r. split; [done|]. by apply op_result_refl. }
  destruct (pushBack_spec h hd xs vs v Hh) as (h1 & xs1 & Hrun & Hres).
  destruct (IH h1 xs1 (vs ++ [v]) (proj1 Hres)) as (h2 & xs2 & Hrun2 & Hres2).
  exists h2, xs2. rewrite <-app_assoc in Hres2. split; [|by eapply op_result_trans].
  cbn [appendRange]. unfold pushBack in Hrun. revert Hrun. unfold mbind, hm_bind.
  destruct (new_cell (Some v) h) as [[el ha]|]; [|done]. destruct (get_prev (Some hd) ha) as [[p hb]|]; [|done].
  intros ->. exact Hrun2.
Qed.

Lemma prependRange_loop_spec hd rng : forall h l1 l2 vs1 vs2,
  ring h hd (l1 ++ l2) -> dat h <$> l1 = Some <$> vs1 -> dat h <$> l2 = Some <$> vs2 ->
  does (prependRange_loop (Some (before hd l1)) rng) tt h hd (l1 ++ l2) (vs1 ++ rng ++ vs2).
Proof.
  induction rng as [|v rng IH]; intros h l1 l2 vs1 vs2 Hr H1 H2.
  { exists h, (l1 ++ l2). split; [done|]. apply op_result_refl. split; [done|]. cbn [snd app]. by rewrite !fmap_app, H1, H2. }
  destruct (add_new_spec h hd l1 l2 vs1 vs2 v Hr H1 H2) as (a & h1 & h2 & Hnew & Hk & Hadd & Hres & Hd1 & Hd2 & _).
  assert (ring h2 hd ((l1 ++ [a]) ++ l2)) as Hr2 by (rewrite <-app_assoc; apply Hres).
  destruct (IH h2 (l1 ++ [a]) l2 (vs1 ++ [v]) vs2 Hr2 Hd1 Hd2) as (h3 & xs3 & Hrun3 & Hres3).
  exists h3, xs3. rewrite <-!app_assoc in Hres3. split; [|by eapply op_result_trans].
  cbn [prependRange_loop]. erewrite hm_bind_ok by exact Hnew.
  assert (ring h1 hd (l1 ++ l2)) as Hr1.
  { eapply ring_frame; [exact Hr|]. intros x Hx. apply Hk; [by eapply ring_exists|apply not_elem_of_nil]. }
  apply ring_cut in Hr1 as (_ & [Hn Hp] & _). erewrite hm_bind_ok by (apply get_next_ok; by apply (link_exists _ _ _ (conj Hn Hp))).
  rewrite Hn. erewrite hm_bind_ok by exact Hadd.
  replace (before hd (l1 ++ [a])) with a in Hrun3 by (unfold before; by rewrite last_last). exact Hrun3.
Qed.

Lemma prependRange_spec h hd xs vs rng : holds h (hd, xs) vs -> does (prependRange (Some hd) rng) tt h hd xs (rng ++ vs).
Proof. intros [Hr Hd]. cbn [fst snd] in *. by apply (prependRange_loop_spec hd rng h [] xs [] vs). Qed.

Lemma list_empty_holds h hd xs vs : holds h (hd, xs) vs -> list_empty (Some hd) h = Ok (bool_decide (vs = []), h).
Proof.
  intros [Hr Hd]. cbn [fst snd] in *. rewrite (list_empty_ring _ _ _ Hr). do 2 f_equal. apply bool_decide_ext.
  apply (f_equal length) in Hd. rewrite !length_fmap in Hd. by destruct xs, vs.
Qed.

(** Removing a cell of a ring. *)
Lemma remove_spec h hd l1 a l2 vs1 v vs2 :
  holds h (hd, l1 ++ a :: l2) (vs1 ++ v :: vs2) -> length l1 = length vs1 ->
  exists h', list_del (Some a) h = Ok (tt, h') /\ get_data (Some a) h' = Ok (Some v, h') /\
    op_result h hd (l1 ++ a :: l2) h' (l1 ++ l2) (vs1 ++ vs2).
Proof.
  intros [Hr Hd] Hlen. cbn [fst snd] in *. destruct (ring_delete h hd l1 a l2 Hr) as (h' & Hrun & Hr' & Hs & _).
  exists h'. split; [done|]. pose proof (kept_same _ _ _ Hs) as Hk. pose proof (kept_data _ _ _ _ _ Hr Hk) as Hdat.
  rewrite <-Hdat, !fmap_app, !fmap_cons in Hd. apply app_inj_1 in Hd as [Hd1 Hd2]; [|by rewrite !length_fmap].
  injection Hd2 as Ha Hd2. assert (exists_in h a) as Hae by (eapply ring_exists; [done|]; right; apply elem_of_app; right; by left).
  split.
  - rewrite get_data_ok by (by apply Hk). by rewrite Ha.
  - split; [split; [done|]; cbn; by rewrite !fmap_app, Hd1, Hd2|]. exists (a :: hd :: l1 ++ l2). split_and!; [done| |].
    + intros x. rewrite !elem_of_cons, !elem_of_app, elem_of_cons. tauto.
    + intros x. rewrite !elem_of_app, elem_of_cons. tauto.
Qed.

Lemma popFront_spec h hd xs v vs : holds h (hd, xs) (v :: vs) -> does (popFront (Some hd)) (Some v) h hd xs vs.
Proof.
  intros Hh. pose proof Hh as [Hr Hd]. cbn [fst snd] in *. destruct xs as [|x xs]; [done|].
  destruct (remove_spec h hd [] x xs [] v vs Hh eq_refl) as (h' & Hdel & Hdat & Hres). cbn [app] in Hres.
  exists h', xs. split; [|done]. unfold popFront. erewrite hm_bind_ok by (by apply (list_empty_holds _ _ (x :: xs))).
  rewrite bool_decide_false by done. cbn [negb assert_default]. erewrite hm_bind_ok by reflexivity.
  erewrite hm_bind_ok by (apply get_next_ok; by eapply ring_exists; [|left]). rewrite (ring_next _ _ _ Hr).
  erewrite hm_bind_ok by exact Hdel. exact Hdat.
Qed.

Lemma popBack_spec h hd xs v vs : holds h (hd, xs) (vs ++ [v]) -> does (popBack (Some hd)) (Some v) h hd xs vs.
Proof.
  intros Hh. pose proof Hh as [Hr Hd]. cbn [fst snd] in *. destruct (decide (xs = [])) as [->|Hne].
  { apply (f_equal length) in Hd. rewrite !length_fmap, length_app in Hd. cbn in Hd. lia. }
  destruct (exists_last Hne) as (X & x & ->).
  assert (length X = length vs) as Hlen by (apply (f_equal length) in Hd; rewrite !length_fmap, !length_app in Hd; cbn in Hd; lia).
  destruct (remove_spec h hd X x [] vs v [] Hh Hlen) as (h' & Hdel & Hdat & Hres). rewrite !app_nil_r in Hres.
  exists h', X. split; [|done]. unfold popBack. erewrite hm_bind_ok by (by apply (list_empty_holds _ _ (X ++ [x]))).
  rewrite bool_decide_false by (by destruct vs). cbn [negb assert_default]. erewrite hm_bind_ok by reflexivity.
  erewrite hm_bind_ok by (apply get_prev_ok; by eapply ring_exists; [|left]). rewrite (ring_prev _ _ _ Hr).
  unfold before. rewrite last_last. erewrite hm_bind_ok by exact Hdel. exact Hdat.
Qed.

Lemma pop_empty_spec h hd xs : holds h (hd, xs) [] ->
  popFront (Some hd) h = Throw ErrAssertionError "Assertion failed" /\
  popBack (Some hd) h = Throw ErrAssertionError "Assertion failed".
Proof.
  intros Hh. unfold popFront, popBack. split; erewrite hm_bind_ok by (by apply (list_empty_holds _ _ xs)); done.
Qed.

Lemma ends_spec h hd xs vs : holds h (hd, xs) vs ->
  exists vf vb, ll_front (Some hd) h = Ok (vf, h) /\ ll_back (Some hd) h = Ok (vb, h) /\
    (vs <> [] -> vf = head vs /\ vb = last vs) /\ (vs = [] -> vf = dat h hd /\ vb = dat h hd).
Proof.
  intros [Hr Hd]. cbn [fst snd] in *. pose proof (ring_exists _ _ _ hd Hr ltac:(by left)) as Hh.
  assert (exists_in h (after hd xs)) as Ha.
  { apply (ring_exists _ _ _ _ Hr). pose proof (after_in hd xs) as Hin.
    rewrite elem_of_app, list_elem_of_singleton in Hin. rewrite elem_of_cons. tauto. }
  assert (exists_in h (before hd xs)) as Hb by (apply (ring_exists _ _ _ _ Hr), before_in).
  exists (dat h (after hd xs)), (dat h (before hd xs)). split_and!.
  - unfold ll_front. erewrite hm_bind_ok by (by apply get_next_ok). rewrite (ring_next _ _ _ Hr). by apply get_data_ok.
  - unfold ll_back. erewrite hm_bind_ok by (by apply get_prev_ok). rewrite (ring_prev _ _ _ Hr). by apply get_data_ok.
  - intros Hne. destruct xs as [|x xs]; [by destruct vs|]. split.
    + destruct vs as [|v vs]; [done|]. cbn in *. by injection Hd as -> _.
    + assert (Some <$> last vs = Some (dat h (before hd (x :: xs)))) as Hl.
      { rewrite <-fmap_last, <-Hd, fmap_last. destruct (exists_last (l := x :: xs)) as (X & y & ->); [done|].
        unfold before. by rewrite last_last, last_snoc. }
      destruct (last vs); [by injection Hl as ->|done].
  - intros ->. by destruct xs.
Qed.

Lemma reverse_spec h hd xs vs : holds h (hd, xs) vs -> does (ll_reverse (Some hd)) (Some hd) h hd xs (reverse vs).
Proof.
  intros [Hr Hd]. cbn [fst snd] in *. destruct (list_reverse_ring h hd xs Hr) as (h' & Hrun & Hr' & Hs).
  pose proof (kept_same _ _ _ Hs) as Hk. exists h', (reverse xs). split.
  - unfold ll_reverse. by erewrite hm_bind_ok by exact Hrun.
  - split; [split; [done|]|exists (hd :: xs); split_and!; [done|by left|intros x; rewrite elem_of_reverse; by left]].
    cbn [snd]. rewrite !fmap_reverse. f_equal. by rewrite (kept_data _ _ _ _ _ Hr Hk).
Qed.

Lemma init_spec h : exists a h', LIST_HEAD_INIT None h = Ok (Some a, h') /\ holds h' (a, []) [] /\
  dat h' a = None /\ kept [] h h' /\ ~ exists_in h a.
Proof.
  destruct (new_cell_spec None h) as (a & h1 & Hrun & Hna & Ha & Hd & Hk). exists a.
  exists (upd_prev a (Some a) (upd_next a (Some a) h1)). split_and!; [| | | |done].
  - unfold LIST_HEAD_INIT. erewrite hm_bind_ok by exact Hrun. run_step.
    by erewrite hm_bind_ok by (apply set_prev_ok; exists_tac).
  - split; [|done]. split; [|by apply NoDup_singleton]. split; [|done]. unfold link. heap_simpl. by rewrite !decide_True.
  - by autorewrite with heap.
  - intros x Hx. destruct (Hk x Hx) as (He & Hdx & Hl). assert (x <> a) by (by intros ->).
    autorewrite with heap. split_and!; [done|done|]. intros Hin. heap_simpl. rewrite !decide_False by done. auto.
Qed.

Lemma insert_snoc {A} (l : list A) x y : <[length l := y]> (l ++ [x]) = l ++ [y].
Proof. apply list_insert_snoc. Qed.

Lemma new_spec h rs vss vs : store h rs vss ->
  exists a h' xs, new_LinkedList vs h = Ok (Some a, h') /\ store h' (rs ++ [(a, xs)]) (vss ++ [vs]).
Proof.
  intros Hs. destruct (init_spec h) as (a & h1 & Hinit & Hh & Hd & Hk & Hna).
  assert (store h1 (rs ++ [(a, [])]) (vss ++ [[]])) as Hs1.
  { apply (store_snoc h); try done. by intros x Hx%list_elem_of_singleton; subst x. }
  destruct (appendRange_spec a vs h1 [] [] Hh) as (h2 & xs & Hrun & Hres).
  exists a, h2, xs. split.
  - unfold new_LinkedList. erewrite hm_bind_ok by exact Hinit. by erewrite hm_bind_ok by exact Hrun.
  - pose proof (op_result_store h1 _ _ (length rs) a [] h2 xs vs Hs1 (list_lookup_middle _ [] _ _ eq_refl) Hres) as Hs2.
    rewrite insert_snoc, (store_length _ _ _ Hs), insert_snoc in Hs2. exact Hs2.
Qed.

(** Iteration over a stored list: the callback may change the heap as
    long as this list stays. *)
Lemma iterate_spec {B} (f : B -> option V -> HM V B) (Inv : B -> list V -> heap V -> Prop) hd xs vs fuel h acc :
  (length xs < fuel)%nat -> Inv acc vs h ->
  (forall acc rest h', Inv acc rest h' -> holds h' (hd, xs) vs) ->
  (forall acc v rest h', Inv acc (v :: rest) h' -> exists acc' h'', f acc (Some v) h' = Ok (acc', h'') /\ Inv acc' rest h'') ->
  exists acc' h', ll_iterate fuel f acc (Some hd) h = Ok (acc', h') /\ Inv acc' [] h'.
Proof.
  intros Hf Hi Hholds Hstep.
  set (Inv' := fun acc (rem : list loc) h' => exists l1 vs1 vs2, xs = l1 ++ rem /\ vs = vs1 ++ vs2 /\
    length rem = length vs2 /\ length l1 = length vs1 /\ Inv acc vs2 h').
  assert (forall acc a rem h', Inv' acc (a :: rem) h' -> a <> hd /\ exists_in h' a /\ nxt h' a = Some (List.hd hd rem)) as Hcell.
  { intros acc' a rem h' (l1 & vs1 & vs2 & Hxs & _ & _ & _ & Hi'). destruct (Hholds _ _ _ Hi') as [Hr _].
    by apply (ring_forward h' hd xs l1). }
  assert (forall acc rem h', Inv' acc rem h' -> exists_in h' hd) as Hhead.
  { intros acc' rem h' (l1 & vs1 & vs2 & _ & _ & _ & _ & Hi'). eapply holds_exists; [by apply (Hholds _ _ _ Hi')|left]. }
  destruct (Hholds _ _ _ Hi) as [Hr Hd]. cbn [fst snd] in *.
  assert (Inv' acc xs h) as H0.
  { exists [], [], vs. split_and!; try done. apply (f_equal length) in Hd. by rewrite !length_fmap in Hd. }
  assert (exists_in h (List.hd hd xs)) as Hx by (by eapply hd_exists).
  destruct (for_each_safe_spec get_next nxt get_next_ok (fun acc el => d ← list_entry el; f acc d) hd Inv' Hcell Hhead)
    with (fuel := fuel) (acc := acc) (rem := xs) (h := h) (el1 := nxt h (List.hd hd xs)) as (acc' & h' & Hrun & Hi'); try done.
  - intros acc1 a rem h1 Hi1. pose proof (Hcell _ _ _ _ Hi1) as (_ & Hae & _).
    destruct Hi1 as (l1 & vs1 & [|v vs2] & Hxs & Hvs & Hl2 & Hl1 & Hi1); [done|].
    destruct (Hholds _ _ _ Hi1) as [_ Hd1]. cbn [snd] in Hd1. rewrite Hxs, Hvs, !fmap_app, !fmap_cons in Hd1.
    apply app_inj_1 in Hd1 as [_ Hd1]; [|by rewrite !length_fmap]. injection Hd1 as Hda _.
    destruct (Hstep _ _ _ _ Hi1) as (acc2 & h2 & Hf2 & Hi2). exists acc2, h2. split.
    + erewrite hm_bind_ok by (by apply get_data_ok). by rewrite Hda.
    + exists (l1 ++ [a]), (vs1 ++ [v]), vs2. rewrite <-!app_assoc, !length_app. cbn in *. split_and!; try done; lia.
  - destruct xs as [|a xs']; [done|]. by destruct (Hcell acc a xs' h H0) as (_ & _ & ?).
  - destruct Hi' as (l1 & vs1 & vs2 & _ & _ & Hl & _ & Hi'). destruct vs2; [|done]. exists acc', h'. split; [|done].
    unfold ll_iterate, list_for_each_safe. erewrite hm_bind_ok by (apply get_next_ok; by eapply Hhead).
    rewrite (ring_next _ _ _ Hr). erewrite hm_bind_ok by (by apply get_next_ok). exact Hrun.
Qed.

Lemma clone_spec h rs vss i hd xs vs fuel :
  store h rs vss -> rs !! i = Some (hd, xs) -> vss !! i = Some vs -> (length xs < fuel)%nat ->
  exists a h' ys, ll_clone fuel (Some hd) h = Ok (Some a, h') /\ store h' (rs ++ [(a, ys)]) (vss ++ [vs]).
Proof.
  intros Hs Hi Hv Hf. destruct (init_spec h) as (a & h1 & Hinit & Hh & Hd & Hk & Hna).
  assert (store h1 (rs ++ [(a, [])]) (vss ++ [[]])) as Hs1.
  { apply (store_snoc h); try done. by intros x Hx%list_elem_of_singleton; subst x. }
  set (Inv := fun (_ : unit) rest h' => exists ys vs1, vs = vs1 ++ rest /\ store h' (rs ++ [(a, ys)]) (vss ++ [vs1])).
  destruct (iterate_spec (fun (_ : unit) d => el ← new_cell d; p ← get_prev (Some a); __list_add el p (Some a))
    Inv hd xs vs fuel h1 tt Hf) as ([] & h2 & Hrun & ys & vs1 & Heq & Hs2).
  - by exists [], [].
  - intros acc rest h' (ys & vs1 & _ & Hs'). eapply (store_holds _ _ _ Hs' i); by apply lookup_app_l_Some.
  - intros acc v rest h' (ys & vs1 & Heq & Hs').
    assert (holds h' (a, ys) vs1) as Hh'.
    { eapply (store_holds _ _ _ Hs' (length rs)); [by apply list_lookup_middle|].
      apply list_lookup_middle. by rewrite (store_length _ _ _ Hs). }
    destruct (pushBack_spec h' a ys vs1 v Hh') as (h3 & ys' & Hpush & Hres). exists tt, h3. split; [exact Hpush|].
    exists ys', (vs1 ++ [v]). rewrite <-app_assoc. split; [done|].
    pose proof (op_result_store h' _ _ (length rs) a ys h3 ys' _ Hs' (list_lookup_middle _ [] _ _ eq_refl) Hres) as Hs3.
    rewrite insert_snoc, (store_length _ _ _ Hs), insert_snoc in Hs3. exact Hs3.
  - rewrite app_nil_r in Heq. subst vs1. exists a, h2, ys. split; [|done].
    unfold ll_clone. erewrite hm_bind_ok by exact Hinit. by erewrite hm_bind_ok by exact Hrun.
Qed.

Lemma toArray_spec h hd xs vs fuel : holds h (hd, xs) vs -> (length xs < fuel)%nat ->
  ll_iterate fuel (fun acc d => mret (acc ++ [d])) [] (Some hd) h = Ok (Some <$> vs, h).
Proof.
  intros Hh Hf. set (Inv := fun (acc : list (option V)) rest h' => h' = h /\ exists vs1, vs = vs1 ++ rest /\ acc = Some <$> vs1).
  destruct (iterate_spec (fun (acc : list (option V)) d => mret (acc ++ [d])) Inv hd xs vs fuel h [] Hf)
    as (acc & h' & Hrun & -> & vs1 & Heq & ->).
  - split; [done|by exists []].
  - by intros acc rest h' [-> _].
  - intros acc v rest h' (-> & vs1 & -> & ->). eexists _, h. split; [done|]. split; [done|].
    exists (vs1 ++ [v]). by rewrite <-app_assoc, fmap_app.
  - rewrite app_nil_r in Heq. by subst vs1.
Qed.
End Store.

(* ------------------------------------------------------------------ *)
(** ** Programs over LinkedList objects *)

Section Programs.
Context {V : Type}.

(** What a program does: lists are numbered in order of creation. *)
Inductive ll_op :=
| LNew (vs : list V) | LClone (i : nat)
| LPushFront (i : nat) (v : V) | LPushBack (i : nat) (v : V) | LPopFront (i : nat) | LPopBack (i : nat)
| LPrepend (i : nat) (vs : list V) | LAppend (i : nat) (vs : list V) | LReverse (i : nat)
| LEmpty (i : nat) | LFront (i : nat) | LBack (i : nat) | LToArray (i : nat).

Inductive ll_out :=
| OUnit | OVal (v : option V) | OBool (b : bool) | OList (vs : list (option V))
| OThrow (c : error_class) (msg : string) | ONoList.

(** The state of a program: the heap and its LinkedList objects. *)
Abbreviation ll_state := (heap V * list llist)%type (only parsing).

(** Call a method; an exception reaches the program with the heap as it
    was, since no method throws after its first write. *)
Definition call {A} (m : HM V A) (out : A -> ll_out) (st : ll_state) : ll_out * ll_state :=
  match m st.1 with Ok (a, h') => (out a, (h', st.2)) | Throw c s => (OThrow c s, st) end.

Definition create (m : HM V llist) (st : ll_state) : ll_out * ll_state :=
  match m st.1 with Ok (l, h') => (OUnit, (h', st.2 ++ [l])) | Throw c s => (OThrow c s, st) end.

Definition on_list (i : nat) (st : ll_state) (k : llist -> ll_out * ll_state) : ll_out * ll_state :=
  match st.2 !! i with Some l => k l | None => (ONoList, st) end.

Definition impl_step (op : ll_op) (st : ll_state) : ll_out * ll_state :=
  let fuel := S (size st.1) in
  match op with
  | LNew vs => create (new_LinkedList vs) st
  | LClone i => on_list i st (fun l => create (ll_clone fuel l) st)
  | LPushFront i v => on_list i st (fun l => call (pushFront l v) (fun _ => OUnit) st)
  | LPushBack i v => on_list i st (fun l => call (pushBack l v) (fun _ => OUnit) st)
  | LPopFront i => on_list i st (fun l => call (popFront l) OVal st)
  | LPopBack i => on_list i st (fun l => call (popBack l) OVal st)
  | LPrepend i vs => on_list i st (fun l => call (prependRange l vs) (fun _ => OUnit) st)
  | LAppend i vs => on_list i st (fun l => call (appendRange l vs) (fun _ => OUnit) st)
  | LReverse i => on_list i st (fun l => call (ll_reverse l) (fun _ => OUnit) st)
  | LEmpty i => on_list i st (fun l => call (ll_empty l) OBool st)
  | LFront i => on_list i st (fun l => call (ll_front l) OVal st)
  | LBack i => on_list i st (fun l => call (ll_back l) OVal st)
  | LToArray i => on_list i st (fun l => call (ll_iterate fuel (fun acc d => mret (acc ++ [d])) [] l) OList st)
  end.

(** The specification: plain lists. *)
Definition on_values (i : nat) (vss : list (list V)) (k : list V -> ll_out * list V) : ll_out * list (list V) :=
  match vss !! i with
  | Some vs => let '(out, vs') := k vs in (out, <[i := vs']> vss)
  | None => (ONoList, vss)
  end.

Definition empty_pop : ll_out := OThrow ErrAssertionError "Assertion failed".

Definition spec_step (op : ll_op) (vss : list (list V)) : ll_out * list (list V) :=
  match op with
  | LNew vs => (OUnit, vss ++ [vs])
  | LClone i => match vss !! i with Some vs => (OUnit, vss ++ [vs]) | None => (ONoList, vss) end
  | LPushFront i v => on_values i vss (fun vs => (OUnit, v :: vs))
  | LPushBack i v => on_values i vss (fun vs => (OUnit, vs ++ [v]))
  | LPopFront i => on_values i vss (fun vs => match vs with [] => (empty_pop, vs) | v :: vs' => (OVal (Some v), vs') end)
  | LPopBack i => on_values i vss (fun vs =>
      match last vs with None => (empty_pop, vs) | Some v => (OVal (Some v), take (length vs - 1) vs) end)
  | LPrepend i rng => on_values i vss (fun vs => (OUnit, rng ++ vs))
  | LAppend i rng => on_values i vss (fun vs => (OUnit, vs ++ rng))
  | LReverse i => on_values i vss (fun vs => (OUnit, reverse vs))
  | LEmpty i => on_values i vss (fun vs => (OBool (bool_decide (vs = [])), vs))
  | LFront i => on_values i vss (fun vs => (OVal (head vs), vs))
  | LBack i => on_values i vss (fun vs => (OVal (last vs), vs))
  | LToArray i => on_values i vss (fun vs => (OList (Some <$> vs), vs))
  end.

Fixpoint impl_run (ops : list ll_op) (st : ll_state) : list ll_out :=
  match ops with [] => [] | op :: ops => let '(out, st') := impl_step op st in out :: impl_run ops st' end.
Fixpoint spec_run (ops : list ll_op) (vss : list (list V)) : list ll_out :=
  match ops with [] => [] | op :: ops => let '(out, vss') := spec_step op vss in out :: spec_run ops vss' end.

(** The objects of the program are the rings of a store. *)
Definition simulates (st : ll_state) (vss : list (list V)) : Prop :=
  exists rs, store st.1 rs vss /\ st.2 = (fun r => Some r.1) <$> rs.

Definition step_sim (r : ll_out * ll_state) (r' : ll_out * list (list V)) : Prop :=
  r.1 = r'.1 /\ simulates r.2 r'.2.

(** Methods of one list. *)
Lemma on_list_sim i st vss (kc : llist -> ll_out * ll_state) (ks : list V -> ll_out * list V) rs :
  store st.1 rs vss -> st.2 = (fun r => Some r.1) <$> rs ->
  (forall hd xs vs, rs !! i = Some (hd, xs) -> vss !! i = Some vs -> holds st.1 (hd, xs) vs -> dat st.1 hd = None ->
    (length xs < S (size st.1))%nat ->
    step_sim (kc (Some hd)) (let '(out, vs') := ks vs in (out, <[i := vs']> vss))) ->
  step_sim (on_list i st kc) (on_values i vss ks).
Proof.
  intros Hs Hst Hk. unfold on_list, on_values. rewrite Hst, list_lookup_fmap.
  destruct (rs !! i) as [[hd xs]|] eqn:Hi; cbn.
  - destruct (store_some _ _ _ _ _ Hs Hi) as (vs & Hv & Hh). rewrite Hv. apply (Hk hd xs); try done.
    + by apply (store_head _ _ _ Hs i (hd, xs)).
    + pose proof (ring_size _ _ _ (holds_ring _ _ _ _ Hh)). lia.
  - apply lookup_ge_None in Hi. rewrite (store_length _ _ _ Hs) in Hi. apply lookup_ge_None in Hi. rewrite Hi.
    split; [done|]. by exists rs.
Qed.

Lemma call_sim {A} (m : HM V A) (out : A -> ll_out) (st : ll_state) rs vss i hd xs a vs' o :
  store st.1 rs vss -> st.2 = (fun r => Some r.1) <$> rs -> rs !! i = Some (hd, xs) ->
  does m a st.1 hd xs vs' -> out a = o -> step_sim (call m out st) (o, <[i := vs']> vss).
Proof.
  intros Hs Hst Hi (h' & xs' & Hrun & Hres) Ho. unfold call. rewrite Hrun. split; [done|].
  exists (<[i := (hd, xs')]> rs). split; [by eapply op_result_store|].
  cbn. rewrite Hst, list_fmap_insert. cbn. rewrite list_insert_id; [done|]. by rewrite list_lookup_fmap, Hi.
Qed.

Lemma throw_sim {A} (m : HM V A) (out : A -> ll_out) (st : ll_state) rs vss i vs c s :
  store st.1 rs vss -> st.2 = (fun r => Some r.1) <$> rs -> vss !! i = Some vs ->
  m st.1 = Throw c s -> step_sim (call m out st) (OThrow c s, <[i := vs]> vss).
Proof.
  intros Hs Hst Hv Hrun. unfold call. rewrite Hrun. rewrite list_insert_id by done. split; [done|]. by exists rs.
Qed.

Lemma does_read {A} (m : HM V A) a h hd xs vs : holds h (hd, xs) vs -> m h = Ok (a, h) -> does m a h hd xs vs.
Proof. intros Hh Hm. exists h, xs. split; [done|]. by apply op_result_refl. Qed.

Lemma create_sim (m : HM V llist) (st : ll_state) rs vss vs :
  store st.1 rs vss -> st.2 = (fun r => Some r.1) <$> rs ->
  (exists a h' xs, m st.1 = Ok (Some a, h') /\ store h' (rs ++ [(a, xs)]) (vss ++ [vs])) ->
  step_sim (create m st) (OUnit, vss ++ [vs]).
Proof.
  intros Hs Hst (a & h' & xs & Hrun & Hs'). unfold create. rewrite Hrun. split; [done|].
  exists (rs ++ [(a, xs)]). split; [done|]. cbn. by rewrite Hst, fmap_app.
Qed.

Lemma impl_step_sim op st vss : simulates st vss -> step_sim (impl_step op st) (spec_step op vss).
Proof.
  intros (rs & Hs & Hst). destruct op as [vs|i|i v|i v|i|i|i rng|i rng|i|i|i|i|i]; cbn [impl_step spec_step];
    try (eapply on_list_sim; [exact Hs|exact Hst|]; intros hd xs vs Hi Hv Hh Hd Hlen).
  - eapply create_sim; [exact Hs|exact Hst|]. by apply new_spec.
  - unfold on_list. rewrite Hst, list_lookup_fmap. destruct (rs !! i) as [[hd xs]|] eqn:Hi; cbn [fmap option_fmap option_map fst].
    + destruct (store_some _ _ _ _ _ Hs Hi) as (vs & Hv & Hh). rewrite Hv.
      eapply create_sim; [exact Hs|exact Hst|]. eapply clone_spec; try done.
      pose proof (ring_size _ _ _ (holds_ring _ _ _ _ Hh)). lia.
    + apply lookup_ge_None in Hi. rewrite (store_length _ _ _ Hs) in Hi. apply lookup_ge_None in Hi. rewrite Hi.
      split; [done|]. by exists rs.
  - by eapply call_sim; [..|apply pushFront_spec|].
  - by eapply call_sim; [..|apply pushBack_spec|].
  - destruct vs as [|v vs]; [by eapply throw_sim; [..|apply (pop_empty_spec _ hd xs)]|].
    by eapply call_sim; [..|apply popFront_spec|].
  - destruct (decide (vs = [])) as [->|Hne]; [by eapply throw_sim; [..|apply (pop_empty_spec _ hd xs)]|].
    destruct (exists_last Hne) as (ws & v & ->). rewrite last_snoc, length_app. cbn [length].
    replace (length ws + 1 - 1)%nat with (length ws) by lia. rewrite take_app_length.
    by eapply call_sim; [..|apply popBack_spec|].
  - by eapply call_sim; [..|apply prependRange_spec|].
  - by eapply call_sim; [..|apply appendRange_spec|].
  - by eapply call_sim; [..|apply reverse_spec|].
  - by eapply call_sim; [..|apply does_read; [done|by eapply list_empty_holds]|].
  - destruct (ends_spec _ _ _ _ Hh) as (vf & vb & Hf & _ & Hne & He).
    eapply call_sim; [..|by apply does_read; [|exact Hf]|]; try done. destruct vs.
    + destruct (He eq_refl) as [-> _]. by rewrite Hd.
    + by destruct (Hne ltac:(done)) as [-> _].
  - destruct (ends_spec _ _ _ _ Hh) as (vf & vb & _ & Hf & Hne & He).
    eapply call_sim; [..|by apply does_read; [|exact Hf]|]; try done. destruct vs.
    + destruct (He eq_refl) as [_ ->]. by rewrite Hd.
    + by destruct (Hne ltac:(done)) as [_ ->].
  - by eapply call_sim; [..|apply does_read; [done|by apply (toArray_spec _ _ xs)]|].
Qed.

(** C13: whatever a program does with any number of [LinkedList] objects,
    it sees what it would see with plain lists: the heap of cells with
    its [prev] and [next] links refines a list of lists of values, and
    popping an empty list is the only exception. *)
Theorem linked_lists_refine_lists (ops : list ll_op) : impl_run ops (∅, []) = spec_run ops [].
Proof.
  assert (forall st vss, simulates st vss -> impl_run ops st = spec_run ops vss) as Hall.
  { induction ops as [|op ops IH]; intros st vss Hs; [done|]. cbn [impl_run spec_run].
    pose proof (impl_step_sim op st vss Hs) as [Hout Hs'].
    destruct (impl_step op st) as [out st'], (spec_step op vss) as [out' vss']. cbn in Hout, Hs'.
    rewrite Hout. f_equal. by apply IH. }
  apply Hall. exists []. split; [|done]. by split.
Qed.
End Programs.

(* ------------------------------------------------------------------ *)
(** ** Moving and joining *)

Section Moves.
Context {V : Type}.
Implicit Types (h : heap V) (src dest el : loc) (xs ys : list loc).

(** [list_splice] and [list_merge] put the elements of [src] before
    those of [dest], [list_merge_tail] after them, each with four writes;
    nothing outside the two lists changes. *)
Theorem list_joins h dest ys src xs :
  ring h dest ys -> ring h src xs -> (forall x, x ∈ src :: xs -> x ∉ dest :: ys) ->
  (exists h', list_splice (Some src) (Some dest) h = Ok (tt, h') /\ ring h' dest (xs ++ ys) /\
    same_outside (src :: xs ++ dest :: ys) h h') /\
  (exists h', list_merge (Some dest) (Some src) h = Ok (tt, h') /\ ring h' dest (xs ++ ys) /\
    same_outside (src :: xs ++ dest :: ys) h h') /\
  (exists h', list_merge_tail (Some dest) (Some src) h = Ok (tt, h') /\ ring h' dest (ys ++ xs) /\
    same_outside (src :: xs ++ dest :: ys) h h').
Proof.
  intros Hd Hs Hdis. split_and!; [by apply list_splice_ring|by apply list_merge_ring|by apply list_merge_tail_ring].
Qed.

(** [list_move] and [list_move_tail] of an element to the ends of its
    own list or to another list keep both lists rings; [list_replace]
    puts another cell in its place. *)
Theorem list_moves h src l1 el l2 :
  ring h src (l1 ++ el :: l2) ->
  (exists h', list_move (Some el) (Some src) h = Ok (tt, h') /\ ring h' src (el :: l1 ++ l2)) /\
  (exists h', list_move_tail (Some el) (Some src) h = Ok (tt, h') /\ ring h' src ((l1 ++ l2) ++ [el])) /\
  (forall dest ys, ring h dest ys -> (forall x, x ∈ src :: l1 ++ el :: l2 -> x ∉ dest :: ys) ->
    exists h', list_move (Some el) (Some dest) h = Ok (tt, h') /\ ring h' src (l1 ++ l2) /\ ring h' dest (el :: ys)) /\
  (forall el', exists_in h el' -> el' ∉ src :: l1 ++ el :: l2 ->
    exists h', list_replace (Some el) (Some el') h = Ok (tt, h') /\ ring h' src (l1 ++ el' :: l2)).
Proof.
  intros Hr. destruct (ring_delete h src l1 el l2 Hr) as (h1 & Hdel & Hr1 & Hs1 & _).
  destruct (ring_at _ _ _ _ _ Hr) as (_ & _ & _ & Hel & _).
  assert (exists_in h1 el) as He.
  { apply Hs1. eapply ring_exists; [exact Hr|]. right. apply elem_of_app. right. by left. }
  split_and!.
  - destruct (list_add_ring h1 src (l1 ++ l2) el Hr1 He Hel) as (h2 & Hadd & Hr2 & _). exists h2. split; [|done].
    unfold list_move. by erewrite hm_bind_ok by exact Hdel.
  - destruct (list_add_tail_ring h1 src (l1 ++ l2) el Hr1 He Hel) as (h2 & Hadd & Hr2 & _). exists h2. split; [|done].
    unfold list_move_tail. by erewrite hm_bind_ok by exact Hdel.
  - intros dest ys Hd Hdis.
    assert (forall x, x ∈ el :: src :: l1 ++ l2 -> x ∉ dest :: ys) as Hdis'.
    { intros x Hx. apply Hdis. revert Hx. rewrite !elem_of_cons, !elem_of_app, elem_of_cons. tauto. }
    assert (ring h1 dest ys) as Hd1 by (eapply ring_outside; [done|exact Hs1|]; intros x Hx Hx'; by eapply Hdis').
    assert (el ∉ dest :: ys) as Held by (apply Hdis'; by left).
    destruct (list_add_ring h1 dest ys el Hd1 He Held) as (h2 & Hadd & Hr2 & Hs2). exists h2. split_and!; [| |done].
    + unfold list_move. by erewrite hm_bind_ok by exact Hdel.
    + eapply ring_outside; [exact Hr1|exact Hs2|]. intros x Hx [->|Hx']%elem_of_cons; [done|].
      eapply Hdis'; [right; exact Hx|done].
  - intros el' He' Hel'. destruct (list_replace_ring h src l1 el l2 el' Hr He' Hel') as (h2 & Hrun & Hr2 & _). by exists h2.
Qed.
End Moves.

(** Two lists: head 0 with cells 1, 2 and head 3 with cell 4; cell 5 is free. *)
Definition sample_heap : gmap nat (cell nat) :=
  list_to_map [(0, Cell (Some 2) (Some 1) None); (1, Cell (Some 0) (Some 2) (Some 10));
               (2, Cell (Some 1) (Some 0) (Some 20)); (3, Cell (Some 4) (Some 4) None);
               (4, Cell (Some 3) (Some 3) (Some 30)); (5, Cell None None (Some 40))].

Lemma sample_ring_0 : ring sample_heap 0 [1; 2].
Proof. split; [repeat split; vm_compute; reflexivity|apply (bool_decide_unpack _); vm_compute; exact I]. Qed.

Lemma sample_ring_3 : ring sample_heap 3 [4].
Proof. split; [repeat split; vm_compute; reflexivity|apply (bool_decide_unpack _); vm_compute; exact I]. Qed.

Lemma list_joins_witness :
  (exists h', list_splice (Some 0) (Some 3) sample_heap = Ok (tt, h') /\ ring h' 3 [1; 2; 4] /\
    same_outside [0; 1; 2; 3; 4] sample_heap h') /\
  (exists h', list_merge (Some 3) (Some 0) sample_heap = Ok (tt, h') /\ ring h' 3 [1; 2; 4] /\
    same_outside [0; 1; 2; 3; 4] sample_heap h') /\
  (exists h', list_merge_tail (Some 3) (Some 0) sample_heap = Ok (tt, h') /\ ring h' 3 [4; 1; 2] /\
    same_outside [0; 1; 2; 3; 4] sample_heap h').
Proof.
  apply (list_joins sample_heap 3 [4] 0 [1; 2]); [exact sample_ring_3|exact sample_ring_0|].
  intros x Hx. apply (bool_decide_unpack _). repeat (apply elem_of_cons in Hx as [->|Hx]; [vm_compute; exact I|]).
  by apply elem_of_nil in Hx.
Defined.

Lemma list_moves_witness :
  (exists h', list_move (Some 2) (Some 0) sample_heap = Ok (tt, h') /\ ring h' 0 [2; 1]) /\
  (exists h', list_move_tail (Some 2) (Some 0) sample_heap = Ok (tt, h') /\ ring h' 0 [1; 2]) /\
  (forall dest ys, ring sample_heap dest ys -> (forall x, x ∈ [0; 1; 2] -> x ∉ dest :: ys) ->
    exists h', list_move (Some 2) (Some dest) sample_heap = Ok (tt, h') /\ ring h' 0 [1] /\ ring h' dest (2 :: ys)) /\
  (forall el', exists_in sample_heap el' -> el' ∉ [0; 1; 2] ->
    exists h', list_replace (Some 2) (Some el') sample_heap = Ok (tt, h') /\ ring h' 0 [1; el']).
Proof. apply (list_moves sample_heap 0 [1] 2 []). exact sample_ring_0. Defined.

Lemma list_generators_witness :
  list_for_each 5 collect [] (Some 0) sample_heap = Ok ([Some 1; Some 2], sample_heap) /\
  list_for_each_safe 5 collect [] (Some 0) sample_heap = Ok ([Some 1; Some 2], sample_heap) /\
  list_for_each_prev 5 collect [] (Some 0) sample_heap = Ok ([Some 2; Some 1], sample_heap) /\
  list_for_each_prev_safe 5 collect [] (Some 0) sample_heap = Ok ([Some 2; Some 1], sample_heap) /\
  exists h', list_for_each_safe 5 collect_delete [] (Some 0) sample_heap = Ok ([Some 1; Some 2], h') /\ ring h' 0 [].
Proof. apply (list_generators sample_heap 0 [1; 2] 5); [exact sample_ring_0|cbn; lia]. Defined.
