(* ===== verification/LinkedListSort.v ===== *)
(** * Sorting of [lib/lws/list.js]

    [list_sort] is a bottom-up merge sort on the cells of a ring: passes
    that merge runs of [insize] cells, with [insize] doubled until one
    merge is left.  It is shown to compute the merge sort of plain lists
    below, which sorts and is stable, and to end for every comparison. *)

From S2P Require Import Prelude StreamBase LinkedList LinkedListProps.
From stdpp Require Import sorting.

Section Sort.
Context {V : Type}.
Implicit Types (p q e tail list oldhead head : option loc).

Definition out_of_fuel {A} : HM V A := fun h => Throw ErrRangeError "out of fuel".
Definition is_some {A} (o : option A) : bool := match o with Some _ => true | None => false end.

(** [x.next], or [null] back at [oldhead]. *)
Definition next_or_null oldhead x : HM V (option loc) :=
  n ← get_next x; mret (if bool_decide (n = oldhead) then None else n).

(** The loop that puts [q] behind the first run and counts [psize]. *)
Fixpoint skip_run (i : nat) q oldhead (psize : nat) : HM V (option loc * nat) :=
  match i with
  | O => mret (q, psize)
  | S i => q ← next_or_null oldhead q; if is_some q then skip_run i q oldhead (S psize) else mret (q, S psize)
  end.

(** Put [e] behind [tail]; the new start of the output. *)
Definition append tail list e : HM V (option loc) :=
  list ← (if is_some tail then set_next tail e ;; mret list else mret e); set_prev e tail ;; mret list.

Section Compare.
Variable cmp : option loc -> option loc -> HM V jsnum.

(** The cell to append and what is left of the two runs. *)
Definition pick oldhead p q (psize qsize : nat) : HM V (option loc * option loc * option loc * nat * nat) :=
  let take_p := p' ← next_or_null oldhead p; mret (p, p', q, psize - 1, qsize) in
  let take_q := q' ← next_or_null oldhead q; mret (q, p, q', psize, qsize - 1) in
  if (psize =? 0)%nat then take_q
  else if (qsize =? 0)%nat || negb (is_some q) then take_p
  else c ← cmp p q; if num_nonpos c then take_p else take_q.

(** The inner loop: merge a run of [psize] cells at [p] and one of at most
    [qsize] cells at [q] behind [tail]. *)
Fixpoint merge_runs (fuel : nat) oldhead p q (psize qsize : nat) tail list : HM V (option loc * option loc * option loc) :=
  match fuel with
  | O => out_of_fuel
  | S fuel =>
    if (0 <? psize)%nat || ((0 <? qsize)%nat && is_some q) then
      x ← pick oldhead p q psize qsize;
      let '(e, p, q, psize, qsize) := x in
      list ← append tail list e;
      merge_runs fuel oldhead p q psize qsize e list
    else mret (q, tail, list)
  end.

(** One pass over the list; [while(p)]. *)
Fixpoint sort_pass (fuel : nat) (insize : nat) oldhead p tail list (nmerges : nat) : HM V (option loc * option loc * nat) :=
  match fuel with
  | O => out_of_fuel
  | S fuel =>
    if is_some p then
      x ← skip_run insize p oldhead 0;
      let '(q, psize) := x in
      m ← ring_fuel;
      y ← merge_runs m oldhead p q psize insize tail list;
      let '(q, tail, list) := y in
      sort_pass fuel insize oldhead q tail list (S nmerges)
    else mret (tail, list, nmerges)
  end.

Fixpoint sort_passes (fuel : nat) (insize : nat) list : HM V (option loc) :=
  match fuel with
  | O => out_of_fuel
  | S fuel =>
    m ← ring_fuel;
    x ← sort_pass m insize list list None None 0;
    let '(tail, list, nmerges) := x in
    set_next tail list ;; set_prev list tail ;;
    if (nmerges <=? 1)%nat then mret list else sort_passes fuel (insize * 2) list
  end.

Definition __list_sort head : HM V unit :=
  list ← get_next head;
  list_del head ;;
  m ← ring_fuel;
  list ← sort_passes m 1 list;
  set_next head list ;;
  p ← get_prev list; set_prev head p ;;
  p ← get_prev list; set_next p head ;;
  set_prev list head.

Definition list_sort head : HM V unit :=
  e ← list_empty head; if (e : bool) then mret tt else __list_sort head.
End Compare.

(** [LinkedList.sort]. *)
Definition ll_sort (cmp : option V -> option V -> jsnum) (this : llist) : HM V llist :=
  list_sort (fun a b => x ← get_data a; y ← get_data b; mret (cmp x y)) this ;; mret this.
End Sort.

(* ------------------------------------------------------------------ *)
(** ** The merge sort of plain lists *)

Section Reference.
Context {A : Type} (R : relation A) `{!RelDecision R}.

(** Merge the runs of length [n] of [xs] in pairs. *)
Fixpoint pass (fuel n : nat) (xs : list A) : list A :=
  match fuel, xs with
  | S fuel, _ :: _ => list_merge R (take n xs) (take n (drop n xs)) ++ pass fuel n (drop n (drop n xs))
  | _, _ => []
  end.

Fixpoint passes (fuel n : nat) (xs : list A) : list A :=
  match fuel with
  | O => xs
  | S fuel =>
    let ys := pass (length xs) n xs in
    if decide (length xs <= n + n)%nat then ys else passes fuel (n * 2) ys
  end.

Definition merge_sort_by (xs : list A) : list A := passes (length xs) 1 xs.
End Reference.

Section ReferenceProps.
Context {A : Type} (R : relation A) `{!RelDecision R}.
Implicit Types (xs ys l : list A).

Lemma pass_permutation fuel n xs : (0 < n)%nat -> (length xs <= fuel)%nat -> pass R fuel n xs ≡ₚ xs.
Proof.
  intros Hn. revert xs. induction fuel as [|fuel IH]; intros [|x xs] Hf; cbn [pass]; try done; cbn in Hf; [lia|].
  rewrite merge_Permutation, IH; [by rewrite <- app_assoc, take_drop, take_drop|]. rewrite !length_drop. cbn. lia.
Qed.

Lemma passes_permutation fuel n xs : (0 < n)%nat -> passes R fuel n xs ≡ₚ xs.
Proof.
  revert n xs. induction fuel as [|fuel IH]; intros n xs Hn; [done|]. cbn [passes].
  destruct (decide _); [by apply pass_permutation|]. rewrite IH by lia. by apply pass_permutation.
Qed.

Section Order.
Context `{!Transitive R, !Total R}.

(** Runs of [n], each in order; the last may be shorter. *)
Inductive runs (n : nat) : list A -> Prop :=
| runs_last l : (length l <= n)%nat -> StronglySorted R l -> runs n l
| runs_more l rest : length l = n -> StronglySorted R l -> runs n rest -> runs n (l ++ rest).

Lemma runs_take n xs : runs n xs -> StronglySorted R (take n xs) /\ runs n (drop n xs).
Proof.
  destruct 1 as [l Hl Hs|l rest Hl Hs Hr].
  - rewrite take_ge, drop_ge by done. split; [done|]. apply runs_last; [cbn; lia|constructor].
  - by rewrite take_app_length', drop_app_length'.
Qed.

Lemma merge_sorted l1 l2 : StronglySorted R l1 -> StronglySorted R l2 -> StronglySorted R (list_merge R l1 l2).
Proof. intros H1 H2. apply Sorted_StronglySorted; [done|]. apply Sorted_list_merge; [done|..]; by apply StronglySorted_Sorted. Qed.

Lemma runs_merge n xs rest : runs n xs -> runs (n + n) rest -> (drop n (drop n xs) = [] -> rest = []) ->
  runs (n + n) (list_merge R (take n xs) (take n (drop n xs)) ++ rest).
Proof.
  intros Hr Hrest Hn. destruct (runs_take n xs Hr) as [H1 H2]. destruct (runs_take n _ H2) as [H3 H4].
  pose proof (merge_sorted _ _ H1 H3) as Hm. pose proof (Permutation_length (merge_Permutation R (take n xs) (take n (drop n xs)))) as Hlen.
  rewrite length_app, !length_take, length_drop in Hlen.
  destruct (decide (drop n (drop n xs) = [])) as [E|E].
  - rewrite Hn, app_nil_r by done. apply runs_last; [lia|done].
  - apply runs_more; try done. assert (0 < length (drop n (drop n xs)))%nat by (destruct (drop n (drop n xs)); [done|cbn; lia]).
    rewrite !length_drop in *. lia.
Qed.

Lemma pass_runs fuel n xs : (0 < n)%nat -> (length xs <= fuel)%nat -> runs n xs -> runs (n + n) (pass R fuel n xs).
Proof.
  intros Hn. revert xs. induction fuel as [|fuel IH]; intros [|x xs] Hf Hr; cbn [pass];
    try (apply runs_last; [cbn; lia|constructor]); cbn in Hf; [].
  assert (Hlen : (length (drop n (drop n (x :: xs))) <= fuel)%nat) by (rewrite !length_drop; cbn; lia).
  apply runs_merge; [done| |].
  - apply IH; [done|]. by apply runs_take, runs_take.
  - intros ->. by destruct fuel.
Qed.

Lemma singles xs : runs 1 xs.
Proof.
  induction xs as [|x xs IH]; [apply runs_last; [cbn; lia|constructor]|].
  apply (runs_more 1 [x]); [done| |done]. repeat constructor.
Qed.

Lemma passes_sorted fuel n xs : (0 < n)%nat -> (length xs < n + n + fuel)%nat -> (0 < fuel)%nat -> runs n xs ->
  StronglySorted R (passes R fuel n xs).
Proof.
  revert n xs. induction fuel as [|fuel IH]; intros n xs Hn Hf H0 Hr; [lia|]. cbn [passes].
  pose proof (pass_runs (length xs) n xs Hn (Nat.le_refl _) Hr) as Hp.
  pose proof (Permutation_length (pass_permutation (length xs) n xs Hn (Nat.le_refl _))) as Hl. destruct (decide _) as [Hle|Hle].
  - pose proof (runs_take _ _ Hp) as [Hs _]. rewrite take_ge in Hs by lia. done.
  - replace (n * 2)%nat with (n + n)%nat by lia. apply IH; [lia|lia|lia|done].
Qed.

Lemma merge_sort_by_sorted xs : StronglySorted R (merge_sort_by R xs).
Proof.
  unfold merge_sort_by. destruct xs as [|x xs]; [constructor|]. apply passes_sorted; [lia|cbn; lia|cbn; lia|apply singles].
Qed.

(** ** Stability *)

(** Equivalent under the order. *)
Definition equiv_to (v x : A) : Prop := R v x /\ R x v.
#[local] Instance equiv_to_dec v : forall x, Decision (equiv_to v x) := fun x => and_dec _ _.

Lemma filter_none v l : (forall x, x ∈ l -> ~ equiv_to v x) -> filter (equiv_to v) l = [].
Proof.
  induction l as [|x l IH]; intros H; [done|]. rewrite filter_cons_False by (apply H; by left). apply IH. intros y Hy. apply H. by right.
Qed.

Lemma merge_stable v l1 l2 : StronglySorted R l1 -> StronglySorted R l2 ->
  filter (equiv_to v) (list_merge R l1 l2) = filter (equiv_to v) l1 ++ filter (equiv_to v) l2.
Proof.
  intros H1. revert l2. induction H1 as [|x1 l1 Hs1 IH1 Hx1]; intros l2 H2; [by rewrite list_merge_nil_l|].
  induction H2 as [|x2 l2 Hs2 IH2 Hx2]; [by rewrite list_merge_nil_r, app_nil_r|].
  rewrite list_merge_cons. destruct (decide (R x1 x2)) as [Hr|Hr].
  - rewrite !filter_cons, IH1 by (by constructor). case_decide; [|done]. rewrite filter_cons. by case_decide.
  - rewrite (filter_cons _ x2), IH2, (filter_cons _ x2). case_decide as Hv; [|done].
    rewrite (filter_none v (x1 :: l1)); [done|]. intros y Hy [Hvy Hyv]. apply Hr. destruct Hv as [Hv2 H2v].
    assert (Hx1y : R x1 y) by (apply elem_of_cons in Hy as [->|Hy]; [by destruct (total R x1 x1)|by apply (proj1 (List.Forall_forall _ _) Hx1), list_elem_of_In]).
    by transitivity y; [|transitivity v].
Qed.

Lemma pass_stable v fuel n xs : (0 < n)%nat -> (length xs <= fuel)%nat -> runs n xs ->
  filter (equiv_to v) (pass R fuel n xs) = filter (equiv_to v) xs.
Proof.
  intros Hn. revert xs. induction fuel as [|fuel IH]; intros [|x xs] Hf Hr; cbn [pass]; try done; cbn in Hf; [lia|].
  destruct (runs_take _ _ Hr) as [H1 H2]. destruct (runs_take _ _ H2) as [H3 H4].
  rewrite filter_app, merge_stable, IH by (done || rewrite !length_drop; cbn; lia).
  by rewrite <- !filter_app, <- app_assoc, !take_drop.
Qed.

Lemma passes_stable v fuel n xs : (0 < n)%nat -> runs n xs -> filter (equiv_to v) (passes R fuel n xs) = filter (equiv_to v) xs.
Proof.
  revert n xs. induction fuel as [|fuel IH]; intros n xs Hn Hr; [done|]. cbn [passes].
  destruct (decide _); [by apply pass_stable|]. rewrite IH; [by apply pass_stable|lia|].
  replace (n * 2)%nat with (n + n)%nat by lia. by apply pass_runs.
Qed.
End Order.
End ReferenceProps.

(* ------------------------------------------------------------------ *)
(** ** The code sorts *)

Section Proof.
Context {V : Type}.
Implicit Types (h : heap V) (x oh hd : loc) (P Q R O l : list loc).
Abbreviation first l := (List.hd_error l).

Lemma nlinks_exists h l z x : nlinks h l z -> x ∈ l -> exists_in h x.
Proof.
  induction l as [|a l IH]; [by intros _ ?%elem_of_nil|]. intros [Hn Hl] [->|Hx]%elem_of_cons; [|by apply IH].
  unfold nxt, exists_in in *. destruct (h !! a); [by eexists|done].
Qed.

Lemma next_or_null_ok h x l oh : nlinks h (x :: l) oh -> oh ∉ l ->
  next_or_null (Some oh) (Some x) h = Ok (first l, h).
Proof.
  intros Hl Hoh. unfold next_or_null. erewrite hm_bind_ok by (apply get_next_ok; eapply nlinks_exists; [exact Hl|by left]).
  destruct Hl as [-> _]. unfold mret, hm_ret. destruct l as [|y l]; cbn.
  - by rewrite bool_decide_true.
  - rewrite bool_decide_false; [done|]. intros [= ->]. apply Hoh. by left.
Qed.

Lemma skip_run_ok h oh i : forall x l k, nlinks h (x :: l) oh -> oh ∉ l ->
  skip_run i (Some x) (Some oh) k h = Ok ((first (drop i (x :: l)), k + length (take i (x :: l)))%nat, h).
Proof.
  induction i as [|i IH]; intros x l k Hl Hoh; cbn [skip_run].
  - cbn. unfold mret, hm_ret. by rewrite Nat.add_0_r.
  - erewrite hm_bind_ok by by eapply next_or_null_ok. destruct l as [|y l]; cbn [List.hd_error is_some].
    + cbn. rewrite drop_nil, take_nil. cbn. by rewrite Nat.add_1_r.
    + destruct Hl as [_ Hl]. rewrite (IH y l); [|done|intros Hin; apply Hoh; by right]. cbn. do 4 f_equal. lia.
Qed.

Section Cmp.
Variables (cmp : option loc -> option loc -> HM V jsnum) (order : option V -> option V -> jsnum).
(** The comparison looks at the data of two existing cells. *)
Hypothesis Hcmp : forall h x y, exists_in h x -> exists_in h y -> cmp (Some x) (Some y) h = Ok (order (dat h x) (dat h y), h).
Variable d : loc -> option V.

(** [cmp(x, y) <= 0] on the data of two cells. *)
Definition before_eq (x y : loc) : Prop := num_nonpos (order (d x) (d y)) = true.
#[export] Instance before_eq_dec : RelDecision before_eq := fun x y => bool_eq_dec _ _.

(** What one round of the inner loop takes. *)
Definition taken (P Q : list loc) : loc * list loc * list loc :=
  match P, Q with
  | x :: P', y :: Q' => if decide (before_eq x y) then (x, P', Q) else (y, P, Q')
  | x :: P', [] => (x, P', [])
  | [], y :: Q' => (y, [], Q')
  | [], [] => (0%nat, [], [])
  end.

Lemma taken_merge P Q : (0 < length P + length Q)%nat ->
  let '(e, P', Q') := taken P Q in
  list_merge before_eq P Q = e :: list_merge before_eq P' Q' /\
  (P = e :: P' /\ Q = Q' \/ P = P' /\ Q = e :: Q').
Proof.
  destruct P as [|x P], Q as [|y Q]; cbn [taken length]; intros Hl; try lia.
  - split; [by rewrite !list_merge_nil_l|by right].
  - split; [by rewrite !list_merge_nil_r|by left].
  - rewrite list_merge_cons. destruct (decide _); split; auto.
Qed.

(** The state of the inner loop: the runs [P] and [Q] and the rest [R]. *)
Record merging (h : heap V) (oh : loc) (P Q R : list loc) (p q : option loc) (psize qsize : nat) : Prop := {
  mg_p : exists z, nlinks h P z;
  mg_q : nlinks h (Q ++ R) oh;
  mg_oh : oh ∉ tail P ++ Q ++ R;
  mg_first : P <> [] -> p = first P;
  mg_psize : psize = length P;
  mg_qfirst : q = first (Q ++ R);
  mg_qsize : length Q = min qsize (length (Q ++ R));
  mg_data : forall x, dat h x = d x;
}.

Lemma first_app Q R : Q <> [] -> first (Q ++ R) = first Q.
Proof. by destruct Q. Qed.

Lemma next_p_ok h oh P Q R p q psize qsize x P' : merging h oh P Q R p q psize qsize -> P = x :: P' ->
  exists p', next_or_null (Some oh) (Some x) h = Ok (p', h) /\ (P' <> [] -> p' = first P').
Proof.
  intros [[z Hz] _ Hoh _ _ _ _ _] ->. unfold next_or_null.
  erewrite hm_bind_ok by (apply get_next_ok; eapply nlinks_exists; [exact Hz|by left]). destruct Hz as [-> Hz].
  eexists. split; [done|]. destruct P' as [|y P']; [done|]. intros _. cbn. rewrite bool_decide_false; [done|].
  intros [= ->]. apply Hoh. by left.
Qed.

Lemma pick_ok h oh P Q R p q psize qsize : merging h oh P Q R p q psize qsize -> (0 < length P + length Q)%nat ->
  exists p' q' psize' qsize', let '(e, P', Q') := taken P Q in
    pick cmp (Some oh) p q psize qsize h = Ok ((Some e, p', q', psize', qsize'), h) /\
    merging h oh P' Q' R p' q' psize' qsize'.
Proof.
  intros H Hl. pose proof H as [[z Hz] Hq Hoh Hp Hps Hqf Hqs Hd]. unfold pick.
  destruct P as [|x P].
  - destruct Q as [|y Q]; [cbn in Hl; lia|]. cbn [taken length] in *. subst psize. cbn [Nat.eqb].
    eexists p, (first (Q ++ R)), 0%nat, (qsize - 1)%nat. rewrite Hqf. cbn [app List.hd_error].
    erewrite hm_bind_ok by (eapply next_or_null_ok; [exact Hq|]; intros Hin; apply Hoh; cbn; by right). split; [done|].
    destruct Hq as [_ Hq]. split; try done; [by exists z|intros Hin; apply Hoh; by right|].
    cbn in Hqs. lia.
  - destruct (next_p_ok _ _ _ _ _ _ _ _ _ x P H eq_refl) as (p' & Ep & Hp'). cbn [length] in Hps. subst psize. cbn [Nat.eqb].
    rewrite (Hp ltac:(done)). cbn [List.hd_error].
    assert (Htake : forall Q0, Q0 = Q -> merging h oh P Q0 R p' q (length P) qsize).
    { intros Q0 ->. split; try done; [exists z; by destruct Hz|]. intros Hin. apply Hoh. cbn. destruct P; [done|]. by right. }
    destruct Q as [|y Q].
    + assert (Hnone : (qsize =? 0)%nat || negb (is_some q) = true).
      { cbn in Hqs. rewrite Hqf. destruct R; [by rewrite orb_true_r|]. destruct qsize; [done|]. cbn in Hqs. lia. }
      rewrite Hnone. cbn [taken]. eexists p', q, (length P), qsize. erewrite hm_bind_ok by exact Ep. cbn. rewrite Nat.sub_0_r. split; [done|by apply Htake].
    + assert (Hsome : (qsize =? 0)%nat || negb (is_some q) = false) by (rewrite Hqf; destruct qsize; [cbn in Hqs; lia|done]).
      rewrite Hsome. cbn [taken]. rewrite Hqf. cbn [app List.hd_error].
      assert (Hx : exists_in h x) by (eapply nlinks_exists; [exact Hz|by left]).
      assert (Hy : exists_in h y) by (eapply nlinks_exists; [exact Hq|by left]).
      erewrite hm_bind_ok by by apply Hcmp. rewrite !Hd. destruct (decide (before_eq x y)) as [E|E].
      * unfold before_eq in E. rewrite E. eexists p', q, (length P), qsize. erewrite hm_bind_ok by exact Ep. rewrite Nat.sub_succ, Nat.sub_0_r.
        rewrite Hqf. split; [done|]. rewrite <- Hqf. by apply Htake.
      * unfold before_eq in E. apply not_true_is_false in E. rewrite E. eexists (Some x), (first (Q ++ R)), (S (length P)), (qsize - 1)%nat.
        erewrite hm_bind_ok by (eapply next_or_null_ok; [exact Hq|]; intros Hin; apply Hoh; rewrite elem_of_app; right; by right).
        split; [done|]. destruct Hq as [_ Hq]. split; try done; [by exists z|..].
        -- intros Hin. apply Hoh. rewrite elem_of_app in Hin |- *. destruct Hin; [by left|right; by right].
        -- cbn in Hqs. lia.
Qed.

(** ** The output behind [tail] *)

Abbreviation final l := (list.last l).

Lemma same_weaken l l' h h' : same_outside l h h' -> (forall x, x ∈ l -> x ∈ l') -> same_outside l' h h'.
Proof. intros (H1 & H2 & H3) Hs. split_and!; [done|done|]. intros x Hx. apply H3. by intros ?%Hs. Qed.
Lemma same_refl l h : same_outside l h h.
Proof. by split_and!. Qed.
Lemma same_trans l h1 h2 h3 : same_outside l h1 h2 -> same_outside l h2 h3 -> same_outside l h1 h3.
Proof.
  intros (A1 & A2 & A3) (B1 & B2 & B3). split_and!.
  - intros x. by rewrite A1.
  - intros x. by rewrite B2, A2.
  - intros x Hx. destruct (B3 x Hx) as [-> ->]. by apply A3.
Qed.

(** A list under construction: linked both ways, its cells exist. *)
Definition built (h : heap V) (O : list loc) : Prop := chain h O /\ NoDup O /\ (forall x, x ∈ O -> exists_in h x).

Lemma append_ok h O e : built h O -> exists_in h e -> e ∉ O ->
  exists h', append (final O) (first O) (Some e) h = Ok (first (O ++ [e]), h') /\ built h' (O ++ [e]) /\ same_outside (O ++ [e]) h h' /\
    (forall x, x ∉ O -> nxt h' x = nxt h x).
Proof.
  intros (Hc & Hn & He) Hee Hne. unfold append. destruct O as [|t O _] using rev_ind.
  - cbn. unfold mbind, hm_bind, mret, hm_ret. rewrite set_prev_ok by done. eexists. split; [done|].
    assert (Hs : same_outside [e] h (upd_prev e None h)).
    { split_and!; [intros x; by autorewrite with heap|intros x; by autorewrite with heap|].
      intros x Hx. heap_simpl. rewrite decide_False; [done|]. intros ->. apply Hx. by left. }
    split; [split_and!|split; [done|]].
    + done.
    + by apply NoDup_singleton.
    + intros x ->%list_elem_of_singleton. by autorewrite with heap.
    + intros x _. by heap_simpl.
  - rewrite last_snoc. cbn [is_some]. assert (Ht : exists_in h t) by (apply He, elem_of_app; right; by left).
    assert (Hte : t <> e) by (intros ->; apply Hne, elem_of_app; right; by left).
    set (h' := upd_prev e (Some t) (upd_next t (Some e) h)).
    assert (Hf : first (O ++ [t]) = first ((O ++ [t]) ++ [e])) by (by destruct O).
    exists h'. split.
    { unfold mbind, hm_bind, mret, hm_ret. rewrite set_next_ok by done. rewrite set_prev_ok by exists_tac. by rewrite Hf. }
    assert (Hs : same_outside ((O ++ [t]) ++ [e]) h h').
    { unfold h'. split_and!; [intros x; by autorewrite with heap|intros x; by autorewrite with heap|]. intros x Hx.
      rewrite !elem_of_app, !list_elem_of_singleton in Hx. heap_simpl. rewrite !decide_False by (intros ->; tauto). done. }
    split; [split_and!|split; [done|]].
    + rewrite <- app_assoc. apply chain_split. split; [|split; [|done]].
      * eapply chain_frame; [exact Hc|..]; intros x Hx; unfold h'; heap_simpl; rewrite decide_False; try done.
        -- intros ->. rewrite removelast_snoc in Hx. apply NoDup_app in Hn as (_ & Hn & _). apply (Hn t Hx). by left.
        -- intros ->. apply Hne. destruct O; [by apply elem_of_nil in Hx|by right].
      * unfold link, h'. heap_simpl. by rewrite !decide_True.
    + apply NoDup_app. split; [done|]. split; [|by apply NoDup_singleton]. by intros x Hx ->%list_elem_of_singleton.
    + intros x Hx. destruct Hs as (Hex & _). rewrite <- Hex. apply elem_of_app in Hx as [Hx| ->%list_elem_of_singleton]; [by apply He|done].
    + intros x Hx. unfold h'. heap_simpl. rewrite decide_False; [done|]. intros ->. apply Hx, elem_of_app. right. by left.
Qed.

Lemma nlinks_app h l1 l2 z : nlinks h (l1 ++ l2) z <-> nlinks h l1 (List.hd z l2) /\ nlinks h l2 z.
Proof.
  induction l1 as [|a l1 IH]; [cbn; tauto|]. cbn [app nlinks]. rewrite IH. destruct l1; cbn; tauto.
Qed.

Lemma merge_runs_ok oh R fuel : forall P Q O h p q psize qsize,
  merging h oh P Q R p q psize qsize -> (length P + length Q < fuel)%nat -> built h O -> NoDup (O ++ P ++ Q ++ R) ->
  exists h' , let O' := O ++ list_merge before_eq P Q in
    merge_runs cmp fuel (Some oh) p q psize qsize (final O) (first O) h = Ok ((first R, final O', first O'), h') /\
    built h' O' /\ nlinks h' R oh /\ same_outside (O ++ P ++ Q) h h'.
Proof.
  induction fuel as [|fuel IH]; intros P Q O h p q psize qsize H Hf HO Hn; [lia|]. cbn [merge_runs]. cbv zeta.
  destruct (decide (P = [] /\ Q = [])) as [[-> ->]|Hne].
  - destruct H as [_ Hq _ _ Hps Hqf Hqs _]. cbn in Hps, Hqf, Hqs, Hq. subst psize q. exists h. rewrite ?list_merge_nil_l, ?app_nil_r.
    assert (E : (0 <? 0)%nat || ((0 <? qsize)%nat && is_some (first R)) = false) by (destruct R, qsize; cbn in *; done || lia).
    rewrite E. split; [done|]. split_and!; try done.
  - assert (Hpos : (0 < length P + length Q)%nat) by (destruct P, Q; cbn; try lia; by destruct Hne).
    assert (Hgo : (0 <? psize)%nat || ((0 <? qsize)%nat && is_some q) = true).
    { pose proof H as [_ _ _ _ Hps Hqf Hqs _]. destruct P as [|? ?]; [|subst psize; done]. destruct Q as [|? ?]; [cbn in Hpos; lia|].
      subst q. cbn in Hqs |- *. destruct qsize; [lia|]. by rewrite orb_true_r. }
    rewrite Hgo. destruct (pick_ok h oh P Q R p q psize qsize H Hpos) as (p' & q' & ps' & qs' & Hpick).
    pose proof (taken_merge P Q Hpos) as Htaken. destruct (taken P Q) as [[e P'] Q'].
    destruct Hpick as [Epick H']. destruct Htaken as [-> Hcase]. erewrite hm_bind_ok by exact Epick. cbv beta iota.
    assert (Hperm : P ++ Q ++ R ≡ₚ e :: P' ++ Q' ++ R).
    { destruct Hcase as [[-> ->]|[-> ->]]; [done|]. cbn. by rewrite <- Permutation_middle. }
    assert (HeO : e ∉ O /\ e ∉ P' ++ Q' ++ R /\ NoDup ((O ++ [e]) ++ P' ++ Q' ++ R)).
    { rewrite Hperm in Hn. rewrite <- app_assoc. split_and!; [| |done].
      - apply NoDup_app in Hn as (_ & Hn & _). intros Hin. apply (Hn e Hin). by left.
      - apply NoDup_app in Hn as (_ & _ & Hn). by apply NoDup_cons in Hn as [? _]. }
    destruct HeO as (HeO & HeR & Hn').
    assert (Hee : exists_in h e).
    { pose proof H as [[z Hz] Hq _ _ _ _ _ _]. destruct Hcase as [[-> _]|[_ ->]]; eapply nlinks_exists; [exact Hz|by left|exact Hq|by left]. }
    destruct (append_ok h O e HO Hee HeO) as (h1 & Eapp & HO1 & Hs1 & Hnx). erewrite hm_bind_ok by exact Eapp.
    assert (Hdisj : forall x, x ∈ P' ++ Q' ++ R -> x ∉ O ++ [e]).
    { intros x Hx Hin. apply NoDup_app in Hn' as (_ & Hn' & _). by apply (Hn' x). }
    assert (H1 : merging h1 oh P' Q' R p' q' ps' qs').
    { destruct H' as [[z Hz] Hq Hoh Hp Hps Hqf Hqs Hd]. split; try done.
      - exists z. eapply nlinks_frame; [exact Hz|]. intros x Hx. apply Hs1, Hdisj, elem_of_app. by left.
      - eapply nlinks_frame; [exact Hq|]. intros x Hx. apply Hs1, Hdisj, elem_of_app. by right.
      - intros x. destruct Hs1 as (_ & Hda & _). by rewrite Hda, Hd. }
    assert (Hlen : (length P' + length Q' < fuel)%nat) by (destruct Hcase as [[-> ->]|[-> ->]]; cbn in Hf; lia).
    destruct (IH P' Q' (O ++ [e]) h1 p' q' ps' qs' H1 Hlen HO1 Hn') as (h2 & E2 & HO2 & HR2 & Hs2).
    exists h2. rewrite last_snoc in E2. rewrite <- app_assoc in E2, HO2, Hs2. split; [exact E2|]. split; [exact HO2|]. split; [done|].
    assert (Hsub : forall x, x ∈ O ++ [e] ++ P' ++ Q' -> x ∈ O ++ P ++ Q).
    { intros x. destruct Hcase as [[-> ->]|[-> ->]]; rewrite !elem_of_app, ?elem_of_cons, ?elem_of_app, ?elem_of_nil; tauto. }
    eapply same_trans; [eapply same_weaken; [exact Hs1|]|eapply same_weaken; [exact Hs2|done]].
    intros x Hx. apply Hsub. rewrite app_assoc. apply elem_of_app. by left.
Qed.

(** ** The passes *)

Lemma pass_fuel {A} (Rel : relation A) `{!RelDecision Rel} n f1 : forall f2 (xs : list A), (0 < n)%nat -> (length xs <= f1)%nat -> (length xs <= f2)%nat ->
  pass Rel f1 n xs = pass Rel f2 n xs.
Proof.
  induction f1 as [|f1 IH]; intros [|f2] [|x xs] Hn H1 H2; cbn in H1, H2; try done; try lia. cbn [pass].
  f_equal. apply IH; [done|..]; rewrite !length_drop; cbn; lia.
Qed.

Lemma length_size h l : NoDup l -> (forall x, x ∈ l -> exists_in h x) -> (length l <= size h)%nat.
Proof.
  intros Hd He. rewrite <- size_dom, <- (size_list_to_set (C := gset loc)) by done. apply subseteq_size.
  intros x Hx%elem_of_list_to_set. by apply elem_of_dom, He.
Qed.

Lemma pass_merging h oh x l n : nlinks h (x :: l) oh -> oh ∉ l -> (0 < n)%nat -> (forall y, dat h y = d y) ->
  merging h oh (take n (x :: l)) (take n (drop n (x :: l))) (drop n (drop n (x :: l))) (Some x) (first (drop n (x :: l)))
    (length (take n (x :: l))) n.
Proof.
  intros Hl Hoh Hn Hd. pose proof Hl as Hl'. rewrite <- (take_drop n (x :: l)) in Hl'. apply nlinks_app in Hl' as [H1 H2].
  split; rewrite ?take_drop; try done.
  - by eexists.
  - intros Hin. apply Hoh. destruct n as [|n]; [lia|]. cbn in Hin. by rewrite take_drop in Hin.
  - intros _. by destruct n; [lia|].
  - by rewrite length_take.
Qed.

Lemma sort_pass_ok oh n fuel : forall xs O h nm, (0 < n)%nat -> nlinks h xs oh -> oh ∉ tail xs -> (length xs < fuel)%nat ->
  built h O -> NoDup (O ++ xs) -> (forall y, dat h y = d y) ->
  exists h' k, let O' := O ++ pass before_eq fuel n xs in
    sort_pass cmp fuel n (Some oh) (first xs) (final O) (first O) nm h = Ok ((final O', first O', (nm + k)%nat), h') /\
    built h' O' /\ same_outside (O ++ xs) h h' /\ (k = 0%nat <-> xs = []) /\ (k <= 1 <-> length xs <= n + n)%nat.
Proof.
  induction fuel as [|fuel IH]; intros xs O h nm Hn Hl Hoh Hf HO Hd Hdat; [lia|]. cbv zeta. cbn [sort_pass].
  destruct xs as [|x l]; cbn [List.hd_error is_some pass].
  { exists h, 0%nat. rewrite !app_nil_r, Nat.add_0_r. cbn. split_and!; try done; try lia. }
  cbn [tail] in Hoh. erewrite hm_bind_ok by by apply skip_run_ok. cbv beta iota. rewrite Nat.add_0_l.
  unfold ring_fuel at 1. erewrite hm_bind_ok by reflexivity.
  pose proof (pass_merging h oh x l n Hl Hoh Hn Hdat) as Hm.
  set (P := take n (x :: l)) in *. set (Q := take n (drop n (x :: l))) in *. set (R := drop n (drop n (x :: l))) in *.
  assert (Hsplit : x :: l = P ++ Q ++ R) by (unfold P, Q, R; by rewrite !take_drop).
  assert (Hsize : (length P + length Q < S (size h))%nat).
  { assert (Hxl : (length (x :: l) <= size h)%nat).
    { apply length_size; [by apply NoDup_app in Hd as (_ & _ & ?)|]. intros y Hy. by eapply nlinks_exists. }
    rewrite Hsplit, !length_app in Hxl. lia. }
  rewrite Hsplit in Hd. destruct (merge_runs_ok oh R (S (size h)) P Q O h _ _ _ _ Hm Hsize HO Hd) as (h1 & E1 & HO1 & HR & Hs1).
  erewrite hm_bind_ok by exact E1. cbv beta iota.
  assert (Hlen : (length R = length (x :: l) - n - n)%nat) by (unfold R; by rewrite !length_drop). cbn [length] in Hlen, Hf.
  destruct (IH R (O ++ list_merge before_eq P Q) h1 (S nm)) as (h2 & k & E2 & HO2 & Hs2 & Hk0 & Hk1); try done.
  - intros Hin. apply (mg_oh _ _ _ _ _ _ _ _ _ Hm). rewrite !elem_of_app. right. right. by destruct R; [|right].
  - lia.
  - rewrite merge_Permutation. by rewrite <- !app_assoc.
  - intros y. destruct Hs1 as (_ & Hda & _). by rewrite Hda.
  - exists h2, (S k). rewrite <- app_assoc in HO2. rewrite <- app_assoc in E2. rewrite Nat.add_succ_r. split; [exact E2|]. split; [exact HO2|]. split; [|split].
    + rewrite Hsplit. eapply same_trans; [eapply same_weaken; [exact Hs1|]|eapply same_weaken; [exact Hs2|]].
      * intros y. rewrite !elem_of_app. tauto.
      * intros y. rewrite !elem_of_app. rewrite (merge_Permutation before_eq P Q), elem_of_app. tauto.
    + split; [lia|done].
    + cbn [length]. split.
      * intros Hk. assert (k = 0)%nat as Hk' by lia. apply Hk0 in Hk'. rewrite Hk' in Hlen. cbn in Hlen. lia.
      * intros Hle. assert (R = []) as HR0 by (apply length_zero_iff_nil; lia). apply Hk0 in HR0. lia.
Qed.

Lemma last_default l0 (x y z : loc) : List.last (z :: l0) x = List.last (z :: l0) y.
Proof. revert z. induction l0 as [|w l0 IH]; intros z; [done|]. apply (IH w). Qed.

Lemma hd_last (x : loc) l0 : list.last (x :: l0) = Some (List.last l0 x).
Proof.
  revert x. induction l0 as [|y l0 IH]; intros x; [done|]. change (list.last (y :: l0) = Some (List.last (y :: l0) x)).
  rewrite IH. destruct l0 as [|z l0]; [done|]. by rewrite (last_default l0 y x z).
Qed.

(** The links that turn the output of a pass into a ring. *)
Lemma close_ring h a l : built h (a :: l) ->
  exists h', (set_next (final (a :: l)) (Some a) ;; set_prev (Some a) (final (a :: l))) h = Ok (tt, h') /\
    ring h' a l /\ same_outside (a :: l) h h'.
Proof.
  intros (Hc & Hd & He). rewrite hd_last. set (t := List.last l a).
  assert (Hsp : exists l0, a :: l = l0 ++ [t]).
  { exists (removelast (a :: l)). assert (Ht : t = List.last (a :: l) a) by (unfold t; by destruct l). rewrite Ht. by apply app_removelast_last. }
  destruct Hsp as [l0 Hsp]. assert (Ht : t ∈ a :: l) by (rewrite Hsp; apply elem_of_app; right; by left).
  assert (Ha : exists_in h a) by (apply He; by left). pose proof (He t Ht) as Hte.
  set (h' := upd_prev a (Some t) (upd_next t (Some a) h)). exists h'. split; [|split].
  - unfold mbind, hm_bind. rewrite set_next_ok by done. by rewrite set_prev_ok by exists_tac.
  - split; [|done]. change (chain h' ((a :: l) ++ [a])). rewrite Hsp, <- app_assoc. apply chain_split. split; [|split; [|done]].
    + rewrite <- Hsp. eapply chain_frame; [exact Hc|..]; intros x Hx; unfold h'; heap_simpl; rewrite decide_False; try done.
      * intros ->. rewrite Hsp, removelast_snoc in Hx. rewrite Hsp in Hd. apply NoDup_app in Hd as (_ & Hd & _). apply (Hd t Hx). by left.
      * intros ->. cbn in Hx. by apply NoDup_cons in Hd as [? _].
    + unfold link, h'. heap_simpl. by rewrite !decide_True.
  - unfold h'. split_and!; [intros x; by autorewrite with heap|intros x; by autorewrite with heap|]. intros x Hx. heap_simpl.
    rewrite !decide_False; [done|intros ->; apply Hx; by left|by intros ->].
Qed.

Lemma sort_passes_ok fuel : forall n a l h, (0 < n)%nat -> (length (a :: l) < n + n + fuel)%nat -> (0 < fuel)%nat ->
  ring h a l -> (forall y, dat h y = d y) ->
  exists h' a' l', sort_passes cmp fuel n (Some a) h = Ok (Some a', h') /\ ring h' a' l' /\
    a' :: l' = passes before_eq fuel n (a :: l) /\ same_outside (a :: l) h h'.
Proof.
  induction fuel as [|fuel IH]; intros n a l h Hn Hf H0 Hr Hdat; [lia|]. cbn [sort_passes passes].
  unfold ring_fuel at 1. erewrite hm_bind_ok by reflexivity.
  pose proof (ring_size h a l Hr) as Hsz. pose proof Hr as [Hch Hnd].
  assert (Hnl : nlinks h (a :: l) a) by (by apply nlinks_chain).
  destruct (sort_pass_ok a n (S (size h)) (a :: l) [] h 0) as (h1 & k & E1 & HO & Hs1 & _ & Hk); try done.
  - cbn. by apply NoDup_cons in Hnd as [? _].
  - cbn [length]. lia.
  - split; [done|]. split; [apply NoDup_nil_2|by intros ? ?%elem_of_nil].
  - erewrite hm_bind_ok by exact E1. cbv beta iota. cbn [app] in *.
    rewrite (pass_fuel before_eq n _ (length (a :: l))) in E1, HO |- * by (cbn; lia).
    pose proof (pass_permutation before_eq (length (a :: l)) n (a :: l) Hn (Nat.le_refl _)) as Hperm.
    destruct (pass before_eq (length (a :: l)) n (a :: l)) as [|b ys] eqn:Ep; [by apply Permutation_nil_cons in Hperm|].
    destruct (close_ring h1 b ys HO) as (h2 & E2 & Hr2 & Hs2). cbn [List.hd_error].
    assert (Hs2' : same_outside (a :: l) h1 h2) by (eapply same_weaken; [exact Hs2|]; intros x; by rewrite Hperm).
    rewrite Nat.add_0_l. assert (Hdat2 : forall y, dat h2 y = d y).
    { intros y. destruct Hs1 as (_ & D1 & _), Hs2 as (_ & D2 & _). by rewrite D2, D1. }
    replace ((set_next (final (b :: ys)) (Some b) ≫= (fun _ => set_prev (Some b) (final (b :: ys)) ≫= (fun _ =>
        if (k <=? 1)%nat then mret (Some b) else sort_passes cmp fuel (n * 2) (Some b)))) h1)
      with ((if (k <=? 1)%nat then mret (Some b) else sort_passes cmp fuel (n * 2) (Some b)) h2).
    + destruct (decide (length (a :: l) <= n + n)%nat) as [Hle|Hle].
      * apply Hk in Hle. rewrite (proj2 (Nat.leb_le k 1)) by done. exists h2, b, ys. split_and!; try done. by eapply same_trans.
      * assert (Hk' : (k <=? 1)%nat = false) by (apply Nat.leb_gt; lia). rewrite Hk'.
        pose proof (Permutation_length Hperm) as Hpl. destruct (IH (n * 2)%nat b ys h2) as (h3 & c & zs & E3 & Hr3 & Hz & Hs3); try done; try lia.
        exists h3, c, zs. split_and!; try done. eapply same_trans; [exact Hs1|]. eapply same_trans; [exact Hs2'|].
        eapply same_weaken; [exact Hs3|]. intros x. by rewrite Hperm.
    + unfold mbind, hm_bind in E2 |- *. destruct (set_next _ _ h1) as [[[] h']|]; [|done]. by rewrite E2.
Qed.

(** ** [list_sort] *)

(** A ring read from its first cell. *)
Lemma ring_rotate h hd a l : ring h hd (a :: l) <-> ring h a (l ++ [hd]).
Proof.
  assert (Hn : NoDup (hd :: a :: l) <-> NoDup (a :: l ++ [hd])).
  { rewrite (Permutation_app_comm l [hd]). cbn [app]. by rewrite (Permutation_swap a hd l). }
  unfold ring. rewrite Hn.
  assert (Hc : chain h (hd :: (a :: l) ++ [hd]) <-> chain h (a :: (l ++ [hd]) ++ [a])); [|by rewrite Hc].
  replace (a :: (l ++ [hd]) ++ [a]) with ((a :: l) ++ hd :: a :: []) by (cbn; by rewrite <- app_assoc).
  change (hd :: (a :: l) ++ [hd]) with ([] ++ hd :: a :: l ++ [hd]). rewrite !chain_split. cbn [app chain]. tauto.
Qed.

Lemma same_add l x h h' : same_outside l h h' -> same_outside (x :: l) h h'.
Proof. intros H. eapply same_weaken; [exact H|]. by right. Qed.

Lemma unlink_head h hd a l : ring h hd (a :: l) ->
  exists h', list_del (Some hd) h = Ok (tt, h') /\ ring h' a l /\ same_outside (hd :: a :: l) h h'.
Proof.
  intros Hr. apply ring_rotate in Hr. destruct (ring_delete h a l hd []) as (h' & E & Hr' & Hs & _); [done|].
  rewrite app_nil_r in *. by exists h'.
Qed.

(** The four assignments at the end. *)
Lemma relink_head h hd a l : ring h a l -> exists_in h hd -> hd ∉ a :: l ->
  exists h', (set_next (Some hd) (Some a) ;; p ← get_prev (Some a); set_prev (Some hd) p ;;
      p ← get_prev (Some a); set_next p (Some hd) ;; set_prev (Some a) (Some hd)) h = Ok (tt, h') /\
    ring h' hd (a :: l) /\ same_outside (hd :: a :: l) h h'.
Proof.
  intros Hr Hhd Hin. pose proof (ring_prev h a l Hr) as Hp. set (t := before a l) in *.
  assert (Hr0 : ring h a (l ++ [])) by (by rewrite app_nil_r).
  assert (Hin0 : hd ∉ a :: l ++ []) by (by rewrite app_nil_r).
  destruct (ring_insert h a l [] hd Hr0 Hhd Hin0) as (_ & Hr1 & Hs1). fold t in Hr1, Hs1. rewrite app_nil_r in Hs1. cbn [after List.hd] in *.
  assert (Ha : exists_in h a) by (eapply ring_exists; [exact Hr|by left]).
  assert (Ht : exists_in h t) by (eapply ring_exists; [exact Hr|apply before_in]).
  assert (Hne : hd <> a /\ hd <> t) by (split; intros ->; apply Hin; [by left|apply before_in]). destruct Hne as [Hne1 Hne2].
  assert (Htin : t ∈ a :: l) by apply before_in. clearbody t.
  exists (upd_prev a (Some hd) (upd_next t (Some hd) (upd_prev hd (Some t) (upd_next hd (Some a) h)))). split; [|split].
  - run_step. run_step. heap_simpl. rewrite Hp. run_step. run_step. heap_simpl. rewrite (decide_False (P := a = hd)) by done. rewrite Hp.
    run_step. by rewrite set_prev_ok by exists_tac.
  - apply ring_rotate. eapply ring_frame; [exact Hr1|]. intros x Hx. unfold after. rewrite nxt_add, prv_add by done. heap_simpl.
    repeat case_decide; subst; done.
  - split_and!; [intros x; by autorewrite with heap|intros x; by autorewrite with heap|]. intros x Hx. heap_simpl.
    rewrite !decide_False; [done|..]; intros ->; apply Hx; first [by left | right; by left | by right].
Qed.

Lemma list_sort_ok h hd xs : ring h hd xs -> (forall y, dat h y = d y) ->
  exists h' ys fuel, list_sort cmp (Some hd) h = Ok (tt, h') /\ ring h' hd ys /\ same_outside (hd :: xs) h h' /\
    (length xs < 2 + fuel)%nat /\ (0 < fuel)%nat /\ ys = passes before_eq fuel 1 xs.
Proof.
  intros Hr Hdat. unfold list_sort. erewrite hm_bind_ok by by apply list_empty_ring.
  destruct xs as [|a l]; [exists h, [], 1%nat; rewrite bool_decide_true by done; split_and!; try done; cbn; lia|]. rewrite bool_decide_false by done.
  assert (Hhd : exists_in h hd) by (eapply ring_exists; [exact Hr|by left]).
  unfold __list_sort. run_step. rewrite (ring_next _ _ _ Hr). cbn [after List.hd].
  destruct (unlink_head h hd a l Hr) as (h1 & E1 & Hr1 & Hs1). erewrite hm_bind_ok by exact E1.
  unfold ring_fuel at 1. erewrite hm_bind_ok by reflexivity. pose proof (ring_size _ _ _ Hr1) as Hsz.
  destruct (sort_passes_ok (S (size h1)) 1 a l h1) as (h2 & a' & l' & E2 & Hr2 & Hz & Hs2); try done; try (cbn [length]; lia).
  { intros y. destruct Hs1 as (_ & D1 & _). by rewrite D1. }
  erewrite hm_bind_ok by exact E2.
  assert (Hperm : a' :: l' ≡ₚ a :: l) by (rewrite Hz; apply passes_permutation; lia).
  destruct (relink_head h2 hd a' l' Hr2) as (h3 & E3 & Hr3 & Hs3).
  - destruct Hs1 as (X1 & _), Hs2 as (X2 & _). by apply X2, X1.
  - rewrite Hperm. destruct Hr as [_ Hd]. by apply NoDup_cons in Hd as [? _].
  - exists h3, (a' :: l'), (S (size h1)). split_and!; try done; [|cbn in *; lia|lia].
    eapply same_trans; [exact Hs1|]. eapply same_trans; [by apply same_add|]. eapply same_weaken; [exact Hs3|]. intros x. by rewrite Hperm.
Qed.
End Cmp.
End Proof.

#[export] Instance equiv_to_dec' {A} (R : relation A) `{!RelDecision R} v x : Decision (equiv_to R v x) := and_dec _ _.

(** C14: [list_sort] returns for every comparison of two cells by their
    data, consistent or not, and only relinks: the ring holds the same
    cells, their data and all other cells are as before.  When the
    comparison is a total preorder the cells come out in order, and cells
    that compare equal keep their order. *)
Theorem list_sort_sorts {V} (cmp : option loc -> option loc -> HM V jsnum) order (h : heap V) hd xs :
  (forall h x y, exists_in h x -> exists_in h y -> cmp (Some x) (Some y) h = Ok (order (dat h x) (dat h y), h)) ->
  ring h hd xs ->
  exists h' ys, list_sort cmp (Some hd) h = Ok (tt, h') /\ ring h' hd ys /\ ys ≡ₚ xs /\ same_outside (hd :: xs) h h' /\
    (Transitive (before_eq order (dat h)) -> Total (before_eq order (dat h)) ->
      StronglySorted (before_eq order (dat h)) ys /\
      forall v, filter (equiv_to (before_eq order (dat h)) v) ys = filter (equiv_to (before_eq order (dat h)) v) xs).
Proof.
  intros Hcmp Hr. destruct (list_sort_ok cmp order Hcmp (dat h) h hd xs Hr) as (h' & ys & fuel & E & Hr' & Hs & Hf & H0 & Hys); [done|].
  exists h', ys. split_and!; try done.
  - rewrite Hys. apply passes_permutation. lia.
  - intros Ht Htot. rewrite Hys. split.
    + apply passes_sorted; try done; [lia|]. apply singles.
    + intros v. pose proof (passes_stable (before_eq order (dat h)) v fuel 1 xs) as Hst. apply Hst; [lia|apply singles].
Qed.

(** The comparison of [LinkedList.sort] looks at the data alone. *)
Lemma data_cmp_ok {V} (order : option V -> option V -> jsnum) (h : heap V) x y : exists_in h x -> exists_in h y ->
  (a ← get_data (Some x); b ← get_data (Some y); mret (order a b)) h = Ok (order (dat h x) (dat h y), h).
Proof. intros Hx Hy. run_step. run_step. done. Qed.

(** Head 0 and cells 1 to 3 with their numbers, largest first. *)
Definition demo_heap : gmap loc (cell Z) :=
  list_to_map [(0, Cell (Some 3) (Some 1) None); (1, Cell (Some 0) (Some 2) (Some 10%Z));
               (2, Cell (Some 1) (Some 3) (Some 30%Z)); (3, Cell (Some 2) (Some 0) (Some 20%Z))].
Definition demo_order (a b : option Z) : jsnum := Fin (default 0%Z b - default 0%Z a)%Z.

Lemma demo_ring : ring demo_heap 0 [1; 2; 3].
Proof. split; [repeat split; vm_compute; reflexivity|apply (bool_decide_unpack _); vm_compute; exact I]. Qed.

Example demo_sorted : exists h', ll_sort demo_order (Some 0) demo_heap = Ok (Some 0, h') /\ nxt h' 0 = Some 2 /\ nxt h' 2 = Some 3 /\ nxt h' 3 = Some 1.
Proof. eexists. split; [vm_compute; reflexivity|]. by vm_compute. Qed.

Lemma list_sort_sorts_witness : exists h' ys,
  list_sort (fun x y => a ← get_data x; b ← get_data y; mret (demo_order a b)) (Some 0) demo_heap = Ok (tt, h') /\
  ring h' 0 ys /\ ys ≡ₚ [1; 2; 3] /\ same_outside [0; 1; 2; 3] demo_heap h' /\
  (Transitive (before_eq demo_order (dat demo_heap)) -> Total (before_eq demo_order (dat demo_heap)) ->
    StronglySorted (before_eq demo_order (dat demo_heap)) ys /\
    forall v, filter (equiv_to (before_eq demo_order (dat demo_heap)) v) ys =
              filter (equiv_to (before_eq demo_order (dat demo_heap)) v) [1; 2; 3]).
Proof.
  apply (list_sort_sorts _ demo_order demo_heap 0 [1; 2; 3]); [|exact demo_ring]. intros h x y. apply data_cmp_ok.
Defined.

(** The order of the witness is a total preorder. *)
Lemma demo_order_total : Transitive (before_eq demo_order (dat demo_heap)) /\ Total (before_eq demo_order (dat demo_heap)).
Proof.
  unfold before_eq, demo_order. cbn [num_nonpos]. split.
  - intros x y z H1%Z.leb_le H2%Z.leb_le. apply Z.leb_le. lia.
  - intros x y. rewrite !Z.leb_le. lia.
Qed.
