(* ===== verification/WritableStream.v ===== *)
(** * The writable stream of [lib/lws/streams.js]

    [WritableStream], its default controller and writer as one state
    machine: the [STRM], [CTRL] and [WRITE] side tables are the fields of
    one record, promises are entries of a settlement table.  The
    underlying sink is outside: its calls are recorded, and its promises
    settle by environment events, which run the handlers the code has
    installed with [uponPromise].  Sink methods and size functions that
    call back into the stream are not modelled. *)

From S2P Require Import Prelude StreamBase.
Open Scope Z_scope.

Inductive wstate := Writable | Erroring | Errored | Closed.

#[export] Instance wstate_eq_dec : EqDecision wstate.
Proof. solve_decision. Defined.

(** A queued value: a chunk, or [closeSentinel]. *)
Inductive qvalue := Chunk (c : Z) | CloseSentinel.

#[export] Instance qvalue_eq_dec : EqDecision qvalue.
Proof. solve_decision. Defined.

(** [readyPromise]/[closedPromise] of a writer with their state flag and
    whether [_resolve]/[_reject] are still there. *)
Inductive wp_state := WpPending | WpResolved | WpRejected.
#[export] Instance wp_state_eq_dec : EqDecision wp_state.
Proof. solve_decision. Defined.
Record wpromise := WP { wp_id : pid; wp_flag : wp_state; wp_resolvers : bool }.

Record writer := Writer { w_owner : bool; w_ready : wpromise; w_closed : wpromise }.

Record abort_request := AbortReq { ar_promise : pid; ar_reason : reason; ar_wasAlreadyErroring : bool }.

(** A call of the underlying sink. *)
Inductive sink_call := SinkStart | SinkWrite (c : Z) | SinkClose | SinkAbort (r : reason).

(** The sink promises the code waits for. *)
Inductive wait := WaitStart | WaitWrite | WaitClose | WaitAbort (a : abort_request).

Record wstream := WStream {
  st_state : wstate; st_storedError : reason; st_writer : option nat;
  st_writeRequests : list pid; st_inFlightWrite : option pid;
  st_closeRequest : option pid; st_inFlightClose : option pid;
  st_pendingAbort : option abort_request; st_backpressure : bool;
  ct_queue : list (qvalue * Z); ct_total : Z; ct_started : bool;
  ct_algorithms : bool;            (* the four algorithms are still there *)
  ct_abortReason : option reason;
  writers : list writer; promises : list settlement;
  sink_calls : list sink_call; awaited : list wait;
}.

Definition set_st_state v (s : wstream) : wstream := WStream v (st_storedError s) (st_writer s) (st_writeRequests s) (st_inFlightWrite s) (st_closeRequest s) (st_inFlightClose s) (st_pendingAbort s) (st_backpressure s) (ct_queue s) (ct_total s) (ct_started s) (ct_algorithms s) (ct_abortReason s) (writers s) (promises s) (sink_calls s) (awaited s).
Definition set_st_storedError v (s : wstream) : wstream := WStream (st_state s) v (st_writer s) (st_writeRequests s) (st_inFlightWrite s) (st_closeRequest s) (st_inFlightClose s) (st_pendingAbort s) (st_backpressure s) (ct_queue s) (ct_total s) (ct_started s) (ct_algorithms s) (ct_abortReason s) (writers s) (promises s) (sink_calls s) (awaited s).
Definition set_st_writer v (s : wstream) : wstream := WStream (st_state s) (st_storedError s) v (st_writeRequests s) (st_inFlightWrite s) (st_closeRequest s) (st_inFlightClose s) (st_pendingAbort s) (st_backpressure s) (ct_queue s) (ct_total s) (ct_started s) (ct_algorithms s) (ct_abortReason s) (writers s) (promises s) (sink_calls s) (awaited s).
Definition set_st_writeRequests v (s : wstream) : wstream := WStream (st_state s) (st_storedError s) (st_writer s) v (st_inFlightWrite s) (st_closeRequest s) (st_inFlightClose s) (st_pendingAbort s) (st_backpressure s) (ct_queue s) (ct_total s) (ct_started s) (ct_algorithms s) (ct_abortReason s) (writers s) (promises s) (sink_calls s) (awaited s).
Definition set_st_inFlightWrite v (s : wstream) : wstream := WStream (st_state s) (st_storedError s) (st_writer s) (st_writeRequests s) v (st_closeRequest s) (st_inFlightClose s) (st_pendingAbort s) (st_backpressure s) (ct_queue s) (ct_total s) (ct_started s) (ct_algorithms s) (ct_abortReason s) (writers s) (promises s) (sink_calls s) (awaited s).
Definition set_st_closeRequest v (s : wstream) : wstream := WStream (st_state s) (st_storedError s) (st_writer s) (st_writeRequests s) (st_inFlightWrite s) v (st_inFlightClose s) (st_pendingAbort s) (st_backpressure s) (ct_queue s) (ct_total s) (ct_started s) (ct_algorithms s) (ct_abortReason s) (writers s) (promises s) (sink_calls s) (awaited s).
Definition set_st_inFlightClose v (s : wstream) : wstream := WStream (st_state s) (st_storedError s) (st_writer s) (st_writeRequests s) (st_inFlightWrite s) (st_closeRequest s) v (st_pendingAbort s) (st_backpressure s) (ct_queue s) (ct_total s) (ct_started s) (ct_algorithms s) (ct_abortReason s) (writers s) (promises s) (sink_calls s) (awaited s).
Definition set_st_pendingAbort v (s : wstream) : wstream := WStream (st_state s) (st_storedError s) (st_writer s) (st_writeRequests s) (st_inFlightWrite s) (st_closeRequest s) (st_inFlightClose s) v (st_backpressure s) (ct_queue s) (ct_total s) (ct_started s) (ct_algorithms s) (ct_abortReason s) (writers s) (promises s) (sink_calls s) (awaited s).
Definition set_st_backpressure v (s : wstream) : wstream := WStream (st_state s) (st_storedError s) (st_writer s) (st_writeRequests s) (st_inFlightWrite s) (st_closeRequest s) (st_inFlightClose s) (st_pendingAbort s) v (ct_queue s) (ct_total s) (ct_started s) (ct_algorithms s) (ct_abortReason s) (writers s) (promises s) (sink_calls s) (awaited s).
Definition set_ct_queue v (s : wstream) : wstream := WStream (st_state s) (st_storedError s) (st_writer s) (st_writeRequests s) (st_inFlightWrite s) (st_closeRequest s) (st_inFlightClose s) (st_pendingAbort s) (st_backpressure s) v (ct_total s) (ct_started s) (ct_algorithms s) (ct_abortReason s) (writers s) (promises s) (sink_calls s) (awaited s).
Definition set_ct_total v (s : wstream) : wstream := WStream (st_state s) (st_storedError s) (st_writer s) (st_writeRequests s) (st_inFlightWrite s) (st_closeRequest s) (st_inFlightClose s) (st_pendingAbort s) (st_backpressure s) (ct_queue s) v (ct_started s) (ct_algorithms s) (ct_abortReason s) (writers s) (promises s) (sink_calls s) (awaited s).
Definition set_ct_started v (s : wstream) : wstream := WStream (st_state s) (st_storedError s) (st_writer s) (st_writeRequests s) (st_inFlightWrite s) (st_closeRequest s) (st_inFlightClose s) (st_pendingAbort s) (st_backpressure s) (ct_queue s) (ct_total s) v (ct_algorithms s) (ct_abortReason s) (writers s) (promises s) (sink_calls s) (awaited s).
Definition set_ct_algorithms v (s : wstream) : wstream := WStream (st_state s) (st_storedError s) (st_writer s) (st_writeRequests s) (st_inFlightWrite s) (st_closeRequest s) (st_inFlightClose s) (st_pendingAbort s) (st_backpressure s) (ct_queue s) (ct_total s) (ct_started s) v (ct_abortReason s) (writers s) (promises s) (sink_calls s) (awaited s).
Definition set_ct_abortReason v (s : wstream) : wstream := WStream (st_state s) (st_storedError s) (st_writer s) (st_writeRequests s) (st_inFlightWrite s) (st_closeRequest s) (st_inFlightClose s) (st_pendingAbort s) (st_backpressure s) (ct_queue s) (ct_total s) (ct_started s) (ct_algorithms s) v (writers s) (promises s) (sink_calls s) (awaited s).
Definition set_writers v (s : wstream) : wstream := WStream (st_state s) (st_storedError s) (st_writer s) (st_writeRequests s) (st_inFlightWrite s) (st_closeRequest s) (st_inFlightClose s) (st_pendingAbort s) (st_backpressure s) (ct_queue s) (ct_total s) (ct_started s) (ct_algorithms s) (ct_abortReason s) v (promises s) (sink_calls s) (awaited s).
Definition set_promises v (s : wstream) : wstream := WStream (st_state s) (st_storedError s) (st_writer s) (st_writeRequests s) (st_inFlightWrite s) (st_closeRequest s) (st_inFlightClose s) (st_pendingAbort s) (st_backpressure s) (ct_queue s) (ct_total s) (ct_started s) (ct_algorithms s) (ct_abortReason s) (writers s) v (sink_calls s) (awaited s).
Definition set_sink_calls v (s : wstream) : wstream := WStream (st_state s) (st_storedError s) (st_writer s) (st_writeRequests s) (st_inFlightWrite s) (st_closeRequest s) (st_inFlightClose s) (st_pendingAbort s) (st_backpressure s) (ct_queue s) (ct_total s) (ct_started s) (ct_algorithms s) (ct_abortReason s) (writers s) (promises s) v (awaited s).
Definition set_awaited v (s : wstream) : wstream := WStream (st_state s) (st_storedError s) (st_writer s) (st_writeRequests s) (st_inFlightWrite s) (st_closeRequest s) (st_inFlightClose s) (st_pendingAbort s) (st_backpressure s) (ct_queue s) (ct_total s) (ct_started s) (ct_algorithms s) (ct_abortReason s) (writers s) (promises s) (sink_calls s) v.

(* ------------------------------------------------------------------ *)
(** ** Promises and writers *)

Section Stream.
(** The strategy: [highWaterMark], and [size], which may throw. *)
Variables (strategyHWM : jsnum) (strategySize : Z -> jsnum + reason).

Abbreviation WM A := (SM wstream A).

Definition new_promise : WM pid := fun s =>
  (Ok (length (promises s)), set_promises (promises s ++ [Pending]) s).
Definition settle_promise (p : pid) (v : settlement) : WM unit := modify (fun s => set_promises (settle p v (promises s)) s).
Definition promiseRejectedWith (r : reason) : WM pid := p ← new_promise; settle_promise p (Rejected r) ;; mret p.
Definition promiseResolvedWith : WM pid := p ← new_promise; settle_promise p Fulfilled ;; mret p.

Definition type_error (msg : string) : reason := ErrorObj ErrTypeError msg.

(** The record of writer [w]. *)
Definition the_writer (w : nat) : WM writer := fun s =>
  match writers s !! w with
  | Some r => (Ok r, s)
  | None => (Throw ErrTypeError "not a writer", s)
  end.
Definition set_writer (w : nat) (r : writer) : WM unit := modify (fun s => set_writers (<[w := r]> (writers s)) s).

Definition with_ready (p : wpromise) (r : writer) : writer := Writer (w_owner r) p (w_closed r).
Definition with_closed (p : wpromise) (r : writer) : writer := Writer (w_owner r) (w_ready r) p.

Definition defaultWriterClosedPromiseInitialize (w : nat) : WM unit :=
  p ← new_promise; r ← the_writer w; set_writer w (with_closed (WP p WpPending true) r).

Definition defaultWriterClosedPromiseReject (w : nat) (e : reason) : WM unit :=
  r ← the_writer w;
  if negb (wp_resolvers (w_closed r)) then mret tt else
  assert (bool_decide (wp_flag (w_closed r) = WpPending)) ;;
  settle_promise (wp_id (w_closed r)) (Rejected e) ;;
  set_writer w (with_closed (WP (wp_id (w_closed r)) WpRejected false) r).

Definition defaultWriterClosedPromiseResolve (w : nat) : WM unit :=
  r ← the_writer w;
  if negb (wp_resolvers (w_closed r)) then mret tt else
  assert (bool_decide (wp_flag (w_closed r) = WpPending)) ;;
  settle_promise (wp_id (w_closed r)) Fulfilled ;;
  set_writer w (with_closed (WP (wp_id (w_closed r)) WpResolved false) r).

Definition defaultWriterClosedPromiseInitializeAsRejected (w : nat) (e : reason) : WM unit :=
  defaultWriterClosedPromiseInitialize w ;; defaultWriterClosedPromiseReject w e.

Definition defaultWriterReadyPromiseInitialize (w : nat) : WM unit :=
  p ← new_promise; r ← the_writer w; set_writer w (with_ready (WP p WpPending true) r).

Definition defaultWriterReadyPromiseReject (w : nat) (e : reason) : WM unit :=
  r ← the_writer w;
  if negb (wp_resolvers (w_ready r)) then mret tt else
  settle_promise (wp_id (w_ready r)) (Rejected e) ;;
  set_writer w (with_ready (WP (wp_id (w_ready r)) WpRejected false) r).

Definition defaultWriterReadyPromiseResolve (w : nat) : WM unit :=
  r ← the_writer w;
  if negb (wp_resolvers (w_ready r)) then mret tt else
  settle_promise (wp_id (w_ready r)) Fulfilled ;;
  set_writer w (with_ready (WP (wp_id (w_ready r)) WpResolved false) r).

Definition defaultWriterReadyPromiseInitializeAsRejected (w : nat) (e : reason) : WM unit :=
  defaultWriterReadyPromiseInitialize w ;; defaultWriterReadyPromiseReject w e.
Definition defaultWriterReadyPromiseInitializeAsResolved (w : nat) : WM unit :=
  defaultWriterReadyPromiseInitialize w ;; defaultWriterReadyPromiseResolve w.

Definition WritableStreamDefaultWriterEnsureReadyPromiseRejected (w : nat) (e : reason) : WM unit :=
  r ← the_writer w;
  if bool_decide (wp_flag (w_ready r) = WpPending) then defaultWriterReadyPromiseReject w e
  else
    assert (negb (wp_resolvers (w_ready r))) ;;
    defaultWriterReadyPromiseInitializeAsRejected w e.

(** Run [f] on the writer of the stream, if there is one. *)
Definition for_writer (f : nat -> WM unit) : WM unit :=
  w ← gets st_writer; match w with Some w => f w | None => mret tt end.

(* ------------------------------------------------------------------ *)
(** ** The queue *)

Definition EnqueueValueWithSize (value : qvalue) (size : jsnum) : WM unit :=
  match size with
  | Fin z => if 0 <=? z then
      modify (fun s => set_ct_total (ct_total s + z) (set_ct_queue (ct_queue s ++ [(value, z)]) s))
    else throw ErrRangeError "Size must be a finite, non-NaN, non-negative number."
  | _ => throw ErrRangeError "Size must be a finite, non-NaN, non-negative number."
  end.

Definition DequeueValue : WM qvalue :=
  q ← gets ct_queue;
  match q with
  | [] => throw ErrAssertionError "Assertion failed"
  | (v, z) :: rest =>
    t ← gets ct_total;
    modify (fun s => set_ct_total (if t - z <? 0 then 0 else t - z) (set_ct_queue rest s)) ;; mret v
  end.

Definition PeekQueueValue : WM qvalue :=
  q ← gets ct_queue;
  match q with [] => throw ErrAssertionError "Assertion failed" | (v, _) :: _ => mret v end.

Definition ResetQueue : WM unit := modify (fun s => set_ct_total 0 (set_ct_queue [] s)).

(* ------------------------------------------------------------------ *)
(** ** The controller and the stream *)

Definition is_some {A} (o : option A) : bool := match o with Some _ => true | None => false end.

Definition WritableStreamCloseQueuedOrInFlight (s : wstream) : bool :=
  is_some (st_closeRequest s) || is_some (st_inFlightClose s).
Definition WritableStreamHasOperationMarkedInFlight (s : wstream) : bool :=
  is_some (st_inFlightWrite s) || is_some (st_inFlightClose s).

Definition WritableStreamDefaultControllerClearAlgorithms : WM unit := modify (set_ct_algorithms false).

Definition WritableStreamDefaultControllerGetDesiredSize (s : wstream) : jsnum := num_sub strategyHWM (ct_total s).
Definition WritableStreamDefaultControllerGetBackpressure (s : wstream) : bool :=
  num_nonpos (WritableStreamDefaultControllerGetDesiredSize s).

Definition state_is (l : list wstate) (s : wstream) : bool := bool_decide (st_state s ∈ l).

Definition WritableStreamUpdateBackpressure (backpressure : bool) : WM unit :=
  s ← gets id;
  assert (state_is [Writable] s) ;;
  assert (negb (WritableStreamCloseQueuedOrInFlight s)) ;;
  (if bool_decide (backpressure <> st_backpressure s) then
     for_writer (fun w =>
       if backpressure then
         r ← the_writer w; assert (negb (wp_resolvers (w_ready r))) ;; defaultWriterReadyPromiseInitialize w
       else defaultWriterReadyPromiseResolve w)
   else mret tt) ;;
  modify (set_st_backpressure backpressure).

Definition WritableStreamRejectCloseAndClosedPromiseIfNeeded : WM unit :=
  s ← gets id;
  assert (state_is [Errored] s) ;;
  match st_closeRequest s with
  | Some p =>
    assert (negb (is_some (st_inFlightClose s))) ;;
    settle_promise p (Rejected (st_storedError s)) ;; modify (set_st_closeRequest None)
  | None => mret tt
  end ;;
  for_writer (fun w => defaultWriterClosedPromiseReject w (st_storedError s)).

(** A call of an algorithm that [ClearAlgorithms] may have removed. *)
Definition call_sink (c : sink_call) (k : wait) : WM unit :=
  a ← gets ct_algorithms;
  if (a : bool) then modify (fun s => set_awaited (awaited s ++ [k]) (set_sink_calls (sink_calls s ++ [c]) s))
  else throw ErrTypeError "not a function".

Definition reject_all (r : reason) (ps : list pid) : WM unit :=
  modify (fun s => set_promises (foldl (fun t p => settle p (Rejected r) t) (promises s) ps) s).

Definition WritableStreamFinishErroring : WM unit :=
  s ← gets id;
  assert (state_is [Erroring] s) ;;
  assert (negb (WritableStreamHasOperationMarkedInFlight s)) ;;
  modify (set_st_state Errored) ;;
  ResetQueue ;;
  storedError ← gets st_storedError;
  reject_all storedError (st_writeRequests s) ;;
  modify (set_st_writeRequests []) ;;
  match st_pendingAbort s with
  | None => WritableStreamRejectCloseAndClosedPromiseIfNeeded
  | Some abortRequest =>
    modify (set_st_pendingAbort None) ;;
    if ar_wasAlreadyErroring abortRequest then
      settle_promise (ar_promise abortRequest) (Rejected storedError) ;;
      WritableStreamRejectCloseAndClosedPromiseIfNeeded
    else
      call_sink (SinkAbort (ar_reason abortRequest)) (WaitAbort abortRequest) ;;
      WritableStreamDefaultControllerClearAlgorithms
  end.

Definition WritableStreamStartErroring (r : reason) : WM unit :=
  s ← gets id;
  assert (bool_decide (st_storedError s = Undefined)) ;;
  assert (state_is [Writable] s) ;;
  modify (set_st_state Erroring) ;;
  modify (set_st_storedError r) ;;
  for_writer (fun w => WritableStreamDefaultWriterEnsureReadyPromiseRejected w r) ;;
  s ← gets id;
  if negb (WritableStreamHasOperationMarkedInFlight s) && ct_started s
  then WritableStreamFinishErroring else mret tt.

Definition WritableStreamDealWithRejection (r : reason) : WM unit :=
  s ← gets id;
  if state_is [Writable] s then WritableStreamStartErroring r
  else assert (state_is [Erroring] s) ;; WritableStreamFinishErroring.

Definition WritableStreamDefaultControllerError (r : reason) : WM unit :=
  s ← gets id;
  assert (state_is [Writable] s) ;;
  WritableStreamDefaultControllerClearAlgorithms ;; WritableStreamStartErroring r.

Definition WritableStreamDefaultControllerErrorIfNeeded (r : reason) : WM unit :=
  s ← gets id;
  if state_is [Writable] s then WritableStreamDefaultControllerError r else mret tt.

Definition WritableStreamDefaultControllerAdvanceQueueIfNeeded : WM unit :=
  s ← gets id;
  if negb (ct_started s) then mret tt else
  if is_some (st_inFlightWrite s) then mret tt else
  assert (negb (state_is [Closed; Errored] s)) ;;
  if state_is [Erroring] s then WritableStreamFinishErroring else
  if bool_decide (ct_queue s = []) then mret tt else
  value ← PeekQueueValue;
  match value with
  | CloseSentinel =>
    assert (negb (is_some (st_inFlightClose s))) ;;
    assert (is_some (st_closeRequest s)) ;;
    modify (set_st_inFlightClose (st_closeRequest s)) ;;
    modify (set_st_closeRequest None) ;;
    DequeueValue ;;
    q ← gets ct_queue; assert (bool_decide (q = [])) ;;
    call_sink SinkClose WaitClose ;;
    WritableStreamDefaultControllerClearAlgorithms
  | Chunk c =>
    assert (negb (is_some (st_inFlightWrite s))) ;;
    assert (bool_decide (st_writeRequests s <> [])) ;;
    modify (set_st_inFlightWrite (head (st_writeRequests s))) ;;
    modify (set_st_writeRequests (tail (st_writeRequests s))) ;;
    call_sink (SinkWrite c) WaitWrite
  end.

(** The handlers of the sink's promises. *)
Definition on_start_fulfilled : WM unit :=
  s ← gets id;
  assert (state_is [Writable; Erroring] s) ;;
  modify (set_ct_started true) ;;
  WritableStreamDefaultControllerAdvanceQueueIfNeeded.

Definition on_start_rejected (r : reason) : WM unit :=
  s ← gets id;
  assert (state_is [Writable; Erroring] s) ;;
  modify (set_ct_started true) ;;
  WritableStreamDealWithRejection r.

Definition resolve_in_flight (get : wstream -> option pid) (v : settlement) : WM unit :=
  s ← gets id;
  assert (is_some (get s)) ;;
  match get s with Some p => settle_promise p v | None => mret tt end.

Definition on_close_fulfilled : WM unit :=
  resolve_in_flight st_inFlightClose Fulfilled ;;
  modify (set_st_inFlightClose None) ;;
  s ← gets id;
  assert (state_is [Writable; Erroring] s) ;;
  (if state_is [Erroring] s then
     modify (set_st_storedError Undefined) ;;
     match st_pendingAbort s with
     | Some a => settle_promise (ar_promise a) Fulfilled ;; modify (set_st_pendingAbort None)
     | None => mret tt
     end
   else mret tt) ;;
  modify (set_st_state Closed) ;;
  for_writer defaultWriterClosedPromiseResolve ;;
  s ← gets id;
  assert (negb (is_some (st_pendingAbort s))) ;;
  assert (bool_decide (st_storedError s = Undefined)).

Definition on_close_rejected (r : reason) : WM unit :=
  resolve_in_flight st_inFlightClose (Rejected r) ;;
  modify (set_st_inFlightClose None) ;;
  s ← gets id;
  assert (state_is [Writable; Erroring] s) ;;
  match st_pendingAbort s with
  | Some a => settle_promise (ar_promise a) (Rejected r) ;; modify (set_st_pendingAbort None)
  | None => mret tt
  end ;;
  WritableStreamDealWithRejection r.

Definition on_write_fulfilled : WM unit :=
  resolve_in_flight st_inFlightWrite Fulfilled ;;
  modify (set_st_inFlightWrite None) ;;
  s ← gets id;
  assert (state_is [Writable; Erroring] s) ;;
  DequeueValue ;;
  s' ← gets id;
  (if negb (WritableStreamCloseQueuedOrInFlight s') && state_is [Writable] s
   then WritableStreamUpdateBackpressure (WritableStreamDefaultControllerGetBackpressure s')
   else mret tt) ;;
  WritableStreamDefaultControllerAdvanceQueueIfNeeded.

(** The rejection handler names its parameter [reason] and uses [error],
    which is not defined: evaluating the argument of [_reject] throws. *)
Definition on_write_rejected (r : reason) : WM unit :=
  s ← gets id;
  (if state_is [Writable] s then WritableStreamDefaultControllerClearAlgorithms else mret tt) ;;
  assert (is_some (st_inFlightWrite s)) ;;
  throw ErrReferenceError "error is not defined".

Definition on_abort_fulfilled (a : abort_request) : WM unit :=
  settle_promise (ar_promise a) Fulfilled ;; WritableStreamRejectCloseAndClosedPromiseIfNeeded.
Definition on_abort_rejected (a : abort_request) (r : reason) : WM unit :=
  settle_promise (ar_promise a) (Rejected r) ;; WritableStreamRejectCloseAndClosedPromiseIfNeeded.

(* ------------------------------------------------------------------ *)
(** ** The interface *)

(** [WritableStreamDefaultController.prototype.error] *)
Definition controller_error (e : reason) : WM unit :=
  s ← gets id;
  if negb (state_is [Writable] s) then mret tt else WritableStreamDefaultControllerError e.

(** [listeners]: what the listeners of the abort signal report to
    [controller.error] when the signal fires. *)
Definition WritableStreamAbort (r : reason) (listeners : list reason) : WM pid :=
  s ← gets id;
  if state_is [Closed; Errored] s then promiseResolvedWith else
  modify (set_ct_abortReason (Some r)) ;;
  mapM controller_error listeners ;;
  s ← gets id;
  if state_is [Closed; Errored] s then promiseResolvedWith else
  match st_pendingAbort s with
  | Some a => mret (ar_promise a)
  | None =>
    assert (state_is [Writable; Erroring] s) ;;
    let wasAlreadyErroring := state_is [Erroring] s in
    let r := if wasAlreadyErroring then Undefined else r in
    p ← new_promise;
    modify (set_st_pendingAbort (Some (AbortReq p r wasAlreadyErroring))) ;;
    (if negb wasAlreadyErroring then WritableStreamStartErroring r else mret tt) ;;
    mret p
  end.

Definition WritableStreamClose : WM pid :=
  s ← gets id;
  if state_is [Closed; Errored] s
  then promiseRejectedWith (type_error "The stream is not in the writable state and cannot be closed") else
  assert (state_is [Writable; Erroring] s) ;;
  assert (negb (WritableStreamCloseQueuedOrInFlight s)) ;;
  p ← new_promise;
  modify (set_st_closeRequest (Some p)) ;;
  for_writer (fun w =>
    if st_backpressure s && state_is [Writable] s then defaultWriterReadyPromiseResolve w else mret tt) ;;
  EnqueueValueWithSize CloseSentinel (Fin 0) ;;
  WritableStreamDefaultControllerAdvanceQueueIfNeeded ;;
  mret p.

Definition IsWritableStreamLocked (s : wstream) : bool := is_some (st_writer s).

Definition stream_abort (r : reason) (listeners : list reason) : WM pid :=
  s ← gets id;
  if IsWritableStreamLocked s then promiseRejectedWith (type_error "Cannot abort a stream that already has a writer")
  else WritableStreamAbort r listeners.

Definition stream_close : WM pid :=
  s ← gets id;
  if IsWritableStreamLocked s then promiseRejectedWith (type_error "Cannot close a stream that already has a writer")
  else if WritableStreamCloseQueuedOrInFlight s then promiseRejectedWith (type_error "Cannot close an already-closing stream")
  else WritableStreamClose.

(** A writer before its constructor has run. *)
Definition blank_writer : writer := Writer true (WP 0 WpResolved false) (WP 0 WpResolved false).

Definition new_WritableStreamDefaultWriter : WM nat :=
  s ← gets id;
  if IsWritableStreamLocked s
  then throw ErrTypeError "This stream has already been locked for exclusive writing by another writer" else
  let w := length (writers s) in
  modify (fun s => set_writers (writers s ++ [blank_writer]) s) ;;
  modify (set_st_writer (Some w)) ;;
  match st_state s with
  | Writable =>
    (if negb (WritableStreamCloseQueuedOrInFlight s) && st_backpressure s
     then defaultWriterReadyPromiseInitialize w else defaultWriterReadyPromiseInitializeAsResolved w) ;;
    defaultWriterClosedPromiseInitialize w
  | Erroring =>
    defaultWriterReadyPromiseInitializeAsRejected w (st_storedError s) ;;
    defaultWriterClosedPromiseInitialize w
  | Closed =>
    defaultWriterReadyPromiseInitializeAsResolved w ;;
    defaultWriterClosedPromiseInitialize w ;; defaultWriterClosedPromiseResolve w
  | Errored =>
    defaultWriterReadyPromiseInitializeAsRejected w (st_storedError s) ;;
    defaultWriterClosedPromiseInitializeAsRejected w (st_storedError s)
  end ;;
  mret w.

Definition lock_error (name : string) : reason := type_error ("Cannot " ++ name ++ " a stream using a released writer").

Definition writer_desiredSize (w : nat) : WM (option jsnum) :=
  r ← the_writer w;
  if negb (w_owner r) then throw ErrTypeError "Cannot desiredSize a stream using a released writer" else
  s ← gets id;
  mret (if state_is [Errored; Erroring] s then None
        else if state_is [Closed] s then Some (Fin 0)
        else Some (WritableStreamDefaultControllerGetDesiredSize s)).

Definition writer_abort (w : nat) (r : reason) (listeners : list reason) : WM pid :=
  wr ← the_writer w;
  if negb (w_owner wr) then promiseRejectedWith (lock_error "abort") else WritableStreamAbort r listeners.

Definition writer_close (w : nat) : WM pid :=
  wr ← the_writer w;
  if negb (w_owner wr) then promiseRejectedWith (lock_error "close") else
  s ← gets id;
  if WritableStreamCloseQueuedOrInFlight s then promiseRejectedWith (type_error "Cannot close an already-closing stream")
  else WritableStreamClose.

Definition released_error : reason :=
  type_error "Writer was released and can no longer be used to monitor the stream's closedness".

Definition WritableStreamDefaultWriterRelease (w : nat) : WM unit :=
  s ← gets id;
  assert (bool_decide (st_writer s = Some w)) ;;
  WritableStreamDefaultWriterEnsureReadyPromiseRejected w released_error ;;
  r ← the_writer w;
  (if bool_decide (wp_flag (w_closed r) = WpPending) then defaultWriterClosedPromiseReject w released_error
   else assert (negb (wp_resolvers (w_closed r))) ;; defaultWriterClosedPromiseInitializeAsRejected w released_error) ;;
  modify (set_st_writer None) ;;
  r ← the_writer w;
  set_writer w (Writer false (w_ready r) (w_closed r)).

Definition writer_releaseLock (w : nat) : WM unit :=
  r ← the_writer w;
  if negb (w_owner r) then mret tt else
  s ← gets id;
  assert (is_some (st_writer s)) ;;
  WritableStreamDefaultWriterRelease w.

(** The rest of [WritableStreamDefaultWriterWrite], once the chunk has a
    size.  The result of a write is a promise, or [undefined]. *)
Definition write_sized (w : nat) (chunk : Z) (chunkSize : jsnum) : WM (option pid) :=
  r ← the_writer w;
  if negb (w_owner r) then Some <$> promiseRejectedWith (lock_error "write to") else
  s ← gets id;
  if state_is [Errored] s then Some <$> promiseRejectedWith (st_storedError s) else
  if WritableStreamCloseQueuedOrInFlight s || state_is [Closed] s
  then Some <$> promiseRejectedWith (type_error "The stream is closing or closed and cannot be written to") else
  if state_is [Erroring] s then Some <$> promiseRejectedWith (st_storedError s) else
  assert (state_is [Writable] s) ;;
  assert (IsWritableStreamLocked s) ;;
  p ← new_promise;
  modify (fun s => set_st_writeRequests (st_writeRequests s ++ [p]) s) ;;
  ok ← try (EnqueueValueWithSize (Chunk chunk) chunkSize ;; mret true)
           (fun e => WritableStreamDefaultControllerErrorIfNeeded e ;; mret false);
  if negb (ok : bool) then mret None else
  s ← gets id;
  (if negb (WritableStreamCloseQueuedOrInFlight s) && state_is [Writable] s
   then WritableStreamUpdateBackpressure (WritableStreamDefaultControllerGetBackpressure s) else mret tt) ;;
  WritableStreamDefaultControllerAdvanceQueueIfNeeded ;;
  mret (Some p).

Definition WritableStreamDefaultWriterWrite (w : nat) (chunk : Z) : WM (option pid) :=
  r ← the_writer w;
  if negb (w_owner r) then Some <$> promiseRejectedWith (lock_error "write to") else
  s ← gets id;
  if negb (ct_algorithms s) then Some <$> promiseRejectedWith (st_storedError s) else
  match strategySize chunk with
  | inl z => write_sized w chunk z
  | inr e => WritableStreamDefaultControllerErrorIfNeeded e ;; write_sized w chunk (Fin 1)
  end.

Definition writer_write (w : nat) (chunk : Z) : WM (option pid) :=
  r ← the_writer w;
  if negb (w_owner r) then Some <$> promiseRejectedWith (lock_error "write to")
  else WritableStreamDefaultWriterWrite w chunk.

(* ------------------------------------------------------------------ *)
(** ** Construction *)

Definition InitializeWritableStream : wstream :=
  WStream Writable Undefined None [] None None None None false [] 0 false false None [] [] [] [].

Definition SetUpWritableStreamDefaultController : WM unit :=
  ResetQueue ;;
  modify (set_ct_abortReason None) ;;
  modify (set_ct_started false) ;;
  modify (set_ct_algorithms true) ;;
  s ← gets id;
  WritableStreamUpdateBackpressure (WritableStreamDefaultControllerGetBackpressure s) ;;
  call_sink SinkStart WaitStart.

Definition new_stream : wstream := (SetUpWritableStreamDefaultController InitializeWritableStream).2.

(* ------------------------------------------------------------------ *)
(** ** Events *)

(** What can happen to a stream between two turns of the event loop: a
    call of its interface, or the settlement of the sink promise at a
    position of [awaited] ([None]: fulfilled). *)
Inductive event :=
| EvGetWriter | EvAbort (r : reason) (listeners : list reason) | EvClose
| EvWriterAbort (w : nat) (r : reason) (listeners : list reason) | EvWriterClose (w : nat)
| EvRelease (w : nat) | EvWrite (w : nat) (chunk : Z) | EvDesiredSize (w : nat)
| EvError (r : reason)
| EvSettle (i : nat) (res : option reason).

Definition ignore {A} (m : WM A) : WM unit := m ;; mret tt.

Definition on_settled (k : wait) (res : option reason) : WM unit :=
  match k, res with
  | WaitStart, None => on_start_fulfilled
  | WaitStart, Some r => on_start_rejected r
  | WaitWrite, None => on_write_fulfilled
  | WaitWrite, Some r => on_write_rejected r
  | WaitClose, None => on_close_fulfilled
  | WaitClose, Some r => on_close_rejected r
  | WaitAbort a, None => on_abort_fulfilled a
  | WaitAbort a, Some r => on_abort_rejected a r
  end.

Definition run_event (e : event) : WM unit :=
  match e with
  | EvGetWriter => ignore new_WritableStreamDefaultWriter
  | EvAbort r ls => ignore (stream_abort r ls)
  | EvClose => ignore stream_close
  | EvWriterAbort w r ls => ignore (writer_abort w r ls)
  | EvWriterClose w => ignore (writer_close w)
  | EvRelease w => writer_releaseLock w
  | EvWrite w c => ignore (writer_write w c)
  | EvDesiredSize w => ignore (writer_desiredSize w)
  | EvError r => controller_error r
  | EvSettle i res =>
    s ← gets id;
    match awaited s !! i with
    | Some k => modify (set_awaited (delete i (awaited s))) ;; on_settled k res
    | None => mret tt
    end
  end.

(** The state after a sequence of events; an exception of one event
    reaches its caller, or is swallowed by the promise machinery, and the
    stream goes on from the state as mutated. *)
Definition run (es : list event) (s : wstream) : wstream := foldl (fun s e => (run_event e s).2) s es.
End Stream.

(** [ExtractHighWaterMark(strategy, defaultHWM)] *)
Definition ExtractHighWaterMark (highWaterMark : option jsnum) (defaultHWM : jsnum) : outcome jsnum :=
  match highWaterMark with
  | None => Ok defaultHWM
  | Some v => if IsNonNegativeNumber v then Ok v else Throw ErrRangeError "Invalid highWaterMark"
  end.

(** The constructor: [type] of the sink must be absent. *)
Definition new_WritableStream (has_type : bool) (highWaterMark : option jsnum) : outcome (jsnum * wstream) :=
  if has_type then Throw ErrRangeError "Invalid type is specified" else
  hwm ← ExtractHighWaterMark highWaterMark (Fin 1);
  match SetUpWritableStreamDefaultController hwm InitializeWritableStream with
  | (Ok _, s) => Ok (hwm, s)
  | (Throw c e, _) => Throw c e
  end.
