(* ===== verification/WritableStreamWriters.v ===== *)
(** * The writers of the writable stream

    What the promise operations of a writer change, and how the ready
    promise of the current writer follows the stream. *)

From S2P Require Import Prelude StreamBase WritableStream.
Open Scope Z_scope.

(* ------------------------------------------------------------------ *)
(** ** The writers *)

(** Resolvers are there exactly while the promise is pending. *)
Definition wp_ok (p : wpromise) : Prop := wp_resolvers p = bool_decide (wp_flag p = WpPending).

Definition writer_ok (cur : option nat) (w : nat) (r : writer) : Prop :=
  w_owner r = bool_decide (cur = Some w) /\ wp_ok (w_ready r) /\ wp_ok (w_closed r).

Definition writers_ok (ws : list writer) (cur : option nat) : Prop :=
  (forall w r, ws !! w = Some r -> writer_ok cur w r) /\ (forall w, cur = Some w -> is_Some (ws !! w)).

(** [f] on writer [w] changes only that writer and the promises. *)
Definition writer_effect (m : SM wstream unit) (w : nat) (s : wstream) (f : writer -> Prop) : Prop :=
  exists r' t, m s = (Ok tt, set_promises t (set_writers (<[w := r']> (writers s)) s)) /\ f r'.

(** Nothing but writers and promises differ. *)
Lemma set_promises_id s t : set_promises t s = set_promises t (set_writers (writers s) s).
Proof. by destruct s. Qed.

Lemma set_writers_twice s ws ws' t t' :
  set_promises t' (set_writers ws' (set_promises t (set_writers ws s))) = set_promises t' (set_writers ws' s).
Proof. done. Qed.

Lemma the_writer_ok s w r : writers s !! w = Some r -> the_writer w s = (Ok r, s).
Proof. intros Hw. unfold the_writer. by rewrite Hw. Qed.

Lemma writers_ok_insert ws cur w r : writers_ok ws cur -> is_Some (ws !! w) -> writer_ok cur w r ->
  writers_ok (<[w := r]> ws) cur.
Proof.
  intros [Hw Hc] Hs Hr. split.
  - intros w' r'. destruct (decide (w = w')) as [<-|].
    + rewrite list_lookup_insert_eq by (by apply lookup_lt_is_Some). by intros [= <-].
    + rewrite list_lookup_insert_ne by done. apply Hw.
  - intros w' Hw'. apply lookup_lt_is_Some. rewrite length_insert. by apply lookup_lt_is_Some, Hc.
Qed.

Ltac wrun := repeat first
  [ progress unfold mret, sm_ret
  | rewrite gets_bind | rewrite modify_bind
  | erewrite bind_ok by (apply the_writer_ok; eassumption) ].

Section Writers.
Implicit Types (s : wstream) (w : nat) (r : writer).

Lemma ready_reject_ok s w r e : writers s !! w = Some r ->
  writer_effect (defaultWriterReadyPromiseReject w e) w s (fun r' =>
    w_owner r' = w_owner r /\ w_closed r' = w_closed r /\
    (if wp_resolvers (w_ready r) then w_ready r' = WP (wp_id (w_ready r)) WpRejected false else w_ready r' = w_ready r)).
Proof.
  intros Hw. unfold writer_effect, defaultWriterReadyPromiseReject. wrun.
  destruct (wp_resolvers (w_ready r)) eqn:E; cbn [negb].
  - unfold settle_promise, set_writer. wrun. eexists _, _. split; [reflexivity|]. done.
  - exists r, (promises s). rewrite list_insert_id by done. by destruct s.
Qed.

Lemma ready_resolve_ok s w r : writers s !! w = Some r ->
  writer_effect (defaultWriterReadyPromiseResolve w) w s (fun r' =>
    w_owner r' = w_owner r /\ w_closed r' = w_closed r /\
    (if wp_resolvers (w_ready r) then w_ready r' = WP (wp_id (w_ready r)) WpResolved false else w_ready r' = w_ready r)).
Proof.
  intros Hw. unfold writer_effect, defaultWriterReadyPromiseResolve. wrun.
  destruct (wp_resolvers (w_ready r)) eqn:E; cbn [negb].
  - unfold settle_promise, set_writer. wrun. eexists _, _. split; [reflexivity|]. done.
  - exists r, (promises s). rewrite list_insert_id by done. by destruct s.
Qed.

Lemma ready_init_ok s w r : writers s !! w = Some r ->
  writer_effect (defaultWriterReadyPromiseInitialize w) w s (fun r' =>
    r' = with_ready (WP (length (promises s)) WpPending true) r).
Proof.
  intros Hw. unfold writer_effect, defaultWriterReadyPromiseInitialize, new_promise.
  unfold mbind, sm_bind, the_writer. cbn [writers set_promises]. rewrite Hw. eexists _, _. split; [reflexivity|]. done.
Qed.

Lemma closed_init_ok s w r : writers s !! w = Some r ->
  writer_effect (defaultWriterClosedPromiseInitialize w) w s (fun r' =>
    r' = with_closed (WP (length (promises s)) WpPending true) r).
Proof.
  intros Hw. unfold writer_effect, defaultWriterClosedPromiseInitialize, new_promise.
  unfold mbind, sm_bind, the_writer. cbn [writers set_promises]. rewrite Hw. eexists _, _. split; [reflexivity|]. done.
Qed.

Lemma closed_reject_ok s w r e : writers s !! w = Some r -> wp_ok (w_closed r) ->
  writer_effect (defaultWriterClosedPromiseReject w e) w s (fun r' =>
    w_owner r' = w_owner r /\ w_ready r' = w_ready r /\ wp_ok (w_closed r') /\ wp_flag (w_closed r') <> WpPending).
Proof.
  intros Hw Hok. unfold writer_effect, defaultWriterClosedPromiseReject. wrun. unfold wp_ok in Hok.
  destruct (wp_resolvers (w_closed r)) eqn:E; cbn [negb].
  - rewrite <-Hok. rewrite assert_bind by done. unfold settle_promise, set_writer. wrun. eexists _, _. split; [reflexivity|]. done.
  - exists r, (promises s). rewrite list_insert_id by done. split_and!; try by destruct s.
    + unfold wp_ok. by rewrite E.
    + symmetry in Hok. by apply bool_decide_eq_false in Hok.
Qed.

Lemma closed_resolve_ok s w r : writers s !! w = Some r -> wp_ok (w_closed r) ->
  writer_effect (defaultWriterClosedPromiseResolve w) w s (fun r' =>
    w_owner r' = w_owner r /\ w_ready r' = w_ready r /\ wp_ok (w_closed r') /\ wp_flag (w_closed r') <> WpPending).
Proof.
  intros Hw Hok. unfold writer_effect, defaultWriterClosedPromiseResolve. wrun. unfold wp_ok in Hok.
  destruct (wp_resolvers (w_closed r)) eqn:E; cbn [negb].
  - rewrite <-Hok. rewrite assert_bind by done. unfold settle_promise, set_writer. wrun. eexists _, _. split; [reflexivity|]. done.
  - exists r, (promises s). rewrite list_insert_id by done. split_and!; try by destruct s.
    + unfold wp_ok. by rewrite E.
    + symmetry in Hok. by apply bool_decide_eq_false in Hok.
Qed.

(** Two effects on the same writer, one after the other. *)
Lemma writer_effect_seq (m1 m2 : SM wstream unit) w s (P Q : writer -> Prop) :
  is_Some (writers s !! w) -> writer_effect m1 w s P ->
  (forall s' r', writers s' !! w = Some r' -> P r' -> writer_effect m2 w s' Q) ->
  writer_effect (m1 ;; m2) w s Q.
Proof.
  intros Hs (r1 & t1 & H1 & HP) H2.
  destruct (H2 (set_promises t1 (set_writers (<[w := r1]> (writers s)) s)) r1) as (r2 & t2 & Hm2 & HQ); [|done|].
  { cbn. by rewrite list_lookup_insert_eq by (by apply lookup_lt_is_Some). }
  exists r2, t2. split; [|done]. erewrite bind_ok by exact H1. rewrite Hm2. cbn [writers set_promises set_writers].
  by rewrite list_insert_insert_eq.
Qed.

Lemma effect_weaken (m : SM wstream unit) w s (P Q : writer -> Prop) :
  writer_effect m w s P -> (forall r, P r -> Q r) -> writer_effect m w s Q.
Proof. intros (r & t & Hm & HP) HPQ. exists r, t. auto. Qed.

Lemma ready_init_rejected_ok s w r e : writers s !! w = Some r ->
  writer_effect (defaultWriterReadyPromiseInitializeAsRejected w e) w s (fun r' =>
    w_owner r' = w_owner r /\ w_closed r' = w_closed r /\ wp_ok (w_ready r') /\ wp_flag (w_ready r') <> WpPending).
Proof.
  intros Hw. eapply writer_effect_seq; [by eexists|by apply ready_init_ok|].
  intros s' r' Hw' ->. eapply effect_weaken; [by apply ready_reject_ok|]. cbn. intros r2 (-> & -> & ->). done.
Qed.

Lemma ready_init_resolved_ok s w r : writers s !! w = Some r ->
  writer_effect (defaultWriterReadyPromiseInitializeAsResolved w) w s (fun r' =>
    w_owner r' = w_owner r /\ w_closed r' = w_closed r /\ wp_ok (w_ready r') /\ wp_flag (w_ready r') <> WpPending).
Proof.
  intros Hw. eapply writer_effect_seq; [by eexists|by apply ready_init_ok|].
  intros s' r' Hw' ->. eapply effect_weaken; [by apply ready_resolve_ok|]. cbn. intros r2 (-> & -> & ->). done.
Qed.

Lemma closed_init_rejected_ok s w r e : writers s !! w = Some r ->
  writer_effect (defaultWriterClosedPromiseInitializeAsRejected w e) w s (fun r' =>
    w_owner r' = w_owner r /\ w_ready r' = w_ready r /\ wp_ok (w_closed r') /\ wp_flag (w_closed r') <> WpPending).
Proof.
  intros Hw. eapply writer_effect_seq; [by eexists|by apply closed_init_ok|].
  intros s' r' Hw' ->. eapply effect_weaken; [by apply closed_reject_ok|]. by cbn.
Qed.

Lemma ensure_rejected_ok s w r e : writers s !! w = Some r -> wp_ok (w_ready r) ->
  writer_effect (WritableStreamDefaultWriterEnsureReadyPromiseRejected w e) w s (fun r' =>
    w_owner r' = w_owner r /\ w_closed r' = w_closed r /\ wp_ok (w_ready r') /\ wp_flag (w_ready r') <> WpPending).
Proof.
  intros Hw Hok. unfold WritableStreamDefaultWriterEnsureReadyPromiseRejected, writer_effect. wrun.
  unfold wp_ok in Hok. case_bool_decide as E.
  - eapply effect_weaken; [by apply ready_reject_ok|]. cbn. intros r2. rewrite Hok. by intros (-> & -> & ->).
  - rewrite assert_bind by (by rewrite Hok). by apply ready_init_rejected_ok.
Qed.
End Writers.

(* ------------------------------------------------------------------ *)
(** ** The current writer *)

(** The writers are well-formed, and the ready promise of the current one
    stands as [link] says: pending or not. *)
Definition wr (ws : list writer) (cur : option nat) (link : option bool) : Prop :=
  writers_ok ws cur /\
  match link with
  | Some b => forall w r, cur = Some w -> ws !! w = Some r -> wp_flag (w_ready r) = WpPending <-> b = true
  | None => True
  end.

Definition closing (s : wstream) : bool := WritableStreamCloseQueuedOrInFlight s.
Definition link_of (s : wstream) : option bool :=
  match st_state s with
  | Writable => if closing s then None else Some (st_backpressure s)
  | _ => None
  end.
Definition Wr (s : wstream) : Prop := wr (writers s) (st_writer s) (link_of s).

Lemma wr_weaken ws cur l : wr ws cur l -> wr ws cur None.
Proof. by intros [? _]. Qed.

(** [m] changes only writers and promises, and leaves the writers as [l] says. *)
Definition w_only (m : SM wstream unit) (s : wstream) (l : option bool) : Prop :=
  exists ws t, m s = (Ok tt, set_promises t (set_writers ws s)) /\ wr ws (st_writer s) l.

Lemma w_only_skip s l : wr (writers s) (st_writer s) l -> w_only (mret tt) s l.
Proof. intros H. exists (writers s), (promises s). split; [by destruct s|done]. Qed.

Lemma for_writer_ok f s l l' :
  wr (writers s) (st_writer s) l ->
  (forall w r, st_writer s = Some w -> writers s !! w = Some r -> writer_ok (Some w) w r ->
     (forall b, l = Some b -> wp_flag (w_ready r) = WpPending <-> b = true) ->
     writer_effect (f w) w s (fun r' => w_owner r' = w_owner r /\ wp_ok (w_ready r') /\ wp_ok (w_closed r') /\
       forall b, l' = Some b -> wp_flag (w_ready r') = WpPending <-> b = true)) ->
  w_only (for_writer f) s l'.
Proof.
  intros [[Hws Hcur] Hl] Hf. unfold w_only, for_writer. rewrite gets_bind.
  destruct (st_writer s) as [w|] eqn:Ew.
  - destruct (Hcur w eq_refl) as [r Hr]. pose proof (Hws _ _ Hr) as Hok.
    destruct (Hf w r eq_refl Hr Hok) as (r' & t & Hm & Ho & Hr1 & Hr2 & Hl').
    { destruct l as [b|]; [|done]. intros b0 [= <-]. exact (Hl _ _ eq_refl Hr). }
    exists (<[w := r']> (writers s)), t. split; [exact Hm|]. split.
    + apply writers_ok_insert; [done|by eexists|]. destruct Hok as (Ho' & _ & _). split_and!; [by rewrite Ho|done|done].
    + destruct l' as [b|]; [|done]. intros w' r1 [= <-]. rewrite list_lookup_insert_eq by (exact (lookup_lt_Some _ _ _ Hr)).
      intros [= <-]. by apply Hl'.
  - exists (writers s), (promises s). split; [by destruct s|]. split; [done|]. destruct l'; [|done]. by intros ?? [=].
Qed.

Section ForWriter.
Implicit Types (s : wstream) (l : option bool).

Lemma for_ready_resolve s l : wr (writers s) (st_writer s) l ->
  w_only (for_writer defaultWriterReadyPromiseResolve) s (Some false).
Proof.
  intros H. eapply for_writer_ok; [exact H|]. intros w r _ Hr (_ & Hok & Hc) _.
  eapply effect_weaken; [by apply ready_resolve_ok|]. cbn. intros r'. unfold wp_ok in *.
  destruct (wp_resolvers (w_ready r)) eqn:E; intros (-> & -> & ->); split_and!; try done.
  - intros b [= <-]. done.
  - by rewrite E.
  - intros b [= <-]. by symmetry in Hok; apply bool_decide_eq_false in Hok.
Qed.

Lemma for_ensure_rejected s l e : wr (writers s) (st_writer s) l ->
  w_only (for_writer (fun w => WritableStreamDefaultWriterEnsureReadyPromiseRejected w e)) s None.
Proof.
  intros H. eapply for_writer_ok; [exact H|]. intros w r _ Hr (_ & Hok & Hc) _.
  eapply effect_weaken; [by apply ensure_rejected_ok|]. cbn. intros r' (-> & -> & ? & ?). by split_and!.
Qed.

Lemma for_closed_reject s l e : wr (writers s) (st_writer s) l ->
  w_only (for_writer (fun w => defaultWriterClosedPromiseReject w e)) s l.
Proof.
  intros H. eapply for_writer_ok; [exact H|]. intros w r _ Hr (_ & Hok & Hc) Hl.
  eapply effect_weaken; [by apply closed_reject_ok|]. cbn. intros r' (-> & -> & ? & ?). by split_and!.
Qed.

Lemma for_closed_resolve s l : wr (writers s) (st_writer s) l ->
  w_only (for_writer defaultWriterClosedPromiseResolve) s l.
Proof.
  intros H. eapply for_writer_ok; [exact H|]. intros w r _ Hr (_ & Hok & Hc) Hl.
  eapply effect_weaken; [by apply closed_resolve_ok|]. cbn. intros r' (-> & -> & ? & ?). by split_and!.
Qed.

(** The body of [WritableStreamUpdateBackpressure]. *)
Lemma update_backpressure_ok s b : st_state s = Writable -> closing s = false -> Wr s ->
  exists ws t, WritableStreamUpdateBackpressure b s =
    (Ok tt, set_st_backpressure b (set_promises t (set_writers ws s))) /\ wr ws (st_writer s) (Some b).
Proof.
  intros Hst Hcl Hw. unfold WritableStreamUpdateBackpressure. rewrite gets_bind. cbn [id].
  rewrite assert_bind by (unfold state_is; by rewrite Hst).
  unfold closing in Hcl. rewrite assert_bind by (by rewrite Hcl).
  unfold Wr, link_of in Hw. rewrite Hst in Hw. unfold closing in Hw. rewrite Hcl in Hw.
  case_bool_decide as Eb.
  - assert (w_only (for_writer (fun w => if b
       then r ← the_writer w; assert (negb (wp_resolvers (w_ready r))) ;; defaultWriterReadyPromiseInitialize w
       else defaultWriterReadyPromiseResolve w)) s (Some b)) as (ws & t & Hm & Hws).
    { destruct b; [|by eapply for_ready_resolve].
      eapply for_writer_ok; [exact Hw|]. intros w r _ Hr (_ & Hok & Hc) Hl.
      assert (wp_resolvers (w_ready r) = false) as Hres.
      { rewrite Hok. apply bool_decide_eq_false. rewrite Hl by reflexivity. by destruct (st_backpressure s). }
      unfold writer_effect. wrun. rewrite assert_bind by (by rewrite Hres).
      eapply effect_weaken; [by apply ready_init_ok|]. cbn. intros r' ->. cbn. split_and!; try done.
      intros b [= <-]. done. }
    exists ws, t. split; [|done]. by erewrite bind_ok by exact Hm.
  - exists (writers s), (promises s). rewrite bind_ok with (a := tt) (s' := s) by done. split; [by destruct s|].
    destruct b, (st_backpressure s); done.
Qed.
End ForWriter.
