(* ===== verification/WritableStreamInv.v ===== *)
(** * The state machine of the writable stream

    The invariant of every reachable stream: which phase it is in, what
    the queue holds, what the sink has been given, how the current
    writer's promises stand.  Every event keeps it, no assertion of the
    code fails and no cleared algorithm is called. *)

From S2P Require Import Prelude StreamBase WritableStream WritableStreamWriters.
Open Scope Z_scope.

(** What a stream that is writable or erroring waits for: its start, a
    write, a close, nothing, or (after a failed write) nothing ever. *)
Inductive phase := Unstarted | Writing | Stuck | Closing | Ready.

#[export] Instance phase_eq_dec : EqDecision phase.
Proof. solve_decision. Defined.

Definition in_phase (ph : phase) (s : wstream) : Prop :=
  match ph with
  | Unstarted => ct_started s = false /\ awaited s = [WaitStart] /\ st_inFlightWrite s = None /\ st_inFlightClose s = None
  | Writing => ct_started s = true /\ awaited s = [WaitWrite] /\ is_some (st_inFlightWrite s) = true /\ st_inFlightClose s = None
  | Stuck => ct_started s = true /\ awaited s = [] /\ is_some (st_inFlightWrite s) = true /\ st_inFlightClose s = None
  | Closing => ct_started s = true /\ awaited s = [WaitClose] /\ st_inFlightWrite s = None /\
      is_some (st_inFlightClose s) = true /\ st_closeRequest s = None
  | Ready => ct_started s = true /\ awaited s = [] /\ st_inFlightWrite s = None /\ st_inFlightClose s = None
  end.

(** The sink was started, then given the chunks [w], then [tl]. *)
Definition given (s : wstream) (w : list Z) (tl : list sink_call) : Prop :=
  sink_calls s = SinkStart :: (SinkWrite <$> w) ++ tl.

Definition close_call (ph : phase) : list sink_call := if decide (ph = Closing) then [SinkClose] else [].

(** The chunks of a writable stream's queue, and the sentinel after them. *)
Definition queue_of (cs : list (Z * Z)) (closeRequested : bool) : list (qvalue * Z) :=
  ((fun p => (Chunk p.1, p.2)) <$> cs) ++ (if closeRequested then [(CloseSentinel, 0)] else []).

(** The chunks the sink has not been given. *)
Definition unsent (s : wstream) (cs : list (Z * Z)) : list Z :=
  drop (if is_some (st_inFlightWrite s) then 1 else 0) cs.*1.

Lemma busy_phase ph s : in_phase ph s -> ph <> Ready ->
  negb (is_some (st_inFlightWrite s) || is_some (st_inFlightClose s)) && ct_started s = false.
Proof.
  unfold in_phase. destruct ph, (ct_started s), (st_inFlightWrite s), (st_inFlightClose s); cbn; intuition congruence.
Qed.

Section Invariant.
Variables (hwm : jsnum).

Record writable_inv (hist : list Z) (ph : phase) (w : list Z) (cs : list (Z * Z)) (s : wstream) : Prop := {
  wi_error : st_storedError s = Undefined;
  wi_abort : st_pendingAbort s = None;
  wi_queue : ct_queue s = queue_of cs (is_some (st_closeRequest s));
  wi_sizes : Forall (fun p => 0 <= p.2) cs;
  wi_total : ct_total s = sizes (ct_queue s);
  wi_requests : length cs = (length (st_writeRequests s) + (if is_some (st_inFlightWrite s) then 1 else 0))%nat;
  wi_hist : hist = w ++ unsent s cs;
  wi_given : given s w (close_call ph);
  wi_closing : ph = Closing -> cs = [];
  wi_algorithms : ph <> Closing -> ph <> Stuck -> ct_algorithms s = true;
  wi_backpressure : closing s = false -> st_backpressure s = WritableStreamDefaultControllerGetBackpressure hwm s;
}.

(** What holds of a stream that stops: an abort that began the erroring
    keeps the abort algorithm, unless the close in flight or the failed
    write will answer for it. *)
Record erroring_inv (hist : list Z) (ph : phase) (w : list Z) (tl : list sink_call) (s : wstream) : Prop := {
  ei_abort : forall a, st_pendingAbort s = Some a -> ar_wasAlreadyErroring a = false ->
    ph = Closing \/ ph = Stuck \/ (ct_algorithms s = true /\ tl = []);
  ei_queue : ph = Writing -> ct_queue s <> [];
  ei_given : given s w tl;
  ei_prefix : w `prefix_of` hist;
  ei_tail : tl = [] \/ tl = [SinkClose] /\ w = hist;
  ei_closing : ph = Closing -> tl = [SinkClose] /\ ct_queue s = [] /\ st_writeRequests s = [];
}.

Record ended_inv (s : wstream) : Prop := {
  en_write : st_inFlightWrite s = None;
  en_close : st_inFlightClose s = None;
  en_abort : st_pendingAbort s = None;
  en_queue : ct_queue s = [];
  en_requests : st_writeRequests s = [];
}.

Definition errored_inv (hist : list Z) (s : wstream) : Prop :=
  ended_inv s /\ (awaited s = [] \/ exists a, awaited s = [WaitAbort a]) /\
  exists w tl, given s w tl /\ w `prefix_of` hist /\
    (tl = [] \/ (tl = [SinkClose] /\ w = hist) \/ exists r, tl = [SinkAbort r]).

Definition closed_inv (hist : list Z) (s : wstream) : Prop :=
  ended_inv s /\ awaited s = [] /\ st_closeRequest s = None /\ given s hist [SinkClose].

(** [hist] lists the chunks of the accepted writes. *)
Definition Inv (hist : list Z) (s : wstream) : Prop :=
  Wr s /\
  match st_state s with
  | Writable => exists ph w cs, in_phase ph s /\ writable_inv hist ph w cs s /\ (ph = Ready -> ct_queue s = [])
  | Erroring => exists ph w tl, ph <> Ready /\ in_phase ph s /\ erroring_inv hist ph w tl s
  | Errored => errored_inv hist s
  | Closed => closed_inv hist s
  end.
End Invariant.

(* ------------------------------------------------------------------ *)
(** ** Stepping through the code *)

Ltac proj f := repeat match goal with |- context [f ?s] => let v := eval cbn in (f s) in progress change (f s) with v end.
Ltac projs := proj st_state; proj st_storedError; proj st_writer; proj st_writeRequests; proj st_inFlightWrite;
  proj st_closeRequest; proj st_inFlightClose; proj st_pendingAbort; proj st_backpressure; proj ct_queue; proj ct_total;
  proj ct_started; proj ct_algorithms; proj writers; proj promises; proj sink_calls; proj awaited.
Ltac facts := repeat match goal with
  | H : ?f ?s = ?v |- context [?f ?s] => is_var s; lazymatch type of s with wstream => rewrite H end
  end.
Ltac flags := unfold state_is, WritableStreamCloseQueuedOrInFlight, WritableStreamHasOperationMarkedInFlight; projs; facts.
(** A test of the state, when the state is known. *)
Ltac known_state := match goal with |- context [state_is ?l ?s] =>
  let st := eval cbn in (st_state s) in
  let v := match goal with H : st = ?v |- _ => v | _ => st end in
  let b := eval vm_compute in (bool_decide (v ∈ l)) in
  match b with true => idtac | false => idtac end;
  replace (state_is l s) with b by (unfold state_is; projs; facts; reflexivity)
  end.
Ltac wstep := repeat (cbv beta iota; first
  [ rewrite bind_assoc | rewrite gets_bind | rewrite modify_bind | rewrite ret_bind
  | rewrite assert_bind by (flags; done)
  | known_state
  | progress (cbn [id negb is_some andb orb]) | progress (unfold ignore, settle_promise, set_writer, ResetQueue)
  | progress projs | progress facts ]).

Ltac state_tests := repeat match goal with
  | |- context [state_is ?l ?s] =>
    let b := fresh in assert (exists b, state_is l s = b) as [b ?] by (by eexists)
  end.

Ltac wr_exact H := unfold Wr, link_of, closing, WritableStreamCloseQueuedOrInFlight; projs; facts; cbn [orb is_some];
  first [exact H | exact (wr_weaken _ _ _ H)
  | revert H; unfold Wr, link_of, closing, WritableStreamCloseQueuedOrInFlight; projs; facts;
    cbn [orb is_some]; cbv iota; first [exact id | apply wr_weaken]].

(* ------------------------------------------------------------------ *)
(** ** Erroring *)

Section Erroring.
Variable (hwm : jsnum).
Implicit Types (s : wstream) (hist w : list Z) (tl : list sink_call).

Lemma reject_close_ok s l : st_state s = Errored -> st_inFlightClose s = None -> wr (writers s) (st_writer s) l ->
  exists ws t, WritableStreamRejectCloseAndClosedPromiseIfNeeded s =
    (Ok tt, set_promises t (set_writers ws (set_st_closeRequest None s))) /\ wr ws (st_writer s) l.
Proof.
  intros Hst Hc Hw. unfold WritableStreamRejectCloseAndClosedPromiseIfNeeded.
  wstep. destruct (st_closeRequest s) as [p|] eqn:E; wstep.
  - edestruct (for_closed_reject (set_st_closeRequest None (set_promises (settle p (Rejected (st_storedError s)) (promises s)) s)))
      as (ws & t & Hm & Hws); [exact Hw|]. rewrite Hm. eexists _, _. split; [reflexivity|done].
  - edestruct (for_closed_reject s) as (ws & t & Hm & Hws); [exact Hw|]. rewrite Hm. exists ws, t. split; [|done].
    f_equal. destruct s; cbn in *. by subst.
Qed.

Lemma finish_ok hist s w tl :
  st_state s = Erroring -> st_inFlightWrite s = None -> st_inFlightClose s = None -> awaited s = [] ->
  Wr s -> given s w tl -> w `prefix_of` hist -> (tl = [] \/ tl = [SinkClose] /\ w = hist) ->
  (forall a, st_pendingAbort s = Some a -> ar_wasAlreadyErroring a = false -> ct_algorithms s = true /\ tl = []) ->
  exists s', WritableStreamFinishErroring s = (Ok tt, s') /\ st_state s' = Errored /\ Inv hwm hist s'.
Proof.
  intros Hst Hw Hc Ha Hwr Hg Hp Htl Hab. unfold WritableStreamFinishErroring, reject_all.
  wstep. destruct (st_pendingAbort s) as [a|] eqn:Epa; wstep.
  - destruct (ar_wasAlreadyErroring a) eqn:Ew; wstep.
    + match goal with |- context [WritableStreamRejectCloseAndClosedPromiseIfNeeded ?s'] =>
        edestruct (reject_close_ok s') as (ws & t & Hm & Hws); [done|done|exact Hwr|rewrite Hm] end.
      eexists. split; [reflexivity|]. split; [done|]. split; [wr_exact Hws|]. projs; facts; cbv iota.
      split; [by constructor|]. split; [left;exact Ha|]. exists w, tl. split; [exact Hg|]. split; [exact Hp|]. destruct Htl; auto.
    + destruct (Hab a eq_refl Ew) as [Hal ->]. unfold call_sink. wstep.
      unfold WritableStreamDefaultControllerClearAlgorithms, modify. eexists. split; [reflexivity|]. split; [done|]. split; [wr_exact Hwr|]. projs; facts; cbv iota.
      split; [by constructor|]. split; [right; exists a; by rewrite ?Ha|]. exists w, [SinkAbort (ar_reason a)]. split; [|split; [exact Hp|right; right; by eexists]].
      unfold given. projs. rewrite Hg, app_nil_r. done.
  - match goal with |- context [WritableStreamRejectCloseAndClosedPromiseIfNeeded ?s'] =>
        edestruct (reject_close_ok s') as (ws & t & Hm & Hws); [done|done|exact Hwr|rewrite Hm] end.
      eexists. split; [reflexivity|]. split; [done|]. split; [wr_exact Hws|]. projs; facts; cbv iota.
      split; [by constructor|]. split; [left;exact Ha|]. exists w, tl. split; [exact Hg|]. split; [exact Hp|]. destruct Htl; auto.
Qed.

Lemma start_erroring_ok hist ph s w tl r l :
  st_state s = Writable -> st_storedError s = Undefined -> wr (writers s) (st_writer s) l ->
  in_phase ph s -> erroring_inv hist ph w tl s ->
  exists s', WritableStreamStartErroring r s = (Ok tt, s') /\ Inv hwm hist s' /\
    (st_state s' = Erroring \/ st_state s' = Errored).
Proof.
  intros Hst He Hw Hph [Hab Hq Hg Hp Htl Hcl]. unfold WritableStreamStartErroring. wstep.
  match goal with |- context [(for_writer ?f ≫= ?g) ?s'] =>
    destruct (for_ensure_rejected s' l r Hw) as (ws & t & Hm & Hws); rewrite (bind_ok _ g _ _ _ Hm) end.
  wstep. unfold WritableStreamHasOperationMarkedInFlight. projs.
  destruct (decide (ph = Ready)) as [->|Hn].
  - destruct Hph as (Hs & Ha & Hiw & Hic). rewrite Hs, Hiw, Hic. cbn [is_some orb negb andb].
    match goal with |- context [WritableStreamFinishErroring ?s'] =>
      destruct (finish_ok hist s' w tl) as (s2 & Hm2 & Hst2 & Hi); try done end.
    { intros a Ha1 Ha2. destruct (Hab a Ha1 Ha2) as [?|[?|?]]; done. }
    exists s2. auto.
  - rewrite (busy_phase _ _ Hph Hn). eexists. split; [reflexivity|]. split; [|by left].
    split; [wr_exact Hws|]. projs; facts; cbv iota. exists ph, w, tl. split; [done|]. split; [exact Hph|]. by constructor.
Qed.
End Erroring.

(* ------------------------------------------------------------------ *)
(** ** The queue moves on *)

Section Advance.
Variable (hwm : jsnum).
Implicit Types (s : wstream) (hist w : list Z) (tl : list sink_call).

(** What an advance gives a started stream with nothing in flight. *)
Definition advanced s s' : Prop :=
  ct_started s' = true /\ (length (ct_queue s') <= length (ct_queue s))%nat /\ (awaited s' = [] -> ct_queue s' = []).

Lemma advance_waits s ph : in_phase ph s -> ph = Unstarted \/ ph = Writing \/ ph = Stuck ->
  WritableStreamDefaultControllerAdvanceQueueIfNeeded s = (Ok tt, s).
Proof.
  intros Hph Hn. unfold WritableStreamDefaultControllerAdvanceQueueIfNeeded. rewrite gets_bind. cbn [id].
  revert Hph. unfold in_phase. destruct ph, (ct_started s), (st_inFlightWrite s); cbn; intuition congruence.
Qed.

Lemma peek_bind {B} (f : qvalue -> SM wstream B) s v z q : ct_queue s = (v, z) :: q ->
  (PeekQueueValue ≫= f) s = f v s.
Proof. intros Hq. apply bind_ok. unfold PeekQueueValue. rewrite gets_bind. by rewrite Hq. Qed.

Lemma dequeue_bind {B} (f : qvalue -> SM wstream B) s v z q : ct_queue s = (v, z) :: q ->
  (DequeueValue ≫= f) s =
  f v (set_ct_total (if ct_total s - z <? 0 then 0 else ct_total s - z) (set_ct_queue q s)).
Proof. intros Hq. apply bind_ok. unfold DequeueValue. rewrite gets_bind. by rewrite Hq. Qed.

(** The next chunk goes to the sink. *)
Lemma advance_chunk hist s w c z cs :
  st_state s = Writable -> Wr s -> in_phase Ready s -> writable_inv hwm hist Ready w ((c, z) :: cs) s ->
  exists s', WritableStreamDefaultControllerAdvanceQueueIfNeeded s = (Ok tt, s') /\ Inv hwm hist s' /\ st_state s' = Writable /\
    advanced s s'.
Proof.
  intros Hst Hw (Hs & Ha & Hiw & Hic) [He Hab Hq Hz Ht Hr Hh Hg Hcl Hal Hbp].
  assert (Hq' := Hq). cbn in Hq'. assert (Hal' := Hal ltac:(done) ltac:(done)). rewrite Hiw in Hr.
  destruct (st_writeRequests s) as [|p ps] eqn:Eps; [cbn in Hr; lia|].
  unfold WritableStreamDefaultControllerAdvanceQueueIfNeeded, call_sink. wstep.
  rewrite bool_decide_eq_false_2 by done. wstep. erewrite peek_bind by done. wstep.
  eexists. split; [reflexivity|]. split; [|split; [done|split; [exact Hs|split; [projs; facts; cbn; lia|projs; by rewrite ?Ha]]]].
  split; [wr_exact Hw|]. projs; facts; cbv iota.
  exists Writing, (w ++ [c]), ((c, z) :: cs). split; [by unfold in_phase; split_and!|]. split; [|done]. split; projs; try done.
  - cbn in *. lia.
  - rewrite Hh. unfold unsent. projs. rewrite Hiw. cbn. by rewrite drop_0, <-app_assoc.
  - unfold given in *. projs. rewrite Hg, fmap_app, !app_nil_r. done.
Qed.

(** The sink is closed. *)
Lemma advance_close hist s w p :
  st_state s = Writable -> Wr s -> in_phase Ready s -> writable_inv hwm hist Ready w [] s -> st_closeRequest s = Some p ->
  exists s', WritableStreamDefaultControllerAdvanceQueueIfNeeded s = (Ok tt, s') /\ Inv hwm hist s' /\ st_state s' = Writable /\
    advanced s s'.
Proof.
  intros Hst Hw (Hs & Ha & Hiw & Hic) [He Hab Hq Hz Ht Hr Hh Hg Hcl Hal Hbp] Hp.
  assert (Hq' := Hq). rewrite Hp in Hq'. cbn in Hq'. assert (Hal' := Hal ltac:(done) ltac:(done)).
  unfold WritableStreamDefaultControllerAdvanceQueueIfNeeded, call_sink. wstep.
  rewrite bool_decide_eq_false_2 by done. wstep. erewrite peek_bind by done. wstep.
  erewrite dequeue_bind by done. wstep.
  eexists. split; [reflexivity|]. split; [|split; [done|split; [exact Hs|split; [projs; facts; cbn; lia|projs; by rewrite ?Ha]]]].
  split; [wr_exact Hw|]. projs; facts; cbv iota.
  exists Closing, w, []. split; [by unfold in_phase; split_and!|]. split; [|done]. split; projs; try done.
  - unfold given in *. projs. rewrite Hg, app_nil_r. done.
Qed.

Lemma advance_ready hist s w cs :
  st_state s = Writable -> Wr s -> in_phase Ready s -> writable_inv hwm hist Ready w cs s ->
  exists s', WritableStreamDefaultControllerAdvanceQueueIfNeeded s = (Ok tt, s') /\ Inv hwm hist s' /\ st_state s' = Writable /\
    advanced s s'.
Proof.
  intros Hst Hw Hph Hi. destruct cs as [|[c z] cs]; [|by eapply advance_chunk].
  destruct (st_closeRequest s) as [p|] eqn:Ep; [by eapply advance_close|].
  assert (Hq := wi_queue _ _ _ _ _ _ Hi). rewrite Ep in Hq. cbn in Hq.
  exists s. assert (Hph' := Hph). destruct Hph' as (Hs & Ha & Hiw & Hic).
  split; [|split; [split; [done|rewrite Hst; by exists Ready, w, []]|split; [done|split; [done|split; [done|done]]]]].
  unfold WritableStreamDefaultControllerAdvanceQueueIfNeeded. wstep. by rewrite bool_decide_eq_true_2 by done.
Qed.

(** The advance from any phase but a close. *)
Lemma advance_ok hist ph s w cs : ph <> Closing ->
  st_state s = Writable -> Wr s -> in_phase ph s -> writable_inv hwm hist ph w cs s ->
  exists s', WritableStreamDefaultControllerAdvanceQueueIfNeeded s = (Ok tt, s') /\ Inv hwm hist s' /\ st_state s' = Writable /\
    (ph = Ready -> advanced s s').
Proof.
  intros Hn Hst Hw Hph Hi. destruct (decide (ph = Ready)) as [->|Hr].
  { destruct (advance_ready hist s w cs) as (s' & ? & ? & ? & ?); try done. by exists s'. }
  exists s. split; [eapply advance_waits; [exact Hph|destruct ph; auto; done]|]. split; [split; [done|]|done].
  rewrite Hst. by exists ph, w, cs.
Qed.

(** [WritableStreamUpdateBackpressure] unless closing, then the advance. *)
Lemma update_advance_ok hist ph s w cs : ph <> Closing ->
  st_state s = Writable -> Wr s -> in_phase ph s ->
  writable_inv hwm hist ph w cs (set_st_backpressure (WritableStreamDefaultControllerGetBackpressure hwm s) s) ->
  exists s', ((if negb (closing s)
     then WritableStreamUpdateBackpressure (WritableStreamDefaultControllerGetBackpressure hwm s) else mret tt) ;;
    WritableStreamDefaultControllerAdvanceQueueIfNeeded) s = (Ok tt, s') /\ Inv hwm hist s' /\ st_state s' = Writable /\
    (ph = Ready -> advanced s s').
Proof.
  intros Hn Hst Hw Hph Hi. destruct (closing s) eqn:Ec; cbn [negb].
  - rewrite ret_bind. eapply advance_ok; [done|done|done|done|]. destruct Hi. constructor; try done.
    by rewrite Ec.
  - destruct (update_backpressure_ok s (WritableStreamDefaultControllerGetBackpressure hwm s) Hst Ec Hw) as (ws & t & Hm & Hws).
    rewrite (bind_ok _ _ _ _ _ Hm).
    match goal with |- context [WritableStreamDefaultControllerAdvanceQueueIfNeeded ?s'] =>
      destruct (advance_ok hist ph s' w cs) as (s2 & ? & ? & ? & ?) end;
      [done|done| |done|by destruct Hi|by exists s2].
    unfold Wr, link_of. projs. rewrite Hst. unfold closing in *. revert Ec. unfold WritableStreamCloseQueuedOrInFlight. projs.
    by intros ->.
Qed.
End Advance.
