(* ===== verification/WritableStreamCalls.v ===== *)
(** * The writable stream's handlers and calls

    Each handler the writable stream installs on a promise of its sink keeps
    the invariant; only the handler of a rejected write throws.  Every method
    of the stream, its writer and its controller keeps it too; a write extends
    the accepted chunks when its promise is queued. *)

From S2P Require Import Prelude StreamBase WritableStream WritableStreamWriters WritableStreamInv.
Open Scope Z_scope.

Section Settle.
Variable (hwm : jsnum).
Implicit Types (s : wstream) (hist w : list Z) (tl : list sink_call).

(** A writable stream may start erroring in any phase. *)
Lemma writable_erroring hist ph w cs s s' :
  in_phase ph s -> writable_inv hwm hist ph w cs s ->
  st_pendingAbort s' = None -> sink_calls s' = sink_calls s -> ct_queue s' = ct_queue s -> st_writeRequests s' = st_writeRequests s ->
  erroring_inv hist ph w (close_call ph) s'.
Proof.
  intros Hph [He Hab Hq Hz Ht Hr Hh Hg Hcl Hal Hbp] Ha Hs Hq' Hr'. constructor.
  - intros a Ha'. by rewrite Ha in Ha'.
  - intros ->. rewrite Hq', Hq. destruct Hph as (_ & _ & Hiw & _). rewrite Hiw in Hr. destruct cs; [cbn in Hr; lia|done].
  - unfold given. by rewrite Hs.
  - subst. by eexists.
  - unfold close_call. case_decide as Hc; [|by left]. right. split; [done|].
    rewrite Hh, (Hcl Hc). unfold unsent. by rewrite fmap_nil, drop_nil, app_nil_r.
  - intros Hc. rewrite Hr', Hq', Hq. unfold close_call. rewrite decide_True by done. rewrite (Hcl Hc) in *. subst ph.
    destruct Hph as (_ & _ & Hiw & _ & ->). rewrite Hiw in Hr. destruct (st_writeRequests s); [done|cbn in Hr; lia].
Qed.

(** The phase a pending sink promise tells. *)
Definition awaiting (k : wait) (ph : phase) : Prop :=
  match k with WaitStart => ph = Unstarted | WaitWrite => ph = Writing | WaitClose => ph = Closing | WaitAbort _ => False end.

Lemma phase_awaiting k ph ph' s : in_phase ph' s -> awaited s = [k] -> awaiting k ph -> ph' = ph.
Proof. intros Hph Ha Hk. destruct ph', Hph as (_ & Ha' & _), k; cbn in Hk; congruence. Qed.

Lemma inv_awaits hist s k ph : Inv hwm hist s -> awaited s = [k] -> awaiting k ph ->
  (st_state s = Writable /\ exists w cs, in_phase ph s /\ writable_inv hwm hist ph w cs s) \/
  (st_state s = Erroring /\ exists w tl, in_phase ph s /\ erroring_inv hist ph w tl s).
Proof.
  intros [_ Hi] Ha Hk. destruct (st_state s).
  - left. destruct Hi as (ph' & w & cs & Hph & Hw & _). pose proof (phase_awaiting _ _ _ _ Hph Ha Hk). subst. eauto 6.
  - right. destruct Hi as (ph' & w & tl & _ & Hph & Hw). pose proof (phase_awaiting _ _ _ _ Hph Ha Hk). subst. eauto 6.
  - destruct Hi as (_ & [Ha'|[a Ha']] & _); [congruence|]. destruct k; [congruence..|done].
  - destruct Hi as (_ & Ha' & _); congruence.
Qed.

(** The tail of an erroring handler: nothing is in flight any more. *)
Lemma finish_phase hist s ph w tl :
  st_state s = Erroring -> st_inFlightWrite s = None -> st_inFlightClose s = None -> awaited s = [] -> Wr s ->
  erroring_inv hist ph w tl s -> ph = Unstarted \/ ph = Writing \/ st_pendingAbort s = None ->
  exists s', WritableStreamFinishErroring s = (Ok tt, s') /\ Inv hwm hist s'.
Proof.
  intros Hst Hiw Hic Ha Hwr [] Hph. destruct (finish_ok hwm hist s w tl) as (s' & Hm & _ & Hi); try done; [|by eauto].
  intros a Ha1 Ha2. destruct (ei_abort a Ha1 Ha2) as [?|[?|?]]; [..|done]; destruct Hph as [?|[?|?]]; congruence.
Qed.

(** Finish the named call of the goal with a lemma about it. *)
Ltac finish_with lem := match goal with
  | |- context [WritableStreamFinishErroring ?s'] => edestruct (lem s') as (s2 & Hm & Hi2); [..|by eauto]
  end.

Lemma advance_erroring s : st_state s = Erroring -> ct_started s = true -> st_inFlightWrite s = None ->
  WritableStreamDefaultControllerAdvanceQueueIfNeeded s = WritableStreamFinishErroring s.
Proof. intros Hst Hs Hiw. unfold WritableStreamDefaultControllerAdvanceQueueIfNeeded. by wstep. Qed.

Lemma start_fulfilled_ok hist s : Inv hwm hist s -> awaited s = [WaitStart] ->
  exists s', on_start_fulfilled (set_awaited [] s) = (Ok tt, s') /\ Inv hwm hist s' /\
    (st_state s = Writable -> st_state s' = Writable /\ advanced s s').
Proof.
  intros Hi Ha. assert (Hwr := proj1 Hi).
  destruct (inv_awaits _ _ _ Unstarted Hi Ha eq_refl) as [(Hst & w & cs & Hph & Hw)|(Hst & w & tl & Hph & He)];
    destruct Hph as (Hs & _ & Hiw & Hic); unfold on_start_fulfilled; wstep.
  - match goal with |- context [WritableStreamDefaultControllerAdvanceQueueIfNeeded ?s'] =>
      destruct (advance_ready hwm hist s' w cs) as (s2 & Hm & Hi2 & Hs2) end; [done|wr_exact Hwr|done| |by exists s2].
    destruct Hw. constructor; projs; try done; auto.
  - rewrite advance_erroring by done.
    match goal with |- context [WritableStreamFinishErroring ?s'] =>
      destruct (finish_phase hist s' Unstarted w tl) as (s2 & Hm & Hi2); try done;
      [destruct He; by constructor|by left|by exists s2] end.
Qed.

Lemma start_rejected_ok hist s r : Inv hwm hist s -> awaited s = [WaitStart] ->
  exists s', on_start_rejected r (set_awaited [] s) = (Ok tt, s') /\ Inv hwm hist s'.
Proof.
  intros Hi Ha. assert (Hwr := proj1 Hi).
  destruct (inv_awaits _ _ _ Unstarted Hi Ha eq_refl) as [(Hst & w & cs & Hph & Hw)|(Hst & w & tl & Hph & He)];
    destruct Hph as (Hs & _ & Hiw & Hic); unfold on_start_rejected, WritableStreamDealWithRejection; wstep.
  - match goal with |- context [WritableStreamStartErroring _ ?s'] =>
      edestruct (start_erroring_ok hwm hist Ready s' w []) as (s2 & Hm & Hi2 & _) end; [done|apply Hw|exact Hwr|done| |by eauto].
    destruct (writable_erroring hist Unstarted w cs s s) as []; try done; [apply Hw|].
    constructor; projs; try done. intros a. by rewrite (wi_abort _ _ _ _ _ _ Hw).
  - eapply (finish_phase hist _ Unstarted); try done; [|by left]. destruct He. by constructor.
Qed.

(** What the queue loses when a write ends. *)
Lemma write_done_inv hist w p cs s s' :
  st_state s = Writable -> writable_inv hwm hist Writing w (p :: cs) s -> is_some (st_inFlightWrite s) = true ->
  st_storedError s' = st_storedError s -> st_pendingAbort s' = st_pendingAbort s ->
  ct_queue s' = queue_of cs (is_some (st_closeRequest s')) -> ct_total s' = sizes (ct_queue s') ->
  st_writeRequests s' = st_writeRequests s -> st_inFlightWrite s' = None ->
  sink_calls s' = sink_calls s -> ct_algorithms s' = ct_algorithms s ->
  (closing s' = false -> st_backpressure s' = WritableStreamDefaultControllerGetBackpressure hwm s') ->
  writable_inv hwm hist Ready w cs s'.
Proof.
  intros Hst [He Hab Hq Hz Ht Hr Hh Hg Hcl Hal Hbp] Hf E1 E2 E3 E4 E5 E6 E7 E8 E9.
  unfold given, unsent in *. rewrite Hf in *. cbn in Hr, Hh. rewrite drop_0 in Hh.
  constructor; unfold given, unsent; rewrite ?E1, ?E2, ?E5, ?E6, ?E7, ?E8; cbn; try done; auto.
  - by apply Forall_cons in Hz as [].
  - lia.
Qed.

Lemma sizes_queue cs b : Forall (fun p => 0 <= p.2) cs -> 0 <= sizes (queue_of cs b).
Proof.
  intros Hz. apply sizes_nonneg. unfold queue_of. apply Forall_app. split; [by apply Forall_fmap|].
  destruct b; by repeat constructor.
Qed.

Lemma dequeue_total s c z cs : ct_queue s = queue_of ((c, z) :: cs) (is_some (st_closeRequest s)) ->
  ct_total s = sizes (ct_queue s) -> Forall (fun p => 0 <= p.2) ((c, z) :: cs) ->
  (if ct_total s - z <? 0 then 0 else ct_total s - z) = sizes (queue_of cs (is_some (st_closeRequest s))).
Proof.
  intros Hq Ht [_ Hz]%Forall_cons. pose proof (sizes_queue cs (is_some (st_closeRequest s)) Hz) as Hn.
  rewrite Ht, Hq. change (sizes (queue_of ((c, z) :: cs) (is_some (st_closeRequest s))))
    with (z + sizes (queue_of cs (is_some (st_closeRequest s)))).
  destruct (Z.ltb_spec (z + sizes (queue_of cs (is_some (st_closeRequest s))) - z) 0); lia.
Qed.

Lemma write_fulfilled_ok hist s : Inv hwm hist s -> awaited s = [WaitWrite] ->
  exists s', on_write_fulfilled hwm (set_awaited [] s) = (Ok tt, s') /\ Inv hwm hist s' /\
    (st_state s = Writable -> st_state s' = Writable /\ ct_started s' = true /\
      (S (length (ct_queue s')) <= length (ct_queue s))%nat /\ (awaited s' = [] -> ct_queue s' = [])).
Proof.
  intros Hi Ha. assert (Hwr := proj1 Hi).
  destruct (inv_awaits _ _ _ Writing Hi Ha eq_refl) as [(Hst & w & cs & Hph & Hw)|(Hst & w & tl & Hph & He)];
    assert (Hph' := Hph); destruct Hph' as (Hs & _ & Hiw & Hic);
    destruct (st_inFlightWrite s) as [p|] eqn:Ep; try done; unfold on_write_fulfilled, resolve_in_flight; wstep.
  - destruct cs as [|[c z] cs]; [exfalso; generalize (wi_requests _ _ _ _ _ _ Hw); rewrite Ep; cbn; lia|].
    assert (Hq := wi_queue _ _ _ _ _ _ Hw). cbn in Hq.
    erewrite dequeue_bind by exact Hq. wstep. rewrite (dequeue_total s c z cs) by (try done; by eapply wi_total || by eapply wi_sizes).
    rewrite andb_true_r.
    match goal with |- context [WritableStreamDefaultControllerGetBackpressure hwm ?s'] =>
      destruct (update_advance_ok hwm hist Ready s' w cs) as (s2 & Hm & Hi2 & Hst2 & Hs2) end; try done.
    { eapply write_done_inv; try done. by rewrite Ep. }
    destruct (Hs2 eq_refl) as (? & Hlen & ?). exists s2. split_and!; try done. intros _. split_and!; try done.
    rewrite ?Hq; cbn in *; lia.
  - destruct (ct_queue s) as [|[v z] q] eqn:Eq; [by destruct (ei_queue _ _ _ _ _ He)|].
    erewrite dequeue_bind by done. wstep. rewrite andb_false_r. wstep.
    rewrite advance_erroring by done.
    match goal with |- context [WritableStreamFinishErroring ?s'] =>
      destruct (finish_phase hist s' Unstarted w tl) as (s2 & Hm & Hi2); try done; [|by left|by exists s2] end.
    destruct He as [Hab]. constructor; try done. intros a H1 H2. by destruct (Hab a H1 H2) as [?|[?|?]]; auto.
Qed.

(** The handler of a rejected write throws before it has rejected
    anything: the stream waits for ever. *)
Lemma write_rejected_ok hist s r : Inv hwm hist s -> awaited s = [WaitWrite] ->
  exists s', on_write_rejected r (set_awaited [] s) = (Throw ErrReferenceError "error is not defined", s') /\ Inv hwm hist s'.
Proof.
  intros Hi Ha. assert (Hwr := proj1 Hi).
  destruct (inv_awaits _ _ _ Writing Hi Ha eq_refl) as [(Hst & w & cs & Hph & Hw)|(Hst & w & tl & Hph & He)];
    destruct Hph as (Hs & _ & Hiw & Hic);
    unfold on_write_rejected, WritableStreamDefaultControllerClearAlgorithms; wstep; eexists; (split; [reflexivity|]);
    (split; [wr_exact Hwr|]); projs; facts; cbv iota.
  - exists Stuck, w, cs. split; [done|]. split; [|done]. destruct Hw. constructor; projs; try done.
  - exists Stuck, w, tl. split; [done|]. split; [done|]. destruct He. constructor; projs; try done. auto.
Qed.

Lemma close_done_ok hist s : st_state s = Closed -> Wr s -> closed_inv hist s -> st_storedError s = Undefined ->
  exists s', (for_writer defaultWriterClosedPromiseResolve ;; s ← gets id;
    assert (negb (is_some (st_pendingAbort s))) ;; assert (bool_decide (st_storedError s = Undefined))) s = (Ok tt, s') /\
    Inv hwm hist s'.
Proof.
  intros Hst Hwr Hc He. destruct (for_closed_resolve s _ Hwr) as (ws & t & Hm & Hws). rewrite (bind_ok _ _ _ _ _ Hm).
  assert (Ha := en_abort _ (proj1 Hc)). wstep. unfold assert. rewrite bool_decide_eq_true_2 by done.
  eexists. split; [reflexivity|]. split; [wr_exact Hws|]. projs. facts. cbv iota. destruct Hc as [[] Hc]. split; [by constructor|done].
Qed.

Lemma close_fulfilled_ok hist s : Inv hwm hist s -> awaited s = [WaitClose] ->
  exists s', on_close_fulfilled (set_awaited [] s) = (Ok tt, s') /\ Inv hwm hist s'.
Proof.
  intros Hi Ha. assert (Hwr := proj1 Hi).
  destruct (inv_awaits _ _ _ Closing Hi Ha eq_refl) as [(Hst & w & cs & Hph & Hw)|(Hst & w & tl & Hph & He)];
    assert (Hph' := Hph); destruct Hph' as (Hs & _ & Hiw & Hic & Hcr).
  - destruct (writable_erroring hist Closing w cs s s) as [_ _ Hg _ Htl Hcl]; try done; [apply Hw|].
    assert (Hab := wi_abort _ _ _ _ _ _ Hw). assert (He := wi_error _ _ _ _ _ _ Hw).
    destruct (st_inFlightClose s) as [p|] eqn:Ep; try done; unfold on_close_fulfilled, resolve_in_flight; wstep.
    apply close_done_ok; try done; [wr_exact Hwr|]. destruct (Hcl eq_refl) as (Ht & Hq & Hr). 
    split; [by constructor|]. split; [done|]. split; [done|]. destruct Htl as [|[_ <-]]; [by subst|done].
  - destruct He as [_ _ Hg _ Htl Hcl]. destruct (Hcl eq_refl) as (Ht & Hq & Hr).
    destruct (st_inFlightClose s) as [p|] eqn:Ep; try done; unfold on_close_fulfilled, resolve_in_flight; wstep.
    destruct (st_pendingAbort s) as [a|] eqn:Eab; wstep; (apply close_done_ok; try done; [wr_exact Hwr|]);
    (split; [by constructor|]; split; [done|]; split; [done|]; destruct Htl as [|[_ <-]]; subst tl; [done|exact Hg]).
Qed.

Lemma close_rejected_ok hist s r : Inv hwm hist s -> awaited s = [WaitClose] ->
  exists s', on_close_rejected r (set_awaited [] s) = (Ok tt, s') /\ Inv hwm hist s'.
Proof.
  intros Hi Ha. assert (Hwr := proj1 Hi).
  destruct (inv_awaits _ _ _ Closing Hi Ha eq_refl) as [(Hst & w & cs & Hph & Hw)|(Hst & w & tl & Hph & He)];
    assert (Hph' := Hph); destruct Hph' as (Hs & _ & Hiw & Hic & Hcr).
  - destruct (writable_erroring hist Closing w cs s s) as [_ _ Hg Hp Htl Hcl]; try done; [apply Hw|].
    assert (Hab := wi_abort _ _ _ _ _ _ Hw). assert (He := wi_error _ _ _ _ _ _ Hw).
    destruct (st_inFlightClose s) as [p|] eqn:Ep; try done; unfold on_close_rejected, resolve_in_flight; wstep.
    unfold WritableStreamDealWithRejection; wstep.
    match goal with |- context [WritableStreamStartErroring _ ?s'] =>
      edestruct (start_erroring_ok hwm hist Ready s' w (close_call Closing)) as (s2 & Hm & Hi2 & _) end; 
      [done|done|exact Hwr|done| |by eauto].
    constructor; projs; try done. intros a. by rewrite Hab.
  - destruct He as [_ _ Hg Hp Htl Hcl].
    destruct (st_inFlightClose s) as [p|] eqn:Ep; try done; unfold on_close_rejected, resolve_in_flight; wstep.
    unfold WritableStreamDealWithRejection.
    destruct (st_pendingAbort s) as [a|] eqn:Eab; wstep;
    (eapply (finish_phase hist _ Ready w tl); try done;
      first [wr_exact Hwr | by right; right | constructor; projs; try done; intros ? Hsome; by rewrite Eab in Hsome]).
Qed.

Lemma abort_settled_ok hist s a v : Inv hwm hist s -> awaited s = [WaitAbort a] ->
  exists s', (settle_promise (ar_promise a) v ;; WritableStreamRejectCloseAndClosedPromiseIfNeeded) (set_awaited [] s) =
    (Ok tt, s') /\ Inv hwm hist s'.
Proof.
  intros [Hwr Hi] Ha. destruct (st_state s) eqn:Hst.
  1, 2: exfalso; destruct Hi as (ph & ? & ? & Hi); assert (Hph : in_phase ph s) by tauto;
    destruct ph, Hph as (_ & Ha' & _); congruence.
  2: by destruct Hi as (_ & Ha' & _); congruence.
  destruct Hi as ([] & _ & Hgiven). wstep.
  match goal with |- context [WritableStreamRejectCloseAndClosedPromiseIfNeeded ?s'] =>
    edestruct (reject_close_ok s') as (ws & t & Hm & Hws); [done|done|exact Hwr|rewrite Hm] end.
  eexists. split; [reflexivity|]. split; [wr_exact Hws|]. projs; facts; cbv iota.
  split; [by constructor|]. split; [by left|done].
Qed.
End Settle.

Section Calls.
Variables (hwm : jsnum) (size : Z -> jsnum + reason).
Implicit Types (s : wstream) (hist w : list Z) (tl : list sink_call).

(** A call that keeps the invariant and gives a value. *)
Definition keeps {A} (m : SM wstream A) hist s : Prop :=
  exists a s', m s = (Ok a, s') /\ Inv hwm hist s'.

Lemma keeps_ret {A} (a : A) hist s : Inv hwm hist s -> keeps (mret a) hist s.
Proof. by exists a, s. Qed.

Lemma keeps_bind {A B} (m : SM wstream A) (f : A -> SM wstream B) hist s :
  keeps m hist s -> (forall a s', m s = (Ok a, s') -> Inv hwm hist s' -> keeps (f a) hist s') -> keeps (m ≫= f) hist s.
Proof. intros (a & s' & Hm & Hi) Hf. destruct (Hf a s' Hm Hi) as (b & s2 & Hb & Hi2). exists b, s2. by rewrite (bind_ok _ _ _ _ _ Hm). Qed.

Lemma keeps_gets {A B} (g : wstream -> A) (f : A -> SM wstream B) hist s :
  keeps (f (g s)) hist s -> keeps (gets g ≫= f) hist s.
Proof. done. Qed.
Lemma keeps_modify {B} (g : wstream -> wstream) (f : unit -> SM wstream B) hist s :
  keeps (f tt) hist (g s) -> keeps (modify g ≫= f) hist s.
Proof. done. Qed.
Lemma keeps_assert {B} b (f : unit -> SM wstream B) hist s :
  b = true -> keeps (f tt) hist s -> keeps (assert b ≫= f) hist s.
Proof. by intros ->. Qed.

Lemma keeps_new {B} (f : nat -> SM wstream B) hist s :
  keeps (f (length (promises s))) hist (set_promises (promises s ++ [Pending]) s) -> keeps (new_promise ≫= f) hist s.
Proof. done. Qed.

(** Promises, the abort reason and the writers, if in order, are not part
    of the invariant. *)
Lemma inv_writer hist s s' : Inv hwm hist s -> Wr s' ->
  s' = set_promises (promises s') (set_writers (writers s') (set_st_writer (st_writer s')
    (set_ct_abortReason (ct_abortReason s') s))) -> Inv hwm hist s'.
Proof.
  intros [_ Hi] Hw Hs. rewrite Hs in Hw. rewrite Hs. split; [exact Hw|]. clear Hs Hw. projs. destruct (st_state s).
  - destruct Hi as (ph & w & cs & Hph & [] & Hr). exists ph, w, cs. split; [exact Hph|]. split; [by constructor|exact Hr].
  - destruct Hi as (ph & w & tl & Hn & Hph & []). exists ph, w, tl. split; [done|]. split; [exact Hph|]. by constructor.
  - destruct Hi as ([] & Ha & Hg). split; [by constructor|]. by split.
  - destruct Hi as ([] & Ha & Hg). split; [by constructor|]. by split.
Qed.

Lemma inv_frame hist s s' : Inv hwm hist s ->
  s' = set_promises (promises s') (set_ct_abortReason (ct_abortReason s') s) -> Inv hwm hist s'.
Proof.
  intros Hi Hs. eapply inv_writer; [exact Hi|rewrite Hs; exact (proj1 Hi)|]. rewrite Hs. by destruct s.
Qed.

Lemma keeps_rejected hist s r : Inv hwm hist s -> keeps (promiseRejectedWith r) hist s.
Proof. intros Hi. eexists _, _. split; [reflexivity|]. by eapply inv_frame. Qed.
Lemma keeps_resolved hist s : Inv hwm hist s -> keeps promiseResolvedWith hist s.
Proof. intros Hi. eexists _, _. split; [reflexivity|]. by eapply inv_frame. Qed.
Lemma keeps_new_promise hist s : Inv hwm hist s -> keeps new_promise hist s.
Proof. intros Hi. eexists _, _. split; [reflexivity|]. by eapply inv_frame. Qed.

(** [WritableStreamDefaultControllerError] on a writable stream whose
    requests may have one more than the queue. *)
Lemma error_ok hist s r ph w cs :
  st_state s = Writable -> Wr s -> in_phase ph s ->
  (exists s0, in_phase ph s0 /\ writable_inv hwm hist ph w cs s0 /\ sink_calls s0 = sink_calls s /\ ct_queue s0 = ct_queue s /\
     (ph = Closing -> st_writeRequests s0 = st_writeRequests s)) ->
  st_pendingAbort s = None -> st_storedError s = Undefined ->
  exists s', WritableStreamDefaultControllerError r s = (Ok tt, s') /\ Inv hwm hist s' /\
    (st_state s' = Erroring \/ st_state s' = Errored).
Proof.
  intros Hst Hwr Hph (s0 & Hph0 & Hw & Hs & Hq & Hr) Ha He.
  unfold WritableStreamDefaultControllerError, WritableStreamDefaultControllerClearAlgorithms. wstep.
  match goal with |- context [WritableStreamStartErroring _ ?s'] =>
    eapply (start_erroring_ok hwm hist ph s' w (close_call ph)) end; [done|done|exact Hwr|by destruct ph|].
  destruct (writable_erroring hwm hist ph w cs s0 s0) as [_ Hq0 Hg Hp Htl Hcl]; try done; [apply Hw|].
  constructor; projs; try done.
  - intros a. by rewrite Ha.
  - by rewrite <-Hq.
  - unfold given. projs. rewrite <-Hs. exact Hg.
  - intros Hc. rewrite <-Hq, <-(Hr Hc). auto.
Qed.

Lemma error_if_needed_ok hist s r : Inv hwm hist s ->
  exists s', WritableStreamDefaultControllerErrorIfNeeded r s = (Ok tt, s') /\ Inv hwm hist s' /\ st_state s' <> Writable.
Proof.
  intros Hi. assert (Hi' := Hi). destruct Hi' as [Hwr Hi']. unfold WritableStreamDefaultControllerErrorIfNeeded. wstep.
  destruct (st_state s) eqn:Hst; [|known_state; exists s; by rewrite Hst..].
  known_state. destruct Hi' as (ph & w & cs & Hph & Hw & _).
  edestruct (error_ok hist s r ph w cs) as (s' & Hm & Hi2 & Hs'); [done|done|done| |apply Hw..|].
  { exists s. by split_and!. }
  exists s'. split_and!; [done|done|]. by destruct Hs' as [->| ->].
Qed.

Lemma controller_error_ok hist s r : Inv hwm hist s -> keeps (controller_error r) hist s.
Proof.
  intros Hi. destruct (error_if_needed_ok hist s r Hi) as (s' & Hm & Hi' & _). exists tt, s'. split; [|done].
  rewrite <-Hm. unfold controller_error, WritableStreamDefaultControllerErrorIfNeeded. wstep. by destruct (state_is [Writable] s).
Qed.

Lemma listeners_ok hist ls s : Inv hwm hist s -> keeps (mapM controller_error ls) hist s.
Proof.
  revert s. induction ls as [|r ls IH]; intros s Hi; [by apply keeps_ret|]. cbn.
  apply keeps_bind; [by apply controller_error_ok|]. intros ? s1 _ Hi1.
  apply keeps_bind; [by apply IH|]. intros ? s2 _ Hi2. by apply keeps_ret.
Qed.

(** The state test of an interface method, by the state of the stream. *)
Lemma writable_abort_ok hist r s ph w cs p rs t :
  st_state s = Writable -> Wr s -> in_phase ph s -> writable_inv hwm hist ph w cs s ->
  exists s', WritableStreamStartErroring r (set_st_pendingAbort (Some (AbortReq p rs false)) (set_promises t s)) = (Ok tt, s') /\ Inv hwm hist s'.
Proof.
  intros Hst Hwr Hph Hw.
  edestruct (start_erroring_ok hwm hist ph (set_st_pendingAbort (Some (AbortReq p rs false)) (set_promises t s)) w (close_call ph) r)
    as (s' & Hm & Hi & _); [done|apply Hw|exact Hwr|by destruct ph| |by eauto].
  destruct (writable_erroring hwm hist ph w cs s s) as [_ Hq0 Hg Hp Htl Hcl]; try done; [apply Hw|].
  constructor; projs; try done. intros a _ _.
  destruct (decide (ph = Closing)); [by left|]. destruct (decide (ph = Stuck)); [by auto|].
  right. right. split; [by eapply wi_algorithms|]. unfold close_call. by rewrite decide_False.
Qed.

Lemma abort_ok hist r ls s : Inv hwm hist s -> keeps (WritableStreamAbort r ls) hist s.
Proof.
  intros Hi. unfold WritableStreamAbort. apply keeps_gets. cbn [id].
  destruct (state_is [Closed; Errored] s); [by apply keeps_resolved|]. apply keeps_modify.
  apply keeps_bind; [by apply listeners_ok; eapply inv_frame|]. intros ? s1 _ Hi1.
  clear dependent s. rename s1 into s, Hi1 into Hi. apply keeps_gets. cbn [id].
  destruct (st_state s) eqn:Hst; repeat known_state.
  3, 4: by apply keeps_resolved.
  - destruct Hi as [Hwr Hi]. rewrite Hst in Hi. destruct Hi as (ph & w & cs & Hph & Hw & _).
    rewrite (wi_abort _ _ _ _ _ _ Hw). apply keeps_assert; [done|]. apply keeps_new. apply keeps_modify. cbn [negb].
    destruct (writable_abort_ok hist r s ph w cs (length (promises s)) r (promises s ++ [Pending])) as (s' & Hm & Hi); try done.
    eexists _, s'. rewrite (bind_ok _ _ _ _ _ Hm). done.
  - destruct (st_pendingAbort s) as [p|] eqn:Ep; [by apply keeps_ret|]. apply keeps_assert; [done|].
    apply keeps_new. apply keeps_modify. cbn [negb]. eexists _, _. split; [reflexivity|].
    destruct Hi as [Hwr Hi]. rewrite Hst in Hi. split; [wr_exact Hwr|]. projs. rewrite Hst.
    destruct Hi as (ph & w & tl & Hn & Hph & []). exists ph, w, tl. split; [done|]. split; [exact Hph|].
    constructor; projs; try done. by intros ? [= <-].
Qed.

Lemma keeps_writer {B} (m : SM wstream unit) (f : unit -> SM wstream B) s l hist : w_only m s l ->
  (forall ws t, wr ws (st_writer s) l -> keeps (f tt) hist (set_promises t (set_writers ws s))) ->
  keeps (m ≫= f) hist s.
Proof. intros (ws & t & Hm & Hws) Hf. unfold keeps. rewrite (bind_ok _ _ _ _ _ Hm). by apply Hf. Qed.

(** Closing resolves the ready promise when there was backpressure. *)
Lemma close_ready (b : bool) s l : wr (writers s) (st_writer s) l ->
  w_only (for_writer (fun w : nat => if b then defaultWriterReadyPromiseResolve w else mret tt)) s None.
Proof.
  intros Hwr. destruct b.
  - destruct (for_ready_resolve s l Hwr) as (ws & t & Hm & Hws). exists ws, t. split; [done|]. exact (wr_weaken _ _ _ Hws).
  - unfold w_only, for_writer. rewrite gets_bind. exists (writers s), (promises s). split; [|exact (wr_weaken _ _ _ Hwr)].
    by destruct (st_writer s), s.
Qed.

Lemma open_close s : closing s = false -> st_closeRequest s = None /\ st_inFlightClose s = None.
Proof. unfold closing, WritableStreamCloseQueuedOrInFlight. by destruct (st_closeRequest s), (st_inFlightClose s). Qed.

Lemma open_phase ph s : closing s = false -> in_phase ph s -> ph <> Closing.
Proof. intros [_ Hc]%open_close Hph ->. destruct Hph as (_ & _ & _ & Hic & _). by rewrite Hc in Hic. Qed.

(** [WritableStreamClose], whose callers have looked for a close. *)
Lemma close_ok hist s : Inv hwm hist s -> closing s = false -> keeps WritableStreamClose hist s.
Proof.
  intros Hi Hcl. unfold WritableStreamClose. apply keeps_gets. cbn [id].
  assert (Hwr := proj1 Hi).
  destruct (st_state s) eqn:Hst; repeat known_state.
  3, 4: by apply keeps_rejected.
  - apply keeps_assert; [done|]. apply keeps_assert; [by apply negb_true_iff|]. apply keeps_new. apply keeps_modify.
    destruct Hi as [_ Hi]. rewrite Hst in Hi. destruct Hi as (ph & w & cs & Hph & Hw & _).
    apply (keeps_writer _ _ _ None); [eapply close_ready; exact Hwr|]. intros ws t Hws.
    apply keeps_modify. eapply keeps_bind; [|intros; by apply keeps_ret].
    destruct (open_close _ Hcl) as [Hcr Hic]. assert (Hn := open_phase _ _ Hcl Hph).
    match goal with |- keeps _ _ ?s' => destruct (advance_ok hwm hist ph s' w cs) as (s2 & Hm & Hi2 & _) end;
      [done|done|wr_exact Hws|by destruct ph| |by exists tt, s2].
    destruct Hw as [? ? Hq ? Ht]. constructor; projs; try done.
    + rewrite Hq, Hcr. unfold queue_of. cbn. by rewrite app_nil_r.
    + by rewrite sizes_snoc, Ht.
  - apply keeps_assert; [done|]. apply keeps_assert; [by apply negb_true_iff|]. apply keeps_new. apply keeps_modify.
    destruct Hi as [_ Hi]. rewrite Hst in Hi. destruct Hi as (ph & w & tl & Hr & Hph & []).
    apply (keeps_writer _ _ _ None); [eapply close_ready; exact Hwr|]. intros ws t Hws.
    apply keeps_modify. eapply keeps_bind; [|intros; by apply keeps_ret].
    destruct (open_close _ Hcl) as [Hcr Hic]. assert (Hn := open_phase _ _ Hcl Hph).
    match goal with |- keeps _ _ ?s' => assert (Hph' : in_phase ph s') by (by destruct ph);
      exists tt, s'; split; [eapply advance_waits; [exact Hph'|destruct ph; auto; done]|] end.
    split; [wr_exact Hws|]. projs. rewrite Hst. exists ph, w, tl. split; [done|]. split; [done|].
    constructor; projs; try done. intros _. by destruct (ct_queue s).
Qed.

(** The errors a call may throw. *)
Definition known_errors : list (error_class * string) :=
  [(ErrTypeError, "not a writer");
   (ErrTypeError, "This stream has already been locked for exclusive writing by another writer");
   (ErrTypeError, "Cannot desiredSize a stream using a released writer")].

Definition known_result {A} (o : outcome A) : Prop :=
  match o with Ok _ => True | Throw c m => (c, m) ∈ known_errors end.

Definition safe {A} (m : SM wstream A) hist s : Prop :=
  exists o s', m s = (o, s') /\ Inv hwm hist s' /\ known_result o.

Lemma keeps_safe {A} (m : SM wstream A) hist s : keeps m hist s -> safe m hist s.
Proof. intros (a & s' & ? & ?). by exists (Ok a), s'. Qed.

Lemma safe_throw {A} c m hist s : Inv hwm hist s -> (c, m) ∈ known_errors -> safe (throw (A:=A) c m) hist s.
Proof. intros. by exists (Throw c m), s. Qed.

Lemma safe_gets {A B} (g : wstream -> A) (f : A -> SM wstream B) hist s : safe (f (g s)) hist s -> safe (gets g ≫= f) hist s.
Proof. done. Qed.

Lemma safe_ignore {A} (m : SM wstream A) hist s : safe m hist s -> safe (ignore m) hist s.
Proof.
  intros ([a|c e] & s' & Hm & Hi & Hk); unfold ignore.
  - exists (Ok tt), s'. by rewrite (bind_ok _ _ _ _ _ Hm).
  - exists (Throw c e), s'. split; [|done]. unfold mbind, sm_bind. by rewrite Hm.
Qed.

Lemma safe_writer {B} (f : writer -> SM wstream B) n hist s : Inv hwm hist s ->
  (forall r, writers s !! n = Some r -> safe (f r) hist s) -> safe (the_writer n ≫= f) hist s.
Proof.
  intros Hi Hf. destruct (writers s !! n) as [r|] eqn:E.
  - unfold safe. rewrite (bind_ok _ _ _ _ _ (the_writer_ok s n r E)). by apply Hf.
  - exists (Throw ErrTypeError "not a writer"), s. unfold the_writer, mbind, sm_bind. rewrite E.
    split; [done|]. split; [done|]. by left.
Qed.

Lemma stream_abort_ok hist r ls s : Inv hwm hist s -> keeps (stream_abort r ls) hist s.
Proof.
  intros Hi. unfold stream_abort. apply keeps_gets. destruct (IsWritableStreamLocked _); [by apply keeps_rejected|by apply abort_ok].
Qed.

Lemma stream_close_ok hist s : Inv hwm hist s -> keeps stream_close hist s.
Proof.
  intros Hi. unfold stream_close. apply keeps_gets. destruct (IsWritableStreamLocked _); [by apply keeps_rejected|].
  destruct (WritableStreamCloseQueuedOrInFlight _) eqn:E; [by apply keeps_rejected|by apply close_ok].
Qed.

Lemma writer_abort_ok hist n r ls s : Inv hwm hist s -> safe (writer_abort n r ls) hist s.
Proof.
  intros Hi. apply safe_writer; [done|]. intros wr _. apply keeps_safe.
  destruct (w_owner wr); [by apply abort_ok|by apply keeps_rejected].
Qed.

Lemma writer_close_ok hist n s : Inv hwm hist s -> safe (writer_close n) hist s.
Proof.
  intros Hi. apply safe_writer; [done|]. intros wr _. apply keeps_safe.
  destruct (w_owner wr); cbn; [|by apply keeps_rejected]. apply keeps_gets.
  destruct (WritableStreamCloseQueuedOrInFlight _) eqn:E; [by apply keeps_rejected|by apply close_ok].
Qed.

Lemma desiredSize_ok hist n s : Inv hwm hist s -> safe (writer_desiredSize hwm n) hist s.
Proof.
  intros Hi. apply safe_writer; [done|]. intros wr _. destruct (w_owner wr); cbn.
  - apply keeps_safe, keeps_gets, keeps_ret, Hi.
  - apply safe_throw; [done|]. by right; right; left.
Qed.

(** A new writer joins the others. *)
Lemma writers_ok_snoc ws r : writers_ok ws None -> w_owner r = true -> wp_ok (w_ready r) -> wp_ok (w_closed r) ->
  writers_ok (ws ++ [r]) (Some (length ws)).
Proof.
  intros [Hws _] Ho Hr Hc. split.
  - intros n r' [Hn|[Hn Hr']]%lookup_app_Some.
    + destruct (Hws n r' Hn) as (Ho' & Hr' & Hc'). split_and!; [|done|done]. rewrite Ho'.
      apply lookup_lt_Some in Hn. rewrite !bool_decide_eq_false_2; [done|intros [= ?]; lia|done].
    + apply list_lookup_singleton_Some in Hr' as [Hn' <-]. split_and!; [|done|done].
      rewrite Ho, bool_decide_eq_true_2; [done|f_equal; lia].
  - intros n [= <-]. apply lookup_lt_is_Some. rewrite length_app. cbn. lia.
Qed.

(** What a constructor does to the writer it makes. *)
Definition made (link : option bool) (r : writer) : Prop :=
  w_owner r = true /\ wp_ok (w_ready r) /\ wp_ok (w_closed r) /\
  forall b, link = Some b -> wp_flag (w_ready r) = WpPending <-> b = true.

Definition with_blank s : wstream :=
  set_st_writer (Some (length (writers s))) (set_writers (writers s ++ [blank_writer]) s).

Lemma keeps_made hist s (m : SM wstream unit) : Inv hwm hist s -> st_writer s = None ->
  writer_effect m (length (writers s)) (with_blank s) (made (link_of s)) ->
  keeps (m ;; mret (length (writers s))) hist (with_blank s).
Proof.
  intros Hi Hn (r & t & Hm & Ho & Hr & Hc & Hl). destruct (proj1 Hi) as [Hws _]. rewrite Hn in Hws.
  eexists _, _. split; [by rewrite (bind_ok _ _ _ _ _ Hm)|].
  eapply inv_writer; [exact Hi| |by unfold with_blank].
  unfold Wr. unfold with_blank. projs. rewrite list_insert_snoc. split.
  - by apply writers_ok_snoc.
  - match goal with |- match ?l with _ => _ end => change l with (link_of s) end.
    destruct (link_of s) as [b|]; [|done]. intros n r' [= <-]. rewrite list_lookup_middle by done. intros [= <-]. by apply Hl.
Qed.

Lemma blank_lookup s : writers (with_blank s) !! length (writers s) = Some blank_writer.
Proof. cbn. by rewrite list_lookup_middle. Qed.

(** The two initialisations of a constructor, one after the other. *)
Lemma made_seq (m1 m2 : SM wstream unit) s (P : wpromise -> Prop) link :
  (forall s' r, writers s' !! length (writers s) = Some r -> writer_effect m1 (length (writers s)) s' (fun r' =>
     w_owner r' = w_owner r /\ w_closed r' = w_closed r /\ P (w_ready r'))) ->
  (forall s' r, writers s' !! length (writers s) = Some r -> writer_effect m2 (length (writers s)) s' (fun r' =>
     w_owner r' = w_owner r /\ w_ready r' = w_ready r /\ wp_ok (w_closed r'))) ->
  (forall p, P p -> wp_ok p /\ forall b, link = Some b -> wp_flag p = WpPending <-> b = true) ->
  writer_effect (m1 ;; m2) (length (writers s)) (with_blank s) (made link).
Proof.
  intros H1 H2 HP. eapply writer_effect_seq; [rewrite blank_lookup; by eexists|by apply H1, blank_lookup|].
  cbn. intros s' r Hr (Ho & Hc & Hp). eapply effect_weaken; [by apply H2|]. cbn. intros r' (Ho' & Hr' & Hc').
  destruct (HP _ Hp) as [Hok Hl]. unfold made. rewrite Ho', Hr'. auto.
Qed.

Lemma closed_init_ok' n s r : writers s !! n = Some r -> writer_effect (defaultWriterClosedPromiseInitialize n) n s (fun r' =>
  w_owner r' = w_owner r /\ w_ready r' = w_ready r /\ wp_ok (w_closed r')).
Proof. intros Hr. eapply effect_weaken; [by apply closed_init_ok|]. by intros ? ->. Qed.

Lemma closed_init_resolve_ok n s r : writers s !! n = Some r ->
  writer_effect (defaultWriterClosedPromiseInitialize n ;; defaultWriterClosedPromiseResolve n) n s (fun r' =>
  w_owner r' = w_owner r /\ w_ready r' = w_ready r /\ wp_ok (w_closed r')).
Proof.
  intros Hr. eapply writer_effect_seq; [by eexists|by apply closed_init_ok|]. intros s' r' Hr' ->.
  eapply effect_weaken; [by apply closed_resolve_ok|]. cbn. by intros r2 (-> & -> & ? & _).
Qed.

Lemma closed_init_rejected_ok' e n s r : writers s !! n = Some r ->
  writer_effect (defaultWriterClosedPromiseInitializeAsRejected n e) n s (fun r' =>
  w_owner r' = w_owner r /\ w_ready r' = w_ready r /\ wp_ok (w_closed r')).
Proof. intros Hr. eapply effect_weaken; [by apply closed_init_rejected_ok|]. cbn. by intros r2 (-> & -> & ? & _). Qed.

Lemma new_writer_ok hist s : Inv hwm hist s -> safe new_WritableStreamDefaultWriter hist s.
Proof.
  intros Hi. unfold new_WritableStreamDefaultWriter. apply safe_gets. cbn [id].
  destruct (IsWritableStreamLocked s) eqn:El; [apply safe_throw; [done|by right; left]|].
  assert (st_writer s = None) as Hn by (unfold IsWritableStreamLocked in El; by destruct (st_writer s)).
  apply keeps_safe. do 2 apply keeps_modify. change (set_st_writer _ _) with (with_blank s).
  apply keeps_made; [done|done|]. unfold link_of, closing.
  destruct (st_state s).
  - destruct (WritableStreamCloseQueuedOrInFlight s); cbn [negb andb]; [|destruct (st_backpressure s)].
    + eapply (made_seq _ _ _ wp_ok); [|apply closed_init_ok'|done].
      intros s' r Hr. eapply effect_weaken; [by apply ready_init_resolved_ok|]. cbn. by intros r' (-> & -> & ? & _).
    + eapply (made_seq _ _ _ (fun p => wp_ok p /\ wp_flag p = WpPending)); [|apply closed_init_ok'|].
      * intros s' r Hr. eapply effect_weaken; [by apply ready_init_ok|]. by intros ? ->.
      * intros p [? ->]. split; [done|]. by intros ? [= <-].
    + eapply (made_seq _ _ _ (fun p => wp_ok p /\ wp_flag p <> WpPending)); [|apply closed_init_ok'|].
      * intros s' r Hr. by apply ready_init_resolved_ok.
      * intros p [? ?]. split; [done|]. by intros ? [= <-].
  - eapply (made_seq _ _ _ wp_ok); [|apply closed_init_ok'|done].
    intros s' r Hr. eapply effect_weaken; [by apply ready_init_rejected_ok|]. cbn. by intros r' (-> & -> & ? & _).
  - eapply (made_seq _ _ _ wp_ok); [|apply closed_init_rejected_ok'|done].
    intros s' r Hr. eapply effect_weaken; [by apply ready_init_rejected_ok|]. cbn. by intros r' (-> & -> & ? & _).
  - eapply (made_seq _ _ _ wp_ok); [|apply closed_init_resolve_ok|done].
    intros s' r Hr. eapply effect_weaken; [by apply ready_init_resolved_ok|]. cbn. by intros r' (-> & -> & ? & _).
Qed.

Lemma owner_current ws cur n r : writers_ok ws cur -> ws !! n = Some r -> w_owner r = true -> cur = Some n.
Proof. intros [Hws _] Hr Ho. destruct (Hws n r Hr) as (Ho' & _). rewrite Ho in Ho'. symmetry in Ho'. by apply bool_decide_eq_true in Ho'. Qed.

(** Releasing: the promises of the writer end, the stream has no writer. *)
Lemma release_promises_ok n e s r : writers s !! n = Some r -> wp_ok (w_ready r) -> wp_ok (w_closed r) ->
  writer_effect (WritableStreamDefaultWriterEnsureReadyPromiseRejected n e ;;
    r ← the_writer n;
    (if bool_decide (wp_flag (w_closed r) = WpPending) then defaultWriterClosedPromiseReject n e
     else assert (negb (wp_resolvers (w_closed r))) ;; defaultWriterClosedPromiseInitializeAsRejected n e)) n s
    (fun r' => wp_ok (w_ready r') /\ wp_ok (w_closed r')).
Proof.
  intros Hr Hok Hc. eapply writer_effect_seq; [by eexists|by apply ensure_rejected_ok|]. cbn.
  intros s' r1 Hr1 (Ho1 & Hc1 & Hok1 & _). unfold writer_effect. rewrite (bind_ok _ _ _ _ _ (the_writer_ok _ _ _ Hr1)).
  case_bool_decide as E.
  - eapply effect_weaken; [apply closed_reject_ok; [done|by rewrite Hc1]|]. cbn. by intros r2 (_ & -> & ? & _).
  - rewrite assert_bind.
    + eapply effect_weaken; [by apply closed_init_rejected_ok|]. cbn. by intros r2 (_ & -> & ? & _).
    + rewrite Hc1 in *. unfold wp_ok in Hc. by rewrite Hc, bool_decide_eq_false_2.
Qed.

Lemma release_ok hist n s : Inv hwm hist s -> safe (writer_releaseLock n) hist s.
Proof.
  intros Hi. apply safe_writer; [done|]. intros r Hr. destruct (w_owner r) eqn:Ho; cbn; [|by apply keeps_safe, keeps_ret].
  apply keeps_safe. assert (Hws := proj1 (proj1 Hi)). assert (Hn := owner_current _ _ _ _ Hws Hr Ho).
  apply keeps_gets. cbn [id]. rewrite Hn. apply keeps_assert; [done|]. unfold WritableStreamDefaultWriterRelease.
  apply keeps_gets. cbn [id].
  apply keeps_assert; [by apply bool_decide_eq_true|]. 
  destruct (proj1 Hws n r Hr) as (_ & Hok & Hc).
  destruct (release_promises_ok n released_error s r Hr Hok Hc) as (r' & t & Hm & Hok' & Hc').
  exists tt, (set_writers (<[n := Writer false (w_ready r') (w_closed r')]> (<[n := r']> (writers s)))
    (set_st_writer None (set_promises t (set_writers (<[n := r']> (writers s)) s)))). split.
  - revert Hm. unfold mbind, sm_bind. destruct (WritableStreamDefaultWriterEnsureReadyPromiseRejected n released_error s) as [[[]|] s1]; [|done].
    destruct (the_writer n s1) as [[r1|] s2]; [|done]. intros ->. unfold modify, the_writer. projs.
    by rewrite list_lookup_insert_eq by (exact (lookup_lt_Some _ _ _ Hr)).
  - eapply inv_writer; [exact Hi| |done]. split; projs.
    + rewrite list_insert_insert_eq. destruct Hws as [Hws _]. split; [|done]. intros n' r1.
      destruct (decide (n = n')) as [<-|Hne].
      * rewrite list_lookup_insert_eq by (exact (lookup_lt_Some _ _ _ Hr)). intros [= <-]. by split_and!.
      * rewrite list_lookup_insert_ne by done. intros Hr1. destruct (Hws n' r1 Hr1) as (Ho1 & ? & ?). split_and!; [|done|done].
        rewrite Ho1, Hn. by rewrite !bool_decide_eq_false_2 by congruence.
    + by destruct (link_of _).
Qed.

(** The chunk size the code can queue. *)
Definition queueable (r : jsnum + reason) : option Z :=
  match r with inl (Fin z) => if 0 <=? z then Some z else None | _ => None end.

(** A write is accepted when it goes through the stream's own writer to a
    writable stream that is not closing, still has its algorithms, and
    can queue the size of the chunk. *)
Definition accepts s (n : nat) (chunk : Z) : bool :=
  match writers s !! n with Some r => w_owner r | None => false end &&
  ct_algorithms s && state_is [Writable] s && negb (closing s) && is_some (queueable (size chunk)).

Lemma enqueue_try c z s :
  try (EnqueueValueWithSize c z ;; mret true)
    (fun e => WritableStreamDefaultControllerErrorIfNeeded e ;; mret false) s =
  match queueable (inl z) with
  | Some x => (Ok true, set_ct_total (ct_total s + x) (set_ct_queue (ct_queue s ++ [(c, x)]) s))
  | None => (WritableStreamDefaultControllerErrorIfNeeded
      (ErrorObj ErrRangeError "Size must be a finite, non-NaN, non-negative number.") ;; mret false) s
  end.
Proof. unfold try, EnqueueValueWithSize, queueable. destruct z as [x| | |]; try done. by destruct (0 <=? x). Qed.

(** The write that reaches the queue. *)
Lemma write_queued_ok hist s ph w cs c z (p : nat) :
  st_state s = Writable -> Wr s -> closing s = false -> in_phase ph s -> writable_inv hwm hist ph w cs s ->
  ct_algorithms s = true -> queueable (size c) = Some z ->
  keeps (s ← gets id;
    (if negb (WritableStreamCloseQueuedOrInFlight s) && state_is [Writable] s
     then WritableStreamUpdateBackpressure (WritableStreamDefaultControllerGetBackpressure hwm s) else mret tt) ;;
    WritableStreamDefaultControllerAdvanceQueueIfNeeded ;; mret (Some p)) (hist ++ [c])
    (set_ct_total (ct_total s + z) (set_ct_queue (ct_queue s ++ [(Chunk c, z)])
      (set_st_writeRequests (st_writeRequests s ++ [length (promises s)]) (set_promises (promises s ++ [Pending]) s)))).
Proof.
  intros Hst Hwr Hcl Hph Hw Hal Hz. apply keeps_gets. cbn [id]. unfold keeps. known_state. rewrite andb_true_r, <-bind_assoc.
  destruct (open_close _ Hcl) as [Hcr Hic]. assert (Hn := open_phase _ _ Hcl Hph).
  match goal with |- context [WritableStreamDefaultControllerGetBackpressure hwm ?s'] =>
    destruct (update_advance_ok hwm (hist ++ [c]) ph s' w (cs ++ [(c, z)])) as (s2 & Hm & Hi2 & _) end;
    [done|done|wr_exact Hwr|by destruct ph| |].
  - assert (0 <= z) as Hz0.
    { unfold queueable in Hz. destruct (size c) as [[x| | |]|]; try done. destruct (Z.leb_spec 0 x); [|done]. by injection Hz as <-. }
    destruct Hw as [? ? Hq Hzs Ht Hr Hh]. constructor; projs; try done.
    + rewrite Hq, Hcr. unfold queue_of. cbn. by rewrite !app_nil_r, fmap_app.
    + apply Forall_app. split; [done|]. by repeat constructor.
    + by rewrite sizes_snoc, Ht.
    + rewrite !length_app, Hr. cbn. lia.
    + rewrite Hh, <-app_assoc. f_equal. unfold unsent. projs. rewrite fmap_app. cbn.
      destruct (st_inFlightWrite s); cbn; [|done]. by destruct cs; [cbn in Hr; lia|].
  - unfold closing in Hm. rewrite (bind_ok _ _ _ _ _ Hm). by eexists _, s2.
Qed.

Lemma keeps_fmap {A B} (f : A -> B) (m : SM wstream A) hist s : keeps m hist s -> keeps (f <$> m) hist s.
Proof. intros (a & s' & Hm & Hi). exists (f a), s'. split; [|done]. unfold fmap, sm_fmap. by rewrite Hm. Qed.

Lemma keeps_reject hist s r : Inv hwm hist s -> keeps (Some <$> promiseRejectedWith r) hist s.
Proof. intros. by apply keeps_fmap, keeps_rejected. Qed.

(** A stream that is not writable, or closing, refuses the chunk. *)
Lemma write_refused_ok hist n c z s : Inv hwm hist s -> st_state s <> Writable \/ closing s = true ->
  safe (write_sized hwm n c z) hist s.
Proof.
  intros Hi Hn. apply safe_writer; [done|]. intros r _. destruct (w_owner r); cbn [negb]; [|by apply keeps_safe, keeps_reject].
  apply keeps_safe, keeps_gets. cbn [id]. unfold closing in Hn.
  destruct (st_state s) eqn:Hst; repeat known_state; rewrite ?orb_true_r.
  - destruct Hn as [?|Hcl]; [done|]. rewrite Hcl. cbn. by apply keeps_reject.
  - destruct (WritableStreamCloseQueuedOrInFlight s); by apply keeps_reject.
  - by apply keeps_reject.
  - by apply keeps_reject.
Qed.

(** A size that cannot be queued errors the stream, and [write] returns
    [undefined]. *)
Lemma write_unqueueable hist n c z s r : Inv hwm hist s -> writers s !! n = Some r -> w_owner r = true ->
  st_state s = Writable -> closing s = false -> size c = inl z -> queueable (inl z) = None ->
  exists s', write_sized hwm n c z s = (Ok None, s') /\ Inv hwm hist s' /\ (st_state s' = Erroring \/ st_state s' = Errored).
Proof.
  intros [Hwr Hi] Hr Ho Hst Hcl Hz Hq. unfold write_sized. rewrite (bind_ok _ _ _ _ _ (the_writer_ok s n r Hr)), Ho.
  rewrite Hst in Hi. destruct Hi as (ph & w & cs & Hph & Hw & _).
  cbn [negb]. wstep. unfold closing in Hcl. rewrite Hcl. wstep.
  rewrite assert_bind by (unfold IsWritableStreamLocked; by rewrite (owner_current _ _ _ _ (proj1 Hwr) Hr Ho)).
  match goal with |- context [(new_promise ≫= ?f) s] => change ((new_promise ≫= f) s) with
    (f (length (promises s)) (set_promises (promises s ++ [Pending]) s)) end. cbv beta. rewrite modify_bind.
  match goal with |- context [set_st_writeRequests ?v ?s'] =>
    destruct (error_ok hist (set_st_writeRequests v s')
      (ErrorObj ErrRangeError "Size must be a finite, non-NaN, non-negative number.") ph w cs) as (s2 & Hm & Hi2 & Hs2) end;
    [done|wr_exact Hwr|by destruct ph| |exact (wi_abort _ _ _ _ _ _ Hw)|exact (wi_error _ _ _ _ _ _ Hw)|].
  { exists s. split_and!; try done. intros ->. by destruct (open_phase Closing s Hcl Hph). }
  exists s2. split; [|done]. erewrite bind_ok; [|rewrite enqueue_try, Hq;
    erewrite bind_ok; [reflexivity|unfold WritableStreamDefaultControllerErrorIfNeeded; wstep; exact Hm]]. done.
Qed.

(** A writable stream queues the chunk otherwise. *)
Lemma write_sized_ok hist n c z s r : Inv hwm hist s -> writers s !! n = Some r -> w_owner r = true ->
  st_state s = Writable -> closing s = false -> ct_algorithms s = true -> size c = inl z ->
  keeps (write_sized hwm n c z) (if is_some (queueable (inl z)) then hist ++ [c] else hist) s.
Proof.
  intros Hinv Hr Ho Hst Hcl Ha Hz. destruct (queueable (inl z)) as [x|] eqn:Hq; cbn [is_some].
  2: { destruct (write_unqueueable hist n c z s r) as (s' & Hm & Hi & _); try done. by exists None, s'. }
  destruct Hinv as [Hwr Hi]. unfold write_sized, keeps. rewrite (bind_ok _ _ _ _ _ (the_writer_ok s n r Hr)), Ho.
  rewrite Hst in Hi. destruct Hi as (ph & w & cs & Hph & Hw & _).
  cbn [negb]. wstep. assert (Hcl' := Hcl). unfold closing in Hcl'. rewrite Hcl'. wstep.
  rewrite assert_bind by (unfold IsWritableStreamLocked; by rewrite (owner_current _ _ _ _ (proj1 Hwr) Hr Ho)).
  match goal with |- context [(new_promise ≫= ?f) s] => change ((new_promise ≫= f) s) with
    (f (length (promises s)) (set_promises (promises s ++ [Pending]) s)) end. cbv beta. rewrite modify_bind.
  assert (Hq' := Hq). rewrite <-Hz in Hq'.
  destruct (write_queued_ok hist s ph w cs c x (length (promises s))) as (a & s' & Hm & Hi); try done.
  exists a, s'. split; [|done].
  rewrite <-Hm. erewrite bind_ok; [|rewrite enqueue_try, Hq; reflexivity]. done.
Qed.

Lemma write_ok hist n c s : Inv hwm hist s ->
  safe (writer_write hwm size n c) (if accepts s n c then hist ++ [c] else hist) s.
Proof.
  intros Hi. unfold writer_write, WritableStreamDefaultWriterWrite, accepts.
  destruct (writers s !! n) as [r|] eqn:Hr.
  2: { cbn. apply safe_writer; [done|]. by rewrite Hr. }
  assert (forall h B (f : writer -> SM wstream B), safe (f r) h s -> safe (the_writer n ≫= f) h s) as Hread.
  { intros h B f Hf. unfold safe. by rewrite (bind_ok _ _ _ _ _ (the_writer_ok s n r Hr)). }
  apply Hread. destruct (w_owner r) eqn:Ho; cbn [negb andb]; [|by apply keeps_safe, keeps_reject].
  apply Hread. rewrite Ho. cbn [negb]. apply safe_gets. cbn [id].
  destruct (ct_algorithms s) eqn:Ha; cbn [negb andb]; [|by apply keeps_safe, keeps_reject].
  destruct (size c) as [z|e] eqn:Hz.
  2: { rewrite andb_false_r. destruct (error_if_needed_ok hist s e Hi) as (s' & Hm & Hi' & Hst').
    unfold safe. rewrite (bind_ok _ _ _ _ _ Hm). apply write_refused_ok; auto. }
  destruct (state_is [Writable] s) eqn:Est; cbn [andb].
  2: { apply write_refused_ok; [done|]. left. intros Hst. unfold state_is in Est. by rewrite Hst in Est. }
  destruct (closing s) eqn:Ec; cbn [negb andb]; [apply write_refused_ok; auto|].
  apply keeps_safe. eapply write_sized_ok; try done. unfold state_is in Est. apply bool_decide_eq_true in Est.
  by apply list_elem_of_singleton in Est.
Qed.
End Calls.
