(* ===== verification/WritableStreamProps.v ===== *)
(** * What the writable stream promises

    The invariant at the start and along every sequence of events, and
    what follows: safety, the order of the sink's calls, backpressure,
    the delivery of every accepted chunk, and two places where the code
    leaves its caller waiting. *)

From S2P Require Import Prelude StreamBase WritableStream WritableStreamWriters WritableStreamInv WritableStreamCalls.
Open Scope Z_scope.

Section Props.
Variables (hwm : jsnum) (size : Z -> jsnum + reason).
Implicit Types (s : wstream) (hist : list Z).

Lemma new_stream_ok : Inv hwm [] (new_stream hwm).
Proof.
  assert (new_stream hwm = set_awaited [WaitStart] (set_sink_calls [SinkStart] (set_st_backpressure
    (num_nonpos (num_sub hwm 0)) (set_ct_algorithms true InitializeWritableStream)))) as ->.
  { cbv -[num_nonpos num_sub]. by destruct (num_nonpos (num_sub hwm 0)). }
  split.
  - split; [split|]; done.
  - exists Unstarted, [], []. split; [done|]. split; [|done]. by constructor.
Qed.

(** The chunks an event adds to the accepted ones. *)
Definition accepted_by (e : event) s : list Z :=
  match e with EvWrite n c => if accepts size s n c then [c] else [] | _ => [] end.

Lemma awaits_one hist s i k : Inv hwm hist s -> awaited s !! i = Some k -> i = 0%nat /\ awaited s = [k].
Proof.
  intros [_ Hi] Hk. assert (forall k', awaited s = [k'] -> i = 0%nat /\ awaited s = [k]) as Hone.
  { intros k' E. rewrite E in *. by apply list_lookup_singleton_Some in Hk as [-> ->]. }
  assert (awaited s <> []) as Hne by (intros E; by rewrite E in Hk).
  assert (forall ph, in_phase ph s -> i = 0%nat /\ awaited s = [k]) as Hph.
  { intros ph H. destruct ph, H as (_ & Ha & _); eauto; done. }
  destruct (st_state s).
  - destruct Hi as (ph & ? & ? & ? & _); eauto.
  - destruct Hi as (ph & ? & ? & _ & ? & _); eauto.
  - destruct Hi as (_ & [?|[? ?]] & _); eauto; done.
  - by destruct Hi as (_ & ? & _).
Qed.

(** An event keeps the invariant, whatever it answers. *)
Lemma settled_ok hist s k res : Inv hwm hist s -> awaited s = [k] ->
  exists o s', on_settled hwm k res (set_awaited [] s) = (o, s') /\ Inv hwm hist s' /\
    (o = Ok tt \/ exists r, k = WaitWrite /\ res = Some r /\ o = Throw ErrReferenceError "error is not defined").
Proof.
  intros Hi Ha. destruct k as [| | |a], res as [r|]; cbn.
  - destruct (start_rejected_ok hwm hist s r Hi Ha) as (s' & ? & ?). exists (Ok tt), s'. split_and!; [done|done|by left].
  - destruct (start_fulfilled_ok hwm hist s Hi Ha) as (s' & ? & ? & _). exists (Ok tt), s'. split_and!; [done|done|by left].
  - destruct (write_rejected_ok hwm hist s r Hi Ha) as (s' & ? & ?). eexists _, s'. split; [done|]. split; [done|]. right. by exists r.
  - destruct (write_fulfilled_ok hwm hist s Hi Ha) as (s' & ? & ? & _). exists (Ok tt), s'. split_and!; [done|done|by left].
  - destruct (close_rejected_ok hwm hist s r Hi Ha) as (s' & ? & ?). exists (Ok tt), s'. split_and!; [done|done|by left].
  - destruct (close_fulfilled_ok hwm hist s Hi Ha) as (s' & ? & ?). exists (Ok tt), s'. split_and!; [done|done|by left].
  - destruct (abort_settled_ok hwm hist s a (Rejected r) Hi Ha) as (s' & ? & ?). exists (Ok tt), s'. split_and!; [done|done|by left].
  - destruct (abort_settled_ok hwm hist s a Fulfilled Hi Ha) as (s' & ? & ?). exists (Ok tt), s'. split_and!; [done|done|by left].
Qed.

(** What an event may answer: a documented [TypeError] of the call, or
    the [ReferenceError] of a failed write. *)
Definition event_result (e : event) s (o : outcome unit) : Prop :=
  match e with
  | EvSettle i res => o = Ok tt \/
      (exists r, awaited s !! i = Some WaitWrite /\ res = Some r /\ o = Throw ErrReferenceError "error is not defined")
  | _ => known_result o
  end.

Lemma event_ok hist s e : Inv hwm hist s ->
  exists o s', run_event hwm size e s = (o, s') /\ Inv hwm (hist ++ accepted_by e s) s' /\ event_result e s o.
Proof.
  intros Hi. destruct e as [|r ls| |n r ls|n|n|n c|n|r|i res].
  10: { cbn. rewrite app_nil_r. rewrite gets_bind. cbn [id].
    destruct (awaited s !! i) as [k|] eqn:Ek; [|exists (Ok tt), s; by auto].
    destruct (awaits_one hist s i k Hi Ek) as [-> Ha]. rewrite Ha.
    destruct (settled_ok hist s k res Hi Ha) as (o & s' & Hm & Hi' & Hk). exists o, s'. rewrite modify_bind.
    split; [done|]. split; [done|]. destruct Hk as [Hk|(r & -> & Hk)]; [by left|]. right. by exists r. }
  all: match goal with |- context [run_event _ _ ?e] => change (safe hwm (run_event hwm size e) (hist ++ accepted_by e s) s) end;
    cbn; rewrite ?app_nil_r.
  - by apply safe_ignore, new_writer_ok.
  - by apply safe_ignore, keeps_safe, stream_abort_ok.
  - by apply safe_ignore, keeps_safe, stream_close_ok.
  - by apply safe_ignore, writer_abort_ok.
  - by apply safe_ignore, writer_close_ok.
  - by apply release_ok.
  - apply safe_ignore. pose proof (write_ok hwm size hist n c s Hi) as Hw.
    destruct (accepts size s n c); by rewrite ?app_nil_r.
  - by apply safe_ignore, desiredSize_ok.
  - by apply keeps_safe, controller_error_ok.
Qed.

(** The chunks accepted along a run. *)
Fixpoint accepted (es : list event) s : list Z :=
  match es with [] => [] | e :: es => accepted_by e s ++ accepted es (run_event hwm size e s).2 end.

Lemma stream_run_inv es hist s : Inv hwm hist s -> Inv hwm (hist ++ accepted es s) (run hwm size es s).
Proof.
  revert hist s. induction es as [|e es IH]; intros hist s Hi; cbn; [by rewrite app_nil_r|].
  destruct (event_ok hist s e Hi) as (o & s' & Hm & Hi' & _). rewrite Hm. cbn. rewrite app_assoc. by apply IH.
Qed.

Lemma run_new es : Inv hwm (accepted es (new_stream hwm)) (run hwm size es (new_stream hwm)).
Proof. apply (stream_run_inv es [] _), new_stream_ok. Qed.

(** What the sink of any stream has been given. *)
Lemma inv_given hist s : Inv hwm hist s -> exists w tl, sink_calls s = SinkStart :: (SinkWrite <$> w) ++ tl /\
  w `prefix_of` hist /\ (length (awaited s) <= 1)%nat /\
  (tl = [] \/ (tl = [SinkClose] /\ w = hist) \/ exists r, tl = [SinkAbort r]).
Proof.
  intros [_ Hi]. assert (forall ph, in_phase ph s -> (length (awaited s) <= 1)%nat) as Hone.
  { intros ph H. destruct ph, H as (_ & -> & _); cbn; lia. }
  destruct (st_state s).
  - destruct Hi as (ph & w & cs & Hph & Hw & _). exists w, (close_call ph). split; [apply Hw|].
    split; [rewrite (wi_hist _ _ _ _ _ _ Hw); by eexists|]. split; [by eapply Hone|].
    unfold close_call. case_decide as Hc; [|by left]. right; left. split; [done|].
    rewrite (wi_hist _ _ _ _ _ _ Hw). unfold unsent. by rewrite (wi_closing _ _ _ _ _ _ Hw Hc), fmap_nil, drop_nil, app_nil_r.
  - destruct Hi as (ph & w & tl & _ & Hph & []). exists w, tl. split; [done|]. split; [done|]. split; [by eapply Hone|]. intuition.
  - destruct Hi as (_ & Ha & w & tl & Hg & Hp & Htl). exists w, tl. split; [done|]. split; [done|]. split; [|done].
    destruct Ha as [->|[? ->]]; cbn; lia.
  - destruct Hi as (_ & -> & _ & Hg). eexists _, [SinkClose]. split; [exact Hg|]. split; [done|]. split; [cbn; lia|]. auto.
Qed.

(** The sink fulfils its promise [n] times. *)
Definition settled (n : nat) (s : wstream) : wstream := run hwm size (replicate n (EvSettle 0 None)) s.

Lemma settle_one s k : awaited s = [k] -> run hwm size [EvSettle 0 None] s = (on_settled hwm k None (set_awaited [] s)).2.
Proof. intros Ha. cbn. rewrite gets_bind. cbn [id]. by rewrite Ha. Qed.

Lemma queue_nil cs b : queue_of cs b = [] -> cs = [].
Proof. unfold queue_of. intros [H _]%app_eq_nil. by apply fmap_nil_inv in H. Qed.

(** How much a stream has to hand over still. *)
Definition backlog s : nat := length (ct_queue s) + (if ct_started s then 0 else 1).

Lemma settled_S s k s' n : awaited s = [k] -> on_settled hwm k None (set_awaited [] s) = (Ok tt, s') ->
  settled (S n) s = settled n s'.
Proof.
  intros Ha Hm. unfold settled. change (replicate (S n) _) with ([EvSettle 0 None] ++ replicate n (EvSettle 0 None)).
  unfold run at 1. rewrite foldl_app. change (foldl _ s [_]) with (run hwm size [EvSettle 0 None] s).
  by rewrite (settle_one _ _ Ha), Hm.
Qed.

(** A writable stream hands everything over when the sink keeps going. *)
Lemma drains hist s : Inv hwm hist s -> st_state s = Writable -> (awaited s = [] -> ct_queue s = []) ->
  exists n tl, (n <= backlog s)%nat /\ given (settled n s) hist tl.
Proof.
  remember (backlog s) as m eqn:Em. revert s Em. induction m as [m IH] using lt_wf_ind. intros s -> Hi Hst Hq.
  assert (forall k s', awaited s = [k] -> on_settled hwm k None (set_awaited [] s) = (Ok tt, s') -> Inv hwm hist s' ->
    st_state s' = Writable -> (awaited s' = [] -> ct_queue s' = []) -> (backlog s' < backlog s)%nat ->
    exists n tl, (n <= backlog s)%nat /\ given (settled n s) hist tl) as Hstep.
  { intros k s' Ha Hm Hi' Hst' Hq' Hlt. destruct (IH _ Hlt s' eq_refl Hi' Hst' Hq') as (n & tl & Hn & Hg).
    exists (S n), tl. rewrite (settled_S s k s' n Ha Hm). split; [lia|done]. }
  assert (Hi' := Hi). destruct Hi' as [_ Hi']. rewrite Hst in Hi'. destruct Hi' as (ph & w & cs & Hph & Hw & Hr).
  assert (cs = [] -> exists n tl, (n <= backlog s)%nat /\ given (settled n s) hist tl) as H0.
  { intros ->. exists 0%nat, (close_call ph). split; [lia|]. destruct Hw as [_ _ _ _ _ _ Hh Hg]. unfold unsent in Hh.
    by rewrite fmap_nil, drop_nil, app_nil_r in Hh; subst. }
  assert (ct_queue s = [] -> cs = []) as Hcs by (rewrite (wi_queue _ _ _ _ _ _ Hw); apply queue_nil).
  destruct ph; destruct Hph as (Hs & Ha & _).
  - destruct (start_fulfilled_ok hwm hist s Hi Ha) as (s' & Hm & Hi1 & Hs1). destruct (Hs1 Hst) as (Hst1 & Hs1' & Hlen & Hq1).
    eapply Hstep; [done..|]. unfold backlog. rewrite Hs, Hs1'. lia.
  - destruct (write_fulfilled_ok hwm hist s Hi Ha) as (s' & Hm & Hi1 & Hs1). destruct (Hs1 Hst) as (Hst1 & Hs1' & Hlen & Hq1).
    eapply Hstep; [done..|]. unfold backlog. rewrite Hs, Hs1'. lia.
  - auto.
  - apply H0. by apply (wi_closing _ _ _ _ _ _ Hw).
  - auto.
Qed.
End Props.

(* ------------------------------------------------------------------ *)
(** ** The properties *)

(** C6: no sequence of events makes an assertion of the writable stream
    fail or calls a sink algorithm that was cleared.  An event answers
    with a value, with one of the [TypeError]s of a misused writer, or
    with the [ReferenceError] that a rejected write of the sink meets. *)
Theorem writable_stream_safe hwm size es e :
  event_result e (run hwm size es (new_stream hwm)) (run_event hwm size e (run hwm size es (new_stream hwm))).1.
Proof. destruct (event_ok hwm size _ _ e (run_new hwm size es)) as (o & s' & -> & _ & Hr). exact Hr. Qed.

(** C7: the sink is started, then given accepted chunks in the order of
    the writes, one at a time, then closed or aborted at most once; it is
    closed only when it has been given every accepted chunk. *)
Theorem writable_stream_sink_order hwm size es :
  let s := run hwm size es (new_stream hwm) in
  exists w tl, sink_calls s = SinkStart :: (SinkWrite <$> w) ++ tl /\
    w `prefix_of` accepted hwm size es (new_stream hwm) /\ (length (awaited s) <= 1)%nat /\
    (tl = [] \/ (tl = [SinkClose] /\ w = accepted hwm size es (new_stream hwm)) \/ exists r, tl = [SinkAbort r]).
Proof. exact (inv_given hwm _ _ (run_new hwm size es)). Qed.

(** while the stream is writable and not closing, the ready promise
    of its writer is pending exactly when [desiredSize] is not positive,
    and [desiredSize] is the high water mark less the sizes of the queued
    chunks. *)
Theorem writer_backpressure hwm size es n r :
  let s := run hwm size es (new_stream hwm) in
  st_state s = Writable -> WritableStreamCloseQueuedOrInFlight s = false ->
  st_writer s = Some n -> writers s !! n = Some r ->
  writer_desiredSize hwm n s = (Ok (Some (num_sub hwm (sizes (ct_queue s)))), s) /\
  (wp_flag (w_ready r) = WpPending <-> num_nonpos (num_sub hwm (sizes (ct_queue s))) = true).
Proof.
  intros s Hst Hcl Hn Hr. destruct (run_new hwm size es) as [[Hws Hlink] Hi]. fold s in Hws, Hlink, Hi.
  rewrite Hst in Hi. destruct Hi as (ph & w & cs & Hph & Hw & _).
  unfold link_of, closing in Hlink. rewrite Hst, Hcl in Hlink. specialize (Hlink n r Hn Hr).
  rewrite (wi_backpressure _ _ _ _ _ _ Hw Hcl) in Hlink.
  unfold WritableStreamDefaultControllerGetBackpressure, WritableStreamDefaultControllerGetDesiredSize in Hlink.
  rewrite (wi_total _ _ _ _ _ _ Hw) in Hlink. split; [|done].
  destruct (proj1 Hws n r Hr) as (Ho & _). rewrite Hn, bool_decide_eq_true_2 in Ho by done.
  unfold writer_desiredSize. rewrite (bind_ok _ _ _ _ _ (the_writer_ok _ _ _ Hr)), Ho. cbn [negb]. rewrite gets_bind. cbn [id].
  unfold state_is. rewrite Hst. cbn. unfold WritableStreamDefaultControllerGetDesiredSize.
  by rewrite (wi_total _ _ _ _ _ _ Hw).
Qed.

(** C8: every accepted chunk reaches the sink: from a writable stream
    that has not met a failed write, as many fulfilments of the sink's
    promises as the queue is long, and one for the start, hand all of
    them over. *)
Theorem writable_stream_delivers hwm size es :
  let s := run hwm size es (new_stream hwm) in
  st_state s = Writable -> (awaited s = [] -> ct_queue s = []) ->
  exists n tl, (n <= length (ct_queue s) + 1)%nat /\
    sink_calls (run hwm size (replicate n (EvSettle 0 None)) s) =
    SinkStart :: (SinkWrite <$> accepted hwm size es (new_stream hwm)) ++ tl.
Proof.
  intros s Hst Hq. destruct (drains hwm size _ s (run_new hwm size es) Hst Hq) as (n & tl & Hn & Hg).
  exists n, tl. split; [|exact Hg]. unfold backlog in Hn. destruct (ct_started s); lia.
Qed.

(** A stream that waits for a write nothing will settle; [c] is what the
    sink was called with, [q] what was queued. *)
Record stuck (c : list sink_call) (q : list (qvalue * Z)) (s : wstream) : Prop := {
  sk_started : ct_started s = true;
  sk_awaited : awaited s = [];
  sk_write : is_some (st_inFlightWrite s) = true;
  sk_calls : sink_calls s = c;
  sk_state : st_state s = Writable \/ st_state s = Erroring;
  sk_queue : q `prefix_of` ct_queue s;
}.

Section Stuck.
Variables (hwm : jsnum) (size : Z -> jsnum + reason) (c : list sink_call) (q : list (qvalue * Z)).

Definition keeps {A} (m : SM wstream A) : Prop := forall s, stuck c q s -> stuck c q (m s).2.

Lemma stuck_ret {A} (a : A) : keeps (mret a).
Proof. by intros s. Qed.
Lemma stuck_throw {A} e msg : keeps (@throw wstream A e msg).
Proof. by intros s. Qed.
Lemma stuck_gets {A} (g : wstream -> A) : keeps (gets g).
Proof. by intros s. Qed.
Lemma stuck_assert b : keeps (assert b).
Proof. by intros s. Qed.
Lemma stuck_bind {A B} (m : SM wstream A) (k : A -> SM wstream B) : keeps m -> (forall a, keeps (k a)) -> keeps (m ≫= k).
Proof. intros Hm Hk s Hs. unfold mbind, sm_bind. specialize (Hm s Hs). destruct (m s) as [[a|e msg] s']; [by apply Hk|done]. Qed.
Lemma stuck_fmap {A B} (f : A -> B) (m : SM wstream A) : keeps m -> keeps (f <$> m).
Proof. intros Hm s Hs. unfold fmap, sm_fmap. specialize (Hm s Hs). by destruct (m s) as [[a|e msg] s']. Qed.
Lemma stuck_try {A} (m : SM wstream A) f : keeps m -> (forall r, keeps (f r)) -> keeps (try m f).
Proof. intros Hm Hf s Hs. unfold try. specialize (Hm s Hs). destruct (m s) as [[a|e msg] s']; [done|by apply Hf]. Qed.
Lemma stuck_with {A} (k : wstream -> SM wstream A) : (forall s, stuck c q s -> stuck c q (k s s).2) -> keeps (gets id ≫= k).
Proof. intros Hk s Hs. by apply Hk. Qed.
Lemma stuck_the_writer n : keeps (the_writer n).
Proof. intros s Hs. unfold the_writer. by destruct (writers s !! n). Qed.
Lemma stuck_mapM {A} (f : A -> SM wstream unit) l : (forall a, keeps (f a)) -> keeps (mapM f l).
Proof. intros Hf. induction l as [|a l IH]; cbn; [apply stuck_ret|]. apply stuck_bind; [done|]. intros []. apply stuck_bind; [exact IH|]. intros ?. apply stuck_ret. Qed.
Lemma stuck_new_promise : keeps new_promise.
Proof. intros s []. by split. Qed.

(** Assignments to the parts of the state that [stuck] does not mention. *)
Ltac stuck_assign := let s := fresh in intros s []; by split.
Create HintDb keeps.
#[local] Hint Resolve stuck_ret stuck_throw stuck_gets stuck_assert stuck_the_writer stuck_new_promise : keeps.
Lemma stuck_for_writer f : (forall n, keeps (f n)) -> keeps (for_writer f).
Proof. intros Hf. apply stuck_bind; [apply stuck_gets|]. intros [n|]; auto with keeps. Qed.
(** A program that does not look at what [stuck] says. *)
Ltac kp := repeat first
  [ solve [auto 2 with keeps] | simple apply stuck_fmap | simple apply stuck_mapM; intros ? | simple apply stuck_for_writer; intros ?
  | (simple apply stuck_bind; [|intros ?]) | (simple apply stuck_try; [|intros ?]) | stuck_assign
  | match goal with |- keeps (match ?x with _ => _ end) => destruct x end ].

Lemma stuck_settle p v : keeps (settle_promise p v).
Proof. unfold settle_promise. kp. Qed.
Lemma stuck_set_writer n r : keeps (set_writer n r).
Proof. unfold set_writer. kp. Qed.
#[local] Hint Resolve stuck_settle stuck_set_writer : keeps.
Lemma stuck_rejected r : keeps (promiseRejectedWith r).
Proof. unfold promiseRejectedWith. kp. Qed.
Lemma stuck_resolved : keeps promiseResolvedWith.
Proof. unfold promiseResolvedWith. kp. Qed.
Lemma stuck_closed_reject n e : keeps (defaultWriterClosedPromiseReject n e).
Proof. unfold defaultWriterClosedPromiseReject. kp. Qed.
Lemma stuck_closed_resolve n : keeps (defaultWriterClosedPromiseResolve n).
Proof. unfold defaultWriterClosedPromiseResolve. kp. Qed.
Lemma stuck_closed_init n : keeps (defaultWriterClosedPromiseInitialize n).
Proof. unfold defaultWriterClosedPromiseInitialize. kp. Qed.
Lemma stuck_ready_reject n e : keeps (defaultWriterReadyPromiseReject n e).
Proof. unfold defaultWriterReadyPromiseReject. kp. Qed.
Lemma stuck_ready_resolve n : keeps (defaultWriterReadyPromiseResolve n).
Proof. unfold defaultWriterReadyPromiseResolve. kp. Qed.
Lemma stuck_ready_init n : keeps (defaultWriterReadyPromiseInitialize n).
Proof. unfold defaultWriterReadyPromiseInitialize. kp. Qed.
#[local] Hint Resolve stuck_rejected stuck_resolved stuck_closed_reject stuck_closed_resolve stuck_closed_init stuck_ready_reject stuck_ready_resolve stuck_ready_init : keeps.
Lemma stuck_closed_rejected n e : keeps (defaultWriterClosedPromiseInitializeAsRejected n e).
Proof. unfold defaultWriterClosedPromiseInitializeAsRejected. kp. Qed.
Lemma stuck_ready_rejected n e : keeps (defaultWriterReadyPromiseInitializeAsRejected n e).
Proof. unfold defaultWriterReadyPromiseInitializeAsRejected. kp. Qed.
Lemma stuck_ready_resolved n : keeps (defaultWriterReadyPromiseInitializeAsResolved n).
Proof. unfold defaultWriterReadyPromiseInitializeAsResolved. kp. Qed.
#[local] Hint Resolve stuck_closed_rejected stuck_ready_rejected stuck_ready_resolved : keeps.
Lemma stuck_ensure n e : keeps (WritableStreamDefaultWriterEnsureReadyPromiseRejected n e).
Proof. unfold WritableStreamDefaultWriterEnsureReadyPromiseRejected. kp. Qed.
#[local] Hint Resolve stuck_ensure : keeps.

(** The in-flight write keeps the queue where it is and the stream from
    becoming errored. *)
Lemma stuck_advance : keeps WritableStreamDefaultControllerAdvanceQueueIfNeeded.
Proof. unfold WritableStreamDefaultControllerAdvanceQueueIfNeeded. apply stuck_with. intros s Hs. by rewrite (sk_started _ _ _ Hs), (sk_write _ _ _ Hs). Qed.

Lemma stuck_start_erroring r : keeps (WritableStreamStartErroring r).
Proof.
  unfold WritableStreamStartErroring. apply stuck_bind; [kp|intros s0]. do 2 (apply stuck_bind; [kp|intros _]).
  apply stuck_bind; [intros s []; split; try done; by right|intros _].
  do 2 (apply stuck_bind; [kp|intros _]). apply stuck_with. intros s Hs. unfold WritableStreamHasOperationMarkedInFlight. by rewrite (sk_write _ _ _ Hs).
Qed.
#[local] Hint Resolve stuck_advance stuck_start_erroring : keeps.

Lemma stuck_error r : keeps (WritableStreamDefaultControllerError r).
Proof. unfold WritableStreamDefaultControllerError, WritableStreamDefaultControllerClearAlgorithms. kp. Qed.
#[local] Hint Resolve stuck_error : keeps.
Lemma stuck_error_if_needed r : keeps (WritableStreamDefaultControllerErrorIfNeeded r).
Proof. unfold WritableStreamDefaultControllerErrorIfNeeded. kp. Qed.
Lemma stuck_controller_error r : keeps (controller_error r).
Proof. unfold controller_error. kp. Qed.
#[local] Hint Resolve stuck_error_if_needed stuck_controller_error : keeps.
Lemma stuck_abort r ls : keeps (WritableStreamAbort r ls).
Proof. unfold WritableStreamAbort. kp. Qed.

Lemma stuck_enqueue v z : keeps (EnqueueValueWithSize v z).
Proof.
  unfold EnqueueValueWithSize. destruct z; kp. intros s [? ? ? ? ? Hq]. split; try done. cbn. by apply prefix_app_r.
Qed.
#[local] Hint Resolve stuck_abort stuck_enqueue : keeps.
Lemma stuck_close : keeps WritableStreamClose.
Proof. unfold WritableStreamClose. kp. Qed.
Lemma stuck_update_backpressure b : keeps (WritableStreamUpdateBackpressure b).
Proof. unfold WritableStreamUpdateBackpressure. kp. Qed.
#[local] Hint Resolve stuck_close stuck_update_backpressure : keeps.
Lemma stuck_release n : keeps (WritableStreamDefaultWriterRelease n).
Proof. unfold WritableStreamDefaultWriterRelease. kp. Qed.
Lemma stuck_write_sized n x z : keeps (write_sized hwm n x z).
Proof. unfold write_sized. kp. Qed.
#[local] Hint Resolve stuck_release stuck_write_sized : keeps.
Lemma stuck_new_writer : keeps new_WritableStreamDefaultWriter.
Proof. unfold new_WritableStreamDefaultWriter. kp. Qed.
#[local] Hint Resolve stuck_new_writer : keeps.

(** Nothing that can happen moves the stream on. *)
Lemma stuck_event e : keeps (run_event hwm size e).
Proof.
  destruct e; cbn [run_event]; [..|apply stuck_with; intros s Hs; by rewrite (sk_awaited _ _ _ Hs), lookup_nil];
    unfold ignore, stream_abort, stream_close, writer_abort, writer_close, writer_releaseLock, writer_write,
      WritableStreamDefaultWriterWrite, writer_desiredSize; kp.
Qed.

Lemma stuck_run es : forall s, stuck c q s -> stuck c q (run hwm size es s).
Proof. induction es as [|e es IH]; intros s Hs; [done|]. cbn. by apply IH, stuck_event. Qed.
End Stuck.

(** C15: when the sink rejects a write, the handler throws a
    [ReferenceError] before it has rejected anything: no promise settles,
    the stream does not error, the write stays in flight and nothing is
    awaited any more.  From then on, whatever is called and reported, the
    sink is never called again, the write stays in flight, what was queued
    stays queued and the stream is neither closed nor errored. *)
Theorem sink_write_failure_hangs hwm size es r later :
  let s := run hwm size es (new_stream hwm) in
  awaited s = [WaitWrite] ->
  exists s', run_event hwm size (EvSettle 0 (Some r)) s = (Throw ErrReferenceError "error is not defined", s') /\
    promises s' = promises s /\ st_state s' = st_state s /\ st_storedError s' = st_storedError s /\
    stuck (sink_calls s) (ct_queue s) (run hwm size later s').
Proof.
  intros s Ha. pose proof (run_new hwm size es) as Hi. fold s in Hi.
  assert (is_some (st_inFlightWrite s) = true /\ ct_started s = true /\ (st_state s = Writable \/ st_state s = Erroring)) as (Hiw & Hs & Hst).
  { destruct (inv_awaits hwm _ _ _ Writing Hi Ha eq_refl) as [(Hst & ? & ? & Hph & _)|(Hst & ? & ? & Hph & _)];
      destruct Hph as (? & _ & ? & _); auto. }
  cbn [run_event]. rewrite gets_bind. cbn [id]. rewrite Ha. cbn [lookup list_lookup]. rewrite modify_bind. cbn [on_settled delete list_delete].
  unfold on_write_rejected, WritableStreamDefaultControllerClearAlgorithms.
  destruct (st_inFlightWrite s) as [p|] eqn:Ep; [|done].
  destruct Hst as [Hst|Hst]; wstep; (eexists; split; [reflexivity|]; split_and!; try done; apply stuck_run; split; projs; try done; try (by rewrite Ep); auto).
Qed.

(** a write whose size is not a finite number of at least zero makes
    the stream error, and the call returns [undefined] where its caller
    awaits a promise. *)
Theorem write_bad_size_undefined hwm size es n c z r :
  let s := run hwm size es (new_stream hwm) in
  st_state s = Writable -> WritableStreamCloseQueuedOrInFlight s = false -> ct_algorithms s = true ->
  writers s !! n = Some r -> w_owner r = true ->
  size c = inl z -> queueable (inl z) = None ->
  exists s', writer_write hwm size n c s = (Ok None, s') /\ (st_state s' = Erroring \/ st_state s' = Errored).
Proof.
  intros s Hst Hcl Ha Hr Ho Hz Hq.
  destruct (write_unqueueable hwm size _ n c z s r (run_new hwm size es)) as (s' & Hm & _ & Hs'); try done.
  exists s'. split; [|done]. rewrite <-Hm. unfold writer_write, WritableStreamDefaultWriterWrite.
  rewrite !(bind_ok _ _ _ _ _ (the_writer_ok s n r Hr)), Ho. cbn [negb].
  rewrite (bind_ok _ _ _ _ _ (the_writer_ok s n r Hr)), Ho. cbn [negb]. rewrite gets_bind. cbn [id]. by rewrite Ha, Hz.
Qed.

(* ------------------------------------------------------------------ *)
(** ** Witnesses *)

Definition unit_size (_ : Z) : jsnum + reason := inl (Fin 1).
Definition nan_size (_ : Z) : jsnum + reason := inl NaN.

(** A started stream with a writer and two chunks. *)
Definition two_writes : list event := [EvGetWriter; EvSettle 0 None; EvWrite 0 7; EvWrite 0 8].

Example two_writes_accepted : accepted (Fin 3) unit_size two_writes (new_stream (Fin 3)) = [7; 8].
Proof. vm_compute. reflexivity. Qed.

Lemma writer_backpressure_witness :
  let s := run (Fin 2) unit_size two_writes (new_stream (Fin 2)) in
  writer_desiredSize (Fin 2) 0 s = (Ok (Some (Fin 0)), s) /\
  (WpPending = WpPending <-> num_nonpos (Fin 0) = true).
Proof.
  exact (writer_backpressure (Fin 2) unit_size two_writes 0 (Writer true (WP 4 WpPending true) (WP 1 WpPending true))
    eq_refl eq_refl eq_refl eq_refl).
Defined.

Lemma writable_stream_delivers_witness :
  exists n tl, (n <= 3)%nat /\
    sink_calls (run (Fin 3) unit_size (replicate n (EvSettle 0 None)) (run (Fin 3) unit_size two_writes (new_stream (Fin 3)))) =
    SinkStart :: (SinkWrite <$> accepted (Fin 3) unit_size two_writes (new_stream (Fin 3))) ++ tl.
Proof.
  apply (writable_stream_delivers (Fin 3) unit_size two_writes); [reflexivity|].
  vm_compute. discriminate.
Defined.

Lemma sink_write_failure_hangs_witness :
  let s := run (Fin 3) unit_size two_writes (new_stream (Fin 3)) in
  awaited s = [WaitWrite] /\ sink_calls s = [SinkStart; SinkWrite 7] /\
  exists s', run_event (Fin 3) unit_size (EvSettle 0 (Some (User 5))) s = (Throw ErrReferenceError "error is not defined", s') /\
    promises s' = promises s /\ st_state s' = st_state s /\ st_storedError s' = st_storedError s /\
    stuck (sink_calls s) (ct_queue s) (run (Fin 3) unit_size [EvWrite 0 9; EvWriterClose 0; EvWriterAbort 0 (User 6) []; EvError (User 7)] s').
Proof.
  split; [vm_compute; reflexivity|]. split; [vm_compute; reflexivity|].
  apply (sink_write_failure_hangs (Fin 3) unit_size two_writes (User 5)). vm_compute. reflexivity.
Defined.

Lemma write_bad_size_undefined_witness :
  let s := run (Fin 3) nan_size [EvGetWriter] (new_stream (Fin 3)) in
  exists s', writer_write (Fin 3) nan_size 0 7 s = (Ok None, s') /\ (st_state s' = Erroring \/ st_state s' = Errored).
Proof.
  apply (write_bad_size_undefined (Fin 3) nan_size [EvGetWriter] 0 7 NaN (Writer true (WP 0 WpResolved false) (WP 1 WpPending true)));
    vm_compute; reflexivity.
Defined.
