(* ===== verification/ReadableStream.v ===== *)
(** * The readable stream of [lib/lws/streams.js]

    [ReadableStream] with its default controller and default readers as one
    state machine, in the manner of [WritableStream]: the side tables are the
    fields of one record, promises are entries of tables.  The underlying
    source is outside: its calls are recorded, its promises settle by
    environment events, and what its [pull] does to the controller while it
    runs is a parameter.  Size functions and [cancel] methods that call back
    into the stream are not modelled. *)

From S2P Require Import Prelude StreamBase.
Open Scope Z_scope.

Inductive rstate := Readable | Closed | Errored.
#[export] Instance rstate_eq_dec : EqDecision rstate.
Proof. solve_decision. Defined.

(** The promise of a read. *)
Inductive read_result := ReadPending | ReadChunk (c : Z) | ReadDone | ReadError (e : reason).
#[export] Instance read_result_eq_dec : EqDecision read_result.
Proof. solve_decision. Defined.

(** A reader: whether it has [ownerReadableStream], its [closedPromise] and
    whether the resolving functions are still there, its [readRequests]. *)
Record reader := Reader { rd_owner : bool; rd_closed : pid; rd_resolvers : bool; rd_requests : list nat }.

Inductive source_call := SourceStart | SourcePull | SourceCancel (r : reason).
Inductive rwait := WaitStart | WaitPull | WaitCancel (p : pid).

(** [rs_accepted] is history: the chunks the controller has accepted. *)
Record rstream := RStream {
  rs_state : rstate; rs_storedError : reason; rs_reader : option nat; rs_disturbed : bool;
  rc_queue : list (Z * Z); rc_total : Z; rc_started : bool; rc_closeRequested : bool;
  rc_pullAgain : bool; rc_pulling : bool;
  rc_algorithms : bool;            (* the three algorithms are still there *)
  rs_readers : list reader; rs_promises : list settlement; rs_reads : list read_result;
  rs_accepted : list Z; rs_calls : list source_call; rs_awaited : list rwait;
}.

Definition set_rs_state v (s : rstream) : rstream := RStream v (rs_storedError s) (rs_reader s) (rs_disturbed s) (rc_queue s) (rc_total s) (rc_started s) (rc_closeRequested s) (rc_pullAgain s) (rc_pulling s) (rc_algorithms s) (rs_readers s) (rs_promises s) (rs_reads s) (rs_accepted s) (rs_calls s) (rs_awaited s).
Definition set_rs_storedError v (s : rstream) : rstream := RStream (rs_state s) v (rs_reader s) (rs_disturbed s) (rc_queue s) (rc_total s) (rc_started s) (rc_closeRequested s) (rc_pullAgain s) (rc_pulling s) (rc_algorithms s) (rs_readers s) (rs_promises s) (rs_reads s) (rs_accepted s) (rs_calls s) (rs_awaited s).
Definition set_rs_reader v (s : rstream) : rstream := RStream (rs_state s) (rs_storedError s) v (rs_disturbed s) (rc_queue s) (rc_total s) (rc_started s) (rc_closeRequested s) (rc_pullAgain s) (rc_pulling s) (rc_algorithms s) (rs_readers s) (rs_promises s) (rs_reads s) (rs_accepted s) (rs_calls s) (rs_awaited s).
Definition set_rs_disturbed v (s : rstream) : rstream := RStream (rs_state s) (rs_storedError s) (rs_reader s) v (rc_queue s) (rc_total s) (rc_started s) (rc_closeRequested s) (rc_pullAgain s) (rc_pulling s) (rc_algorithms s) (rs_readers s) (rs_promises s) (rs_reads s) (rs_accepted s) (rs_calls s) (rs_awaited s).
Definition set_rc_queue v (s : rstream) : rstream := RStream (rs_state s) (rs_storedError s) (rs_reader s) (rs_disturbed s) v (rc_total s) (rc_started s) (rc_closeRequested s) (rc_pullAgain s) (rc_pulling s) (rc_algorithms s) (rs_readers s) (rs_promises s) (rs_reads s) (rs_accepted s) (rs_calls s) (rs_awaited s).
Definition set_rc_total v (s : rstream) : rstream := RStream (rs_state s) (rs_storedError s) (rs_reader s) (rs_disturbed s) (rc_queue s) v (rc_started s) (rc_closeRequested s) (rc_pullAgain s) (rc_pulling s) (rc_algorithms s) (rs_readers s) (rs_promises s) (rs_reads s) (rs_accepted s) (rs_calls s) (rs_awaited s).
Definition set_rc_started v (s : rstream) : rstream := RStream (rs_state s) (rs_storedError s) (rs_reader s) (rs_disturbed s) (rc_queue s) (rc_total s) v (rc_closeRequested s) (rc_pullAgain s) (rc_pulling s) (rc_algorithms s) (rs_readers s) (rs_promises s) (rs_reads s) (rs_accepted s) (rs_calls s) (rs_awaited s).
Definition set_rc_closeRequested v (s : rstream) : rstream := RStream (rs_state s) (rs_storedError s) (rs_reader s) (rs_disturbed s) (rc_queue s) (rc_total s) (rc_started s) v (rc_pullAgain s) (rc_pulling s) (rc_algorithms s) (rs_readers s) (rs_promises s) (rs_reads s) (rs_accepted s) (rs_calls s) (rs_awaited s).
Definition set_rc_pullAgain v (s : rstream) : rstream := RStream (rs_state s) (rs_storedError s) (rs_reader s) (rs_disturbed s) (rc_queue s) (rc_total s) (rc_started s) (rc_closeRequested s) v (rc_pulling s) (rc_algorithms s) (rs_readers s) (rs_promises s) (rs_reads s) (rs_accepted s) (rs_calls s) (rs_awaited s).
Definition set_rc_pulling v (s : rstream) : rstream := RStream (rs_state s) (rs_storedError s) (rs_reader s) (rs_disturbed s) (rc_queue s) (rc_total s) (rc_started s) (rc_closeRequested s) (rc_pullAgain s) v (rc_algorithms s) (rs_readers s) (rs_promises s) (rs_reads s) (rs_accepted s) (rs_calls s) (rs_awaited s).
Definition set_rc_algorithms v (s : rstream) : rstream := RStream (rs_state s) (rs_storedError s) (rs_reader s) (rs_disturbed s) (rc_queue s) (rc_total s) (rc_started s) (rc_closeRequested s) (rc_pullAgain s) (rc_pulling s) v (rs_readers s) (rs_promises s) (rs_reads s) (rs_accepted s) (rs_calls s) (rs_awaited s).
Definition set_rs_readers v (s : rstream) : rstream := RStream (rs_state s) (rs_storedError s) (rs_reader s) (rs_disturbed s) (rc_queue s) (rc_total s) (rc_started s) (rc_closeRequested s) (rc_pullAgain s) (rc_pulling s) (rc_algorithms s) v (rs_promises s) (rs_reads s) (rs_accepted s) (rs_calls s) (rs_awaited s).
Definition set_rs_promises v (s : rstream) : rstream := RStream (rs_state s) (rs_storedError s) (rs_reader s) (rs_disturbed s) (rc_queue s) (rc_total s) (rc_started s) (rc_closeRequested s) (rc_pullAgain s) (rc_pulling s) (rc_algorithms s) (rs_readers s) v (rs_reads s) (rs_accepted s) (rs_calls s) (rs_awaited s).
Definition set_rs_reads v (s : rstream) : rstream := RStream (rs_state s) (rs_storedError s) (rs_reader s) (rs_disturbed s) (rc_queue s) (rc_total s) (rc_started s) (rc_closeRequested s) (rc_pullAgain s) (rc_pulling s) (rc_algorithms s) (rs_readers s) (rs_promises s) v (rs_accepted s) (rs_calls s) (rs_awaited s).
Definition set_rs_accepted v (s : rstream) : rstream := RStream (rs_state s) (rs_storedError s) (rs_reader s) (rs_disturbed s) (rc_queue s) (rc_total s) (rc_started s) (rc_closeRequested s) (rc_pullAgain s) (rc_pulling s) (rc_algorithms s) (rs_readers s) (rs_promises s) (rs_reads s) v (rs_calls s) (rs_awaited s).
Definition set_rs_calls v (s : rstream) : rstream := RStream (rs_state s) (rs_storedError s) (rs_reader s) (rs_disturbed s) (rc_queue s) (rc_total s) (rc_started s) (rc_closeRequested s) (rc_pullAgain s) (rc_pulling s) (rc_algorithms s) (rs_readers s) (rs_promises s) (rs_reads s) (rs_accepted s) v (rs_awaited s).
Definition set_rs_awaited v (s : rstream) : rstream := RStream (rs_state s) (rs_storedError s) (rs_reader s) (rs_disturbed s) (rc_queue s) (rc_total s) (rc_started s) (rc_closeRequested s) (rc_pullAgain s) (rc_pulling s) (rc_algorithms s) (rs_readers s) (rs_promises s) (rs_reads s) (rs_accepted s) (rs_calls s) v.

(** What the source does to the controller. *)
Inductive ctl_op := CtlEnqueue (chunk : Z) | CtlClose | CtlError (e : reason).

Section Stream.
(** The strategy, and what the [n]-th call of [pull] does before it returns. *)
Variables (strategyHWM : jsnum) (strategySize : Z -> outcome jsnum) (pullOps : nat -> list ctl_op).

Abbreviation RM A := (SM rstream A).

(* ------------------------------------------------------------------ *)
(** ** Promises and readers *)

Definition new_promise (v : settlement) : RM pid := fun s =>
  (Ok (length (rs_promises s)), set_rs_promises (rs_promises s ++ [v]) s).
Definition settle_promise (p : pid) (v : settlement) : RM unit := modify (fun s => set_rs_promises (settle p v (rs_promises s)) s).
Definition promiseRejectedWith (r : reason) : RM pid := new_promise (Rejected r).
Definition promiseResolvedWith : RM pid := new_promise Fulfilled.

(** The promise a [read] returns, and its three steps. *)
Definition new_read (v : read_result) : RM nat := fun s =>
  (Ok (length (rs_reads s)), set_rs_reads (rs_reads s ++ [v]) s).
Definition settle_read (v : read_result) (i : nat) : RM unit := modify (fun s => set_rs_reads (<[i := v]> (rs_reads s)) s).

Definition the_reader (r : nat) : RM reader := fun s =>
  match rs_readers s !! r with
  | Some x => (Ok x, s)
  | None => (Throw ErrTypeError "not a reader", s)
  end.
Definition set_reader (r : nat) (x : reader) : RM unit := modify (fun s => set_rs_readers (<[r := x]> (rs_readers s)) s).

Definition with_requests (l : list nat) (x : reader) : reader := Reader (rd_owner x) (rd_closed x) (rd_resolvers x) l.
Definition with_closed (p : pid) (b : bool) (x : reader) : reader := Reader (rd_owner x) p b (rd_requests x).

Definition defaultReaderClosedPromiseInitialize (r : nat) : RM unit :=
  p ← new_promise Pending; x ← the_reader r; set_reader r (with_closed p true x).

Definition defaultReaderClosedPromiseReject (r : nat) (e : reason) : RM unit :=
  x ← the_reader r;
  if negb (rd_resolvers x) then mret tt else
  settle_promise (rd_closed x) (Rejected e) ;; set_reader r (with_closed (rd_closed x) false x).

Definition defaultReaderClosedPromiseResolve (r : nat) : RM unit :=
  x ← the_reader r;
  if negb (rd_resolvers x) then mret tt else
  settle_promise (rd_closed x) Fulfilled ;; set_reader r (with_closed (rd_closed x) false x).

Definition defaultReaderClosedPromiseInitializeAsRejected (r : nat) (e : reason) : RM unit :=
  defaultReaderClosedPromiseInitialize r ;; defaultReaderClosedPromiseReject r e.

(** [readRequests.forEach] on the requests a reader is relieved of. *)
Definition settle_requests (v : read_result) (r : nat) : RM unit :=
  x ← the_reader r;
  set_reader r (with_requests [] x) ;;
  modify (fun s => set_rs_reads (foldl (fun t i => <[i := v]> t) (rs_reads s) (rd_requests x)) s).

Definition ReadableStreamDefaultReaderErrorReadRequests (r : nat) (e : reason) : RM unit := settle_requests (ReadError e) r.

(* ------------------------------------------------------------------ *)
(** ** The stream *)

Definition IsReadableStreamLocked (s : rstream) : bool := match rs_reader s with Some _ => true | None => false end.

Definition requests (s : rstream) : list nat :=
  match rs_reader s with
  | Some r => match rs_readers s !! r with Some x => rd_requests x | None => [] end
  | None => []
  end.
Definition ReadableStreamGetNumReadRequests (s : rstream) : nat := length (requests s).

Definition rstate_is (st : rstate) (s : rstream) : bool := bool_decide (rs_state s = st).

Definition for_reader (f : nat -> RM unit) : RM unit :=
  r ← gets rs_reader; match r with Some r => f r | None => mret tt end.

Definition ReadableStreamClose : RM unit :=
  s ← gets id;
  assert (rstate_is Readable s) ;;
  modify (set_rs_state Closed) ;;
  for_reader (fun r => defaultReaderClosedPromiseResolve r ;; settle_requests ReadDone r).

Definition ReadableStreamError (e : reason) : RM unit :=
  s ← gets id;
  assert (rstate_is Readable s) ;;
  modify (set_rs_state Errored) ;;
  modify (set_rs_storedError e) ;;
  for_reader (fun r => defaultReaderClosedPromiseReject r e ;; ReadableStreamDefaultReaderErrorReadRequests r e).

Definition ReadableStreamAddReadRequest (i : nat) : RM unit :=
  s ← gets id;
  assert (IsReadableStreamLocked s) ;;
  assert (rstate_is Readable s) ;;
  for_reader (fun r => x ← the_reader r; set_reader r (with_requests (rd_requests x ++ [i]) x)).

Definition ReadableStreamFulfillReadRequest (chunk : Z) (done : bool) : RM unit :=
  s ← gets id;
  assert (bool_decide (requests s <> [])) ;;
  for_reader (fun r =>
    x ← the_reader r;
    match rd_requests x with
    | [] => throw ErrAssertionError "Assertion failed"
    | i :: rest =>
      set_reader r (with_requests rest x) ;;
      settle_read (if done then ReadDone else ReadChunk chunk) i
    end).

(* ------------------------------------------------------------------ *)
(** ** The queue *)

Definition ResetQueue : RM unit := modify (fun s => set_rc_total 0 (set_rc_queue [] s)).

Definition DequeueValue : RM Z :=
  q ← gets rc_queue;
  match q with
  | [] => throw ErrAssertionError "Assertion failed"
  | (v, z) :: rest =>
    t ← gets rc_total;
    modify (fun s => set_rc_total (if t - z <? 0 then 0 else t - z) (set_rc_queue rest s)) ;; mret v
  end.

Definition size_message : string := "Size must be a finite, non-NaN, non-negative number.".

Definition EnqueueValueWithSize (value : Z) (size : jsnum) : RM unit :=
  match size with
  | Fin z => if 0 <=? z then
      modify (fun s => set_rc_total (rc_total s + z) (set_rc_queue (rc_queue s ++ [(value, z)]) s))
    else throw ErrRangeError size_message
  | _ => throw ErrRangeError size_message
  end.

(* ------------------------------------------------------------------ *)
(** ** The default controller *)

Definition ReadableStreamDefaultControllerCanCloseOrEnqueue (s : rstream) : bool :=
  negb (rc_closeRequested s) && rstate_is Readable s.

(** [null] for [None]. *)
Definition ReadableStreamDefaultControllerGetDesiredSize (s : rstream) : option jsnum :=
  match rs_state s with
  | Errored => None
  | Closed => Some (Fin 0)
  | Readable => Some (num_sub strategyHWM (rc_total s))
  end.

Definition num_positive (v : jsnum) : bool :=
  match v with Fin z => 0 <? z | PosInf => true | NegInf | NaN => false end.

Definition ReadableStreamDefaultControllerShouldCallPull : RM bool :=
  s ← gets id;
  if negb (ReadableStreamDefaultControllerCanCloseOrEnqueue s) then mret false else
  if negb (rc_started s) then mret false else
  if IsReadableStreamLocked s && (0 <? ReadableStreamGetNumReadRequests s)%nat then mret true else
  match ReadableStreamDefaultControllerGetDesiredSize s with
  | None => throw ErrAssertionError "Assertion failed"
  | Some d => mret (num_positive d)
  end.

Definition ReadableStreamDefaultControllerClearAlgorithms : RM unit := modify (set_rc_algorithms false).

(** A call of an algorithm that [ClearAlgorithms] may have removed. *)
Definition not_a_function : string := "not a function".
Definition call_source (c : source_call) (k : rwait) : RM unit :=
  a ← gets rc_algorithms;
  if (a : bool) then modify (fun s => set_rs_awaited (rs_awaited s ++ [k]) (set_rs_calls (rs_calls s ++ [c]) s))
  else throw ErrTypeError not_a_function.

Definition ReadableStreamDefaultControllerError (e : reason) : RM unit :=
  s ← gets id;
  if negb (rstate_is Readable s) then mret tt else
  ResetQueue ;; ReadableStreamDefaultControllerClearAlgorithms ;; ReadableStreamError e.

Definition ReadableStreamDefaultControllerClose : RM unit :=
  s ← gets id;
  if negb (ReadableStreamDefaultControllerCanCloseOrEnqueue s) then mret tt else
  modify (set_rc_closeRequested true) ;;
  if bool_decide (rc_queue s = []) then ReadableStreamDefaultControllerClearAlgorithms ;; ReadableStreamClose else mret tt.

(** [strategySizeAlgorithm(chunk)] and [EnqueueValueWithSize], each in its
    [try]: the stream errors and the error is thrown on. *)
Definition enqueue_sized (chunk : Z) : RM unit := fun s =>
  let failed c msg s := (ReadableStreamDefaultControllerError (ErrorObj c msg) ;; throw c msg) s in
  if negb (rc_algorithms s) then failed ErrTypeError not_a_function s else
  match strategySize chunk with
  | Throw c msg => failed c msg s
  | Ok size => match EnqueueValueWithSize chunk size s with
               | (Throw c msg, s) => failed c msg s
               | r => r
               end
  end.

(** The operations of the controller; [again] is [CallPullIfNeeded]. *)
Definition ReadableStreamDefaultControllerEnqueue (again : RM unit) (chunk : Z) : RM unit :=
  s ← gets id;
  if negb (ReadableStreamDefaultControllerCanCloseOrEnqueue s) then mret tt else
  (if IsReadableStreamLocked s && (0 <? ReadableStreamGetNumReadRequests s)%nat
   then ReadableStreamFulfillReadRequest chunk false else enqueue_sized chunk) ;;
  modify (fun s => set_rs_accepted (rs_accepted s ++ [chunk]) s) ;;
  again.

Definition controller_op (again : RM unit) (op : ctl_op) : RM unit :=
  s ← gets id;
  match op with
  | CtlEnqueue chunk =>
    if negb (ReadableStreamDefaultControllerCanCloseOrEnqueue s) then throw ErrTypeError "The stream is not in a state that permits enqueue"
    else ReadableStreamDefaultControllerEnqueue again chunk
  | CtlClose =>
    if negb (ReadableStreamDefaultControllerCanCloseOrEnqueue s) then throw ErrTypeError "The stream is not in a state that permits close"
    else ReadableStreamDefaultControllerClose
  | CtlError e => ReadableStreamDefaultControllerError e
  end.

(** The source goes on after an error of the interface; an assertion that
    fails or a call of [undefined] is no such error. *)
Definition is_defect (c : error_class) (msg : string) : bool :=
  bool_decide (c = ErrAssertionError) || bool_decide (msg = not_a_function).
Definition survive (m : RM unit) : RM unit := fun s =>
  match m s with
  | (Throw c msg, s') => if is_defect c msg then (Throw c msg, s') else (Ok tt, s')
  | r => r
  end.

Fixpoint run_ops (again : RM unit) (ops : list ctl_op) : RM unit :=
  match ops with
  | [] => mret tt
  | op :: ops => survive (controller_op again op) ;; run_ops again ops
  end.

Definition is_pull (c : source_call) : bool := match c with SourcePull => true | _ => false end.
Definition pulls (s : rstream) : nat := length (List.filter is_pull (rs_calls s)).

(** [pull] runs while [pulling] is set, so that [CallPullIfNeeded] within it
    never calls [pull] again: [depth] 1 is enough. *)
Fixpoint ReadableStreamDefaultControllerCallPullIfNeeded (depth : nat) : RM unit :=
  shouldPull ← ReadableStreamDefaultControllerShouldCallPull;
  if negb shouldPull then mret tt else
  s ← gets id;
  if rc_pulling s then modify (set_rc_pullAgain true) else
  assert (negb (rc_pullAgain s)) ;;
  modify (set_rc_pulling true) ;;
  n ← gets pulls;
  call_source SourcePull WaitPull ;;
  match depth with
  | O => throw ErrAssertionError "out of depth"
  | S depth => run_ops (ReadableStreamDefaultControllerCallPullIfNeeded depth) (pullOps n)
  end.

Definition CallPullIfNeeded : RM unit := ReadableStreamDefaultControllerCallPullIfNeeded 1.

(** The handlers of the source's promises. *)
Definition on_start_fulfilled : RM unit :=
  modify (set_rc_started true) ;;
  s ← gets id;
  assert (negb (rc_pulling s)) ;;
  assert (negb (rc_pullAgain s)) ;;
  CallPullIfNeeded.

Definition on_pull_fulfilled : RM unit :=
  modify (set_rc_pulling false) ;;
  s ← gets id;
  if rc_pullAgain s then modify (set_rc_pullAgain false) ;; CallPullIfNeeded else mret tt.

Definition on_source_rejected (r : reason) : RM unit := ReadableStreamDefaultControllerError r.

Definition PullSteps (v : nat) : RM unit :=
  q ← gets rc_queue;
  if bool_decide (q <> []) then
    chunk ← DequeueValue;
    s ← gets id;
    (if rc_closeRequested s && bool_decide (rc_queue s = [])
     then ReadableStreamDefaultControllerClearAlgorithms ;; ReadableStreamClose
     else CallPullIfNeeded) ;;
    settle_read (ReadChunk chunk) v
  else ReadableStreamAddReadRequest v ;; CallPullIfNeeded.

Definition CancelSteps (r : reason) : RM pid :=
  ResetQueue ;;
  p ← new_promise Pending;
  call_source (SourceCancel r) (WaitCancel p) ;;
  ReadableStreamDefaultControllerClearAlgorithms ;; mret p.

Definition ReadableStreamCancel (r : reason) : RM pid :=
  modify (set_rs_disturbed true) ;;
  s ← gets id;
  match rs_state s with
  | Closed => promiseResolvedWith
  | Errored => promiseRejectedWith (rs_storedError s)
  | Readable => ReadableStreamClose ;; CancelSteps r
  end.

(* ------------------------------------------------------------------ *)
(** ** The interface *)

Definition type_error (msg : string) : reason := ErrorObj ErrTypeError msg.
Definition lock_error (name : string) : reason := type_error ("Cannot " ++ name ++ " a stream using a released reader").

Definition stream_cancel (r : reason) : RM pid :=
  s ← gets id;
  if IsReadableStreamLocked s then promiseRejectedWith (type_error "Cannot cancel a stream that already has a reader")
  else ReadableStreamCancel r.

(** A reader before its constructor has run. *)
Definition blank_reader : reader := Reader true 0 false [].

Definition ReadableStreamReaderGenericInitialize (r : nat) : RM unit :=
  modify (set_rs_reader (Some r)) ;;
  s ← gets id;
  match rs_state s with
  | Readable => defaultReaderClosedPromiseInitialize r
  | Closed => defaultReaderClosedPromiseInitialize r ;; defaultReaderClosedPromiseResolve r
  | Errored => defaultReaderClosedPromiseInitializeAsRejected r (rs_storedError s)
  end.

Definition new_ReadableStreamDefaultReader : RM nat :=
  s ← gets id;
  if IsReadableStreamLocked s
  then throw ErrTypeError "This stream has already been locked for exclusive reading by another reader" else
  let r := length (rs_readers s) in
  modify (fun s => set_rs_readers (rs_readers s ++ [blank_reader]) s) ;;
  ReadableStreamReaderGenericInitialize r ;; mret r.

Definition reader_cancel (r : nat) (e : reason) : RM pid :=
  x ← the_reader r;
  if negb (rd_owner x) then promiseRejectedWith (lock_error "cancel") else ReadableStreamCancel e.

(** The steps of the request act on the promise [read] made before. *)
Definition ReadableStreamDefaultReaderRead (v : nat) : RM unit :=
  modify (set_rs_disturbed true) ;;
  s ← gets id;
  match rs_state s with
  | Closed => settle_read ReadDone v
  | Errored => settle_read (ReadError (rs_storedError s)) v
  | Readable => PullSteps v
  end.

(** The promise a [read] returns: a rejected one, or that of a read. *)
Definition reader_read (r : nat) : RM (pid + nat) :=
  x ← the_reader r;
  if negb (rd_owner x) then p ← promiseRejectedWith (lock_error "read from"); mret (inl p) else
  v ← new_read ReadPending;
  ReadableStreamDefaultReaderRead v ;; mret (inr v).

Definition released_closed_error : reason := type_error "Reader was released and can no longer be used to monitor the stream's closedness".

Definition ReadableStreamReaderGenericRelease (r : nat) : RM unit :=
  s ← gets id;
  assert (bool_decide (rs_reader s = Some r)) ;;
  (if rstate_is Readable s then defaultReaderClosedPromiseReject r released_closed_error
   else
     x ← the_reader r;
     assert (negb (rd_resolvers x)) ;;
     defaultReaderClosedPromiseInitializeAsRejected r released_closed_error) ;;
  modify (set_rs_reader None) ;;
  x ← the_reader r;
  set_reader r (Reader false (rd_closed x) (rd_resolvers x) (rd_requests x)).

Definition reader_releaseLock (r : nat) : RM unit :=
  x ← the_reader r;
  if negb (rd_owner x) then mret tt else
  ReadableStreamReaderGenericRelease r ;;
  ReadableStreamDefaultReaderErrorReadRequests r (type_error "Reader was released").

(* ------------------------------------------------------------------ *)
(** ** Construction and events *)

Definition InitializeReadableStream : rstream :=
  RStream Readable Undefined None false [] 0 false false false false false [] [] [] [] [] [].

Definition SetUpReadableStreamDefaultController : RM unit :=
  ResetQueue ;;
  modify (set_rc_started false) ;;
  modify (set_rc_closeRequested false) ;;
  modify (set_rc_pullAgain false) ;;
  modify (set_rc_pulling false) ;;
  modify (set_rc_algorithms true) ;;
  call_source SourceStart WaitStart.

Definition new_stream : rstream := (SetUpReadableStreamDefaultController InitializeReadableStream).2.

(** What can happen between two turns of the event loop: a call of the
    interface by a consumer, a call of the controller by the source, or the
    settlement of the source promise at a position of [rs_awaited]. *)
Inductive revent :=
| EvGetReader | EvCancel (e : reason) | EvRead (r : nat) | EvReaderCancel (r : nat) (e : reason) | EvRelease (r : nat)
| EvController (op : ctl_op) | EvSettled (i : nat) (failed : option reason).

Definition on_settled (k : rwait) (failed : option reason) : RM unit :=
  match k, failed with
  | WaitStart, None => on_start_fulfilled
  | WaitPull, None => on_pull_fulfilled
  | WaitStart, Some r | WaitPull, Some r => on_source_rejected r
  | WaitCancel p, None => settle_promise p Fulfilled
  | WaitCancel p, Some r => settle_promise p (Rejected r)
  end.

Definition ignore {A} (m : RM A) : RM unit := m ;; mret tt.

Definition revent_run (e : revent) : RM unit :=
  match e with
  | EvGetReader => ignore new_ReadableStreamDefaultReader
  | EvCancel r => ignore (stream_cancel r)
  | EvRead r => ignore (reader_read r)
  | EvReaderCancel r e => ignore (reader_cancel r e)
  | EvRelease r => reader_releaseLock r
  | EvController op => controller_op CallPullIfNeeded op
  | EvSettled i failed =>
    l ← gets rs_awaited;
    match l !! i with
    | None => mret tt
    | Some k => modify (fun s => set_rs_awaited (delete i (rs_awaited s)) s) ;; on_settled k failed
    end
  end.

(** The outcomes of a run, and its last state. *)
Fixpoint stream_run (es : list revent) (s : rstream) : list (outcome unit) * rstream :=
  match es with
  | [] => ([], s)
  | e :: es => let '(o, s) := revent_run e s in let '(os, s) := stream_run es s in (o :: os, s)
  end.
End Stream.
