(* ===== verification/ReadableStreamInv.v ===== *)
(** * The invariant of the readable stream

    Every reachable stream keeps its readers, its read requests, its queue
    and its pulls consistent, whatever its consumers, its source and the
    source's [pull] do, and no assertion of the code fails. *)

From S2P Require Import Prelude StreamBase ReadableStream.
Open Scope Z_scope.

(* ------------------------------------------------------------------ *)
(** ** What the parts of a stream keep *)

Definition closed_promise (st : rstate) (err : reason) : settlement :=
  match st with Readable => Pending | Closed => Fulfilled | Errored => Rejected err end.

(** A reader of the stream mirrors its state; a released one is rejected. *)
Record reader_ok (st : rstate) (err : reason) (cur : option nat) (promises : list settlement) (r : nat) (x : reader) : Prop := {
  rk_closed : promises !! rd_closed x = Some (if rd_owner x then closed_promise st err else Rejected released_closed_error);
  rk_resolvers : rd_resolvers x = rd_owner x && bool_decide (st = Readable);
  rk_owner : rd_owner x = true <-> cur = Some r;
  rk_requests : rd_owner x && bool_decide (st = Readable) = false -> rd_requests x = [];
}.

Record readers_ok (st : rstate) (err : reason) (cur : option nat) (readers : list reader) (promises : list settlement) : Prop := {
  ro_cur : forall r, cur = Some r -> is_Some (readers !! r);
  ro_each : forall r x, readers !! r = Some x -> reader_ok st err cur promises r x;
}.

(** The reads: the settled ones, then those still waiting, which are the
    requests of the reader; [hole] is a read and the chunk that [PullSteps]
    has taken from the queue and not settled the read with yet. *)
Record reads_ok (hole : option (nat * Z)) (reqs : list nat) (reads : list read_result) : Prop := {
  rr_hole : is_Some hole -> reqs = [];
  rr_reads : exists settled, ReadPending ∉ settled /\
    reads = settled ++ replicate (if hole then 1 else length reqs) ReadPending /\
    reqs = seq (length settled) (length reqs) /\ (forall v c, hole = Some (v, c) -> v = length settled);
}.

(** The chunks of the settled reads. *)
Definition chunk_of (v : read_result) : option Z := match v with ReadChunk c => Some c | _ => None end.
Definition delivered (reads : list read_result) : list Z := omap chunk_of reads.

Definition is_cancel (c : source_call) : bool := match c with SourceCancel _ => true | _ => false end.

(** Chunks leave in the order they came; none is lost before an error or
    a cancellation. *)
Definition fifo_ok (hole : option (nat * Z)) (st : rstate) (calls : list source_call) (reads : list read_result)
    (queue : list (Z * Z)) (accepted : list Z) : Prop :=
  exists lost, delivered reads ++ option_list (snd <$> hole) ++ queue.*1 ++ lost = accepted /\
    (lost <> [] -> st <> Readable /\ (st = Errored \/ existsb is_cancel calls = true)).

Definition is_start (k : rwait) : bool := match k with WaitStart => true | _ => false end.
Definition is_pull_wait (k : rwait) : bool := match k with WaitPull => true | _ => false end.
Definition is_cancel_wait (k : rwait) : bool := match k with WaitCancel _ => true | _ => false end.
Definition waits (f : rwait -> bool) (l : list rwait) : nat := length (List.filter f l).

Record flags_ok (s : rstream) : Prop := {
  fl_ended : rs_state s <> Readable -> rc_queue s = [];
  fl_requests : requests s <> [] -> rc_queue s = [];
  fl_close : rc_closeRequested s = true -> rs_state s = Readable -> rc_queue s <> [];
  fl_algorithms : rs_state s = Readable -> rc_algorithms s = true;
  fl_total : rc_total s = sizes (rc_queue s) /\ Forall (fun p => 0 <= p.2) (rc_queue s);
  fl_started : rc_started s = false -> rc_pulling s = false;
  fl_start : (waits is_start (rs_awaited s) + (if rc_started s then 1 else 0) <= 1)%nat;
  fl_pull : (waits is_pull_wait (rs_awaited s) <= (if rc_pulling s then 1 else 0))%nat;
  fl_cancel : (waits is_cancel_wait (rs_awaited s) + (if decide (rs_state s = Readable) then 1 else 0) <= 1)%nat;
  fl_pending : forall p, WaitCancel p ∈ rs_awaited s -> rs_promises s !! p = Some Pending;
}.

Record Inv' (hole : option (nat * Z)) (s : rstream) : Prop := {
  i_readers : readers_ok (rs_state s) (rs_storedError s) (rs_reader s) (rs_readers s) (rs_promises s);
  i_reads : reads_ok hole (requests s) (rs_reads s);
  i_fifo : fifo_ok hole (rs_state s) (rs_calls s) (rs_reads s) (rc_queue s) (rs_accepted s);
  i_flags : flags_ok s;
}.

(** [pullAgain] is only set while [pulling] is; [busy] while [pull] runs. *)
Definition Inv (busy : bool) (hole : option (nat * Z)) (s : rstream) : Prop :=
  Inv' hole s /\ (rc_pullAgain s || busy = true -> rc_pulling s = true).

(** The outcome of an operation: no defect, and the invariant again. *)
Definition good {A} (busy : bool) (hole : option (nat * Z)) (r : outcome A * rstream) : Prop :=
  Inv busy hole r.2 /\ match r.1 with Ok _ => True | Throw c msg => is_defect c msg = false end.

Definition keeps {A} (busy : bool) (m : SM rstream A) : Prop := forall hole s, Inv busy hole s -> good busy hole (m s).

(** Between two events no pull runs and no read is half done. *)
Definition keeps_none {A} (m : SM rstream A) : Prop := forall s, Inv false None s -> good false None (m s).

(** An operation that throws nothing at all. *)
Definition quiet (busy : bool) (m : SM rstream unit) : Prop :=
  forall hole s, Inv busy hole s -> exists s', m s = (Ok tt, s') /\ Inv busy hole s'.
Lemma quiet_keeps busy m : quiet busy m -> keeps busy m.
Proof. intros H hole s Hs. destruct (H hole s Hs) as (s' & -> & Hi). by split. Qed.

Lemma good_bind {A B} busy hole (m : SM rstream A) (f : A -> SM rstream B) s :
  good busy hole (m s) -> (forall a s', m s = (Ok a, s') -> Inv busy hole s' -> good busy hole (f a s')) ->
  good busy hole ((m ≫= f) s).
Proof.
  unfold mbind, sm_bind. destruct (m s) as [[a|c e] s'] eqn:E; [|done]. intros [H _] Hf. by apply Hf.
Qed.

Lemma good_ok {A} busy hole (a : A) s : Inv busy hole s -> good busy hole (Ok a, s).
Proof. by split. Qed.

Lemma good_then {A B} busy hole (m : SM rstream A) (b : B) s : good busy hole (m s) -> good busy hole ((m ;; mret b) s).
Proof. intros H. apply good_bind; [done|]. intros ? s' _ H'. by apply good_ok. Qed.

Lemma Inv_idle busy hole s : Inv busy hole s -> Inv false hole s.
Proof. intros [H Hp]. split; [done|]. intros E. apply Hp. by destruct (rc_pullAgain s). Qed.

Lemma waits_delete f l i k : l !! i = Some k -> (waits f (delete i l) + (if f k then 1 else 0))%nat = waits f l.
Proof.
  intros H. rewrite <- (take_drop_middle l i k H) at 2. rewrite delete_take_drop. unfold waits.
  rewrite !List.filter_app, !length_app. cbn. destruct (f k); cbn; lia.
Qed.

Lemma waits_app f l k : waits f (l ++ [k]) = (waits f l + (if f k then 1 else 0))%nat.
Proof. unfold waits. rewrite List.filter_app, length_app. cbn. by destruct (f k). Qed.

Lemma waits_0 f l k : waits f l = 0%nat -> k ∈ l -> f k = false.
Proof.
  intros H Hk. destruct (f k) eqn:E; [|done]. apply list_elem_of_lookup in Hk as [i Hi].
  pose proof (waits_delete f l i k Hi) as Hd. rewrite E in Hd. lia.
Qed.

(* ------------------------------------------------------------------ *)
(** ** The end of the stream *)

(** The fields of the reader when the stream closes or errors. *)
Definition end_readers (s : rstream) : list reader :=
  match rs_reader s with
  | Some r => match rs_readers s !! r with
              | Some x => <[r := Reader (rd_owner x) (rd_closed x) false []]> (rs_readers s)
              | None => rs_readers s
              end
  | None => rs_readers s
  end.
Definition end_promises (v : settlement) (s : rstream) : list settlement :=
  match rs_reader s with
  | Some r => match rs_readers s !! r with
              | Some x => settle (rd_closed x) v (rs_promises s)
              | None => rs_promises s
              end
  | None => rs_promises s
  end.
Definition end_reads (v : read_result) (s : rstream) : list read_result :=
  foldl (fun t i => <[i := v]> t) (rs_reads s) (requests s).

Definition terminate (st : rstate) (err : reason) (v : read_result) (s : rstream) : rstream :=
  set_rs_reads (end_reads v s) (set_rs_readers (end_readers s) (set_rs_promises (end_promises (closed_promise st err) s)
    (set_rs_storedError err (set_rs_state st s)))).

Ltac rproj f := repeat match goal with |- context [f ?s] => let v := eval cbn in (f s) in progress change (f s) with v end.
Ltac rprojs := rproj rs_state; rproj rs_storedError; rproj rs_reader; rproj rs_disturbed; rproj rc_queue; rproj rc_total;
  rproj rc_started; rproj rc_closeRequested; rproj rc_pullAgain; rproj rc_pulling; rproj rc_algorithms; rproj rs_readers;
  rproj rs_promises; rproj rs_reads; rproj rs_accepted; rproj rs_calls; rproj rs_awaited.
Ltac rfacts := repeat match goal with
  | H : ?f ?s = ?v |- context [?f ?s] => is_var s; lazymatch type of s with rstream => rewrite H end
  end.
Ltac rflags := unfold rstate_is, IsReadableStreamLocked, ReadableStreamDefaultControllerCanCloseOrEnqueue; rprojs; rfacts.
Ltac rstep := repeat (cbv beta iota; first
  [ rewrite bind_assoc | rewrite gets_bind | rewrite modify_bind | rewrite ret_bind
  | rewrite assert_bind by (rflags; done)
  | progress (cbn [id negb andb orb])
  | progress (unfold ignore, for_reader, settle_promise, set_reader, ResetQueue, settle_read,
      ReadableStreamDefaultControllerClearAlgorithms)
  | progress rprojs | progress rfacts ]).

Lemma the_reader_bind {B} r x (f : reader -> SM rstream B) s : rs_readers s !! r = Some x -> (the_reader r ≫= f) s = f x s.
Proof. intros H. unfold mbind, sm_bind, the_reader. by rewrite H. Qed.

Lemma requests_of s r x : rs_reader s = Some r -> rs_readers s !! r = Some x -> requests s = rd_requests x.
Proof. intros H1 H2. unfold requests. by rewrite H1, H2. Qed.

(** The reader the stream is locked to. *)
Lemma current_reader st err cur readers promises r : readers_ok st err cur readers promises -> cur = Some r ->
  exists x, readers !! r = Some x /\ reader_ok st err cur promises r x /\ rd_owner x = true.
Proof.
  intros H Hr. destruct (ro_cur _ _ _ _ _ H r Hr) as [x Hx]. exists x.
  pose proof (ro_each _ _ _ _ _ H r x Hx) as Hk. split; [done|split; [done|]]. by apply (rk_owner _ _ _ _ _ _ Hk).
Qed.

Lemma settle_pending p v t : t !! p = Some Pending -> settle p v t = <[p := v]> t.
Proof. unfold settle. by intros ->. Qed.

Lemma insert_seq {A} (v : A) k : forall (l l' : list A), length l = k ->
  foldl (fun t i => <[i := v]> t) (l' ++ l) (seq (length l') k) = l' ++ replicate k v.
Proof.
  induction k as [|k IH]; intros l l' Hl; destruct l as [|a l]; try done.
  cbn [seq foldl replicate]. rewrite insert_app_r_alt by lia. replace (length l' - length l')%nat with 0%nat by lia.
  change (<[0%nat := v]> (a :: l)) with (v :: l). injection Hl as Hl.
  specialize (IH l (l' ++ [v]) Hl). rewrite length_app in IH. cbn [length] in IH.
  replace (length l' + 1)%nat with (S (length l')) in IH by lia. by rewrite <- !app_assoc in IH.
Qed.

Section End.
Variables (s : rstream) (st : rstate) (err : reason).
Hypothesis (Hs : rs_state s = Readable) (Hst : st <> Readable).
Hypothesis Hr : readers_ok Readable (rs_storedError s) (rs_reader s) (rs_readers s) (rs_promises s).

Lemma end_readers_ok : readers_ok st err (rs_reader s) (end_readers s) (end_promises (closed_promise st err) s).
Proof.
  unfold end_readers, end_promises. destruct (rs_reader s) as [r|] eqn:Er.
  - destruct (current_reader _ _ _ _ _ r Hr eq_refl) as (x & Hx & [Hc Hv Ho Hq] & Hox). rewrite Hx. rewrite Hox in Hc.
    rewrite (settle_pending _ _ _ Hc). split.
    + intros r' [= <-]. rewrite list_lookup_insert_eq by by eapply lookup_lt_Some. by eexists.
    + intros r' y Hy. destruct (decide (r' = r)) as [->|Hne].
      * rewrite list_lookup_insert_eq in Hy by by eapply lookup_lt_Some. injection Hy as <-.
        split; cbn; rewrite ?Hox; [|by rewrite bool_decide_false|by rewrite Hox in Ho|done].
        apply list_lookup_insert_eq. by eapply lookup_lt_Some.
      * rewrite list_lookup_insert_ne in Hy by done.
        destruct (ro_each _ _ _ _ _ Hr r' y Hy) as [Hc' Hv' Ho' Hq'].
        destruct (rd_owner y) eqn:Ey; [exfalso; apply Hne; apply proj1 in Ho'; by injection (Ho' eq_refl)|].
        split; rewrite ?Ey; try done. rewrite list_lookup_insert_ne; [done|]. intros E. rewrite <- E, Hc in Hc'. done.
  - split; [done|]. intros r y Hy. destruct (ro_each _ _ _ _ _ Hr r y Hy) as [Hc' Hv' Ho' Hq'].
    destruct (rd_owner y) eqn:Ey; [apply proj1 in Ho'; by specialize (Ho' eq_refl)|].
    by split; rewrite ?Ey.
Qed.

Lemma end_requests v : requests (terminate st err v s) = [].
Proof.
  unfold requests, terminate. rprojs. unfold end_readers. destruct (rs_reader s) as [r|] eqn:Er; [|done].
  destruct (current_reader _ _ _ _ _ r Hr eq_refl) as (x & Hx & _). rewrite Hx.
  by rewrite list_lookup_insert_eq by by eapply lookup_lt_Some.
Qed.

Lemma end_reads_ok hole v : v <> ReadPending -> chunk_of v = None -> reads_ok hole (requests s) (rs_reads s) ->
  reads_ok hole [] (end_reads v s) /\ delivered (end_reads v s) = delivered (rs_reads s).
Proof.
  intros Hv Hc [Hh (settled & Hp & Hl & Hq & Hv')]. unfold end_reads. destruct hole as [c|].
  - rewrite Hh by by eexists. cbn [foldl]. split; [|done]. split; [done|]. by exists settled.
  - rewrite Hl. set (k := length (requests s)) in *. rewrite Hq, insert_seq by apply length_replicate. split.
    + split; [done|]. exists (settled ++ replicate k v). split; [|split; [by rewrite app_nil_r|done]].
      rewrite elem_of_app, elem_of_replicate. intros [H|[H _]]; congruence.
    + unfold delivered. rewrite !omap_app. f_equal. clear Hl Hq. induction k as [|k IH]; [done|]. cbn. by rewrite Hc.
Qed.
End End.

(** The flags that stay when the queue is dropped and the stream ends. *)
Lemma terminate_inv busy hole s alg cr st err v : Inv busy hole s -> rs_state s = Readable -> st <> Readable ->
  v <> ReadPending -> chunk_of v = None ->
  (rc_queue s <> [] -> st = Errored \/ existsb is_cancel (rs_calls s) = true) ->
  Inv busy hole (terminate st err v (set_rc_algorithms alg (set_rc_closeRequested cr (set_rc_total 0 (set_rc_queue [] s))))).
Proof.
  intros [[Hr Hd Hf Hg] Hp] Hs Hst Hv Hc Hlost. rewrite Hs in Hr.
  set (s' := set_rc_algorithms _ _). assert (Hr' : readers_ok Readable (rs_storedError s') (rs_reader s') (rs_readers s') (rs_promises s')) by done.
  destruct (end_reads_ok s' hole v Hv Hc Hd) as [Hd' Hdel]. split; [|done]. split.
  - by apply (end_readers_ok s' st err).
  - by rewrite end_requests.
  - destruct Hf as (lost & Ha & Hl). exists ((rc_queue s).*1 ++ lost). unfold terminate. rprojs. rewrite Hdel.
    split; [by rewrite <- Ha|]. intros H. split; [done|]. destruct (rc_queue s) as [|p q]; [by destruct (Hl H)|by apply Hlost].
  - destruct Hg as [? ? ? ? ? Hps Hst' Hpl Hca Hpe]. rewrite decide_True in Hca by done.
    split; try (unfold terminate; rprojs; done).
    + unfold terminate; rprojs. rewrite decide_False by done. lia.
    + unfold terminate; rprojs. intros p Hin. assert (H0 : waits is_cancel_wait (rs_awaited s) = 0%nat) by lia.
      by pose proof (waits_0 _ _ _ H0 Hin).
Qed.

(** ** [ReadableStreamClose] and [ReadableStreamError] *)

Lemma close_eq s : rs_state s = Readable ->
  readers_ok Readable (rs_storedError s) (rs_reader s) (rs_readers s) (rs_promises s) ->
  ReadableStreamClose s = (Ok tt, terminate Closed (rs_storedError s) ReadDone s).
Proof.
  intros Hs Hr. unfold ReadableStreamClose, terminate, end_readers, end_promises, end_reads, requests. rstep.
  destruct (rs_reader s) as [r|] eqn:Er; [|by destruct s; cbn in *; subst].
  destruct (current_reader _ _ _ _ _ r Hr eq_refl) as (x & Hx & [Hc Hv Ho Hq] & Hox). rewrite Hx. unfold defaultReaderClosedPromiseResolve.
  rstep. rewrite (the_reader_bind r x) by (by rprojs). rewrite Hox, bool_decide_true in Hv by done. rewrite Hv. rstep.
  unfold settle_requests. rewrite (the_reader_bind r (with_closed (rd_closed x) false x)) by (rprojs; apply list_lookup_insert_eq; by eapply lookup_lt_Some).
  rstep. unfold modify. rprojs. rewrite list_insert_insert_eq. reflexivity.
Qed.

Lemma error_eq s e : rs_state s = Readable ->
  readers_ok Readable (rs_storedError s) (rs_reader s) (rs_readers s) (rs_promises s) ->
  ReadableStreamError e s = (Ok tt, terminate Errored e (ReadError e) s).
Proof.
  intros Hs Hr. unfold ReadableStreamError, terminate, end_readers, end_promises, end_reads, requests. rstep.
  destruct (rs_reader s) as [r|] eqn:Er; [|by destruct s; cbn in *; subst].
  destruct (current_reader _ _ _ _ _ r Hr eq_refl) as (x & Hx & [Hc Hv Ho Hq] & Hox). rewrite Hx. unfold defaultReaderClosedPromiseReject.
  rstep. rewrite (the_reader_bind r x) by (by rprojs). rewrite Hox, bool_decide_true in Hv by done. rewrite Hv. rstep.
  unfold ReadableStreamDefaultReaderErrorReadRequests, settle_requests.
  rewrite (the_reader_bind r (with_closed (rd_closed x) false x)) by (rprojs; apply list_lookup_insert_eq; by eapply lookup_lt_Some).
  rstep. unfold modify. rprojs. rewrite list_insert_insert_eq. reflexivity.
Qed.

(* ------------------------------------------------------------------ *)
(** ** The operations of the controller *)

Section Controller.
Variables (hwm : jsnum) (strategySize : Z -> outcome jsnum) (pullOps : nat -> list ctl_op).
(** The size function is not the code's: it fails no assertion of it. *)
Hypothesis Hsize : forall chunk c msg, strategySize chunk = Throw c msg -> is_defect c msg = false.

Lemma ctl_error_good busy e : keeps busy (ReadableStreamDefaultControllerError e).
Proof.
  intros hole s H. unfold ReadableStreamDefaultControllerError. rstep.
  destruct (decide (rs_state s = Readable)) as [Hs|Hs].
  - unfold rstate_is. rewrite bool_decide_true by done. rstep.
    pose proof H as [[Hr _ _ _] _]. rewrite Hs in Hr. rewrite error_eq by done.
    apply good_ok. apply (terminate_inv busy hole s false (rc_closeRequested s)); try done. by left.
  - unfold rstate_is. by rewrite bool_decide_false.
Qed.

Lemma ctl_error_eq e s : rs_state s <> Readable -> ReadableStreamDefaultControllerError e s = (Ok tt, s).
Proof. intros H. unfold ReadableStreamDefaultControllerError. rstep. unfold rstate_is. by rewrite bool_decide_false. Qed.

Lemma can_close_inv s : ReadableStreamDefaultControllerCanCloseOrEnqueue s = true <->
  rc_closeRequested s = false /\ rs_state s = Readable.
Proof.
  unfold ReadableStreamDefaultControllerCanCloseOrEnqueue, rstate_is. rewrite andb_true_iff, bool_decide_eq_true, negb_true_iff. done.
Qed.

(** [closeRequested] alone, when chunks are left. *)
Lemma request_close_inv busy hole s : Inv busy hole s -> rc_queue s <> [] -> Inv busy hole (set_rc_closeRequested true s).
Proof. intros [[Hr Hd Hf [?????????]] Hp] Hq. split; [|done]. by split. Qed.

(** Dropping an empty queue. *)
Lemma drop_empty s : flags_ok s -> rc_queue s = [] -> set_rc_total 0 (set_rc_queue [] s) = s.
Proof. intros Hg Hq. destruct (fl_total s Hg) as [Ht _]. rewrite Hq in Ht. destruct s; cbn in *. by subst. Qed.

Lemma ctl_close_good busy : keeps busy ReadableStreamDefaultControllerClose.
Proof.
  intros hole s H. unfold ReadableStreamDefaultControllerClose. rstep.
  destruct (ReadableStreamDefaultControllerCanCloseOrEnqueue s) eqn:E; [|by apply good_ok]. apply can_close_inv in E as [Hc Hs].
  rstep. case_bool_decide as Hq.
  - rstep. pose proof H as [[Hr _ _ Hg] _]. rewrite Hs in Hr. rewrite close_eq by done. apply good_ok.
    pose proof (terminate_inv busy hole s false true Closed (rs_storedError s) ReadDone H Hs) as Hi.
    rewrite drop_empty in Hi by done. by apply Hi.
  - apply good_ok. by apply request_close_inv.
Qed.

(** ** [enqueue] *)

Lemma requests_update st err cur readers promises r x l : readers_ok st err cur readers promises -> readers !! r = Some x ->
  (rd_owner x && bool_decide (st = Readable) = false -> l = []) ->
  readers_ok st err cur (<[r := with_requests l x]> readers) promises.
Proof.
  intros [Hc He] Hx Hl. pose proof (lookup_lt_Some _ _ _ Hx) as Hlt. split.
  - intros r' Hr'. destruct (Hc r' Hr') as [y Hy]. apply lookup_lt_is_Some. rewrite length_insert. by apply lookup_lt_Some in Hy.
  - intros r' y Hy. destruct (decide (r' = r)) as [->|Hne].
    + rewrite list_lookup_insert_eq in Hy by done. injection Hy as <-. destruct (He r x Hx). by split.
    + rewrite list_lookup_insert_ne in Hy by done. by apply He.
Qed.

Lemma requests_readable busy hole s : Inv busy hole s -> requests s <> [] ->
  exists r x, rs_state s = Readable /\ rs_reader s = Some r /\ rs_readers s !! r = Some x /\ requests s = rd_requests x /\ rd_owner x = true.
Proof.
  intros [[Hr _ _ _] _] Hq. unfold requests in *. destruct (rs_reader s) as [r|] eqn:Er; [|done].
  destruct (rs_readers s !! r) as [x|] eqn:Ex; [|done]. destruct (ro_each _ _ _ _ _ Hr r x Ex) as [_ _ Ho Hn].
  exists r, x. assert (Hx : rd_owner x = true) by by apply Ho.
  destruct (decide (rs_state s = Readable)); [done|]. rewrite Hx, bool_decide_false in Hn by done. by rewrite Hn in Hq.
Qed.

Lemma fulfill_good busy hole s c : Inv busy hole s -> requests s <> [] ->
  exists s', ReadableStreamFulfillReadRequest c false s = (Ok tt, s') /\ rs_state s' = rs_state s /\
    Inv busy hole (set_rs_accepted (rs_accepted s' ++ [c]) s').
Proof.
  intros H Hq. destruct (requests_readable busy hole s H Hq) as (r & x & Hs & Er & Ex & Hx & Ho).
  destruct H as [[Hr [Hh (settled & Hp & Hl & Hseq & _)] Hf Hg] Hpl].
  destruct hole as [?|]; [exfalso; apply Hq; apply Hh; by eexists|].
  unfold ReadableStreamFulfillReadRequest. rstep. rewrite assert_bind by (apply bool_decide_eq_true; by rewrite <- Hx).
  rstep. rewrite (the_reader_bind r x) by done.
  destruct (requests s) as [|i rest] eqn:Eq; [done|]. rewrite <- Hx. rstep. eexists. split; [done|]. split; [done|].
  cbn [length seq] in Hseq. injection Hseq as Hi Hrest. cbn [length replicate] in Hl.
  assert (Hnew : forall s', rs_reader s' = Some r -> rs_readers s' = <[r := with_requests rest x]> (rs_readers s) -> requests s' = rest).
  { intros s' E1 E2. rewrite (requests_of s' r (with_requests rest x)); [done|done|]. rewrite E2.
    apply list_lookup_insert_eq. by eapply lookup_lt_Some. }
  split; [split|done].
  - rprojs. rewrite Hs in *. apply requests_update; [done|done|]. rewrite Ho, bool_decide_true by done. done.
  - rewrite Hnew by done. split; [done|]. exists (settled ++ [ReadChunk c]). split; [|split].
    + rewrite elem_of_app, list_elem_of_singleton. by intros [|].
    + rprojs. rewrite Hl, Hi, insert_app_r_alt, Nat.sub_diag by lia. cbn. by rewrite <- app_assoc.
    + by rewrite length_app, Nat.add_comm.
  - destruct Hf as (lost & Ha & Hlo). destruct lost as [|? ?]; [|by destruct Hlo as [? _]]. exists []. rprojs.
    assert (Hqu : rc_queue s = []) by (apply (fl_requests s Hg); by rewrite Eq). rewrite Hqu in Ha. rewrite Hqu. split; [|done].
    rewrite <- Ha, Hl. unfold delivered. rewrite Hi, insert_app_r_alt, Nat.sub_diag by lia. rewrite !omap_app. cbn.
    assert (Hz : forall k, omap chunk_of (replicate k ReadPending) = []) by (clear; induction k; done).
    by rewrite Hz, !app_nil_r.
  - destruct Hg as [? ? ? ? ? ? ? ? ? ?]. split; try done. intros _. rprojs. apply fl_requests0. by rewrite Eq.
Qed.

Lemma push_inv busy hole s c z : Inv busy hole s -> rs_state s = Readable -> requests s = [] -> 0 <= z ->
  Inv busy hole (set_rs_accepted (rs_accepted s ++ [c]) (set_rc_total (rc_total s + z) (set_rc_queue (rc_queue s ++ [(c, z)]) s))).
Proof.
  intros [[Hr Hd (lost & Ha & Hlo) [? ? ? ? [Ht Hn] ? ? ? ? ?]] Hp] Hs Hq Hz. split; [|done]. split; try done.
  - destruct lost as [|? ?]; [|by destruct Hlo as [? _]]. exists []. rprojs. split; [|done].
    rewrite <- Ha, fmap_app, !app_nil_r. by rewrite <- !app_assoc.
  - split; try done.
    + rprojs. intros _ _. by destruct (rc_queue s).
    + rprojs. rewrite sizes_snoc, Ht. split; [done|]. apply Forall_app. split; [done|]. by apply Forall_singleton.
Qed.

Lemma failed_eq busy hole s c msg : Inv busy hole s ->
  exists s', (ReadableStreamDefaultControllerError (ErrorObj c msg) ;; @throw rstream unit c msg) s = (Throw c msg, s') /\ Inv busy hole s'.
Proof.
  intros H. destruct (ctl_error_good busy (ErrorObj c msg) hole s H) as [Hi Hd].
  unfold mbind, sm_bind. destruct (ReadableStreamDefaultControllerError _ s) as [[[]|c' m'] s'] eqn:E; [by exists s'|exfalso].
  revert E. unfold ReadableStreamDefaultControllerError. rstep. destruct (decide (rs_state s = Readable)) as [Hs|Hs].
  - unfold rstate_is. rewrite bool_decide_true by done. rstep. pose proof H as [[Hr _ _ _] _]. rewrite Hs in Hr. by rewrite error_eq.
  - unfold rstate_is. by rewrite bool_decide_false.
Qed.

(** The chunk is accepted, or the stream has failed. *)
Definition accepts (busy : bool) (hole : option (nat * Z)) (c : Z) (r : outcome unit * rstream) : Prop :=
  match r with
  | (Ok _, s') => Inv busy hole (set_rs_accepted (rs_accepted s' ++ [c]) s')
  | (Throw cl msg, s') => Inv busy hole s' /\ is_defect cl msg = false
  end.

Lemma enqueue_sized_good busy hole s c : Inv busy hole s -> rs_state s = Readable -> requests s = [] ->
  accepts busy hole c (enqueue_sized strategySize c s).
Proof.
  intros H Hs Hq. unfold enqueue_sized. rewrite (fl_algorithms s) by (done || apply H). cbn [negb].
  assert (Hf : forall cl msg, is_defect cl msg = false ->
    accepts busy hole c ((ReadableStreamDefaultControllerError (ErrorObj cl msg) ;; @throw rstream unit cl msg) s)).
  { intros cl msg Hcl. by destruct (failed_eq busy hole s cl msg H) as (s' & -> & Hs'). }
  destruct (strategySize c) as [size|c' msg] eqn:E; [|by apply Hf, (Hsize c)].
  unfold EnqueueValueWithSize. destruct size as [z| | |]; try by apply Hf.
  destruct (Z.leb_spec 0 z); [|by apply Hf]. unfold modify, accepts. by apply (push_inv busy hole s c z).
Qed.

Lemma enqueue_good busy again c : keeps busy again -> keeps busy (ReadableStreamDefaultControllerEnqueue strategySize again c).
Proof.
  intros Hag hole s H. unfold ReadableStreamDefaultControllerEnqueue. rstep.
  destruct (ReadableStreamDefaultControllerCanCloseOrEnqueue s) eqn:E; [|by apply good_ok].
  apply can_close_inv in E as [Hc Hs]. cbn [negb].
  assert (Ha : accepts busy hole c ((if IsReadableStreamLocked s && (0 <? ReadableStreamGetNumReadRequests s)%nat
    then ReadableStreamFulfillReadRequest c false else enqueue_sized strategySize c) s)).
  { unfold ReadableStreamGetNumReadRequests. destruct (decide (requests s = [])) as [Hq|Hq].
    - rewrite Hq, andb_false_r. by apply enqueue_sized_good.
    - destruct (fulfill_good busy hole s c H Hq) as (s' & E & _ & Hi).
      assert (Hlk : IsReadableStreamLocked s && (0 <? length (requests s))%nat = true).
      { destruct (requests_readable _ _ _ H Hq) as (r & x & _ & Hr & _). unfold IsReadableStreamLocked. rewrite Hr.
        by destruct (requests s). }
      by rewrite Hlk, E. }
  unfold mbind at 1, sm_bind at 1. destruct (_ s) as [[[]|cl msg] s'] in Ha |- *; [by apply Hag|done].
Qed.

Lemma controller_op_good busy again op : keeps busy again -> keeps busy (controller_op strategySize again op).
Proof.
  intros Hag hole s H. unfold controller_op. rstep. destruct op as [c| |e].
  - destruct (ReadableStreamDefaultControllerCanCloseOrEnqueue s); cbn [negb]; [by apply enqueue_good|by split].
  - destruct (ReadableStreamDefaultControllerCanCloseOrEnqueue s); cbn [negb]; [by apply ctl_close_good|by split].
  - by apply ctl_error_good.
Qed.

Lemma run_ops_quiet busy again ops : keeps busy again -> quiet busy (run_ops strategySize again ops).
Proof.
  intros Hag. induction ops as [|op ops IH]; intros hole s H; [by exists s|]. cbn [run_ops]. unfold mbind, sm_bind, survive.
  destruct (controller_op_good busy again op Hag hole s H) as [Hi Hd]. destruct (controller_op _ _ _ s) as [[[]|c m] s']; [by apply IH|].
  cbn in Hd. rewrite Hd. by apply IH.
Qed.

(* ------------------------------------------------------------------ *)
(** ** [CallPullIfNeeded] *)

Abbreviation CallPull := (ReadableStreamDefaultControllerCallPullIfNeeded hwm strategySize pullOps).

Lemma should_pull s : exists b, ReadableStreamDefaultControllerShouldCallPull hwm s = (Ok b, s) /\
  (b = true -> rs_state s = Readable /\ rc_closeRequested s = false /\ rc_started s = true).
Proof.
  unfold ReadableStreamDefaultControllerShouldCallPull. rstep.
  destruct (ReadableStreamDefaultControllerCanCloseOrEnqueue s) eqn:E; [|by exists false]. apply can_close_inv in E as [Hc Hs].
  destruct (rc_started s) eqn:Et; [|by exists false]. cbn [negb].
  destruct (IsReadableStreamLocked s && _); [by exists true|].
  unfold ReadableStreamDefaultControllerGetDesiredSize. rewrite Hs. by eexists.
Qed.

Lemma pull_again_inv busy hole s : Inv busy hole s -> rc_pulling s = true -> Inv busy hole (set_rc_pullAgain true s).
Proof. intros [[Hr Hd Hf [? ? ? ? ? ? ? ? ? ?]] Hp] Hq. split; [|done]. by split. Qed.

Lemma pull_nested depth : keeps true (CallPull depth).
Proof.
  intros hole s H. destruct (should_pull s) as (b & E & _). pose proof H as [_ Hp]. rewrite orb_true_r in Hp. specialize (Hp eq_refl).
  destruct depth; cbn [ReadableStreamDefaultControllerCallPullIfNeeded]; rewrite (bind_ok _ _ _ _ _ E); destruct b; cbn [negb];
    try (by apply good_ok); rstep; apply good_ok; by apply pull_again_inv.
Qed.

(** The state in which [pull] starts to run. *)
Definition pull_called (s : rstream) : rstream :=
  set_rs_awaited (rs_awaited s ++ [WaitPull]) (set_rs_calls (rs_calls s ++ [SourcePull]) (set_rc_pulling true s)).

Lemma pull_called_inv busy hole s : Inv busy hole s -> rc_pulling s = false -> rc_started s = true -> rs_state s = Readable ->
  Inv true hole (pull_called s).
Proof.
  intros [[Hr Hd (lost & Ha & Hlo) [? ? ? ? ? ? Hst Hpl Hca Hpe]] Hp] Hq Ht Hs. rewrite Hq in Hpl. split; [|done]. split; try done.
  - exists lost. split; [done|]. intros Hl. by destruct (Hlo Hl).
  - split; try done; unfold pull_called; rprojs; rewrite ?waits_app; cbn; try lia; try congruence.
    + intros p [Hin|Hin%list_elem_of_singleton]%elem_of_app; [by apply Hpe|done].
Qed.

Abbreviation call_pull := (CallPullIfNeeded hwm strategySize pullOps).

Lemma call_pull_quiet busy : quiet busy call_pull.
Proof.
  intros hole s H. unfold CallPullIfNeeded. cbn [ReadableStreamDefaultControllerCallPullIfNeeded].
  destruct (should_pull s) as (b & E & Hb). rewrite (bind_ok _ _ _ _ _ E). destruct b; cbn [negb]; [|by exists s].
  destruct (Hb eq_refl) as (Hs & Hc & Ht). rstep.
  destruct (rc_pulling s) eqn:Ep; [eexists; split; [done|]; by apply pull_again_inv|].
  assert (Hag : rc_pullAgain s = false) by (destruct H as [_ Hp]; destruct (rc_pullAgain s); [by rewrite Hp in Ep|done]).
  assert (Hbusy : busy = false) by (destruct H as [_ Hp]; destruct busy; [rewrite Hp in Ep; [done|by rewrite orb_true_r]|done]).
  rstep. unfold call_source. rstep. rewrite (fl_algorithms s) by (done || apply H). rstep. subst busy.
  destruct (run_ops_quiet true (CallPull 0) (pullOps (pulls s)) (pull_nested 0) hole (pull_called s)) as (s' & E' & Hi).
  { by eapply pull_called_inv. }
  exists s'. split; [done|]. by eapply Inv_idle.
Qed.

(* ------------------------------------------------------------------ *)
(** ** Reading *)

Lemma settled_reads settled v : ReadPending ∉ settled -> v <> ReadPending -> ReadPending ∉ settled ++ [v].
Proof. rewrite elem_of_app, list_elem_of_singleton. intros H1 H2 [H|H]; congruence. Qed.

Lemma delivered_app l v : delivered (l ++ [v]) = delivered l ++ option_list (chunk_of v).
Proof. unfold delivered. by rewrite omap_app. Qed.

(** A read that is settled as it is made. *)
Lemma settled_read_inv busy s v : Inv busy None s -> requests s = [] -> v <> ReadPending -> chunk_of v = None ->
  Inv busy None (set_rs_reads (rs_reads s ++ [v]) s).
Proof.
  intros [[Hr [Hh (settled & Hp & Hl & Hq & _)] (lost & Ha & Hlo) Hg] Hpl] Hn Hv Hc. rewrite Hn in Hl. cbn in Hl. rewrite app_nil_r in Hl.
  split; [|done]. split; [done| | |by destruct Hg].
  - split; [done|]. change (requests (set_rs_reads _ _)) with (requests s). rewrite Hn. exists (rs_reads s ++ [v]). rprojs.
    rewrite Hl. split; [by apply settled_reads|]. by rewrite app_nil_r.
  - exists lost. rprojs. by rewrite delivered_app, Hc, app_nil_r.
Qed.

(** The read that takes a chunk from the queue, before it is settled. *)
Definition dequeued (q : list (Z * Z)) (t : Z) (s : rstream) : rstream :=
  set_rc_total t (set_rc_queue q (set_rs_reads (rs_reads s ++ [ReadPending]) s)).

Lemma dequeued_inv s c z q : Inv false None s -> rs_state s = Readable -> rc_queue s = (c, z) :: q ->
  Inv false (Some (length (rs_reads s), c)) (set_rc_closeRequested (rc_closeRequested s && bool_decide (q <> [])) (dequeued q (sizes q) s)).
Proof.
  intros [[Hr [Hh (settled & Hp & Hl & Hq & _)] (lost & Ha & Hlo) [Hen Hre ? ? [Ht Hz] ? ? ? ? ?]] Hpl] Hs Hqu.
  assert (Hn : requests s = []) by (destruct (decide (requests s = [])) as [|Hne]; [done|apply Hre in Hne; congruence]).
  rewrite Hn in Hl. cbn in Hl. rewrite app_nil_r in Hl. split; [|done]. split; [done| | |].
  - split; [by rewrite <- Hn|]. change (requests (set_rc_closeRequested _ _)) with (requests s). rewrite Hn. exists settled. unfold dequeued. rprojs.
    rewrite Hl. repeat split; try done. by intros ? ? [= <- <-].
  - destruct lost as [|? ?]; [|by destruct Hlo as [? _]]. exists []. unfold dequeued. rprojs. split; [|done].
    rewrite <- Ha, Hqu, delivered_app. cbn. by rewrite app_nil_r.
  - split; try done; unfold dequeued; rprojs; try congruence.
    + intros [_ Hb]%andb_true_iff _. by apply bool_decide_eq_true in Hb.
    + split; [done|]. rewrite Hqu in Hz. by inversion Hz.
Qed.

(** The read is settled with its chunk. *)
Lemma settle_read_good busy s c v : Inv busy (Some (v, c)) s -> good busy None (settle_read (ReadChunk c) v s).
Proof.
  intros [[Hr [Hh (settled & Hp & Hl & Hq & Hv)] (lost & Ha & Hlo) Hg] Hpl]. specialize (Hv v c eq_refl). subst v. cbn in Hl.
  assert (Hn : requests s = []) by (apply Hh; by eexists).
  assert (E : <[length settled := ReadChunk c]> (rs_reads s) = settled ++ [ReadChunk c]) by
    (rewrite Hl, insert_app_r_alt, Nat.sub_diag by lia; done).
  apply good_ok. split; [|done]. split; [done| | |by destruct Hg].
  - split; [done|]. change (requests (set_rs_reads _ _)) with (requests s). rewrite Hn. exists (settled ++ [ReadChunk c]). rprojs. rewrite E.
    split; [by apply settled_reads|]. by rewrite app_nil_r.
  - exists lost. rprojs. rewrite E, delivered_app. rewrite Hl, delivered_app in Ha. cbn in Ha. rewrite app_nil_r in Ha.
    split; [|done]. rewrite <- Ha. cbn. by rewrite <- app_assoc.
Qed.

Lemma new_promise_inv busy hole s v : Inv busy hole s -> Inv busy hole (set_rs_promises (rs_promises s ++ [v]) s).
Proof.
  intros [[[Hc He] Hd Hf [? ? ? ? ? ? ? ? ? Hpe]] Hp]. split; [|done]. split; [|done|done|].
  - split; [done|]. intros r x Hx. destruct (He r x Hx) as [Hcl ? ? ?]. split; try done. rprojs. by apply lookup_app_l_Some.
  - split; try done. intros p Hin. rprojs. by apply lookup_app_l_Some, Hpe.
Qed.

Lemma promise_good busy hole v s : Inv busy hole s -> good busy hole (new_promise v s).
Proof. intros H. apply good_ok. by apply new_promise_inv. Qed.

Lemma idle_requests busy hole s : Inv busy hole s -> rs_state s <> Readable \/ rc_queue s <> [] -> requests s = [].
Proof.
  intros H Hn. destruct (decide (requests s = [])) as [|Hne]; [done|exfalso]. destruct Hn as [Hn|Hn].
  - by destruct (requests_readable _ _ _ H Hne) as (? & ? & ? & _).
  - apply Hn. apply (fl_requests s); [apply H|done].
Qed.

Lemma insert_last {A} (l : list A) a b : <[length l := b]> (l ++ [a]) = l ++ [b].
Proof. by rewrite insert_app_r_alt, Nat.sub_diag by lia. Qed.

(** The read waits: [ReadableStreamAddReadRequest]. *)
Lemma add_request_good s r x : Inv false None s -> rs_state s = Readable -> rc_queue s = [] -> rs_reader s = Some r ->
  rs_readers s !! r = Some x -> rd_owner x = true ->
  good false None (ReadableStreamAddReadRequest (length (rs_reads s)) (set_rs_reads (rs_reads s ++ [ReadPending]) s)).
Proof.
  intros H Hs Hq Er Ex Ho. unfold ReadableStreamAddReadRequest. rstep. rewrite (the_reader_bind r x) by done.
  destruct H as [[Hr [Hh (settled & Hp & Hl & Hseq & _)] (lost & Ha & Hlo) Hg] Hpl].
  rewrite (requests_of s r x Er Ex) in *. rewrite Hs, Er in Hr. apply good_ok. split; [|done].
  set (s' := set_rs_readers _ _). assert (Hn : requests s' = rd_requests x ++ [length (rs_reads s)]).
  { rewrite (requests_of s' r (with_requests (rd_requests x ++ [length (rs_reads s)]) x)); [done|done|].
    apply list_lookup_insert_eq. by eapply lookup_lt_Some. }
  split.
  - unfold s'. rprojs. rewrite Hs, Er. apply requests_update; [done|done|]. by rewrite Ho, bool_decide_true.
  - rewrite Hn. unfold s'. rprojs. split; [by intros [? ?]|]. exists settled. split; [done|]. rewrite Hl, !length_app, length_replicate. cbn.
    rewrite Nat.add_1_r. split; [|split; [|done]].
    + by rewrite <- app_assoc, (replicate_S_end _ ReadPending).
    + rewrite seq_S. by rewrite <- Hseq.
  - exists lost. unfold s'. rprojs. rewrite delivered_app. cbn. by rewrite app_nil_r.
  - destruct Hg. split; try done.
Qed.

(** A read of a queued chunk comes down to the settlement of its promise. *)
Lemma pull_steps_queued s c z q : Inv false None s -> rs_state s = Readable -> rc_queue s = (c, z) :: q ->
  exists s2, PullSteps hwm strategySize pullOps (length (rs_reads s)) (set_rs_reads (rs_reads s ++ [ReadPending]) s) =
      settle_read (ReadChunk c) (length (rs_reads s)) s2 /\
    Inv false (Some (length (rs_reads s), c)) s2.
Proof.
  intros H Hs Eq. unfold PullSteps. rstep. rewrite bool_decide_true by done. unfold DequeueValue. rstep.
  pose proof (dequeued_inv s c z q H Hs Eq) as Hi. destruct H as [[Hr _ _ Hg] _]. destruct (fl_total s Hg) as [Ht Hz].
  rewrite Eq in Ht, Hz. change (sizes ((c, z) :: q)) with (z + sizes q) in Ht. inversion Hz as [|? ? _ Hz']; subst.
  pose proof (sizes_nonneg q Hz'). replace (rc_total s - z) with (sizes q) by lia.
  destruct (Z.ltb_spec (sizes q) 0); [lia|].
  destruct (rc_closeRequested s && bool_decide (q = [])) eqn:Ec; rstep.
  - apply andb_true_iff in Ec as [Ec Hn%bool_decide_eq_true]. subst q. rewrite Hs in Hr.
    rewrite (bind_ok _ _ _ _ _ (close_eq (set_rc_algorithms false (dequeued [] 0 s)) Hs Hr)).
    eexists. split; [done|]. rewrite Ec in Hi. cbn [andb] in Hi. rewrite bool_decide_false in Hi by auto.
    by apply (terminate_inv _ _ _ false (rc_closeRequested s) Closed (rs_storedError s) ReadDone Hi Hs).
  - replace (rc_closeRequested s && bool_decide (q <> [])) with (rc_closeRequested s) in Hi.
    + destruct (call_pull_quiet false _ _ Hi) as (s' & E & Hs'). exists s'. by rewrite (bind_ok _ _ _ _ _ E).
    + destruct (rc_closeRequested s); [|done]. destruct q; [done|]. by rewrite (bool_decide_true (_ <> [])) by done.
Qed.

(** A read of an empty queue waits, and asks for a pull. *)
Lemma pull_steps_empty s r x : Inv false None s -> rs_state s = Readable -> rc_queue s = [] -> rs_reader s = Some r ->
  rs_readers s !! r = Some x -> rd_owner x = true ->
  exists s1, PullSteps hwm strategySize pullOps (length (rs_reads s)) (set_rs_reads (rs_reads s ++ [ReadPending]) s) = call_pull s1 /\
    Inv false None s1 /\ requests s1 <> [] /\ rs_state s1 = Readable /\ rc_started s1 = rc_started s /\
    rc_closeRequested s1 = rc_closeRequested s /\ rs_reader s1 = Some r.
Proof.
  intros H Hs Eq Er Ex Ho. unfold PullSteps. rstep. rewrite bool_decide_false by auto.
  pose proof (add_request_good s r x H Hs Eq Er Ex Ho) as [Hi Hd]. revert Hi Hd.
  unfold ReadableStreamAddReadRequest. rstep. rewrite !(the_reader_bind r x) by done. intros Hi _. eexists. split; [done|].
  split; [exact Hi|]. split; [|done]. erewrite requests_of; [|done|rprojs; apply list_lookup_insert_eq; by eapply lookup_lt_Some].
  cbn. by destruct (rd_requests x).
Qed.

Lemma pull_steps_good s r x : Inv false None s -> rs_state s = Readable -> rs_reader s = Some r ->
  rs_readers s !! r = Some x -> rd_owner x = true ->
  good false None (PullSteps hwm strategySize pullOps (length (rs_reads s)) (set_rs_reads (rs_reads s ++ [ReadPending]) s)).
Proof.
  intros H Hs Er Ex Ho. destruct (rc_queue s) as [|[c z] q] eqn:Eq.
  - destruct (pull_steps_empty s r x) as (s1 & -> & Hi & _); try done. by apply (quiet_keeps _ _ (call_pull_quiet false)).
  - destruct (pull_steps_queued s c z q) as (s2 & -> & Hi); try done. by apply settle_read_good.
Qed.

Lemma disturbed_inv busy hole s : Inv busy hole s -> Inv busy hole (set_rs_disturbed true s).
Proof. intros [[? ? ? []] Hp]. split; [|done]. by split. Qed.

Lemma reader_read_good r : keeps_none (reader_read hwm strategySize pullOps r).
Proof.
  intros s H. unfold reader_read. destruct (rs_readers s !! r) as [x|] eqn:Ex.
  2: { unfold mbind, sm_bind, the_reader. rewrite Ex. by split. }
  rewrite (the_reader_bind r x) by done. destruct (rd_owner x) eqn:Ho; cbn [negb].
  2: { apply good_bind; [by apply promise_good|]. intros p s' _ H'. by apply good_ok. }
  assert (Er : rs_reader s = Some r) by (destruct H as [[Hr _ _ _] _]; by apply (ro_each _ _ _ _ _ Hr r x Ex)).
  unfold new_read, mbind at 1, sm_bind at 1. cbv beta iota. apply good_then. unfold ReadableStreamDefaultReaderRead. rstep.
  pose proof (disturbed_inv _ _ _ H) as Hd.
  destruct (rs_state s) eqn:Es; [by apply (pull_steps_good (set_rs_disturbed true s) r x)| |];
    unfold settle_read, modify; rprojs; rewrite insert_last; apply good_ok;
    (apply (settled_read_inv false (set_rs_disturbed true s)); try done; eapply idle_requests; [done|left; rprojs; congruence]).
Qed.

(* ------------------------------------------------------------------ *)
(** ** Cancelling *)

Lemma calls_inv busy hole s c : Inv busy hole s -> Inv busy hole (set_rs_calls (rs_calls s ++ [c]) s).
Proof.
  intros [[? ? (lost & Ha & Hlo) []] Hp]. split; [|done]. split; [done|done| |by split]. exists lost. split; [done|].
  intros Hl. destruct (Hlo Hl) as [? H]. split; [done|]. rprojs. rewrite existsb_app, orb_true_iff. destruct H; auto.
Qed.

Lemma await_cancel_inv busy hole s : Inv busy hole s -> rs_state s <> Readable -> waits is_cancel_wait (rs_awaited s) = 0%nat ->
  Inv busy hole (set_rs_awaited (rs_awaited s ++ [WaitCancel (length (rs_promises s))]) (set_rs_promises (rs_promises s ++ [Pending]) s)).
Proof.
  intros H Hs Hw. destruct (new_promise_inv _ _ _ Pending H) as [[? ? ? [? ? ? ? ? ? ? ? ? Hpe]] Hp]. split; [|done]. split; try done.
  split; try done; rprojs; rewrite ?waits_app, ?Hw; rewrite ?decide_False by done; cbn; rewrite ?Nat.add_0_r; try done; try lia.
  - intros p [Hin|Hin%list_elem_of_singleton]%elem_of_app; [by apply Hpe|]. injection Hin as ->. by apply list_lookup_middle.
Qed.

Lemma stream_cancel_good e : keeps_none (ReadableStreamCancel e).
Proof.
  intros s H. unfold ReadableStreamCancel. rstep. pose proof (disturbed_inv _ _ _ H) as Hd.
  destruct (rs_state s) eqn:Es; [|by apply promise_good|by apply promise_good].
  pose proof H as [[Hr _ _ Hg] _]. rewrite Es in Hr. rewrite (bind_ok _ _ _ _ _ (close_eq (set_rs_disturbed true s) Es Hr)).
  unfold CancelSteps. rstep. unfold new_promise, call_source. unfold mbind at 1, sm_bind at 1. rstep.
  rewrite (fl_algorithms s Hg Es). rstep. apply good_ok.
  pose proof (terminate_inv false None _ false (rc_closeRequested s) Closed (rs_storedError s) ReadDone (calls_inv _ _ _ (SourceCancel e) Hd) Es) as Ht.
  assert (Hi : Inv false None _) by (apply Ht; try done; intros _; right; rprojs; rewrite existsb_app; by rewrite orb_true_r).
  apply (await_cancel_inv _ _ _ Hi); [done|]. pose proof (fl_cancel s Hg) as Hc. rewrite decide_True in Hc by done.
  unfold terminate. rprojs. lia.
Qed.

(* ------------------------------------------------------------------ *)
(** ** Locking and releasing *)

(** A reader that takes the stream, its promise made for the state. *)
Lemma add_reader_inv s : Inv false None s -> rs_reader s = None ->
  Inv false None (set_rs_promises (rs_promises s ++ [closed_promise (rs_state s) (rs_storedError s)])
    (set_rs_readers (rs_readers s ++ [Reader true (length (rs_promises s)) (bool_decide (rs_state s = Readable)) []])
      (set_rs_reader (Some (length (rs_readers s))) s))).
Proof.
  intros [[[Hc He] Hd Hf Hg] Hp] Hn. split; [|done].
  assert (Hq : requests s = []) by (unfold requests; by rewrite Hn).
  set (s' := set_rs_promises _ _).
  assert (Hq' : requests s' = []) by (unfold requests, s'; rprojs; cbv iota; rprojs; by rewrite list_lookup_middle).
  split; [|by rewrite Hq', <- Hq|done|].
  - unfold s'. rprojs. split.
    + intros r [= <-]. rewrite list_lookup_middle; by eexists.
    + intros r x [Hx|[Hlen Hx]]%lookup_app_Some.
      * destruct (He r x Hx) as [Hcl Hv Ho Hrq]. split; try done; [by apply lookup_app_l_Some|].
        rewrite Ho, Hn. split; [done|]. intros [= E]. apply lookup_lt_Some in Hx. lia.
      * apply list_lookup_singleton_Some in Hx as [Hx <-]. assert (r = length (rs_readers s)) as -> by lia.
        split; cbn; try done. by apply list_lookup_middle.
  - destruct Hg as [? ? ? ? ? ? ? ? ? Hpe]. split; try done.
    unfold s'. rprojs. intros p Hin. by apply lookup_app_l_Some, Hpe.
Qed.

(** [defaultReaderClosedPromiseInitialize] on the newest reader. *)
Lemma init_reader_eq l x s : rs_readers s = l ++ [x] ->
  defaultReaderClosedPromiseInitialize (length l) s =
    (Ok tt, set_rs_readers (l ++ [with_closed (length (rs_promises s)) true x]) (set_rs_promises (rs_promises s ++ [Pending]) s)).
Proof.
  intros E. unfold defaultReaderClosedPromiseInitialize, new_promise. unfold mbind at 1, sm_bind at 1. cbv beta iota.
  rewrite (the_reader_bind _ x) by (rprojs; rewrite E; by apply list_lookup_middle).
  unfold set_reader, modify. rprojs. by rewrite E, insert_last.
Qed.

(** Its promise settled at once. *)
Lemma end_last l x p v s : rs_readers s = l ++ [x] -> rs_promises s = p ++ [Pending] -> rd_closed x = length p ->
  (settle_promise (rd_closed x) v ;; set_reader (length l) (with_closed (rd_closed x) false x)) s =
  (Ok tt, set_rs_readers (l ++ [with_closed (length p) false x]) (set_rs_promises (p ++ [v]) s)).
Proof.
  intros E1 E2 E3. unfold settle_promise, set_reader, settle. rewrite modify_bind. unfold modify. rprojs.
  by rewrite E1, E2, E3, list_lookup_middle, !insert_last by done.
Qed.

Lemma new_reader_good : keeps_none new_ReadableStreamDefaultReader.
Proof.
  intros s H. unfold new_ReadableStreamDefaultReader. rstep. unfold IsReadableStreamLocked.
  destruct (rs_reader s) as [r|] eqn:Er; [by split|]. rstep. apply good_then. unfold ReadableStreamReaderGenericInitialize. rstep.
  pose proof (add_reader_inv s H Er) as Hi.
  destruct (rs_state s) eqn:Es; unfold defaultReaderClosedPromiseInitializeAsRejected.
  - by rewrite (init_reader_eq _ blank_reader) by done.
  - erewrite bind_ok by by apply (init_reader_eq (rs_readers s) blank_reader). unfold defaultReaderClosedPromiseResolve.
    rewrite (the_reader_bind _ (with_closed (length (rs_promises s)) true blank_reader)) by (rprojs; by apply list_lookup_middle).
    cbn [negb rd_resolvers with_closed].
    rewrite (end_last _ (with_closed (length (rs_promises s)) true blank_reader) (rs_promises s)) by (rprojs; done). by apply good_ok.
  - erewrite bind_ok by by apply (init_reader_eq (rs_readers s) blank_reader). unfold defaultReaderClosedPromiseReject.
    rewrite (the_reader_bind _ (with_closed (length (rs_promises s)) true blank_reader)) by (rprojs; by apply list_lookup_middle).
    cbn [negb rd_resolvers with_closed].
    rewrite (end_last _ (with_closed (length (rs_promises s)) true blank_reader) (rs_promises s)) by (rprojs; done). by apply good_ok.
Qed.

Definition released_read : read_result := ReadError (type_error "Reader was released").

(** A reader let go: its promise rejected, its reads failed. *)
Lemma release_inv s r x p' promises' : Inv false None s -> rs_reader s = Some r -> rs_readers s !! r = Some x ->
  promises' !! p' = Some (Rejected released_closed_error) ->
  (forall p, rs_promises s !! p = Some (Rejected released_closed_error) -> promises' !! p = Some (Rejected released_closed_error)) ->
  (forall p, WaitCancel p ∈ rs_awaited s -> promises' !! p = Some Pending) ->
  Inv false None (set_rs_reads (end_reads released_read s) (set_rs_readers (<[r := Reader false p' false []]> (rs_readers s))
    (set_rs_reader None (set_rs_promises promises' s)))).
Proof.
  intros [[[Hc He] Hd (lost & Ha & Hlo) Hg] Hp] Er Ex H1 H2 H3. split; [|done].
  destruct (end_reads_ok s None released_read ltac:(done) eq_refl Hd) as [Hd' Hdel].
  pose proof (lookup_lt_Some _ _ _ Ex) as Hlt. split; [|done| |].
  - rprojs. split; [done|]. intros q y Hy. destruct (decide (q = r)) as [->|Hne].
    + rewrite list_lookup_insert_eq in Hy by done. injection Hy as <-. by split.
    + rewrite list_lookup_insert_ne in Hy by done. destruct (He q y Hy) as [Hcl Hv Ho Hrq].
      assert (Hno : rd_owner y = false).
      { destruct (rd_owner y); [|done]. rewrite Er in Ho. apply proj1 in Ho. specialize (Ho eq_refl). congruence. }
      rewrite Hno in *. split; rewrite ?Hno; try done. by apply H2.
  - exists lost. rprojs. by rewrite Hdel.
  - destruct Hg. by split.
Qed.

Lemma end_reads_of s r x v : rs_reader s = Some r -> rs_readers s !! r = Some x ->
  end_reads v s = foldl (fun t i => <[i := v]> t) (rs_reads s) (rd_requests x).
Proof. intros H1 H2. unfold end_reads. by rewrite (requests_of s r x H1 H2). Qed.

Lemma rejected_persists st err cur readers promises p q v :
  readers_ok st err cur readers promises -> promises !! p = Some Pending ->
  promises !! q = Some (Rejected v) -> settle p (Rejected v) promises !! q = Some (Rejected v).
Proof.
  intros _ Hp Hq. rewrite (settle_pending _ _ _ Hp). destruct (decide (q = p)) as [->|]; [congruence|]. by rewrite list_lookup_insert_ne.
Qed.

(** What is left of the release when the reader's promise is rejected. *)
Definition release_rest (r : nat) : SM rstream unit :=
  x ← the_reader r;
  set_reader r (Reader false (rd_closed x) (rd_resolvers x) (rd_requests x)) ;;
  ReadableStreamDefaultReaderErrorReadRequests r (type_error "Reader was released").

Lemma release_rest_eq r y l s : rs_readers s = <[r := y]> l -> (r < length l)%nat ->
  release_rest r s = (Ok tt, set_rs_reads (foldl (fun t i => <[i := released_read]> t) (rs_reads s) (rd_requests y))
    (set_rs_readers (<[r := Reader false (rd_closed y) (rd_resolvers y) []]> l) s)).
Proof.
  intros E Hlt. unfold release_rest. rewrite (the_reader_bind r y) by (rprojs; rewrite ?E; by apply list_lookup_insert_eq).
  rstep. unfold ReadableStreamDefaultReaderErrorReadRequests, settle_requests.
  rewrite (the_reader_bind r (Reader false (rd_closed y) (rd_resolvers y) (rd_requests y)))
    by (rprojs; rewrite ?E; apply list_lookup_insert_eq; by rewrite length_insert).
  rstep. unfold modify. rprojs. by rewrite ?E, !list_insert_insert_eq.
Qed.

Lemma init_rejected_eq r x e s : rs_readers s !! r = Some x ->
  defaultReaderClosedPromiseInitializeAsRejected r e s =
    (Ok tt, set_rs_readers (<[r := with_closed (length (rs_promises s)) false x]> (rs_readers s)) (set_rs_promises (rs_promises s ++ [Rejected e]) s)).
Proof.
  intros Ex. unfold defaultReaderClosedPromiseInitializeAsRejected, defaultReaderClosedPromiseInitialize, defaultReaderClosedPromiseReject, new_promise.
  rewrite bind_assoc. unfold mbind at 1, sm_bind at 1. cbv beta iota. rewrite bind_assoc, (the_reader_bind r x) by done. rstep.
  rewrite (the_reader_bind r (with_closed (length (rs_promises s)) true x)) by (rprojs; apply list_lookup_insert_eq; by eapply lookup_lt_Some).
  cbn [rd_resolvers with_closed negb rd_closed]. rstep. unfold modify, settle. rprojs. by rewrite list_lookup_middle, insert_last, list_insert_insert_eq.
Qed.

Lemma release_good r : keeps_none (reader_releaseLock r).
Proof.
  intros s H. unfold reader_releaseLock. destruct (rs_readers s !! r) as [x|] eqn:Ex.
  2: { unfold mbind, sm_bind, the_reader. rewrite Ex. by split. }
  rewrite (the_reader_bind r x) by done. destruct (rd_owner x) eqn:Ho; cbn [negb]; [|by apply good_ok].
  pose proof (lookup_lt_Some _ _ _ Ex) as Hlt. pose proof H as [[Hr _ _ Hg] _].
  destruct (ro_each _ _ _ _ _ Hr r x Ex) as [Hcl Hv Hcur _]. assert (Er : rs_reader s = Some r) by by apply Hcur. clear Hcur.
  rewrite Ho in Hcl, Hv. pose proof (release_inv s r x) as Hi. rewrite (end_reads_of s r x _ Er Ex) in Hi.
  unfold ReadableStreamReaderGenericRelease. rstep. rewrite assert_bind by by apply bool_decide_true.
  destruct (decide (rs_state s = Readable)) as [Hs|Hs].
  - unfold rstate_is. rewrite bool_decide_true by done. rewrite bind_assoc. unfold defaultReaderClosedPromiseReject.
    rewrite bool_decide_true in Hv by done. rewrite Hs in Hcl.
    rewrite bind_assoc, (the_reader_bind r x) by done. rewrite Hv. rstep.
    match goal with |- good _ _ (_ ?t) => change (good false None (release_rest r t)) end.
    rewrite (release_rest_eq r (with_closed (rd_closed x) false x) (rs_readers s)) by done. apply good_ok, Hi; try done.
    + unfold settle. rewrite Hcl. apply list_lookup_insert_eq. by eapply lookup_lt_Some.
    + intros q. by eapply rejected_persists.
    + intros p Hin. pose proof (fl_cancel s Hg) as Hc. rewrite decide_True in Hc by done.
      assert (H0 : waits is_cancel_wait (rs_awaited s) = 0%nat) by lia. by pose proof (waits_0 _ _ _ H0 Hin).
  - unfold rstate_is. rewrite bool_decide_false by done. rewrite bool_decide_false in Hv by done.
    rewrite !bind_assoc, (the_reader_bind r x) by done. rewrite bind_assoc, assert_bind by by rewrite Hv.
    erewrite bind_ok by by apply (init_rejected_eq r x). rstep.
    match goal with |- good _ _ (_ ?t) => change (good false None (release_rest r t)) end.
    rewrite (release_rest_eq r (with_closed (length (rs_promises s)) false x) (rs_readers s)) by done. apply good_ok, Hi; try done.
    + by apply list_lookup_middle.
    + intros p Hp. by apply lookup_app_l_Some.
    + intros p Hin. apply lookup_app_l_Some. by apply (fl_pending s Hg).
Qed.

(* ------------------------------------------------------------------ *)
(** ** The promises of the source *)

Lemma waits_le f l i k : l !! i = Some k -> (waits f (delete i l) <= waits f l)%nat.
Proof. intros H. pose proof (waits_delete f l i k H). lia. Qed.

Lemma delete_inv s i k : Inv false None s -> rs_awaited s !! i = Some k ->
  Inv false None (set_rs_awaited (delete i (rs_awaited s)) s).
Proof.
  intros [[? ? ? [? ? ? ? ? ? Hst Hpl Hca Hpe]] Hp] Hi. split; [|done]. split; try done.
  split; try done; rprojs; try (pose proof (waits_le is_start _ _ _ Hi); pose proof (waits_le is_pull_wait _ _ _ Hi);
    pose proof (waits_le is_cancel_wait _ _ _ Hi); lia).
  intros p Hin. apply Hpe. apply list_elem_of_lookup in Hin as [j Hj]. rewrite list_lookup_delete in Hj.
  by eapply list_elem_of_lookup_2.
Qed.

Definition awaits_none (f : rwait -> bool) (s : rstream) : Prop := waits f (rs_awaited s) = 0%nat.

Lemma start_good s : Inv false None s -> rc_started s = false -> awaits_none is_start s ->
  good false None (on_start_fulfilled hwm strategySize pullOps s).
Proof.
  intros [[Hr Hd Hf [? ? ? ? ? Hps Hst Hpl Hca Hpe]] Hp] Hs Hw. unfold on_start_fulfilled. rstep.
  assert (Hpu : rc_pulling s = false) by by apply Hps.
  assert (Hag : rc_pullAgain s = false) by (destruct (rc_pullAgain s); [by rewrite Hp in Hpu|done]).
  rewrite assert_bind by by rewrite Hpu. rewrite assert_bind by by rewrite Hag. apply (quiet_keeps _ _ (call_pull_quiet false)).
  split; [|done]. split; try done. split; try done. rprojs. by rewrite Hw.
Qed.

Lemma pull_good s : Inv false None s -> rc_started s = true -> awaits_none is_pull_wait s ->
  good false None (on_pull_fulfilled hwm strategySize pullOps s).
Proof.
  intros [[Hr Hd Hf [? ? ? ? ? Hps Hst Hpl Hca Hpe]] Hp] Hs Hw. unfold on_pull_fulfilled. rstep.
  destruct (rc_pullAgain s) eqn:E.
  - rstep. apply (quiet_keeps _ _ (call_pull_quiet false)). split; [|done]. split; try done. split; try done. rprojs. by rewrite Hw.
  - apply good_ok. split; [|by rprojs; rewrite E]. split; try done. split; try done. rprojs. by rewrite Hw.
Qed.

Lemma cancel_settled_good s p v : Inv false None s -> rs_state s <> Readable -> awaits_none is_cancel_wait s ->
  rs_promises s !! p = Some Pending -> good false None (settle_promise p v s).
Proof.
  intros [[[Hc He] Hd Hf [? ? ? ? ? Hps Hst Hpl Hca Hpe]] Hp] Hs Hw Hpp. unfold settle_promise, modify. apply good_ok.
  split; [|done]. split; try done.
  - rprojs. split; [done|]. intros r x Hx. destruct (He r x Hx) as [Hcl ? ? ?]. split; try done.
    rewrite (settle_pending _ _ _ Hpp), list_lookup_insert_ne; [done|]. intros ->. rewrite Hpp in Hcl.
    destruct (rd_owner x); [|done]. by destruct (rs_state s).
  - split; try done. rprojs. intros q Hin. by pose proof (waits_0 _ _ _ Hw Hin).
Qed.

Lemma on_settled_good s i k failed : Inv false None s -> rs_awaited s !! i = Some k ->
  good false None (on_settled hwm strategySize pullOps k failed (set_rs_awaited (delete i (rs_awaited s)) s)).
Proof.
  intros H Hi. pose proof (delete_inv s i k H Hi) as Hd. pose proof H as [[_ _ _ [? ? ? ? ? Hps Hst Hpl Hca Hpe]] _].
  assert (Hn : forall f, f k = true -> (waits f (delete i (rs_awaited s)) + 1)%nat = waits f (rs_awaited s)).
  { intros f Hk. pose proof (waits_delete f _ _ _ Hi) as E. by rewrite Hk in E. }
  destruct k as [| |p].
  - specialize (Hn is_start eq_refl). destruct failed; [by apply ctl_error_good|].
    apply start_good; [done| |]; unfold awaits_none; rprojs; [|lia]. destruct (rc_started s); [lia|done].
  - specialize (Hn is_pull_wait eq_refl). destruct failed; [by apply ctl_error_good|].
    apply pull_good; [done| |]; unfold awaits_none; rprojs; [|destruct (rc_pulling s); lia].
    destruct (rc_started s); [done|]. rewrite Hps in Hpl by done. lia.
  - specialize (Hn is_cancel_wait eq_refl). assert (Hp : rs_promises s !! p = Some Pending) by by apply Hpe, (list_elem_of_lookup_2 _ i).
    assert (Hs : rs_state s <> Readable) by (intros E; rewrite decide_True in Hca by done; lia).
    destruct failed; (apply cancel_settled_good; try done; unfold awaits_none; rprojs; destruct (decide _); lia).
Qed.

(* ------------------------------------------------------------------ *)
(** ** Events *)

Lemma event_good e : keeps_none (revent_run hwm strategySize pullOps e).
Proof.
  intros s H. destruct e as [|e|r|r e|r|op|i failed]; cbn [revent_run].
  - by apply good_then, new_reader_good.
  - apply good_then. unfold stream_cancel. rstep. destruct (IsReadableStreamLocked s); [by apply promise_good|by apply stream_cancel_good].
  - by apply good_then, reader_read_good.
  - apply good_then. unfold reader_cancel. destruct (rs_readers s !! r) as [x|] eqn:Ex.
    2: { unfold mbind, sm_bind, the_reader. rewrite Ex. by split. }
    rewrite (the_reader_bind r x) by done. destruct (rd_owner x); [by apply stream_cancel_good|by apply promise_good].
  - by apply release_good.
  - apply controller_op_good; [|done]. by apply quiet_keeps, call_pull_quiet.
  - rstep. destruct (rs_awaited s !! i) as [k|] eqn:Ek; [|by apply good_ok]. rstep. by apply on_settled_good.
Qed.

Lemma new_stream_inv : Inv false None new_stream.
Proof.
  change new_stream with (RStream Readable Undefined None false [] 0 false false false false true [] [] [] [] [SourceStart] [WaitStart]).
  split; [|done]. split; rprojs.
  - by split.
  - split; [done|]. exists []. repeat split; [by intros ?%elem_of_nil|done].
  - by exists [].
  - split; try done. rprojs. intros p Hin. by apply list_elem_of_singleton in Hin.
Qed.

Lemma run_good es : forall s, Inv false None s ->
  let '(os, s') := stream_run hwm strategySize pullOps es s in
  Inv false None s' /\ Forall (fun o => match o with Ok _ => True | Throw c msg => is_defect c msg = false end) os.
Proof.
  induction es as [|e es IH]; intros s H; cbn [stream_run]; [by split|].
  destruct (event_good e s H) as [Hi Hd]. destruct (revent_run _ _ _ e s) as [o s1]. specialize (IH s1 Hi).
  destruct (stream_run _ _ _ es s1) as [os s2]. destruct IH as [H2 Hos]. split; [done|]. by constructor.
Qed.
End Controller.
