(* ===== verification/ReadableStreamProps.v ===== *)
(** * The properties of the readable stream

    What every stream of [ReadableStream] guarantees after any sequence of
    events, from the invariant of [ReadableStreamInv], and what a read does
    on each of its branches. *)

From S2P Require Import Prelude StreamBase ReadableStream ReadableStreamInv.
Open Scope Z_scope.

Section Properties.
Variables (hwm : jsnum) (strategySize : Z -> outcome jsnum) (pullOps : nat -> list ctl_op).
(** The size function is not the code's: it fails no assertion of it. *)
Hypothesis Hsize : forall chunk c msg, strategySize chunk = Throw c msg -> is_defect c msg = false.

Abbreviation run es := (stream_run hwm strategySize pullOps es new_stream).
Abbreviation call_pull := (CallPullIfNeeded hwm strategySize pullOps).

Lemma reached es : Inv false None (run es).2.
Proof.
  pose proof (run_good hwm strategySize pullOps Hsize es new_stream new_stream_inv) as H. by destruct (run es) as [os s], H.
Qed.

(** C9: Whatever the consumers of a readable stream, its source and the
    source's [pull] do, in any order, no assertion of the code fails and
    no algorithm is called after it has been cleared. *)
Theorem readable_stream_safe es : Forall (fun o => match o with Ok _ => True | Throw c msg => is_defect c msg = false end) (run es).1.
Proof.
  pose proof (run_good hwm strategySize pullOps Hsize es new_stream new_stream_inv) as H. by destruct (run es) as [os s], H.
Qed.

(** C10: The chunks a readable stream delivers, then those still queued,
    are the chunks its controller accepted, in that order, and nothing is
    lost before an error or a cancellation.  Reads are answered in the
    order they were made, and once the stream is closed or errored every
    read has been answered. *)
Theorem readable_stream_fifo es : let s := (run es).2 in
  (exists lost, delivered (rs_reads s) ++ (rc_queue s).*1 ++ lost = rs_accepted s /\
    (lost <> [] -> rs_state s = Errored \/ exists r, SourceCancel r ∈ rs_calls s)) /\
  (exists settled waiting, rs_reads s = settled ++ replicate waiting ReadPending /\ ReadPending ∉ settled) /\
  (rs_state s <> Readable -> ReadPending ∉ rs_reads s).
Proof.
  cbv zeta. pose proof (reached es) as H. pose proof H as [[_ [_ (settled & Hp & Hl & Hq & _)] (lost & Ha & Hlo) _] _].
  split; [|split; [by exists settled, (length (requests (run es).2))|]].
  - exists lost. split; [done|]. intros Hn. destruct (Hlo Hn) as [_ [Hc|Hc]]; [by left|right].
    apply existsb_exists in Hc as ([| |r] & Hin & Hc); try done. exists r. by apply list_elem_of_In.
  - intros Hs. rewrite Hl, (idle_requests _ _ _ H) by by left. cbn. by rewrite app_nil_r.
Qed.

(** The [closed] promise of the reader the stream is locked to is
    pending, fulfilled or rejected with the stored error as the stream is
    readable, closed or errored; that of a released reader is rejected. *)
Theorem readable_closed_promise es r x : rs_readers (run es).2 !! r = Some x ->
  rs_promises (run es).2 !! rd_closed x =
    Some (if bool_decide (rs_reader (run es).2 = Some r) then closed_promise (rs_state (run es).2) (rs_storedError (run es).2)
          else Rejected released_closed_error).
Proof.
  intros Hx. destruct (reached es) as [[Hr _ _ _] _]. destruct (ro_each _ _ _ _ _ Hr r x Hx) as [Hc _ Ho _].
  rewrite Hc. f_equal. case_bool_decide as E; destruct (rd_owner x); try done; exfalso; naive_solver.
Qed.

(** The source is pulled one call at a time: at most one promise of
    [pull] is outstanding, only while the controller says so and only once
    the source has started. *)
Theorem readable_one_pull es : let s := (run es).2 in
  (waits is_pull_wait (rs_awaited s) <= (if rc_pulling s && rc_started s then 1 else 0))%nat.
Proof.
  cbv zeta. pose proof (reached es) as [[_ _ _ Hg] _]. pose proof (fl_pull _ Hg) as Hp. pose proof (fl_started _ Hg) as Hs.
  destruct (rc_started _); [by rewrite andb_true_r|]. rewrite Hs in * by done. done.
Qed.

(* ------------------------------------------------------------------ *)
(** ** What a read does *)

Lemma call_pull_pulling busy hole s : Inv busy hole s -> ReadableStreamDefaultControllerShouldCallPull hwm s = (Ok true, s) ->
  rc_pulling (call_pull s).2 = true.
Proof.
  intros H E. unfold CallPullIfNeeded. cbn [ReadableStreamDefaultControllerCallPullIfNeeded]. rewrite (bind_ok _ _ _ _ _ E). cbn [negb].
  destruct (should_pull hwm s) as (b & E' & Hb). rewrite E in E'. injection E' as <-. destruct (Hb eq_refl) as (Hs & _ & Ht). rstep.
  destruct (rc_pulling s) eqn:Ep; [done|].
  assert (Hag : rc_pullAgain s = false) by (destruct H as [_ Hp]; destruct (rc_pullAgain s); [by rewrite Hp in Ep|done]).
  rstep. unfold call_source. rstep. rewrite (fl_algorithms s) by (done || apply H). rstep.
  destruct (run_ops_quiet strategySize Hsize true (ReadableStreamDefaultControllerCallPullIfNeeded hwm strategySize pullOps 0) (pullOps (pulls s))
    (pull_nested hwm strategySize pullOps 0) hole (pull_called s)) as (s' & E' & Hi); [by eapply pull_called_inv|].
  change (rc_pulling (run_ops strategySize (ReadableStreamDefaultControllerCallPullIfNeeded hwm strategySize pullOps 0) (pullOps (pulls s)) (pull_called s)).2 = true).
  rewrite E'. destruct Hi as [_ Hp]. apply Hp. apply orb_true_r.
Qed.

Lemma waiting_should_pull busy s : Inv busy None s -> requests s <> [] -> rc_started s = true ->
  ReadableStreamDefaultControllerShouldCallPull hwm s = (Ok true, s).
Proof.
  intros H Hq Ht. destruct (requests_readable _ _ _ H Hq) as (r & x & Hs & Er & _). destruct H as [[_ _ _ Hg] _].
  assert (Hc : rc_closeRequested s = false).
  { destruct (rc_closeRequested s) eqn:E; [|done]. by destruct (fl_close s Hg E Hs (fl_requests s Hg Hq)). }
  unfold ReadableStreamDefaultControllerShouldCallPull, ReadableStreamDefaultControllerCanCloseOrEnqueue, rstate_is. rstep.
  rewrite bool_decide_true by done. cbn [negb]. unfold IsReadableStreamLocked, ReadableStreamGetNumReadRequests. rewrite Er. by destruct (requests s).
Qed.

(** What the read [v] made on stream [s] has come to in [s']. *)
Definition read_outcome (s : rstream) (v : nat) (s' : rstream) : Prop :=
  match rs_state s, rc_queue s with
  | Closed, _ => rs_reads s' !! v = Some ReadDone
  | Errored, _ => rs_reads s' !! v = Some (ReadError (rs_storedError s))
  | Readable, (c, _) :: _ => rs_reads s' !! v = Some (ReadChunk c)
  | Readable, [] => rs_reads s' !! v = Some ReadPending -> rc_started s = true -> rc_pulling s' = true
  end.

Lemma settle_read_lookup busy s2 c v : Inv busy (Some (v, c)) s2 -> rs_reads (settle_read (ReadChunk c) v s2).2 !! v = Some (ReadChunk c).
Proof.
  intros [[_ [_ (settled & _ & Hl & _ & Hv)] _ _] _]. rewrite (Hv v c eq_refl). unfold settle_read, modify. rprojs.
  rewrite Hl. cbn [replicate]. rewrite insert_last. by apply list_lookup_middle.
Qed.

Lemma pull_steps_outcome s r x : Inv false None s -> rs_state s = Readable -> rs_reader s = Some r ->
  rs_readers s !! r = Some x -> rd_owner x = true ->
  exists s', PullSteps hwm strategySize pullOps (length (rs_reads s)) (set_rs_reads (rs_reads s ++ [ReadPending]) s) = (Ok tt, s') /\
    read_outcome s (length (rs_reads s)) s'.
Proof.
  intros H Hs Er Ex Ho. unfold read_outcome. rewrite Hs. destruct (rc_queue s) as [|[c z] q] eqn:Eq.
  - destruct (pull_steps_empty hwm strategySize pullOps s r x) as (s1 & -> & Hi & Hq & _ & Ht & _); try done.
    destruct (call_pull_quiet hwm strategySize pullOps Hsize false _ _ Hi) as (s' & E & _). exists s'. split; [done|]. intros _ Hst.
    rewrite <- Ht in Hst. pose proof (call_pull_pulling _ _ _ Hi (waiting_should_pull _ _ Hi Hq Hst)) as Hp. by rewrite E in Hp.
  - destruct (pull_steps_queued hwm strategySize pullOps Hsize s c z q) as (s2 & -> & Hi); try done. eexists. split; [done|].
    by apply (settle_read_lookup false).
Qed.

(** A read of a released reader is rejected.  Otherwise it takes the
    oldest queued chunk, or ends as the stream has ended; a read that is
    left waiting on a started source has a pull under way. *)
Theorem readable_stream_read es r x : let s := (run es).2 in rs_readers s !! r = Some x ->
  match reader_read hwm strategySize pullOps r s with
  | (Ok (inl p), s') => rs_reader s <> Some r /\ rs_promises s' !! p = Some (Rejected (lock_error "read from")) /\ rs_reads s' = rs_reads s
  | (Ok (inr v), s') => rs_reader s = Some r /\ v = length (rs_reads s) /\ read_outcome s v s'
  | (Throw _ _, _) => False
  end.
Proof.
  cbv zeta. pose proof (reached es) as H. set (s := (run es).2) in *. intros Ex. destruct H as [[Hr Hd Hf Hg] Hp] eqn:EH. clear EH.
  pose proof (rk_owner _ _ _ _ _ _ (ro_each _ _ _ _ _ Hr r x Ex)) as Ho. unfold reader_read. rewrite (the_reader_bind r x) by done.
  destruct (rd_owner x) eqn:Eo; cbn [negb].
  - assert (Er : rs_reader s = Some r) by by apply Ho. pose proof (disturbed_inv _ _ _ H) as Hdi.
    unfold new_read, mbind at 1, sm_bind at 1. cbv beta iota. unfold ReadableStreamDefaultReaderRead. rstep.
    destruct (rs_state s) eqn:Es.
    + destruct (pull_steps_outcome (set_rs_disturbed true s) r x Hdi) as (s' & E & Hout); try done.
      erewrite bind_ok by exact E. unfold mret, sm_ret. by repeat split.
    + unfold settle_read. rstep. unfold mret, sm_ret. rprojs. repeat split; try done. unfold read_outcome. rewrite Es, insert_last. by apply list_lookup_middle.
    + unfold settle_read. rstep. unfold mret, sm_ret. rprojs. repeat split; try done. unfold read_outcome. rewrite Es, insert_last. by apply list_lookup_middle.
  - unfold promiseRejectedWith, new_promise, mbind, sm_bind, mret, sm_ret. rprojs. split; [by intros ?%Ho|]. split; [by apply list_lookup_middle|done].
Qed.
End Properties.

(* ------------------------------------------------------------------ *)
(** ** Instances *)

(** A source whose first [pull] enqueues a chunk and whose second closes. *)
Definition demo_size (c : Z) : outcome jsnum := if c <? 0 then Throw ErrRangeError "negative chunk" else Ok (Fin 1).
Definition demo_pull (n : nat) : list ctl_op := match n with O => [CtlEnqueue 7] | S O => [CtlEnqueue 8; CtlClose; CtlEnqueue 9] | _ => [] end.
Definition demo_events : list revent :=
  [EvSettled 0 None; EvGetReader; EvRead 0; EvSettled 0 None; EvRead 0; EvRead 0; EvRelease 0; EvController (CtlEnqueue 5); EvRead 0].

Lemma demo_size_ok chunk c msg : demo_size chunk = Throw c msg -> is_defect c msg = false.
Proof. unfold demo_size. destruct (chunk <? 0); [|done]. by intros [= <- <-]. Qed.

Example demo_run : let s := (stream_run (Fin 1) demo_size demo_pull demo_events new_stream).2 in
  rs_reads s = [ReadChunk 7; ReadChunk 8; ReadDone] /\ rs_state s = Closed /\ rs_accepted s = [7; 8].
Proof. by vm_compute. Qed.

Lemma readable_stream_safe_witness : exists es, length es = 9%nat /\
  Forall (fun o => match o with Ok _ => True | Throw c msg => is_defect c msg = false end)
    (stream_run (Fin 1) demo_size demo_pull es new_stream).1.
Proof. exists demo_events. split; [reflexivity|]. apply (readable_stream_safe (Fin 1) demo_size demo_pull demo_size_ok). Defined.

Lemma readable_stream_fifo_witness : (exists lost, [7; 8] ++ [] ++ lost = [7; 8]) /\ ReadPending ∉ [ReadChunk 7; ReadChunk 8; ReadDone].
Proof.
  destruct (readable_stream_fifo (Fin 1) demo_size demo_pull demo_size_ok demo_events) as ((lost & H & _) & _ & Hp).
  split; [exists lost; exact H|]. apply Hp. by vm_compute.
Defined.

Lemma readable_closed_promise_witness :
  let s := (stream_run (Fin 1) demo_size demo_pull (take 4 demo_events) new_stream).2 in
  rs_promises s !! 0%nat =
    Some (if bool_decide (rs_reader s = Some 0%nat) then closed_promise (rs_state s) (rs_storedError s) else Rejected released_closed_error).
Proof.
  cbv zeta. apply (readable_closed_promise (Fin 1) demo_size demo_pull demo_size_ok (take 4 demo_events) 0 (Reader true 0 true [])).
  vm_compute. reflexivity.
Defined.

Lemma readable_one_pull_witness : let s := (stream_run (Fin 1) demo_size demo_pull (take 1 demo_events) new_stream).2 in
  (waits is_pull_wait (rs_awaited s) <= (if rc_pulling s && rc_started s then 1 else 0))%nat.
Proof. apply (readable_one_pull (Fin 1) demo_size demo_pull demo_size_ok). Defined.

Lemma readable_stream_read_witness : let s := (stream_run (Fin 1) demo_size demo_pull (take 2 demo_events) new_stream).2 in
  match reader_read (Fin 1) demo_size demo_pull 0 s with
  | (Ok (inl p), s') => rs_reader s <> Some 0%nat /\ rs_promises s' !! p = Some (Rejected (lock_error "read from")) /\ rs_reads s' = rs_reads s
  | (Ok (inr v), s') => rs_reader s = Some 0%nat /\ v = length (rs_reads s) /\ read_outcome s v s'
  | (Throw _ _, _) => False
  end.
Proof.
  cbv zeta. apply (readable_stream_read (Fin 1) demo_size demo_pull demo_size_ok (take 2 demo_events) 0 (Reader true 0 true [])).
  vm_compute. reflexivity.
Defined.
