(* ===== verification/ByteData.v ===== *)
(** * Buffers, the queue and the pull-into descriptors of byte streams

    What [ReadableByteStreamController] of [lib/lws/streams.js] does with
    bytes: buffers that can be detached, views on them, the queue of
    chunks, the descriptors of reads that wait for bytes, and the BYOB
    request.  Buffers are cells of an arena; a transfer detaches one and
    makes another.  Sizes and offsets are natural numbers: no subtraction
    goes below zero in a reachable state ([ByteDataInv]). *)

From S2P Require Import Prelude StreamBase.
Open Scope nat_scope.

(* ------------------------------------------------------------------ *)
(** ** Buffers and views *)

(** The constructor of a view: a typed array by its element size, or
    [DataView]. *)
Inductive ctor := Typed (size : nat) | DataView.
Definition arrayBufferViewElementSize (c : ctor) : nat := match c with Typed n => n | DataView => 1 end.

(** A view, its length in bytes. *)
Record view := View { vw_ctor : ctor; vw_buffer : nat; vw_offset : nat; vw_length : nat }.

(** A buffer: its bytes unless it is detached; [ab_shared] says whether
    the program has got hold of it. *)
Record abuf := ABuf { ab_data : option bytes; ab_shared : bool }.

Inductive reader_type := ForDefault | ForByob | ForNone.

(** [pd_given] is history: the bytes filled in so far. *)
Record desc := Desc {
  pd_buffer : nat; pd_bufferLength : nat; pd_offset : nat; pd_length : nat; pd_filled : nat;
  pd_minimum : nat; pd_elem : nat; pd_ctor : ctor; pd_type : reader_type; pd_given : bytes }.
Record entry := Entry { en_buffer : nat; en_offset : nat; en_length : nat }.

(** A BYOB request: whether it has its controller, and its view. *)
Record request := Request { rq_controller : bool; rq_view : option view }.

#[export] Instance ctor_eq_dec : EqDecision ctor. Proof. solve_decision. Defined.
#[export] Instance view_eq_dec : EqDecision view. Proof. solve_decision. Defined.
#[export] Instance reader_type_eq_dec : EqDecision reader_type. Proof. solve_decision. Defined.
#[export] Instance desc_eq_dec : EqDecision desc. Proof. solve_decision. Defined.
#[export] Instance entry_eq_dec : EqDecision entry. Proof. solve_decision. Defined.

Record bdata := BData {
  bd_buffers : list abuf; bd_queue : list entry; bd_total : nat; bd_pending : list desc;
  bd_request : option nat; bd_requests : list request }.

Definition set_buffers v d := BData v (bd_queue d) (bd_total d) (bd_pending d) (bd_request d) (bd_requests d).
Definition set_queue v d := BData (bd_buffers d) v (bd_total d) (bd_pending d) (bd_request d) (bd_requests d).
Definition set_total v d := BData (bd_buffers d) (bd_queue d) v (bd_pending d) (bd_request d) (bd_requests d).
Definition set_pending v d := BData (bd_buffers d) (bd_queue d) (bd_total d) v (bd_request d) (bd_requests d).
Definition set_request v d := BData (bd_buffers d) (bd_queue d) (bd_total d) (bd_pending d) v (bd_requests d).
Definition set_requests v d := BData (bd_buffers d) (bd_queue d) (bd_total d) (bd_pending d) (bd_request d) v.

Abbreviation BM A := (SM bdata A).

Definition content (d : bdata) (b : nat) : option bytes := x ← bd_buffers d !! b; ab_data x.
Definition shared (d : bdata) (b : nat) : bool := match bd_buffers d !! b with Some x => ab_shared x | None => false end.
Definition IsDetachedBuffer (d : bdata) (b : nat) : bool := match content d b with Some _ => false | None => true end.
Definition CanTransferArrayBuffer (d : bdata) (b : nat) : bool := negb (IsDetachedBuffer d b).

(** The lengths of a view and of a buffer, zero once it is detached. *)
Definition byteLength (d : bdata) (v : view) : nat := if IsDetachedBuffer d (vw_buffer v) then 0 else vw_length v.
Definition bufferByteLength (d : bdata) (b : nat) : nat := match content d b with Some c => length c | None => 0 end.

(** [n] bytes from an offset, and bytes written at an offset. *)
Definition slice (off n : nat) (c : bytes) : bytes := take n (drop off c).
Definition write_at (off : nat) (data c : bytes) : bytes := take off c ++ data ++ drop (off + length data) c.
Definition region (d : bdata) (b off n : nat) : bytes := match content d b with Some c => slice off n c | None => [] end.

Definition detached_message : string := "buffer is detached".

Definition new_buffer (c : bytes) (program : bool) : BM nat := fun d =>
  (Ok (length (bd_buffers d)), set_buffers (bd_buffers d ++ [ABuf (Some c) program]) d).

Definition put_data (b : nat) (c : option bytes) (d : bdata) : bdata := set_buffers (<[b := ABuf c (shared d b)]> (bd_buffers d)) d.
Definition share (b : nat) (d : bdata) : bdata := set_buffers (<[b := ABuf (content d b) true]> (bd_buffers d)) d.

Definition transfer (b : nat) (program : bool) : BM nat :=
  d ← gets id;
  match content d b with
  | None => throw ErrTypeError detached_message
  | Some c => modify (put_data b None) ;; new_buffer c program
  end.
Definition TransferArrayBuffer (b : nat) : BM nat := transfer b false.

Definition ArrayBufferSlice (b off stop : nat) : BM nat :=
  d ← gets id;
  match content d b with
  | None => throw ErrTypeError detached_message
  | Some c => new_buffer (slice off (stop - off) c) false
  end.

(** [new ctor(buffer, offset, length)], the length in bytes. *)
Definition new_view (c : ctor) (b off n : nat) : BM view :=
  d ← gets id;
  match content d b with
  | None => throw ErrTypeError detached_message
  | Some data =>
    if bool_decide (off + n <= length data) && bool_decide (off mod arrayBufferViewElementSize c = 0)
    then mret (View c b off n) else throw ErrRangeError "invalid view"
  end.

Definition CanCopyDataBlockBytes (toBuffer toIndex fromBuffer fromIndex count : nat) (d : bdata) : bool :=
  negb (bool_decide (toBuffer = fromBuffer)) && negb (IsDetachedBuffer d toBuffer) && negb (IsDetachedBuffer d fromBuffer) &&
  bool_decide (toIndex + count <= bufferByteLength d toBuffer) && bool_decide (fromIndex + count <= bufferByteLength d fromBuffer).

Definition CopyDataBlockBytes (dest destOffset src srcOffset n : nat) : BM unit :=
  d ← gets id;
  match content d dest, content d src with
  | Some c, Some c' => modify (put_data dest (Some (write_at destOffset (slice srcOffset n c') c)))
  | _, _ => throw ErrTypeError detached_message
  end.

(* ------------------------------------------------------------------ *)
(** ** The queue, the descriptors and the BYOB request *)

Definition ResetQueue : BM unit := modify (set_queue []) ;; modify (set_total 0).

Definition ReadableByteStreamControllerEnqueueChunkToQueue (b off n : nat) : BM unit :=
  modify (fun d => set_queue (bd_queue d ++ [Entry b off n]) d) ;; modify (fun d => set_total (bd_total d + n) d).

Definition invalid_request : request := Request false None.

Definition ReadableByteStreamControllerInvalidateBYOBRequest : BM unit :=
  r ← gets bd_request;
  match r with
  | None => mret tt
  | Some q => modify (fun d => set_requests (<[q := invalid_request]> (bd_requests d)) d) ;; modify (set_request None)
  end.

Definition ReadableByteStreamControllerClearPendingPullIntos : BM unit :=
  ReadableByteStreamControllerInvalidateBYOBRequest ;; modify (set_pending []).

(** [peek] and [shift] of an empty queue are asserted against. *)
Definition peekPendingPullInto : BM desc :=
  ps ← gets bd_pending;
  match ps with [] => throw ErrAssertionError "Assertion failed" | p :: _ => mret p end.

Definition ReadableByteStreamControllerShiftPendingPullInto : BM desc :=
  d ← gets id;
  assert (bool_decide (bd_request d = None)) ;;
  match bd_pending d with
  | [] => throw ErrAssertionError "Assertion failed"
  | p :: ps => modify (set_pending ps) ;; mret p
  end.

(** A descriptor is an object: what changes it at the head changes the
    head. *)
Definition update_head (p : desc) (d : bdata) : bdata := match bd_pending d with [] => d | _ :: ps => set_pending (p :: ps) d end.

Definition with_buffer (b : nat) (p : desc) : desc :=
  Desc b (pd_bufferLength p) (pd_offset p) (pd_length p) (pd_filled p) (pd_minimum p) (pd_elem p) (pd_ctor p) (pd_type p) (pd_given p).
Definition with_type (t : reader_type) (p : desc) : desc :=
  Desc (pd_buffer p) (pd_bufferLength p) (pd_offset p) (pd_length p) (pd_filled p) (pd_minimum p) (pd_elem p) (pd_ctor p) t (pd_given p).
Definition with_filled (n : nat) (given : bytes) (p : desc) : desc :=
  Desc (pd_buffer p) (pd_bufferLength p) (pd_offset p) (pd_length p) n (pd_minimum p) (pd_elem p) (pd_ctor p) (pd_type p) given.

Definition ReadableByteStreamControllerFillHeadPullIntoDescriptor (size : nat) (p : desc) : BM desc :=
  d ← gets id;
  assert (match bd_pending d with [] => true | q :: _ => bool_decide (q = p) end) ;;
  assert (bool_decide (bd_request d = None)) ;;
  let p' := with_filled (pd_filled p + size) (pd_given p ++ region d (pd_buffer p) (pd_offset p + pd_filled p) size) p in
  modify (update_head p') ;; mret p'.

(** The loop of [ReadableByteStreamControllerFillPullIntoDescriptorFromQueue]. *)
Fixpoint fill_loop (fuel remaining : nat) (p : desc) : BM desc :=
  if bool_decide (remaining = 0) then mret p else
  match fuel with
  | O => throw ErrAssertionError "out of fuel"
  | S fuel =>
    d ← gets id;
    match bd_queue d with
    | [] => throw ErrAssertionError "Assertion failed"
    | headOfQueue :: rest =>
      let bytesToCopy := min remaining (en_length headOfQueue) in
      let destStart := pd_offset p + pd_filled p in
      assert (CanCopyDataBlockBytes (pd_buffer p) destStart (en_buffer headOfQueue) (en_offset headOfQueue) bytesToCopy d) ;;
      CopyDataBlockBytes (pd_buffer p) destStart (en_buffer headOfQueue) (en_offset headOfQueue) bytesToCopy ;;
      modify (set_queue (if bool_decide (en_length headOfQueue = bytesToCopy) then rest
                         else Entry (en_buffer headOfQueue) (en_offset headOfQueue + bytesToCopy) (en_length headOfQueue - bytesToCopy) :: rest)) ;;
      modify (fun d => set_total (bd_total d - bytesToCopy) d) ;;
      p ← ReadableByteStreamControllerFillHeadPullIntoDescriptor bytesToCopy p;
      fill_loop fuel (remaining - bytesToCopy) p
    end
  end.

(** Whether the descriptor is ready, and the descriptor. *)
Definition ReadableByteStreamControllerFillPullIntoDescriptorFromQueue (p : desc) : BM (bool * desc) :=
  d ← gets id;
  let maxBytesToCopy := min (bd_total d) (pd_length p - pd_filled p) in
  let maxBytesFilled := pd_filled p + maxBytesToCopy in
  assert (negb (IsDetachedBuffer d (pd_buffer p))) ;;
  assert (bool_decide (pd_filled p < pd_minimum p)) ;;
  let remainderBytes := maxBytesFilled mod pd_elem p in
  let maxAlignedBytes := maxBytesFilled - remainderBytes in
  let ready := bool_decide (pd_minimum p <= maxAlignedBytes) in
  p ← fill_loop (S (length (bd_queue d))) (if ready then maxAlignedBytes - pd_filled p else maxBytesToCopy) p;
  d ← gets id;
  when (negb ready)
    (assert (bool_decide (bd_total d = 0)) ;; assert (bool_decide (0 < pd_filled p)) ;; assert (bool_decide (pd_filled p < pd_minimum p))) ;;
  mret (ready, p).

Definition ReadableByteStreamControllerConvertPullIntoDescriptor (p : desc) : BM view :=
  assert (bool_decide (pd_filled p <= pd_length p)) ;;
  assert (bool_decide (pd_filled p mod pd_elem p = 0)) ;;
  new_view (pd_ctor p) (pd_buffer p) (pd_offset p) (pd_filled p).

(** The loop of [ReadableByteStreamControllerProcessPullIntoDescriptorsUsingQueue]. *)
Fixpoint process_loop (fuel : nat) : BM (list desc) :=
  d ← gets id;
  match bd_pending d with
  | [] => mret []
  | p :: _ =>
    if bool_decide (bd_total d = 0) then mret [] else
    match fuel with
    | O => throw ErrAssertionError "out of fuel"
    | S fuel =>
      assert (negb (bool_decide (pd_type p = ForNone))) ;;
      r ← ReadableByteStreamControllerFillPullIntoDescriptorFromQueue p;
      if (r.1 : bool) then
        ReadableByteStreamControllerShiftPendingPullInto ;;
        ps ← process_loop fuel;
        mret (r.2 :: ps)
      else process_loop fuel
    end
  end.

Definition ReadableByteStreamControllerGetBYOBRequest : BM (option nat) :=
  d ← gets id;
  match bd_request d, bd_pending d with
  | None, p :: _ =>
    v ← new_view (Typed 1) (pd_buffer p) (pd_offset p + pd_filled p) (pd_length p - pd_filled p);
    assert (negb (IsDetachedBuffer d (vw_buffer v))) ;;
    modify (fun d => set_requests (bd_requests d ++ [Request true (Some v)]) d) ;;
    modify (set_request (Some (length (bd_requests d)))) ;;
    modify (share (pd_buffer p)) ;;
    gets bd_request
  | r, _ => mret r
  end.

(** [ReleaseSteps] of the controller. *)
Definition ReleaseSteps : BM unit :=
  modify (fun d => match bd_pending d with [] => d | p :: _ => set_pending [with_type ForNone p] d end).
