(* ===== verification/ByteDataInv.v ===== *)
(** * The bytes of a byte stream are kept

    What the operations of [ByteData] do to buffers that belong to the
    stream: the queue's chunks and the descriptors' buffers are private
    and different, filling moves bytes from the front of the queue behind
    those a descriptor has, and no assertion fails. *)

From S2P Require Import Prelude StreamBase ByteData.
Open Scope nat_scope.

(* ------------------------------------------------------------------ *)
(** ** Slices *)

Lemma slice_length off n (c : bytes) : off + n <= length c -> length (slice off n c) = n.
Proof. intros H. unfold slice. rewrite length_take, length_drop. lia. Qed.
Lemma slice_app off a b (c : bytes) : slice off a c ++ slice (off + a) b c = slice off (a + b) c.
Proof. unfold slice. rewrite <- drop_drop, Nat.add_comm. rewrite (Nat.add_comm b a). rewrite <- (take_drop a (take (a + b) (drop off c))). rewrite take_take, Nat.min_l, skipn_firstn_comm by lia. by replace (a + b - a) with b by lia. Qed.
Lemma write_length off data (c : bytes) : off + length data <= length c -> length (write_at off data c) = length c.
Proof. intros H. unfold write_at. rewrite !length_app, length_take, length_drop. lia. Qed.
Lemma slice_write off data (c : bytes) : off + length data <= length c -> slice off (length data) (write_at off data c) = data.
Proof. intros H. unfold slice, write_at. rewrite drop_app_length' by (rewrite length_take; lia). by rewrite take_app_length. Qed.
Lemma slice_write_before a n off data (c : bytes) : a + n <= off -> off + length data <= length c -> slice a n (write_at off data c) = slice a n c.
Proof.
  intros H1 H2. unfold slice, write_at. rewrite drop_app_le by (rewrite length_take; lia). rewrite take_app_le by (rewrite length_drop, length_take; lia).
  rewrite skipn_firstn_comm, take_take. by rewrite Nat.min_l by lia.
Qed.
Lemma slice_take a n m (c : bytes) : m <= n -> take m (slice a n c) = slice a m c.
Proof. intros H. unfold slice. rewrite take_take. by rewrite Nat.min_l by lia. Qed.
Lemma slice_drop a n m (c : bytes) : m <= n -> drop m (slice a n c) = slice (a + m) (n - m) c.
Proof. intros H. unfold slice. rewrite skipn_firstn_comm, drop_drop. done. Qed.

(* ------------------------------------------------------------------ *)
(** ** The invariant *)

Definition private (bufs : list abuf) (b : nat) (c : bytes) : Prop := bufs !! b = Some (ABuf (Some c) false).

Definition entry_ok (bufs : list abuf) (e : entry) : Prop :=
  0 < en_length e /\ exists c, private bufs (en_buffer e) c /\ en_offset e + en_length e <= length c.

(** The shape of a descriptor. *)
Record shape (p : desc) : Prop := {
  sh_elem : 0 < pd_elem p /\ pd_elem p = arrayBufferViewElementSize (pd_ctor p);
  sh_offset : pd_offset p mod pd_elem p = 0;
  sh_minimum : pd_minimum p mod pd_elem p = 0 /\ pd_minimum p <= pd_length p;
  sh_buffer : pd_offset p + pd_length p <= pd_bufferLength p;
  sh_filled : pd_filled p <= pd_length p /\ length (pd_given p) = pd_filled p }.

(** Its buffer has its capacity and the bytes given. *)
Definition carries (p : desc) (c : bytes) : Prop := length c = pd_bufferLength p /\ slice (pd_offset p) (pd_filled p) c = pd_given p.
Definition own_desc (bufs : list abuf) (p : desc) : Prop := exists c, private bufs (pd_buffer p) c /\ carries p c.
(** The same, of one the program may see. *)
Definition seen_desc (bufs : list abuf) (p : desc) : Prop := exists x, bufs !! pd_buffer p = Some x /\ ab_shared x = true /\ forall c, ab_data x = Some c -> carries p c.

Definition head_view (p : desc) : view := View (Typed 1) (pd_buffer p) (pd_offset p + pd_filled p) (pd_length p - pd_filled p).

Definition head_ok (d : bdata) : Prop :=
  match bd_pending d, bd_request d with
  | [], None => True
  | p :: _, None => own_desc (bd_buffers d) p
  | [], Some _ => False
  | p :: _, Some q => seen_desc (bd_buffers d) p /\ bd_requests d !! q = Some (Request true (Some (head_view p)))
  end.

Definition owned (d : bdata) : list nat := (en_buffer <$> bd_queue d) ++ (pd_buffer <$> bd_pending d).
Definition lengths (q : list entry) : nat := foldr (fun e n => en_length e + n) 0 q.

(** [xs] are the buffers of views that are under way to a read. *)
Record Data (xs : list nat) (d : bdata) : Prop := {
  da_nodup : NoDup (xs ++ owned d);
  da_way : Forall (fun b => exists c, private (bd_buffers d) b c) xs;
  da_queue : Forall (entry_ok (bd_buffers d)) (bd_queue d);
  da_shape : Forall shape (bd_pending d);
  da_head : head_ok d;
  da_tail : Forall (fun p => own_desc (bd_buffers d) p /\ pd_filled p = 0) (tail (bd_pending d));
  da_total : bd_total d = lengths (bd_queue d);
  da_requests : forall q r, bd_requests d !! q = Some r -> rq_controller r = true -> bd_request d = Some q }.

(** What is queued, and what the descriptors have. *)
Definition entry_bytes (bufs : list abuf) (e : entry) : bytes := match x ← bufs !! en_buffer e; ab_data x with Some c => slice (en_offset e) (en_length e) c | None => [] end.
Definition queue_bytes (d : bdata) : bytes := concat (entry_bytes (bd_buffers d) <$> bd_queue d).
Definition given_bytes (ps : list desc) : bytes := concat (pd_given <$> ps).

Lemma lengths_pos q bufs : Forall (entry_ok bufs) q -> lengths q = 0 -> q = [].
Proof. intros H. destruct H as [|e q [He _] _]; [done|]. cbn. lia. Qed.

Lemma queue_bytes_length xs d : Data xs d -> length (queue_bytes d) = bd_total d.
Proof.
  intros H. rewrite (da_total _ _ H). unfold queue_bytes. induction (da_queue _ _ H) as [|e q (Hl & c & Hc & Hb) _ IH]; [done|].
  rewrite fmap_cons. cbn [concat lengths foldr]. fold (lengths q). rewrite length_app, IH. unfold entry_bytes at 1. unfold private in Hc. rewrite Hc. cbn. by rewrite slice_length.
Qed.

Lemma total_zero xs d : Data xs d -> bd_total d = 0 -> bd_queue d = [].
Proof. intros H E. eapply lengths_pos; [apply (da_queue _ _ H)|]. by rewrite <- (da_total _ _ H). Qed.

Lemma content_private d b c : private (bd_buffers d) b c -> content d b = Some c.
Proof. unfold private, content. by intros ->. Qed.
Lemma private_lt bufs b c : private bufs b c -> b < length bufs.
Proof. apply lookup_lt_Some. Qed.
Lemma private_not_shared d b c : private (bd_buffers d) b c -> shared d b = false.
Proof. unfold private, shared. by intros ->. Qed.

Lemma private_inj bufs b c c' : private bufs b c -> private bufs b c' -> c = c'.
Proof. unfold private. intros ->. by intros [= ->]. Qed.

(** Buffers the stream owns are known. *)
Lemma owned_lt xs d b : Data xs d -> b ∈ xs ++ owned d -> b < length (bd_buffers d).
Proof.
  intros H. unfold owned. rewrite !elem_of_app, !list_elem_of_fmap. intros [Hb|[(e & -> & He)|(p & -> & Hp)]].
  - pose proof (da_way _ _ H) as Hw. rewrite Forall_forall in Hw. destruct (Hw b Hb) as [c Hc]. by eapply private_lt.
  - pose proof (da_queue _ _ H) as Hq. rewrite Forall_forall in Hq. destruct (Hq e He) as (_ & c & Hc & _). by eapply private_lt.
  - pose proof (da_head _ _ H) as Hh. pose proof (da_tail _ _ H) as Ht. unfold head_ok in Hh. destruct (bd_pending d) as [|p0 ps]; [by apply elem_of_nil in Hp|].
    apply elem_of_cons in Hp as [->|Hp].
    + destruct (bd_request d); [destruct Hh as [(x & Hx & _) _]; by eapply lookup_lt_Some|destruct Hh as (c & Hc & _); by eapply private_lt].
    + cbn in Ht. rewrite Forall_forall in Ht. destruct (Ht p Hp) as [(c & Hc & _) _]. by eapply private_lt.
Qed.

(** What does not touch the stream's buffers keeps the invariant. *)
Lemma data_frame xs d bufs : Data xs d -> (forall b x, b ∈ xs ++ owned d -> bd_buffers d !! b = Some x -> bufs !! b = Some x) -> Data xs (set_buffers bufs d) /\ queue_bytes (set_buffers bufs d) = queue_bytes d.
Proof.
  intros H Hb. pose proof H as [H1 H2 H3 H4 H5 H6 H7 H8].
  assert (Hp : forall b c, b ∈ xs ++ owned d -> private (bd_buffers d) b c -> private bufs b c) by (intros b c Hin; apply Hb, Hin).
  assert (Hq : forall e, e ∈ bd_queue d -> en_buffer e ∈ xs ++ owned d) by (intros e He; unfold owned; rewrite !elem_of_app; right; left; by apply list_elem_of_fmap_2).
  assert (Hd : forall p, p ∈ bd_pending d -> pd_buffer p ∈ xs ++ owned d) by (intros p He; unfold owned; rewrite !elem_of_app; right; right; by apply list_elem_of_fmap_2).
  rewrite Forall_forall in H3. split.
  - split; try done; cbn [bd_buffers set_buffers].
    + apply Forall_forall. intros b Hin. rewrite Forall_forall in H2. destruct (H2 b Hin) as [c Hc]. exists c. apply Hp; [set_solver|done].
    + apply Forall_forall. intros e He. destruct (H3 e He) as (Hl & c & Hc & Hle). split; [done|]. exists c. split; [|done]. by apply Hp; [apply Hq|].
    + unfold head_ok in *. cbn. destruct (bd_pending d) as [|p ps]; [done|]. destruct (bd_request d).
      * destruct H5 as [(x & Hx & Hs & Hc) Hr]. split; [|done]. exists x. split; [|done]. apply Hb; [apply Hd; left|done].
      * destruct H5 as (c & Hc & Hk). exists c. split; [|done]. apply Hp; [apply Hd; left|done].
    + apply Forall_forall. intros p Hin. rewrite Forall_forall in H6. destruct (H6 p Hin) as [(c & Hc & Hk) Hf]. split; [|done]. exists c. split; [|done].
      apply Hp; [|done]. apply Hd. cbn in Hin. destruct (bd_pending d); [by apply elem_of_nil in Hin|by right].
  - unfold queue_bytes. f_equal. cbn. apply list_fmap_ext. intros i e He. apply list_elem_of_lookup_2 in He. destruct (H3 e He) as (_ & c & Hc & _).
    unfold entry_bytes. unfold private in *. rewrite Hc. by rewrite (Hp _ _ (Hq e He) Hc).
Qed.

Lemma frame_app {A} (l l' : list A) b x : l !! b = Some x -> (l ++ l') !! b = Some x.
Proof. intros H. rewrite lookup_app_l; [done|]. by eapply lookup_lt_Some. Qed.

(* ------------------------------------------------------------------ *)
(** ** Making, transferring and sharing buffers *)

Definition fresh_id (d : bdata) : nat := length (bd_buffers d).
Lemma owned_fresh xs d : Data xs d -> fresh_id d ∉ xs ++ owned d.
Proof. intros H Hin. apply (owned_lt _ _ _ H) in Hin. unfold fresh_id in Hin. lia. Qed.

(** A buffer the stream starts to own. *)
Lemma data_way xs d b c : Data xs d -> private (bd_buffers d) b c -> b ∉ xs ++ owned d -> Data (b :: xs) d.
Proof. intros [H1 H2 H3 H4 H5 H6 H7 H8] Hc Hb. split; try done; [by apply NoDup_cons|]. constructor; [by eexists|done]. Qed.
Lemma data_forget b xs d : Data (b :: xs) d -> Data xs d.
Proof. intros [H1 H2 H3 H4 H5 H6 H7 H8]. apply NoDup_cons in H1 as [_ H1]. inversion H2. by split. Qed.
Lemma data_swap xs ys d : xs ≡ₚ ys -> Data xs d -> Data ys d.
Proof. intros Hp [H1 H2 H3 H4 H5 H6 H7 H8]. split; try done; by rewrite <- Hp. Qed.

Definition added (c : bytes) (program : bool) (d : bdata) : bdata := set_buffers (bd_buffers d ++ [ABuf (Some c) program]) d.
Lemma added_data xs d c program : Data xs d -> Data xs (added c program d) /\ queue_bytes (added c program d) = queue_bytes d.
Proof. intros H. apply data_frame; [done|]. intros b x _. apply frame_app. Qed.
Lemma added_private c d : private (bd_buffers (added c false d)) (fresh_id d) c.
Proof. unfold private, added, fresh_id. cbn. by apply list_lookup_middle. Qed.

(** The state after a transfer of a buffer that is not the stream's. *)
Definition moved (b : nat) (c : bytes) (program : bool) (d : bdata) : bdata :=
  set_buffers (<[b := ABuf None (shared d b)]> (bd_buffers d) ++ [ABuf (Some c) program]) d.

Lemma transfer_eq b c program d : content d b = Some c -> transfer b program d = (Ok (fresh_id d), moved b c program d).
Proof.
  intros Hc. unfold transfer. rewrite gets_bind. unfold id. rewrite Hc, modify_bind. unfold new_buffer, moved, fresh_id, put_data. cbn. by rewrite length_insert.
Qed.
Lemma moved_frame xs d b c program b' x : b ∉ xs ++ owned d -> b' ∈ xs ++ owned d -> bd_buffers d !! b' = Some x -> bd_buffers (moved b c program d) !! b' = Some x.
Proof. intros Hb Hb' Hx. unfold moved. cbn. apply frame_app. rewrite list_lookup_insert_ne; [done|]. by intros ->. Qed.
Lemma moved_data xs d b c program : Data xs d -> b ∉ xs ++ owned d -> Data xs (moved b c program d) /\ queue_bytes (moved b c program d) = queue_bytes d.
Proof. intros H Hb. apply data_frame; [done|]. intros b' x Hb' Hx. exact (moved_frame xs d b c program b' x Hb Hb' Hx). Qed.
Lemma moved_private b c d : private (bd_buffers (moved b c false d)) (fresh_id d) c.
Proof. unfold private, moved, fresh_id. cbn. apply list_lookup_middle. by rewrite length_insert. Qed.

Lemma shared_outside xs d b : Data xs d -> shared d b = true -> b ∈ xs ++ owned d -> exists p ps, bd_pending d = p :: ps /\ b = pd_buffer p /\ bd_request d <> None.
Proof.
  intros H Hs. unfold owned. rewrite !elem_of_app, !list_elem_of_fmap. intros [Hb|[(e & -> & He)|(p & -> & Hp)]].
  - pose proof (da_way _ _ H) as Hw. rewrite Forall_forall in Hw. destruct (Hw b Hb) as [c Hc]. rewrite (private_not_shared _ _ _ Hc) in Hs. done.
  - pose proof (da_queue _ _ H) as Hq. rewrite Forall_forall in Hq. destruct (Hq e He) as (_ & c & Hc & _). rewrite (private_not_shared _ _ _ Hc) in Hs. done.
  - pose proof (da_head _ _ H) as Hh. pose proof (da_tail _ _ H) as Ht. unfold head_ok in Hh. destruct (bd_pending d) as [|p0 ps]; [by apply elem_of_nil in Hp|]. exists p0, ps. split; [done|].
    apply elem_of_cons in Hp as [->|Hp].
    + split; [done|]. destruct (bd_request d); [done|]. destruct Hh as (c & Hc & _). rewrite (private_not_shared _ _ _ Hc) in Hs. done.
    + cbn in Ht. rewrite Forall_forall in Ht. destruct (Ht p Hp) as [(c & Hc & _) _]. rewrite (private_not_shared _ _ _ Hc) in Hs. done.
Qed.

(** The head's buffer is different from all others. *)
Lemma head_apart xs d p ps : Data xs d -> bd_pending d = p :: ps -> pd_buffer p ∉ xs ++ (en_buffer <$> bd_queue d) ++ (pd_buffer <$> ps).
Proof.
  intros H E. pose proof (da_nodup _ _ H) as Hn. unfold owned in Hn. rewrite E, fmap_cons in Hn. rewrite app_assoc in Hn. apply NoDup_app in Hn as (_ & Hn & Hn2).
  rewrite app_assoc, elem_of_app. apply NoDup_cons in Hn2 as [Hn2 _]. intros [Hin|Hin]; [|done]. apply (Hn _ Hin). left.
Qed.

(** The invariant without the head's buffer. *)
Record Rest (xs : list nat) (d : bdata) (p : desc) (ps : list desc) : Prop := {
  re_pending : bd_pending d = p :: ps;
  re_nodup : NoDup (xs ++ (en_buffer <$> bd_queue d) ++ (pd_buffer <$> ps));
  re_way : Forall (fun b => exists c, private (bd_buffers d) b c) xs;
  re_queue : Forall (entry_ok (bd_buffers d)) (bd_queue d);
  re_shape : Forall shape ps;
  re_tail : Forall (fun p => own_desc (bd_buffers d) p /\ pd_filled p = 0) ps;
  re_total : bd_total d = lengths (bd_queue d) }.

Lemma data_rest xs d p ps : Data xs d -> bd_pending d = p :: ps -> Rest xs d p ps.
Proof.
  intros [H1 H2 H3 H4 H5 H6 H7 H8] E. split; try done.
  - unfold owned in H1. rewrite E, fmap_cons in H1. rewrite app_assoc in H1. rewrite app_assoc. apply NoDup_app in H1 as (Ha & Hb & Hc). apply NoDup_app. split_and!; [done| |by apply NoDup_cons in Hc as [_ Hc]]. intros x Hx Hp. apply (Hb x Hx). by right.
  - rewrite E in H4. by inversion H4.
  - by rewrite E in H6.
Qed.

Definition others (xs : list nat) (d : bdata) (ps : list desc) : list nat := xs ++ (en_buffer <$> bd_queue d) ++ (pd_buffer <$> ps).

(** A head on a private buffer apart from the others restores it. *)
Lemma rest_data xs d p ps p' d' : Rest xs d p ps -> shape p' -> own_desc (bd_buffers d') p' -> pd_buffer p' ∉ others xs d ps ->
  (forall b x, b ∈ others xs d ps -> bd_buffers d !! b = Some x -> bd_buffers d' !! b = Some x) ->
  bd_pending d' = p' :: ps -> bd_queue d' = bd_queue d -> bd_total d' = bd_total d -> bd_request d' = None ->
  (forall q r, bd_requests d' !! q = Some r -> rq_controller r = false) ->
  Data xs d' /\ queue_bytes d' = queue_bytes d.
Proof.
  intros [R1 R2 R3 R4 R5 R6 R7] Hsh Hown Hap Hb Ep Eq Et Er Hr. unfold others in *.
  assert (Hq : forall e, e ∈ bd_queue d -> en_buffer e ∈ xs ++ (en_buffer <$> bd_queue d) ++ (pd_buffer <$> ps)) by (intros e He; rewrite !elem_of_app; right; left; by apply list_elem_of_fmap_2).
  rewrite Forall_forall in R4. split.
  - split.
    + unfold owned. rewrite Eq, Ep, fmap_cons. assert (E : xs ++ (en_buffer <$> bd_queue d) ++ pd_buffer p' :: (pd_buffer <$> ps) ≡ₚ pd_buffer p' :: xs ++ (en_buffer <$> bd_queue d) ++ (pd_buffer <$> ps)) by (rewrite !app_assoc; symmetry; apply Permutation_middle).
      rewrite E. by apply NoDup_cons.
    + apply Forall_forall. intros b Hin. rewrite Forall_forall in R3. destruct (R3 b Hin) as [c Hc]. exists c. apply Hb; [set_solver|done].
    + rewrite Eq. apply Forall_forall. intros e He. destruct (R4 e He) as (Hl & c & Hc & Hle). split; [done|]. exists c. split; [|done]. by apply Hb; [apply Hq|].
    + rewrite Ep. by constructor.
    + unfold head_ok. by rewrite Ep, Er.
    + rewrite Ep. cbn. apply Forall_forall. intros y Hy. rewrite Forall_forall in R6. destruct (R6 y Hy) as [(c & Hc & Hk) Hf]. split; [|done]. exists c. split; [|done].
      apply Hb; [|done]. rewrite !elem_of_app. right; right. by apply list_elem_of_fmap_2.
    + by rewrite Et, Eq.
    + intros q r Hq' Hc. rewrite (Hr q r Hq') in Hc. done.
  - unfold queue_bytes. rewrite Eq. f_equal. apply list_fmap_ext. intros i e He. apply list_elem_of_lookup_2 in He. destruct (R4 e He) as (_ & c & Hc & _).
    unfold entry_bytes. unfold private in *. rewrite Hc. by rewrite (Hb _ _ (Hq e He) Hc).
Qed.

(* ------------------------------------------------------------------ *)
(** ** Filling a descriptor from the queue *)

(** A descriptor that can be filled: the head, or one not pending yet. *)
Record Fillable (xs : list nat) (d : bdata) (p : desc) : Prop := {
  fi_data : Data xs d;
  fi_request : bd_request d = None;
  fi_where : (bd_pending d = [] /\ pd_buffer p ∈ xs) \/ (exists ps, bd_pending d = p :: ps);
  fi_shape : shape p;
  fi_own : own_desc (bd_buffers d) p }.

Lemma fillable_head xs d p ps : Data xs d -> bd_pending d = p :: ps -> bd_request d = None -> Fillable xs d p.
Proof.
  intros H E Hr. split; try done.
  - right. by exists ps.
  - pose proof (da_shape _ _ H) as Hs. rewrite E in Hs. by inversion Hs.
  - pose proof (da_head _ _ H) as Hh. unfold head_ok in Hh. by rewrite E, Hr in Hh.
Qed.

Lemma fillable_apart xs d p : Fillable xs d p -> pd_buffer p ∉ en_buffer <$> bd_queue d.
Proof.
  intros [H Hr Hw _ _] Hin. pose proof (da_nodup _ _ H) as Hn. unfold owned in Hn. destruct Hw as [[E Hx]|[ps E]]; rewrite E in Hn.
  - apply NoDup_app in Hn as (_ & Hn & _). apply (Hn _ Hx). apply elem_of_app. by left.
  - apply NoDup_app in Hn as (_ & _ & Hn). apply NoDup_app in Hn as (_ & Hn & _). apply (Hn _ Hin). left.
Qed.

(** Bytes moved from the head of the queue. *)
Definition refilled (n : nat) (data : bytes) (p : desc) : desc := with_filled (pd_filled p + n) (pd_given p ++ data) p.
Definition shorter (n : nat) (e : entry) (rest : list entry) : list entry :=
  if bool_decide (en_length e = n) then rest else Entry (en_buffer e) (en_offset e + n) (en_length e - n) :: rest.
Definition after_copy (n : nat) (c data : bytes) (p : desc) (q : list entry) (d : bdata) : bdata :=
  update_head (refilled n data p) (set_total (bd_total d - n) (set_queue q (put_data (pd_buffer p) (Some (write_at (pd_offset p + pd_filled p) data c)) d))).

Lemma shape_refilled n data p : shape p -> pd_filled p + n <= pd_length p -> length data = n -> shape (refilled n data p).
Proof. intros [H1 H2 H3 H4 [H5 H6]] Hn Hd. split; try done. cbn. rewrite length_app. lia. Qed.

Lemma carries_refilled n data p c : carries p c -> shape p -> length data = n -> pd_filled p + n <= pd_length p ->
  carries (refilled n data p) (write_at (pd_offset p + pd_filled p) data c).
Proof.
  intros [Hl Hs] [H1 H2 H3 H4 [H5 H6]] Hd Hn. unfold refilled. split; cbn [pd_bufferLength pd_offset pd_filled pd_given with_filled].
  - rewrite write_length; lia.
  - rewrite <- slice_app. rewrite slice_write_before by lia. rewrite Hs. f_equal. rewrite <- Hd at 1. apply slice_write. lia.
Qed.

Lemma lengths_shorter n e rest : n <= en_length e -> lengths (shorter n e rest) = lengths (e :: rest) - n.
Proof. intros H. unfold shorter. case_bool_decide as E; cbn; fold (lengths rest); lia. Qed.

Lemma put_other d b c b' : b' <> b -> bd_buffers (put_data b c d) !! b' = bd_buffers d !! b'.
Proof. intros H. unfold put_data. cbn. by rewrite list_lookup_insert_ne. Qed.
Lemma put_private d b c c' : private (bd_buffers d) b c -> private (bd_buffers (put_data b (Some c') d)) b c'.
Proof. intros H. unfold put_data, private. cbn. rewrite (private_not_shared _ _ _ H). apply list_lookup_insert_eq. by eapply private_lt. Qed.

Lemma entry_bytes_same bufs bufs' e : bufs' !! en_buffer e = bufs !! en_buffer e -> entry_bytes bufs' e = entry_bytes bufs e.
Proof. intros H. unfold entry_bytes. by rewrite H. Qed.

Lemma shorter_bytes bufs n e rest c : private bufs (en_buffer e) c -> en_offset e + en_length e <= length c -> n <= en_length e ->
  concat (entry_bytes bufs <$> e :: rest) = slice (en_offset e) n c ++ concat (entry_bytes bufs <$> shorter n e rest).
Proof.
  intros Hc Hl Hn. unfold private in Hc. rewrite fmap_cons. cbn [concat]. unfold shorter. case_bool_decide as E.
  - f_equal. unfold entry_bytes. rewrite Hc. cbn. by rewrite E.
  - rewrite fmap_cons. cbn [concat]. rewrite app_assoc. f_equal. unfold entry_bytes. cbn [en_buffer en_offset en_length]. rewrite Hc. cbn.
    rewrite slice_app. f_equal. lia.
Qed.

Lemma copy_step xs d p e rest c c' n : Fillable xs d p -> bd_queue d = e :: rest -> private (bd_buffers d) (pd_buffer p) c ->
  private (bd_buffers d) (en_buffer e) c' -> n <= en_length e -> pd_filled p + n <= pd_length p ->
  let data := slice (en_offset e) n c' in let d' := after_copy n c data p (shorter n e rest) d in
  Fillable xs d' (refilled n data p) /\ queue_bytes d = data ++ queue_bytes d' /\ length data = n /\
  bd_pending d' = match bd_pending d with [] => [] | _ :: ps => refilled n data p :: ps end /\
  bd_queue d' = shorter n e rest /\ bd_total d' = bd_total d - n /\ bd_request d' = bd_request d /\ bd_requests d' = bd_requests d /\
  (forall b, b <> pd_buffer p -> bd_buffers d' !! b = bd_buffers d !! b).
Proof.
  intros HF Eq Hc Hc' Hn Hf data d'. pose proof (fillable_apart _ _ _ HF) as Hap. destruct HF as [H Hr Hw Hs (c0 & Hc0 & Hk)].
  pose proof (private_inj _ _ _ _ Hc Hc0) as <-. clear Hc0. pose proof H as [H1 H2 H3 H4 H5 H6 H7 H8].
  rewrite Eq in Hap. rewrite fmap_cons in Hap. apply not_elem_of_cons in Hap as [Hne Hap].
  rewrite Eq in H3. inversion H3 as [|? ? (He & c1 & Hc1 & Hle) Hrest]; subst. pose proof (private_inj _ _ _ _ Hc' Hc1) as <-. clear Hc1.
  assert (Hdata : length data = n) by (apply slice_length; lia).
  assert (Hcar : carries (refilled n data p) (write_at (pd_offset p + pd_filled p) data c)) by by apply carries_refilled.
  assert (Hbuf : bd_buffers d' = bd_buffers (put_data (pd_buffer p) (Some (write_at (pd_offset p + pd_filled p) data c)) d)) by (unfold d', after_copy, update_head; cbn; by destruct (bd_pending d)).
  assert (Hown : own_desc (bd_buffers d') (refilled n data p)) by (exists (write_at (pd_offset p + pd_filled p) data c); rewrite Hbuf; split; [by apply (put_private _ _ c)|done]).
  assert (Hq' : bd_queue d' = shorter n e rest) by (unfold d', after_copy, update_head; cbn; by destruct (bd_pending d)).
  assert (Ht' : bd_total d' = bd_total d - n) by (unfold d', after_copy, update_head; cbn; by destruct (bd_pending d)).
  assert (Hr' : bd_request d' = bd_request d /\ bd_requests d' = bd_requests d) by (unfold d', after_copy, update_head; cbn; by destruct (bd_pending d)).
  assert (Hp' : bd_pending d' = match bd_pending d with [] => [] | _ :: ps => refilled n data p :: ps end) by (unfold d', after_copy, update_head; cbn; by destruct (bd_pending d) eqn:?).
  assert (Hsame : forall b c, private (bd_buffers d) b c -> b <> pd_buffer p -> private (bd_buffers d') b c) by (intros b c2 Hb Hbp; rewrite Hbuf; unfold private; by rewrite put_other).
  assert (Hsub : sublist (en_buffer <$> shorter n e rest) (en_buffer <$> e :: rest)).
  { unfold shorter. case_bool_decide; [rewrite fmap_cons; by apply sublist_cons|done]. }
  assert (Hqe : Forall (entry_ok (bd_buffers d')) (shorter n e rest)).
  { assert (Hr0 : Forall (entry_ok (bd_buffers d')) rest).
    { apply Forall_forall. intros y Hy. rewrite Forall_forall in Hrest. destruct (Hrest y Hy) as (Hl & c2 & Hc2 & Hl2). split; [done|]. exists c2. split; [|done].
      apply Hsame; [done|]. intros E. apply Hap. rewrite <- E. by apply list_elem_of_fmap_2. }
    unfold shorter. case_bool_decide; [done|]. constructor; [|done]. split; [cbn; lia|]. exists c'. split; [by apply Hsame|cbn; lia]. }
  assert (Hother : forall b, b ∈ xs ++ (pd_buffer <$> tail (bd_pending d)) -> b = pd_buffer p -> bd_pending d = [] /\ b ∈ xs).
  { intros b Hb ->. destruct Hw as [[E Hx]|[ps E]]; [done|]. exfalso. pose proof (head_apart _ _ _ _ H E) as Ha. rewrite E in Hb. cbn in Hb. set_solver. }
  split_and!; try done; try apply Hr'; [| |by intros b Hb; rewrite Hbuf; apply put_other].
  - split; try done; [|by rewrite (proj1 Hr')| |by apply shape_refilled].
    + split.
      * pose proof H1 as Hnd. unfold owned in Hnd |- *. rewrite Hq', Hp'. rewrite Eq in Hnd. assert (Em : pd_buffer <$> match bd_pending d with [] => [] | _ :: ps => refilled n data p :: ps end = pd_buffer <$> bd_pending d).
        { destruct Hw as [[E _]|[ps E]]; by rewrite E. }
        rewrite Em. eapply sublist_NoDup; [exact Hnd|]. apply sublist_app; [done|]. by apply sublist_app.
      * apply Forall_forall. intros b Hin. rewrite Forall_forall in H2. destruct (H2 b Hin) as [c2 Hc2]. destruct (decide (b = pd_buffer p)) as [->|Hbp].
        -- destruct Hown as (c3 & Hc3 & _). by exists c3.
        -- exists c2. by apply Hsame.
      * by rewrite Hq'.
      * rewrite Hp'. destruct (bd_pending d); [done|]. inversion H4. constructor; [by apply shape_refilled|done].
      * unfold head_ok. rewrite Hp', (proj1 Hr'), Hr. by destruct (bd_pending d).
      * rewrite Hp'. apply Forall_forall. intros y Hy. assert (Hy' : y ∈ tail (bd_pending d)) by (destruct (bd_pending d); done). rewrite Forall_forall in H6. destruct (H6 y Hy') as [(c2 & Hc2 & Hk2) Hf2].
        split; [|done]. exists c2. split; [|done]. apply Hsame; [done|]. intros E. destruct (Hother (pd_buffer y)) as [E2 _]; [rewrite elem_of_app; right; by apply list_elem_of_fmap_2|done|]. rewrite E2 in Hy'. by apply elem_of_nil in Hy'.
      * rewrite Ht', Hq', lengths_shorter by done. by rewrite H7, Eq.
      * intros q r. rewrite (proj2 Hr'), (proj1 Hr'). apply H8.
    + rewrite Hp'. destruct Hw as [[E Hx]|[ps E]]; rewrite E; [by left|right; by exists ps].
  - unfold queue_bytes. rewrite Eq, Hq'. rewrite (shorter_bytes _ n e rest c') by done. do 2 f_equal. apply list_fmap_ext. intros i y Hy. symmetry. apply entry_bytes_same.
    rewrite Hbuf. apply put_other. intros E. apply list_elem_of_lookup_2 in Hy. assert (Hin : pd_buffer p ∈ en_buffer <$> e :: rest).
    { eapply elem_of_sublist; [|exact Hsub]. rewrite <- E. by apply list_elem_of_fmap_2. }
    rewrite fmap_cons in Hin. apply elem_of_cons in Hin as [?|?]; [congruence|done].
Qed.

(** What filling leaves alone. *)
Record Filled (xs : list nat) (n : nat) (d : bdata) (p : desc) (d' : bdata) (p' : desc) : Prop := {
  fd_fillable : Fillable xs d' p';
  fd_desc : p' = refilled n (take n (queue_bytes d)) p;
  fd_bytes : queue_bytes d' = drop n (queue_bytes d);
  fd_pending : bd_pending d' = match bd_pending d with [] => [] | _ :: ps => p' :: ps end;
  fd_total : bd_total d' = bd_total d - n;
  fd_requests : bd_requests d' = bd_requests d;
  fd_frame : forall b, b <> pd_buffer p -> bd_buffers d' !! b = bd_buffers d !! b }.

Lemma refilled_refilled n m a b p : refilled m b (refilled n a p) = refilled (n + m) (a ++ b) p.
Proof. unfold refilled, with_filled. cbn. f_equal; [lia|by rewrite app_assoc]. Qed.

Lemma filled_none xs d p : Fillable xs d p -> Filled xs 0 d p d p.
Proof.
  intros H. split; try done.
  - unfold refilled, with_filled. rewrite Nat.add_0_r, take_0, app_nil_r. by destruct p.
  - destruct (fi_where _ _ _ H) as [[E _]|[ps E]]; by rewrite E.
  - lia.
Qed.

Lemma fill_loop_spec fuel : forall n xs d p, Fillable xs d p -> n <= bd_total d -> pd_filled p + n <= pd_length p -> n = 0 \/ length (bd_queue d) < fuel ->
  exists p' d', fill_loop fuel n p d = (Ok p', d') /\ Filled xs n d p d' p'.
Proof.
  induction fuel as [|fuel IH]; intros n xs d p HF Hn Hf Hfuel; cbn [fill_loop]; case_bool_decide as E0.
  1, 3: subst n; exists p, d; split; [done|]; by apply filled_none.
  { destruct Hfuel; [done|lia]. }
  destruct Hfuel as [?|Hfuel]; [done|].
  pose proof (fi_data _ _ _ HF) as H. destruct (fi_own _ _ _ HF) as (c & Hc & Hk). pose proof (fi_shape _ _ _ HF) as Hs. rewrite gets_bind. unfold id.
  pose proof (da_total _ _ H) as Ht. destruct (bd_queue d) as [|e rest] eqn:Eq; [cbn in Ht; lia|].
  pose proof (da_queue _ _ H) as Hq. rewrite Eq in Hq. inversion Hq as [|? ? (He & c' & Hc' & Hle) _]; subst.
  set (m := min n (en_length e)). assert (Hm : 0 < m /\ m <= n /\ m <= en_length e) by lia.
  destruct (copy_step xs d p e rest c c' m HF Eq Hc Hc' ltac:(lia) ltac:(lia)) as (HF1 & Hb1 & Hlen & Hp1 & Hq1 & Ht1 & Hr1 & Hrs1 & Hfr1).
  set (data := slice (en_offset e) m c') in *. set (d1 := after_copy m c data p (shorter m e rest) d) in *.
  assert (Hcan : CanCopyDataBlockBytes (pd_buffer p) (pd_offset p + pd_filled p) (en_buffer e) (en_offset e) m d = true).
  { unfold CanCopyDataBlockBytes, IsDetachedBuffer, bufferByteLength. rewrite (content_private _ _ _ Hc), (content_private _ _ _ Hc').
    pose proof (fillable_apart _ _ _ HF) as Hap. rewrite Eq in Hap. cbn in Hap. apply not_elem_of_cons in Hap as [Hne _]. destruct Hk as [Hkl _]. destruct Hs as [_ _ _ Hsb _].
    cbv beta iota. rewrite (bool_decide_false (pd_buffer p = en_buffer e)) by done. by rewrite !bool_decide_true by lia. }
  rewrite assert_bind by done. unfold CopyDataBlockBytes. rewrite bind_assoc, gets_bind. unfold id. rewrite (content_private _ _ _ Hc), (content_private _ _ _ Hc').
  rewrite modify_bind, modify_bind, modify_bind. unfold ReadableByteStreamControllerFillHeadPullIntoDescriptor. rewrite bind_assoc, gets_bind. unfold id.
  rewrite bind_assoc. rewrite assert_bind by (cbn; destruct (fi_where _ _ _ HF) as [[E _]|[ps E]]; rewrite E; [done|by apply bool_decide_true]).
  rewrite bind_assoc. rewrite assert_bind by (apply bool_decide_true; cbn; apply (fi_request _ _ _ HF)). rewrite bind_assoc, modify_bind, ret_bind.
  assert (Hreg : forall t, region (set_total t (set_queue (if bool_decide (en_length e = m) then rest else Entry (en_buffer e) (en_offset e + m) (en_length e - m) :: rest)
      (put_data (pd_buffer p) (Some (write_at (pd_offset p + pd_filled p) data c)) d))) (pd_buffer p) (pd_offset p + pd_filled p) m = data).
  { intros t. pose proof (put_private d (pd_buffer p) c (write_at (pd_offset p + pd_filled p) data c) Hc) as Hpp. unfold region, content. cbn. unfold private in Hpp. unfold put_data in Hpp. cbn in Hpp. rewrite Hpp. cbn.
    rewrite <- Hlen at 1. apply slice_write. destruct Hk as [Hkl _]. destruct Hs as [_ _ _ Hsb _]. lia. }
  rewrite Hreg. change (with_filled (pd_filled p + m) (pd_given p ++ data) p) with (refilled m data p).
  match goal with |- context [fill_loop fuel (n - m) (refilled m data p) ?x] => change x with d1 end.
  assert (Hl1 : n - m = 0 \/ length (bd_queue d1) < fuel).
  { rewrite Hq1. unfold shorter. case_bool_decide; cbn in *; [right; lia|left; lia]. }
  destruct (IH (n - m) xs d1 (refilled m data p) HF1 ltac:(lia) ltac:(cbn; lia) Hl1) as (p' & d' & -> & [F1 F2 F3 F4 F5 F6 F7]). exists p', d'. split; [done|].
  assert (Htake : take n (queue_bytes d) = data ++ take (n - m) (queue_bytes d1)) by (rewrite Hb1, take_app_ge by lia; by rewrite Hlen).
  split; try done.
  - rewrite F2, refilled_refilled, Htake. f_equal. lia.
  - rewrite F3, Hb1, drop_app_ge by lia. by rewrite Hlen.
  - rewrite F4, Hp1. by destruct (bd_pending d).
  - rewrite F5, Ht1. lia.
  - by rewrite F6.
  - intros b Hb. rewrite F7 by done. by apply Hfr1.
Qed.

(** Filling what is in the queue: enough for the read, in whole elements,
    or all there is. *)
Lemma fill_spec xs d p : Fillable xs d p -> pd_filled p < pd_minimum p -> 0 < bd_total d ->
  exists n p' d' ready, ReadableByteStreamControllerFillPullIntoDescriptorFromQueue p d = (Ok (ready, p'), d') /\ Filled xs n d p d' p' /\
    n <= bd_total d /\
    (if ready then pd_minimum p <= pd_filled p' /\ pd_filled p' mod pd_elem p' = 0 else pd_filled p' < pd_minimum p /\ n = bd_total d).
Proof.
  intros HF Hmin Htot. pose proof (fi_shape _ _ _ HF) as [[He _] Ho [Hm1 Hm2] Hb [Hf1 Hf2]]. destruct (fi_own _ _ _ HF) as (c & Hc & _).
  unfold ReadableByteStreamControllerFillPullIntoDescriptorFromQueue. rewrite gets_bind. unfold id. unfold IsDetachedBuffer. rewrite (content_private _ _ _ Hc).
  rewrite assert_bind by done. rewrite assert_bind by by apply bool_decide_true.
  set (most := min (bd_total d) (pd_length p - pd_filled p)). set (aligned := pd_filled p + most - (pd_filled p + most) mod pd_elem p).
  assert (Hmod : (pd_filled p + most) mod pd_elem p <= pd_filled p + most) by (apply Nat.Div0.mod_le).
  assert (Hal : aligned mod pd_elem p = 0).
  { unfold aligned. pose proof (Nat.div_mod_eq (pd_filled p + most) (pd_elem p)) as E. replace (pd_filled p + most - (pd_filled p + most) mod pd_elem p) with (((pd_filled p + most) / pd_elem p) * pd_elem p) by lia. apply Nat.Div0.mod_mul. }
  set (n := if bool_decide (pd_minimum p <= aligned) then aligned - pd_filled p else most).
  assert (Hn : n <= most) by (unfold n; case_bool_decide; lia).
  destruct (fill_loop_spec (S (length (bd_queue d))) n xs d p HF ltac:(lia) ltac:(lia) ltac:(right; lia)) as (p' & d' & E & HFd).
  pose proof (fd_desc _ _ _ _ _ _ HFd) as Ep. assert (Efill : pd_filled p' = pd_filled p + n) by by rewrite Ep. assert (Eel : pd_elem p' = pd_elem p) by by rewrite Ep. assert (Emin : pd_minimum p' = pd_minimum p) by by rewrite Ep.
  change (pd_filled p + min (bd_total d) (pd_length p - pd_filled p)) with (pd_filled p + most). change (pd_filled p + most - (pd_filled p + most) mod pd_elem p) with aligned. fold n.
  change (if bool_decide (pd_minimum p <= aligned) then aligned - pd_filled p else min (bd_total d) (pd_length p - pd_filled p)) with n.
  rewrite (bind_ok _ _ _ _ _ E). rewrite gets_bind. unfold id. pose proof (fd_total _ _ _ _ _ _ HFd) as Ht. unfold n in *. case_bool_decide as Er.
  - exists (aligned - pd_filled p), p', d', true. split; [done|]. split; [done|]. rewrite Efill, Eel. split; [lia|]. split; [lia|]. by replace (pd_filled p + (aligned - pd_filled p)) with aligned by lia.
  - assert (Hall : most = bd_total d).
    { destruct (Nat.le_gt_cases (bd_total d) (pd_length p - pd_filled p)) as [?|Hgt]; [lia|exfalso]. assert (Emost : pd_filled p + most = pd_length p) by lia.
      unfold aligned in Er. rewrite Emost in Er. pose proof (Nat.div_mod_eq (pd_length p) (pd_elem p)) as E1. pose proof (Nat.div_mod_eq (pd_minimum p) (pd_elem p)) as E2.
      pose proof (Nat.Div0.div_le_mono (pd_minimum p) (pd_length p) (pd_elem p) Hm2) as E3. nia. }
    assert (Hlt : pd_filled p + most < pd_minimum p).
    { destruct (Nat.le_gt_cases (pd_minimum p) (pd_filled p + most)) as [Hge|?]; [exfalso|done]. pose proof (Nat.div_mod_eq (pd_filled p + most) (pd_elem p)) as E1. pose proof (Nat.div_mod_eq (pd_minimum p) (pd_elem p)) as E2.
      pose proof (Nat.Div0.div_le_mono (pd_minimum p) (pd_filled p + most) (pd_elem p) Hge) as E3. unfold aligned in Er. nia. }
    exists most, p', d', false. cbn [negb when]. rewrite bind_assoc. rewrite assert_bind by (apply bool_decide_true; lia). rewrite bind_assoc.
    rewrite assert_bind by (apply bool_decide_true; lia). rewrite assert_bind by (apply bool_decide_true; lia). split; [done|]. split; [done|]. split; [lia|]. rewrite Efill. lia.
Qed.

(** The view of a filled descriptor. *)
Definition filled_view (p : desc) : view := View (pd_ctor p) (pd_buffer p) (pd_offset p) (pd_filled p).
Lemma convert_spec d p : shape p -> own_desc (bd_buffers d) p -> pd_filled p mod pd_elem p = 0 ->
  ReadableByteStreamControllerConvertPullIntoDescriptor p d = (Ok (filled_view p), d).
Proof.
  intros [[H1 H1'] H2 H3 H4 [H5 H6]] (c & Hc & Hl & _) Hm. unfold ReadableByteStreamControllerConvertPullIntoDescriptor. rewrite !assert_bind by by apply bool_decide_true.
  unfold new_view. rewrite gets_bind. unfold id. rewrite (content_private _ _ _ Hc). rewrite <- H1'. by rewrite !bool_decide_true by (lia || done).
Qed.
Lemma filled_bytes d p : own_desc (bd_buffers d) p -> region d (pd_buffer p) (pd_offset p) (pd_filled p) = pd_given p.
Proof. intros (c & Hc & _ & Hs). unfold region. by rewrite (content_private _ _ _ Hc). Qed.

Lemma shift_spec p ps d : bd_request d = None -> bd_pending d = p :: ps -> ReadableByteStreamControllerShiftPendingPullInto d = (Ok p, set_pending ps d).
Proof. intros Hr E. unfold ReadableByteStreamControllerShiftPendingPullInto. rewrite gets_bind. unfold id. rewrite assert_bind by by apply bool_decide_true. by rewrite E. Qed.

(** The head leaves the pending ones, its buffer is under way. *)
Lemma shifted_data xs d p ps : Data xs d -> bd_request d = None -> bd_pending d = p :: ps -> Data (pd_buffer p :: xs) (set_pending ps d).
Proof.
  intros H Hr E. pose proof (head_apart _ _ _ _ H E) as Hap. destruct (data_rest _ _ _ _ H E) as [R1 R2 R3 R4 R5 R6 R7]. destruct H as [H1 H2 H3 H4 H5 H6 H7 H8].
  unfold head_ok in H5. rewrite E, Hr in H5. split; try done; cbn.
  - apply NoDup_cons. unfold owned. cbn. done.
  - constructor; [|done]. destruct H5 as (c & Hc & _). by exists c.
  - unfold head_ok. cbn. rewrite Hr. destruct ps as [|p2 ps]; [done|]. inversion R6 as [|? ? [Ho _] _]. done.
  - by destruct ps; [|inversion R6].
Qed.

(** The descriptors that are ready leave in order, with what the queue has
    for them. *)
Definition waiting_desc (p : desc) : Prop := pd_type p <> ForNone /\ pd_filled p < pd_minimum p.
Definition ready_desc (bufs : list abuf) (p : desc) : Prop := shape p /\ own_desc bufs p /\ pd_filled p mod pd_elem p = 0.

Record Processed (xs : list nat) (d : bdata) (ps : list desc) (d' : bdata) : Prop := {
  pr_data : Data ((pd_buffer <$> ps) ++ xs) d';
  pr_request : bd_request d' = None;
  pr_ready : Forall (ready_desc (bd_buffers d')) ps;
  pr_waiting : Forall waiting_desc (bd_pending d');
  pr_drained : bd_pending d' = [] \/ bd_queue d' = [];
  pr_bytes : given_bytes ps ++ given_bytes (bd_pending d') ++ queue_bytes d' = given_bytes (bd_pending d) ++ queue_bytes d;
  pr_types : (pd_type <$> ps) ++ (pd_type <$> bd_pending d') = pd_type <$> bd_pending d;
  pr_pure : forall p, p ∈ bd_pending d' -> exists p0, p0 ∈ bd_pending d /\ pd_elem p = pd_elem p0 /\ pd_minimum p = pd_minimum p0;
  pr_frame : forall b c, b ∈ xs -> private (bd_buffers d) b c -> private (bd_buffers d') b c }.

Lemma processed_none xs d : Data xs d -> bd_request d = None -> Forall waiting_desc (bd_pending d) -> bd_pending d = [] \/ bd_queue d = [] -> Processed xs d [] d.
Proof. intros H Hr Hw Hd. split; try done. intros p Hp. by exists p. Qed.

Lemma tail_given ps : Forall shape ps -> Forall (fun p => pd_filled p = 0) ps -> given_bytes ps = [].
Proof.
  induction 1 as [|p ps [_ _ _ _ [_ Hg]] _ IH]; intros Hf; [done|]. inversion Hf as [|? ? Hp Hps]; subst. unfold given_bytes. rewrite fmap_cons. cbn [concat]. rewrite Hp in Hg.
  apply nil_length_inv in Hg. rewrite Hg. by apply IH.
Qed.

Lemma process_spec fuel : forall xs d, Data xs d -> bd_request d = None -> Forall waiting_desc (bd_pending d) -> length (bd_pending d) <= fuel ->
  exists ps d', process_loop fuel d = (Ok ps, d') /\ Processed xs d ps d'.
Proof.
  induction fuel as [|fuel IH]; intros xs d H Hr Hw Hfuel; cbn [process_loop]; rewrite gets_bind; unfold id; destruct (bd_pending d) as [|p ps] eqn:E.
  1, 3: exists [], d; split; [done|]; apply processed_none; rewrite ?E; auto.
  { cbn in Hfuel. lia. }
  case_bool_decide as Et.
  { exists [], d. split; [done|]. apply processed_none; rewrite ?E; try done. right. by eapply total_zero. }
  inversion Hw as [|? ? [Hnt Hfm] Hws]; subst. rewrite assert_bind by by rewrite bool_decide_false.
  pose proof (fillable_head _ _ _ _ H E Hr) as HF. destruct (fill_spec xs d p HF Hfm ltac:(lia)) as (n & p' & d1 & ready & Ef & [F1 F2 F3 F4 F5 F6 F7] & Hn & Hres).
  rewrite (bind_ok _ _ _ _ _ Ef). cbn [fst snd]. rewrite E in F4. pose proof (fi_data _ _ _ F1) as H1. pose proof (fi_request _ _ _ F1) as Hr1.
  assert (Hty : pd_type p' = pd_type p /\ pd_elem p' = pd_elem p /\ pd_minimum p' = pd_minimum p) by by rewrite F2. destruct Hty as (Hty & Hel & Hmi).
  assert (Hbytes : pd_given p' ++ queue_bytes d1 = pd_given p ++ queue_bytes d).
  { rewrite F3, F2. cbn. rewrite <- app_assoc. by rewrite take_drop. }
  destruct (data_rest _ _ _ _ H E) as [_ _ _ _ R5 R6 _]. assert (Hg : given_bytes ps = []).
  { apply tail_given; [done|]. eapply Forall_impl; [exact R6|]. by intros ? [_ ?]. }
  assert (Hxs : forall b, b ∈ xs -> b <> pd_buffer p) by (intros b Hb ->; pose proof (head_apart _ _ _ _ H E) as Hap; set_solver).
  destruct ready.
  - rewrite (bind_ok _ _ _ _ _ (shift_spec _ _ _ Hr1 F4)). pose proof (shifted_data _ _ _ _ H1 Hr1 F4) as H2.
    destruct (IH (pd_buffer p' :: xs) (set_pending ps d1) H2 Hr1 Hws ltac:(cbn in *; lia)) as (qs & d' & Eq & [P1 P2 P3 P4 P5 P6 P7 P8 P9]).
    rewrite (bind_ok _ _ _ _ _ Eq). exists (p' :: qs), d'. split; [done|]. destruct (fi_own _ _ _ F1) as (c & Hc & Hk).
    split; try done.
    + eapply data_swap; [|exact P1]. rewrite fmap_cons. symmetry. apply Permutation_middle.
    + constructor; [|done]. split; [apply (fi_shape _ _ _ F1)|]. split; [|apply Hres]. exists c. split; [|done]. apply P9; [left|done].
    + unfold given_bytes at 1. rewrite fmap_cons. cbn [concat]. fold (given_bytes qs). rewrite <- app_assoc, P6. cbn [bd_pending set_pending]. change (queue_bytes (set_pending ps d1)) with (queue_bytes d1).
      rewrite Hg, E. cbn [app]. unfold given_bytes. rewrite fmap_cons. cbn [concat]. fold (given_bytes ps). by rewrite Hg, app_nil_r, Hbytes.
    + rewrite E, !fmap_cons. cbn [app]. rewrite P7. cbn. by rewrite Hty.
    + intros q Hq. destruct (P8 q Hq) as (p0 & Hp0 & He). exists p0. split; [|done]. rewrite E. by right.
    + intros b c2 Hb Hc2. apply P9; [by right|]. unfold private in *. cbn. rewrite F7; [done|by apply Hxs].
  - destruct Hres as [Hlt ->]. assert (Et1 : bd_total d1 = 0) by lia.
    assert (Ep : process_loop fuel d1 = (Ok [], d1)).
    { destruct fuel; cbn [process_loop]; rewrite gets_bind; unfold id; rewrite F4; by rewrite bool_decide_true. }
    exists [], d1. split; [done|]. split; try done.
    + rewrite F4. constructor; [|done]. split; [by rewrite Hty|by rewrite Hmi].
    + right. by eapply total_zero.
    + rewrite F4, E. unfold given_bytes. rewrite !fmap_cons. cbn [concat app fmap list_fmap]. fold (given_bytes ps). rewrite Hg, !app_nil_r. exact Hbytes.
    + rewrite F4, E. cbn. by rewrite Hty.
    + rewrite F4, E. intros q Hq. apply elem_of_cons in Hq as [->|Hq]; [exists p; split; [left|done]|exists q; split; [by right|done]].
    + intros b c2 Hb Hc2. unfold private in *. rewrite F7; [done|by apply Hxs].
Qed.

(* ------------------------------------------------------------------ *)
(** ** The head renewed, filled by the source, or let go *)

Definition invalidated (d : bdata) : bdata :=
  match bd_request d with None => d | Some q => set_request None (set_requests (<[q := invalid_request]> (bd_requests d)) d) end.
Lemma invalidate_eq d : ReadableByteStreamControllerInvalidateBYOBRequest d = (Ok tt, invalidated d).
Proof. unfold ReadableByteStreamControllerInvalidateBYOBRequest, invalidated. rewrite gets_bind. by destruct (bd_request d). Qed.

Lemma invalidated_same d : bd_buffers (invalidated d) = bd_buffers d /\ bd_queue (invalidated d) = bd_queue d /\ bd_total (invalidated d) = bd_total d /\
  bd_pending (invalidated d) = bd_pending d /\ bd_request (invalidated d) = None.
Proof. unfold invalidated. by destruct (bd_request d) eqn:E. Qed.
Lemma invalidated_requests xs d q r : Data xs d -> bd_requests (invalidated d) !! q = Some r -> rq_controller r = false.
Proof.
  intros H Hq. pose proof (da_requests _ _ H) as Hr. unfold invalidated in Hq. destruct (bd_request d) as [q0|] eqn:E; cbn in Hq.
  - destruct (decide (q = q0)) as [->|Hne].
    + destruct (bd_requests d !! q0) eqn:Eq; [|rewrite list_insert_ge in Hq by (by apply lookup_ge_None_1); congruence].
      rewrite list_lookup_insert_eq in Hq by by eapply lookup_lt_Some. by injection Hq as <-.
    + rewrite list_lookup_insert_ne in Hq by done. destruct (rq_controller r) eqn:Ec; [|done]. specialize (Hr q r Hq Ec). congruence.
  - destruct (rq_controller r) eqn:Ec; [|done]. specialize (Hr q r Hq Ec). congruence.
Qed.

(** The head on a buffer transferred from [b], and the request let go. *)
Definition renewed (b : nat) (c : bytes) (p : desc) (d : bdata) : bdata := invalidated (update_head (with_buffer (fresh_id d) p) (moved b c false d)).

Record Renewed (xs : list nat) (d : bdata) (p : desc) (ps : list desc) (d' : bdata) : Prop := {
  rn_data : Data xs d';
  rn_bytes : queue_bytes d' = queue_bytes d;
  rn_pending : bd_pending d' = with_buffer (fresh_id d) p :: ps;
  rn_request : bd_request d' = None;
  rn_queue : bd_queue d' = bd_queue d /\ bd_total d' = bd_total d;
  rn_frame : forall b c, b ∈ others xs d ps -> private (bd_buffers d) b c -> private (bd_buffers d') b c }.

Lemma renewed_data xs d p ps b c : Data xs d -> bd_pending d = p :: ps -> content d b = Some c -> carries p c -> b ∉ others xs d ps ->
  Renewed xs d p ps (renewed b c p d).
Proof.
  intros H E Hc [Hl Hs] Hb. pose proof (data_rest _ _ _ _ H E) as HR. pose proof (invalidated_same (update_head (with_buffer (fresh_id d) p) (moved b c false d))) as (I1 & I2 & I3 & I4 & I5).
  fold (renewed b c p d) in *. assert (Eu : update_head (with_buffer (fresh_id d) p) (moved b c false d) = set_pending (with_buffer (fresh_id d) p :: ps) (moved b c false d)) by (unfold update_head, moved; cbn; by rewrite E).
  rewrite Eu in I1, I2, I3, I4. cbn in I1, I2, I3, I4.
  assert (Hfr : forall b' x, b' ∈ others xs d ps -> bd_buffers d !! b' = Some x -> bd_buffers (renewed b c p d) !! b' = Some x).
  { intros b' x Hb' Hx. rewrite I1. apply frame_app. rewrite list_lookup_insert_ne; [done|]. by intros ->. }
  assert (Hshape : shape p) by (pose proof (da_shape _ _ H) as Hsh; rewrite E in Hsh; by inversion Hsh).
  destruct (rest_data xs d p ps (with_buffer (fresh_id d) p) (renewed b c p d) HR) as [HD HQ]; try done.
  - by destruct Hshape.
  - exists c. split; [|done]. cbn. unfold private. rewrite I1. unfold fresh_id. apply list_lookup_middle. by rewrite length_insert.
  - intros Hin. apply (owned_fresh _ _ H). cbn in Hin. unfold owned. rewrite E, fmap_cons. unfold others in Hin. set_solver.
  - intros q r Hq. assert (Hq' : bd_requests (invalidated d) !! q = Some r).
    { unfold renewed in Hq. rewrite Eu in Hq. unfold invalidated in *. cbn in Hq. by destruct (bd_request d). }
    by eapply invalidated_requests.
  - split; try done. intros b' c' Hb' Hp. by apply Hfr.
Qed.

(** The head takes [n] bytes that are in its buffer. *)
Lemma fill_head_spec xs d p ps n : Data xs d -> bd_pending d = p :: ps -> bd_request d = None -> pd_filled p + n <= pd_length p ->
  let p' := refilled n (region d (pd_buffer p) (pd_offset p + pd_filled p) n) p in
  ReadableByteStreamControllerFillHeadPullIntoDescriptor n p d = (Ok p', set_pending (p' :: ps) d) /\ Data xs (set_pending (p' :: ps) d).
Proof.
  intros H E Hr Hn p'. unfold ReadableByteStreamControllerFillHeadPullIntoDescriptor. rewrite gets_bind. unfold id. rewrite E. rewrite assert_bind by by apply bool_decide_true.
  rewrite assert_bind by by apply bool_decide_true. rewrite modify_bind. unfold mret, sm_ret. unfold update_head. rewrite E. split; [done|].
  pose proof H as [H1 H2 H3 H4 H5 H6 H7 H8]. rewrite E in H4, H6. inversion H4 as [|? ? Hsh Hps]; subst. unfold head_ok in H5. rewrite E, Hr in H5. destruct H5 as (c & Hc & Hl & Hs).
  pose proof Hsh as [S1 S2 S3 S4 [S5 S6]]. assert (Hreg : region d (pd_buffer p) (pd_offset p + pd_filled p) n = slice (pd_offset p + pd_filled p) n c) by (unfold region; by rewrite (content_private _ _ _ Hc)).
  split; try done; cbn.
  - unfold owned in *. rewrite E in H1. done.
  - constructor; [|done]. apply shape_refilled; [done|done|]. rewrite Hreg. apply slice_length. lia.
  - unfold head_ok. cbn. rewrite Hr. exists c. split; [done|]. split; [done|]. unfold p', refilled. cbn [pd_offset pd_filled pd_given with_filled]. rewrite <- slice_app, Hs. by rewrite Hreg.
Qed.

(** The head leaves with fewer bytes than it has: the rest goes behind
    the queue in a buffer of its own. *)
Definition queued (b off n : nat) (d : bdata) : bdata := set_total (bd_total d + n) (set_queue (bd_queue d ++ [Entry b off n]) d).
Lemma enqueue_eq b off n d : ReadableByteStreamControllerEnqueueChunkToQueue b off n d = (Ok tt, queued b off n d).
Proof. done. Qed.

Lemma lengths_app q1 q2 : lengths (q1 ++ q2) = lengths q1 + lengths q2.
Proof. induction q1 as [|e q IH]; [done|]. cbn. fold (lengths q) (lengths (q ++ q2)). lia. Qed.

Lemma queued_data xs d b off n c : Data (b :: xs) d -> private (bd_buffers d) b c -> 0 < n -> off + n <= length c ->
  Data xs (queued b off n d) /\ queue_bytes (queued b off n d) = queue_bytes d ++ slice off n c.
Proof.
  intros H Hc Hn Hl. pose proof H as [H1 H2 H3 H4 H5 H6 H7 H8]. split.
  - inversion H2; subst. split; try done; cbn.
    + unfold owned in *. cbn. rewrite fmap_app. cbn. cbn in H1. assert (E : xs ++ ((en_buffer <$> bd_queue d) ++ [b]) ++ (pd_buffer <$> bd_pending d) ≡ₚ b :: xs ++ (en_buffer <$> bd_queue d) ++ (pd_buffer <$> bd_pending d)).
      { rewrite <- (app_assoc _ [b]). rewrite app_assoc. cbn [app]. symmetry. rewrite app_assoc. apply Permutation_middle. }
      by rewrite E.
    + apply Forall_app. split; [done|]. constructor; [|done]. split; [done|]. by exists c.
    + rewrite H7, lengths_app. cbn. lia.
  - unfold queue_bytes, queued. cbn. rewrite fmap_app, concat_app. f_equal. cbn. rewrite app_nil_r. unfold entry_bytes. unfold private in Hc. cbn. by rewrite Hc.
Qed.

(** A copy of a part of a buffer, made to be queued. *)
Lemma slice_spec d b c off n : content d b = Some c -> ArrayBufferSlice b off (off + n) d = (Ok (fresh_id d), added (slice off n c) false d).
Proof. intros Hc. unfold ArrayBufferSlice. rewrite gets_bind. unfold id. rewrite Hc. unfold new_buffer, added, fresh_id. by replace (off + n - off) with n by lia. Qed.

Lemma cloned_data xs d b c off n : Data xs d -> content d b = Some c -> 0 < n -> off + n <= length c ->
  let d' := queued (fresh_id d) 0 n (added (slice off n c) false d) in
  Data xs d' /\ queue_bytes d' = queue_bytes d ++ slice off n c.
Proof.
  intros H Hc Hn Hl d'. destruct (added_data xs d (slice off n c) false H) as [HA HQ].
  assert (Hp : private (bd_buffers (added (slice off n c) false d)) (fresh_id d) (slice off n c)) by apply added_private.
  assert (Hw : Data (fresh_id d :: xs) (added (slice off n c) false d)) by (eapply data_way; [done|exact Hp|apply (owned_fresh _ _ H)]).
  destruct (queued_data xs _ (fresh_id d) 0 n (slice off n c) Hw Hp Hn) as [HD HB]; [rewrite slice_length; lia|].
  split; [done|]. unfold d'. rewrite HB, HQ. f_equal. unfold slice. rewrite drop_0, take_take. f_equal. lia.
Qed.

(** Nothing pending any more, nothing queued. *)
Lemma cleared_data xs d : Data xs d -> Data xs (set_pending [] (invalidated d)).
Proof.
  intros H. pose proof (invalidated_same d) as (I1 & I2 & I3 & I4 & I5).
  pose proof H as [H1 H2 H3 H4 H5 H6 H7 H8]. split; cbn; rewrite ?I1, ?I2, ?I3; try done.
  - unfold owned in *. cbn. rewrite ?I2, app_nil_r. rewrite app_assoc in H1. by apply NoDup_app in H1 as [? _].
  - unfold head_ok. cbn. by rewrite I5.
  - intros q r Hq Hc. rewrite (invalidated_requests _ _ _ _ H Hq) in Hc. done.
Qed.
Lemma reset_data xs d : Data xs d -> Data xs (set_total 0 (set_queue [] d)).
Proof.
  intros [H1 H2 H3 H4 H5 H6 H7 H8]. split; try done. unfold owned in *. cbn. apply NoDup_app in H1 as (Ha & Hb & Hc). apply NoDup_app in Hc as (_ & _ & Hc).
  apply NoDup_app. split_and!; [done| |done]. intros x Hx Hin. apply (Hb x Hx). apply elem_of_app. by right.
Qed.

(** A reader let go. *)
Lemma released_data xs d p ps : Data xs d -> bd_pending d = p :: ps -> Data xs (set_pending [with_type ForNone p] d).
Proof.
  intros [H1 H2 H3 H4 H5 H6 H7 H8] E. unfold owned in H1. rewrite E in H1, H4, H6. inversion H4 as [|? ? Hsh Hps]; subst. unfold head_ok in H5. rewrite E in H5.
  split; try done; cbn.
  - unfold owned. cbn. rewrite fmap_cons in H1. rewrite app_assoc in *. eapply sublist_NoDup; [exact H1|]. apply sublist_app; [done|]. apply sublist_skip. apply sublist_nil_l.
  - constructor; [by destruct Hsh|done].
Qed.

(* ------------------------------------------------------------------ *)
(** ** What the program does to buffers *)

Lemma program_data xs d bufs : Data xs d -> (forall b c, private (bd_buffers d) b c -> private bufs b c) ->
  (forall p ps, bd_pending d = p :: ps -> bd_request d <> None -> seen_desc bufs p) ->
  Data xs (set_buffers bufs d) /\ queue_bytes (set_buffers bufs d) = queue_bytes d.
Proof.
  intros [H1 H2 H3 H4 H5 H6 H7 H8] Hp Hs. split.
  - split; try done; cbn.
    + eapply Forall_impl; [exact H2|]. intros b [c Hc]. exists c. by apply Hp.
    + eapply Forall_impl; [exact H3|]. intros e (Hl & c & Hc & Hle). split; [done|]. exists c. split; [by apply Hp|done].
    + unfold head_ok in *. cbn. destruct (bd_pending d) as [|p ps]; [done|]. destruct (bd_request d) eqn:Er.
      * split; [by apply (Hs p ps)|apply H5].
      * destruct H5 as (c & Hc & Hk). exists c. split; [by apply Hp|done].
    + eapply Forall_impl; [exact H6|]. intros p [(c & Hc & Hk) Hf]. split; [|done]. exists c. split; [by apply Hp|done].
  - unfold queue_bytes. f_equal. cbn. apply list_fmap_ext. intros i e He. apply list_elem_of_lookup_2 in He. rewrite Forall_forall in H3. destruct (H3 e He) as (_ & c & Hc & _).
    unfold entry_bytes. pose proof (Hp _ _ Hc) as Hc'. unfold private in *. by rewrite Hc, Hc'.
Qed.

Lemma insert_private b x bufs b' c : (match bufs !! b with Some y => ab_shared y = true | None => False end) -> private bufs b' c -> private (<[b := x]> bufs) b' c.
Proof. intros Hb Hp. unfold private in *. rewrite list_lookup_insert_ne; [done|]. intros ->. by rewrite Hp in Hb. Qed.
Lemma shared_lookup d b : shared d b = true -> exists x, bd_buffers d !! b = Some x /\ ab_shared x = true.
Proof. unfold shared. destruct (bd_buffers d !! b) as [x|]; [|done]. intros H. by exists x. Qed.

(** Writing behind what is filled in. *)
Lemma write_data xs d b off c : Data xs d -> shared d b = true -> off + length c <= bufferByteLength d b ->
  (forall p ps, bd_pending d = p :: ps -> pd_buffer p = b -> pd_offset p + pd_filled p <= off) ->
  let d' := put_data b (write_at off c <$> content d b) d in Data xs d' /\ queue_bytes d' = queue_bytes d.
Proof.
  intros H Hs Hl Hb. cbv zeta. destruct (shared_lookup _ _ Hs) as (x & Hx & Hxs). apply program_data; [done| |].
  - intros b' c'. apply insert_private. by rewrite Hx.
  - intros p ps E Hr. pose proof (da_head _ _ H) as Hh. unfold head_ok in Hh. rewrite E in Hh. destruct (bd_request d); [|done]. destruct Hh as [(y & Hy & Hys & Hk) _].
    destruct (decide (b = pd_buffer p)) as [->|Hne].
    + exists (ABuf (write_at off c <$> content d (pd_buffer p)) (shared d (pd_buffer p))). split; [apply list_lookup_insert_eq; by eapply lookup_lt_Some|]. split; [done|]. cbn.
      intros c' Hc'. unfold bufferByteLength in Hl. unfold content in *. rewrite Hy in Hc', Hl. cbn in Hc', Hl. destruct (ab_data y) as [c0|] eqn:Ey; [|done]. injection Hc' as <-. destruct (Hk c0 eq_refl) as [K1 K2].
      split; [by rewrite write_length|]. rewrite slice_write_before; [done| |done]. by eapply Hb.
    + exists y. split; [|done]. by rewrite list_lookup_insert_ne.
Qed.

(** Detaching a buffer. *)
Lemma detach_data xs d b c program : Data xs d -> shared d b = true ->
  Data xs (moved b c program d) /\ queue_bytes (moved b c program d) = queue_bytes d.
Proof.
  intros H Hs. destruct (shared_lookup _ _ Hs) as (x & Hx & Hxs). apply program_data; [done| |].
  - intros b' c' Hp. apply frame_app. apply (insert_private b _ _ b' c'); [by rewrite Hx|done].
  - intros p ps E Hr. pose proof (da_head _ _ H) as Hh. unfold head_ok in Hh. rewrite E in Hh. destruct (bd_request d); [|done]. destruct Hh as [(y & Hy & Hys & Hk) _].
    destruct (decide (b = pd_buffer p)) as [->|Hne].
    + exists (ABuf None (shared d (pd_buffer p))). split; [|done]. apply frame_app. apply list_lookup_insert_eq. by eapply lookup_lt_Some.
    + exists y. split; [|done]. apply frame_app. by rewrite list_lookup_insert_ne.
Qed.

(** The BYOB request is made for the head, which the program then sees. *)
Lemma get_request_spec xs d : Data xs d -> exists r d', ReadableByteStreamControllerGetBYOBRequest d = (Ok r, d') /\ Data xs d' /\
  queue_bytes d' = queue_bytes d /\ bd_queue d' = bd_queue d /\ bd_total d' = bd_total d /\ bd_pending d' = bd_pending d.
Proof.
  intros H. unfold ReadableByteStreamControllerGetBYOBRequest. rewrite gets_bind. unfold id. pose proof H as [H1 H2 H3 H4 H5 H6 H7 H8].
  destruct (bd_request d) as [q|] eqn:Er; [by exists (Some q), d|]. destruct (bd_pending d) as [|p ps] eqn:E; [by exists None, d|].
  unfold head_ok in H5. rewrite E, Er in H5. destruct H5 as (c & Hc & Hl & Hs). inversion H4 as [|? ? [S1 S2 S3 S4 [S5 S6]] Hps]; subst.
  unfold new_view. rewrite bind_assoc, gets_bind. unfold id. rewrite (content_private _ _ _ Hc). cbn [arrayBufferViewElementSize]. rewrite Nat.mod_1_r, !bool_decide_true by lia. cbn [andb]. rewrite ret_bind.
  rewrite assert_bind by (cbn; unfold IsDetachedBuffer; by rewrite (content_private _ _ _ Hc)). rewrite modify_bind, modify_bind, modify_bind.
  eexists _, _. split; [done|]. set (d1 := set_request (Some (length (bd_requests d))) (set_requests (bd_requests d ++ [Request true (Some (head_view p))]) d)).
  change (set_request _ _) with d1. assert (Hap := head_apart _ _ _ _ H E). unfold share. change (content d1 (pd_buffer p)) with (content d (pd_buffer p)). rewrite (content_private _ _ _ Hc).
  assert (Hb : forall b x, b ∈ others xs d ps -> bd_buffers d !! b = Some x -> <[pd_buffer p := ABuf (Some c) true]> (bd_buffers d) !! b = Some x).
  { intros b x Hin Hx. rewrite list_lookup_insert_ne; [done|]. intros E2. apply Hap. rewrite E2. exact Hin. }
  split_and!; try done.
  - split; try done; cbn.
    + apply Forall_forall. intros b Hin. rewrite Forall_forall in H2. destruct (H2 b Hin) as [c2 Hc2]. exists c2. apply Hb; [unfold others; set_solver|done].
    + apply Forall_forall. intros e He. rewrite Forall_forall in H3. destruct (H3 e He) as (Hle & c2 & Hc2 & Hl2). split; [done|]. exists c2. split; [|done]. apply Hb; [|done].
      unfold others. rewrite !elem_of_app. right; left. by apply list_elem_of_fmap_2.
    + by rewrite E.
    + unfold head_ok. cbn. rewrite E. split; [|by apply list_lookup_middle]. exists (ABuf (Some c) true). split; [apply list_lookup_insert_eq; by eapply private_lt|]. split; [done|]. by intros c2 [= <-].
    + rewrite E in *. cbn. apply Forall_forall. intros y Hy. cbn in H6. rewrite Forall_forall in H6. destruct (H6 y Hy) as [(c2 & Hc2 & Hk) Hf]. split; [|done]. exists c2. split; [|done].
      apply Hb; [|done]. unfold others. rewrite !elem_of_app. right; right. by apply list_elem_of_fmap_2.
    + intros q r Hq Hcq. destruct (decide (q < length (bd_requests d))) as [Hlt|Hge].
      * rewrite lookup_app_l in Hq by done. pose proof (H8 q r Hq Hcq). congruence.
      * rewrite lookup_app_r in Hq by lia. destruct (q - length (bd_requests d)) eqn:Eq; [f_equal; lia|done].
  - unfold queue_bytes. cbn. f_equal. apply list_fmap_ext. intros i e He. apply list_elem_of_lookup_2 in He. apply entry_bytes_same.
    rewrite list_lookup_insert_ne; [done|]. intros E2. apply Hap. rewrite E2. rewrite !elem_of_app. right; left. by apply list_elem_of_fmap_2.
Qed.

(** A view handed to the program. *)
Lemma share_data xs d b : Data (b :: xs) d -> Data xs (share b d) /\ queue_bytes (share b d) = queue_bytes d.
Proof.
  intros H. pose proof (da_nodup _ _ H) as Hn. cbn in Hn. apply NoDup_cons in Hn as [Hn _]. apply data_forget in H. apply data_frame; [done|].
  intros b' x Hb' Hx. rewrite list_lookup_insert_ne; [done|]. by intros ->.
Qed.

(** A descriptor pushed. *)
Lemma push_data xs d p : Data (pd_buffer p :: xs) d -> shape p -> own_desc (bd_buffers d) p -> bd_request d = None \/ bd_pending d <> [] -> pd_filled p = 0 \/ bd_pending d = [] ->
  Data xs (set_pending (bd_pending d ++ [p]) d).
Proof.
  intros H Hsh Hown Hr Hf. pose proof (da_head _ _ H) as Hh. unfold head_ok in Hh. pose proof H as [H1 H2 H3 H4 H5 H6 H7 H8]. inversion H2; subst. split; try done; cbn.
  - unfold owned in *. cbn. rewrite fmap_app. cbn. cbn in H1. assert (E : xs ++ (en_buffer <$> bd_queue d) ++ (pd_buffer <$> bd_pending d) ++ [pd_buffer p] ≡ₚ pd_buffer p :: xs ++ (en_buffer <$> bd_queue d) ++ (pd_buffer <$> bd_pending d)).
    { rewrite !app_assoc. symmetry. apply Permutation_cons_append. }
    by rewrite E.
  - apply Forall_app. split; [done|]. by constructor.
  - unfold head_ok. cbn. destruct (bd_pending d) as [|p0 ps]; [|done]. cbn. destruct (bd_request d); [by destruct Hr|done].
  - destruct (bd_pending d) as [|p0 ps]; [by cbn|]. cbn in *. apply Forall_app. split; [done|]. constructor; [|done]. split; [done|]. by destruct Hf.
Qed.

(** The first chunk of the queue on its way to a read. *)
Definition dequeued (e : entry) (rest : list entry) (d : bdata) : bdata := set_total (bd_total d - en_length e) (set_queue rest d).
Lemma dequeued_data xs d e rest : Data xs d -> bd_queue d = e :: rest ->
  Data (en_buffer e :: xs) (dequeued e rest d) /\ queue_bytes d = region d (en_buffer e) (en_offset e) (en_length e) ++ queue_bytes (dequeued e rest d) /\
  exists c, private (bd_buffers d) (en_buffer e) c /\ en_offset e + en_length e <= length c.
Proof.
  intros [H1 H2 H3 H4 H5 H6 H7 H8] E. rewrite E in H3. inversion H3 as [|? ? (Hl & c & Hc & Hle) Hr]; subst. split_and!.
  - split; try done; cbn.
    + unfold owned in *. cbn. rewrite E, fmap_cons in H1. assert (Ep : xs ++ en_buffer e :: (en_buffer <$> rest) ++ (pd_buffer <$> bd_pending d) ≡ₚ en_buffer e :: xs ++ (en_buffer <$> rest) ++ (pd_buffer <$> bd_pending d)) by (symmetry; apply Permutation_middle).
      by rewrite Ep in H1.
    + constructor; [by exists c|done].
    + rewrite H7, E. cbn. fold (lengths rest). lia.
  - unfold queue_bytes. rewrite E. rewrite fmap_cons. cbn [concat]. done.
  - by exists c.
Qed.
