(* ===== verification/ByteStream.v ===== *)
(** * Readable byte streams of [lib/lws/streams.js]

    [ReadableStream] with its byte controller, BYOB readers and default
    readers as one state machine, on the bytes of [ByteData].  The source
    is outside, as for [ReadableStream]: its calls are recorded, its
    promises settle by events, and what [pull] does while it runs is a
    parameter.  A program reaches only buffers it has made, views it was
    given and the view of a BYOB request. *)

From S2P Require Import Prelude StreamBase ReadableStream ByteData.
Open Scope nat_scope.

(** A reader; [yr_requests] are its [readIntoRequests] or [readRequests]. *)
Record yreader := YReader { yr_byob : bool; yr_owner : bool; yr_closed : pid; yr_resolvers : bool; yr_requests : list nat }.

(** The promise of a read: a view with [done] and, as history, its bytes
    when it was handed over; [undefined] with [done]; an error. *)
Inductive yresult := YPending | YView (done : bool) (v : view) (data : bytes) | YDone | YError (e : reason).

(** What became of bytes the controller accepted: passed on to a
    descriptor, a read or the queue, or thrown away, with the number of
    reads that waited and of the bytes queued at that moment. *)
Inductive fate := PassedOn | ThrownAway (waiting queued : nat).

(** [ys_accepted] is history: the chunks and writes the controller has
    accepted, each with its fate. *)
Record bstream := BStream {
  ys_data : bdata; ys_state : rstate; ys_storedError : reason; ys_reader : option nat; ys_disturbed : bool;
  yc_started : bool; yc_closeRequested : bool; yc_pullAgain : bool; yc_pulling : bool; yc_algorithms : bool;
  ys_readers : list yreader; ys_promises : list settlement; ys_reads : list yresult;
  ys_accepted : list (bytes * fate); ys_calls : list source_call; ys_awaited : list rwait }.

Definition set_ys_data v s := BStream v (ys_state s) (ys_storedError s) (ys_reader s) (ys_disturbed s) (yc_started s) (yc_closeRequested s) (yc_pullAgain s) (yc_pulling s) (yc_algorithms s) (ys_readers s) (ys_promises s) (ys_reads s) (ys_accepted s) (ys_calls s) (ys_awaited s).
Definition set_ys_state v s := BStream (ys_data s) v (ys_storedError s) (ys_reader s) (ys_disturbed s) (yc_started s) (yc_closeRequested s) (yc_pullAgain s) (yc_pulling s) (yc_algorithms s) (ys_readers s) (ys_promises s) (ys_reads s) (ys_accepted s) (ys_calls s) (ys_awaited s).
Definition set_ys_storedError v s := BStream (ys_data s) (ys_state s) v (ys_reader s) (ys_disturbed s) (yc_started s) (yc_closeRequested s) (yc_pullAgain s) (yc_pulling s) (yc_algorithms s) (ys_readers s) (ys_promises s) (ys_reads s) (ys_accepted s) (ys_calls s) (ys_awaited s).
Definition set_ys_reader v s := BStream (ys_data s) (ys_state s) (ys_storedError s) v (ys_disturbed s) (yc_started s) (yc_closeRequested s) (yc_pullAgain s) (yc_pulling s) (yc_algorithms s) (ys_readers s) (ys_promises s) (ys_reads s) (ys_accepted s) (ys_calls s) (ys_awaited s).
Definition set_ys_disturbed v s := BStream (ys_data s) (ys_state s) (ys_storedError s) (ys_reader s) v (yc_started s) (yc_closeRequested s) (yc_pullAgain s) (yc_pulling s) (yc_algorithms s) (ys_readers s) (ys_promises s) (ys_reads s) (ys_accepted s) (ys_calls s) (ys_awaited s).
Definition set_yc_started v s := BStream (ys_data s) (ys_state s) (ys_storedError s) (ys_reader s) (ys_disturbed s) v (yc_closeRequested s) (yc_pullAgain s) (yc_pulling s) (yc_algorithms s) (ys_readers s) (ys_promises s) (ys_reads s) (ys_accepted s) (ys_calls s) (ys_awaited s).
Definition set_yc_closeRequested v s := BStream (ys_data s) (ys_state s) (ys_storedError s) (ys_reader s) (ys_disturbed s) (yc_started s) v (yc_pullAgain s) (yc_pulling s) (yc_algorithms s) (ys_readers s) (ys_promises s) (ys_reads s) (ys_accepted s) (ys_calls s) (ys_awaited s).
Definition set_yc_pullAgain v s := BStream (ys_data s) (ys_state s) (ys_storedError s) (ys_reader s) (ys_disturbed s) (yc_started s) (yc_closeRequested s) v (yc_pulling s) (yc_algorithms s) (ys_readers s) (ys_promises s) (ys_reads s) (ys_accepted s) (ys_calls s) (ys_awaited s).
Definition set_yc_pulling v s := BStream (ys_data s) (ys_state s) (ys_storedError s) (ys_reader s) (ys_disturbed s) (yc_started s) (yc_closeRequested s) (yc_pullAgain s) v (yc_algorithms s) (ys_readers s) (ys_promises s) (ys_reads s) (ys_accepted s) (ys_calls s) (ys_awaited s).
Definition set_yc_algorithms v s := BStream (ys_data s) (ys_state s) (ys_storedError s) (ys_reader s) (ys_disturbed s) (yc_started s) (yc_closeRequested s) (yc_pullAgain s) (yc_pulling s) v (ys_readers s) (ys_promises s) (ys_reads s) (ys_accepted s) (ys_calls s) (ys_awaited s).
Definition set_ys_readers v s := BStream (ys_data s) (ys_state s) (ys_storedError s) (ys_reader s) (ys_disturbed s) (yc_started s) (yc_closeRequested s) (yc_pullAgain s) (yc_pulling s) (yc_algorithms s) v (ys_promises s) (ys_reads s) (ys_accepted s) (ys_calls s) (ys_awaited s).
Definition set_ys_promises v s := BStream (ys_data s) (ys_state s) (ys_storedError s) (ys_reader s) (ys_disturbed s) (yc_started s) (yc_closeRequested s) (yc_pullAgain s) (yc_pulling s) (yc_algorithms s) (ys_readers s) v (ys_reads s) (ys_accepted s) (ys_calls s) (ys_awaited s).
Definition set_ys_reads v s := BStream (ys_data s) (ys_state s) (ys_storedError s) (ys_reader s) (ys_disturbed s) (yc_started s) (yc_closeRequested s) (yc_pullAgain s) (yc_pulling s) (yc_algorithms s) (ys_readers s) (ys_promises s) v (ys_accepted s) (ys_calls s) (ys_awaited s).
Definition set_ys_accepted v s := BStream (ys_data s) (ys_state s) (ys_storedError s) (ys_reader s) (ys_disturbed s) (yc_started s) (yc_closeRequested s) (yc_pullAgain s) (yc_pulling s) (yc_algorithms s) (ys_readers s) (ys_promises s) (ys_reads s) v (ys_calls s) (ys_awaited s).
Definition set_ys_calls v s := BStream (ys_data s) (ys_state s) (ys_storedError s) (ys_reader s) (ys_disturbed s) (yc_started s) (yc_closeRequested s) (yc_pullAgain s) (yc_pulling s) (yc_algorithms s) (ys_readers s) (ys_promises s) (ys_reads s) (ys_accepted s) v (ys_awaited s).
Definition set_ys_awaited v s := BStream (ys_data s) (ys_state s) (ys_storedError s) (ys_reader s) (ys_disturbed s) (yc_started s) (yc_closeRequested s) (yc_pullAgain s) (yc_pulling s) (yc_algorithms s) (ys_readers s) (ys_promises s) (ys_reads s) (ys_accepted s) (ys_calls s) v.

Abbreviation YM A := (SM bstream A).

(** What the source, or the program at large, does. *)
Inductive src_op :=
| SrcEnqueue (v : view) | SrcClose | SrcError (e : reason) | SrcGetRequest
| SrcRespond (q : nat) (bytesWritten : jsnum) | SrcRespondView (q : nat) (v : view)
| SrcAlloc (c : bytes) | SrcWrite (b off : nat) (c : bytes) | SrcTransfer (b : nat).

(** Code on the bytes, as code on the stream. *)
Definition on_data {A} (m : BM A) : YM A := fun s => let '(r, d) := m (ys_data s) in (r, set_ys_data d s).

Section Stream.
Variables (strategyHWM : jsnum) (autoAllocateChunkSize : option nat) (pullOps : nat -> bstream -> list src_op).

(* ------------------------------------------------------------------ *)
(** ** Promises and readers *)

Definition new_promise (v : settlement) : YM pid := fun s => (Ok (length (ys_promises s)), set_ys_promises (ys_promises s ++ [v]) s).
Definition settle_promise (p : pid) (v : settlement) : YM unit := modify (fun s => set_ys_promises (settle p v (ys_promises s)) s).

Definition new_read : YM nat := fun s => (Ok (length (ys_reads s)), set_ys_reads (ys_reads s ++ [YPending]) s).
Definition settle_read (v : yresult) (i : nat) : YM unit := modify (fun s => set_ys_reads (<[i := v]> (ys_reads s)) s).

(** [_chunkSteps] with a view, or [_closeSteps] with one: the program
    gets the view. *)
Definition deliver (done : bool) (v : view) (i : nat) : YM unit :=
  d ← gets ys_data;
  settle_read (YView done v (region d (vw_buffer v) (vw_offset v) (vw_length v))) i ;;
  on_data (modify (share (vw_buffer v))).

Definition the_reader (r : nat) : YM yreader := fun s =>
  match ys_readers s !! r with Some x => (Ok x, s) | None => (Throw ErrTypeError "not a reader", s) end.
Definition set_reader (r : nat) (x : yreader) : YM unit := modify (fun s => set_ys_readers (<[r := x]> (ys_readers s)) s).

Definition with_requests (l : list nat) (x : yreader) : yreader := YReader (yr_byob x) (yr_owner x) (yr_closed x) (yr_resolvers x) l.
Definition with_closed (p : pid) (b : bool) (x : yreader) : yreader := YReader (yr_byob x) (yr_owner x) p b (yr_requests x).

Definition defaultReaderClosedPromiseInitialize (r : nat) : YM unit :=
  p ← new_promise Pending; x ← the_reader r; set_reader r (with_closed p true x).
Definition defaultReaderClosedPromiseReject (r : nat) (e : reason) : YM unit :=
  x ← the_reader r;
  if negb (yr_resolvers x) then mret tt else
  settle_promise (yr_closed x) (Rejected e) ;; set_reader r (with_closed (yr_closed x) false x).
Definition defaultReaderClosedPromiseResolve (r : nat) : YM unit :=
  x ← the_reader r;
  if negb (yr_resolvers x) then mret tt else
  settle_promise (yr_closed x) Fulfilled ;; set_reader r (with_closed (yr_closed x) false x).
Definition defaultReaderClosedPromiseInitializeAsRejected (r : nat) (e : reason) : YM unit :=
  defaultReaderClosedPromiseInitialize r ;; defaultReaderClosedPromiseReject r e.

(** The requests a reader is relieved of, each with the same step. *)
Definition settle_requests (v : yresult) (r : nat) : YM unit :=
  x ← the_reader r;
  set_reader r (with_requests [] x) ;;
  modify (fun s => set_ys_reads (foldl (fun t i => <[i := v]> t) (ys_reads s) (yr_requests x)) s).

Definition for_reader (f : nat -> YM unit) : YM unit := r ← gets ys_reader; match r with Some r => f r | None => mret tt end.

Definition current (s : bstream) : option yreader := r ← ys_reader s; ys_readers s !! r.
Definition requests (s : bstream) : list nat := match current s with Some x => yr_requests x | None => [] end.
Definition ReadableStreamHasDefaultReader (s : bstream) : bool := match current s with Some x => negb (yr_byob x) | None => false end.
Definition ReadableStreamHasBYOBReader (s : bstream) : bool := match current s with Some x => yr_byob x | None => false end.
Definition IsReadableStreamLocked (s : bstream) : bool := match ys_reader s with Some _ => true | None => false end.
Definition state_is (st : rstate) (s : bstream) : bool := bool_decide (ys_state s = st).

(* ------------------------------------------------------------------ *)
(** ** The stream *)

Definition ReadableStreamClose : YM unit :=
  s ← gets id;
  assert (state_is Readable s) ;;
  modify (set_ys_state Closed) ;;
  for_reader (fun r =>
    defaultReaderClosedPromiseResolve r ;;
    when (ReadableStreamHasDefaultReader s) (settle_requests YDone r)).

Definition ReadableStreamError (e : reason) : YM unit :=
  s ← gets id;
  assert (state_is Readable s) ;;
  modify (set_ys_state Errored) ;;
  modify (set_ys_storedError e) ;;
  for_reader (fun r => defaultReaderClosedPromiseReject r e ;; settle_requests (YError e) r).

Definition push_request (i : nat) : YM unit :=
  for_reader (fun r => x ← the_reader r; set_reader r (with_requests (yr_requests x ++ [i]) x)).
Definition ReadableStreamAddReadRequest (i : nat) : YM unit :=
  s ← gets id;
  assert (ReadableStreamHasDefaultReader s) ;; assert (state_is Readable s) ;; push_request i.
Definition ReadableStreamAddReadIntoRequest (i : nat) : YM unit :=
  s ← gets id;
  assert (ReadableStreamHasBYOBReader s) ;; assert (state_is Readable s || state_is Closed s) ;; push_request i.

(** The oldest request of the current reader. *)
Definition shift_request : YM nat :=
  s ← gets id;
  match ys_reader s, requests s with
  | Some r, i :: rest => x ← the_reader r; set_reader r (with_requests rest x) ;; mret i
  | _, _ => throw ErrAssertionError "Assertion failed"
  end.

Definition ReadableStreamFulfillReadRequest (chunk : view) (done : bool) : YM unit :=
  s ← gets id;
  assert (bool_decide (requests s <> [])) ;;
  i ← shift_request;
  if done then settle_read YDone i else deliver false chunk i.

(* ------------------------------------------------------------------ *)
(** ** The controller *)

Definition ReadableByteStreamControllerClearAlgorithms : YM unit := modify (set_yc_algorithms false).

Definition call_source (c : source_call) (k : rwait) : YM unit :=
  a ← gets yc_algorithms;
  if (a : bool) then modify (fun s => set_ys_awaited (ys_awaited s ++ [k]) (set_ys_calls (ys_calls s ++ [c]) s))
  else throw ErrTypeError not_a_function.

Definition ReadableByteStreamControllerError (e : reason) : YM unit :=
  s ← gets id;
  if negb (state_is Readable s) then mret tt else
  on_data ReadableByteStreamControllerClearPendingPullIntos ;;
  on_data ResetQueue ;; ReadableByteStreamControllerClearAlgorithms ;; ReadableStreamError e.

Definition queueTotalSize (s : bstream) : nat := bd_total (ys_data s).
Definition pendingPullIntos (s : bstream) : list desc := bd_pending (ys_data s).

(** [null] for [None]. *)
Definition ReadableByteStreamControllerGetDesiredSize (s : bstream) : option jsnum :=
  match ys_state s with
  | Errored => None
  | Closed => Some (Fin 0)
  | Readable => Some (num_sub strategyHWM (Z.of_nat (queueTotalSize s)))
  end.

Definition insufficient : string := "Insufficient bytes to fill elements in the given buffer".

Definition ReadableByteStreamControllerClose : YM unit :=
  s ← gets id;
  if yc_closeRequested s || negb (state_is Readable s) then mret tt else
  if bool_decide (0 < queueTotalSize s) then modify (set_yc_closeRequested true) else
  match pendingPullIntos s with
  | p :: _ =>
    if negb (bool_decide (pd_filled p mod pd_elem p = 0)) then
      ReadableByteStreamControllerError (ErrorObj ErrTypeError insufficient) ;; throw ErrTypeError insufficient
    else ReadableByteStreamControllerClearAlgorithms ;; ReadableStreamClose
  | [] => ReadableByteStreamControllerClearAlgorithms ;; ReadableStreamClose
  end.

Definition ReadableByteStreamControllerEnqueueClonedChunkToQueue (b off n : nat) : YM unit := fun s =>
  match on_data (ArrayBufferSlice b off (off + n)) s with
  | (Throw c e, s) => (ReadableByteStreamControllerError (ErrorObj c e) ;; throw c e) s
  | (Ok clonedChunk, s) => on_data (ReadableByteStreamControllerEnqueueChunkToQueue clonedChunk 0 n) s
  end.

Definition ReadableByteStreamControllerEnqueueDetachedPullIntoToQueue (p : desc) : YM unit :=
  assert (bool_decide (pd_type p = ForNone)) ;;
  when (bool_decide (0 < pd_filled p)) (ReadableByteStreamControllerEnqueueClonedChunkToQueue (pd_buffer p) (pd_offset p) (pd_filled p)) ;;
  on_data ReadableByteStreamControllerShiftPendingPullInto ;; mret tt.

Definition ReadableByteStreamControllerProcessPullIntoDescriptorsUsingQueue : YM (list desc) :=
  s ← gets id;
  assert (negb (yc_closeRequested s)) ;;
  on_data (process_loop (S (length (pendingPullIntos s)))).

Definition ReadableByteStreamControllerCommitPullIntoDescriptor (p : desc) : YM unit :=
  s ← gets id;
  assert (negb (state_is Errored s)) ;;
  assert (negb (bool_decide (pd_type p = ForNone))) ;;
  let done := state_is Closed s in
  when done (assert (bool_decide (pd_filled p mod pd_elem p = 0))) ;;
  filledView ← on_data (ReadableByteStreamControllerConvertPullIntoDescriptor p);
  if bool_decide (pd_type p = ForDefault) then ReadableStreamFulfillReadRequest filledView done else
  assert (bool_decide (pd_type p = ForByob)) ;;
  assert (bool_decide (requests s <> [])) ;;
  i ← shift_request;
  deliver done filledView i.

Fixpoint ReadableByteStreamControllerCommitPullIntoDescriptors (ps : list desc) : YM unit :=
  match ps with [] => mret tt | p :: ps => ReadableByteStreamControllerCommitPullIntoDescriptor p ;; ReadableByteStreamControllerCommitPullIntoDescriptors ps end.

Section Again.
(** [ReadableByteStreamControllerCallPullIfNeeded]. *)
Variable again : YM unit.

Definition ReadableByteStreamControllerHandleQueueDrain : YM unit :=
  s ← gets id;
  assert (state_is Readable s) ;;
  if bool_decide (queueTotalSize s = 0) && yc_closeRequested s
  then ReadableByteStreamControllerClearAlgorithms ;; ReadableStreamClose
  else again.

Definition ReadableByteStreamControllerFillReadRequestFromQueue (i : nat) : YM unit :=
  s ← gets id;
  assert (bool_decide (0 < queueTotalSize s)) ;;
  match bd_queue (ys_data s) with
  | [] => throw ErrAssertionError "Assertion failed"
  | e :: rest =>
    on_data (modify (set_queue rest)) ;;
    on_data (modify (fun d => set_total (bd_total d - en_length e) d)) ;;
    ReadableByteStreamControllerHandleQueueDrain ;;
    v ← on_data (new_view (Typed 1) (en_buffer e) (en_offset e) (en_length e));
    deliver false v i
  end.

(** The loop over the waiting reads of a default reader; [true] when it
    leaves [ReadableByteStreamControllerEnqueue]. *)
Fixpoint serve_loop (fuel : nat) : YM bool :=
  s ← gets id;
  match requests s with
  | [] => mret false
  | _ =>
    if bool_decide (queueTotalSize s = 0) then mret true else
    match fuel with
    | O => throw ErrAssertionError "out of fuel"
    | S fuel => i ← shift_request; ReadableByteStreamControllerFillReadRequestFromQueue i ;; serve_loop fuel
    end
  end.

(** History: bytes are accepted; the last ones are thrown away. *)
Definition accept (data : bytes) : YM unit := modify (fun s => set_ys_accepted (ys_accepted s ++ [(data, PassedOn)]) s).
Fixpoint mark_last (f : fate) (log : list (bytes * fate)) : list (bytes * fate) :=
  match log with [] => [] | [e] => [(e.1, f)] | e :: log => e :: mark_last f log end.
Definition throw_away : YM unit :=
  modify (fun s => set_ys_accepted (mark_last (ThrownAway (length (requests s)) (queueTotalSize s)) (ys_accepted s)) s).

(** The first descriptor before a chunk is enqueued. *)
Definition renew_first (s : bstream) : YM unit :=
  match pendingPullIntos s with
  | [] => mret tt
  | p :: _ =>
    if IsDetachedBuffer (ys_data s) (pd_buffer p)
    then throw ErrTypeError "The BYOB request's buffer has been detached and so cannot be filled with an enqueued chunk" else
    on_data ReadableByteStreamControllerInvalidateBYOBRequest ;;
    b ← on_data (TransferArrayBuffer (pd_buffer p));
    on_data (modify (update_head (with_buffer b p))) ;;
    when (bool_decide (pd_type p = ForNone)) (ReadableByteStreamControllerEnqueueDetachedPullIntoToQueue (with_buffer b p))
  end.

(** What [ReadableByteStreamControllerEnqueue] does with the chunk when
    there is a default reader; its early return throws the chunk away. *)
Definition enqueue_default (b off n : nat) : YM unit :=
  s ← gets id;
  returned ← serve_loop (S (length (requests s)));
  if (returned : bool) then throw_away else
  s ← gets id;
  (if bool_decide (requests s = []) then
     assert (bool_decide (pendingPullIntos s = [])) ;;
     on_data (ReadableByteStreamControllerEnqueueChunkToQueue b off n)
   else
     assert (bool_decide (bd_queue (ys_data s) = [])) ;;
     when (negb (bool_decide (pendingPullIntos s = [])))
       (p ← on_data peekPendingPullInto; assert (bool_decide (pd_type p = ForDefault)) ;;
        on_data ReadableByteStreamControllerShiftPendingPullInto ;; mret tt) ;;
     v ← on_data (new_view (Typed 1) b off n);
     ReadableStreamFulfillReadRequest v false) ;;
  again.

Definition ReadableByteStreamControllerEnqueue (chunk : view) : YM unit :=
  s ← gets id;
  if yc_closeRequested s || negb (state_is Readable s) then mret tt else
  let off := vw_offset chunk in let n := vw_length chunk in
  if IsDetachedBuffer (ys_data s) (vw_buffer chunk) then throw ErrTypeError "chunk's buffer is detached and so cannot be enqueued" else
  b ← on_data (TransferArrayBuffer (vw_buffer chunk));
  s ← gets id;
  renew_first s ;;
  s ← gets id;
  accept (region (ys_data s) b off n) ;;
  if ReadableStreamHasDefaultReader s then enqueue_default b off n
  else if ReadableStreamHasBYOBReader s then
    on_data (ReadableByteStreamControllerEnqueueChunkToQueue b off n) ;;
    filledPullIntos ← ReadableByteStreamControllerProcessPullIntoDescriptorsUsingQueue;
    ReadableByteStreamControllerCommitPullIntoDescriptors filledPullIntos ;;
    again
  else
    assert (negb (IsReadableStreamLocked s)) ;;
    on_data (ReadableByteStreamControllerEnqueueChunkToQueue b off n) ;;
    again.

(** As many descriptors as there are read-into requests. *)
Fixpoint shift_pending (n : nat) : YM (list desc) :=
  match n with
  | O => mret []
  | S n => p ← on_data ReadableByteStreamControllerShiftPendingPullInto; ps ← shift_pending n; mret (p :: ps)
  end.

Definition respond_closed (p : desc) (bytesWritten : nat) : YM unit :=
  assert (bool_decide (bytesWritten = 0)) ;;
  assert (bool_decide (pd_filled p mod pd_elem p = 0)) ;;
  when (bool_decide (pd_type p = ForNone)) (on_data ReadableByteStreamControllerShiftPendingPullInto ;; mret tt) ;;
  s ← gets id;
  when (ReadableStreamHasBYOBReader s)
    (filledPullIntos ← shift_pending (length (requests s));
     ReadableByteStreamControllerCommitPullIntoDescriptors filledPullIntos).

(** The bytes written are accepted as the descriptor takes them. *)
Definition respond_readable (p : desc) (bytesWritten : nat) : YM unit :=
  assert (bool_decide (0 < bytesWritten)) ;;
  assert (bool_decide (pd_filled p + bytesWritten <= pd_length p)) ;;
  s ← gets id;
  accept (region (ys_data s) (pd_buffer p) (pd_offset p + pd_filled p) bytesWritten) ;;
  p ← on_data (ReadableByteStreamControllerFillHeadPullIntoDescriptor bytesWritten p);
  if bool_decide (pd_type p = ForNone) then
    ReadableByteStreamControllerEnqueueDetachedPullIntoToQueue p ;;
    filledPullIntos2 ← ReadableByteStreamControllerProcessPullIntoDescriptorsUsingQueue;
    ReadableByteStreamControllerCommitPullIntoDescriptors filledPullIntos2
  else if bool_decide (pd_filled p < pd_minimum p) then mret tt else
  on_data ReadableByteStreamControllerShiftPendingPullInto ;;
  let remainderSize := pd_filled p mod pd_elem p in
  let stop := pd_offset p + pd_filled p in
  when (bool_decide (0 < remainderSize)) (ReadableByteStreamControllerEnqueueClonedChunkToQueue (pd_buffer p) (stop - remainderSize) remainderSize) ;;
  let filled := pd_filled p - remainderSize in
  let p := with_filled filled (take filled (pd_given p)) p in
  filledPullIntos ← ReadableByteStreamControllerProcessPullIntoDescriptorsUsingQueue;
  ReadableByteStreamControllerCommitPullIntoDescriptor p ;;
  ReadableByteStreamControllerCommitPullIntoDescriptors filledPullIntos ;;
  again.

Definition ReadableByteStreamControllerRespondInternal (bytesWritten : nat) : YM unit :=
  p ← on_data peekPendingPullInto;
  s ← gets id;
  assert (CanTransferArrayBuffer (ys_data s) (pd_buffer p)) ;;
  on_data ReadableByteStreamControllerInvalidateBYOBRequest ;;
  match ys_state s with
  | Closed => respond_closed p bytesWritten ;; again
  | Readable => respond_readable p bytesWritten
  | Errored => throw ErrAssertionError "Assertion failed"
  end.

Definition ReadableByteStreamControllerRespond (bytesWritten : nat) : YM unit :=
  p ← on_data peekPendingPullInto;
  s ← gets id;
  match ys_state s with
  | Closed => if negb (bool_decide (bytesWritten = 0)) then throw ErrTypeError "bytesWritten must be 0 when calling respond() on a closed stream" else mret tt
  | Readable =>
    if bool_decide (bytesWritten = 0) then throw ErrTypeError "bytesWritten must be greater than 0 when calling respond() on a readable stream" else
    if bool_decide (pd_length p < pd_filled p + bytesWritten) then throw ErrRangeError "bytesWritten out of range" else mret tt
  | Errored => throw ErrAssertionError "Assertion failed"
  end ;;
  b ← on_data (TransferArrayBuffer (pd_buffer p));
  on_data (modify (update_head (with_buffer b p))) ;;
  ReadableByteStreamControllerRespondInternal bytesWritten.

Definition ReadableByteStreamControllerRespondWithNewView (v : view) : YM unit :=
  p ← on_data peekPendingPullInto;
  s ← gets id;
  assert (negb (IsDetachedBuffer (ys_data s) (vw_buffer v))) ;;
  match ys_state s with
  | Closed => if negb (bool_decide (vw_length v = 0)) then throw ErrTypeError "The view's length must be 0 when calling respondWithNewView() on a closed stream" else mret tt
  | Readable => if bool_decide (vw_length v = 0) then throw ErrTypeError "The view's length must be greater than 0 when calling respondWithNewView() on a readable stream" else mret tt
  | Errored => throw ErrAssertionError "Assertion failed"
  end ;;
  if negb (bool_decide (pd_offset p + pd_filled p = vw_offset v)) then throw ErrRangeError "The region specified by view does not match byobRequest" else
  if negb (bool_decide (pd_bufferLength p = bufferByteLength (ys_data s) (vw_buffer v))) then throw ErrRangeError "The buffer of view has different capacity than byobRequest" else
  if bool_decide (pd_length p < pd_filled p + vw_length v) then throw ErrRangeError "The region specified by view is larger than byobRequest" else
  b ← on_data (TransferArrayBuffer (vw_buffer v));
  on_data (modify (update_head (with_buffer b p))) ;;
  ReadableByteStreamControllerRespondInternal (vw_length v).

(* ------------------------------------------------------------------ *)
(** ** What a source calls *)

Definition controller_close : YM unit :=
  s ← gets id;
  if yc_closeRequested s then throw ErrTypeError "The stream has already been closed; do not close it again!" else
  if negb (state_is Readable s) then throw ErrTypeError "The stream is not in the readable state and cannot be closed" else
  ReadableByteStreamControllerClose.

Definition controller_enqueue (chunk : view) : YM unit :=
  s ← gets id;
  if bool_decide (byteLength (ys_data s) chunk = 0) then throw ErrTypeError "chunk must have non-zero byteLength" else
  if bool_decide (bufferByteLength (ys_data s) (vw_buffer chunk) = 0) then throw ErrTypeError "chunk's buffer must have non-zero byteLength" else
  if yc_closeRequested s then throw ErrTypeError "stream is closed or draining" else
  if negb (state_is Readable s) then throw ErrTypeError "The stream is not in the readable state and cannot be enqueued to" else
  ReadableByteStreamControllerEnqueue chunk.

Definition MAX_SAFE_INTEGER : Z := 2 ^ 53 - 1.
Definition convertUnsignedLongLongWithEnforceRange (v : jsnum) : outcome nat :=
  match v with
  | Fin z => if ((z <? 0) || (MAX_SAFE_INTEGER <? z))%Z then Throw ErrTypeError "outside the accepted range" else Ok (Z.to_nat z)
  | _ => Throw ErrTypeError "not a finite number"
  end.

Definition lift {A} (o : outcome A) : YM A := fun s => (o, s).

Definition the_request (q : nat) (s : bstream) : request := default invalid_request (bd_requests (ys_data s) !! q).

Definition request_respond (q : nat) (bytesWritten : jsnum) : YM unit :=
  n ← lift (convertUnsignedLongLongWithEnforceRange bytesWritten);
  s ← gets id;
  if negb (rq_controller (the_request q s)) then throw ErrTypeError "This BYOB request has been invalidated" else
  match rq_view (the_request q s) with
  | None => throw ErrTypeError "cannot read property 'buffer' of null"
  | Some v =>
    if IsDetachedBuffer (ys_data s) (vw_buffer v) then throw ErrTypeError "The BYOB request's buffer has been detached and so cannot be used as a response" else
    assert (bool_decide (0 < byteLength (ys_data s) v)) ;;
    assert (bool_decide (0 < bufferByteLength (ys_data s) (vw_buffer v))) ;;
    ReadableByteStreamControllerRespond n
  end.

Definition request_respondWithNewView (q : nat) (v : view) : YM unit :=
  s ← gets id;
  if negb (rq_controller (the_request q s)) then throw ErrTypeError "This BYOB request has been invalidated" else
  if IsDetachedBuffer (ys_data s) (vw_buffer v) then throw ErrTypeError "The given view's buffer has been detached and so cannot be used as a response" else
  ReadableByteStreamControllerRespondWithNewView v.

(** A view the program can have: on a buffer it holds, within it. *)
Definition held_view (d : bdata) (v : view) : bool :=
  shared d (vw_buffer v) && bool_decide (0 < arrayBufferViewElementSize (vw_ctor v)) &&
  bool_decide (vw_offset v mod arrayBufferViewElementSize (vw_ctor v) = 0) &&
  bool_decide (vw_length v mod arrayBufferViewElementSize (vw_ctor v) = 0) &&
  match content d (vw_buffer v) with Some c => bool_decide (vw_offset v + vw_length v <= length c) | None => true end.

(** Whether the bytes from an offset lie behind those already filled in,
    if the buffer is that of the first descriptor: the bytes a program has
    handed over in part are not its own any more. *)
Definition behind_filled (d : bdata) (b off n : nat) : bool :=
  match bd_pending d with
  | p :: _ => negb (bool_decide (pd_buffer p = b)) || bool_decide (pd_offset p + pd_filled p <= off)
  | [] => true
  end.
Definition keeps_filled (d : bdata) (v : view) : bool :=
  match bd_pending d with
  | p :: _ => bool_decide (region d (vw_buffer v) (pd_offset p) (pd_filled p) = pd_given p)
  | [] => true
  end.

(** What a program can do and keeps to. *)
Definition allowed (op : src_op) (d : bdata) : bool :=
  match op with
  | SrcEnqueue v => held_view d v
  | SrcRespondView _ v => held_view d v && keeps_filled d v
  | SrcWrite b off c => shared d b && bool_decide (off + length c <= bufferByteLength d b) && behind_filled d b off (length c)
  | SrcTransfer b => shared d b && negb (IsDetachedBuffer d b)
  | _ => true
  end.

Definition perform (op : src_op) : YM unit :=
  match op with
  | SrcEnqueue v => controller_enqueue v
  | SrcClose => controller_close
  | SrcError e => ReadableByteStreamControllerError e
  | SrcGetRequest => on_data ReadableByteStreamControllerGetBYOBRequest ;; mret tt
  | SrcRespond q n => request_respond q n
  | SrcRespondView q v => request_respondWithNewView q v
  | SrcAlloc c => on_data (new_buffer c true) ;; mret tt
  | SrcWrite b off c => on_data (modify (fun d => put_data b (write_at off c <$> content d b) d))
  | SrcTransfer b => on_data (transfer b true) ;; mret tt
  end.

Definition controller_op (op : src_op) : YM unit := d ← gets ys_data; when (allowed op d) (perform op).

(** The source goes on after an error of the interface. *)
Definition survive (m : YM unit) : YM unit := fun s =>
  match m s with (Throw c msg, s') => if is_defect c msg then (Throw c msg, s') else (Ok tt, s') | r => r end.

Fixpoint run_ops (ops : list src_op) : YM unit :=
  match ops with [] => mret tt | op :: ops => survive (controller_op op) ;; run_ops ops end.
End Again.

Definition pulls (s : bstream) : nat := length (List.filter is_pull (ys_calls s)).

(** Pulling is set while [pull] runs: [depth] 1 is enough. *)
Fixpoint ReadableByteStreamControllerCallPullIfNeeded (depth : nat) : YM unit :=
  s ← gets id;
  if negb (state_is Readable s) then mret tt else
  if yc_closeRequested s then mret tt else
  if negb (yc_started s) then mret tt else
  let hasPendingReads := negb (bool_decide (requests s = [])) in
  match ReadableByteStreamControllerGetDesiredSize s with
  | None => throw ErrAssertionError "Assertion failed"
  | Some desiredSize =>
    if negb (hasPendingReads || num_positive desiredSize) then mret tt else
    if yc_pulling s then modify (set_yc_pullAgain true) else
    assert (negb (yc_pullAgain s)) ;;
    modify (set_yc_pulling true) ;;
    n ← gets pulls;
    call_source SourcePull WaitPull ;;
    s ← gets id;
    match depth with
    | O => throw ErrAssertionError "out of depth"
    | S depth => run_ops (ReadableByteStreamControllerCallPullIfNeeded depth) (pullOps n s)
    end
  end.

Definition CallPullIfNeeded : YM unit := ReadableByteStreamControllerCallPullIfNeeded 1.

(** The handlers of the source's promises. *)
Definition on_start_fulfilled : YM unit :=
  modify (set_yc_started true) ;;
  s ← gets id;
  assert (negb (yc_pulling s)) ;; assert (negb (yc_pullAgain s)) ;;
  CallPullIfNeeded.
Definition on_pull_fulfilled : YM unit :=
  modify (set_yc_pulling false) ;;
  s ← gets id;
  if yc_pullAgain s then modify (set_yc_pullAgain false) ;; CallPullIfNeeded else mret tt.
Definition on_source_rejected (r : reason) : YM unit := ReadableByteStreamControllerError r.

(* ------------------------------------------------------------------ *)
(** ** Readers *)

Definition auto_descriptor (b n : nat) : desc := Desc b n 0 n 0 1 1 (Typed 1) ForDefault [].

Definition PullSteps (i : nat) : YM unit :=
  s ← gets id;
  assert (ReadableStreamHasDefaultReader s) ;;
  if bool_decide (0 < queueTotalSize s) then
    assert (bool_decide (requests s = [])) ;;
    ReadableByteStreamControllerFillReadRequestFromQueue CallPullIfNeeded i
  else
    match autoAllocateChunkSize with
    | Some n =>
      b ← on_data (new_buffer (replicate n 0%Z) false);
      on_data (modify (fun d => set_pending (bd_pending d ++ [auto_descriptor b n]) d))
    | None => mret tt
    end ;;
    ReadableStreamAddReadRequest i ;;
    CallPullIfNeeded.

Definition CancelSteps (r : reason) : YM pid :=
  on_data ReadableByteStreamControllerClearPendingPullIntos ;;
  on_data ResetQueue ;;
  p ← new_promise Pending;
  call_source (SourceCancel r) (WaitCancel p) ;;
  ReadableByteStreamControllerClearAlgorithms ;; mret p.

Definition ReadableStreamCancel (r : reason) : YM pid :=
  modify (set_ys_disturbed true) ;;
  s ← gets id;
  match ys_state s with
  | Closed => new_promise Fulfilled
  | Errored => new_promise (Rejected (ys_storedError s))
  | Readable =>
    ReadableStreamClose ;;
    when (ReadableStreamHasBYOBReader s) (for_reader (settle_requests YDone)) ;;
    CancelSteps r
  end.

Definition stream_cancel (r : reason) : YM pid :=
  s ← gets id;
  if IsReadableStreamLocked s then new_promise (Rejected (type_error "Cannot cancel a stream that already has a reader")) else ReadableStreamCancel r.

Definition ReadableStreamReaderGenericInitialize (r : nat) : YM unit :=
  modify (set_ys_reader (Some r)) ;;
  s ← gets id;
  match ys_state s with
  | Readable => defaultReaderClosedPromiseInitialize r
  | Closed => defaultReaderClosedPromiseInitialize r ;; defaultReaderClosedPromiseResolve r
  | Errored => defaultReaderClosedPromiseInitializeAsRejected r (ys_storedError s)
  end.

(** The constructors of the two kinds of readers. *)
Definition getReader (byob : bool) : YM nat :=
  s ← gets id;
  if IsReadableStreamLocked s then throw ErrTypeError "This stream has already been locked for exclusive reading by another reader" else
  let r := length (ys_readers s) in
  modify (fun s => set_ys_readers (ys_readers s ++ [YReader byob true 0 false []]) s) ;;
  ReadableStreamReaderGenericInitialize r ;; mret r.

Definition reader_cancel (r : nat) (e : reason) : YM pid :=
  x ← the_reader r;
  if negb (yr_owner x) then new_promise (Rejected (lock_error "cancel")) else ReadableStreamCancel e.

Definition ReadableStreamDefaultReaderRead (i : nat) : YM unit :=
  modify (set_ys_disturbed true) ;;
  s ← gets id;
  match ys_state s with
  | Closed => settle_read YDone i
  | Errored => settle_read (YError (ys_storedError s)) i
  | Readable => PullSteps i
  end.

Definition rejected (e : reason) : YM (pid + nat) := p ← new_promise (Rejected e); mret (inl p).

(** The promise a [read] returns: a rejected one, or that of a read. *)
Definition default_read (r : nat) : YM (pid + nat) :=
  x ← the_reader r;
  if yr_byob x then rejected (type_error "ReadableStreamDefaultReader.prototype.read can only be used on a ReadableStreamDefaultReader") else
  if negb (yr_owner x) then rejected (lock_error "read from") else
  i ← new_read;
  ReadableStreamDefaultReaderRead i ;; mret (inr i).

Definition read_descriptor (v : view) (b capacity min : nat) : desc :=
  let elementSize := arrayBufferViewElementSize (vw_ctor v) in
  Desc b capacity (vw_offset v) (vw_length v) 0 (min * elementSize) elementSize (vw_ctor v) ForByob [].

Definition push_descriptor (p : desc) (i : nat) : YM unit :=
  on_data (modify (fun d => set_pending (bd_pending d ++ [p]) d)) ;; ReadableStreamAddReadIntoRequest i.

(** What a read does once it has its descriptor. *)
Definition read_into (p : desc) (i : nat) : YM unit :=
  s ← gets id;
  if negb (bool_decide (pendingPullIntos s = [])) then push_descriptor p i else
  if state_is Closed s then
    emptyView ← on_data (new_view (pd_ctor p) (pd_buffer p) (pd_offset p) 0);
    deliver true emptyView i
  else
  r ← (if bool_decide (0 < queueTotalSize s) then
         r ← on_data (ReadableByteStreamControllerFillPullIntoDescriptorFromQueue p); mret (Some r)
       else mret None);
  match r with
  | Some (true, p) =>
    filledView ← on_data (ReadableByteStreamControllerConvertPullIntoDescriptor p);
    ReadableByteStreamControllerHandleQueueDrain CallPullIfNeeded ;;
    deliver false filledView i
  | _ =>
    s ← gets id;
    if (match r with Some _ => true | None => false end) && yc_closeRequested s then
      ReadableByteStreamControllerError (ErrorObj ErrTypeError insufficient) ;;
      settle_read (YError (ErrorObj ErrTypeError insufficient)) i
    else
      push_descriptor (default (false, p) r).2 i ;;
      CallPullIfNeeded
  end.

Definition ReadableStreamBYOBReaderRead (v : view) (min i : nat) : YM unit :=
  modify (set_ys_disturbed true) ;;
  s ← gets id;
  if state_is Errored s then settle_read (YError (ys_storedError s)) i else
  let elementSize := arrayBufferViewElementSize (vw_ctor v) in
  let minimumFill := min * elementSize in
  assert (bool_decide (elementSize <= minimumFill) && bool_decide (minimumFill <= vw_length v)) ;;
  assert (bool_decide (minimumFill mod elementSize = 0)) ;;
  b ← on_data (TransferArrayBuffer (vw_buffer v));
  s ← gets id;
  read_into (read_descriptor v b (bufferByteLength (ys_data s) b) min) i.

(** The length of a view in elements; [undefined] of a [DataView]. *)
Definition view_elements (d : bdata) (v : view) : option nat :=
  match vw_ctor v with Typed n => Some (byteLength d v / n) | DataView => None end.

Definition byob_read (r : nat) (v : view) (min : jsnum) : YM (pid + nat) :=
  x ← the_reader r;
  if negb (yr_byob x) then rejected (type_error "ReadableStreamBYOBReader.prototype.read can only be used on a ReadableStreamBYOBReader") else
  d ← gets ys_data;
  if bool_decide (byteLength d v = 0) then rejected (type_error "view must have non-zero byteLength") else
  if bool_decide (bufferByteLength d (vw_buffer v) = 0) then rejected (type_error "view's buffer must have non-zero byteLength") else
  if IsDetachedBuffer d (vw_buffer v) then rejected (type_error "view's buffer has been detached") else
  match convertUnsignedLongLongWithEnforceRange min with
  | Throw c e => rejected (ErrorObj c e)
  | Ok min =>
    if bool_decide (min = 0) then rejected (type_error "options.min must be greater than 0") else
    if match view_elements d v with Some n => bool_decide (n < min) | None => false end
    then rejected (ErrorObj ErrRangeError "options.min must be less than or equal to view's length") else
    if match view_elements d v with Some n => bool_decide (byteLength d v < min) | None => false end
    then rejected (ErrorObj ErrRangeError "options.min must be less than or equal to view's byteLength") else
    if negb (yr_owner x) then rejected (lock_error "read from") else
    i ← new_read;
    ReadableStreamBYOBReaderRead v min i ;; mret (inr i)
  end.

Definition ReadableStreamReaderGenericRelease (r : nat) : YM unit :=
  s ← gets id;
  assert (bool_decide (ys_reader s = Some r)) ;;
  (if state_is Readable s then defaultReaderClosedPromiseReject r released_closed_error
   else
     x ← the_reader r;
     assert (negb (yr_resolvers x)) ;;
     defaultReaderClosedPromiseInitializeAsRejected r released_closed_error) ;;
  on_data ReleaseSteps ;;
  modify (set_ys_reader None) ;;
  x ← the_reader r;
  set_reader r (YReader (yr_byob x) false (yr_closed x) (yr_resolvers x) (yr_requests x)).

Definition reader_releaseLock (r : nat) : YM unit :=
  x ← the_reader r;
  if negb (yr_owner x) then mret tt else
  ReadableStreamReaderGenericRelease r ;;
  settle_requests (YError (type_error "Reader was released")) r.

(* ------------------------------------------------------------------ *)
(** ** Construction and events *)

Definition empty_data : bdata := BData [] [] 0 [] None [].
Definition blank_stream : bstream := BStream empty_data Readable Undefined None false false false false false false [] [] [] [] [] [].

Definition SetUpReadableByteStreamController : YM unit :=
  on_data ResetQueue ;;
  modify (set_yc_algorithms true) ;;
  call_source SourceStart WaitStart.

Definition new_stream : bstream := (SetUpReadableByteStreamController blank_stream).2.

Inductive yevent :=
| EvGetReader (byob : bool) | EvCancel (e : reason) | EvRead (r : nat) | EvReadInto (r : nat) (v : view) (min : jsnum)
| EvReaderCancel (r : nat) (e : reason) | EvRelease (r : nat) | EvSource (op : src_op) | EvSettled (i : nat) (failed : option reason).

Definition on_settled (k : rwait) (failed : option reason) : YM unit :=
  match k, failed with
  | WaitStart, None => on_start_fulfilled
  | WaitPull, None => on_pull_fulfilled
  | WaitStart, Some r | WaitPull, Some r => on_source_rejected r
  | WaitCancel p, None => settle_promise p Fulfilled
  | WaitCancel p, Some r => settle_promise p (Rejected r)
  end.

Definition ignore {A} (m : YM A) : YM unit := m ;; mret tt.

Definition yevent_run (e : yevent) : YM unit :=
  match e with
  | EvGetReader byob => ignore (getReader byob)
  | EvCancel r => ignore (stream_cancel r)
  | EvRead r => ignore (default_read r)
  | EvReadInto r v min => d ← gets ys_data; when (held_view d v) (ignore (byob_read r v min))
  | EvReaderCancel r e => ignore (reader_cancel r e)
  | EvRelease r => reader_releaseLock r
  | EvSource op => controller_op CallPullIfNeeded op
  | EvSettled i failed =>
    l ← gets ys_awaited;
    match l !! i with
    | None => mret tt
    | Some k => modify (fun s => set_ys_awaited (delete i (ys_awaited s)) s) ;; on_settled k failed
    end
  end.

Fixpoint byte_run (es : list yevent) (s : bstream) : list (outcome unit) * bstream :=
  match es with
  | [] => ([], s)
  | e :: es => let '(o, s) := yevent_run e s in let '(os, s) := byte_run es s in (o :: os, s)
  end.
End Stream.
