(* ===== verification/ByteStreamInv.v ===== *)
(** * The invariant of readable byte streams

    On a stream whose readers are all of one kind, every reachable state
    keeps its reads, its descriptors and its bytes consistent, whatever the
    consumers, the source and the source's [pull] do, and no assertion of
    the code fails. *)

From S2P Require Import Prelude StreamBase ReadableStream ReadableStreamInv ByteData ByteDataInv ByteStream.
Open Scope nat_scope.

(** What is under way: a read just made, a view on its way to a read, or
    descriptors that are ready and not committed yet. *)
Inductive way := WNone | WRead (i : nat) | WView (i : nat) (v : view) | WDescs (ps : list desc).

Definition way_bufs (w : way) : list nat := match w with WView _ v => [vw_buffer v] | WDescs ps => pd_buffer <$> ps | _ => [] end.
Definition way_bytes (d : bdata) (w : way) : bytes :=
  match w with WView _ v => region d (vw_buffer v) (vw_offset v) (vw_length v) | WDescs ps => given_bytes ps | _ => [] end.
Definition way_reads (w : way) : nat := match w with WRead _ | WView _ _ => 1 | _ => 0 end.
Definition way_descs (w : way) : list desc := match w with WDescs ps => ps | _ => [] end.
Definition is_view (w : way) : bool := match w with WView _ _ => true | _ => false end.

(** The bytes of the settled reads. *)
Definition data_of (v : yresult) : bytes := match v with YView _ _ b => b | _ => [] end.
Definition delivered (reads : list yresult) : bytes := concat (data_of <$> reads).

Lemma y_delivered_app a b : delivered (a ++ b) = delivered a ++ delivered b.
Proof. unfold delivered. by rewrite fmap_app, concat_app. Qed.
Lemma delivered_silent v k : data_of v = [] -> delivered (replicate k v) = [].
Proof. intros H. unfold delivered. induction k as [|k IH]; [done|]. cbn. by rewrite H. Qed.

Definition live (ps : list desc) : list desc := filter (fun p => pd_type p <> ForNone) ps.

Ltac yproj f := repeat match goal with |- context [f ?s] => let v := eval cbn in (f s) in progress change (f s) with v end.
Ltac yprojs := yproj ys_data; yproj ys_state; yproj ys_storedError; yproj ys_reader; yproj ys_disturbed; yproj yc_started; yproj yc_closeRequested;
  yproj yc_pullAgain; yproj yc_pulling; yproj yc_algorithms; yproj ys_readers; yproj ys_promises; yproj ys_reads; yproj ys_accepted; yproj ys_calls; yproj ys_awaited.
(** Run the monad over what is known. *)
Ltac ystep := repeat (cbv beta iota; first
  [ rewrite bind_assoc | rewrite gets_bind | rewrite modify_bind | rewrite ret_bind | progress (cbn [id negb andb orb when]) | progress yprojs ]).

(** The bytes accepted that may not get lost while the stream is readable:
    all but the chunks that were thrown away while a read of a default
    reader waited and nothing was queued ([byob]: the readers are BYOB). *)
Definition kept (byob : bool) (log : list (bytes * fate)) : bytes :=
  concat ((fun e => match e.2 with
    | PassedOn => e.1
    | ThrownAway waiting queued => if negb byob && bool_decide (0 < waiting) && bool_decide (queued = 0) then [] else e.1
    end) <$> log).

Lemma kept_app k a b : kept k (a ++ b) = kept k a ++ kept k b.
Proof. unfold kept. by rewrite fmap_app, concat_app. Qed.
Lemma kept_passed k d : kept k [(d, PassedOn)] = d.
Proof. apply app_nil_r. Qed.
Lemma mark_last_snoc f log d g : mark_last f (log ++ [(d, g)]) = log ++ [(d, f)].
Proof. induction log as [|e log IH]; [done|]. cbn [app mark_last]. rewrite IH. by destruct log. Qed.

Section Kind.
(** The kind of the readers, and the size of the chunks allocated. *)
Variables (K : bool) (auto : option nat).

Definition T : reader_type := if K then ForByob else ForDefault.

Record readers_ok (st : rstate) (cur : option nat) (readers : list yreader) : Prop := {
  ro_cur : forall r, cur = Some r -> is_Some (readers !! r);
  ro_each : forall r x, readers !! r = Some x ->
    yr_byob x = K /\ yr_resolvers x = yr_owner x && bool_decide (st = Readable) /\ (yr_owner x = true <-> cur = Some r) }.

(** Settled reads, then those that wait: the requests of the reader, then
    a read under way. *)
Definition reads_ok (w : way) (reqs : list nat) (reads : list yresult) : Prop :=
  exists settled, YPending ∉ settled /\ reads = settled ++ replicate (length reqs + way_reads w) YPending /\
    reqs = seq (length settled) (length reqs) /\
    match w with WRead i | WView i _ => i = length settled + length reqs | _ => True end.

Definition released (readers : list yreader) : Prop := exists r x, readers !! r = Some x /\ yr_owner x = false.

(** Bytes leave in the order they came. *)
Definition fifo_ok (w : way) (s : bstream) : Prop :=
  exists lost, delivered (ys_reads s) ++ way_bytes (ys_data s) w ++ given_bytes (bd_pending (ys_data s)) ++ queue_bytes (ys_data s) ++ lost = kept K (ys_accepted s) /\
    (lost <> [] -> ys_state s <> Readable /\ (ys_state s = Errored \/ existsb is_cancel (ys_calls s) = true \/ released (ys_readers s))).

Definition way_ok (w : way) (s : bstream) : Prop :=
  match w with
  | WDescs ps => Forall (fun p => ready_desc (bd_buffers (ys_data s)) p /\ pd_type p = T) ps /\ (ps <> [] -> ys_state s <> Errored /\ (K = true \/ auto <> None /\ ys_state s = Readable))
  | WView _ v => exists c, private (bd_buffers (ys_data s)) (vw_buffer v) c /\ vw_offset v + vw_length v <= length c
  | _ => True
  end.

Record flags_ok (w : way) (s : bstream) : Prop := {
  yl_ended : ys_state s <> Readable -> bd_queue (ys_data s) = [];
  yl_errored : ys_state s = Errored -> bd_pending (ys_data s) = [] /\ requests s = [];
  yl_view : is_view w = true -> bd_pending (ys_data s) = [] /\ requests s = [];
  yl_close : yc_closeRequested s = true -> ys_state s = Readable -> bd_queue (ys_data s) <> [];
  yl_algorithms : ys_state s = Readable -> yc_algorithms s = true;
  yl_types : Forall (fun p => (pd_type p = T \/ pd_type p = ForNone) /\ pd_filled p < pd_minimum p) (bd_pending (ys_data s)) /\
             Forall (fun p => pd_type p <> ForNone) (tail (bd_pending (ys_data s)));
  yl_count : K = true \/ auto <> None /\ ys_state s = Readable -> length (requests s) = length (way_descs w) + length (live (bd_pending (ys_data s)));
  yl_default : K = false -> Forall (fun p => pd_filled p = 0 /\ pd_minimum p = 1) (bd_pending (ys_data s)) /\ (ys_state s = Closed -> requests s = []) /\
    (auto = None -> bd_pending (ys_data s) = [] /\ (requests s <> [] -> bd_queue (ys_data s) = []));
  yl_closed : ys_state s = Closed -> Forall (fun p => pd_filled p mod pd_elem p = 0) (bd_pending (ys_data s));
  yl_released : (exists p, p ∈ bd_pending (ys_data s) /\ pd_type p = ForNone) -> released (ys_readers s);
  yl_started : yc_started s = false -> yc_pulling s = false;
  yl_start : waits is_start (ys_awaited s) + (if yc_started s then 1 else 0) <= 1 }.

Record Core (w : way) (s : bstream) : Prop := {
  v_data : Data (way_bufs w) (ys_data s);
  v_way : way_ok w s;
  v_readers : readers_ok (ys_state s) (ys_reader s) (ys_readers s);
  v_reads : reads_ok w (requests s) (ys_reads s);
  v_fifo : fifo_ok w s;
  v_flags : flags_ok w s }.

(** Descriptors only wait while nothing is queued; [busy] while [pull]
    runs. *)
Definition drained (s : bstream) : Prop := bd_pending (ys_data s) <> [] -> bd_queue (ys_data s) = [].
Definition Inv (busy : bool) (w : way) (s : bstream) : Prop := Core w s /\ drained s /\ (yc_pullAgain s || busy = true -> yc_pulling s = true).

(** What can be under way while other code runs. *)
Definition calm (w : way) : bool := match w with WNone | WView _ _ => true | _ => false end.

Definition good {A} (busy : bool) (w : way) (r : outcome A * bstream) : Prop :=
  Inv busy w r.2 /\ match r.1 with Ok _ => True | Throw c msg => is_defect c msg = false end.
Definition keeps {A} (busy : bool) (m : YM A) : Prop := forall w s, calm w = true -> Inv busy w s -> good busy w (m s).
Definition keeps_none {A} (m : YM A) : Prop := forall s, Inv false WNone s -> good false WNone (m s).
(** An operation that throws nothing at all. *)
Definition quiet (busy : bool) (m : YM unit) : Prop := forall w s, calm w = true -> Inv busy w s -> exists s', m s = (Ok tt, s') /\ Inv busy w s'.

Lemma y_quiet_keeps busy m : quiet busy m -> keeps busy m.
Proof. intros H w s Hw Hs. destruct (H w s Hw Hs) as (s' & -> & Hi). by split. Qed.
Lemma y_good_ok {A} busy w (a : A) s : Inv busy w s -> good busy w (Ok a, s).
Proof. by split. Qed.
Lemma good_throw {A} busy w c msg s : Inv busy w s -> is_defect c msg = false -> good busy w ((Throw c msg : outcome A), s).
Proof. by split. Qed.
Lemma y_good_bind {A B} busy w (m : YM A) (f : A -> YM B) s :
  good busy w (m s) -> (forall a s', m s = (Ok a, s') -> Inv busy w s' -> good busy w (f a s')) -> good busy w ((m ≫= f) s).
Proof. unfold mbind, sm_bind. destruct (m s) as [[a|c e] s'] eqn:E; [|done]. intros [H _] Hf. by apply Hf. Qed.
Lemma y_good_then {A B} busy w (m : YM A) (b : B) s : good busy w (m s) -> good busy w ((m ;; mret b) s).
Proof. intros H. apply y_good_bind; [done|]. intros ? s' _ H'. by apply y_good_ok. Qed.
Lemma y_Inv_idle busy w s : Inv busy w s -> Inv false w s.
Proof. intros (H & Hq & Hp). split; [done|]. split; [done|]. intros E. apply Hp. by destruct (yc_pullAgain s). Qed.

(* ------------------------------------------------------------------ *)
(** ** Running code on the data *)

Lemma on_data_ok {A B} (m : BM A) (f : A -> YM B) s a d : m (ys_data s) = (Ok a, d) -> (on_data m ≫= f) s = f a (set_ys_data d s).
Proof. intros E. unfold mbind, sm_bind, on_data. by rewrite E. Qed.
Lemma on_data_run {A} (m : BM A) s a d : m (ys_data s) = (Ok a, d) -> on_data m s = (Ok a, set_ys_data d s).
Proof. intros E. unfold on_data. by rewrite E. Qed.

Lemma set_data_same s : set_ys_data (ys_data s) s = s.
Proof. by destruct s. Qed.

(** The buffers under way stay as they are. *)
Definition keeps_way (w : way) (d d' : bdata) : Prop := forall b c, b ∈ way_bufs w -> private (bd_buffers d) b c -> private (bd_buffers d') b c.

(** No descriptor is under way. *)
Definition steady (w : way) : bool := match w with WDescs _ => false | _ => true end.
Lemma calm_steady w : calm w = true -> steady w = true.
Proof. by destruct w. Qed.

Lemma keeps_way_ok w s d : steady w = true -> way_ok w s -> keeps_way w (ys_data s) d -> way_bytes d w = way_bytes (ys_data s) w /\ forall s', ys_data s' = d -> way_ok w s'.
Proof.
  intros Hw H Hk. destruct w as [|i|i v|ps]; try done. destruct H as (c & Hc & Hl). pose proof (Hk (vw_buffer v) c ltac:(left) Hc) as Hc'. split.
  - unfold way_bytes, region. by rewrite (content_private _ _ _ Hc), (content_private _ _ _ Hc').
  - intros s' <-. by exists c.
Qed.

(** Other data, with the same queue and descriptors but for buffers. *)
Definition sig (p : desc) : reader_type * nat * nat * nat * bytes := (pd_type p, pd_filled p, pd_minimum p, pd_elem p, pd_given p).

Lemma sig_forall (P : desc -> Prop) l l' : sig <$> l' = sig <$> l -> (forall p p', sig p' = sig p -> P p -> P p') -> Forall P l -> Forall P l'.
Proof.
  intros E HP. revert l' E. induction l as [|p l IH]; intros [|p' l'] E H; try done. rewrite !fmap_cons in E. injection E as E1 E2. inversion H; subst. constructor; [|by apply IH].
  apply (HP p); [|done]. unfold sig in *. congruence.
Qed.
Lemma sig_tail l l' : sig <$> l' = sig <$> l -> sig <$> tail l' = sig <$> tail l.
Proof. destruct l, l'; try done. rewrite !fmap_cons. intros E. cbn [tail]. congruence. Qed.
Lemma sig_given l l' : sig <$> l' = sig <$> l -> given_bytes l' = given_bytes l.
Proof. unfold given_bytes. revert l'. induction l as [|p l IH]; intros [|p' l'] E; try done. rewrite !fmap_cons in *. injection E as ? ? ? ? ? E. cbn [concat]. f_equal; [done|by apply IH]. Qed.
Lemma sig_live l l' : sig <$> l' = sig <$> l -> length (live l') = length (live l).
Proof.
  revert l'. induction l as [|p l IH]; intros [|p' l'] E; try done. rewrite !fmap_cons in E. injection E as E0 ? ? ? ? E. specialize (IH _ E). unfold live in *.
  destruct (decide (pd_type p <> ForNone)) as [Hn|Hn]; [rewrite !filter_cons_True by congruence; cbn; by rewrite IH|rewrite !filter_cons_False; [done|done|by rewrite E0]].
Qed.
Lemma sig_nil l l' : sig <$> l' = sig <$> l -> l' = [] <-> l = [].
Proof. destruct l, l'; done. Qed.
Lemma sig_in (l l' : list desc) p : sig <$> l' = sig <$> l -> p ∈ l' -> exists p0, p0 ∈ l /\ sig p = sig p0.
Proof. intros E Hin. apply (list_elem_of_fmap_2 sig) in Hin. rewrite E in Hin. apply list_elem_of_fmap in Hin as (p0 & ? & ?). by exists p0. Qed.

Lemma steady_core w s d : Core w s -> steady w = true -> Data (way_bufs w) d -> queue_bytes d = queue_bytes (ys_data s) -> bd_queue d = bd_queue (ys_data s) ->
  sig <$> bd_pending d = sig <$> bd_pending (ys_data s) -> keeps_way w (ys_data s) d -> Core w (set_ys_data d s).
Proof.
  intros [H1 H2 H3 H4 (lost & H5 & H5') [F1 F2 F4 F5 F6 F7 F8 F9 F10 F11 F12 F13]] Hw Hd Hq Eq Ep Hk. destruct (keeps_way_ok _ _ _ Hw H2 Hk) as [Hb Hok].
  split; yprojs; try done.
  - by apply Hok.
  - exists lost. yprojs. by rewrite Hb, Hq, (sig_given _ _ Ep).
  - split; yprojs; rewrite ?Eq; try done.
    + intros He. rewrite (sig_nil _ _ Ep). by apply F2.
    + intros Hv. rewrite (sig_nil _ _ Ep). by apply F4.
    + destruct F7 as [A B]. split; [eapply sig_forall; [exact Ep| |exact A]|eapply sig_forall; [apply sig_tail, Ep| |exact B]]; unfold sig; intros ? ?; cbv beta; intros; simplify_eq; naive_solver congruence.
    + intros Hkk. rewrite (sig_live _ _ Ep). by apply F8.
    + intros Hkk. destruct (F9 Hkk) as (A & B & C). split; [eapply sig_forall; [exact Ep| |exact A]; unfold sig; intros ? ?; cbv beta; intros; simplify_eq; naive_solver congruence|]. split; [done|]. by rewrite (sig_nil _ _ Ep).
    + intros Hc. eapply sig_forall; [exact Ep| |exact (F10 Hc)]. unfold sig. intros ? ?; cbv beta; intros; simplify_eq; congruence.
    + intros (p & Hin & Ht). destruct (sig_in _ _ _ Ep Hin) as (p0 & Hin0 & Es). apply F11. exists p0. split; [done|]. unfold sig in Es. congruence.
Qed.

Lemma steady_inv busy w s d : Inv busy w s -> steady w = true -> Data (way_bufs w) d -> queue_bytes d = queue_bytes (ys_data s) -> bd_queue d = bd_queue (ys_data s) ->
  sig <$> bd_pending d = sig <$> bd_pending (ys_data s) -> keeps_way w (ys_data s) d -> Inv busy w (set_ys_data d s).
Proof.
  intros (H & Hdr & Hp) Hw Hd Hq Eq Ep Hk. split; [by apply steady_core|]. split; [|done]. unfold drained. yprojs. rewrite Eq. intros Hn. apply Hdr. by rewrite <- (sig_nil _ _ Ep).
Qed.

Lemma data_core w s d : Core w s -> calm w = true -> Data (way_bufs w) d -> queue_bytes d = queue_bytes (ys_data s) -> bd_queue d = bd_queue (ys_data s) ->
  sig <$> bd_pending d = sig <$> bd_pending (ys_data s) -> keeps_way w (ys_data s) d -> Core w (set_ys_data d s).
Proof. intros H Hw. by apply steady_core, calm_steady. Qed.
Lemma data_inv busy w s d : Inv busy w s -> calm w = true -> Data (way_bufs w) d -> queue_bytes d = queue_bytes (ys_data s) -> bd_queue d = bd_queue (ys_data s) ->
  sig <$> bd_pending d = sig <$> bd_pending (ys_data s) -> keeps_way w (ys_data s) d -> Inv busy w (set_ys_data d s).
Proof. intros H Hw. by apply steady_inv, calm_steady. Qed.

(* ------------------------------------------------------------------ *)
(** ** Readers and reads *)

Lemma y_the_reader_bind {B} r x (f : yreader -> YM B) s : ys_readers s !! r = Some x -> (the_reader r ≫= f) s = f x s.
Proof. intros H. unfold mbind, sm_bind, the_reader. by rewrite H. Qed.

Lemma y_current_reader st cur readers r : readers_ok st cur readers -> cur = Some r ->
  exists x, readers !! r = Some x /\ yr_owner x = true /\ yr_byob x = K /\ yr_resolvers x = bool_decide (st = Readable).
Proof.
  intros H Hr. destruct (ro_cur _ _ _ H r Hr) as [x Hx]. exists x. destruct (ro_each _ _ _ H r x Hx) as (Hk & Hv & Ho). apply Ho in Hr. rewrite Hr in Hv. done.
Qed.
Lemma current_of s r x : ys_reader s = Some r -> ys_readers s !! r = Some x -> current s = Some x.
Proof. intros H1 H2. unfold current. rewrite H1. exact H2. Qed.
Lemma y_requests_of s r x : ys_reader s = Some r -> ys_readers s !! r = Some x -> requests s = yr_requests x.
Proof. intros H1 H2. unfold requests. by rewrite (current_of s r x). Qed.
Lemma locked_of busy w s : Inv busy w s -> requests s <> [] -> exists r x, ys_reader s = Some r /\ ys_readers s !! r = Some x /\ yr_requests x = requests s /\ yr_byob x = K.
Proof.
  intros ([_ _ Hr _ _ _] & _) Hq. unfold requests, current in *. destruct (ys_reader s) as [r|] eqn:Er; [|done]. destruct (y_current_reader _ _ _ r Hr eq_refl) as (x & Hx & _ & Hk & _).
  cbn in *. rewrite Hx in *. by exists r, x.
Qed.

Lemma fold_insert_seq {A} (v : A) k : forall (l l' t : list A), length l = k ->
  foldl (fun t i => <[i := v]> t) (l' ++ l ++ t) (seq (length l') k) = l' ++ replicate k v ++ t.
Proof.
  induction k as [|k IH]; intros l l' t Hl; destruct l as [|a l]; try done.
  cbn [seq foldl replicate app]. rewrite insert_app_r_alt by lia. replace (length l' - length l')%nat with 0%nat by lia.
  change (<[0%nat := v]> (a :: l ++ t)) with (v :: l ++ t). injection Hl as Hl.
  specialize (IH l (l' ++ [v]) t Hl). rewrite length_app in IH. cbn [length] in IH.
  replace (length l' + 1)%nat with (S (length l')) in IH by lia. by rewrite <- !app_assoc in IH.
Qed.

(** The requests all settled with the same silent value. *)
Definition end_reads (v : yresult) (s : bstream) : list yresult := foldl (fun t i => <[i := v]> t) (ys_reads s) (requests s).
Lemma y_end_reads_ok w v s : v <> YPending -> data_of v = [] -> reads_ok w (requests s) (ys_reads s) ->
  reads_ok w [] (end_reads v s) /\ delivered (end_reads v s) = delivered (ys_reads s).
Proof.
  intros Hv Hd (settled & Hp & Hl & Hq & Hw). unfold end_reads. rewrite Hl. rewrite replicate_add. set (k := length (requests s)) in *.
  rewrite Hq. rewrite (fold_insert_seq v k) by apply length_replicate. split.
  - exists (settled ++ replicate k v). split_and!.
    + rewrite elem_of_app, elem_of_replicate. intros [H|[H _]]; congruence.
    + by rewrite <- app_assoc.
    + done.
    + rewrite length_app, length_replicate. cbn. destruct w; try done; lia.
  - rewrite !y_delivered_app. f_equal. by rewrite !(delivered_silent _ k).
Qed.

(* ------------------------------------------------------------------ *)
(** ** The end of the stream *)

Definition end_readers (keep : bool) (s : bstream) : list yreader :=
  match ys_reader s with
  | Some r => match ys_readers s !! r with
              | Some x => <[r := YReader (yr_byob x) (yr_owner x) (yr_closed x) false (if keep then yr_requests x else [])]> (ys_readers s)
              | None => ys_readers s
              end
  | None => ys_readers s
  end.
Definition ended (keep : bool) (st : rstate) (err : reason) (v : yresult) (P : list settlement) (s : bstream) : bstream :=
  set_ys_reads (if keep then ys_reads s else end_reads v s) (set_ys_readers (end_readers keep s) (set_ys_promises P (set_ys_storedError err (set_ys_state st s)))).

Lemma ended_requests keep st err v P s : readers_ok (ys_state s) (ys_reader s) (ys_readers s) -> requests (ended keep st err v P s) = if keep then requests s else [].
Proof.
  intros H. unfold requests, current, ended. yprojs. unfold end_readers. destruct (ys_reader s) as [r|] eqn:Er; [|by destruct keep].
  destruct (y_current_reader _ _ _ r H eq_refl) as (x & Hx & _). cbn. rewrite Hx. rewrite list_lookup_insert_eq by by eapply lookup_lt_Some. by destruct keep.
Qed.

Lemma y_end_readers_ok keep st s : st <> Readable -> readers_ok Readable (ys_reader s) (ys_readers s) -> readers_ok st (ys_reader s) (end_readers keep s).
Proof.
  intros Hst H. unfold end_readers. destruct (ys_reader s) as [r|] eqn:Er.
  - destruct (y_current_reader _ _ _ r H eq_refl) as (x & Hx & Ho & Hk & _). rewrite Hx. split.
    + intros r' [= <-]. rewrite list_lookup_insert_eq by by eapply lookup_lt_Some. by eexists.
    + intros r' y Hy. destruct (decide (r' = r)) as [->|Hne].
      * rewrite list_lookup_insert_eq in Hy by by eapply lookup_lt_Some. injection Hy as <-. cbn. rewrite Ho, bool_decide_false by done. by rewrite Hk.
      * rewrite list_lookup_insert_ne in Hy by done. destruct (ro_each _ _ _ H r' y Hy) as (Hk' & Hv' & Ho'). rewrite (bool_decide_false (st = Readable)) by done.
        split; [done|]. assert (Hno : yr_owner y = false) by (destruct (yr_owner y); [apply proj1 in Ho'; specialize (Ho' eq_refl); congruence|done]).
        rewrite Hno in *. by rewrite Hv'.
  - split; [done|]. intros r y Hy. destruct (ro_each _ _ _ H r y Hy) as (Hk' & Hv' & Ho'). split; [done|].
    destruct (yr_owner y) eqn:Ey; [apply proj1 in Ho'; by specialize (Ho' eq_refl)|]. by rewrite Hv'.
Qed.

Lemma end_readers_released keep s : released (ys_readers s) -> released (end_readers keep s).
Proof.
  intros (r & x & Hx & Ho). unfold end_readers. destruct (ys_reader s) as [q|]; [|by exists r, x]. destruct (ys_readers s !! q) as [y|] eqn:Ey; [|by exists r, x].
  destruct (decide (r = q)) as [->|Hne].
  - rewrite Hx in Ey. injection Ey as ->. eexists q, _. split; [apply list_lookup_insert_eq; by eapply lookup_lt_Some|done].
  - exists r, x. by rewrite list_lookup_insert_ne.
Qed.

Lemma y_close_eq s : ys_state s = Readable -> readers_ok Readable (ys_reader s) (ys_readers s) ->
  exists P, ReadableStreamClose s = (Ok tt, ended K Closed (ys_storedError s) YDone P s).
Proof.
  intros Hs H. unfold ReadableStreamClose. ystep. rewrite assert_bind by by apply bool_decide_true. ystep. unfold for_reader. ystep.
  unfold ended, end_readers, end_reads. destruct (ys_reader s) as [r|] eqn:Er.
  - destruct (y_current_reader _ _ _ r H eq_refl) as (x & Hx & Ho & Hk & Hv). rewrite Hx. unfold defaultReaderClosedPromiseResolve. rewrite bind_assoc. rewrite (y_the_reader_bind r x) by done.
    rewrite Hv, bool_decide_true by done. cbn [negb]. unfold settle_promise, set_reader. ystep. unfold ReadableStreamHasDefaultReader. rewrite (current_of s r x Er Hx), Hk.
    exists (settle (yr_closed x) Fulfilled (ys_promises s)). destruct K.
    + unfold with_closed. rewrite Hk. reflexivity.
    + cbn [negb when]. unfold settle_requests. rewrite (y_the_reader_bind r (with_closed (yr_closed x) false x)) by (yprojs; apply list_lookup_insert_eq; by eapply lookup_lt_Some).
      unfold set_reader. ystep. unfold modify. yprojs. rewrite list_insert_insert_eq. rewrite (y_requests_of s r x Er Hx). unfold with_closed, with_requests. cbn. rewrite Hk. reflexivity.
  - exists (ys_promises s). unfold requests, current. rewrite Er. cbn [mbind option_bind foldl]. unfold mret, sm_ret. destruct s; cbn in *. subst. by destruct K.
Qed.

Lemma y_error_eq e s : ys_state s = Readable -> readers_ok Readable (ys_reader s) (ys_readers s) ->
  exists P, ReadableStreamError e s = (Ok tt, ended false Errored e (YError e) P s).
Proof.
  intros Hs H. unfold ReadableStreamError. ystep. rewrite assert_bind by by apply bool_decide_true. ystep. unfold for_reader. ystep.
  unfold ended, end_readers, end_reads. destruct (ys_reader s) as [r|] eqn:Er.
  - destruct (y_current_reader _ _ _ r H eq_refl) as (x & Hx & Ho & Hk & Hv). rewrite Hx. unfold defaultReaderClosedPromiseReject. rewrite bind_assoc. rewrite (y_the_reader_bind r x) by done.
    rewrite Hv, bool_decide_true by done. cbn [negb]. unfold settle_promise, set_reader. ystep.
    exists (settle (yr_closed x) (Rejected e) (ys_promises s)). unfold settle_requests. rewrite (y_the_reader_bind r (with_closed (yr_closed x) false x)) by (yprojs; apply list_lookup_insert_eq; by eapply lookup_lt_Some).
    unfold set_reader. ystep. unfold modify. yprojs. rewrite list_insert_insert_eq. rewrite (y_requests_of s r x Er Hx). unfold with_closed, with_requests. cbn. reflexivity.
  - exists (ys_promises s). unfold requests, current. rewrite Er. cbn [mbind option_bind foldl]. unfold mret, sm_ret. destruct s; cbn in *. by subst.
Qed.

(** A stream that ends with nothing queued keeps its descriptors. *)
Lemma graceful_inv busy w s alg P : Inv busy w s -> calm w = true -> ys_state s = Readable -> bd_queue (ys_data s) = [] ->
  Forall (fun p => pd_filled p mod pd_elem p = 0) (bd_pending (ys_data s)) ->
  Inv busy w (ended K Closed (ys_storedError s) YDone P (set_yc_algorithms alg s)).
Proof.
  intros ([H1 H2 H3 H4 (lost & H5 & H5') [F1 F2 F4 F5 F6 F7 F8 F9 F10 F11 F12 F13]] & F3 & Hp) Hw Hs Hq Hal. split; [|by split]. rewrite Hs in H3.
  set (s0 := set_yc_algorithms alg s). assert (Hr0 : readers_ok (ys_state s0) (ys_reader s0) (ys_readers s0)) by (unfold s0; yprojs; by rewrite Hs).
  destruct (y_end_reads_ok w YDone s0 ltac:(done) eq_refl H4) as [Hrd Hdl].
  assert (Hreq : requests (ended K Closed (ys_storedError s) YDone P s0) = if K then requests s else []) by (rewrite (ended_requests K) by done; by destruct K).
  split.
  - done.
  - by destruct w.
  - unfold ended. yprojs. by apply (y_end_readers_ok K Closed s0).
  - rewrite Hreq. unfold ended. yprojs. destruct K; [exact H4|exact Hrd].
  - exists lost. unfold ended. yprojs. assert (E : delivered (if K then ys_reads s else end_reads YDone s0) = delivered (ys_reads s)) by (destruct K; done).
    rewrite E. split; [done|]. intros Hl. by destruct (H5' Hl).
  - split; rewrite ?Hreq; unfold ended; yprojs; try done.
    + intros Hv. destruct (F4 Hv) as [-> ->]. by destruct K.
    + intros Hk. destruct Hk as [Hk|[_ ?]]; [|done]. rewrite Hk. apply F8. by left.
    + intros Hk. destruct (F9 Hk) as (A & B & C). rewrite Hk. split; [done|]. split; [done|]. intros Ha. by destruct (C Ha).
    + intros Hk. by apply (end_readers_released K s0), F11.
Qed.

(** A stream that ends with its bytes thrown away. *)
Lemma drop_inv busy w s d alg st err v P : Inv busy w s -> steady w = true -> ys_state s = Readable -> st <> Readable -> v <> YPending -> data_of v = [] ->
  Data (way_bufs w) d -> bd_queue d = [] -> bd_pending d = [] -> keeps_way w (ys_data s) d ->
  st = Errored \/ existsb is_cancel (ys_calls s) = true ->
  Inv busy w (ended false st err v P (set_yc_algorithms alg (set_ys_data d s))).
Proof.
  intros ([H1 H2 H3 H4 (lost & H5 & H5') [F1 F2 F4 F5 F6 F7 F8 F9 F10 F11 F12 F13]] & F3 & Hp) Hw Hs Hst Hv Hdv Hd Hq Hpe Hkw Hwhy. destruct (keeps_way_ok _ _ _ Hw H2 Hkw) as [Hb Hok]. split; [|split; [|done]]. 2: by unfold drained, ended; yprojs; rewrite Hpe. rewrite Hs in H3.
  set (s0 := set_yc_algorithms alg (set_ys_data d s)). assert (Hr0 : readers_ok (ys_state s0) (ys_reader s0) (ys_readers s0)) by (unfold s0; yprojs; by rewrite Hs).
  destruct (y_end_reads_ok w v s0 Hv Hdv H4) as [Hrd Hdl].
  assert (Hreq : requests (ended false st err v P s0) = []) by (by rewrite (ended_requests false)).
  assert (Hqb : queue_bytes d = []) by (unfold queue_bytes; by rewrite Hq).
  split.
  - done.
  - by apply Hok.
  - unfold ended. yprojs. by apply (y_end_readers_ok false st s0).
  - rewrite Hreq. unfold ended. yprojs. exact Hrd.
  - exists (given_bytes (bd_pending (ys_data s)) ++ queue_bytes (ys_data s) ++ lost). unfold ended. yprojs. rewrite Hpe, Hqb, Hb. cbn [app given_bytes concat fmap list_fmap].
    rewrite Hdl. split; [done|]. intros _. split; [done|]. destruct Hwhy; [by left|by right; left].
  - split; rewrite ?Hreq; unfold ended; yprojs; rewrite ?Hpe, ?Hq; try done.
    + intros [Hk|[_ ?]]; [|done]. cbn. by destruct w.
    + intros (p & Hin & _). by apply elem_of_nil in Hin.
Qed.

(* ------------------------------------------------------------------ *)
(** ** Errors and closing *)

Definition wiped (d : bdata) : bdata := set_total 0 (set_queue [] (set_pending [] (invalidated d))).
Lemma clear_eq d : ReadableByteStreamControllerClearPendingPullIntos d = (Ok tt, set_pending [] (invalidated d)).
Proof. unfold ReadableByteStreamControllerClearPendingPullIntos. by rewrite (bind_ok _ _ _ _ _ (invalidate_eq d)). Qed.
Lemma reset_eq d : ResetQueue d = (Ok tt, set_total 0 (set_queue [] d)).
Proof. done. Qed.
Lemma wiped_data xs d : Data xs d -> Data xs (wiped d).
Proof. intros H. apply reset_data. by apply cleared_data. Qed.
Lemma wiped_way d w : keeps_way w d (wiped d).
Proof. intros b c _ Hc. unfold private, wiped. cbn. by rewrite (proj1 (invalidated_same d)). Qed.

Lemma error_quiet busy e : quiet busy (ReadableByteStreamControllerError e).
Proof.
  intros w s Hw H. unfold ReadableByteStreamControllerError. ystep. unfold state_is. case_bool_decide as Hs; cbn [negb]; [|by exists s].
  rewrite (on_data_ok _ _ _ _ _ (clear_eq _)). rewrite (on_data_ok _ _ _ _ _ (reset_eq _)). unfold ReadableByteStreamControllerClearAlgorithms. ystep. pose proof H as ([Hd _ Hr _ _ _] & _).
  destruct (y_error_eq e (set_yc_algorithms false (set_ys_data (wiped (ys_data s)) s))) as [P E]; [done|yprojs; by rewrite Hs in Hr|].
  eexists. split; [exact E|]. apply drop_inv; try done.
  - by apply calm_steady.
  - by apply wiped_data.
  - apply wiped_way.
  - by left.
Qed.

(** Closing at once: nothing is queued. *)
Lemma finish_close busy w s : Inv busy w s -> calm w = true -> ys_state s = Readable -> bd_queue (ys_data s) = [] ->
  Forall (fun p => pd_filled p mod pd_elem p = 0) (bd_pending (ys_data s)) ->
  exists s', (ReadableByteStreamControllerClearAlgorithms ;; ReadableStreamClose) s = (Ok tt, s') /\ Inv busy w s'.
Proof.
  intros H Hw Hs Hq Hal. unfold ReadableByteStreamControllerClearAlgorithms. ystep. pose proof H as ([_ _ Hr _ _ _] & _).
  destruct (y_close_eq (set_yc_algorithms false s)) as [P E]; [done|yprojs; by rewrite Hs in Hr|].
  eexists. split; [exact E|]. exact (graceful_inv busy w s false P H Hw Hs Hq Hal).
Qed.

Lemma filled_rest xs d p ps : Data xs d -> bd_pending d = p :: ps -> pd_filled p mod pd_elem p = 0 -> Forall (fun p => pd_filled p mod pd_elem p = 0) (bd_pending d).
Proof.
  intros H E Hm. rewrite E. constructor; [done|]. pose proof (da_tail _ _ H) as Ht. rewrite E in Ht. cbn in Ht. eapply Forall_impl; [exact Ht|]. intros q [_ ->]. apply Nat.Div0.mod_0_l.
Qed.

Lemma ctl_close_keeps busy : keeps busy ReadableByteStreamControllerClose.
Proof.
  intros w s Hw H. unfold ReadableByteStreamControllerClose. ystep. unfold state_is. destruct (yc_closeRequested s) eqn:Ec; [by apply y_good_ok|]. cbn [orb]. case_bool_decide as Hs; cbn [negb]; [|by apply y_good_ok].
  pose proof H as ([Hd Hwy Hr Hrd Hf Hfl] & Hdr & Hp). case_bool_decide as Ht.
  - unfold modify. apply y_good_ok. split; [|by split]. split; try done. destruct Hfl. split; try done. yprojs. intros _ _ Hq. unfold queueTotalSize in Ht. pose proof (da_total _ _ Hd) as Hto. rewrite Hq in Hto. cbn in Hto. lia.
  - assert (Hq : bd_queue (ys_data s) = []) by (eapply total_zero; [exact Hd|]; unfold queueTotalSize in Ht; lia).
    unfold pendingPullIntos. destruct (bd_pending (ys_data s)) as [|p ps] eqn:Ep.
    + destruct (finish_close busy w s H Hw Hs Hq) as (s' & -> & Hi); [by rewrite Ep|]. by apply y_good_ok.
    + case_bool_decide as Hm; cbn [negb].
      * destruct (finish_close busy w s H Hw Hs Hq) as (s' & -> & Hi); [by eapply filled_rest|]. by apply y_good_ok.
      * destruct (error_quiet busy (ErrorObj ErrTypeError insufficient) w s Hw H) as (s' & E & Hi). rewrite (bind_ok _ _ _ _ _ E). by apply good_throw.
Qed.

Lemma close_op_keeps busy : keeps busy controller_close.
Proof.
  intros w s Hw H. unfold controller_close. ystep. destruct (yc_closeRequested s); [by apply good_throw|]. destruct (negb (state_is Readable s)); [by apply good_throw|].
  by apply ctl_close_keeps.
Qed.

(* ------------------------------------------------------------------ *)
(** ** Handing views over *)

Lemma shift_request_eq r x i rest s : ys_reader s = Some r -> ys_readers s !! r = Some x -> yr_requests x = i :: rest ->
  shift_request s = (Ok i, set_ys_readers (<[r := with_requests rest x]> (ys_readers s)) s).
Proof.
  intros Er Hx Hq. unfold shift_request. ystep. rewrite Er, (y_requests_of s r x Er Hx), Hq. rewrite (y_the_reader_bind r x) by done. reflexivity.
Qed.

Definition handed (done : bool) (v : view) (i : nat) (s : bstream) : bstream :=
  set_ys_data (share (vw_buffer v) (ys_data s)) (set_ys_reads (<[i := YView done v (region (ys_data s) (vw_buffer v) (vw_offset v) (vw_length v))]> (ys_reads s)) s).
Lemma deliver_eq done v i s : deliver done v i s = (Ok tt, handed done v i s).
Proof. reflexivity. Qed.

Lemma insert_read {A} (settled : list A) n x y i : i = length settled -> <[i := x]> (settled ++ replicate (S n) y) = (settled ++ [x]) ++ replicate n y.
Proof. intros ->. cbn [replicate]. rewrite insert_app_r_alt by lia. rewrite Nat.sub_diag. cbn. by rewrite <- app_assoc. Qed.

Lemma delivered_snoc l v : delivered (l ++ [v]) = delivered l ++ data_of v.
Proof. rewrite y_delivered_app. f_equal. unfold delivered. cbn. by rewrite app_nil_r. Qed.
Lemma delivered_pending k : delivered (replicate k YPending) = [].
Proof. by apply delivered_silent. Qed.

(** The view under way reaches its read. *)
Lemma deliver_inv busy done v i s : Inv busy (WView i v) s -> Inv busy WNone (handed done v i s).
Proof.
  intros ([H1 H2 H3 (settled & R1 & R2 & R3 & R4) (lost & H5 & H5') [F1 F2 F4 F5 F6 F7 F8 F9 F10 F11 F12 F13]] & F3 & Hp). split; [|by split].
  destruct (F4 eq_refl) as [Epe Erq]. rewrite Erq in *. cbn [length way_reads] in *. cbn in R2. destruct (share_data [] (ys_data s) (vw_buffer v) H1) as [Hd Hqb].
  unfold handed. split; yprojs.
  - done.
  - done.
  - done.
  - change (requests (set_ys_data _ _)) with (requests s). rewrite Erq. exists (settled ++ [YView done v (region (ys_data s) (vw_buffer v) (vw_offset v) (vw_length v))]). split_and!; [|rewrite R2; apply (insert_read settled 0); lia|done|done].
    rewrite elem_of_app, list_elem_of_singleton. by intros [?|?].
  - exists lost. yprojs. rewrite Hqb. split; [|done]. rewrite R2. change ([YPending]) with (replicate 1 YPending). rewrite (insert_read settled 0) by lia. cbn [replicate]. rewrite app_nil_r, delivered_snoc. rewrite R2 in H5. change ([YPending]) with (replicate 1 YPending) in H5. rewrite y_delivered_app, (delivered_pending 1), app_nil_r in H5.
    cbn [data_of way_bytes] in *. change (bd_pending (share (vw_buffer v) (ys_data s))) with (bd_pending (ys_data s)). rewrite <- H5. by rewrite <- !app_assoc.
  - split; yprojs; change (requests (set_ys_data (share (vw_buffer v) (ys_data s)) (set_ys_reads (<[i:=YView done v (region (ys_data s) (vw_buffer v) (vw_offset v) (vw_length v))]> (ys_reads s)) s))) with (requests s); rewrite ?Erq; done.
Qed.

(** Whether closing is asked for matters only while something is queued. *)
Lemma reflag_inv busy w s b : Inv busy w s -> ys_state s <> Readable \/ (b = true -> bd_queue (ys_data s) <> []) -> Inv busy w (set_yc_closeRequested b s).
Proof.
  intros ([H1 H2 H3 H4 H5 [F1 F2 F4 F5 F6 F7 F8 F9 F10 F11 F12 F13]] & F3 & Hp) Hb. split; [|by split]. split; try done.
  - split; try done. yprojs. intros E Hs. destruct Hb as [?|Hb]; [done|by apply Hb].
Qed.
Lemma reflag_same s : set_yc_closeRequested (yc_closeRequested s) (set_yc_closeRequested false s) = s.
Proof. by destruct s. Qed.

(** The first chunk of the queue on its way to the read just made. *)
Definition entry_view (e : entry) : view := View (Typed 1) (en_buffer e) (en_offset e) (en_length e).

Lemma dequeue_inv busy i s e rest : Inv busy (WRead i) s -> requests s = [] -> bd_pending (ys_data s) = [] -> bd_queue (ys_data s) = e :: rest ->
  Inv busy (WView i (entry_view e)) (set_yc_closeRequested false (set_ys_data (dequeued e rest (ys_data s)) s)).
Proof.
  intros ([H1 H2 H3 H4 (lost & H5 & H5') [F1 F2 F4 F5 F6 F7 F8 F9 F10 F11 F12 F13]] & F3 & Hp) Hreq Hpe Eq.
  destruct (dequeued_data _ _ _ _ H1 Eq) as (Hd & Hqb & c & Hc & Hl). assert (Hst : ys_state s = Readable) by (destruct (decide (ys_state s = Readable)) as [?|Hn]; [done|]; rewrite (F1 Hn) in Eq; done).
  split; [|split; [|done]]. 2: by unfold drained; yprojs; unfold dequeued; cbn; rewrite Hpe.
  split; yprojs; try done.
  - by exists c.
  - exists lost. yprojs. split; [|done]. cbn [way_bytes entry_view vw_buffer vw_offset vw_length]. rewrite <- H5, Hqb. cbn [way_bytes app]. unfold dequeued. cbn [bd_pending set_total set_queue]. rewrite Hpe. cbn [given_bytes concat fmap list_fmap app].
    change (region (set_total _ (set_queue rest (ys_data s))) (en_buffer e) (en_offset e) (en_length e)) with (region (ys_data s) (en_buffer e) (en_offset e) (en_length e)). by rewrite <- app_assoc.
  - split; yprojs; try done.
    + intros Hk. destruct (F9 Hk) as (A & B & C). split; [done|]. split; [done|]. intros Ha. split; [done|]. intros Hr. change (requests s <> []) in Hr. by rewrite Hreq in Hr.
Qed.

Section Again.
Variables (busy : bool) (again : YM unit).
Hypothesis Hagain : quiet busy again.

Lemma drain_spec w s : calm w = true -> Inv busy w (set_yc_closeRequested false s) -> ys_state s = Readable -> bd_pending (ys_data s) = [] ->
  exists s', ReadableByteStreamControllerHandleQueueDrain again s = (Ok tt, s') /\ Inv busy w s'.
Proof.
  intros Hw H Hs Hpe. unfold ReadableByteStreamControllerHandleQueueDrain. ystep. rewrite assert_bind by by apply bool_decide_true.
  destruct (bool_decide (queueTotalSize s = 0) && yc_closeRequested s) eqn:E.
  - apply andb_true_iff in E as [Et%bool_decide_eq_true Ec]. set (s1 := set_yc_closeRequested false s). pose proof H as ([Hd _ Hr _ _ _] & _).
    assert (Hq : bd_queue (ys_data s) = []) by (by eapply total_zero).
    unfold ReadableByteStreamControllerClearAlgorithms. ystep. destruct (y_close_eq (set_yc_algorithms false s)) as [P E]; [done|yprojs; by rewrite <- Hs|].
    eexists. split; [exact E|]. pose proof (graceful_inv busy w s1 false P H Hw Hs Hq ltac:(unfold s1; yprojs; by rewrite Hpe)) as Hi.
    apply (reflag_inv _ _ _ (yc_closeRequested s)) in Hi; [|by left]. exact Hi.
  - destruct (Hagain w s Hw) as (s' & E' & Hi); [|by exists s']. rewrite <- (reflag_same s). apply reflag_inv; [done|]. right. intros Ec Hq. yprojs.
    rewrite Ec, andb_true_r in E. apply bool_decide_eq_false in E. apply E. pose proof H as ([Hd _ _ _ _ _] & _). pose proof (da_total _ _ Hd) as Ht.
    change (bd_total (ys_data s) = lengths (bd_queue (ys_data s))) in Ht. change (bd_queue (ys_data s) = []) in Hq. unfold queueTotalSize. by rewrite Ht, Hq.
Qed.

Lemma fill_read_spec i s : Inv busy (WRead i) s -> requests s = [] -> bd_pending (ys_data s) = [] -> bd_queue (ys_data s) <> [] ->
  exists s', ReadableByteStreamControllerFillReadRequestFromQueue again i s = (Ok tt, s') /\ Inv busy WNone s'.
Proof.
  intros H Hreq Hpe Hne. unfold ReadableByteStreamControllerFillReadRequestFromQueue. ystep. destruct (bd_queue (ys_data s)) as [|e rest] eqn:Eq; [done|].
  pose proof H as ([Hd _ _ _ _ Hfl] & _). assert (Ht : 0 < queueTotalSize s).
  { unfold queueTotalSize. rewrite (da_total _ _ Hd), Eq. cbn. pose proof (da_queue _ _ Hd) as Hq. rewrite Eq in Hq. inversion Hq as [|? ? [He _] _]; subst. lia. }
  rewrite assert_bind by by apply bool_decide_true. rewrite (on_data_ok _ _ _ _ _ (eq_refl : modify (set_queue rest) (ys_data s) = (Ok tt, set_queue rest (ys_data s)))). cbv beta.
  rewrite (on_data_ok _ _ _ tt (dequeued e rest (ys_data s))) by reflexivity. cbv beta.
  assert (Hst : ys_state s = Readable) by (destruct (decide (ys_state s = Readable)) as [?|Hn]; [done|]; pose proof (yl_ended _ _ Hfl Hn) as E0; rewrite Eq in E0; done).
  pose proof (dequeue_inv _ _ _ _ _ H Hreq Hpe Eq) as Hi.
  destruct (drain_spec (WView i (entry_view e)) (set_ys_data (dequeued e rest (ys_data s)) s) eq_refl Hi Hst Hpe) as (s2 & E2 & Hi2).
  change (set_ys_data (dequeued e rest (ys_data s)) (set_ys_data (set_queue rest (ys_data s)) s)) with (set_ys_data (dequeued e rest (ys_data s)) s).
  rewrite (bind_ok _ _ _ _ _ E2). pose proof Hi2 as ([_ (c & Hc & Hl) _ _ _ _] & _). cbn in Hc, Hl.
  assert (Env : new_view (Typed 1) (en_buffer e) (en_offset e) (en_length e) (ys_data s2) = (Ok (entry_view e), ys_data s2)).
  { unfold new_view. rewrite gets_bind. unfold id. rewrite (content_private _ _ _ Hc). cbn [arrayBufferViewElementSize]. by rewrite Nat.mod_1_r, !bool_decide_true by done. }
  rewrite (on_data_ok _ _ _ _ _ Env), set_data_same. rewrite deliver_eq. eexists. split; [done|]. by apply (deliver_inv busy false (entry_view e) i).
Qed.
End Again.

(* ------------------------------------------------------------------ *)
(** ** Descriptors that are ready *)

Lemma descs_none busy s : Inv busy (WDescs []) s <-> Inv busy WNone s.
Proof.
  split; intros ([H1 H2 H3 H4 H5 [F1 F2 F4 F5 F6 F7 F8 F9 F10 F11 F12 F13]] & F3 & Hp); (split; [|by split]); (split; try done); by repeat split.
Qed.

Lemma live_all ps : Forall (fun p => pd_type p <> ForNone) ps -> live ps = ps.
Proof. induction 1 as [|p ps Hp _ IH]; [done|]. unfold live. rewrite filter_cons_True by done. f_equal. exact IH. Qed.

Lemma process_empty s : yc_closeRequested s = false -> bd_pending (ys_data s) = [] -> ReadableByteStreamControllerProcessPullIntoDescriptorsUsingQueue s = (Ok [], s).
Proof.
  intros Hc Hp. unfold ReadableByteStreamControllerProcessPullIntoDescriptorsUsingQueue. ystep. rewrite assert_bind by by rewrite Hc. unfold pendingPullIntos. rewrite Hp.
  rewrite (on_data_run _ _ [] (ys_data s)); [by rewrite set_data_same|]. cbn [process_loop length]. rewrite gets_bind. unfold id. by rewrite Hp.
Qed.

Lemma process_descs busy ps0 s : Core (WDescs ps0) s -> (yc_pullAgain s || busy = true -> yc_pulling s = true) -> ys_state s = Readable -> yc_closeRequested s = false ->
  bd_request (ys_data s) = None -> bd_pending (ys_data s) <> [] -> Forall (fun p => pd_type p <> ForNone) (bd_pending (ys_data s)) ->
  exists ps s', ReadableByteStreamControllerProcessPullIntoDescriptorsUsingQueue s = (Ok ps, s') /\ Inv busy (WDescs (ps0 ++ ps)) s'.
Proof.
  intros [H1 H2 H3 H4 (lost & H5 & H5') [F1 F2 F4 F5 F6 [F7 F7'] F8 F9 F10 F11 F12 F13]] Hp Hs Hc Hr Hne Hty.
  unfold ReadableByteStreamControllerProcessPullIntoDescriptorsUsingQueue. ystep. rewrite assert_bind by by rewrite Hc. unfold pendingPullIntos. set (d := ys_data s) in *.
  assert (Hw : Forall waiting_desc (bd_pending d)). { apply Forall_forall. intros p Hin. rewrite Forall_forall in F7, Hty. split; [by apply Hty|apply (F7 p Hin)]. }
  destruct (process_spec (S (length (bd_pending d))) _ d H1 Hr Hw ltac:(lia)) as (ps & d' & E & [P1 P2 P3 P4 P5 P6 P7 P8 P9]).
  assert (Hauto : K = true \/ auto <> None /\ ys_state s = Readable).
  { destruct (decide (auto = None)) as [Ha|Ha]; [|right; done]. left. destruct (decide (K = true)) as [?|Hk]; [done|]. apply not_true_is_false in Hk. destruct (F9 Hk) as (_ & _ & C). by destruct (C Ha). }
  assert (HT : Forall (fun p => pd_type p = T) (bd_pending d)). { apply Forall_forall. intros p Hin. rewrite Forall_forall in F7, Hty. destruct (F7 p Hin) as [[?|?] _]; [done|]. by destruct (Hty p Hin). }
  assert (HTall : Forall (fun t => t = T) ((pd_type <$> ps) ++ (pd_type <$> bd_pending d'))). { rewrite P7. apply Forall_fmap. exact HT. }
  apply Forall_app in HTall as [HTp HTd]. apply (proj1 (Forall_fmap pd_type _ _)) in HTp. apply (proj1 (Forall_fmap pd_type _ _)) in HTd.
  assert (Hlen : length ps + length (bd_pending d') = length (bd_pending d)). { apply (f_equal length) in P7. by rewrite length_app, !length_fmap in P7. }
  assert (HTN : T <> ForNone) by (unfold T; by destruct K).
  assert (Hty' : Forall (fun p => pd_type p <> ForNone) (bd_pending d')) by (eapply Forall_impl; [exact HTd|]; cbv beta; intros p ->; done).
  exists ps, (set_ys_data d' s). split; [by apply on_data_run|]. split; [split|split].
  - cbn [way_bufs] in *. rewrite fmap_app. eapply data_swap; [|exact P1]. apply Permutation_app_comm.
  - destruct H2 as [H2 H2']. split.
    + apply Forall_app. split.
      * apply Forall_forall. intros p Hin. rewrite Forall_forall in H2. destruct (H2 p Hin) as [(Hsh & (c & Hcc & Hca) & Hm) Ht]. split; [|done]. split; [done|]. split; [|done]. exists c. split; [|done]. apply P9; [|done]. cbn. by apply list_elem_of_fmap_2.
      * apply Forall_forall. intros p Hin. rewrite Forall_forall in P3, HTp. split; [by apply P3|by apply HTp].
    + intros _. yprojs. split; [by rewrite Hs|done].
  - done.
  - exact H4.
  - exists lost. yprojs. split; [|done]. rewrite <- H5. cbn [way_bytes]. unfold given_bytes at 1. rewrite fmap_app, concat_app. fold (given_bytes ps0) (given_bytes ps). rewrite <- !app_assoc. do 2 f_equal.
    rewrite (app_assoc (given_bytes (bd_pending d))), <- P6. by rewrite <- !app_assoc.
  - split; yprojs; try done.
    + by rewrite Hs.
    + rewrite Hc. done.
    + split; [|by destruct (bd_pending d'); [|inversion Hty']]. apply Forall_forall. intros p Hin. rewrite Forall_forall in HTd, P4. split; [left; by apply HTd|apply (P4 p Hin)].
    + intros Hk. change (requests (set_ys_data d' s)) with (requests s). rewrite (F8 Hk), (live_all _ Hty), (live_all _ Hty'). cbn [way_descs]. rewrite length_app. lia.
    + intros Hk. destruct (F9 Hk) as (A & B & C). split; [|split; [done|]].
      * apply Forall_forall. intros p Hin. destruct (P8 p Hin) as (p0 & Hp0 & _ & Hmin). rewrite Forall_forall in A, P4. destruct (A p0 Hp0) as [_ Hm1]. destruct (P4 p Hin) as [_ Hlt]. lia.
      * intros Ha. by destruct (C Ha).
    + by rewrite Hs.
    + intros (p & Hin & Ht). rewrite Forall_forall in Hty'. by destruct (Hty' p Hin).
  - unfold drained. yprojs. intros Hn. by destruct P5.
  - done.
Qed.

Lemma readers_requests st cur readers r x l : readers_ok st cur readers -> readers !! r = Some x -> readers_ok st cur (<[r := with_requests l x]> readers).
Proof.
  intros [H1 H2] Hx. split.
  - intros q Hq. destruct (H1 q Hq) as [y Hy]. destruct (decide (q = r)) as [->|?]; [rewrite list_lookup_insert_eq by (by eapply lookup_lt_Some); by eexists|rewrite list_lookup_insert_ne by done; by exists y].
  - intros q y Hy. destruct (decide (q = r)) as [->|?]; [rewrite list_lookup_insert_eq in Hy by (by eapply lookup_lt_Some); injection Hy as <-; exact (H2 r x Hx)|rewrite list_lookup_insert_ne in Hy by done; by apply H2].
Qed.
Lemma released_requests readers r x l : readers !! r = Some x -> released readers -> released (<[r := with_requests l x]> readers).
Proof.
  intros Hx (q & y & Hy & Ho). destruct (decide (q = r)) as [->|?].
  - rewrite Hx in Hy. injection Hy as <-. eexists r, _. split; [apply list_lookup_insert_eq; by eapply lookup_lt_Some|done].
  - exists q, y. by rewrite list_lookup_insert_ne.
Qed.
Lemma requests_set s r x l : ys_reader s = Some r -> ys_readers s !! r = Some x -> requests (set_ys_readers (<[r := with_requests l x]> (ys_readers s)) s) = l.
Proof. intros Er Hx. erewrite y_requests_of; [|exact Er|yprojs; apply list_lookup_insert_eq; by eapply lookup_lt_Some]. done. Qed.

Lemma share_private d b b' c : b' <> b -> private (bd_buffers d) b' c -> private (bd_buffers (share b d)) b' c.
Proof. intros Hne Hp. unfold private, share in *. cbn. by rewrite list_lookup_insert_ne. Qed.

(** A descriptor that is ready answers the oldest read. *)
Lemma commit_inv busy p ps s : Inv busy (WDescs (p :: ps)) s -> exists s', ReadableByteStreamControllerCommitPullIntoDescriptor p s = (Ok tt, s') /\ Inv busy (WDescs ps) s'.
Proof.
  intros H. pose proof H as ([H1 H2 H3 (settled & R1 & R2 & R3 & _) (lost & H5 & H5') [F1 F2 F4 F5 F6 F7 F8 F9 F10 F11 F12 F13]] & F3 & Hp).
  destruct H2 as [H2 H2']. destruct (H2' ltac:(done)) as [Hne Hk]. inversion H2 as [|? ? [(Hsh & Hown & Hal) HT] H2s]; subst.
  assert (Hcount : length (requests s) = S (length ps + length (live (bd_pending (ys_data s))))) by exact (F8 Hk).
  destruct (requests s) as [|i rest] eqn:Eq; [done|]. destruct (locked_of _ _ _ H) as (r & x & Er & Hx & Hrq & HK); [by rewrite Eq|]. rewrite Eq in Hrq.
  set (s1 := set_ys_readers (<[r := with_requests rest x]> (ys_readers s)) s).
  assert (Hgoal : forall done : bool, Inv busy (WDescs ps) (handed done (filled_view p) i s1)).
  { intros dn. cbn [way_bufs] in H1. rewrite fmap_cons in H1. destruct (share_data (pd_buffer <$> ps) (ys_data s) (pd_buffer p) H1) as [Hd Hqb].
    cbn [length seq] in R3. injection R3 as Hi Hrest. cbn [length] in R2. cbn [way_reads] in R2. rewrite Nat.add_0_r in R2.
    assert (Hreq1 : requests (handed dn (filled_view p) i s1) = rest) by (change (requests s1 = rest); by apply requests_set).
    assert (Hreg : region (ys_data s) (pd_buffer p) (pd_offset p) (pd_filled p) = pd_given p) by by apply filled_bytes.
    split; [split|split].
    - exact Hd.
    - split; [|intros _; by apply H2'].
      apply Forall_forall. intros q Hin. rewrite Forall_forall in H2s. destruct (H2s q Hin) as [(Hsq & (c & Hc & Hca) & Hm) Ht]. split; [|done]. split; [done|]. split; [|done]. exists c. split; [|done].
      apply share_private; [|done]. intros E. pose proof (da_nodup _ _ H1) as Hnd. cbn in Hnd. apply NoDup_cons in Hnd as [Hnd _]. apply Hnd. rewrite elem_of_app. left. cbn in E. rewrite <- E. by apply list_elem_of_fmap_2.
    - unfold handed, s1. yprojs. by apply readers_requests.
    - rewrite Hreq1. unfold handed, s1. yprojs. cbn [filled_view vw_buffer vw_offset vw_length]. rewrite Hreg. exists (settled ++ [YView dn (filled_view p) (pd_given p)]). split_and!.
      + rewrite elem_of_app, list_elem_of_singleton. by intros [?|?].
      + rewrite R2. cbn [way_reads]. rewrite Nat.add_0_r. by apply insert_read.
      + rewrite length_app. cbn. by rewrite Nat.add_1_r.
      + done.
    - exists lost. unfold handed, s1. yprojs. cbn [filled_view vw_buffer vw_offset vw_length]. rewrite Hreg. split.
      + rewrite R2. rewrite (insert_read settled _) by done. rewrite R2 in H5. rewrite !y_delivered_app, !delivered_pending, !app_nil_r in *. rewrite <- H5. rewrite Hqb. cbn [way_bytes]. unfold given_bytes at 3. rewrite fmap_cons. cbn [concat]. fold (given_bytes ps).
        unfold delivered at 2. cbn. rewrite app_nil_r. by rewrite <- !app_assoc.
      + intros Hl. destruct (H5' Hl) as [A [B|[B|B]]]; split; auto. right. right. by apply released_requests.
    - split; rewrite ?Hreq1; unfold handed, s1; yprojs; try done.
      + intros Hk'. cbn [way_descs]. cbn [length] in Hcount. change (bd_pending (share _ (ys_data s))) with (bd_pending (ys_data s)). lia.
      + intros Hk'. destruct (F9 Hk') as (A & B & C). split; [done|]. split; [intros Hcl; by specialize (B Hcl)|]. intros Ha. destruct (C Ha) as [C1 C2]. split; [done|]. intros _. by apply C2.
      + intros Hx2. apply released_requests; [done|]. by apply F11.
    - exact F3.
    - done. }
  unfold ReadableByteStreamControllerCommitPullIntoDescriptor. ystep. unfold state_is.
  rewrite assert_bind by by rewrite bool_decide_false. rewrite assert_bind by (rewrite HT; unfold T; by destruct K).
  assert (Ew : when (bool_decide (ys_state s = Closed)) (assert (bool_decide (pd_filled p mod pd_elem p = 0))) s = (Ok tt, s)) by (destruct (bool_decide _); [cbn [when]; unfold assert; by rewrite bool_decide_true|done]).
  rewrite (bind_ok _ _ _ _ _ Ew). rewrite (on_data_ok _ _ _ _ _ (convert_spec _ _ Hsh Hown Hal)), set_data_same.
  assert (Esh : shift_request s = (Ok i, s1)) by (by apply shift_request_eq). exists (handed (bool_decide (ys_state s = Closed)) (filled_view p) i s1). split; [|apply Hgoal].
  rewrite HT. unfold T. destruct Hk as [Hk|[Ha Hrd]].
  - rewrite Hk. rewrite bool_decide_false by done. rewrite assert_bind by done. ystep. rewrite assert_bind by (apply bool_decide_true; by rewrite Eq). by rewrite (bind_ok _ _ _ _ _ Esh).
  - destruct K.
    + rewrite bool_decide_false by done. rewrite assert_bind by done. ystep. rewrite assert_bind by (apply bool_decide_true; by rewrite Eq). by rewrite (bind_ok _ _ _ _ _ Esh).
    + rewrite bool_decide_true by done. unfold ReadableStreamFulfillReadRequest. ystep. rewrite assert_bind by (apply bool_decide_true; by rewrite Eq). rewrite (bind_ok _ _ _ _ _ Esh). rewrite bool_decide_false by by rewrite Hrd. done.
Qed.

Lemma commits_inv busy ps : forall s, Inv busy (WDescs ps) s -> exists s', ReadableByteStreamControllerCommitPullIntoDescriptors ps s = (Ok tt, s') /\ Inv busy WNone s'.
Proof.
  induction ps as [|p ps IH]; intros s H.
  - exists s. split; [done|]. by apply descs_none.
  - destruct (commit_inv _ _ _ _ H) as (s1 & E & H1). destruct (IH s1 H1) as (s2 & E2 & H2). exists s2. split; [|done]. cbn [ReadableByteStreamControllerCommitPullIntoDescriptors]. by rewrite (bind_ok _ _ _ _ _ E).
Qed.

(* ------------------------------------------------------------------ *)
(** ** A descriptor whose reader is gone *)

Lemma cloned_queue_eq b off n c s : content (ys_data s) b = Some c ->
  ReadableByteStreamControllerEnqueueClonedChunkToQueue b off n s = (Ok tt, set_ys_data (queued (fresh_id (ys_data s)) 0 n (added (slice off n c) false (ys_data s))) s).
Proof. intros Hc. unfold ReadableByteStreamControllerEnqueueClonedChunkToQueue. rewrite (on_data_run _ _ _ _ (slice_spec _ _ _ _ _ Hc)). reflexivity. Qed.

(** What it has goes to the queue, and it goes away. *)
Lemma enqueue_detached_spec xs s p ps : Data xs (ys_data s) -> bd_request (ys_data s) = None -> bd_pending (ys_data s) = p :: ps -> pd_type p = ForNone ->
  exists d, ReadableByteStreamControllerEnqueueDetachedPullIntoToQueue p s = (Ok tt, set_ys_data d s) /\ Data xs d /\ queue_bytes d = queue_bytes (ys_data s) ++ pd_given p /\
    bd_pending d = ps /\ bd_request d = None /\ (pd_filled p = 0 -> bd_queue d = bd_queue (ys_data s)) /\ (forall b c, private (bd_buffers (ys_data s)) b c -> private (bd_buffers d) b c).
Proof.
  intros H Hr E Ht. unfold ReadableByteStreamControllerEnqueueDetachedPullIntoToQueue. rewrite assert_bind by by apply bool_decide_true.
  pose proof (da_shape _ _ H) as Hsh. rewrite E in Hsh. inversion Hsh as [|? ? [S1 S2 S3 S4 [S5 S6]] _]; subst. pose proof (da_head _ _ H) as Hh. unfold head_ok in Hh. rewrite E, Hr in Hh. destruct Hh as (c & Hc & Hl & Hs).
  case_bool_decide as Hf; cbn [when].
  - rewrite (bind_ok _ _ _ _ _ (cloned_queue_eq _ _ _ _ _ (content_private _ _ _ Hc))). set (d1 := queued _ _ _ _). destruct (cloned_data xs (ys_data s) (pd_buffer p) c (pd_offset p) (pd_filled p) H (content_private _ _ _ Hc) Hf ltac:(lia)) as [Hd1 Hq1]. fold d1 in Hd1, Hq1.
    assert (Hr1 : bd_request d1 = None) by exact Hr. assert (Hp1 : bd_pending d1 = p :: ps) by exact E. cbv beta.
    rewrite (on_data_ok _ _ (set_ys_data d1 s) _ _ (shift_spec p ps d1 Hr1 Hp1)). exists (set_pending ps d1). split; [done|]. split; [apply (data_forget (pd_buffer p)); by eapply shifted_data|]. split; [|split; [done|split; [done|split; [lia|]]]].
    + change (queue_bytes (set_pending ps d1)) with (queue_bytes d1). by rewrite Hq1, Hs.
    + intros b c' Hb. unfold private. cbn. by apply frame_app.
  - rewrite ret_bind. rewrite (on_data_ok _ _ _ _ _ (shift_spec p ps _ Hr E)). exists (set_pending ps (ys_data s)). split; [done|]. split; [apply (data_forget (pd_buffer p)); by eapply shifted_data|]. split; [|done].
    change (queue_bytes (set_pending ps (ys_data s))) with (queue_bytes (ys_data s)). assert (Hg : pd_given p = []) by (apply nil_length_inv; lia). by rewrite Hg, app_nil_r.
Qed.

(** Nothing is lost while the stream is readable. *)
Lemma lost_none w s : fifo_ok w s -> ys_state s = Readable ->
  delivered (ys_reads s) ++ way_bytes (ys_data s) w ++ given_bytes (bd_pending (ys_data s)) ++ queue_bytes (ys_data s) = kept K (ys_accepted s).
Proof. intros (lost & H & Hl) Hs. destruct lost as [|x lost]; [by rewrite !app_nil_r in H|]. by destruct (Hl ltac:(done)). Qed.

(** The stream without it; [log] is what the source has just written. *)
Lemma detached_core w s p ps d log : Core w s -> calm w = true -> bd_queue (ys_data s) = [] -> bd_pending (ys_data s) = p :: ps -> pd_type p = ForNone -> ys_state s = Readable -> yc_closeRequested s = false ->
  Data (way_bufs w) d -> queue_bytes d = queue_bytes (ys_data s) ++ pd_given p ++ kept K log -> bd_pending d = ps -> keeps_way w (ys_data s) d ->
  Core w (set_ys_accepted (ys_accepted s ++ log) (set_ys_data d s)) /\ Forall (fun p => pd_type p <> ForNone) (bd_pending d).
Proof.
  intros [H1 H2 H3 H4 H5 [F1 F2 F4 F5 F6 [F7 F7'] F8 F9 F10 F11 F12 F13]] Hw Hq Ep Ht Hs Hc Hd Hb Hp Hk. destruct (keeps_way_ok _ _ _ (calm_steady _ Hw) H2 Hk) as [Hwb Hok].
  pose proof (lost_none _ _ H5 Hs) as H5'. rewrite Ep in *. cbn in F7'. inversion F7 as [|? ? _ F7s]; subst ps. assert (Hlive : live (p :: bd_pending d) = live (bd_pending d)) by (unfold live; rewrite filter_cons_False; [done|by intros []]).
  assert (Hgb : given_bytes (bd_pending d) = []). { apply tail_given; [apply (da_shape _ _ Hd)|]. pose proof (da_tail _ _ H1) as Htl. rewrite Ep in Htl. cbn in Htl. eapply Forall_impl; [exact Htl|]. by intros ? [_ ?]. }
  split; [|done]. split; yprojs; try done.
  - by apply Hok.
  - exists []. yprojs. split; [|done]. rewrite kept_app, <- H5', Hwb, Hb, Hgb, app_nil_r. unfold given_bytes. rewrite fmap_cons. cbn [concat]. fold (given_bytes (bd_pending d)). rewrite Hgb. unfold queue_bytes. rewrite Hq. cbn. by rewrite !app_nil_r, !app_assoc.
  - split; yprojs; try done.
    + by rewrite Hs.
    + intros Hv. by destruct (F4 Hv).
    + by rewrite Hc.
    + split; [done|]. by destruct (bd_pending d); [|inversion F7'].
    + intros Hkk. rewrite <- Hlive. by apply F8.
    + intros Hkk. destruct (F9 Hkk) as (A & B & C). inversion A as [|? ? [A0 _] As]; subst. split; [done|]. split; [done|]. intros Ha. by destruct (C Ha).
    + by rewrite Hs.
    + intros (q & Hin & Hqt). rewrite Forall_forall in F7'. by destruct (F7' q Hin).
Qed.

(* ------------------------------------------------------------------ *)
(** ** Enqueuing *)

(** A chunk behind the queue. *)
Definition fed (b off n : nat) (data : bytes) (s : bstream) : bstream := set_ys_accepted (ys_accepted s ++ [(data, PassedOn)]) (set_ys_data (queued b off n (ys_data s)) s).

Lemma fed_core w s b c off n : Core w s -> calm w = true -> Data (b :: way_bufs w) (ys_data s) -> private (bd_buffers (ys_data s)) b c -> 0 < n -> off + n <= length c -> ys_state s = Readable ->
  (K = false -> auto = None -> requests s = []) -> Core w (fed b off n (slice off n c) s).
Proof.
  intros [H1 H2 H3 H4 H5 [F1 F2 F4 F5 F6 F7 F8 F9 F10 F11 F12 F13]] Hw Hd Hc Hn Hl Hs Hr. destruct (queued_data _ _ _ _ _ _ Hd Hc Hn Hl) as [Hd' Hq']. pose proof (lost_none _ _ H5 Hs) as H5'.
  unfold fed. split; yprojs; try done.
  - exists []. yprojs. rewrite Hq', app_nil_r, kept_app, kept_passed. split; [|done]. rewrite <- H5'. destruct w; (cbn [way_bytes] in *; by rewrite <- !app_assoc).
  - split; yprojs; try done.
    + intros Hc2 _ Hq2. cbn in Hq2. by apply app_nil in Hq2 as [_ ?].
    + intros Hk. destruct (F9 Hk) as (A & B & C). split; [done|]. split; [done|]. intros Ha. destruct (C Ha) as [C1 C2]. split; [done|]. intros Hq2. change (requests s <> []) in Hq2. by destruct Hq2; apply Hr.
Qed.

Lemma pending_none w s : Core w s -> calm w = true -> ys_state s = Readable -> requests s = [] -> Forall (fun p => pd_type p <> ForNone) (bd_pending (ys_data s)) -> bd_pending (ys_data s) = [].
Proof.
  intros [_ _ _ _ _ [F1 F2 F4 F5 F6 F7 F8 F9 F10 F11 F12 F13]] Hw Hs Hr Hty. destruct (decide (K = false /\ auto = None)) as [[Hk Ha]|Hn]; [by destruct (F9 Hk) as (_ & _ & C); destruct (C Ha)|].
  assert (Hk : K = true \/ auto <> None /\ ys_state s = Readable) by (destruct K; [by left|right; split; [naive_solver|done]]).
  specialize (F8 Hk). rewrite Hr, (live_all _ Hty) in F8. apply nil_length_inv. cbn in F8. lia.
Qed.

(** Reads wait: nothing is queued. *)
Lemma waiting_drained busy w s : Inv busy w s -> calm w = true -> ys_state s = Readable -> requests s <> [] -> bd_queue (ys_data s) = [].
Proof.
  intros ([_ _ _ _ _ [F1 F2 F4 F5 F6 F7 F8 F9 F10 F11 F12 F13]] & F3 & _) Hw Hs Hr. destruct (decide (K = false /\ auto = None)) as [[Hk Ha]|Hn]; [destruct (F9 Hk) as (_ & _ & C); destruct (C Ha) as [_ C2]; by apply C2|].
  assert (Hk : K = true \/ auto <> None /\ ys_state s = Readable) by (destruct K; [by left|right; split; [naive_solver|done]]).
  specialize (F8 Hk). apply F3. intros E. rewrite E in F8. destruct (requests s); [done|]. cbn in F8. destruct w; cbn in F8; done.
Qed.

Record Ready1 (w : way) (b : nat) (c : bytes) (s : bstream) (d : bdata) : Prop := {
  ry_core : Core w (set_ys_data d s);
  ry_data : Data (b :: way_bufs w) d;
  ry_private : private (bd_buffers d) b c;
  ry_request : bd_request d = None;
  ry_types : Forall (fun p => pd_type p <> ForNone) (bd_pending d);
  ry_queue : K = false -> bd_queue d = bd_queue (ys_data s) }.

Lemma renew_first_spec busy w s b c : calm w = true -> Inv busy w s -> Data (b :: way_bufs w) (ys_data s) -> private (bd_buffers (ys_data s)) b c -> ys_state s = Readable -> yc_closeRequested s = false ->
  (exists msg, renew_first s s = (Throw ErrTypeError msg, s) /\ is_defect ErrTypeError msg = false) \/
  (exists d, renew_first s s = (Ok tt, set_ys_data d s) /\ Ready1 w b c s d).
Proof.
  intros Hw H Hd Hc Hs Hcl. unfold renew_first, pendingPullIntos. destruct (bd_pending (ys_data s)) as [|p ps] eqn:E.
  { right. exists (ys_data s). rewrite set_data_same. split; [done|]. pose proof (da_head _ _ Hd) as Hh. unfold head_ok in Hh. rewrite E in Hh. destruct H as (H & _ & _). split; try done.
    - by rewrite set_data_same.
    - by destruct (bd_request (ys_data s)).
    - by rewrite E. }
  unfold IsDetachedBuffer. destruct (content (ys_data s) (pd_buffer p)) as [c0|] eqn:Ec; [|left; eexists; split; [done|reflexivity]]. right.
  pose proof H as (Hcore & Hdr & Hp). assert (Hq : bd_queue (ys_data s) = []) by (apply Hdr; by rewrite E).
  assert (Hcar : carries p c0).
  { pose proof (da_head _ _ Hd) as Hh. unfold head_ok in Hh. rewrite E in Hh. destruct (bd_request (ys_data s)).
    - destruct Hh as [(x & Hx & _ & Hk) _]. unfold content in Ec. rewrite Hx in Ec. by apply Hk.
    - destruct Hh as (c1 & Hc1 & Hk). apply content_private in Hc1. rewrite Ec in Hc1. by injection Hc1 as ->. }
  pose proof (head_apart _ _ _ _ Hd E) as Hap.
  pose proof (renewed_data _ _ _ _ _ _ Hd E Ec Hcar Hap) as [N1 N2 N3 N4 [N5 N6] N7]. set (d1 := renewed (pd_buffer p) c0 p (ys_data s)) in *. set (p1 := with_buffer (fresh_id (ys_data s)) p) in *.
  rewrite (on_data_ok _ _ _ _ _ (invalidate_eq _)). cbv beta.
  assert (Hinv : content (invalidated (ys_data s)) (pd_buffer p) = Some c0) by (unfold content in *; by rewrite (proj1 (invalidated_same _))).
  rewrite (on_data_ok _ _ (set_ys_data (invalidated (ys_data s)) s) _ _ (transfer_eq _ _ false _ Hinv)). cbv beta.
  assert (Efr : fresh_id (invalidated (ys_data s)) = fresh_id (ys_data s)) by (unfold fresh_id; by rewrite (proj1 (invalidated_same _))). rewrite Efr. fold p1.
  assert (Ed : update_head p1 (moved (pd_buffer p) c0 false (invalidated (ys_data s))) = d1).
  { unfold d1, renewed, update_head, moved, invalidated, shared. fold p1. destruct (ys_data s) as [x1 x2 x3 x4 [q|] x6]; cbn in E; subst x4; reflexivity. }
  rewrite (on_data_ok _ _ _ tt d1) by (yprojs; unfold modify; by rewrite Ed). cbv beta.
  change (set_ys_data d1 (set_ys_data (moved (pd_buffer p) c0 false (invalidated (ys_data s))) (set_ys_data (invalidated (ys_data s)) s))) with (set_ys_data d1 s).
  assert (Hsame : forall b' c', b' ∈ b :: way_bufs w -> private (bd_buffers (ys_data s)) b' c' -> private (bd_buffers d1) b' c').
  { intros b' c' Hin. apply N7. unfold others. rewrite elem_of_app. by left. }
  assert (Hkeep : keeps_way w (ys_data s) d1) by (intros b' c' Hin; apply Hsame; by right).
  assert (Hc1 : Core w (set_ys_data d1 s)).
  { apply data_core; try done; [by eapply data_forget|]. by rewrite N3, E. }
  case_bool_decide as Ht; cbn [when].
  - destruct (enqueue_detached_spec _ (set_ys_data d1 s) p1 ps N1 N4 N3 Ht) as (d2 & E2 & D1 & D2 & D3 & D4 & D5 & D6). rewrite E2.
    change (set_ys_data d2 (set_ys_data d1 s)) with (set_ys_data d2 s). exists d2. split; [done|]. yprojs.
    destruct (detached_core w (set_ys_data d1 s) p1 ps d2 [] Hc1 Hw) as [Hc2 Hty]; try done.
    + change (bd_queue d1 = []). by rewrite N5.
    + by eapply data_forget.
    + by rewrite app_nil_r.
    + intros b' c' Hin. apply D6.
    + rewrite app_nil_r in Hc2. change (Core w (set_ys_accepted (ys_accepted s) (set_ys_data d2 s))) in Hc2. assert (Es : set_ys_accepted (ys_accepted s) (set_ys_data d2 s) = set_ys_data d2 s) by (by destruct s). rewrite Es in Hc2. split; try done.
      * apply D6. apply Hsame; [left|done].
      * intros Hk. transitivity (bd_queue d1); [|exact N5]. apply D5. destruct Hcore as [_ _ _ _ _ Hfl]. destruct (yl_default _ _ Hfl Hk) as (A & _ & _). rewrite E in A. by inversion A as [|? ? [? _] _].
  - exists d1. split; [done|]. split; try done.
    + apply Hsame; [left|done].
    + rewrite N3. constructor; [done|]. destruct Hcore as [_ _ _ _ _ Hfl]. destruct (yl_types _ _ Hfl) as [_ Htl]. by rewrite E in Htl.
Qed.
End Kind.
