(* ===== verification/ByteStreamOps.v ===== *)
(** * The operations of a byte source keep the invariant

    Enqueuing, the answers to BYOB requests and what else a source does,
    alone and in the course of [pull]; then the events of readers. *)

From S2P Require Import Prelude StreamBase ReadableStream ReadableStreamInv ByteData ByteDataInv ByteStream ByteStreamInv.
Open Scope nat_scope.

Section Kind.
Variables (K : bool) (auto : option nat).

Abbreviation Core := (ByteStreamInv.Core K auto).
Abbreviation Inv := (ByteStreamInv.Inv K auto).
Abbreviation good := (ByteStreamInv.good K auto).
Abbreviation keeps := (ByteStreamInv.keeps K auto).
Abbreviation quiet := (ByteStreamInv.quiet K auto).
Abbreviation T := (ByteStreamInv.T K).

Lemma y_good_quiet {A} busy w (m : YM unit) (f : unit -> YM A) s : quiet busy m -> calm w = true -> Inv busy w s ->
  (forall s', Inv busy w s' -> good busy w (f tt s')) -> good busy w ((m ≫= f) s).
Proof. intros Hq Hw Hi Hf. destruct (Hq w s Hw Hi) as (s' & E & Hi'). rewrite (bind_ok _ _ _ _ _ E). by apply Hf. Qed.
Lemma quiet_good busy w (m : YM unit) s : quiet busy m -> calm w = true -> Inv busy w s -> good busy w (m s).
Proof. intros Hq Hw Hi. destruct (Hq w s Hw Hi) as (s' & E & Hi'). rewrite E. by apply y_good_ok. Qed.

Lemma core_descs_none s : Core WNone s -> Core (WDescs []) s.
Proof. intros [H1 H2 H3 H4 H5 [F1 F2 F4 F5 F6 F7 F8 F9 F10 F11 F12 F13]]. split; try done. Qed.

(** The kind of the current reader. *)
Lemma default_reader busy w s : Inv busy w s -> ReadableStreamHasDefaultReader s = true -> K = false.
Proof.
  intros ([_ _ [_ He] _ _ _] & _). unfold ReadableStreamHasDefaultReader, current. destruct (ys_reader s) as [r|]; [|done]. cbn. destruct (ys_readers s !! r) as [x|] eqn:E; [|done].
  destruct (He r x E) as (Hk & _). rewrite Hk. by destruct K.
Qed.
Lemma byob_reader busy w s : Inv busy w s -> ReadableStreamHasBYOBReader s = true -> K = true.
Proof.
  intros ([_ _ [_ He] _ _ _] & _). unfold ReadableStreamHasBYOBReader, current. destruct (ys_reader s) as [r|]; [|done]. cbn. destruct (ys_readers s !! r) as [x|] eqn:E; [|done].
  destruct (He r x E) as (Hk & _). rewrite Hk. by destruct K.
Qed.
Lemma no_reader busy w s : Inv busy w s -> ReadableStreamHasDefaultReader s = false -> ReadableStreamHasBYOBReader s = false -> IsReadableStreamLocked s = false /\ requests s = [].
Proof.
  intros ([_ _ [Hc _] _ _ _] & _). unfold ReadableStreamHasDefaultReader, ReadableStreamHasBYOBReader, IsReadableStreamLocked, requests, current. destruct (ys_reader s) as [r|]; [|done]. destruct (Hc r eq_refl) as [x Hx]. cbn. rewrite Hx. by destruct (yr_byob x).
Qed.

Lemma private_region d b c off n : private (bd_buffers d) b c -> region d b off n = slice off n c.
Proof. intros H. unfold region. by rewrite (content_private _ _ _ H). Qed.
Lemma private_ne_shared d b b' c : shared d b = true -> private (bd_buffers d) b' c -> b <> b'.
Proof. intros Hs Hp ->. by rewrite (private_not_shared _ _ _ Hp) in Hs. Qed.

(** A buffer of the program becomes one of the stream. *)
Lemma taken_inv busy w s b c : Inv busy w s -> steady w = true -> shared (ys_data s) b = true -> content (ys_data s) b = Some c ->
  let d := moved b c false (ys_data s) in
  Inv busy w (set_ys_data d s) /\ Data (fresh_id (ys_data s) :: way_bufs w) d /\ private (bd_buffers d) (fresh_id (ys_data s)) c.
Proof.
  intros H Hw Hs Hc d. pose proof H as ([Hd _ _ _ _ _] & _). destruct (detach_data _ _ b c false Hd Hs) as [Hd' Hq]. fold d in Hd', Hq.
  assert (Hp : private (bd_buffers d) (fresh_id (ys_data s)) c) by apply moved_private. split; [|split; [|done]].
  - apply steady_inv; try done. intros b' c' _ Hp'. unfold private, d, moved. cbn. apply frame_app. rewrite list_lookup_insert_ne; [done|]. by eapply private_ne_shared.
  - eapply data_way; [done|exact Hp|]. exact (owned_fresh _ _ Hd).
Qed.

Section Again.
Variables (busy : bool) (again : YM unit).
Hypothesis Hagain : quiet busy again.

(** A chunk put behind the queue with no descriptor to fill. *)
Lemma fed_inv w s b c off n : Inv busy w s -> calm w = true -> Data (b :: way_bufs w) (ys_data s) -> private (bd_buffers (ys_data s)) b c -> 0 < n -> off + n <= length c -> ys_state s = Readable ->
  (K = false -> auto = None -> requests s = []) -> bd_pending (ys_data s) = [] -> Inv busy w (fed b off n (slice off n c) s).
Proof.
  intros (H & _ & Hp) Hw Hd Hc Hn Hl Hs Hr Hpe. split; [by apply fed_core|]. split; [|done]. unfold drained, fed. yprojs. intros Hx. by destruct Hx.
Qed.

Record Offered (w : way) (s : bstream) (b off n : nat) (c : bytes) : Prop := {
  of_inv : Inv busy w s; of_calm : calm w = true; of_state : ys_state s = Readable; of_close : yc_closeRequested s = false;
  of_data : Data (b :: way_bufs w) (ys_data s); of_private : private (bd_buffers (ys_data s)) b c; of_length : 0 < n /\ off + n <= length c }.

(** History that keeps the same bytes. *)
Lemma log_inv w s log : Inv busy w s -> kept K log = kept K (ys_accepted s) -> Inv busy w (set_ys_accepted log s).
Proof. intros ([H1 H2 H3 H4 (lost & H5 & H5') [F1 F2 F4 F5 F6 F7 F8 F9 F10 F11 F12 F13]] & Hdr & Hp) E. split; [|by split]. split; try done. exists lost. yprojs. by rewrite E. Qed.

(** The chunk has been accepted. *)
Definition taking (data : bytes) (s : bstream) : bstream := set_ys_accepted (ys_accepted s ++ [(data, PassedOn)]) s.

Lemma enqueue_default_good w s b off n c d : Offered w s b off n c -> Ready1 K auto w b c s d -> ReadableStreamHasDefaultReader s = true ->
  good busy w (enqueue_default again b off n (taking (slice off n c) (set_ys_data d s))).
Proof.
  intros [H Hw Hs Hc Hd Hp [Hn Hl]] [R1 R2 R3 R4 R5 R6] Hk. pose proof (default_reader _ _ _ H Hk) as HK. unfold enqueue_default. ystep.
  set (sa := taking _ _). change (requests sa) with (requests s). pose proof H as (_ & Hdr & Hpull).
  destruct (requests s) as [|i rest] eqn:Er.
  - assert (E : serve_loop again 1 sa = (Ok false, sa)) by (cbn [serve_loop]; ystep; change (requests sa) with (requests s); by rewrite Er).
    rewrite (bind_ok _ _ _ _ _ E). ystep. change (requests sa) with (requests s). rewrite Er, bool_decide_true by done. rewrite bind_assoc.
    assert (Hpe : bd_pending d = []) by (apply (pending_none K auto w (set_ys_data d s)); done).
    rewrite assert_bind by (apply bool_decide_true; exact Hpe). rewrite (on_data_ok _ _ _ _ _ (enqueue_eq _ _ _ _)).
    change (good busy w (again (fed b off n (slice off n c) (set_ys_data d s)))). apply quiet_good; try done. apply fed_inv; try done.
    split; [done|]. split; [|done]. unfold drained. yprojs. intros Hx. by destruct Hx.
  - pose proof (waiting_drained K auto _ _ _ H Hw Hs ltac:(by rewrite Er)) as Hq. assert (Hqd : bd_queue d = []) by by rewrite R6.
    assert (Ht : bd_total d = 0). { rewrite (da_total _ _ R2), Hqd. done. }
    assert (E : serve_loop again (S (length (i :: rest))) sa = (Ok true, sa)).
    { cbn [serve_loop]. ystep. change (requests sa) with (requests s). rewrite Er. change (queueTotalSize sa) with (bd_total d). by rewrite bool_decide_true. }
    rewrite (bind_ok _ _ _ _ _ E). cbv iota. unfold throw_away, modify. change (requests sa) with (requests s). change (queueTotalSize sa) with (bd_total d). rewrite Er, Ht.
    apply y_good_ok. change (Inv busy w (set_ys_accepted (mark_last (ThrownAway (length (i :: rest)) 0) (ys_accepted s ++ [(slice off n c, PassedOn)])) (set_ys_data d s))).
    apply log_inv; [split; [done|]; split; [|done]; intros _; exact Hqd|]. rewrite mark_last_snoc, kept_app. unfold kept at 2. rewrite HK. cbn. yprojs. by rewrite app_nil_r.
Qed.

(** The descriptors that what is queued completes are answered. *)
Definition process_commit : YM unit :=
  filledPullIntos ← ReadableByteStreamControllerProcessPullIntoDescriptorsUsingQueue; ReadableByteStreamControllerCommitPullIntoDescriptors filledPullIntos.

Lemma process_commit_spec w s : Core w s -> calm w = true -> (yc_pullAgain s || busy = true -> yc_pulling s = true) -> ys_state s = Readable -> yc_closeRequested s = false -> bd_request (ys_data s) = None ->
  Forall (fun p => pd_type p <> ForNone) (bd_pending (ys_data s)) -> exists s', process_commit s = (Ok tt, s') /\ Inv busy w s'.
Proof.
  intros H Hw Hp Hs Hc Hr Hty. unfold process_commit. destruct (decide (bd_pending (ys_data s) = [])) as [E|E].
  - rewrite (bind_ok _ _ _ _ _ (process_empty _ Hc E)). exists s. split; [done|]. split; [done|]. split; [|done]. unfold drained. by rewrite E.
  - assert (Ew : w = WNone). { destruct w; try done. destruct H as [_ _ _ _ _ Hfl]. destruct (yl_view _ _ _ _ Hfl eq_refl). done. } subst w.
    destruct (process_descs K auto busy [] s (core_descs_none _ H) Hp Hs Hc Hr E Hty) as (ps & s1 & E1 & H1). rewrite (bind_ok _ _ _ _ _ E1). cbn [app] in H1.
    by apply commits_inv in H1.
Qed.

Lemma process_good w s : Core w s -> calm w = true -> (yc_pullAgain s || busy = true -> yc_pulling s = true) -> ys_state s = Readable -> yc_closeRequested s = false -> bd_request (ys_data s) = None ->
  Forall (fun p => pd_type p <> ForNone) (bd_pending (ys_data s)) ->
  good busy w ((filledPullIntos ← ReadableByteStreamControllerProcessPullIntoDescriptorsUsingQueue; ReadableByteStreamControllerCommitPullIntoDescriptors filledPullIntos ;; again) s).
Proof.
  intros H Hw Hp Hs Hc Hr Hty. destruct (process_commit_spec w s H Hw Hp Hs Hc Hr Hty) as (s' & E & Hi). rewrite <- bind_assoc. fold process_commit. rewrite (bind_ok _ _ _ _ _ E). by apply quiet_good.
Qed.

Lemma y_enqueue_good w s b off n c d : Offered w s b off n c -> Ready1 K auto w b c s d ->
  let s' := set_ys_data d s in
  good busy w ((accept (region d b off n) ;;
    if ReadableStreamHasDefaultReader s' then enqueue_default again b off n
    else if ReadableStreamHasBYOBReader s' then
      on_data (ReadableByteStreamControllerEnqueueChunkToQueue b off n) ;;
      filledPullIntos ← ReadableByteStreamControllerProcessPullIntoDescriptorsUsingQueue; ReadableByteStreamControllerCommitPullIntoDescriptors filledPullIntos ;; again
    else
      assert (negb (IsReadableStreamLocked s')) ;;
      on_data (ReadableByteStreamControllerEnqueueChunkToQueue b off n) ;; again) s').
Proof.
  intros HO HR s'. pose proof HO as [H Hw Hs Hc Hd Hp [Hn Hl]]. pose proof HR as [R1 R2 R3 R4 R5 R6]. pose proof H as (_ & Hdr & Hpull).
  change (ReadableStreamHasDefaultReader s') with (ReadableStreamHasDefaultReader s). change (ReadableStreamHasBYOBReader s') with (ReadableStreamHasBYOBReader s). change (IsReadableStreamLocked s') with (IsReadableStreamLocked s).
  rewrite (private_region _ _ _ _ _ R3). unfold accept. rewrite modify_bind. fold (taking (slice off n c) s').
  destruct (ReadableStreamHasDefaultReader s) eqn:E1; [by eapply enqueue_default_good|]. destruct (ReadableStreamHasBYOBReader s) eqn:E2.
  - pose proof (byob_reader _ _ _ H E2) as HK. rewrite (on_data_ok _ _ _ _ _ (enqueue_eq _ _ _ _)). cbv beta.
    match goal with |- good _ _ (_ ?x) => change x with (fed b off n (slice off n c) s') end. apply process_good; try done. apply fed_core; try done. by rewrite HK.
  - destruct (no_reader _ _ _ H E1 E2) as [-> Er]. rewrite assert_bind by done. rewrite (on_data_ok _ _ _ _ _ (enqueue_eq _ _ _ _)). cbv beta.
    match goal with |- good _ _ (_ ?x) => change x with (fed b off n (slice off n c) s') end.
    assert (Hpe : bd_pending d = []) by (apply (pending_none K auto w s'); done). apply quiet_good; try done. apply fed_inv; try done.
    split; [done|]. split; [|done]. unfold drained. unfold s'. yprojs. by rewrite Hpe.
Qed.

Lemma controller_enqueue_keeps w s chunk : calm w = true -> Inv busy w s -> held_view (ys_data s) chunk = true -> good busy w (controller_enqueue again chunk s).
Proof.
  intros Hw H Hv. unfold controller_enqueue. ystep. repeat (case_bool_decide; [by apply good_throw|]). destruct (yc_closeRequested s) eqn:Ec; [by apply good_throw|]. destruct (state_is Readable s) eqn:Es; cbn [negb]; [|by apply good_throw].
  apply bool_decide_eq_true in Es. unfold ReadableByteStreamControllerEnqueue. ystep. rewrite Ec. unfold state_is. rewrite (bool_decide_true (ys_state s = Readable)) by done. cbn [orb negb]. unfold held_view in Hv. rewrite !andb_true_iff in Hv. destruct Hv as [[[[Hsh _] _] _] Hb].
  unfold IsDetachedBuffer, byteLength in *. destruct (content (ys_data s) (vw_buffer chunk)) as [c|] eqn:Ect; [|by apply good_throw]. apply bool_decide_eq_true in Hb. unfold IsDetachedBuffer in *. rewrite Ect in *.
  destruct (taken_inv _ _ _ _ _ H (calm_steady _ Hw) Hsh Ect) as (Hi1 & Hd1 & Hp1). rewrite (on_data_ok _ _ _ _ _ (transfer_eq _ _ false _ Ect)). ystep.
  destruct (renew_first_spec K auto busy w _ _ _ Hw Hi1 Hd1 Hp1) as [(msg & E & Hm)|(d & E & HR)]; try done.
  - unfold mbind, sm_bind. rewrite E. by apply good_throw.
  - rewrite (bind_ok _ _ _ _ _ E). ystep. apply (y_enqueue_good w (set_ys_data (moved (vw_buffer chunk) c false (ys_data s)) s) _ _ _ c d); [|done]. split; try done. lia.
Qed.
(* ------------------------------------------------------------------ *)
(** ** Answers to BYOB requests *)

Lemma waiting_none w s p ps : Core w s -> calm w = true -> bd_pending (ys_data s) = p :: ps -> w = WNone /\ ys_state s <> Errored.
Proof.
  intros [_ _ _ _ _ Hfl] Hw E. split.
  - destruct w; try done. destruct (yl_view _ _ _ _ Hfl eq_refl). congruence.
  - intros He. destruct (yl_errored _ _ _ _ Hfl He). congruence.
Qed.

(** A closed stream drops a descriptor whose reader is gone. *)
Lemma forgotten_inv s p ps : Inv busy WNone s -> ys_state s = Closed -> bd_request (ys_data s) = None -> bd_pending (ys_data s) = p :: ps -> pd_type p = ForNone ->
  Inv busy WNone (set_ys_data (set_pending ps (ys_data s)) s).
Proof.
  intros ([H1 H2 H3 H4 (lost & H5 & H5') [F1 F2 F4 F5 F6 [F7 F7'] F8 F9 F10 F11 F12 F13]] & F3 & Hp) Hs Hr E Ht. pose proof (shifted_data _ _ _ _ H1 Hr E) as Hd.
  rewrite E in *. inversion F7 as [|? ? _ F7s]; subst. cbn in F7'. assert (Hq : bd_queue (ys_data s) = []) by (by apply F1; rewrite Hs).
  assert (Hgb : given_bytes ps = []). { apply tail_given; [apply (da_shape _ _ Hd)|]. pose proof (da_tail _ _ H1) as Htl. rewrite E in Htl. cbn in Htl. eapply Forall_impl; [exact Htl|]. by intros ? [_ ?]. }
  assert (Hlive : live (p :: ps) = live ps) by (unfold live; rewrite filter_cons_False; [done|by intros []]).
  split; [|split; [|done]]. 2: { unfold drained. yprojs. intros _. exact Hq. }
  split; yprojs; try done.
  - by eapply data_forget.
  - exists (pd_given p ++ lost). yprojs. change (bd_pending (set_pending ps (ys_data s))) with ps. change (queue_bytes (set_pending ps (ys_data s))) with (queue_bytes (ys_data s)). split.
    + rewrite <- H5. rewrite Hgb. unfold given_bytes. rewrite fmap_cons. cbn [concat]. fold (given_bytes ps). rewrite Hgb. unfold queue_bytes. rewrite Hq. cbn. by rewrite app_nil_r.
    + intros _. rewrite Hs. split; [done|]. right; right. apply F11. exists p. split; [left|done].
  - split; yprojs; change (requests (set_ys_data (set_pending ps (ys_data s)) s)) with (requests s); try done.
    + by rewrite Hs.
    + split; [done|]. cbn. by destruct ps; [|inversion F7'].
    + intros Hk. specialize (F8 Hk). rewrite Hlive in F8. exact F8.
    + intros Hk. destruct (F9 Hk) as (A & B & C). inversion A; subst. split; [done|]. split; [done|]. intros Ha. by destruct (C Ha).
    + intros Hc. specialize (F10 Hc). by inversion F10.
    + intros (q & Hin & Hqt). cbn in Hin. apply F11. exists q. split; [by right|done].
Qed.

(** All that is pending leaves at once. *)
Lemma shift_all ps : forall xs s, Data xs (ys_data s) -> bd_request (ys_data s) = None -> bd_pending (ys_data s) = ps ->
  shift_pending (length ps) s = (Ok ps, set_ys_data (set_pending [] (ys_data s)) s) /\ Data ((pd_buffer <$> ps) ++ xs) (set_pending [] (ys_data s)).
Proof.
  induction ps as [|p ps IH]; intros xs s H Hr E; cbn [shift_pending length].
  - assert (Es : set_pending [] (ys_data s) = ys_data s) by (rewrite <- E; by destruct (ys_data s)). by rewrite Es, set_data_same.
  - rewrite (on_data_ok _ _ _ _ _ (shift_spec _ _ _ Hr E)). pose proof (shifted_data _ _ _ _ H Hr E) as Hd.
    destruct (IH (pd_buffer p :: xs) (set_ys_data (set_pending ps (ys_data s)) s) Hd Hr eq_refl) as [E2 H2]. cbv beta. rewrite (bind_ok _ _ _ _ _ E2). split; [done|].
    eapply data_swap; [|exact H2]. rewrite fmap_cons. symmetry. apply Permutation_middle.
Qed.

Lemma pending_own xs d : Data xs d -> bd_request d = None -> Forall (fun p => shape p /\ own_desc (bd_buffers d) p) (bd_pending d).
Proof.
  intros [_ _ _ H4 H5 H6 _ _] Hr. unfold head_ok in H5. destruct (bd_pending d) as [|p ps]; [done|]. rewrite Hr in H5. inversion H4 as [|? ? Hp Hps]; subst. constructor; [done|].
  cbn in H6. clear - Hps H6. induction Hps as [|q qs Hq _ IH]; [done|]. inversion H6 as [|? ? [Hq2 _] H6s]; subst. constructor; [done|]. by apply IH.
Qed.

Lemma answered_inv s : Inv busy WNone s -> K = true -> ys_state s = Closed -> bd_request (ys_data s) = None -> Forall (fun p => pd_type p <> ForNone) (bd_pending (ys_data s)) ->
  exists s', (filledPullIntos ← shift_pending (length (requests s)); ReadableByteStreamControllerCommitPullIntoDescriptors filledPullIntos) s = (Ok tt, s') /\ Inv busy WNone s'.
Proof.
  intros ([H1 H2 H3 H4 (lost & H5 & H5') [F1 F2 F4 F5 F6 [F7 F7'] F8 F9 F10 F11 F12 F13]] & F3 & Hp) Hk Hs Hr Hty. set (ps := bd_pending (ys_data s)) in *.
  assert (Hlen : length (requests s) = length ps) by (rewrite (F8 ltac:(by left)), live_all by done; done). rewrite Hlen.
  destruct (shift_all ps [] s H1 Hr eq_refl) as [E Hd]. rewrite app_nil_r in Hd. rewrite (bind_ok _ _ _ _ _ E). apply commits_inv.
  pose proof (pending_own _ _ H1 Hr) as Hown. fold ps in Hown. split; [|split; [|done]]. 2: by unfold drained.
  split; yprojs; try done.
  - split; [|intros _; yprojs; rewrite Hs; by split; [|left]]. apply Forall_forall. intros p Hin. rewrite Forall_forall in Hown, F7, Hty. pose proof (F10 Hs) as Hal. rewrite Forall_forall in Hal. destruct (Hown p Hin) as [? ?].
    split; [split; [done|]; split; [done|by apply Hal]|]. destruct (F7 p Hin) as [[?|?] _]; [done|]. by destruct (Hty p Hin).
  - exists lost. yprojs. split; [|done]. rewrite <- H5. reflexivity.
  - split; yprojs; change (requests (set_ys_data (set_pending [] (ys_data s)) s)) with (requests s); try done.
    + by rewrite Hs.
    + intros _. cbn. by rewrite Hlen, Nat.add_0_r.
    + by rewrite Hk.
    + intros (q & Hin & _). by apply elem_of_nil in Hin.
Qed.

Lemma respond_closed_good s p ps n : Inv busy WNone s -> ys_state s = Closed -> bd_request (ys_data s) = None -> bd_pending (ys_data s) = p :: ps -> n = 0 ->
  good busy WNone ((respond_closed p n ;; again) s).
Proof.
  intros H Hs Hr E ->. unfold respond_closed. pose proof H as ([H1 _ _ _ _ Hfl] & _). pose proof (yl_closed _ _ _ _ Hfl Hs) as Hal. rewrite E in Hal. inversion Hal as [|? ? Hm _]; subst.
  pose proof (yl_types _ _ _ _ Hfl) as [_ Htl]. rewrite E in Htl. cbn in Htl.
  rewrite bind_assoc, assert_bind by done. rewrite bind_assoc, assert_bind by by apply bool_decide_true. rewrite bind_assoc.
  assert (Hgo : forall s1, Inv busy WNone s1 -> ys_state s1 = Closed -> bd_request (ys_data s1) = None -> Forall (fun p => pd_type p <> ForNone) (bd_pending (ys_data s1)) ->
    good busy WNone ((s ← gets id; when (ReadableStreamHasBYOBReader s) (filledPullIntos ← shift_pending (length (requests s)); ReadableByteStreamControllerCommitPullIntoDescriptors filledPullIntos) ;; again) s1)).
  { intros s1 H' Hs' Hr' Hty. ystep. destruct (ReadableStreamHasBYOBReader s1) eqn:Eb; cbn [when].
    - pose proof (byob_reader _ _ _ H' Eb) as HK. destruct (answered_inv s1 H' HK Hs' Hr' Hty) as (s2 & E2 & H2). rewrite (bind_ok _ _ _ _ _ E2). by apply quiet_good.
    - rewrite ret_bind. by apply quiet_good. }
  case_bool_decide as Ht; cbn [when].
  - rewrite bind_assoc. rewrite (on_data_ok _ _ _ _ _ (shift_spec _ _ _ Hr E)), ret_bind. rewrite bind_assoc. apply Hgo; try done. by eapply forgotten_inv.
  - rewrite ret_bind. rewrite bind_assoc. apply Hgo; try done. rewrite E. by constructor.
Qed.

(** The head with more bytes, still too few. *)
Lemma still_waiting s p ps n : Inv busy WNone s -> ys_state s = Readable -> bd_pending (ys_data s) = p :: ps -> bd_request (ys_data s) = None ->
  let data := region (ys_data s) (pd_buffer p) (pd_offset p + pd_filled p) n in let p' := refilled n data p in
  0 < n -> Data [] (set_pending (p' :: ps) (ys_data s)) -> pd_filled p' < pd_minimum p' -> pd_type p <> ForNone ->
  Inv busy WNone (set_ys_data (set_pending (p' :: ps) (ys_data s)) (set_ys_accepted (ys_accepted s ++ [(data, PassedOn)]) s)).
Proof.
  intros ([H1 H2 H3 H4 H5 [F1 F2 F4 F5 F6 [F7 F7'] F8 F9 F10 F11 F12 F13]] & F3 & Hp) Hs E Hr data p' Hn Hd Hlt Hty. pose proof (lost_none _ _ _ H5 Hs) as H5'. cbn in Hlt.
  assert (Hq : bd_queue (ys_data s) = []) by (apply F3; by rewrite E). rewrite E in *. inversion F7 as [|? ? F7h F7s]; subst. cbn in F7'.
  assert (Hgb : given_bytes ps = []). { apply tail_given; [pose proof (da_shape _ _ Hd) as Hsh; by inversion Hsh|]. pose proof (da_tail _ _ Hd) as Htl. cbn in Htl. eapply Forall_impl; [exact Htl|]. by intros ? [_ ?]. }
  split; [|split; [|done]]. 2: by unfold drained.
  split; yprojs; try done.
  - exists []. yprojs. split; [|done]. rewrite kept_app, kept_passed, <- H5'. change (queue_bytes (set_pending (p' :: ps) (ys_data s))) with (queue_bytes (ys_data s)). change (bd_pending (set_pending (p' :: ps) (ys_data s))) with (p' :: ps). unfold given_bytes. rewrite !fmap_cons. cbn [concat]. fold (given_bytes ps).
    rewrite Hgb. unfold queue_bytes. rewrite Hq. cbn. by rewrite !app_nil_r, !app_assoc.
  - split; yprojs; change (requests (set_ys_data _ _)) with (requests s); try done.
    + rewrite Hs. done.
    + split; [|done]. constructor; [|done]. by destruct F7h.
    + intros Hk. rewrite (F8 Hk). unfold live. cbn [bd_pending set_pending]. by rewrite !filter_cons_True by done.
    + intros Hk. destruct (F9 Hk) as (A & B & C). inversion A as [|? ? [A0 A1] As]; subst. rewrite A1 in Hlt. lia.
    + by rewrite Hs.
    + intros (q & Hin & Hqt). cbn in Hin. apply elem_of_cons in Hin as [->|Hin]; [done|]. rewrite Forall_forall in F7'. by destruct (F7' q Hin).
Qed.

(** A descriptor without the bytes of an element that is not whole. *)
Definition whole (p : desc) : desc := let filled := pd_filled p - pd_filled p mod pd_elem p in with_filled filled (take filled (pd_given p)) p.

Lemma whole_ready bufs p : shape p -> own_desc bufs p -> ready_desc bufs (whole p).
Proof.
  intros [S1 S2 S3 S4 [S5 S6]] (c & Hc & Hl & Hs). pose proof (Nat.Div0.mod_le (pd_filled p) (pd_elem p)) as Hle. split; [split; try done; cbn; split; [lia|rewrite length_take; lia]|]. split.
  - exists c. split; [done|]. split; [done|]. cbn. rewrite <- Hs. rewrite slice_take by lia. done.
  - cbn. pose proof (Nat.div_mod_eq (pd_filled p) (pd_elem p)) as E. replace (pd_filled p - pd_filled p mod pd_elem p) with ((pd_filled p / pd_elem p) * pd_elem p) by lia. apply Nat.Div0.mod_mul.
Qed.

(** The head ready, what is left over of it behind the queue. *)
Lemma completed_core s p ps n d : Inv busy WNone s -> ys_state s = Readable -> bd_pending (ys_data s) = p :: ps -> pd_type p <> ForNone ->
  let data := region (ys_data s) (pd_buffer p) (pd_offset p + pd_filled p) n in let p' := refilled n data p in
  shape p' -> own_desc (bd_buffers d) p' -> Data [pd_buffer p] d -> bd_pending d = ps -> queue_bytes d = drop (pd_filled p' - pd_filled p' mod pd_elem p') (pd_given p') ->
  Core (WDescs [whole p']) (set_ys_data d (set_ys_accepted (ys_accepted s ++ [(data, PassedOn)]) s)) /\ Forall (fun p => pd_type p <> ForNone) ps /\ (K = true \/ auto <> None /\ ys_state s = Readable).
Proof.
  intros ([H1 H2 H3 H4 H5 [F1 F2 F4 F5 F6 [F7 F7'] F8 F9 F10 F11 F12 F13]] & F3 & Hp) Hs E Hty data p' Hsh Hown Hd Ep Hb. pose proof (lost_none _ _ _ H5 Hs) as H5'.
  assert (Hq : bd_queue (ys_data s) = []) by (apply F3; by rewrite E). rewrite E in *. inversion F7 as [|? ? F7h F7s]; subst. cbn in F7'.
  assert (Hauto : K = true \/ auto <> None /\ ys_state s = Readable).
  { destruct (decide (auto = None)) as [Ha|Ha]; [|by right]. left. destruct (decide (K = true)) as [?|Hk]; [done|]. apply not_true_is_false in Hk. destruct (F9 Hk) as (_ & _ & C). by destruct (C Ha). }
  assert (Hg0 : Forall (fun p => pd_filled p = 0) (bd_pending d)).
  { pose proof (da_tail _ _ H1) as Htl. rewrite E in Htl. cbn in Htl. eapply Forall_impl; [exact Htl|]. by intros ? [_ ?]. }
  assert (Hgb : given_bytes (bd_pending d) = []) by (apply tail_given; [apply (da_shape _ _ Hd)|done]).
  split; [|done]. split; yprojs; try done.
  - split; [|intros _; yprojs; split; [by rewrite Hs|done]]. constructor; [|done]. split; [by apply whole_ready|]. cbn. destruct F7h as [[?|?] _]; done.
  - exists []. yprojs. split; [|done]. rewrite kept_app, kept_passed, <- H5', Hgb, Hb. unfold queue_bytes. rewrite Hq. unfold given_bytes. rewrite !fmap_cons. cbn [concat fmap list_fmap]. fold (given_bytes (bd_pending d)). rewrite Hgb, !app_nil_r.
    cbn [way_bytes]. unfold given_bytes. cbn [fmap list_fmap concat whole with_filled pd_given]. rewrite !app_nil_r. cbn [app]. rewrite <- app_assoc. f_equal. by rewrite take_drop.
  - split; yprojs; change (requests (set_ys_data _ _)) with (requests s); try done.
    + by rewrite Hs.
    + intros Hc _ _. by apply F5.
    + split; [done|]. by destruct (bd_pending d); [|inversion F7'].
    + intros Hk. rewrite (F8 Hk). cbn [way_descs length]. unfold live. rewrite filter_cons_True by done. cbn [length]. done.
    + intros Hk. destruct (F9 Hk) as (A & B & C). inversion A; subst. split; [done|]. split; [done|]. intros Ha. by destruct (C Ha).
    + by rewrite Hs.
    + intros (q & Hin & Hqt). rewrite Forall_forall in F7'. by destruct (F7' q Hin).
Qed.

Lemma leftover_spec xs s p ps c : let d := set_pending (p :: ps) (ys_data s) in let r := pd_filled p mod pd_elem p in
  Data xs d -> bd_request (ys_data s) = None -> bd_queue (ys_data s) = [] -> shape p -> private (bd_buffers (ys_data s)) (pd_buffer p) c -> carries p c ->
  exists d', when (bool_decide (0 < r)) (ReadableByteStreamControllerEnqueueClonedChunkToQueue (pd_buffer p) (pd_offset p + pd_filled p - r) r) (set_ys_data (set_pending ps (ys_data s)) s) = (Ok tt, set_ys_data d' s) /\
    Data (pd_buffer p :: xs) d' /\ bd_pending d' = ps /\ bd_request d' = None /\ queue_bytes d' = drop (pd_filled p - r) (pd_given p) /\ own_desc (bd_buffers d') p.
Proof.
  intros d r H Hr Hq [S1 S2 S3 S4 [S5 S6]] Hc [Hl Hs]. pose proof (shifted_data _ _ _ _ H Hr eq_refl) as Hd. change (set_pending ps d) with (set_pending ps (ys_data s)) in Hd. pose proof (Nat.Div0.mod_le (pd_filled p) (pd_elem p)) as Hle. fold r in Hle.
  assert (Hq0 : queue_bytes (set_pending ps (ys_data s)) = []) by (unfold queue_bytes; cbn; by rewrite Hq). case_bool_decide as E; cbn [when].
  - rewrite (cloned_queue_eq _ _ _ c) by by apply content_private. destruct (cloned_data _ (set_pending ps (ys_data s)) (pd_buffer p) c (pd_offset p + pd_filled p - r) r Hd) as [Hd' Hq']; [by apply content_private|done|lia|].
    eexists. split; [done|]. split; [exact Hd'|]. split; [done|]. split; [done|]. split.
    + yprojs. rewrite Hq', Hq0, <- Hs. rewrite slice_drop by lia. cbn [app]. f_equal; lia.
    + exists c. split; [|done]. unfold private. cbn. by apply frame_app.
  - eexists. split; [done|]. split; [done|]. split; [done|]. split; [done|]. split; [rewrite Hq0; assert (r = 0) as -> by lia; rewrite drop_ge; [done|lia]|by exists c].
Qed.

Lemma respond_readable_good s p ps n : Inv busy WNone s -> ys_state s = Readable -> bd_pending (ys_data s) = p :: ps -> bd_request (ys_data s) = None -> 0 < n -> pd_filled p + n <= pd_length p ->
  good busy WNone (respond_readable again p n s).
Proof.
  intros H Hs E Hr Hn Hl. unfold respond_readable. rewrite !assert_bind by by apply bool_decide_true. ystep. unfold accept. ystep.
  pose proof H as ([Hd _ _ _ _ Hfl] & Hdr & Hpull). assert (Hq : bd_queue (ys_data s) = []) by (apply Hdr; by rewrite E).
  assert (Hc : yc_closeRequested s = false) by (destruct (yc_closeRequested s) eqn:Ec; [by destruct (yl_close _ _ _ _ Hfl Ec Hs)|done]).
  destruct (fill_head_spec [] (ys_data s) p ps n Hd E Hr Hl) as [Ef Hd'].
  pose proof (still_waiting s p ps n H Hs E Hr Hn) as Hwait. pose proof (completed_core s p ps n) as Hdone. cbv zeta in Ef, Hd', Hwait, Hdone.
  set (data := region (ys_data s) (pd_buffer p) (pd_offset p + pd_filled p) n) in *. set (p' := refilled n data p) in *. set (sa := set_ys_accepted (ys_accepted s ++ [(data, PassedOn)]) s).
  rewrite (on_data_ok _ _ sa _ _ Ef). cbv beta. change (pd_type p') with (pd_type p). change (ys_data sa) with (ys_data s) in *.
  case_bool_decide as Ht.
  - destruct (enqueue_detached_spec [] (set_ys_data (set_pending (p' :: ps) (ys_data s)) sa) p' ps Hd' Hr eq_refl Ht) as (d & E2 & D1 & D2 & D3 & D4 & _ & D6). rewrite (bind_ok _ _ _ _ _ E2).
    destruct (detached_core K auto WNone s p ps d [(data, PassedOn)] (proj1 H) eq_refl Hq E Ht Hs Hc D1) as [Hcore Hty]; [|done|by intros ? ? ?%elem_of_nil|].
    { rewrite D2, kept_passed. done. }
    change (set_ys_data d (set_ys_data (set_pending (p' :: ps) (ys_data s)) sa)) with (set_ys_accepted (ys_accepted s ++ [(data, PassedOn)]) (set_ys_data d s)).
    destruct (process_commit_spec WNone _ Hcore eq_refl Hpull Hs Hc D4 Hty) as (s' & E3 & Hi). fold process_commit. rewrite E3. by apply y_good_ok.
  - case_bool_decide as Hm; [by apply y_good_ok, Hwait|].
    rewrite (on_data_ok _ _ (set_ys_data (set_pending (p' :: ps) (ys_data s)) sa) _ _ (shift_spec p' ps (set_pending (p' :: ps) (ys_data s)) Hr eq_refl)). cbv beta.
    change (set_ys_data (set_pending ps (set_pending (p' :: ps) (ys_data s))) (set_ys_data (set_pending (p' :: ps) (ys_data s)) sa)) with (set_ys_data (set_pending ps (ys_data sa)) sa).
    pose proof (pending_own _ _ Hd' Hr) as Hown. inversion Hown as [|? ? [Hsh (c & Hcc & Hcar)] _]; subst.
    destruct (leftover_spec [] sa p' ps c Hd' Hr Hq Hsh Hcc Hcar) as (d & E2 & D1 & D2 & D3 & D4 & D5). rewrite (bind_ok _ _ _ _ _ E2).
    change (with_filled (pd_filled p' - pd_filled p' mod pd_elem p') (take (pd_filled p' - pd_filled p' mod pd_elem p') (pd_given p')) p') with (whole p').
    destruct (Hdone d H Hs E Ht Hsh D5 D1 D2 D4) as (Hcore & Hty & Hauto). fold sa in Hcore. clear Hdone Hwait.
    assert (Hproc : exists qs s', ReadableByteStreamControllerProcessPullIntoDescriptorsUsingQueue (set_ys_data d sa) = (Ok qs, s') /\ Inv busy (WDescs (whole p' :: qs)) s').
    { destruct (decide (ps = [])) as [E0|E0].
      - exists [], (set_ys_data d sa). rewrite process_empty; [|done|by rewrite <- E0]. split; [done|]. split; [done|]. split; [|done]. unfold drained. yprojs. rewrite D2, E0. done.
      - destruct (process_descs K auto busy [whole p'] (set_ys_data d sa) Hcore Hpull Hs Hc D3) as (qs & s' & E3 & Hi); [by yprojs; rewrite D2|by yprojs; rewrite D2|]. by exists qs, s'. }
    destruct Hproc as (qs & s1 & E3 & H1). rewrite (bind_ok _ _ _ _ _ E3). destruct (commit_inv _ _ _ _ _ _ H1) as (s2 & E4 & H2). rewrite (bind_ok _ _ _ _ _ E4).
    destruct (commits_inv _ _ _ _ _ H2) as (s3 & E5 & H3). rewrite (bind_ok _ _ _ _ _ E5). by apply quiet_good.
Qed.

(** The head on a buffer of [n] bytes written, as the source hands it over. *)
Lemma respond_internal_good s p ps b c n : Inv busy WNone s -> bd_pending (ys_data s) = p :: ps -> content (ys_data s) b = Some c -> carries p c -> b ∉ others [] (ys_data s) ps ->
  (ys_state s = Closed -> n = 0) -> (ys_state s = Readable -> 0 < n /\ pd_filled p + n <= pd_length p) ->
  good busy WNone ((b' ← on_data (TransferArrayBuffer b); on_data (modify (update_head (with_buffer b' p))) ;; ReadableByteStreamControllerRespondInternal again n) s).
Proof.
  intros H E Hc Hcar Hb Hcl Hrd. pose proof H as (Hcore & Hdr & Hpull). destruct (waiting_none _ _ _ _ Hcore eq_refl E) as [_ Hne]. pose proof Hcore as [Hd _ _ _ _ _].
  pose proof (renewed_data [] _ _ _ _ _ Hd E Hc Hcar Hb) as [N1 N2 N3 N4 [N5 N6] N7]. set (d1 := renewed b c p (ys_data s)) in *. set (p1 := with_buffer (fresh_id (ys_data s)) p) in *.
  rewrite (on_data_ok _ _ _ _ _ (transfer_eq _ _ false _ Hc)). cbv beta. fold p1. set (d0 := update_head p1 (moved b c false (ys_data s))).
  rewrite (on_data_ok _ _ _ tt d0) by done. cbv beta. unfold ReadableByteStreamControllerRespondInternal.
  assert (E0 : bd_pending d0 = p1 :: ps) by (unfold d0, update_head, moved; cbn; by rewrite E).
  rewrite (on_data_ok _ _ _ p1 d0) by (yprojs; unfold peekPendingPullInto; rewrite gets_bind, E0; done). ystep.
  rewrite assert_bind. 2: { unfold CanTransferArrayBuffer, IsDetachedBuffer, content, d0, update_head, moved. cbn. rewrite E. cbn. rewrite (list_lookup_middle _ _ _ (fresh_id (ys_data s))); [done|]. unfold fresh_id. by rewrite length_insert. }
  rewrite (on_data_ok _ _ _ _ _ (invalidate_eq _)). cbv beta. yprojs. change (invalidated d0) with d1.
  match goal with |- context [set_ys_data d1 ?x] => change (set_ys_data d1 x) with (set_ys_data d1 s) end.
  assert (Hi : Inv busy WNone (set_ys_data d1 s)) by (apply data_inv; try done; [by rewrite N3, E|by intros ? ? ?%elem_of_nil]).
  destruct (ys_state s) eqn:Es; [by apply (respond_readable_good _ p1 ps n); try done; apply Hrd|by apply (respond_closed_good _ p1 ps n); try done; apply Hcl|done].
Qed.

Lemma request_head q v s : Inv busy WNone s -> rq_controller (the_request q s) = true -> rq_view (the_request q s) = Some v ->
  exists p ps, bd_pending (ys_data s) = p :: ps /\ v = head_view p /\ forall c, content (ys_data s) (pd_buffer p) = Some c -> carries p c.
Proof.
  intros ([Hd _ _ _ _ _] & _) Hq Hv. unfold the_request in *. destruct (bd_requests (ys_data s) !! q) as [r|] eqn:Er; [|done]. cbn in Hq, Hv. unfold id in *. pose proof (da_requests _ _ Hd q r Er Hq) as Hr.
  pose proof (da_head _ _ Hd) as Hh. unfold head_ok in Hh. rewrite Hr in Hh. destruct (bd_pending (ys_data s)) as [|p ps]; [done|]. destruct Hh as [(x & Hx & _ & Hc) Hrq]. exists p, ps. split; [done|].
  rewrite Er in Hrq. injection Hrq as ->. cbn in Hv. injection Hv as <-. split; [done|]. intros c Ec. apply Hc. unfold content in Ec. by rewrite Hx in Ec.
Qed.
Lemma request_view q s : Inv busy WNone s -> rq_controller (the_request q s) = true -> exists v, rq_view (the_request q s) = Some v.
Proof.
  intros ([Hd _ _ _ _ _] & _) Hq. unfold the_request in *. destruct (bd_requests (ys_data s) !! q) as [r|] eqn:Er; [|done]. cbn in *. unfold id in *. pose proof (da_requests _ _ Hd q r Er Hq) as Hr.
  pose proof (da_head _ _ Hd) as Hh. unfold head_ok in Hh. rewrite Hr in Hh. destruct (bd_pending (ys_data s)) as [|p ps]; [done|]. destruct Hh as [_ Hrq]. rewrite Er in Hrq. injection Hrq as ->. by eexists.
Qed.

(** A view on its way: no descriptor waits, so no request has its controller. *)
Lemma request_calm q w s : Inv busy w s -> calm w = true -> rq_controller (the_request q s) = true -> w = WNone.
Proof.
  intros (Hcore & _) Hw Hq. pose proof Hcore as [Hd _ _ _ _ _]. unfold the_request in *. destruct (bd_requests (ys_data s) !! q) as [r|] eqn:Er; [|done]. cbn in *. unfold id in *. pose proof (da_requests _ _ Hd q r Er Hq) as Hr.
  pose proof (da_head _ _ Hd) as Hh. unfold head_ok in Hh. rewrite Hr in Hh. destruct (bd_pending (ys_data s)) as [|p ps] eqn:E; [done|]. by eapply waiting_none.
Qed.

Lemma others_apart s p ps : Inv busy WNone s -> bd_pending (ys_data s) = p :: ps -> pd_buffer p ∉ others [] (ys_data s) ps.
Proof. intros ([Hd _ _ _ _ _] & _) E. exact (head_apart _ _ _ _ Hd E). Qed.

Lemma peek_ok {B} (f : desc -> YM B) s p ps : bd_pending (ys_data s) = p :: ps -> (on_data peekPendingPullInto ≫= f) s = f p s.
Proof. intros E. rewrite (on_data_ok _ _ s p (ys_data s)); [by rewrite set_data_same|]. unfold peekPendingPullInto. by rewrite gets_bind, E. Qed.

Lemma respond_good s p ps c n : Inv busy WNone s -> bd_pending (ys_data s) = p :: ps -> content (ys_data s) (pd_buffer p) = Some c -> carries p c ->
  good busy WNone (ReadableByteStreamControllerRespond again n s).
Proof.
  intros H E Hc Hcar. unfold ReadableByteStreamControllerRespond. rewrite (peek_ok _ _ _ _ E). ystep. destruct (waiting_none _ _ _ _ (proj1 H) eq_refl E) as [_ Hne]. destruct (ys_state s) eqn:Es; [| |done].
  - case_bool_decide; [by apply good_throw|]. case_bool_decide; [by apply good_throw|]. rewrite ret_bind. apply (respond_internal_good s p ps _ c); try done; [by apply others_apart|by rewrite Es|lia].
  - case_bool_decide; cbn [negb]; [|by apply good_throw]. rewrite ret_bind. apply (respond_internal_good s p ps _ c); try done; [by apply others_apart|by rewrite Es].
Qed.

Lemma lift_good {A B} w (o : outcome A) (f : A -> YM B) s : Inv busy w s -> (forall c m, o = Throw c m -> is_defect c m = false) -> (forall a, o = Ok a -> good busy w (f a s)) -> good busy w ((lift o ≫= f) s).
Proof. intros H Ht Hf. unfold mbind, sm_bind, lift. destruct o as [a|c m]; [by apply Hf|]. apply good_throw; [done|by apply Ht]. Qed.

Lemma request_respond_keeps q n : keeps busy (request_respond again q n).
Proof.
  intros w s Hw H. unfold request_respond. apply lift_good; [done| |].
  { intros c m. destruct n as [z| | |]; cbn; try (by intros [= <- <-]). destruct (_ || _); [by intros [= <- <-]|done]. }
  intros k _. ystep. destruct (rq_controller (the_request q s)) eqn:Eq; cbn [negb]; [|by apply good_throw]. pose proof (request_calm _ _ _ H Hw Eq) as ->. destruct (request_view _ _ H Eq) as [v Ev]. rewrite Ev.
  destruct (request_head _ _ _ H Eq Ev) as (p & ps & E & -> & Hcar). unfold IsDetachedBuffer. cbn [head_view vw_buffer]. destruct (content (ys_data s) (pd_buffer p)) as [c|] eqn:Ec; [|by apply good_throw].
  destruct H as (Hcore & H'). pose proof Hcore as [Hd _ _ _ _ Hfl]. pose proof (da_shape _ _ Hd) as Hsh. rewrite E in Hsh. inversion Hsh as [|? ? [S1 S2 S3 S4 [S5 S6]] _]; subst. pose proof (yl_types _ _ _ _ Hfl) as [Hty _]. rewrite E in Hty. inversion Hty as [|? ? [_ Hlt] _]; subst.
  destruct (Hcar _ eq_refl) as [Hl Hs]. rewrite assert_bind. 2: { apply bool_decide_true. unfold byteLength, IsDetachedBuffer. cbn. rewrite Ec. lia. }
  rewrite assert_bind. 2: { apply bool_decide_true. unfold bufferByteLength. rewrite Ec. lia. }
  apply (respond_good s p ps c); try done.
Qed.

Lemma request_respond_view_keeps q v w s : calm w = true -> Inv busy w s -> held_view (ys_data s) v = true -> keeps_filled (ys_data s) v = true -> good busy w (request_respondWithNewView again q v s).
Proof.
  intros Hw H Hv Hk. unfold request_respondWithNewView. ystep. destruct (rq_controller (the_request q s)) eqn:Eq; cbn [negb]; [|by apply good_throw]. pose proof (request_calm _ _ _ H Hw Eq) as ->. destruct (request_view _ _ H Eq) as [v0 Ev].
  destruct (request_head _ _ _ H Eq Ev) as (p & ps & E & -> & Hcar). unfold IsDetachedBuffer. destruct (content (ys_data s) (vw_buffer v)) as [c|] eqn:Ec; [|by apply good_throw].
  unfold ReadableByteStreamControllerRespondWithNewView. rewrite (peek_ok _ _ _ _ E). ystep. rewrite assert_bind by (unfold IsDetachedBuffer; by rewrite Ec). destruct (waiting_none _ _ _ _ (proj1 H) eq_refl E) as [_ Hne].
  unfold held_view in Hv. rewrite !andb_true_iff in Hv. destruct Hv as [[[[Hsh _] _] _] Hb]. rewrite Ec in Hb. apply bool_decide_eq_true in Hb. unfold keeps_filled in Hk. rewrite E in Hk. apply bool_decide_eq_true in Hk. unfold region in Hk. rewrite Ec in Hk.
  assert (Hapart : vw_buffer v ∉ others [] (ys_data s) ps).
  { intros Hin. pose proof H as ([Hd _ _ _ _ _] & _). destruct (shared_outside [] _ _ Hd Hsh) as (p0 & ps0 & E0 & Eb & _).
    - unfold others in Hin. unfold owned. rewrite E, fmap_cons. cbn [app] in *. rewrite elem_of_app in *. destruct Hin; [by left|right; by right].
    - rewrite E in E0. injection E0 as <- <-. rewrite Eb in Hin. by apply (others_apart s p ps). }
  assert (Hgo : forall m : YM unit, (ys_state s = Closed -> vw_length v = 0) -> (ys_state s = Readable -> vw_length v <> 0) -> m s = (Ok tt, s) -> good busy WNone ((m ;;
    if negb (bool_decide (pd_offset p + pd_filled p = vw_offset v)) then throw ErrRangeError "The region specified by view does not match byobRequest" else
    if negb (bool_decide (pd_bufferLength p = bufferByteLength (ys_data s) (vw_buffer v))) then throw ErrRangeError "The buffer of view has different capacity than byobRequest" else
    if bool_decide (pd_length p < pd_filled p + vw_length v) then throw ErrRangeError "The region specified by view is larger than byobRequest" else
    b ← on_data (TransferArrayBuffer (vw_buffer v)); on_data (modify (update_head (with_buffer b p))) ;; ReadableByteStreamControllerRespondInternal again (vw_length v)) s)).
  { intros m Hcl Hrd Em. rewrite (bind_ok _ _ _ _ _ Em). unfold bufferByteLength. rewrite Ec.
    destruct (bool_decide (pd_offset p + _ = _)) eqn:B1; cbn [negb]; [apply bool_decide_eq_true in B1|by apply good_throw]. destruct (bool_decide (pd_bufferLength p = _)) eqn:B2; cbn [negb]; [apply bool_decide_eq_true in B2|by apply good_throw].
    destruct (bool_decide (pd_length p < _)) eqn:B3; [by apply good_throw|apply bool_decide_eq_false in B3].
    apply (respond_internal_good s p ps _ c); try done. intros Hs. specialize (Hrd Hs). lia. }
  destruct (ys_state s) eqn:Es; [| |done].
  - destruct (bool_decide (vw_length v = 0)) eqn:B; [by apply good_throw|apply bool_decide_eq_false in B]. by apply Hgo.
  - destruct (bool_decide (vw_length v = 0)) eqn:B; cbn [negb]; [apply bool_decide_eq_true in B|by apply good_throw]. by apply Hgo.
Qed.

(* ------------------------------------------------------------------ *)
(** ** All a source does *)

Lemma data_quiet {A} w s (m : BM A) a d : Inv busy w s -> calm w = true -> m (ys_data s) = (Ok a, d) -> Data (way_bufs w) d -> queue_bytes d = queue_bytes (ys_data s) -> bd_queue d = bd_queue (ys_data s) ->
  bd_pending d = bd_pending (ys_data s) -> keeps_way w (ys_data s) d -> good busy w ((on_data m ;; mret tt) s).
Proof. intros H Hw E Hd Hq Eq Ep Hk. rewrite (on_data_ok _ _ _ _ _ E). apply y_good_ok. apply data_inv; try done. by rewrite Ep. Qed.

Lemma get_request_good w s : calm w = true -> Inv busy w s -> good busy w ((on_data ReadableByteStreamControllerGetBYOBRequest ;; mret tt) s).
Proof.
  intros Hw H. pose proof H as ([Hd _ _ _ _ Hfl] & _). destruct (get_request_spec _ _ Hd) as (r & d & E & G1 & G2 & G3 & G4 & G5). apply (data_quiet w s _ r d); try done.
  destruct w as [|i|i v|ps]; try done; [by intros ? ? ?%elem_of_nil|]. destruct (yl_view _ _ _ _ Hfl eq_refl) as [Epe _]. intros b c _ Hc.
  unfold ReadableByteStreamControllerGetBYOBRequest in E. rewrite gets_bind in E. unfold id in E. rewrite Epe in E. by destruct (bd_request (ys_data s)); injection E as <- <-.
Qed.

Lemma perform_good w s op : calm w = true -> Inv busy w s -> allowed op (ys_data s) = true -> good busy w (perform again op s).
Proof.
  intros Hw H Ha. pose proof H as ([Hd _ _ _ _ _] & _). destruct op as [v| |e| |q n|q v|c|b off c|b]; cbn [perform allowed] in *.
  - by apply controller_enqueue_keeps.
  - by apply close_op_keeps.
  - apply (y_quiet_keeps K auto); [apply error_quiet|done|done].
  - by apply get_request_good.
  - by apply request_respond_keeps.
  - apply andb_true_iff in Ha as [? ?]. by apply request_respond_view_keeps.
  - destruct (added_data _ _ c true Hd) as [H1 H2]. apply (data_quiet w s _ (fresh_id (ys_data s)) (added c true (ys_data s))); try done. intros b c' _ Hp. unfold private. cbn. by apply frame_app.
  - rewrite !andb_true_iff in Ha. destruct Ha as [[Hs Hl%bool_decide_eq_true] Hb]. destruct (write_data _ _ b off c Hd Hs Hl) as [H1 H2].
    { intros p ps E <-. unfold behind_filled in Hb. rewrite E in Hb. rewrite (bool_decide_true (pd_buffer p = pd_buffer p)) in Hb by done. cbn in Hb. by apply bool_decide_eq_true in Hb. }
    rewrite (on_data_run _ _ tt (put_data b (write_at off c <$> content (ys_data s) b) (ys_data s))) by done. apply y_good_ok. apply data_inv; try done.
    intros b' c' _ Hp. unfold private. cbn. rewrite list_lookup_insert_ne; [done|]. by eapply private_ne_shared.
  - apply andb_true_iff in Ha as [Hs Hdt]. unfold IsDetachedBuffer in Hdt. destruct (content (ys_data s) b) as [c|] eqn:Ec; [|done].
    destruct (detach_data _ _ b c true Hd Hs) as [H1 H2]. apply (data_quiet w s _ _ _ H Hw (transfer_eq b c true _ Ec)); try done.
    intros b' c' _ Hp. unfold private, moved. cbn. apply frame_app. rewrite list_lookup_insert_ne; [done|]. by eapply private_ne_shared.
Qed.

Lemma byte_op_keeps op : keeps busy (controller_op again op).
Proof.
  intros w s Hw H. unfold controller_op. ystep. destruct (allowed op (ys_data s)) eqn:Ea; cbn [when]; [by apply perform_good|by apply y_good_ok].
Qed.

Lemma run_byte_ops_quiet ops : quiet busy (run_ops again ops).
Proof.
  induction ops as [|op ops IH]; intros w s Hw H; cbn [run_ops]; [by exists s|]. destruct (byte_op_keeps op w s Hw H) as [Hi Hg].
  assert (E : survive (controller_op again op) s = (Ok tt, (controller_op again op s).2)) by (unfold survive; destruct (controller_op again op s) as [[[]|c m] s']; [done|by rewrite Hg]).
  rewrite (bind_ok _ _ _ _ _ E). by apply IH.
Qed.
End Again.

(* ------------------------------------------------------------------ *)
(** ** Pulling *)

Variables (strategyHWM : jsnum) (pullOps : nat -> bstream -> list src_op).
Abbreviation call_pull n := (ReadableByteStreamControllerCallPullIfNeeded strategyHWM pullOps n).

Lemma pull_flagged_inv busy w s : Inv busy w s -> yc_pulling s = true -> Inv busy w (set_yc_pullAgain true s).
Proof. intros ([H1 H2 H3 H4 H5 [F1 F2 F4 F5 F6 F7 F8 F9 F10 F11 F12 F13]] & F3 & Hp) Hpu. split; [|by split]. by split. Qed.

(** [pull] called. *)
Definition pulled_up (s : bstream) : bstream := set_ys_awaited (ys_awaited s ++ [WaitPull]) (set_ys_calls (ys_calls s ++ [SourcePull]) (set_yc_pulling true s)).
Lemma pulled_up_inv w s : Inv false w s -> yc_started s = true -> Inv true w (pulled_up s).
Proof.
  intros ([H1 H2 H3 H4 (lost & H5 & H5') [F1 F2 F4 F5 F6 F7 F8 F9 F10 F11 F12 F13]] & F3 & Hp) Hst. split; [|by split]. unfold pulled_up. split; yprojs; try done.
  - exists lost. yprojs. split; [done|]. intros Hl. destruct (H5' Hl) as [A [B|[B|B]]]; split; auto. right; left. by rewrite existsb_app, B.
  - split; yprojs; try done.
    + by rewrite Hst.
    + rewrite waits_app. cbn. by rewrite Nat.add_0_r.
Qed.

Lemma call_pull_cases n busy w s : (busy = true \/ 0 < n) -> calm w = true -> Inv busy w s ->
  (forall n', n = S n' -> quiet true (call_pull n')) -> exists s', call_pull n s = (Ok tt, s') /\ Inv busy w s'.
Proof.
  intros Hn Hw H Hin. assert (Hsame : exists s', (Ok tt, s) = (Ok tt, s') /\ Inv busy w s') by by exists s. pose proof H as ([_ _ _ _ _ Hfl] & _ & Hp).
  destruct n as [|n]; cbn [ReadableByteStreamControllerCallPullIfNeeded]; ystep; unfold state_is; case_bool_decide as Hs; cbn [negb]; try done; destruct (yc_closeRequested s); try done; destruct (yc_started s) eqn:Est; cbn [negb]; try done;
    unfold ReadableByteStreamControllerGetDesiredSize; rewrite Hs; destruct (_ || num_positive _); cbn [negb]; try done; destruct (yc_pulling s) eqn:Epu.
  1, 3: (eexists; split; [done|]; by apply pull_flagged_inv).
  - destruct Hn as [->|?]; [|lia]. rewrite orb_true_r in Hp. by specialize (Hp eq_refl).
  - assert (Hf : yc_pullAgain s = false /\ busy = false) by (destruct (yc_pullAgain s), busy; try done; by specialize (Hp eq_refl)). destruct Hf as [Hf ->].
    rewrite assert_bind by by rewrite Hf. ystep. unfold call_source. ystep. rewrite (yl_algorithms _ _ _ _ Hfl Hs). ystep.
    destruct (run_byte_ops_quiet true (call_pull n) (Hin n eq_refl) (pullOps (ByteStream.pulls (set_yc_pulling true s)) (pulled_up s)) w (pulled_up s) Hw) as (s' & E & Hi); [by apply pulled_up_inv|].
    exists s'. split; [exact E|]. by apply (y_Inv_idle K auto true).
Qed.

Lemma call_pull_spec busy : quiet busy (CallPullIfNeeded strategyHWM pullOps).
Proof.
  intros w s Hw H. apply call_pull_cases; try done; [right; lia|]. intros n' [= <-] w' s' Hw' H'. apply call_pull_cases; try done. by left.
Qed.
End Kind.
