(* ===== verification/ByteStreamRun.v ===== *)
(** * Readers, and whole runs of byte streams

    What readers and consumers do keeps the invariant of [ByteStreamInv],
    and so does every event. *)

From S2P Require Import Prelude StreamBase ReadableStream ReadableStreamInv ByteData ByteDataInv ByteStream ByteStreamInv ByteStreamOps.
Open Scope nat_scope.

Section Kind.
Variables (K : bool) (auto : option nat).

Abbreviation Core := (ByteStreamInv.Core K auto).
Abbreviation Inv := (ByteStreamInv.Inv K auto).
Abbreviation good := (ByteStreamInv.good K auto).
Abbreviation keeps_none := (ByteStreamInv.keeps_none K auto).
Abbreviation quiet := (ByteStreamInv.quiet K auto).
Abbreviation T := (ByteStreamInv.T K).

(* ------------------------------------------------------------------ *)
(** ** Promises and settled reads *)

Lemma promises_inv busy w s P : Inv busy w s -> Inv busy w (set_ys_promises P s).
Proof. intros ([H1 H2 H3 H4 H5 [F1 F2 F4 F5 F6 F7 F8 F9 F10 F11 F12 F13]] & F3 & Hp). split; [|by split]. by split. Qed.
Lemma promise_kept busy w v s : Inv busy w s -> good busy w (new_promise v s).
Proof. intros H. apply y_good_ok. by apply promises_inv. Qed.
Lemma disturbed_kept busy w s : Inv busy w s -> Inv busy w (set_ys_disturbed true s).
Proof. intros ([H1 H2 H3 H4 H5 [F1 F2 F4 F5 F6 F7 F8 F9 F10 F11 F12 F13]] & F3 & Hp). split; [|by split]. by split. Qed.
Lemma rejected_good busy w e s : Inv busy w s -> good busy w (rejected e s).
Proof. intros H. apply y_good_ok. by apply promises_inv. Qed.

(** A read made. *)
Definition read_made (s : bstream) : bstream := set_ys_reads (ys_reads s ++ [YPending]) s.
Lemma read_made_inv busy s : Inv busy WNone s -> Inv busy (WRead (length (ys_reads s))) (read_made s).
Proof.
  intros ([H1 H2 H3 (settled & R1 & R2 & R3 & _) (lost & H5 & H5') [F1 F2 F4 F5 F6 F7 F8 F9 F10 F11 F12 F13]] & F3 & Hp). split; [|by split]. unfold read_made. split; yprojs; try done.
  - exists settled. change (requests (set_ys_reads _ s)) with (requests s). cbn [way_reads] in *. rewrite Nat.add_0_r in R2. split; [done|]. split; [|split; [done|]].
    + rewrite R2 at 1. rewrite <- app_assoc. f_equal. rewrite Nat.add_1_r. symmetry. apply replicate_cons_app.
    + rewrite R2, length_app, length_replicate. done.
  - exists lost. yprojs. split; [|done]. rewrite y_delivered_app. change [YPending] with (replicate 1 YPending). by rewrite delivered_pending, app_nil_r.
Qed.

(** The read made is settled without a view. *)
Lemma settled_silent_inv busy i v s : Inv busy (WRead i) s -> requests s = [] -> v <> YPending -> data_of v = [] -> Inv busy WNone (set_ys_reads (<[i := v]> (ys_reads s)) s).
Proof.
  intros ([H1 H2 H3 (settled & R1 & R2 & R3 & R4) (lost & H5 & H5') [F1 F2 F4 F5 F6 F7 F8 F9 F10 F11 F12 F13]] & F3 & Hp) Hr Hv Hd. split; [|by split]. rewrite Hr in *. cbn [length way_reads] in *.
  assert (Ei : <[i := v]> (ys_reads s) = (settled ++ [v]) ++ replicate 0 YPending) by (rewrite R2; apply insert_read; lia). split; yprojs; try done.
  - exists (settled ++ [v]). change (requests (set_ys_reads _ s)) with (requests s). rewrite Hr, Ei. split; [|done]. rewrite elem_of_app, list_elem_of_singleton. intros [?|E]; [done|]. by rewrite <- E in Hv.
  - exists lost. yprojs. split; [|done]. rewrite Ei. cbn [replicate]. rewrite app_nil_r, delivered_snoc, Hd, app_nil_r. rewrite R2 in H5. change (replicate (0 + 1) YPending) with (replicate 1 YPending) in H5. by rewrite y_delivered_app, delivered_pending, app_nil_r in H5.
  - split; yprojs; change (requests (set_ys_reads (<[i := v]> (ys_reads s)) s)) with (requests s); rewrite ?Hr; try done.
Qed.

(* ------------------------------------------------------------------ *)
(** ** A read that waits *)

Lemma push_request_eq r x i s : ys_reader s = Some r -> ys_readers s !! r = Some x ->
  push_request i s = (Ok tt, set_ys_readers (<[r := with_requests (yr_requests x ++ [i]) x]> (ys_readers s)) s).
Proof. intros Er Hx. unfold push_request, for_reader. ystep. rewrite Er. by rewrite (y_the_reader_bind r x). Qed.

(** The read waits, with the descriptors [ps] of its own and the bytes [d]. *)
Lemma read_waits busy r x i ps d s : Inv busy (WRead i) s -> ys_reader s = Some r -> ys_readers s !! r = Some x -> ys_state s <> Errored -> (K = false -> ys_state s = Readable) -> (ys_state s = Readable -> yc_closeRequested s = false) ->
  Data [] (set_pending (bd_pending (ys_data s) ++ ps) d) -> bd_queue d = [] -> given_bytes ps ++ queue_bytes d = queue_bytes (ys_data s) ->
  Forall (fun p => pd_type p = T /\ pd_filled p < pd_minimum p /\ (K = false -> pd_filled p = 0 /\ pd_minimum p = 1) /\ (ys_state s = Closed -> pd_filled p = 0)) ps ->
  length ps = (if K then 1 else match auto with Some _ => 1 | None => 0 end) ->
  Inv busy WNone (set_ys_readers (<[r := with_requests (yr_requests x ++ [i]) x]> (ys_readers s)) (set_ys_data (set_pending (bd_pending (ys_data s) ++ ps) d) s)).
Proof.
  intros ([H1 H2 H3 (settled & R1 & R2 & R3 & R4) (lost & H5 & H5') [F1 F2 F4 F5 F6 [F7 F7'] F8 F9 F10 F11 F12 F13]] & F3 & Hp) Er Hx Hs Hks Hcl Hd Hq Hb Hps Hlen.
  set (s' := set_ys_readers _ _). assert (Hreq : requests s = yr_requests x) by (by apply y_requests_of with r). assert (Hreq' : requests s' = requests s ++ [i]) by (rewrite Hreq; by apply (requests_set s r x)).
  assert (HTN : T <> ForNone) by (unfold T, ByteStreamInv.T; by destruct K). rewrite Forall_forall in Hps.
  assert (Hlive : live (bd_pending (ys_data s) ++ ps) = live (bd_pending (ys_data s)) ++ ps).
  { unfold live at 1 2. rewrite filter_app. f_equal. fold (live ps). apply live_all. apply Forall_forall. intros p Hin. by rewrite (proj1 (Hps p Hin)). }
  split; [|split; [|done]]. 2: { unfold drained, s'. yprojs. intros _. exact Hq. }
  split; rewrite ?Hreq'; unfold s'; yprojs; try done.
  - by apply readers_requests.
  - exists settled. rewrite !length_app. cbn [length way_reads] in *. split; [done|]. split; [rewrite R2; do 2 f_equal; lia|]. split; [|done]. rewrite R3 at 1. rewrite R4. by rewrite seq_app.
  - exists lost. yprojs. change (bd_pending (set_pending _ d)) with (bd_pending (ys_data s) ++ ps). change (queue_bytes (set_pending _ d)) with (queue_bytes d). split.
    + rewrite <- H5, <- Hb. unfold given_bytes. rewrite fmap_app, concat_app. cbn [way_bytes app]. by rewrite <- !app_assoc.
    + intros Hl. destruct (H5' Hl) as [A [B|[B|B]]]; split; auto. right; right. by apply released_requests.
  - split; rewrite ?Hreq'; yprojs; change (bd_pending (set_pending (bd_pending (ys_data s) ++ ps) d)) with (bd_pending (ys_data s) ++ ps); change (bd_queue (set_pending (bd_pending (ys_data s) ++ ps) d)) with (bd_queue d); try done.
    + intros Hc Hr. by rewrite (Hcl Hr) in Hc.
    + split.
      * apply Forall_app. split; [done|]. apply Forall_forall. intros p Hin. destruct (Hps p Hin) as (A & B & _). split; [by left|done].
      * destruct (bd_pending (ys_data s)) as [|p0 ps0]; cbn [app tail] in *; [|apply Forall_app; split; [done|]; apply Forall_forall; intros p Hin; by rewrite (proj1 (Hps p Hin))].
        destruct ps as [|p ps1]; [done|]. cbn. assert (E0 : ps1 = []) by (apply nil_length_inv; cbn in Hlen; destruct K; [lia|]; destruct auto; lia). by rewrite E0.
    + intros Hk. match goal with |- length ?l = _ => change l with (requests s') end. rewrite Hreq', Hlive, !length_app. specialize (F8 Hk). cbn [length way_descs] in *. destruct Hk as [Hk|[Hk _]]; [rewrite Hk in Hlen; lia|]. destruct K; [lia|]. destruct auto; [lia|done].
    + intros Hk. destruct (F9 Hk) as (A & B & C). split; [|split; [intros Hc; by rewrite (Hks Hk) in Hc|]].
      * apply Forall_app. split; [done|]. apply Forall_forall. intros p Hin. by apply (Hps p Hin).
      * intros Ha. destruct (C Ha) as [C1 C2]. split; [|done]. rewrite C1. rewrite Hk, Ha in Hlen. cbn. by apply nil_length_inv.
    + intros Hc. apply Forall_app. split; [by apply F10|]. apply Forall_forall. intros p Hin. destruct (Hps p Hin) as (_ & _ & _ & E0). rewrite (E0 Hc). apply Nat.Div0.mod_0_l.
    + intros (p & Hin & Ht). apply released_requests; [done|]. apply elem_of_app in Hin as [Hin|Hin]; [apply F11; by exists p|]. rewrite (proj1 (Hps p Hin)) in Ht. done.
Qed.

Lemma y_owner_current busy w s r x : Inv busy w s -> ys_readers s !! r = Some x -> yr_byob x = K /\ (yr_owner x = true <-> ys_reader s = Some r).
Proof. intros ([_ _ [_ He] _ _ _] & _) Hx. destruct (He r x Hx) as (? & _ & ?). done. Qed.

Lemma reader_good {A} w (f : yreader -> YM A) r s : Inv false w s -> (forall x, ys_readers s !! r = Some x -> good false w (f x s)) -> good false w ((the_reader r ≫= f) s).
Proof.
  intros H Hf. destruct (ys_readers s !! r) as [x|] eqn:Ex; [rewrite (y_the_reader_bind r x) by done; by apply Hf|]. unfold mbind, sm_bind, the_reader. rewrite Ex. by apply good_throw.
Qed.

Section Pull.
Variables (strategyHWM : jsnum) (pullOps : nat -> bstream -> list src_op).
Hypothesis Hauto : auto <> Some 0.
Abbreviation call_pull := (CallPullIfNeeded strategyHWM pullOps).

Lemma call_pull_good w s : calm w = true -> Inv false w s -> good false w (call_pull s).
Proof. intros Hw H. apply (quiet_good K auto false); [apply call_pull_spec|done|done]. Qed.

Lemma queued_total xs d : Data xs d -> bd_queue d <> [] -> 0 < bd_total d.
Proof. intros H Hne. destruct (decide (bd_total d = 0)) as [E|?]; [|lia]. by pose proof (total_zero _ _ H E). Qed.
Lemma readable_open busy w s : Inv busy w s -> ys_state s = Readable -> bd_queue (ys_data s) = [] -> yc_closeRequested s = false.
Proof. intros ([_ _ _ _ _ Hfl] & _) Hs Hq. destruct (yc_closeRequested s) eqn:E; [|done]. by destruct (yl_close _ _ _ _ Hfl E Hs). Qed.

(** Nothing waits while something is queued. *)
Lemma queued_idle busy s : Inv busy WNone s -> 0 < bd_total (ys_data s) -> bd_queue (ys_data s) <> [] /\ ys_state s = Readable /\ bd_pending (ys_data s) = [] /\ requests s = [].
Proof.
  intros H Ht. pose proof H as ([Hd _ _ _ _ Hfl] & Hdr & _). assert (Hq : bd_queue (ys_data s) <> []) by (intros E; pose proof (da_total _ _ Hd) as Hto; rewrite E in Hto; cbn in Hto; lia).
  assert (Hs : ys_state s = Readable) by (destruct (decide (ys_state s = Readable)) as [?|Hn]; [done|]; by destruct Hq; apply (yl_ended _ _ _ _ Hfl)).
  split; [done|]. split; [done|]. split; [by destruct (decide (bd_pending (ys_data s) = [])) as [?|Hn]; [|destruct Hq; apply Hdr]|].
  destruct (decide (requests s = [])) as [?|Hn]; [done|]. by pose proof (waiting_drained K auto _ _ _ H eq_refl Hs Hn).
Qed.

Lemma auto_shape b n : 0 < n -> shape (auto_descriptor b n).
Proof. intros Hn. split; cbn; try done; split; try lia; done. Qed.

Lemma y_pull_steps_good s r x : Inv false WNone s -> ys_state s = Readable -> ys_reader s = Some r -> ys_readers s !! r = Some x -> K = false ->
  good false WNone (PullSteps strategyHWM auto pullOps (length (ys_reads s)) (set_ys_disturbed true (read_made s))).
Proof.
  intros H Hs Er Hx HK. pose proof (disturbed_kept _ _ _ (read_made_inv _ _ H)) as H1. set (s1 := set_ys_disturbed true (read_made s)) in *. set (i := length (ys_reads s)) in *.
  destruct (y_owner_current _ _ _ _ _ H Hx) as [Hb _].
  assert (Hg : forall a, a = auto -> good false WNone (PullSteps strategyHWM a pullOps i s1)); [|by apply Hg]. intros a Ea. unfold PullSteps. ystep. assert (Hdef : ReadableStreamHasDefaultReader s1 = true) by (unfold ReadableStreamHasDefaultReader; rewrite (current_of s1 r x Er Hx), Hb, HK; done).
  rewrite assert_bind by done. case_bool_decide as Ht.
  - destruct (queued_idle _ _ H Ht) as (Hq & _ & Hpe & Hreq). rewrite assert_bind by by apply bool_decide_true. 
    destruct (fill_read_spec K auto false call_pull (call_pull_spec _ _ _ _ _) i s1 H1 Hreq Hpe Hq) as (s2 & E & H2). rewrite E. by apply y_good_ok.
  - assert (Hq : bd_queue (ys_data s) = []). { pose proof H as ([Hd _ _ _ _ _] & _). eapply total_zero; [exact Hd|]. change (~ 0 < bd_total (ys_data s)) in Ht. lia. }
    pose proof (readable_open _ _ _ H Hs Hq) as Hopen. pose proof H1 as ([Hd1 _ _ _ _ _] & _).
    assert (Hadd : forall s2, ys_reader s2 = Some r -> ys_readers s2 = ys_readers s -> ys_state s2 = Readable -> forall (f : unit -> YM unit),
      (ReadableStreamAddReadRequest i ≫= f) s2 = f tt (set_ys_readers (<[r := with_requests (yr_requests x ++ [i]) x]> (ys_readers s2)) s2)).
    { intros s2 Er2 Ex2 Hs2 f. unfold ReadableStreamAddReadRequest. ystep. assert (Hx2 : ys_readers s2 !! r = Some x) by by rewrite Ex2.
      rewrite assert_bind by (unfold ReadableStreamHasDefaultReader; by rewrite (current_of s2 r x Er2 Hx2), Hb, HK). rewrite bind_assoc. rewrite assert_bind by (unfold state_is; by rewrite bool_decide_true). by rewrite (bind_ok _ _ _ _ _ (push_request_eq _ _ _ _ Er2 Hx2)). }
    destruct a as [n|].
    + rewrite bind_assoc. set (c := replicate n 0%Z). rewrite (on_data_ok _ _ s1 (fresh_id (ys_data s1)) (added c false (ys_data s1))) by done. cbv beta. set (p := auto_descriptor (fresh_id (ys_data s1)) n).
      rewrite (on_data_ok _ _ _ tt (set_pending (bd_pending (ys_data s) ++ [p]) (added c false (ys_data s1)))) by done. cbv beta. rewrite Hadd by done.
      assert (Hn : 0 < n) by (destruct n; [by destruct Hauto|lia]). destruct (added_data _ _ c false Hd1) as [Ha Haq]. assert (Hpv : private (bd_buffers (added c false (ys_data s1))) (fresh_id (ys_data s1)) c) by apply added_private.
      apply call_pull_good; [done|]. apply (read_waits false r x i [p] (added c false (ys_data s1)) s1 H1); try done.
      * change (ys_state s <> Errored). by rewrite Hs.
      * apply (push_data _ (added c false (ys_data s1)) p); [by eapply data_way; [exact Ha|exact Hpv|exact (owned_fresh _ _ Hd1)]|by apply auto_shape| | |by left].
        -- exists c. split; [done|]. split; [apply length_replicate|done].
        -- change (bd_request (ys_data s1) = None \/ bd_pending (ys_data s1) <> []). pose proof (da_head _ _ Hd1) as Hh. unfold head_ok in Hh. destruct (bd_pending (ys_data s1)); [left; by destruct (bd_request (ys_data s1))|by right].
      * constructor; [|done]. split; [unfold T, ByteStreamInv.T; by rewrite HK|]. split; [cbn; lia|done].
      * by rewrite HK, <- Ea.
    + rewrite ret_bind, Hadd by done. apply call_pull_good; [done|].
      pose proof (read_waits false r x i [] (ys_data s1) s1 H1) as Hwait. rewrite app_nil_r in Hwait. assert (Es : set_ys_data (set_pending (bd_pending (ys_data s1)) (ys_data s1)) s1 = s1) by (clear; destruct s1 as [d]; by destruct d). rewrite Es in Hwait.
      apply Hwait; try done.
      * change (ys_state s <> Errored). by rewrite Hs.
      * by clear -Hd1; destruct (ys_data s1).
      * by rewrite HK, <- Ea.
Qed.
Lemma default_read_good r : keeps_none (default_read strategyHWM auto pullOps r).
Proof.
  intros s H. unfold default_read. apply reader_good; [done|]. intros x Hx. destruct (y_owner_current _ _ _ _ _ H Hx) as [Hb Ho]. destruct (yr_byob x) eqn:Eb; [by apply rejected_good|]. destruct (yr_owner x) eqn:Eo; cbn [negb]; [|by apply rejected_good].
  assert (Er : ys_reader s = Some r) by by apply Ho. symmetry in Hb.
  rewrite (bind_ok new_read _ s (length (ys_reads s)) (read_made s)) by done. pose proof H as ([_ _ _ _ _ Hfl] & _).
  apply y_good_then. unfold ReadableStreamDefaultReaderRead. ystep. pose proof (disturbed_kept _ _ _ (read_made_inv _ _ H)) as H1.
  change (ys_state (set_ys_disturbed true (read_made s))) with (ys_state s). destruct (ys_state s) eqn:Es.
  - by apply (y_pull_steps_good s r x).
  - apply y_good_ok. apply settled_silent_inv; try done. by apply (yl_default _ _ _ _ Hfl Hb).
  - apply y_good_ok. apply settled_silent_inv; try done. by apply (yl_errored _ _ _ _ Hfl).
Qed.

(* ------------------------------------------------------------------ *)
(** ** Reads into views *)

(** An error of a controller, wherever the stream is. *)
Lemma controller_error_eq e s : ys_state s = Readable -> readers_ok K Readable (ys_reader s) (ys_readers s) ->
  exists P, ReadableByteStreamControllerError e s = (Ok tt, ended false Errored e (YError e) P (set_yc_algorithms false (set_ys_data (wiped (ys_data s)) s))).
Proof.
  intros Hs Hr. unfold ReadableByteStreamControllerError. ystep. unfold state_is. rewrite bool_decide_true by done. cbn [negb].
  rewrite (on_data_ok _ _ _ _ _ (clear_eq _)). rewrite (on_data_ok _ _ _ _ _ (reset_eq _)). unfold ReadableByteStreamControllerClearAlgorithms. ystep.
  destruct (y_error_eq K e (set_yc_algorithms false (set_ys_data (wiped (ys_data s)) s))) as [P E]; [done|done|]. by exists P.
Qed.

Record Reading (s : bstream) (r : nat) (x : yreader) (i b : nat) (p : desc) : Prop := {
  rg_inv : Inv false (WRead i) s; rg_reader : ys_reader s = Some r; rg_x : ys_readers s !! r = Some x; rg_state : ys_state s <> Errored; rg_kind : K = true;
  rg_data : Data [b] (ys_data s); rg_buffer : pd_buffer p = b; rg_shape : shape p; rg_own : own_desc (bd_buffers (ys_data s)) p; rg_fresh : pd_filled p = 0; rg_type : pd_type p = ForByob; rg_minimum : 0 < pd_minimum p }.

Lemma add_into_eq s r x i : ys_reader s = Some r -> ys_readers s !! r = Some x -> yr_byob x = true -> ys_state s <> Errored ->
  ReadableStreamAddReadIntoRequest i s = (Ok tt, set_ys_readers (<[r := with_requests (yr_requests x ++ [i]) x]> (ys_readers s)) s).
Proof.
  intros Er Hx Hb Hs. unfold ReadableStreamAddReadIntoRequest. ystep. rewrite assert_bind by (unfold ReadableStreamHasBYOBReader; by rewrite (current_of s r x Er Hx)).
  rewrite assert_bind by (unfold state_is; destruct (ys_state s); done). by apply push_request_eq.
Qed.

Lemma reading_byob s r x i b p : Reading s r x i b p -> yr_byob x = true.
Proof. intros [H _ Hx _ HK _ _ _ _ _ _ _]. destruct (y_owner_current _ _ _ _ _ H Hx) as [-> _]. done. Qed.

(** A descriptor pushed, with what it has got from the queue. *)
Lemma push_into_inv s r x i b p d p' : Reading s r x i b p -> Data [b] d -> bd_pending d = bd_pending (ys_data s) -> bd_queue d = [] -> bd_request d = bd_request (ys_data s) -> (ys_state s = Readable -> yc_closeRequested s = false) ->
  pd_buffer p' = b -> shape p' -> own_desc (bd_buffers d) p' -> pd_given p' ++ queue_bytes d = queue_bytes (ys_data s) -> pd_type p' = ForByob -> pd_filled p' < pd_minimum p' -> pd_filled p' = 0 \/ bd_pending (ys_data s) = [] /\ ys_state s = Readable ->
  exists s', push_descriptor p' i (set_ys_data d s) = (Ok tt, s') /\ Inv false WNone s'.
Proof.
  intros HR Hd Hp Hq Hrq Hcl Hb Hsh Hown Hbytes Hty Hlt Hf. pose proof HR as [H Er Hx Hs HK _ _ _ _ _ _ _]. pose proof H as ([Hd0 _ _ _ _ _] & _). unfold push_descriptor.
  rewrite (on_data_ok _ _ _ tt (set_pending (bd_pending (ys_data s) ++ [p']) d)) by (yprojs; unfold modify; by rewrite Hp). cbv beta. rewrite (add_into_eq _ r x) by (done || by eapply reading_byob).
  eexists. split; [done|]. apply (read_waits false r x i [p'] d s H); try done.
  - by rewrite HK.
  - rewrite <- Hp. apply push_data; try done.
    + by rewrite Hb.
    + rewrite Hrq, Hp. pose proof (da_head _ _ Hd0) as Hh. unfold head_ok in Hh. destruct (bd_pending (ys_data s)); [left; by destruct (bd_request (ys_data s))|by right].
    + rewrite Hp. destruct Hf as [?|[? _]]; [by left|by right].
  - unfold given_bytes. cbn. by rewrite app_nil_r.
  - constructor; [|done]. split; [unfold T, ByteStreamInv.T; by rewrite HK|]. split; [done|]. split; [by rewrite HK|]. intros Hc. destruct Hf as [?|[_ ?]]; [done|congruence].
  - by rewrite HK.
Qed.

(** A view on its way to the read just made. *)
Lemma view_way s i v d c cr : Inv false (WRead i) s -> K = true -> bd_pending (ys_data s) = [] -> Data [vw_buffer v] d -> private (bd_buffers d) (vw_buffer v) c -> vw_offset v + vw_length v <= length c ->
  bd_pending d = [] -> region d (vw_buffer v) (vw_offset v) (vw_length v) ++ queue_bytes d = queue_bytes (ys_data s) -> (ys_state s <> Readable -> bd_queue d = []) -> (cr = true -> ys_state s = Readable -> bd_queue d <> []) ->
  requests s = [] /\ Inv false (WView i v) (set_yc_closeRequested cr (set_ys_data d s)).
Proof.
  intros ([H1 H2 H3 H4 (lost & H5 & H5') [F1 F2 F4 F5 F6 F7 F8 F9 F10 F11 F12 F13]] & F3 & Hp) HK Hpe Hd Hc Hl Hpd Hb Hq Hcr. rewrite Hpe in *.
  assert (Hr : requests s = []). { specialize (F8 ltac:(by left)). by apply nil_length_inv. }
  split; [done|]. split; [|split; [|done]]. 2: { unfold drained. yprojs. by rewrite Hpd. }
  split; yprojs; try done.
  - by exists c.
  - exists lost. yprojs. split; [|done]. rewrite <- H5, <- Hb, Hpd. cbn [way_bytes given_bytes fmap list_fmap concat app]. by rewrite <- !app_assoc.
  - split; yprojs; rewrite ?Hpd; try done.
Qed.

Lemma reading_given s r x i b p : Reading s r x i b p -> pd_given p = [].
Proof. intros [_ _ _ _ _ _ _ [_ _ _ _ [_ Hl]] _ Hf _ _]. apply nil_length_inv. lia. Qed.

Lemma read_into_queued s r x i b p : Reading s r x i b p -> bd_pending (ys_data s) = [] -> ys_state s = Readable -> 0 < bd_total (ys_data s) ->
  good false WNone ((r ← on_data (ReadableByteStreamControllerFillPullIntoDescriptorFromQueue p);
    match r with
    | (true, p) => filledView ← on_data (ReadableByteStreamControllerConvertPullIntoDescriptor p); ReadableByteStreamControllerHandleQueueDrain call_pull ;; deliver false filledView i
    | (false, p) => s ← gets id;
      if yc_closeRequested s then ReadableByteStreamControllerError (ErrorObj ErrTypeError insufficient) ;; settle_read (YError (ErrorObj ErrTypeError insufficient)) i
      else push_descriptor p i ;; call_pull
    end) s).
Proof.
  intros HR Hpe Hs Ht. pose proof HR as [H Er Hx Hne HK Hd Hb Hsh Hown Hf Hty Hmin]. pose proof H as ([_ _ Hro _ _ Hfl] & Hdr & Hpull).
  assert (Hrq : bd_request (ys_data s) = None). { pose proof (da_head _ _ Hd) as Hh. unfold head_ok in Hh. rewrite Hpe in Hh. by destruct (bd_request (ys_data s)). }
  assert (HF : Fillable [b] (ys_data s) p) by (split; try done; left; rewrite Hb; split; [done|left]).
  destruct (fill_spec _ _ _ HF ltac:(lia) Ht) as (n & p' & d & ready & E & [G1 G2 G3 G4 G5 G6 G7] & Hn & Hres). rewrite (on_data_ok _ _ _ _ _ E). cbv beta. rewrite Hpe in G4. pose proof G1 as [D1 D2 _ D4 D5].
  assert (Hb' : pd_buffer p' = b) by by rewrite G2. assert (Hgiv : pd_given p' ++ queue_bytes d = queue_bytes (ys_data s)) by (rewrite G3, G2; cbn; rewrite (reading_given _ _ _ _ _ _ HR); cbn [app]; by rewrite take_drop).
  destruct ready.
  - destruct Hres as [_ Hal]. rewrite (on_data_ok _ _ (set_ys_data d s) _ _ (convert_spec d p' D4 D5 Hal)). cbv beta. change (set_ys_data d (set_ys_data d s)) with (set_ys_data d s). destruct D5 as (c & Hc & Hca). pose proof Hca as [Hlc Hsc].
    destruct (view_way s i (filled_view p') d c false H HK Hpe) as [_ Hi]; try done.
    + cbn. by rewrite Hb'.
    + cbn. destruct D4 as [_ _ _ S4 [S5 _]]. lia.
    + cbn. rewrite filled_bytes by by exists c. done.
    + destruct (drain_spec K auto false call_pull (call_pull_spec _ _ _ _ _) (WView i (filled_view p')) (set_ys_data d s) eq_refl Hi Hs G4) as (s2 & E2 & H2). rewrite (bind_ok _ _ _ _ _ E2). rewrite deliver_eq. apply y_good_ok. by apply deliver_inv.
  - destruct Hres as [Hlt Hall]. assert (Hq : bd_queue d = []) by (eapply total_zero; [exact D1|]; rewrite G5; lia). ystep. change (yc_closeRequested (set_ys_data d s)) with (yc_closeRequested s). destruct (yc_closeRequested s) eqn:Ec.
    + rewrite Hs in Hro. destruct (controller_error_eq (ErrorObj ErrTypeError insufficient) (set_ys_data d s) Hs Hro) as [P E2]. rewrite (bind_ok _ _ _ _ _ E2). apply y_good_ok.
      assert (Hi : Inv false (WRead i) (ended false Errored (ErrorObj ErrTypeError insufficient) (YError (ErrorObj ErrTypeError insufficient)) P (set_yc_algorithms false (set_ys_data (wiped d) s)))).
      { apply drop_inv; try done; [apply wiped_data; by eapply data_forget|by intros ? ? ?%elem_of_nil|by left]. }
      apply settled_silent_inv; try done. apply (ended_requests K false). unfold set_yc_algorithms. cbn. by rewrite Hs.
    + destruct (push_into_inv s r x i b p d p' HR D1) as (s2 & E2 & H2); try done.
      * by rewrite Hpe.
      * by rewrite D2, Hrq.
      * by rewrite G2.
      * assert (pd_minimum p' = pd_minimum p) as -> by by rewrite G2. done.
      * by right.
      * rewrite (bind_ok _ _ _ _ _ E2). by apply call_pull_good.
Qed.

Lemma read_into_good s r x i b p : Reading s r x i b p -> good false WNone (read_into strategyHWM pullOps p i s).
Proof.
  intros HR. pose proof HR as [H Er Hx Hne HK Hd Hb Hsh Hown Hf Hty Hmin]. pose proof H as ([_ _ _ _ _ Hfl] & Hdr & _). pose proof (reading_given _ _ _ _ _ _ HR) as Hg.
  assert (Hpush : bd_queue (ys_data s) = [] -> exists s', push_descriptor p i s = (Ok tt, s') /\ Inv false WNone s').
  { intros Hq. destruct (push_into_inv s r x i b p (ys_data s) p HR Hd) as (s' & E & Hi); try done; [intros Hs; by eapply readable_open|by rewrite Hg|by rewrite Hf|by left|]. rewrite set_data_same in E. by exists s'. }
  unfold read_into. ystep. unfold pendingPullIntos. destruct (bool_decide (bd_pending (ys_data s) = [])) eqn:Epe; cbn [negb].
  2: { apply bool_decide_eq_false in Epe. destruct (Hpush (Hdr Epe)) as (s' & -> & Hi). by apply y_good_ok. }
  apply bool_decide_eq_true in Epe. unfold state_is. case_bool_decide as Hc.
  - destruct Hown as (c & Hpc & Hlc & _). destruct Hsh as [[S1 S1'] S2 S3 S4 [S5 S6]].
    assert (Ev : new_view (pd_ctor p) (pd_buffer p) (pd_offset p) 0 (ys_data s) = (Ok (View (pd_ctor p) (pd_buffer p) (pd_offset p) 0), ys_data s)).
    { unfold new_view. rewrite gets_bind. unfold id. rewrite (content_private _ _ _ Hpc). rewrite <- S1'. by rewrite !bool_decide_true by (lia || done). }
    rewrite (on_data_ok _ _ _ _ _ Ev), set_data_same. rewrite deliver_eq. apply y_good_ok. apply deliver_inv.
    destruct (view_way s i (View (pd_ctor p) (pd_buffer p) (pd_offset p) 0) (ys_data s) c (yc_closeRequested s) H HK Epe) as [_ Hi]; try done.
    + cbn. by rewrite Hb.
    + cbn. lia.
    + unfold region. cbn. by rewrite (content_private _ _ _ Hpc).
    + intros _. apply (yl_ended _ _ _ _ Hfl). by rewrite Hc.
    + by rewrite Hc.
    + rewrite set_data_same in Hi. by destruct s.
  - assert (Hs : ys_state s = Readable) by (destruct (ys_state s); done). case_bool_decide as Ht.
    + pose proof (read_into_queued s r x i b p HR Epe Hs Ht) as Hg2. rewrite bind_assoc. unfold mbind, sm_bind in Hg2 |- *. destruct (on_data _ s) as [[[rdy p']|] s']; [|exact Hg2]. by destruct rdy.
    + rewrite ret_bind. ystep. cbn [default snd]. assert (Hq : bd_queue (ys_data s) = []) by (eapply total_zero; [exact Hd|]; unfold queueTotalSize in Ht; lia).
      destruct (Hpush Hq) as (s' & E & Hi). rewrite (bind_ok _ _ _ _ _ E). by apply call_pull_good.
Qed.

(** Views the program can read into: [min] fits a [DataView]. *)
Definition min_fits (v : view) (min : jsnum) : bool :=
  match vw_ctor v, convertUnsignedLongLongWithEnforceRange min with DataView, Ok n => bool_decide (n <= vw_length v) | _, _ => true end.

Lemma read_view_shape v c b m : 0 < arrayBufferViewElementSize (vw_ctor v) -> vw_offset v mod arrayBufferViewElementSize (vw_ctor v) = 0 -> vw_offset v + vw_length v <= length (c : bytes) ->
  m * arrayBufferViewElementSize (vw_ctor v) <= vw_length v -> shape (read_descriptor v b (length c) m).
Proof.
  intros H1 H2 H3 H4. unfold read_descriptor. split; cbn; try done; [split; [apply Nat.Div0.mod_mul|done]|split; [lia|done]].
Qed.

Lemma convert_range v n m : convertUnsignedLongLongWithEnforceRange v = Throw n m -> is_defect n m = false.
Proof. destruct v as [z| | |]; cbn; try (by intros [= <- <-]). destruct (_ || _); [by intros [= <- <-]|done]. Qed.

Lemma byob_read_good r v min s : Inv false WNone s -> held_view (ys_data s) v = true -> min_fits v min = true -> good false WNone (byob_read strategyHWM pullOps r v min s).
Proof.
  intros H Hv Hm. unfold byob_read. apply reader_good; [done|]. intros x Hx. destruct (y_owner_current _ _ _ _ _ H Hx) as [Hb Ho]. destruct (yr_byob x) eqn:Eb; cbn [negb]; [|by apply rejected_good]. ystep.
  unfold held_view in Hv. rewrite !andb_true_iff, !bool_decide_eq_true in Hv. destruct Hv as [[[[Hsh Hel] Hof] Hle] Hbd].
  assert (Ebl : byteLength (ys_data s) v = match content (ys_data s) (vw_buffer v) with Some _ => vw_length v | None => 0 end) by (unfold byteLength, IsDetachedBuffer; by destruct (content _ _)).
  assert (Ebb : bufferByteLength (ys_data s) (vw_buffer v) = match content (ys_data s) (vw_buffer v) with Some c => length c | None => 0 end) by done.
  assert (Edt : IsDetachedBuffer (ys_data s) (vw_buffer v) = match content (ys_data s) (vw_buffer v) with Some _ => false | None => true end) by done.
  destruct (content (ys_data s) (vw_buffer v)) as [c|] eqn:Ec; [|by rewrite Ebl; apply rejected_good]. apply bool_decide_eq_true in Hbd. rewrite Ebl, Ebb, Edt.
  destruct (bool_decide (vw_length v = 0)) eqn:E0; [by apply rejected_good|apply bool_decide_eq_false in E0]. destruct (bool_decide (length c = 0)); [by apply rejected_good|].
  unfold min_fits in Hm. destruct (convertUnsignedLongLongWithEnforceRange min) as [m|en em]; [|by apply rejected_good].
  destruct (bool_decide (m = 0)) eqn:Em; [by apply rejected_good|apply bool_decide_eq_false in Em]. unfold view_elements. rewrite Ebl.
  assert (Hmin : match vw_ctor v with Typed n => bool_decide (vw_length v / n < m) | DataView => false end = false -> m * arrayBufferViewElementSize (vw_ctor v) <= vw_length v).
  { destruct (vw_ctor v) as [n|]; cbn in *; [|intros _; apply bool_decide_eq_true in Hm; lia]. intros Hlt%bool_decide_eq_false. pose proof (Nat.Div0.mul_div_le (vw_length v) n). nia. }
  destruct (match vw_ctor v with Typed n => bool_decide (vw_length v / n < m) | DataView => false end) eqn:Eg.
  { destruct (vw_ctor v); [|done]. rewrite Eg. by apply rejected_good. }
  assert (Eg' : match match vw_ctor v with Typed n => Some (vw_length v / n) | DataView => None end with Some n => bool_decide (n < m) | None => false end = false) by by destruct (vw_ctor v). rewrite Eg'. specialize (Hmin eq_refl).
  destruct (match match vw_ctor v with Typed n => Some (vw_length v / n) | DataView => None end with Some _ => bool_decide (vw_length v < m) | None => false end); [by apply rejected_good|].
  destruct (yr_owner x) eqn:Eo; cbn [negb]; [|by apply rejected_good]. assert (Er : ys_reader s = Some r) by by apply Ho.
  rewrite (bind_ok new_read _ s (length (ys_reads s)) (read_made s)) by done. apply y_good_then. unfold ReadableStreamBYOBReaderRead. ystep. pose proof (disturbed_kept _ _ _ (read_made_inv _ _ H)) as H1. set (s1 := set_ys_disturbed true (read_made s)) in *.
  unfold state_is. destruct (bool_decide (ys_state s1 = Errored)) eqn:Hs; [apply bool_decide_eq_true in Hs|apply bool_decide_eq_false in Hs].
  { apply y_good_ok. apply settled_silent_inv; try done. pose proof H as ([_ _ _ _ _ Hfl] & _). by apply (yl_errored _ _ _ _ Hfl). }
  rewrite assert_bind. 2: { apply andb_true_iff. rewrite !bool_decide_eq_true. split; [nia|done]. }
  rewrite assert_bind by (apply bool_decide_eq_true; apply Nat.Div0.mod_mul).
  destruct (taken_inv K auto false (WRead (length (ys_reads s))) s1 (vw_buffer v) c H1 eq_refl Hsh Ec) as (Hi & Hd & Hp). rewrite (on_data_ok (TransferArrayBuffer (vw_buffer v)) _ s1 _ _ (transfer_eq _ _ false _ Ec)). ystep.
  assert (Elen : bufferByteLength (moved (vw_buffer v) c false (ys_data s1)) (fresh_id (ys_data s1)) = length c) by (unfold bufferByteLength; by rewrite (content_private _ _ _ Hp)).
  match goal with |- context [bufferByteLength ?d ?b] => change (bufferByteLength d b) with (bufferByteLength (moved (vw_buffer v) c false (ys_data s1)) (fresh_id (ys_data s1))) end. rewrite Elen.
  apply (read_into_good _ r x _ (fresh_id (ys_data s1))). split; try done.
  - by apply read_view_shape.
  - exists c. split; [done|]. split; [done|]. done.
  - cbn. nia.
Qed.

(* ------------------------------------------------------------------ *)
(** ** Cancelling *)

Definition called (c : source_call) (k : rwait) (s : bstream) : bstream := set_ys_awaited (ys_awaited s ++ [k]) (set_ys_calls (ys_calls s ++ [c]) s).
Lemma called_inv busy w c k s : Inv busy w s -> is_start k = false -> Inv busy w (called c k s).
Proof.
  intros ([H1 H2 H3 H4 (lost & H5 & H5') [F1 F2 F4 F5 F6 F7 F8 F9 F10 F11 F12 F13]] & F3 & Hp) Hk. split; [|by split]. unfold called. split; yprojs; try done.
  - exists lost. yprojs. split; [done|]. intros Hl. destruct (H5' Hl) as [A [B|[B|B]]]; split; auto. right; left. by rewrite existsb_app, B.
  - split; yprojs; try done. rewrite waits_app, Hk. lia.
Qed.

(** Closing, with every read answered. *)
Lemma close_all_eq s : ys_state s = Readable -> readers_ok K Readable (ys_reader s) (ys_readers s) ->
  exists P, (ReadableStreamClose ;; when (ReadableStreamHasBYOBReader s) (for_reader (settle_requests YDone))) s = (Ok tt, ended false Closed (ys_storedError s) YDone P s).
Proof.
  intros Hs Hr. destruct (y_close_eq K s Hs Hr) as [P E]. rewrite (bind_ok _ _ _ _ _ E). exists P. unfold ReadableStreamHasBYOBReader, current. destruct (ys_reader s) as [r|] eqn:Er; cbn [mbind option_bind].
  - destruct (y_current_reader _ _ _ _ r Hr eq_refl) as (x & Hx & Ho & Hk & _). rewrite Hx, Hk. destruct K; cbn [when]; [|done]. unfold for_reader, ended, end_readers, end_reads. ystep. rewrite Er, Hx. unfold settle_requests.
    erewrite y_the_reader_bind; [|yprojs; apply list_lookup_insert_eq; by eapply lookup_lt_Some]. unfold set_reader. ystep. unfold modify. yprojs. rewrite list_insert_insert_eq. rewrite (y_requests_of s r x Er Hx). reflexivity.
  - cbn [when]. unfold ended, end_readers, end_reads, requests, current. rewrite Er. cbn [mbind option_bind foldl]. by destruct K.
Qed.

Lemma byte_cancel_good e : keeps_none (ReadableStreamCancel e).
Proof.
  intros s H. unfold ReadableStreamCancel. ystep. apply disturbed_kept in H. set (s1 := set_ys_disturbed true s) in *. change (ys_state s) with (ys_state s1). destruct (ys_state s1) eqn:Es; [|by apply promise_kept|by apply promise_kept].
  pose proof H as ([Hd _ Hr _ _ Hfl] & _). rewrite Es in Hr. destruct (close_all_eq s1 Es Hr) as [P E].
  rewrite <- bind_assoc. rewrite (bind_ok _ _ _ _ _ E). unfold CancelSteps. rewrite (on_data_ok _ _ _ _ _ (clear_eq _)). rewrite (on_data_ok _ _ _ _ _ (reset_eq _)).
  set (s2 := set_ys_data _ _). rewrite (bind_ok (new_promise Pending) _ s2 (length (ys_promises s2)) (set_ys_promises (ys_promises s2 ++ [Pending]) s2)) by done.
  assert (Ha : yc_algorithms s = true) by exact (yl_algorithms _ _ _ _ Hfl Es). unfold call_source. ystep. rewrite Ha. unfold ReadableByteStreamControllerClearAlgorithms. ystep.
  assert (Hi : Inv false WNone (called (SourceCancel e) (WaitCancel (length (ys_promises s2))) s1)) by by apply called_inv.
  pose proof (drop_inv K auto false WNone _ (wiped (ys_data s1)) false Closed (ys_storedError s1) YDone (ys_promises s2 ++ [Pending]) Hi eq_refl Es) as Hdrop.
  apply y_good_ok. exact (Hdrop ltac:(done) ltac:(done) eq_refl (wiped_data _ _ Hd) eq_refl eq_refl (wiped_way _ _) ltac:(right; unfold called; yprojs; rewrite existsb_app; cbn; by rewrite orb_true_r)).
Qed.

(* ------------------------------------------------------------------ *)
(** ** Readers made and let go *)

Lemma reader_made_eq s : ys_reader s = None -> exists P x, getReader K s = (Ok (length (ys_readers s)), set_ys_promises P (set_ys_readers (ys_readers s ++ [x]) (set_ys_reader (Some (length (ys_readers s))) s))) /\
  yr_byob x = K /\ yr_owner x = true /\ yr_resolvers x = bool_decide (ys_state s = Readable) /\ yr_requests x = [].
Proof.
  intros Er. unfold getReader. ystep. unfold IsReadableStreamLocked. rewrite Er. set (x0 := YReader K true 0 false []). set (r := length (ys_readers s)). ystep.
  assert (Hl : forall y : yreader, (ys_readers s ++ [y]) !! r = Some y) by (intros y; by apply list_lookup_middle).
  assert (Hins : forall y z : yreader, <[r := z]> (ys_readers s ++ [y]) = ys_readers s ++ [z]) by (intros y z; unfold r; rewrite insert_app_r_alt by lia; by rewrite Nat.sub_diag).
  assert (Hinit : forall s0 y, ys_readers s0 = ys_readers s ++ [y] -> defaultReaderClosedPromiseInitialize r s0 =
    (Ok tt, set_ys_readers (ys_readers s ++ [with_closed (length (ys_promises s0)) true y]) (set_ys_promises (ys_promises s0 ++ [Pending]) s0))).
  { intros s0 y E. unfold defaultReaderClosedPromiseInitialize. rewrite (bind_ok (new_promise Pending) _ s0 (length (ys_promises s0)) (set_ys_promises (ys_promises s0 ++ [Pending]) s0)) by done.
    rewrite (y_the_reader_bind r y) by (yprojs; rewrite E; apply Hl). unfold set_reader, modify. yprojs. by rewrite E, Hins. }
  assert (Hset : forall s0 y v, ys_readers s0 = ys_readers s ++ [y] -> yr_resolvers y = true ->
    (x ← the_reader r; if negb (yr_resolvers x) then mret tt else settle_promise (yr_closed x) v ;; set_reader r (with_closed (yr_closed x) false x)) s0 =
    (Ok tt, set_ys_readers (ys_readers s ++ [with_closed (yr_closed y) false y]) (set_ys_promises (settle (yr_closed y) v (ys_promises s0)) s0))).
  { intros s0 y v E Hy. rewrite (y_the_reader_bind r y) by (rewrite E; apply Hl). rewrite Hy. cbn [negb]. unfold settle_promise, set_reader. ystep. unfold modify. yprojs. by rewrite E, Hins. }
  unfold ReadableStreamReaderGenericInitialize. rewrite bind_assoc. ystep. set (s1 := set_ys_reader _ _). assert (E1 : ys_readers s1 = ys_readers s ++ [x0]) by done. change (ys_state s1) with (ys_state s).
  destruct (ys_state s) eqn:Es.
  - rewrite (bind_ok _ _ _ _ _ (Hinit s1 x0 E1)). eexists _, _. split; [reflexivity|]. done.
  - rewrite bind_assoc, (bind_ok _ _ _ _ _ (Hinit s1 x0 E1)). unfold defaultReaderClosedPromiseResolve. erewrite (bind_ok _ _ _ tt); [|by apply Hset]. eexists _, _. split; [reflexivity|]. done.
  - unfold defaultReaderClosedPromiseInitializeAsRejected. rewrite bind_assoc, (bind_ok _ _ _ _ _ (Hinit s1 x0 E1)). unfold defaultReaderClosedPromiseReject. erewrite (bind_ok _ _ _ tt); [|by apply Hset]. eexists _, _. split; [reflexivity|]. done.
Qed.

Lemma get_reader_good : keeps_none (getReader K).
Proof.
  intros s H. destruct (ys_reader s) as [q|] eqn:Er.
  { unfold getReader. ystep. unfold IsReadableStreamLocked. rewrite Er. by apply good_throw. }
  destruct (reader_made_eq s Er) as (P & x & -> & X1 & X2 & X3 & X4). apply y_good_ok. apply promises_inv. destruct H as ([H1 H2 [Hc He] H4 (lost & H5 & H5') [F1 F2 F4 F5 F6 F7 F8 F9 F10 F11 F12 F13]] & F3 & Hp).
  assert (Hrel : released (ys_readers s) -> released (ys_readers s ++ [x])) by (intros (r & y & Hy & Ho); exists r, y; split; [by apply frame_app|done]).
  set (s' := set_ys_readers _ _). assert (Hreq : requests s' = []) by (unfold requests, current, s'; yprojs; cbn [mbind option_bind]; rewrite list_lookup_middle by done; exact X4).
  assert (Hreq0 : requests s = []) by (unfold requests, current; by rewrite Er). rewrite Hreq0 in *.
  split; [|by split]. split; rewrite ?Hreq; unfold s'; yprojs; try done.
  - split.
    + intros r [= <-]. rewrite list_lookup_middle by done. by eexists.
    + intros r y Hy. destruct (decide (r < length (ys_readers s))) as [Hlt|Hge].
      * rewrite lookup_app_l in Hy by done. destruct (He r y Hy) as (A & B & C). split; [done|]. rewrite Er in C. assert (Eo : yr_owner y = false) by (destruct (yr_owner y); [by apply proj1 in C; specialize (C eq_refl)|done]).
        rewrite Eo in *. split; [done|]. split; [done|]. intros [= <-]. lia.
      * rewrite lookup_app_r in Hy by lia. destruct (r - length (ys_readers s)) eqn:E; [|done]. injection Hy as <-. rewrite X1, X2, X3. split; [done|]. split; [done|]. split; [|done]. intros _. f_equal. lia.
  - exists lost. yprojs. split; [done|]. intros Hl. destruct (H5' Hl) as [A [B|[B|B]]]; split; auto.
  - split; try match goal with |- context [requests ?y] => change (requests y) with (requests s') end; rewrite ?Hreq; yprojs; try done. intros Hx. by apply Hrel, F11.
Qed.

(** The data without the reader. *)
Definition let_go (d : bdata) : bdata := match bd_pending d with [] => d | p :: _ => set_pending [with_type ForNone p] d end.

Lemma let_go_data xs d : Data xs d -> Data xs (let_go d).
Proof. intros H. unfold let_go. destruct (bd_pending d) as [|p ps] eqn:E; [done|]. by eapply released_data. Qed.
Lemma let_go_given xs d : Data xs d -> given_bytes (bd_pending (let_go d)) = given_bytes (bd_pending d).
Proof.
  intros H. unfold let_go. pose proof (da_shape _ _ H) as Hsh. pose proof (da_tail _ _ H) as Ht. destruct (bd_pending d) as [|p ps] eqn:E; [by rewrite E|]. cbn [bd_pending set_pending]. unfold given_bytes. rewrite !fmap_cons. cbn [concat fmap list_fmap]. fold (given_bytes ps).
  rewrite tail_given; [done|by inversion Hsh|]. cbn in Ht. eapply Forall_impl; [exact Ht|]. by intros ? [_ ?].
Qed.
Lemma let_go_same d : queue_bytes (let_go d) = queue_bytes d /\ bd_queue (let_go d) = bd_queue d.
Proof. unfold let_go. by destruct (bd_pending d). Qed.

Definition freed (x : yreader) (p : pid) : yreader := YReader (yr_byob x) false p false [].

Lemma freed_inv s r x P p v : Inv false WNone s -> ys_reader s = Some r -> ys_readers s !! r = Some x -> v <> YPending -> data_of v = [] ->
  Inv false WNone (set_ys_reads (end_reads v s) (set_ys_readers (<[r := freed x p]> (ys_readers s)) (set_ys_reader None (set_ys_data (let_go (ys_data s)) (set_ys_promises P s))))).
Proof.
  intros ([H1 H2 [Hc He] H4 (lost & H5 & H5') [F1 F2 F4 F5 F6 [F7 F7'] F8 F9 F10 F11 F12 F13]] & F3 & Hp) Er Hx Hv Hdv. set (s' := set_ys_reads _ _). destruct (y_end_reads_ok WNone v s Hv Hdv H4) as [Hrd Hdl].
  destruct (let_go_same (ys_data s)) as [Lb Lq]. pose proof (let_go_given _ _ H1) as Lg. assert (Hr : r < length (ys_readers s)) by by eapply lookup_lt_Some.
  assert (Hrel : released (<[r := freed x p]> (ys_readers s))) by (exists r, (freed x p); by rewrite list_lookup_insert_eq).
  assert (Hpe : bd_pending (let_go (ys_data s)) = match bd_pending (ys_data s) with [] => [] | p :: _ => [with_type ForNone p] end) by (unfold let_go; by destruct (bd_pending (ys_data s)) eqn:E).
  split; [|split; [|done]]. 2: { unfold drained, s'. yprojs. rewrite Lq, Hpe. intros Hn. apply F3. by destruct (bd_pending (ys_data s)). }
  split; change (requests s') with (@nil nat); unfold s'; yprojs; try done.
  - by apply let_go_data.
  - split; [done|]. intros q y Hy. destruct (decide (q = r)) as [->|Hne].
    + rewrite list_lookup_insert_eq in Hy by done. injection Hy as <-. split; [apply (He r x Hx)|]. done.
    + rewrite list_lookup_insert_ne in Hy by done. destruct (He q y Hy) as (A & B & C). rewrite Er in C. assert (Eo : yr_owner y = false) by (destruct (yr_owner y); [apply proj1 in C; specialize (C eq_refl); congruence|done]).
      rewrite Eo in *. done.
  - exists lost. yprojs. rewrite Hdl, Lb, Lg. split; [done|]. intros Hl. destruct (H5' Hl) as [A _]. split; [done|]. by right; right.
  - split; change (requests s') with (@nil nat); yprojs; rewrite ?Hpe, ?Lq; try done.
    + intros Hs. destruct (F2 Hs) as [-> _]. done.
    + split; destruct (bd_pending (ys_data s)) as [|q qs]; try done. inversion F7 as [|? ? [_ Hq] _]; subst. constructor; [|done]. split; [by right|exact Hq].
    + intros _. destruct (bd_pending (ys_data s)) as [|q qs]; [done|]. unfold live. rewrite filter_cons_False; [done|]. by intros [].
    + intros Hk. destruct (F9 Hk) as (A & B & C). split; [|split; [done|intros Ha; destruct (C Ha) as [-> _]; done]]. destruct (bd_pending (ys_data s)) as [|q qs]; [done|]. inversion A; subst. by constructor.
    + intros Hs. specialize (F10 Hs). destruct (bd_pending (ys_data s)) as [|q qs]; [done|]. inversion F10; subst. by constructor.
Qed.

Lemma set_reader_bind {A} r x (f : unit -> YM A) s : (set_reader r x ≫= f) s = f tt (set_ys_readers (<[r := x]> (ys_readers s)) s).
Proof. reflexivity. Qed.

(** The end of a release. *)
Lemma release_tail_eq r y s : ys_readers s !! r = Some y ->
  (on_data ReleaseSteps ;; modify (set_ys_reader None) ;; x ← the_reader r; set_reader r (YReader (yr_byob x) false (yr_closed x) (yr_resolvers x) (yr_requests x))) s =
  (Ok tt, set_ys_readers (<[r := YReader (yr_byob y) false (yr_closed y) (yr_resolvers y) (yr_requests y)]> (ys_readers s)) (set_ys_reader None (set_ys_data (let_go (ys_data s)) s))).
Proof. intros Hy. rewrite (on_data_ok _ _ _ tt (let_go (ys_data s))) by done. ystep. by rewrite (y_the_reader_bind r y). Qed.

Lemma release_eq r x s : Inv false WNone s -> ys_reader s = Some r -> ys_readers s !! r = Some x ->
  exists P p, ReadableStreamReaderGenericRelease r s = (Ok tt, set_ys_readers (<[r := YReader (yr_byob x) false p false (yr_requests x)]> (ys_readers s)) (set_ys_reader None (set_ys_data (let_go (ys_data s)) (set_ys_promises P s)))).
Proof.
  intros H Er Hx. pose proof H as ([_ _ Hro _ _ _] & _). destruct (y_current_reader _ _ _ _ r Hro Er) as (x' & Hx' & Ho & Hk & Hv). rewrite Hx in Hx'. injection Hx' as <-. assert (Hr : r < length (ys_readers s)) by by eapply lookup_lt_Some.
  unfold ReadableStreamReaderGenericRelease. ystep. rewrite assert_bind by by apply bool_decide_true. unfold state_is. destruct (bool_decide (ys_state s = Readable)) eqn:Es.
  - unfold defaultReaderClosedPromiseReject. rewrite bind_assoc, (y_the_reader_bind r x) by done. rewrite Hv. cbn [negb]. unfold settle_promise. ystep. rewrite set_reader_bind. yprojs.
    rewrite (release_tail_eq r (with_closed (yr_closed x) false x)) by (yprojs; by apply list_lookup_insert_eq). yprojs. rewrite list_insert_insert_eq. by eexists _, _.
  - rewrite bind_assoc, (y_the_reader_bind r x) by done. rewrite bind_assoc, assert_bind by by rewrite Hv. unfold defaultReaderClosedPromiseInitializeAsRejected, defaultReaderClosedPromiseInitialize. rewrite !bind_assoc.
    rewrite (bind_ok (new_promise Pending) _ s (length (ys_promises s)) (set_ys_promises (ys_promises s ++ [Pending]) s)) by done. rewrite bind_assoc, (y_the_reader_bind r x) by done. rewrite set_reader_bind. yprojs.
    set (x1 := with_closed (length (ys_promises s)) true x). unfold defaultReaderClosedPromiseReject. rewrite bind_assoc, (y_the_reader_bind r x1) by (yprojs; by apply list_lookup_insert_eq). change (yr_resolvers x1) with true. cbn [negb]. unfold settle_promise. ystep. rewrite set_reader_bind. yprojs.
    rewrite list_insert_insert_eq. rewrite (release_tail_eq r (with_closed (yr_closed x1) false x1)) by (yprojs; by apply list_lookup_insert_eq). yprojs. rewrite list_insert_insert_eq. by eexists _, _.
Qed.

Lemma byte_release_good r : keeps_none (reader_releaseLock r).
Proof.
  intros s H. unfold reader_releaseLock. apply reader_good; [done|]. intros x Hx. destruct (y_owner_current _ _ _ _ _ H Hx) as [Hb Ho]. destruct (yr_owner x) eqn:Eo; cbn [negb]; [|by apply y_good_ok].
  assert (Er : ys_reader s = Some r) by by apply Ho. destruct (release_eq r x s H Er Hx) as (P & p & E). rewrite (bind_ok _ _ _ _ _ E). unfold settle_requests.
  erewrite y_the_reader_bind; [|yprojs; apply list_lookup_insert_eq; by eapply lookup_lt_Some]. unfold set_reader. ystep. rewrite list_insert_insert_eq. apply y_good_ok.
  pose proof (freed_inv s r x P p (YError (type_error "Reader was released")) H Er Hx ltac:(done) eq_refl) as Hi. unfold end_reads in Hi. rewrite (y_requests_of s r x Er Hx) in Hi. exact Hi.
Qed.

(* ------------------------------------------------------------------ *)
(** ** Events *)

Lemma await_deleted busy w s i k : Inv busy w s -> ys_awaited s !! i = Some k -> Inv busy w (set_ys_awaited (delete i (ys_awaited s)) s).
Proof.
  intros ([H1 H2 H3 H4 H5 [F1 F2 F4 F5 F6 F7 F8 F9 F10 F11 F12 F13]] & F3 & Hp) Hi. split; [|by split]. split; try done. split; try done. yprojs. pose proof (waits_le is_start _ _ _ Hi). lia.
Qed.

Lemma started_good s : Inv false WNone s -> yc_started s = false -> waits is_start (ys_awaited s) = 0 -> good false WNone (on_start_fulfilled strategyHWM pullOps s).
Proof.
  intros ([H1 H2 H3 H4 H5 [F1 F2 F4 F5 F6 F7 F8 F9 F10 F11 F12 F13]] & F3 & Hp) Hs Hw. unfold on_start_fulfilled. ystep. pose proof (F12 Hs) as Epu. assert (Eag : yc_pullAgain s = false) by (destruct (yc_pullAgain s); [by rewrite Hp in Epu|done]).
  rewrite assert_bind by by rewrite Epu. rewrite assert_bind by by rewrite Eag. apply call_pull_good; [done|]. split; [|by split]. split; try done. split; try done. yprojs. by rewrite Hw.
Qed.

Lemma pulled_good s : Inv false WNone s -> good false WNone (on_pull_fulfilled strategyHWM pullOps s).
Proof.
  intros ([H1 H2 H3 H4 H5 [F1 F2 F4 F5 F6 F7 F8 F9 F10 F11 F12 F13]] & F3 & Hp). unfold on_pull_fulfilled. ystep. destruct (yc_pullAgain s) eqn:E; ystep.
  - apply call_pull_good; [done|]. split; [|by split]. split; try done.
  - apply y_good_ok. split; [|split; [done|yprojs; by rewrite E]]. split; try done.
Qed.

Lemma byte_settled_good s i k failed : Inv false WNone s -> ys_awaited s !! i = Some k -> good false WNone (on_settled strategyHWM pullOps k failed (set_ys_awaited (delete i (ys_awaited s)) s)).
Proof.
  intros H Hi. pose proof (await_deleted _ _ _ _ _ H Hi) as Hd. assert (Hsource : forall e, good false WNone (on_source_rejected e (set_ys_awaited (delete i (ys_awaited s)) s))) by (intros e; apply (y_quiet_keeps K auto); [apply error_quiet|done|done]).
  destruct k as [| |p]; cbn [on_settled].
  - destruct failed; [apply Hsource|]. pose proof H as ([_ _ _ _ _ Hfl] & _). pose proof (yl_start _ _ _ _ Hfl) as Hst. pose proof (waits_delete is_start _ _ _ Hi) as Hw. cbn in Hw.
    destruct (yc_started s) eqn:Es; [lia|]. apply started_good; [done|done|]. yprojs. lia.
  - destruct failed; [apply Hsource|]. by apply pulled_good.
  - destruct failed; apply y_good_ok; by apply promises_inv.
Qed.

(** Readers of the one kind, and reads a [DataView] has room for. *)
Definition fair (e : yevent) : bool :=
  match e with EvGetReader byob => Bool.eqb byob K | EvReadInto _ v min => min_fits v min | _ => true end.

Lemma byte_event_good e : fair e = true -> keeps_none (yevent_run strategyHWM auto pullOps e).
Proof.
  intros He s H. destruct e as [byob|e|r|r v min|r e|r|op|i failed]; cbn [yevent_run fair] in *.
  - apply eqb_prop in He as ->. apply y_good_then. by apply get_reader_good.
  - apply y_good_then. unfold stream_cancel. ystep. destruct (IsReadableStreamLocked s); [by apply promise_kept|by apply byte_cancel_good].
  - apply y_good_then. by apply default_read_good.
  - ystep. destruct (held_view (ys_data s) v) eqn:Ev; cbn [when]; [|by apply y_good_ok]. apply y_good_then. by apply byob_read_good.
  - apply y_good_then. unfold reader_cancel. apply reader_good; [done|]. intros x Hx. destruct (yr_owner x); cbn [negb]; [by apply byte_cancel_good|by apply promise_kept].
  - by apply byte_release_good.
  - apply (byte_op_keeps K auto false); [apply call_pull_spec|done|done].
  - ystep. destruct (ys_awaited s !! i) as [k|] eqn:Ek; [|by apply y_good_ok]. ystep. by apply byte_settled_good.
Qed.

Lemma new_byte_inv : Inv false WNone new_stream.
Proof.
  split; [|by split]. split.
  - by split; try constructor.
  - done.
  - done.
  - exists []. split; [by intros ?%elem_of_nil|done].
  - by exists [].
  - split; try done. by intros (p & Hin%elem_of_nil & _).
Qed.

Lemma byte_run_good es : forall s, Inv false WNone s -> forallb fair es = true ->
  let '(os, s') := byte_run strategyHWM auto pullOps es s in Inv false WNone s' /\ Forall (fun o => match o with Ok _ => True | Throw c msg => is_defect c msg = false end) os.
Proof.
  induction es as [|e es IH]; intros s H Hf; cbn [byte_run]; [done|]. cbn [forallb] in Hf. apply andb_true_iff in Hf as [He Hf]. pose proof (byte_event_good e He s H) as [Hi Hg]. destruct (yevent_run _ _ _ e s) as [o s1]. cbn [fst snd] in *.
  specialize (IH s1 Hi Hf). destruct (byte_run _ _ _ es s1) as [os s2]. destruct IH as [IH1 IH2]. split; [done|]. by constructor.
Qed.
End Pull.
End Kind.
