(* ===== verification/ByteStreamProps.v ===== *)
(** * Properties of readable byte streams

    What holds of every run of a byte stream whose readers are all of one
    kind, and what goes wrong in the runs of other kinds.  A program makes
    views of buffers it holds and leaves the bytes it has already handed
    over through a BYOB request as they are ([allowed]); what it asks for
    beyond that does nothing. *)

From S2P Require Import Prelude StreamBase ReadableStream ReadableStreamInv ByteData ByteDataInv ByteStream ByteStreamInv ByteStreamOps ByteStreamRun.
Open Scope nat_scope.

Section Runs.
Variables (K : bool) (auto : option nat) (strategyHWM : jsnum) (pullOps : nat -> bstream -> list src_op).
Hypothesis Hauto : auto <> Some 0.
Abbreviation run es := (byte_run strategyHWM auto pullOps es new_stream).

Lemma byte_reached es : forallb (fair K) es = true -> Inv K auto false WNone (run es).2 /\ Forall (fun o => match o with Ok _ => True | Throw c msg => is_defect c msg = false end) (run es).1.
Proof. intros H. pose proof (byte_run_good K auto strategyHWM pullOps Hauto es new_stream (new_byte_inv K auto) H) as Hr. by destruct (run es). Qed.
End Runs.

(** C11: Take a byte stream whose readers are all of one kind, none of whose
    reads asks more of a [DataView] than it has room for ([fair]), and a
    source that hands over only views of buffers the program holds and
    leaves alone the bytes it has already answered a BYOB request with
    ([allowed]; what it tries beyond that is skipped).  Whatever consumers,
    the source and its [pull] do then, no assertion of the code fails and no
    queue is read when it is empty: every call ends normally or with an
    error of the interface.  Without these conditions assertions do fail:
    [mixed_readers_fail], [greedy_read_fails]. *)
Theorem byte_stream_safe (K : bool) (auto : option nat) (strategyHWM : jsnum) (pullOps : nat -> bstream -> list src_op) (es : list yevent) :
  auto <> Some 0 -> forallb (fair K) es = true ->
  Forall (fun o => match o with Ok _ => True | Throw c msg => is_defect c msg = false end) (byte_run strategyHWM auto pullOps es new_stream).1.
Proof. intros Ha H. by apply (byte_reached K). Qed.

(** C12: In such a run the bytes handed over in reads, then those in the
    descriptors that wait, then those queued are the bytes accepted, in
    order.  Every chunk [enqueue] takes counts as accepted, before anything
    is done with it, and so does every answer to a BYOB request.  Bytes are
    missing only where the code throws a chunk away, which it does only for
    a default reader, while a read waits and nothing is queued ([kept]), and
    at the end, once the stream is errored or cancelled or has ended after
    a reader was released.  Reads are answered in the order they were made,
    and descriptors wait only while nothing is queued. *)
Theorem byte_stream_fifo (K : bool) (auto : option nat) (strategyHWM : jsnum) (pullOps : nat -> bstream -> list src_op) (es : list yevent) :
  auto <> Some 0 -> forallb (fair K) es = true ->
  let s := (byte_run strategyHWM auto pullOps es new_stream).2 in
  (exists lost, delivered (ys_reads s) ++ given_bytes (pendingPullIntos s) ++ queue_bytes (ys_data s) ++ lost = kept K (ys_accepted s) /\
     (lost <> [] -> ys_state s <> Readable /\ (ys_state s = Errored \/ existsb is_cancel (ys_calls s) = true \/ released (ys_readers s)))) /\
  (exists settled, YPending ∉ settled /\ ys_reads s = settled ++ replicate (length (requests s)) YPending /\ requests s = seq (length settled) (length (requests s))) /\
  queueTotalSize s = length (queue_bytes (ys_data s)) /\
  (pendingPullIntos s <> [] -> queueTotalSize s = 0).
Proof.
  intros Ha H s. destruct (proj1 (byte_reached K auto strategyHWM pullOps Ha es H)) as ([H1 _ _ (settled & R1 & R2 & R3 & _) H5 _] & Hdr & _). fold s in H1, R2, R3, H5, Hdr. split; [|split; [|split]].
  - exact H5.
  - exists settled. cbn [way_reads] in R2. by rewrite Nat.add_0_r in R2.
  - symmetry. by apply (queue_bytes_length []).
  - intros Hp. unfold queueTotalSize. rewrite (da_total _ _ H1), Hdr; done.
Qed.

(** A chunk offered while a read of a default reader waits. *)
Lemma offered_in_vain auto busy again s v : Inv false auto busy WNone s -> requests s <> [] ->
  exists d log, (controller_op again (SrcEnqueue v) s).2 = set_ys_accepted (ys_accepted s ++ log) (set_ys_data d s) /\ bd_queue d = [] /\ kept false log = [].
Proof.
  intros H Hr. pose proof H as ([Hd _ Hro _ _ Hfl] & _). assert (Hs : ys_state s = Readable).
  { destruct (ys_state s) eqn:Es; [done| |]; destruct Hr; [by apply (yl_default _ _ _ _ Hfl)|by apply (yl_errored _ _ _ _ Hfl)]. }
  pose proof (waiting_drained _ _ _ _ _ H eq_refl Hs Hr) as Hq. assert (Hsame : exists d log, s = set_ys_accepted (ys_accepted s ++ log) (set_ys_data d s) /\ bd_queue d = [] /\ kept false log = []).
  { exists (ys_data s), []. rewrite set_data_same, app_nil_r. by destruct s. }
  unfold controller_op. ystep. destruct (allowed (SrcEnqueue v) (ys_data s)) eqn:Ha; cbn [when]; [|exact Hsame]. cbn [allowed perform] in *. unfold controller_enqueue. ystep.
  do 2 (destruct (bool_decide _); [exact Hsame|]). destruct (yc_closeRequested s) eqn:Ec; [exact Hsame|]. unfold state_is. rewrite bool_decide_true by done. cbn [negb].
  unfold ReadableByteStreamControllerEnqueue. ystep. rewrite Ec. unfold state_is. rewrite (bool_decide_true (ys_state s = Readable)) by done. cbn [orb negb]. unfold held_view in Ha. rewrite !andb_true_iff in Ha. destruct Ha as [[[[Hsh _] _] _] _].
  unfold IsDetachedBuffer. destruct (content (ys_data s) (vw_buffer v)) as [c|] eqn:Ect; [|exact Hsame].
  destruct (taken_inv _ _ _ _ _ _ _ H eq_refl Hsh Ect) as (Hi & Hd1 & Hp1). rewrite (on_data_ok _ _ _ _ _ (transfer_eq _ _ false _ Ect)). ystep. set (s1 := set_ys_data (moved (vw_buffer v) c false (ys_data s)) s) in *.
  destruct (renew_first_spec false auto busy WNone s1 _ c eq_refl Hi Hd1 Hp1) as [(msg & E & Hm)|(d & E & [R1 R2 R3 R4 R5 R6])]; try done.
  - unfold mbind, sm_bind. rewrite E. exists (moved (vw_buffer v) c false (ys_data s)), []. rewrite app_nil_r. split; [|split; [exact Hq|done]]. by destruct s.
  - rewrite (bind_ok _ _ _ _ _ E). ystep. assert (Hk : ReadableStreamHasDefaultReader (set_ys_data d s1) = true).
    { destruct (locked_of _ _ _ _ _ H Hr) as (r & x & Er & Hx & _ & Hb). unfold ReadableStreamHasDefaultReader. rewrite (current_of (set_ys_data d s1) r x Er Hx). by rewrite Hb. }
    unfold accept. rewrite modify_bind. set (sa := set_ys_accepted _ (set_ys_data d s1)).
    rewrite Hk. unfold enqueue_default. ystep. change (requests sa) with (requests s). assert (Hqd : bd_queue d = []) by (rewrite R6 by done; exact Hq).
    assert (Es : serve_loop again (S (length (requests s))) sa = (Ok true, sa)).
    { cbn [serve_loop]. ystep. change (requests sa) with (requests s). change (queueTotalSize sa) with (bd_total d). rewrite (da_total _ _ R2), Hqd. by destruct (requests s). }
    rewrite (bind_ok _ _ _ _ _ Es). cbv iota. unfold throw_away, modify. change (requests sa) with (requests s). change (queueTotalSize sa) with (bd_total d).
    set (data := region d _ _ _) in sa. exists d, [(data, ThrownAway (length (requests s)) (bd_total d))]. split; [|split; [done|]].
    + change (ys_accepted sa) with (ys_accepted s ++ [(data, PassedOn)]). rewrite mark_last_snoc. reflexivity.
    + unfold kept. cbn. rewrite (da_total _ _ R2), Hqd. by destruct (requests s).
Qed.

(** A chunk enqueued while a read of a default reader waits is thrown
    away: the read stays as it is, nothing is queued and the controller does
    not pull again.  [ReadableByteStreamControllerEnqueue] returns from its
    loop over waiting reads when nothing is queued, before it looks at the
    chunk; what it has accepted is thrown away. *)
Theorem enqueue_starves_reads (auto : option nat) (strategyHWM : jsnum) (pullOps : nat -> bstream -> list src_op) (es : list yevent) (v : view) :
  auto <> Some 0 -> forallb (fair false) es = true ->
  let s := (byte_run strategyHWM auto pullOps es new_stream).2 in
  requests s <> [] ->
  let s' := (yevent_run strategyHWM auto pullOps (EvSource (SrcEnqueue v)) s).2 in
  ys_reads s' = ys_reads s /\ requests s' = requests s /\ queue_bytes (ys_data s') = [] /\ ys_calls s' = ys_calls s /\ kept false (ys_accepted s') = kept false (ys_accepted s).
Proof.
  intros Ha H s Hr s'. destruct (byte_reached false auto strategyHWM pullOps Ha es H) as [Hi _]. fold s in Hi.
  destruct (offered_in_vain auto false (CallPullIfNeeded strategyHWM pullOps) s v Hi Hr) as (d & log & E & Hq & Hl). unfold s'. cbn [yevent_run]. rewrite E. split; [done|]. split; [done|]. split; [|split; [done|]].
  - yprojs. unfold queue_bytes. by rewrite Hq.
  - yprojs. by rewrite kept_app, Hl, app_nil_r.
Qed.

(* ------------------------------------------------------------------ *)
(** ** Runs *)

(** A BYOB reader, a view of two-byte elements filled in two steps by the
    source through its BYOB request, a byte left over for the next read. *)
Definition byob_events : list yevent :=
  [EvSettled 0 None; EvGetReader true; EvSource (SrcAlloc [0; 0; 0; 0]%Z); EvReadInto 0 (View (Typed 2) 0 0 4) (Fin 1);
   EvSource SrcGetRequest; EvSource (SrcWrite 1 0 [7; 8; 9]%Z); EvSource (SrcRespond 0 (Fin 3));
   EvSource (SrcAlloc [1; 2; 3; 4; 5]%Z); EvSource (SrcEnqueue (View (Typed 1) 4 1 3)); EvSource (SrcAlloc [0; 0; 0; 0; 0]%Z); EvReadInto 0 (View (Typed 1) 6 2 3) (Fin 2)].

Definition idle_pull : nat -> bstream -> list src_op := fun _ _ => [].

Lemma byob_run_eq : let s := (byte_run (Fin 0) None idle_pull byob_events new_stream).2 in
  (ys_reads s, kept true (ys_accepted s), pendingPullIntos s, queue_bytes (ys_data s)) =
  ([YView false (View (Typed 2) 2 0 2) [7; 8]%Z; YView false (View (Typed 1) 7 2 3) [9; 2; 3]%Z], [7; 8; 9; 2; 3; 4]%Z, [], [4]%Z).
Proof. vm_compute. reflexivity. Qed.

(** A default reader that reads before anything is enqueued. *)
Definition early_read : list yevent := [EvSettled 0 None; EvGetReader false; EvRead 0; EvSource (SrcAlloc [1; 2; 3]%Z)].

(** Readers of both kinds: an answer to the request of a released BYOB
    reader leaves a default read waiting beside queued bytes, and the next
    read fails an assertion. *)
Definition mixed_readers : list yevent :=
  [EvSettled 0 None; EvGetReader true; EvSource (SrcAlloc [0; 0; 0; 0]%Z); EvReadInto 0 (View (Typed 2) 0 0 4) (Fin 1); EvRelease 0;
   EvGetReader false; EvRead 1; EvSource SrcGetRequest; EvSource (SrcRespond 0 (Fin 2)); EvRead 1].
Lemma mixed_readers_fail : List.last (byte_run (Fin 0) None idle_pull mixed_readers new_stream).1 (Ok tt) = Throw ErrAssertionError "Assertion failed".
Proof. vm_compute. reflexivity. Qed.

(** A read into a [DataView] that asks for more bytes than it has room for
    is not refused. *)
Definition greedy_read : list yevent := [EvSettled 0 None; EvGetReader true; EvSource (SrcAlloc [0; 0; 0; 0]%Z); EvReadInto 0 (View DataView 0 0 4) (Fin 5)].
Lemma greedy_read_fails : List.last (byte_run (Fin 0) None idle_pull greedy_read new_stream).1 (Ok tt) = Throw ErrAssertionError "Assertion failed".
Proof. vm_compute. reflexivity. Qed.

Lemma byte_stream_safe_witness : forallb (fair true) byob_events = true /\
  Forall (fun o => match o with Ok _ => True | Throw c msg => is_defect c msg = false end) (byte_run (Fin 0) None idle_pull byob_events new_stream).1.
Proof. split; [reflexivity|]. apply (byte_stream_safe true None (Fin 0) idle_pull byob_events); [discriminate|reflexivity]. Defined.

Lemma byte_stream_fifo_witness :
  let s := (byte_run (Fin 0) None idle_pull byob_events new_stream).2 in
  delivered (ys_reads s) = [7; 8; 9; 2; 3]%Z /\ queueTotalSize s = length (queue_bytes (ys_data s)).
Proof. split; [vm_compute; reflexivity|]. destruct (byte_stream_fifo true None (Fin 0) idle_pull byob_events) as (_ & _ & H & _); [discriminate|reflexivity|exact H]. Defined.

(** The chunk counts as accepted, and is thrown away. *)
Lemma early_read_accepted :
  ys_accepted (byte_run (Fin 0) None idle_pull (early_read ++ [EvSource (SrcEnqueue (View (Typed 1) 0 0 3))]) new_stream).2 = [([1; 2; 3]%Z, ThrownAway 1 0)].
Proof. vm_compute. reflexivity. Qed.

Lemma enqueue_starves_reads_witness :
  ys_reads (yevent_run (Fin 0) None idle_pull (EvSource (SrcEnqueue (View (Typed 1) 0 0 3))) (byte_run (Fin 0) None idle_pull early_read new_stream).2).2 = [YPending].
Proof. rewrite (proj1 (enqueue_starves_reads None (Fin 0) idle_pull early_read (View (Typed 1) 0 0 3) ltac:(discriminate) eq_refl ltac:(vm_compute; discriminate))). vm_compute. reflexivity. Defined.
