(* ===== verification/JsNumber.v ===== *)
(** * [Number] of a string

    The conversion of a string to a double, with the correct rounding,
    and the conversions of a double to an integer that bit operations and
    typed arrays make; octets as they are printed and read.  A finite
    double is [± q * 2^e]. *)

From S2P Require Import Prelude JsString.
Open Scope Z_scope.

Inductive jsdouble := DNaN | DInf (neg : bool) | DFin (neg : bool) (q e : Z).

#[export] Instance jsdouble_eq_dec : EqDecision jsdouble.
Proof. solve_decision. Defined.

(* ------------------------------------------------------------------ *)
(** ** Rounding *)

(** [n * 2^k] for an integer [k]: a numerator and a denominator. *)
Definition scale (n d k : Z) : Z * Z := if 0 <=? k then (n * 2 ^ k, d) else (n, d * 2 ^ (- k)).

(** The double nearest to [n / d], ties to even. *)
Definition round_quotient (neg : bool) (n d : Z) : jsdouble :=
  if n =? 0 then DFin neg 0 0 else
  let l := Z.log2 n - Z.log2 d in
  let l := let '(a, b) := scale n d (- l) in if a <? b then l - 1 else l in
  let e := Z.max (l - 52) (-1074) in
  let '(a, b) := scale n d (- e) in
  let q := a / b in let r := a mod b in
  let q := if (b <? 2 * r) || ((2 * r =? b) && Z.odd q) then q + 1 else q in
  if 971 <? e + (if q =? 2 ^ 53 then 1 else 0) then DInf neg else DFin neg q e.

(** [± m * 10^e] *)
Definition decimal (neg : bool) (m e : Z) : jsdouble :=
  if 0 <=? e then round_quotient neg (m * 10 ^ e) 1 else round_quotient neg m (10 ^ (- e)).

Definition of_Z (n : Z) : jsdouble := round_quotient (n <? 0) (Z.abs n) 1.

(* ------------------------------------------------------------------ *)
(** ** The string grammar *)

Fixpoint span (f : Z -> bool) (s : jsstr) : jsstr * jsstr :=
  match s with
  | [] => ([], [])
  | u :: t => if f u then let '(p, r) := span f t in (u :: p, r) else ([], s)
  end.

Definition digits_value (radix : Z) (s : jsstr) : Z :=
  foldl (fun acc u => acc * radix + default 0 (digit_value u)) 0 s.

Definition is_radix_digit (radix : Z) (u : Z) : bool :=
  match digit_value u with Some d => d <? radix | None => false end.

Definition nonempty {A} (l : list A) : bool := match l with [] => false | _ => true end.

(** An exponent part up to the end of the string. *)
Definition exponent (s : jsstr) : option Z :=
  match s with
  | [] => Some 0
  | c :: t =>
    if (c =? 0x65) || (c =? 0x45) then
      let '(neg, t) := match t with
        | s0 :: t' => if s0 =? 0x2d then (true, t') else if s0 =? 0x2b then (false, t') else (false, t)
        | [] => (false, t) end in
      if nonempty t && forallb is_digit t then Some ((if neg then -1 else 1) * digits_value 10 t) else None
    else None
  end.

Definition unsigned_decimal (neg : bool) (s : jsstr) : jsdouble :=
  if bool_decide (s = js "Infinity") then DInf neg else
  let '(ip, r) := span is_digit s in
  let '(fp, r) := match r with
    | c :: r' => if c =? 0x2e then span is_digit r' else ([], r)
    | [] => ([], r) end in
  if nonempty (ip ++ fp) then
    match exponent r with
    | Some e => decimal neg (digits_value 10 (ip ++ fp)) (e - Z.of_nat (length fp))
    | None => DNaN
    end
  else DNaN.

Definition radix_prefix (s : jsstr) : option Z :=
  match s with
  | z :: x :: _ =>
    if negb (z =? 0x30) then None
    else if (x =? 0x78) || (x =? 0x58) then Some 16
    else if (x =? 0x6f) || (x =? 0x4f) then Some 8
    else if (x =? 0x62) || (x =? 0x42) then Some 2
    else None
  | _ => None
  end.

(** [Number(s)] *)
Definition Number (s : jsstr) : jsdouble :=
  let s := trim s in
  match s with
  | [] => DFin false 0 0
  | c :: t =>
    match radix_prefix s with
    | Some radix =>
      let ds := drop 2 s in
      if nonempty ds && forallb (is_radix_digit radix) ds then of_Z (digits_value radix ds) else DNaN
    | None =>
      if c =? 0x2d then unsigned_decimal true t
      else if c =? 0x2b then unsigned_decimal false t
      else unsigned_decimal false s
    end
  end.

(* ------------------------------------------------------------------ *)
(** ** Conversions to integers *)

(** The integer part, towards zero; 0 for the values that are not finite. *)
Definition truncate (x : jsdouble) : Z :=
  match x with
  | DFin neg q e =>
    let a := let '(a, b) := scale q 1 e in a / b in if neg then - a else a
  | _ => 0
  end.

(** What [&], [|] and [>>] see, and what a typed array stores. *)
Definition to_int32 (n : Z) : Z := let m := n mod 2 ^ 32 in if m <? 2 ^ 31 then m else m - 2 ^ 32.
Definition to_uint8 (n : Z) : Z := n mod 256.
Definition to_uint16 (n : Z) : Z := n mod 65536.
Definition to_uint32 (n : Z) : Z := n mod 2 ^ 32.

(** [n >= 0 && n <= 255] *)
Definition in_octet (x : jsdouble) : bool :=
  match x with
  | DFin neg q e => if neg then q =? 0 else let '(a, b) := scale q 1 e in (0 <=? a) && (a <=? 255 * b)
  | _ => false
  end.

Example number_int : Number (js " 42 ") = of_Z 42. Proof. vm_compute. reflexivity. Qed.
Example number_hex : truncate (Number (js "0xfF")) = 255. Proof. vm_compute. reflexivity. Qed.
Example number_exp : in_octet (Number (js "2550000000000000000001e-19")) = true. Proof. vm_compute. reflexivity. Qed.
Example number_big : in_octet (Number (js "255.1")) = false. Proof. vm_compute. reflexivity. Qed.
Example number_tenth : Number (js "0.1") = DFin false 7205759403792794 (-56). Proof. vm_compute. reflexivity. Qed.
Example number_inf : Number (js "-1e999") = DInf true. Proof. vm_compute. reflexivity. Qed.
Example number_bad : Number (js "1_0") = DNaN. Proof. vm_compute. reflexivity. Qed.

(** An octet printed in decimal reads back. *)
Lemma octet_number n : 0 <= n <= 255 ->
  in_octet (Number (to_string 10 n)) = true /\ truncate (Number (to_string 10 n)) = n.
Proof.
  intros Hn.
  assert (forallb (fun k => let x := Number (to_string 10 (Z.of_nat k)) in in_octet x && (truncate x =? Z.of_nat k)) (seq 0 256) = true)
    as Hall by (vm_compute; reflexivity).
  rewrite forallb_forall in Hall. specialize (Hall (Z.to_nat n)). rewrite Z2Nat.id in Hall by lia.
  cbv zeta in Hall. rewrite andb_true_iff, Z.eqb_eq in Hall. apply Hall, in_seq. lia.
Qed.

(** Integers of up to 53 bits are doubles. *)
Lemma of_Z_exact n : 0 <= n < 2 ^ 53 -> truncate (of_Z n) = n.
Proof.
  intros Hn. unfold of_Z. rewrite (proj2 (Z.ltb_ge n 0)), Z.abs_eq by lia. unfold round_quotient.
  destruct (Z.eqb_spec n 0) as [->|Hn0]; [done|]. change (Z.log2 1) with 0. rewrite Z.sub_0_r.
  pose proof (Z.log2_spec n ltac:(lia)) as [Hlo Hhi]. pose proof (Z.log2_nonneg n) as Hl.
  assert (Z.log2 n < 53) as Hl53 by (apply Z.log2_lt_pow2; lia).
  assert ((let '(a, b) := scale n 1 (- Z.log2 n) in a <? b) = false) as Hs.
  { unfold scale. destruct (Z.leb_spec 0 (- Z.log2 n)).
    - replace (Z.log2 n) with 0 by lia. cbn. apply Z.ltb_ge. lia.
    - rewrite Z.opp_involutive, Z.mul_1_l. apply Z.ltb_ge. lia. }
  replace (let '(a, b) := scale n 1 (- Z.log2 n) in if a <? b then Z.log2 n - 1 else Z.log2 n) with (Z.log2 n)
    by (revert Hs; destruct (scale n 1 (- Z.log2 n)); by intros ->).
  rewrite (Z.max_l (Z.log2 n - 52)) by lia. set (k := 52 - Z.log2 n). replace (- (Z.log2 n - 52)) with k by (unfold k; lia).
  unfold scale at 1. rewrite (proj2 (Z.leb_le 0 k)) by (unfold k; lia). rewrite Z.div_1_r, Z.mod_1_r.
  assert (Hk : n * 2 ^ k < 2 ^ 53).
  { apply Z.lt_le_trans with (2 ^ Z.succ (Z.log2 n) * 2 ^ k); [apply Z.mul_lt_mono_pos_r; [apply Z.pow_pos_nonneg; unfold k; lia|lia]|].
    rewrite <-Z.pow_add_r by (unfold k; lia). apply Z.pow_le_mono_r; unfold k; lia. }
  change ((1 <? 2 * 0) || (2 * 0 =? 1) && Z.odd (n * 2 ^ k)) with false. cbv iota.  rewrite (proj2 (Z.eqb_neq (n * 2 ^ k) (2 ^ 53))) by lia. rewrite (proj2 (Z.ltb_ge 971 _)) by lia.
  unfold truncate, scale. replace (Z.log2 n - 52) with (- k) by (unfold k; lia). rewrite Z.opp_involutive.
  destruct (Z.leb_spec 0 (- k)).
  - replace k with 0 by (unfold k in *; lia). rewrite Z.div_1_r. cbn. lia.
  - rewrite Z.mul_1_l. apply Z.div_mul. assert (0 < 2 ^ k) by (apply Z.pow_pos_nonneg; unfold k; lia). lia.
Qed.

(* ------------------------------------------------------------------ *)
(** ** Printing and reading digits *)

Lemma digit_char_value d : 0 <= d < 36 -> digit_value (digit_char d) = Some d.
Proof.
  intros Hd. assert (forallb (fun k => bool_decide (digit_value (digit_char (Z.of_nat k)) = Some (Z.of_nat k))) (seq 0 36) = true)
    as H by (vm_compute; reflexivity).
  rewrite forallb_forall in H. specialize (H (Z.to_nat d)). rewrite Z2Nat.id, bool_decide_eq_true in H by lia.
  apply H, in_seq. lia.
Qed.

Lemma digits_value_snoc radix s u : digits_value radix (s ++ [u]) = digits_value radix s * radix + default 0 (digit_value u).
Proof. unfold digits_value. by rewrite foldl_app. Qed.

Definition radix_digits (radix : Z) (s : jsstr) : Prop := Forall (fun u => is_radix_digit radix u = true) s.

Lemma to_string_loop_spec radix fuel n acc : 2 <= radix <= 36 -> 0 <= n < radix ^ Z.of_nat fuel -> (0 < fuel)%nat ->
  exists s, to_string_loop fuel radix n acc = s ++ acc /\ s <> [] /\ radix_digits radix s /\ digits_value radix s = n.
Proof.
  intros Hr. revert n acc. induction fuel as [|fuel IH]; intros n acc Hn Hf; [lia|]. cbn [to_string_loop].
  pose proof (Z.mod_pos_bound n radix ltac:(lia)) as Hm.
  assert (Hd : is_radix_digit radix (digit_char (n mod radix)) = true).
  { unfold is_radix_digit. rewrite digit_char_value by lia. apply Z.ltb_lt. lia. }
  destruct (Z.eqb_spec (n / radix) 0) as [H0|H0].
  - exists [digit_char (n mod radix)]. split; [done|]. split; [done|]. split; [by repeat constructor|].
    unfold digits_value. cbn [foldl]. rewrite digit_char_value by lia. cbn [default]. pose proof (Z.div_mod n radix ltac:(lia)). cbn. lia.
  - assert (0 < n / radix) by (pose proof (Z.div_pos n radix); lia).
    assert (n / radix < radix ^ Z.of_nat fuel).
    { apply Z.div_lt_upper_bound; [lia|]. rewrite <-Z.pow_succ_r, <-Nat2Z.inj_succ by lia. lia. }
    destruct (IH (n / radix) (digit_char (n mod radix) :: acc)) as (s & Hs & Hne & Hds & Hv); [lia| |].
    { destruct fuel; [|lia]. cbn in *. lia. }
    exists (s ++ [digit_char (n mod radix)]). split; [by rewrite Hs, <-app_assoc|]. split; [by destruct s|].
    split; [apply Forall_app; split; [done|by repeat constructor]|].
    rewrite digits_value_snoc, Hv, digit_char_value by lia. cbn [default]. rewrite Z.mul_comm. symmetry. apply Z.div_mod. lia.
Qed.

(** [n.toString(radix)] is a non-empty string of digits that says [n]. *)
Lemma to_string_spec radix n : 2 <= radix <= 36 -> 0 <= n < 2 ^ 64 ->
  to_string radix n <> [] /\ radix_digits radix (to_string radix n) /\ digits_value radix (to_string radix n) = n.
Proof.
  intros Hr Hn. destruct (to_string_loop_spec radix 64 n [] Hr) as (s & Hs & H); [|lia|].
  - split; [lia|]. apply Z.lt_le_trans with (2 ^ 64); [lia|]. apply Z.pow_le_mono_l. lia.
  - unfold to_string. by rewrite Hs, app_nil_r.
Qed.

Lemma span_all f s : Forall (fun u => f u = true) s -> span f s = (s, []).
Proof. induction 1 as [|u s Hu _ IH]; [done|]. cbn. by rewrite Hu, IH. Qed.

Lemma drop_while_all f s : Forall (fun u => f u = false) s -> drop_while f s = s.
Proof. destruct 1 as [|u s Hu _]; [done|]. cbn. by rewrite Hu. Qed.

Lemma trim_none s : Forall (fun u => is_js_space u = false) s -> trim s = s.
Proof. intros H. unfold trim, trim_by. rewrite (drop_while_all _ s) by done. by rewrite drop_while_all, reverse_involutive by (by apply Forall_reverse). Qed.

Lemma digit_not_space u : is_digit u = true -> is_js_space u = false.
Proof.
  unfold is_digit, is_js_space. intros [H1%Z.leb_le H2%Z.leb_le]%andb_true_iff. apply orb_false_iff. split.
  - apply bool_decide_eq_false. rewrite !elem_of_cons, elem_of_nil. lia.
  - apply andb_false_iff. left. apply Z.leb_gt. lia.
Qed.

Lemma decimal_digits s : radix_digits 10 s -> Forall (fun u => is_digit u = true) s.
Proof.
  intros H. eapply Forall_impl; [exact H|]. clear. cbv beta. intros u. unfold is_radix_digit, digit_value. destruct (is_digit u); [done|].
  destruct (is_lower u) eqn:El; [|destruct (is_upper u) eqn:Eu; [|done]]; intros H%Z.ltb_lt; exfalso;
    [unfold is_lower in El; apply andb_true_iff in El as [El%Z.leb_le _]|unfold is_upper in Eu; apply andb_true_iff in Eu as [Eu%Z.leb_le _]]; lia.
Qed.

(** [Number(String(n))] *)
Lemma Number_to_string n : 0 <= n < 2 ^ 64 -> Number (to_string 10 n) = of_Z n.
Proof.
  intros Hn. destruct (to_string_spec 10 n ltac:(lia) Hn) as (Hne & Hd%decimal_digits & Hv). set (s := to_string 10 n) in *. clearbody s.
  unfold Number. rewrite trim_none by (eapply Forall_impl; [exact Hd|apply digit_not_space]).
  destruct s as [|c t]; [done|]. assert (Hc : is_digit c = true) by by inversion Hd.
  assert (Hp : radix_prefix (c :: t) = None).
  { unfold radix_prefix. destruct t as [|x t']; [done|]. destruct (negb (c =? 48)); [done|].
    assert (Hx : is_digit x = true) by by inversion Hd as [|? ? ? Ht]; inversion Ht.
    unfold is_digit in Hx. apply andb_true_iff in Hx as [_ Hx%Z.leb_le].
    assert (Hne' : forall k, 0x40 <= k -> (x =? k) = false) by (intros k Hk; apply Z.eqb_neq; lia). by rewrite !Hne' by lia. }
  rewrite Hp. unfold is_digit in Hc. apply andb_true_iff in Hc as [Hc1%Z.leb_le Hc2%Z.leb_le].
  rewrite (proj2 (Z.eqb_neq c 45)), (proj2 (Z.eqb_neq c 43)) by lia. unfold unsigned_decimal.
  rewrite bool_decide_false by (intros E; apply (f_equal head) in E; vm_compute in E; injection E as ->; lia). rewrite span_all by done. rewrite app_nil_r. cbn [nonempty exponent length].
  unfold decimal. rewrite Hv. change (0 - Z.of_nat 0) with 0. cbn [Z.leb]. change (10 ^ 0) with 1. rewrite Z.mul_1_r.
  unfold of_Z. by rewrite (proj2 (Z.ltb_ge n 0)), Z.abs_eq by lia.
Qed.

(* ------------------------------------------------------------------ *)
(** ** Octets *)

(** Bytes as pairs and as the decimal groups of a dotted address, shared by
    the SOCKS and the DNS codecs. *)

Lemma lor_disjoint hi lo : 0 <= lo < 256 -> 0 <= hi -> Z.lor (Z.shiftl hi 8) lo = hi * 256 + lo.
Proof.
  intros Hlo Hhi. rewrite Z.shiftl_mul_pow2 by lia. change (2 ^ 8) with 256. rewrite <-Z.add_lor_land.
  enough (Z.land (hi * 256) lo = 0) as -> by lia.
  rewrite <-(Z.mod_small lo 256) by lia. change 256 with (2 ^ 8) at 2. rewrite <-Z.land_ones by lia.
  rewrite (Z.land_comm lo), Z.land_assoc, Z.land_ones by lia. change (2 ^ 8) with 256. by rewrite Z.mod_mul by lia.
Qed.

(** An address written in decimal. *)
Definition dotted (ip : bytes) : jsstr := join [0x2e] (to_string 10 <$> ip).

Definition is_ip (ip : bytes) : Prop := length ip = 4%nat /\ Forall is_byte ip.

(** Octets print as one to three digits. *)
Lemma octet_digits n : is_byte n ->
  let s := to_string 10 n in (1 <= length s <= 3)%nat /\ forallb is_digit s = true /\ 0x2e ∉ s.
Proof.
  intros Hn. assert (forallb (fun k => let s := to_string 10 (Z.of_nat k) in
    (1 <=? length s)%nat && (length s <=? 3)%nat && forallb is_digit s && bool_decide (0x2e ∉ s)) (seq 0 256) = true)
    as Hall by (vm_compute; reflexivity).
  rewrite forallb_forall in Hall. specialize (Hall (Z.to_nat n)). unfold is_byte in Hn. rewrite Z2Nat.id in Hall by lia.
  cbv zeta in *. rewrite !andb_true_iff, bool_decide_eq_true, !Nat.leb_le in Hall.
  assert (In (Z.to_nat n) (seq 0 256)) as Hin by (apply in_seq; lia). specialize (Hall Hin). tauto.
Qed.

Lemma dotted_parts ip : is_ip ip -> split_on 0x2e (dotted ip) = to_string 10 <$> ip.
Proof.
  intros [Hl Hb]. apply split_on_join; [by destruct ip|]. apply Forall_fmap. eapply Forall_impl; [exact Hb|].
  intros n Hn. apply (octet_digits n Hn).
Qed.

(** The groups of a dotted address read back as its octets. *)
Lemma octets_numbers ip : Forall is_byte ip ->
  existsb (fun n => negb (in_octet n)) (Number <$> (to_string 10 <$> ip)) = false /\
  truncate <$> (Number <$> (to_string 10 <$> ip)) = ip.
Proof.
  induction 1 as [|n ip Hn _ [IH1 IH2]]; [done|]. unfold is_byte in Hn.
  destruct (octet_number n ltac:(lia)) as [Ho Ht]. rewrite !fmap_cons. cbn [existsb]. rewrite Ho, Ht, IH1, IH2. done.
Qed.
