(* ===== verification/Socks.v ===== *)
(** * The SOCKS4/4a/5 messages of [examples/proxy/lib/socks-protocol.js]

    Encoders give the bytes of a message; a decoder gives [None] when the
    message is not complete yet, the message with the number of bytes it
    used, or throws.  A missing byte reads as 0 where the code reads
    [undefined] into a bit operation; the code never compares one. *)

From S2P Require Import Prelude JsString JsNumber.
Open Scope Z_scope.

Definition SOCKS5_ATYP_IPV4 : Z := 1.
Definition SOCKS5_ATYP_DOMAIN : Z := 3.
Definition SOCKS5_ATYP_IPV6 : Z := 4.
Definition SOCKS5_CMD_CONNECT : Z := 1.
Definition SOCKS5_REP_SUCCEEDED : Z := 0.
Definition SOCKS5_REP_COMMAND_NOT_SUPPORTED : Z := 7.
Definition SOCKS5_REP_GENERAL_FAILURE : Z := 1.
Definition SOCKS4_CMD_CONNECT : Z := 1.
Definition SOCKS4_GRANTED : Z := 0x5a.
Definition SOCKS4_REJECTED : Z := 0x5b.

(** [bytes[i]] *)
Definition byte_at (bs : bytes) (i : nat) : Z := default 0 (bs !! i).

(** [(bytes[i] << 8) | bytes[i + 1]] *)
Definition uint16_at (bs : bytes) (i : nat) : Z := Z.lor (Z.shiftl (byte_at bs i) 8) (byte_at bs (S i)).

(** [(port >> 8) & 0xff] and [port & 0xff] *)
Definition port_bytes (port : Z) : bytes :=
  [Z.land (Z.shiftr (to_int32 port) 8) 0xff; Z.land (to_int32 port) 0xff].

(** [bytes.subarray(from, to)] *)
Definition subarray (from to : nat) (bs : bytes) : bytes := drop from (take to bs).

Definition toBytesAscii (str : jsstr) : bytes := (fun u => Z.land u 0xff) <$> str.
Definition toStringAscii (bs : bytes) : jsstr := bs.

Definition ipv4ToBytes (host : jsstr) : option bytes :=
  let parts := Number <$> split_on 0x2e host in
  if negb (length parts =? 4)%nat || existsb (fun n => negb (in_octet n)) parts then None
  else Some (truncate <$> parts).

(** [/^\d{1,3}\.\d{1,3}\.\d{1,3}\.\d{1,3}$/.test(host)] *)
Definition dotted_quad_re (host : jsstr) : bool :=
  let parts := split_on 0x2e host in
  (length parts =? 4)%nat &&
  forallb (fun p => (1 <=? length p)%nat && (length p <=? 3)%nat && forallb is_digit p) parts.

Definition isIpv4 (host : jsstr) : bool :=
  dotted_quad_re host && match ipv4ToBytes host with Some _ => true | None => false end.

(** [`${ip[0]}.${ip[1]}.${ip[2]}.${ip[3]}`] *)
Definition ipv4_string (ip : bytes) : jsstr :=
  join [0x2e] ((fun i => to_string 10 (byte_at ip i)) <$> [0; 1; 2; 3]%nat).

(** [bytes.indexOf(0, start)] *)
Definition nulAfter (bs : bytes) (start : nat) : option nat :=
  (fun i => (start + i)%nat) <$> index_of 0 (drop start bs).

(* ------------------------------------------------------------------ *)
(** ** SOCKS4 *)

Record request := Request { rq_cmd : Z; rq_port : Z; rq_host : jsstr; rq_consumed : nat }.
Record reply4 := Reply4 { r4_granted : bool; r4_port : Z; r4_host : jsstr; r4_consumed : nat }.

#[export] Instance request_eq_dec : EqDecision request.
Proof. solve_decision. Defined.
#[export] Instance reply4_eq_dec : EqDecision reply4.
Proof. solve_decision. Defined.

Definition decodeSocks4Request (bs : bytes) : outcome (option request) :=
  if (length bs <? 9)%nat then Ok None else
  if negb (byte_at bs 0 =? 4) then Throw ErrTypeError "decodeSocks4Request: expected version 4" else
  let cmd := byte_at bs 1 in
  let port := uint16_at bs 2 in
  let ip := subarray 4 8 bs in
  let isSocks4a := (byte_at ip 0 =? 0) && (byte_at ip 1 =? 0) && (byte_at ip 2 =? 0) && negb (byte_at ip 3 =? 0) in
  match nulAfter bs 8 with
  | None => Ok None
  | Some userEnd =>
    if negb isSocks4a then Ok (Some (Request cmd port (ipv4_string ip) (userEnd + 1))) else
    let domainStart := (userEnd + 1)%nat in
    match nulAfter bs domainStart with
    | None => Ok None
    | Some domainEnd =>
      Ok (Some (Request cmd port (toStringAscii (subarray domainStart domainEnd bs)) (domainEnd + 1)))
    end
  end.

(** A typed array stores each number modulo 256. *)
Definition encodeSocks4Request (cmd : Z) (host : jsstr) (port : Z) : bytes :=
  let v4 := if isIpv4 host then ipv4ToBytes host else None in
  match v4 with
  | Some ip => [4; to_uint8 cmd] ++ port_bytes port ++ ip ++ [0]
  | None => [4; to_uint8 cmd] ++ port_bytes port ++ [0; 0; 0; 1] ++ [0] ++ toBytesAscii host ++ [0]
  end.

Definition encodeSocks4Reply (granted : bool) (port : Z) (host : jsstr) : bytes :=
  let ip := default [0; 0; 0; 0] (ipv4ToBytes host) in
  [0; if granted then SOCKS4_GRANTED else SOCKS4_REJECTED] ++ port_bytes port ++ ip.

Definition decodeSocks4Reply (bs : bytes) : option reply4 :=
  if (length bs <? 8)%nat then None else
  Some (Reply4 (byte_at bs 1 =? SOCKS4_GRANTED) (uint16_at bs 2) (ipv4_string (subarray 4 8 bs)) 8).

(* ------------------------------------------------------------------ *)
(** ** SOCKS5 *)

Record greeting := Greeting { gr_methods : list Z; gr_consumed : nat }.
Record selection := Selection { sl_method : Z; sl_consumed : nat }.
Record reply5 := Reply5 { r5_rep : Z; r5_host : jsstr; r5_port : Z; r5_consumed : nat }.

Definition decodeSocks5Greeting (bs : bytes) : outcome (option greeting) :=
  if (length bs <? 2)%nat then Ok None else
  if negb (byte_at bs 0 =? 5) then Throw ErrTypeError "decodeSocks5Greeting: expected version 5" else
  let nmethods := Z.to_nat (byte_at bs 1) in
  if (length bs <? 2 + nmethods)%nat then Ok None else
  Ok (Some (Greeting (subarray 2 (2 + nmethods) bs) (2 + nmethods))).

Definition encodeSocks5Greeting (methods : list Z) : bytes :=
  [5; to_uint8 (Z.of_nat (length methods))] ++ (to_uint8 <$> methods).

Definition encodeSocks5MethodSelection (method : Z) : bytes := [5; to_uint8 method].

Definition decodeSocks5MethodSelection (bs : bytes) : option selection :=
  if (length bs <? 2)%nat then None else Some (Selection (byte_at bs 1) 2).

(** The host of an address and the offset after it. *)
Definition decodeSocks5Address (bs : bytes) (offset : nat) : outcome (option (jsstr * nat)) :=
  let atyp := byte_at bs offset in
  if atyp =? SOCKS5_ATYP_IPV4 then
    if (length bs <? offset + 1 + 4 + 2)%nat then Ok None
    else Ok (Some (ipv4_string (subarray (offset + 1) (offset + 5) bs), (offset + 5)%nat))
  else if atyp =? SOCKS5_ATYP_DOMAIN then
    if (length bs <? offset + 2)%nat then Ok None else
    let len := Z.to_nat (byte_at bs (offset + 1)) in
    if (length bs <? offset + 2 + len + 2)%nat then Ok None
    else Ok (Some (toStringAscii (subarray (offset + 2) (offset + 2 + len) bs), (offset + 2 + len)%nat))
  else if atyp =? SOCKS5_ATYP_IPV6 then
    if (length bs <? offset + 1 + 16 + 2)%nat then Ok None
    else Ok (Some (join [0x3a] ((fun i => to_string 16 (uint16_at bs (offset + 1 + i * 2))) <$> seq 0 8), (offset + 17)%nat))
  else Throw ErrTypeError "decodeSocks5Address: unsupported ATYP".

Definition decodeSocks5Request (bs : bytes) : outcome (option request) :=
  if (length bs <? 4)%nat then Ok None else
  if negb (byte_at bs 0 =? 5) then Throw ErrTypeError "decodeSocks5Request: expected version 5" else
  let cmd := byte_at bs 1 in
  addr ← decodeSocks5Address bs 3;
  match addr with
  | None => Ok None
  | Some (host, next) => Ok (Some (Request cmd (uint16_at bs next) host (next + 2)))
  end.

Definition encodeSocks5Request (cmd : Z) (host : jsstr) (port : Z) : bytes :=
  let domain := toBytesAscii host in
  [5; to_uint8 cmd; 0; SOCKS5_ATYP_DOMAIN; to_uint8 (Z.of_nat (length domain))] ++ domain ++ port_bytes port.

Definition encodeSocks5Reply (rep : Z) (host : jsstr) (port : Z) : bytes :=
  let ip := default [0; 0; 0; 0] (ipv4ToBytes host) in
  [5; to_uint8 rep; 0; SOCKS5_ATYP_IPV4] ++ ip ++ port_bytes port.

Definition decodeSocks5Reply (bs : bytes) : outcome (option reply5) :=
  if (length bs <? 4)%nat then Ok None else
  addr ← decodeSocks5Address bs 3;
  match addr with
  | None => Ok None
  | Some (host, next) => Ok (Some (Reply5 (byte_at bs 1) host (uint16_at bs next) (next + 2)))
  end.
