(* ===== verification/SocksProps.v ===== *)
(** * Framing and round trips of the SOCKS messages

    [Framed] is what the users of a decoder rely on: the message depends
    on the bytes it used and on nothing after them, and a decoder that
    throws on some bytes throws on more.  Every decoder has it. *)

From S2P Require Import Prelude JsString JsNumber Socks.
Open Scope nat_scope.

Class Framed {A} (decode : bytes -> outcome (option A)) (consumed : A -> nat) : Prop := {
  framed_bound bs a : decode bs = Ok (Some a) -> consumed a <= length bs;
  framed_local bs bs' a : decode bs = Ok (Some a) -> take (consumed a) bs' = take (consumed a) bs -> decode bs' = Ok (Some a);
  framed_throw bs more c e : decode bs = Throw c e -> decode (bs ++ more) = Throw c e;
}.

Section Laws.
Context {A} (decode : bytes -> outcome (option A)) (consumed : A -> nat) `{!Framed decode consumed}.

(** Bytes after the message change nothing. *)
Lemma framed_more bs more a : decode bs = Ok (Some a) -> decode (bs ++ more) = Ok (Some a).
Proof.
  intros Hd. eapply framed_local; [exact Hd|]. apply take_app_le. by eapply framed_bound.
Qed.

(** The message needs no more than the bytes it used. *)
Lemma framed_exact bs a : decode bs = Ok (Some a) -> decode (take (consumed a) bs) = Ok (Some a).
Proof. intros Hd. eapply framed_local; [exact Hd|]. rewrite take_take. f_equal. lia. Qed.


(** Nor fewer: until they have all arrived the decoder waits. *)
Lemma framed_waits bs a n : decode bs = Ok (Some a) -> n < consumed a -> decode (take n bs) = Ok None.
Proof.
  intros Hd Hn. pose proof (framed_bound _ _ Hd) as Hb. destruct (decode (take n bs)) as [[a'|]|c e] eqn:E; [|done|].
  - pose proof (framed_bound _ _ E) as Hb'. pose proof (framed_more _ (drop n bs) _ E) as Hm.
    rewrite take_drop, Hd in Hm. injection Hm as <-. rewrite length_take in Hb'. lia.
  - pose proof (framed_throw _ (drop n bs) _ _ E) as Hm. by rewrite take_drop, Hd in Hm.
Qed.

Lemma framed_boundary bs a n : decode bs = Ok (Some a) ->
  consumed a <= length bs /\ decode (take (consumed a) bs) = Ok (Some a) /\
  (n < consumed a -> decode (take n bs) = Ok None).
Proof.
  intros Hd. split; [by eapply framed_bound|]. split; [by apply framed_exact|]. intros Hn. by eapply framed_waits.
Qed.
End Laws.

(* ------------------------------------------------------------------ *)
(** ** Reading a prefix *)

Section Local.
Implicit Types (bs : bytes) (n i : nat).

Lemma same_prefix_length n bs bs' : take n bs' = take n bs -> n <= length bs -> n <= length bs'.
Proof. intros H Hn. apply (f_equal length) in H. rewrite !length_take in H. lia. Qed.

Lemma byte_at_local n bs bs' i : take n bs' = take n bs -> i < n -> byte_at bs' i = byte_at bs i.
Proof.
  intros H Hi. unfold byte_at. rewrite <-(lookup_take_lt bs' n i), <-(lookup_take_lt bs n i) by done. by rewrite H.
Qed.

Lemma uint16_at_local n bs bs' i : take n bs' = take n bs -> S i < n -> uint16_at bs' i = uint16_at bs i.
Proof. intros H Hi. unfold uint16_at. by rewrite !(byte_at_local n bs bs') by (done || lia). Qed.

Lemma subarray_local n bs bs' f t : take n bs' = take n bs -> t <= n -> subarray f t bs' = subarray f t bs.
Proof.
  intros H Ht. unfold subarray. f_equal. rewrite <-(Nat.min_l t n Ht), <-!take_take. by rewrite H.
Qed.

Lemma index_of_Some c bs i : index_of c bs = Some i ->
  i < length bs /\ bs !! i = Some c /\ c ∉ take i bs.
Proof.
  revert i. induction bs as [|b bs IH]; intros i; cbn; [done|]. destruct (Z.eqb_spec b c) as [->|Hb].
  - intros [= <-]. cbn. split_and!; [lia|done|]. apply not_elem_of_nil.
  - destruct (index_of c bs) as [j|] eqn:E; cbn; [|done]. intros [= <-].
    destruct (IH j eq_refl) as (Hl & Hj & Hn). split_and!; [lia|done|]. cbn. rewrite not_elem_of_cons. split; [congruence|done].
Qed.

Lemma index_of_first c p rest : c ∉ p -> index_of c (p ++ c :: rest) = Some (length p).
Proof. apply index_of_app. Qed.

Lemma index_of_local c bs bs' n i : index_of c bs = Some i -> take n bs' = take n bs -> i < n -> index_of c bs' = Some i.
Proof.
  intros Hi Ht Hn. destruct (index_of_Some _ _ _ Hi) as (Hl & Hc & Hnot).
  assert (bs' !! i = Some c) as Hc'.
  { rewrite <-(lookup_take_lt bs' n i), Ht, lookup_take_lt by done. done. }
  assert (take i bs' = take i bs) as Hti.
  { rewrite <-(Nat.min_l i n) by lia. rewrite <-!take_take. by rewrite Ht. }
  rewrite <-(take_drop_middle bs' i c Hc'), index_of_app by (by rewrite Hti).
  rewrite length_take_le; [done|]. apply lookup_lt_Some in Hc'. lia.
Qed.

Lemma nulAfter_bounds bs s i : nulAfter bs s = Some i -> s <= i < length bs.
Proof.
  unfold nulAfter. intros (j & Hj & ->)%fmap_Some. apply index_of_Some in Hj as (Hl & _). rewrite length_drop in Hl. lia.
Qed.

Lemma nulAfter_local bs bs' n s i : nulAfter bs s = Some i -> take n bs' = take n bs -> i < n -> nulAfter bs' s = Some i.
Proof.
  unfold nulAfter. intros (j & Hj & ->)%fmap_Some Ht Hn.
  rewrite (index_of_local 0%Z (drop s bs) (drop s bs') (n - s) j Hj); [done| |lia].
  rewrite !take_drop_commute. replace (s + (n - s)) with n by lia. by rewrite Ht.
Qed.

Lemma byte_at_more bs more i : i < length bs -> byte_at (bs ++ more) i = byte_at bs i.
Proof. intros. unfold byte_at. by rewrite lookup_app_l. Qed.
End Local.

(* ------------------------------------------------------------------ *)
(** ** The decoders *)

(** A branch that gives a message, or throws, is not the one that waits. *)
Ltac take_branch H := repeat match type of H with
  | context [if ?b then _ else _] => destruct b eqn:?; try discriminate H
  | context [match ?x with Some _ => _ | None => _ end] => destruct x as [?|] eqn:?; try discriminate H
  end.

Lemma ltb_false_ge m n : (m <? n) = false -> n <= m.
Proof. by intros ?%Nat.ltb_ge. Qed.

#[export] Instance decodeSocks4Request_framed : Framed decodeSocks4Request rq_consumed.
Proof.
  constructor.
  - intros bs a Hd. unfold decodeSocks4Request in Hd. take_branch Hd; injection Hd as <-; cbn;
      repeat match goal with H : nulAfter _ _ = Some _ |- _ => apply nulAfter_bounds in H end; lia.
  - intros bs bs' a Hd Ht. unfold decodeSocks4Request in *.
    destruct (length bs <? 9) eqn:E9; [done|]. apply ltb_false_ge in E9.
    destruct (negb (byte_at bs 0 =? 4)%Z) eqn:Ev; [done|].
    destruct (nulAfter bs 8) as [u|] eqn:Eu; [|done]. pose proof (nulAfter_bounds _ _ _ Eu) as Hu.
    assert (u + 1 <= rq_consumed a /\ rq_consumed a <= length bs) as [Hc Hl].
    { take_branch Hd; injection Hd as <-; cbn;
      repeat match goal with H : nulAfter _ _ = Some _ |- _ => apply nulAfter_bounds in H end; lia. }
    pose proof (same_prefix_length _ _ _ Ht Hl) as Hl'.
    rewrite (proj2 (Nat.ltb_ge _ _)) by lia.
    rewrite !(byte_at_local _ bs bs' _ Ht), Ev, (uint16_at_local _ bs bs' _ Ht), (subarray_local _ bs bs' _ _ Ht),
      (nulAfter_local bs bs' _ _ _ Eu Ht) by lia.
    destruct (negb _) in Hd |- *; [done|].
    destruct (nulAfter bs (u + 1)) as [d|] eqn:Ed; [|done]. injection Hd as <-. cbn in *.
    rewrite (nulAfter_local bs bs' _ _ _ Ed Ht), (subarray_local _ bs bs' _ _ Ht) by lia. done.
  - intros bs more c e Hd. unfold decodeSocks4Request in *.
    destruct (length bs <? 9) eqn:E9; [done|]. apply ltb_false_ge in E9.
    rewrite (proj2 (Nat.ltb_ge _ _)), byte_at_more by (rewrite ?length_app; lia).
    destruct (negb (byte_at bs 0 =? 4)%Z); [done|]. by take_branch Hd.
Qed.

#[export] Instance decodeSocks4Reply_framed : Framed (fun bs => Ok (decodeSocks4Reply bs)) r4_consumed.
Proof.
  constructor; [| |done].
  - intros bs a Hd. unfold decodeSocks4Reply in Hd. take_branch Hd. injection Hd as <-. apply ltb_false_ge in Heqb. cbn. lia.
  - intros bs bs' a Hd Ht. unfold decodeSocks4Reply in *. destruct (length bs <? 8) eqn:E; [done|]. apply ltb_false_ge in E.
    injection Hd as <-. cbn in Ht. pose proof (same_prefix_length _ _ _ Ht E) as Hl'.
    rewrite (proj2 (Nat.ltb_ge _ _)) by lia.
    by rewrite (byte_at_local _ bs bs' _ Ht), (uint16_at_local _ bs bs' _ Ht), (subarray_local _ bs bs' _ _ Ht) by lia.
Qed.

#[export] Instance decodeSocks5Greeting_framed : Framed decodeSocks5Greeting gr_consumed.
Proof.
  constructor.
  - intros bs a Hd. unfold decodeSocks5Greeting in Hd. take_branch Hd. injection Hd as <-. apply ltb_false_ge in Heqb1. cbn in *. lia.
  - intros bs bs' a Hd Ht. unfold decodeSocks5Greeting in *.
    destruct (length bs <? 2) eqn:E; [done|]. destruct (negb (byte_at bs 0 =? 5)%Z) eqn:Ev; [done|].
    destruct (length bs <? 2 + Z.to_nat (byte_at bs 1)) eqn:En; [done|]. apply ltb_false_ge in En.
    injection Hd as <-. cbn [gr_consumed] in Ht. pose proof (same_prefix_length _ _ _ Ht En) as Hl'.
    rewrite (proj2 (Nat.ltb_ge _ 2)) by lia. rewrite !(byte_at_local _ bs bs' _ Ht), Ev by lia.
    rewrite (proj2 (Nat.ltb_ge _ _)) by lia. by rewrite (subarray_local _ bs bs' _ _ Ht) by lia.
  - intros bs more c e Hd. unfold decodeSocks5Greeting in *. destruct (length bs <? 2) eqn:E; [done|]. apply ltb_false_ge in E.
    rewrite (proj2 (Nat.ltb_ge _ 2)), byte_at_more by (rewrite ?length_app; lia).
    destruct (negb (byte_at bs 0 =? 5)%Z); [done|]. by take_branch Hd.
Qed.

#[export] Instance decodeSocks5MethodSelection_framed : Framed (fun bs => Ok (decodeSocks5MethodSelection bs)) sl_consumed.
Proof.
  constructor; [| |done].
  - intros bs a Hd. unfold decodeSocks5MethodSelection in Hd. take_branch Hd. injection Hd as <-. apply ltb_false_ge in Heqb. cbn. lia.
  - intros bs bs' a Hd Ht. unfold decodeSocks5MethodSelection in *. destruct (length bs <? 2) eqn:E; [done|]. apply ltb_false_ge in E.
    injection Hd as <-. cbn in Ht. pose proof (same_prefix_length _ _ _ Ht E) as Hl'.
    rewrite (proj2 (Nat.ltb_ge _ _)) by lia. by rewrite (byte_at_local _ bs bs' _ Ht) by lia.
Qed.

(** An address is followed by two bytes of port. *)
Lemma address_bound bs o h n : decodeSocks5Address bs o = Ok (Some (h, n)) -> o < n /\ n + 2 <= length bs.
Proof.
  intros Hd. unfold decodeSocks5Address in Hd. take_branch Hd; injection Hd as <- <-;
    repeat match goal with H : (_ <? _) = false |- _ => apply ltb_false_ge in H end; lia.
Qed.

Lemma address_local bs bs' o h n : decodeSocks5Address bs o = Ok (Some (h, n)) -> take (n + 2) bs' = take (n + 2) bs ->
  decodeSocks5Address bs' o = Ok (Some (h, n)).
Proof.
  intros Hd Ht. destruct (address_bound _ _ _ _ Hd) as [Ho Hn].
  pose proof (same_prefix_length _ _ _ Ht Hn) as Hl'.
  unfold decodeSocks5Address in *. rewrite (byte_at_local _ bs bs' _ Ht) by lia.
  destruct (byte_at bs o =? SOCKS5_ATYP_IPV4)%Z.
  - destruct (_ <? _) in Hd; [done|]. injection Hd as <- <-. rewrite (proj2 (Nat.ltb_ge _ _)) by lia.
    by rewrite (subarray_local _ bs bs' _ _ Ht) by lia.
  - destruct (byte_at bs o =? SOCKS5_ATYP_DOMAIN)%Z.
    + destruct (length bs <? o + 2) eqn:E2; [done|]. apply ltb_false_ge in E2.
      destruct (_ <? _) eqn:E3 in Hd; [done|]. injection Hd as <- <-. rewrite (proj2 (Nat.ltb_ge _ (o + 2))) by lia.
      rewrite (byte_at_local _ bs bs' _ Ht) by lia. rewrite (proj2 (Nat.ltb_ge _ _)) by lia.
      by rewrite (subarray_local _ bs bs' _ _ Ht) by lia.
    + destruct (byte_at bs o =? SOCKS5_ATYP_IPV6)%Z; [|done].
      destruct (_ <? _) in Hd; [done|]. injection Hd as <- <-. rewrite (proj2 (Nat.ltb_ge _ _)) by lia.
      rewrite (list_fmap_ext _ (fun i => to_string 16 (uint16_at bs (o + 1 + i * 2))) (seq 0 8)); [done|].
      intros k i Hk%lookup_seq. rewrite (uint16_at_local _ bs bs' _ Ht); [done|lia].
Qed.

Lemma address_throw bs o more c e : o < length bs -> decodeSocks5Address bs o = Throw c e ->
  decodeSocks5Address (bs ++ more) o = Throw c e.
Proof.
  intros Ho. unfold decodeSocks5Address. rewrite byte_at_more by done. intros Hd.
  destruct (_ =? _)%Z; [by take_branch Hd|]. destruct (_ =? _)%Z; [by take_branch Hd|]. by destruct (_ =? _)%Z; [take_branch Hd|].
Qed.

#[export] Instance decodeSocks5Request_framed : Framed decodeSocks5Request rq_consumed.
Proof.
  constructor.
  - intros bs a Hd. unfold decodeSocks5Request in Hd. take_branch Hd.
    destruct (decodeSocks5Address bs 3) as [[[h n]|]|] eqn:E; try discriminate Hd. cbn in Hd. injection Hd as <-.
    apply address_bound in E. cbn. lia.
  - intros bs bs' a Hd Ht. unfold decodeSocks5Request in *.
    destruct (length bs <? 4) eqn:E4; [done|]. destruct (negb (byte_at bs 0 =? 5)%Z) eqn:Ev; [done|].
    destruct (decodeSocks5Address bs 3) as [[[h n]|]|] eqn:E; try discriminate Hd. cbn in Hd. injection Hd as <-. cbn in Ht.
    destruct (address_bound _ _ _ _ E) as [Ho Hn]. pose proof (same_prefix_length _ _ _ Ht Hn) as Hl'.
    rewrite (proj2 (Nat.ltb_ge _ 4)), !(byte_at_local _ bs bs' _ Ht), Ev, (address_local _ _ _ _ _ E Ht) by lia. cbn.
    by rewrite (uint16_at_local _ bs bs' _ Ht) by lia.
  - intros bs more c e Hd. unfold decodeSocks5Request in *. destruct (length bs <? 4) eqn:E; [done|]. apply ltb_false_ge in E.
    rewrite (proj2 (Nat.ltb_ge _ 4)), byte_at_more by (rewrite ?length_app; lia).
    destruct (negb (byte_at bs 0 =? 5)%Z); [done|].
    destruct (decodeSocks5Address bs 3) as [[[h n]|]|] eqn:Ea; try discriminate Hd.
    erewrite address_throw; [done|lia|done].
Qed.

#[export] Instance decodeSocks5Reply_framed : Framed decodeSocks5Reply r5_consumed.
Proof.
  constructor.
  - intros bs a Hd. unfold decodeSocks5Reply in Hd. take_branch Hd.
    destruct (decodeSocks5Address bs 3) as [[[h n]|]|] eqn:E; try discriminate Hd. cbn in Hd. injection Hd as <-.
    apply address_bound in E. cbn. lia.
  - intros bs bs' a Hd Ht. unfold decodeSocks5Reply in *. destruct (length bs <? 4) eqn:E4; [done|].
    destruct (decodeSocks5Address bs 3) as [[[h n]|]|] eqn:E; try discriminate Hd. cbn in Hd. injection Hd as <-. cbn in Ht.
    destruct (address_bound _ _ _ _ E) as [Ho Hn]. pose proof (same_prefix_length _ _ _ Ht Hn) as Hl'.
    rewrite (proj2 (Nat.ltb_ge _ 4)), !(byte_at_local _ bs bs' _ Ht), (address_local _ _ _ _ _ E Ht) by lia. cbn.
    by rewrite (uint16_at_local _ bs bs' _ Ht) by lia.
  - intros bs more c e Hd. unfold decodeSocks5Reply in *. destruct (length bs <? 4) eqn:E; [done|]. apply ltb_false_ge in E.
    rewrite (proj2 (Nat.ltb_ge _ 4)) by (rewrite ?length_app; lia).
    destruct (decodeSocks5Address bs 3) as [[[h n]|]|] eqn:Ea; try discriminate Hd.
    erewrite address_throw; [done|lia|done].
Qed.

(* ------------------------------------------------------------------ *)
(** ** Ports and addresses *)

Section Codec.
Open Scope Z_scope.

Definition is_port (p : Z) : Prop := 0 <= p < 65536.

Lemma port_bytes_val p : is_port p -> port_bytes p = [p / 256; p mod 256].
Proof.
  intros Hp. unfold is_port in Hp. unfold port_bytes.
  assert (to_int32 p = p) as ->.
  { unfold to_int32. rewrite Z.mod_small by lia. destruct (Z.ltb_spec p (2 ^ 31)); lia. }
  change 0xff with (Z.ones 8). rewrite !Z.land_ones, Z.shiftr_div_pow2 by lia. change (2 ^ 8) with 256.
  rewrite (Z.mod_small (p / 256)); [done|]. split; [apply Z.div_pos; lia|apply Z.div_lt_upper_bound; lia].
Qed.

Lemma port_value p : is_port p -> Z.lor (Z.shiftl (p / 256) 8) (p mod 256) = p.
Proof.
  intros Hp. unfold is_port in Hp. rewrite lor_disjoint; [|by apply Z.mod_pos_bound|by apply Z.div_pos; lia].
  rewrite Z.mul_comm. symmetry. by apply Z.div_mod.
Qed.

Lemma ipv4_string_dotted ip : length ip = 4%nat -> ipv4_string ip = dotted ip.
Proof. intros H. by destruct ip as [|? [|? [|? [|? []]]]]. Qed.

Lemma ipv4ToBytes_dotted ip : is_ip ip -> ipv4ToBytes (dotted ip) = Some ip.
Proof.
  intros Hip. unfold ipv4ToBytes. rewrite (dotted_parts _ Hip). destruct Hip as [Hl Hb].
  rewrite !length_fmap, Hl. cbn [Nat.eqb negb orb]. by destruct (octets_numbers ip Hb) as [-> ->].
Qed.

Lemma isIpv4_dotted ip : is_ip ip -> isIpv4 (dotted ip) = true.
Proof.
  intros Hip. unfold isIpv4, dotted_quad_re. rewrite ipv4ToBytes_dotted, dotted_parts by done. destruct Hip as [Hl Hb].
  rewrite length_fmap, Hl, andb_true_r. cbn [Nat.eqb andb]. apply forallb_forall. intros s Hs.
  apply list_elem_of_In in Hs. apply list_elem_of_fmap in Hs as (n & -> & Hn).
  rewrite Forall_forall in Hb. destruct (octet_digits n (Hb n Hn)) as ([H1 H3] & H2 & _).
  by rewrite (proj2 (Nat.leb_le _ _) H1), (proj2 (Nat.leb_le _ _) H3), H2.
Qed.

Lemma in_octet_byte x : in_octet x = true -> is_byte (truncate x).
Proof.
  unfold is_byte, in_octet, truncate. destruct x as [| |neg q e]; [done..|]. destruct neg.
  - intros ->%Z.eqb_eq. unfold scale. destruct (0 <=? e); rewrite ?Z.mul_0_l, ?Zdiv_0_l; lia.
  - unfold scale. destruct (Z.leb_spec 0 e) as [He|He]; intros [H0%Z.leb_le H1%Z.leb_le]%andb_true_iff.
    + rewrite Z.div_1_r. lia.
    + assert (0 < 1 * 2 ^ (- e)) by (rewrite Z.mul_1_l; apply Z.pow_pos_nonneg; lia).
      split; [by apply Z.div_pos|]. apply Z.div_lt_upper_bound; lia.
Qed.

Lemma ipv4ToBytes_ip host ip : ipv4ToBytes host = Some ip -> is_ip ip.
Proof.
  unfold ipv4ToBytes. destruct (negb _) eqn:El; [done|]. cbn [orb]. destruct (existsb _ _) eqn:Ee; [done|].
  intros [= <-]. apply negb_false_iff, Nat.eqb_eq in El. split; [by rewrite length_fmap|].
  apply Forall_fmap, Forall_forall. intros x Hx. cbn.
  assert (in_octet x = true) as Ho.
  { destruct (in_octet x) eqn:E; [done|]. assert (existsb (fun n => negb (in_octet n)) (Number <$> split_on 46 host) = true).
    { apply existsb_exists. exists x. split; [by apply list_elem_of_In|by rewrite E]. } congruence. }
  apply in_octet_byte, Ho.
Qed.

Lemma uint16_port pre p rest : is_port p -> uint16_at (pre ++ port_bytes p ++ rest) (length pre) = p.
Proof.
  intros Hp. rewrite port_bytes_val by done. unfold uint16_at, byte_at. cbn [app]. rewrite list_lookup_middle by done.
  rewrite lookup_app_r by lia. replace (S (length pre) - length pre)%nat with 1%nat by lia. cbn. by apply port_value.
Qed.

Lemma toBytesAscii_bytes host : Forall is_byte host -> toBytesAscii host = host.
Proof.
  induction 1 as [|u s Hu _ IH]; [done|]. unfold toBytesAscii in *. rewrite fmap_cons, IH. f_equal. change 255 with (Z.ones 8).
  rewrite Z.land_ones by lia. by apply Z.mod_small.
Qed.

(** The form in which a host travels: an address in decimal, a name as it is. *)
Definition canonical_host (host : jsstr) : jsstr :=
  if isIpv4 host then dotted (default [] (ipv4ToBytes host)) else host.

(** The hosts a SOCKS4 request can carry: an address outside 0.0.0.0/24,
    which marks a name, or a name without NUL. *)
Definition socks4_host (host : jsstr) : Prop :=
  match (if isIpv4 host then ipv4ToBytes host else None) with
  | Some ip => take 3 ip <> [0; 0; 0] \/ ip = [0; 0; 0; 0]
  | None => Forall (fun u => 1 <= u < 256) host
  end.

Lemma socks4_decode_ip cmd port ip : is_byte cmd -> is_port port -> is_ip ip ->
  take 3 ip <> [0; 0; 0] \/ ip = [0; 0; 0; 0] ->
  decodeSocks4Request ([4; cmd] ++ port_bytes port ++ ip ++ [0]) = Ok (Some (Request cmd port (dotted ip) 9)).
Proof.
  intros Hc Hp [Hl Hb] Hm. destruct ip as [|a [|b [|c [|d []]]]]; try discriminate Hl.
  assert (Hpv := uint16_port [4; cmd] port ([a; b; c; d] ++ [0]) Hp). cbn [length] in Hpv.
  unfold decodeSocks4Request. rewrite Hpv. rewrite port_bytes_val by done. cbn -[ipv4_string dotted].
  destruct (_ && _) eqn:E; cbn [negb]; [|by rewrite ipv4_string_dotted]. exfalso.
  rewrite !andb_true_iff, negb_true_iff, !Z.eqb_eq, Z.eqb_neq in E. destruct E as (((-> & ->) & ->) & Hd).
  destruct Hm as [Hm|[= ->]]; done.
Qed.

Lemma index_of_nul name rest : Forall (fun u => 1 <= u < 256) name -> index_of 0 (name ++ 0 :: rest) = Some (length name).
Proof. intros Hn. apply index_of_app. intros Hin. rewrite Forall_forall in Hn. specialize (Hn _ Hin). cbn in Hn. lia. Qed.

Lemma socks4_decode_name cmd port name : is_byte cmd -> is_port port -> Forall (fun u => 1 <= u < 256) name ->
  decodeSocks4Request ([4; cmd] ++ port_bytes port ++ [0; 0; 0; 1] ++ [0] ++ name ++ [0]) =
  Ok (Some (Request cmd port name (10 + length name))).
Proof.
  intros Hc Hp Hn. assert (Hpv := uint16_port [4; cmd] port ([0; 0; 0; 1] ++ [0] ++ name ++ [0]) Hp). cbn [length] in Hpv.
  unfold decodeSocks4Request. rewrite Hpv. rewrite port_bytes_val by done. cbn.
  unfold nulAfter. cbn. rewrite drop_0, index_of_nul by done. cbn.
  unfold subarray. cbn. rewrite take_app_length. do 3 f_equal. lia.
Qed.

Lemma socks5_decode_name ver cmd port name : is_port port -> (length name < 256)%nat ->
  let bs := [ver; cmd; 0; SOCKS5_ATYP_DOMAIN; Z.of_nat (length name)] ++ name ++ port_bytes port in
  decodeSocks5Address bs 3 = Ok (Some (name, (5 + length name)%nat)) /\
  uint16_at bs (5 + length name) = port /\ length bs = (7 + length name)%nat.
Proof.
  intros Hp Hl bs.
  assert (Hpv := uint16_port ([ver; cmd; 0; SOCKS5_ATYP_DOMAIN; Z.of_nat (length name)] ++ name) port [] Hp).
  rewrite app_nil_r, <-app_assoc in Hpv. rewrite length_app in Hpv.
  assert (length bs = (7 + length name)%nat) as Hbs.
  { unfold bs. rewrite port_bytes_val by done. rewrite !length_app. cbn. lia. }
  split; [|split; [exact Hpv|exact Hbs]].
  unfold decodeSocks5Address. change (byte_at bs 3) with 3. change (byte_at bs (3 + 1)) with (Z.of_nat (length name)). 
  change (3 =? SOCKS5_ATYP_IPV4) with false. change (3 =? SOCKS5_ATYP_DOMAIN) with true. cbv iota zeta.
  rewrite Hbs, Nat2Z.id. rewrite !(proj2 (Nat.ltb_ge _ _)) by lia.
  unfold subarray, bs, toStringAscii. cbn. by rewrite take_app_length.
Qed.

Lemma reply5_decode rep port ip : is_port port -> is_ip ip ->
  decodeSocks5Reply ([5; rep; 0; SOCKS5_ATYP_IPV4] ++ ip ++ port_bytes port) = Ok (Some (Reply5 rep (dotted ip) port 10)).
Proof.
  intros Hp [Hl _]. assert (Hpv := uint16_port ([5; rep; 0; SOCKS5_ATYP_IPV4] ++ ip) port [] Hp).
  destruct ip as [|a [|b [|c [|d []]]]]; try discriminate Hl. rewrite app_nil_r, <-app_assoc in Hpv. cbn [length app] in Hpv.
  unfold decodeSocks5Reply. rewrite port_bytes_val in * by done. cbn [app] in *. cbn -[ipv4_string dotted uint16_at].
  by rewrite Hpv, ipv4_string_dotted.
Qed.

Lemma reply4_decode granted port ip : is_port port -> is_ip ip ->
  decodeSocks4Reply ([0; if granted : bool then SOCKS4_GRANTED else SOCKS4_REJECTED] ++ port_bytes port ++ ip) =
  Some (Reply4 granted port (dotted ip) 8).
Proof.
  intros Hp [Hl _]. assert (Hpv := uint16_port [0; if granted : bool then SOCKS4_GRANTED else SOCKS4_REJECTED] port ip Hp).
  destruct ip as [|a [|b [|c [|d []]]]]; try discriminate Hl. cbn [length] in Hpv.
  unfold decodeSocks4Reply. rewrite Hpv. rewrite port_bytes_val in * by done. cbn -[ipv4_string dotted].
  rewrite ipv4_string_dotted by done. by destruct granted.
Qed.

Lemma zero_ip : is_ip [0; 0; 0; 0].
Proof. split; [done|]. by repeat constructor. Qed.

(** The address a reply carries for a host. *)
Definition reply_ip (host : jsstr) : bytes := default [0; 0; 0; 0] (ipv4ToBytes host).

Lemma reply_ip_ok host : is_ip (reply_ip host).
Proof. unfold reply_ip. destruct (ipv4ToBytes host) eqn:E; [by eapply ipv4ToBytes_ip|apply zero_ip]. Qed.

Lemma to_uint8_byte b : is_byte b -> to_uint8 b = b.
Proof. apply Z.mod_small. Qed.

Lemma methods_bytes ms : Forall is_byte ms -> to_uint8 <$> ms = ms.
Proof. induction 1 as [|m ms Hm _ IH]; [done|]. cbn. by rewrite IH, to_uint8_byte. Qed.
(** A host and port a SOCKS5 request can carry. *)
Definition socks5_dest host port : Prop := Forall is_byte host /\ (length host < 256)%nat /\ is_port port.

Lemma decode5_request cmd host port extra : is_byte cmd -> socks5_dest host port ->
  decodeSocks5Request (encodeSocks5Request cmd host port ++ extra) =
  Ok (Some (Request cmd port host (length (encodeSocks5Request cmd host port)))).
Proof.
  intros Hc (Hh & Hl & Hp). apply (framed_more _ rq_consumed).
  unfold encodeSocks5Request. rewrite toBytesAscii_bytes, !to_uint8_byte by (done || unfold is_byte; lia).
  destruct (socks5_decode_name 5 cmd port host Hp Hl) as (Ha & Hpv & Hlen). cbv zeta in *.
  unfold decodeSocks5Request. rewrite Hlen, Ha. cbn [mbind outcome_bind]. rewrite Hpv. cbn. do 3 f_equal. lia.
Qed.

Lemma decode5_greeting ms extra : Forall is_byte ms -> (length ms < 256)%nat ->
  decodeSocks5Greeting (encodeSocks5Greeting ms ++ extra) = Ok (Some (Greeting ms (2 + length ms))).
Proof.
  intros Hms Hl. apply (framed_more _ gr_consumed). unfold encodeSocks5Greeting, decodeSocks5Greeting.
  rewrite methods_bytes, to_uint8_byte by (done || unfold is_byte; lia). cbn -[Nat.ltb Nat.add Z.of_nat]. rewrite Nat2Z.id.
  change (length (5 :: Z.of_nat (length ms) :: ms)) with (2 + length ms)%nat. rewrite Nat.ltb_irrefl.
  unfold subarray. cbn. by rewrite firstn_all.
Qed.

Lemma decode4_request cmd host port extra : is_byte cmd -> is_port port -> socks4_host host ->
  decodeSocks4Request (encodeSocks4Request cmd host port ++ extra) =
  Ok (Some (Request cmd port (canonical_host host) (length (encodeSocks4Request cmd host port)))).
Proof.
  intros Hc Hp Hh. apply (framed_more _ rq_consumed). unfold encodeSocks4Request, canonical_host, socks4_host in *.
  rewrite to_uint8_byte by done. destruct (isIpv4 host) eqn:Ei.
  - destruct (ipv4ToBytes host) as [ip|] eqn:Eip; [|unfold isIpv4 in Ei; rewrite Eip, andb_false_r in Ei; done].
    pose proof (ipv4ToBytes_ip _ _ Eip) as Hip. rewrite socks4_decode_ip by done.
    rewrite port_bytes_val by done. do 3 f_equal. destruct Hip as [Hl _]. by destruct ip as [|? [|? [|? [|? []]]]].
  - rewrite toBytesAscii_bytes by (eapply Forall_impl; [exact Hh|]; unfold is_byte; cbn; lia).
    rewrite socks4_decode_name by done. rewrite port_bytes_val by done. do 3 f_equal. cbn. rewrite length_app. cbn. lia.
Qed.
End Codec.

(* ------------------------------------------------------------------ *)
(** ** The properties *)

Open Scope Z_scope.

(** a SOCKS4/4a request decodes to the command, port and host it was
    encoded from, whatever follows it, and uses exactly its bytes; an
    address comes back in decimal. *)
Theorem socks4_request_roundtrip cmd host port rest :
  is_byte cmd -> is_port port -> socks4_host host ->
  let bs := encodeSocks4Request cmd host port in
  decodeSocks4Request (bs ++ rest) = Ok (Some (Request cmd port (canonical_host host) (length bs))).
Proof.
  intros Hc Hp Hh bs. by apply decode4_request.
Qed.

(** a SOCKS5 request with a name of at most 255 bytes decodes to
    what it was encoded from, whatever follows it. *)
Theorem socks5_request_roundtrip cmd host port rest :
  is_byte cmd -> is_port port -> Forall is_byte host -> (length host < 256)%nat ->
  let bs := encodeSocks5Request cmd host port in
  decodeSocks5Request (bs ++ rest) = Ok (Some (Request cmd port host (length bs))).
Proof.
  intros Hc Hp Hh Hl bs. by apply decode5_request.
Qed.

(** greetings, method selections and the replies of both versions
    decode to what they were encoded from, whatever follows them. *)
Theorem socks_replies_roundtrip ms m rep granted host port rest :
  Forall is_byte ms -> (length ms < 256)%nat -> is_byte m -> is_byte rep -> is_port port ->
  decodeSocks5Greeting (encodeSocks5Greeting ms ++ rest) = Ok (Some (Greeting ms (2 + length ms))) /\
  decodeSocks5MethodSelection (encodeSocks5MethodSelection m ++ rest) = Some (Selection m 2) /\
  decodeSocks5Reply (encodeSocks5Reply rep host port ++ rest) = Ok (Some (Reply5 rep (dotted (reply_ip host)) port 10)) /\
  decodeSocks4Reply (encodeSocks4Reply granted port host ++ rest) = Some (Reply4 granted port (dotted (reply_ip host)) 8).
Proof.
  intros Hms Hl Hm Hrep Hp. split_and!.
  - by apply decode5_greeting.
  - assert (H : Ok (decodeSocks5MethodSelection (encodeSocks5MethodSelection m ++ rest)) = Ok (Some (Selection m 2))); [|exact (Ok_inj _ _ H)].
    apply (framed_more (fun bs => Ok (decodeSocks5MethodSelection bs)) sl_consumed). unfold encodeSocks5MethodSelection.
    by rewrite to_uint8_byte.
  - apply (framed_more _ r5_consumed). unfold encodeSocks5Reply. rewrite to_uint8_byte by done. exact (reply5_decode rep port (reply_ip host) Hp (reply_ip_ok host)).
  - assert (H : Ok (decodeSocks4Reply (encodeSocks4Reply granted port host ++ rest)) =
      Ok (Some (Reply4 granted port (dotted (reply_ip host)) 8))); [|exact (Ok_inj _ _ H)].
    apply (framed_more (fun bs => Ok (decodeSocks4Reply bs)) r4_consumed). f_equal. exact (reply4_decode granted port (reply_ip host) Hp (reply_ip_ok host)).
Qed.

(** every decoder tracks the boundary of its message: it gives
    nothing until exactly the bytes it reports as consumed have arrived,
    then the message, and later bytes do not change it. *)
Theorem socks_decoders_framed bs n :
  (forall r, decodeSocks4Request bs = Ok (Some r) ->
     (rq_consumed r <= length bs)%nat /\ decodeSocks4Request (take (rq_consumed r) bs) = Ok (Some r) /\
     ((n < rq_consumed r)%nat -> decodeSocks4Request (take n bs) = Ok None)) /\
  (forall r, decodeSocks5Request bs = Ok (Some r) ->
     (rq_consumed r <= length bs)%nat /\ decodeSocks5Request (take (rq_consumed r) bs) = Ok (Some r) /\
     ((n < rq_consumed r)%nat -> decodeSocks5Request (take n bs) = Ok None)) /\
  (forall g, decodeSocks5Greeting bs = Ok (Some g) ->
     (gr_consumed g <= length bs)%nat /\ decodeSocks5Greeting (take (gr_consumed g) bs) = Ok (Some g) /\
     ((n < gr_consumed g)%nat -> decodeSocks5Greeting (take n bs) = Ok None)) /\
  (forall r, decodeSocks5Reply bs = Ok (Some r) ->
     (r5_consumed r <= length bs)%nat /\ decodeSocks5Reply (take (r5_consumed r) bs) = Ok (Some r) /\
     ((n < r5_consumed r)%nat -> decodeSocks5Reply (take n bs) = Ok None)).
Proof.
  split_and!; intros r Hr; [exact (framed_boundary decodeSocks4Request rq_consumed bs r n Hr)
    |exact (framed_boundary decodeSocks5Request rq_consumed bs r n Hr)
    |exact (framed_boundary decodeSocks5Greeting gr_consumed bs r n Hr)
    |exact (framed_boundary decodeSocks5Reply r5_consumed bs r n Hr)].
Qed.

Lemma socks4_request_roundtrip_witness :
  decodeSocks4Request (encodeSocks4Request 1 (js "example.org") 443 ++ [9; 9]) =
    Ok (Some (Request 1 443 (js "example.org") 21)).
Proof.
  apply (socks4_request_roundtrip 1 (js "example.org") 443 [9; 9]); [done|done|].
  change (Forall (fun u => 1 <= u < 256) (js "example.org")). repeat constructor; done.
Defined.

Lemma socks5_request_roundtrip_witness :
  decodeSocks5Request (encodeSocks5Request 1 (js "example.org") 443 ++ [9; 9]) =
    Ok (Some (Request 1 443 (js "example.org") 18)).
Proof.
  apply (socks5_request_roundtrip 1 (js "example.org") 443 [9; 9]); [done|done| |cbn; lia].
  repeat constructor; done.
Defined.

Lemma socks_replies_roundtrip_witness :
  decodeSocks5Greeting (encodeSocks5Greeting [0; 2] ++ [7]) = Ok (Some (Greeting [0; 2] 4)) /\
  decodeSocks5MethodSelection (encodeSocks5MethodSelection 255 ++ [7]) = Some (Selection 255 2) /\
  decodeSocks5Reply (encodeSocks5Reply 0 (js "10.0.0.1") 80 ++ [7]) = Ok (Some (Reply5 0 (dotted (reply_ip (js "10.0.0.1"))) 80 10)) /\
  decodeSocks4Reply (encodeSocks4Reply true 80 (js "10.0.0.1") ++ [7]) = Some (Reply4 true 80 (dotted (reply_ip (js "10.0.0.1"))) 8).
Proof.
  apply (socks_replies_roundtrip [0; 2] 255 0 true (js "10.0.0.1") 80 [7]); try done; [|cbn; lia].
  repeat constructor; done.
Defined.

Lemma socks_decoders_framed_witness :
  decodeSocks5Greeting [5; 1; 0; 99] = Ok (Some (Greeting [0] 3)) /\ decodeSocks5Greeting (take 2 [5; 1; 0; 99]) = Ok None.
Proof.
  destruct (socks_decoders_framed [5; 1; 0; 99] 2) as (_ & _ & Hg & _).
  destruct (Hg (Greeting [0] 3) eq_refl) as (_ & _ & Hw). split; [reflexivity|]. apply Hw. cbn. lia.
Defined.
