(* ===== verification/Proxy.v ===== *)
(** * The SOCKS listener and the onward dials of [examples/proxy/lib]

    A connection is the list of chunks its reader will give; what a
    handler does to the world is a list of actions.  [dial] connects to a
    destination and gives the bytes its peer sends, or fails: an argument
    of the listener, and for the SOCKS bridges defined here on top of the
    raw connection [dialRaw].  Log messages are left out. *)

From S2P Require Import Prelude JsString JsNumber Socks.
Open Scope Z_scope.

(* ------------------------------------------------------------------ *)
(** ** [byte-utils.js] *)

(** A reader is the chunks that are left; at the end [read] gives [done]. *)
Section Accumulate.
Context {D : Type} (tryDecode : bytes -> outcome (option D)) (consumed : D -> nat).

(** The decoded value, [buf] and [rest], and the chunks left unread. *)
Fixpoint accumulateUntil (buf : bytes) (reader : list bytes) : outcome (option (D * bytes * bytes) * list bytes) :=
  decoded ← tryDecode buf;
  match decoded with
  | Some d => Ok (Some (d, buf, drop (consumed d) buf), reader)
  | None =>
    match reader with
    | [] => Ok (None, [])
    | value :: reader => accumulateUntil (buf ++ value) reader
    end
  end.
End Accumulate.

(* ------------------------------------------------------------------ *)
(** ** Actions and handlers *)

(** What a handler does on the client's connection.  [Relay p cs] pumps:
    what is pumped to the other side is [p], then the chunks [cs] still in
    the client's stream. *)
Inductive action :=
| WriteBytes (data : bytes)
| Dial (host : jsstr) (port : Z)
| Relay (prefix : bytes) (pending : list bytes)
| CancelReadable.

(** A handler's actions, and whether it threw at the end. *)
Definition handled : Type := list action * outcome unit.

Definition SOCKS5_NO_AUTH : Z := 0.
Definition SOCKS5_NO_ACCEPTABLE_METHOD : Z := 0xff.

Section Listener.
(** [dial(destination)]: whether it connects. *)
Variable dial : jsstr -> Z -> bool.

Definition writeAndClose (data : bytes) : list action := [WriteBytes data; CancelReadable].

Definition zero_host : jsstr := js "0.0.0.0".

Definition handleSocks4 (reader : list bytes) (initial : bytes) : handled :=
  match accumulateUntil decodeSocks4Request rq_consumed initial reader with
  | Throw c e => ([], Throw c e)
  | Ok (None, _) => ([], Ok tt)
  | Ok (Some (Request cmd port host _, _, _), reader) =>
    if negb (cmd =? SOCKS4_CMD_CONNECT) then (writeAndClose (encodeSocks4Reply false 0 zero_host), Ok tt) else
    if negb (dial host port) then (Dial host port :: writeAndClose (encodeSocks4Reply false 0 zero_host), Ok tt) else
    ([Dial host port; WriteBytes (encodeSocks4Reply true port host); Relay [] reader], Ok tt)
  end.

Definition handleSocks5 (reader : list bytes) (initial : bytes) : handled :=
  match accumulateUntil decodeSocks5Greeting gr_consumed initial reader with
  | Throw c e => ([], Throw c e)
  | Ok (None, _) => ([], Ok tt)
  | Ok (Some (Greeting methods _, _, rest), reader) =>
    let noAuth := bool_decide (SOCKS5_NO_AUTH ∈ methods) in
    let sel := WriteBytes (encodeSocks5MethodSelection (if noAuth then SOCKS5_NO_AUTH else SOCKS5_NO_ACCEPTABLE_METHOD)) in
    if negb noAuth then ([sel], Ok tt) else
    match accumulateUntil decodeSocks5Request rq_consumed rest reader with
    | Throw c e => ([sel], Throw c e)
    | Ok (None, _) => ([sel], Ok tt)
    | Ok (Some (Request cmd port host _, _, _), reader) =>
      if negb (cmd =? SOCKS5_CMD_CONNECT)
      then (sel :: writeAndClose (encodeSocks5Reply SOCKS5_REP_COMMAND_NOT_SUPPORTED zero_host 0), Ok tt) else
      if negb (dial host port)
      then (sel :: Dial host port :: writeAndClose (encodeSocks5Reply SOCKS5_REP_GENERAL_FAILURE zero_host 0), Ok tt) else
      ([sel; Dial host port; WriteBytes (encodeSocks5Reply SOCKS5_REP_SUCCEEDED zero_host 0); Relay [] reader], Ok tt)
    end
  end.

(** The first byte, without consuming it. *)
Definition probe (buf : bytes) : outcome (option Z) :=
  Ok (if (1 <=? length buf)%nat then Some (byte_at buf 0) else None).

Definition handleConnection (reader : list bytes) : handled :=
  match accumulateUntil probe (fun _ => 0%nat) [] reader with
  | Throw c e => ([], Throw c e)
  | Ok (None, _) => ([], Ok tt)
  | Ok (Some (version, buf, _), reader) =>
    if version =? 4 then handleSocks4 reader buf else
    if version =? 5 then handleSocks5 reader buf else
    ([CancelReadable], Ok tt)
  end.

(** [createSocksListener] catches what a connection throws. *)
Definition socks_listener (reader : list bytes) : list action := (handleConnection reader).1.
End Listener.

(* ------------------------------------------------------------------ *)
(** ** Onward dials *)

Section Onward.
(** What the peer of a raw connection will send, or a failure to connect. *)
Variable dialRaw : jsstr -> Z -> outcome (list bytes).

(** A connection: what was written on it, and the chunks its reader gives. *)
Record connection := Connection { cn_written : list bytes; cn_readable : list bytes }.

(** [prependTo]: leftover bytes come first. *)
Definition prependTo (readable : list bytes) (leftover : bytes) : list bytes :=
  match leftover with [] => readable | _ => leftover :: readable end.

Definition readExact (reader : list bytes) (n : nat) : outcome (bytes * bytes * list bytes) :=
  r ← accumulateUntil (fun buf => Ok (if (n <=? length buf)%nat then Some tt else None)) (fun _ => n) [] reader;
  match r with
  | (None, _) => Throw ErrError "onward: connection closed during handshake"
  | (Some (_, buf, rest), reader) => Ok (take n buf, rest, reader)
  end.

Definition dialViaSocks5 (dest_host : jsstr) (dest_port : Z) (host : jsstr) (port : Z) : outcome connection :=
  reader ← dialRaw host port;
  let hello := encodeSocks5Greeting [0] in
  g ← accumulateUntil (fun bs => Ok (decodeSocks5MethodSelection bs)) sl_consumed [] reader;
  match g with
  | (None, _) => Throw ErrError "onward: SOCKS5 proxy closed the connection during the greeting"
  | (Some (Selection method _, _, rest), reader) =>
    if negb (method =? 0) then Throw ErrError "onward: SOCKS5 proxy rejected our no auth method" else
    let req := encodeSocks5Request SOCKS5_CMD_CONNECT dest_host dest_port in
    result ← accumulateUntil decodeSocks5Reply r5_consumed rest reader;
    match result with
    | (None, _) => Throw ErrError "onward: SOCKS5 proxy closed the connection during CONNECT"
    | (Some (reply, _, rest), reader) =>
      if negb (r5_rep reply =? SOCKS5_REP_SUCCEEDED) then Throw ErrError "onward: SOCKS5 proxy refused the connection"
      else Ok (Connection [hello; req] (prependTo reader rest))
    end
  end.

Definition dialViaSocks4 (dest_host : jsstr) (dest_port : Z) (host : jsstr) (port : Z) : outcome connection :=
  reader ← dialRaw host port;
  let req := encodeSocks4Request SOCKS4_CMD_CONNECT dest_host dest_port in
  r ← readExact reader 8;
  let '(taken, rest, reader) := r in
  match decodeSocks4Reply taken with
  | None => Throw ErrTypeError "cannot read property 'granted' of null"
  | Some reply =>
    if negb (r4_granted reply) then Throw ErrError "onward SOCKS4 proxy rejected the connection"
    else Ok (Connection [req] (prependTo reader rest))
  end.

Definition dialDirect (dest_host : jsstr) (dest_port : Z) : outcome connection :=
  reader ← dialRaw dest_host dest_port; Ok (Connection [] reader).
End Onward.
