(* ===== verification/ProxyProps.v ===== *)
(** * What the SOCKS listener and the onward dials promise

    A handshake comes out the same however the transport cuts the bytes
    into chunks; listener and dial agree on the destination; what a
    client sends behind its request before the reply is not relayed when
    it shares a chunk with the request. *)

From S2P Require Import Prelude JsString JsNumber Socks SocksProps Proxy.
Open Scope nat_scope.

Section Accumulate.
Context {D : Type} (decode : bytes -> outcome (option D)) (consumed : D -> nat) `{!Framed decode consumed}.

(** The three ends of a handshake step, by what all the bytes decode to. *)
Lemma accumulate_some buf reader d : decode (buf ++ concat reader) = Ok (Some d) ->
  exists b rest, accumulateUntil decode consumed buf reader = Ok (Some (d, b, drop (consumed d) b), rest) /\
    b ++ concat rest = buf ++ concat reader /\ consumed d <= length b.
Proof.
  revert buf. induction reader as [|c reader IH]; intros buf Hd; cbn in Hd |- *.
  - rewrite app_nil_r in Hd |- *. rewrite Hd. cbn. exists buf, []. rewrite app_nil_r.
    split_and!; [done|done|by eapply framed_bound].
  - destruct (decode buf) as [[d'|]|k e] eqn:E; cbn.
    + pose proof (framed_more decode consumed _ (c ++ concat reader) _ E) as Hm. rewrite Hd in Hm. injection Hm as ->.
      exists buf, (c :: reader). split_and!; [done|done|by eapply framed_bound].
    + destruct (IH (buf ++ c)) as (b & rest & -> & Hb & Hl); [by rewrite <-app_assoc|].
      exists b, rest. split_and!; [done|by rewrite Hb, <-app_assoc|done].
    + pose proof (framed_throw _ (c ++ concat reader) _ _ E) as Hm. by rewrite Hd in Hm.
Qed.

Lemma accumulate_none buf reader : decode (buf ++ concat reader) = Ok None ->
  accumulateUntil decode consumed buf reader = Ok (None, []).
Proof.
  revert buf. induction reader as [|c reader IH]; intros buf Hd; cbn in Hd |- *.
  - rewrite app_nil_r in Hd. by rewrite Hd.
  - destruct (decode buf) as [[d'|]|k e] eqn:E; cbn.
    + pose proof (framed_more decode consumed _ (c ++ concat reader) _ E) as Hm. by rewrite Hd in Hm.
    + apply IH. by rewrite <-app_assoc.
    + pose proof (framed_throw _ (c ++ concat reader) _ _ E) as Hm. by rewrite Hd in Hm.
Qed.

Lemma accumulate_throw buf reader c e : decode (buf ++ concat reader) = Throw c e ->
  accumulateUntil decode consumed buf reader = Throw c e.
Proof.
  revert buf. induction reader as [|ch reader IH]; intros buf Hd; cbn in Hd |- *.
  - rewrite app_nil_r in Hd. by rewrite Hd.
  - destruct (decode buf) as [[d'|]|k m] eqn:E; cbn.
    + pose proof (framed_more decode consumed _ (ch ++ concat reader) _ E) as Hm. by rewrite Hd in Hm.
    + apply IH. by rewrite <-app_assoc.
    + pose proof (framed_throw _ (ch ++ concat reader) _ _ E) as Hm. rewrite Hd in Hm. by injection Hm as <- <-.
Qed.

(** A message at the front, then [more]: the rest and the unread chunks
    are [more]. *)
Lemma accumulate_message buf reader bs more d : buf ++ concat reader = bs ++ more ->
  decode bs = Ok (Some d) -> consumed d = length bs ->
  exists b rest, accumulateUntil decode consumed buf reader = Ok (Some (d, b, drop (consumed d) b), rest) /\
    drop (consumed d) b ++ concat rest = more.
Proof.
  intros Hb Hd Hl. destruct (accumulate_some buf reader d) as (b & rest & Ha & Hs & Hlen).
  { rewrite Hb. by apply (framed_more decode consumed). }
  exists b, rest. split; [done|]. rewrite Hb in Hs. rewrite Hl in *.
  assert (drop (length bs) (b ++ concat rest) = more) as <- by (by rewrite Hs, drop_app_length).
  by rewrite drop_app_le.
Qed.
End Accumulate.

(** The first byte, whatever empty chunks come before it. *)
Lemma probe_first reader v more : concat reader = v :: more ->
  exists b rest, accumulateUntil probe (fun _ => 0) [] reader = Ok (Some (v, b, b), rest) /\ b ++ concat rest = concat reader.
Proof.
  intros Hr. enough (forall buf, (buf = [] \/ exists t, buf = v :: t) -> (exists t, buf ++ concat reader = v :: t) ->
    exists b rest, accumulateUntil probe (fun _ => 0) buf reader = Ok (Some (v, b, b), rest) /\ b ++ concat rest = buf ++ concat reader) as H.
  { apply H; [by left|]. exists more. exact Hr. }
  clear Hr. induction reader as [|c reader IH]; intros buf Hb [t Ht]; cbn in Ht |- *.
  - rewrite app_nil_r in Ht. subst buf. cbn. by exists (v :: t), [].
  - destruct Hb as [->|[t' ->]]; cbn.
    + destruct c as [|u c]; cbn in Ht.
      * apply IH; [by left|]. by exists t.
      * destruct (IH (u :: c)) as (b & rest & Hm & Hs); [right; exists c; congruence|by exists t|].
        exists b, rest. split; [|done]. injection Ht as -> Ht. exact Hm.
    + exists (v :: t'), (c :: reader). done.
Qed.

#[export] Instance take_framed n : Framed (fun buf : bytes => Ok (if n <=? length buf then Some tt else None)) (fun _ => n).
Proof.
  constructor; [| |done].
  - intros bs []. destruct (Nat.leb_spec n (length bs)); [done|discriminate].
  - intros bs bs' []. destruct (Nat.leb_spec n (length bs)) as [Hl|]; [|discriminate]. intros _ Ht.
    pose proof (same_prefix_length _ _ _ Ht Hl) as Hl'. by rewrite (proj2 (Nat.leb_le _ _) Hl').
Qed.

(* ------------------------------------------------------------------ *)
(** ** Handshakes *)

Section Handshake.
Open Scope Z_scope.
Variable dial : jsstr -> Z -> bool.
Implicit Types (host : jsstr) (port : Z) (reader : list bytes) (extra : bytes).

(** What the listener answers a SOCKS5 CONNECT. *)
Definition connect5 host port : list action :=
  if dial host port
  then [WriteBytes [5; 0]; Dial host port; WriteBytes (encodeSocks5Reply SOCKS5_REP_SUCCEEDED zero_host 0)]
  else [WriteBytes [5; 0]; Dial host port; WriteBytes (encodeSocks5Reply SOCKS5_REP_GENERAL_FAILURE zero_host 0); CancelReadable].

Lemma socks5_connect_ok reader ms host port extra :
  Forall is_byte ms -> (length ms < 256)%nat -> 0 ∈ ms -> socks5_dest host port ->
  concat reader = encodeSocks5Greeting ms ++ encodeSocks5Request 1 host port ++ extra ->
  exists lost pending, extra = lost ++ concat pending /\
    handleConnection dial reader = (connect5 host port ++ (if dial host port then [Relay [] pending] else []), Ok tt).
Proof.
  intros Hms Hl H0 Hd Hr. unfold handleConnection.
  destruct (probe_first reader 5 (drop 1 (concat reader))) as (b & rest & -> & Hb); [by rewrite Hr|]. cbn [Z.eqb].
  change (5 =? 4) with false. change (5 =? 5) with true. cbv iota. unfold handleSocks5.
  destruct (accumulate_message decodeSocks5Greeting gr_consumed b rest (encodeSocks5Greeting ms)
    (encodeSocks5Request 1 host port ++ extra) (Greeting ms (2 + length ms))) as (b1 & rest1 & -> & Hb1).
  { by rewrite Hb. }
  { pose proof (decode5_greeting ms [] Hms Hl) as H. by rewrite app_nil_r in H. }
  { cbn. unfold encodeSocks5Greeting. cbn. by rewrite length_fmap. }
  rewrite bool_decide_eq_true_2 by done. cbn [negb].
  destruct (accumulate_message decodeSocks5Request rq_consumed (drop (gr_consumed (Greeting ms (2 + length ms))) b1) rest1
    (encodeSocks5Request 1 host port) extra (Request 1 port host (length (encodeSocks5Request 1 host port))))
    as (b2 & rest2 & -> & Hb2).
  { exact Hb1. }
  { pose proof (decode5_request 1 host port [] ltac:(done) Hd) as H. by rewrite app_nil_r in H. }
  { done. }
  exists (drop (length (encodeSocks5Request 1 host port)) b2), rest2. split; [symmetry; exact Hb2|].
  cbn [rq_cmd]. change (negb (1 =? SOCKS5_CMD_CONNECT)) with false. cbv iota. unfold connect5. by destruct (dial host port).
Qed.

(** What the listener answers a SOCKS4 CONNECT. *)
Definition connect4 host port : list action :=
  if dial host port
  then [Dial host port; WriteBytes (encodeSocks4Reply true port host)]
  else [Dial host port; WriteBytes (encodeSocks4Reply false 0 zero_host); CancelReadable].

Lemma socks4_connect_ok reader host port extra : is_port port -> socks4_host host ->
  concat reader = encodeSocks4Request 1 host port ++ extra ->
  exists lost pending, extra = lost ++ concat pending /\
    handleConnection dial reader =
    (connect4 (canonical_host host) port ++ (if dial (canonical_host host) port then [Relay [] pending] else []), Ok tt).
Proof.
  intros Hp Hh Hr. unfold handleConnection.
  assert (exists more, concat reader = 4 :: more) as [more Hmore].
  { rewrite Hr. unfold encodeSocks4Request. destruct (if isIpv4 host then _ else _); by eexists. }
  destruct (probe_first reader 4 more Hmore) as (b & rest & -> & Hb).
  change (4 =? 4) with true. cbv iota. unfold handleSocks4.
  destruct (accumulate_message decodeSocks4Request rq_consumed b rest (encodeSocks4Request 1 host port)
    extra (Request 1 port (canonical_host host) (length (encodeSocks4Request 1 host port)))) as (b1 & rest1 & -> & Hb1).
  { by rewrite Hb. }
  { pose proof (decode4_request 1 host port [] ltac:(done) Hp Hh) as H. by rewrite app_nil_r in H. }
  { done. }
  eexists _, rest1. split; [symmetry; exact Hb1|].
  change (negb (1 =? SOCKS4_CMD_CONNECT)) with false. cbv iota. unfold connect4. by destruct (dial (canonical_host host) port).
Qed.

(** The bytes a handler writes to its client. *)
Definition sent (acts : list action) : bytes :=
  concat ((fun a => match a with WriteBytes d => d | _ => [] end) <$> acts).

Lemma concat_prepend readable leftover : concat (prependTo readable leftover) = leftover ++ concat readable.
Proof. by destruct leftover. Qed.
End Handshake.

(* ------------------------------------------------------------------ *)
(** ** The client side *)

Section Client.
Open Scope Z_scope.
Variable dialRaw : jsstr -> Z -> outcome (list bytes).
Implicit Types (host : jsstr) (port : Z) (reader : list bytes) (extra : bytes).

(** A bridge through a SOCKS5 proxy that answers the method and [rep]. *)
Lemma dial5_reply host port proxy_host proxy_port reader rep extra : is_byte rep ->
  dialRaw proxy_host proxy_port = Ok reader ->
  concat reader = [5; 0] ++ encodeSocks5Reply rep zero_host 0 ++ extra ->
  exists readable, concat readable = extra /\
    dialViaSocks5 dialRaw host port proxy_host proxy_port =
    if rep =? 0 then Ok (Connection [encodeSocks5Greeting [0]; encodeSocks5Request 1 host port] readable)
    else Throw ErrError "onward: SOCKS5 proxy refused the connection".
Proof.
  intros Hrep Hd Hr. unfold dialViaSocks5. rewrite Hd. cbn [mbind outcome_bind].
  destruct (accumulate_message (fun bs => Ok (decodeSocks5MethodSelection bs)) sl_consumed [] reader [5; 0]
    (encodeSocks5Reply rep zero_host 0 ++ extra) (Selection 0 2)) as (b & rest & -> & Hb); [done..|].
  cbn [mbind outcome_bind sl_consumed] in *. change (negb (0 =? 0)) with false. cbv iota.
  destruct (accumulate_message decodeSocks5Reply r5_consumed (drop 2 b) rest (encodeSocks5Reply rep zero_host 0) extra
    (Reply5 rep (dotted (reply_ip zero_host)) 0 10)) as (b1 & rest1 & -> & Hb1).
  { exact Hb. }
  { unfold encodeSocks5Reply. rewrite to_uint8_byte by done. apply (reply5_decode rep 0 (reply_ip zero_host)); [done|apply reply_ip_ok]. }
  { unfold encodeSocks5Reply. rewrite port_bytes_val by done. pose proof (proj1 (reply_ip_ok zero_host)) as Hl. unfold reply_ip in Hl.
    rewrite !length_app, Hl. done. }
  cbn [mbind outcome_bind r5_rep r5_consumed] in *.
  exists (prependTo rest1 (drop 10 b1)). split; [by rewrite concat_prepend|].
  change SOCKS5_REP_SUCCEEDED with 0. by destruct (rep =? 0).
Qed.

Lemma dial4_reply host port proxy_host proxy_port reader granted rport rhost extra : is_port rport ->
  dialRaw proxy_host proxy_port = Ok reader ->
  concat reader = encodeSocks4Reply granted rport rhost ++ extra ->
  exists readable, concat readable = extra /\
    dialViaSocks4 dialRaw host port proxy_host proxy_port =
    if granted : bool then Ok (Connection [encodeSocks4Request 1 host port] readable)
    else Throw ErrError "onward SOCKS4 proxy rejected the connection".
Proof.
  intros Hp Hd Hr. unfold dialViaSocks4, readExact. rewrite Hd. cbn [mbind outcome_bind].
  assert (length (encodeSocks4Reply granted rport rhost) = 8%nat) as Hl.
  { unfold encodeSocks4Reply. rewrite port_bytes_val by done. pose proof (proj1 (reply_ip_ok rhost)) as Hl. unfold reply_ip in Hl.
    rewrite !length_app, Hl. done. }
  destruct (accumulate_some (fun buf : bytes => Ok (if (8 <=? length buf)%nat then Some tt else None)) (fun _ => 8%nat) [] reader tt)
    as (b & rest & -> & Hb & Hlb).
  { cbn [app]. rewrite Hr, length_app, Hl. by rewrite (proj2 (Nat.leb_le _ _)) by lia. }
  cbn [mbind outcome_bind]. cbn [app] in Hb.
  assert (take 8 b = encodeSocks4Reply granted rport rhost /\ drop 8 b ++ concat rest = extra) as [-> Hx].
  { rewrite Hr in Hb. apply (f_equal (take 8)) in Hb as H1. apply (f_equal (drop 8)) in Hb as H2.
    rewrite take_app_le in H1 by done. rewrite drop_app_le in H2 by done.
    rewrite <-Hl in H1 at 2. rewrite <-Hl in H2 at 2. by rewrite take_app_length in H1; rewrite drop_app_length in H2. }
  change (decodeSocks4Reply (encodeSocks4Reply granted rport rhost)) with
    (decodeSocks4Reply ([0; if granted then SOCKS4_GRANTED else SOCKS4_REJECTED] ++ port_bytes rport ++ reply_ip rhost)).
  rewrite reply4_decode by (done || apply reply_ip_ok).
  exists (prependTo rest (drop 8 b)). split; [by rewrite concat_prepend|]. by destruct granted.
Qed.
End Client.

(* ------------------------------------------------------------------ *)
(** ** The properties *)

Open Scope Z_scope.

(** a handshake step gives the same message however the bytes are cut
    into chunks: it is what all the bytes decode to, and the buffered rest
    with the unread chunks is what follows the message; it waits for the
    end of the stream, or throws, exactly when all the bytes do. *)
Theorem accumulate_chunking (decode : bytes -> outcome (option request)) buf reader :
  Framed decode rq_consumed ->
  match decode (buf ++ concat reader) with
  | Ok (Some d) => exists b rest,
      accumulateUntil decode rq_consumed buf reader = Ok (Some (d, b, drop (rq_consumed d) b), rest) /\
      drop (rq_consumed d) b ++ concat rest = drop (rq_consumed d) (buf ++ concat reader)
  | Ok None => accumulateUntil decode rq_consumed buf reader = Ok (None, [])
  | Throw c e => accumulateUntil decode rq_consumed buf reader = Throw c e
  end.
Proof.
  intros HF. destruct (decode (buf ++ concat reader)) as [[d|]|c e] eqn:E.
  - destruct (accumulate_some decode rq_consumed buf reader d E) as (b & rest & Ha & Hb & Hl). exists b, rest.
    split; [done|]. by rewrite <-Hb, drop_app_le.
  - by apply accumulate_none.
  - by apply accumulate_throw.
Qed.

(** C16: a SOCKS5 dial and the SOCKS listener agree.  Whatever chunks the
    two directions come in, the listener dials the destination the client
    asked for, and the client gets a connection whose readable side gives
    what follows the handshake, or an error when the listener cannot
    connect. *)
Theorem socks5_bridge dial dialRaw proxy_host proxy_port host port to_server from_server extra :
  socks5_dest host port ->
  concat to_server = encodeSocks5Greeting [0] ++ encodeSocks5Request SOCKS5_CMD_CONNECT host port ->
  dialRaw proxy_host proxy_port = Ok from_server ->
  concat from_server = sent (socks_listener dial to_server) ++ extra ->
  Dial host port ∈ socks_listener dial to_server /\
  exists readable, concat readable = extra /\
  dialViaSocks5 dialRaw host port proxy_host proxy_port =
    if dial host port
    then Ok (Connection [encodeSocks5Greeting [0]; encodeSocks5Request SOCKS5_CMD_CONNECT host port] readable)
    else Throw ErrError "onward: SOCKS5 proxy refused the connection".
Proof.
  intros Hd Hts Hraw Hfs.
  destruct (socks5_connect_ok dial to_server [0] host port []) as (lost & pending & _ & Hc).
  { by repeat constructor. } { cbn. lia. } { by left. } { done. } { by rewrite app_nil_r. }
  unfold socks_listener in *. rewrite Hc in *. cbn [fst] in *. unfold connect5 in *.
  destruct (dial host port).
  - split; [by right; left|].
    destruct (dial5_reply dialRaw host port proxy_host proxy_port from_server 0 extra) as (r & Hr & Hm); [done|done| |].
    { rewrite Hfs. unfold sent. cbn -[encodeSocks5Reply]. by rewrite app_nil_r. }
    by exists r.
  - split; [by right; left|].
    destruct (dial5_reply dialRaw host port proxy_host proxy_port from_server 1 extra) as (r & Hr & Hm); [done|done| |].
    { rewrite Hfs. unfold sent. cbn -[encodeSocks5Reply]. by rewrite app_nil_r. }
    by exists r.
Qed.

(** the same for SOCKS4 and 4a; an address arrives in decimal. *)
Theorem socks4_bridge dial dialRaw proxy_host proxy_port host port to_server from_server extra :
  is_port port -> socks4_host host ->
  concat to_server = encodeSocks4Request SOCKS4_CMD_CONNECT host port ->
  dialRaw proxy_host proxy_port = Ok from_server ->
  concat from_server = sent (socks_listener dial to_server) ++ extra ->
  Dial (canonical_host host) port ∈ socks_listener dial to_server /\
  exists readable, concat readable = extra /\
  dialViaSocks4 dialRaw host port proxy_host proxy_port =
    if dial (canonical_host host) port
    then Ok (Connection [encodeSocks4Request SOCKS4_CMD_CONNECT host port] readable)
    else Throw ErrError "onward SOCKS4 proxy rejected the connection".
Proof.
  intros Hp Hh Hts Hraw Hfs.
  destruct (socks4_connect_ok dial to_server host port []) as (lost & pending & _ & Hc).
  { done. } { done. } { by rewrite app_nil_r. }
  unfold socks_listener in *. rewrite Hc in *. cbn [fst] in *. unfold connect4 in *.
  destruct (dial (canonical_host host) port).
  - split; [by left|].
    destruct (dial4_reply dialRaw host port proxy_host proxy_port from_server true port (canonical_host host) extra)
      as (r & Hr & Hm); [done|done| |].
    { rewrite Hfs. unfold sent. cbn -[encodeSocks4Reply]. by rewrite app_nil_r. }
    by exists r.
  - split; [by left|].
    destruct (dial4_reply dialRaw host port proxy_host proxy_port from_server false 0 zero_host extra)
      as (r & Hr & Hm); [done|done| |].
    { rewrite Hfs. unfold sent. cbn -[encodeSocks4Reply]. by rewrite app_nil_r. }
    by exists r.
Qed.

(** the listener drops what it has buffered behind a request: bytes
    that share a chunk with the SOCKS request never reach the destination,
    the relay is started with nothing but the chunks not read yet. *)
Theorem socks_early_data_lost dial host port extra :
  (socks5_dest host port -> dial host port = true ->
    socks_listener dial [encodeSocks5Greeting [0] ++ encodeSocks5Request SOCKS5_CMD_CONNECT host port ++ extra] =
    [WriteBytes [5; 0]; Dial host port; WriteBytes (encodeSocks5Reply SOCKS5_REP_SUCCEEDED zero_host 0); Relay [] []]) /\
  (is_port port -> socks4_host host -> dial (canonical_host host) port = true ->
    socks_listener dial [encodeSocks4Request SOCKS4_CMD_CONNECT host port ++ extra] =
    [Dial (canonical_host host) port; WriteBytes (encodeSocks4Reply true port (canonical_host host)); Relay [] []]).
Proof.
  split.
  - intros Hd Hdial. unfold socks_listener, handleConnection. cbn [accumulateUntil].
    change (probe []) with (@Ok (option Z) None). cbn [mbind outcome_bind app].
    set (msg := encodeSocks5Request SOCKS5_CMD_CONNECT host port ++ extra).
    change (probe (encodeSocks5Greeting [0] ++ msg)) with (Ok (Some 5)). cbn [mbind outcome_bind fst].
    change (5 =? 4) with false. change (5 =? 5) with true. cbv iota. unfold handleSocks5. cbn [accumulateUntil].
    rewrite (decode5_greeting [0] msg) by (cbn; lia || by repeat constructor). cbn [mbind outcome_bind gr_consumed].
    rewrite bool_decide_eq_true_2 by (by left). change (drop (2 + length [0]) (encodeSocks5Greeting [0] ++ msg)) with msg.
    cbn [negb accumulateUntil]. unfold msg. rewrite decode5_request by done. cbn [mbind outcome_bind].
    change (negb (SOCKS5_CMD_CONNECT =? SOCKS5_CMD_CONNECT)) with false. cbv iota. by rewrite Hdial.
  - intros Hp Hh Hdial. unfold socks_listener, handleConnection. cbn [accumulateUntil].
    change (probe []) with (@Ok (option Z) None). cbn [mbind outcome_bind app].
    assert (probe (encodeSocks4Request SOCKS4_CMD_CONNECT host port ++ extra) = Ok (Some 4)) as ->.
    { unfold encodeSocks4Request. by destruct (if isIpv4 host then _ else _). }
    cbn [mbind outcome_bind fst]. change (4 =? 4) with true. cbv iota. unfold handleSocks4. cbn [accumulateUntil].
    rewrite decode4_request by done. cbn [mbind outcome_bind].
    change (negb (SOCKS4_CMD_CONNECT =? SOCKS4_CMD_CONNECT)) with false. cbv iota. by rewrite Hdial.
Qed.

Lemma socks5_dest_example : socks5_dest (js "example.org") 443.
Proof. split_and!; [repeat constructor; done|cbn; lia|done]. Qed.

Lemma accumulate_chunking_witness :
  exists b rest, accumulateUntil decodeSocks5Request rq_consumed [5; 1; 0; 1] [[10; 0]; [0; 1; 0; 80; 7]] =
    Ok (Some (Request 1 80 (js "10.0.0.1") 10, b, drop 10 b), rest) /\
  drop 10 b ++ concat rest = [7].
Proof. exact (accumulate_chunking decodeSocks5Request [5; 1; 0; 1] [[10; 0]; [0; 1; 0; 80; 7]] _). Defined.

Lemma socks5_bridge_witness :
  let to_server := [[5; 1]; [0; 5; 1; 0; 3; 11; 101]; [120; 97; 109; 112; 108; 101; 46; 111; 114; 103; 1; 187]] in
  Dial (js "example.org") 443 ∈ socks_listener (fun _ _ => true) to_server /\
  exists readable, concat readable = [9; 9] /\
  dialViaSocks5 (fun _ _ => Ok [[5]; [0; 5; 0; 0; 1; 0; 0; 0; 0; 0; 0; 9]; [9]]) (js "example.org") 443 (js "proxy") 1080 =
    Ok (Connection [encodeSocks5Greeting [0]; encodeSocks5Request 1 (js "example.org") 443] readable).
Proof.
  cbv zeta. apply (socks5_bridge (fun _ _ => true) (fun _ _ => Ok [[5]; [0; 5; 0; 0; 1; 0; 0; 0; 0; 0; 0; 9]; [9]])
    (js "proxy") 1080 (js "example.org") 443 _ [[5]; [0; 5; 0; 0; 1; 0; 0; 0; 0; 0; 0; 9]; [9]] [9; 9]);
    [exact socks5_dest_example|vm_compute; reflexivity..].
Defined.

Lemma socks4_bridge_witness :
  let to_server := [[4; 1; 0]; [80; 10; 0; 0]; [1; 0]] in
  Dial (js "10.0.0.1") 80 ∈ socks_listener (fun _ _ => true) to_server /\
  exists readable, concat readable = [9] /\
  dialViaSocks4 (fun _ _ => Ok [[0; 90; 0; 80; 10; 0; 0; 1; 9]]) (js "10.0.0.1") 80 (js "proxy") 1080 =
    Ok (Connection [encodeSocks4Request 1 (js "10.0.0.1") 80] readable).
Proof.
  cbv zeta. apply (socks4_bridge (fun _ _ => true) (fun _ _ => Ok [[0; 90; 0; 80; 10; 0; 0; 1; 9]])
    (js "proxy") 1080 (js "10.0.0.1") 80 [[4; 1; 0]; [80; 10; 0; 0]; [1; 0]] [[0; 90; 0; 80; 10; 0; 0; 1; 9]] [9]);
    [done|left; vm_compute; discriminate|vm_compute; reflexivity..].
Defined.

Lemma socks_early_data_lost_witness :
  socks_listener (fun _ _ => true) [encodeSocks5Greeting [0] ++ encodeSocks5Request 1 (js "example.org") 443 ++ [22; 3; 1]] =
  [WriteBytes [5; 0]; Dial (js "example.org") 443; WriteBytes (encodeSocks5Reply 0 zero_host 0); Relay [] []].
Proof.
  destruct (socks_early_data_lost (fun _ _ => true) (js "example.org") 443 [22; 3; 1]) as [H5 _].
  apply H5; [exact socks5_dest_example|reflexivity].
Defined.
