(* ===== verification/HttpProxy.v ===== *)
(** * The HTTP listener and the HTTP dial of [examples/proxy/lib]

    The request head parser, the destination, the handler of a connection
    and the dial through an upstream HTTP proxy, on connections as in
    [Proxy]: a reader is the chunks it will give.  Ports are numbers of
    the language, so they may be [NaN].  The native text codec is a
    parameter; its decoder may throw.  Log messages are left out. *)

From S2P Require Import Prelude JsString JsNumber Socks Proxy.
Open Scope Z_scope.

(* ------------------------------------------------------------------ *)
(** ** Strings *)

(** [s.indexOf(pat)] *)
Fixpoint find_sub (pat s : jsstr) : option nat :=
  if starts_with pat s then Some 0%nat
  else match s with [] => None | _ :: t => S <$> find_sub pat t end.

(** [s.split('\r\n')] *)
Fixpoint split_crlf (s : jsstr) : list jsstr :=
  match s with
  | [] => [[]]
  | u :: t =>
    match t with
    | v :: t' => if (u =? 0x0d) && (v =? 0x0a) then [] :: split_crlf t'
                 else match split_crlf t with p :: ps => (u :: p) :: ps | [] => [[u]] end
    | [] => [[u]]
    end
  end.

(** [s.lastIndexOf(c)] *)
Fixpoint last_index_of (c : Z) (s : jsstr) : option nat :=
  match s with
  | [] => None
  | u :: t => match last_index_of c t with
              | Some i => Some (S i)
              | None => if u =? c then Some 0%nat else None
              end
  end.

Definition crlf : jsstr := [0x0d; 0x0a].
Definition head_end : jsstr := crlf ++ crlf.

(* ------------------------------------------------------------------ *)
(** ** [http-proxy-listener.js] *)

Definition MAX_HEAD_SIZE : nat := Z.to_nat 65536.

Record request_head := Head {
  hd_method : jsstr; hd_target : jsstr; hd_version : option jsstr;
  hd_headers : list (jsstr * jsstr); hd_consumed : nat }.

Fixpoint lookup_header (name : jsstr) (hs : list (jsstr * jsstr)) : option jsstr :=
  match hs with [] => None | p :: hs => if decide (p.1 = name) then Some p.2 else lookup_header name hs end.

(** [headers[name] = name in headers ? ... : value]: the joined value
    stays where the name was first. *)
Fixpoint put_header (name value : jsstr) (hs : list (jsstr * jsstr)) : list (jsstr * jsstr) :=
  match hs with
  | [] => [(name, value)]
  | p :: hs => if decide (p.1 = name) then (name, p.2 ++ js ", " ++ value) :: hs else p :: put_header name value hs
  end.

Section Listener.
Context `{UnicodeTables}.
(** [toString] of [lws.so] on a view of bytes; it throws on bytes that are
    not UTF-8. *)
Variable toString : bytes -> outcome jsstr.

Definition header_line (hs : list (jsstr * jsstr)) (line : jsstr) : list (jsstr * jsstr) :=
  match index_of 0x3a line with
  | None => hs
  | Some c => put_header (toLowerCase (trim (take c line))) (trim (drop (S c) line)) hs
  end.

Definition parseHead (buf : bytes) : outcome (option request_head) :=
  text ← toString buf;
  match find_sub head_end text with
  | None => if (MAX_HEAD_SIZE <? length buf)%nat then Throw ErrError "request head too large" else Ok None
  | Some idx =>
    let lines := split_crlf (take idx text) in
    let words := split_on 0x20 (default [] (head lines)) in
    let method := default [] (words !! 0%nat) in
    let target := default [] (words !! 1%nat) in
    if bool_decide (method = []) || bool_decide (target = []) then Throw ErrError "malformed request line" else
    Ok (Some (Head method target (words !! 2%nat) (foldl header_line [] (drop 1 lines)) (idx + 4)))
  end.

(** [ABSOLUTE_URI_RE.exec(target)]: the host, and the port if there is one. *)
Definition is_scheme_char (u : Z) : bool := is_alnum u || bool_decide (u ∈ [0x2b; 0x2e; 0x2d]).
Definition is_host_char (u : Z) : bool := negb (bool_decide (u ∈ [0x2f; 0x3a; 0x3f; 0x23])).
Definition absolute_uri (target : jsstr) : option (jsstr * option jsstr) :=
  match target with
  | [] => None
  | u :: t =>
    if negb (is_alpha u) then None else
    let '(_, r) := span is_scheme_char t in
    if negb (starts_with (js "://") r) then None else
    let '(host, r) := span is_host_char (drop 3 r) in
    if bool_decide (host = []) then None else
    match r with
    | c :: r' => let '(ds, _) := span is_digit r' in
                 Some (host, if (c =? 0x3a) && nonempty ds then Some ds else None)
    | [] => Some (host, None)
    end
  end.

Definition connect_method : jsstr := js "CONNECT".

Definition resolveDestination (method target : jsstr) (headers : list (jsstr * jsstr)) : option (jsstr * jsdouble) :=
  if bool_decide (method = connect_method) then
    c ← last_index_of 0x3a target; Some (take c target, Number (drop (S c) target))
  else match absolute_uri target with
  | Some (host, port) => Some (host, match port with Some p => Number p | None => of_Z 80 end)
  | None =>
    match lookup_header (js "host") headers with
    | None | Some [] => None
    | Some hostHeader =>
      match last_index_of 0x3a hostHeader with
      | None => Some (hostHeader, of_Z 80)
      | Some c => Some (take c hostHeader, Number (drop (S c) hostHeader))
      end
    end
  end.

(** What the handler does; texts are written as they are. *)
Inductive http_action :=
| HttpWrite (text : jsstr)
| HttpDial (host : jsstr) (port : jsdouble)
| HttpRelay (prefix : bytes) (pending : list bytes)
| HttpCancelReadable.

(** [dial(destination, opts.onward)]: whether it connects. *)
Variable dial : jsstr -> jsdouble -> bool.

Definition refuse (text : jsstr) : list http_action := [HttpWrite text; HttpCancelReadable].
Definition reply_400 : jsstr := js "HTTP/1.1 400 Bad Request" ++ crlf ++ js "Connection: close" ++ head_end.
Definition reply_502 : jsstr := js "HTTP/1.1 502 Bad Gateway" ++ crlf ++ js "Connection: close" ++ head_end.
Definition reply_200 : jsstr := js "HTTP/1.1 200 Connection Established" ++ head_end.

Definition http_handleConnection (reader : list bytes) : list http_action :=
  match accumulateUntil parseHead hd_consumed [] reader with
  | Throw _ _ => refuse reply_400
  | Ok (None, _) => []
  | Ok (Some (head, bufferedRequest, _), reader) =>
    match resolveDestination (hd_method head) (hd_target head) (hd_headers head) with
    | None => refuse reply_400
    | Some (host, port) =>
      HttpDial host port ::
      (if negb (dial host port) then refuse reply_502
       else if bool_decide (hd_method head = connect_method) then [HttpWrite reply_200; HttpRelay [] reader]
       else [HttpRelay bufferedRequest reader])
    end
  end.
End Listener.

(* ------------------------------------------------------------------ *)
(** ** [onward.js]: the dial through an upstream HTTP proxy *)

Section Onward.
Variables (toString : bytes -> outcome jsstr) (ofString : jsstr -> bytes) (dialRaw : jsstr -> Z -> outcome (list bytes)).

Definition connect_request (host : jsstr) (port : Z) : jsstr :=
  let target := host ++ js ":" ++ to_string 10 port in
  js "CONNECT " ++ target ++ js " HTTP/1.1" ++ crlf ++ js "Host: " ++ target ++ crlf ++ js "Proxy-Connection: keep-alive" ++ head_end.

(** The end of the reply head, as an index into its text. *)
Definition reply_head (buf : bytes) : outcome (option nat) := text ← toString buf; Ok (find_sub head_end text).

(** [/^HTTP\/1\.[01]\s+200\b/] *)
Definition is_word (u : Z) : bool := is_alnum u || (u =? 0x5f).
Definition status_ok (line : jsstr) : bool :=
  starts_with (js "HTTP/1.") line &&
  match drop 7 line with
  | v :: r =>
    let '(spaces, r) := span is_js_space r in
    ((v =? 0x30) || (v =? 0x31)) && nonempty spaces && starts_with (js "200") r &&
    match drop 3 r with u :: _ => negb (is_word u) | [] => true end
  | [] => false
  end.

Definition dialViaHttpConnect (dest_host : jsstr) (dest_port : Z) (host : jsstr) (port : Z) : outcome connection :=
  reader ← dialRaw host port;
  let req := ofString (connect_request dest_host dest_port) in
  result ← accumulateUntil reply_head (fun idx => (idx + 4)%nat) [] reader;
  match result with
  | (None, _) => Throw ErrError "onward: upstream HTTP proxy closed the connection during CONNECT"
  | (Some (headEnd, buf, rest), reader) =>
    text ← toString (take headEnd buf);
    if negb (status_ok (default [] (head (split_crlf text))))
    then Throw ErrError "onward: upstream HTTP proxy refused CONNECT"
    else Ok (Connection [req] (prependTo reader rest))
  end.

(** [dial] of [onward.js]; an unknown mode is a direct connection. *)
Inductive onward_mode := Direct | Socks5 | Socks4 | HttpConnect.
Definition dial_onward (mode : onward_mode) (dest_host : jsstr) (dest_port : Z) (host : jsstr) (port : Z) : outcome connection :=
  match mode with
  | Socks5 => dialViaSocks5 dialRaw dest_host dest_port host port
  | Socks4 => dialViaSocks4 dialRaw dest_host dest_port host port
  | HttpConnect => dialViaHttpConnect dest_host dest_port host port
  | Direct => dialDirect dialRaw dest_host dest_port
  end.
End Onward.
