(* ===== verification/HttpProxyProps.v ===== *)
(** * What the HTTP listener and the HTTP dial promise

    What the handler of a connection does is determined by the head of the
    request and by the bytes that arrive along with its end; a plain
    request is forwarded as it came; listener and dial agree on the
    destination. *)

From S2P Require Import Prelude JsString JsNumber Socks Proxy ProxyProps HttpProxy.
Open Scope Z_scope.

(* ------------------------------------------------------------------ *)
(** ** Searching *)

Lemma starts_with_app p s t : starts_with p s = true -> starts_with p (s ++ t) = true.
Proof.
  unfold starts_with. rewrite !bool_decide_eq_true. intros H. rewrite take_app_le; [done|].
  apply (f_equal length) in H. rewrite length_take in H. lia.
Qed.

Lemma starts_with_short p s t : (length p <= length s)%nat -> starts_with p (s ++ t) = starts_with p s.
Proof. intros H. unfold starts_with. by rewrite take_app_le. Qed.

Lemma starts_with_length p s : starts_with p s = true -> (length p <= length s)%nat.
Proof. unfold starts_with. rewrite bool_decide_eq_true. intros H. apply (f_equal length) in H. rewrite length_take in H. lia. Qed.

Lemma find_sub_bound p s i : find_sub p s = Some i -> (i + length p <= length s)%nat.
Proof.
  revert i. induction s as [|u s IH]; intros i; cbn [find_sub].
  - destruct (starts_with p []) eqn:E; [|done]. intros [= <-]. by apply starts_with_length in E.
  - destruct (starts_with p (u :: s)) eqn:E; [intros [= <-]; by apply starts_with_length in E|].
    destruct (find_sub p s) as [j|]; [|done]. intros [= <-]. specialize (IH j eq_refl). cbn. lia.
Qed.

Lemma find_sub_cons p u s : find_sub p (u :: s) = if starts_with p (u :: s) then Some 0%nat else S <$> find_sub p s.
Proof. done. Qed.

(** Later text does not change what is found, nor does earlier text that
    is cut off behind it. *)
Lemma find_sub_prefix p i : forall s t, (i + length p <= length s)%nat -> find_sub p (s ++ t) = Some i <-> find_sub p s = Some i.
Proof.
  induction i as [|i IH]; intros s t Hl.
  - assert (H0 : forall s, find_sub p s = Some 0%nat <-> starts_with p s = true).
    { intros [|u s']; cbn [find_sub]; destruct (starts_with p _); try done. by destruct (find_sub p s'). }
    rewrite !H0. by rewrite starts_with_short by lia.
  - destruct s as [|u s]; [cbn in Hl; lia|]. cbn [app]. rewrite !find_sub_cons. change (u :: s ++ t) with ((u :: s) ++ t).
    rewrite starts_with_short by lia. destruct (starts_with p (u :: s)); [done|].
    specialize (IH s t ltac:(cbn in Hl; lia)). destruct (find_sub p (s ++ t)) as [j|], (find_sub p s) as [j'|]; cbn; naive_solver.
Qed.

Lemma find_sub_line l s : 0x0d ∉ l -> find_sub head_end (l ++ s) = Nat.add (length l) <$> find_sub head_end s.
Proof.
  induction l as [|u l IH]; intros Hl; [cbn [app length]; by destruct (find_sub head_end s)|]. apply not_elem_of_cons in Hl as [Hu Hl].
  cbn [app]. rewrite find_sub_cons. assert (E : starts_with head_end (u :: l ++ s) = false).
  { unfold starts_with. apply bool_decide_eq_false. intros E. apply (f_equal head) in E. cbn in E. congruence. }
  rewrite E, IH by done. by destruct (find_sub head_end s).
Qed.

Lemma find_sub_crlf u s : u <> 0x0d -> find_sub head_end (crlf ++ u :: s) = Nat.add 2 <$> find_sub head_end (u :: s).
Proof.
  intros Hu. unfold crlf. cbn [app]. rewrite find_sub_cons.
  assert (E : starts_with head_end (0x0d :: 0x0a :: u :: s) = false).
  { unfold starts_with. apply bool_decide_eq_false. intros E. apply (f_equal (fun l => l !! 2%nat)) in E. cbn in E. congruence. }
  rewrite E, find_sub_cons. assert (E' : starts_with head_end (0x0a :: u :: s) = false) by (by apply bool_decide_eq_false).
  rewrite E'. by destruct (find_sub head_end (u :: s)).
Qed.

Lemma split_crlf_line l s : 0x0d ∉ l -> split_crlf (l ++ crlf ++ s) = l :: split_crlf s.
Proof.
  induction l as [|u l IH]; intros Hl; [done|]. apply not_elem_of_cons in Hl as [Hu Hl]. specialize (IH Hl).
  cbn [app split_crlf]. destruct (l ++ crlf ++ s) as [|v r] eqn:E; [by destruct l|].
  rewrite (proj2 (Z.eqb_neq u 13)) by congruence. cbn [andb]. by rewrite IH.
Qed.

Lemma split_crlf_last l : 0x0d ∉ l -> split_crlf l = [l].
Proof.
  induction l as [|u l IH]; intros Hl; [done|]. apply not_elem_of_cons in Hl as [Hu Hl]. specialize (IH Hl). cbn [split_crlf].
  destruct l as [|v r]; [done|]. rewrite (proj2 (Z.eqb_neq u 13)) by congruence. cbn [andb]. by rewrite IH.
Qed.

Lemma last_index_of_app c p s : c ∉ s -> last_index_of c (p ++ c :: s) = Some (length p).
Proof.
  intros Hs. induction p as [|u p IH]; cbn.
  - assert (E : last_index_of c s = None); [|by rewrite E, Z.eqb_refl]. induction s as [|v s IHs]; [done|]. apply not_elem_of_cons in Hs as [Hv Hs]. cbn.
    rewrite IHs by done. by rewrite (proj2 (Z.eqb_neq v c)) by congruence.
  - by rewrite IH.
Qed.

(* ------------------------------------------------------------------ *)
(** ** Accumulation *)

(** What has been read when [n] bytes are there, and the chunks left. *)
Fixpoint arrived (n : nat) (buf : bytes) (reader : list bytes) : bytes * list bytes :=
  if (n <=? length buf)%nat then (buf, reader)
  else match reader with [] => (buf, []) | c :: reader => arrived n (buf ++ c) reader end.

Lemma arrived_all n reader : forall buf, (n <= length (buf ++ concat reader))%nat ->
  (arrived n buf reader).1 ++ concat (arrived n buf reader).2 = buf ++ concat reader /\ (n <= length (arrived n buf reader).1)%nat.
Proof.
  induction reader as [|c reader IH]; intros buf Hn; cbn [arrived].
  - cbn [concat] in Hn. rewrite app_nil_r in Hn. rewrite (proj2 (Nat.leb_le _ _) Hn). by split.
  - destruct (Nat.leb_spec n (length buf)); [by split|]. cbn [concat] in *. rewrite app_assoc in *. by apply IH.
Qed.

Section Arrived.
Context {D : Type} (decode : bytes -> outcome (option D)) (consumed : D -> nat) (n : nat).

(** A decoder that waits for [n] bytes is asked about what has arrived
    with the last of them. *)
Lemma accumulate_arrived reader : forall buf, (n <= length (buf ++ concat reader))%nat ->
  (forall b t, b ++ t = buf ++ concat reader -> (length b < n)%nat -> decode b = Ok None) ->
  let '(b, rest) := arrived n buf reader in
  match decode b with
  | Ok (Some d) => accumulateUntil decode consumed buf reader = Ok (Some (d, b, drop (consumed d) b), rest)
  | Ok None => True
  | Throw c e => accumulateUntil decode consumed buf reader = Throw c e
  end.
Proof.
  induction reader as [|c reader IH]; intros buf Hn Hw; cbn [arrived].
  - cbn [concat] in *. rewrite app_nil_r in *. rewrite (proj2 (Nat.leb_le _ _) Hn). cbn [accumulateUntil].
    by destruct (decode buf) as [[d|]|].
  - destruct (Nat.leb_spec n (length buf)) as [Hl|Hl].
    + cbn [accumulateUntil]. by destruct (decode buf) as [[d|]|].
    + cbn [concat] in Hn, Hw. rewrite app_assoc in Hn, Hw. specialize (IH (buf ++ c) Hn Hw).
      cbn [accumulateUntil]. rewrite (Hw buf (c ++ concat reader)) by (by rewrite <- ?app_assoc || done). exact IH.
Qed.
End Arrived.

(* ------------------------------------------------------------------ *)
(** ** Text of bytes *)

Definition ascii (bs : list Z) : Prop := Forall (fun b => 0 <= b < 128) bs.

(** What the listener and the dial rely on in the native decoder: ASCII
    bytes at the front are the characters at the front, and the rest is
    text or not whatever they are. *)
Definition ascii_front (toString : bytes -> outcome jsstr) : Prop :=
  toString [] = Ok [] /\ forall a b, ascii a -> toString (a ++ b) = app a <$> toString b.

Section Text.
Context (toString : bytes -> outcome jsstr) (Htext : ascii_front toString).

Lemma text_ascii bs : ascii bs -> toString bs = Ok bs.
Proof.
  destruct Htext as [H0 H1]. intros Ha. rewrite <- (app_nil_r bs) at 1. rewrite H1, H0 by done. cbn. by rewrite app_nil_r.
Qed.

(** On a part of a stream that does not hold all of the head. *)
Lemma find_head_short b t idx : find_sub head_end (b ++ t) = Some idx -> ascii (take (idx + 4) (b ++ t)) ->
  (length b < idx + 4)%nat -> toString b = Ok b /\ find_sub head_end b = None.
Proof.
  intros Hf Ha Hl. assert (Hb : ascii b). { rewrite take_app_ge in Ha by lia. by apply Forall_app in Ha as [? _]. }
  split; [by apply text_ascii|]. destruct (find_sub head_end b) as [i|] eqn:E; [exfalso|done].
  pose proof (find_sub_bound _ _ _ E) as Hb'. apply (find_sub_prefix head_end i b t) in E; [|done]. rewrite Hf in E. injection E as ->.
  change (length head_end) with 4%nat in Hb'. lia.
Qed.

(** On a part that does: the text is the head and the text of the rest. *)
Lemma find_head_long b t idx : find_sub head_end (b ++ t) = Some idx -> ascii (take (idx + 4) (b ++ t)) ->
  (idx + 4 <= length b)%nat -> let hd := take (idx + 4) (b ++ t) in
  toString b = app hd <$> toString (drop (idx + 4) b) /\ length hd = (idx + 4)%nat /\
  forall r, find_sub head_end (hd ++ r) = Some idx /\ take idx (hd ++ r) = take idx hd.
Proof.
  intros Hf Ha Hl. cbv zeta. rewrite take_app_le in Ha |- * by done. destruct Htext as [_ H1].
  assert (Hlen : length (take (idx + 4) b) = (idx + 4)%nat) by (rewrite length_take; lia).
  split; [by rewrite <- H1, take_drop by done|]. split; [done|]. intros r. split.
  - apply (find_sub_prefix head_end idx); [rewrite Hlen; change (length head_end) with 4%nat; lia|].
    apply (find_sub_prefix head_end idx b t Hl) in Hf.
    apply (find_sub_prefix head_end idx _ (drop (idx + 4) b)); [rewrite Hlen; change (length head_end) with 4%nat; lia|]. by rewrite take_drop.
  - by rewrite take_app_le by lia.
Qed.
End Text.

(* ------------------------------------------------------------------ *)
(** ** The listener *)

Section Listener.
Context `{UnicodeTables} (toString : bytes -> outcome jsstr) (dial : jsstr -> jsdouble -> bool).
Hypothesis Htext : ascii_front toString.

(** What a head says does not depend on the text behind it. *)
Lemma parse_whole b t idx : find_sub head_end (b ++ t) = Some idx -> ascii (take (idx + 4) (b ++ t)) ->
  (idx + 4 <= length b)%nat ->
  parseHead toString b = (_ ← toString (drop (idx + 4) b); parseHead toString (take (idx + 4) (b ++ t))).
Proof.
  intros Hf Ha Hl. destruct (find_head_long toString Htext b t idx Hf Ha Hl) as (Hb & _ & Hr).
  unfold parseHead. rewrite Hb. destruct (toString (drop _ b)) as [r|]; [|done]. cbn [mbind outcome_bind fmap outcome_fmap].
  destruct (Hr r) as [-> ->]. rewrite (text_ascii toString Htext _ Ha). cbn [mbind outcome_bind].
  destruct (Hr []) as [Hf0 Ht0]. rewrite app_nil_r in Hf0, Ht0. by rewrite Hf0.
Qed.

Lemma parse_short b t idx : find_sub head_end (b ++ t) = Some idx -> ascii (take (idx + 4) (b ++ t)) -> (idx + 4 <= MAX_HEAD_SIZE)%nat ->
  (length b < idx + 4)%nat -> parseHead toString b = Ok None.
Proof.
  intros Hf Ha Hm Hl. destruct (find_head_short toString Htext b t idx Hf Ha Hl) as [Hb Hn].
  unfold parseHead. rewrite Hb. cbn [mbind outcome_bind]. rewrite Hn. by rewrite (proj2 (Nat.ltb_ge MAX_HEAD_SIZE (length b))) by lia.
Qed.

Lemma parse_not_none bs idx : find_sub head_end bs = Some idx -> ascii (take (idx + 4) bs) -> parseHead toString (take (idx + 4) bs) <> Ok None.
Proof.
  intros Hf Ha. unfold parseHead. rewrite text_ascii by done. cbn [mbind outcome_bind].
  pose proof (find_sub_bound _ _ _ Hf) as Hl. change (length head_end) with 4%nat in Hl.
  assert (E : find_sub head_end (take (idx + 4) bs) = Some idx).
  { apply (find_sub_prefix head_end idx _ (drop (idx + 4) bs)); [rewrite length_take; change (length head_end) with 4%nat; lia|by rewrite take_drop]. }
  rewrite E. by repeat case_match.
Qed.

(** The head is read when its last byte has arrived. *)
Lemma head_accumulated reader idx : find_sub head_end (concat reader) = Some idx -> ascii (take (idx + 4) (concat reader)) ->
  (idx + 4 <= MAX_HEAD_SIZE)%nat ->
  let '(b, rest) := arrived (idx + 4) [] reader in
  b ++ concat rest = concat reader /\ (idx + 4 <= length b)%nat /\
  match (_ ← toString (drop (idx + 4) b); parseHead toString (take (idx + 4) (concat reader))) with
  | Throw c e => accumulateUntil (parseHead toString) hd_consumed [] reader = Throw c e
  | Ok None => False
  | Ok (Some d) => accumulateUntil (parseHead toString) hd_consumed [] reader = Ok (Some (d, b, drop (hd_consumed d) b), rest)
  end.
Proof.
  intros Hf Ha Hm. pose proof (find_sub_bound _ _ _ Hf) as Hl. change (length head_end) with 4%nat in Hl.
  pose proof (arrived_all (idx + 4) reader [] Hl) as [Hb Hbl].
  pose proof (accumulate_arrived (parseHead toString) hd_consumed (idx + 4) reader [] Hl) as Hacc.
  destruct (arrived (idx + 4) [] reader) as [b rest]. cbn [fst snd app] in *. split; [done|]. split; [done|].
  assert (Hp : forall b t, b ++ t = concat reader -> (length b < idx + 4)%nat -> parseHead toString b = Ok None).
  { intros b' t E Hs. rewrite <- E in Hf, Ha. by eapply parse_short. }
  specialize (Hacc Hp). pose proof (parse_not_none _ _ Hf Ha) as Hne. rewrite <- Hb in Hf, Ha, Hne |- *.
  rewrite (parse_whole b (concat rest) idx Hf Ha Hbl) in Hacc.
  destruct (toString (drop (idx + 4) b)); cbn [mbind outcome_bind] in *; [|exact Hacc].
  destruct (parseHead toString (take _ _)) as [[d|]|]; [exact Hacc|done|exact Hacc].
Qed.

(** C22: For requests with an ASCII head of at most [MAX_HEAD_SIZE] bytes
    that arrives whole, what the listener does is determined by the head
    and by the bytes that have arrived along with its last byte, however
    everything is cut into chunks.  It refuses when those bytes are not
    UTF-8 ([bytesToString] throws), when the head is malformed or has no
    destination, and when the destination cannot be reached; otherwise a
    CONNECT is relayed with exactly the chunks not read yet, and any other
    request with every byte that the client sends. *)
Theorem http_listener_spec reader idx :
  find_sub head_end (concat reader) = Some idx -> ascii (take (idx + 4) (concat reader)) -> (idx + 4 <= MAX_HEAD_SIZE)%nat ->
  let '(read, pending) := arrived (idx + 4) [] reader in
  read ++ concat pending = concat reader /\
  http_handleConnection toString dial reader =
    match toString (drop (idx + 4) read) with
    | Throw _ _ => refuse reply_400
    | Ok _ =>
      match parseHead toString (take (idx + 4) (concat reader)) with
      | Throw _ _ | Ok None => refuse reply_400
      | Ok (Some head) =>
        match resolveDestination (hd_method head) (hd_target head) (hd_headers head) with
        | None => refuse reply_400
        | Some (host, port) =>
          HttpDial host port ::
          (if negb (dial host port) then refuse reply_502
           else if bool_decide (hd_method head = connect_method) then [HttpWrite reply_200; HttpRelay [] pending]
           else [HttpRelay read pending])
        end
      end
    end.
Proof.
  intros Hf Ha Hm. pose proof (head_accumulated reader idx Hf Ha Hm) as Hacc. unfold http_handleConnection.
  destruct (arrived (idx + 4) [] reader) as [b rest]. destruct Hacc as (Hb & _ & Hacc). split; [done|].
  destruct (toString (drop (idx + 4) b)); cbn [mbind outcome_bind] in Hacc; [|by rewrite Hacc].
  destruct (parseHead toString (take _ _)) as [[hd|]|k e]; [|done|by rewrite Hacc]. by rewrite Hacc.
Qed.
End Listener.

(* ------------------------------------------------------------------ *)
(** ** Dial and listener *)

(** A host name as it can stand in a request line. *)
Definition http_host (host : jsstr) : Prop := host <> [] /\ Forall (fun u => 0x20 < u < 0x7f) host.

Section Connect.
Context `{UnicodeTables} (toString : bytes -> outcome jsstr) (ofString : jsstr -> bytes).
Hypothesis Htext : ascii_front toString.
Hypothesis Hbytes : forall s, ascii s -> ofString s = s.
Variables (host : jsstr) (port : Z).
Hypotheses (Hhost : http_host host) (Hport : 0 <= port < 65536).

Let target : jsstr := host ++ 0x3a :: to_string 10 port.
Let line1 : jsstr := js "CONNECT" ++ 0x20 :: target ++ 0x20 :: js "HTTP/1.1".
Let line2 : jsstr := js "Host: " ++ target.
Let line3 : jsstr := js "Proxy-Connection: keep-alive".

Lemma connect_lines : connect_request host port = line1 ++ crlf ++ line2 ++ crlf ++ line3 ++ head_end.
Proof.
  unfold connect_request, line1, line2, line3, target. change (js "CONNECT ") with (js "CONNECT" ++ [0x20]). change (js " HTTP/1.1") with (0x20 :: js "HTTP/1.1").
  change (js ":") with [0x3a]. by repeat (rewrite <- !app_assoc; cbn [app]).
Qed.

Lemma target_chars : Forall (fun u => 0x20 < u < 0x7f) target.
Proof.
  unfold target. apply Forall_app. split; [apply Hhost|]. constructor; [lia|].
  destruct (to_string_spec 10 port ltac:(lia) ltac:(lia)) as (_ & Hd%decimal_digits & _).
  eapply Forall_impl; [exact Hd|]. intros u [H1%Z.leb_le H2%Z.leb_le]%andb_true_iff. lia.
Qed.

(** A character none of the target and the fixed text has. *)
Lemma target_without u : u <= 0x20 -> u ∉ target.
Proof. intros Hu Hin. pose proof target_chars as Ht. rewrite Forall_forall in Ht. specialize (Ht _ Hin). cbv beta in Ht. lia. Qed.

Lemma ascii_target : ascii target.
Proof. eapply Forall_impl; [exact target_chars|]. cbv beta. lia. Qed.

Lemma ascii_js s : forallb (fun b => (0 <=? b) && (b <? 128)) s = true -> ascii s.
Proof. intros E. apply Forall_forall. intros u Hu%list_elem_of_In. rewrite forallb_forall in E. specialize (E u Hu). lia. Qed.

Lemma ascii_app a b : ascii a -> ascii b -> ascii (a ++ b).
Proof. intros. by apply Forall_app. Qed.

Lemma line1_ascii : ascii line1.
Proof.
  unfold line1. change (0x20 :: target ++ 0x20 :: js "HTTP/1.1") with ([0x20] ++ target ++ js " HTTP/1.1").
  apply ascii_app; [by apply ascii_js|]. apply ascii_app; [by apply ascii_js|]. apply ascii_app; [exact ascii_target|by apply ascii_js].
Qed.

Lemma connect_ascii : ascii (connect_request host port).
Proof.
  rewrite connect_lines. apply ascii_app; [exact line1_ascii|]. apply ascii_app; [by apply ascii_js|].
  apply ascii_app; [unfold line2; apply ascii_app; [by apply ascii_js|exact ascii_target]|].
  apply ascii_app; [by apply ascii_js|]. apply ascii_app; by apply ascii_js.
Qed.

Lemma line1_no_cr : 0x0d ∉ line1.
Proof.
  unfold line1. rewrite elem_of_app, elem_of_cons, elem_of_app, elem_of_cons.
  intros [E|[E|[E|[E|E]]]]; [|done|by apply target_without in E|done|];
    revert E; apply (bool_decide_unpack _); vm_compute; exact I.
Qed.
Lemma line2_no_cr : 0x0d ∉ line2.
Proof.
  unfold line2. rewrite elem_of_app. intros [E|E]; [|by apply target_without in E].
  revert E. apply (bool_decide_unpack _). vm_compute. exact I.
Qed.
Lemma line3_no_cr : 0x0d ∉ line3.
Proof. apply (bool_decide_unpack _). vm_compute. exact I. Qed.

Lemma connect_end extra :
  find_sub head_end (connect_request host port ++ extra) = Some (length (line1 ++ crlf ++ line2 ++ crlf ++ line3)).
Proof.
  rewrite connect_lines, <- !app_assoc. rewrite find_sub_line by apply line1_no_cr.
  change line2 with (72 :: (js "ost: " ++ target)) at 1. cbn [app]. rewrite find_sub_crlf by done.
  change (72 :: (js "ost: " ++ target) ++ crlf ++ line3 ++ head_end ++ extra) with (line2 ++ crlf ++ line3 ++ head_end ++ extra).
  rewrite find_sub_line by apply line2_no_cr.
  change (crlf ++ line3 ++ head_end ++ extra) with (crlf ++ 80 :: (js "roxy-Connection: keep-alive" ++ head_end ++ extra)). rewrite find_sub_crlf by done.
  change (80 :: (js "roxy-Connection: keep-alive" ++ head_end ++ extra)) with (line3 ++ head_end ++ extra).
  rewrite find_sub_line by apply line3_no_cr. change (find_sub head_end (head_end ++ extra)) with (Some 0%nat).
  cbn [option_fmap fmap option_map]. f_equal. rewrite !length_app. change (length crlf) with 2%nat. lia.
Qed.

Lemma connect_find extra : find_sub head_end (connect_request host port ++ extra) = Some (length (connect_request host port) - 4)%nat.
Proof.
  rewrite connect_end, connect_lines, !length_app. change (length head_end) with 4%nat. f_equal. lia.
Qed.

Lemma connect_long : (4 <= length (connect_request host port))%nat.
Proof. rewrite connect_lines, !length_app. change (length head_end) with 4%nat. lia. Qed.

Lemma connect_cut : take (length (connect_request host port) - 4) (connect_request host port) = line1 ++ crlf ++ line2 ++ crlf ++ line3.
Proof.
  pose proof connect_lines as E. set (body := line1 ++ crlf ++ line2 ++ crlf ++ line3).
  assert (Eb : connect_request host port = body ++ head_end) by (by rewrite E; unfold body; repeat rewrite <- app_assoc).
  rewrite Eb, length_app. change (length head_end) with 4%nat. apply take_app_length'. lia.
Qed.

Lemma connect_words : split_on 0x20 line1 = [connect_method; target; js "HTTP/1.1"].
Proof.
  unfold line1. rewrite split_on_app by (apply (bool_decide_unpack _); vm_compute; exact I).
  rewrite split_on_app by (by apply target_without). f_equal.
Qed.

Lemma target_resolved headers : resolveDestination connect_method target headers = Some (host, of_Z port).
Proof.
  unfold resolveDestination. rewrite bool_decide_eq_true_2 by done.
  assert (E : last_index_of 0x3a target = Some (length host)).
  { apply last_index_of_app. intros Hin. destruct (to_string_spec 10 port ltac:(lia) ltac:(lia)) as (_ & Hd%decimal_digits & _).
    rewrite Forall_forall in Hd. by specialize (Hd _ Hin). }
  rewrite E. cbn [mbind option_bind]. unfold target. rewrite take_app_length.
  rewrite cons_middle, app_assoc, drop_app_length' by (rewrite length_app; cbn; lia). by rewrite Number_to_string by lia.
Qed.

(** The listener reads the destination out of the dial's request. *)
Lemma connect_parsed : exists hd, parseHead toString (connect_request host port) = Ok (Some hd) /\
  hd_method hd = connect_method /\ resolveDestination (hd_method hd) (hd_target hd) (hd_headers hd) = Some (host, of_Z port).
Proof.
  unfold parseHead. rewrite (text_ascii toString Htext _ connect_ascii). cbn [mbind outcome_bind].
  pose proof (connect_find []) as Hf. rewrite app_nil_r in Hf. rewrite Hf, connect_cut.
  rewrite split_crlf_line by apply line1_no_cr. rewrite split_crlf_line by apply line2_no_cr.
  rewrite split_crlf_last by apply line3_no_cr. cbn [drop]. change (default [] (head [line1; line2; line3])) with line1.
  rewrite connect_words. cbn [lookup list_lookup]. rewrite (bool_decide_eq_false_2 (connect_method = [])) by done.
  assert (Hne : target <> []) by (unfold target; by destruct host). rewrite (bool_decide_eq_false_2 (target = [])) by done.
  eexists. split; [reflexivity|]. split; [reflexivity|]. apply target_resolved.
Qed.

(** The dial on a reply whose head is [reply], when what has arrived along
    with it is text. *)
Lemma dial_reply dialRaw proxy_host proxy_port from reply extra idx :
  dialRaw proxy_host proxy_port = Ok from -> concat from = reply ++ extra ->
  find_sub head_end reply = Some idx -> length reply = (idx + 4)%nat -> ascii reply ->
  (forall part, part `prefix_of` extra -> exists s, toString part = Ok s) ->
  exists readable, concat readable = extra /\
  dialViaHttpConnect toString ofString dialRaw host port proxy_host proxy_port =
    if status_ok (default [] (head (split_crlf (take idx reply)))) then Ok (Connection [connect_request host port] readable)
    else Throw ErrError "onward: upstream HTTP proxy refused CONNECT".
Proof.
  intros Hraw Hfrom Hf Hl Ha Hex. assert (Hw : find_sub head_end (concat from) = Some idx).
  { rewrite Hfrom. apply find_sub_prefix; [change (length head_end) with 4%nat; lia|done]. }
  assert (Ht : take (idx + 4) (concat from) = reply) by (rewrite Hfrom, <- Hl; apply take_app_length).
  assert (Hn : (idx + 4 <= length ([] ++ concat from))%nat) by (cbn; rewrite Hfrom, length_app; lia).
  pose proof (arrived_all (idx + 4) from [] Hn) as [Hb Hlb].
  pose proof (accumulate_arrived (reply_head toString) (fun i => (i + 4)%nat) (idx + 4) from [] Hn) as Hacc.
  destruct (arrived (idx + 4) [] from) as [b rest]. cbn [fst snd app] in *.
  assert (Hshort : forall b t, b ++ t = concat from -> (length b < idx + 4)%nat -> reply_head toString b = Ok None).
  { intros b' t E Hs. rewrite <- E in Hw, Ht. rewrite <- Ht in Ha. destruct (find_head_short toString Htext b' t idx Hw Ha Hs) as [E1 E2].
    unfold reply_head. rewrite E1. cbn [mbind outcome_bind]. by rewrite E2. }
  specialize (Hacc Hshort). clear Hshort. rewrite <- Hb in Hw, Ht. rewrite <- Ht in Ha.
  destruct (find_head_long toString Htext b (concat rest) idx Hw Ha Hlb) as (Htx & Hlen & Hr). rewrite Ht in *.
  assert (Hcut : b = reply ++ drop (idx + 4) b) by (rewrite <- Ht, take_app_le by done; by rewrite take_drop).
  assert (Ex : extra = drop (idx + 4) b ++ concat rest).
  { apply (app_inv_head reply). by rewrite app_assoc, <- Hcut, Hb, Hfrom. }
  destruct (Hex (drop (idx + 4) b)) as [x Hx]; [rewrite Ex; by eexists|]. rewrite Hx in Htx. cbn in Htx.
  assert (Hbd : reply_head toString b = Ok (Some idx)) by (unfold reply_head; rewrite Htx; cbn [mbind outcome_bind]; destruct (Hr x) as [-> _]; done).
  rewrite Hbd in Hacc.
  exists (prependTo rest (drop (idx + 4) b)). split; [by rewrite concat_prepend, Ex|]. unfold dialViaHttpConnect. rewrite Hraw. cbn [mbind outcome_bind].
  rewrite Hacc. cbn [mbind outcome_bind]. rewrite Hbytes by exact connect_ascii.
  assert (E : take idx b = take idx reply) by (rewrite Hcut, take_app_le by lia; done).
  rewrite E, text_ascii by (done || by apply Forall_take). cbn [mbind outcome_bind]. by destruct (status_ok _).
Qed.

(** The text the handler writes. *)
Definition http_sent (acts : list http_action) : bytes :=
  concat (map (fun a => match a with HttpWrite t => ofString t | _ => [] end) acts).

(** A dial through an upstream HTTP proxy and the listener agree.
    Whatever chunks the two directions come in, the listener dials the
    destination the client asked for, with the port as a number, and the
    client gets a connection whose readable side gives what follows the
    reply head, or an error when the listener cannot connect, as long as
    what follows the reply head is text (what arrives along with the head
    is decoded with it). *)
Theorem http_connect_bridge dial dialRaw proxy_host proxy_port to_server from_server extra :
  (length (connect_request host port) <= MAX_HEAD_SIZE)%nat ->
  concat to_server = ofString (connect_request host port) ->
  dialRaw proxy_host proxy_port = Ok from_server ->
  concat from_server = http_sent (http_handleConnection toString dial to_server) ++ extra ->
  (forall part, part `prefix_of` extra -> exists s, toString part = Ok s) ->
  HttpDial host (of_Z port) ∈ http_handleConnection toString dial to_server /\
  exists readable, concat readable = extra /\
  dialViaHttpConnect toString ofString dialRaw host port proxy_host proxy_port =
    if dial host (of_Z port) then Ok (Connection [ofString (connect_request host port)] readable)
    else Throw ErrError "onward: upstream HTTP proxy refused CONNECT".
Proof.
  intros Hm Hto Hraw Hfrom Hex. rewrite Hbytes in Hto |- * by exact connect_ascii. pose proof connect_long as Hl.
  destruct connect_parsed as (hd & Hhd & Hme & Hre). pose proof (connect_find []) as Hf. rewrite app_nil_r in *.
  rewrite <- Hto in Hf. pose proof (head_accumulated toString Htext to_server _ Hf) as Hacc.
  rewrite Nat.sub_add, Hto, firstn_all in Hacc by (by rewrite Hto). specialize (Hacc connect_ascii Hm).
  destruct (arrived _ [] to_server) as [b rest]. destruct Hacc as (Hb & Hbl & Hacc).
  assert (Eb : drop (length (connect_request host port)) b = []).
  { apply drop_ge. apply (f_equal length) in Hb. rewrite length_app in Hb. lia. }
  rewrite Eb, Hhd, (proj1 Htext) in Hacc. cbn [mbind outcome_bind] in Hacc.
  unfold http_handleConnection in Hfrom |- *. rewrite Hacc in Hfrom |- *. cbv iota in Hfrom |- *. rewrite Hre in Hfrom |- *.
  rewrite Hme in Hfrom |- *. rewrite bool_decide_eq_true_2 in Hfrom by done.
  rewrite bool_decide_eq_true_2 by done. destruct (dial host (of_Z port)); cbn [negb] in *; (split; [by left|]).
  - apply (dial_reply dialRaw proxy_host proxy_port from_server reply_200 extra (length reply_200 - 4));
      [done| |vm_compute; reflexivity|vm_compute; reflexivity|by apply ascii_js|done].
    rewrite Hfrom. unfold http_sent. cbn [map concat app]. rewrite app_nil_r. by rewrite Hbytes by by apply ascii_js.
  - apply (dial_reply dialRaw proxy_host proxy_port from_server reply_502 extra (length reply_502 - 4));
      [done| |vm_compute; reflexivity|vm_compute; reflexivity|by apply ascii_js|done].
    rewrite Hfrom. unfold http_sent, refuse. cbn [map concat app]. rewrite app_nil_r. by rewrite Hbytes by by apply ascii_js.
Qed.
End Connect.

(* ------------------------------------------------------------------ *)
(** ** Witnesses *)

#[local] Instance plain_tables : UnicodeTables := {| lower_nonascii s := s |}.

(** A decoder that knows ASCII and the byte pairs of U+00C0 to U+00FF. *)
Fixpoint plain_text (bs : bytes) : outcome jsstr :=
  match bs with
  | [] => Ok []
  | b :: r =>
    if b <? 128 then cons b <$> plain_text r
    else match r with
         | c :: r => if (b =? 0xc3) && (0x80 <=? c) && (c <? 0xc0) then cons (c + 0x40) <$> plain_text r else Throw ErrTypeError "invalid UTF-8"
         | [] => Throw ErrTypeError "invalid UTF-8"
         end
  end.

Lemma plain_text_front : ascii_front plain_text.
Proof.
  split; [done|]. intros a b Ha. induction Ha as [|u a Hu _ IH]; cbn [app plain_text].
  - by destruct (plain_text b).
  - rewrite (proj2 (Z.ltb_lt u 128)) by lia. rewrite IH. by destruct (plain_text b).
Qed.

Definition get_request : jsstr :=
  js "GET http://example.org:81/x HTTP/1.1" ++ crlf ++ js "Host: other" ++ head_end ++ [0xc3; 0xa9].

Lemma http_listener_spec_witness :
  (take 40 get_request ++ drop 40 get_request) = get_request /\
  http_handleConnection plain_text (fun _ _ => true) [take 40 get_request; drop 40 get_request] =
    [HttpDial (js "example.org") (of_Z 81); HttpRelay get_request []].
Proof.
  split; [vm_compute; reflexivity|].
  pose proof (http_listener_spec plain_text (fun _ _ => true) plain_text_front [take 40 get_request; drop 40 get_request] 49) as Hs.
  destruct Hs as [_ ->].
  - vm_compute. reflexivity.
  - by apply ascii_js.
  - apply Nat.leb_le. vm_compute. reflexivity.
  - vm_compute. reflexivity.
Defined.

(** The same request is refused when a chunk ends inside its last
    character. *)
Lemma http_listener_cut_character :
  http_handleConnection plain_text (fun _ _ => true) [take 54 get_request; drop 54 get_request] = refuse reply_400.
Proof. vm_compute. reflexivity. Qed.

Lemma http_connect_bridge_witness :
  let request := connect_request (js "example.org") 443 in
  HttpDial (js "example.org") (of_Z 443) ∈ http_handleConnection plain_text (fun _ _ => true) [take 9 request; drop 9 request] /\
  exists readable, concat readable = [0x41; 0x42] /\
  dialViaHttpConnect plain_text id (fun _ _ => Ok [take 20 reply_200; drop 20 reply_200 ++ [0x41]; [0x42]]) (js "example.org") 443 (js "proxy") 8080 =
    Ok (Connection [request] readable).
Proof.
  cbv zeta. apply (http_connect_bridge plain_text id plain_text_front (fun s _ => eq_refl) (js "example.org") 443 ltac:(split; [done|by repeat constructor]) ltac:(lia)
    (fun _ _ => true) (fun _ _ => Ok [take 20 reply_200; drop 20 reply_200 ++ [0x41]; [0x42]]) (js "proxy") 8080
    _ [take 20 reply_200; drop 20 reply_200 ++ [0x41]; [0x42]] [0x41; 0x42]);
    [apply Nat.leb_le; vm_compute; reflexivity|vm_compute; reflexivity..|].
  intros part Hp. exists part. apply (text_ascii plain_text plain_text_front). destruct Hp as [k Hk].
  assert (Ha : ascii (part ++ k)) by (rewrite <- Hk; by apply ascii_js). by apply Forall_app in Ha as [? _].
Defined.
