(* ===== verification/Dns.v ===== *)
(** * The DNS messages of [examples/dns-server/dns-message.js]

    Encoding and decoding of names, questions, resource records and whole
    messages.  [decodeName] follows compression pointers with its own
    bounds; its fuel is proved enough.  Reading past a [DataView] throws. *)

From S2P Require Import Prelude JsString JsNumber.
Open Scope Z_scope.

(* ------------------------------------------------------------------ *)
(** ** Bytes *)

Definition concatBytes (arrays : list bytes) : bytes := concat arrays.
Definition labelBytes (str : jsstr) : bytes := (fun u => Z.land u 0xff) <$> str.
Definition bytesToLabel (buf : bytes) : jsstr := buf.

Definition range_error {A} : outcome A := Throw ErrRangeError "offset is outside the bounds of the DataView".

Definition getUint8 (buf : bytes) (i : nat) : outcome Z :=
  match buf !! i with Some b => Ok b | None => range_error end.
Definition getUint16 (buf : bytes) (i : nat) : outcome Z :=
  match buf !! i, buf !! S i with Some a, Some b => Ok (a * 256 + b) | _, _ => range_error end.
Definition getUint32 (buf : bytes) (i : nat) : outcome Z :=
  hi ← getUint16 buf i; lo ← getUint16 buf (i + 2); Ok (hi * 65536 + lo).

(** What [setUint16] and [setUint32] store. *)
Definition uint16_bytes (n : Z) : bytes := [(n / 256) mod 256; n mod 256].
Definition uint32_bytes (n : Z) : bytes := uint16_bytes (n / 65536) ++ uint16_bytes n.

(* ------------------------------------------------------------------ *)
(** ** Names *)

Definition CLASS_IN : Z := 1.

(** [name.replace(/\.$/, '')] *)
Definition strip_dot (name : jsstr) : jsstr :=
  if bool_decide (last name = Some 0x2e) then removelast name else name.

Fixpoint encode_labels (labels : list jsstr) : outcome (list bytes) :=
  match labels with
  | [] => Ok []
  | label :: labels =>
    let lb := labelBytes label in
    if (63 <? length lb)%nat then Throw ErrError "label too long" else
    rest ← encode_labels labels; Ok ([Z.of_nat (length lb)] :: lb :: rest)
  end.

Definition encodeName (name : jsstr) : outcome bytes :=
  if bool_decide (name = js ".") || bool_decide (name = []) then Ok (concatBytes [[0]]) else
  parts ← encode_labels (split_on 0x2e (strip_dot name)); Ok (concatBytes (parts ++ [[0]])).

(** The loop of [decodeName]; [next] is [None] where the code has [-1]. *)
Fixpoint decodeName_loop (fuel : nat) (buf : bytes) (labels : list jsstr) (pos : nat) (next : option nat) (jumps : nat)
  : outcome (list jsstr * nat) :=
  match fuel with
  | O => Throw ErrRangeError "out of fuel"
  | S fuel =>
    match buf !! pos with
    | None => Throw ErrError "name runs past end of message"
    | Some len =>
      if Z.land len 0xc0 =? 0xc0 then
        match buf !! S pos with
        | None => Throw ErrError "truncated compression pointer"
        | Some lo =>
          let next := match next with None => Some (pos + 2)%nat | _ => next end in
          if (128 <? S jumps)%nat then Throw ErrError "too many compression pointers" else
          decodeName_loop fuel buf labels (Z.to_nat (Z.lor (Z.shiftl (Z.land len 0x3f) 8) lo)) next (S jumps)
        end
      else if len =? 0 then Ok (labels, default (pos + 1)%nat next)
      else if (length buf <? pos + 1 + Z.to_nat len)%nat then Throw ErrError "label runs past end of message"
      else decodeName_loop fuel buf (labels ++ [bytesToLabel (take (Z.to_nat len) (drop (pos + 1) buf))])
             (pos + 1 + Z.to_nat len) next jumps
    end
  end.

(** At most 128 jumps, each followed by at most a walk through the buffer. *)
Definition name_fuel (buf : bytes) : nat := 130 * (length buf + 2).

Definition name_string (labels : list jsstr) : jsstr :=
  match labels with [] => js "." | _ => join [0x2e] labels ++ [0x2e] end.

Definition decodeName (buf : bytes) (offset : nat) : outcome (jsstr * nat) :=
  r ← decodeName_loop (name_fuel buf) buf [] offset None 0;
  Ok (name_string r.1, r.2).

(* ------------------------------------------------------------------ *)
(** ** Addresses *)

Definition ipv4ToBytes (str : jsstr) : outcome bytes :=
  let parts := Number <$> split_on 0x2e str in
  if negb (length parts =? 4)%nat || existsb (fun n => negb (in_octet n)) parts
  then Throw ErrError "bad IPv4 address" else Ok (truncate <$> parts).

Definition ipv4ToString (buf : bytes) : jsstr := join [0x2e] (to_string 10 <$> buf).

(** [str.split('::')] *)
Fixpoint split_colons (s : jsstr) : list jsstr :=
  match s with
  | [] => [[]]
  | a :: r =>
    let more := match split_colons r with p :: ps => (a :: p) :: ps | [] => [[a]] end in
    match r with
    | b :: t => if (a =? 0x3a) && (b =? 0x3a) then [] :: split_colons t else more
    | [] => more
    end
  end.

(** [parseInt(s, 16)], as the integer that [>>] and [&] see. *)
Definition parse_hex (s : jsstr) : Z :=
  let s := drop_while is_js_space s in
  let '(neg, s) := match s with
    | c :: t => if c =? 0x2d then (true, t) else if c =? 0x2b then (false, t) else (false, s)
    | [] => (false, s) end in
  let s := match s with
    | z :: x :: t => if (z =? 0x30) && ((x =? 0x78) || (x =? 0x58)) then t else s
    | _ => s end in
  let v := truncate (of_Z (digits_value 16 (span (is_radix_digit 16) s).1)) in
  if neg : bool then - v else v.

(** A field that is the empty string or undefined. *)
Definition colon_parts (s : option jsstr) : list jsstr :=
  match s with Some (c :: t) => split_on 0x3a (c :: t) | _ => [] end.

Definition ipv6_groups (str : jsstr) : list jsstr :=
  let parts := split_colons str in
  let headParts := colon_parts (parts !! 0%nat) in
  let tailParts := colon_parts (parts !! 1%nat) in
  let fillCount := (8 - length headParts - length tailParts)%nat in
  if (1 <? length parts)%nat then headParts ++ replicate fillCount (js "0") ++ tailParts else headParts.

Definition group_bytes (g : jsstr) : bytes :=
  let v := parse_hex (match g with [] => js "0" | _ => g end) in
  [to_uint8 (Z.shiftr (to_int32 v) 8); Z.land (to_int32 v) 0xff].

Definition ipv6ToBytes (str : jsstr) : outcome bytes :=
  let groups := ipv6_groups str in
  if negb (length groups =? 8)%nat then Throw ErrError "bad IPv6 address"
  else Ok (concat (group_bytes <$> groups)).

(** [(buf[i] << 8) | buf[i + 1]], 0 for a byte that is not there. *)
Definition pair_at (buf : bytes) (i : nat) : Z := Z.lor (Z.shiftl (default 0 (buf !! i)) 8) (default 0 (buf !! S i)).

Definition ipv6ToString (buf : bytes) : jsstr :=
  join [0x3a] ((fun i => to_string 16 (pair_at buf (i * 2))) <$> seq 0 8).

(* ------------------------------------------------------------------ *)
(** ** Resource data *)

Definition TYPE_A : Z := 1.
Definition TYPE_NS : Z := 2.
Definition TYPE_CNAME : Z := 5.
Definition TYPE_SOA : Z := 6.
Definition TYPE_PTR : Z := 12.
Definition TYPE_MX : Z := 15.
Definition TYPE_TXT : Z := 16.
Definition TYPE_AAAA : Z := 28.

(** The object [rdata], by the fields it has. *)
Inductive rdata :=
| RAddress (address : jsstr)
| RTarget (target : jsstr)
| RSoa (mname rname : jsstr) (serial refresh retry expire minimum : Z)
| RMx (preference : Z) (exchange : jsstr)
| RTxt (text : list jsstr)
| RRaw (raw : bytes).

#[export] Instance rdata_eq_dec : EqDecision rdata.
Proof. solve_decision. Defined.

Definition is_name_type (type : Z) : bool := (type =? TYPE_NS) || (type =? TYPE_CNAME) || (type =? TYPE_PTR).

(** [buf.subarray(start, end)], also past the end of the buffer. *)
Definition subarray (buf : bytes) (from to : nat) : bytes := take (to - from) (drop from buf).

Fixpoint decode_texts (fuel : nat) (buf : bytes) (p end_ : nat) : list jsstr :=
  match fuel with
  | O => []
  | S fuel =>
    if (p <? end_)%nat then
      match buf !! p with
      | Some len => bytesToLabel (subarray buf (p + 1) (p + 1 + Z.to_nat len)) :: decode_texts fuel buf (p + 1 + Z.to_nat len) end_
      | None => [bytesToLabel (drop (p + 1) buf)]
      end
    else []
  end.

Definition decodeRdata (type : Z) (buf : bytes) (start end_ : nat) : outcome rdata :=
  if type =? TYPE_A then Ok (RAddress (ipv4ToString (subarray buf start end_))) else
  if type =? TYPE_AAAA then Ok (RAddress (ipv6ToString (subarray buf start end_))) else
  if is_name_type type then r ← decodeName buf start; Ok (RTarget r.1) else
  if type =? TYPE_SOA then
    mname ← decodeName buf start;
    rname ← decodeName buf mname.2;
    let p := rname.2 in
    serial ← getUint32 buf p; refresh ← getUint32 buf (p + 4); retry ← getUint32 buf (p + 8);
    expire ← getUint32 buf (p + 12); minimum ← getUint32 buf (p + 16);
    Ok (RSoa mname.1 rname.1 serial refresh retry expire minimum) else
  if type =? TYPE_MX then
    preference ← getUint16 buf start; r ← decodeName buf (start + 2); Ok (RMx preference r.1) else
  if type =? TYPE_TXT then Ok (RTxt (decode_texts (end_ - start) buf start end_))
  else Ok (RRaw (subarray buf start end_)).

(** A field the object does not have reads as [undefined], which the
    string functions reject. *)
Definition undefined_field {A} : outcome A := Throw ErrTypeError "cannot read property of undefined".

Definition encodeRdata (type : Z) (r : rdata) : outcome bytes :=
  if type =? TYPE_A then match r with RAddress a => ipv4ToBytes a | _ => undefined_field end else
  if type =? TYPE_AAAA then match r with RAddress a => ipv6ToBytes a | _ => undefined_field end else
  if is_name_type type then match r with RTarget t => encodeName t | _ => undefined_field end else
  if type =? TYPE_SOA then
    match r with
    | RSoa mname rname serial refresh retry expire minimum =>
      m ← encodeName mname; n ← encodeName rname;
      Ok (concatBytes [m; n; uint32_bytes (to_uint32 serial) ++ uint32_bytes (to_uint32 refresh) ++ uint32_bytes (to_uint32 retry) ++
        uint32_bytes (to_uint32 expire) ++ uint32_bytes (to_uint32 minimum)])
    | _ => undefined_field
    end else
  if type =? TYPE_MX then
    match r with
    | RMx preference exchange => n ← encodeName exchange; Ok (concatBytes [uint16_bytes preference; n])
    | _ => undefined_field
    end else
  if type =? TYPE_TXT then
    match r with
    | RTxt text => Ok (concatBytes ((fun s => concatBytes [[to_uint8 (Z.of_nat (length s))]; labelBytes s]) <$> text))
    | _ => undefined_field
    end
  else match r with RRaw raw => Ok raw | _ => Ok [] end.

(* ------------------------------------------------------------------ *)
(** ** Questions, records, messages *)

Record question := Question { q_name : jsstr; q_type : Z; q_class : Z }.
Record rr := RR { rr_name : jsstr; rr_type : Z; rr_class : Z; rr_ttl : Z; rr_rdata : rdata }.

Definition decodeQuestion (buf : bytes) (offset : nat) : outcome (question * nat) :=
  n ← decodeName buf offset;
  type ← getUint16 buf n.2; class ← getUint16 buf (n.2 + 2);
  Ok (Question n.1 type class, (n.2 + 4)%nat).

Definition encodeQuestion (q : question) : outcome bytes :=
  n ← encodeName (q_name q); Ok (concatBytes [n; uint16_bytes (q_type q) ++ uint16_bytes (q_class q)]).

Definition decodeRR (buf : bytes) (offset : nat) : outcome (rr * nat) :=
  n ← decodeName buf offset;
  type ← getUint16 buf n.2; cls ← getUint16 buf (n.2 + 2);
  ttl ← getUint32 buf (n.2 + 4); rdlength ← getUint16 buf (n.2 + 8);
  let rdataStart := (n.2 + 10)%nat in
  let rdataEnd := (rdataStart + Z.to_nat rdlength)%nat in
  r ← decodeRdata type buf rdataStart rdataEnd;
  Ok (RR n.1 type cls ttl r, rdataEnd).

Definition encodeRR (r : rr) : outcome bytes :=
  rdataBytes ← encodeRdata (rr_type r) (rr_rdata r);
  n ← encodeName (rr_name r);
  Ok (concatBytes [n; uint16_bytes (rr_type r) ++ uint16_bytes (rr_class r) ++ uint32_bytes (to_uint32 (rr_ttl r)) ++
    uint16_bytes (Z.of_nat (length rdataBytes)); rdataBytes]).

Record header := Header {
  h_id : Z; h_qr : Z; h_opcode : Z; h_aa : Z; h_tc : Z; h_rd : Z; h_ra : Z; h_rcode : Z;
}.
Record message := Message {
  m_header : header; m_questions : list question;
  m_answers : list rr; m_authorities : list rr; m_additionals : list rr;
}.

(** [count] items one after the other. *)
Fixpoint decode_items {A} (decode : bytes -> nat -> outcome (A * nat)) (buf : bytes) (count : nat) (offset : nat)
  : outcome (list A * nat) :=
  match count with
  | O => Ok ([], offset)
  | S count =>
    r ← decode buf offset;
    rest ← decode_items decode buf count r.2;
    Ok (r.1 :: rest.1, rest.2)
  end.

(** [(flags >> i) & mask] *)
Definition flag_bits (flags i mask : Z) : Z := Z.land (Z.shiftr flags i) mask.

Definition decode_header (id flags : Z) : header :=
  Header id (flag_bits flags 15 1) (flag_bits flags 11 0xf) (flag_bits flags 10 1) (flag_bits flags 9 1)
    (flag_bits flags 8 1) (flag_bits flags 7 1) (Z.land flags 0xf).

(** The counts of the header are the lengths of the lists, or the decoder
    has thrown. *)
Definition decodeMessage (buf : bytes) : outcome message :=
  if (length buf <? 12)%nat then Throw ErrError "message shorter than DNS header" else
  flags ← getUint16 buf 2; id ← getUint16 buf 0;
  qdcount ← getUint16 buf 4; ancount ← getUint16 buf 6; nscount ← getUint16 buf 8; arcount ← getUint16 buf 10;
  questions ← decode_items decodeQuestion buf (Z.to_nat qdcount) 12;
  answers ← decode_items decodeRR buf (Z.to_nat ancount) questions.2;
  authorities ← decode_items decodeRR buf (Z.to_nat nscount) answers.2;
  additionals ← decode_items decodeRR buf (Z.to_nat arcount) authorities.2;
  Ok (Message (decode_header id flags) questions.1 answers.1 authorities.1 additionals.1).

Definition header_flags (h : header) : Z :=
  Z.lor (Z.lor (Z.lor (Z.lor (Z.lor (Z.lor (Z.lor 0
    (Z.shiftl (Z.land (h_qr h) 1) 15)) (Z.shiftl (Z.land (h_opcode h) 0xf) 11)) (Z.shiftl (Z.land (h_aa h) 1) 10))
    (Z.shiftl (Z.land (h_tc h) 1) 9)) (Z.shiftl (Z.land (h_rd h) 1) 8)) (Z.shiftl (Z.land (h_ra h) 1) 7))
    (Z.land (h_rcode h) 0xf).

Fixpoint encode_all {A} (encode : A -> outcome bytes) (l : list A) : outcome (list bytes) :=
  match l with
  | [] => Ok []
  | a :: l => b ← encode a; rest ← encode_all encode l; Ok (b :: rest)
  end.

Definition encodeMessage (msg : message) : outcome bytes :=
  let h := m_header msg in
  let headerBytes := uint16_bytes (Z.land (h_id h) 0xffff) ++ uint16_bytes (header_flags h) ++
    uint16_bytes (Z.of_nat (length (m_questions msg))) ++ uint16_bytes (Z.of_nat (length (m_answers msg))) ++
    uint16_bytes (Z.of_nat (length (m_authorities msg))) ++ uint16_bytes (Z.of_nat (length (m_additionals msg))) in
  qs ← encode_all encodeQuestion (m_questions msg);
  ans ← encode_all encodeRR (m_answers msg);
  auths ← encode_all encodeRR (m_authorities msg);
  adds ← encode_all encodeRR (m_additionals msg);
  Ok (concatBytes ([headerBytes] ++ qs ++ ans ++ auths ++ adds)).

(** [buildQuery(name, type, id)] with the flags [opts] may set. *)
Definition buildQuery (name : jsstr) (type id : Z) (opts : header -> header) : outcome bytes :=
  encodeMessage (Message (opts (Header id 0 0 0 0 0 0 0)) [Question name type CLASS_IN] [] [] []).
