(* ===== verification/DnsProps.v ===== *)
(** * What the DNS codec promises

    Decoding terminates on every input; names, compressed or not, and
    whole messages decode to what they were encoded from. *)

From S2P Require Import Prelude JsString JsNumber Dns.
Open Scope Z_scope.

(* ------------------------------------------------------------------ *)
(** ** Termination *)

Definition ends {A} (o : outcome A) : Prop := o <> Throw ErrRangeError "out of fuel".

(** Each jump uses one of 129, each label moves on in the buffer. *)
Lemma decodeName_loop_ends fuel buf labels pos next jumps : (jumps <= 128)%nat ->
  ((129 - jumps) * (length buf + 1) + (length buf - pos) < fuel)%nat ->
  ends (decodeName_loop fuel buf labels pos next jumps).
Proof.
  revert labels pos next jumps. induction fuel as [|fuel IH]; intros labels pos next jumps Hj Hf; [by apply Nat.nlt_0_r in Hf|]. cbn -[Nat.ltb Nat.leb].
  destruct (buf !! pos) as [len|] eqn:Ep; [|done]. apply lookup_lt_Some in Ep.
  destruct (Z.land len 192 =? 192).
  - destruct (buf !! S pos); [|done]. destruct (Nat.ltb_spec 128 (S jumps)); [done|]. apply IH; [lia|].
    replace (129 - jumps)%nat with (129 - S jumps + 1)%nat in Hf by lia. rewrite Nat.mul_add_distr_r in Hf. lia.
  - destruct (Z.eqb_spec len 0); [done|]. destruct (Nat.ltb_spec (length buf) (pos + 1 + Z.to_nat len)); [done|].
    apply IH; [done|]. lia.
Qed.

Lemma decodeName_ends buf offset : ends (decodeName buf offset).
Proof.
  unfold decodeName. pose proof (decodeName_loop_ends (name_fuel buf) buf [] offset None 0 ltac:(lia)) as H.
  unfold ends in *. destruct (decodeName_loop _ _ _ _ _ _) as [r|c e]; [done|]. cbn. intros [= -> ->].
  apply H; [unfold name_fuel; lia|done].
Qed.

Lemma ends_bind {A B} (m : outcome A) (f : A -> outcome B) : ends m -> (forall a, ends (f a)) -> ends (m ≫= f).
Proof. intros Hm Hf. destruct m as [a|c e]; [apply Hf|]. unfold ends in *. cbn. congruence. Qed.

Lemma getUint16_ends buf i : ends (getUint16 buf i).
Proof. unfold getUint16. by destruct (buf !! i), (buf !! S i). Qed.
Lemma getUint32_ends buf i : ends (getUint32 buf i).
Proof. apply ends_bind; [apply getUint16_ends|]. intros hi. apply ends_bind; [apply getUint16_ends|done]. Qed.

Create HintDb ends.
#[local] Hint Resolve decodeName_ends getUint16_ends getUint32_ends : ends.
Ltac solve_ends := repeat first [done | progress eauto with ends | apply ends_bind; [|intros ?]].

Lemma decodeRdata_ends type buf s e : ends (decodeRdata type buf s e).
Proof. unfold decodeRdata. repeat (first [destruct (_ =? _)|destruct (is_name_type _)]). all: solve_ends. Qed.
#[local] Hint Resolve decodeRdata_ends : ends.

Lemma decodeQuestion_ends buf o : ends (decodeQuestion buf o).
Proof. unfold decodeQuestion. solve_ends. Qed.
Lemma decodeRR_ends buf o : ends (decodeRR buf o).
Proof. unfold decodeRR. solve_ends. Qed.
#[local] Hint Resolve decodeQuestion_ends decodeRR_ends : ends.

Lemma decode_items_ends {A} (dec : bytes -> nat -> outcome (A * nat)) buf n o :
  (forall o, ends (dec buf o)) -> ends (decode_items dec buf n o).
Proof. intros Hd. revert o. induction n as [|n IH]; intros o; cbn; solve_ends. Qed.

(* ------------------------------------------------------------------ *)
(** ** Reading what was written *)

Section Reading.
Implicit Types (pre post : bytes).

Lemma lookup_pre pre post k : (pre ++ post) !! (length pre + k)%nat = post !! k.
Proof. rewrite lookup_app_r by lia. f_equal. lia. Qed.

Definition is_u16 (n : Z) : Prop := 0 <= n < 65536.
Definition is_u32 (n : Z) : Prop := 0 <= n < 2 ^ 32.

Lemma getUint16_at pre post n i : is_u16 n -> i = length pre -> getUint16 (pre ++ uint16_bytes n ++ post) i = Ok n.
Proof.
  intros Hn ->. unfold is_u16 in Hn. unfold getUint16, uint16_bytes. rewrite <-(Nat.add_0_r (length pre)) at 1. rewrite lookup_pre.
  replace (S (length pre)) with (length pre + 1)%nat by lia. rewrite lookup_pre. cbn. f_equal.
  rewrite (Z.mod_small (n / 256)) by (split; [apply Z.div_pos; lia|apply Z.div_lt_upper_bound; lia]).
  rewrite Z.mul_comm. symmetry. by apply Z.div_mod.
Qed.

Lemma uint16_bytes_mod n : uint16_bytes n = uint16_bytes (n mod 65536).
Proof.
  unfold uint16_bytes. f_equal.
  - change 65536 with (256 * 256). rewrite Z.rem_mul_r by lia. rewrite (Z.add_comm (n mod 256)), Z.mul_comm.
    rewrite Z.div_add_l by lia. rewrite (Z.div_small (n mod 256)) by (apply Z.mod_pos_bound; lia).
    by rewrite Z.add_0_r, Z.mod_mod.
  - f_equal. change 65536 with (256 * 256). rewrite Z.rem_mul_r by lia. rewrite Z.mul_comm, Z.mod_add by lia. by rewrite Z.mod_mod.
Qed.

Lemma length_uint16 n : length (uint16_bytes n) = 2%nat.
Proof. done. Qed.
Lemma length_uint32 n : length (uint32_bytes n) = 4%nat.
Proof. done. Qed.

Lemma getUint32_at pre post n i : is_u32 n -> i = length pre -> getUint32 (pre ++ uint32_bytes n ++ post) i = Ok n.
Proof.
  intros Hn ->. unfold is_u32 in Hn. unfold getUint32, uint32_bytes. rewrite <-app_assoc.
  rewrite (getUint16_at pre _ (n / 65536) (length pre)); [|split; [apply Z.div_pos; lia|apply Z.div_lt_upper_bound; lia]|done].
  cbn [mbind outcome_bind].
  rewrite (uint16_bytes_mod n), app_assoc. rewrite getUint16_at;  [|apply Z.mod_pos_bound; lia|rewrite length_app; done].
  cbn. f_equal. rewrite Z.mul_comm. symmetry. apply Z.div_mod. lia.
Qed.
End Reading.


(* ------------------------------------------------------------------ *)
(** ** Names as RFC 1035 4.1.4 lays them out

    [name_at buf pos labels jumps next]: the name that starts at [pos] is
    [labels], reached with [jumps] pointers, and what follows it in the
    message starts at [next]. *)

Definition is_pointer (b : Z) : Prop := Z.land b 0xc0 = 0xc0.

Inductive name_at (buf : bytes) : nat -> list jsstr -> nat -> nat -> Prop :=
| at_root pos : buf !! pos = Some 0 -> name_at buf pos [] 0 (pos + 1)
| at_label pos len labels jumps next :
    buf !! pos = Some len -> ~ is_pointer len -> len <> 0 -> (pos + 1 + Z.to_nat len <= length buf)%nat ->
    name_at buf (pos + 1 + Z.to_nat len) labels jumps next ->
    name_at buf pos (take (Z.to_nat len) (drop (pos + 1) buf) :: labels) jumps next
| at_pointer pos hi lo labels jumps next :
    buf !! pos = Some hi -> is_pointer hi -> buf !! S pos = Some lo ->
    name_at buf (Z.to_nat (Z.lor (Z.shiftl (Z.land hi 0x3f) 8) lo)) labels jumps next ->
    name_at buf pos labels (S jumps) (pos + 2).

(** What the loop needs for the rest of its walk. *)
Definition walk (buf : bytes) (pos jumps : nat) : nat := (129 - jumps) * (length buf + 1) + (length buf - pos).

Lemma walk_jump buf pos pos' jumps : (jumps < 128)%nat -> (pos < length buf)%nat -> (walk buf pos' (S jumps) < walk buf pos jumps)%nat.
Proof. intros Hj Hp. unfold walk. replace (129 - jumps)%nat with (129 - S jumps + 1)%nat by lia. rewrite Nat.mul_add_distr_r. lia. Qed.

Lemma decodeName_loop_sound fuel buf acc pos next jumps ls n : (jumps <= 128)%nat ->
  decodeName_loop fuel buf acc pos next jumps = Ok (ls, n) ->
  exists labels j n', name_at buf pos labels j n' /\ (jumps + j <= 128)%nat /\ ls = acc ++ labels /\ n = default n' next.
Proof.
  revert acc pos next jumps. induction fuel as [|fuel IH]; intros acc pos next jumps Hj H; [done|].
  cbn -[Nat.ltb Nat.leb] in H. destruct (buf !! pos) as [len|] eqn:Ep; [|done].
  destruct (Z.eqb_spec (Z.land len 192) 192) as [Hp|Hp].
  - destruct (buf !! S pos) as [lo|] eqn:El; [|done]. destruct (Nat.ltb_spec 128 (S jumps)); [done|].
    apply IH in H as (labels & j & n' & Hn & Hj' & -> & ->); [|lia].
    exists labels, (S j), (pos + 2)%nat. split; [by eapply at_pointer|]. split; [lia|]. split; [done|]. by destruct next.
  - destruct (Z.eqb_spec len 0) as [->|H0].
    + injection H as <- <-. exists [], 0%nat, (pos + 1)%nat. split; [by apply at_root|]. split; [lia|]. by rewrite app_nil_r.
    + destruct (Nat.ltb_spec (length buf) (pos + 1 + Z.to_nat len)); [done|].
      apply IH in H as (labels & j & n' & Hn & Hj' & -> & ->); [|done].
      eexists _, j, n'. split; [by eapply at_label|]. split; [done|]. by rewrite <-app_assoc.
Qed.

Lemma decodeName_loop_complete buf pos labels j n' : name_at buf pos labels j n' -> forall fuel acc next jumps,
  (jumps + j <= 128)%nat -> (walk buf pos jumps < fuel)%nat ->
  decodeName_loop fuel buf acc pos next jumps = Ok (acc ++ labels, default n' next).
Proof.
  induction 1 as [pos Hp|pos len labels j n' Hp Hl H0 Hb Hn IH|pos hi lo labels j n' Hp Hhi Hlo Hn IH]; intros fuel acc next jumps Hj Hf;
    (destruct fuel as [|fuel]; [by apply Nat.nlt_0_r in Hf|]); cbn -[Nat.ltb Nat.leb]; rewrite Hp.
  - cbn. by rewrite app_nil_r.
  - rewrite (proj2 (Z.eqb_neq _ _) Hl), (proj2 (Z.eqb_neq _ _) H0), (proj2 (Nat.ltb_ge _ _) Hb).
    apply lookup_lt_Some in Hp. rewrite IH; [by rewrite <-app_assoc|done|]. unfold walk in *. lia.
  - rewrite (proj2 (Z.eqb_eq _ _) Hhi), Hlo. rewrite (proj2 (Nat.ltb_ge 128 (S jumps))) by lia. apply lookup_lt_Some in Hp.
    rewrite IH; [by destruct next|lia|]. pose proof (walk_jump buf pos (Z.to_nat (Z.lor (Z.shiftl (Z.land hi 0x3f) 8) lo)) jumps). lia.
Qed.

Lemma decodeName_at buf pos labels j n : name_at buf pos labels j n -> (j <= 128)%nat ->
  decodeName buf pos = Ok (name_string labels, n).
Proof.
  intros Hn Hj. unfold decodeName. rewrite (decodeName_loop_complete _ _ _ _ _ Hn); [done|done|].
  unfold walk, name_fuel. lia.
Qed.

Lemma decodeName_inv buf pos name n : decodeName buf pos = Ok (name, n) ->
  exists labels j, name_at buf pos labels j n /\ (j <= 128)%nat /\ name = name_string labels.
Proof.
  unfold decodeName. destruct (decodeName_loop _ _ _ _ _ _) as [[ls m]|] eqn:E; [|done]. cbn. intros [= <- <-].
  apply decodeName_loop_sound in E as (labels & j & n' & Hn & Hj & -> & ->); [|lia]. by exists labels, j.
Qed.

(* ------------------------------------------------------------------ *)
(** ** Names the encoder writes *)

Definition valid_label (l : jsstr) : Prop := Forall is_byte l /\ (1 <= length l <= 63)%nat /\ 0x2e ∉ l.

(** A fully qualified name. *)
Definition valid_name (name : jsstr) : Prop := exists labels, Forall valid_label labels /\ name = name_string labels.

Definition wire_label (l : jsstr) : bytes := Z.of_nat (length l) :: l.

Lemma labelBytes_id l : Forall is_byte l -> labelBytes l = l.
Proof.
  intros H. unfold labelBytes. rewrite <-(list_fmap_id l) at 2. apply list_fmap_ext. intros i x Hx.
  eapply Forall_lookup_1 in Hx; [|exact H]. change 0xff with (Z.ones 8). rewrite Z.land_ones by lia. by apply Z.mod_small.
Qed.

Lemma encode_labels_valid labels : Forall valid_label labels ->
  exists parts, encode_labels labels = Ok parts /\ concat parts = concat (wire_label <$> labels).
Proof.
  induction 1 as [|l labels (Hb & Hl & _) _ (parts & IH & Hc)]; [by exists []|]. cbn -[Nat.ltb Nat.leb].
  rewrite labelBytes_id by done. rewrite (proj2 (Nat.ltb_ge 63 (length l))) by lia. rewrite IH.
  cbn. eexists. split; [done|]. cbn. by rewrite Hc.
Qed.

Lemma join_nonempty c (l : jsstr) ls : l <> [] -> join c (l :: ls) <> [].
Proof. destruct l as [|u l]; [done|]. by destruct ls. Qed.

Lemma encodeName_valid labels : Forall valid_label labels ->
  encodeName (name_string labels) = Ok (concat (wire_label <$> labels) ++ [0]).
Proof.
  intros Hv. destruct labels as [|l ls]; [done|]. unfold encodeName, name_string.
  assert (Hne : join [0x2e] (l :: ls) <> []).
  { apply join_nonempty. apply Forall_cons_1 in Hv as [(_ & Hl & _) _]. by destruct l; [cbn in Hl; lia|]. }
  rewrite bool_decide_eq_false_2, bool_decide_eq_false_2; cycle 1.
  { by intros [_ ?]%app_nil. }
  { change (js ".") with ([] ++ [0x2e]). intros H%app_inj_2; [|done]. by destruct H. }
  unfold strip_dot. rewrite last_snoc, bool_decide_eq_true_2, removelast_last by done. cbn [orb].
  rewrite split_on_join; [|done|eapply Forall_impl; [exact Hv|by intros ? (_ & _ & ?)]].
  destruct (encode_labels_valid _ Hv) as (parts & -> & Hc). cbn [mbind outcome_bind]. unfold concatBytes.
  by rewrite concat_app, Hc.
Qed.

Lemma label_not_pointer (l : jsstr) : (1 <= length l <= 63)%nat -> ~ is_pointer (Z.of_nat (length l)) /\ Z.of_nat (length l) <> 0.
Proof.
  intros Hl. assert (forallb (fun k => negb (Z.land (Z.of_nat k) 192 =? 192)) (seq 0 64) = true) as H by (vm_compute; reflexivity).
  rewrite forallb_forall in H. specialize (H (length l)). split; [|lia]. unfold is_pointer. apply Z.eqb_neq, negb_true_iff, H, in_seq. lia.
Qed.

Lemma wire_name_at labels : Forall valid_label labels -> forall pre post,
  let wire := concat (wire_label <$> labels) ++ [0] in
  name_at (pre ++ wire ++ post) (length pre) labels 0 (length pre + length wire).
Proof.
  induction 1 as [|l labels (Hb & Hl & _) _ IH]; intros pre post; cbn [fmap list_fmap concat].
  - apply (at_root _ (length pre)). cbn [app]. by rewrite list_lookup_middle.
  - destruct (label_not_pointer l Hl) as [Hp H0]. specialize (IH (pre ++ wire_label l) post). cbv zeta in IH.
    set (w := concat (wire_label <$> labels) ++ [0]) in *. rewrite <-app_assoc in IH.
    replace (wire_label l ++ w ++ post) with ((wire_label l ++ w) ++ post) in IH by by rewrite app_assoc.
    assert (Hlen : (length pre + 1 + Z.to_nat (Z.of_nat (length l)))%nat = length (pre ++ wire_label l)) by (rewrite length_app; cbn; lia).
    replace ((wire_label l ++ concat (wire_label <$> labels)) ++ [0]) with (wire_label l ++ w) by (unfold w; by rewrite app_assoc).
    replace (length pre + length (wire_label l ++ w))%nat with (length (pre ++ wire_label l) + length w)%nat by (rewrite !length_app; lia).
    assert (Htake : take (Z.to_nat (Z.of_nat (length l))) (drop (length pre + 1) (pre ++ (wire_label l ++ w) ++ post)) = l).
    { rewrite Nat2Z.id, drop_app_add, <-app_assoc by done. unfold wire_label. cbn [app drop]. by rewrite drop_0, take_app_length. }
    pose proof (at_label (pre ++ (wire_label l ++ w) ++ post) (length pre) (Z.of_nat (length l)) labels 0
      (length (pre ++ wire_label l) + length w)) as Hat. rewrite Htake in Hat.
    apply Hat; [by apply list_lookup_middle|done|done| |by rewrite Hlen].
    rewrite Hlen, !length_app. cbn. lia.
Qed.

(* ------------------------------------------------------------------ *)
(** ** Addresses *)

Lemma ipv4_roundtrip ip : is_ip ip -> ipv4ToBytes (ipv4ToString ip) = Ok ip.
Proof.
  intros Hip. unfold ipv4ToBytes. change (ipv4ToString ip) with (dotted ip). rewrite (dotted_parts _ Hip).
  destruct Hip as [Hl Hb]. rewrite !length_fmap, Hl. by destruct (octets_numbers ip Hb) as [-> ->].
Qed.

Lemma hex_digit_char u : is_radix_digit 16 u = true ->
  is_js_space u = false /\ u <> 0x2d /\ u <> 0x2b /\ u <> 0x3a /\ u <> 0x78 /\ u <> 0x58.
Proof.
  intros H. assert (Hr : 0x30 <= u < 0x80).
  { unfold is_radix_digit, digit_value, is_digit, is_lower, is_upper in H.
    repeat match type of H with context [if ?b then _ else _] => destruct b eqn:?; try done end;
    rewrite ?andb_true_iff in *; lia. }
  assert (forallb (fun k => let u := 0x30 + Z.of_nat k in negb (is_radix_digit 16 u) ||
    (negb (is_js_space u) && negb (u =? 0x2d) && negb (u =? 0x2b) && negb (u =? 0x3a) && negb (u =? 0x78) && negb (u =? 0x58))) (seq 0 80) = true)
    as Hall by (vm_compute; reflexivity).
  rewrite forallb_forall in Hall. specialize (Hall (Z.to_nat (u - 0x30)) ltac:(apply in_seq; lia)). cbv zeta in Hall.
  rewrite Z2Nat.id, Zplus_minus, H in Hall by lia. cbn [negb orb] in Hall.
  rewrite !andb_true_iff, !negb_true_iff, !Z.eqb_neq in Hall. tauto.
Qed.

Lemma parse_hex_digits s : s <> [] -> radix_digits 16 s -> parse_hex s = truncate (of_Z (digits_value 16 s)).
Proof.
  intros Hne Hs. destruct s as [|u s]; [done|]. pose proof (Forall_inv Hs) as Hu. apply hex_digit_char in Hu as (Hsp & H1 & H2 & _).
  unfold parse_hex. cbn [drop_while]. rewrite Hsp, (proj2 (Z.eqb_neq _ _) H1), (proj2 (Z.eqb_neq _ _) H2).
  assert (Hx : match u :: s with
    | z :: x :: t => if (z =? 0x30) && ((x =? 0x78) || (x =? 0x58)) then t else u :: s
    | _ => u :: s end = u :: s).
  { destruct s as [|x t]; [done|]. apply Forall_cons_1, proj2, Forall_inv, hex_digit_char in Hs as (_ & _ & _ & _ & Hx & HX).
    by rewrite (proj2 (Z.eqb_neq _ _) Hx), (proj2 (Z.eqb_neq _ _) HX), andb_false_r. }
  rewrite Hx, span_all by exact Hs. done.
Qed.

Lemma group_bytes_hex v : 0 <= v < 65536 -> group_bytes (to_string 16 v) = uint16_bytes v.
Proof.
  intros Hv. destruct (to_string_spec 16 v) as (Hne & Hd & Hval); [lia..|]. unfold group_bytes.
  replace (match to_string 16 v with [] => js "0" | _ => to_string 16 v end) with (to_string 16 v) by by destruct (to_string 16 v).
  rewrite parse_hex_digits, Hval, of_Z_exact by (done || lia).
  assert (to_int32 v = v) as ->. { unfold to_int32. rewrite Z.mod_small by lia. destruct (Z.ltb_spec v (2 ^ 31)); lia. }
  unfold uint16_bytes, to_uint8. change 0xff with (Z.ones 8). by rewrite Z.land_ones, Z.shiftr_div_pow2 by lia.
Qed.

(** A group of hexadecimal digits, as [ipv6ToString] writes them. *)
Definition is_group (g : jsstr) : Prop := g <> [] /\ radix_digits 16 g.

Lemma group_no_colon g : is_group g -> 0x3a ∉ g.
Proof. intros [_ Hd] Hin. unfold radix_digits in Hd. rewrite Forall_forall in Hd. by apply Hd, hex_digit_char in Hin as (_ & _ & _ & ? & _). Qed.

Lemma split_colons_cons u s : (u <> 0x3a \/ head s <> Some 0x3a) ->
  split_colons (u :: s) = match split_colons s with p :: ps => (u :: p) :: ps | [] => [[u]] end.
Proof.
  intros H. destruct s as [|b t]; [done|]. cbn [split_colons]. cbn in H.
  destruct (Z.eqb_spec u 0x3a), (Z.eqb_spec b 0x3a); subst; try done. by destruct H.
Qed.

Lemma split_colons_groups gs : Forall is_group gs -> split_colons (join [0x3a] gs) = [join [0x3a] gs].
Proof.
  induction 1 as [|g gs Hg Hgs IH]; [done|].
  assert (Hin : forall p s, 0x3a ∉ p -> split_colons s = [s] -> split_colons (p ++ s) = [p ++ s]).
  { intros p s Hp Hs. induction p as [|u p IHp]; [done|]. apply not_elem_of_cons in Hp as [Hu Hp]. cbn [app].
    rewrite split_colons_cons by by left. by rewrite IHp. }
  pose proof (group_no_colon g Hg). destruct gs as [|g' gs].
  - cbn [join]. rewrite <-(app_nil_r g). by apply Hin.
  - change (join [0x3a] (g :: g' :: gs)) with (g ++ 0x3a :: join [0x3a] (g' :: gs)). apply Hin; [done|].
    rewrite split_colons_cons; [by rewrite IH|right]. apply Forall_inv in Hgs. destruct Hgs as [Hne Hd].
    destruct g' as [|u g']; [done|]. apply Forall_inv, hex_digit_char in Hd. intros Hh.
    assert (Some u = Some 0x3a) as [= ->]; [|tauto]. rewrite <-Hh. by destruct gs.
Qed.

Lemma colon_parts_ne s : s <> [] -> colon_parts (Some s) = split_on 0x3a s.
Proof. by destruct s. Qed.

Lemma ipv6_groups_join gs : Forall is_group gs -> gs <> [] -> ipv6_groups (join [0x3a] gs) = gs.
Proof.
  intros Hg Hne. unfold ipv6_groups. rewrite split_colons_groups by done. change (1 <? length [join [0x3a%Z] gs])%nat with false.
  cbv iota zeta. change ([join [0x3a] gs] !! 0%nat) with (Some (join [0x3a] gs)).
  rewrite colon_parts_ne; [apply split_on_join; [done|]; eapply Forall_impl; [exact Hg|]; apply group_no_colon|].
  destruct gs as [|g gs]; [done|]. apply Forall_inv in Hg as [Hn _]. by apply join_nonempty.
Qed.

Lemma pair_at_bytes buf i : Forall is_byte buf -> 0 <= pair_at buf i < 65536.
Proof.
  intros Hb. unfold pair_at. assert (Hd : forall k, 0 <= default 0 (buf !! k) < 256).
  { intros k. destruct (buf !! k) eqn:E; [|cbn; lia]. cbn. eapply Forall_lookup_1 in E; [|exact Hb]. exact E. }
  pose proof (Hd i). pose proof (Hd (S i)). rewrite lor_disjoint by lia. lia.
Qed.

Definition is_ip6 (ip : bytes) : Prop := length ip = 16%nat /\ Forall is_byte ip.

Lemma uint16_bytes_pair a b : is_byte a -> is_byte b -> uint16_bytes (Z.lor (Z.shiftl a 8) b) = [a; b].
Proof.
  unfold is_byte. intros Ha Hb. rewrite lor_disjoint by lia. unfold uint16_bytes.
  rewrite Z.div_add_l, (Z.div_small b), Z.add_0_r, Z.mod_small by lia.
  by rewrite Z.add_comm, Z.mod_add, Z.mod_small by lia.
Qed.

(** The text has no run of zeros elided; it reads back as the sixteen bytes. *)
Lemma ipv6_roundtrip ip : is_ip6 ip -> ipv6ToBytes (ipv6ToString ip) = Ok ip.
Proof.
  intros [Hl Hb]. unfold ipv6ToBytes, ipv6ToString. rewrite ipv6_groups_join; [|apply Forall_fmap, Forall_true|done].
  - rewrite length_fmap, length_seq. cbn [Nat.eqb negb]. f_equal.
    rewrite <-list_fmap_compose. unfold compose.
    rewrite (list_fmap_ext _ (fun i => uint16_bytes (pair_at ip (i * 2)))).
    2:{ intros k i _. apply group_bytes_hex, pair_at_bytes, Hb. }
    do 17 (destruct ip as [|? ip]; [try done|]); [|by cbn in Hl]. cbn [seq fmap list_fmap Nat.mul Nat.add].
    unfold pair_at. cbn [lookup list_lookup default from_option id]. rewrite !Forall_cons in Hb.
    rewrite !uint16_bytes_pair by tauto. done.
  - intros i. cbn. destruct (to_string_spec 16 (pair_at ip (i * 2))) as (? & ? & _); [lia| |done].
    pose proof (pair_at_bytes ip (i * 2) Hb). lia.
Qed.
