(* ===== verification/DnsRoundtrip.v ===== *)
(** * What the DNS codec promises, resource records and messages

    Questions, records and whole messages decode to what they were encoded
    from, wherever they stand; decoding ends on every input. *)

From Stdlib Require Import ssreflect.
From S2P Require Import Prelude JsString JsNumber Dns DnsProps.
Open Scope Z_scope.

(* ------------------------------------------------------------------ *)
(** ** What is written is read back

    [roundtrips encode decode a]: [a] has an encoding, and wherever the
    encoding stands in a message the decoder finds [a] there and goes on
    right behind it. *)

Definition roundtrips {A} (encode : A -> outcome bytes) (decode : bytes -> nat -> outcome (A * nat)) (a : A) : Prop :=
  exists b, encode a = Ok b /\ forall pre post, decode (pre ++ b ++ post) (length pre) = Ok (a, (length pre + length b)%nat).

Lemma name_roundtrips name : valid_name name -> roundtrips encodeName decodeName name.
Proof.
  intros (labels & Hv & ->). rw /roundtrips encodeName_valid //. eexists. split; [done|]. intros pre post.
  eapply decodeName_at; [by apply wire_name_at|lia].
Qed.

Lemma getUint16_in pre mid n post i : is_u16 n -> i = (length pre + length mid)%nat ->
  getUint16 (pre ++ mid ++ uint16_bytes n ++ post) i = Ok n.
Proof. intros Hn ->. rw app_assoc. apply getUint16_at; [done|]. by rw length_app. Qed.
(** A string of four bytes that [getUint32] reads as [n], whatever it is. *)
Definition reads32 (b : bytes) (n : Z) : Prop :=
  length b = 4%nat /\ forall pre mid post, getUint32 (pre ++ mid ++ b ++ post) (length pre + length mid) = Ok n.

Lemma uint32_reads n : is_u32 n -> reads32 (uint32_bytes (to_uint32 n)) n.
Proof.
  intros Hn. unfold to_uint32. rw Z.mod_small //. split; [done|]. intros pre mid post. rw app_assoc. apply getUint32_at; [done|]. by rw length_app.
Qed.

Lemma subarray_at pre b post : subarray (pre ++ b ++ post) (length pre) (length pre + length b) = b.
Proof. unfold subarray. by rw Nat.add_sub' drop_app_length take_app_length. Qed.

(* ------------------------------------------------------------------ *)
(** *** Resource data *)

Definition txt_bytes (s : jsstr) : bytes := Z.of_nat (length s) :: s.
Definition valid_text (s : jsstr) : Prop := Forall is_byte s /\ (length s <= 255)%nat.

Lemma encode_texts text : Forall valid_text text ->
  concatBytes ((fun s => concatBytes [[to_uint8 (Z.of_nat (length s))]; labelBytes s]) <$> text) = concat (txt_bytes <$> text).
Proof.
  intros Hv. unfold concatBytes. f_equal. apply list_fmap_ext. intros i s Hs.
  destruct (Forall_lookup_1 _ _ _ _ Hv Hs) as [Hb Hl]. cbn. rw app_nil_r labelBytes_id //.
  unfold to_uint8. rw Z.mod_small; [lia|done].
Qed.

Lemma decode_texts_at text : forall fuel pre post,
  (length (concat (txt_bytes <$> text)) <= fuel)%nat ->
  decode_texts fuel (pre ++ concat (txt_bytes <$> text) ++ post) (length pre) (length pre + length (concat (txt_bytes <$> text))) = text.
Proof.
  induction text as [|s text IH]; intros fuel pre post Hf.
  - cbn. rw Nat.add_0_r. destruct fuel as [|fuel]; [done|]. cbn -[Nat.ltb]. by rw Nat.ltb_irrefl.
  - cbn [fmap list_fmap concat] in *. set (w := concat (txt_bytes <$> text)) in *. cbn [txt_bytes app length] in Hf.
    destruct fuel as [|fuel]; [lia|]. cbn -[Nat.ltb].
    rw (proj2 (Nat.ltb_lt _ _)); [rw !length_app; cbn; lia|].
    rw list_lookup_middle // Nat2Z.id. unfold subarray.
    replace (length pre + 1 + length s - (length pre + 1))%nat with (length s) by lia.
    rw drop_app_add. cbn [drop]. rw drop_0 -!app_assoc take_app_length. f_equal.
    specialize (IH fuel (pre ++ txt_bytes s) post). fold w in IH. rw length_app -app_assoc in IH. cbn [txt_bytes app length] in IH.
    rw -[in RHS]IH; [rw length_app in Hf; lia|]. f_equal; rw ?length_app; lia.
Qed.

Definition valid_rdata (type : Z) (r : rdata) : Prop :=
  match r with
  | RAddress a => (type = TYPE_A /\ exists ip, is_ip ip /\ a = ipv4ToString ip) \/ (type = TYPE_AAAA /\ exists ip, is_ip6 ip /\ a = ipv6ToString ip)
  | RTarget t => is_name_type type = true /\ valid_name t
  | RSoa mname rname serial refresh retry expire minimum =>
    type = TYPE_SOA /\ valid_name mname /\ valid_name rname /\ is_u32 serial /\ is_u32 refresh /\ is_u32 retry /\ is_u32 expire /\ is_u32 minimum
  | RMx preference exchange => type = TYPE_MX /\ is_u16 preference /\ valid_name exchange
  | RTxt text => type = TYPE_TXT /\ Forall valid_text text
  | RRaw _ => is_name_type type = false /\ type ∉ [TYPE_A; TYPE_AAAA; TYPE_SOA; TYPE_MX; TYPE_TXT]
  end.

Ltac len_bytes := rw ?length_app ?length_uint32 ?length_uint16; lia.

Lemma soa_roundtrips mname rname serial refresh retry expire minimum :
  valid_rdata TYPE_SOA (RSoa mname rname serial refresh retry expire minimum) ->
  exists b, encodeRdata TYPE_SOA (RSoa mname rname serial refresh retry expire minimum) = Ok b /\ forall pre post,
    decodeRdata TYPE_SOA (pre ++ b ++ post) (length pre) (length pre + length b) = Ok (RSoa mname rname serial refresh retry expire minimum).
Proof.
  intros (_ & (m & Hm & Dm)%name_roundtrips & (n & Hn & Dn)%name_roundtrips
    & [L1 R1]%uint32_reads & [L2 R2]%uint32_reads & [L3 R3]%uint32_reads & [L4 R4]%uint32_reads & [_ R5]%uint32_reads).
  unfold encodeRdata, decodeRdata. cbn [TYPE_SOA Z.eqb TYPE_A TYPE_AAAA is_name_type orb TYPE_NS TYPE_CNAME TYPE_PTR Pos.eqb].
  rw Hm Hn. cbn [mbind outcome_bind]. eexists. split; [done|]. intros pre post.
  move: L1 L2 L3 L4 R1 R2 R3 R4 R5.
  move: (uint32_bytes _) (uint32_bytes _) (uint32_bytes _) (uint32_bytes _) (uint32_bytes _) => b5 b4 b3 b2 b1 L1 L2 L3 L4 R1 R2 R3 R4 R5.
  unfold concatBytes. cbn [concat]. rw app_nil_r -!app_assoc Dm. cbn [mbind outcome_bind fst snd].
  rw (app_assoc pre m) -length_app Dn. cbn [mbind outcome_bind fst snd]. rw (app_assoc (pre ++ m) n) -length_app.
  rw -!app_assoc. set (p := length (pre ++ m ++ n)).
  rw (_ : getUint32 _ p = Ok serial); [by rw -(R1 (pre ++ m ++ n) [] (b2 ++ b3 ++ b4 ++ b5 ++ post)) -!app_assoc /= Nat.add_0_r|].
  rw (_ : getUint32 _ (p + 4) = Ok refresh); [by rw -(R2 (pre ++ m ++ n) b1 (b3 ++ b4 ++ b5 ++ post)) L1 -!app_assoc|].
  rw (_ : getUint32 _ (p + 8) = Ok retry); [by rw -(R3 (pre ++ m ++ n) (b1 ++ b2) (b4 ++ b5 ++ post)) (length_app b1) L1 L2 -!app_assoc|].
  rw (_ : getUint32 _ (p + 12) = Ok expire).
  { by rw -(R4 (pre ++ m ++ n) (b1 ++ b2 ++ b3) (b5 ++ post)) (length_app b1) (length_app b2) L1 L2 L3 -!app_assoc. }
  rw (_ : getUint32 _ (p + 16) = Ok minimum); [|done].
  by rw -(R5 (pre ++ m ++ n) (b1 ++ b2 ++ b3 ++ b4) post) (length_app b1) (length_app b2) (length_app b3) L1 L2 L3 L4 -!app_assoc.
Qed.

Lemma rdata_roundtrips type r : valid_rdata type r -> exists b, encodeRdata type r = Ok b /\ forall pre post,
  decodeRdata type (pre ++ b ++ post) (length pre) (length pre + length b) = Ok r.
Proof.
  destruct r as [a|t|mname rname serial refresh retry expire minimum|preference exchange|text|raw]; intros Hv.
  - destruct Hv as [[-> (ip & Hip & ->)]|[-> (ip & Hip & ->)]].
    + exists ip. split; [by apply ipv4_roundtrip|]. intros pre post. unfold decodeRdata. cbn -[ipv4ToString subarray]. by rw subarray_at.
    + exists ip. split; [by apply ipv6_roundtrip|]. intros pre post. unfold decodeRdata. cbn -[ipv6ToString subarray]. by rw subarray_at.
  - destruct Hv as [Ht (b & Hb & Db)%name_roundtrips]. exists b. unfold encodeRdata, decodeRdata.
    assert ((type =? TYPE_A) = false /\ (type =? TYPE_AAAA) = false) as [-> ->].
    { unfold is_name_type in Ht. rw !orb_true_iff !Z.eqb_eq in Ht. by destruct Ht as [[-> | ->] | ->]. }
    rw Ht. split; [done|]. intros pre post. by rw Db.
  - pose proof Hv as [-> _]. by apply soa_roundtrips.
  - destruct Hv as (-> & Hp & (b & Hb & Db)%name_roundtrips). unfold encodeRdata, decodeRdata. cbn -[encodeName decodeName getUint16 concatBytes uint16_bytes].
    rw Hb. eexists. split; [done|]. intros pre post. unfold concatBytes. cbn [concat]. rw app_nil_r -app_assoc getUint16_at //.
    cbn [mbind outcome_bind]. rw (app_assoc pre). specialize (Db (pre ++ uint16_bytes preference) post).
    rw length_app length_uint16 in Db. by rw Db.
  - destruct Hv as [-> Ht]. unfold encodeRdata, decodeRdata. cbn -[concatBytes decode_texts]. rw encode_texts //. eexists. split; [done|].
    intros pre post. rw decode_texts_at //. lia.
  - destruct Hv as [Hn Ht]. exists raw. unfold encodeRdata, decodeRdata. rw Hn.
    rw !not_elem_of_cons in Ht. destruct Ht as (H1 & H2 & H3 & H4 & H5 & _).
    apply Z.eqb_neq in H1, H2, H3, H4, H5. rw H1 H2 H3 H4 H5. split; [done|]. intros pre post. by rw subarray_at.
Qed.

(* ------------------------------------------------------------------ *)
(** *** Questions and records *)

Definition valid_question (q : question) : Prop := valid_name (q_name q) /\ is_u16 (q_type q) /\ is_u16 (q_class q).

Lemma question_roundtrips q : valid_question q -> roundtrips encodeQuestion decodeQuestion q.
Proof.
  destruct q as [name type class]. intros ((n & Hn & Dn)%name_roundtrips & Ht & Hc). unfold roundtrips, encodeQuestion, decodeQuestion.
  cbn [q_name q_type q_class] in *. rw Hn. cbn [mbind outcome_bind]. eexists. split; [done|]. intros pre post.
  unfold concatBytes. cbn [concat]. rw app_nil_r -!app_assoc Dn. cbn [mbind outcome_bind fst snd].
  rw (getUint16_in pre n type _ (length pre + length n)) //. cbn [mbind outcome_bind]. by rw (app_assoc n) getUint16_in // ?length_app ?Nat.add_assoc.
Qed.

Definition valid_rr (r : rr) : Prop :=
  valid_name (rr_name r) /\ is_u16 (rr_type r) /\ is_u16 (rr_class r) /\ is_u32 (rr_ttl r) /\
  valid_rdata (rr_type r) (rr_rdata r) /\ (forall b, encodeRdata (rr_type r) (rr_rdata r) = Ok b -> Z.of_nat (length b) < 65536).

Lemma rr_roundtrips r : valid_rr r -> roundtrips encodeRR decodeRR r.
Proof.
  destruct r as [name type class ttl rd]. unfold valid_rr, roundtrips, encodeRR, decodeRR. cbn [rr_name rr_type rr_class rr_ttl rr_rdata].
  intros ((n & Hn & Dn)%name_roundtrips & Ht & Hc & [L R]%uint32_reads & (b & Hb & Db)%rdata_roundtrips & Hlen). specialize (Hlen b Hb).
  rw Hb Hn. cbn [mbind outcome_bind]. eexists. split; [done|]. intros pre post. move: (uint32_bytes _) L R => w L R.
  unfold concatBytes. cbn [concat]. rw app_nil_r -!app_assoc Dn. cbn [mbind outcome_bind fst snd].
  set (tb := uint16_bytes type). set (cb := uint16_bytes class). set (lb := uint16_bytes (Z.of_nat (length b))).
  rw (_ : getUint16 _ (length pre + length n) = Ok type); [by apply getUint16_in|]. cbn [mbind outcome_bind].
  rw (_ : getUint16 _ (length pre + length n + 2) = Ok class); [rw (app_assoc n); apply getUint16_in; [done|len_bytes]|]. cbn [mbind outcome_bind].
  rw (_ : getUint32 _ (length pre + length n + 4) = Ok ttl).
  { rw -(R pre (n ++ tb ++ cb) (lb ++ b ++ post)) -!app_assoc. f_equal. len_bytes. }
  rw (_ : getUint16 _ (length pre + length n + 8) = Ok (Z.of_nat (length b))).
  { rw (_ : n ++ tb ++ cb ++ w ++ lb ++ b ++ post = (n ++ tb ++ cb ++ w) ++ lb ++ b ++ post); [by rw -!app_assoc|].
    apply getUint16_in; [unfold is_u16; lia|rw !length_app L; cbn; lia]. }
  cbn [mbind outcome_bind]. rw Nat2Z.id. specialize (Db (pre ++ n ++ tb ++ cb ++ w ++ lb) post).
  rw (_ : (length pre + length n + 10)%nat = length (pre ++ n ++ tb ++ cb ++ w ++ lb)); [rw !length_app L; cbn; lia|].
  rw -!app_assoc in Db |- *. rw Db. cbn [mbind outcome_bind]. do 2 f_equal. rw !length_app L. cbn. lia.
Qed.

Lemma items_roundtrip {A} (encode : A -> outcome bytes) decode l : Forall (roundtrips encode decode) l ->
  exists bs, encode_all encode l = Ok bs /\ forall pre post,
    decode_items decode (pre ++ concat bs ++ post) (length l) (length pre) = Ok (l, (length pre + length (concat bs))%nat).
Proof.
  induction 1 as [|a l (b & Hb & Db) _ (bs & Hbs & IH)]; [exists []; split; [done|]; intros pre post; cbn; by rw Nat.add_0_r|].
  exists (b :: bs). cbn [encode_all length decode_items concat]. rw Hb Hbs. split; [done|]. intros pre post.
  rw -!app_assoc Db. cbn [mbind outcome_bind fst snd]. rw -length_app (app_assoc pre) IH. cbn [mbind outcome_bind fst snd].
  do 2 f_equal. rw !length_app. lia.
Qed.

(* ------------------------------------------------------------------ *)
(** *** The header *)

(** The fields of the flag word: shift and mask. *)
Definition flag_fields : list (Z * Z) := [(15, 1); (11, 0xf); (10, 1); (9, 1); (8, 1); (7, 1); (0, 0xf)].

Definition packed (sm : Z * Z) (x : Z) : Z := Z.shiftl (Z.land x sm.2) sm.1.

(** Each field comes out as it went in and disturbs no other. *)
Lemma packed_fields : forallb (fun f => forallb (fun x =>
    (Z.land (packed f x) 0xffff =? packed f x) &&
    forallb (fun g => flag_bits (packed f x) g.1 g.2 =? if f.1 =? g.1 then x else 0) flag_fields)
  (Z.of_nat <$> seq 0 (Z.to_nat (f.2 + 1)))) flag_fields = true.
Proof. vm_compute. reflexivity. Qed.

Definition in_field (f : Z * Z) (x : Z) : Prop := f ∈ flag_fields /\ 0 <= x <= f.2.

Lemma packed_spec f x : in_field f x -> Z.land (packed f x) 0xffff = packed f x /\
  forall g, g ∈ flag_fields -> flag_bits (packed f x) g.1 g.2 = if f.1 =? g.1 then x else 0.
Proof.
  intros [Hf Hx]. pose proof packed_fields as H. rw forallb_forall in H. specialize (H f). rw -list_elem_of_In in H. specialize (H Hf).
  rw forallb_forall in H. specialize (H x). rw -list_elem_of_In in H.
  rw andb_true_iff Z.eqb_eq in H. destruct H as [H1 H2].
  { apply list_elem_of_fmap. exists (Z.to_nat x). split; [by rw Z2Nat.id; [lia|]|]. apply elem_of_seq. lia. }
  split; [done|]. intros g Hg. rw forallb_forall in H2. apply Z.eqb_eq, H2. by apply list_elem_of_In.
Qed.

Lemma flag_bits_lor a b i m : flag_bits (Z.lor a b) i m = Z.lor (flag_bits a i m) (flag_bits b i m).
Proof. by rw /flag_bits Z.shiftr_lor Z.land_lor_distr_l. Qed.

Definition bit (x : Z) : Prop := 0 <= x <= 1.
Definition nibble (x : Z) : Prop := 0 <= x <= 15.

Definition valid_header (h : header) : Prop :=
  is_u16 (h_id h) /\ bit (h_qr h) /\ nibble (h_opcode h) /\ bit (h_aa h) /\ bit (h_tc h) /\ bit (h_rd h) /\ bit (h_ra h) /\ nibble (h_rcode h).

Lemma header_flags_packed h : header_flags h =
  Z.lor (Z.lor (Z.lor (Z.lor (Z.lor (Z.lor (packed (15, 1) (h_qr h)) (packed (11, 0xf) (h_opcode h))) (packed (10, 1) (h_aa h)))
    (packed (9, 1) (h_tc h))) (packed (8, 1) (h_rd h))) (packed (7, 1) (h_ra h))) (packed (0, 0xf) (h_rcode h)).
Proof. unfold header_flags, packed. cbn [fst snd]. by rw Z.lor_0_l Z.shiftl_0_r. Qed.

Ltac field := apply (bool_decide_unpack _); vm_compute; exact I.

Lemma header_roundtrip h : valid_header h -> is_u16 (header_flags h) /\ decode_header (h_id h) (header_flags h) = h.
Proof.
  destruct h as [id qr opcode aa tc rd ra rcode]. intros (_ & H1 & H2 & H3 & H4 & H5 & H6 & H7). cbn [h_id h_qr h_opcode h_aa h_tc h_rd h_ra h_rcode] in *.
  rw header_flags_packed. cbn [h_id h_qr h_opcode h_aa h_tc h_rd h_ra h_rcode].
  assert (Hin : forall s m x, (s, m) ∈ flag_fields -> 0 <= x <= m -> in_field (s, m) x) by done.
  unfold bit, nibble in *.
  destruct (packed_spec (15, 1) qr) as [L1 F1]; [by apply Hin; [field|]|].
  destruct (packed_spec (11, 0xf) opcode) as [L2 F2]; [by apply Hin; [field|]|].
  destruct (packed_spec (10, 1) aa) as [L3 F3]; [by apply Hin; [field|]|].
  destruct (packed_spec (9, 1) tc) as [L4 F4]; [by apply Hin; [field|]|].
  destruct (packed_spec (8, 1) rd) as [L5 F5]; [by apply Hin; [field|]|].
  destruct (packed_spec (7, 1) ra) as [L6 F6]; [by apply Hin; [field|]|].
  destruct (packed_spec (0, 0xf) rcode) as [L7 F7]; [by apply Hin; [field|]|].
  set (w := Z.lor _ _). split.
  - assert (w = Z.land w (Z.ones 16)) as ->.
    { unfold w. rw !Z.land_lor_distr_l. change (Z.ones 16) with 0xffff. by rw L1 L2 L3 L4 L5 L6 L7. }
    rw Z.land_ones //. apply Z.mod_pos_bound. lia.
  - assert (Hw : forall g, g ∈ flag_fields -> flag_bits w g.1 g.2 =
      Z.lor (Z.lor (Z.lor (Z.lor (Z.lor (Z.lor (if 15 =? g.1 then qr else 0) (if 11 =? g.1 then opcode else 0)) (if 10 =? g.1 then aa else 0))
        (if 9 =? g.1 then tc else 0)) (if 8 =? g.1 then rd else 0)) (if 7 =? g.1 then ra else 0)) (if 0 =? g.1 then rcode else 0)).
    { intros g Hg. unfold w. by rw !flag_bits_lor F1 // F2 // F3 // F4 // F5 // F6 // F7. }
    unfold decode_header. rw (_ : Z.land w 0xf = flag_bits w 0 0xf); [by rw /flag_bits Z.shiftr_0_r|].
    rw (Hw (15, 1)) ?(Hw (11, 0xf)) ?(Hw (10, 1)) ?(Hw (9, 1)) ?(Hw (8, 1)) ?(Hw (7, 1)) ?(Hw (0, 0xf)); [field..|].
    cbn [fst Z.eqb Pos.eqb]. by rw !Z.lor_0_r ?Z.lor_0_l.
Qed.

(* ------------------------------------------------------------------ *)
(** ** Messages *)

Definition few {A} (l : list A) : Prop := Z.of_nat (length l) < 65536.

Definition valid_message (m : message) : Prop :=
  valid_header (m_header m) /\ Forall valid_question (m_questions m) /\ Forall valid_rr (m_answers m) /\
  Forall valid_rr (m_authorities m) /\ Forall valid_rr (m_additionals m) /\
  few (m_questions m) /\ few (m_answers m) /\ few (m_authorities m) /\ few (m_additionals m).

Lemma counts_read {A} (l : list A) pre mid post i : few l -> i = (length pre + length mid)%nat ->
  getUint16 (pre ++ mid ++ uint16_bytes (Z.of_nat (length l)) ++ post) i = Ok (Z.of_nat (length l)).
Proof. intros Hl Hi. apply getUint16_in; [unfold few, is_u16 in *; lia|done]. Qed.

Definition header_bytes (id flags qd an ns ar : Z) : bytes :=
  uint16_bytes id ++ uint16_bytes flags ++ uint16_bytes qd ++ uint16_bytes an ++ uint16_bytes ns ++ uint16_bytes ar.

(** The twelve bytes of the header give the six words back. *)
Lemma header_words id flags qd an ns ar rest : is_u16 id -> is_u16 flags -> is_u16 qd -> is_u16 an -> is_u16 ns -> is_u16 ar ->
  let buf := header_bytes id flags qd an ns ar ++ rest in
  getUint16 buf 0 = Ok id /\ getUint16 buf 2 = Ok flags /\ getUint16 buf 4 = Ok qd /\ getUint16 buf 6 = Ok an /\
  getUint16 buf 8 = Ok ns /\ getUint16 buf 10 = Ok ar.
Proof.
  intros H0 H1 H2 H3 H4 H5 buf. unfold buf, header_bytes. rw -!app_assoc.
  split_and!; [by apply (getUint16_in [] [])|by apply (getUint16_in [] (uint16_bytes id))
    |by apply (getUint16_in [] (uint16_bytes id ++ uint16_bytes flags))
    |by apply (getUint16_in [] (uint16_bytes id ++ uint16_bytes flags ++ uint16_bytes qd))
    |by apply (getUint16_in [] (uint16_bytes id ++ uint16_bytes flags ++ uint16_bytes qd ++ uint16_bytes an))
    |by apply (getUint16_in [] (uint16_bytes id ++ uint16_bytes flags ++ uint16_bytes qd ++ uint16_bytes an ++ uint16_bytes ns))].
Qed.

(** Decoding a header followed by the encodings of the four lists. *)
Lemma decodeMessage_parts h qs an ns ar bq ba bn br : valid_header h -> few qs -> few an -> few ns -> few ar ->
  (forall pre post, decode_items decodeQuestion (pre ++ bq ++ post) (length qs) (length pre) = Ok (qs, (length pre + length bq)%nat)) ->
  (forall pre post, decode_items decodeRR (pre ++ ba ++ post) (length an) (length pre) = Ok (an, (length pre + length ba)%nat)) ->
  (forall pre post, decode_items decodeRR (pre ++ bn ++ post) (length ns) (length pre) = Ok (ns, (length pre + length bn)%nat)) ->
  (forall pre post, decode_items decodeRR (pre ++ br ++ post) (length ar) (length pre) = Ok (ar, (length pre + length br)%nat)) ->
  decodeMessage (header_bytes (h_id h) (header_flags h) (Z.of_nat (length qs)) (Z.of_nat (length an)) (Z.of_nat (length ns)) (Z.of_nat (length ar))
    ++ bq ++ ba ++ bn ++ br) = Ok (Message h qs an ns ar).
Proof.
  intros Hh Lq La Ln Lr Dq Da Dn Dr. pose proof (header_roundtrip h Hh) as [Hf Hd]. unfold few in *.
  destruct (header_words (h_id h) (header_flags h) (Z.of_nat (length qs)) (Z.of_nat (length an)) (Z.of_nat (length ns))
    (Z.of_nat (length ar)) (bq ++ ba ++ bn ++ br)) as (W0 & W2 & W4 & W6 & W8 & W10); try (by unfold is_u16; lia); [apply Hh|done|].
  revert W0 W2 W4 W6 W8 W10. assert (Hw : length (header_bytes (h_id h) (header_flags h) (Z.of_nat (length qs)) (Z.of_nat (length an))
    (Z.of_nat (length ns)) (Z.of_nat (length ar))) = 12%nat) by done. revert Hw.
  generalize (header_bytes (h_id h) (header_flags h) (Z.of_nat (length qs)) (Z.of_nat (length an)) (Z.of_nat (length ns)) (Z.of_nat (length ar))).
  intros w Hw W0 W2 W4 W6 W8 W10. unfold decodeMessage. rw (proj2 (Nat.ltb_ge _ _)); [rw length_app Hw; lia|].
  rw W0 W2 W4 W6 W8 W10. cbn [mbind outcome_bind]. rw !Nat2Z.id -Hw Dq. cbn [mbind outcome_bind fst snd].
  rw (app_assoc w) -length_app Da. cbn [mbind outcome_bind fst snd].
  rw (app_assoc (w ++ bq)) -length_app Dn. cbn [mbind outcome_bind fst snd].
  specialize (Dr (((w ++ bq) ++ ba) ++ bn) []). rw app_nil_r in Dr.
  rw (app_assoc ((w ++ bq) ++ ba)) -length_app Dr. cbn [mbind outcome_bind fst snd]. by rw Hd.
Qed.

(** C17: Whatever message the codec is asked to write - names of labels up
    to 63 bytes, the eight kinds of resource data and raw data, fields in
    range - [encodeMessage] writes it and [decodeMessage] reads exactly it
    back, header, questions and all three sections. *)
Theorem dns_message_roundtrip m : valid_message m -> exists b, encodeMessage m = Ok b /\ decodeMessage b = Ok m.
Proof.
  destruct m as [h qs an ns ar]. intros (Hh & Hq & Ha & Hn & Hr & Lq & La & Ln & Lr). cbn [m_header m_questions m_answers m_authorities m_additionals] in *.
  destruct (items_roundtrip encodeQuestion decodeQuestion qs) as (bq & Eq & Dq); [eapply Forall_impl; [exact Hq|apply question_roundtrips]|].
  assert (Hrrs : forall l, Forall valid_rr l -> Forall (roundtrips encodeRR decodeRR) l) by (intros l H; eapply Forall_impl; [exact H|apply rr_roundtrips]).
  destruct (items_roundtrip encodeRR decodeRR an (Hrrs _ Ha)) as (ba & Ea & Da).
  destruct (items_roundtrip encodeRR decodeRR ns (Hrrs _ Hn)) as (bn & En & Dn).
  destruct (items_roundtrip encodeRR decodeRR ar (Hrrs _ Hr)) as (br & Er & Dr).
  unfold encodeMessage. cbn [m_header m_questions m_answers m_authorities m_additionals]. rw Eq Ea En Er. cbn [mbind outcome_bind].
  eexists. split; [done|]. unfold concatBytes. rw !concat_app. cbn [concat]. rw app_nil_r.
  rw (_ : Z.land (h_id h) 0xffff = h_id h); [|by apply (decodeMessage_parts h)].
  change 0xffff with (Z.ones 16). rw Z.land_ones //. apply Z.mod_small, Hh.
Qed.

(** C18: [decodeName] reads exactly the names of RFC 1035: it answers a name
    and the offset behind it when, and only when, the bytes at the offset
    lay that name out with at most 128 compression pointers. *)
Theorem dns_names_spec buf offset name next :
  decodeName buf offset = Ok (name, next) <->
  exists labels jumps, name_at buf offset labels jumps next /\ (jumps <= 128)%nat /\ name = name_string labels.
Proof.
  split; [apply decodeName_inv|]. intros (labels & j & Hn & Hj & ->). by eapply decodeName_at.
Qed.

(** Decoding ends on every input, compression pointers that form a
    loop and messages cut short included: [decodeMessage] gives a message or
    throws, and never for want of fuel. *)
Theorem dns_decode_terminates buf : decodeMessage buf <> Throw ErrRangeError "out of fuel".
Proof.
  change (ends (decodeMessage buf)). unfold decodeMessage. destruct (_ <? 12)%nat; [done|].
  repeat (apply ends_bind; [first [apply getUint16_ends | apply decode_items_ends; intros ?; first [apply decodeQuestion_ends | apply decodeRR_ends]]|intros ?]).
  done.
Qed.

(** A referral with compressible names, an address and an opaque record. *)
Definition sample_message : message :=
  Message (Header 4660 1 0 1 0 1 1 0) [Question (js "www.example.org.") TYPE_A CLASS_IN]
    [RR (js "www.example.org.") TYPE_A CLASS_IN 300 (RAddress (ipv4ToString [93; 184; 216; 34]))]
    [RR (js "example.org.") TYPE_NS CLASS_IN 300 (RTarget (js "ns.example.org."))]
    [RR (js "x.") 41 4096 0 (RRaw [1; 2; 3])].

Definition label_ok (l : jsstr) : bool :=
  forallb (fun b => (0 <=? b) && (b <? 256)) l && (1 <=? length l)%nat && (length l <=? 63)%nat && bool_decide (0x2e ∉ l).

Lemma valid_name_check ls : forallb label_ok ls = true -> valid_name (name_string ls).
Proof.
  intros Hb. exists ls. split; [|done]. apply Forall_forall. intros l Hl. rw forallb_forall in Hb. specialize (Hb l).
  rw -list_elem_of_In in Hb. specialize (Hb Hl). unfold label_ok in Hb. rw !andb_true_iff !Nat.leb_le bool_decide_eq_true in Hb.
  destruct Hb as [[[H1 H2] H3] H4]. split_and!; try done. apply Forall_forall. intros b Hin. rw forallb_forall in H1.
  specialize (H1 b). rw -list_elem_of_In in H1. specialize (H1 Hin). unfold is_byte. lia.
Qed.

Ltac small := unfold is_u16, is_u32, TYPE_A, TYPE_NS, CLASS_IN; cbn; lia.
Lemma short_check t r : match encodeRdata t r with Ok b => Z.of_nat (length b) <? 65536 | _ => true end = true ->
  forall b, encodeRdata t r = Ok b -> Z.of_nat (length b) < 65536.
Proof. by intros H b Hb; rw Hb in H; apply Z.ltb_lt in H. Qed.
Ltac short := apply short_check; vm_compute; reflexivity.

Lemma sample_valid : valid_message sample_message.
Proof.
  assert (Hw : valid_name (js "www.example.org.")) by by apply (valid_name_check [js "www"; js "example"; js "org"]).
  assert (He : valid_name (js "example.org.")) by by apply (valid_name_check [js "example"; js "org"]).
  assert (Hs : valid_name (js "ns.example.org.")) by by apply (valid_name_check [js "ns"; js "example"; js "org"]).
  assert (Hx : valid_name (js "x.")) by by apply (valid_name_check [js "x"]).
  split; [unfold valid_header, bit, nibble, is_u16; cbn; lia|]. split_and!; try done; apply Forall_cons; (split; [|done]).
  - split_and!; [done|small..].
  - split_and!; [done|small|small|small| |short]. left. split; [done|]. exists [93; 184; 216; 34]. split; [|done].
    split; [done|]. forall_list; unfold is_byte; lia.
  - split_and!; [done|small|small|small|done|short].
  - split_and!; [done|small|small|small| |short]. split; [done|]. apply (bool_decide_unpack _). by vm_compute.
Qed.

Lemma dns_message_roundtrip_witness : valid_message sample_message /\ exists b, encodeMessage sample_message = Ok b /\ decodeMessage b = Ok sample_message.
Proof. split; [apply sample_valid|]. apply dns_message_roundtrip, sample_valid. Defined.
