(* ===== verification/Resolver.v ===== *)
(** * The recursive resolver of [examples/dns-server]

    [cache.js], [resolver.js] and [handleQuery] of [server.js].  A
    resolution is a computation on the resolver's state: the cache, the next
    query id, and how often the clock was read and the network asked.  What
    the network does is a parameter: for each exchange, the events of its
    socket, and what other resolutions did to the cache while this one
    waited.  Error messages stand without the names and addresses the code
    puts into them. *)

From S2P Require Import Prelude StreamBase JsString JsNumber Dns.
Open Scope Z_scope.

(* ------------------------------------------------------------------ *)
(** ** The cache *)

Record entry := Entry { en_rrs : list rr; en_expiresAt : Z }.

Abbreviation cache := (gmap (list Z) entry) (only parsing).

Definition with_ttl (ttl : Z) (r : rr) : rr := RR (rr_name r) (rr_type r) (rr_class r) ttl (rr_rdata r).

Definition remaining (e : entry) (now : Z) : Z := (en_expiresAt e - now) / 1000.

(** [Cache.get] when the clock shows [now]; the code returns [null] for [None]. *)
Definition cache_get (key : jsstr) (now : Z) (c : cache) : option (list rr) * cache :=
  match c !! key with
  | None => (None, c)
  | Some e => if remaining e now <=? 0 then (None, delete key c) else (Some (with_ttl (remaining e now) <$> en_rrs e), c)
  end.

Definition cache_set (key : jsstr) (rrs : list rr) (ttlSeconds now : Z) (c : cache) : cache :=
  if negb (nonempty rrs) || (ttlSeconds <=? 0) then c else <[key := Entry rrs (now + ttlSeconds * 1000)]> c.

(* ------------------------------------------------------------------ *)
(** ** Exchanges with an upstream server *)

(** What happens on the socket of a query, in order; the timer of the
    query fires behind whatever else happens. *)
Inductive sock_event := EvRx (data : bytes) | EvClose | EvConnectError.

(** [queryUdp]: the promise settles with the first event that settles it. *)
Fixpoint udp_events (evs : list sock_event) : outcome bytes :=
  match evs with
  | [] => Throw ErrError "udp query timed out"
  | EvRx data :: _ => Ok data
  | EvClose :: _ => Throw ErrError "udp socket closed before a reply arrived"
  | EvConnectError :: evs => udp_events evs
  end.

(** [onRawRx] of [resolver-tcp]: the message, once all of it has come. *)
Definition tcp_message (chunks : list bytes) : option bytes :=
  let merged := concatBytes chunks in
  match merged with
  | m0 :: m1 :: _ =>
    let msgLen := Z.to_nat (Z.lor (Z.shiftl m0 8) m1) in
    if (2 + msgLen <=? length merged)%nat then Some (subarray merged 2 (2 + msgLen)) else None
  | _ => None
  end.

(** [queryTcp] *)
Fixpoint tcp_events (chunks : list bytes) (evs : list sock_event) : outcome bytes :=
  match evs with
  | [] => Throw ErrError "tcp query timed out"
  | EvRx data :: evs =>
    let chunks := chunks ++ [data] in
    match tcp_message chunks with Some m => Ok m | None => tcp_events chunks evs end
  | EvClose :: _ => Throw ErrError "tcp socket closed before a reply arrived"
  | EvConnectError :: _ => Throw ErrError "tcp connect to upstream failed"
  end.

(** What [onRawConnected] writes: the query behind its length. *)
Definition tcp_frame (queryBuf : bytes) : bytes :=
  let len := Z.of_nat (length queryBuf) in
  concatBytes [[to_uint8 (Z.shiftr len 8); Z.land len 0xff]; queryBuf].

(** An exchange as the network answers it: whether a socket could be made,
    its events, and the effect of other resolutions during the wait. *)
Record exchange := Exchange {
  ex_open : outcome unit; ex_events : list sock_event;
  ex_cache : cache -> cache; ex_ids : Z;
}.

Record world := World { w_cache : cache; w_nextId : Z; w_reads : nat; w_exchanges : nat }.

Section Resolver.
Context `{UnicodeTables}.
(** [Date.now()] at its [n]-th reading, and the [n]-th exchange. *)
Variables (clock : nat -> Z) (network : nat -> bool -> jsstr -> bytes -> exchange).
Variables (maxHops maxGlueDepth : nat).

Definition now : SM world Z := fun w =>
  (Ok (clock (w_reads w)), World (w_cache w) (w_nextId w) (S (w_reads w)) (w_exchanges w)).

Definition get_cached (key : jsstr) : SM world (option (list rr)) :=
  c ← gets w_cache;
  if bool_decide (c !! key = None) then mret None else
  t ← now;
  let '(r, c) := cache_get key t c in
  modify (fun w => World c (w_nextId w) (w_reads w) (w_exchanges w)) ;; mret r.

Definition set_cached (key : jsstr) (rrs : list rr) (ttl : Z) : SM world unit :=
  if negb (nonempty rrs) || (ttl <=? 0) then mret tt else
  t ← now;
  modify (fun w => World (cache_set key rrs ttl t (w_cache w)) (w_nextId w) (w_reads w) (w_exchanges w)).

(** One awaited exchange, [tcp] or not. *)
Definition ask (tcp : bool) (ip : jsstr) (queryBuf : bytes) : SM world bytes := fun w =>
  let ex := network (w_exchanges w) tcp ip queryBuf in
  (_ ← ex_open ex; if tcp then tcp_events [] (ex_events ex) else udp_events (ex_events ex),
   World (ex_cache ex (w_cache w)) (w_nextId w + ex_ids ex) (w_reads w) (S (w_exchanges w))).

Definition lift {A} (o : outcome A) : SM world A := fun w => (o, w).

(** [try { m } catch { f }] where the handler does not look at the error. *)
Definition or_else {A} (m f : SM world A) : SM world A := fun w =>
  match m w with (Throw _ _, w') => f w' | r => r end.

Definition queryServer (ip : jsstr) (name : jsstr) (type : Z) : SM world message :=
  n ← gets w_nextId;
  modify (fun w => World (w_cache w) (w_nextId w + 1) (w_reads w) (w_exchanges w)) ;;
  queryBuf ← lift (buildQuery name type (Z.land n 0xffff) id);
  let over_tcp := b ← ask true ip queryBuf; lift (decodeMessage b) in
  r ← or_else (b ← ask false ip queryBuf; m ← lift (decodeMessage b); mret (Some m)) (mret None);
  match r with
  | None => over_tcp
  | Some msg => if negb (h_tc (m_header msg) =? 0) then over_tcp else mret msg
  end.

Definition cacheKey (name : jsstr) (type : Z) : jsstr := to_string 10 type ++ [0x3a] ++ toLowerCase name.

(** [rrs.reduce((min, rr) => Math.min(min, rr.ttl), Infinity)] of a list
    that is not empty. *)
Definition min_ttl (rrs : list rr) : Z :=
  match rrs with [] => 0 | r :: rrs => foldl (fun m r => Z.min m (rr_ttl r)) (rr_ttl r) rrs end.

Definition cacheRRs (name : jsstr) (type : Z) (rrs : list rr) : SM world unit :=
  if negb (nonempty rrs) then mret tt else set_cached (cacheKey name type) rrs (min_ttl rrs).

(** [rr.rdata.address] and [rr.rdata.target]; [decodeMessage] gives every
    record of the types the resolver looks into the field it reads, so the
    branches without it are not taken. *)
Definition address_of (r : rr) : option jsstr := match rr_rdata r with RAddress a => Some a | _ => None end.
Definition target_of (r : rr) : option jsstr := match rr_rdata r with RTarget t => Some t | _ => None end.

(** A string that is there and not empty. *)
Definition truthy (s : option jsstr) : option jsstr := match s with Some (u :: t) => Some (u :: t) | _ => None end.

Definition find_rr (P : rr -> bool) (rrs : list rr) : option rr := head (filter P rrs).
Definition is_type (type : Z) (r : rr) : bool := rr_type r =? type.
Definition same_name (name : jsstr) (r : rr) : bool := bool_decide (toLowerCase (rr_name r) = toLowerCase name).

Definition NXDOMAIN : Z := 3.
Definition NOERROR : Z := 0.
Definition SERVFAIL : Z := 2.

(** What [resolve] gives: the whole header of the last reply, or only a
    response code; the other two sections are always empty. *)
Record result := Result { res_header : option header; res_answers : list rr }.
Definition res_rcode (r : result) : Z := match res_header r with Some h => h_rcode h | None => NOERROR end.

Definition ROOT_SERVERS : list jsstr := js <$>
  ["198.41.0.4"; "199.9.14.201"; "192.33.4.12"; "199.7.91.13"; "192.203.230.10"; "192.5.5.241"; "192.112.36.4";
   "198.97.190.53"; "192.36.148.17"; "192.58.128.30"; "193.0.14.129"; "199.7.83.42"; "202.12.27.33"].

(** [resolveGlue]; [sub] is [resolve] one glue level deeper, none where
    the bound is reached. *)
Definition resolveGlue (sub : option (jsstr -> Z -> SM world result)) (name : jsstr) : SM world (option jsstr) :=
  cached ← get_cached (cacheKey name TYPE_A);
  match cached with
  | Some rrs => mret (r ← head rrs; address_of r)
  | None =>
    match sub with
    | None => mret None
    | Some resolve =>
      or_else (result ← resolve name TYPE_A; mret (r ← find_rr (is_type TYPE_A) (res_answers result); address_of r)) (mret None)
    end
  end.

(** The servers of one hop, in turn, until one answers. *)
Fixpoint ask_servers (servers : list jsstr) (name : jsstr) (type : Z) (lastErr : error_class * string) : SM world message :=
  match servers with
  | [] => throw lastErr.1 lastErr.2
  | ip :: servers => fun w =>
    match queryServer ip name type w with
    | (Ok msg, w) => (Ok msg, w)
    | (Throw c e, w) => ask_servers servers name type (c, e) w
    end
  end.

(** [glue[rr.name.toLowerCase()] = rr.rdata.address] over the additionals. *)
Definition glue_table (additionals : list rr) : gmap jsstr (option jsstr) :=
  foldl (fun glue r => if is_type TYPE_A r then <[toLowerCase (rr_name r) := address_of r]> glue else glue) ∅ additionals.

Fixpoint next_servers (sub : option (jsstr -> Z -> SM world result)) (glue : gmap jsstr (option jsstr)) (nsRecords : list rr)
  : SM world (list jsstr) :=
  match nsRecords with
  | [] => mret []
  | ns :: nsRecords =>
    match target_of ns with
    | None => lift undefined_field
    | Some t =>
      ip ← match truthy (mjoin (glue !! toLowerCase t)) with
           | Some a => mret (Some a)
           | None => a ← resolveGlue sub t; mret (truthy a)
           end;
      rest ← next_servers sub glue nsRecords;
      mret (match ip with Some a => a :: rest | None => rest end)
    end
  end.

(** The mutable variables of the loop. *)
Record walk_state := Walk { wk_servers : list jsstr; wk_name : jsstr; wk_seen : list jsstr; wk_chain : list rr }.

(** One hop: an answer, or the state of the next hop. *)
Definition hop (sub : option (jsstr -> Z -> SM world result)) (type : Z) (st : walk_state) : SM world (result + walk_state) :=
  msg ← ask_servers (wk_servers st) (wk_name st) type (ErrError, "no reachable server");
  let wanted := filter (fun r => same_name (wk_name st) r && is_type type r) (m_answers msg) in
  let cname := find_rr (fun r => same_name (wk_name st) r && is_type TYPE_CNAME r) (m_answers msg) in
  if nonempty wanted then
    cacheRRs (wk_name st) type wanted ;;
    mret (inl (Result (Some (m_header msg)) (wk_chain st ++ wanted)))
  else match cname with
  | Some cname =>
    match target_of cname with
    | None => lift undefined_field
    | Some target =>
      if bool_decide (target ∈ wk_seen st) then throw ErrError "CNAME loop detected" else
      cacheRRs (wk_name st) TYPE_CNAME [cname] ;;
      mret (inr (Walk ROOT_SERVERS target (wk_seen st ++ [target]) (wk_chain st ++ [cname])))
    end
  | None =>
    let rcode := h_rcode (m_header msg) in
    let no_answer := Result (Some (m_header msg)) (wk_chain st) in
    if (rcode =? NXDOMAIN) || (negb (nonempty (m_authorities msg)) && negb (rcode =? NOERROR)) then mret (inl no_answer) else
    let nsRecords := filter (is_type TYPE_NS) (m_authorities msg) in
    if negb (nonempty nsRecords) then mret (inl no_answer) else
    servers ← next_servers sub (glue_table (m_additionals msg)) nsRecords;
    if negb (nonempty servers) then throw ErrError "referral had no usable nameserver address" else
    mret (inr (Walk servers (wk_name st) (wk_seen st) (wk_chain st)))
  end.

Fixpoint hops (sub : option (jsstr -> Z -> SM world result)) (type : Z) (more : nat) (st : walk_state) : SM world result :=
  match more with
  | O => throw ErrError "too many referral hops"
  | S more =>
    r ← hop sub type st;
    match r with inl result => mret result | inr st => hops sub type more st end
  end.

Definition with_dot (name : jsstr) : jsstr := if ends_with [0x2e] name then name else name ++ [0x2e].

Definition resolve_with (sub : option (jsstr -> Z -> SM world result)) (name : jsstr) (type : Z) : SM world result :=
  let name := with_dot name in
  direct ← get_cached (cacheKey name type);
  match direct with
  | Some rrs => mret (Result None rrs)
  | None => hops sub type maxHops (Walk ROOT_SERVERS name [] [])
  end.

(** [resolve] at glue depth [maxGlueDepth - levels]. *)
Fixpoint resolve_at (levels : nat) : jsstr -> Z -> SM world result :=
  resolve_with (match levels with O => None | S levels => Some (resolve_at levels) end).

Definition resolve (name : jsstr) (type : Z) : SM world result := resolve_at maxGlueDepth name type.

(** [handleQuery]: the reply it writes, if any. *)
Definition handleQuery (data : bytes) : SM world (option bytes) :=
  match decodeMessage data with
  | Throw _ _ => mret None
  | Ok query =>
    match head (m_questions query) with
    | None => mret None
    | Some q =>
      r ← or_else (result ← resolve (q_name q) (q_type q); mret (res_answers result, res_rcode result)) (mret ([], SERVFAIL));
      response ← lift (encodeMessage (Message (Header (h_id (m_header query)) 1 0 0 0 (h_rd (m_header query)) 1 r.2) [q] r.1 [] []));
      mret (Some response)
    end
  end.
End Resolver.
