(* ===== verification/ResolverProps.v ===== *)
(** * What the resolver promises

    The cache answers as the log of what was put into it; answers are a
    chain of aliases from the question's name and records of the type asked
    for, whatever the servers say and whatever other resolutions do to the
    cache meanwhile; replies over TCP are reassembled however they are cut. *)

From S2P Require Import Prelude StreamBase JsString JsNumber Dns DnsProps Resolver.
Open Scope Z_scope.

(* ------------------------------------------------------------------ *)
(** ** Keys of the cache *)

Section Keys.
Context `{UnicodeTables}.

Lemma to_string_no_colon n : 0 <= n < 2 ^ 64 -> 0x3a ∉ to_string 10 n.
Proof.
  intros Hn Hin. destruct (to_string_spec 10 n ltac:(lia) Hn) as (_ & Hd & _). unfold radix_digits in Hd.
  rewrite Forall_forall in Hd. specialize (Hd _ Hin). done.
Qed.

Lemma cacheKey_inj n t n' t' : 0 <= t < 2 ^ 64 -> 0 <= t' < 2 ^ 64 ->
  cacheKey n t = cacheKey n' t' -> t = t' /\ toLowerCase n = toLowerCase n'.
Proof.
  intros Ht Ht' Hk. unfold cacheKey in Hk. cbn [app] in Hk.
  assert (Hs := f_equal (split_on 0x3a) Hk). rewrite !split_on_app in Hs by by apply to_string_no_colon.
  injection Hs as Hd _. split.
  - destruct (to_string_spec 10 t ltac:(lia) Ht) as (_ & _ & <-). rewrite Hd.
    by destruct (to_string_spec 10 t' ltac:(lia) Ht') as (_ & _ & ->).
  - rewrite Hd in Hk. apply app_inv_head in Hk. by injection Hk.
Qed.
End Keys.

(* ------------------------------------------------------------------ *)
(** ** The cache against the log of its writes *)

Inductive cache_op := CGet (key : jsstr) | CSet (key : jsstr) (rrs : list rr) (ttl : Z).

(** Each operation at the time the clock shows then. *)
Fixpoint cache_run (ops : list (Z * cache_op)) (c : gmap (list Z) entry) : list (option (list rr)) :=
  match ops with
  | [] => []
  | (t, CGet k) :: ops => let '(r, c) := cache_get k t c in r :: cache_run ops c
  | (t, CSet k rrs ttl) :: ops => cache_run ops (cache_set k rrs ttl t c)
  end.

(** The specification keeps every write there ever was, newest first. *)
Record log_entry := Log { lg_key : jsstr; lg_rrs : list rr; lg_ttl : Z; lg_time : Z }.

Definition seconds_left (l : log_entry) (t : Z) : Z := (lg_time l + lg_ttl l * 1000 - t) / 1000.

Definition log_get (k : jsstr) (t : Z) (log : list log_entry) : option (list rr) :=
  match filter (fun l => lg_key l = k) log with
  | l :: _ => if 0 <? seconds_left l t then Some (with_ttl (seconds_left l t) <$> lg_rrs l) else None
  | [] => None
  end.

Fixpoint log_run (ops : list (Z * cache_op)) (log : list log_entry) : list (option (list rr)) :=
  match ops with
  | [] => []
  | (t, CGet k) :: ops => log_get k t log :: log_run ops log
  | (t, CSet k rrs ttl) :: ops => log_run ops (if nonempty rrs && (0 <? ttl) then Log k rrs ttl t :: log else log)
  end.

(** The map holds the newest write of each key, unless it has expired. *)
Definition cache_sim (now : Z) (c : gmap (list Z) entry) (log : list log_entry) : Prop := forall k,
  match filter (fun l => lg_key l = k) log with
  | l :: _ => c !! k = Some (Entry (lg_rrs l) (lg_time l + lg_ttl l * 1000)) \/ (c !! k = None /\ seconds_left l now <= 0)
  | [] => c !! k = None
  end.

Lemma seconds_left_mono l t t' : t <= t' -> seconds_left l t <= 0 -> seconds_left l t' <= 0.
Proof. intros Ht. unfold seconds_left. intros H. etrans; [|exact H]. apply Z.div_le_mono; lia. Qed.

Lemma cache_sim_later t t' c log : t <= t' -> cache_sim t c log -> cache_sim t' c log.
Proof.
  intros Ht Hs k. specialize (Hs k). destruct (filter _ log); [done|]. destruct Hs as [?|[? ?]]; [by left|right].
  split; [done|]. by eapply seconds_left_mono.
Qed.

Lemma cache_get_sim k t c log : cache_sim t c log ->
  (cache_get k t c).1 = log_get k t log /\ cache_sim t (cache_get k t c).2 log.
Proof.
  intros Hs. pose proof (Hs k) as Hk. unfold cache_get, log_get. destruct (filter _ log) as [|l ls] eqn:El.
  - by rewrite Hk.
  - destruct Hk as [-> | [-> Hexp]].
    + change (remaining (Entry (lg_rrs l) (lg_time l + lg_ttl l * 1000)) t) with (seconds_left l t).
      destruct (Z.leb_spec (seconds_left l t) 0), (Z.ltb_spec 0 (seconds_left l t)); try lia; (split; [done|]); [|done].
      intros k'. cbn [snd]. destruct (decide (k' = k)) as [->|Hne].
      * rewrite El. right. by rewrite lookup_delete_eq.
      * rewrite lookup_delete_ne by done. apply Hs.
    + split; [|done]. by destruct (Z.ltb_spec 0 (seconds_left l t)); [lia|].
Qed.

Lemma cache_set_sim k rrs ttl t c log : cache_sim t c log ->
  cache_sim t (cache_set k rrs ttl t c) (if nonempty rrs && (0 <? ttl) then Log k rrs ttl t :: log else log).
Proof.
  intros Hs. unfold cache_set. rewrite Z.leb_antisym, <-negb_andb. destruct (nonempty rrs && (0 <? ttl)); [|done].
  cbn [negb]. intros k'. specialize (Hs k'). rewrite filter_cons. cbn [lg_key]. destruct (decide (k = k')) as [->|Hne].
  - left. by rewrite lookup_insert_eq.
  - by rewrite lookup_insert_ne.
Qed.

(** Times that do not go back. *)
Fixpoint in_order (t : Z) (ops : list (Z * cache_op)) : Prop :=
  match ops with [] => True | (t', _) :: ops => t <= t' /\ in_order t' ops end.

Lemma cache_run_sim ops : forall t c log, in_order t ops -> cache_sim t c log -> cache_run ops c = log_run ops log.
Proof.
  induction ops as [|[t' [k|k rrs ttl]] ops IH]; intros t c log Ho Hs; [done| |]; destruct Ho as [Ht Ho];
    apply (cache_sim_later t t') in Hs; [|done| |done]; cbn [cache_run log_run].
  - destruct (cache_get_sim k t' c log Hs) as [Hr Hs']. destruct (cache_get k t' c) as [r c']. cbn in Hr, Hs'. subst r. f_equal. by eapply IH.
  - eapply IH; [done|]. by apply cache_set_sim.
Qed.

(** While the clock does not run backwards the cache answers every
    [get] as the log of all its writes would: with the records last put
    under the key while they have a full second to live, their time to live
    the seconds that are left, and with nothing otherwise. *)
Theorem cache_refines_log ops t : in_order t ops -> cache_run ops ∅ = log_run ops [].
Proof. intros Ho. eapply cache_run_sim; [exact Ho|]. intros k. cbn. apply lookup_empty. Qed.

Lemma cache_refines_log_witness :
  let ops := [(0, CSet (js "1:a.") [RR (js "a.") 1 1 9 (RAddress (js "1.2.3.4"))] 9); (5500, CGet (js "1:a.")); (8001, CGet (js "1:a."))] in
  in_order 0 ops /\ cache_run ops ∅ = log_run ops [] /\
  log_run ops [] = [Some [RR (js "a.") 1 1 3 (RAddress (js "1.2.3.4"))]; None].
Proof. cbv zeta. split; [cbn; lia|]. split; [apply (cache_refines_log _ 0); cbn; lia|vm_compute; reflexivity]. Defined.

(* ------------------------------------------------------------------ *)
(** ** Reassembly of TCP replies *)

Definition is_message_length (m : bytes) : Prop := Z.of_nat (length m) < 65536.

Lemma tcp_frame_bytes m : is_message_length m -> tcp_frame m = uint16_bytes (Z.of_nat (length m)) ++ m.
Proof.
  intros Hm. unfold tcp_frame, concatBytes, uint16_bytes, to_uint8. cbn [concat]. rewrite app_nil_r. f_equal.
  change 0xff with (Z.ones 8). by rewrite Z.land_ones, Z.shiftr_div_pow2 by lia.
Qed.

(** The frame's length bytes give the length. *)
Lemma frame_length m : is_message_length m ->
  Z.to_nat (Z.lor (Z.shiftl (Z.of_nat (length m) / 256 mod 256) 8) (Z.of_nat (length m) mod 256)) = length m.
Proof.
  intros Hm. unfold is_message_length in Hm. rewrite lor_disjoint by (apply Z.mod_pos_bound; lia).
  rewrite (Z.mod_small (_ / 256)) by (split; [apply Z.div_pos; lia|apply Z.div_lt_upper_bound; lia]).
  rewrite Z.mul_comm, <-Z.div_mod by lia. apply Nat2Z.id.
Qed.

Lemma tcp_message_full m extra chunks : is_message_length m -> concat chunks = tcp_frame m ++ extra -> tcp_message chunks = Some m.
Proof.
  intros Hm Hc. unfold tcp_message, concatBytes. rewrite Hc, tcp_frame_bytes by done. unfold uint16_bytes. cbn [app].
  rewrite frame_length by done. rewrite (proj2 (Nat.leb_le _ _)) by (cbn; rewrite length_app; lia).
  unfold subarray. cbn [drop]. rewrite Nat.add_sub', drop_0, take_app_length. done.
Qed.

Lemma tcp_message_partial m chunks : is_message_length m -> (length (concat chunks) < length (tcp_frame m))%nat ->
  (exists rest, tcp_frame m = concat chunks ++ rest) -> tcp_message chunks = None.
Proof.
  intros Hm Hl [rest Hr]. unfold tcp_message, concatBytes. rewrite tcp_frame_bytes in Hl, Hr by done.
  destruct (concat chunks) as [|m0 [|m1 b]]; [done..|]. cbn in Hr. injection Hr as <- <- Hr. rewrite frame_length by done.
  destruct (Nat.leb_spec (2 + length m) (length (Z.of_nat (length m) / 256 mod 256 :: Z.of_nat (length m) mod 256 :: b))); [|done].
  cbn in *. lia.
Qed.

Lemma tcp_events_full m chunks : is_message_length m -> forall seen evs extra, tcp_message seen = None ->
  concat seen ++ concat chunks = tcp_frame m ++ extra ->
  tcp_events seen ((EvRx <$> chunks) ++ evs) = Ok m.
Proof.
  intros Hm. induction chunks as [|ch chunks IH]; intros seen evs extra Hs Hc.
  - cbn in Hc. rewrite app_nil_r in Hc. by rewrite (tcp_message_full m extra) in Hs.
  - cbn [fmap list_fmap app tcp_events]. destruct (tcp_message (seen ++ [ch])) as [m'|] eqn:E.
    + destruct (Nat.lt_ge_cases (length (concat (seen ++ [ch]))) (length (tcp_frame m))) as [Hlt|Hge].
      * rewrite (tcp_message_partial m) in E; [done|done|done|]. rewrite concat_snoc in *. cbn [concat] in Hc. rewrite app_assoc in Hc.
        exists (drop (length (concat seen ++ ch)) (tcp_frame m)).
        rewrite <-(take_app_length (concat seen ++ ch) (concat chunks)) at 1. rewrite Hc, take_app_le by lia. by rewrite take_drop.
      * rewrite (tcp_message_full m (drop (length (tcp_frame m)) (concat (seen ++ [ch])))) in E; [by injection E as ->|done|].
        rewrite concat_snoc in *. cbn [concat] in Hc. rewrite app_assoc in Hc.
        rewrite <-(take_drop (length (tcp_frame m)) (concat seen ++ ch)) at 1. f_equal.
        rewrite <-(take_app_le _ (concat chunks)) by lia. by rewrite Hc, take_app_length.
    + eapply IH; [done|]. rewrite concat_snoc, <-app_assoc. exact Hc.
Qed.

(** However the stream of a TCP reply is cut into chunks, and whatever
    follows, the query settles with exactly the message behind the length
    that [onRawConnected]'s framing puts before it; while the frame is
    incomplete it does not settle. *)
Theorem tcp_reply_reassembled m chunks extra evs : Z.of_nat (length m) < 65536 ->
  concat chunks = tcp_frame m ++ extra ->
  tcp_events [] ((EvRx <$> chunks) ++ evs) = Ok m /\
  (forall n, (length (concat (take n chunks)) < length (tcp_frame m))%nat -> tcp_message (take n chunks) = None).
Proof.
  intros Hm Hc. split; [by apply (tcp_events_full m chunks Hm [] evs extra)|]. intros n Hn. apply (tcp_message_partial m); [done|done|].
  exists (drop (length (concat (take n chunks))) (tcp_frame m)).
  rewrite <-(take_drop n chunks), concat_app in Hc.
  rewrite <-(take_app_length (concat (take n chunks)) (concat (drop n chunks))) at 1. rewrite Hc, take_app_le by lia. by rewrite take_drop.
Qed.

Definition sample_reply : bytes := [7; 8; 9].
Definition sample_chunks : list bytes := [[0]; [3; 7]; [8]; [9; 1]].

Lemma tcp_reply_reassembled_witness :
  Z.of_nat (length sample_reply) < 65536 /\ concat sample_chunks = tcp_frame sample_reply ++ [1] /\
  tcp_events [] ((EvRx <$> sample_chunks) ++ [EvClose]) = Ok sample_reply /\
  (forall n, (length (concat (take n sample_chunks)) < length (tcp_frame sample_reply))%nat -> tcp_message (take n sample_chunks) = None).
Proof. split; [cbn; lia|]. split; [reflexivity|]. apply (tcp_reply_reassembled _ _ [1]); [cbn; lia|reflexivity]. Defined.

(* ------------------------------------------------------------------ *)
(** ** Decoded records have the fields their type says *)

Definition typed_rdata (type : Z) (r : rdata) : Prop :=
  match r with
  | RAddress _ => type = TYPE_A \/ type = TYPE_AAAA
  | RTarget _ => is_name_type type = true
  | RSoa _ _ _ _ _ _ _ => type = TYPE_SOA
  | RMx _ _ => type = TYPE_MX
  | RTxt _ => type = TYPE_TXT
  | RRaw _ => is_name_type type = false /\ type ∉ [TYPE_A; TYPE_AAAA; TYPE_SOA; TYPE_MX; TYPE_TXT]
  end.

Definition typed_rr (r : rr) : Prop := typed_rdata (rr_type r) (rr_rdata r).

Ltac bind_inv H := repeat match type of H with
  | (?m ≫= _) = Ok _ => let E := fresh "E" in destruct m eqn:E; cbn [mbind outcome_bind] in H; [|discriminate H]
  end.

Lemma decodeRdata_typed type buf s e r : decodeRdata type buf s e = Ok r -> typed_rdata type r.
Proof.
  unfold decodeRdata. destruct (Z.eqb_spec type TYPE_A) as [->|HA]; [intros [= <-]; by left|].
  destruct (Z.eqb_spec type TYPE_AAAA) as [->|HAAAA]; [intros [= <-]; by right|].
  destruct (is_name_type type) eqn:En; [intros H; bind_inv H; by injection H as <-|].
  destruct (Z.eqb_spec type TYPE_SOA) as [->|HS]; [intros H; bind_inv H; by injection H as <-|].
  destruct (Z.eqb_spec type TYPE_MX) as [->|HM]; [intros H; bind_inv H; by injection H as <-|].
  destruct (Z.eqb_spec type TYPE_TXT) as [->|HT]; [by intros [= <-]|]. intros [= <-]. split; [done|].
  rewrite !not_elem_of_cons. repeat (split; [done|]). apply not_elem_of_nil.
Qed.

Lemma decode_items_Forall {A} (P : A -> Prop) (dec : bytes -> nat -> outcome (A * nat)) buf n o l o' :
  (forall o a o', dec buf o = Ok (a, o') -> P a) -> decode_items dec buf n o = Ok (l, o') -> Forall P l.
Proof.
  intros Hd. revert o l o'. induction n as [|n IH]; intros o l o' H; cbn in H; [by injection H as <- <-|].
  bind_inv H. injection H as <- <-. destruct a as [a oa], a0 as [l ol]. constructor; [by eapply Hd|by eapply IH].
Qed.

Lemma decodeRR_typed buf o r o' : decodeRR buf o = Ok (r, o') -> typed_rr r.
Proof. unfold decodeRR. intros H. bind_inv H. injection H as <- <-. by eapply decodeRdata_typed. Qed.

(** C20: Every record [decodeMessage] delivers carries the kind of resource
    data its type prescribes, an unknown type raw bytes: the resolver never
    reads a field that is not there. *)
Theorem dns_decode_typed buf m : decodeMessage buf = Ok m ->
  Forall typed_rr (m_answers m) /\ Forall typed_rr (m_authorities m) /\ Forall typed_rr (m_additionals m).
Proof.
  unfold decodeMessage. destruct (_ <? 12)%nat; [done|]. intros H. bind_inv H. injection H as <-. cbn [m_answers m_authorities m_additionals].
  repeat match goal with p : list rr * nat |- _ => destruct p end.
  split_and!; (eapply decode_items_Forall; [intros ? ? ?; apply decodeRR_typed|eassumption]).
Qed.

Lemma dns_decode_typed_witness :
  let buf := [18; 52; 129; 128; 0; 0; 0; 1; 0; 0; 0; 0; 1; 97; 0; 0; 5; 0; 1; 0; 0; 0; 9; 0; 2; 192; 12] in
  let m := Message (Header 4660 1 0 0 0 1 1 0) [] [RR (js "a.") 5 1 9 (RTarget (js "a."))] [] [] in
  decodeMessage buf = Ok m /\ Forall typed_rr (m_answers m) /\ Forall typed_rr (m_authorities m) /\ Forall typed_rr (m_additionals m).
Proof. cbv zeta. split; [vm_compute; reflexivity|]. apply (dns_decode_typed [18; 52; 129; 128; 0; 0; 0; 1; 0; 0; 0; 0; 1; 97; 0; 0; 5; 0; 1; 0; 0; 0; 9; 0; 2; 192; 12]). vm_compute. reflexivity. Defined.

(* ------------------------------------------------------------------ *)
(** ** Consistent caches *)

Section Answers.
Context `{UnicodeTables}.

(** A record that answers a question for [name] and [type]. *)
Definition answers (name : jsstr) (type : Z) (r : rr) : Prop := toLowerCase (rr_name r) = toLowerCase name /\ rr_type r = type.

Definition is_dns_type (t : Z) : Prop := 0 <= t < 2 ^ 64.

(** What an entry holds answers the question its key stands for. *)
Definition cache_ok (c : gmap (list Z) entry) : Prop := forall k e, c !! k = Some e ->
  exists name type, is_dns_type type /\ k = cacheKey name type /\ Forall (answers name type) (en_rrs e).

Lemma cache_ok_empty : cache_ok ∅.
Proof. intros k e. by rewrite lookup_empty. Qed.

Lemma cache_ok_delete k c : cache_ok c -> cache_ok (delete k c).
Proof. intros Hc k' e [_ He]%lookup_delete_Some. by apply Hc. Qed.

Lemma cache_ok_set name type rrs ttl t c : is_dns_type type -> Forall (answers name type) rrs -> cache_ok c ->
  cache_ok (cache_set (cacheKey name type) rrs ttl t c).
Proof.
  intros Ht Hr Hc. unfold cache_set. destruct (_ || _); [done|]. intros k e [[<- <-] | [_ He]]%lookup_insert_Some; [|by apply Hc].
  by exists name, type.
Qed.

Lemma answers_ttl name type ttl rrs : Forall (answers name type) rrs -> Forall (answers name type) (with_ttl ttl <$> rrs).
Proof. intros Hr. apply Forall_fmap. by eapply Forall_impl. Qed.

Lemma cache_ok_get name type t c : is_dns_type type -> cache_ok c ->
  cache_ok (cache_get (cacheKey name type) t c).2 /\
  forall rrs, (cache_get (cacheKey name type) t c).1 = Some rrs -> Forall (answers name type) rrs.
Proof.
  intros Ht Hc. unfold cache_get. destruct (c !! _) as [e|] eqn:Ee; [|done]. destruct (_ <=? 0); [split; [by apply cache_ok_delete|done]|].
  split; [done|]. intros rrs [= <-]. apply answers_ttl. destruct (Hc _ _ Ee) as (n & ty & Hty & Hk & Hr).
  apply cacheKey_inj in Hk as [-> Hn]; [|done..]. eapply Forall_impl; [exact Hr|]. intros r [H1 H2]. split; [by rewrite H1|done].
Qed.

(* ------------------------------------------------------------------ *)
(** ** Computations that keep the cache consistent

    [tidy Q m]: from a consistent cache [m] leaves one, whether it returns
    or throws, and a value it returns satisfies [Q]. *)

Definition tidy {A} (Q : A -> Prop) (m : SM world A) : Prop := forall w, cache_ok (w_cache w) ->
  cache_ok (w_cache (m w).2) /\ forall a, (m w).1 = Ok a -> Q a.

Lemma tidy_impl {A} (P Q : A -> Prop) m : (forall a, P a -> Q a) -> tidy P m -> tidy Q m.
Proof. intros HPQ Hm w Hw. destruct (Hm w Hw) as [H1 H2]. split; [done|]. intros a Ha. by apply HPQ, H2. Qed.

(** What leaves the cache alone. *)
Lemma tidy_still {A} (m : SM world A) : (forall w, w_cache (m w).2 = w_cache w) -> tidy (fun _ => True) m.
Proof. intros Hm w Hw. by rewrite Hm. Qed.

Lemma tidy_ret {A} (Q : A -> Prop) a : Q a -> tidy Q (mret a).
Proof. intros Ha w Hw. split; [done|]. by intros ? [= <-]. Qed.

Lemma tidy_lift {A} (Q : A -> Prop) o : (forall a, o = Ok a -> Q a) -> tidy Q (lift o).
Proof. by intros Ho w Hw. Qed.

Lemma tidy_throw {A} (Q : A -> Prop) c e : tidy Q (throw c e).
Proof. by intros w Hw. Qed.

Lemma tidy_gets {A} (f : world -> A) : tidy (fun _ => True) (gets f).
Proof. by intros w Hw. Qed.

Lemma tidy_bind {A B} (P : A -> Prop) (Q : B -> Prop) m f : tidy P m -> (forall a, P a -> tidy Q (f a)) -> tidy Q (m ≫= f).
Proof.
  intros Hm Hf w Hw. destruct (Hm w Hw) as [H1 H2]. unfold mbind, sm_bind. destruct (m w) as [[a|c e] w']; cbn in *; [|done].
  by apply (Hf a (H2 a eq_refl)).
Qed.

Lemma tidy_or_else {A} (Q : A -> Prop) m f : tidy Q m -> tidy Q f -> tidy Q (or_else m f).
Proof.
  intros Hm Hf w Hw. destruct (Hm w Hw) as [H1 H2]. unfold or_else. destruct (m w) as [[a|c e] w']; cbn in *; [done|]. by apply Hf.
Qed.

Variables (clock : nat -> Z) (network : nat -> bool -> jsstr -> bytes -> exchange) (maxHops maxGlueDepth : nat).
(** Other resolutions keep the cache consistent too, as this one is shown to. *)
Hypothesis others : forall n tcp ip q c, cache_ok c -> cache_ok (ex_cache (network n tcp ip q) c).

Lemma tidy_now : tidy (fun _ => True) (now clock).
Proof. by intros w Hw. Qed.

Lemma tidy_get_cached name type : is_dns_type type ->
  tidy (fun r => forall rrs, r = Some rrs -> Forall (answers name type) rrs) (get_cached clock (cacheKey name type)).
Proof.
  intros Ht w Hw. unfold get_cached. rewrite gets_bind. case_bool_decide as Hn; [split; [done|]; by intros a [= <-]|].
  change ((now clock ≫= ?f) w) with (f (clock (w_reads w)) (World (w_cache w) (w_nextId w) (S (w_reads w)) (w_exchanges w))). cbn beta.
  pose proof (cache_ok_get name type (clock (w_reads w)) (w_cache w) Ht Hw) as [H1 H2].
  destruct (cache_get _ _ _) as [r c]. cbn in *. split; [done|]. by intros a [= <-].
Qed.

Lemma tidy_cacheRRs name type rrs : is_dns_type type -> Forall (answers name type) rrs -> tidy (fun _ => True) (cacheRRs clock name type rrs).
Proof.
  intros Ht Hr. unfold cacheRRs, set_cached. destruct (negb (nonempty rrs)); [by apply tidy_ret|]. destruct (_ || _); [by apply tidy_ret|].
  eapply tidy_bind; [apply tidy_now|]. intros t _ w Hw. split; [|done]. by apply cache_ok_set.
Qed.

Lemma tidy_ask tcp ip q : tidy (fun _ => True) (ask network tcp ip q).
Proof. intros w Hw. split; [|done]. by apply others. Qed.

Lemma tidy_queryServer ip name type : tidy (fun m => exists b, decodeMessage b = Ok m) (queryServer network ip name type).
Proof.
  unfold queryServer. eapply tidy_bind; [apply tidy_gets|]. intros n _. eapply (tidy_bind (fun _ => True)); [by apply tidy_still|]. intros _ _.
  eapply (tidy_bind (fun _ => True)); [by apply tidy_lift|]. intros q _.
  assert (Hd : forall tcp, tidy (fun m => exists b, decodeMessage b = Ok m) (b ← ask network tcp ip q; lift (decodeMessage b))).
  { intros tcp. eapply tidy_bind; [apply tidy_ask|]. intros b _. apply tidy_lift. intros m Hm. by exists b. }
  eapply (tidy_bind (fun r => forall m, r = Some m -> exists b, decodeMessage b = Ok m)).
  - apply tidy_or_else; [|by apply tidy_ret]. eapply tidy_bind; [apply tidy_ask|]. intros b _.
    eapply (tidy_bind (fun m => exists b, decodeMessage b = Ok m)); [apply tidy_lift; intros m Hm; by exists b|].
    intros m Hm. apply tidy_ret. by intros m' [= <-].
  - intros [msg|] Hr; [|apply Hd]. destruct (negb _); [apply Hd|]. by apply tidy_ret, Hr.
Qed.

Lemma tidy_ask_servers servers name type err : tidy (fun m => exists b, decodeMessage b = Ok m) (ask_servers network servers name type err).
Proof.
  revert err. induction servers as [|ip servers IH]; intros err; [apply tidy_throw|]. intros w Hw. cbn.
  destruct (tidy_queryServer ip name type w Hw) as [H1 H2]. destruct (queryServer _ _ _ _ w) as [[m|c e] w']; cbn in *; [done|]. by apply IH.
Qed.

(* ------------------------------------------------------------------ *)
(** ** Chains of aliases *)

(** [chain] leads from [name] to [last]. *)
Fixpoint links (name : jsstr) (chain : list rr) (last : jsstr) : Prop :=
  match chain with
  | [] => toLowerCase name = toLowerCase last
  | r :: chain => answers name TYPE_CNAME r /\ exists t, rr_rdata r = RTarget t /\ links t chain last
  end.

Lemma links_snoc chain : forall name last r t, links name chain last -> answers last TYPE_CNAME r -> rr_rdata r = RTarget t ->
  links name (chain ++ [r]) t.
Proof.
  induction chain as [|r' chain IH]; intros name last r t Hl [Hn Hty] Ht; cbn in *.
  - split; [split; [by rewrite Hn|done]|]. by exists t.
  - destruct Hl as [Ha (t' & Ht' & Hl)]. split; [done|]. exists t'. split; [done|]. by eapply IH.
Qed.

(** An answer to [name] and [type]: aliases, none with the target of an
    earlier one, no more than there are hops, and then records of that
    type for the last of them. *)
Definition relevant (name : jsstr) (type : Z) (rrs : list rr) : Prop := exists chain last finals,
  rrs = chain ++ finals /\ links name chain last /\ NoDup (omap target_of chain) /\ (length chain <= maxHops)%nat /\
  Forall (answers last type) finals.

(** The invariant of the loop with [more] hops to go. *)
Definition walk_ok (name : jsstr) (more : nat) (st : walk_state) : Prop :=
  links name (wk_chain st) (wk_name st) /\ wk_seen st = omap target_of (wk_chain st) /\ NoDup (wk_seen st) /\
  (length (wk_chain st) + more <= maxHops)%nat.

Lemma tidy_resolveGlue sub name : (forall s, sub = Some s -> forall n t, is_dns_type t -> tidy (fun _ => True) (s n t)) ->
  tidy (fun _ => True) (resolveGlue clock sub name).
Proof.
  intros Hs. unfold resolveGlue. eapply tidy_bind; [by apply tidy_get_cached|]. intros [rrs|] _; [by apply tidy_ret|].
  destruct sub as [s|]; [|by apply tidy_ret]. apply tidy_or_else; [|by apply tidy_ret].
  eapply tidy_bind; [by apply (Hs s)|]. intros r _. by apply tidy_ret.
Qed.

Lemma tidy_next_servers sub glue ns : (forall s, sub = Some s -> forall n t, is_dns_type t -> tidy (fun _ => True) (s n t)) ->
  tidy (fun _ => True) (next_servers clock sub glue ns).
Proof.
  intros Hs. induction ns as [|r ns IH]; [by apply tidy_ret|]. cbn. destruct (target_of r) as [t|]; [|by apply tidy_lift].
  eapply (tidy_bind (fun _ => True)).
  - destruct (truthy _); [by apply tidy_ret|]. eapply tidy_bind; [by apply tidy_resolveGlue|]. intros a _. by apply tidy_ret.
  - intros ip _. eapply tidy_bind; [exact IH|]. intros rest _. by apply tidy_ret.
Qed.

Lemma same_name_type name type r : same_name name r && is_type type r = true <-> answers name type r.
Proof. unfold same_name, is_type, answers. by rewrite andb_true_iff, bool_decide_eq_true, Z.eqb_eq. Qed.

Lemma find_rr_Some P rrs r : find_rr P rrs = Some r -> P r = true /\ r ∈ rrs.
Proof.
  unfold find_rr. intros Hh. destruct (filter P rrs) as [|r' l] eqn:E; [done|]. injection Hh as ->.
  assert (Hin : r ∈ filter P rrs) by (rewrite E; apply list_elem_of_here). apply list_elem_of_filter in Hin as [HP Hin].
  split; [by apply Is_true_eq_true|done].
Qed.

Lemma tidy_hop sub name type more st : is_dns_type type ->
  (forall s, sub = Some s -> forall n t, is_dns_type t -> tidy (fun _ => True) (s n t)) ->
  walk_ok name (S more) st ->
  tidy (fun r => match r with inl res => relevant name type (res_answers res) | inr st' => walk_ok name more st' end)
    (hop clock network sub type st).
Proof.
  intros Ht Hs (Hl & Hseen & Hnd & Hlen). unfold hop. eapply tidy_bind; [apply tidy_ask_servers|]. intros msg [b Hb].
  set (wanted := filter _ _). assert (Hw : Forall (answers (wk_name st) type) wanted).
  { apply Forall_forall. intros r [Hr _]%list_elem_of_filter. by apply same_name_type, Is_true_eq_true. }
  assert (Hrel : forall finals, Forall (answers (wk_name st) type) finals -> relevant name type (wk_chain st ++ finals)).
  { intros finals Hf. exists (wk_chain st), (wk_name st), finals. rewrite <-Hseen. split_and!; try done. lia. }
  destruct (nonempty wanted).
  { eapply tidy_bind; [by apply tidy_cacheRRs|]. intros _ _. apply tidy_ret. by apply Hrel. }
  destruct (find_rr _ _) as [cn|] eqn:Ec.
  - apply find_rr_Some in Ec as [Hcn%same_name_type Hin]. destruct (target_of cn) as [t|] eqn:Et; [|by apply tidy_lift].
    case_bool_decide as Hloop; [apply tidy_throw|]. eapply tidy_bind; [apply tidy_cacheRRs; [done|by apply Forall_singleton]|].
    intros _ _. apply tidy_ret. split_and!; cbn [wk_chain wk_name wk_seen].
    + eapply links_snoc; [done..|]. unfold target_of in Et. destruct (rr_rdata cn); by simplify_eq.
    + rewrite omap_app, Hseen. cbn. by rewrite Et.
    + apply NoDup_app. split_and!; [done|set_solver|apply NoDup_singleton].
    + rewrite length_app. cbn. lia.
  - destruct (_ || _); [apply tidy_ret; cbn; rewrite <-(app_nil_r (wk_chain st)); by apply Hrel|].
    destruct (negb _); [apply tidy_ret; cbn; rewrite <-(app_nil_r (wk_chain st)); by apply Hrel|].
    eapply tidy_bind; [by apply tidy_next_servers|]. intros servers _. destruct (negb _); [apply tidy_throw|].
    apply tidy_ret. split_and!; cbn; try done. lia.
Qed.

Lemma tidy_hops sub name type more : is_dns_type type ->
  (forall s, sub = Some s -> forall n t, is_dns_type t -> tidy (fun _ => True) (s n t)) ->
  forall st, walk_ok name more st -> tidy (fun res => relevant name type (res_answers res)) (hops clock network sub type more st).
Proof.
  intros Ht Hs. induction more as [|more IH]; intros st Hst; [apply tidy_throw|]. cbn.
  eapply tidy_bind; [by apply (tidy_hop sub name type more)|]. intros [res|st'] Hr; [by apply tidy_ret|by apply IH].
Qed.

Lemma tidy_resolve_at levels : forall name type, is_dns_type type ->
  tidy (fun res => relevant (with_dot name) type (res_answers res)) (resolve_at clock network maxHops levels name type).
Proof.
  induction levels as [|levels IH]; intros name type Ht; cbn [resolve_at]; unfold resolve_with;
    (eapply tidy_bind; [by apply tidy_get_cached|]); intros [rrs|] Hr.
  1, 3: apply tidy_ret; exists [], (with_dot name), rrs; split_and!; try done; [constructor|cbn; lia|by apply Hr].
  all: apply tidy_hops; [done| |split_and!; [done..|constructor|cbn; lia]]; intros s [= <-] n t Hn.
  eapply tidy_impl; [|by apply IH]. done.
Qed.

(** C19: What [resolve] answers is relevant to the question, whatever
    servers reply and whatever other resolutions do to the cache while this
    one waits: a chain of aliases from the name asked for, without a
    repeated target and no longer than [maxHops], followed only by records
    of the type asked for under the name the chain ends in.  Successful or
    not, it leaves the cache consistent. *)
Theorem resolver_answers name type w res w' : is_dns_type type -> cache_ok (w_cache w) ->
  resolve clock network maxHops maxGlueDepth name type w = (res, w') ->
  cache_ok (w_cache w') /\ forall a, res = Ok a -> relevant (with_dot name) type (res_answers a).
Proof.
  intros Ht Hw Hr. destruct (tidy_resolve_at maxGlueDepth name type Ht w Hw) as [H1 H2]. unfold resolve in Hr. rewrite Hr in H1, H2.
  split; [done|]. intros a ->. by apply H2.
Qed.

Lemma getUint16_bytes buf i v : Forall is_byte buf -> getUint16 buf i = Ok v -> is_dns_type v.
Proof.
  intros Hb. unfold getUint16. destruct (buf !! i) as [a|] eqn:Ea, (buf !! S i) as [c|] eqn:Ec; try done. intros [= <-].
  pose proof (Forall_lookup_1 _ _ _ _ Hb Ea) as Ha. pose proof (Forall_lookup_1 _ _ _ _ Hb Ec) as Hc. unfold is_byte, is_dns_type in *. lia.
Qed.

Lemma question_type buf m q : Forall is_byte buf -> decodeMessage buf = Ok m -> head (m_questions m) = Some q -> is_dns_type (q_type q).
Proof.
  intros Hb. unfold decodeMessage. destruct (_ <? 12)%nat; [done|]. intros Hm. bind_inv Hm. injection Hm as <-. cbn [m_questions].
  match goal with p : list question * nat |- _ => destruct p as [qs o] end. intros Hq. assert (Hall : Forall (fun q => is_dns_type (q_type q)) qs).
  { eapply decode_items_Forall; [|eassumption]. intros o1 q1 o2 Hd. unfold decodeQuestion in Hd. bind_inv Hd.
    injection Hd as <- _. cbn [q_type]. by eapply getUint16_bytes. }
  rewrite Forall_forall in Hall. apply Hall. destruct qs as [|q' qs]; [done|]. injection Hq as ->. apply list_elem_of_here.
Qed.

(** A reply of the server to a datagram echoes the query's id and its
    first question, and carries either an answer relevant to that question
    or none. *)
Theorem server_replies data w b w' : cache_ok (w_cache w) -> Forall is_byte data ->
  handleQuery clock network maxHops maxGlueDepth data w = (Ok (Some b), w') ->
  exists query q answers rcode, decodeMessage data = Ok query /\ head (m_questions query) = Some q /\
    (relevant (with_dot (q_name q)) (q_type q) answers \/ (answers = [] /\ rcode = SERVFAIL)) /\
    encodeMessage (Message (Header (h_id (m_header query)) 1 0 0 0 (h_rd (m_header query)) 1 rcode) [q] answers [] []) = Ok b.
Proof.
  intros Hw Hq Hh. unfold handleQuery in Hh. destruct (decodeMessage data) as [query|] eqn:Ed; [|done].
  destruct (head (m_questions query)) as [q|] eqn:Eq; [|done].
  assert (Hk : tidy (fun r => relevant (with_dot (q_name q)) (q_type q) r.1 \/ r.1 = [] /\ r.2 = SERVFAIL)
    (or_else (result ← resolve clock network maxHops maxGlueDepth (q_name q) (q_type q); mret (res_answers result, res_rcode result)) (mret ([], SERVFAIL)))).
  { apply tidy_or_else; [|apply tidy_ret; by right]. eapply tidy_bind; [apply tidy_resolve_at; by eapply question_type|]. intros r Hr. apply tidy_ret. by left. }
  apply bind_inv in Hh as (r & w1 & Hr & Hh). destruct (Hk w Hw) as [_ Hk2]. rewrite Hr in Hk2. specialize (Hk2 r eq_refl).
  apply bind_inv in Hh as (b' & w2 & He & Hh). injection He as He _. injection Hh as <- _.
  by exists query, q, r.1, r.2.
Qed.
End Answers.

(* ------------------------------------------------------------------ *)
(** ** A resolution *)

#[local] Instance sample_tables : UnicodeTables := {| lower_nonascii s := s |}.

Definition sample_records : list rr :=
  [RR (js "A.example.") TYPE_CNAME CLASS_IN 60 (RTarget (js "b.example.")); RR (js "b.example.") TYPE_A CLASS_IN 30 (RAddress (js "192.0.2.7"))].

(** Every server gives the same two records. *)
Definition sample_network (n : nat) (tcp : bool) (ip : jsstr) (query : bytes) : exchange :=
  Exchange (Ok tt) [EvRx (default [] (match encodeMessage (Message (Header 7 1 0 1 0 0 0 0) [] sample_records [] []) with Ok b => Some b | _ => None end))] id 0.

Definition sample_world : world := World ∅ 1 0 0.
Definition sample_clock (n : nat) : Z := Z.of_nat n * 1000.

Lemma resolver_answers_witness :
  (forall n tcp ip q c, cache_ok c -> cache_ok (ex_cache (sample_network n tcp ip q) c)) /\
  is_dns_type TYPE_A /\ cache_ok (w_cache sample_world) /\
  exists a w', resolve sample_clock sample_network 32 2 (js "a.EXAMPLE") TYPE_A sample_world = (Ok a, w') /\
    res_answers a = sample_records /\ cache_ok (w_cache w') /\
    relevant 32 (with_dot (js "a.EXAMPLE")) TYPE_A (res_answers a).
Proof.
  assert (Ho : forall n tcp ip q c, cache_ok c -> cache_ok (ex_cache (sample_network n tcp ip q) c)) by done.
  assert (Ht : is_dns_type TYPE_A) by (unfold is_dns_type, TYPE_A; lia).
  assert (Hc : cache_ok (w_cache sample_world)) by apply cache_ok_empty.
  split; [done|]. split; [done|]. split; [done|].
  destruct (resolve sample_clock sample_network 32 2 (js "a.EXAMPLE") TYPE_A sample_world) as [res w'] eqn:E.
  destruct (resolver_answers sample_clock sample_network 32 2 Ho _ _ _ _ _ Ht Hc E) as [H1 H2].
  assert (Hv : res = Ok (Result (Some (Header 7 1 0 1 0 0 0 0)) sample_records)).
  { change res with (res, w').1. rewrite <-E. vm_compute. reflexivity. }
  subst res. exists (Result (Some (Header 7 1 0 1 0 0 0 0)) sample_records), w'. split; [done|]. split; [done|]. split; [done|]. by apply H2.
Defined.

Definition sample_query : bytes := [0; 9; 1; 0; 0; 1; 0; 0; 0; 0; 0; 0; 1; 97; 7; 101; 120; 97; 109; 112; 108; 101; 0; 0; 1; 0; 1].

Lemma server_replies_witness :
  cache_ok (w_cache sample_world) /\ Forall is_byte sample_query /\
  exists b w', handleQuery sample_clock sample_network 32 2 sample_query sample_world = (Ok (Some b), w') /\
  exists query q answers rcode, decodeMessage sample_query = Ok query /\ head (m_questions query) = Some q /\
    (relevant 32 (with_dot (q_name q)) (q_type q) answers \/ (answers = [] /\ rcode = SERVFAIL)) /\
    encodeMessage (Message (Header (h_id (m_header query)) 1 0 0 0 (h_rd (m_header query)) 1 rcode) [q] answers [] []) = Ok b.
Proof.
  assert (Hc : cache_ok (w_cache sample_world)) by apply cache_ok_empty.
  assert (Hb : Forall is_byte sample_query) by (unfold sample_query; forall_list; unfold is_byte; lia).
  split; [done|]. split; [done|].
  assert (Hv : exists b, (handleQuery sample_clock sample_network 32 2 sample_query sample_world).1 = Ok (Some b)) by (eexists; vm_compute; reflexivity).
  destruct Hv as [b Hv]. exists b, (handleQuery sample_clock sample_network 32 2 sample_query sample_world).2.
  assert (E : handleQuery sample_clock sample_network 32 2 sample_query sample_world
    = (Ok (Some b), (handleQuery sample_clock sample_network 32 2 sample_query sample_world).2)) by (rewrite <-Hv; apply surjective_pairing).
  split; [exact E|]. eapply (server_replies sample_clock sample_network 32 2); [|exact Hc|exact Hb|exact E]. intros n tcp ip q c Hk. exact Hk.
Defined.
