(* ===== verification/Headers.v ===== *)
(** * [Headers] of [lib/lws/headers.js]

    The map behind a [Headers] object is a plain object: its properties are
    kept here in the order of their creation.  [set-cookie] alone holds an
    array.  Names and values are strings, what [String()] makes of other
    values being outside. *)

From stdpp Require Import sorting.
From S2P Require Import Prelude JsString JsNumber.
Open Scope Z_scope.

Inductive hvalue := HStr (s : jsstr) | HArr (l : list jsstr).

#[export] Instance hvalue_eq_dec : EqDecision hvalue.
Proof. solve_decision. Defined.

Abbreviation hmap := (list (jsstr * hvalue)) (only parsing).

(* ------------------------------------------------------------------ *)
(** ** The properties of an object *)

Fixpoint prop (name : jsstr) (m : hmap) : option hvalue :=
  match m with
  | [] => None
  | (n, v) :: m => if bool_decide (n = name) then Some v else prop name m
  end.

(** An assignment changes a property in its place or makes one at the end. *)
Fixpoint put (name : jsstr) (v : hvalue) (m : hmap) : hmap :=
  match m with
  | [] => [(name, v)]
  | (n, w) :: m => if bool_decide (n = name) then (n, v) :: m else (n, w) :: put name v m
  end.

Definition remove (name : jsstr) (m : hmap) : hmap := filter (fun p => p.1 <> name) m.

(** Names that are array indices are enumerated first, in numeric order. *)
Definition array_index (name : jsstr) : option Z :=
  let v := digits_value 10 name in
  if nonempty name && forallb is_digit name && (bool_decide (name = [0x30]) || negb (bool_decide (head name = Some 0x30)))
     && (v <? 2 ^ 32 - 1) then Some v else None.

Definition is_index (name : jsstr) : bool := match array_index name with Some _ => true | None => false end.

Definition index_le (a b : jsstr) : Prop := default 0 (array_index a) <= default 0 (array_index b).
#[export] Instance index_le_dec : RelDecision index_le.
Proof. intros a b. unfold index_le. apply _. Defined.

(** [for(const name in map)] *)
Definition own_names (m : hmap) : list jsstr :=
  merge_sort index_le (filter is_index m.*1) ++ filter (fun n => negb (is_index n)) m.*1.

(* ------------------------------------------------------------------ *)
(** ** Names and values *)

(** [/[a-z0-9\-#$%&'*+.^_`|~!]/i] *)
Definition is_token_char (u : Z) : bool :=
  is_alnum u || bool_decide (u ∈ [0x2d; 0x23; 0x24; 0x25; 0x26; 0x27; 0x2a; 0x2b; 0x2e; 0x5e; 0x5f; 0x60; 0x7c; 0x7e; 0x21]).

Definition normalizeName (name : jsstr) : outcome jsstr :=
  if existsb (fun u => negb (is_token_char u)) name || bool_decide (name = [])
  then Throw ErrTypeError "Invalid character in header field name" else Ok (ascii_lower name).

Definition HTTP_WHITESPACE (u : Z) : bool := bool_decide (u ∈ [0x09; 0x0a; 0x0d; 0x0c; 0x20]).
Definition is_forbidden (u : Z) : bool := bool_decide (u ∈ [0x00; 0x0d; 0x0a]).

Definition normalizeValue (value : jsstr) : outcome jsstr :=
  let value := trim_by HTTP_WHITESPACE value in
  if existsb is_forbidden value then Throw ErrTypeError "Invalid character in header field value" else Ok value.

Definition set_cookie : jsstr := js "set-cookie".

(* ------------------------------------------------------------------ *)
(** ** Operations *)

Definition append (name value : jsstr) (m : hmap) : outcome hmap :=
  name ← normalizeName name;
  value ← normalizeValue value;
  let cur := prop name m in
  Ok (if bool_decide (name = set_cookie) then
        put name (HArr match cur with Some (HArr l) => l ++ [value] | Some (HStr s) => [s; value] | None => [value] end) m
      else
        put name (match cur with
                  | Some (HStr ((_ :: _) as old)) => HStr (old ++ js ", " ++ value)
                  | Some (HArr l) => HStr (join [0x2c] l ++ js ", " ++ value)
                  | _ => HStr value
                  end) m).

Definition delete (name : jsstr) (m : hmap) : outcome hmap := name ← normalizeName name; Ok (remove name m).

Definition has (name : jsstr) (m : hmap) : outcome bool :=
  name ← normalizeName name; Ok (bool_decide (is_Some (prop name m))).

Definition get (name : jsstr) (m : hmap) : outcome (option jsstr) :=
  name ← normalizeName name;
  b ← has name m;
  if negb b then Ok None else
  Ok (match prop name m with Some (HArr l) => Some (join (js ", ") l) | Some (HStr s) => Some s | None => None end).

Definition getSetCookie (m : hmap) : list jsstr :=
  match prop set_cookie m with None => [] | Some (HArr l) => l | Some (HStr s) => [s] end.

Definition set (name value : jsstr) (m : hmap) : outcome hmap :=
  name ← normalizeName name;
  value ← normalizeValue value;
  Ok (put name (if bool_decide (name = set_cookie) then HArr [value] else HStr value) m).

(** The calls of the callback, name and value, over [names]. *)
Definition pairs_of (names : list jsstr) (m : hmap) : list (jsstr * jsstr) :=
  concat ((fun n => match prop n m with
                    | Some (HArr l) => (fun item => (n, item)) <$> l
                    | Some (HStr s) => [(n, s)]
                    | None => [] end) <$> names).

Definition forEach (m : hmap) : list (jsstr * jsstr) := pairs_of (own_names m) m.

(** The result has a prototype: an assignment to [__proto__] makes no property. *)
Definition toObject (m : hmap) : list (jsstr * hvalue) :=
  omap (fun n => if bool_decide (n = js "__proto__") then None else v ← prop n m; Some (n, v)) (own_names m).

(** [Object.keys(map).sort()] *)
Definition keys (m : hmap) : list jsstr := merge_sort str_le (own_names m).
Definition entries (m : hmap) : list (jsstr * jsstr) := pairs_of (keys m) m.
Definition values (m : hmap) : list jsstr := (entries m).*2.

(* ------------------------------------------------------------------ *)
(** ** The constructor *)

Inductive headers_init :=
| FromHeaders (m : hmap)
| FromPairs (l : list (list jsstr))
| FromNothing
| FromInvalid
| FromObject (props : list (jsstr * hvalue)).

Fixpoint append_all (l : list (jsstr * jsstr)) (m : hmap) : outcome hmap :=
  match l with
  | [] => Ok m
  | (n, v) :: l => m ← append n v m; append_all l m
  end.

Fixpoint append_pairs (l : list (list jsstr)) (m : hmap) : outcome hmap :=
  match l with
  | [] => Ok m
  | [n; v] :: l => m ← append n v m; append_pairs l m
  | _ :: _ => Throw ErrTypeError "Expected name/value pair to be length 2"
  end.

(** The values of one property of an init object, until one is refused. *)
Fixpoint append_values (name : jsstr) (vs : list jsstr) (m : hmap) : hmap :=
  match vs with
  | [] => m
  | v :: vs => match append name v m with Ok m => append_values name vs m | Throw _ _ => m end
  end.

Definition new_Headers (init : headers_init) : outcome hmap :=
  match init with
  | FromHeaders h => append_all (forEach h) []
  | FromPairs l => append_pairs l []
  | FromNothing => Ok []
  | FromInvalid => Throw ErrTypeError "Headers constructor: invalid init type"
  | FromObject props =>
    Ok (foldl (fun m p => append_values p.1 (match p.2 with HStr s => [s] | HArr l => l end) m) [] props)
  end.

(** A use of a [Headers] object; an operation that throws leaves it alone. *)
Inductive headers_op := OpAppend (n v : jsstr) | OpSet (n v : jsstr) | OpDelete (n : jsstr).

Definition headers_step (m : hmap) (op : headers_op) : hmap :=
  match match op with OpAppend n v => append n v m | OpSet n v => set n v m | OpDelete n => delete n m end with
  | Ok m => m
  | Throw _ _ => m
  end.

Definition headers_run (m : hmap) (ops : list headers_op) : hmap := foldl headers_step m ops.
