(* ===== verification/HeadersProps.v ===== *)
(** * What [Headers] promises

    No header that comes out of a [Headers] object can break out of its
    line; the object is a multimap under case-insensitive names; its entries
    come sorted; a copy says the same. *)

From stdpp Require Import sorting.
From S2P Require Import Prelude JsString JsNumber Headers.
Open Scope Z_scope.

#[local] Arguments js : simpl never.

(* ------------------------------------------------------------------ *)
(** ** Trimming *)

Lemma drop_while_suffix f s : exists p, s = p ++ drop_while f s /\ Forall (fun u => f u = true) p.
Proof.
  induction s as [|u s (p & Hp & Hf)]; [by exists []|]. cbn. destruct (f u) eqn:E; [|by exists []].
  exists (u :: p). split; [cbn; by rewrite <-Hp|by constructor].
Qed.

Lemma drop_while_head f s u t : drop_while f s = u :: t -> f u = false.
Proof. induction s as [|x s IH]; cbn; [done|]. destruct (f x) eqn:E; [done|]. by intros [= -> _]. Qed.

Lemma drop_while_idem f s : drop_while f (drop_while f s) = drop_while f s.
Proof. destruct (drop_while f s) as [|u t] eqn:E; [done|]. cbn. by rewrite (drop_while_head _ _ _ _ E). Qed.

(** A trimmed string is a piece of the string. *)
Lemma trim_by_piece f s : exists a b, s = a ++ trim_by f s ++ b.
Proof.
  unfold trim_by. destruct (drop_while_suffix f s) as (a & Ha & _). destruct (drop_while_suffix f (reverse (drop_while f s))) as (b & Hb & _).
  exists a, (reverse b). rewrite Ha at 1. f_equal. rewrite <-reverse_app, <-Hb. by rewrite reverse_involutive.
Qed.

Lemma trim_by_idem f s : trim_by f (trim_by f s) = trim_by f s.
Proof.
  unfold trim_by. set (a := drop_while f s). destruct (drop_while_suffix f (reverse a)) as (p & Hp & _).
  set (r := drop_while f (reverse a)) in *.
  assert (Ha : a = reverse r ++ reverse p) by (rewrite <-reverse_app, <-Hp; by rewrite reverse_involutive).
  assert (Hd : drop_while f (reverse r) = reverse r).
  { destruct (reverse r) as [|u t] eqn:E; [done|]. cbn. rewrite (drop_while_head f s u (t ++ reverse p)); [done|]. fold a. by rewrite Ha. }
  rewrite Hd, reverse_involutive. unfold r. by rewrite drop_while_idem.
Qed.

(* ------------------------------------------------------------------ *)
(** ** Properties *)

Lemma prop_put name v m n : prop n (put name v m) = if bool_decide (name = n) then Some v else prop n m.
Proof.
  induction m as [|[k w] m IH]; cbn; [done|]. destruct (bool_decide_reflect (k = name)) as [->|Hk]; cbn.
  - by destruct (bool_decide_reflect (name = n)).
  - rewrite IH. destruct (bool_decide_reflect (k = n)) as [->|]; [|done]. by rewrite bool_decide_eq_false_2.
Qed.

Lemma prop_None name m : prop name m = None <-> name ∉ m.*1.
Proof.
  induction m as [|[k w] m IH]; cbn; [split; [intros _; apply not_elem_of_nil|done]|]. rewrite not_elem_of_cons.
  destruct (bool_decide_reflect (k = name)) as [->|Hk]; [split; [done|tauto]|]. rewrite IH. naive_solver.
Qed.

Lemma prop_elem name v m : prop name m = Some v -> (name, v) ∈ m.
Proof.
  induction m as [|[k w] m IH]; cbn; [done|]. case_bool_decide as E; [intros [= <-]; subst; apply list_elem_of_here|].
  intros Hp. apply list_elem_of_further. by apply IH.
Qed.

Lemma put_keys name v m : (put name v m).*1 = if bool_decide (name ∈ m.*1) then m.*1 else m.*1 ++ [name].
Proof.
  induction m as [|[k w] m IH]; cbn; [by rewrite bool_decide_eq_false_2 by apply not_elem_of_nil|].
  destruct (bool_decide_reflect (k = name)) as [->|Hk]; cbn.
  - by rewrite bool_decide_eq_true_2 by apply list_elem_of_here.
  - rewrite IH. destruct (bool_decide_reflect (name ∈ m.*1)) as [Hin|Hin].
    + by rewrite bool_decide_eq_true_2 by by apply list_elem_of_further.
    + by rewrite bool_decide_eq_false_2 by (apply not_elem_of_cons; naive_solver).
Qed.

Lemma put_elem name v m p : p ∈ put name v m -> p = (name, v) \/ p ∈ m.
Proof.
  induction m as [|[k w] m IH]; cbn; [rewrite list_elem_of_singleton; by left|].
  destruct (bool_decide_reflect (k = name)) as [->|Hk]; rewrite !elem_of_cons; naive_solver.
Qed.

Lemma prop_remove name m n : prop n (remove name m) = if bool_decide (name = n) then None else prop n m.
Proof.
  unfold remove. induction m as [|[k w] m IH]; [by case_bool_decide|].
  rewrite filter_cons. cbn [fst prop]. destruct (decide (k <> name)) as [Hk|Hk].
  - cbn [prop]. rewrite IH. destruct (bool_decide_reflect (k = n)) as [->|]; [|done]. by rewrite bool_decide_eq_false_2 by congruence.
  - rewrite IH. apply dec_stable in Hk as ->. by destruct (bool_decide_reflect (name = n)).
Qed.

(* ------------------------------------------------------------------ *)
(** ** Well-formed maps *)

(** A name as it is stored, and a value no line break is in. *)
Definition valid_name (n : jsstr) : Prop := n <> [] /\ Forall (fun u => is_token_char u = true /\ is_upper u = false) n.
Definition clean (v : jsstr) : Prop := Forall (fun u => u <> 0x00 /\ u <> 0x0a /\ u <> 0x0d) v.

Definition good_prop (p : jsstr * hvalue) : Prop := valid_name p.1 /\
  match p.2 with
  | HStr s => p.1 <> set_cookie /\ clean s
  | HArr l => p.1 = set_cookie /\ l <> [] /\ Forall (fun v => clean v /\ trim_by HTTP_WHITESPACE v = v) l
  end.

Definition good (m : list (jsstr * hvalue)) : Prop := NoDup m.*1 /\ Forall good_prop m.

Lemma lower_token u : is_token_char u = true -> is_token_char (lower_unit u) = true /\ is_upper (lower_unit u) = false.
Proof.
  intros Hu. assert (Hr : 0 <= u < 128).
  { unfold is_token_char, is_alnum, is_alpha, is_upper, is_lower, is_digit in Hu. rewrite !orb_true_iff, !andb_true_iff, bool_decide_eq_true in Hu.
    destruct Hu as [?|Hu]; [lia|]. rewrite !elem_of_cons in Hu. repeat destruct Hu as [->|Hu]; [lia..|]. by apply not_elem_of_nil in Hu. }
  assert (forallb (fun k => let u := Z.of_nat k in negb (is_token_char u) || is_token_char (lower_unit u) && negb (is_upper (lower_unit u))) (seq 0 128) = true)
    as Hall by (vm_compute; reflexivity).
  rewrite forallb_forall in Hall. specialize (Hall (Z.to_nat u) ltac:(apply in_seq; lia)). cbv zeta in Hall.
  rewrite Z2Nat.id, Hu in Hall by lia. cbn [negb orb] in Hall. by rewrite andb_true_iff, negb_true_iff in Hall.
Qed.

Lemma normalizeName_valid name n : normalizeName name = Ok n -> valid_name n.
Proof.
  unfold normalizeName. destruct (existsb _ name) eqn:E; [done|]. cbn [orb]. case_bool_decide as Hn; [done|]. intros [= <-].
  split; [by destruct name|]. apply Forall_fmap, Forall_forall. intros u Hu. apply lower_token. destruct (is_token_char u) eqn:Et; [done|].
  rewrite <-E. apply existsb_exists. exists u. rewrite Et. split; [by apply list_elem_of_In|done].
Qed.

Lemma valid_normalized n : valid_name n -> normalizeName n = Ok n.
Proof.
  intros [Hne Hf]. unfold normalizeName. rewrite (bool_decide_eq_false_2 _ Hne), orb_false_r.
  destruct (existsb _ n) eqn:E.
  - apply existsb_exists in E as (u & Hu & Ht). rewrite Forall_forall in Hf. destruct (Hf u) as [H1 _]; [by apply list_elem_of_In|]. by rewrite H1 in Ht.
  - f_equal. unfold ascii_lower. rewrite <-(list_fmap_id n) at 2. apply list_fmap_ext. intros i u Hu.
    destruct (Forall_lookup_1 _ _ _ _ Hf Hu) as [_ H2]. unfold lower_unit. by rewrite H2.
Qed.

Lemma normalizeValue_clean value v : normalizeValue value = Ok v -> clean v /\ trim_by HTTP_WHITESPACE v = v.
Proof.
  unfold normalizeValue. destruct (existsb _ _) eqn:E; [done|]. intros [= <-]. split; [|apply trim_by_idem].
  apply Forall_forall. intros u Hu. destruct (is_forbidden u) eqn:Ef.
  - assert (Hx : existsb is_forbidden (trim_by HTTP_WHITESPACE value) = true) by (apply existsb_exists; exists u; split; [by apply list_elem_of_In|done]).
    congruence.
  - unfold is_forbidden in Ef. apply bool_decide_eq_false in Ef. rewrite !not_elem_of_cons in Ef. tauto.
Qed.

Lemma clean_normalized v : clean v -> normalizeValue v = Ok (trim_by HTTP_WHITESPACE v).
Proof.
  intros Hv. unfold normalizeValue. destruct (existsb _ _) eqn:E; [|done]. apply existsb_exists in E as (u & Hu & Hf).
  destruct (trim_by_piece HTTP_WHITESPACE v) as (a & b & Hab). unfold clean in Hv. rewrite Hab, !Forall_app in Hv. destruct Hv as (_ & Hv & _).
  rewrite Forall_forall in Hv. specialize (Hv u). rewrite list_elem_of_In in Hv. specialize (Hv Hu).
  unfold is_forbidden in Hf. rewrite bool_decide_eq_true, !elem_of_cons in Hf. destruct Hf as [?|[?|[?|Hf]]]; [tauto..|]. by apply not_elem_of_nil in Hf.
Qed.

Lemma clean_app a b : clean a -> clean b -> clean (a ++ b).
Proof. intros. by apply Forall_app. Qed.

Lemma good_put name v m : good_prop (name, v) -> good m -> good (put name v m).
Proof.
  intros Hv [Hnd Hf]. split.
  - rewrite put_keys. case_bool_decide as Hin; [done|]. apply NoDup_app. split_and!; [done|set_solver|apply NoDup_singleton].
  - apply Forall_forall. intros p [->|Hp]%put_elem; [done|]. rewrite Forall_forall in Hf. by apply Hf.
Qed.

Lemma good_lookup m name v : good m -> prop name m = Some v -> good_prop (name, v).
Proof. intros [_ Hf] Hp%prop_elem. rewrite Forall_forall in Hf. by apply Hf. Qed.

Lemma good_append name value m m' : good m -> append name value m = Ok m' -> good m'.
Proof.
  intros Hm. unfold append. destruct (normalizeName name) as [n|] eqn:En; [|done]. apply normalizeName_valid in En. cbn [mbind outcome_bind].
  destruct (normalizeValue value) as [v|] eqn:Ev; [|done]. apply normalizeValue_clean in Ev as [Hv Ht]. cbn [mbind outcome_bind]. intros <-%Ok_inj.
  destruct (prop n m) as [w|] eqn:Ep; [pose proof (good_lookup _ _ _ Hm Ep) as [_ Hw]; cbn in Hw|]; case_bool_decide as Hn; apply good_put; try done;
    (split; [done|]); cbn [fst snd].
  - destruct w as [s|l]; [tauto|]. destruct Hw as (_ & Hl & Hf). split; [done|]. split; [by destruct l|]. apply Forall_app. split; [done|by apply Forall_singleton].
  - destruct w as [[|u s]|l]; [by split|split; [done|]|tauto]. apply clean_app; [tauto|]. apply clean_app; [|done]. unfold clean, js. cbn. forall_list; done.
  - split; [done|]. split; [done|]. by apply Forall_singleton.
Qed.

Lemma good_set name value m m' : good m -> set name value m = Ok m' -> good m'.
Proof.
  intros Hm. unfold set. destruct (normalizeName name) as [n|] eqn:En; [|done]. apply normalizeName_valid in En. cbn [mbind outcome_bind].
  destruct (normalizeValue value) as [v|] eqn:Ev; [|done]. apply normalizeValue_clean in Ev as [Hv Ht]. cbn [mbind outcome_bind]. intros <-%Ok_inj.
  apply good_put; [|done]. split; [done|]. case_bool_decide; cbn; [|done]. split; [done|]. split; [done|]. by apply Forall_singleton.
Qed.

Lemma good_delete name m m' : good m -> delete name m = Ok m' -> good m'.
Proof.
  intros [Hnd Hf]. unfold delete. destruct (normalizeName name) as [n|]; [|done]. cbn. intros [= <-]. split.
  - eapply sublist_NoDup; [exact Hnd|]. apply fmap_sublist, sublist_filter.
  - apply Forall_forall. intros p [_ Hp]%list_elem_of_filter. rewrite Forall_forall in Hf. by apply Hf.
Qed.

Lemma good_nil : good [].
Proof. split; constructor. Qed.

(* ------------------------------------------------------------------ *)
(** ** Objects the program can make *)

(** What the constructor and the operations build. *)
Inductive built : list (jsstr * hvalue) -> Prop :=
| built_new init m : (forall h, init = FromHeaders h -> built h) -> new_Headers init = Ok m -> built m
| built_step m op : built m -> built (headers_step m op).

Lemma append_all_good l m m' : good m -> append_all l m = Ok m' -> good m'.
Proof.
  revert m. induction l as [|[n v] l IH]; intros m Hm; cbn; [by intros <-%Ok_inj|].
  destruct (append n v m) as [m1|] eqn:E; [|done]. cbn. apply IH. by eapply good_append.
Qed.

Lemma append_pairs_good l m m' : good m -> append_pairs l m = Ok m' -> good m'.
Proof.
  revert m. induction l as [|[|n [|v []]] l IH]; intros m Hm; cbn; try done; [by intros <-%Ok_inj|].
  destruct (append n v m) as [m1|] eqn:E; [|done]. cbn. apply IH. by eapply good_append.
Qed.

Lemma append_values_good name vs m : good m -> good (append_values name vs m).
Proof.
  revert m. induction vs as [|v vs IH]; intros m Hm; cbn; [done|].
  destruct (append name v m) as [m1|] eqn:E; [|done]. apply IH. by eapply good_append.
Qed.

Lemma built_good m : built m -> good m.
Proof.
  induction 1 as [init m _ _ Hi|m op _ IH].
  - destruct init as [h|l| | |props]; cbn in Hi.
    + eapply append_all_good; [apply good_nil|exact Hi].
    + eapply append_pairs_good; [apply good_nil|exact Hi].
    + apply Ok_inj in Hi as <-. apply good_nil.
    + done.
    + apply Ok_inj in Hi as <-. generalize good_nil. generalize (@nil (jsstr * hvalue)).
      induction props as [|p props IH]; intros m Hm; cbn; [done|]. apply IH. by apply append_values_good.
  - unfold headers_step. destruct op as [n v|n v|n].
    + destruct (append n v m) as [m'|] eqn:E; [by eapply good_append|done].
    + destruct (set n v m) as [m'|] eqn:E; [by eapply good_set|done].
    + destruct (delete n m) as [m'|] eqn:E; [by eapply good_delete|done].
Qed.

(* ------------------------------------------------------------------ *)
(** ** What is emitted *)

Lemma own_names_perm m : own_names m ≡ₚ m.*1.
Proof.
  unfold own_names. rewrite merge_sort_Permutation. induction m.*1 as [|n ns IH]; [done|]. destruct (is_index n) eqn:E.
  - rewrite filter_cons_True, filter_cons_False by (rewrite E; naive_solver). cbn [app]. by rewrite IH.
  - rewrite filter_cons_False, filter_cons_True by (rewrite E; naive_solver). by rewrite <-Permutation_middle, IH.
Qed.

(** The pairs of one property. *)
Definition prop_pairs (p : jsstr * hvalue) : list (jsstr * jsstr) :=
  match p.2 with HArr l => (fun item => (p.1, item)) <$> l | HStr s => [(p.1, s)] end.

Lemma pairs_of_lookup ns m nv : nv ∈ pairs_of ns m -> exists v, prop nv.1 m = Some v /\ nv.1 ∈ ns /\ nv ∈ prop_pairs (nv.1, v).
Proof.
  unfold pairs_of. rewrite list_elem_of_In, in_concat. intros (l & Hl & Hnv). rewrite <-list_elem_of_In in Hl. rewrite <-list_elem_of_In in Hnv.
  apply list_elem_of_fmap in Hl as (n & -> & Hn).
  destruct (prop n m) as [[s|l]|] eqn:Ep; [|apply list_elem_of_fmap in Hnv as (v & -> & Hv)|by apply not_elem_of_nil in Hnv].
  - apply list_elem_of_singleton in Hnv as ->. exists (HStr s). cbn. split_and!; [done|done|by apply list_elem_of_singleton].
  - exists (HArr l). cbn. split_and!; [done|done|]. by apply list_elem_of_fmap_2.
Qed.

Lemma pairs_clean ns m nv : good m -> nv ∈ pairs_of ns m -> valid_name nv.1 /\ clean nv.2.
Proof.
  intros Hm (v & Hp & _ & Hin)%pairs_of_lookup. pose proof (good_lookup _ _ _ Hm Hp) as [Hn Hv]. split; [done|]. cbn in *.
  unfold prop_pairs in Hin. cbn in Hin. destruct v as [s|l].
  - apply list_elem_of_singleton in Hin. rewrite Hin. cbn. tauto.
  - destruct Hv as (_ & _ & Hf). apply list_elem_of_fmap in Hin as (w & -> & Hw). rewrite Forall_forall in Hf. cbn. by apply Hf.
Qed.

(** C21: Whatever a program does with [Headers] - any initializer, any
    sequence of [append], [set] and [delete], values with line breaks
    included - every name and value that [forEach] or the iterators hand out
    is a lower-case token and a string without NUL, CR or LF: no header can
    break out of its line. *)
Theorem headers_no_injection m : built m -> forall name value,
  (name, value) ∈ forEach m \/ (name, value) ∈ entries m ->
  valid_name name /\ Forall (fun u => u <> 0x00 /\ u <> 0x0a /\ u <> 0x0d) value.
Proof.
  intros Hm%built_good name value Hin. by destruct Hin as [Hin|Hin]; apply (pairs_clean _ _ _ Hm Hin).
Qed.

(** The iterators run through the names in the order of their code
    units, and through exactly the pairs [forEach] runs through. *)
Theorem headers_entries_sorted m : built m ->
  entries m ≡ₚ forEach m /\ StronglySorted str_le (keys m) /\ NoDup (keys m) /\ values m = snd <$> entries m.
Proof.
  intros Hm%built_good. assert (Hk : keys m ≡ₚ own_names m) by apply merge_sort_Permutation. split_and!; [|by apply StronglySorted_merge_sort; apply _| |done].
  - unfold entries, forEach, pairs_of. by rewrite Hk.
  - rewrite Hk, own_names_perm. apply Hm.
Qed.

(* ------------------------------------------------------------------ *)
(** ** The multimap *)

Lemma get_prop name n m : normalizeName name = Ok n ->
  get name m = Ok (match prop n m with Some (HArr l) => Some (join (js ", ") l) | Some (HStr s) => Some s | None => None end).
Proof.
  intros Hn. unfold get, has. rewrite Hn. cbn [mbind outcome_bind].
  rewrite (valid_normalized n) by by eapply normalizeName_valid. cbn [mbind outcome_bind].
  destruct (prop n m); [by rewrite bool_decide_eq_true_2 by done|]. rewrite bool_decide_eq_false_2 by (by intros [? ?]). done.
Qed.

(** [Headers] is a multimap under case-insensitive names: [append]
    joins a value to a non-empty one with a comma, except for [set-cookie],
    whose values stay apart; [set] leaves one value; [delete] none; and no
    operation touches another name. *)
Theorem headers_multimap m name n value v other o :
  built m -> normalizeName name = Ok n -> normalizeValue value = Ok v -> normalizeName other = Ok o ->
  (exists m', append name value m = Ok m' /\ built m' /\
    get other m' = (if bool_decide (n = o) then
        old ← get other m;
        Ok (Some (match old with
                  | Some s => if bool_decide (n <> set_cookie /\ s = []) then v else s ++ js ", " ++ v
                  | None => v end))
      else get other m) /\
    getSetCookie m' = if bool_decide (n = set_cookie) then getSetCookie m ++ [v] else getSetCookie m) /\
  (exists m', set name value m = Ok m' /\ built m' /\ get other m' = (if bool_decide (n = o) then Ok (Some v) else get other m)) /\
  (exists m', delete name m = Ok m' /\ built m' /\ get other m' = (if bool_decide (n = o) then Ok None else get other m)).
Proof.
  intros Hb Hn Hv Ho. pose proof (built_good m Hb) as Hm. split_and!.
  - assert (Ha : exists m', append name value m = Ok m') by (unfold append; rewrite Hn, Hv; by eexists). destruct Ha as [m' Ha].
    exists m'. split; [done|]. split; [replace m' with (headers_step m (OpAppend name value)) by (unfold headers_step; by rewrite Ha); by constructor|].
    rewrite !(get_prop other o) by done. unfold append in Ha. rewrite Hn, Hv in Ha. cbn [mbind outcome_bind] in Ha. apply Ok_inj in Ha as <-.
    unfold getSetCookie. destruct (bool_decide_reflect (n = set_cookie)) as [->|Hc]; rewrite !prop_put.
    + rewrite (bool_decide_eq_true_2 (set_cookie = set_cookie)) by done. split.
      * destruct (bool_decide_reflect (set_cookie = o)) as [<-|]; [|done]. cbn [mbind outcome_bind].
        destruct (prop set_cookie m) as [[s|l]|] eqn:Ep; [|rewrite bool_decide_eq_false_2 by tauto|done].
        { pose proof (good_lookup _ _ _ Hm Ep) as [_ Hx]. cbn in Hx. tauto. }
        pose proof (good_lookup _ _ _ Hm Ep) as [_ (_ & Hl & _)]. do 2 f_equal. clear Ep. induction l as [|a [|b l] IH]; [done|done|].
        change (join (js ", ") (a :: (b :: l) ++ [v]) = join (js ", ") (a :: b :: l) ++ js ", " ++ v).
        change (join (js ", ") (a :: (b :: l) ++ [v])) with (a ++ js ", " ++ join (js ", ") ((b :: l) ++ [v])).
        rewrite IH by done. change (join (js ", ") (a :: b :: l)) with (a ++ js ", " ++ join (js ", ") (b :: l)). by rewrite <-!app_assoc.
      * by destruct (prop set_cookie m) as [[s|l]|].
    + rewrite (bool_decide_eq_false_2 (n = set_cookie)) by done. split; [|done].
      destruct (bool_decide_reflect (n = o)) as [<-|]; [|done]. cbn [mbind outcome_bind]. do 2 f_equal.
      destruct (prop n m) as [[[|u s]|l]|] eqn:Ep; [by rewrite bool_decide_eq_true_2|by rewrite bool_decide_eq_false_2 by naive_solver| |done].
      pose proof (good_lookup _ _ _ Hm Ep) as [_ Hx]. cbn in Hx. tauto.
  - assert (Ha : exists m', set name value m = Ok m') by (unfold set; rewrite Hn, Hv; by eexists). destruct Ha as [m' Ha].
    exists m'. split; [done|]. split; [replace m' with (headers_step m (OpSet name value)) by (unfold headers_step; by rewrite Ha); by constructor|].
    rewrite !(get_prop other o) by done. unfold set in Ha. rewrite Hn, Hv in Ha. cbn [mbind outcome_bind] in Ha. apply Ok_inj in Ha as <-.
    rewrite prop_put. destruct (bool_decide (n = o)); [|done]. by case_bool_decide.
  - assert (Ha : exists m', delete name m = Ok m') by (unfold delete; rewrite Hn; by eexists). destruct Ha as [m' Ha].
    exists m'. split; [done|]. split; [replace m' with (headers_step m (OpDelete name)) by (unfold headers_step; by rewrite Ha); by constructor|].
    rewrite !(get_prop other o) by done. unfold delete in Ha. rewrite Hn in Ha. cbn [mbind outcome_bind] in Ha. apply Ok_inj in Ha as <-.
    rewrite prop_remove. by destruct (bool_decide (n = o)).
Qed.

(* ------------------------------------------------------------------ *)
(** ** Copies *)

Lemma append_all_app l1 l2 m : append_all (l1 ++ l2) m = (m ← append_all l1 m; append_all l2 m).
Proof.
  revert m. induction l1 as [|[n v] l1 IH]; intros m; [done|]. cbn [app append_all]. destruct (append n v m) as [m1|]; [|done].
  cbn [mbind outcome_bind]. apply IH.
Qed.

Lemma append_str n s m : valid_name n -> n <> set_cookie -> clean s -> prop n m = None ->
  append n s m = Ok (put n (HStr (trim_by HTTP_WHITESPACE s)) m).
Proof.
  intros Hn Hc Hs Hp. unfold append. rewrite (valid_normalized _ Hn), (clean_normalized _ Hs). cbn [mbind outcome_bind].
  by rewrite bool_decide_eq_false_2, Hp.
Qed.

(** The cookies [l], put behind the cookies [sofar]. *)
Lemma append_cookies l : forall sofar m, Forall (fun v => clean v /\ trim_by HTTP_WHITESPACE v = v) l ->
  prop set_cookie m = match sofar with [] => None | _ => Some (HArr sofar) end ->
  exists m', append_all ((fun v => (set_cookie, v)) <$> l) m = Ok m' /\ forall k, prop k m' =
    if bool_decide (set_cookie = k) then match sofar ++ l with [] => None | _ => Some (HArr (sofar ++ l)) end else prop k m.
Proof.
  induction l as [|v l IH]; intros sofar m Hl Hp.
  - exists m. split; [done|]. intros k. rewrite app_nil_r. by destruct (bool_decide_reflect (set_cookie = k)) as [<-|].
  - apply Forall_cons in Hl as [[Hv Ht] Hl]. cbn [fmap list_fmap append_all]. unfold append at 1.
    rewrite (valid_normalized set_cookie) by (split; [done|unfold set_cookie, js; cbn; forall_list; done]).
    rewrite (clean_normalized _ Hv), Ht. cbn [mbind outcome_bind]. rewrite bool_decide_eq_true_2 by done.
    set (w := HArr _). assert (w = HArr (sofar ++ [v])) as ->. { unfold w. rewrite Hp. by destruct sofar. }
    destruct (IH (sofar ++ [v]) (put set_cookie (HArr (sofar ++ [v])) m) Hl) as (m' & Hm' & Hk).
    { rewrite prop_put, bool_decide_eq_true_2 by done. by destruct sofar. }
    exists m'. split; [done|]. intros k. rewrite Hk, prop_put, <-app_assoc. cbn [app]. by case_bool_decide.
Qed.

(** The value under a name of a copy. *)
Definition copied (v : hvalue) : hvalue := match v with HStr s => HStr (trim_by HTTP_WHITESPACE s) | HArr l => HArr l end.

Lemma append_names ns : forall m acc, good m -> NoDup ns -> Forall (fun n => prop n acc = None) ns ->
  exists acc', append_all (pairs_of ns m) acc = Ok acc' /\
    forall k, prop k acc' = if bool_decide (k ∈ ns) then copied <$> prop k m else prop k acc.
Proof.
  induction ns as [|n ns IH]; intros m acc Hm Hnd Hacc.
  - exists acc. split; [done|]. intros k. by rewrite bool_decide_eq_false_2 by apply not_elem_of_nil.
  - apply NoDup_cons in Hnd as [Hn Hnd]. apply Forall_cons in Hacc as [Ha Hacc]. unfold pairs_of. cbn [fmap list_fmap concat].
    rewrite append_all_app. fold (pairs_of ns m).
    assert (Hone : exists acc1, append_all (match prop n m with Some (HArr l) => (fun item => (n, item)) <$> l | Some (HStr s) => [(n, s)] | None => [] end) acc = Ok acc1 /\
      forall k, prop k acc1 = if bool_decide (n = k) then copied <$> prop k m else prop k acc).
    { destruct (prop n m) as [[s|l]|] eqn:Ep.
      - pose proof (good_lookup _ _ _ Hm Ep) as [Hv [Hc Hs]]. cbn [fst snd] in *. cbn [append_all]. rewrite append_str by done.
        eexists. split; [done|]. intros k. rewrite prop_put. destruct (bool_decide_reflect (n = k)) as [<-|]; [|done]. by rewrite Ep.
      - pose proof (good_lookup _ _ _ Hm Ep) as [Hv (Hc & Hl & Hf)]. cbn [fst snd] in Hc, Hf. subst n.
        destruct (append_cookies l [] acc Hf Ha) as (acc1 & H1 & H2). exists acc1. split; [done|]. intros k. rewrite H2. cbn [app].
        destruct (bool_decide_reflect (set_cookie = k)) as [<-|]; [|done]. rewrite Ep. by destruct l.
      - exists acc. split; [done|]. intros k. destruct (bool_decide_reflect (n = k)) as [<-|]; [|done]. by rewrite Ep. }
    destruct Hone as (acc1 & -> & H1). cbn [mbind outcome_bind].
    destruct (IH m acc1 Hm Hnd) as (acc' & -> & H2).
    { apply Forall_forall. intros k Hk. rewrite H1. rewrite Forall_forall in Hacc. rewrite bool_decide_eq_false_2 by (by intros ->). by apply Hacc. }
    exists acc'. split; [done|]. intros k. rewrite H2, H1. destruct (bool_decide_reflect (n = k)) as [->|Hne].
    + rewrite (bool_decide_eq_true_2 (k ∈ k :: ns)) by apply list_elem_of_here. by case_bool_decide.
    + destruct (bool_decide_reflect (k ∈ ns)) as [Hk|Hk].
      * by rewrite bool_decide_eq_true_2 by by apply list_elem_of_further.
      * by rewrite bool_decide_eq_false_2 by (apply not_elem_of_cons; naive_solver).
Qed.

(** [new Headers(h)] never throws and says what [h] says: the same
    names, the same cookies, the same values but for white space that
    joining an empty value may have left at an end. *)
Theorem headers_copy m : built m -> exists c, new_Headers (FromHeaders m) = Ok c /\ built c /\
  getSetCookie c = getSetCookie m /\
  forall name n, normalizeName name = Ok n -> has name c = has name m /\
    get name c = (old ← get name m; Ok (if bool_decide (n = set_cookie) then old else option_map (trim_by HTTP_WHITESPACE) old)).
Proof.
  intros Hb. pose proof (built_good m Hb) as Hm.
  destruct (append_names (own_names m) m [] Hm) as (c & Hc & Hk).
  { rewrite own_names_perm. apply Hm. } { apply Forall_true. done. }
  assert (Hp : forall k, prop k c = copied <$> prop k m).
  { intros k. rewrite Hk. destruct (bool_decide_reflect (k ∈ own_names m)) as [|Hn]; [done|]. rewrite own_names_perm, <-prop_None in Hn. by rewrite Hn. }
  exists c. split; [done|]. split; [by eapply (built_new (FromHeaders m)); [intros h [= <-]|]|]. split.
  - unfold getSetCookie. rewrite Hp. destruct (prop set_cookie m) as [[s|l]|] eqn:Ep; [|done..].
    pose proof (good_lookup _ _ _ Hm Ep) as [_ Hx]. cbn in Hx. tauto.
  - intros name n Hn. split.
    + unfold has. rewrite Hn. cbn [mbind outcome_bind]. rewrite Hp. f_equal. apply bool_decide_ext. by destruct (prop n m).
    + rewrite !(get_prop name n), Hp by done. cbn [mbind outcome_bind]. destruct (prop n m) as [[s|l]|] eqn:Ep; cbn [fmap option_fmap option_map copied].
      * pose proof (good_lookup _ _ _ Hm Ep) as [_ [Hx _]]. by rewrite bool_decide_eq_false_2.
      * pose proof (good_lookup _ _ _ Hm Ep) as [_ [Hx _]]. cbn in Hx. by rewrite bool_decide_eq_true_2.
      * by case_bool_decide.
Qed.

(* ------------------------------------------------------------------ *)
(** ** A use of the class *)

Definition sample_headers : list (jsstr * hvalue) :=
  headers_run [] [OpAppend (js "X-B") (js " one "); OpSet (js "a") (js "v"); OpAppend (js "x-b") (js "two"); OpAppend (js "Set-Cookie") (js "s=1");
    OpAppend (js "bad name") (js "x"); OpAppend (js "7") (js "seven"); OpAppend (js "A") [0x0d; 0x0a; 0x41; 0x0d; 0x42]; OpAppend (js "set-cookie") (js "t=2")].

Example sample_entries : entries sample_headers =
  [(js "7", js "seven"); (js "a", js "v"); (js "set-cookie", js "s=1"); (js "set-cookie", js "t=2"); (js "x-b", js "one, two")].
Proof. vm_compute. reflexivity. Qed.

Lemma sample_built : built sample_headers.
Proof. unfold sample_headers, headers_run. cbn [foldl]. repeat apply built_step. by apply (built_new FromNothing). Qed.

Lemma headers_no_injection_witness : built sample_headers /\ ((js "x-b", js "one, two") ∈ forEach sample_headers \/ (js "x-b", js "one, two") ∈ entries sample_headers) /\
  valid_name (js "x-b") /\ Forall (fun u => u <> 0x00 /\ u <> 0x0a /\ u <> 0x0d) (js "one, two").
Proof.
  split; [apply sample_built|].
  assert (H : (js "x-b", js "one, two") ∈ forEach sample_headers \/ (js "x-b", js "one, two") ∈ entries sample_headers)
    by (left; apply (bool_decide_unpack _); vm_compute; exact I).
  split; [exact H|]. exact (headers_no_injection sample_headers sample_built _ _ H).
Defined.

Lemma headers_entries_sorted_witness : built sample_headers /\ entries sample_headers ≡ₚ forEach sample_headers /\
  StronglySorted str_le (keys sample_headers) /\ NoDup (keys sample_headers) /\ values sample_headers = snd <$> entries sample_headers.
Proof. split; [apply sample_built|]. apply headers_entries_sorted, sample_built. Defined.

Lemma headers_multimap_witness : built sample_headers /\ normalizeName (js "X-b") = Ok (js "x-b") /\ normalizeValue (js "3 ") = Ok (js "3") /\
  exists m', append (js "X-b") (js "3 ") sample_headers = Ok m' /\ get (js "X-B") m' = Ok (Some (js "one, two, 3")).
Proof.
  split; [apply sample_built|]. split; [vm_compute; reflexivity|]. split; [vm_compute; reflexivity|].
  destruct (headers_multimap sample_headers (js "X-b") (js "x-b") (js "3 ") (js "3") (js "X-B") (js "x-b")) as [(m' & H1 & _ & H2 & _) _];
    [apply sample_built|vm_compute; reflexivity..|].
  exists m'. split; [exact H1|]. rewrite H2. vm_compute. reflexivity.
Defined.

Lemma headers_copy_witness : built sample_headers /\ exists c, new_Headers (FromHeaders sample_headers) = Ok c /\ getSetCookie c = [js "s=1"; js "t=2"].
Proof.
  split; [apply sample_built|]. destruct (headers_copy sample_headers sample_built) as (c & H1 & _ & H2 & _).
  exists c. split; [exact H1|]. rewrite H2. vm_compute. reflexivity.
Defined.
