(* ===== verification/UriComponent.v ===== *)
(** * [encodeURIComponent] and [decodeURIComponent]

    The two functions of the language that cookies, routes and form bodies
    use.  Encoding refuses lone surrogates; decoding refuses a malformed
    escape and octets that are not UTF-8. *)

From S2P Require Import Prelude JsString JsNumber Percent Utf8.
Open Scope Z_scope.

Definition uri_error {A} : outcome A := Throw ErrURIError "malformed URI".

(** Letters, digits and [- _ . ! ~ * ' ( )]. *)
Definition uri_unescaped (u : Z) : bool :=
  is_alnum u || bool_decide (u ∈ [0x2d; 0x5f; 0x2e; 0x21; 0x7e; 0x2a; 0x27; 0x28; 0x29]).

Definition encode_char (ch : jsstr) : outcome jsstr :=
  match ch with
  | [u] => if uri_unescaped u then Ok [u] else if scalar_char ch then Ok (concat (percentEncodeByte <$> utf8_cp u)) else uri_error
  | _ => if scalar_char ch then Ok (concat (percentEncodeByte <$> utf8_cp (codePointAt0 ch))) else uri_error
  end.

Fixpoint encode_chars (chs : list jsstr) : outcome jsstr :=
  match chs with
  | [] => Ok []
  | ch :: chs => e ← encode_char ch; r ← encode_chars chs; Ok (e ++ r)
  end.

Definition encodeURIComponent (s : jsstr) : outcome jsstr := encode_chars (spread s).

(* ------------------------------------------------------------------ *)
(** ** Decoding *)

(** The value of [%XX] at the front. *)
Definition hex_escape (s : jsstr) : option (Z * jsstr) :=
  match s with
  | p :: h :: l :: t =>
    if negb (p =? 0x25) then None else
    match digit_value h, digit_value l with
    | Some a, Some b => if (a <? 16) && (b <? 16) then Some (a * 16 + b, t) else None
    | _, _ => None
    end
  | _ => None
  end.

(** [n] continuation octets, added to [acc]. *)
Fixpoint continuation (n : nat) (acc : Z) (s : jsstr) : option (Z * jsstr) :=
  match n with
  | O => Some (acc, s)
  | S n => '(b, t) ← hex_escape s; if is_cont b then continuation n (acc * 64 + (b - 0x80)) t else None
  end.

(** The character whose first octet is [b]: how many octets follow, the
    bits of [b], and the least code point that needs as many octets. *)
Definition lead_octet (b : Z) : option (nat * Z * Z) :=
  if b <? 0x80 then Some (0%nat, b, 0)
  else if (0xc0 <=? b) && (b <? 0xe0) then Some (1%nat, b - 0xc0, 0x80)
  else if (0xe0 <=? b) && (b <? 0xf0) then Some (2%nat, b - 0xe0, 0x800)
  else if (0xf0 <=? b) && (b <? 0xf8) then Some (3%nat, b - 0xf0, 0x10000)
  else None.

Definition decode_escape (s : jsstr) : option (jsstr * jsstr) :=
  '(b, t) ← hex_escape s;
  '(n, v, least) ← lead_octet b;
  '(cp, t) ← continuation n v t;
  if (cp <? least) || (0x10ffff <? cp) || ((0xD800 <=? cp) && (cp <=? 0xDFFF)) then None else Some (from_cp cp, t).

Fixpoint decode_loop (fuel : nat) (s : jsstr) : outcome jsstr :=
  match fuel with
  | O => Throw ErrRangeError "out of fuel"
  | S fuel =>
    match s with
    | [] => Ok []
    | u :: t =>
      if u =? 0x25 then
        match decode_escape s with
        | Some (c, t) => r ← decode_loop fuel t; Ok (c ++ r)
        | None => uri_error
        end
      else r ← decode_loop fuel t; Ok (u :: r)
    end
  end.

(** Every turn consumes a unit. *)
Definition decodeURIComponent (s : jsstr) : outcome jsstr := decode_loop (S (length s)) s.

(* ------------------------------------------------------------------ *)
(** ** Decoding ends, and undoes encoding *)

Lemma hex_escape_length s b t : hex_escape s = Some (b, t) -> (length t < length s)%nat.
Proof. destruct s as [|p [|h [|l r]]]; cbn [hex_escape]; try done. repeat case_match; try done. intros [= _ <-]. cbn. lia. Qed.

Lemma continuation_length n : forall acc s cp t, continuation n acc s = Some (cp, t) -> (length t <= length s)%nat.
Proof.
  induction n as [|n IH]; intros acc s cp t; cbn; [by intros [= _ <-]|].
  destruct (hex_escape s) as [[b r]|] eqn:E; cbn; [|done]. destruct (is_cont b); [|done]. intros Hc%IH.
  apply hex_escape_length in E. lia.
Qed.

Lemma decode_escape_length s c t : decode_escape s = Some (c, t) -> (length t < length s)%nat.
Proof.
  unfold decode_escape. destruct (hex_escape s) as [[b r]|] eqn:E; cbn; [|done]. apply hex_escape_length in E.
  destruct (lead_octet b) as [[[n v] least]|]; cbn; [|done].
  destruct (continuation n v r) as [[cp t']|] eqn:Ec; cbn; [|done]. apply continuation_length in Ec.
  case_match; [done|]. intros [= _ <-]. lia.
Qed.

Lemma decode_loop_ends fuel : forall s, (length s < fuel)%nat ->
  (exists r, decode_loop fuel s = Ok r) \/ decode_loop fuel s = uri_error.
Proof.
  induction fuel as [|fuel IH]; intros s Hs; [lia|]. cbn [decode_loop]. destruct s as [|u t]; [left; by eexists|].
  assert (Hk : forall p t', (length t' < fuel)%nat ->
    (exists r, (r ← decode_loop fuel t'; Ok (p ++ r)) = Ok r) \/ (r ← decode_loop fuel t'; Ok (p ++ r)) = uri_error).
  { intros p t' Ht. destruct (IH t' Ht) as [[r ->]| ->]; [left; by eexists|by right]. }
  destruct (u =? 0x25); [|apply (Hk [u]); cbn in Hs; lia].
  destruct (decode_escape (u :: t)) as [[c t']|] eqn:E; [|by right]. apply decode_escape_length in E. apply Hk. cbn in *. lia.
Qed.

Lemma decode_loop_fuel f1 : forall f2 s, (length s < f1)%nat -> (length s < f2)%nat -> decode_loop f1 s = decode_loop f2 s.
Proof.
  induction f1 as [|f1 IH]; intros [|f2] s H1 H2; try lia. cbn [decode_loop]. destruct s as [|u t]; [done|]. cbn in H1, H2.
  destruct (u =? 0x25); [|by rewrite (IH f2 t) by lia]. destruct (decode_escape (u :: t)) as [[c t']|] eqn:E; [|done].
  apply decode_escape_length in E. cbn in E. by rewrite (IH f2 t') by lia.
Qed.

Lemma decode_plain u t : u <> 0x25 -> decodeURIComponent (u :: t) = (r ← decodeURIComponent t; Ok (u :: r)).
Proof. intros Hu. unfold decodeURIComponent. cbn [decode_loop]. by rewrite (proj2 (Z.eqb_neq u 0x25)). Qed.

Lemma decode_escaped s c t : decode_escape s = Some (c, t) -> decodeURIComponent s = (r ← decodeURIComponent t; Ok (c ++ r)).
Proof.
  intros E. pose proof (decode_escape_length _ _ _ E) as Hl. unfold decodeURIComponent at 1. cbn [decode_loop].
  destruct s as [|u s']; [done|]. assert (Hu : u = 0x25).
  { unfold decode_escape, hex_escape in E. destruct s' as [|h [|l r]]; try done. destruct (Z.eqb_spec u 0x25); done. }
  rewrite Hu, Z.eqb_refl, <- Hu, E. unfold decodeURIComponent. by rewrite (decode_loop_fuel (length (u :: s')) (S (length t)) t) by (cbn in *; lia).
Qed.

Lemma hex_escape_byte b t : is_byte b -> hex_escape (percentEncodeByte b ++ t) = Some (b, t).
Proof.
  intros Hb. pose proof (byte_ind (fun b => match percentEncodeByte b with
    | [p; h; l] => match hex_escape [p; h; l] with Some (v, []) => v =? b | _ => false end | _ => false end) ltac:(vm_compute; reflexivity) b Hb) as E.
  cbv beta in E. destruct (percentEncodeByte b) as [|p [|h [|l [|? ?]]]]; try done. cbn [app hex_escape] in E |- *.
  repeat case_match; try done; simplify_eq. by apply Z.eqb_eq in E as ->.
Qed.

#[local] Opaque percentEncodeByte.

Lemma continuation_byte n acc b t : 0x80 <= b < 0xc0 ->
  continuation (S n) acc (percentEncodeByte b ++ t) = continuation n (acc * 64 + (b - 0x80)) t.
Proof.
  intros Hb. cbn [continuation]. rewrite hex_escape_byte by (unfold is_byte; lia). cbn [mbind option_bind].
  unfold is_cont. by rewrite (proj2 (Z.leb_le 0x80 b)), (proj2 (Z.ltb_lt b 0xc0)) by lia.
Qed.

(** An escaped character: its first octet, and what follows. *)
Lemma decode_escape_lead b n v least rest cp t : is_byte b -> lead_octet b = Some (n, v, least) ->
  continuation n v rest = Some (cp, t) -> least <= cp <= 0x10ffff -> ~ (0xD800 <= cp <= 0xDFFF) ->
  decode_escape (percentEncodeByte b ++ rest) = Some (from_cp cp, t).
Proof.
  intros Hb Hl Hc Hr Hs. unfold decode_escape. rewrite hex_escape_byte by done. cbn [mbind option_bind]. rewrite Hl. cbn [mbind option_bind].
  rewrite Hc. cbn [mbind option_bind]. rewrite (proj2 (Z.ltb_ge cp least)), (proj2 (Z.ltb_ge 0x10ffff cp)) by lia.
  destruct (Z.leb_spec 0xD800 cp), (Z.leb_spec cp 0xDFFF); try done. lia.
Qed.

Lemma decode_escape_cp cp t : 0 <= cp <= 0x10ffff -> ~ (0xD800 <= cp <= 0xDFFF) ->
  decode_escape (concat (percentEncodeByte <$> utf8_cp cp) ++ t) = Some (from_cp cp, t).
Proof.
  intros Hcp Hs. unfold utf8_cp. rewrite (proj2 (Z.ltb_ge cp 0)), (proj2 (Z.ltb_ge 0x10ffff cp)) by lia. cbn [orb].
  destruct (Z.ltb_spec cp 0x80) as [H0|H0]; [|destruct (Z.ltb_spec cp 0x800) as [H1|H1];
    [|destruct (Z.ltb_spec cp 0x10000) as [H2|H2]]]; cbn [fmap list_fmap concat]; rewrite app_nil_r, <- ?app_assoc.
  - apply (decode_escape_lead cp 0 cp 0); [unfold is_byte; lia|unfold lead_octet; by z_tests|done|lia|done].
  - split64 cp q r. apply (decode_escape_lead (0xc0 + q) 1 q 0x80); [unfold is_byte; lia|unfold lead_octet; z_tests; do 3 f_equal; lia| |lia|done].
    rewrite continuation_byte by lia. cbn [continuation]. do 2 f_equal. lia.
  - change 4096 with (64 * 64). rewrite <-Z.div_div by lia. split64 cp q r. split64 q q' r'.
    apply (decode_escape_lead (0xe0 + q') 2 q' 0x800); [unfold is_byte; lia|unfold lead_octet; z_tests; do 3 f_equal; lia| |lia|done].
    rewrite !continuation_byte by lia. cbn [continuation]. do 2 f_equal. lia.
  - change 262144 with (64 * 64 * 64). change 4096 with (64 * 64). rewrite <-!Z.div_div by lia.
    split64 cp q r. split64 q q' r'. split64 q' q'' r''.
    apply (decode_escape_lead (0xf0 + q'') 3 q'' 0x10000); [unfold is_byte; lia|unfold lead_octet; z_tests; do 3 f_equal; lia| |lia|done].
    rewrite !continuation_byte by lia. cbn [continuation]. do 2 f_equal. lia.
Qed.

Lemma encode_char_decode ch e t : encode_char ch = Ok e -> ch <> [] ->
  decodeURIComponent (e ++ t) = (r ← decodeURIComponent t; Ok (ch ++ r)).
Proof.
  intros He Hne. assert (Hcase : (exists u, ch = [u] /\ uri_unescaped u = true /\ e = [u]) \/
    (scalar_char ch = true /\ e = concat (percentEncodeByte <$> utf8_cp (codePointAt0 ch)))).
  { unfold encode_char in He. destruct ch as [|u [|v r]]; [done| |].
    - destruct (uri_unescaped u) eqn:Eu; [apply Ok_inj in He as <-; left; by exists u|].
      destruct (scalar_char [u]) eqn:Es; [|done]. apply Ok_inj in He as <-. by right.
    - destruct (scalar_char (u :: v :: r)) eqn:Es; [|done]. apply Ok_inj in He as <-. by right. }
  destruct Hcase as [(u & -> & Hu & ->)|[Hs ->]].
  - apply decode_plain. intros ->. by vm_compute in Hu.
  - destruct (from_cp_char ch Hs) as [Hr Hf]. apply decode_escaped. rewrite decode_escape_cp; [by rewrite Hf|done|].
    destruct ch as [|h [|l [|? ?]]]; try done; cbn in Hs |- *.
    + unfold is_high, is_low in Hs. lia.
    + rewrite Hs. unfold is_high, is_low in Hs. lia.
Qed.

(** What [encodeURIComponent] gives decodes to what it was given. *)
Lemma decode_encode_component s e : encodeURIComponent s = Ok e -> decodeURIComponent e = Ok s.
Proof.
  unfold encodeURIComponent. rewrite <- (concat_spread s) at 2. assert (Hne : Forall (fun ch => ch <> []) (spread s)).
  { apply Forall_forall. intros ch Hch%spread_elem -> . done. }
  revert e Hne. generalize (spread s). clear s. intros chs. induction chs as [|ch chs IH]; intros e Hne; cbn [encode_chars].
  - by intros <-%Ok_inj.
  - inversion Hne as [|? ? Hc Hcs]. subst. destruct (encode_char ch) as [e1|] eqn:E1; [|done]. destruct (encode_chars chs) as [e2|] eqn:E2; [|done].
    cbn [mbind outcome_bind]. intros <-%Ok_inj. rewrite (encode_char_decode ch e1 e2 E1 Hc), (IH e2 Hcs eq_refl). done.
Qed.

(** Only lone surrogates are refused. *)
Lemma encode_component_total s : well_formed s = true -> exists e, encodeURIComponent s = Ok e.
Proof.
  unfold encodeURIComponent, well_formed. generalize (spread s). intros chs. induction chs as [|ch chs IH]; cbn [encode_chars forallb]; [by eexists|].
  intros [Hc Hcs]%andb_true_iff. destruct (IH Hcs) as [e2 ->]. assert (exists e1, encode_char ch = Ok e1) as [e1 ->]; [|by eexists].
  unfold encode_char. destruct ch as [|u [|v r]]; rewrite ?Hc; [done|destruct (uri_unescaped u)|]; by eexists.
Qed.

(** An encoded component is made of unreserved characters and escapes. *)
Definition component_unit (u : Z) : bool := uri_unescaped u || (u =? 0x25).

Lemma percent_byte_units b : is_byte b -> Forall (fun u => component_unit u = true) (percentEncodeByte b).
Proof.
  intros Hb. pose proof (byte_ind (fun b => forallb component_unit (percentEncodeByte b)) ltac:(vm_compute; reflexivity) b Hb) as E.
  cbv beta in E. rewrite forallb_forall in E. apply Forall_forall. intros u Hu%list_elem_of_In. by apply E.
Qed.

Lemma encode_component_units s e : encodeURIComponent s = Ok e -> Forall (fun u => component_unit u = true) e.
Proof.
  unfold encodeURIComponent. generalize (spread s). clear s. intros chs. revert e. induction chs as [|ch chs IH]; intros e; cbn [encode_chars]; [by intros <-%Ok_inj|].
  destruct (encode_char ch) as [e1|] eqn:E1; [|done]. destruct (encode_chars chs) as [e2|] eqn:E2; [|done].
  cbn [mbind outcome_bind]. intros <-%Ok_inj. apply Forall_app. split; [|by apply IH].
  assert (Hu : forall cp, Forall (fun u => component_unit u = true) (concat (percentEncodeByte <$> utf8_cp cp))).
  { intros cp. apply Forall_concat, Forall_fmap. eapply Forall_impl; [apply utf8_cp_bytes|]. intros b Hb. by apply percent_byte_units. }
  unfold encode_char in E1. destruct ch as [|u [|v r]]; [|destruct (uri_unescaped u) eqn:Eu|]; try (destruct (scalar_char _); [|done]); apply Ok_inj in E1 as <-; try apply Hu.
  constructor; [|constructor]. unfold component_unit. by rewrite Eu.
Qed.
