(* ===== verification/ServerResponse.v ===== *)
(** * [ServerResponse] of [lib/lws/response.js]

    The imperative response of the application framework, on top of
    [Headers]: status, headers, body in one piece or in chunks.  What it
    does to its connection is the list of calls on the native object, whose
    [write] puts the UTF-8 of a string or the bytes of a buffer on the
    wire.  Data of other kinds is refused by the native side and left out,
    and so is a head that does not fit the native buffer, for which
    [respond] throws (lws-socket.c:749-810): heads are taken to fit.
    [JSON.stringify] gives the text of an object, an argument here. *)

From S2P Require Import Prelude JsString JsNumber Percent UriComponent Headers StreamBase.
Open Scope Z_scope.

(** A piece of body, and what [send] takes. *)
Inductive chunk := CStr (s : jsstr) | CBuf (b : bytes).
Inductive sendable := SendChunk (c : chunk) | SendObject (json : option jsstr) | SendNothing.

Inductive wsi_call :=
| WsiRespond (status : Z) (contentLength : option jsdouble) (headers : list (jsstr * hvalue))
| WsiWrite (data : chunk) (final : bool).

Record response := Response {
  rp_status : Z; rp_headers : list (jsstr * hvalue);
  rp_ended : bool; rp_headersSent : bool; rp_chunked : bool;
  rp_wsi : list wsi_call }.

Definition new_ServerResponse : response := Response 200 [] false false false [].

Definition set_rp_status v s := Response v (rp_headers s) (rp_ended s) (rp_headersSent s) (rp_chunked s) (rp_wsi s).
Definition set_rp_headers v s := Response (rp_status s) v (rp_ended s) (rp_headersSent s) (rp_chunked s) (rp_wsi s).
Definition set_rp_ended v s := Response (rp_status s) (rp_headers s) v (rp_headersSent s) (rp_chunked s) (rp_wsi s).
Definition set_rp_headersSent v s := Response (rp_status s) (rp_headers s) (rp_ended s) v (rp_chunked s) (rp_wsi s).
Definition set_rp_chunked v s := Response (rp_status s) (rp_headers s) (rp_ended s) (rp_headersSent s) v (rp_wsi s).
Definition set_rp_wsi v s := Response (rp_status s) (rp_headers s) (rp_ended s) (rp_headersSent s) (rp_chunked s) v.

(* ------------------------------------------------------------------ *)
(** ** Cookies *)

Record cookie_opts := CookieOpts {
  co_maxAge : option Z; co_domain : option jsstr; co_path : option jsstr; co_expires : option jsstr;
  co_httpOnly : bool; co_secure : bool; co_sameSite : option jsstr }.

Definition int_string (n : Z) : jsstr := if n <? 0 then 0x2d :: to_string 10 (- n) else to_string 10 n.

(** [if(opts.key) parts.push(...)]: an empty string adds nothing. *)
Definition part_if (label : jsstr) (v : option jsstr) : list jsstr :=
  match v with Some ((_ :: _) as s) => [label ++ s] | _ => [] end.

Definition buildSetCookie (name value : jsstr) (opts : cookie_opts) : outcome jsstr :=
  n ← encodeURIComponent name;
  v ← encodeURIComponent value;
  Ok (join (js "; ") ([n ++ js "=" ++ v] ++
    (match co_maxAge opts with Some a => [js "Max-Age=" ++ int_string (to_int32 a)] | None => [] end) ++
    part_if (js "Domain=") (co_domain opts) ++ part_if (js "Path=") (co_path opts) ++ part_if (js "Expires=") (co_expires opts) ++
    (if co_httpOnly opts then [js "HttpOnly"] else []) ++ (if co_secure opts then [js "Secure"] else []) ++
    part_if (js "SameSite=") (co_sameSite opts))).

(* ------------------------------------------------------------------ *)
(** ** The methods *)

Abbreviation PM := (SM response) (only parsing).

(** A call on the [Headers] object of the response. *)
Definition on_headers (f : list (jsstr * hvalue) -> outcome (list (jsstr * hvalue))) : PM unit := fun s =>
  match f (rp_headers s) with Ok m => (Ok tt, set_rp_headers m s) | Throw c e => (Throw c e, s) end.
Definition has_header (name : jsstr) : PM bool := fun s => (has name (rp_headers s), s).
Definition get_header (name : jsstr) : PM (option jsstr) := fun s => (get name (rp_headers s), s).

Definition wsi_do (c : wsi_call) : PM unit := modify (fun s => set_rp_wsi (rp_wsi s ++ [c]) s).

Definition assertOpen : PM unit :=
  sent ← gets rp_headersSent;
  if sent : bool then throw ErrError "headers already sent" else mret tt.

Definition content_length : jsstr := js "content-length".
Definition content_type : jsstr := js "content-type".
Definition transfer_encoding : jsstr := js "transfer-encoding".

Definition status (code : Z) : PM unit := modify (set_rp_status code).
Definition rset (name value : jsstr) : PM unit := assertOpen ;; on_headers (set name value).
Definition rappend (name value : jsstr) : PM unit := assertOpen ;; on_headers (append name value).
Definition removeHeader (name : jsstr) : PM unit := assertOpen ;; on_headers (delete name).
Definition getHeader (name : jsstr) : PM (option jsstr) := get_header name.
Definition type (contentType : jsstr) : PM unit := rset content_type contentType.

Definition cookie (name value : jsstr) (opts : cookie_opts) : PM unit :=
  assertOpen ;;
  v ← (fun s => (buildSetCookie name value opts, s));
  on_headers (append (js "set-cookie") v).

Definition epoch : jsstr := js "Thu, 01 Jan 1970 00:00:00 GMT".
Definition clearCookie (name : jsstr) (opts : cookie_opts) : PM unit :=
  cookie name [] (CookieOpts (Some 0) (co_domain opts) (co_path opts) (Some epoch) (co_httpOnly opts) (co_secure opts) (co_sameSite opts)).

Definition flushHeaders : PM unit :=
  sent ← gets rp_headersSent;
  if sent : bool then mret tt else
  modify (set_rp_headersSent true) ;;
  contentLength ← get_header content_length;
  s ← gets id;
  let headers := toObject (rp_headers s) in
  match contentLength with
  | Some v => wsi_do (WsiRespond (rp_status s) (Some (Number v)) (remove content_length headers))
  | None => wsi_do (WsiRespond (rp_status s) None headers)
  end.

Section Codec.
Context `{TextCodec}.

Definition chunk_bytes (c : chunk) : bytes := match c with CStr s => encode s | CBuf b => b end.
Definition chunkByteLength (c : chunk) : Z := Z.of_nat (length (chunk_bytes c)).

Definition crlf : jsstr := [0x0d; 0x0a].

Definition writeChunk (c : chunk) : PM unit :=
  let len := chunkByteLength c in
  if len =? 0 then mret tt else
  wsi_do (WsiWrite (CStr (to_string 16 len ++ crlf)) false) ;;
  wsi_do (WsiWrite c false) ;;
  wsi_do (WsiWrite (CStr crlf) false).

Definition write (c : option chunk) : PM unit :=
  sent ← gets rp_headersSent;
  cl ← has_header content_length;
  te ← has_header transfer_encoding;
  when (negb sent && negb cl && negb te) (modify (set_rp_chunked true) ;; on_headers (set transfer_encoding (js "chunked"))) ;;
  flushHeaders ;;
  match c with
  | None => mret tt
  | Some c => chunked ← gets rp_chunked; if chunked : bool then writeChunk c else wsi_do (WsiWrite c false)
  end.

Definition last_chunk : jsstr := js "0" ++ crlf ++ crlf.

Definition end_ (c : option chunk) : PM unit :=
  ended ← gets rp_ended;
  if ended : bool then mret tt else
  sent ← gets rp_headersSent;
  cl ← has_header content_length;
  when (negb sent && negb cl)
    (on_headers (set content_length (to_string 10 (match c with None => 0 | Some c => chunkByteLength c end)))) ;;
  flushHeaders ;;
  chunked ← gets rp_chunked;
  (if chunked : bool then
     match c with Some c => writeChunk c | None => mret tt end ;;
     wsi_do (WsiWrite (CStr last_chunk) true)
   else wsi_do (WsiWrite (default (CStr []) c) true)) ;;
  modify (set_rp_ended true).

(** [json] calls [send] with a string or nothing, so one level of calls
    back is all there is. *)
Definition send_chunk (c : option chunk) : PM unit :=
  ended ← gets rp_ended;
  if ended : bool then mret tt else
  match c with
  | None => end_ None
  | Some c =>
    ct ← has_header content_type;
    when (negb ct) (type (match c with CStr _ => js "text/html; charset=utf-8" | CBuf _ => js "application/octet-stream" end)) ;;
    end_ (Some c)
  end.

Definition json (data : option jsstr) : PM unit :=
  ct ← has_header content_type;
  when (negb ct) (type (js "application/json; charset=utf-8")) ;;
  send_chunk (CStr <$> data).

Definition send (body : sendable) : PM unit :=
  ended ← gets rp_ended;
  if ended : bool then mret tt else
  match body with
  | SendNothing => end_ None
  | SendObject data => json data
  | SendChunk c => send_chunk (Some c)
  end.

(** Without a code the redirect is a 302. *)
Definition redirect (code : option Z) (url : jsstr) : PM unit :=
  status (default 302 code) ;; rset (js "location") url ;; end_ None.

(* ------------------------------------------------------------------ *)
(** ** Programs *)

(** A call of a method; [CallHeaders] is a call on the object that the
    getter [headers] hands out. *)
Inductive response_call :=
| CallStatus (code : Z) | CallSet (n v : jsstr) | CallAppend (n v : jsstr) | CallRemove (n : jsstr) | CallHeaders (op : headers_op)
| CallType (v : jsstr) | CallCookie (n v : jsstr) (o : cookie_opts) | CallClearCookie (n : jsstr) (o : cookie_opts)
| CallRedirect (code : option Z) (url : jsstr) | CallJson (data : option jsstr) | CallSend (body : sendable)
| CallWrite (c : option chunk) | CallEnd (c : option chunk).

Definition response_call_run (c : response_call) : PM unit :=
  match c with
  | CallStatus code => status code
  | CallSet n v => rset n v
  | CallAppend n v => rappend n v
  | CallRemove n => removeHeader n
  | CallHeaders op => modify (fun s => set_rp_headers (headers_step (rp_headers s) op) s)
  | CallType v => type v
  | CallCookie n v o => cookie n v o
  | CallClearCookie n o => clearCookie n o
  | CallRedirect code url => redirect code url
  | CallJson data => json data
  | CallSend body => send body
  | CallWrite c => write c
  | CallEnd c => end_ c
  end.

(** A program goes on after a call that threw. *)
Definition response_run (calls : list response_call) (s : response) : response :=
  foldl (fun s c => (response_call_run c s).2) s calls.
End Codec.
