(* ===== verification/ServerResponseProps.v ===== *)
(** * What [ServerResponse] promises

    A client that reads what a response put on the wire gets the body the
    program gave, however it was cut and whichever framing was chosen; no
    header breaks out of its line, and the head is sent once. *)

From S2P Require Import Prelude JsString JsNumber Percent Utf8 UriComponent Headers HeadersProps StreamBase ServerResponse.
Open Scope Z_scope.

#[local] Arguments js : simpl never.

(* ------------------------------------------------------------------ *)
(** ** The client *)

(** A chunked body, read to its end. *)
Fixpoint dechunk (fuel : nat) (data : bytes) : option bytes :=
  match fuel with
  | O => None
  | S fuel =>
    let '(digits, rest) := span (is_radix_digit 16) data in
    if negb (nonempty digits) || negb (starts_with crlf rest) then None else
    let n := Z.to_nat (digits_value 16 digits) in
    let rest := drop 2 rest in
    if (n =? 0)%nat then (if bool_decide (rest = crlf) then Some [] else None) else
    if starts_with crlf (drop n rest) then body ← dechunk fuel (drop 2 (drop n rest)); Some (take n rest ++ body) else None
  end.

(** Writes without a final one, and with the final one at the end. *)
Fixpoint all_open (ws : list wsi_call) : bool :=
  match ws with [] => true | WsiWrite _ false :: ws => all_open ws | _ => false end.
Fixpoint ends_final (ws : list wsi_call) : bool :=
  match ws with [WsiWrite _ true] => true | WsiWrite _ false :: ws => ends_final ws | _ => false end.

Section Client.
Context `{TextCodec}.

Definition wire (ws : list wsi_call) : bytes :=
  concat (map (fun c => match c with WsiWrite d _ => chunk_bytes d | _ => [] end) ws).

(** The length the head of a [respond] carries: the native side writes a
    Content-Length only for a length above 0, and a response without one
    says that the connection closes behind it. *)
Definition sent_length (cl : option jsdouble) : option Z :=
  n ← cl; if 0 <? truncate n then Some (truncate n) else None.

(** Status and body of a complete response: by chunks when the head says
    so, by its length when it has one, and up to the close otherwise. *)
Definition receive (calls : list wsi_call) : option (Z * bytes) :=
  match calls with
  | WsiRespond st cl hs :: ws =>
    if negb (ends_final ws) then None else
    match prop transfer_encoding hs with
    | Some (HStr v) => if bool_decide (v = js "chunked") then body ← dechunk (S (length (wire ws))) (wire ws); Some (st, body) else None
    | Some _ => None
    | None =>
      match sent_length cl with
      | Some n => if n =? Z.of_nat (length (wire ws)) then Some (st, wire ws) else None
      | None => Some (st, wire ws)
      end
    end
  | _ => None
  end.

Lemma receive_sized st hs ws : ends_final ws = true -> prop transfer_encoding hs = None -> Z.of_nat (length (wire ws)) < 2 ^ 53 ->
  receive (WsiRespond st (Some (of_Z (Z.of_nat (length (wire ws))))) hs :: ws) = Some (st, wire ws).
Proof.
  intros Hf Hte Hn. cbn [receive]. rewrite Hf, Hte. cbn [negb]. unfold sent_length. cbn [mbind option_bind].
  rewrite of_Z_exact by lia. destruct (Z.ltb_spec 0 (Z.of_nat (length (wire ws)))); [by rewrite Z.eqb_refl|done].
Qed.

(* ------------------------------------------------------------------ *)
(** ** What is written *)

Definition frame (c : chunk) : bytes :=
  if chunkByteLength c =? 0 then [] else to_string 16 (chunkByteLength c) ++ crlf ++ chunk_bytes c ++ crlf.

Definition body_bytes (body : list chunk) : bytes := concat (chunk_bytes <$> body).

Lemma wire_app a b : wire (a ++ b) = wire a ++ wire b.
Proof. unfold wire. by rewrite map_app, concat_app. Qed.

Lemma hex_ascii n : 0 <= n < 2 ^ 64 -> Forall (fun u => 0 <= u < 128) (to_string 16 n).
Proof.
  intros Hn. destruct (to_string_spec 16 n ltac:(lia) Hn) as (_ & Hd & _). eapply Forall_impl; [exact Hd|]. cbv beta. clear. intros u.
  unfold is_radix_digit, digit_value. destruct (is_digit u) eqn:E; [unfold is_digit in E; lia|].
  destruct (is_lower u) eqn:El; [unfold is_lower in El; lia|]. destruct (is_upper u) eqn:Eu; [unfold is_upper in Eu; lia|done].
Qed.

Lemma encode_size n : 0 <= n < 2 ^ 64 -> encode (to_string 16 n ++ crlf) = to_string 16 n ++ crlf.
Proof. intros Hn. apply encode_ascii_string, Forall_app. split; [by apply hex_ascii|]. unfold crlf. forall_list; lia. Qed.

Lemma encode_crlf : encode crlf = crlf.
Proof. apply encode_ascii_string. unfold crlf. forall_list; lia. Qed.

Lemma encode_last : encode last_chunk = last_chunk.
Proof. apply encode_ascii_string. apply (bool_decide_unpack _). vm_compute. exact I. Qed.

Lemma digits_then_crlf digits rest : Forall (fun u => is_radix_digit 16 u = true) digits ->
  span (is_radix_digit 16) (digits ++ crlf ++ rest) = (digits, crlf ++ rest).
Proof. induction 1 as [|u s Hu _ IH]; [done|]. cbn [app span]. by rewrite Hu, IH. Qed.

Lemma starts_with_crlf rest : starts_with crlf (crlf ++ rest) = true.
Proof. unfold starts_with. by rewrite take_app_length, bool_decide_eq_true_2. Qed.

(** The client reads frames back. *)
Lemma dechunk_frames body : forall fuel, Forall (fun c => chunkByteLength c < 2 ^ 53) body -> (length (concat (frame <$> body)) < fuel)%nat ->
  dechunk fuel (concat (frame <$> body) ++ last_chunk) = Some (body_bytes body).
Proof.
  induction body as [|c body IH]; intros fuel Hb Hf; (destruct fuel as [|fuel]; [lia|]).
  - reflexivity.
  - inversion Hb as [|? ? Hc Hcs]. subst. cbv beta in Hc. cbn [fmap list_fmap concat] in Hf |- *. rewrite length_app in Hf. unfold body_bytes. cbn [fmap list_fmap concat]. fold (body_bytes body).
    unfold frame at 1. unfold frame at 1 in Hf. destruct (Z.eqb_spec (chunkByteLength c) 0) as [E|E].
    + assert (chunk_bytes c = []) as ->. { unfold chunkByteLength in E. destruct (chunk_bytes c); [done|cbn in E; lia]. }
      cbn [app]. apply (IH (S fuel)); [done|lia].
    + assert (H0 : 0 < chunkByteLength c) by (unfold chunkByteLength in *; lia).
      destruct (to_string_spec 16 (chunkByteLength c)) as (Hne & Hd & Hv); [lia|lia|].
      rewrite <- !app_assoc. cbn [dechunk]. rewrite digits_then_crlf by done. rewrite starts_with_crlf.
      assert (nonempty (to_string 16 (chunkByteLength c)) = true) as -> by (destruct (to_string 16 _); done). cbn [negb orb].
      rewrite Hv. assert (Hl : Z.to_nat (chunkByteLength c) = length (chunk_bytes c)) by (unfold chunkByteLength; lia). rewrite Hl.
      assert ((length (chunk_bytes c) =? 0)%nat = false) as -> by (apply Nat.eqb_neq; unfold chunkByteLength in H0; lia).
      change (drop 2 (crlf ++ ?x)) with x. rewrite drop_app_length, take_app_length, starts_with_crlf. change (drop 2 (crlf ++ ?x)) with x.
      rewrite !length_app in Hf. cbn [length crlf] in Hf. rewrite IH by (done || lia). done.
Qed.

(* ------------------------------------------------------------------ *)
(** ** The state of a response *)

(** The headers that say how the body is framed. *)
Definition framing (n : jsstr) : Prop := n = content_length \/ n = transfer_encoding.

Inductive phase (body : list chunk) : response -> Prop :=
| phase_fresh st m : body = [] -> prop content_length m = None -> prop transfer_encoding m = None ->
    phase body (Response st m false false false [])
| phase_streaming st m code hs ws (ended : bool) :
    prop transfer_encoding hs = Some (HStr (js "chunked")) ->
    wire ws = concat (frame <$> body) ++ (if ended then last_chunk else []) ->
    (if ended then ends_final ws else all_open ws) = true ->
    phase body (Response st m ended true true (WsiRespond code None hs :: ws))
| phase_whole st m code hs ws :
    prop transfer_encoding hs = None -> wire ws = body_bytes body -> ends_final ws = true ->
    phase body (Response st m true true false (WsiRespond code (Some (of_Z (Z.of_nat (length (body_bytes body))))) hs :: ws)).

(** What a call that only prepares the head may change. *)
Definition prepares (s s' : response) : Prop :=
  rp_ended s' = rp_ended s /\ rp_headersSent s' = rp_headersSent s /\ rp_chunked s' = rp_chunked s /\ rp_wsi s' = rp_wsi s /\
  forall n, framing n -> prop n (rp_headers s') = prop n (rp_headers s).

Lemma prepares_refl s : prepares s s.
Proof. by split_and!. Qed.
Lemma prepares_trans s1 s2 s3 : prepares s1 s2 -> prepares s2 s3 -> prepares s1 s3.
Proof. intros (?&?&?&?&Ha) (?&?&?&?&Hb). split_and!; try congruence. intros n Hn. by rewrite Hb, Ha. Qed.

Lemma phase_prepares body s s' : prepares s s' -> phase body s -> phase body s'.
Proof.
  destruct s', s. intros (E1&E2&E3&E4&Hp) Hs. cbn in *. subst. inversion Hs; subst; [|by econstructor..].
  constructor; [done|rewrite Hp by (by left); done|rewrite Hp by (by right); done].
Qed.

(** Calls that only prepare the head. *)
Definition preparing {A} (m : SM response A) : Prop := forall s, prepares s (m s).2.

Lemma preparing_bind {A B} (m : SM response A) (k : A -> SM response B) :
  preparing m -> (forall a, preparing (k a)) -> preparing (m ≫= k).
Proof.
  intros Hm Hk s. unfold mbind, sm_bind. specialize (Hm s). destruct (m s) as [[a|c e] s1]; [|done].
  eapply prepares_trans; [exact Hm|apply Hk].
Qed.

Lemma preparing_id {A} (f : response -> outcome A) : preparing (fun s => (f s, s)).
Proof. intros s. apply prepares_refl. Qed.

Lemma normal_framing n : framing n -> normalizeName n = Ok n.
Proof. by intros [-> | ->]. Qed.

Lemma preparing_headers f : (forall m m' n, f m = Ok m' -> framing n -> prop n m' = prop n m) -> preparing (on_headers f).
Proof.
  intros Hf s. unfold on_headers. destruct (f (rp_headers s)) as [m|] eqn:E; [|apply prepares_refl].
  split_and!; try done. cbn. intros n Hn. by eapply Hf.
Qed.

Definition no_framing (name : jsstr) : Prop := forall n, framing n -> normalizeName name <> Ok n.

Lemma set_other name v m m' n : no_framing name -> set name v m = Ok m' -> framing n -> prop n m' = prop n m.
Proof.
  intros Hn. unfold set. destruct (normalizeName name) as [k|] eqn:E; [|done]. cbn. destruct (normalizeValue v); [|done]. cbn. intros <-%Ok_inj Hf.
  rewrite prop_put, bool_decide_eq_false_2; [done|]. intros ->. by apply (Hn n).
Qed.

Lemma append_other name v m m' n : no_framing name -> append name v m = Ok m' -> framing n -> prop n m' = prop n m.
Proof.
  intros Hn. unfold append. destruct (normalizeName name) as [k|] eqn:E; [|done]. cbn. destruct (normalizeValue v); [|done]. cbn. intros <-%Ok_inj Hf.
  case_bool_decide; rewrite prop_put, bool_decide_eq_false_2; try done; intros ->; by apply (Hn n).
Qed.

Lemma delete_other name m m' n : no_framing name -> delete name m = Ok m' -> framing n -> prop n m' = prop n m.
Proof.
  intros Hn. unfold delete. destruct (normalizeName name) as [k|] eqn:E; [|done]. cbn. intros <-%Ok_inj Hf.
  rewrite prop_remove, bool_decide_eq_false_2; [done|]. intros ->. by apply (Hn n).
Qed.

Lemma preparing_open {A} (m : SM response A) : preparing m -> preparing (assertOpen ;; m).
Proof.
  intros Hm. apply preparing_bind; [|by intros []]. apply preparing_bind; [apply preparing_id|]. intros []; apply preparing_id.
Qed.

Lemma preparing_set name v : no_framing name -> preparing (rset name v).
Proof. intros Hn. apply preparing_open, preparing_headers. intros m m' n. by apply set_other. Qed.

Lemma constant_no_framing name : (if bool_decide (normalizeName name = Ok content_length) then false else negb (bool_decide (normalizeName name = Ok transfer_encoding))) = true ->
  no_framing name.
Proof. intros E n [-> | ->] Hn; rewrite Hn in E; by vm_compute in E. Qed.

Lemma preparing_type v : preparing (type v).
Proof. apply preparing_set, constant_no_framing. vm_compute. reflexivity. Qed.

Lemma preparing_cookie name value opts : preparing (cookie name value opts).
Proof.
  apply preparing_open, preparing_bind; [apply preparing_id|]. intros v. apply preparing_headers. intros m m' n. apply append_other, constant_no_framing. vm_compute. reflexivity.
Qed.

Lemma preparing_when b m : preparing m -> preparing (when b m).
Proof. intros Hm. unfold when. destruct b; [done|apply preparing_id]. Qed.

(* ------------------------------------------------------------------ *)
(** ** The head and the writes *)

Lemma prop_toObject n m : n <> js "__proto__" -> prop n (toObject m) = prop n m.
Proof.
  intros Hn. unfold toObject. assert (Hk : n ∈ own_names m <-> n ∈ m.*1) by by rewrite own_names_perm.
  destruct (prop n m) as [v|] eqn:Ep.
  - assert (Hin : n ∈ own_names m). { apply Hk. destruct (decide (n ∈ m.*1)) as [|Hout]; [done|]. apply prop_None in Hout. congruence. }
    clear Hk. induction (own_names m) as [|k ns IH]; [by apply not_elem_of_nil in Hin|]. cbn. case_bool_decide as Hk.
    + apply elem_of_cons in Hin as [->|Hin]; [done|by apply IH].
    + destruct (decide (k = n)) as [->|Hne]; [rewrite Ep; cbn; by rewrite bool_decide_eq_true_2|].
      apply elem_of_cons in Hin as [->|Hin]; [done|]. destruct (prop k m) as [w|]; cbn; [rewrite bool_decide_eq_false_2 by done|]; by apply IH.
  - assert (Hin : n ∉ own_names m) by (rewrite Hk; by apply prop_None). clear Hk. induction (own_names m) as [|k ns IH]; [done|].
    apply not_elem_of_cons in Hin as [Hnk Hin]. cbn. case_bool_decide; [by apply IH|]. destruct (prop k m) as [w|]; cbn; [|by apply IH].
    rewrite bool_decide_eq_false_2 by congruence. by apply IH.
Qed.

Lemma get_framing n m : framing n -> get n m = Ok (match prop n m with Some (HArr l) => Some (join (js ", ") l) | Some (HStr s) => Some s | None => None end).
Proof. intros Hn. apply get_prop. by apply normal_framing. Qed.
Lemma has_framing n m : framing n -> has n m = Ok (bool_decide (is_Some (prop n m))).
Proof. intros Hn. unfold has. by rewrite normal_framing. Qed.

(** One step of a method on a known state. *)
Ltac run_method := unfold mbind, sm_bind, gets, modify, get_header, has_header, wsi_do, when, mret, sm_ret; cbn -[get has prop toObject remove put content_length transfer_encoding].

Lemma flush_none st m e c w : prop content_length m = None ->
  flushHeaders (Response st m e false c w) = (Ok tt, Response st m e true c (w ++ [WsiRespond st None (toObject m)])).
Proof. intros Hp. unfold flushHeaders. run_method. rewrite get_framing by by left. by rewrite Hp. Qed.

Lemma flush_length st m e c w v : prop content_length m = Some (HStr v) ->
  flushHeaders (Response st m e false c w) = (Ok tt, Response st m e true c (w ++ [WsiRespond st (Some (Number v)) (remove content_length (toObject m))])).
Proof. intros Hp. unfold flushHeaders. run_method. rewrite get_framing by by left. by rewrite Hp. Qed.

Lemma flush_sent s : rp_headersSent s = true -> flushHeaders s = (Ok tt, s).
Proof. intros Hs. unfold flushHeaders. run_method. by rewrite Hs. Qed.

Lemma all_open_app a b : all_open a = true -> all_open (a ++ b) = all_open b.
Proof. induction a as [|[|d []] a IH]; try done. Qed.

Lemma ends_final_snoc a d : all_open a = true -> ends_final (a ++ [WsiWrite d true]) = true.
Proof. by induction a as [|[|x []] a IH]. Qed.

Lemma wsi_do_eq c st m e h ch w : wsi_do c (Response st m e h ch w) = (Ok tt, Response st m e h ch (w ++ [c])).
Proof. done. Qed.

Lemma write_chunk_frame c st m e h w : chunkByteLength c < 2 ^ 53 -> exists ws, all_open ws = true /\ wire ws = frame c /\
  writeChunk c (Response st m e h true w) = (Ok tt, Response st m e h true (w ++ ws)).
Proof.
  intros Hb. unfold writeChunk, frame. cbv zeta. destruct (chunkByteLength c =? 0) eqn:E; [exists []; rewrite app_nil_r; done|].
  exists [WsiWrite (CStr (to_string 16 (chunkByteLength c) ++ crlf)) false; WsiWrite c false; WsiWrite (CStr crlf) false].
  split; [done|]. split; [|rewrite !(bind_ok _ _ _ _ _ (wsi_do_eq _ _ _ _ _ _ _)), wsi_do_eq; by rewrite <- !app_assoc].
  unfold wire. cbn [map concat chunk_bytes]. rewrite encode_crlf, app_nil_r, encode_size by (unfold chunkByteLength in *; lia). by rewrite <- app_assoc.
Qed.

(* ------------------------------------------------------------------ *)
(** ** [write] and [end] *)

Definition pieces (c : option chunk) : list chunk := match c with Some c => [c] | None => [] end.
Definition small (body : list chunk) : Prop := Z.of_nat (length (body_bytes body)) < 2 ^ 53.

Lemma body_bytes_app a b : body_bytes (a ++ b) = body_bytes a ++ body_bytes b.
Proof. unfold body_bytes. by rewrite fmap_app, concat_app. Qed.

Lemma small_piece body c : small (body ++ [c]) -> chunkByteLength c < 2 ^ 53.
Proof. unfold small, chunkByteLength. rewrite body_bytes_app, length_app. unfold body_bytes at 2. cbn. rewrite app_nil_r. lia. Qed.

Lemma frames_snoc body c : concat (frame <$> (body ++ [c])) = concat (frame <$> body) ++ frame c.
Proof. rewrite fmap_app, concat_app. cbn. by rewrite app_nil_r. Qed.

Lemma digits_value_ok n : 0 <= n < 2 ^ 64 -> normalizeValue (to_string 10 n) = Ok (to_string 10 n).
Proof.
  intros Hn. destruct (to_string_spec 10 n ltac:(lia) Hn) as (_ & Hd%decimal_digits & _).
  assert (Hw : Forall (fun u => HTTP_WHITESPACE u = false) (to_string 10 n)).
  { eapply Forall_impl; [exact Hd|]. cbv beta. intros u Hu. unfold HTTP_WHITESPACE. apply bool_decide_eq_false.
    unfold is_digit in Hu. rewrite !elem_of_cons, elem_of_nil. lia. }
  rewrite clean_normalized; [|eapply Forall_impl; [exact Hd|]; cbv beta; intros u Hu; unfold is_digit in Hu; lia].
  f_equal. unfold trim_by. rewrite (drop_while_all _ (to_string 10 n)) by done. by rewrite drop_while_all, reverse_involutive by by apply Forall_reverse.
Qed.

Lemma set_ok n v s : framing n -> normalizeValue v = Ok v -> on_headers (set n v) s = (Ok tt, set_rp_headers (put n (HStr v) (rp_headers s)) s).
Proof.
  intros Hn Hv. unfold on_headers, set. rewrite normal_framing by done. cbn [mbind outcome_bind]. rewrite Hv. cbn [mbind outcome_bind].
  rewrite bool_decide_eq_false_2; [done|]. by destruct Hn as [-> | ->].
Qed.

Lemma has_header_eq n s : framing n -> has_header n s = (Ok (bool_decide (is_Some (prop n (rp_headers s)))), s).
Proof. intros Hn. unfold has_header. by rewrite has_framing. Qed.

Lemma write_spec body c s : phase body s -> rp_ended s = false -> small (body ++ pieces c) ->
  exists s', write c s = (Ok tt, s') /\ phase (body ++ pieces c) s' /\ rp_ended s' = false.
Proof.
  intros Hs He Hsm. assert (Hgo : forall st m code hs ws, prop transfer_encoding hs = Some (HStr (js "chunked")) -> all_open ws = true ->
    wire ws = concat (frame <$> body) -> let s := Response st m false true true (WsiRespond code None hs :: ws) in
    exists s', (match c with None => mret tt | Some c => chunked ← gets rp_chunked; if chunked : bool then writeChunk c else wsi_do (WsiWrite c false) end) s = (Ok tt, s') /\
      phase (body ++ pieces c) s' /\ rp_ended s' = false).
  { intros st m code hs ws Hte Ho Hw. cbv zeta. destruct c as [c|]; cbn [pieces] in *.
    - rewrite gets_bind. cbv beta. cbn [rp_chunked]. destruct (write_chunk_frame c st m false true (WsiRespond code None hs :: ws)) as (ws' & Ho' & Hw' & ->); [by eapply small_piece|].
      eexists. split; [reflexivity|]. split; [|done]. constructor; [done|by rewrite frames_snoc, wire_app, Hw, Hw', app_nil_r|by rewrite all_open_app].
    - eexists. split; [reflexivity|]. split; [|done]. rewrite app_nil_r. constructor; [done|by rewrite app_nil_r|done]. }
  inversion Hs; subst; cbn in He; try done; subst; unfold write; rewrite gets_bind; cbn [rp_headersSent].
  - rewrite (bind_ok _ _ _ _ _ (has_header_eq _ _ (or_introl eq_refl))), (bind_ok _ _ _ _ _ (has_header_eq _ _ (or_intror eq_refl))).
    cbn [rp_headers]. match goal with H1 : prop content_length m = None, H2 : prop transfer_encoding m = None |- _ => rewrite H1, H2 end.
    rewrite (bool_decide_eq_false_2 (is_Some (@None hvalue))) by by intros []. cbn [negb andb when]. rewrite bind_assoc, modify_bind, (bind_ok _ _ _ _ _ (set_ok transfer_encoding (js "chunked") _ (or_intror eq_refl) ltac:(vm_compute; reflexivity))).
    unfold set_rp_headers, set_rp_chunked. cbn [rp_headers rp_status rp_ended rp_headersSent rp_chunked rp_wsi].
    assert (Hcl : prop content_length (put transfer_encoding (HStr (js "chunked")) m) = None).
    { rewrite prop_put, bool_decide_eq_false_2 by (vm_compute; discriminate). done. }
    rewrite (bind_ok _ _ _ _ _ (flush_none _ _ _ _ _ Hcl)).
    cbn [app]. apply Hgo; [|done|done]. rewrite prop_toObject, prop_put by (vm_compute; discriminate). by rewrite bool_decide_eq_true_2.
  - rewrite (bind_ok _ _ _ _ _ (has_header_eq _ _ (or_introl eq_refl))), (bind_ok _ _ _ _ _ (has_header_eq _ _ (or_intror eq_refl))). cbn [negb andb when]. rewrite ret_bind, (bind_ok _ _ _ _ _ (flush_sent (Response _ _ _ true _ _) eq_refl)).
    apply Hgo; [done|done|by rewrite <- (app_nil_r (concat _))].
Qed.

(** A response that is ended at once. *)
Lemma end_fresh c st m : prop content_length m = None -> Z.of_nat (length (body_bytes (pieces c))) < 2 ^ 53 ->
  exists m' hs, end_ c (Response st m false false false []) =
    (Ok tt, Response st m' true true false [WsiRespond st (Some (of_Z (Z.of_nat (length (body_bytes (pieces c)))))) hs; WsiWrite (default (CStr []) c) true]) /\
    prop transfer_encoding hs = prop transfer_encoding m /\ (forall n, n <> content_length -> prop n m' = prop n m).
Proof.
  intros Hcl Hsm. set (n := match c with None => 0 | Some c => chunkByteLength c end).
  assert (Hnb : n = Z.of_nat (length (body_bytes (pieces c)))) by (unfold n, body_bytes; destruct c; cbn; [by rewrite app_nil_r|done]).
  assert (Hn : 0 <= n < 2 ^ 53) by lia. unfold end_. rewrite gets_bind. cbn [rp_ended]. cbv iota.
  rewrite gets_bind, (bind_ok _ _ _ _ _ (has_header_eq _ _ (or_introl eq_refl))). cbn [rp_headersSent rp_headers].
  rewrite Hcl, (bool_decide_eq_false_2 (is_Some (@None hvalue))) by by intros []. cbn [negb andb when].
  fold n. rewrite (bind_ok _ _ _ _ _ (set_ok content_length (to_string 10 n) _ (or_introl eq_refl) (digits_value_ok n ltac:(lia)))).
  unfold set_rp_headers. cbn [rp_headers rp_status rp_ended rp_headersSent rp_chunked rp_wsi].
  assert (Hput : prop content_length (put content_length (HStr (to_string 10 n)) m) = Some (HStr (to_string 10 n))) by by rewrite prop_put, bool_decide_eq_true_2.
  rewrite (bind_ok _ _ _ _ _ (flush_length _ _ _ _ _ _ Hput)), gets_bind. cbn [rp_chunked]. cbv iota.
  rewrite (bind_ok _ _ _ _ _ (wsi_do_eq _ _ _ _ _ _ _)). rewrite Number_to_string by lia. rewrite Hnb.
  unfold modify, set_rp_ended. cbn [rp_headers rp_status rp_ended rp_headersSent rp_chunked rp_wsi app]. eexists _, _. split; [reflexivity|]. split.
  - rewrite prop_remove, bool_decide_eq_false_2 by (vm_compute; discriminate).
    by rewrite prop_toObject, prop_put, bool_decide_eq_false_2 by (vm_compute; discriminate).
  - intros n' Hn'. by rewrite prop_put, bool_decide_eq_false_2.
Qed.

Lemma wire_piece c : wire [WsiWrite (default (CStr []) c) true] = body_bytes (pieces c).
Proof. unfold wire, body_bytes. destruct c; cbn [map concat pieces default fmap list_fmap]; [done|]. cbn. by rewrite (encode_ascii_string []). Qed.

Lemma end_spec body c s : phase body s -> small (body ++ pieces c) ->
  exists s', end_ c s = (Ok tt, s') /\ phase (if rp_ended s then body else body ++ pieces c) s' /\ rp_ended s' = true.
Proof.
  intros Hs Hsm. destruct (rp_ended s) eqn:He; [exists s; unfold end_; by rewrite gets_bind, He|].
  inversion Hs as [st m Hb Hcl Hte|st m code hs ws ended Hte Hw Ho|]; subst; cbn in He; try done; subst.
  - destruct (end_fresh c st m Hcl) as (m' & hs & He' & Hte' & _); [exact Hsm|]. eexists. split; [exact He'|]. split; [|done].
    cbn [app]. constructor; [congruence|by apply wire_piece|done].
  - unfold end_. rewrite gets_bind. cbn [rp_ended]. cbv iota. rewrite gets_bind, (bind_ok _ _ _ _ _ (has_header_eq _ _ (or_introl eq_refl))). cbn [rp_headersSent rp_headers].
    cbn [negb andb when]. rewrite ret_bind, (bind_ok _ _ _ _ _ (flush_sent (Response _ _ _ true _ _) eq_refl)), gets_bind. cbn [rp_chunked]. cbv iota.
    rewrite app_nil_r in Hw.
    assert (exists ws', all_open ws' = true /\ wire ws' = concat (frame <$> pieces c) /\
      (match c with Some c => writeChunk c | None => mret tt end) (Response st m false true true (WsiRespond code None hs :: ws)) =
      (Ok tt, Response st m false true true (WsiRespond code None hs :: ws ++ ws'))) as (ws' & Ho' & Hw' & Hr).
    { destruct c as [c|]; [|exists []; by rewrite app_nil_r]. destruct (write_chunk_frame c st m false true (WsiRespond code None hs :: ws)) as (ws' & ? & ? & ->);
        [by eapply small_piece|]. exists ws'. cbn. by rewrite app_nil_r. }
    rewrite bind_assoc, (bind_ok _ _ _ _ _ Hr), (bind_ok _ _ _ _ _ (wsi_do_eq _ _ _ _ _ _ _)). eexists. split; [reflexivity|]. split; [|done].
    unfold set_rp_ended. cbn [rp_headers rp_status rp_ended rp_headersSent rp_chunked rp_wsi app]. constructor; [done| |].
    + rewrite !wire_app, Hw, Hw', fmap_app, concat_app. unfold wire. cbn [map concat chunk_bytes]. by rewrite encode_last, app_nil_r.
    + apply (ends_final_snoc (ws ++ ws')). by rewrite all_open_app.
Qed.

(* ------------------------------------------------------------------ *)
(** ** Every call *)

(** The body a call offers, and what the response takes of it: a
    finished response takes nothing, nor does a call that throws. *)
Definition call_body (c : response_call) : list chunk :=
  match c with
  | CallWrite c | CallEnd c => pieces c
  | CallSend (SendChunk c) => [c]
  | CallSend (SendObject d) | CallJson d => pieces (CStr <$> d)
  | _ => []
  end.

Definition taken (c : response_call) (s : response) : list chunk :=
  if rp_ended s then [] else match (response_call_run c s).1 with Ok _ => call_body c | Throw _ _ => [] end.

Fixpoint body_of (calls : list response_call) (s : response) : list chunk :=
  match calls with [] => [] | c :: calls => taken c s ++ body_of calls (response_call_run c s).2 end.

(** The program does not write to a finished response, and leaves the
    headers that frame the body to it. *)
Fixpoint no_late_write (calls : list response_call) (s : response) : bool :=
  match calls with
  | [] => true
  | c :: calls => match c with CallWrite _ => negb (rp_ended s) | _ => true end && no_late_write calls (response_call_run c s).2
  end.

Definition leaves_framing (c : response_call) : Prop :=
  match c with
  | CallSet n _ | CallAppend n _ | CallRemove n | CallHeaders (OpSet n _) | CallHeaders (OpAppend n _) | CallHeaders (OpDelete n) => no_framing n
  | _ => True
  end.

(** A method that may end the response with [c]. *)
Definition delivers (m : SM response unit) (c : list chunk) : Prop := forall body s, phase body s -> small (body ++ c) ->
  phase (body ++ (if rp_ended s then [] else match (m s).1 with Ok _ => c | Throw _ _ => [] end)) (m s).2.

Lemma preparing_delivers m : preparing m -> delivers m [].
Proof.
  intros Hm body s Hs _. replace (if rp_ended s then [] else _) with (@nil chunk) by (by destruct (rp_ended s), (m s).1).
  rewrite app_nil_r. eapply phase_prepares; [apply Hm|done].
Qed.

Lemma end_delivers c : delivers (end_ c) (pieces c).
Proof.
  intros body s Hs Hsm. destruct (end_spec body c s Hs Hsm) as (s' & -> & Hp & _). cbn [fst snd]. destruct (rp_ended s); [by rewrite app_nil_r|done].
Qed.

(** Preparing first changes nothing about what is delivered. *)
Lemma prepared_delivers {A} (m : SM response A) k c : preparing m -> (forall a, delivers (k a) c) -> delivers (m ≫= k) c.
Proof.
  intros Hm Hk body s Hs Hsm. unfold mbind, sm_bind. pose proof (Hm s) as Hp. destruct (m s) as [[a|e x] s1]; cbn [fst snd] in *.
  - destruct Hp as (He & Hp). specialize (Hk a body s1). rewrite He in Hk. apply Hk; [|done]. by eapply phase_prepares.
  - replace (if rp_ended s then [] else []) with (@nil chunk) by by destruct (rp_ended s). rewrite app_nil_r. by eapply phase_prepares.
Qed.

(** Nothing happens on a finished response. *)
Lemma guarded_delivers m c : delivers m c -> delivers (ended ← gets rp_ended; if ended : bool then mret tt else m) c.
Proof. intros Hm body s Hs Hsm. rewrite gets_bind. destruct (rp_ended s) eqn:E; [cbn; by rewrite app_nil_r|]. specialize (Hm body s Hs Hsm). by rewrite E in Hm. Qed.

Lemma send_chunk_delivers c : delivers (send_chunk c) (pieces c).
Proof.
  unfold send_chunk. apply guarded_delivers. destruct c as [c|]; [|apply end_delivers].
  apply prepared_delivers; [apply preparing_id|]. intros ct. apply prepared_delivers; [apply preparing_when, preparing_type|]. intros _. apply (end_delivers (Some c)).
Qed.

Lemma json_delivers d : delivers (json d) (pieces (CStr <$> d)).
Proof.
  unfold json. apply prepared_delivers; [apply preparing_id|]. intros ct. apply prepared_delivers; [apply preparing_when, preparing_type|].
  intros _. apply send_chunk_delivers.
Qed.

Lemma call_delivers c : leaves_framing c -> match c with CallWrite _ => True | _ => delivers (response_call_run c) (call_body c) end.
Proof.
  intros Hl. destruct c as [code|n v|n v|n|op|v|n v o|n o|code url|d|b|c|c]; cbn [response_call_run call_body leaves_framing] in *; try done.
  - apply preparing_delivers. intros s. by split_and!.
  - by apply preparing_delivers, preparing_set.
  - apply preparing_delivers, preparing_open, preparing_headers. intros m m' k. by apply append_other.
  - apply preparing_delivers, preparing_open, preparing_headers. intros m m' k. by apply delete_other.
  - apply preparing_delivers. intros s. split_and!; try done. intros k Hk. cbn. unfold headers_step.
    destruct op as [n v|n v|n].
    + destruct (append n v (rp_headers s)) eqn:E; [by eapply append_other|done].
    + destruct (set n v (rp_headers s)) eqn:E; [by eapply set_other|done].
    + destruct (delete n (rp_headers s)) eqn:E; [by eapply delete_other|done].
  - apply preparing_delivers, preparing_type.
  - apply preparing_delivers, preparing_cookie.
  - apply preparing_delivers, preparing_cookie.
  - apply prepared_delivers; [intros s; by split_and!|]. intros _. apply prepared_delivers; [|intros _; apply (end_delivers None)].
    apply preparing_set, constant_no_framing. vm_compute. reflexivity.
  - apply json_delivers.
  - unfold send. apply guarded_delivers. destruct b as [c|d|]; [apply (send_chunk_delivers (Some c))|apply json_delivers|apply (end_delivers None)].
  - apply end_delivers.
Qed.

Lemma step_phase body c s : phase body s -> leaves_framing c -> no_late_write [c] s = true -> small (body ++ call_body c) ->
  phase (body ++ taken c s) (response_call_run c s).2.
Proof.
  intros Hs Hl Hw Hsm. pose proof (call_delivers c Hl) as Hd. unfold taken.
  destruct c as [code|n v|n v|n|op|v|n v o|n o|code url|d|b|c|c]; try by apply Hd.
  cbn [no_late_write] in Hw. rewrite andb_true_r in Hw. apply negb_true_iff in Hw. rewrite Hw. cbn [response_call_run].
  destruct (write_spec body c s Hs Hw Hsm) as (s' & -> & Hp & _). done.
Qed.

Lemma small_mono a b : (length (body_bytes a) <= length (body_bytes b))%nat -> small b -> small a.
Proof. unfold small. lia. Qed.

Lemma taken_offered c s : taken c s = call_body c \/ taken c s = [].
Proof. unfold taken. destruct (rp_ended s); [by right|]. destruct (_.1); [by left|by right]. Qed.

Lemma run_phase calls : forall body s, phase body s -> Forall leaves_framing calls -> no_late_write calls s = true ->
  small (body ++ concat (map call_body calls)) -> phase (body ++ body_of calls s) (response_run calls s).
Proof.
  induction calls as [|c calls IH]; intros body s Hs Hl Hw Hsm; cbn [body_of response_run foldl]; [by rewrite app_nil_r|].
  inversion Hl as [|? ? Hc Hcs]. subst. cbn [no_late_write] in Hw. apply andb_true_iff in Hw as [Hw1 Hw2]. cbn [map concat] in Hsm.
  rewrite app_assoc. apply IH; [|done|done|].
  - apply step_phase; [done|done|cbn [no_late_write]; by rewrite Hw1|]. eapply small_mono; [|exact Hsm]. rewrite !body_bytes_app, !length_app. lia.
  - eapply small_mono; [|exact Hsm]. destruct (taken_offered c s) as [-> | ->]; rewrite !body_bytes_app, !length_app; cbn; lia.
Qed.

Lemma body_of_offered calls : forall s, (length (body_bytes (body_of calls s)) <= length (body_bytes (concat (map call_body calls))))%nat.
Proof.
  induction calls as [|c calls IH]; intros s; cbn [body_of map concat]; [done|]. rewrite !body_bytes_app, !length_app.
  specialize (IH (response_call_run c s).2). destruct (taken_offered c s) as [-> | ->]; cbn [length]; [lia|]. unfold body_bytes at 1. cbn. lia.
Qed.

Lemma small_pieces body : small body -> Forall (fun c => chunkByteLength c < 2 ^ 53) body.
Proof.
  induction body as [|c body IH]; intros Hs; [constructor|]. unfold small, chunkByteLength in *. unfold body_bytes in *. cbn [fmap list_fmap concat] in Hs. rewrite length_app in Hs.
  constructor; [lia|apply IH; lia].
Qed.

Lemma open_not_final ws : all_open ws = true -> ends_final ws = false.
Proof. by induction ws as [|[|x []] ws IH]. Qed.

(** What the client makes of the calls so far. *)
Lemma phase_received body s : phase body s -> small body ->
  receive (rp_wsi s) = if rp_ended s then match rp_wsi s with WsiRespond st _ _ :: _ => Some (st, body_bytes body) | _ => None end else None.
Proof.
  intros Hp Hsm. inversion Hp as [|st m code hs ws ended Hte Hwr Hf|st m code hs ws Hte Hwr Hf]; subst; cbn [rp_ended rp_wsi]; [done| |].
  - destruct ended; [|by cbn [receive]; rewrite open_not_final]. cbn [receive]. rewrite Hf, Hte, bool_decide_eq_true_2 by done. cbn [negb].
    rewrite Hwr. rewrite dechunk_frames; [done|by apply small_pieces|rewrite length_app; lia].
  - rewrite <-Hwr. apply receive_sized; [done|done|]. by rewrite Hwr.
Qed.

(** C23: A client gets what the program gave.  Whatever calls a program
    makes - data in one piece or in chunks, headers before or after,
    calls that throw and are caught - when the response is finished, the
    client that reads what is on the wire, by its chunks when the head
    says chunked and else by the content length or up to the close, gets
    exactly the body the response took; provided the program leaves the two
    framing headers alone ([leaves_framing]) and does not [write] after the
    end ([no_late_write]). *)
Theorem response_received calls : Forall leaves_framing calls -> no_late_write calls new_ServerResponse = true ->
  small (concat (map call_body calls)) ->
  let s := response_run calls new_ServerResponse in
  if rp_ended s then exists st, receive (rp_wsi s) = Some (st, body_bytes (body_of calls new_ServerResponse))
  else ends_final (drop 1 (rp_wsi s)) = false.
Proof.
  intros Hl Hw Hsm. cbv zeta. pose proof (run_phase calls [] new_ServerResponse) as Hp. cbn [app] in Hp.
  specialize (Hp (phase_fresh [] 200 [] eq_refl eq_refl eq_refl) Hl Hw Hsm).
  pose proof (body_of_offered calls new_ServerResponse) as Hoff.
  set (body := body_of calls new_ServerResponse) in *. set (s := response_run calls new_ServerResponse) in *. clearbody s body.
  assert (Hs : small body) by by eapply small_mono. pose proof (phase_received body s Hp Hs) as Hr. destruct (rp_ended s) eqn:He.
  - rewrite Hr. inversion Hp; subst; cbn in He |- *; [done|by eexists..].
  - inversion Hp; subst; cbn in He |- *; [done|subst; by apply open_not_final|done].
Qed.

(* ------------------------------------------------------------------ *)
(** ** The head *)

Definition is_write (c : wsi_call) : Prop := match c with WsiWrite _ _ => True | _ => False end.

(** What the native side is given as headers. *)
Definition safe_headers (hs : list (jsstr * hvalue)) : Prop := Forall good_prop hs.

Definition head_once (s : response) : Prop := good (rp_headers s) /\
  if rp_headersSent s then exists st cl hs ws, rp_wsi s = WsiRespond st cl hs :: ws /\ Forall is_write ws /\ safe_headers hs
  else rp_wsi s = [].

(** Methods that keep it, those that write once the head is sent, and
    those that send it. *)
Definition keeps {A} (m : SM response A) : Prop := forall s, head_once s -> head_once (m s).2.
Definition writes {A} (m : SM response A) : Prop := forall s, head_once s -> rp_headersSent s = true -> head_once (m s).2 /\ rp_headersSent (m s).2 = true.

Lemma keeps_seq {A B} (m : SM response A) (k : A -> SM response B) : keeps m -> (forall a, keeps (k a)) -> keeps (m ≫= k).
Proof. intros Hm Hk s Hs. unfold mbind, sm_bind. specialize (Hm s Hs). destruct (m s) as [[a|c e] s1]; [by apply Hk|done]. Qed.
Lemma writes_bind {A B} (m : SM response A) (k : A -> SM response B) : writes m -> (forall a, writes (k a)) -> writes (m ≫= k).
Proof.
  intros Hm Hk s Hs He. unfold mbind, sm_bind. destruct (Hm s Hs He) as [H1 H2]. destruct (m s) as [[a|c e] s1]; [by apply Hk|done].
Qed.
Lemma keeps_id {A} (f : response -> outcome A) : keeps (fun s => (f s, s)).
Proof. by intros s. Qed.
Lemma writes_id {A} (f : response -> outcome A) : writes (fun s => (f s, s)).
Proof. by intros s. Qed.
Lemma keeps_update f : (forall s, rp_wsi (f s) = rp_wsi s /\ rp_headersSent (f s) = rp_headersSent s /\ (good (rp_headers s) -> good (rp_headers (f s)))) -> keeps (modify f).
Proof. intros Hf s [Hg Hs]. destruct (Hf s) as (E1 & E2 & E3). unfold head_once. cbn. rewrite E1, E2. auto. Qed.
Lemma writes_write c f : writes (wsi_do (WsiWrite c f)).
Proof.
  intros s [Hg Hs] He. rewrite He in Hs. destruct Hs as (st & cl & hs & ws & Hw & Hf & Hh). split; [|done]. split; [done|]. cbn. rewrite He, Hw.
  exists st, cl, hs, (ws ++ [WsiWrite c f]). split; [done|]. split; [|done]. apply Forall_app. by split; [|constructor].
Qed.

Lemma keeps_headers f : (forall m m', good m -> f m = Ok m' -> good m') -> keeps (on_headers f).
Proof. intros Hf s [Hg Hs]. unfold on_headers. destruct (f (rp_headers s)) as [m|] eqn:E; [|done]. split; [by eapply Hf|done]. Qed.

Lemma keeps_open {A} (m : SM response A) : keeps m -> keeps (assertOpen ;; m).
Proof. intros Hm. apply keeps_seq; [|by intros []]. apply keeps_seq; [apply keeps_id|]. intros []; apply keeps_id. Qed.

Lemma good_toObject m : good m -> safe_headers (toObject m).
Proof.
  intros Hm. apply Forall_forall. intros [n v] Hin. unfold toObject in Hin. apply list_elem_of_omap in Hin as (k & _ & Hk).
  case_bool_decide; [done|]. destruct (prop k m) as [w|] eqn:Ep; [|done]. cbn in Hk. injection Hk as <- <-. by apply (good_lookup _ _ _ Hm).
Qed.

Lemma get_header_eq n s : framing n ->
  get_header n s = (Ok (match prop n (rp_headers s) with Some (HArr l) => Some (join (js ", ") l) | Some (HStr v) => Some v | None => None end), s).
Proof. intros Hn. unfold get_header. by rewrite get_framing. Qed.

Lemma flush_head s : head_once s -> head_once (flushHeaders s).2 /\ ((flushHeaders s).1 = Ok tt -> rp_headersSent (flushHeaders s).2 = true).
Proof.
  intros [Hg Hs]. unfold flushHeaders. rewrite gets_bind. destruct (rp_headersSent s) eqn:E; cbv iota.
  { split; [split; [done|]; cbn; by rewrite E|done]. }
  rewrite modify_bind, !(bind_ok _ _ _ _ _ (get_header_eq content_length _ (or_introl eq_refl))), gets_bind. destruct s as [st m en se ch w]. cbn in Hs, Hg, E. subst. unfold set_rp_headersSent. cbn [rp_headers rp_status rp_ended rp_headersSent rp_chunked rp_wsi id].
  destruct (prop content_length m) as [[v|l]|]; rewrite wsi_do_eq; cbn [fst snd]; (split; [split; [exact Hg|]|done]); cbn [snd rp_headersSent rp_wsi app];
    eexists _, _, _, []; (split; [reflexivity|]); (split; [constructor|]); try by apply good_toObject.
  all: apply Forall_forall; intros p Hp; unfold remove in Hp; apply list_elem_of_filter in Hp as [_ Hp]; pose proof (good_toObject m Hg) as Hall;
    unfold safe_headers in Hall; rewrite Forall_forall in Hall; by apply Hall.
Qed.

Lemma keeps_flush {A} (k : unit -> SM response A) : (forall a, writes (k a)) -> keeps (flushHeaders ≫= k).
Proof.
  intros Hk s Hs. unfold mbind, sm_bind. destruct (flush_head s Hs) as [H1 H2]. destruct (flushHeaders s) as [[[]|c e] s1]; [|done].
  by apply Hk; [|apply H2].
Qed.

Lemma writes_chunk c : writes (writeChunk c).
Proof.
  unfold writeChunk. cbv zeta. destruct (chunkByteLength c =? 0); [apply writes_id|]. repeat (apply writes_bind; [apply writes_write|intros _]). apply writes_write.
Qed.

Lemma keeps_when b m : keeps m -> keeps (when b m).
Proof. intros Hm. unfold when. destruct b; [done|apply keeps_id]. Qed.

Lemma keeps_set name v : keeps (rset name v).
Proof. apply keeps_open, keeps_headers. intros m m'. apply good_set. Qed.

Lemma keeps_cookie name value opts : keeps (cookie name value opts).
Proof. apply keeps_open, keeps_seq; [apply keeps_id|]. intros v. apply keeps_headers. intros m m'. apply good_append. Qed.

Lemma keeps_guarded m : keeps m -> keeps (ended ← gets rp_ended; if ended : bool then mret tt else m).
Proof. intros Hm. apply keeps_seq; [apply keeps_id|]. intros []; [apply keeps_id|done]. Qed.

Lemma keeps_end c : keeps (end_ c).
Proof.
  unfold end_. apply keeps_guarded, keeps_seq; [apply keeps_id|]. intros sent. apply keeps_seq; [apply keeps_id|]. intros cl.
  apply keeps_seq; [apply keeps_when, keeps_headers; intros m m'; apply good_set|]. intros _. apply keeps_flush. intros _.
  apply writes_bind; [apply writes_id|]. intros ch. apply writes_bind.
  - destruct ch; [|apply writes_write]. apply writes_bind; [|intros _; apply writes_write]. destruct c; [apply writes_chunk|apply writes_id].
  - intros _ s [Hg Hs] He. split; [|done]. by split.
Qed.

Lemma keeps_write c : keeps (write c).
Proof.
  unfold write. do 3 (apply keeps_seq; [apply keeps_id|]; intros ?). apply keeps_seq.
  - apply keeps_when, keeps_seq; [by apply keeps_update|]. intros _. apply keeps_headers. intros m m'. apply good_set.
  - intros _. apply keeps_flush. intros _. destruct c as [c|]; [|apply writes_id]. apply writes_bind; [apply writes_id|]. intros []; [apply writes_chunk|apply writes_write].
Qed.

Lemma keeps_send_chunk c : keeps (send_chunk c).
Proof.
  unfold send_chunk. apply keeps_guarded. destruct c as [c|]; [|apply keeps_end]. apply keeps_seq; [apply keeps_id|]. intros ct.
  apply keeps_seq; [apply keeps_when, keeps_set|]. intros _. apply keeps_end.
Qed.

Lemma keeps_json d : keeps (json d).
Proof.
  unfold json. apply keeps_seq; [apply keeps_id|]. intros ct. apply keeps_seq; [apply keeps_when, keeps_set|]. intros _. apply keeps_send_chunk.
Qed.

Lemma keeps_call c : keeps (response_call_run c).
Proof.
  destruct c as [code|n v|n v|n|op|v|n v o|n o|code url|d|b|c|c]; cbn [response_call_run].
  - by apply keeps_update.
  - apply keeps_set.
  - apply keeps_open, keeps_headers. intros m m'. apply good_append.
  - apply keeps_open, keeps_headers. intros m m'. apply good_delete.
  - apply keeps_update. intros s. split_and!; try done. intros Hg. cbn. unfold headers_step.
    destruct op as [n v|n v|n].
    + destruct (append n v (rp_headers s)) eqn:E; [by eapply good_append|done].
    + destruct (set n v (rp_headers s)) eqn:E; [by eapply good_set|done].
    + destruct (delete n (rp_headers s)) eqn:E; [by eapply good_delete|done].
  - apply keeps_set.
  - apply keeps_cookie.
  - apply keeps_cookie.
  - apply keeps_seq; [by apply keeps_update|]. intros _. apply keeps_seq; [apply keeps_set|]. intros _. apply keeps_end.
  - apply keeps_json.
  - unfold send. apply keeps_guarded. destruct b as [c|d|]; [apply keeps_send_chunk|apply keeps_json|apply keeps_end].
  - apply keeps_write.
  - apply keeps_end.
Qed.

(** C24: Whatever a program does with a response, its head goes out at most
    once and before everything else, and every header in it - cookies and
    redirect targets included - has a lower-case token as its name and no
    NUL, CR or LF in its value: a response cannot be split. *)
Theorem response_head_once calls : match rp_wsi (response_run calls new_ServerResponse) with
  | [] => rp_headersSent (response_run calls new_ServerResponse) = false
  | WsiRespond _ _ hs :: ws => rp_headersSent (response_run calls new_ServerResponse) = true /\ Forall is_write ws /\
      forall n v, (n, v) ∈ hs -> valid_name n /\ match v with HStr s => clean s | HArr l => Forall clean l end
  | WsiWrite _ _ :: _ => False
  end.
Proof.
  assert (Hs : head_once (response_run calls new_ServerResponse)).
  { unfold response_run. assert (H0 : head_once new_ServerResponse) by (split; [apply good_nil|done]). revert H0. generalize new_ServerResponse.
    induction calls as [|c calls IH]; intros s Hs; [done|]. cbn [foldl]. by apply IH, keeps_call. }
  destruct Hs as [_ Hs]. destruct (rp_headersSent _); [|by rewrite Hs]. destruct Hs as (st & cl & hs & ws & -> & Hw & Hh). split; [done|]. split; [done|].
  intros n v Hin. unfold safe_headers in Hh. rewrite Forall_forall in Hh. destruct (Hh _ Hin) as [Hn Hv]. split; [done|]. cbn in Hv.
  destruct v as [t|l]; [apply Hv|]. destruct Hv as (_ & _ & Hv). eapply Forall_impl; [exact Hv|]. by intros x [? _].
Qed.

(** A [write] after the end puts data behind the final write. *)
Lemma write_after_end : rp_wsi (response_run [CallEnd None; CallWrite (Some (CStr (js "x")))] new_ServerResponse) =
  [WsiRespond 200 (Some (of_Z 0)) []; WsiWrite (CStr []) true; WsiWrite (CStr (js "x")) false].
Proof. vm_compute. reflexivity. Qed.
End Client.

(* ------------------------------------------------------------------ *)
(** ** Witnesses *)

Definition sample_calls : list response_call :=
  [CallSet (js "X-A") (js "1"); CallWrite (Some (CStr (js "ab"))); CallType (js "late"); CallWrite (Some (CBuf [1; 2; 3])); CallEnd (Some (CStr (js "z")))].

Lemma response_received_witness : body_bytes (body_of sample_calls new_ServerResponse) = [97; 98; 1; 2; 3; 122] /\
  exists st, receive (rp_wsi (response_run sample_calls new_ServerResponse)) = Some (st, body_bytes (body_of sample_calls new_ServerResponse)).
Proof.
  assert (Hl : Forall leaves_framing sample_calls).
  { unfold sample_calls. forall_list; cbn; try done. apply constant_no_framing. vm_compute. reflexivity. }
  assert (Hw : no_late_write sample_calls new_ServerResponse = true) by (vm_compute; reflexivity).
  assert (Hs : small (concat (map call_body sample_calls))) by (vm_compute; reflexivity).
  assert (He : rp_ended (response_run sample_calls new_ServerResponse) = true) by (vm_compute; reflexivity).
  split; [vm_compute; reflexivity|]. pose proof (response_received sample_calls Hl Hw Hs) as Hr. cbv zeta in Hr. rewrite He in Hr. exact Hr.
Defined.
