(* ===== verification/Request.v ===== *)
(** * Requests of [lib/lws/request.js], and form fields

    [parseCookieHeader], the request a server hands to its handlers with
    its lazily parsed query and cookies, and the loop over [a=1&b=2] that
    [query], the [urlencoded] middleware of [lib/lws/middleware.js] and
    [Body.formData] of [lib/lws/body.js] share.  Objects without a
    prototype are property lists as in [Headers]. *)

From S2P Require Import Prelude JsString JsNumber Percent UriComponent Headers.
Open Scope Z_scope.

(* ------------------------------------------------------------------ *)
(** ** Cookies *)

(** [value.replace(/^"|"$/g, '')] *)
Definition unquote (s : jsstr) : jsstr :=
  let s := match s with u :: t => if u =? 0x22 then t else s | [] => s end in
  match last s with Some u => if u =? 0x22 then take (length s - 1) s else s | None => s end.

(** The first value of a name stays; a value that cannot be decoded is
    kept as it is. *)
Definition add_cookie (out : list (jsstr * jsstr)) (part : jsstr) : list (jsstr * jsstr) :=
  match index_of 0x3d part with
  | None => out
  | Some eq =>
    let name := trim (take eq part) in
    let value := unquote (trim (drop (S eq) part)) in
    if bool_decide (name = []) || bool_decide (name ∈ out.*1) then out
    else out ++ [(name, match decodeURIComponent value with Ok v => v | Throw _ _ => value end)]
  end.

(** A missing header is [None]. *)
Definition parseCookieHeader (header : option jsstr) : list (jsstr * jsstr) :=
  match header with
  | None | Some [] => []
  | Some h => foldl add_cookie [] (split_on 0x3b h)
  end.

(** [out[name]] of an object without a prototype. *)
Fixpoint lookup (name : jsstr) (out : list (jsstr * jsstr)) : option jsstr :=
  match out with [] => None | (n, v) :: out => if bool_decide (n = name) then Some v else lookup name out end.

(* ------------------------------------------------------------------ *)
(** ** Form fields *)

Definition decode_field (s : jsstr) : outcome jsstr := decodeURIComponent (replace_unit 0x2b [0x20] s).

Definition field_pair (part : jsstr) : outcome (jsstr * jsstr) :=
  let eq := index_of 0x3d part in
  k ← decode_field (match eq with None => part | Some i => take i part end);
  v ← match eq with None => Ok [] | Some i => decode_field (drop (S i) part) end;
  Ok (k, v).

(** [if(k in out) out[k] = [].concat(out[k], v); else out[k] = v;] *)
Definition add_field (k v : jsstr) (out : list (jsstr * hvalue)) : list (jsstr * hvalue) :=
  put k (match prop k out with Some (HStr s) => HArr [s; v] | Some (HArr l) => HArr (l ++ [v]) | None => HStr v end) out.

Fixpoint parse_fields (parts : list jsstr) (out : list (jsstr * hvalue)) : outcome (list (jsstr * hvalue)) :=
  match parts with
  | [] => Ok out
  | part :: parts =>
    if bool_decide (part = []) then parse_fields parts out else
    '(k, v) ← field_pair part;
    parse_fields parts (add_field k v out)
  end.

(** The same loop with [formData.append]: the pairs in order. *)
Fixpoint field_pairs (parts : list jsstr) : outcome (list (jsstr * jsstr)) :=
  match parts with
  | [] => Ok []
  | part :: parts =>
    if bool_decide (part = []) then field_pairs parts else
    p ← field_pair part;
    ps ← field_pairs parts;
    Ok (p :: ps)
  end.

(* ------------------------------------------------------------------ *)
(** ** [ServerRequest] *)

(** [toUpperCase] outside ASCII, from the engine's tables. *)
Class UpperTables := { upper_nonascii : jsstr -> jsstr }.
Definition toUpperCase `{UpperTables} (s : jsstr) : jsstr :=
  concat ((fun ch => match ch with
                     | [u] => if u <? 128 then [upper_unit u] else upper_nonascii ch
                     | _ => upper_nonascii ch end) <$> spread s).

Definition methods : list jsstr :=
  [js "CONNECT"; js "DELETE"; js "GET"; js "HEAD"; js "OPTIONS"; js "PATCH"; js "POST"; js "PUT"; js "TRACE"].

Section Request.
Context `{UpperTables}.

Definition normalizeMethod (method : jsstr) : jsstr :=
  let upcased := toUpperCase method in if bool_decide (upcased ∈ methods) then upcased else method.

(** What the native connection says, and the request made from it. *)
Record wsi := Wsi { ws_method : option jsstr; ws_uri : option jsstr; ws_headers : list (jsstr * jsstr) }.
Record server_request := ServerRequest {
  sr_method : jsstr; sr_headers : list (jsstr * jsstr); sr_originalUrl : jsstr; sr_path : jsstr }.

(** [a || b] on strings. *)
Definition or_string (a : option jsstr) (b : jsstr) : jsstr := match a with Some ((_ :: _) as s) => s | _ => b end.

Definition new_ServerRequest (w : wsi) : server_request :=
  let uriArgs := lookup (js "uri-args") (ws_headers w) in
  let originalUrl := or_string (ws_uri w) (js "/") ++ match uriArgs with Some ((_ :: _) as a) => js "?" ++ a | _ => [] end in
  ServerRequest (normalizeMethod (or_string (ws_method w) (js "GET"))) (ws_headers w) originalUrl
    (match index_of 0x3f originalUrl with None => originalUrl | Some q => take q originalUrl end).

Definition query (r : server_request) : outcome (list (jsstr * hvalue)) :=
  match index_of 0x3f (sr_originalUrl r) with
  | None => Ok []
  | Some q => parse_fields (split_on 0x26 (drop (S q) (sr_originalUrl r))) []
  end.

Definition cookies (r : server_request) : list (jsstr * jsstr) := parseCookieHeader (lookup (js "cookie") (sr_headers r)).
End Request.
