(* ===== verification/RequestProps.v ===== *)
(** * What requests promise

    Cookies set by a response come back with their values, and the fields
    of a query or a form body come back grouped by name. *)

From S2P Require Import Prelude JsString JsNumber Percent Utf8 UriComponent Headers HeadersProps StreamBase ServerResponse Request.
Open Scope Z_scope.

#[local] Arguments js : simpl never.

(* ------------------------------------------------------------------ *)
(** ** Encoded components *)

Lemma encoded_without c s e : encodeURIComponent s = Ok e -> component_unit c = false -> c ∉ e.
Proof. intros He Hc Hin. apply encode_component_units in He. rewrite Forall_forall in He. specialize (He c Hin). by rewrite Hc in He. Qed.

Lemma component_not_space u : component_unit u = true -> is_js_space u = false.
Proof.
  intros Hu. unfold is_js_space. assert (Hr : 0x21 <= u <= 0x7e).
  { unfold component_unit, uri_unescaped, is_alnum, is_alpha, is_upper, is_lower, is_digit in Hu. rewrite !orb_true_iff, bool_decide_eq_true, !elem_of_cons, elem_of_nil in Hu. lia. }
  apply orb_false_iff. split; [|apply andb_false_iff; left; apply Z.leb_gt; lia].
  apply bool_decide_eq_false. rewrite !elem_of_cons, elem_of_nil. lia.
Qed.

Lemma trim_encoded s e : encodeURIComponent s = Ok e -> trim e = e.
Proof. intros He. apply trim_none. eapply Forall_impl; [by eapply encode_component_units|]. apply component_not_space. Qed.

Lemma trim_space s : trim (0x20 :: s) = trim s.
Proof. done. Qed.

Lemma unquote_none s : 0x22 ∉ s -> unquote s = s.
Proof.
  intros Hq. unfold unquote. assert (E : match s with u :: t => if u =? 0x22 then t else s | [] => s end = s).
  { destruct s as [|u t]; [done|]. apply not_elem_of_cons in Hq as [Hu _]. by rewrite (proj2 (Z.eqb_neq u 0x22)) by congruence. }
  rewrite E. destruct (last s) as [u|] eqn:El; [|done]. destruct (Z.eqb_spec u 0x22) as [->|]; [|done]. exfalso. apply Hq. by apply last_Some_elem_of.
Qed.

Lemma replace_none c by_ s : c ∉ s -> replace_unit c by_ s = s.
Proof.
  unfold replace_unit. induction s as [|u s IH]; intros Hc; [done|]. apply not_elem_of_cons in Hc as [Hu Hs]. cbn. rewrite (proj2 (Z.eqb_neq u c)) by congruence. cbn. by rewrite IH.
Qed.

Lemma index_of_absent c s : c ∉ s -> index_of c s = None.
Proof. induction s as [|u s IH]; intros Hc; [done|]. apply not_elem_of_cons in Hc as [Hu Hs]. cbn. rewrite (proj2 (Z.eqb_neq u c)) by congruence. by rewrite IH. Qed.

(* ------------------------------------------------------------------ *)
(** ** Cookies *)

(** What a client keeps of a [Set-Cookie] value, and the header it sends
    for several. *)
Definition cookie_pair (set_cookie : jsstr) : jsstr := default [] (head (split_on 0x3b set_cookie)).
Definition cookie_header (pairs : list jsstr) : jsstr := join (js "; ") pairs.

Record sent_cookie := SentCookie { ck_name : jsstr; ck_value : jsstr; ck_opts : cookie_opts }.

Lemma head_split sep p s : sep ∉ p -> head (split_on sep (p ++ s)) = Some p \/ exists q, head (split_on sep (p ++ s)) = Some (p ++ q) /\ sep ∉ q.
Proof.
  intros Hp. right. assert (Hs : exists q qs, split_on sep s = q :: qs /\ sep ∉ q).
  { clear. induction s as [|u s IH]; cbn; [by exists [], []; split; [|apply not_elem_of_nil]|]. destruct (Z.eqb_spec u sep) as [->|Hu]; [eexists [], _; split; [done|apply not_elem_of_nil]|].
    destruct IH as (q & qs & -> & Hq). eexists (u :: q), qs. split; [done|]. by apply not_elem_of_cons. }
  destruct Hs as (q & qs & Hs & Hq). exists q. split; [|done]. induction p as [|u p IH]; cbn; [by rewrite Hs|]. apply not_elem_of_cons in Hp as [Hu Hp].
  rewrite (proj2 (Z.eqb_neq u sep)) by congruence. specialize (IH Hp). destruct (split_on sep (p ++ s)) as [|x xs]; [done|]. cbn in IH |- *. by injection IH as ->.
Qed.

Lemma cookie_pair_set name value opts n v s : encodeURIComponent name = Ok n -> encodeURIComponent value = Ok v ->
  buildSetCookie name value opts = Ok s -> cookie_pair s = n ++ 0x3d :: v.
Proof.
  intros Hn Hv. unfold buildSetCookie. rewrite Hn, Hv. cbn [mbind outcome_bind]. intros <-%Ok_inj. unfold cookie_pair.
  match goal with |- context [join (js "; ") ([?a] ++ ?rest)] => set (attrs := rest); change ([a] ++ attrs) with (a :: attrs) end. clearbody attrs.
  assert (Hs : 0x3b ∉ n ++ js "=" ++ v).
  { rewrite !not_elem_of_app. split_and!; [by eapply encoded_without|apply (bool_decide_unpack _); vm_compute; exact I|by eapply encoded_without]. }
  assert (E : split_on 0x3b (join (js "; ") ((n ++ js "=" ++ v) :: attrs)) = (n ++ js "=" ++ v) :: match attrs with [] => [] | _ => split_on 0x3b (0x20 :: join (js "; ") attrs) end).
  { destruct attrs as [|b attrs]; [by apply split_on_none|]. change (join (js "; ") ((n ++ js "=" ++ v) :: b :: attrs)) with ((n ++ js "=" ++ v) ++ 0x3b :: (0x20 :: join (js "; ") (b :: attrs))).
    by rewrite split_on_app. }
  by rewrite E.
Qed.

(** The parts of a header and the trimmed parts of a pair. *)
Lemma header_parts pairs : Forall (fun p => 0x3b ∉ p) pairs -> pairs <> [] ->
  split_on 0x3b (cookie_header pairs) = match pairs with p :: ps => p :: (cons 0x20 <$> ps) | [] => [] end.
Proof.
  intros Hall Hne. destruct pairs as [|p ps]; [done|]. clear Hne. revert p Hall. unfold cookie_header. induction ps as [|q ps IH]; intros p Hall; inversion Hall as [|? ? Hp Hps]; subst.
  - by apply split_on_none.
  - change (join (js "; ") (p :: q :: ps)) with (p ++ 0x3b :: (0x20 :: join (js "; ") (q :: ps))). rewrite split_on_app by done. f_equal.
    assert (Hc : forall s x xs, split_on 0x3b s = x :: xs -> split_on 0x3b (0x20 :: s) = (0x20 :: x) :: xs) by (intros s x xs E; cbn; by rewrite E).
    rewrite fmap_cons. apply Hc. by apply IH.
Qed.

Lemma add_cookie_pair sp name value n v out : (sp = [] \/ sp = [0x20]) -> name <> [] -> encodeURIComponent name = Ok name -> encodeURIComponent value = Ok v ->
  n = name -> name ∉ out.*1 -> add_cookie out (sp ++ n ++ 0x3d :: v) = out ++ [(name, value)].
Proof.
  intros Hsp Hne Hn Hv -> Hout. unfold add_cookie. assert (Hidx : index_of 0x3d (sp ++ name ++ 0x3d :: v) = Some (length (sp ++ name))).
  { rewrite app_assoc. apply index_of_app. rewrite not_elem_of_app. split; [|by eapply encoded_without]. destruct Hsp as [-> | ->]; apply (bool_decide_unpack _); vm_compute; exact I. }
  rewrite Hidx, app_assoc, take_app_length. rewrite drop_S_app.
  assert (Htn : trim (sp ++ name) = name) by (destruct Hsp as [-> | ->]; cbn [app]; rewrite ?trim_space; by eapply trim_encoded).
  rewrite Htn, (trim_encoded value v Hv), unquote_none by by eapply encoded_without.
  rewrite (bool_decide_eq_false_2 (name = [])), (bool_decide_eq_false_2 (name ∈ out.*1)) by done. cbn [orb]. by rewrite (decode_encode_component _ _ Hv).
Qed.

(** Cookies come back.  For cookies with distinct names of unreserved
    characters and any values without lone surrogates, set by
    [ServerResponse.cookie] with whatever attributes, the header in which
    a client sends them back parses to exactly those names and values. *)
Theorem cookies_come_back (jar : list sent_cookie) (set_cookies : list jsstr) :
  Forall (fun c => ck_name c <> [] /\ encodeURIComponent (ck_name c) = Ok (ck_name c) /\ well_formed (ck_value c) = true) jar ->
  NoDup (ck_name <$> jar) ->
  Forall2 (fun c s => buildSetCookie (ck_name c) (ck_value c) (ck_opts c) = Ok s) jar set_cookies ->
  parseCookieHeader (Some (cookie_header (cookie_pair <$> set_cookies))) = (fun c => (ck_name c, ck_value c)) <$> jar.
Proof.
  intros Hjar Hnd Hset. assert (Hpairs : exists vs, Forall2 (fun c v => encodeURIComponent (ck_value c) = Ok v) jar vs /\
    cookie_pair <$> set_cookies = zip_with (fun c v => ck_name c ++ 0x3d :: v) jar vs).
  { clear Hnd. induction Hset as [|c s jar ss Hs Hss IH]; [by exists []|]. inversion Hjar as [|? ? (Hne & Hn & Hw) Hrest]; subst. destruct (IH Hrest) as (vs & Hvs & E).
    destruct (encode_component_total _ Hw) as [v Hv]. exists (v :: vs). split; [by constructor|]. rewrite fmap_cons, E. cbn [zip_with]. f_equal. by eapply cookie_pair_set. }
  destruct Hpairs as (vs & Hvs & ->). clear Hset. destruct jar as [|c jar]; [by inversion Hvs|]. inversion Hvs as [|? v ? vs' Hv Hvs']; subst. cbn [zip_with].
  set (ps := zip_with (fun c v => ck_name c ++ 0x3d :: v) jar vs'). assert (Hsemi : Forall (fun p => 0x3b ∉ p) ((ck_name c ++ 0x3d :: v) :: ps)).
  { assert (Hone : forall c v, encodeURIComponent (ck_name c) = Ok (ck_name c) -> encodeURIComponent (ck_value c) = Ok v -> 0x3b ∉ ck_name c ++ 0x3d :: v).
    { intros c0 v0 Hn0 Hv0. rewrite not_elem_of_app, not_elem_of_cons. split_and!; [by eapply encoded_without|done|by eapply encoded_without]. }
    inversion Hjar as [|? ? (Hne & Hn & Hw) Hrest]; subst. constructor; [by apply Hone|]. unfold ps. clear -Hrest Hvs' Hone. induction Hvs' as [|c0 v0 l lv Hv0 _ IH]; [constructor|].
    inversion Hrest as [|? ? (_ & Hn0 & _) Hr]; subst. constructor; [by apply Hone|by apply IH]. }
  unfold parseCookieHeader. assert (Hnn : exists u t, cookie_header ((ck_name c ++ 0x3d :: v) :: ps) = u :: t).
  { unfold cookie_header. inversion Hjar as [|? ? (Hne & _) _]; subst. destruct (ck_name c) as [|u t] eqn:E; [done|]. destruct ps; cbn; by eexists _, _. }
  destruct Hnn as (u & t & Hnn). rewrite Hnn, <- Hnn. rewrite header_parts by done.
  inversion Hjar as [|? ? (Hne & Hn & Hw) Hrest]; subst. rewrite fmap_cons in Hnd. apply NoDup_cons in Hnd as [Hnin Hnd]. cbn [foldl].
  pose proof (add_cookie_pair [] (ck_name c) (ck_value c) (ck_name c) v [] (or_introl eq_refl) Hne Hn Hv eq_refl (not_elem_of_nil _)) as Hfirst. cbn [app] in Hfirst. rewrite Hfirst.
  assert (Hgo : forall acc, (forall d, d ∈ jar -> ck_name d ∉ acc.*1) -> foldl add_cookie acc (cons 0x20 <$> ps) = acc ++ ((fun c => (ck_name c, ck_value c)) <$> jar)).
  { unfold ps. clear -Hvs' Hrest Hnd. induction Hvs' as [|c0 v0 l lv Hv0 _ IH]; intros acc Hacc; [cbn; by rewrite app_nil_r|].
    inversion Hrest as [|? ? (Hne0 & Hn0 & _) Hr]; subst. rewrite fmap_cons in Hnd. apply NoDup_cons in Hnd as [Hnin0 Hnd0]. cbn [zip_with fmap list_fmap foldl].
    pose proof (add_cookie_pair [0x20] (ck_name c0) (ck_value c0) (ck_name c0) v0 acc (or_intror eq_refl) Hne0 Hn0 Hv0 eq_refl (Hacc c0 (list_elem_of_here _ _))) as Hnext. cbn [app] in Hnext. rewrite Hnext.
    rewrite IH; [by rewrite <- app_assoc|done|done|]. intros d Hd. rewrite fmap_app, not_elem_of_app. split; [by apply Hacc, list_elem_of_further|].
    intros Hin%list_elem_of_singleton. apply Hnin0. cbn in Hin. rewrite <- Hin. by apply list_elem_of_fmap_2. }
  rewrite Hgo; [done|]. intros d Hd Hin%list_elem_of_singleton. apply Hnin. cbn in Hin. rewrite <- Hin. by apply list_elem_of_fmap_2.
Qed.

Definition jar_example : list sent_cookie :=
  [SentCookie (js "sid") (js "a;b=c") (CookieOpts (Some 60) None (Some (js "/")) None true false (Some (js "Lax")));
   SentCookie (js "theme") [0xe9] (CookieOpts None None None None false false None)].

Lemma cookies_come_back_witness :
  parseCookieHeader (Some (js "sid=a%3Bb%3Dc; theme=%C3%A9")) = [(js "sid", js "a;b=c"); (js "theme", [0xe9])].
Proof.
  assert (Hset : Forall2 (fun c s => buildSetCookie (ck_name c) (ck_value c) (ck_opts c) = Ok s) jar_example
    [js "sid=a%3Bb%3Dc; Max-Age=60; Path=/; HttpOnly; SameSite=Lax"; js "theme=%C3%A9"]).
  { repeat constructor; vm_compute; reflexivity. }
  assert (Hjar : Forall (fun c => ck_name c <> [] /\ encodeURIComponent (ck_name c) = Ok (ck_name c) /\ well_formed (ck_value c) = true) jar_example).
  { repeat constructor; try (intros [=]); vm_compute; reflexivity. }
  assert (Hnd : NoDup (ck_name <$> jar_example)) by (apply (bool_decide_unpack _); vm_compute; exact I).
  assert (E1 : js "sid=a%3Bb%3Dc; theme=%C3%A9" = cookie_header (cookie_pair <$> [js "sid=a%3Bb%3Dc; Max-Age=60; Path=/; HttpOnly; SameSite=Lax"; js "theme=%C3%A9"])) by (vm_compute; reflexivity).
  rewrite E1. exact (cookies_come_back jar_example _ Hjar Hnd Hset).
Defined.

(* ------------------------------------------------------------------ *)
(** ** Fields *)

(** The values of a name, in order, and the property that holds them. *)
Definition field_values (k : jsstr) (ps : list (jsstr * jsstr)) : list jsstr := (filter (fun p => p.1 = k) ps).*2.
Definition grouped (vs : list jsstr) : option hvalue := match vs with [] => None | [v] => Some (HStr v) | _ => Some (HArr vs) end.

Lemma field_values_snoc k ps n v : field_values k (ps ++ [(n, v)]) = field_values k ps ++ (if bool_decide (n = k) then [v] else []).
Proof. unfold field_values. rewrite filter_app, fmap_app, filter_cons. cbn [fst]. case_bool_decide as Hn; [by rewrite decide_True|by rewrite decide_False]. Qed.

(** What is read of a list of parts: the pairs of [field_pairs], grouped. *)
Lemma parse_fields_pairs parts : forall done out, (forall k, prop k out = grouped (field_values k done)) ->
  match field_pairs parts with
  | Ok ps => exists out', parse_fields parts out = Ok out' /\ forall k, prop k out' = grouped (field_values k (done ++ ps))
  | Throw c e => parse_fields parts out = Throw c e
  end.
Proof.
  induction parts as [|part parts IH]; intros done out Hout; cbn [field_pairs parse_fields].
  - exists out. split; [done|]. intros k. by rewrite app_nil_r.
  - case_bool_decide; [by apply IH|]. destruct (field_pair part) as [[n v]|]; cbn [mbind outcome_bind]; [|done].
    specialize (IH (done ++ [(n, v)]) (add_field n v out)). destruct (field_pairs parts) as [ps|]; cbn [mbind outcome_bind].
    all: assert (Hadd : forall k, prop k (add_field n v out) = grouped (field_values k (done ++ [(n, v)]))).
    1,3: intros k; unfold add_field; rewrite prop_put, field_values_snoc; case_bool_decide as Hk; [|by rewrite app_nil_r];
         subst k; rewrite (Hout n); by destruct (field_values n done) as [|v1 [|v2 vs]].
    + destruct (IH Hadd) as (out' & He & Hk). exists out'. split; [done|]. intros k. by rewrite Hk, <- app_assoc.
    + by apply IH.
Qed.

(** A pair as a form sends it. *)
Definition encode_field (p : jsstr * jsstr) : outcome jsstr :=
  k ← encodeURIComponent p.1; v ← encodeURIComponent p.2; Ok (k ++ 0x3d :: v).

Lemma encode_field_ok p part : encode_field p = Ok part -> exists k v, part = k ++ 0x3d :: v /\ encodeURIComponent p.1 = Ok k /\ encodeURIComponent p.2 = Ok v.
Proof. unfold encode_field. destruct (encodeURIComponent p.1), (encodeURIComponent p.2); try done. cbn. intros <-%Ok_inj. by eexists _, _. Qed.

Lemma field_pair_encoded p part : encode_field p = Ok part -> field_pair part = Ok p /\ part <> [] /\ 0x26 ∉ part.
Proof.
  intros (k & v & -> & Hk & Hv)%encode_field_ok. split_and!; [|by destruct k|by rewrite not_elem_of_app, not_elem_of_cons; split_and!; [by eapply encoded_without|done|by eapply encoded_without]].
  unfold field_pair, decode_field. rewrite index_of_app by by eapply encoded_without. rewrite take_app_length, drop_S_app.
  rewrite !replace_none by by eapply encoded_without. rewrite (decode_encode_component _ _ Hk), (decode_encode_component _ _ Hv). by destruct p.
Qed.

Lemma split_join sep parts : Forall (fun p => sep ∉ p) parts -> parts <> [] -> split_on sep (join [sep] parts) = parts.
Proof.
  intros Hall Hne. destruct parts as [|p ps]; [done|]. clear Hne. revert p Hall. induction ps as [|q ps IH]; intros p Hall; inversion Hall as [|? ? Hp Hps]; subst.
  - by apply split_on_none.
  - change (join [sep] (p :: q :: ps)) with (p ++ sep :: join [sep] (q :: ps)). rewrite split_on_app by done. f_equal. by apply IH.
Qed.

Lemma field_pairs_encoded ps parts : Forall2 (fun p s => encode_field p = Ok s) ps parts ->
  field_pairs (split_on 0x26 (join [0x26] parts)) = Ok ps.
Proof.
  intros Hps. destruct (decide (parts = [])) as [->|Hne]; [inversion Hps; by vm_compute|]. rewrite split_join; [|clear -Hps|done].
  - clear Hne. induction Hps as [|p s ps parts Hp _ IH]; [done|]. apply field_pair_encoded in Hp as (Hp & Hne & _). cbn [field_pairs].
    rewrite bool_decide_eq_false_2 by done. by rewrite Hp, IH.
  - induction Hps as [|p s ps parts Hp _ IH]; constructor; [by apply field_pair_encoded in Hp as (_ & _ & ?)|done].
Qed.

(** A query comes back.  For a request whose path has no question mark
    and whose arguments are the URI-encoded pairs [ps] joined with [&],
    the query property reads without an error, and a name has there no
    property if it is the name of no pair, its value if it is that of one,
    and the array of its values in order if it is that of several. *)
Theorem query_groups_fields `{UpperTables} (w : wsi) (ps : list (jsstr * jsstr)) (parts : list jsstr) :
  Forall2 (fun p s => encode_field p = Ok s) ps parts ->
  lookup (js "uri-args") (ws_headers w) = Some (join [0x26] parts) ->
  0x3f ∉ or_string (ws_uri w) (js "/") ->
  exists out, query (new_ServerRequest w) = Ok out /\ (forall k, prop k out = grouped (field_values k ps)) /\
    sr_path (new_ServerRequest w) = or_string (ws_uri w) (js "/").
Proof.
  intros Hps Hargs Hq. unfold query, new_ServerRequest. cbn [sr_originalUrl sr_path]. rewrite Hargs. set (path := or_string (ws_uri w) (js "/")) in *. clearbody path.
  pose proof (field_pairs_encoded _ _ Hps) as Hpairs. destruct (join [0x26] parts) as [|u args] eqn:Ej.
  - rewrite app_nil_r, (index_of_absent 0x3f path) by done. exists []. split_and!; [done| |done]. intros k.
    destruct ps as [|p ps]; [done|]. inversion Hps as [|? s ? ss Hp _]; subst. apply field_pair_encoded in Hp as (_ & Hne & _). by destruct s, ss.
  - change (js "?" ++ u :: args) with (0x3f :: u :: args). rewrite index_of_app, take_app_length, drop_S_app by done.
    pose proof (parse_fields_pairs (split_on 0x26 (u :: args)) [] [] (fun k => eq_refl)) as Hp. rewrite Hpairs in Hp. destruct Hp as (out & -> & Hout). by exists out.
Qed.

#[local] Instance ascii_upper : UpperTables := {| upper_nonascii := fun s => s |}.
Definition wsi_example : wsi := Wsi (Some (js "get")) (Some (js "/find")) [(js "uri-args", js "q=a%20b&tag=x&tag=%26")].

Lemma query_groups_fields_witness : exists out, query (new_ServerRequest wsi_example) = Ok out /\
  prop (js "tag") out = Some (HArr [js "x"; js "&"]).
Proof.
  destruct (query_groups_fields wsi_example [(js "q", js "a b"); (js "tag", js "x"); (js "tag", js "&")] [js "q=a%20b"; js "tag=x"; js "tag=%26"]) as (out & Hq & Hk & _).
  - repeat constructor; vm_compute; reflexivity.
  - vm_compute; reflexivity.
  - apply (bool_decide_unpack _); vm_compute; exact I.
  - exists out. split; [exact Hq|]. rewrite (Hk (js "tag")). vm_compute; reflexivity.
Defined.
