(* ===== verification/Session.v ===== *)
(** * Sessions of [lib/lws/session.js]

    The store with its expiry, the generation of ids, and the middleware.
    The middleware is cut where it awaits: a request takes its steps
    ([SGet], [SOpen], the calls of its handlers and what is left of them
    behind their awaits, [SEnd]) in any interleaving with those of other
    requests.  What handlers and other middleware do to the response in
    between is arbitrary.  The values of a session are strings, its keys
    are neither array indices, which JavaScript enumerates first, nor the
    names of the methods; [genId] is what the step [SOpen] says it returned. *)

From S2P Require Import Prelude JsString JsNumber StreamBase ServerResponse Request.
Open Scope Z_scope.

(* ------------------------------------------------------------------ *)
(** ** [MemoryStore] *)

Abbreviation sdata := (list (jsstr * jsstr)) (only parsing).

Record stored := Stored { sd_data : list (jsstr * jsstr); sd_expires : Z }.
Abbreviation store := (gmap (list Z) stored) (only parsing).

(** Each method when the clock shows [now]. *)
Definition store_get (sid : jsstr) (now : Z) (m : store) : option sdata * store :=
  match m !! sid with
  | None => (None, m)
  | Some e => if sd_expires e <=? now then (None, delete sid m) else (Some (sd_data e), m)
  end.

Definition store_set (sid : jsstr) (data : sdata) (ttlMs now : Z) (m : store) : store := <[sid := Stored data (now + ttlMs)]> m.
Definition store_destroy (sid : jsstr) (m : store) : store := delete sid m.
Definition store_touch (sid : jsstr) (ttlMs now : Z) (m : store) : store :=
  match m !! sid with None => m | Some e => <[sid := Stored (sd_data e) (now + ttlMs)]> m end.

Definition expired (now : Z) (e : stored) : bool := sd_expires e <=? now.
Definition sweep (now : Z) (m : store) : nat * store :=
  (size (filter (fun p => expired now p.2 = true) m), filter (fun p => expired now p.2 = false) m).

(* ------------------------------------------------------------------ *)
(** ** Ids *)

Definition bytesToHex (u8 : bytes) : jsstr := concat ((fun b => padStart 2 0x30 (to_string 16 b)) <$> u8).

(** [getRandom] fills a buffer of the given size; without a context each
    byte is a [Math.random()], given as 53 bits, times 256. *)
Definition defaultGenId (n : nat) (getRandom : option (nat -> bytes)) (random : nat -> Z) : jsstr :=
  match getRandom with
  | Some f => bytesToHex (f n)
  | None => bytesToHex ((fun i => Z.land (Z.shiftr (random i * 256) 53) 0xff) <$> seq 0 n)
  end.

(* ------------------------------------------------------------------ *)
(** ** The data of a session *)

Definition data_delete (k : jsstr) (d : sdata) : sdata := filter (fun p => p.1 <> k) d.
Fixpoint data_put (k v : jsstr) (d : sdata) : sdata :=
  match d with [] => [(k, v)] | (n, w) :: d => if bool_decide (n = k) then (n, v) :: d else (n, w) :: data_put k v d end.

(** [JSON.stringify] of a string, and of an object of strings. *)
Definition json_char (ch : jsstr) : jsstr :=
  match ch with
  | [u] =>
    if u =? 0x22 then js "\" ++ [0x22] else if u =? 0x5c then js "\\"
    else if u =? 8 then js "\b" else if u =? 9 then js "\t" else if u =? 10 then js "\n" else if u =? 12 then js "\f" else if u =? 13 then js "\r"
    else if (u <? 0x20) || ((0xd800 <=? u) && (u <=? 0xdfff)) then js "\u" ++ padStart 4 0x30 (to_string 16 u)
    else [u]
  | _ => ch
  end.
Definition json_string (s : jsstr) : jsstr := [0x22] ++ concat (json_char <$> spread s) ++ [0x22].
Definition stringify (d : sdata) : jsstr :=
  js "{" ++ join (js ",") ((fun p => json_string p.1 ++ js ":" ++ json_string p.2) <$> d) ++ js "}".

Definition method_names : list jsstr := [js "destroy"; js "save"; js "touch"; js "regenerate"].
(** Canonical decimal numerals are array indices. *)
Definition array_index (k : jsstr) : bool := forallb is_digit k && match k with [] => false | [_] => true | u :: _ => negb (u =? 0x30) end.
Definition ordinary (k : jsstr) : bool := negb (bool_decide (k ∈ method_names)) && negb (array_index k).

(* ------------------------------------------------------------------ *)
(** ** Options *)

Record session_cookie := SessionCookie {
  sk_maxAge : option Z; sk_domain : option jsstr; sk_path : option jsstr; sk_expires : option jsstr;
  sk_httpOnly : option bool; sk_secure : option bool; sk_sameSite : option jsstr }.
Record session_opts := SessionOpts {
  so_name : option jsstr; so_cookie : session_cookie; so_resave : bool; so_saveUninitialized : bool; so_rolling : option bool }.

Record config := Config {
  cf_name : jsstr; cf_ttlMs : Z; cf_cookieOpts : cookie_opts; cf_resave : bool; cf_saveUninitialized : bool; cf_rolling : bool }.

Definition session (opts : session_opts) : config :=
  let c := so_cookie opts in
  let ttlMs := default 86400000 (sk_maxAge c) in
  Config (default (js "sid") (so_name opts)) ttlMs
    (CookieOpts (Some (ttlMs / 1000)) (sk_domain c) (Some (default (js "/") (sk_path c))) (sk_expires c)
       (default true (sk_httpOnly c)) (default false (sk_secure c)) (Some (default (js "Lax") (sk_sameSite c))))
    (so_resave opts) (so_saveUninitialized opts) (default true (so_rolling opts)).

(* ------------------------------------------------------------------ *)
(** ** A request in the middleware *)

(** What is left of a call of [destroy] or [regenerate] behind its await. *)
Inductive pending := PendDestroy | PendRegenerate (preserved : sdata).

(** [ss_ended] is whether the call of the middleware rejected, once it has
    settled. *)
Record sess := Sess {
  ss_sid : jsstr; ss_data : sdata; ss_isNew : bool; ss_destroyed : bool; ss_initial : jsstr;
  ss_sessionID : jsstr; ss_res : response; ss_pending : list pending; ss_ended : option bool }.

Definition set_ss_data v s := Sess (ss_sid s) v (ss_isNew s) (ss_destroyed s) (ss_initial s) (ss_sessionID s) (ss_res s) (ss_pending s) (ss_ended s).
Definition set_ss_destroyed v s := Sess (ss_sid s) (ss_data s) (ss_isNew s) v (ss_initial s) (ss_sessionID s) (ss_res s) (ss_pending s) (ss_ended s).
Definition set_ss_new_id v s := Sess v (ss_data s) true (ss_destroyed s) (ss_initial s) v (ss_res s) (ss_pending s) (ss_ended s).
Definition set_ss_res v s := Sess (ss_sid s) (ss_data s) (ss_isNew s) (ss_destroyed s) (ss_initial s) (ss_sessionID s) v (ss_pending s) (ss_ended s).
Definition set_ss_pending v s := Sess (ss_sid s) (ss_data s) (ss_isNew s) (ss_destroyed s) (ss_initial s) (ss_sessionID s) (ss_res s) v (ss_ended s).
Definition set_ss_ended v s := Sess (ss_sid s) (ss_data s) (ss_isNew s) (ss_destroyed s) (ss_initial s) (ss_sessionID s) (ss_res s) (ss_pending s) v.

(** Waiting for the store, with the id and the data it found; in the
    handlers; or rejected before they were called. *)
Inductive phase := Fetched (found : option (jsstr * sdata)) | InHandlers (s : sess) | Failed.

Record world := World { wd_store : store; wd_requests : gmap nat phase; wd_generated : list jsstr }.
Definition initial_world : world := World ∅ ∅ [].
Definition set_request (r : nat) (p : phase) (w : world) : world := World (wd_store w) (<[r := p]> (wd_requests w)) (wd_generated w).
Definition upd_store (f : store -> store) (w : world) : world := World (f (wd_store w)) (wd_requests w) (wd_generated w).
Definition add_generated (id : jsstr) (w : world) : world := World (wd_store w) (wd_requests w) (id :: wd_generated w).

Section Middleware.
Context (cfg : config).

(** Up to the await of [store.get]. *)
Definition begin (r : nat) (cookies : list (jsstr * jsstr)) (now : Z) (w : world) : world :=
  match lookup (cf_name cfg) cookies with
  | Some ((_ :: _) as sid) =>
    let '(fetched, m) := store_get sid now (wd_store w) in
    set_request r (Fetched ((fun d => (sid, d)) <$> fetched)) (upd_store (fun _ => m) w)
  | _ => set_request r (Fetched None) w
  end.

(** From there to the call of [next]; [id] is what [genId] returns when it
    is called, [res] the response at that time. *)
Definition open (r : nat) (found : option (jsstr * sdata)) (id : jsstr) (res : response) (w : world) : world :=
  let '(sid, data, isNew) := match found with Some (sid, d) => (sid, d, false) | None => (id, [], true) end in
  let w := if isNew then add_generated id w else w in
  let s := Sess sid data isNew false (stringify data) sid res [] None in
  if isNew || cf_rolling cfg then
    match cookie (cf_name cfg) sid (cf_cookieOpts cfg) res with
    | (Ok _, res) => set_request r (InHandlers (set_ss_res res s)) w
    | (Throw _ _, _) => set_request r Failed w
    end
  else set_request r (InHandlers s) w.

(** What handlers do with the session; [HResponse] is anything that
    happens to the response meanwhile. *)
Inductive handler_op := HPut (k v : jsstr) | HDelete (k : jsstr) | HDestroy | HSave | HTouch | HRegenerate | HResponse (res : response).

Definition handler_call (r : nat) (op : handler_op) (now : Z) (s : sess) (w : world) : world :=
  match op with
  | HPut k v => set_request r (InHandlers (set_ss_data (data_put k v (ss_data s)) s)) w
  | HDelete k => set_request r (InHandlers (set_ss_data (data_delete k (ss_data s)) s)) w
  | HDestroy => set_request r (InHandlers (set_ss_pending (ss_pending s ++ [PendDestroy]) (set_ss_destroyed true s))) (upd_store (store_destroy (ss_sid s)) w)
  | HSave => upd_store (store_set (ss_sid s) (ss_data s) (cf_ttlMs cfg) now) w
  | HTouch => upd_store (store_touch (ss_sid s) (cf_ttlMs cfg) now) w
  | HRegenerate => set_request r (InHandlers (set_ss_pending (ss_pending s ++ [PendRegenerate (ss_data s)]) s)) (upd_store (store_destroy (ss_sid s)) w)
  | HResponse res => set_request r (InHandlers (set_ss_res res s)) w
  end.

(** The rest of [destroy] and of [regenerate]; the latter ends early when
    the cookie is refused. *)
Definition resume (r : nat) (p : pending) (id : jsstr) (now : Z) (s : sess) (w : world) : world :=
  match p with
  | PendDestroy =>
    let s := set_ss_data [] s in
    let res := if rp_headersSent (ss_res s) then ss_res s
               else (clearCookie (cf_name cfg) (CookieOpts None (co_domain (cf_cookieOpts cfg)) (co_path (cf_cookieOpts cfg)) None false false None) (ss_res s)).2 in
    set_request r (InHandlers (set_ss_res res s)) w
  | PendRegenerate preserved =>
    let s := set_ss_new_id id s in
    let w := add_generated id w in
    if rp_headersSent (ss_res s) then set_request r (InHandlers s) (upd_store (store_set id preserved (cf_ttlMs cfg) now) w) else
    match cookie (cf_name cfg) id (cf_cookieOpts cfg) (ss_res s) with
    | (Ok _, res) => set_request r (InHandlers (set_ss_res res s)) (upd_store (store_set id preserved (cf_ttlMs cfg) now) w)
    | (Throw _ _, res) => set_request r (InHandlers (set_ss_res res s)) w
    end
  end.

(** The [finally] block; a [return] in it drops what [next] has thrown. *)
Definition finish (r : nat) (threw : bool) (now : Z) (s : sess) (w : world) : world :=
  let settled rejects := set_request r (InHandlers (set_ss_ended (Some rejects) s)) w in
  if ss_destroyed s then settled false else
  let populated := negb (bool_decide (ss_data s = [])) in
  let changed := negb (bool_decide (stringify (ss_data s) = ss_initial s)) in
  if (ss_isNew s && negb populated && negb (cf_saveUninitialized cfg)) || (negb changed && negb (cf_resave cfg) && negb (cf_rolling cfg)) then settled false else
  if changed || cf_resave cfg || negb (cf_rolling cfg) then upd_store (store_set (ss_sid s) (ss_data s) (cf_ttlMs cfg) now) (settled threw)
  else upd_store (store_touch (ss_sid s) (cf_ttlMs cfg) now) (settled threw).

(* ------------------------------------------------------------------ *)
(** ** Steps *)

Inductive sevent :=
| SGet (r : nat) (cookies : list (jsstr * jsstr))
| SOpen (r : nat) (id : jsstr) (res : response)
| SCall (r : nat) (op : handler_op)
| SResume (r i : nat) (id : jsstr)
| SEnd (r : nat) (threw : bool)
| SSweep.

Definition allowed (op : handler_op) : bool := match op with HPut k _ => ordinary k | HDelete k => ordinary k | _ => true end.

(** An event at the time the clock shows, where it can happen. *)
Definition sstep (now : Z) (e : sevent) (w : world) : option world :=
  match e with
  | SGet r cookies => match wd_requests w !! r with None => Some (begin r cookies now w) | Some _ => None end
  | SOpen r id res => match wd_requests w !! r with Some (Fetched found) => Some (open r found id res w) | _ => None end
  | SCall r op => match wd_requests w !! r with Some (InHandlers s) => if allowed op then Some (handler_call r op now s w) else None | _ => None end
  | SResume r i id =>
    match wd_requests w !! r with
    | Some (InHandlers s) => p ← ss_pending s !! i; Some (resume r p id now (set_ss_pending (take i (ss_pending s) ++ drop (S i) (ss_pending s)) s) w)
    | _ => None
    end
  | SEnd r threw =>
    match wd_requests w !! r with
    | Some (InHandlers s) => match ss_ended s with None => Some (finish r threw now s w) | Some _ => None end
    | _ => None
    end
  | SSweep => Some (upd_store (fun m => (sweep now m).2) w)
  end.

Fixpoint srun (evs : list (Z * sevent)) (w : world) : option world :=
  match evs with [] => Some w | (t, e) :: evs => w ← sstep t e w; srun evs w end.
End Middleware.
