(* ===== verification/SessionProps.v ===== *)
(** * What sessions promise

    The store against a log of its writes, the shape of ids, and what holds
    of every interleaving of requests: ids come from the generator only,
    saved data comes back to the client that shows the cookie, and what was
    destroyed stays gone. *)

From S2P Require Import Prelude JsString JsNumber Percent Utf8 UriComponent StreamBase ServerResponse Request RequestProps Session.
Open Scope Z_scope.

#[local] Arguments js : simpl never.

(* ------------------------------------------------------------------ *)
(** ** The store against the log of its writes *)

Inductive store_op := StGet (k : jsstr) | StSet (k : jsstr) (d : list (jsstr * jsstr)) (ttl : Z) | StDestroy (k : jsstr) | StTouch (k : jsstr) (ttl : Z) | StSweep.

(** The answers of the gets, each operation at its time. *)
Fixpoint store_run (ops : list (Z * store_op)) (m : gmap (list Z) stored) : list (option (list (jsstr * jsstr))) :=
  match ops with
  | [] => []
  | (t, StGet k) :: ops => let '(r, m) := store_get k t m in r :: store_run ops m
  | (t, StSet k d ttl) :: ops => store_run ops (store_set k d ttl t m)
  | (t, StDestroy k) :: ops => store_run ops (store_destroy k m)
  | (t, StTouch k ttl) :: ops => store_run ops (store_touch k ttl t m)
  | (t, StSweep) :: ops => store_run ops (sweep t m).2
  end.

(** The specification keeps every write, newest first, forgets nothing
    and knows no sweep. *)
Fixpoint written (k : jsstr) (log : list (Z * store_op)) : option (list (jsstr * jsstr) * Z) :=
  match log with
  | [] => None
  | (t, op) :: log =>
    match op with
    | StSet k' d ttl => if bool_decide (k' = k) then Some (d, t + ttl) else written k log
    | StDestroy k' => if bool_decide (k' = k) then None else written k log
    | StTouch k' ttl => if bool_decide (k' = k) then p ← written k log; Some (p.1, t + ttl) else written k log
    | _ => written k log
    end
  end.

Definition log_get (k : jsstr) (t : Z) (log : list (Z * store_op)) : option (list (jsstr * jsstr)) :=
  p ← written k log; if t <? p.2 then Some p.1 else None.

Fixpoint log_run (ops log : list (Z * store_op)) : list (option (list (jsstr * jsstr))) :=
  match ops with
  | [] => []
  | (t, op) :: ops => match op with StGet k => [log_get k t log] | _ => [] end ++ log_run ops ((t, op) :: log)
  end.

(** Times do not go back, and nobody touches what has expired. *)
Fixpoint orderly (now : Z) (ops log : list (Z * store_op)) : Prop :=
  match ops with
  | [] => True
  | (t, op) :: ops => now <= t /\
    match op with StTouch k _ => match written k log with Some (_, e) => t < e | None => True end | _ => True end /\ orderly t ops ((t, op) :: log)
  end.

Definition store_sim (now : Z) (m : gmap (list Z) stored) (log : list (Z * store_op)) : Prop := forall k,
  match written k log with
  | None => m !! k = None
  | Some (d, e) => m !! k = Some (Stored d e) \/ (m !! k = None /\ e <= now)
  end.

Lemma store_sim_later t t' m log : t <= t' -> store_sim t m log -> store_sim t' m log.
Proof. intros Ht Hs k. specialize (Hs k). destruct (written k log) as [[d e]|]; [|done]. destruct Hs as [|[? ?]]; [by left|right; split; [done|lia]]. Qed.

Lemma store_get_sim k t m log : store_sim t m log -> (store_get k t m).1 = log_get k t log /\ store_sim t (store_get k t m).2 log.
Proof.
  intros Hs. pose proof (Hs k) as Hk. unfold store_get, log_get. destruct (written k log) as [[d e]|] eqn:Ew; cbn [mbind option_bind fst snd].
  - destruct Hk as [-> | [-> Hexp]]; cbn [sd_expires sd_data].
    + destruct (Z.leb_spec e t), (Z.ltb_spec t e); try lia; (split; [done|]); [|done]. intros k'. cbn [snd]. destruct (decide (k' = k)) as [->|Hne].
      * rewrite Ew. right. by rewrite lookup_delete_eq.
      * rewrite lookup_delete_ne by done. apply Hs.
    + split; [|done]. by destruct (Z.ltb_spec t e); [lia|].
  - by rewrite Hk.
Qed.

Lemma lookup_sweep t m k : (sweep t m).2 !! k = match m !! k with Some e => if sd_expires e <=? t then None else Some e | None => None end.
Proof.
  unfold sweep. cbn [snd]. destruct (m !! k) as [e|] eqn:Ek.
  - unfold expired. destruct (sd_expires e <=? t) eqn:Ee.
    + apply map_lookup_filter_None. right. intros e' He'. rewrite Ek in He'. injection He' as <-. cbn. by rewrite Ee.
    + by apply map_lookup_filter_Some.
  - apply map_lookup_filter_None. by left.
Qed.

Lemma store_op_sim t op m log : store_sim t m log ->
  match op with StTouch k _ => match written k log with Some (_, e) => t < e | None => True end | _ => True end ->
  store_sim t (match op with StGet k => (store_get k t m).2 | StSet k d ttl => store_set k d ttl t m | StDestroy k => store_destroy k m
    | StTouch k ttl => store_touch k ttl t m | StSweep => (sweep t m).2 end) ((t, op) :: log).
Proof.
  intros Hs Hlive. destruct op as [k|k d ttl|k|k ttl|].
  - by apply store_get_sim.
  - intros k'. cbn. unfold store_set. destruct (bool_decide_reflect (k = k')) as [->|]; [left; by rewrite lookup_insert_eq|rewrite lookup_insert_ne by done; apply Hs].
  - intros k'. cbn. unfold store_destroy. destruct (bool_decide_reflect (k = k')) as [->|]; [by rewrite lookup_delete_eq|rewrite lookup_delete_ne by done; apply Hs].
  - intros k'. pose proof (Hs k) as Hk. cbn. unfold store_touch. destruct (bool_decide_reflect (k = k')) as [->|Hne].
    + destruct (written k' log) as [[d e]|]; cbn; [|by rewrite Hk]. destruct Hk as [-> | [_ He]]; [|lia]. left. by rewrite lookup_insert_eq.
    + destruct (m !! k); [rewrite lookup_insert_ne by done|]; apply Hs.
  - intros k'. rewrite lookup_sweep. pose proof (Hs k') as Hk. cbn. destruct (written k' log) as [[d e]|]; [|by rewrite Hk].
    destruct Hk as [-> | [-> He]]; [|by right]. cbn. destruct (Z.leb_spec e t); [by right|by left].
Qed.

(** While the clock does not run backwards and no expired entry is
    touched, the session store answers every [get] as the log of all its
    writes would: with the data last set under the id and not destroyed
    since, until its life, counted from the last set or touch, is over.
    Lazy deletion and sweeps are not to be seen. *)
Theorem session_store_refines_log (t : Z) (ops : list (Z * store_op)) : orderly t ops [] -> store_run ops ∅ = log_run ops [].
Proof.
  assert (Hgo : forall log m, store_sim t m log -> orderly t ops log -> store_run ops m = log_run ops log).
  { revert t. induction ops as [|[t' op] ops IH]; intros t log m Hs Ho; [done|]. destruct Ho as (Ht & Hlive & Ho). apply (store_sim_later t t') in Hs; [|done].
    pose proof (store_op_sim t' op m log Hs Hlive) as Hs'. cbn [store_run log_run]. destruct op as [k|k d ttl|k|k ttl|]; cbn [app]; try (by eapply IH).
    destruct (store_get_sim k t' m log Hs) as [Hr _]. destruct (store_get k t' m) as [r m']. cbn in Hr, Hs'. subst r. f_equal. by eapply IH. }
  apply Hgo. intros k. cbn. apply lookup_empty.
Qed.

Lemma session_store_refines_log_witness :
  let ops := [(0, StSet (js "a") [(js "k", js "v")] 10); (4, StTouch (js "a") 10); (9, StSweep); (12, StGet (js "a")); (14, StGet (js "a"))] in
  store_run ops ∅ = log_run ops [] /\ log_run ops [] = [Some [(js "k", js "v")]; None].
Proof.
  cbv zeta. split; [|vm_compute; reflexivity]. apply (session_store_refines_log 0).
  assert (E : bool_decide (js "a" = js "a") = true) by (vm_compute; reflexivity). cbn [orderly written]. rewrite E. repeat split; lia.
Defined.

(** A touch brings back a session that has expired and that nobody has
    asked for since. *)
Lemma touch_revives : store_run [(0, StSet (js "a") [] 10); (20, StTouch (js "a") 10); (21, StGet (js "a"))] ∅ = [Some []] /\
  store_run [(0, StSet (js "a") [] 10); (20, StSweep); (20, StTouch (js "a") 10); (21, StGet (js "a"))] ∅ = [None].
Proof. split; vm_compute; reflexivity. Qed.

(* ------------------------------------------------------------------ *)
(** ** Ids *)

Definition hex_digit (u : Z) : bool := is_digit u || ((0x61 <=? u) && (u <=? 0x66)).
Definition hex_byte (b : Z) : jsstr := padStart 2 0x30 (to_string 16 b).
Definition from_hex (u : Z) : Z := if u <=? 0x39 then u - 0x30 else u - 0x57.

Lemma hex_byte_spec b : is_byte b -> exists h l, hex_byte b = [h; l] /\ hex_digit h = true /\ hex_digit l = true /\ from_hex h * 16 + from_hex l = b.
Proof.
  intros Hb. assert (H := byte_ind (fun b => match hex_byte b with [h; l] => hex_digit h && hex_digit l && (from_hex h * 16 + from_hex l =? b) | _ => false end) ltac:(vm_compute; reflexivity) b Hb).
  cbv beta in H. destruct (hex_byte b) as [|h [|l [|]]]; try done. exists h, l. split; [done|]. rewrite !andb_true_iff, Z.eqb_eq in H. tauto.
Qed.

Lemma bytes_to_hex_spec u8 : Forall is_byte u8 -> length (bytesToHex u8) = (2 * length u8)%nat /\ Forall (fun u => hex_digit u = true) (bytesToHex u8).
Proof.
  unfold bytesToHex. induction 1 as [|b u8 Hb _ [IHl IHd]]; [done|]. rewrite fmap_cons. cbn [concat]. change (padStart 2 0x30 (to_string 16 b)) with (hex_byte b).
  destruct (hex_byte_spec b Hb) as (h & l & -> & Hh & Hl & _). split; [rewrite length_app, IHl; cbn; lia|]. cbn. by repeat constructor.
Qed.

Lemma bytes_to_hex_inj u8 : forall v8, Forall is_byte u8 -> Forall is_byte v8 -> bytesToHex u8 = bytesToHex v8 -> u8 = v8.
Proof.
  unfold bytesToHex. induction u8 as [|b u8 IH]; intros [|c v8] Hu Hv E; [done| | |]; inversion Hu; inversion Hv; subst; clear Hu Hv.
  1,2: destruct (hex_byte_spec _ ltac:(eassumption)) as (h & l & Hx & _); unfold hex_byte in Hx; rewrite fmap_cons in E; cbn [concat] in E; by rewrite Hx in E.
  destruct (hex_byte_spec b) as (h & l & Hb & _ & _ & Eb); [done|]. destruct (hex_byte_spec c) as (h' & l' & Hc & _ & _ & Ec); [done|].
  unfold hex_byte in Hb, Hc. rewrite !fmap_cons in E. cbn [concat] in E. rewrite Hb, Hc in E. injection E as -> -> E. f_equal; [congruence|by apply IH].
Qed.

Lemma hex_component s : Forall (fun u => hex_digit u = true) s -> encodeURIComponent s = Ok s.
Proof.
  intros Hs. unfold encodeURIComponent. rewrite spread_ascii.
  - induction Hs as [|u s Hu _ IH]; [done|]. rewrite fmap_cons. cbn [encode_chars]. rewrite IH.
    assert (E : encode_char [u] = Ok [u]); [|by rewrite E]. unfold encode_char. unfold hex_digit, is_digit in Hu.
    assert (Hun : uri_unescaped u = true). { unfold uri_unescaped, is_alnum, is_alpha, is_upper, is_lower, is_digit. rewrite !orb_true_iff. left. lia. }
    by rewrite Hun.
  - eapply Forall_impl; [exact Hs|]. cbv beta. unfold hex_digit, is_digit. intros u Hu. lia.
Qed.

(** What is known of a source of random bytes: it fills the buffer. *)
Definition fills (n : nat) (getRandom : option (nat -> bytes)) : Prop :=
  match getRandom with Some f => length (f n) = n /\ Forall is_byte (f n) | None => True end.

(** C28: The shape of session ids.  From a native generator that fills its
    buffer with [n] bytes, or from any random numbers, the default id has
    exactly [2 n] units, all lower-case hexadecimal digits, so that a
    cookie carries it as it is; and generators that give the same id have
    given the same bytes, so that an id is as hard to guess as they are. *)
Theorem session_id_bounds (n : nat) (getRandom : option (nat -> bytes)) (random : nat -> Z) : fills n getRandom ->
  let id := defaultGenId n getRandom random in
  length id = (2 * n)%nat /\ Forall (fun u => hex_digit u = true) id /\ encodeURIComponent id = Ok id /\
  forall f g random', getRandom = Some f -> fills n (Some g) -> defaultGenId n (Some g) random' = id -> g n = f n.
Proof.
  intros Hf. cbv zeta. assert (Hb : exists u8, length u8 = n /\ Forall is_byte u8 /\ defaultGenId n getRandom random = bytesToHex u8 /\ forall f, getRandom = Some f -> f n = u8).
  { destruct getRandom as [f|]; [destruct Hf as [Hl Hf]; exists (f n); split_and!; [done|done|done|congruence]|].
    eexists. split; [|split; [|split; [reflexivity|done]]]; [by rewrite length_fmap, length_seq|].
    apply Forall_fmap, Forall_forall. intros i _. unfold is_byte. cbn. change 0xff with (Z.ones 8). rewrite Z.land_ones by lia. apply Z.mod_pos_bound. lia. }
  destruct Hb as (u8 & Hl & Hu & -> & Hsrc). destruct (bytes_to_hex_spec u8 Hu) as [Hlen Hd]. split_and!; [by rewrite Hlen, Hl|done|by apply hex_component|].
  intros f g random' Hfg [_ Hg] E. rewrite (Hsrc f Hfg). by apply bytes_to_hex_inj.
Qed.

Lemma session_id_bounds_witness : length (defaultGenId 16 (Some (fun n => seqZ 0 (Z.of_nat n))) (fun _ => 0)) = 32%nat.
Proof. apply (session_id_bounds 16 (Some (fun n => seqZ 0 (Z.of_nat n))) (fun _ => 0)). split; [reflexivity|]. apply (bool_decide_unpack _). vm_compute. exact I. Defined.

(* ------------------------------------------------------------------ *)
(** ** Ids come from the generator *)

Section Worlds.
Context (cfg : config).

(** The ids a request works with. *)
Definition phase_id (p : phase) : option jsstr :=
  match p with Fetched (Some (sid, _)) => Some sid | InHandlers s => Some (ss_sid s) | _ => None end.
Definition shown_id (p : phase) : option jsstr := match p with InHandlers s => Some (ss_sessionID s) | _ => None end.

Record adopted_none (w : world) : Prop := {
  an_store : forall sid, is_Some (wd_store w !! sid) -> sid ∈ wd_generated w;
  an_ids : forall r p sid, wd_requests w !! r = Some p -> phase_id p = Some sid -> sid ∈ wd_generated w;
  an_shown : forall r p, wd_requests w !! r = Some p -> shown_id p = None \/ shown_id p = phase_id p }.

(** What keeps it: a request with an id already known, and a store that
    gets no key that is not. *)
Lemma adopted_request r p w : adopted_none w -> (forall sid, phase_id p = Some sid -> sid ∈ wd_generated w) ->
  (shown_id p = None \/ shown_id p = phase_id p) -> adopted_none (set_request r p w).
Proof.
  intros [Hst Hids Hsh] Hp Hs. split; [exact Hst| |]; intros r' p'; cbn; [intros sid|]; destruct (decide (r' = r)) as [->|Hne];
    rewrite ?lookup_insert_eq, ?lookup_insert_ne by done; [intros [= <-]; apply Hp|apply Hids|by intros [= <-]|apply Hsh].
Qed.

Lemma adopted_store f w : adopted_none w -> (forall sid, is_Some (f (wd_store w) !! sid) -> is_Some (wd_store w !! sid) \/ sid ∈ wd_generated w) -> adopted_none (upd_store f w).
Proof. intros [Hst Hids Hsh] Hf. split; [|exact Hids|exact Hsh]. intros sid [?|?]%Hf; [by apply Hst|done]. Qed.

Lemma adopted_generated id w : adopted_none w -> adopted_none (add_generated id w).
Proof. intros [Hst Hids Hsh]. split; [| |exact Hsh]; cbn; intros; apply elem_of_cons; right; eauto. Qed.

Lemma store_set_keys sid d ttl t m k : is_Some (store_set sid d ttl t m !! k) -> is_Some (m !! k) \/ k = sid.
Proof. unfold store_set. destruct (decide (k = sid)) as [->|]; [by right|rewrite lookup_insert_ne by done; by left]. Qed.
Lemma store_destroy_keys sid m k : is_Some (store_destroy sid m !! k) -> is_Some (m !! k).
Proof. unfold store_destroy. intros [e [_ He]%lookup_delete_Some]. by exists e. Qed.
Lemma store_touch_keys sid ttl t m k : is_Some (store_touch sid ttl t m !! k) -> is_Some (m !! k).
Proof. unfold store_touch. destruct (m !! sid) as [e|] eqn:E; [|done]. destruct (decide (k = sid)) as [->|]; [intros _; by exists e|by rewrite lookup_insert_ne by done]. Qed.
Lemma store_get_keys sid t m k : is_Some ((store_get sid t m).2 !! k) -> is_Some (m !! k).
Proof. unfold store_get. destruct (m !! sid); [destruct (_ <=? _)|]; try done. cbn. apply store_destroy_keys. Qed.
Lemma sweep_keys t m k : is_Some ((sweep t m).2 !! k) -> is_Some (m !! k).
Proof. rewrite lookup_sweep. destruct (m !! k); [done|by intros [? ?]]. Qed.

Lemma adopted_set sid d ttl t w : adopted_none w -> sid ∈ wd_generated w -> adopted_none (upd_store (store_set sid d ttl t) w).
Proof. intros Hw Hs. apply adopted_store; [done|]. intros k [?| ->]%store_set_keys; [by left|by right]. Qed.
Lemma adopted_keys f w : adopted_none w -> (forall k, is_Some (f (wd_store w) !! k) -> is_Some (wd_store w !! k)) -> adopted_none (upd_store f w).
Proof. intros Hw Hf. apply adopted_store; [done|]. intros k ?%Hf. by left. Qed.

(** A session with an id the generator made. *)
Definition known (w : world) (s : sess) : Prop := ss_sid s ∈ wd_generated w /\ ss_sessionID s = ss_sid s.

Lemma known_request w r s : adopted_none w -> wd_requests w !! r = Some (InHandlers s) -> known w s.
Proof. intros Hw Hr. split; [by apply (an_ids _ Hw _ _ _ Hr)|]. destruct (an_shown _ Hw _ _ Hr) as [|E]; [done|]. by injection E. Qed.

Lemma adopted_known r s w : adopted_none w -> known w s -> adopted_none (set_request r (InHandlers s) w).
Proof. intros Hw [Hs E]. apply adopted_request; cbn; [done|by intros ? [= <-]|right; by rewrite E]. Qed.

Lemma begin_adopted r cookies t w : adopted_none w -> adopted_none (begin cfg r cookies t w).
Proof.
  intros Hw. unfold begin. destruct (lookup _ cookies) as [[|u sid]|]; try (by apply adopted_request; [|done|left]).
  destruct (store_get (u :: sid) t (wd_store w)) as [fetched m] eqn:Eg. apply adopted_request; [|cbn|by left].
  - apply adopted_keys; [done|]. intros k. pose proof (store_get_keys (u :: sid) t (wd_store w) k) as Hk. by rewrite Eg in Hk.
  - destruct fetched as [d|]; [|done]. intros sid' [= <-]. apply (an_store _ Hw). unfold store_get in Eg. destruct (wd_store w !! (u :: sid)); [by eexists|congruence].
Qed.

Lemma open_adopted r found id res w : adopted_none w -> wd_requests w !! r = Some (Fetched found) -> adopted_none (open cfg r found id res w).
Proof.
  intros Hw Hr. unfold open. assert (Hgo : forall sid d b s w', adopted_none w' -> sid ∈ wd_generated w' -> ss_sid s = sid -> ss_sessionID s = sid ->
    adopted_none (if (b : bool) then match ServerResponse.cookie (cf_name cfg) sid d res with (Ok _, res) => set_request r (InHandlers (set_ss_res res s)) w' | (Throw _ _, _) => set_request r Failed w' end
                  else set_request r (InHandlers s) w')).
  { intros sid d b s w' Hw' Hin E1 E2. destruct b; [destruct (ServerResponse.cookie _ _ _ _) as [[]]|]; apply adopted_request; try done; cbn; rewrite ?E1, ?E2; try (by left); try (by right); intros ? [= <-]; done. }
  destruct found as [[sid d]|]; apply Hgo; try done; [by apply (an_ids _ Hw _ _ _ Hr)|by apply adopted_generated|apply list_elem_of_here].
Qed.

Lemma handler_adopted r op t s w : adopted_none w -> known w s -> adopted_none (handler_call cfg r op t s w).
Proof.
  intros Hw Hs. destruct op; cbn [handler_call]; try (by apply adopted_known).
  - apply adopted_known; [|done]. apply adopted_keys; [done|]. apply store_destroy_keys.
  - by apply adopted_set, Hs.
  - apply adopted_keys; [done|]. apply store_touch_keys.
  - apply adopted_known; [|done]. apply adopted_keys; [done|]. apply store_destroy_keys.
Qed.

Lemma resume_adopted r p id t s w : adopted_none w -> known w s -> adopted_none (resume cfg r p id t s w).
Proof.
  intros Hw Hs. destruct p as [|preserved]; cbn [resume]; [by apply adopted_known|]. set (w' := add_generated id w).
  assert (Hw' : adopted_none w') by by apply adopted_generated. assert (Hid : id ∈ wd_generated w') by apply list_elem_of_here.
  assert (Hgo : forall s' w2, adopted_none w2 -> id ∈ wd_generated w2 -> ss_sid s' = id -> ss_sessionID s' = id -> adopted_none (set_request r (InHandlers s') w2)).
  { intros s' w2 Hw2 Hid2 E1 E2. apply adopted_known; [done|]. split; congruence. }
  destruct (rp_headersSent _); [|destruct (ServerResponse.cookie _ _ _ _) as [[]]]; apply Hgo; try done; by apply adopted_set.
Qed.

Lemma finish_adopted r threw t s w : adopted_none w -> known w s -> adopted_none (finish cfg r threw t s w).
Proof.
  intros Hw Hs. unfold finish. assert (Hset : forall b, adopted_none (set_request r (InHandlers (set_ss_ended (Some b) s)) w)) by (intros b; by apply adopted_known).
  destruct (ss_destroyed s); [done|]. destruct (_ || _); [done|]. destruct (_ || _); [by apply adopted_set, Hs|]. apply adopted_keys; [done|]. apply store_touch_keys.
Qed.

Lemma sstep_adopted t e w w' : adopted_none w -> sstep cfg t e w = Some w' -> adopted_none w'.
Proof.
  intros Hw. unfold sstep. destruct e as [r cookies|r id res|r op|r i id|r threw|].
  - destruct (wd_requests w !! r); [done|]. intros [= <-]. by apply begin_adopted.
  - destruct (wd_requests w !! r) as [[found| |]|] eqn:Hr; try done. intros [= <-]. by apply open_adopted.
  - destruct (wd_requests w !! r) as [[|s|]|] eqn:Hr; try done. destruct (allowed op); [|done]. intros [= <-]. apply handler_adopted; [done|by eapply known_request].
  - destruct (wd_requests w !! r) as [[|s|]|] eqn:Hr; try done. destruct (ss_pending s !! i) as [p|]; [|done]. cbn. intros [= <-].
    apply resume_adopted; [done|]. by apply (known_request w r s).
  - destruct (wd_requests w !! r) as [[|s|]|] eqn:Hr; try done. destruct (ss_ended s); [done|]. intros [= <-]. apply finish_adopted; [done|by eapply known_request].
  - intros [= <-]. apply adopted_keys; [done|]. apply sweep_keys.
Qed.

Lemma srun_adopted evs : forall w w', adopted_none w -> srun cfg evs w = Some w' -> adopted_none w'.
Proof.
  induction evs as [|[t e] evs IH]; intros w w' Hw; cbn [srun]; [by intros [= <-]|]. destruct (sstep cfg t e w) as [w1|] eqn:E; [|done]. cbn.
  apply IH. by eapply sstep_adopted.
Qed.

Lemma initial_adopted : adopted_none initial_world.
Proof. split; [intros sid [e He]|intros r p sid Hp|intros r p Hp]; cbn in *; by rewrite lookup_empty in *. Qed.
End Worlds.

(** C27: No session fixation.  However requests interleave and whatever
    cookies clients send, a session a handler sees has an id the generator
    made, the one it is shown, and the store has no other keys; a request
    whose cookie holds anything else starts with no session found, and is
    opened under the id that is generated for it. *)
Theorem sessions_not_adopted (cfg : config) (evs : list (Z * sevent)) (w : world) : srun cfg evs initial_world = Some w ->
  (forall r s, wd_requests w !! r = Some (InHandlers s) -> ss_sid s ∈ wd_generated w /\ ss_sessionID s = ss_sid s) /\
  (forall sid, is_Some (wd_store w !! sid) -> sid ∈ wd_generated w) /\
  (forall r cookies t id res w1 w2, (forall sid, lookup (cf_name cfg) cookies = Some sid -> sid ∉ wd_generated w) ->
    sstep cfg t (SGet r cookies) w = Some w1 -> sstep cfg t (SOpen r id res) w1 = Some w2 ->
    wd_requests w2 !! r = Some Failed \/ exists s, wd_requests w2 !! r = Some (InHandlers s) /\ ss_sid s = id /\ ss_data s = [] /\ ss_isNew s = true).
Proof.
  intros Hrun. pose proof (srun_adopted cfg evs _ _ initial_adopted Hrun) as Hw. split; [intros r s Hr; by apply (known_request w r s)|]. split; [apply Hw|].
  intros r cookies t id res w1 w2 Hck H1 H2. assert (Hf : wd_requests w1 !! r = Some (Fetched None)).
  { cbn in H1. destruct (wd_requests w !! r); [done|]. injection H1 as <-. unfold begin. destruct (lookup (cf_name cfg) cookies) as [[|u sid]|]; try by (cbn; rewrite lookup_insert_eq).
    assert (E : wd_store w !! (u :: sid) = None). { destruct (wd_store w !! (u :: sid)) eqn:E; [|done]. exfalso. apply (Hck _ eq_refl), (an_store _ Hw). by eexists. }
    unfold store_get. rewrite E. cbn. by rewrite lookup_insert_eq. }
  unfold sstep in H2. rewrite Hf in H2. injection H2 as <-. unfold open. cbn [orb]. destruct (ServerResponse.cookie _ _ _ _) as [[]]; cbn; rewrite lookup_insert_eq; [right|by left].
  eexists. split; [reflexivity|]. done.
Qed.

Definition session_example : config := session (SessionOpts None (SessionCookie None None None None None None None) false false None).
Definition events_example : list (Z * sevent) :=
  [(0, SGet 1 [(js "sid", js "chosen")]); (1, SOpen 1 (js "0a1b") new_ServerResponse); (2, SCall 1 (HPut (js "user") (js "ann"))); (3, SEnd 1 false)].
Definition world_example : world := default initial_world (srun session_example events_example initial_world).

Lemma sessions_not_adopted_witness : srun session_example events_example initial_world = Some world_example /\
  js "0a1b" ∈ wd_generated world_example /\ js "chosen" ∉ wd_generated world_example.
Proof.
  assert (Hrun : srun session_example events_example initial_world = Some world_example) by (vm_compute; reflexivity).
  split; [exact Hrun|]. split; [|apply (bool_decide_unpack _); vm_compute; exact I].
  apply (proj1 (proj2 (sessions_not_adopted _ _ _ Hrun))). vm_compute. by eexists.
Defined.

(* ------------------------------------------------------------------ *)
(** ** What others leave alone *)

(** The events that write the entry of [sid]. *)
Definition writing (f : sess -> bool) (sid : jsstr) (w : world) (r : nat) : bool :=
  match wd_requests w !! r with Some (InHandlers s) => bool_decide (ss_sid s = sid) && f s | _ => false end.
Definition disturbs (sid : jsstr) (w : world) (e : sevent) : bool :=
  match e with
  | SCall r (HSave | HTouch | HDestroy | HRegenerate) => writing (fun _ => true) sid w r
  | SEnd r _ => writing (fun s => negb (ss_destroyed s)) sid w r
  | SResume _ _ id => bool_decide (id = sid)
  | _ => false
  end.

(** A run without them. *)
Fixpoint quiet (cfg : config) (sid : jsstr) (evs : list (Z * sevent)) (w : world) : bool :=
  match evs with
  | [] => true
  | (t, e) :: evs => negb (disturbs sid w e) && match sstep cfg t e w with Some w' => quiet cfg sid evs w' | None => true end
  end.

Lemma not_writing f sid w r s : writing f sid w r = false -> wd_requests w !! r = Some (InHandlers s) -> f s = true -> ss_sid s <> sid.
Proof. unfold writing. intros Hw Hr Hf <-. rewrite Hr, Hf, bool_decide_eq_true_2 in Hw by done. done. Qed.

(** The entry of [sid] stays, or goes because it has expired. *)
Definition entry_kept (sid : jsstr) (t : Z) (m m' : gmap (list Z) stored) : Prop :=
  m' !! sid = m !! sid \/ (m' !! sid = None /\ exists e, m !! sid = Some e /\ sd_expires e <= t).

Lemma session_kept_refl sid t m : entry_kept sid t m m.
Proof. by left. Qed.
Lemma kept_set sid k d ttl t m : k <> sid -> entry_kept sid t m (store_set k d ttl t m).
Proof. intros Hk. left. unfold store_set. by rewrite lookup_insert_ne. Qed.
Lemma kept_destroy sid k t m : k <> sid -> entry_kept sid t m (store_destroy k m).
Proof. intros Hk. left. unfold store_destroy. by rewrite lookup_delete_ne. Qed.
Lemma kept_touch sid k ttl t m : k <> sid -> entry_kept sid t m (store_touch k ttl t m).
Proof. intros Hk. left. unfold store_touch. destruct (m !! k); [by rewrite lookup_insert_ne|done]. Qed.
Lemma kept_get sid k t m : entry_kept sid t m (store_get k t m).2.
Proof.
  unfold store_get. destruct (m !! k) as [e|] eqn:E; [|by left]. destruct (Z.leb_spec (sd_expires e) t); [|by left]. cbn.
  destruct (decide (k = sid)) as [->|Hk]; [right; rewrite lookup_delete_eq; split; [done|by exists e]|left; by rewrite lookup_delete_ne].
Qed.
Lemma kept_sweep sid t m : entry_kept sid t m (sweep t m).2.
Proof. unfold entry_kept. rewrite lookup_sweep. destruct (m !! sid) as [e|]; [|by left]. destruct (Z.leb_spec (sd_expires e) t); [right; split; [done|by exists e]|by left]. Qed.

#[local] Hint Resolve session_kept_refl kept_set kept_destroy kept_touch kept_get kept_sweep : kept.

Lemma open_store cfg r found id res w : wd_store (open cfg r found id res w) = wd_store w.
Proof. unfold open. destruct found as [[sid d]|]; cbn [orb]; [destruct (cf_rolling cfg)|]; try destruct (ServerResponse.cookie _ _ _ _) as [[]]; done. Qed.

Lemma quiet_step cfg sid t e w w' : disturbs sid w e = false -> sstep cfg t e w = Some w' -> entry_kept sid t (wd_store w) (wd_store w').
Proof.
  intros Hd. unfold sstep. destruct e as [r cookies|r id res|r op|r i id|r threw|]; [| | | | |intros [= <-]; cbn; auto with kept].
  all: destruct (wd_requests w !! r) as [[found|s|]|] eqn:E; try done.
  - intros [= <-]. unfold begin. destruct (lookup _ cookies) as [[|u k]|]; cbn; auto with kept.
    pose proof (kept_get sid (u :: k) t (wd_store w)) as Hk. by destruct (store_get (u :: k) t (wd_store w)).
  - intros [= <-]. rewrite open_store. auto with kept.
  - destruct (allowed op); [|done]. intros [= <-]. destruct op; cbn; auto with kept; cbn in Hd; pose proof (not_writing _ _ _ _ _ Hd E eq_refl); auto with kept.
  - destruct (ss_pending s !! i) as [[|d]|]; try done; cbn; intros [= <-]; [cbn; auto with kept|].
    cbn in Hd. apply bool_decide_eq_false in Hd. destruct (rp_headersSent _); [|destruct (ServerResponse.cookie _ _ _ _) as [[]]]; cbn; auto with kept.
  - destruct (ss_ended s); [done|]. intros [= <-]. unfold finish. destruct (ss_destroyed s) eqn:Ed; [cbn; auto with kept|]. destruct (_ || _); [cbn; auto with kept|].
    pose proof (not_writing _ _ _ _ _ Hd E (proj2 (negb_true_iff _) Ed)). destruct (_ || _); cbn; auto with kept.
Qed.

Lemma quiet_run cfg sid limit evs : forall w w', quiet cfg sid evs w = true -> srun cfg evs w = Some w' -> Forall (fun te => te.1 <= limit) evs ->
  entry_kept sid limit (wd_store w) (wd_store w').
Proof.
  induction evs as [|[t e] evs IH]; intros w w' Hq; cbn [srun]; [intros [= <-]; auto with kept|]. apply andb_true_iff in Hq as [Hd%negb_true_iff Hq].
  destruct (sstep cfg t e w) as [w1|] eqn:E; [|done]. cbn. intros Hrun [Ht Hts]%Forall_cons. cbn in Ht.
  pose proof (quiet_step cfg sid t e w w1 Hd E) as H1. pose proof (IH w1 w' Hq Hrun Hts) as H2.
  destruct H1 as [E1|[E1 (e1 & He1 & Hx1)]], H2 as [E2|[E2 (e2 & He2 & Hx2)]].
  - left. congruence.
  - right. split; [done|]. exists e2. split; [congruence|done].
  - right. split; [congruence|]. exists e1. split; [done|lia].
  - right. split; [done|]. exists e1. split; [done|lia].
Qed.

Lemma quiet_gone cfg sid evs : forall w w', quiet cfg sid evs w = true -> srun cfg evs w = Some w' -> wd_store w !! sid = None -> wd_store w' !! sid = None.
Proof.
  induction evs as [|[t e] evs IH]; intros w w' Hq; cbn [srun]; [by intros [= <-]|]. apply andb_true_iff in Hq as [Hd%negb_true_iff Hq].
  destruct (sstep cfg t e w) as [w1|] eqn:E; [|done]. cbn. intros Hrun Hn. apply (IH w1); [done|done|].
  destruct (quiet_step cfg sid t e w w1 Hd E) as [->|[? _]]; done.
Qed.

(* ------------------------------------------------------------------ *)
(** ** What is saved comes back, what is destroyed does not *)

(** The header a client sends that keeps the one cookie it was given. *)
Lemma one_cookie_back name sid opts c : name <> [] -> encodeURIComponent name = Ok name -> buildSetCookie name sid opts = Ok c ->
  parseCookieHeader (Some (cookie_header [cookie_pair c])) = [(name, sid)].
Proof.
  intros Hne Hn Hc. destruct (encodeURIComponent sid) as [v|cl m] eqn:Hv; [|unfold buildSetCookie in Hc; by rewrite Hn, Hv in Hc].
  rewrite (cookie_pair_set _ _ _ _ _ _ Hn Hv Hc). unfold parseCookieHeader. change (cookie_header [name ++ 0x3d :: v]) with (name ++ 0x3d :: v).
  pose proof (add_cookie_pair [] name sid name v [] (or_introl eq_refl) Hne Hn Hv eq_refl (not_elem_of_nil _)) as Hfirst. cbn [app] in Hfirst.
  rewrite split_on_none; [|rewrite not_elem_of_app, not_elem_of_cons; split_and!; [by eapply encoded_without|done|by eapply encoded_without]].
  cbn [foldl]. rewrite Hfirst. by destruct name.
Qed.

Lemma finish_writes cfg r threw t s w : ss_destroyed s = false -> stringify (ss_data s) <> ss_initial s -> (ss_isNew s = true -> ss_data s <> []) ->
  wd_store (finish cfg r threw t s w) = store_set (ss_sid s) (ss_data s) (cf_ttlMs cfg) t (wd_store w).
Proof.
  intros Hd Hc Hn. unfold finish. rewrite Hd, (bool_decide_eq_false_2 (stringify _ = _)) by done. cbn [negb andb orb]. rewrite orb_false_r.
  assert (E : (ss_isNew s && negb (negb (bool_decide (ss_data s = []))) && negb (cf_saveUninitialized cfg)) = false); [|by rewrite E].
  destruct (ss_isNew s); [|done]. by rewrite bool_decide_eq_false_2 by by apply Hn.
Qed.

Lemma begin_found cfg r cookies t w sid e : sid <> [] -> lookup (cf_name cfg) cookies = Some sid -> wd_store w !! sid = Some e -> t < sd_expires e ->
  wd_requests (begin cfg r cookies t w) !! r = Some (Fetched (Some (sid, sd_data e))).
Proof.
  intros Hne Hl He Ht. unfold begin. rewrite Hl. destruct sid as [|u k]; [done|]. unfold store_get. rewrite He. destruct (Z.leb_spec (sd_expires e) t); [lia|].
  cbn. by rewrite lookup_insert_eq.
Qed.

(** C26: Sessions come back.  A request that has changed its session and
    not destroyed it, nor left a new one empty, ends; whatever requests
    then do that do not write the same session, a request whose client
    shows the cookie it was given, before the life of the session is over,
    is opened with that data under that id, as an old session. *)
Theorem session_comes_back (cfg : config) (w w1 w2 w3 w4 : world) (r r' : nat) (s : sess) (threw : bool) (t t' t'' : Z) (evs : list (Z * sevent)) (c id : jsstr) (res res' : response) :
  wd_requests w !! r = Some (InHandlers s) -> ss_destroyed s = false -> stringify (ss_data s) <> ss_initial s -> (ss_isNew s = true -> ss_data s <> []) ->
  sstep cfg t (SEnd r threw) w = Some w1 ->
  srun cfg evs w1 = Some w2 -> quiet cfg (ss_sid s) evs w1 = true -> Forall (fun te => te.1 <= t') evs -> t' < t + cf_ttlMs cfg ->
  ss_sid s <> [] -> cf_name cfg <> [] -> encodeURIComponent (cf_name cfg) = Ok (cf_name cfg) -> buildSetCookie (cf_name cfg) (ss_sid s) (cf_cookieOpts cfg) = Ok c ->
  sstep cfg t' (SGet r' (parseCookieHeader (Some (cookie_header [cookie_pair c])))) w2 = Some w3 ->
  ServerResponse.cookie (cf_name cfg) (ss_sid s) (cf_cookieOpts cfg) res = (Ok tt, res') -> sstep cfg t'' (SOpen r' id res) w3 = Some w4 ->
  exists s', wd_requests w4 !! r' = Some (InHandlers s') /\ ss_sid s' = ss_sid s /\ ss_data s' = ss_data s /\ ss_isNew s' = false.
Proof.
  intros Hr Hd Hc Hn H1 H2 Hq Hts Ht Hsid Hname Henc Hset H3 Hck H4. rewrite (one_cookie_back _ _ _ _ Hname Henc Hset) in H3.
  assert (Hst : wd_store w1 !! ss_sid s = Some (Stored (ss_data s) (t + cf_ttlMs cfg))).
  { unfold sstep in H1. rewrite Hr in H1. destruct (ss_ended s); [done|]. injection H1 as <-. rewrite finish_writes by done. unfold store_set. by rewrite lookup_insert_eq. }
  assert (Hst2 : wd_store w2 !! ss_sid s = Some (Stored (ss_data s) (t + cf_ttlMs cfg))).
  { destruct (quiet_run cfg (ss_sid s) t' evs w1 w2 Hq H2 Hts) as [->|[_ (e & He & Hx)]]; [done|]. rewrite Hst in He. injection He as <-. cbn in Hx. lia. }
  unfold sstep in H3. destruct (wd_requests w2 !! r'); [done|]. injection H3 as <-.
  assert (Hl : lookup (cf_name cfg) [(cf_name cfg, ss_sid s)] = Some (ss_sid s)) by (cbn; by rewrite bool_decide_eq_true_2).
  pose proof (begin_found cfg r' _ t' w2 _ _ Hsid Hl Hst2 Ht) as Hf. unfold sstep in H4. rewrite Hf in H4. injection H4 as <-.
  unfold open. cbn [orb]. rewrite Hck. destruct (cf_rolling cfg); cbn; rewrite lookup_insert_eq; by eexists.
Qed.

(** What is destroyed stays gone.  When a handler destroys its session
    and whatever requests then do, short of one that was already open on
    the same session saving it or ending, nobody is given its data again: a
    request that shows its id finds nothing. *)
Theorem session_stays_destroyed (cfg : config) (w w1 w2 w3 : world) (r r' : nat) (s : sess) (t t' : Z) (evs : list (Z * sevent)) (cookies : list (jsstr * jsstr)) :
  wd_requests w !! r = Some (InHandlers s) -> sstep cfg t (SCall r HDestroy) w = Some w1 ->
  srun cfg evs w1 = Some w2 -> quiet cfg (ss_sid s) evs w1 = true ->
  lookup (cf_name cfg) cookies = Some (ss_sid s) -> sstep cfg t' (SGet r' cookies) w2 = Some w3 ->
  wd_requests w3 !! r' = Some (Fetched None) /\ wd_store w3 !! ss_sid s = None.
Proof.
  intros Hr H1 H2 Hq Hl H3. assert (Hst : wd_store w1 !! ss_sid s = None).
  { unfold sstep in H1. rewrite Hr in H1. injection H1 as <-. cbn. unfold store_destroy. by rewrite lookup_delete_eq. }
  pose proof (quiet_gone cfg (ss_sid s) evs w1 w2 Hq H2 Hst) as Hgone. unfold sstep in H3. destruct (wd_requests w2 !! r'); [done|]. injection H3 as <-.
  unfold begin. rewrite Hl. destruct (ss_sid s) as [|u k]; [cbn; by rewrite lookup_insert_eq|]. unfold store_get. rewrite Hgone. cbn. by rewrite lookup_insert_eq.
Qed.

(** One request logs in and ends, another one comes and goes, and the
    first client comes back. *)
Definition world_before : world := default initial_world (srun session_example (take 3 events_example) initial_world).
Definition sess_example : sess := Eval vm_compute in
  match wd_requests world_before !! 1%nat with Some (InHandlers s) => s | _ => Sess [] [] false false [] [] new_ServerResponse [] None end.
Definition events_between : list (Z * sevent) :=
  [(5, SGet 2 []); (6, SOpen 2 (js "ffff") new_ServerResponse); (7, SCall 2 HSave); (8, SEnd 2 true); (9, SSweep)].
Definition run_or_initial (evs : list (Z * sevent)) (w : world) : world := default initial_world (srun session_example evs w).
Definition world_ended : world := run_or_initial [(4, SEnd 1 false)] world_before.
Definition world_between : world := run_or_initial events_between world_ended.
Definition cookie_example : jsstr := js "sid=0a1b; Max-Age=86400; Path=/; HttpOnly; SameSite=Lax".
Definition world_found : world := run_or_initial [(10, SGet 3 (parseCookieHeader (Some (cookie_header [cookie_pair cookie_example]))))] world_between.
Definition world_opened : world := run_or_initial [(11, SOpen 3 (js "0") new_ServerResponse)] world_found.

Lemma session_comes_back_witness : exists s', wd_requests world_opened !! 3%nat = Some (InHandlers s') /\ ss_data s' = [(js "user", js "ann")].
Proof.
  destruct (session_comes_back session_example world_before world_ended world_between world_found world_opened 1 3 sess_example false 4 10 11 events_between
    cookie_example (js "0") new_ServerResponse (ServerResponse.cookie (cf_name session_example) (ss_sid sess_example) (cf_cookieOpts session_example) new_ServerResponse).2) as (s' & Hs' & _ & Hd & _).
  all: try (vm_compute; reflexivity).
  - intros E. apply (f_equal (fun x => bool_decide (x = ss_initial sess_example))) in E. by vm_compute in E.
  - intros _ E. apply (f_equal length) in E. by vm_compute in E.
  - repeat constructor; cbn; lia.
  - intros E. apply (f_equal length) in E. by vm_compute in E.
  - intros E. apply (f_equal length) in E. by vm_compute in E.
  - exists s'. split; [exact Hs'|]. rewrite Hd. vm_compute. reflexivity.
Defined.

Definition world_destroyed : world := run_or_initial [(12, SCall 3 HDestroy)] world_opened.
Definition world_gone : world := run_or_initial [(13, SResume 3 0 []); (14, SEnd 3 false)] world_destroyed.
Definition world_asked : world := run_or_initial [(15, SGet 4 [(js "sid", js "0a1b")])] world_gone.
Definition sess_destroyed : sess := Eval vm_compute in
  match wd_requests world_opened !! 3%nat with Some (InHandlers s) => s | _ => sess_example end.

Lemma session_stays_destroyed_witness : wd_requests world_asked !! 4%nat = Some (Fetched None).
Proof.
  apply (session_stays_destroyed session_example world_opened world_destroyed world_gone world_asked 3 4 sess_destroyed 12 15
    [(13, SResume 3 0 []); (14, SEnd 3 false)] [(js "sid", js "0a1b")]); vm_compute; reflexivity.
Defined.

(* ------------------------------------------------------------------ *)
(** ** Where the code falls short *)

(** A request that was already open on the session brings it back. *)
Lemma destroyed_comes_back :
  let evs := [(16, SGet 5 [(js "sid", js "0a1b")]); (17, SOpen 5 [] new_ServerResponse); (18, SCall 5 (HPut (js "n") (js "1")));
              (19, SCall 3 HDestroy); (20, SResume 3 0 []); (21, SEnd 3 false); (22, SEnd 5 false)] in
  (sd_data <$> wd_store (run_or_initial evs world_opened) !! js "0a1b") = Some [(js "user", js "ann"); (js "n", js "1")].
Proof. vm_compute. reflexivity. Qed.

(** [regenerate] makes the session new again, and a new session that is
    empty in the end is not saved: what the handler deleted is still in
    the store, under the new id. *)
Lemma regenerate_then_clear_lost :
  let evs := [(16, SCall 3 HRegenerate); (17, SResume 3 0 (js "c0de")); (18, SCall 3 (HDelete (js "user"))); (19, SEnd 3 false)] in
  (sd_data <$> wd_store (run_or_initial evs world_opened) !! js "c0de") = Some [(js "user", js "ann")].
Proof. vm_compute. reflexivity. Qed.

(** The option [saveUninitialized] saves nothing unless [resave] is set. *)
Lemma save_uninitialized_does_nothing cfg r threw t s w : cf_resave cfg = false -> ss_isNew s = true -> ss_data s = [] -> ss_initial s = stringify [] ->
  wd_store w !! ss_sid s = None -> wd_store (finish cfg r threw t s w) = wd_store w.
Proof.
  intros Hre Hn Hd Hi Hst. unfold finish. rewrite Hn, Hd, Hi, Hre. cbn [andb negb orb]. rewrite !bool_decide_eq_true_2 by done. cbn [andb negb orb].
  destruct (ss_destroyed s); [done|]. destruct (cf_saveUninitialized cfg), (cf_rolling cfg); cbn; try done. unfold store_touch. by rewrite Hst.
Qed.

(** What [next] throws is lost when there is nothing to save. *)
Lemma finish_swallows cfg r t s w : ss_isNew s = true -> ss_data s = [] -> cf_saveUninitialized cfg = false ->
  wd_requests (finish cfg r true t s w) !! r = Some (InHandlers (set_ss_ended (Some false) s)).
Proof. intros Hn Hd Hs. unfold finish. rewrite Hn, Hd, Hs. destruct (ss_destroyed s); cbn; by rewrite lookup_insert_eq. Qed.
