(* ===== verification/Middleware.v ===== *)
(** * The built-in middleware of [lib/lws/middleware.js]

    CORS, the security headers and the body parsers, as programs on the
    response that say whether they call [next].  A regular expression or
    a function among the options is a Rocq function; the bytes of a body,
    or the error its stream ended with, are arguments.  The JSON parser and
    the logger are left out. *)

From S2P Require Import Prelude JsString JsNumber Percent Utf8 UriComponent Headers HeadersProps StreamBase ServerResponse ServerResponseProps Request RequestProps.
Open Scope Z_scope.

(* ------------------------------------------------------------------ *)
(** ** CORS *)

(** [v] of [arr(v)]: an array, or what is split at commas. *)
Inductive listed := Items (l : list jsstr) | Text (s : jsstr).

Definition trim_start (s : jsstr) : jsstr := drop_while is_js_space s.
Definition trim_end (s : jsstr) : jsstr := reverse (drop_while is_js_space (reverse s)).

(** The pieces between [/\s*,\s*/]. *)
Fixpoint trim_inner (first : bool) (parts : list jsstr) : list jsstr :=
  match parts with
  | [] => []
  | p :: parts =>
    let p := if first then p else trim_start p in
    (if nonempty parts then trim_end p else p) :: trim_inner false parts
  end.
Definition arr (v : listed) : list jsstr := match v with Items l => l | Text s => trim_inner true (split_on 0x2c s) end.

(** What a spec allows: a string to send, or one of the other values. *)
Inductive allow := AllowStr (s : jsstr) | AllowTrue | AllowFalse | AllowNull | AllowUndefined.

Inductive origin_spec :=
| OriginTrue | OriginFalse | OriginStr (s : jsstr) | OriginList (l : list jsstr)
| OriginRegExp (test : jsstr -> bool) | OriginFunction (f : option jsstr -> server_request -> allow).

(** An absent header as a value: [undefined]. *)
Definition allow_origin (reqOrigin : option jsstr) : allow := match reqOrigin with Some o => AllowStr o | None => AllowUndefined end.

Definition matchOrigin (spec : origin_spec) (reqOrigin : option jsstr) (req : server_request) : allow :=
  match spec with
  | OriginTrue => AllowStr (or_string reqOrigin (js "*"))
  | OriginFalse => AllowNull
  | OriginStr s => if bool_decide (s = js "*") then AllowStr (js "*") else if bool_decide (Some s = reqOrigin) then AllowStr s else AllowFalse
  | OriginList l => match reqOrigin with Some o => if bool_decide (o ∈ l) then AllowStr o else AllowFalse | None => AllowFalse end
  | OriginRegExp test => if test (default (js "undefined") reqOrigin) then allow_origin reqOrigin else AllowFalse
  | OriginFunction f => f reqOrigin req
  end.

Record cors_opts := CorsOpts {
  cr_origin : option origin_spec; cr_methods : option listed; cr_allowedHeaders : option listed; cr_exposedHeaders : option listed;
  cr_credentials : bool; cr_maxAge : option Z; cr_optionsSuccessStatus : option Z }.

(** [opts.key ? arr(opts.key).join(',') : null]; an empty string is falsy. *)
Definition joined (v : option listed) : option jsstr :=
  match v with None | Some (Text []) => None | Some v => Some (join (js ",") (arr v)) end.

Definition truthy (s : option jsstr) : bool := match s with Some (_ :: _) => true | _ => false end.
Definition set_truthy (name : jsstr) (v : option jsstr) : SM response unit := match v with Some ((_ :: _) as s) => rset name s | _ => mret tt end.

Section Cors.
Context `{TextCodec}.

(** The first block: what the response says about the origin. *)
Definition cors_origin (opts : cors_opts) (req : server_request) : SM response unit :=
  let reqOrigin := lookup (js "origin") (sr_headers req) in
  let granted value star :=
    rset (js "access-control-allow-origin") value ;;
    when (negb star) (rappend (js "vary") (js "Origin")) ;;
    when (cr_credentials opts) (rset (js "access-control-allow-credentials") (js "true")) ;;
    set_truthy (js "access-control-expose-headers") (joined (cr_exposedHeaders opts)) in
  match matchOrigin (default (OriginStr (js "*")) (cr_origin opts)) reqOrigin req with
  | AllowFalse | AllowNull => mret tt
  | AllowTrue => granted (or_string reqOrigin (js "*")) false
  | AllowStr s => granted s (bool_decide (s = js "*"))
  | AllowUndefined => granted (js "undefined") false
  end.

Definition preflight (req : server_request) : bool :=
  bool_decide (sr_method req = js "OPTIONS") && truthy (lookup (js "access-control-request-method") (sr_headers req)).

(** [true] when [next] is called. *)
Definition corsMiddleware (opts : cors_opts) (req : server_request) : SM response bool :=
  cors_origin opts req ;;
  if preflight req then
    rset (js "access-control-allow-methods") (join (js ",") (arr (default (Text (js "GET,HEAD,PUT,PATCH,POST,DELETE")) (cr_methods opts)))) ;;
    set_truthy (js "access-control-allow-headers")
      (match joined (cr_allowedHeaders opts) with None => lookup (js "access-control-request-headers") (sr_headers req) | h => h end) ;;
    set_truthy (js "access-control-max-age") (int_string <$> cr_maxAge opts) ;;
    rset content_length (js "0") ;;
    status (default 204 (cr_optionsSuccessStatus opts)) ;; end_ None ;;
    mret false
  else mret true.

(* ------------------------------------------------------------------ *)
(** ** Security headers *)

(** Each option is absent, [false], or a value. *)
Definition secure_headers : list (jsstr * jsstr) :=
  [(js "x-content-type-options", js "nosniff"); (js "x-frame-options", js "SAMEORIGIN"); (js "x-xss-protection", js "0");
   (js "referrer-policy", js "no-referrer"); (js "strict-transport-security", js "max-age=15552000; includeSubDomains")].

Definition secure_value (opts : jsstr -> option (option jsstr)) (p : jsstr * jsstr) : option jsstr := default (Some p.2) (opts p.1).

Fixpoint secure_set (opts : jsstr -> option (option jsstr)) (hs : list (jsstr * jsstr)) : SM response unit :=
  match hs with
  | [] => mret tt
  | p :: hs =>
    match secure_value opts p with
    | None => mret tt
    | Some v => present ← has_header p.1; when (negb present) (rset p.1 v)
    end ;;
    secure_set opts hs
  end.

Definition secureMiddleware (opts : jsstr -> option (option jsstr)) : SM response bool := secure_set opts secure_headers ;; mret true.

(* ------------------------------------------------------------------ *)
(** ** Body parsers *)

(** The [limit] and [type] options. *)
Record parser_opts := ParserOpts { po_limit : option Z; po_type : option (jsstr -> bool) }.
Definition limit_of (opts : parser_opts) : Z := default (Z.shiftl 1 20) (po_limit opts).

(** [/^literal/i] without letters that fold outside ASCII. *)
Definition starts_ci (p s : jsstr) : bool := starts_with p (ascii_lower s).

Definition request_type (req : server_request) : jsstr := or_string (lookup (js "content-type") (sr_headers req)) [].

(** [readBody] on what [arrayBuffer] gives. *)
Definition readBody (limit : Z) (body : outcome bytes) : outcome bytes :=
  buf ← body;
  if limit <? Z.of_nat (length buf) then Throw ErrTypeError "request body exceeds limit" else Ok buf.
(** [.then(toString)]: a body that is not UTF-8 is a rejection. *)
Definition readText (limit : Z) (body : outcome bytes) : outcome jsstr := buf ← readBody limit body; decode buf.

(** [status(code).type('text/plain').end(text)] *)
Definition refuse (code : Z) (text : jsstr) : SM response unit := status code ;; type (js "text/plain") ;; end_ (Some (CStr text)).
Definition too_large : SM response unit := refuse 413 (js "Payload Too Large").

(** [/limit/.test(e.message)] *)
Fixpoint mentions (p s : string) : bool := String.prefix p s || match s with String _ s => mentions p s | EmptyString => false end.

(** [None] when [next] is not called; otherwise the new [req.body], if any. *)
Definition urlencodedBody (opts : parser_opts) (req : server_request) (body : outcome bytes) : SM response (option (option (list (jsstr * hvalue)))) :=
  if negb (default (starts_ci (js "application/x-www-form-urlencoded")) (po_type opts) (request_type req)) then mret (Some None) else
  let parsed :=
    text ← readText (limit_of opts) body;
    match text with [] => Ok [] | _ => parse_fields (split_on 0x26 text) [] end in
  match parsed with
  | Ok out => mret (Some (Some out))
  | Throw _ message =>
    (if mentions "limit" message then too_large else refuse 400 (js "Bad form data: " ++ js message)) ;;
    mret None
  end.

Definition rawBody (opts : parser_opts) (req : server_request) (body : outcome bytes) : SM response (option (option bytes)) :=
  if negb (default (fun _ => true) (po_type opts) (request_type req)) then mret (Some None) else
  match readBody (limit_of opts) body with
  | Ok b => mret (Some (Some b))
  | Throw _ _ => too_large ;; mret None
  end.

Definition textBody (opts : parser_opts) (req : server_request) (body : outcome bytes) : SM response (option (option jsstr)) :=
  if negb (default (starts_ci (js "text/")) (po_type opts) (request_type req)) then mret (Some None) else
  match readText (limit_of opts) body with
  | Ok t => mret (Some (Some t))
  | Throw _ _ => too_large ;; mret None
  end.
End Cors.

(* ------------------------------------------------------------------ *)
(** ** What the built-in middleware promises

    A response names an allowed origin only when the request comes from
    it; a form body is parsed, or refused with the status its fault
    deserves. *)

#[local] Arguments js : simpl never.

(* ------------------------------------------------------------------ *)
(** ** Programs that leave a header alone *)

(** [m] does not change the property [n] of the headers. *)
Definition leaves {A} (n : jsstr) (m : SM response A) : Prop := forall s, prop n (rp_headers (m s).2) = prop n (rp_headers s).

Lemma leaves_bind {A B} n (m : SM response A) (k : A -> SM response B) : leaves n m -> (forall a, leaves n (k a)) -> leaves n (m ≫= k).
Proof. intros Hm Hk s. unfold mbind, sm_bind. specialize (Hm s). destruct (m s) as [[a|c e] s1]; [by rewrite Hk|done]. Qed.
Lemma leaves_id {A} n (f : response -> outcome A) : leaves n (fun s => (f s, s)).
Proof. by intros s. Qed.
Lemma leaves_ret {A} n (a : A) : leaves n (mret a).
Proof. by intros s. Qed.
Lemma leaves_update n f : (forall s, rp_headers (f s) = rp_headers s) -> leaves n (modify f).
Proof. intros Hf s. cbn. by rewrite Hf. Qed.
Lemma leaves_when n b m : leaves n m -> leaves n (when b m).
Proof. by destruct b. Qed.
Lemma leaves_headers n f : (forall m m', f m = Ok m' -> prop n m' = prop n m) -> leaves n (on_headers f).
Proof. intros Hf s. unfold on_headers. destruct (f (rp_headers s)) as [m|] eqn:E; [by apply Hf|done]. Qed.
Lemma leaves_open {A} n (m : SM response A) : leaves n m -> leaves n (assertOpen ;; m).
Proof. intros Hm. apply leaves_bind; [|done]. apply leaves_bind; [apply leaves_id|]. intros []; apply leaves_id. Qed.

Lemma set_leaves n name v m m' : normalizeName name <> Ok n -> set name v m = Ok m' -> prop n m' = prop n m.
Proof.
  intros Hn. unfold set. destruct (normalizeName name) as [k|]; [|done]. cbn. destruct (normalizeValue v); [|done]. cbn. intros <-%Ok_inj.
  rewrite prop_put, bool_decide_eq_false_2; [done|congruence].
Qed.
Lemma append_leaves n name v m m' : normalizeName name <> Ok n -> append name v m = Ok m' -> prop n m' = prop n m.
Proof.
  intros Hn. unfold append. destruct (normalizeName name) as [k|]; [|done]. cbn. destruct (normalizeValue v); [|done]. cbn. intros <-%Ok_inj.
  destruct (bool_decide (k = set_cookie)); rewrite prop_put, bool_decide_eq_false_2; try done; congruence.
Qed.

Lemma leaves_rset n name v : normalizeName name <> Ok n -> leaves n (rset name v).
Proof. intros Hn. apply leaves_open, leaves_headers. intros m m'. by apply set_leaves. Qed.
Lemma leaves_rappend n name v : normalizeName name <> Ok n -> leaves n (rappend name v).
Proof. intros Hn. apply leaves_open, leaves_headers. intros m m'. by apply append_leaves. Qed.
Lemma leaves_set_truthy n name v : normalizeName name <> Ok n -> leaves n (set_truthy name v).
Proof. intros Hn. destruct v as [[|u v]|]; [apply leaves_ret|by apply leaves_rset|apply leaves_ret]. Qed.

Lemma leaves_wsi n c : leaves n (wsi_do c).
Proof. by apply leaves_update. Qed.

Lemma leaves_flush n : leaves n flushHeaders.
Proof.
  unfold flushHeaders. apply leaves_bind; [apply leaves_id|]. intros []; [apply leaves_ret|]. apply leaves_bind; [by apply leaves_update|]. intros _.
  apply leaves_bind; [apply leaves_id|]. intros cl. apply leaves_bind; [apply leaves_id|]. intros s. destruct cl; apply leaves_wsi.
Qed.

Section Leaves.
Context `{TextCodec}.

Lemma leaves_end n c : n <> content_length -> leaves n (end_ c).
Proof.
  intros Hn. unfold end_. apply leaves_bind; [apply leaves_id|]. intros []; [apply leaves_ret|]. apply leaves_bind; [apply leaves_id|]. intros sent.
  apply leaves_bind; [apply leaves_id|]. intros cl. apply leaves_bind.
  { apply leaves_when, leaves_headers. intros m m'. apply set_leaves. assert (E : normalizeName content_length = Ok content_length) by (vm_compute; reflexivity). rewrite E. congruence. }
  intros _. apply leaves_bind; [apply leaves_flush|]. intros _. apply leaves_bind; [apply leaves_id|]. intros chunked. apply leaves_bind; [|intros _; by apply leaves_update].
  destruct chunked; [|apply leaves_wsi]. apply leaves_bind; [|intros _; apply leaves_wsi]. destruct c as [c|]; [|apply leaves_ret].
  unfold writeChunk. destruct (_ =? 0); [apply leaves_ret|]. repeat (apply leaves_bind; [apply leaves_wsi|intros _]). apply leaves_wsi.
Qed.
End Leaves.

(* ------------------------------------------------------------------ *)
(** ** CORS *)

Definition acao : jsstr := js "access-control-allow-origin".
Definition vary : jsstr := js "vary".

(** The origins an option grants to a request that says where it comes
    from, and the value they are granted with. *)
Inductive grants (req : server_request) : origin_spec -> option jsstr -> jsstr -> Prop :=
| grant_any o : grants req (OriginStr (js "*")) o (js "*")
| grant_true o : grants req OriginTrue o (or_string o (js "*"))
| grant_same s : grants req (OriginStr s) (Some s) s
| grant_listed l o : o ∈ l -> grants req (OriginList l) (Some o) o
| grant_matched test o : test o = true -> grants req (OriginRegExp test) (Some o) o
| grant_chosen f o s : f o req = AllowStr s -> grants req (OriginFunction f) o s
| grant_agreed f o : f o req = AllowTrue -> grants req (OriginFunction f) o (or_string o (js "*")).

(** The regular expression does not match the text [undefined], nor does
    the function return it. *)
Definition defined_spec (spec : origin_spec) (o : option jsstr) (req : server_request) : Prop :=
  match spec with
  | OriginRegExp test => o = None -> test (js "undefined") = false
  | OriginFunction f => f o req <> AllowUndefined
  | _ => True
  end.

Lemma matchOrigin_grants spec o req : defined_spec spec o req ->
  match matchOrigin spec o req with
  | AllowStr s => grants req spec o s
  | AllowTrue => grants req spec o (or_string o (js "*"))
  | AllowFalse | AllowNull => forall s, ~ grants req spec o s
  | AllowUndefined => False
  end.
Proof.
  intros Hd. destruct spec as [| |s|l|test|f]; cbn [matchOrigin].
  - constructor.
  - intros s Hg. inversion Hg.
  - case_bool_decide as E; [subst s; constructor|]. case_bool_decide as E2; [subst o; constructor|]. intros s' Hg. inversion Hg; subst; done.
  - destruct o as [o|]; [|intros s Hg; inversion Hg]. case_bool_decide as E; [by constructor|]. intros s Hg. by inversion Hg; subst.
  - unfold defined_spec in Hd. destruct o as [o|].
    + change (default (js "undefined") (Some o)) with o. destruct (test o) eqn:E; cbn [allow_origin]; [by constructor|]. intros s Hg. inversion Hg; congruence.
    + change (default (js "undefined") None) with (js "undefined"). rewrite Hd by done. intros s Hg. inversion Hg.
  - unfold defined_spec in Hd. destruct (f o req) eqn:E; try by constructor.
    + intros s' Hg. inversion Hg; congruence.
    + intros s' Hg. inversion Hg; congruence.
    + done.
Qed.

Lemma rset_ok name v s s' : rset name v s = (Ok tt, s') -> exists m, set name v (rp_headers s) = Ok m /\ s' = set_rp_headers m s.
Proof. unfold rset, assertOpen, gets, mbind, sm_bind. destruct (rp_headersSent s); [done|]. cbn. unfold on_headers. destruct (set name v (rp_headers s)) as [m|]; [|done]. intros [= <-]. by exists m. Qed.
Lemma rappend_ok name v s s' : rappend name v s = (Ok tt, s') -> exists m, append name v (rp_headers s) = Ok m /\ s' = set_rp_headers m s.
Proof. unfold rappend, assertOpen, gets, mbind, sm_bind. destruct (rp_headersSent s); [done|]. cbn. unfold on_headers. destruct (append name v (rp_headers s)) as [m|]; [|done]. intros [= <-]. by exists m. Qed.

(** What the headers say about origins. *)
Definition says_nothing (s : response) : Prop := prop acao (rp_headers s) = None.
Definition says_granted (req : server_request) (spec : origin_spec) (o : option jsstr) (s : response) : Prop :=
  exists g v, grants req spec o g /\ normalizeValue g = Ok v /\ prop acao (rp_headers s) = Some (HStr v) /\
    (g <> js "*" -> exists x, prop vary (rp_headers s) = Some (HStr (x ++ js "Origin"))).

Lemma name_acao : normalizeName acao = Ok acao. Proof. vm_compute. reflexivity. Qed.
Lemma name_vary : normalizeName vary = Ok vary. Proof. vm_compute. reflexivity. Qed.
Lemma acao_vary : acao <> vary. Proof. vm_compute. discriminate. Qed.

(** Other headers of the middleware are neither. *)
Ltac other_name := match goal with |- ?x <> Ok ?n => let E := fresh in intros E; vm_compute in E; congruence end.

Lemma set_acao v m m' : set acao v m = Ok m' -> exists w, normalizeValue v = Ok w /\ m' = put acao (HStr w) m.
Proof.
  unfold set. rewrite name_acao. cbn [mbind outcome_bind]. destruct (normalizeValue v) as [w|]; [|done]. cbn [mbind outcome_bind]. intros <-%Ok_inj. exists w. split; [done|].
  by rewrite bool_decide_eq_false_2 by (vm_compute; discriminate).
Qed.

Lemma append_vary m m' : append vary (js "Origin") m = Ok m' -> exists x, prop vary m' = Some (HStr (x ++ js "Origin")).
Proof.
  unfold append. rewrite name_vary. assert (E : normalizeValue (js "Origin") = Ok (js "Origin")) by (vm_compute; reflexivity). rewrite E.
  cbn [mbind outcome_bind]. rewrite bool_decide_eq_false_2 by (vm_compute; discriminate). intros <-%Ok_inj. rewrite prop_put, bool_decide_eq_true_2 by done.
  destruct (prop vary m) as [[[|u old]|l]|]; [by exists []|exists ((u :: old) ++ js ", "); by rewrite <- app_assoc|exists (join [0x2c] l ++ js ", "); by rewrite <- app_assoc|by exists []].
Qed.

Lemma cors_origin_says opts req s s' : let spec := default (OriginStr (js "*")) (cr_origin opts) in let o := lookup (js "origin") (sr_headers req) in
  says_nothing s -> defined_spec spec o req -> cors_origin opts req s = (Ok tt, s') ->
  (says_nothing s' /\ forall g, ~ grants req spec o g) \/ says_granted req spec o s'.
Proof.
  cbv zeta. set (spec := default _ _). set (o := lookup _ _). intros Hs Hd. unfold cors_origin. fold spec o. pose proof (matchOrigin_grants spec o req Hd) as Hm.
  assert (Hgo : forall g (star : bool) s', grants req spec o g -> (star = false \/ g = js "*") ->
    (rset (js "access-control-allow-origin") g ;; when (negb star) (rappend (js "vary") (js "Origin")) ;;
     when (cr_credentials opts) (rset (js "access-control-allow-credentials") (js "true")) ;;
     set_truthy (js "access-control-expose-headers") (joined (cr_exposedHeaders opts))) s = (Ok tt, s') -> says_granted req spec o s').
  { clear s' Hm. intros g star s' Hg Hstar Hrun. apply bind_inv in Hrun as ([] & s1 & H1 & Hrun). apply bind_inv in Hrun as ([] & s2 & H2 & Hrun).
    apply rset_ok in H1 as (m & (w & Hw & ->)%set_acao & ->).
    assert (Hrest : forall n, (forall k, k = js "access-control-allow-credentials" \/ k = js "access-control-expose-headers" -> normalizeName k <> Ok n) -> prop n (rp_headers s') = prop n (rp_headers s2)).
    { intros n Hn. assert (Hl : leaves n (when (cr_credentials opts) (rset (js "access-control-allow-credentials") (js "true")) ;; set_truthy (js "access-control-expose-headers") (joined (cr_exposedHeaders opts)))).
      { apply leaves_bind; [apply leaves_when, leaves_rset; auto|]. intros _. apply leaves_set_truthy. auto. }
      specialize (Hl s2). by rewrite Hrun in Hl. }
    assert (Hoth : forall k, k = js "access-control-allow-credentials" \/ k = js "access-control-expose-headers" -> normalizeName k <> Ok acao /\ normalizeName k <> Ok vary) by (intros k [-> | ->]; split; other_name).
    exists g, w. split; [done|]. split; [done|]. rewrite !Hrest by (intros k Hk; by apply Hoth). destruct star; cbn [negb when] in H2.
    - injection H2 as <-. cbn. rewrite prop_put, bool_decide_eq_true_2 by done. split; [done|]. intros Hne. by destruct Hstar.
    - apply rappend_ok in H2 as (m & Hm & ->). split.
      + cbn [rp_headers set_rp_headers] in *. rewrite (append_leaves acao (js "vary") (js "Origin") (put acao (HStr w) (rp_headers s)) m); [by rewrite prop_put, bool_decide_eq_true_2|other_name|exact Hm].
      + intros _. by eapply append_vary. }
  destruct (matchOrigin spec o req); intros Hrun; [right|right|left|left|done].
  - eapply Hgo; [exact Hm| |exact Hrun]. case_bool_decide; [by right|by left].
  - eapply Hgo; [exact Hm| |exact Hrun]. by left.
  - injection Hrun as <-. done.
  - injection Hrun as <-. done.
Qed.

Section Cors.
Context `{TextCodec}.

Lemma end_ended c s s' : end_ c s = (Ok tt, s') -> rp_ended s' = true.
Proof.
  unfold end_. rewrite gets_bind. destruct (rp_ended s) eqn:E; [by intros [= <-]|]. intros (sent & s1 & _ & Hr)%bind_inv. apply bind_inv in Hr as (cl & s2 & _ & Hr).
  apply bind_inv in Hr as ([] & s3 & _ & Hr). apply bind_inv in Hr as ([] & s4 & _ & Hr). apply bind_inv in Hr as (ch & s5 & _ & Hr). apply bind_inv in Hr as ([] & s6 & _ & Hr).
  cbn in Hr. by injection Hr as <-.
Qed.

(** Cross-origin access.  When the middleware runs through on a
    response that says nothing about origins yet, the response names an
    origin only if the option grants it to the request, with the value it
    grants, and then varies by origin unless that is the star; [next] is
    called unless the request is a preflight, and a preflight is answered. *)
Theorem cors_grants_origin (opts : cors_opts) (req : server_request) (s s' : response) (b : bool) :
  let spec := default (OriginStr (js "*")) (cr_origin opts) in let o := lookup (js "origin") (sr_headers req) in
  says_nothing s -> defined_spec spec o req -> corsMiddleware opts req s = (Ok b, s') ->
  ((says_nothing s' /\ forall g, ~ grants req spec o g) \/ says_granted req spec o s') /\
  b = negb (preflight req) /\ (b = false -> rp_ended s' = true).
Proof.
  cbv zeta. intros Hs Hd Hrun. unfold corsMiddleware in Hrun. apply bind_inv in Hrun as ([] & s1 & H1 & Hrun).
  pose proof (cors_origin_says opts req s s1 Hs Hd H1) as Hsays. destruct (preflight req); [|injection Hrun as <- <-; by split_and!].
  assert (Hl : forall n, n = acao \/ n = vary -> leaves n (rset (js "access-control-allow-methods") (join (js ",") (arr (default (Text (js "GET,HEAD,PUT,PATCH,POST,DELETE")) (cr_methods opts)))) ;;
    set_truthy (js "access-control-allow-headers") (match joined (cr_allowedHeaders opts) with None => lookup (js "access-control-request-headers") (sr_headers req) | h => h end) ;;
    set_truthy (js "access-control-max-age") (int_string <$> cr_maxAge opts) ;; rset content_length (js "0") ;;
    status (default 204 (cr_optionsSuccessStatus opts)) ;; end_ None ;; mret false)).
  { intros n Hn. assert (Hoth : forall k, k ∈ [js "access-control-allow-methods"; js "access-control-allow-headers"; js "access-control-max-age"; content_length] -> normalizeName k <> Ok n).
    { intros k Hk. rewrite !elem_of_cons, elem_of_nil in Hk. destruct Hn as [-> | ->]; destruct Hk as [-> |[-> |[-> |[-> |[]]]]]; other_name. }
    apply leaves_bind; [apply leaves_rset, Hoth; set_solver|intros _]. apply leaves_bind; [apply leaves_set_truthy, Hoth; set_solver|intros _].
    apply leaves_bind; [apply leaves_set_truthy, Hoth; set_solver|intros _]. apply leaves_bind; [apply leaves_rset, Hoth; set_solver|intros _].
    apply leaves_bind; [by apply leaves_update|intros _]. apply leaves_bind; [|intros _; apply leaves_ret]. apply leaves_end. destruct Hn as [-> | ->]; vm_compute; discriminate. }
  pose proof (Hl acao (or_introl eq_refl) s1) as Ha. pose proof (Hl vary (or_intror eq_refl) s1) as Hv. rewrite Hrun in Ha, Hv. cbn [snd] in Ha, Hv.
  repeat (apply bind_inv in Hrun as ([] & ? & ? & Hrun)). injection Hrun as <- <-. split_and!; [|done|intros _; by eapply end_ended].
  destruct Hsays as [[Hsn Hng]|(g & v & Hg & Hn & Hp & Hvary)]; [left|right].
  - split; [|done]. unfold says_nothing. by rewrite Ha.
  - exists g, v. rewrite Ha, Hv. done.
Qed.
End Cors.

Definition cors_example : cors_opts := CorsOpts (Some (OriginList [js "https://a.test"; js "https://b.test"])) None None None true None None.
Definition preflight_example : server_request :=
  ServerRequest (js "OPTIONS") [(js "origin", js "https://b.test"); (js "access-control-request-method", js "PUT")] (js "/") (js "/").

Lemma cors_grants_origin_witness : exists v, prop acao (rp_headers (corsMiddleware cors_example preflight_example new_ServerResponse).2) = Some (HStr v).
Proof.
  assert (Hrun : (corsMiddleware cors_example preflight_example new_ServerResponse).1 = Ok false) by (vm_compute; reflexivity).
  destruct (corsMiddleware cors_example preflight_example new_ServerResponse) as [r s'] eqn:E. cbn in Hrun. subst r.
  destruct (cors_grants_origin cors_example preflight_example new_ServerResponse s' false) as [[[_ Hno]|(g & v & _ & _ & Hp & _)] _].
  - vm_compute. reflexivity.
  - exact I.
  - exact E.
  - destruct (Hno (js "https://b.test")). vm_compute. apply grant_listed. vm_compute. right. left.
  - exists v. exact Hp.
Defined.

(** A regular expression that matches everything grants access to the
    origin [undefined] when the request names none. *)
Lemma cors_undefined : prop acao (rp_headers (corsMiddleware (CorsOpts (Some (OriginRegExp (fun _ => true))) None None None false None None)
  (ServerRequest (js "GET") [] (js "/") (js "/")) new_ServerResponse).2) = Some (HStr (js "undefined")).
Proof. vm_compute. reflexivity. Qed.

(* ------------------------------------------------------------------ *)
(** ** Body parsers *)

(** A response nothing has been sent of, and whose framing nobody set. *)
Definition fresh_response (s : response) : Prop :=
  rp_ended s = false /\ rp_headersSent s = false /\ rp_chunked s = false /\ rp_wsi s = [] /\
  prop content_length (rp_headers s) = None /\ prop transfer_encoding (rp_headers s) = None.

Section Parsers.
Context `{TextCodec}.

Lemma refuse_received code text s : fresh_response s -> Z.of_nat (length (encode text)) < 2 ^ 53 ->
  exists s', refuse code text s = (Ok tt, s') /\ receive (rp_wsi s') = Some (code, encode text).
Proof.
  destruct s as [st m e h c w]. intros (He & Hh & Hc & Hw & Hcl & Hte) Hsm. cbn in He, Hh, Hc, Hw, Hcl, Hte. subst. unfold refuse, status. rewrite modify_bind. unfold set_rp_status.
  cbn [rp_status rp_headers rp_ended rp_headersSent rp_chunked rp_wsi]. set (m2 := put content_type (HStr (js "text/plain")) m).
  assert (Ht : type (js "text/plain") (Response code m false false false []) = (Ok tt, Response code m2 false false false [])).
  { unfold type, rset, assertOpen. rewrite bind_assoc, gets_bind. cbn [rp_headersSent]. rewrite ret_bind. unfold on_headers, set. cbn [rp_headers].
    assert (E1 : normalizeName content_type = Ok content_type) by (vm_compute; reflexivity). assert (E2 : normalizeValue (js "text/plain") = Ok (js "text/plain")) by (vm_compute; reflexivity).
    rewrite E1, E2. cbn [mbind outcome_bind]. by rewrite bool_decide_eq_false_2 by (vm_compute; discriminate). }
  rewrite (bind_ok _ _ _ _ _ Ht). assert (Hp : forall n, n = content_length \/ n = transfer_encoding -> prop n m2 = prop n m).
  { intros n Hn. unfold m2. rewrite prop_put, bool_decide_eq_false_2; [done|]. destruct Hn as [-> | ->]; vm_compute; discriminate. }
  assert (Hb : body_bytes (pieces (Some (CStr text))) = encode text) by (unfold body_bytes; cbn; by rewrite app_nil_r).
  destruct (end_fresh (Some (CStr text)) code m2) as (m' & hs & Hend & Hhs & _); [by rewrite Hp by auto|by rewrite Hb|].
  rewrite Hend. eexists. split; [reflexivity|]. cbn [rp_wsi]. rewrite Hb. rewrite <-Hb, <-(wire_piece (Some (CStr text))).
  apply receive_sized; [done|by rewrite Hhs, Hp, Hte by auto|by rewrite wire_piece, Hb].
Qed.

(** Fields are only ever refused for a malformed escape. *)
Lemma decode_field_throws s c msg : decode_field s = Throw c msg -> msg = "malformed URI"%string.
Proof. unfold decode_field, decodeURIComponent. intros E. destruct (decode_loop_ends (S (length (replace_unit 0x2b [0x20] s))) (replace_unit 0x2b [0x20] s) ltac:(lia)) as [[r Hr]|Hr]; rewrite Hr in E; [done|by injection E]. Qed.

Lemma parse_fields_throws parts : forall out c msg, parse_fields parts out = Throw c msg -> msg = "malformed URI"%string.
Proof.
  induction parts as [|part parts IH]; intros out c msg; cbn [parse_fields]; [done|]. case_bool_decide; [apply IH|]. unfold field_pair.
  destruct (decode_field (match index_of 0x3d part with None => part | Some i => take i part end)) as [k|] eqn:Ek; cbn [mbind outcome_bind]; [|intros [= _ <-]; by eapply decode_field_throws].
  destruct (index_of 0x3d part) as [i|]; [destruct (decode_field (drop (S i) part)) as [v|] eqn:Ev; cbn [mbind outcome_bind]; [apply IH|intros [= _ <-]; by eapply decode_field_throws]|apply IH].
Qed.

(** What a parser makes of a body: the pairs of a text, or the status of
    the answer that is due. *)
Definition form_verdict (limit : Z) (body : outcome bytes) : list (jsstr * jsstr) + Z :=
  match body with
  | Throw _ msg => inr (if mentions "limit" msg then 413 else 400)
  | Ok buf => if limit <? Z.of_nat (length buf) then inr 413 else match text ← decode buf; field_pairs (split_on 0x26 text) with Ok ps => inl ps | Throw _ _ => inr 400 end
  end.

Definition form_type (opts : parser_opts) (req : server_request) : bool :=
  default (starts_ci (js "application/x-www-form-urlencoded")) (po_type opts) (request_type req).

(** The form parser.  On a fresh response: a request of another type
    is passed on untouched; a body within the limit whose escapes are all
    well formed is passed on as its fields, grouped by name; any other body
    is answered, 413 when it is longer than the limit and 400 when it is
    malformed or not UTF-8, with a complete response, and [next] is not
    called. *)
Theorem urlencoded_parses (opts : parser_opts) (req : server_request) (body : outcome bytes) (s : response) : fresh_response s ->
  (match body with Throw _ msg => Z.of_nat (length (encode (js "Bad form data: " ++ js msg))) < 2 ^ 53 | Ok _ => True end) ->
  let '(r, s') := urlencodedBody opts req body s in
  if form_type opts req then
    match form_verdict (limit_of opts) body with
    | inl ps => exists out, r = Ok (Some (Some out)) /\ s' = s /\ forall k, prop k out = grouped (field_values k ps)
    | inr code => r = Ok None /\ exists text, receive (rp_wsi s') = Some (code, encode text)
    end
  else r = Ok (Some None) /\ s' = s.
Proof.
  intros Hs Hlen. unfold urlencodedBody. fold (form_type opts req). destruct (form_type opts req); cbn [negb]; [|done]. cbv zeta.
  assert (Hsmall : Z.of_nat (length (encode (js "Payload Too Large"))) < 2 ^ 53 /\ Z.of_nat (length (encode (js "Bad form data: " ++ js "malformed URI"))) < 2 ^ 53 /\
    Z.of_nat (length (encode (js "Bad form data: " ++ js "invalid UTF-8"))) < 2 ^ 53).
  { split_and!; rewrite encode_ascii_string; try (vm_compute; reflexivity); apply (bool_decide_unpack _); vm_compute; exact I. }
  assert (Hrefused : forall code text, Z.of_nat (length (encode text)) < 2 ^ 53 ->
    let '(r, s') := (refuse code text ;; mret None) s in r = Ok (@None (option (list (jsstr * hvalue)))) /\ exists text', receive (rp_wsi s') = Some (code, encode text')).
  { intros code text Hsm. destruct (refuse_received code text s Hs Hsm) as (s' & Hr & Hw). rewrite (bind_ok _ _ _ _ _ Hr). cbn. split; [done|]. by exists text. }
  unfold readText, readBody, form_verdict. destruct body as [buf|c msg]; cbn [mbind outcome_bind fmap outcome_fmap].
  - destruct (limit_of opts <? Z.of_nat (length buf)); cbn [mbind outcome_bind fmap outcome_fmap].
    + change (mentions "limit" "request body exceeds limit") with true. cbv iota. apply Hrefused, Hsmall.
    + destruct (decode buf) as [text|c msg] eqn:Ed; cbn [mbind outcome_bind].
      2: { apply decode_throws in Ed as [_ ->]. change (mentions "limit" "invalid UTF-8") with false. cbv iota. apply Hrefused, Hsmall. }
      assert (Hp : (match text with [] => Ok [] | _ => parse_fields (split_on 0x26 text) [] end) = parse_fields (split_on 0x26 text) []) by by destruct text.
      rewrite Hp. pose proof (parse_fields_pairs (split_on 0x26 text) [] [] (fun k => eq_refl)) as Hspec. destruct (field_pairs (split_on 0x26 text)) as [ps|c msg].
      * destruct Hspec as (out & -> & Hout). exists out. done.
      * rewrite Hspec. apply parse_fields_throws in Hspec as ->. change (mentions "limit" "malformed URI") with false. cbv iota. apply Hrefused, Hsmall.
  - destruct (mentions "limit" msg); apply Hrefused; [apply Hsmall|done].
Qed.
End Parsers.

(** A text body that is not UTF-8 is answered as if it were too large. *)
Lemma text_not_utf8 :
  receive (rp_wsi (textBody (ParserOpts None None) (ServerRequest (js "POST") [(js "content-type", js "text/plain")] (js "/") (js "/")) (Ok [0xff]) new_ServerResponse).2) =
    Some (413, js "Payload Too Large").
Proof. vm_compute. reflexivity. Qed.

Definition form_request : server_request := ServerRequest (js "POST") [(js "content-type", js "Application/X-WWW-Form-Urlencoded")] (js "/") (js "/").

Lemma urlencoded_parses_witness : exists out, urlencodedBody (ParserOpts (Some 16) None) form_request (Ok (js "a=1&b=x%20y&a=2")) new_ServerResponse = (Ok (Some (Some out)), new_ServerResponse) /\
  prop (js "a") out = Some (HArr [js "1"; js "2"]).
Proof.
  pose proof (urlencoded_parses (ParserOpts (Some 16) None) form_request (Ok (js "a=1&b=x%20y&a=2")) new_ServerResponse ltac:(repeat split; vm_compute; reflexivity) I) as Hp.
  destruct (urlencodedBody (ParserOpts (Some 16) None) form_request (Ok (js "a=1&b=x%20y&a=2")) new_ServerResponse) as [r s'].
  assert (Ef : form_type (ParserOpts (Some 16) None) form_request = true) by (vm_compute; reflexivity).
  assert (Ev : form_verdict (limit_of (ParserOpts (Some 16) None)) (Ok (js "a=1&b=x%20y&a=2")) = inl [(js "a", js "1"); (js "b", js "x y"); (js "a", js "2")]) by (vm_compute; reflexivity).
  rewrite Ef, Ev in Hp. destruct Hp as (out & -> & -> & Hk). exists out. split; [reflexivity|]. rewrite (Hk (js "a")). vm_compute. reflexivity.
Defined.
