(* ===== verification/FormData.v ===== *)
(** * Form data of [lib/lws/formdata.js] and the encoder of [multipart.js]

    [FormData] is its list of entries.  The body [MultipartFormData]
    streams is the chunks its generator yields, with the error it ends with
    if it does; a pull takes one chunk.  The fields of the encoder are
    listed in the order in which [for ... in] visits them. *)

From S2P Require Import Prelude JsString JsNumber Percent Utf8 StreamBase ServerResponse ServerResponseProps.
Open Scope Z_scope.

(* ------------------------------------------------------------------ *)
(** ** [FormData] *)

(** A file as an object: its properties, and the chunks its stream gives
    up to its end or error.  The stream is behind a private field. *)
Record file := File { fl_name : jsstr; fl_type : jsstr; fl_stream : list chunk * outcome unit }.

(** A value in the list: a string, a file, or a copy of the properties of
    one, which has no stream and no methods. *)
Inductive form_value := FormString (s : jsstr) | FormFile (f : file) | FormCopy (name type : jsstr).

Abbreviation entries := (list (jsstr * form_value)) (only parsing).

(** [{ ...value, name: String(filename) }] *)
Definition renamed (v : form_value) (filename : option jsstr) : form_value :=
  match filename, v with
  | Some n, FormFile f => FormCopy n (fl_type f)
  | Some n, FormCopy _ t => FormCopy n t
  | _, _ => v
  end.

Definition fd_append (name : jsstr) (value : form_value) (filename : option jsstr) (e : entries) : entries := e ++ [(name, renamed value filename)].
Definition fd_delete (name : jsstr) (e : entries) : entries := filter (fun p => p.1 <> name) e.
Definition fd_get (name : jsstr) (e : entries) : option form_value := snd <$> (snd <$> list_find (fun p => p.1 = name) e).
Definition fd_getAll (name : jsstr) (e : entries) : list form_value := (filter (fun p => p.1 = name) e).*2.
Definition fd_has (name : jsstr) (e : entries) : bool := existsb (fun p => bool_decide (p.1 = name)) e.
Definition fd_set (name : jsstr) (value : form_value) (filename : option jsstr) (e : entries) : entries :=
  filter (fun p => p.1 <> name) e ++ [(name, renamed value filename)].
Definition fd_keys (e : entries) : list jsstr := e.*1.
Definition fd_values (e : entries) : list form_value := e.*2.

(** The calls of the callback: value and name. *)
Definition fd_forEach (e : entries) : list (form_value * jsstr) := (fun p => (p.2, p.1)) <$> e.

(* ------------------------------------------------------------------ *)
(** ** [MultipartFormData] *)

(** [((Math.random() * 16) | 0).toString(16)], 32 times, each random number
    given as 53 bits. *)
Definition randomBoundary (random : nat -> Z) : jsstr := concat ((fun i => to_string 16 (Z.shiftr (random i * 16) 53)) <$> seq 0 32).

Definition quotedString (s : jsstr) (label : string) : outcome jsstr :=
  if existsb (fun u => (u =? 0x0d) || (u =? 0x0a)) s then Throw ErrTypeError ("MultipartFormData: " +:+ label +:+ " must not contain CR/LF")
  else Ok (replace_unit 0x22 [0x5c; 0x22] (replace_unit 0x5c [0x5c; 0x5c] s)).

Inductive field := FieldString (s : jsstr) | FieldFile (f : file) | FieldOther.

(** Code that yields chunks, may throw, and stops there. *)
Definition yields := (list chunk * outcome unit)%type.
Definition then_yield (a b : yields) : yields := match a with (cs, Ok _) => (cs ++ b.1, b.2) | (cs, Throw c m) => (cs, Throw c m) end.
Definition yield_text (s : outcome jsstr) : yields := match s with Ok s => ([CStr s], Ok tt) | Throw c m => ([], Throw c m) end.

Definition dq : jsstr := [0x22].

Section Encoder.
Context (boundary : jsstr).

Definition file_header (name : jsstr) (f : file) : outcome jsstr :=
  n ← quotedString name "field name"; fn ← quotedString (fl_name f) "file name";
  Ok (js "Content-Disposition: form-data; name=" ++ dq ++ n ++ dq ++ js "; filename=" ++ dq ++ fn ++ dq ++ crlf ++
      js "Content-Type: " ++ (match fl_type f with [] => js "application/octet-stream" | t => t end) ++ crlf ++ crlf).
Definition string_header (name : jsstr) : outcome jsstr :=
  n ← quotedString name "field name"; Ok (js "Content-Disposition: form-data; name=" ++ dq ++ n ++ dq ++ crlf ++ crlf).

Definition yield_field (p : jsstr * field) : yields :=
  then_yield (yield_text (Ok (js "--" ++ boundary ++ crlf)))
 (then_yield (match p.2 with
              | FieldFile f => then_yield (yield_text (file_header p.1 f)) (fl_stream f)
              | FieldString s => then_yield (yield_text (string_header p.1)) (yield_text (Ok s))
              | FieldOther => ([], Throw ErrTypeError "MultipartFormData: field must be a string or File")
              end)
             (yield_text (Ok crlf))).

Fixpoint generate (fields : list (jsstr * field)) : yields :=
  match fields with
  | [] => yield_text (Ok (js "--" ++ boundary ++ js "--" ++ crlf))
  | p :: fields => then_yield (yield_field p) (generate fields)
  end.

Definition contentType : jsstr := js "multipart/form-data; boundary=" ++ boundary.
End Encoder.

(** The body and the header of a request that carries it. *)
Definition new_MultipartFormData (random : nat -> Z) (fields : list (jsstr * field)) : jsstr * yields :=
  let boundary := js "----FormBoundary" ++ randomBoundary random in (contentType boundary, generate boundary fields).

(* ------------------------------------------------------------------ *)
(** ** What multipart bodies promise

    A reader of [multipart/form-data] that looks for the boundary gets the
    fields back, and the list behind [FormData] is a multimap. *)

#[local] Arguments js : simpl never.

(* ------------------------------------------------------------------ *)
(** ** Strings and their bytes *)

Lemma spread_nonhigh u t : is_high u = false -> spread (u :: t) = [u] :: spread t.
Proof. intros Hu. cbn [spread]. destruct t as [|l t]; [done|]. by rewrite Hu. Qed.

Lemma scalar_single u : scalar_char [u] = true -> is_high u = false /\ is_low u = false /\ 0 <= u.
Proof. cbn. rewrite !andb_true_iff, !negb_true_iff. intros [[[H1 H2] H3] H4]. split_and!; [done|done|lia]. Qed.

Lemma spread_app_scalar s t : well_formed s = true -> spread (s ++ t) = spread s ++ spread t.
Proof.
  unfold well_formed. apply (spread_ind (fun s l => forallb scalar_char l = true -> spread (s ++ t) = l ++ spread t)).
  - done.
  - intros h l s' E IH [_ Hs]%andb_true_iff. cbn [app spread]. rewrite E. cbn [app]. by rewrite IH.
  - intros u s' _ IH [Hu Hs]%andb_true_iff. cbn [app]. rewrite spread_nonhigh by apply scalar_single, Hu. by rewrite IH.
Qed.

Lemma well_formed_app s t : well_formed s = true -> well_formed t = true -> well_formed (s ++ t) = true.
Proof. intros Hs Ht. unfold well_formed. rewrite spread_app_scalar by done. rewrite forallb_app. by apply andb_true_iff. Qed.

Lemma encode_app s t : well_formed s = true -> encode (s ++ t) = encode s ++ encode t.
Proof. intros Hs. rewrite encode_spread, spread_app_scalar, fmap_app, concat_app by done. by rewrite <- !encode_spread. Qed.

Lemma utf8_cp_high cp : 0x80 <= cp -> Forall (fun b => 0x80 <= b) (utf8_cp cp).
Proof. intros Hcp. unfold utf8_cp. zb; repeat constructor; try lia; Z.to_euclidean_division_equations; lia. Qed.

(** A unit of ASCII that a string does not have, its bytes do not have. *)
Lemma encode_without u s : 0 <= u < 128 -> well_formed s = true -> u ∉ s -> u ∉ encode s.
Proof.
  intros Hu. unfold well_formed. cbn [encode utf8_codec]. unfold utf8_encode. apply (spread_ind (fun s l => forallb scalar_char l = true -> u ∉ s -> u ∉ concat (utf8_cp ∘ codePointAt0 <$> l))).
  - intros _ _. apply not_elem_of_nil.
  - intros h l t E IH [_ Hs]%andb_true_iff Hn. rewrite fmap_cons. cbn [concat compose]. rewrite not_elem_of_app. split; [|apply IH; [done|set_solver]].
    intros Hin. cbn [codePointAt0] in Hin. rewrite E in Hin. unfold is_high, is_low in E. assert (Hh := utf8_cp_high (0x10000 + (h - 0xD800) * 0x400 + (l - 0xDC00)) ltac:(lia)). rewrite Forall_forall in Hh. specialize (Hh _ Hin). lia.
  - intros v t _ IH [Hv Hs]%andb_true_iff Hn. rewrite fmap_cons. cbn [concat compose]. apply not_elem_of_cons in Hn as [Hne Hn]. rewrite not_elem_of_app. split; [|by apply IH].
    apply scalar_single in Hv as (_ & _ & Hv). cbn [codePointAt0]. destruct (Z.ltb_spec v 0x80).
    + unfold utf8_cp. z_tests. intros ->%list_elem_of_singleton. done.
    + intros Hin. assert (Hh := utf8_cp_high v ltac:(lia)). rewrite Forall_forall in Hh. specialize (Hh _ Hin). lia.
Qed.

Lemma well_formed_ascii s : Forall (fun u => 0 <= u < 128) s -> well_formed s = true.
Proof.
  intros Hs. unfold well_formed. rewrite spread_ascii by (eapply Forall_impl; [exact Hs|]; cbv beta; lia). rewrite forallb_forall. intros ch (u & <- & Hin)%in_map_iff.
  apply list_elem_of_In in Hin. rewrite Forall_forall in Hs. specialize (Hs u Hin). unfold scalar_char, is_high, is_low. rewrite !andb_true_iff, !negb_true_iff. lia.
Qed.

(* ------------------------------------------------------------------ *)
(** ** A reader of multipart bodies *)

Fixpoint find_sub (p s : bytes) : option nat :=
  if starts_with p s then Some 0%nat else match s with [] => None | _ :: s => S <$> find_sub p s end.

Fixpoint take_line (s : bytes) : option (bytes * bytes) :=
  if starts_with crlf s then Some ([], drop 2 s) else
  match s with [] => None | u :: s => '(l, r) ← take_line s; Some (u :: l, r) end.

Fixpoint take_quoted (s : jsstr) : option (jsstr * jsstr) :=
  match s with
  | [] => None
  | u :: t =>
    if u =? 0x22 then Some ([], t) else
    if u =? 0x5c then match t with v :: t => '(q, r) ← take_quoted t; Some (v :: q, r) | [] => None end else
    '(q, r) ← take_quoted t; Some (u :: q, r)
  end.

Definition strip (p s : jsstr) : option jsstr := if starts_with p s then Some (drop (length p) s) else None.

Record part := Part { pt_name : jsstr; pt_filename : option jsstr; pt_type : option jsstr; pt_body : bytes }.

Definition read_disposition (line : jsstr) : option (jsstr * option jsstr) :=
  rest ← strip (js "Content-Disposition: form-data; name=" ++ dq) line;
  '(name, rest) ← take_quoted rest;
  match rest with
  | [] => Some (name, None)
  | _ => rest ← strip (js "; filename=" ++ dq) rest; '(fn, rest) ← take_quoted rest; match rest with [] => Some (name, Some fn) | _ => None end
  end.

(** A line of a head, when it is UTF-8. *)
Definition text_of (line : bytes) : option jsstr := match decode line with Ok s => Some s | Throw _ _ => None end.

Definition read_head (s : bytes) : option ((jsstr * option jsstr * option jsstr) * bytes) :=
  '(line1, s) ← take_line s;
  line1 ← text_of line1;
  '(name, fn) ← read_disposition line1;
  '(line2, s) ← take_line s;
  match line2 with
  | [] => Some ((name, fn, None), s)
  | _ => line2 ← text_of line2; ty ← strip (js "Content-Type: ") line2; '(line3, s) ← take_line s; match line3 with [] => Some ((name, fn, Some ty), s) | _ => None end
  end.

Fixpoint read_parts (fuel : nat) (delimiter s : bytes) : option (list part) :=
  match fuel with
  | O => None
  | S fuel =>
    if starts_with (js "--" ++ crlf) s then Some [] else
    s ← strip crlf s;
    '((name, fn, ty), s) ← read_head s;
    i ← find_sub delimiter s;
    ps ← read_parts fuel delimiter (drop (i + length delimiter) s);
    Some (Part name fn ty (take i s) :: ps)
  end.

(** By the boundary that the content type names. *)
Definition read_multipart (contentType : jsstr) (s : bytes) : option (list part) :=
  boundary ← strip (js "multipart/form-data; boundary=") contentType;
  s ← strip (js "--" ++ boundary) s;
  read_parts (S (length s)) (crlf ++ js "--" ++ boundary) s.

(* ------------------------------------------------------------------ *)
(** ** Its pieces on what the encoder writes *)

Lemma starts_with_prefix p s : starts_with p (p ++ s) = true.
Proof. unfold starts_with. rewrite take_app_length. by apply bool_decide_eq_true_2. Qed.
Lemma strip_app p s : strip p (p ++ s) = Some s.
Proof. unfold strip. by rewrite starts_with_prefix, drop_app_length. Qed.

Lemma find_sub_app c q a r : c ∉ q -> find_sub (c :: q) a = None -> find_sub (c :: q) (a ++ (c :: q) ++ r) = Some (length a).
Proof.
  intros Hc. induction a as [|x a IH]; intros Ha.
  - change ([] ++ (c :: q) ++ r) with ((c :: q) ++ r). destruct ((c :: q) ++ r) as [|y l] eqn:E; [done|]. cbn [find_sub]. rewrite <- E, starts_with_prefix. done.
  - cbn [app find_sub] in Ha |- *. destruct (starts_with (c :: q) (x :: a)) eqn:Es; [done|]. destruct (find_sub (c :: q) a) eqn:Ef; [done|].
    assert (En : starts_with (c :: q) (x :: a ++ (c :: q) ++ r) = false).
    { unfold starts_with in *. apply bool_decide_eq_false in Es. apply bool_decide_eq_false. intros E. destruct (le_lt_dec (length (c :: q)) (length (x :: a))) as [Hle|Hlt].
      - apply Es. rewrite <- E at 2. by rewrite (app_comm_cons a), take_app_le.
      - rewrite (app_comm_cons a), take_app_ge in E by lia. assert (Hn : (x :: a ++ take (length (c :: q) - length (x :: a)) ((c :: q) ++ r)) !! length (x :: a) = Some c).
        { rewrite (app_comm_cons a), lookup_app_r by lia. rewrite Nat.sub_diag. rewrite lookup_take_lt by (cbn in *; lia). done. }
        rewrite (app_comm_cons a), E in Hn. cbn [length lookup list_lookup] in Hn. apply Hc. by apply list_elem_of_lookup_2 in Hn. }
    change (a ++ c :: q ++ r) with (a ++ (c :: q) ++ r). rewrite En, IH by done. done.
Qed.

Lemma take_line_app l s : 0x0d ∉ l -> take_line (l ++ crlf ++ s) = Some (l, s).
Proof.
  induction l as [|u l IH]; intros Hl; [done|]. apply not_elem_of_cons in Hl as [Hu Hl]. change ((u :: l) ++ crlf ++ s) with (u :: (l ++ crlf ++ s)). cbn [take_line].
  assert (E : starts_with crlf (u :: l ++ crlf ++ s) = false) by (unfold starts_with; apply bool_decide_eq_false; intros E; apply (f_equal head) in E; cbn in E; congruence). by rewrite E, IH.
Qed.

(** Quoting. *)
Definition esc (u : Z) : jsstr := if u =? 0x5c then [0x5c; 0x5c] else if u =? 0x22 then [0x5c; 0x22] else [u].
Definition quote (s : jsstr) : jsstr := concat (esc <$> s).

Lemma quoted_eq s label q : quotedString s label = Ok q -> 0x0d ∉ s /\ q = quote s.
Proof.
  unfold quotedString. destruct (existsb _ s) eqn:E; [done|]. intros <-%Ok_inj. split.
  - intros Hin. assert (Ht : existsb (fun u => (u =? 0x0d) || (u =? 0x0a)) s = true) by (apply existsb_exists; exists 0x0d; split; [by apply list_elem_of_In|done]). congruence.
  - unfold replace_unit, quote. clear E. induction s as [|u s IH]; [done|]. rewrite !fmap_cons. cbn [concat]. rewrite fmap_app, concat_app, IH. f_equal.
    unfold esc. destruct (Z.eqb_spec u 0x5c) as [->|]; [done|]. cbn. by rewrite app_nil_r.
Qed.

Lemma take_quoted_quote s r : take_quoted (quote s ++ 0x22 :: r) = Some (s, r).
Proof.
  unfold quote. induction s as [|u s IH]; [done|]. rewrite fmap_cons. cbn [concat]. rewrite <- app_assoc. unfold esc at 1.
  destruct (Z.eqb_spec u 0x5c) as [->|H1]; [cbn [app take_quoted Z.eqb]; cbv iota; cbn; by rewrite IH|].
  destruct (Z.eqb_spec u 0x22) as [->|H2]; [cbn; by rewrite IH|]. cbn [app take_quoted]. rewrite (proj2 (Z.eqb_neq u 0x22)), (proj2 (Z.eqb_neq u 0x5c)) by done. by rewrite IH.
Qed.

Lemma quote_without s : 0x0d ∉ s -> 0x0d ∉ quote s.
Proof.
  intros Hs Hin. unfold quote in Hin. apply list_elem_of_In, in_concat in Hin as (l & Hl & Hd). apply in_map_iff in Hl as (u & <- & Hu). apply list_elem_of_In in Hu, Hd.
  unfold esc in Hd. destruct (u =? 0x5c); [set_solver by lia|]. destruct (u =? 0x22); [set_solver by lia|]. set_solver.
Qed.

Lemma quote_well_formed s : well_formed s = true -> well_formed (quote s) = true.
Proof.
  unfold well_formed at 1. apply (spread_ind (fun s l => forallb scalar_char l = true -> well_formed (quote s) = true)); [done| |].
  - intros h l t E IH [_ Hs]%andb_true_iff. specialize (IH Hs). unfold quote in *. rewrite !fmap_cons. cbn [concat].
    assert (Hh : esc h = [h] /\ esc l = [l]). { unfold is_high, is_low in E. unfold esc. split; [destruct (Z.eqb_spec h 0x5c); [lia|]; destruct (Z.eqb_spec h 0x22); [lia|done]|destruct (Z.eqb_spec l 0x5c); [lia|]; destruct (Z.eqb_spec l 0x22); [lia|done]]. }
    destruct Hh as [-> ->]. apply (well_formed_app [h; l]); [|done]. unfold well_formed. cbn [spread]. rewrite E. cbn. by rewrite E.
  - intros u t _ IH [Hu Hs]%andb_true_iff. specialize (IH Hs). unfold quote in *. rewrite fmap_cons. cbn [concat]. apply well_formed_app; [|done].
    unfold esc. destruct (u =? 0x5c); [done|]. destruct (u =? 0x22); [done|]. unfold well_formed. cbn [spread forallb]. by rewrite Hu.
Qed.

(** The lines of a head. *)
Definition disposition (name : jsstr) (fn : option jsstr) : jsstr :=
  (js "Content-Disposition: form-data; name=" ++ dq) ++ quote name ++ [0x22] ++ match fn with Some f => (js "; filename=" ++ dq) ++ quote f ++ [0x22] | None => [] end.

Lemma read_disposition_written name fn : read_disposition (disposition name fn) = Some (name, fn).
Proof.
  unfold read_disposition, disposition. rewrite strip_app. cbn [mbind option_bind]. change ([0x22] ++ ?x) with (0x22 :: x). rewrite take_quoted_quote. cbn [mbind option_bind]. destruct fn as [f|]; [|done].
  destruct ((js "; filename=" ++ dq) ++ quote f ++ [0x22]) eqn:E; [apply (f_equal length) in E; rewrite !length_app in E; cbn in E; lia|]. rewrite <- E, strip_app. cbn [mbind option_bind].
  by rewrite take_quoted_quote.
Qed.

Lemma string_header_lines name h : string_header name = Ok h -> 0x0d ∉ name /\ h = disposition name None ++ crlf ++ crlf.
Proof.
  unfold string_header. destruct (quotedString name "field name") as [n|] eqn:En; [|done]. apply quoted_eq in En as [Hn ->]. cbn. intros <-%Ok_inj. split; [done|].
  unfold disposition, dq. by rewrite <- !app_assoc.
Qed.

Definition file_type (f : file) : jsstr := match fl_type f with [] => js "application/octet-stream" | t => t end.
Lemma file_header_lines name f h : file_header name f = Ok h ->
  0x0d ∉ name /\ 0x0d ∉ fl_name f /\ h = disposition name (Some (fl_name f)) ++ crlf ++ (js "Content-Type: " ++ file_type f) ++ crlf ++ crlf.
Proof.
  unfold file_header. destruct (quotedString name "field name") as [n|] eqn:En; [|done]. destruct (quotedString (fl_name f) "file name") as [n'|] eqn:Ef; [|done].
  apply quoted_eq in En as [Hn ->]. apply quoted_eq in Ef as [Hf ->]. cbn [mbind outcome_bind]. intros <-%Ok_inj. split_and!; [done|done|].
  unfold disposition, dq, file_type. by rewrite <- !app_assoc.
Qed.

Lemma disposition_without name fn : 0x0d ∉ name -> match fn with Some f => 0x0d ∉ f | None => True end -> 0x0d ∉ disposition name fn.
Proof.
  intros Hn Hf. unfold disposition. rewrite !not_elem_of_app. split_and!; try (apply (bool_decide_unpack _); vm_compute; exact I); [by apply quote_without|].
  destruct fn as [f|]; [|apply not_elem_of_nil]. rewrite !not_elem_of_app. split_and!; try (apply (bool_decide_unpack _); vm_compute; exact I). by apply quote_without.
Qed.
Lemma disposition_well_formed name fn : well_formed name = true -> match fn with Some f => well_formed f = true | None => True end -> well_formed (disposition name fn) = true.
Proof.
  intros Hn Hf. unfold disposition. apply well_formed_app; [vm_compute; reflexivity|]. apply well_formed_app; [by apply quote_well_formed|]. apply (well_formed_app [0x22]); [vm_compute; reflexivity|].
  destruct fn as [f|]; [|done]. apply well_formed_app; [vm_compute; reflexivity|]. apply well_formed_app; [by apply quote_well_formed|vm_compute; reflexivity].
Qed.

(* ------------------------------------------------------------------ *)
(** ** The whole body *)

(** What a field is read back as. *)
Definition field_content (f : field) : bytes := match f with FieldString s => encode s | FieldFile f => body_bytes (fl_stream f).1 | FieldOther => [] end.
Definition read_as (p : jsstr * field) : part :=
  match p.2 with
  | FieldFile f => Part p.1 (Some (fl_name f)) (Some (file_type f)) (field_content p.2)
  | _ => Part p.1 None None (field_content p.2)
  end.

(** Names can be quoted and encoded, the type of a file is one line, its
    stream ends well, and the delimiter is not in the content. *)
Definition sound_name (s : jsstr) : Prop := well_formed s = true /\ exists q, forall label, quotedString s label = Ok q.
Definition sound_field (delimiter : bytes) (p : jsstr * field) : Prop :=
  sound_name p.1 /\ find_sub delimiter (field_content p.2) = None /\
  match p.2 with
  | FieldString _ => True
  | FieldFile f => sound_name (fl_name f) /\ well_formed (fl_type f) = true /\ 0x0d ∉ fl_type f /\ (fl_stream f).2 = Ok tt
  | FieldOther => False
  end.

Definition head_bytes (p : jsstr * field) : bytes :=
  match p.2 with
  | FieldFile f => encode (disposition p.1 (Some (fl_name f))) ++ crlf ++ encode (js "Content-Type: " ++ file_type f) ++ crlf ++ crlf
  | _ => encode (disposition p.1 None) ++ crlf ++ crlf
  end.

Lemma read_head_written p d rest : sound_field d p ->
  read_head (head_bytes p ++ rest) = Some (match p.2 with FieldFile f => (p.1, Some (fl_name f), Some (file_type f)) | _ => (p.1, None, None) end, rest).
Proof.
  destruct p as [name f]. intros ((Hw & q & Hq) & _ & Hf). cbn [fst snd] in *. specialize (Hq "name"%string); apply quoted_eq in Hq as [Hn ->]. unfold read_head, head_bytes. cbn [fst snd].
  assert (Hline : forall fn rest, match fn with Some f => 0x0d ∉ f /\ well_formed f = true | None => True end ->
    take_line (encode (disposition name fn) ++ crlf ++ rest) = Some (encode (disposition name fn), rest) /\ text_of (encode (disposition name fn)) = Some (disposition name fn)).
  { intros fn r Hfn. assert (Hd : well_formed (disposition name fn) = true) by (apply disposition_well_formed; [done|by destruct fn; [apply Hfn|]]).
    split; [|unfold text_of; by rewrite decode_encode]. apply take_line_app, encode_without; [lia|done|]. apply disposition_without; [done|by destruct fn; [apply Hfn|]]. }
  destruct f as [s|f|]; [| |done].
  - destruct (Hline None (crlf ++ rest) I) as [H1 H2]. rewrite <- !app_assoc, H1. cbn [mbind option_bind]. rewrite H2. cbn [mbind option_bind]. rewrite read_disposition_written. cbn [mbind option_bind].
    change (crlf ++ rest) with ([] ++ crlf ++ rest). by rewrite take_line_app by apply not_elem_of_nil.
  - destruct Hf as ((Hfw & q & Hfq) & Htw & Ht & _). specialize (Hfq "name"%string); apply quoted_eq in Hfq as [Hfn ->].
    destruct (Hline (Some (fl_name f)) (encode (js "Content-Type: " ++ file_type f) ++ crlf ++ crlf ++ rest) (conj Hfn Hfw)) as [H1 H2].
    rewrite <- !app_assoc, H1. cbn [mbind option_bind]. rewrite H2. cbn [mbind option_bind]. rewrite read_disposition_written. cbn [mbind option_bind].
    assert (Hft : well_formed (file_type f) = true /\ 0x0d ∉ file_type f). { unfold file_type. destruct (fl_type f); [|done]. split; [vm_compute; reflexivity|apply (bool_decide_unpack _); vm_compute; exact I]. }
    assert (Hcw : well_formed (js "Content-Type: " ++ file_type f) = true) by (apply well_formed_app; [vm_compute; reflexivity|apply Hft]).
    rewrite take_line_app; [|apply encode_without; [lia|done|]; rewrite not_elem_of_app; split; [apply (bool_decide_unpack _); vm_compute; exact I|apply Hft]].
    cbn [mbind option_bind]. unfold text_of at 1. rewrite (decode_encode _ Hcw).
    destruct (encode (js "Content-Type: " ++ file_type f)) as [|b l] eqn:E; [rewrite encode_app in E by (vm_compute; reflexivity); apply app_nil in E as [E _]; by vm_compute in E|].
    cbn [mbind option_bind]. rewrite strip_app. cbn [mbind option_bind]. change (crlf ++ rest) with ([] ++ crlf ++ rest). by rewrite take_line_app by apply not_elem_of_nil.
Qed.

(** The body behind the first boundary. *)
Definition ascii (s : jsstr) : Prop := Forall (fun u => 0 <= u < 128) s.
Fixpoint tail_bytes (b : jsstr) (fields : list (jsstr * field)) : bytes :=
  match fields with
  | [] => js "--" ++ crlf
  | p :: fields => crlf ++ head_bytes p ++ field_content p.2 ++ (crlf ++ js "--" ++ b) ++ tail_bytes b fields
  end.

Lemma then_ok (a b : yields) : a.2 = Ok tt -> then_yield a b = (a.1 ++ b.1, b.2).
Proof. destruct a as [cs [[]|c m]]; cbn; [done|discriminate]. Qed.

Lemma body_text s : body_bytes [CStr s] = encode s.
Proof. unfold body_bytes. cbn. by rewrite app_nil_r. Qed.

Lemma encode_crlf_after s t : well_formed s = true -> encode (s ++ crlf ++ t) = encode s ++ crlf ++ encode t.
Proof. intros Hs. rewrite encode_app by done. f_equal. by rewrite encode_app by done. Qed.

(** The lines of a head as the generator yields them. *)
Lemma head_written p d : sound_field d p ->
  exists h, match p.2 with FieldFile f => file_header p.1 f | _ => string_header p.1 end = Ok h /\ encode h = head_bytes p.
Proof.
  destruct p as [name f]. intros ((Hw & q & Hq) & _ & Hf). cbn [fst snd] in *. unfold head_bytes. cbn [fst snd]. destruct f as [s|f|]; [| |done].
  - destruct (string_header name) as [h|] eqn:Eh; [|unfold string_header in Eh; by rewrite Hq in Eh]. exists h. split; [done|].
    apply string_header_lines in Eh as [_ ->]. rewrite encode_crlf_after by (by apply disposition_well_formed). done.
  - destruct Hf as ((Hfw & q' & Hq') & Htw & Ht & _). destruct (file_header name f) as [h|] eqn:Eh; [|unfold file_header in Eh; by rewrite Hq, Hq' in Eh].
    exists h. split; [done|]. apply file_header_lines in Eh as (_ & _ & ->). rewrite encode_crlf_after by (by apply disposition_well_formed). do 2 f_equal.
    rewrite encode_crlf_after; [done|]. apply well_formed_app; [vm_compute; reflexivity|]. unfold file_type. destruct (fl_type f); [vm_compute; reflexivity|done].
Qed.

Lemma yield_field_wire b p d : ascii b -> sound_field d p ->
  (yield_field b p).2 = Ok tt /\ body_bytes (yield_field b p).1 = js "--" ++ b ++ crlf ++ head_bytes p ++ field_content p.2 ++ crlf.
Proof.
  intros Hb Hp. destruct (head_written p d Hp) as (h & Hh & He). destruct p as [name f]. destruct Hp as (_ & _ & Hf). cbn [fst snd] in *.
  assert (Hbound : encode (js "--" ++ b ++ crlf) = js "--" ++ b ++ crlf).
  { apply encode_ascii_string. apply Forall_app. split; [|apply Forall_app; split; [done|]]; apply (bool_decide_unpack _); vm_compute; exact I. }
  unfold yield_field. cbn [fst snd]. rewrite then_ok by done. cbn [yield_text fst snd].
  destruct f as [s|f|]; [| |done]; rewrite Hh; cbn [yield_text].
  - rewrite then_ok by done. cbn [then_yield fst snd app]. split; [done|]. unfold body_bytes. cbn [fmap list_fmap concat chunk_bytes]. rewrite Hbound, He, app_nil_r, <- !app_assoc. done.
  - destruct Hf as (_ & _ & _ & Hs). rewrite (then_ok _ (fl_stream f)) by done. cbn [fst snd]. rewrite then_ok by done. cbn [fst snd]. split; [done|].
    rewrite !body_bytes_app, !body_text, Hbound, He, <- !app_assoc. done.
Qed.

Lemma generate_wire b fields d : ascii b -> Forall (sound_field d) fields ->
  (generate b fields).2 = Ok tt /\ body_bytes (generate b fields).1 = js "--" ++ b ++ tail_bytes b fields.
Proof.
  intros Hb. induction 1 as [|p fields Hp _ [IH1 IH2]]; cbn [generate].
  - split; [done|]. cbn [yield_text fst]. rewrite body_text. apply encode_ascii_string. apply Forall_app. split; [|apply Forall_app; split; [done|]]; apply (bool_decide_unpack _); vm_compute; exact I.
  - destruct (yield_field_wire b p d Hb Hp) as [H1 H2]. rewrite then_ok by done. cbn [fst snd]. split; [done|].
    rewrite body_bytes_app, H2, IH2. cbn [tail_bytes]. by rewrite <- !app_assoc.
Qed.

Lemma read_parts_written b fields d fuel : d = crlf ++ js "--" ++ b -> 0x0d ∉ b -> Forall (sound_field d) fields -> (length fields < fuel)%nat ->
  read_parts fuel d (tail_bytes b fields) = Some (read_as <$> fields).
Proof.
  intros Hd Hb Hs. revert fuel. induction Hs as [|p fields Hp _ IH]; intros [|fuel] Hf; [cbn in Hf; lia| |cbn in Hf; lia|].
  - cbn [tail_bytes read_parts]. change (starts_with (js "--" ++ crlf) (js "--" ++ crlf)) with true. done.
  - cbn [tail_bytes read_parts]. assert (starts_with (js "--" ++ crlf) (crlf ++ head_bytes p ++ field_content p.2 ++ (crlf ++ js "--" ++ b) ++ tail_bytes b fields) = false) as ->.
    { unfold starts_with. apply bool_decide_eq_false. intros E. apply (f_equal head) in E. by vm_compute in E. }
    rewrite strip_app. cbn [mbind option_bind]. rewrite (read_head_written p d) by done. cbn [mbind option_bind].
    assert (Hfind : find_sub d (field_content p.2 ++ d ++ tail_bytes b fields) = Some (length (field_content p.2))).
    { subst d. apply (find_sub_app 0x0d (0x0a :: js "--" ++ b)); [|apply Hp]. rewrite not_elem_of_cons, not_elem_of_app. split_and!; [lia| |done]. apply (bool_decide_unpack _). vm_compute. exact I. }
    rewrite <- Hd. destruct (p.2) as [s|f|] eqn:Ep; cbn [mbind option_bind]; rewrite Hfind; cbn [mbind option_bind];
      rewrite take_app_length, app_assoc, drop_app_length' by (by rewrite length_app); rewrite IH by (cbn in Hf; lia); rewrite fmap_cons; unfold read_as; rewrite Ep; done.
Qed.

Lemma tail_length b fields : (length fields < length (tail_bytes b fields))%nat.
Proof. induction fields as [|p fields IH]; [apply (bool_decide_unpack _); vm_compute; exact I|]. cbn [tail_bytes length]. rewrite !length_app. change (length crlf) with 2%nat. lia. Qed.

(** The boundary of the class: hexadecimal digits behind a fixed text. *)
Lemma digits_plain n : 0 <= n < 16 -> ascii (to_string 16 n) /\ 0x0d ∉ to_string 16 n.
Proof. intros Hn. assert (E : exists k, (k < 16)%nat /\ n = Z.of_nat k) by (exists (Z.to_nat n); lia). destruct E as (k & Hk & ->). do 16 (destruct k as [|k]; [split; apply (bool_decide_unpack _); vm_compute; exact I|]). lia. Qed.

Lemma boundary_plain random : (forall i, 0 <= random i < 2 ^ 53) -> ascii (js "----FormBoundary" ++ randomBoundary random) /\ 0x0d ∉ js "----FormBoundary" ++ randomBoundary random.
Proof.
  intros Hr. assert (Hd : forall i, 0 <= Z.shiftr (random i * 16) 53 < 16) by (intros i; specialize (Hr i); rewrite Z.shiftr_div_pow2 by lia; split; [apply Z.div_pos; lia|apply Z.div_lt_upper_bound; lia]).
  unfold randomBoundary. generalize (seq 0 32). intros l. split.
  - apply Forall_app. split; [apply (bool_decide_unpack _); vm_compute; exact I|]. induction l as [|i l IH]; [constructor|]. rewrite fmap_cons. cbn [concat]. apply Forall_app. split; [apply digits_plain, Hd|done].
  - rewrite not_elem_of_app. split; [apply (bool_decide_unpack _); vm_compute; exact I|]. induction l as [|i l IH]; [apply not_elem_of_nil|]. rewrite fmap_cons. cbn [concat]. rewrite not_elem_of_app. split; [apply digits_plain, Hd|done].
Qed.

(** the body of a [MultipartFormData] is read back from its bytes and
    its content type alone: whatever the random numbers, when the fields are
    strings and files with names that can be quoted, a file's type is one
    line and its stream ends without an error, and no content has the
    delimiter, the generator ends without an error and a reader of
    [multipart/form-data] finds each field, in order, with its name, its
    content in UTF-8, and the name and type of a file (without a type,
    [application/octet-stream]). *)
Theorem multipart_roundtrip random fields (delimiter := crlf ++ js "--" ++ js "----FormBoundary" ++ randomBoundary random) :
  (forall i, 0 <= random i < 2 ^ 53) -> Forall (sound_field delimiter) fields ->
  let '(type, (chunks, e)) := new_MultipartFormData random fields in
  e = Ok tt /\ read_multipart type (body_bytes chunks) = Some (read_as <$> fields).
Proof.
  intros Hr Hs. destruct (boundary_plain random Hr) as [Ha Hn]. unfold new_MultipartFormData. set (b := js "----FormBoundary" ++ randomBoundary random) in *.
  destruct (generate_wire b fields delimiter Ha Hs) as [H1 H2]. destruct (generate b fields) as [chunks e] eqn:Eg. cbn [fst snd] in *. split; [done|].
  unfold read_multipart, contentType. rewrite strip_app. cbn [mbind option_bind]. rewrite H2, (app_assoc (js "--") b (tail_bytes b fields)), strip_app. cbn [mbind option_bind].
  apply read_parts_written; [done|done|done|]. assert (Hl := tail_length b fields). lia.
Qed.

Definition fields_example : list (jsstr * field) :=
  [(js "a", FieldString (js "1"));
   (js "say " ++ dq ++ js "hi" ++ dq, FieldFile (File (js "c:\x") [] ([CStr (js "x"); CBuf [0x0d; 0x0a; 0x2d]], Ok tt)))].

Definition random_example (i : nat) : Z := (Z.of_nat i mod 64) * 2 ^ 47.

Lemma multipart_roundtrip_witness :
  let '(type, (chunks, e)) := new_MultipartFormData random_example fields_example in
  e = Ok tt /\ read_multipart type (body_bytes chunks) = Some (read_as <$> fields_example).
Proof.
  apply (multipart_roundtrip random_example fields_example).
  - intros i. unfold random_example. assert (H := Z.mod_pos_bound (Z.of_nat i) 64 ltac:(lia)). change (2 ^ 53) with (64 * 2 ^ 47). lia.
  - repeat constructor; cbn [fst snd]; try (vm_compute; reflexivity); try (eexists; vm_compute; reflexivity). apply not_elem_of_nil.
Defined.
