(* ===== verification/Events.v ===== *)
(** * Events and abort signals of [lib/lws/events.js] and [lib/lws/abort.js]

    Targets, signals and functions are objects with an identity, a number.
    What a function of the program does when it is called is a list of
    actions that may depend on all of the state: it can add and remove
    listeners, dispatch further events, abort and throw, so that dispatches
    nest.  The functions the two files make (wrappers, the handler that
    ends a registration, that of [AbortSignal.any]) are modelled by what
    they close over.  Fuel is the depth of the stack: without any left a
    call throws a [RangeError]. *)

From S2P Require Import Prelude StreamBase.
Open Scope Z_scope.

(** The [code] of a function object. *)
Inductive code :=
| User
| Wrapper (once : bool) (target : nat) (type : jsstr) (listener : nat)
| Unlisten (target : nat) (type : jsstr) (listener : nat)
| Follow (controller signal group : nat).

#[export] Instance code_eq_dec : EqDecision code.
Proof. solve_decision. Defined.

(** [#listeners], [#listenerMap], the handlers in [on...] properties, and
    what an [AbortSignal] has besides. *)
Record target := Target {
  tg_listeners : gmap (list Z) (list nat); tg_map : gmap nat (list (jsstr * nat)); tg_on : gmap (list Z) nat;
  tg_isSignal : bool; tg_aborted : bool; tg_reason : reason }.

(** [gr_handlers] are those of a call of [any], by signal. *)
Record group := Group { gr_signals : list nat; gr_handlers : gmap nat nat }.

(** Identities are given out in order; the log has the calls of the
    program's functions with the type of their event. *)
Record heap := Heap { hp_targets : gmap nat target; hp_fns : gmap nat code; hp_groups : gmap nat group; hp_next : nat; hp_log : list (nat * jsstr) }.

Abbreviation EM := (SM heap) (only parsing).

Definition new_target (isSignal : bool) : target := Target ∅ ∅ ∅ isSignal false Undefined.
Definition empty_heap : heap := Heap ∅ ∅ ∅ 0 [].

Definition set_listeners v tg := Target v (tg_map tg) (tg_on tg) (tg_isSignal tg) (tg_aborted tg) (tg_reason tg).
Definition set_map v tg := Target (tg_listeners tg) v (tg_on tg) (tg_isSignal tg) (tg_aborted tg) (tg_reason tg).
Definition set_on v tg := Target (tg_listeners tg) (tg_map tg) v (tg_isSignal tg) (tg_aborted tg) (tg_reason tg).
Definition set_aborted v tg := Target (tg_listeners tg) (tg_map tg) (tg_on tg) (tg_isSignal tg) v (tg_reason tg).
Definition set_reason v tg := Target (tg_listeners tg) (tg_map tg) (tg_on tg) (tg_isSignal tg) (tg_aborted tg) v.

Definition set_targets v h := Heap v (hp_fns h) (hp_groups h) (hp_next h) (hp_log h).
Definition the (t : nat) (h : heap) : target := default (new_target false) (hp_targets h !! t).
Definition upd (t : nat) (f : target -> target) : EM unit := modify (fun h => set_targets (<[t := f (the t h)]> (hp_targets h)) h).

Definition make_target (tg : target) : EM nat := fun h =>
  (Ok (hp_next h), Heap (<[hp_next h := tg]> (hp_targets h)) (hp_fns h) (hp_groups h) (S (hp_next h)) (hp_log h)).
Definition make_fn (c : code) : EM nat := fun h =>
  (Ok (hp_next h), Heap (hp_targets h) (<[hp_next h := c]> (hp_fns h)) (hp_groups h) (S (hp_next h)) (hp_log h)).
Definition make_group (g : group) : EM nat := fun h =>
  (Ok (hp_next h), Heap (hp_targets h) (hp_fns h) (<[hp_next h := g]> (hp_groups h)) (S (hp_next h)) (hp_log h)).
Definition set_group (i : nat) (g : group) : EM unit := modify (fun h => Heap (hp_targets h) (hp_fns h) (<[i := g]> (hp_groups h)) (hp_next h) (hp_log h)).
Definition log_call (f : nat) (type : jsstr) : EM unit := modify (fun h => Heap (hp_targets h) (hp_fns h) (hp_groups h) (hp_next h) (hp_log h ++ [(f, type)])).

(* ------------------------------------------------------------------ *)
(** ** [EventTarget] *)

(** Properties that [#listeners], an object literal, inherits. *)
Definition inherited (type : jsstr) : bool :=
  bool_decide (type ∈ [js "__proto__"; js "constructor"; js "hasOwnProperty"; js "isPrototypeOf"; js "propertyIsEnumerable"; js "toLocaleString"; js "toString"; js "valueOf";
    js "__defineGetter__"; js "__defineSetter__"; js "__lookupGetter__"; js "__lookupSetter__"]).

Definition removeAll (arr : list nat) (elem : nat) : list nat := filter (fun x => x <> elem) arr.

(** The wrapper of the last entry of a type, and the entries without it. *)
Fixpoint last_of (type : jsstr) (ws : list (jsstr * nat)) : option (nat * list (jsstr * nat)) :=
  match ws with
  | [] => None
  | e :: ws =>
    match last_of type ws with
    | Some (w, rest) => Some (w, e :: rest)
    | None => if bool_decide (e.1 = type) then Some (e.2, ws) else None
    end
  end.

(** [addEventListener] up to its part on the signal; a listener is wrapped
    when one of the two options is given. *)
Definition add_listener (t : nat) (type : jsstr) (listener : nat) (once wrapped : bool) : EM unit :=
  actual ← (if wrapped then
    w ← make_fn (Wrapper once t type listener);
    upd t (fun tg => set_map (<[listener := default [] (tg_map tg !! listener) ++ [(type, w)]]> (tg_map tg)) tg) ;;
    mret w
  else mret listener);
  if inherited type then throw ErrTypeError "not a function" else
  upd t (fun tg => set_listeners (<[type := default [] (tg_listeners tg !! type) ++ [actual]]> (tg_listeners tg)) tg).

Definition abort_type : jsstr := js "abort".

Definition addEventListener (t : nat) (type : jsstr) (listener : nat) (once : bool) (signal : option nat) : EM unit :=
  match signal with
  | None => add_listener t type listener once once
  | Some s =>
    aborted ← gets (fun h => tg_aborted (the s h));
    if aborted : bool then mret tt else
    add_listener t type listener once true ;;
    u ← make_fn (Unlisten t type listener);
    add_listener s abort_type u true true
  end.

Definition removeEventListener (t : nat) (type : jsstr) (listener : nat) : EM unit :=
  tg ← gets (the t);
  if negb (bool_decide (is_Some (tg_listeners tg !! type))) && negb (inherited type) then mret tt else
  match tg_map tg !! listener with
  | Some ws =>
    match last_of type ws with
    | Some (wrapper, rest) =>
      upd t (fun tg => set_listeners (alter (fun l => removeAll l wrapper) type (tg_listeners tg)) tg) ;;
      upd t (fun tg => set_map (match rest with [] => delete listener (tg_map tg) | _ => <[listener := rest]> (tg_map tg) end) tg)
    | None => mret tt
    end
  | None => upd t (fun tg => set_listeners (alter (fun l => removeAll l listener) type (tg_listeners tg)) tg)
  end ;;
  upd t (fun tg => set_listeners (match tg_listeners tg !! type with Some [] => delete type (tg_listeners tg) | _ => tg_listeners tg end) tg).

(* ------------------------------------------------------------------ *)
(** ** Dispatch, and abort controllers *)

(** An abort controller is named by its signal. *)
Inductive action :=
| DoAdd (t : nat) (type : jsstr) (f : nat) (once : bool) (signal : option nat)
| DoRemove (t : nat) (type : jsstr) (f : nat)
| DoDispatch (t : nat) (type : jsstr)
| DoAbort (c : nat) (r : reason)
| DoOn (t : nat) (type : jsstr) (f : option nat)
| DoAny (signals : list nat)
| DoThrow (message : string).

Section Dispatch.
(** A call of a function object with an event of the type. *)
Variable call : nat -> jsstr -> EM unit.

Fixpoint call_all (fs : list nat) (type : jsstr) : EM unit :=
  match fs with [] => mret tt | f :: fs => call f type ;; call_all fs type end.

Definition call_on (t : nat) (type : jsstr) : EM unit :=
  handler ← gets (fun h => tg_on (the t h) !! type);
  match handler with Some f => call f type | None => mret tt end.

Definition target_dispatchEvent (t : nat) (type : jsstr) : EM unit :=
  queue ← gets (fun h => tg_listeners (the t h) !! type);
  match queue with
  | Some queue => call_all queue type
  | None => if inherited type then throw ErrTypeError "not iterable" else mret tt
  end ;;
  call_on t type.

(** That of [AbortSignal] comes before that of its superclass. *)
Definition dispatchEvent (t : nat) (type : jsstr) : EM unit :=
  isSignal ← gets (fun h => tg_isSignal (the t h));
  when (isSignal && bool_decide (type = abort_type)) (upd t (set_aborted true) ;; call_on t type) ;;
  target_dispatchEvent t type.

Definition normalizeAbortReason (r : reason) : reason :=
  match r with Undefined => ErrorObj ErrError "This operation was aborted" | _ => r end.

Definition abort (c : nat) (r : reason) : EM unit :=
  upd c (set_reason (normalizeAbortReason r)) ;; dispatchEvent c abort_type.

(** [clean]; a signal without a handler is refused by [checkListener]. *)
Fixpoint clean_signals (handlers : gmap nat nat) (signals : list nat) : EM unit :=
  match signals with
  | [] => mret tt
  | s :: signals =>
    match handlers !! s with
    | Some f => removeEventListener s abort_type f
    | None => throw ErrTypeError "`listener` must be a function"
    end ;;
    clean_signals handlers signals
  end.
Definition clean (g : nat) : EM unit :=
  gr ← gets (fun h => default (Group [] ∅) (hp_groups h !! g));
  clean_signals (gr_handlers gr) (gr_signals gr).

Fixpoint any_loop (c g : nat) (all signals : list nat) (handlers : gmap nat nat) : EM unit :=
  match signals with
  | [] => mret tt
  | s :: signals =>
    aborted ← gets (fun h => tg_aborted (the s h));
    if aborted : bool then r ← gets (fun h => tg_reason (the s h)); abort c r else
    f ← make_fn (Follow c s g);
    let handlers := <[s := f]> handlers in
    set_group g (Group all handlers) ;;
    addEventListener s abort_type f false None ;;
    any_loop c g all signals handlers
  end.

(** [AbortSignal.any]: the new signal. *)
Definition any (signals : list nat) : EM nat :=
  c ← make_target (new_target true);
  g ← make_group (Group signals ∅);
  any_loop c g signals signals ∅ ;;
  mret c.

(** The program has its own functions to pass, and targets that exist. *)
Definition user_fn (f : nat) (h : heap) : bool := match hp_fns h !! f with Some User => true | _ => false end.
Definition known_target (t : nat) (h : heap) : bool := bool_decide (is_Some (hp_targets h !! t)).
Definition known_signal (s : nat) (h : heap) : bool := known_target s h && tg_isSignal (the s h).
Definition guarded (p : heap -> bool) (m : EM unit) : EM unit := ok ← gets p; when ok m.

Definition perform (a : action) : EM unit :=
  match a with
  | DoAdd t type f once signal => guarded (fun h => known_target t h && user_fn f h && match signal with Some s => known_signal s h | None => true end) (addEventListener t type f once signal)
  | DoRemove t type f => guarded (fun h => known_target t h && user_fn f h) (removeEventListener t type f)
  | DoDispatch t type => guarded (known_target t) (dispatchEvent t type)
  | DoAbort c r => guarded (known_signal c) (abort c r)
  | DoOn t type f =>
    guarded (fun h => known_target t h && match f with Some f => user_fn f h | None => true end)
      (upd t (fun tg => set_on (match f with Some f => <[type := f]> (tg_on tg) | None => delete type (tg_on tg) end) tg))
  | DoAny signals => guarded (fun h => forallb (fun s => known_signal s h) signals) (c ← any signals; mret tt)
  | DoThrow message => throw ErrError message
  end.
Fixpoint perform_all (actions : list action) : EM unit :=
  match actions with [] => mret tt | a :: actions => perform a ;; perform_all actions end.

(** The body of a function object. *)
Definition body (script : nat -> heap -> list action) (f : nat) (type : jsstr) : EM unit :=
  c ← gets (fun h => hp_fns h !! f);
  match c with
  | None => throw ErrTypeError "not a function"
  | Some User => log_call f type ;; actions ← gets (script f); perform_all actions
  | Some (Wrapper once t type' listener) => when once (removeEventListener t type' listener) ;; call listener type
  | Some (Unlisten t type' listener) => removeEventListener t type' listener
  | Some (Follow c s g) => r ← gets (fun h => tg_reason (the s h)); abort c r ;; clean g
  end.
End Dispatch.

Fixpoint call (script : nat -> heap -> list action) (fuel : nat) (f : nat) (type : jsstr) : EM unit :=
  match fuel with
  | O => throw ErrRangeError "Maximum call stack size exceeded"
  | S fuel => body (call script fuel) script f type
  end.

(** A program from the outside, with its objects made at the start. *)
Definition run (script : nat -> heap -> list action) (fuel : nat) (actions : list action) : EM unit := perform_all (call script fuel) actions.

Fixpoint make_all {A} (make : A -> EM nat) (l : list A) : EM unit :=
  match l with [] => mret tt | a :: l => x ← make a; make_all make l end.
(** [plain] targets, then [signals] signals, then [functions] functions,
    numbered in this order. *)
Definition start (plain signals functions : nat) : heap :=
  ((make_all make_target (replicate plain (new_target false) ++ replicate signals (new_target true)) ;;
   make_all make_fn (replicate functions User)) empty_heap).2.
