(* ===== verification/EventsProps.v ===== *)
(** * What events and abort signals promise

    The wrappers a target keeps and those it dispatches to are the same
    whatever listeners do; a dispatch calls what was registered when it
    began; a signal made by [any] follows the first of its signals to abort
    and then lets go of all of them.  Nested dispatches and mixed use of
    listeners that go wrong are shown by running them. *)

From S2P Require Import Prelude StreamBase Events.
Open Scope Z_scope.

#[local] Arguments js : simpl never.

(* ------------------------------------------------------------------ *)
(** ** Wrappers are tracked *)

Definition listed (tg : target) (type : jsstr) : list nat := default [] (tg_listeners tg !! type).
Definition tracked (tg : target) (f : nat) : list (jsstr * nat) := default [] (tg_map tg !! f).

(** The wrappers among the listeners of a target are those that its map
    remembers, under the function they wrap and their type. *)
Record consistent (h : heap) (t : nat) (tg : target) : Prop := {
  cs_listed : forall f type w, (type, w) ∈ tracked tg f -> inherited type = false -> w ∈ listed tg type;
  cs_tracked : forall type w once t' type' f, w ∈ listed tg type -> hp_fns h !! w = Some (Wrapper once t' type' f) ->
    t' = t /\ type' = type /\ (type, w) ∈ tracked tg f;
  cs_unique : forall f, NoDup (tracked tg f);
  cs_nonempty : forall type, tg_listeners tg !! type <> Some [];
  cs_known : forall type w, w ∈ listed tg type -> is_Some (hp_fns h !! w);
  cs_entry : forall f type w, (type, w) ∈ tracked tg f -> exists once, hp_fns h !! w = Some (Wrapper once t type f);
  cs_own : forall type, inherited type = true -> tg_listeners tg !! type = None;
  cs_entries : forall f, tg_map tg !! f <> Some [] }.

Definition is_wrapper (c : code) : bool := match c with Wrapper _ _ _ _ => true | _ => false end.
Definition plain_fn (h : heap) (f : nat) : Prop := exists c, hp_fns h !! f = Some c /\ is_wrapper c = false.

Record good_heap (h : heap) : Prop := {
  gh_targets : forall t tg, hp_targets h !! t = Some tg -> consistent h t tg;
  gh_fresh : forall i, (hp_next h <= i)%nat -> hp_fns h !! i = None;
  gh_closed : forall w c, hp_fns h !! w = Some c -> match c with Wrapper _ _ _ l | Unlisten _ _ l => plain_fn h l | _ => True end;
  gh_groups : forall g gr s f, hp_groups h !! g = Some gr -> gr_handlers gr !! s = Some f -> plain_fn h f }.

Lemma consistent_new h t b : consistent h t (new_target b).
Proof. split; unfold listed, tracked; cbn; intros *; rewrite ?lookup_empty; cbn; try (by intros ?%not_elem_of_nil); try apply NoDup_nil_2; done. Qed.

Lemma consistent_the h t : good_heap h -> consistent h t (the t h).
Proof. intros Hh. unfold the. destruct (hp_targets h !! t) as [tg|] eqn:E; [by apply (gh_targets _ Hh)|apply consistent_new]. Qed.

Lemma consistent_ext h h' t tg : (forall i c, hp_fns h !! i = Some c -> hp_fns h' !! i = Some c) -> consistent h t tg -> consistent h' t tg.
Proof.
  intros Hf [H1 H2 H3 H4 H5 H6 H7 H8]. split; try done.
  - intros type w once t' type' f Hin Hw. destruct (H5 type w Hin) as [c Hc]. pose proof (Hf _ _ Hc). assert (c = Wrapper once t' type' f) as -> by congruence. by apply (H2 type w once t' type' f).
  - intros type w Hin. destruct (H5 type w Hin) as [c Hc]. exists c. by apply Hf.
  - intros f type w Hin. destruct (H6 f type w Hin) as [once Hw]. exists once. by apply Hf.
Qed.

Lemma plain_ext h h' f : (forall i c, hp_fns h !! i = Some c -> hp_fns h' !! i = Some c) -> plain_fn h f -> plain_fn h' f.
Proof. intros Hf (c & Hc & Hp). exists c. split; [by apply Hf|done]. Qed.

(** Only the targets change. *)
Lemma good_targets h ts : good_heap h -> (forall t tg, ts !! t = Some tg -> consistent h t tg) -> good_heap (set_targets ts h).
Proof. intros [Ht Hn Hc Hg] Hts. split; [|exact Hn|exact Hc|exact Hg]. intros t tg Htg. by apply (consistent_ext h), Hts. Qed.

Lemma good_upd h t tg : good_heap h -> consistent h t tg -> good_heap (set_targets (<[t := tg]> (hp_targets h)) h).
Proof.
  intros Hh Htg. apply good_targets; [done|]. intros t' tg'. destruct (decide (t' = t)) as [->|Hne]; [rewrite lookup_insert_eq; by intros [= <-]|rewrite lookup_insert_ne by done; apply Hh].
Qed.

Lemma upd_bind {B} t f (k : unit -> SM heap B) h : (upd t f ≫= k) h = k tt (set_targets (<[t := f (the t h)]> (hp_targets h)) h).
Proof. done. Qed.

Lemma the_upd h t tg : the t (set_targets (<[t := tg]> (hp_targets h)) h) = tg.
Proof. unfold the. cbn. by rewrite lookup_insert_eq. Qed.

(** Programs that keep the heap good, from a heap of which [P] holds;
    functions stay what they are. *)
Definition grows (h h' : heap) : Prop := forall i c, hp_fns h !! i = Some c -> hp_fns h' !! i = Some c.
Definition stays_good (h h' : heap) : Prop := good_heap h' /\ grows h h'.
Definition keeps_good {A} (P : heap -> Prop) (m : SM heap A) : Prop := forall h, good_heap h -> P h -> stays_good h (m h).2.
Abbreviation always := (fun _ : heap => True) (only parsing).

Lemma stays_refl h : good_heap h -> stays_good h h.
Proof. intros Hh. split; [done|by intros ? ?]. Qed.
Lemma stays_trans h1 h2 h3 : stays_good h1 h2 -> stays_good h2 h3 -> stays_good h1 h3.
Proof. intros [_ G1] [H3 G2]. split; [done|]. intros i c Hi. by apply G2, G1. Qed.

Lemma kg_bind {A B} P (m : SM heap A) (k : A -> SM heap B) : keeps_good P m ->
  (forall h a h', good_heap h -> P h -> m h = (Ok a, h') -> stays_good h h' -> stays_good h' (k a h').2) -> keeps_good P (m ≫= k).
Proof. intros Hm Hk h Hh HP. unfold mbind, sm_bind. specialize (Hm h Hh HP). destruct (m h) as [[a|c e] h'] eqn:E; [eapply stays_trans; [exact Hm|by eapply Hk]|done]. Qed.
Lemma kg_seq {A B} P (m : SM heap A) (k : A -> SM heap B) : keeps_good P m -> (forall a, keeps_good always (k a)) -> keeps_good P (m ≫= k).
Proof. intros Hm Hk. apply kg_bind; [done|]. intros h a h' _ _ _ [Hh' _]. by apply Hk. Qed.
(** A precondition that stays true. *)
Lemma kg_seq_stable {A B} (P : heap -> Prop) (m : SM heap A) (k : A -> SM heap B) : (forall h h', grows h h' -> P h -> P h') -> keeps_good P m -> (forall a, keeps_good P (k a)) -> keeps_good P (m ≫= k).
Proof. intros HP Hm Hk. apply kg_bind; [done|]. intros h a h' _ Hp _ [Hh' Hg]. apply Hk; [done|by eapply HP]. Qed.
Lemma kg_gets {A B} P (f : heap -> A) (k : A -> SM heap B) : (forall a, keeps_good (fun h => P h /\ a = f h) (k a)) -> keeps_good P (gets f ≫= k).
Proof. intros Hk h Hh HP. rewrite gets_bind. by apply Hk. Qed.
Lemma kg_id {A} P (f : heap -> outcome A) : keeps_good P (fun h => (f h, h)).
Proof. intros h Hh _. by apply stays_refl. Qed.
Lemma kg_ret {A} P (a : A) : keeps_good P (mret a).
Proof. apply kg_id. Qed.
Lemma kg_when P b m : (b = true -> keeps_good P m) -> keeps_good P (when b m).
Proof. destruct b; [by auto|intros _; apply kg_ret]. Qed.
Lemma kg_weaken {A} (P Q : heap -> Prop) (m : SM heap A) : (forall h, Q h -> P h) -> keeps_good P m -> keeps_good Q m.
Proof. intros HPQ Hm h Hh HQ. apply Hm; [done|by apply HPQ]. Qed.

Lemma kg_upd P t f : (forall h, good_heap h -> P h -> consistent h t (f (the t h))) -> keeps_good P (upd t f).
Proof. intros Hf h Hh HP. split; [by apply good_upd, Hf|by intros ? ?]. Qed.

(** Fields outside the registrations. *)
Lemma consistent_same h t tg tg' : tg_listeners tg' = tg_listeners tg -> tg_map tg' = tg_map tg -> consistent h t tg -> consistent h t tg'.
Proof. intros E1 E2 [H1 H2 H3 H4 H5 H6 H7 H8]. split; unfold listed, tracked in *; rewrite ?E1, ?E2; done. Qed.
Lemma kg_field P t f : (forall tg, tg_listeners (f tg) = tg_listeners tg /\ tg_map (f tg) = tg_map tg) -> keeps_good P (upd t f).
Proof. intros Hf. apply kg_upd. intros h Hh _. destruct (Hf (the t h)). eapply consistent_same; [done|done|by apply consistent_the]. Qed.

(** New objects. *)
Lemma fns_fresh h c i d : good_heap h -> hp_fns h !! i = Some d -> <[hp_next h := c]> (hp_fns h) !! i = Some d.
Proof. intros Hh Hi. rewrite lookup_insert_ne; [done|]. intros <-. rewrite (gh_fresh _ Hh (hp_next h)) in Hi by lia. done. Qed.

Lemma kg_make_fn c : keeps_good (fun h => match c with Wrapper _ _ _ l | Unlisten _ _ l => plain_fn h l | _ => True end) (make_fn c).
Proof.
  intros h Hh Hc. cbn. assert (Hext : forall i d, hp_fns h !! i = Some d -> <[hp_next h := c]> (hp_fns h) !! i = Some d) by (intros; by apply fns_fresh). split; [|exact Hext]. split; cbn.
  - intros t tg Htg. eapply consistent_ext; [exact Hext|by apply (gh_targets _ Hh)].
  - intros i Hi. rewrite lookup_insert_ne by lia. apply (gh_fresh _ Hh). lia.
  - intros w d. assert (Hm : forall d, match d with Wrapper _ _ _ l | Unlisten _ _ l => plain_fn h l | _ => True end ->
      match d with Wrapper _ _ _ l | Unlisten _ _ l => plain_fn (Heap (hp_targets h) (<[hp_next h := c]> (hp_fns h)) (hp_groups h) (S (hp_next h)) (hp_log h)) l | _ => True end).
    { intros []; try done; by apply plain_ext. }
    destruct (decide (w = hp_next h)) as [->|Hne]; [rewrite lookup_insert_eq; intros [= <-]; by apply Hm|rewrite lookup_insert_ne by done; intros Hw; apply Hm, (gh_closed _ Hh w d Hw)].
  - intros g gr s f Hg Hf. eapply plain_ext; [exact Hext|by eapply (gh_groups _ Hh)].
Qed.

Lemma good_log h l : good_heap h -> good_heap (Heap (hp_targets h) (hp_fns h) (hp_groups h) (hp_next h) l).
Proof. intros [Ht Hn Hc Hg]. split; [|exact Hn|exact Hc|exact Hg]. intros t tg Htg. by apply (consistent_ext h), Ht. Qed.
Lemma kg_log P f type : keeps_good P (log_call f type).
Proof. intros h Hh _. split; [by apply good_log|by intros ? ?]. Qed.

(* ------------------------------------------------------------------ *)
(** ** Adding *)

Definition add_entry (f : nat) (type : jsstr) (w : nat) (tg : target) : target := set_map (<[f := tracked tg f ++ [(type, w)]]> (tg_map tg)) tg.
Definition add_listed (type : jsstr) (w : nat) (tg : target) : target := set_listeners (<[type := listed tg type ++ [w]]> (tg_listeners tg)) tg.

Lemma listed_add type w tg type' : listed (add_listed type w tg) type' = listed tg type' ++ (if bool_decide (type' = type) then [w] else []).
Proof. unfold listed at 1, add_listed, set_listeners. cbn. case_bool_decide as E; [subst; by rewrite lookup_insert_eq|rewrite lookup_insert_ne by done; by rewrite app_nil_r]. Qed.
Lemma tracked_add f type w tg f' : tracked (add_entry f type w tg) f' = tracked tg f' ++ (if bool_decide (f' = f) then [(type, w)] else []).
Proof. unfold tracked at 1, add_entry, set_map. cbn. case_bool_decide as E; [subst; by rewrite lookup_insert_eq|rewrite lookup_insert_ne by done; by rewrite app_nil_r]. Qed.

Lemma nonempty_add type w tg : (forall type', tg_listeners tg !! type' <> Some []) -> forall type', tg_listeners (add_listed type w tg) !! type' <> Some [].
Proof.
  intros Hn type'. unfold add_listed, set_listeners. cbn. destruct (decide (type' = type)) as [->|Hne]; [rewrite lookup_insert_eq; intros [= E]; by destruct (listed tg type)|rewrite lookup_insert_ne by done; apply Hn].
Qed.

Lemma own_add type w tg : (forall ty, inherited ty = true -> tg_listeners tg !! ty = None) -> inherited type = false -> forall ty, inherited ty = true -> tg_listeners (add_listed type w tg) !! ty = None.
Proof. intros Ho Hi ty Hty. unfold add_listed, set_listeners. cbn. rewrite lookup_insert_ne by congruence. by apply Ho. Qed.

Lemma consistent_add_plain h t tg type f : consistent h t tg -> plain_fn h f -> inherited type = false -> consistent h t (add_listed type f tg).
Proof.
  intros [H1 H2 H3 H4 H5 H6 H7 H8] (c & Hc & Hp) Hi. split; try done.
  - intros f' type' w Hin Hty. pose proof (H1 f' type' w Hin Hty). rewrite listed_add, elem_of_app. by left.
  - intros type' w once t' type'' f' Hin Hw. rewrite listed_add, elem_of_app in Hin. destruct Hin as [Hin|Hin]; [by apply (H2 type' w once t' type'' f')|].
    case_bool_decide; [apply list_elem_of_singleton in Hin as ->|by apply not_elem_of_nil in Hin]. rewrite Hc in Hw. by injection Hw as ->.
  - by apply nonempty_add.
  - intros type' w Hin. rewrite listed_add, elem_of_app in Hin. destruct Hin as [Hin|Hin]; [by apply (H5 type')|].
    case_bool_decide; [apply list_elem_of_singleton in Hin as ->; by exists c|by apply not_elem_of_nil in Hin].
  - by apply own_add.
Qed.

(** A new wrapper: nothing knows it yet. *)
Definition unseen (w : nat) (tg : target) : Prop := (forall type, w ∉ listed tg type) /\ (forall f type, (type, w) ∉ tracked tg f).

Lemma nodup_entry f type w tg f' : unseen w tg -> NoDup (tracked tg f') -> NoDup (tracked (add_entry f type w tg) f').
Proof.
  intros [_ Hu] Hn. rewrite tracked_add. case_bool_decide as E; [|by rewrite app_nil_r]. subst f'. apply NoDup_app. split; [done|]. split; [|by apply NoDup_singleton].
  intros x Hx ->%list_elem_of_singleton. by apply (Hu f type).
Qed.

Lemma entries_add f type w tg : (forall f', tg_map tg !! f' <> Some []) -> forall f', tg_map (add_entry f type w tg) !! f' <> Some [].
Proof.
  intros Hn f'. unfold add_entry, set_map. cbn. destruct (decide (f' = f)) as [->|Hne]; [rewrite lookup_insert_eq; intros [= E]; by destruct (tracked tg f)|rewrite lookup_insert_ne by done; apply Hn].
Qed.

Lemma consistent_add_inherited h t tg type f w once : consistent h t tg -> unseen w tg -> inherited type = true -> hp_fns h !! w = Some (Wrapper once t type f) -> consistent h t (add_entry f type w tg).
Proof.
  intros [H1 H2 H3 H4 H5 H6 H7 H8] Hu Hin Hw. split; try done.
  - intros f' type' w' Hin' Hty. rewrite tracked_add, elem_of_app in Hin'. destruct Hin' as [Hin'|Hin']; [by apply (H1 f')|].
    case_bool_decide; [apply list_elem_of_singleton in Hin'; congruence|by apply not_elem_of_nil in Hin'].
  - intros type' w' once' t' type'' f' Hl Hw'. destruct (H2 type' w' once' t' type'' f' Hl Hw') as (-> & -> & Ht). split_and!; [done|done|]. rewrite tracked_add, elem_of_app. by left.
  - intros f'. by apply nodup_entry.
  - intros f' type' w' Hin'. rewrite tracked_add, elem_of_app in Hin'. destruct Hin' as [Hin'|Hin']; [by apply (H6 f' type')|].
    case_bool_decide as E; [apply list_elem_of_singleton in Hin' as [= -> ->]; subst; by exists once|by apply not_elem_of_nil in Hin'].
  - by apply entries_add.
Qed.

Lemma consistent_add_wrapped h t tg type f w once : consistent h t tg -> unseen w tg -> hp_fns h !! w = Some (Wrapper once t type f) -> inherited type = false ->
  consistent h t (add_listed type w (add_entry f type w tg)).
Proof.
  intros [H1 H2 H3 H4 H5 H6 H7 H8] Hu Hw Hi. assert (Hl : forall ty, listed (add_listed type w (add_entry f type w tg)) ty = listed tg ty ++ (if bool_decide (ty = type) then [w] else [])) by (intros ty; exact (listed_add type w (add_entry f type w tg) ty)).
  assert (Ht : forall f', tracked (add_listed type w (add_entry f type w tg)) f' = tracked tg f' ++ (if bool_decide (f' = f) then [(type, w)] else [])) by (intros f'; exact (tracked_add f type w tg f')). split.
  - intros f' type' w' Hin Hty. rewrite Ht, elem_of_app in Hin. rewrite Hl, elem_of_app. destruct Hin as [Hin|Hin]; [left; by apply (H1 f')|].
    case_bool_decide as E; [|by apply not_elem_of_nil in Hin]. apply list_elem_of_singleton in Hin as [= -> ->]. right. rewrite bool_decide_eq_true_2 by done. apply list_elem_of_here.
  - intros type' w' once' t' type'' f' Hin Hw'. rewrite Hl, elem_of_app in Hin. rewrite Ht, elem_of_app. destruct Hin as [Hin|Hin]; [destruct (H2 type' w' once' t' type'' f' Hin Hw') as (? & ? & ?); split_and!; try done; by left|].
    case_bool_decide as E; [|by apply not_elem_of_nil in Hin]. apply list_elem_of_singleton in Hin as ->. rewrite Hw in Hw'. injection Hw' as <- <- <- <-. split_and!; [done|done|]. right.
    rewrite bool_decide_eq_true_2 by done. subst type'. apply list_elem_of_here.
  - intros f'. change (NoDup (tracked (add_entry f type w tg) f')). by apply nodup_entry.
  - by apply nonempty_add.
  - intros type' w' Hin. rewrite Hl, elem_of_app in Hin. destruct Hin as [Hin|Hin]; [by apply (H5 type')|].
    case_bool_decide; [apply list_elem_of_singleton in Hin as ->; by eexists|by apply not_elem_of_nil in Hin].
  - intros f' type' w' Hin. rewrite Ht, elem_of_app in Hin. destruct Hin as [Hin|Hin]; [by apply (H6 f' type')|].
    case_bool_decide as E; [apply list_elem_of_singleton in Hin as [= -> ->]; subst; by exists once|by apply not_elem_of_nil in Hin].
  - by apply own_add.
  - by apply (entries_add f type w tg).
Qed.

Lemma unseen_fresh h t tg : good_heap h -> consistent h t tg -> unseen (hp_next h) tg.
Proof.
  intros Hh Hc. pose proof (gh_fresh _ Hh (hp_next h) ltac:(lia)) as Hn. split.
  - intros type Hin. destruct (cs_known _ _ _ Hc type _ Hin). congruence.
  - intros f type Hin. destruct (cs_entry _ _ _ Hc f type _ Hin). congruence.
Qed.

Lemma kg_add_listener t type f once wrapped : keeps_good (fun h => plain_fn h f) (add_listener t type f once wrapped).
Proof.
  intros h Hh Hf. unfold add_listener. destruct wrapped.
  - rewrite bind_assoc. assert (Hg : stays_good h (make_fn (Wrapper once t type f) h).2) by by apply kg_make_fn. set (h1 := (make_fn (Wrapper once t type f) h).2) in *.
    rewrite (bind_ok _ _ h (hp_next h) h1) by done. rewrite bind_assoc, upd_bind, ret_bind. eapply stays_trans; [exact Hg|]. destruct Hg as [Hg _].
    assert (Hw : hp_fns h1 !! hp_next h = Some (Wrapper once t type f)) by (cbn; by rewrite lookup_insert_eq).
    assert (Hu : unseen (hp_next h) (the t h1)) by (change (the t h1) with (the t h); by apply (unseen_fresh h t); [|apply consistent_the]).
    pose proof (consistent_the h1 t Hg) as Hc. destruct (inherited type) eqn:Ei.
    + split; [|by intros ? ?]. apply good_upd; [done|]. by apply (consistent_add_inherited _ _ _ _ _ _ once).
    + unfold upd, modify. cbn [snd]. rewrite the_upd. unfold set_targets. cbn [hp_targets hp_fns hp_groups hp_next hp_log]. rewrite insert_insert_eq. split; [|by intros ? ?].
      apply (good_upd h1 t); [done|]. by apply (consistent_add_wrapped h1 t (the t h1) type f (hp_next h) once).
  - rewrite ret_bind. destruct (inherited type) eqn:Ei; [by apply stays_refl|]. split; [|by intros ? ?]. apply good_upd; [done|]. apply consistent_add_plain; [by apply consistent_the|done|done].
Qed.

(* ------------------------------------------------------------------ *)
(** ** Removing *)

Lemma last_of_spec type ws : match last_of type ws with
  | Some (w, rest) => exists a b, ws = a ++ (type, w) :: b /\ rest = a ++ b
  | None => Forall (fun e => e.1 <> type) ws
  end.
Proof.
  induction ws as [|e ws IH]; cbn; [constructor|]. destruct (last_of type ws) as [[w rest]|].
  - destruct IH as (a & b & -> & ->). by exists (e :: a), b.
  - case_bool_decide as E; [|by constructor]. exists [], ws. by destruct e; cbn in *; subst.
Qed.

Definition drop_empty (type : jsstr) (tg : target) : target :=
  set_listeners (match tg_listeners tg !! type with Some [] => delete type (tg_listeners tg) | _ => tg_listeners tg end) tg.
Definition drop_listed (type : jsstr) (w : nat) (tg : target) : target := set_listeners (alter (fun l => removeAll l w) type (tg_listeners tg)) tg.
Definition set_entries (f : nat) (rest : list (jsstr * nat)) (tg : target) : target :=
  set_map (match rest with [] => delete f (tg_map tg) | _ => <[f := rest]> (tg_map tg) end) tg.

Lemma listed_drop_empty type tg ty : listed (drop_empty type tg) ty = listed tg ty.
Proof.
  unfold listed, drop_empty, set_listeners. cbn. destruct (tg_listeners tg !! type) as [[|x l]|] eqn:E; try done.
  destruct (decide (ty = type)) as [->|Hne]; [by rewrite lookup_delete_eq, E|by rewrite lookup_delete_ne].
Qed.
Lemma listed_drop type w tg ty : listed (drop_listed type w tg) ty = if bool_decide (ty = type) then removeAll (listed tg ty) w else listed tg ty.
Proof.
  unfold listed, drop_listed, set_listeners. cbn. case_bool_decide as E; [subst; rewrite lookup_alter_eq; by destruct (tg_listeners tg !! type)|by rewrite lookup_alter_ne].
Qed.
Lemma tracked_set f rest tg f' : tracked (set_entries f rest tg) f' = if bool_decide (f' = f) then rest else tracked tg f'.
Proof.
  unfold tracked, set_entries, set_map. cbn. case_bool_decide as E.
  - subst. destruct rest; [by rewrite lookup_delete_eq|by rewrite lookup_insert_eq].
  - destruct rest; [by rewrite lookup_delete_ne|by rewrite lookup_insert_ne].
Qed.

Lemma nonempty_drop type tg : (forall ty, ty <> type -> tg_listeners tg !! ty <> Some []) -> forall ty, tg_listeners (drop_empty type tg) !! ty <> Some [].
Proof.
  intros Hn ty. unfold drop_empty, set_listeners. cbn. destruct (tg_listeners tg !! type) as [[|x l]|] eqn:E; destruct (decide (ty = type)) as [->|Hne];
    rewrite ?lookup_delete_eq, ?lookup_delete_ne, ?E by done; try done; by apply Hn.
Qed.

Lemma own_drop type tg ty : tg_listeners tg !! ty = None -> tg_listeners (drop_empty type tg) !! ty = None.
Proof. intros Hn. unfold drop_empty, set_listeners. cbn. destruct (tg_listeners tg !! type) as [[|x l]|]; try done. by rewrite lookup_delete_None; right. Qed.

Lemma elem_removeAll l w x : x ∈ removeAll l w <-> x <> w /\ x ∈ l.
Proof. unfold removeAll. by rewrite list_elem_of_filter. Qed.

Lemma consistent_remove_plain h t tg type f : consistent h t tg -> plain_fn h f -> consistent h t (drop_empty type (drop_listed type f tg)).
Proof.
  intros [H1 H2 H3 H4 H5 H6 H7 H8] (c & Hc & Hp). assert (Hl : forall ty w, w ∈ listed (drop_empty type (drop_listed type f tg)) ty -> w ∈ listed tg ty).
  { intros ty w. rewrite listed_drop_empty, listed_drop. case_bool_decide; [rewrite elem_removeAll; tauto|done]. }
  split; try done.
  - intros f' ty w Hin Hty. pose proof (H1 f' ty w Hin Hty) as Hw. destruct (H6 f' ty w Hin) as [once Hf]. rewrite listed_drop_empty, listed_drop.
    case_bool_decide; [|done]. apply elem_removeAll. split; [|done]. intros ->. rewrite Hc in Hf. by injection Hf as ->.
  - intros ty w once t' type' f' Hin Hw. apply (H2 ty w once t' type' f'); [by apply Hl|done].
  - apply nonempty_drop. intros ty Hne. unfold drop_listed, set_listeners. cbn. rewrite lookup_alter_ne by done. apply H4.
  - intros ty w Hin. by eapply H5, Hl.
  - intros ty Hi. apply own_drop. unfold drop_listed, set_listeners. cbn. rewrite lookup_alter_None. by apply H7.
Qed.

Lemma consistent_remove_wrapped h t tg type f w a b : consistent h t tg -> tracked tg f = a ++ (type, w) :: b ->
  consistent h t (drop_empty type (set_entries f (a ++ b) (drop_listed type w tg))).
Proof.
  intros [H1 H2 H3 H4 H5 H6 H7 H8] Hf. set (tg' := drop_empty _ _).
  assert (Hin : (type, w) ∈ tracked tg f) by (rewrite Hf, elem_of_app, elem_of_cons; tauto). destruct (H6 f type w Hin) as [once Hw].
  pose proof (H3 f) as Hnd. rewrite Hf in Hnd.
  assert (Hl : forall ty, listed tg' ty = if bool_decide (ty = type) then removeAll (listed tg ty) w else listed tg ty) by (intros ty; unfold tg'; rewrite listed_drop_empty; apply (listed_drop type w tg ty)).
  assert (Ht : forall f', tracked tg' f' = if bool_decide (f' = f) then a ++ b else tracked tg f') by (intros f'; exact (tracked_set f (a ++ b) (drop_listed type w tg) f')).
  assert (Hnot : forall f' ty, (ty, w) ∉ tracked tg' f').
  { intros f' ty Hin'. rewrite Ht in Hin'. case_bool_decide as E.
    - subst f'. assert (Hi : (ty, w) ∈ tracked tg f) by (rewrite Hf, elem_of_app, elem_of_cons; rewrite elem_of_app in Hin'; tauto). destruct (H6 f ty w Hi) as [once' Hw'].
      rewrite Hw in Hw'. injection Hw' as <- <-. apply NoDup_app in Hnd as (_ & Hd & Hnd). apply NoDup_cons in Hnd as [Hnb _]. rewrite elem_of_app in Hin'.
      destruct Hin' as [Hi'|Hi']; [apply (Hd _ Hi'), list_elem_of_here|by apply Hnb].
    - destruct (H6 f' ty w Hin') as [once' Hw']. rewrite Hw in Hw'. injection Hw' as <- <- <-. done. }
  assert (Hsub : forall f' e, e ∈ tracked tg' f' -> e ∈ tracked tg f').
  { intros f' e. rewrite Ht. case_bool_decide as E; [|done]. subst f'. rewrite Hf, !elem_of_app, elem_of_cons. tauto. }
  split.
  - intros f' ty w' Hin' Hty'. pose proof (H1 f' ty w' (Hsub _ _ Hin') Hty') as Hl'. rewrite Hl. case_bool_decide; [|done]. apply elem_removeAll. split; [|done].
    intros ->. by apply (Hnot f' ty).
  - intros ty w' once' t' type' f' Hin' Hw'. assert (Hin2 : w' ∈ listed tg ty /\ (ty = type -> w' <> w)).
    { rewrite Hl in Hin'. case_bool_decide; [rewrite elem_removeAll in Hin'; tauto|by split]. }
    destruct Hin2 as [Hin2 Hne]. destruct (H2 ty w' once' t' type' f' Hin2 Hw') as (-> & -> & Htr). split_and!; [done|done|]. rewrite Ht. case_bool_decide as E; [|done]. subst f'.
    rewrite Hf, elem_of_app, elem_of_cons in Htr. rewrite elem_of_app. destruct Htr as [?|[[= -> ->]|?]]; [by left|by destruct Hne|by right].
  - intros f'. rewrite Ht. case_bool_decide; [|apply H3]. apply NoDup_app in Hnd as (Ha & Hd & Hnd). apply NoDup_cons in Hnd as [_ Hb]. apply NoDup_app. split_and!; [done| |done].
    intros x Hx Hxb. apply (Hd x Hx). by apply list_elem_of_further.
  - unfold tg'. apply nonempty_drop. intros ty Hne. unfold set_entries, drop_listed, set_map, set_listeners. cbn. rewrite lookup_alter_ne by done. apply H4.
  - intros ty w' Hin'. rewrite Hl in Hin'. case_bool_decide; [apply elem_removeAll in Hin' as [_ Hin']|]; by eapply H5.
  - intros f' ty w' Hin'. by eapply H6, Hsub.
  - intros ty Hi. unfold tg'. apply own_drop. unfold set_entries, drop_listed, set_map, set_listeners. cbn. rewrite lookup_alter_None. by apply H7.
  - intros f'. unfold tg', drop_empty, set_entries, drop_listed, set_map, set_listeners. cbn. destruct (decide (f' = f)) as [->|Hne].
    + destruct (a ++ b); [by rewrite lookup_delete_eq|by rewrite lookup_insert_eq].
    + destruct (a ++ b); [by rewrite lookup_delete_ne|by rewrite lookup_insert_ne].
Qed.

Lemma kg_remove t type f : keeps_good (fun h => plain_fn h f) (removeEventListener t type f).
Proof.
  intros h Hh Hf. unfold removeEventListener. rewrite gets_bind. cbv beta. destruct (_ && _); [by apply stays_refl|].
  assert (Hgo : forall h' tg, hp_fns h' = hp_fns h -> hp_groups h' = hp_groups h -> hp_next h' = hp_next h -> hp_targets h' = <[t := tg]> (hp_targets h) -> consistent h t (drop_empty type tg) ->
    stays_good h (upd t (fun tg => drop_empty type tg) h').2).
  { intros [ts fs gs n l] tg E1 E2 E3 E4 Hc. cbn in E1, E2, E3, E4. subst. split; [|by intros ? ?]. unfold upd, modify, the, set_targets. cbn [snd hp_targets hp_fns hp_groups hp_next hp_log].
    rewrite lookup_insert_eq, insert_insert_eq. change (default (new_target false) (Some tg)) with tg. exact (good_log (set_targets (<[t:=drop_empty type tg]> (hp_targets h)) h) l (good_upd h t _ Hh Hc)). }
  pose proof (consistent_the h t Hh) as Hc. destruct (tg_map (the t h) !! f) as [ws|] eqn:Em.
  - pose proof (last_of_spec type ws) as Hl. destruct (last_of type ws) as [[w rest]|].
    + destruct Hl as (a & b & -> & ->). rewrite bind_assoc, upd_bind, upd_bind, the_upd. apply (Hgo _ (set_entries f (a ++ b) (drop_listed type w (the t h)))); try done.
      * unfold set_targets. cbn [hp_targets]. by rewrite insert_insert_eq.
      * apply consistent_remove_wrapped; [done|]. unfold tracked. by rewrite Em.
    + rewrite ret_bind. split; [|by intros ? ?]. apply good_upd; [done|]. assert (E : drop_empty type (the t h) = the t h); [|unfold drop_empty in E; by rewrite E].
      unfold drop_empty. destruct (tg_listeners (the t h) !! type) as [[|x l]|] eqn:El; [by destruct (cs_nonempty _ _ _ Hc type)| |]; by destruct (the t h).
  - rewrite upd_bind. apply (Hgo _ (drop_listed type f (the t h))); try done. by apply consistent_remove_plain.
Qed.

(* ------------------------------------------------------------------ *)
(** ** Every program keeps the heap good *)

Lemma plain_grows f h h' : grows h h' -> plain_fn h f -> plain_fn h' f.
Proof. intros Hg. by apply plain_ext. Qed.

Lemma kg_throw {A} P c e : keeps_good P (throw c e : SM heap A).
Proof. apply kg_id. Qed.

Lemma kg_addEventListener t type f once signal : keeps_good (fun h => plain_fn h f) (addEventListener t type f once signal).
Proof.
  destruct signal as [s|]; [|apply kg_add_listener]. unfold addEventListener. apply kg_gets. intros []; [apply kg_ret|].
  apply (kg_weaken (fun h => plain_fn h f)); [by intros h []|].
  apply kg_seq_stable; [intros; by eapply plain_grows|apply kg_add_listener|intros _].
  apply kg_bind; [apply (kg_make_fn (Unlisten t type f))|]. intros h u h' Hh Hf Hu [Hh' Hg]. apply kg_add_listener; [done|].
  cbn in Hu. injection Hu as <- <-. exists (Unlisten t type f). split; [cbn; by rewrite lookup_insert_eq|done].
Qed.

Lemma kg_make_target P tg : (forall h t, good_heap h -> consistent h t tg) -> keeps_good P (make_target tg).
Proof.
  intros Htg h Hh _. split; [|by intros ? ?]. cbn. split; cbn.
  - intros t tg'. destruct (decide (t = hp_next h)) as [->|Hne]; [rewrite lookup_insert_eq; intros [= <-]|rewrite lookup_insert_ne by done; intros Ht].
    + apply (consistent_ext h); [done|by apply Htg].
    + apply (consistent_ext h); [done|by apply (gh_targets _ Hh)].
  - intros i Hi. apply (gh_fresh _ Hh). lia.
  - apply (gh_closed _ Hh).
  - apply (gh_groups _ Hh).
Qed.

Definition plain_handlers (g : group) (h : heap) : Prop := forall s f, gr_handlers g !! s = Some f -> plain_fn h f.

Lemma kg_set_group i g : keeps_good (plain_handlers g) (set_group i g).
Proof.
  intros h Hh Hg. split; [|by intros ? ?]. cbn. split; cbn.
  - intros t tg Ht. apply (consistent_ext h); [done|by apply (gh_targets _ Hh)].
  - apply (gh_fresh _ Hh).
  - apply (gh_closed _ Hh).
  - intros j gr s f. destruct (decide (j = i)) as [->|Hne]; [rewrite lookup_insert_eq; intros [= <-]; apply Hg|rewrite lookup_insert_ne by done; apply (gh_groups _ Hh)].
Qed.
Lemma kg_make_group g : keeps_good (plain_handlers g) (make_group g).
Proof.
  intros h Hh Hg. split; [|by intros ? ?]. cbn. split; cbn.
  - intros t tg Ht. apply (consistent_ext h); [done|by apply (gh_targets _ Hh)].
  - intros i Hi. apply (gh_fresh _ Hh). lia.
  - apply (gh_closed _ Hh).
  - intros j gr s f. destruct (decide (j = hp_next h)) as [->|Hne]; [rewrite lookup_insert_eq; intros [= <-]; apply Hg|rewrite lookup_insert_ne by done; apply (gh_groups _ Hh)].
Qed.

Section Calls.
Context (calls : nat -> jsstr -> SM heap unit) (Hcalls : forall f type, keeps_good always (calls f type)).

Lemma kg_call_all fs type : keeps_good always (call_all calls fs type).
Proof. induction fs as [|f fs IH]; [apply kg_ret|]. apply kg_seq; [apply Hcalls|done]. Qed.
Lemma kg_call_on t type : keeps_good always (call_on calls t type).
Proof. apply kg_gets. intros [f|]; [|apply kg_ret]. eapply kg_weaken; [|apply Hcalls]. done. Qed.
Lemma kg_dispatch t type : keeps_good always (dispatchEvent calls t type).
Proof.
  apply kg_gets. intros b. apply (kg_weaken always); [done|]. apply kg_seq.
  - apply kg_when. intros _. apply kg_seq; [by apply kg_field|intros _; apply kg_call_on].
  - intros _. unfold target_dispatchEvent. apply kg_gets. intros q. apply (kg_weaken always); [done|]. apply kg_seq; [|intros _; apply kg_call_on].
    destruct q as [q|]; [apply kg_call_all|]. destruct (inherited type); [apply kg_throw|apply kg_ret].
Qed.
Lemma kg_abort c r : keeps_good always (abort calls c r).
Proof. apply kg_seq; [by apply kg_field|intros _; apply kg_dispatch]. Qed.

Lemma kg_clean_signals hs signals : keeps_good (fun h => forall s f, hs !! s = Some f -> plain_fn h f) (clean_signals hs signals).
Proof.
  induction signals as [|s signals IH]; [apply kg_ret|]. apply kg_seq_stable; [intros h h' Hg Hp s' f Hf; by eapply plain_grows, Hp| |done].
  destruct (hs !! s) as [f|] eqn:E; [|apply kg_throw]. eapply kg_weaken; [|apply kg_remove]. intros h Hp. by apply (Hp s).
Qed.
Lemma kg_clean g : keeps_good always (clean g).
Proof.
  intros h Hh _. unfold clean. rewrite gets_bind. apply kg_clean_signals; [done|]. intros s f. destruct (hp_groups h !! g) as [gr|] eqn:E; [apply (gh_groups _ Hh g gr s f E)|].
  change (default (Group [] ∅) None) with (Group [] ∅). cbn. by rewrite lookup_empty.
Qed.

Lemma kg_any_loop c g all signals : forall handlers, keeps_good (plain_handlers (Group all handlers)) (any_loop calls c g all signals handlers).
Proof.
  induction signals as [|s signals IH]; intros handlers; [apply kg_ret|]. cbn [any_loop]. apply kg_gets. intros [].
  - apply (kg_weaken always); [done|]. apply kg_gets. intros r. eapply kg_weaken; [|apply kg_abort]. done.
  - apply (kg_weaken (plain_handlers (Group all handlers))); [by intros h []|]. apply kg_bind; [eapply kg_weaken; [|apply (kg_make_fn (Follow c s g))]; done|].
    intros h f h' Hh Hp Hf [Hh' Hg]. assert (Hpf : plain_fn h' f). { cbn in Hf. injection Hf as <- <-. exists (Follow c s g). split; [cbn; by rewrite lookup_insert_eq|done]. }
    assert (Hp' : plain_handlers (Group all (<[s := f]> handlers)) h').
    { intros s' f'. cbn. destruct (decide (s' = s)) as [->|Hne]; [rewrite lookup_insert_eq; by intros [= <-]|rewrite lookup_insert_ne by done]. intros Hs. by eapply plain_grows, (Hp s' f'). }
    assert (Hst : forall h1 h2, grows h1 h2 -> plain_fn h1 f /\ plain_handlers (Group all (<[s := f]> handlers)) h1 -> plain_fn h2 f /\ plain_handlers (Group all (<[s := f]> handlers)) h2).
    { intros h1 h2 Hg12 [Ha Hb]. split; [by eapply plain_grows|]. intros s' f' Hs. by eapply plain_grows, (Hb s' f'). }
    refine (kg_seq_stable _ _ _ Hst _ _ h' Hh' (conj Hpf Hp')).
    + eapply kg_weaken; [|apply kg_set_group]. by intros h1 [].
    + intros _. apply kg_seq_stable; [done| |].
      * eapply kg_weaken; [|apply kg_addEventListener]. by intros h1 [].
      * intros _. eapply kg_weaken; [|apply IH]. by intros h1 [].
Qed.

Lemma kg_any signals : keeps_good always (any calls signals).
Proof.
  unfold any. apply kg_seq; [apply kg_make_target; intros; apply consistent_new|]. intros c. assert (He : forall h, plain_handlers (Group signals ∅) h) by (intros h s f; cbn; by rewrite lookup_empty).
  apply kg_seq; [eapply kg_weaken; [|apply kg_make_group]; done|]. intros g. apply kg_seq; [eapply kg_weaken; [|apply kg_any_loop]; done|intros _; apply kg_ret].
Qed.

Lemma kg_guarded p m : keeps_good (fun h => p h = true) m -> keeps_good always (guarded p m).
Proof. intros Hm. apply kg_gets. intros b. apply kg_when. intros ->. eapply kg_weaken; [|exact Hm]. intros h [_ E]. done. Qed.

Lemma user_plain h f : user_fn f h = true -> plain_fn h f.
Proof. unfold user_fn. destruct (hp_fns h !! f) as [[]|] eqn:E; try done. intros _. by exists User. Qed.

Lemma kg_perform a : keeps_good always (perform calls a).
Proof.
  destruct a as [t type f once signal|t type f|t type|c r|t type f|signals|m]; cbn [perform]; try apply kg_throw; apply kg_guarded.
  - eapply kg_weaken; [|apply kg_addEventListener]. intros h Hg. apply user_plain. by destruct (known_target t h), (user_fn f h).
  - eapply kg_weaken; [|apply kg_remove]. intros h Hg. apply user_plain. by destruct (known_target t h), (user_fn f h).
  - eapply kg_weaken; [|apply kg_dispatch]. done.
  - eapply kg_weaken; [|apply kg_abort]. done.
  - by apply kg_field.
  - eapply kg_weaken; [|apply kg_seq; [apply kg_any|intros _; apply kg_ret]]. done.
Qed.
Lemma kg_perform_all actions : keeps_good always (perform_all calls actions).
Proof. induction actions as [|a actions IH]; [apply kg_ret|]. apply kg_seq; [apply kg_perform|done]. Qed.

Lemma kg_body script f type : keeps_good always (body calls script f type).
Proof.
  intros h Hh _. unfold body. rewrite gets_bind. destruct (hp_fns h !! f) as [[|once t type' l|t type' l|c s g]|] eqn:E; [| | | |by apply stays_refl].
  - revert h Hh E. assert (Hk : keeps_good always (log_call f type ;; actions ← gets (script f); perform_all calls actions)).
    { apply kg_seq; [apply kg_log|]. intros _. apply kg_gets. intros actions. eapply kg_weaken; [|apply kg_perform_all]. done. }
    intros h Hh _. by apply Hk.
  - pose proof (gh_closed _ Hh f _ E) as Hl. cbn in Hl. refine (kg_seq (fun h => plain_fn h l) _ _ _ (fun _ => Hcalls l type) h Hh Hl). apply kg_when. intros _. apply kg_remove.
  - pose proof (gh_closed _ Hh f _ E) as Hl. cbn in Hl. by apply kg_remove.
  - refine (_ h Hh I). apply kg_gets. intros r. apply (kg_weaken always); [done|]. apply kg_seq; [apply kg_abort|intros _; apply kg_clean].
Qed.
End Calls.

Lemma kg_call script fuel : forall f type, keeps_good always (call script fuel f type).
Proof. induction fuel as [|fuel IH]; intros f type; [apply kg_throw|]. by apply kg_body. Qed.

Lemma start_consistent plain signals functions : good_heap (start plain signals functions).
Proof.
  unfold start. assert (Hm : forall tgs, Forall (fun tg => exists b, tg = new_target b) tgs -> keeps_good always (make_all make_target tgs)).
  { induction 1 as [|tg tgs [b ->] _ IH]; [apply kg_ret|]. apply kg_seq; [apply kg_make_target; intros; apply consistent_new|done]. }
  assert (Hf : forall n, keeps_good always (make_all make_fn (replicate n User))).
  { induction n as [|n IH]; [apply kg_ret|]. apply kg_seq; [apply (kg_make_fn User)|done]. }
  assert (He : good_heap empty_heap) by (split; cbn; intros *; rewrite ?lookup_empty; done).
  refine (proj1 (kg_seq always _ _ (Hm _ _) (fun _ => Hf functions) empty_heap He I)).
  apply Forall_app. split; apply Forall_replicate; by eexists.
Qed.

(** C29: Registrations and what is remembered of them agree.  Whatever a
    program does with targets and signals - listeners that add, remove,
    dispatch and abort while they are called, exceptions, a full stack -
    the wrappers a target would dispatch to are exactly those its map
    remembers, under the function they wrap and without repetition, and no
    list of listeners is kept empty: [removeEventListener] finds them, and nothing
    is left behind. *)
Theorem wrappers_tracked (script : nat -> heap -> list action) (fuel plain signals functions : nat) (actions : list action) :
  let h := (run script fuel actions (start plain signals functions)).2 in
  forall t tg, hp_targets h !! t = Some tg ->
    (forall type w once t' type' f, w ∈ default [] (tg_listeners tg !! type) -> hp_fns h !! w = Some (Wrapper once t' type' f) ->
       t' = t /\ type' = type /\ (type, w) ∈ default [] (tg_map tg !! f)) /\
    (forall f type w, (type, w) ∈ default [] (tg_map tg !! f) -> inherited type = false ->
       w ∈ default [] (tg_listeners tg !! type) /\ exists once, hp_fns h !! w = Some (Wrapper once t type f)) /\
    (forall f, NoDup (default [] (tg_map tg !! f))) /\ (forall type, tg_listeners tg !! type <> Some []).
Proof.
  cbv zeta. intros t tg Ht. assert (Hg : good_heap (run script fuel actions (start plain signals functions)).2).
  { apply kg_perform_all; [apply kg_call|apply start_consistent|done]. }
  destruct (gh_targets _ Hg t tg Ht) as [H1 H2 H3 H4 H5 H6 H7 H8]. split_and!; [apply H2| |apply H3|apply H4].
  intros f type w Hin Hty. split; [by apply (H1 f)|by apply H6].
Qed.

(** A [once] listener that registers itself again while it is called. *)
Definition again_script (f : nat) (h : heap) : list action := if (length (hp_log h) <? 3)%nat then [DoAdd 0 (js "x") f true None; DoDispatch 0 (js "x")] else [DoAdd 0 (js "x") f true None].
Definition again_heap : heap := (run again_script 9 [DoAdd 0 (js "x") 1 true None; DoDispatch 0 (js "x")] (start 1 0 1)).2.

Lemma wrappers_tracked_witness : exists tg w, hp_targets again_heap !! 0%nat = Some tg /\ tg_listeners tg !! js "x" = Some [w] /\
  (js "x", w) ∈ default [] (tg_map tg !! 1%nat) /\ NoDup (default [] (tg_map tg !! 1%nat)).
Proof.
  assert (Ht : hp_targets again_heap !! 0%nat = Some (the 0 again_heap)) by (vm_compute; reflexivity).
  destruct (wrappers_tracked again_script 9 1 0 1 [DoAdd 0 (js "x") 1 true None; DoDispatch 0 (js "x")] 0%nat (the 0 again_heap) Ht) as (H1 & _ & H3 & _).
  exists (the 0 again_heap), (hp_next again_heap - 1)%nat. split; [exact Ht|]. assert (Hl : tg_listeners (the 0 again_heap) !! js "x" = Some [(hp_next again_heap - 1)%nat]) by (vm_compute; reflexivity).
  split; [exact Hl|]. split; [|exact (H3 1%nat)]. refine (proj2 (proj2 (H1 (js "x") (hp_next again_heap - 1)%nat true 0%nat (js "x") 1%nat _ _))).
  - rewrite Hl. apply (bool_decide_unpack _). vm_compute. exact I.
  - vm_compute. reflexivity.
Defined.

(* ------------------------------------------------------------------ *)
(** ** Heaps step by step *)

Definition upd_heap (t : nat) (f : target -> target) (h : heap) : heap := set_targets (<[t := f (the t h)]> (hp_targets h)) h.

Lemma upd_run {B} t f (k : unit -> SM heap B) h : (upd t f ≫= k) h = k tt (upd_heap t f h).
Proof. done. Qed.
Lemma the_upd_eq t f h : the t (upd_heap t f h) = f (the t h).
Proof. apply the_upd. Qed.
Lemma the_upd_ne t t' f h : t' <> t -> the t' (upd_heap t f h) = the t' h.
Proof. intros Hne. unfold the, upd_heap. cbn. by rewrite lookup_insert_ne. Qed.

(** The same objects but for targets and log. *)
Record same_objects (h h' : heap) : Prop := { so_fns : hp_fns h' = hp_fns h; so_groups : hp_groups h' = hp_groups h; so_next : hp_next h' = hp_next h }.
Lemma same_upd t f h : same_objects h (upd_heap t f h).
Proof. done. Qed.
Lemma same_objects_trans h1 h2 h3 : same_objects h1 h2 -> same_objects h2 h3 -> same_objects h1 h3.
Proof. intros [] []. split; congruence. Qed.

(** A function that was never given to a target has no entry there. *)
Lemma fresh_no_entry h t f : good_heap h -> (hp_next h <= f)%nat -> tg_map (the t h) !! f = None /\ (forall type, f ∉ listed (the t h) type).
Proof.
  intros Hh Hf. pose proof (consistent_the h t Hh) as Hc. pose proof (gh_fresh _ Hh f Hf) as Hn. split.
  - destruct (tg_map (the t h) !! f) as [[|[ty w] ws]|] eqn:E; [by destruct (cs_entries _ _ _ Hc f)| |done]. exfalso.
    assert (Hin : (ty, w) ∈ tracked (the t h) f) by (unfold tracked; rewrite E; apply list_elem_of_here). destruct (cs_entry _ _ _ Hc _ _ _ Hin) as [once Hw].
    destruct (gh_closed _ Hh _ _ Hw) as (c & Hc' & _). congruence.
  - intros type Hin. destruct (cs_known _ _ _ Hc _ _ Hin). congruence.
Qed.

(* ------------------------------------------------------------------ *)
(** ** The loop of [any] *)

Lemma add_plain_run t type f h : inherited type = false -> add_listener t type f false false h = (Ok tt, upd_heap t (add_listed type f) h).
Proof. intros Hi. unfold add_listener. rewrite ret_bind. rewrite Hi. done. Qed.

Lemma inherited_abort : inherited abort_type = false. Proof. vm_compute. reflexivity. Qed.

(** A signal that has been given its handler. *)
Definition follows (c g : nat) (h h' : heap) (handlers : gmap nat nat) (s : nat) : Prop :=
  exists f, handlers !! s = Some f /\ hp_fns h' !! f = Some (Follow c s g) /\ (hp_next h <= f)%nat /\ the s h' = add_listed abort_type f (the s h).

Lemma any_loop_run calls c g all signals : forall handlers h, (forall i, (hp_next h <= i)%nat -> hp_fns h !! i = None) -> NoDup signals ->
  (forall s, s ∈ signals -> tg_aborted (the s h) = false) -> hp_groups h !! g = Some (Group all handlers) ->
  exists handlers' h', any_loop calls c g all signals handlers h = (Ok tt, h') /\ (forall s, s ∈ signals -> follows c g h h' handlers' s) /\
    (forall s, s ∉ signals -> handlers' !! s = handlers !! s) /\ (forall t, t ∉ signals -> the t h' = the t h) /\
    hp_groups h' !! g = Some (Group all handlers') /\ grows h h' /\ hp_log h' = hp_log h /\ (hp_next h <= hp_next h')%nat.
Proof.
  induction signals as [|s signals IH]; intros handlers h Hfresh Hnd Hab Hg.
  - exists handlers, h. split_and!; try done; [by intros s ?%not_elem_of_nil|by intros ? ?].
  - apply NoDup_cons in Hnd as [Hns Hnd]. cbn [any_loop]. rewrite gets_bind, (Hab s (list_elem_of_here _ _)). cbv iota.
    set (f := hp_next h). set (h1 := Heap (hp_targets h) (<[f := Follow c s g]> (hp_fns h)) (hp_groups h) (S f) (hp_log h)).
    rewrite (bind_ok _ _ h f h1) by done. set (handlers1 := <[s := f]> handlers). set (h2 := Heap (hp_targets h1) (hp_fns h1) (<[g := Group all handlers1]> (hp_groups h1)) (hp_next h1) (hp_log h1)).
    rewrite (bind_ok _ _ h1 tt h2) by done. unfold addEventListener. rewrite (bind_ok _ _ _ _ _ (add_plain_run s abort_type f h2 inherited_abort)). set (h3 := upd_heap s (add_listed abort_type f) h2).
    assert (Hgrow : forall i d, hp_fns h !! i = Some d -> hp_fns h3 !! i = Some d). { intros i d Hi. cbn. rewrite lookup_insert_ne; [done|]. intros <-. rewrite (Hfresh f) in Hi by (unfold f; lia). done. }
    destruct (IH handlers1 h3) as (handlers' & h' & Hrun & Hfol & Hhs & Hoth & Hgr & Hgrow' & Hlog & Hnx).
    + intros i Hi. cbn in *. rewrite lookup_insert_ne by lia. apply Hfresh. unfold f in Hi. lia.
    + done.
    + intros s' Hs'. unfold h3. rewrite the_upd_ne by (intros ->; by apply Hns). apply (Hab s'). by apply list_elem_of_further.
    + cbn. by rewrite lookup_insert_eq.
    + exists handlers', h'. split; [exact Hrun|]. split_and!.
      * intros s' [->|Hs']%elem_of_cons.
        { exists f. split_and!; [|by apply Hgrow'; cbn; rewrite lookup_insert_eq|unfold f; lia|].
          - rewrite Hhs by done. unfold handlers1. by rewrite lookup_insert_eq.
          - rewrite Hoth by done. unfold h3. by rewrite the_upd_eq. }
        destruct (Hfol s' Hs') as (f' & H1 & H2 & H3 & H4). exists f'. split_and!; [done|done|cbn in H3; unfold f in H3; lia|]. rewrite H4. unfold h3. by rewrite the_upd_ne by (intros ->; by apply Hns).
      * intros s' [Hne Hs']%not_elem_of_cons. rewrite Hhs by done. unfold handlers1. by rewrite lookup_insert_ne by congruence.
      * intros t [Hne Ht]%not_elem_of_cons. rewrite Hoth by done. unfold h3. by rewrite the_upd_ne.
      * done.
      * intros i d Hi. by apply Hgrow', Hgrow.
      * rewrite Hlog. done.
      * cbn in Hnx. unfold f in Hnx. lia.
Qed.

(* ------------------------------------------------------------------ *)
(** ** [clean] *)

Lemma upd_twice t f g h : upd_heap t g (upd_heap t f h) = upd_heap t (fun tg => g (f tg)) h.
Proof. unfold upd_heap at 1. rewrite the_upd_eq. unfold upd_heap, set_targets. cbn. by rewrite insert_insert_eq. Qed.

Lemma remove_plain_run t type f h : inherited type = false -> tg_map (the t h) !! f = None ->
  removeEventListener t type f h = (Ok tt, h) /\ listed (the t h) type = [] \/
  removeEventListener t type f h = (Ok tt, upd_heap t (fun tg => drop_empty type (drop_listed type f tg)) h).
Proof.
  intros Hi Hm. unfold removeEventListener. rewrite gets_bind. cbv beta. rewrite Hi. cbn [negb]. rewrite andb_true_r. destruct (bool_decide_reflect (is_Some (tg_listeners (the t h) !! type))) as [Hs|Hs]; cbn [negb].
  - right. rewrite Hm, upd_run. rewrite <- (upd_twice t (drop_listed type f) (drop_empty type)). done.
  - left. split; [done|]. unfold listed. destruct (tg_listeners (the t h) !! type); [|done]. by destruct Hs.
Qed.

Lemma removeAll_absent l f : f ∉ l -> removeAll l f = l.
Proof. unfold removeAll. induction l as [|x l IH]; intros Hf; [done|]. apply not_elem_of_cons in Hf as [Hx Hl]. rewrite filter_cons_True by congruence. by rewrite IH. Qed.

(** [clean] lets go of every signal. *)
Lemma clean_run hs signals : forall h (old : nat -> target), NoDup signals ->
  (forall s, s ∈ signals -> exists f, hs !! s = Some f /\ the s h = add_listed abort_type f (old s) /\ tg_map (old s) !! f = None /\ f ∉ listed (old s) abort_type) ->
  exists h', clean_signals hs signals h = (Ok tt, h') /\ same_objects h h' /\ hp_log h' = hp_log h /\ (forall t, t ∉ signals -> the t h' = the t h) /\
    forall s, s ∈ signals -> listed (the s h') abort_type = listed (old s) abort_type /\ tg_aborted (the s h') = tg_aborted (the s h) /\ tg_reason (the s h') = tg_reason (the s h) /\ tg_on (the s h') = tg_on (the s h).
Proof.
  induction signals as [|s signals IH]; intros h old Hnd Hs.
  - exists h. split_and!; try done. by intros s ?%not_elem_of_nil.
  - apply NoDup_cons in Hnd as [Hns Hnd]. destruct (Hs s (list_elem_of_here _ _)) as (f & Hf & Ht & Hm & Hl). cbn [clean_signals]. rewrite Hf.
    assert (Hm' : tg_map (the s h) !! f = None) by by rewrite Ht. set (dropped := fun tg => drop_empty abort_type (drop_listed abort_type f tg)).
    destruct (remove_plain_run s abort_type f h inherited_abort Hm') as [[_ He]|Hrun]; [rewrite Ht, listed_add, bool_decide_eq_true_2 in He by done; by destruct (listed (old s) abort_type)|].
    fold dropped in Hrun. rewrite (bind_ok _ _ _ _ _ Hrun). set (h1 := upd_heap s dropped h) in *.
    destruct (IH h1 old Hnd) as (h' & Hr & Hsame & Hlog & Hoth & Hdone).
    { intros s' Hs'. unfold h1. rewrite the_upd_ne by (intros ->; by apply Hns). apply Hs. by apply list_elem_of_further. }
    exists h'. split; [exact Hr|]. split; [by apply (same_objects_trans h h1)|]. split; [by rewrite Hlog|]. split.
    + intros t [Hne Ht']%not_elem_of_cons. rewrite Hoth by done. unfold h1. by rewrite the_upd_ne.
    + intros s' [->|Hs']%elem_of_cons.
      * rewrite Hoth by done. unfold h1. rewrite !the_upd_eq. unfold dropped. rewrite listed_drop_empty, listed_drop, bool_decide_eq_true_2 by done. split_and!; [|done|done|done].
        rewrite Ht, listed_add, bool_decide_eq_true_2 by done. unfold removeAll. rewrite filter_app, filter_cons_False by naive_solver. rewrite filter_nil, app_nil_r.
        by apply removeAll_absent.
      * destruct (Hdone s' Hs') as (E1 & E2 & E3 & E4). split_and!; [done| | |]; rewrite ?E2, ?E3, ?E4; unfold h1; by rewrite the_upd_ne by (intros ->; by apply Hns).
Qed.

(* ------------------------------------------------------------------ *)
(** ** Following *)

Definition with_log (l : list (nat * jsstr)) (h : heap) : heap := Heap (hp_targets h) (hp_fns h) (hp_groups h) (hp_next h) l.

Section Follow.
Context (script : nat -> heap -> list action) (inert : forall f h, script f h = []).

Lemma user_run n f type h : hp_fns h !! f = Some User -> call script (S n) f type h = (Ok tt, with_log (hp_log h ++ [(f, type)]) h).
Proof. intros Hf. cbn [call]. unfold body. rewrite gets_bind, Hf. unfold log_call. rewrite modify_bind, gets_bind. by rewrite inert. Qed.

Lemma users_run n type fs : forall h, Forall (fun f => hp_fns h !! f = Some User) fs ->
  call_all (call script (S n)) fs type h = (Ok tt, with_log (hp_log h ++ ((fun f => (f, type)) <$> fs)) h).
Proof.
  induction fs as [|f fs IH]; intros h Hfs; cbn [call_all]; [rewrite app_nil_r; by destruct h|]. apply Forall_cons in Hfs as [Hf Hfs].
  rewrite (bind_ok _ _ _ _ _ (user_run n f type h Hf)). rewrite IH by done. cbn. by rewrite <- app_assoc.
Qed.

Lemma call_all_app calls l1 l2 type h : call_all calls (l1 ++ l2) type h = (call_all calls l1 type ;; call_all calls l2 type) h.
Proof.
  revert h. induction l1 as [|f l1 IH]; intros h; cbn [call_all app]; [by rewrite ret_bind|]. rewrite bind_assoc. unfold mbind, sm_bind in *. destruct (calls f type h) as [[[]|c e] h']; [apply IH|done].
Qed.

(** The handlers in [on...] properties are the program's own. *)
Definition user_on (t : nat) (type : jsstr) (h : heap) : Prop := forall f, tg_on (the t h) !! type = Some f -> hp_fns h !! f = Some User.
Definition on_log (t : nat) (type : jsstr) (h : heap) : list (nat * jsstr) := match tg_on (the t h) !! type with Some f => [(f, type)] | None => [] end.
Lemma on_run n t type h : user_on t type h -> call_on (call script (S n)) t type h = (Ok tt, with_log (hp_log h ++ on_log t type h) h).
Proof.
  intros Hu. unfold call_on, on_log. rewrite gets_bind. specialize (Hu). destruct (tg_on (the t h) !! type) as [f|] eqn:E; [by apply user_run, Hu|]. rewrite app_nil_r. by destruct h.
Qed.

(** A signal nobody listens to. *)
Lemma quiet_abort calls c r h : tg_isSignal (the c h) = true -> tg_listeners (the c h) !! abort_type = None -> tg_on (the c h) !! abort_type = None ->
  abort calls c r h = (Ok tt, upd_heap c (fun tg => set_aborted true (set_reason (normalizeAbortReason r) tg)) h).
Proof.
  intros Hs Hl Ho. unfold abort. rewrite upd_run. set (h1 := upd_heap c _ h). assert (E1 : the c h1 = set_reason (normalizeAbortReason r) (the c h)) by apply the_upd_eq.
  unfold dispatchEvent. rewrite gets_bind, E1. cbn [tg_isSignal set_reason]. rewrite Hs, bool_decide_eq_true_2 by done. cbn [andb when]. rewrite bind_assoc, upd_run.
  assert (E2 : the c (upd_heap c (set_aborted true) h1) = set_aborted true (the c h1)) by apply the_upd_eq.
  rewrite <- (upd_twice c (set_reason (normalizeAbortReason r)) (set_aborted true)). fold h1. set (h2 := upd_heap c (set_aborted true) h1) in *.
  assert (Hon : call_on calls c abort_type h2 = (Ok tt, h2)) by (unfold call_on; rewrite gets_bind, E2, E1; cbn [tg_on set_aborted set_reason]; by rewrite Ho).
  rewrite (bind_ok _ _ _ _ _ Hon). unfold target_dispatchEvent. rewrite gets_bind, E2, E1. cbn [tg_listeners set_aborted set_reason]. rewrite Hl, inherited_abort, ret_bind. done.
Qed.

Lemma normalize_idem r : normalizeAbortReason (normalizeAbortReason r) = normalizeAbortReason r.
Proof. by destruct r. Qed.

(** The signals a program has made, with listeners of its own. *)
Record open_signal (h : heap) (s : nat) : Prop := {
  os_old : (s < hp_next h)%nat; os_signal : tg_isSignal (the s h) = true; os_open : tg_aborted (the s h) = false;
  os_users : Forall (fun f => hp_fns h !! f = Some User) (listed (the s h) abort_type); os_on : user_on s abort_type h }.

Lemma any_run calls ss h : good_heap h -> NoDup ss -> (forall s, s ∈ ss -> open_signal h s) ->
  exists c g handlers h1, any calls ss h = (Ok c, h1) /\ c ∉ ss /\ the c h1 = new_target true /\
    hp_groups h1 !! g = Some (Group ss handlers) /\ grows h h1 /\ hp_log h1 = hp_log h /\ (forall s, s ∈ ss -> follows c g h h1 handlers s).
Proof.
  intros Hh Hnd Hss. set (c := hp_next h). set (g := S c). set (ha := Heap (<[c := new_target true]> (hp_targets h)) (hp_fns h) (hp_groups h) g (hp_log h)).
  set (hb := Heap (hp_targets ha) (hp_fns h) (<[g := Group ss ∅]> (hp_groups h)) (S g) (hp_log h)).
  assert (Hc : c ∉ ss) by (intros Hin; apply Hss in Hin as []; unfold c in *; lia).
  assert (Hthe : forall t, t <> c -> the t hb = the t h) by (intros t Ht; unfold the; cbn; by rewrite lookup_insert_ne).
  destruct (any_loop_run calls c g ss ss ∅ hb) as (handlers & h1 & Hrun & Hfol & _ & Hoth & Hgr & Hgrow & Hlog & _).
  - intros i Hi. apply (gh_fresh _ Hh). cbn in Hi. unfold g, c in Hi. lia.
  - done.
  - intros s Hs. rewrite Hthe by (intros ->; done). by apply (os_open _ _ (Hss s Hs)).
  - cbn. by rewrite lookup_insert_eq.
  - exists c, g, handlers, h1. split_and!; try done.
    + unfold any. rewrite (bind_ok _ _ h c ha) by done. rewrite (bind_ok _ _ ha g hb) by done. by rewrite (bind_ok _ _ _ _ _ Hrun).
    + rewrite Hoth by done. unfold the. cbn. by rewrite lookup_insert_eq.
    + intros s Hs. destruct (Hfol s Hs) as (f & H1 & H2 & H3 & H4). exists f. split_and!; [done|done|cbn in H3; unfold g, c in H3; lia|]. by rewrite H4, Hthe by (intros ->; done).
Qed.

(** The call of the handler of [k]. *)
Lemma follow_run n c g k ss handlers h f (old : nat -> target) : NoDup ss -> c ∉ ss -> k ∈ ss -> hp_groups h !! g = Some (Group ss handlers) ->
  hp_fns h !! f = Some (Follow c k g) -> tg_isSignal (the c h) = true -> tg_listeners (the c h) !! abort_type = None -> tg_on (the c h) !! abort_type = None ->
  (forall s, s ∈ ss -> exists f, handlers !! s = Some f /\ the s h = add_listed abort_type f (old s) /\ tg_map (old s) !! f = None /\ f ∉ listed (old s) abort_type) ->
  exists h', call script (S n) f abort_type h = (Ok tt, h') /\ same_objects h h' /\ hp_log h' = hp_log h /\
    tg_aborted (the c h') = true /\ tg_reason (the c h') = normalizeAbortReason (tg_reason (the k h)) /\
    forall s, s ∈ ss -> listed (the s h') abort_type = listed (old s) abort_type /\ tg_aborted (the s h') = tg_aborted (the s h) /\ tg_reason (the s h') = tg_reason (the s h) /\ tg_on (the s h') = tg_on (the s h).
Proof.
  intros Hnd Hc Hk Hg Hf Hsig Hl Ho Hold. cbn [call]. unfold body. rewrite gets_bind, Hf, gets_bind. rewrite (bind_ok _ _ _ _ _ (quiet_abort _ c _ h Hsig Hl Ho)).
  set (h1 := upd_heap c _ h). unfold clean. rewrite gets_bind. cbn [hp_groups upd_heap h1 set_targets]. rewrite Hg. change (default (Group [] ∅) (Some (Group ss handlers))) with (Group ss handlers). cbn [gr_handlers gr_signals].
  assert (Hthe : forall t, t ∈ ss -> the t h1 = the t h) by (intros t Ht; unfold h1; rewrite the_upd_ne by (intros ->; done); done).
  destruct (clean_run handlers ss h1 old Hnd) as (h' & Hrun & Hsame & Hlog & Hoth & Hdone); [intros s Hs; rewrite Hthe by done; by apply Hold|].
  exists h'. split; [exact Hrun|]. split; [by apply (same_objects_trans h h1)|]. split; [by rewrite Hlog|]. rewrite Hoth by done. unfold h1 at 1 2. rewrite the_upd_eq. split_and!; [done|done|].
  intros s Hs. destruct (Hdone s Hs) as (E1 & E2 & E3 & E4). by rewrite E1, E2, E3, E4, Hthe.
Qed.
End Follow.

(** A signal made by [any] follows the first of its signals to abort.
    For different signals of which none has aborted, with whatever
    listeners the program has added that do nothing more, [any] gives a
    signal that has not aborted; when one of them is aborted, the new
    signal has aborted with the same reason, the listeners of that one have
    been called, and on every one of the signals the listeners are those
    there were before [any]: nothing is left behind, and none of the others
    has aborted. *)
Theorem any_follows_first (script : nat -> heap -> list action) (fuel : nat) (h : heap) (ss : list nat) (k : nat) (r : reason) :
  (forall f h, script f h = []) -> good_heap h -> NoDup ss -> (forall s, s ∈ ss -> open_signal h s) -> k ∈ ss ->
  exists c h1 h2, any (call script (S fuel)) ss h = (Ok c, h1) /\ tg_aborted (the c h1) = false /\
    abort (call script (S fuel)) k r h1 = (Ok tt, h2) /\
    tg_aborted (the c h2) = true /\ tg_reason (the c h2) = normalizeAbortReason r /\
    tg_aborted (the k h2) = true /\ tg_reason (the k h2) = normalizeAbortReason r /\
    (forall s, s ∈ ss -> listed (the s h2) abort_type = listed (the s h) abort_type) /\
    (forall s, s ∈ ss -> s <> k -> tg_aborted (the s h2) = false) /\
    hp_log h2 = hp_log h ++ on_log k abort_type h ++ ((fun f => (f, abort_type)) <$> listed (the k h) abort_type) ++ on_log k abort_type h.
Proof.
  intros Hin Hh Hnd Hss Hk. destruct (any_run (call script (S fuel)) ss h Hh Hnd Hss) as (c & g & hs & h1 & Hany & Hc & Hnew & Hg & Hgrow & Hlog & Hfol).
  exists c, h1. destruct (Hss k Hk) as [Hkold Hksig Hkopen Hkusers Hkon]. destruct (Hfol k Hk) as (f & Hf & Hffn & Hfresh & Hkthe).
  set (r' := normalizeAbortReason r). unfold abort. rewrite upd_run. fold r'. set (hA := upd_heap k (set_reason r') h1).
  unfold dispatchEvent. rewrite gets_bind. assert (EA : the k hA = set_reason r' (the k h1)) by apply the_upd_eq. rewrite EA, Hkthe. cbn [tg_isSignal set_reason add_listed set_listeners].
  rewrite Hksig, bool_decide_eq_true_2 by done. cbn [andb when]. rewrite bind_assoc, upd_run. set (hB := upd_heap k (set_aborted true) hA).
  set (oldk := set_aborted true (set_reason r' (the k h))). assert (EB : the k hB = add_listed abort_type f oldk) by (unfold hB; rewrite the_upd_eq, EA, Hkthe; done).
  assert (Huser : forall x, hp_fns h !! x = Some User -> hp_fns h1 !! x = Some User) by (intros x; apply Hgrow).
  assert (HonB : user_on k abort_type hB) by (intros x Hx; apply Huser, Hkon; by rewrite EB in Hx).
  assert (ElogB : on_log k abort_type hB = on_log k abort_type h) by (unfold on_log; by rewrite EB).
  rewrite (bind_ok _ _ _ _ _ (on_run script Hin fuel k abort_type hB HonB)). set (hC := with_log _ hB).
  unfold target_dispatchEvent. rewrite gets_bind. change (the k hC) with (the k hB). rewrite EB. cbn [tg_listeners add_listed set_listeners]. rewrite lookup_insert_eq.
  assert (Hq : Forall (fun f => hp_fns hC !! f = Some User) (listed oldk abort_type)) by (eapply Forall_impl; [exact Hkusers|]; exact Huser).
  assert (Hold : forall s, s ∈ ss -> exists f, hs !! s = Some f /\ the s hB = add_listed abort_type f (if decide (s = k) then oldk else the s h) /\
      tg_map (if decide (s = k) then oldk else the s h) !! f = None /\ f ∉ listed (if decide (s = k) then oldk else the s h) abort_type).
  { intros s Hs. destruct (Hfol s Hs) as (f' & Hf' & _ & Hfr' & Ht'). exists f'. split; [done|]. destruct (fresh_no_entry h s f' Hh Hfr') as [Hm Hl]. destruct (decide (s = k)) as [->|Hne].
    - assert (f' = f) as -> by congruence. split_and!; [done|done|apply Hl].
    - unfold hB, hA. rewrite !the_upd_ne by done. split_and!; [done|done|apply Hl]. }
  assert (Hcall : exists h', call_all (call script (S fuel)) (listed oldk abort_type ++ [f]) abort_type hC = (Ok tt, h') /\ same_objects hC h' /\
    hp_log h' = hp_log hC ++ ((fun f => (f, abort_type)) <$> listed oldk abort_type) /\ tg_aborted (the c h') = true /\ tg_reason (the c h') = normalizeAbortReason r' /\
    forall s, s ∈ ss -> listed (the s h') abort_type = listed (if decide (s = k) then oldk else the s h) abort_type /\ tg_aborted (the s h') = tg_aborted (the s hB) /\ tg_reason (the s h') = tg_reason (the s hB) /\ tg_on (the s h') = tg_on (the s hB)).
  { rewrite call_all_app. rewrite (bind_ok _ _ _ _ _ (users_run script Hin fuel abort_type _ hC Hq)). set (hD := with_log _ hC). cbn [call_all].
    assert (Hck : c <> k) by (intros ->; done). assert (HcD : the c hD = new_target true) by (change (the c hD) with (the c hB); unfold hB, hA; by rewrite !the_upd_ne by done).
    destruct (follow_run script fuel c g k ss hs hD f (fun s => if decide (s = k) then oldk else the s h)) as (h' & Hrun & Hsame & Hl & Hca & Hcr & Hdone);
      [done|done|done|exact Hg|exact Hffn|by rewrite HcD|rewrite HcD; apply lookup_empty|rewrite HcD; apply lookup_empty|exact Hold|].
    exists h'. rewrite (bind_ok _ _ _ _ _ Hrun). split_and!; [done|by apply (same_objects_trans hC hD)|by rewrite Hl|done| |exact Hdone].
    rewrite Hcr. change (the k hD) with (the k hB). by rewrite EB. }
  destruct Hcall as (hE & Hrun & [Ef Egr En] & HlogE & Hca & Hcr & Hdone). rewrite (bind_ok _ _ _ _ _ Hrun). destruct (Hdone k Hk) as (Hlk & Hak & Hrk & Hok). rewrite EB in Hak, Hrk, Hok.
  assert (HonE : user_on k abort_type hE) by (intros x Hx; rewrite Ef; apply Huser, Hkon; by rewrite Hok in Hx).
  exists (with_log (hp_log hE ++ on_log k abort_type hE) hE). split; [done|]. split; [by rewrite Hnew|]. split; [by apply (on_run script Hin fuel k abort_type hE)|].
  split_and!; [done|etrans; [exact Hcr|apply normalize_idem]|done|done| | |].
  - intros s Hs. destruct (Hdone s Hs) as (El & _). change (listed (the s hE) abort_type = listed (the s h) abort_type). rewrite El. by destruct (decide (s = k)) as [->|].
  - intros s Hs Hne. destruct (Hdone s Hs) as (_ & Ea & _). change (tg_aborted (the s hE) = false). rewrite Ea. unfold hB, hA. rewrite !the_upd_ne by done.
    destruct (Hfol s Hs) as (f' & _ & _ & _ & ->). by apply (os_open _ _ (Hss s Hs)).
  - cbn [hp_log with_log]. rewrite HlogE. assert (ElogE : on_log k abort_type hE = on_log k abort_type h) by (unfold on_log; by rewrite Hok). rewrite ElogE. cbn [hp_log hC with_log]. rewrite ElogB.
    cbn [hp_log hB hA upd_heap set_targets]. rewrite Hlog, <- !app_assoc. done.
Qed.

Definition no_script : nat -> heap -> list action := fun _ _ => [].
Definition two_signals : heap := (run no_script 3 [DoAdd 0 abort_type 2 false None] (start 0 2 1)).2.

Lemma two_signals_good : good_heap two_signals.
Proof. apply kg_perform_all; [apply kg_call|apply start_consistent|done]. Qed.

Lemma any_follows_first_witness : exists c h2, tg_aborted (the c h2) = true /\ tg_reason (the c h2) = StreamBase.User 7 /\ hp_log h2 = [(2%nat, abort_type)].
Proof.
  destruct (any_follows_first no_script 3 two_signals [0%nat; 1%nat] 0 (StreamBase.User 7)) as (c & h1 & h2 & _ & _ & _ & Ha & Hr & _ & _ & _ & _ & Hl).
  - reflexivity.
  - exact two_signals_good.
  - apply (bool_decide_unpack _). vm_compute. exact I.
  - intros s Hs. assert (Hs' : s = 0%nat \/ s = 1%nat) by set_solver.
    destruct Hs' as [-> | ->]; split; try (vm_compute; reflexivity); try (vm_compute; lia); try (intros f Hf; vm_compute in Hf; discriminate); apply (bool_decide_unpack _); vm_compute; exact I.
  - set_solver.
  - exists c, h2. split; [exact Ha|]. split; [exact Hr|]. rewrite Hl. vm_compute. reflexivity.
Defined.

(* ------------------------------------------------------------------ *)
(** ** Where the code falls short *)

Definition calls_of (script : nat -> heap -> list action) (h : heap) (actions : list action) : list (nat * jsstr) := hp_log (run script 20 actions h).2.

(** A listener for [once] is called twice when an earlier listener
    dispatches the event again: the outer snapshot still has it. *)
Lemma once_called_twice :
  let script f h := if bool_decide (f = 1%nat) && (length (hp_log h) =? 1)%nat then [DoDispatch 0 (js "x")] else [] in
  (fst <$> calls_of script (start 1 0 2) [DoAdd 0 (js "x") 1 false None; DoAdd 0 (js "x") 2 true None; DoDispatch 0 (js "x")]) = [1; 1; 2; 2]%nat.
Proof. vm_compute. reflexivity. Qed.

(** A plain listener cannot be removed while the same function listens
    with an option for another type. *)
Lemma plain_not_removed :
  (fst <$> calls_of no_script (start 1 0 1) [DoAdd 0 (js "a") 1 false None; DoAdd 0 (js "b") 1 true None; DoRemove 0 (js "a") 1; DoDispatch 0 (js "a")]) = [1]%nat.
Proof. vm_compute. reflexivity. Qed.

(** The wrapper of a [once] listener removes the last registration of its
    function, not its own: the one meant to stay goes, and it stays. *)
Lemma once_removes_another :
  (fst <$> calls_of no_script (start 1 1 1) [DoAdd 0 (js "x") 2 true None; DoAdd 0 (js "x") 2 false (Some 1%nat); DoDispatch 0 (js "x"); DoAbort 1 Undefined; DoDispatch 0 (js "x")]) = [2; 2]%nat.
Proof. vm_compute. reflexivity. Qed.

(** [onabort] is called twice, a second [abort] fires again and replaces
    the reason. *)
Lemma onabort_twice :
  let r := (run no_script 20 [DoOn 0 abort_type (Some 1%nat); DoAbort 0 (StreamBase.User 1); DoAbort 0 (StreamBase.User 2)] (start 0 1 1)).2 in
  (fst <$> hp_log r, tg_reason (the 0 r)) = ([1; 1; 1; 1]%nat, StreamBase.User 2).
Proof. vm_compute. reflexivity. Qed.

(** When a later signal of [any] has already aborted, the handlers put on
    the earlier ones stay, and fail when one of those aborts; the reason of
    the new signal, number 2, is replaced. *)
Lemma any_after_aborted :
  let '(o, h) := run no_script 20 [DoAbort 1 (StreamBase.User 1); DoAny [0; 1]%nat; DoAbort 0 (StreamBase.User 2)] (start 0 2 0) in
  (o, tg_reason (the 2 h)) = (Throw ErrTypeError "`listener` must be a function", StreamBase.User 2).
Proof. vm_compute. reflexivity. Qed.

(** The name of a property every object inherits is no type of event. *)
Lemma inherited_type_throws : (run no_script 20 [DoAdd 0 (js "toString") 1 false None] (start 1 0 1)).1 = Throw ErrTypeError "not a function".
Proof. vm_compute. reflexivity. Qed.
