(* ===== verification/FedStream.v ===== *)
(** * A readable stream fed from outside

    [new ReadableStream({ start: c => (controller = c) })]: the source has no
    [pull] and no [cancel], the strategy is the one by default, and whoever
    holds [controller] feeds it.  The HTTP client, the body of a request and
    the sockets wrapped as streams all do this.  [Q] says what no consumer
    changes of such a stream as long as nobody cancels it, and
    [fed_stream_intact] what the consumer gets. *)

From S2P Require Import Prelude StreamBase ReadableStream ReadableStreamInv.
Open Scope Z_scope.

Definition unit_size (chunk : Z) : outcome jsnum := Ok (Fin 1).
Definition no_pull (n : nat) : list ctl_op := [].

(* ------------------------------------------------------------------ *)
(** ** What a consumer does not change *)

(** What was accepted, whether the source has closed, whether it may have
    failed; no end is read before the stream is closed. *)
Record Q (accepted : list Z) (closing failed : bool) (s : rstream) : Prop := {
  q_accepted : rs_accepted s = accepted;
  q_closing : rc_closeRequested s = closing;
  q_cancel : existsb is_cancel (rs_calls s) = false;
  q_failed : rs_state s = Errored -> failed = true;
  q_open : closing = false -> rs_state s <> Closed;
  q_done : ReadDone ∈ rs_reads s -> rs_state s = Closed;
}.

Definition kept {A} (m : SM rstream A) : Prop := forall a b f s, Q a b f s -> Q a b f (m s).2.

Definition view (s : rstream) := (rs_accepted s, rc_closeRequested s, rs_calls s, rs_state s, rs_reads s).

Lemma Q_view a b f s s' : view s' = view s -> Q a b f s -> Q a b f s'.
Proof. unfold view. intros [= E1 E2 E3 E4 E5] [? ? ? ? ? ?]. split; by rewrite ?E1, ?E2, ?E3, ?E4, ?E5. Qed.

Section Kept.
Context {A B : Type}.
Lemma kept_bind (m : SM rstream A) (g : A -> SM rstream B) : kept m -> (forall x, kept (g x)) -> kept (m ≫= g).
Proof. intros Hm Hg a b f s H. unfold mbind, sm_bind. specialize (Hm a b f s H). destruct (m s) as [[x|c e] s']; [by apply Hg|done]. Qed.
Lemma kept_ret (x : A) : kept (mret x).
Proof. by intros ????. Qed.
Lemma kept_throw c msg : kept (throw c msg : SM rstream A).
Proof. by intros ????. Qed.
Lemma kept_gets (g : rstream -> A) : kept (gets g).
Proof. by intros ????. Qed.
End Kept.

Lemma kept_assert c : kept (assert c).
Proof. intros a b f s H. exact H. Qed.
Lemma kept_modify g : (forall s, view (g s) = view s) -> kept (modify g).
Proof. intros Hg a b f s. apply Q_view, Hg. Qed.
Lemma kept_state {B} (g : rstream -> SM rstream B) : (forall s, kept (g s)) -> kept (s ← gets id; g s).
Proof. intros Hg. apply kept_bind; [apply kept_gets|done]. Qed.
Lemma kept_promise v : kept (new_promise v).
Proof. intros a b f s. by apply Q_view. Qed.
Lemma kept_the_reader r : kept (the_reader r).
Proof. intros a b f s H. unfold the_reader. by destruct (rs_readers s !! r). Qed.
Lemma kept_set_reader r x : kept (set_reader r x).
Proof. by apply kept_modify. Qed.
Lemma kept_for_reader g : (forall r, kept (g r)) -> kept (for_reader g).
Proof. intros Hg. apply kept_bind; [apply kept_gets|]. intros [r|]; [done|apply kept_ret]. Qed.

Lemma insert_done (l : list read_result) i v : v <> ReadDone -> ReadDone ∈ <[i := v]> l -> ReadDone ∈ l.
Proof.
  intros Hv [j Hj]%list_elem_of_lookup. destruct (decide (i = j)) as [->|Hne].
  - apply list_lookup_insert_Some in Hj as [(_ & Hj & _)|[? _]]; [congruence|done].
  - rewrite list_lookup_insert_ne in Hj by done. by eapply list_elem_of_lookup_2.
Qed.

Lemma Q_reads a b f l s : (ReadDone ∈ l -> ReadDone ∈ rs_reads s) -> Q a b f s -> Q a b f (set_rs_reads l s).
Proof. intros Hl [? ? ? ? ? Hd]. split; try done. cbn. intros H. by apply Hd, Hl. Qed.

Lemma kept_settle_read v i : v <> ReadDone -> kept (settle_read v i).
Proof. intros Hv a b f s. apply Q_reads. by apply insert_done. Qed.
Lemma kept_new_read : kept (new_read ReadPending).
Proof. intros a b f s. apply Q_reads. by intros [?|?%list_elem_of_singleton]%elem_of_app. Qed.

#[export] Hint Resolve kept_promise kept_the_reader kept_set_reader kept_settle_read kept_new_read kept_gets kept_assert kept_ret kept_throw : kept.

Ltac kept := repeat first
  [ solve [auto with kept] | apply kept_state; intros ? | apply kept_bind; [|intros ?] | apply kept_modify; done
  | apply kept_for_reader; intros ?
  | match goal with |- kept (if ?b then _ else _) => destruct b | |- kept (match ?x with _ => _ end) => destruct x end ].

Lemma kept_settle_requests v r : v <> ReadDone -> kept (settle_requests v r).
Proof.
  intros Hv. unfold settle_requests. kept. intros a b f s. apply Q_reads.
  generalize (rs_reads s). induction (rd_requests x) as [|i l IH]; intros t; [done|]. cbn. intros H%IH. by eapply insert_done.
Qed.
#[export] Hint Resolve kept_settle_requests : kept.

(** The end of the stream, once the source has closed. *)
Lemma settle_requests_closed v r a b f s : rs_state s = Closed -> Q a b f s -> Q a b f (settle_requests v r s).2.
Proof.
  intros Hs [? ? ? ? ? ?]. unfold settle_requests, mbind, sm_bind, the_reader. destruct (rs_readers s !! r); [|by split]. by split.
Qed.

Lemma Q_close a f s : Q a true f s -> Q a true f (ReadableStreamClose s).2.
Proof.
  intros H. unfold ReadableStreamClose. rewrite gets_bind. unfold mbind at 1, sm_bind at 1, assert, assert_default, rstate_is, id.
  case_bool_decide as Hs; [|done]. rewrite modify_bind. set (s1 := set_rs_state Closed s).
  assert (H1 : Q a true f s1) by (destruct H; by split).
  unfold for_reader. rewrite gets_bind. destruct (rs_reader s1) as [r|]; [|done].
  assert (Hc : rs_state s1 = Closed) by done. clearbody s1. clear H Hs s.
  unfold mbind at 1, sm_bind at 1. assert (Hr : Q a true f (defaultReaderClosedPromiseResolve r s1).2 /\ rs_state (defaultReaderClosedPromiseResolve r s1).2 = Closed).
  { unfold defaultReaderClosedPromiseResolve, mbind, sm_bind, the_reader. destruct (rs_readers s1 !! r) as [x|]; [|done].
    destruct (rd_resolvers x); [|done]. cbn. split; [|done]. by apply (Q_view _ _ _ s1). }
  destruct (defaultReaderClosedPromiseResolve r s1) as [[[]|c m] s2]; [|apply Hr]. apply settle_requests_closed; apply Hr.
Qed.

(* ------------------------------------------------------------------ *)
(** ** The operations of a consumer *)

Lemma kept_should_pull : kept (ReadableStreamDefaultControllerShouldCallPull (Fin 1)).
Proof. unfold ReadableStreamDefaultControllerShouldCallPull. kept. Qed.

Lemma kept_call_pull depth : kept (ReadableStreamDefaultControllerCallPullIfNeeded (Fin 1) unit_size no_pull depth).
Proof.
  destruct depth; cbn [ReadableStreamDefaultControllerCallPullIfNeeded]; (apply kept_bind; [apply kept_should_pull|intros b]); kept.
  all: unfold call_source; kept; intros a b' f s0 [? ? ? ? ? ?]; split; try done; cbn; by rewrite existsb_app, orb_false_r.
Qed.
#[export] Hint Resolve kept_call_pull : kept.

Lemma kept_dequeue : kept DequeueValue.
Proof. unfold DequeueValue. kept. Qed.

Lemma kept_PullSteps v : kept (PullSteps (Fin 1) unit_size no_pull v).
Proof.
  unfold PullSteps. apply kept_bind; [apply kept_gets|intros q]. destruct (bool_decide _).
  - apply kept_bind; [apply kept_dequeue|intros c]. intros a b f s H. rewrite gets_bind. unfold id.
    unfold mbind at 1, sm_bind at 1.
    assert (H1 : Q a b f ((if rc_closeRequested s && bool_decide (rc_queue s = [])
      then ReadableStreamDefaultControllerClearAlgorithms ;; ReadableStreamClose else CallPullIfNeeded (Fin 1) unit_size no_pull) s).2).
    { destruct (rc_closeRequested s) eqn:E; cbn [andb]; [|by apply kept_call_pull]. assert (b = true) as -> by by rewrite <-(q_closing _ _ _ _ H).
      case_bool_decide; [|by apply kept_call_pull]. apply Q_close. by apply (Q_view _ _ _ s). }
    destruct (_ s) as [[[]|cl m] s'] in H1 |- *; [|done]. by apply kept_settle_read.
  - unfold ReadableStreamAddReadRequest, CallPullIfNeeded. kept.
Qed.

Lemma kept_reader_read r : kept (reader_read (Fin 1) unit_size no_pull r).
Proof.
  unfold reader_read, promiseRejectedWith, ReadableStreamDefaultReaderRead. apply kept_bind; [auto with kept|intros x].
  destruct (negb (rd_owner x)); [kept|]. apply kept_bind; [auto with kept|intros v]. apply kept_bind; [|intros; apply kept_ret].
  apply kept_bind; [by apply kept_modify|intros _]. intros a b f s H. rewrite gets_bind. unfold id.
  destruct (rs_state s) eqn:Es; [by apply kept_PullSteps| |by apply kept_settle_read].
  destruct H as [? ? ? ? ? ?]. by split.
Qed.

Lemma kept_new_reader : kept new_ReadableStreamDefaultReader.
Proof.
  unfold new_ReadableStreamDefaultReader, ReadableStreamReaderGenericInitialize, defaultReaderClosedPromiseInitializeAsRejected,
    defaultReaderClosedPromiseInitialize, defaultReaderClosedPromiseResolve, defaultReaderClosedPromiseReject, settle_promise.
  kept.
Qed.

Lemma kept_release r : kept (reader_releaseLock r).
Proof.
  unfold reader_releaseLock, ReadableStreamReaderGenericRelease, ReadableStreamDefaultReaderErrorReadRequests,
    defaultReaderClosedPromiseInitializeAsRejected, defaultReaderClosedPromiseInitialize, defaultReaderClosedPromiseReject, settle_promise.
  kept.
Qed.

(** A consumer that reads and does not cancel; start and pull of this
    source do not fail. *)
Definition gentle (e : revent) : Prop :=
  match e with EvGetReader | EvRead _ | EvRelease _ | EvSettled _ None => True | _ => False end.

Lemma kept_event e : gentle e -> kept (revent_run (Fin 1) unit_size no_pull e).
Proof.
  destruct e as [|e|r|r e|r|op|i [e|]]; try done; intros _; cbn [revent_run]; unfold ignore.
  - apply kept_bind; [apply kept_new_reader|intros; apply kept_ret].
  - apply kept_bind; [apply kept_reader_read|intros; apply kept_ret].
  - apply kept_release.
  - apply kept_bind; [apply kept_gets|intros l]. destruct (l !! i) as [k|]; [|apply kept_ret].
    apply kept_bind; [by apply kept_modify|intros _]. destruct k; cbn; unfold on_start_fulfilled, on_pull_fulfilled, settle_promise, CallPullIfNeeded; kept.
Qed.

(* ------------------------------------------------------------------ *)
(** ** The operations of the source *)

Lemma unit_size_ok chunk c msg : unit_size chunk = Throw c msg -> is_defect c msg = false.
Proof. done. Qed.

Lemma kept_fulfill c : kept (ReadableStreamFulfillReadRequest c false).
Proof. unfold ReadableStreamFulfillReadRequest. kept. Qed.

Lemma Q_enqueue a s c : Inv false None s -> Q a false false s ->
  Q (a ++ [c]) false false (revent_run (Fin 1) unit_size no_pull (EvController (CtlEnqueue c)) s).2.
Proof.
  intros Hi H. cbn [revent_run]. unfold controller_op. rewrite gets_bind. unfold id.
  assert (Hs : rs_state s = Readable).
  { destruct H as [_ _ _ Hf Ho _]. destruct (rs_state s); [done|by destruct Ho|by specialize (Hf eq_refl)]. }
  assert (Hcan : ReadableStreamDefaultControllerCanCloseOrEnqueue s = true) by (apply can_close_inv; split; [apply (q_closing _ _ _ _ H)|done]).
  rewrite Hcan. cbn [negb]. unfold ReadableStreamDefaultControllerEnqueue. rewrite gets_bind. unfold id. rewrite Hcan. cbn [negb].
  assert (exists s1, (if IsReadableStreamLocked s && (0 <? ReadableStreamGetNumReadRequests s)%nat
    then ReadableStreamFulfillReadRequest c false else enqueue_sized unit_size c) s = (Ok tt, s1) /\ Q a false false s1) as (s1 & E & H1).
  { destruct (IsReadableStreamLocked s && _) eqn:El.
    - apply andb_true_iff in El as [_ El%Nat.ltb_lt]. destruct (fulfill_good false None s c Hi) as (s1 & E & _).
      { unfold ReadableStreamGetNumReadRequests in El. destruct (requests s); [cbn in El; lia|done]. }
      exists s1. split; [done|]. pose proof (kept_fulfill c a false false s H) as Hk. by rewrite E in Hk.
    - unfold enqueue_sized. rewrite (fl_algorithms s) by (done || apply Hi). eexists. split; [done|]. by apply (Q_view _ _ _ s). }
  rewrite (bind_ok _ _ _ _ _ E), modify_bind. apply kept_call_pull. destruct H1 as [Ha ? ? ? ? ?]. split; try done. cbn. by rewrite Ha.
Qed.

Lemma Q_ctl_close a s : Q a false false s -> Q a true false (revent_run (Fin 1) unit_size no_pull (EvController CtlClose) s).2.
Proof.
  intros H. cbn [revent_run]. unfold controller_op. rewrite gets_bind. unfold id.
  assert (Hs : rs_state s = Readable).
  { destruct H as [_ _ _ Hf Ho _]. destruct (rs_state s); [done|by destruct Ho|by specialize (Hf eq_refl)]. }
  assert (Hcan : ReadableStreamDefaultControllerCanCloseOrEnqueue s = true) by (apply can_close_inv; split; [apply (q_closing _ _ _ _ H)|done]).
  rewrite Hcan. cbn [negb]. unfold ReadableStreamDefaultControllerClose. rewrite gets_bind. unfold id. rewrite Hcan. cbn [negb]. rewrite modify_bind.
  assert (H1 : Q a true false (set_rc_closeRequested true s)) by (destruct H; by split).
  destruct (bool_decide (rc_queue s = [])); [|done]. apply Q_close. by apply (Q_view _ _ _ (set_rc_closeRequested true s)).
Qed.

Lemma Q_ctl_error a b e s : Q a b false s -> Q a b true (revent_run (Fin 1) unit_size no_pull (EvController (CtlError e)) s).2.
Proof.
  intros H. assert (H1 : Q a b true s) by (destruct H; by split). cbn [revent_run]. unfold controller_op. rewrite gets_bind. unfold id.
  unfold ReadableStreamDefaultControllerError. rewrite gets_bind. unfold id. unfold rstate_is at 1. case_bool_decide as Hs; [|done]. cbn [negb].
  unfold ResetQueue, ReadableStreamDefaultControllerClearAlgorithms. rewrite !modify_bind.
  unfold ReadableStreamError. rewrite gets_bind. set (s1 := set_rc_algorithms _ _). unfold mbind at 1, sm_bind at 1, assert, assert_default, rstate_is, id.
  rewrite bool_decide_true by done. rewrite !modify_bind.
  assert (H2 : Q a b true (set_rs_storedError e (set_rs_state Errored s1))).
  { destruct H1 as [? ? ? ? ? Hd]. split; try done. cbn. intros Hr%Hd. congruence. }
  revert H2. generalize (set_rs_storedError e (set_rs_state Errored s1)). intros s2.
  apply kept_for_reader. intros r. unfold defaultReaderClosedPromiseReject, ReadableStreamDefaultReaderErrorReadRequests, settle_promise. kept.
Qed.

(* ------------------------------------------------------------------ *)
(** ** A run *)

Definition run_stream (e : revent) (t : rstream) : rstream := (revent_run (Fin 1) unit_size no_pull e t).2.

Lemma run_stream_inv e t : Inv false None t -> Inv false None (run_stream e t).
Proof. intros H. by destruct (event_good (Fin 1) unit_size no_pull unit_size_ok e t H). Qed.

Definition numbers (n : nat) : list Z := Z.of_nat <$> seq 0 n.

Lemma numbers_S n : numbers (S n) = numbers n ++ [Z.of_nat n].
Proof. unfold numbers. by rewrite seq_S, fmap_app. Qed.

Lemma omap_numbers {A} (l : list A) (p q : list Z) : p ++ q = numbers (length l) ->
  omap (fun c => l !! Z.to_nat c) p = take (length p) l.
Proof.
  intros E. assert (Hp : p = Z.of_nat <$> seq 0 (length p)).
  { assert (Ht : take (length p) (numbers (length l)) = p) by by rewrite <-E, take_app_length.
    assert (Hle : (length p <= length l)%nat) by (apply (f_equal length) in E; unfold numbers in E; rewrite length_app, length_fmap, length_seq in E; lia).
    rewrite <-Ht at 1. unfold numbers. rewrite <-fmap_take, take_seq. f_equal. f_equal. lia. }
  assert (Hle : (length p <= length l)%nat) by (apply (f_equal length) in E; unfold numbers in E; rewrite length_app, length_fmap, length_seq in E; lia).
  rewrite Hp at 1. clear E Hp. revert Hle. generalize (length p). clear p q. intros n Hle.
  induction n as [|n IH]; [done|]. rewrite seq_S, fmap_app, omap_app, IH by lia. destruct (lookup_lt_is_Some_2 l n) as [x Hx]; [lia|].
  cbn. rewrite Nat2Z.id, Hx. by rewrite (take_S_r _ _ x).
Qed.


(** What the consumer has got: the chunks in order, the end only after all
    of them and a close, and then no read waits. *)
Lemma stream_outcome chunks closed failed t : Inv false None t -> Q chunks closed failed t ->
  delivered (rs_reads t) `prefix_of` chunks /\
  (ReadDone ∈ rs_reads t -> delivered (rs_reads t) = chunks /\ closed = true) /\
  (closed = true -> failed = false -> ReadPending ∉ rs_reads t).
Proof.
  intros Hi HQ.
  pose proof Hi as [[_ [_ (settled & Hp & Hl & _)] (lost & Hacc & Hlo) Hfl] _]. rewrite (q_accepted _ _ _ _ HQ) in Hacc. split; [|split].
  - by eexists.
  - intros Hdone. pose proof (q_done _ _ _ _ HQ Hdone) as Hclosed. split.
    + assert (Hq0 : rc_queue t = []) by (apply (fl_ended _ Hfl); congruence).
      assert (Hl0 : lost = []).
      { destruct lost as [|x lost]; [done|]. destruct (Hlo ltac:(done)) as [_ [Hx|Hx]]; [congruence|]. by rewrite (q_cancel _ _ _ _ HQ) in Hx. }
      rewrite Hq0, Hl0 in Hacc. cbn in Hacc. by rewrite app_nil_r in Hacc.
    + destruct closed; [done|]. by destruct (q_open _ _ _ _ HQ eq_refl).
  - intros Hc Hf. rewrite Hl, elem_of_app. intros [Hin|Hin]; [done|].
    assert (Hr : requests t <> []) by (intros Er; rewrite Er in Hin; by apply elem_of_nil in Hin).
    pose proof (fl_requests _ Hfl Hr) as Hq0. destruct (requests_readable _ _ _ Hi Hr) as (r & x & Hrs & _).
    assert (Hcl : rc_closeRequested t = true) by by rewrite (q_closing _ _ _ _ HQ). by apply (fl_close _ Hfl Hcl Hrs).
Qed.

(* ------------------------------------------------------------------ *)
(** ** Feeding and reading *)

Inductive fed_event := Feed (op : ctl_op) | Consumed (e : revent).

Definition fed_step (t : rstream) (e : fed_event) : rstream :=
  match e with Feed op => run_stream (EvController op) t | Consumed e => run_stream e t end.

Definition fed_run (es : list fed_event) : rstream := foldl fed_step new_stream es.

(** The chunks up to the first close or error, and whether there was one. *)
Record source := Source { so_chunks : list Z; so_closed : bool; so_failed : bool }.
Definition source_step (s : source) (e : fed_event) : source :=
  match e with
  | Feed (CtlEnqueue c) => if so_closed s then s else Source (so_chunks s ++ [c]) false (so_failed s)
  | Feed CtlClose => Source (so_chunks s) true (so_failed s)
  | Feed (CtlError _) => Source (so_chunks s) (so_closed s) true
  | Consumed _ => s
  end.
Definition source_of (es : list fed_event) : source := foldl source_step (Source [] false false) es.

(** Nothing is fed after an error. *)
Definition unbroken (es : list fed_event) : Prop :=
  forall pre op post, es = pre ++ Feed op :: post -> so_failed (source_of pre) = false.

Lemma unbroken_snoc es e : unbroken (es ++ [e]) -> unbroken es /\ forall op, e = Feed op -> so_failed (source_of es) = false.
Proof.
  intros H. split; [|intros op ->; by apply (H es op [])]. intros pre op post ->. apply (H pre op (post ++ [e])). by rewrite <-app_assoc.
Qed.

Lemma run_stream_closed a f op s : Q a true f s -> match op with CtlError _ => False | _ => True end -> run_stream (EvController op) s = s.
Proof.
  intros H Hop. assert (Hc : ReadableStreamDefaultControllerCanCloseOrEnqueue s = false).
  { unfold ReadableStreamDefaultControllerCanCloseOrEnqueue. by rewrite (q_closing _ _ _ _ H). }
  unfold run_stream. cbn [revent_run]. unfold controller_op. destruct op; [| |done]; rewrite gets_bind; unfold id; by rewrite Hc.
Qed.

Lemma fed_run_inv es : (forall c, Consumed c ∈ es -> gentle c) -> unbroken es ->
  let src := source_of es in Inv false None (fed_run es) /\ Q (so_chunks src) (so_closed src) (so_failed src) (fed_run es).
Proof.
  induction es as [|e es IH] using rev_ind; intros Hg Hu; cbv zeta.
  - split; [apply new_stream_inv|]. split; try done. by intros ?%elem_of_nil.
  - destruct (unbroken_snoc _ _ Hu) as [Hu' Hf]. destruct IH as [Hi HQ]; [|done|].
    { intros c Hc. apply Hg, elem_of_app. by left. }
    unfold fed_run, source_of in *. rewrite !foldl_app. cbn [foldl]. set (t := foldl fed_step new_stream es) in *. set (src := foldl source_step _ es) in *.
    destruct e as [op|c]; cbn [fed_step]; (split; [by apply run_stream_inv|]).
    + specialize (Hf op eq_refl). fold src in Hf. destruct src as [chunks closed failed]. cbn in Hf. subst failed. cbn [so_chunks so_closed so_failed] in *. destruct closed.
      * destruct op as [x| |x]; cbn; [by rewrite (run_stream_closed _ _ _ _ HQ)|by rewrite (run_stream_closed _ _ _ _ HQ)|by apply Q_ctl_error].
      * destruct op as [x| |x]; cbn; [by apply Q_enqueue|by apply Q_ctl_close|by apply Q_ctl_error].
    + cbn [source_step]. apply kept_event; [|done]. apply Hg, elem_of_app. right. by apply list_elem_of_singleton.
Qed.

Lemma fed_stream_intact es : (forall c, Consumed c ∈ es -> gentle c) -> unbroken es ->
  let src := source_of es in let reads := rs_reads (fed_run es) in
  delivered reads `prefix_of` so_chunks src /\
  (ReadDone ∈ reads -> delivered reads = so_chunks src /\ so_closed src = true) /\
  (so_closed src = true -> so_failed src = false -> ReadPending ∉ reads).
Proof. intros Hg Hu. destruct (fed_run_inv es Hg Hu) as [Hi HQ]. by apply stream_outcome. Qed.
