(* ===== verification/Handoff.v ===== *)
(** * The handoff of a session to a connection

    [lib/lws/protocols.js] starts a connection before it knows the [wsi]
    that the native side will call back with: what the connection is for is
    left in [#pending], and the first callback of a [wsi] that has no
    session yet claims it.  [HttpClientProtocol] and [StreamAdapter] both do
    this with a field [#pending] and a map [#sessions], which are this file's
    [handoff]; sessions and [wsi]s are numbers.

    A [ledger] is the table that the handoff is meant to keep: which session
    each connection was made for, known when it is made.  [claim_agrees] says
    when claiming finds the owner; [linear] holds whatever happens. *)

From S2P Require Import Prelude.

(** [#pending] and [#sessions] *)
Record handoff := Handoff { ho_pending : option nat; ho_sessions : gmap nat nat }.

Definition no_sessions : handoff := Handoff None ∅.

(** [#session(wsi)] *)
Definition claim (w : nat) (h : handoff) : option nat * handoff :=
  match ho_sessions h !! w, ho_pending h with
  | Some i, _ => (Some i, h)
  | None, Some i => (Some i, Handoff None (<[w := i]> (ho_sessions h)))
  | None, None => (None, h)
  end.

(** [this.#pending = session], [this.#sessions.set] and [this.#sessions.delete] *)
Definition offer (i : nat) (h : handoff) : handoff := Handoff (Some i) (ho_sessions h).
Definition bind_wsi (w i : nat) (h : handoff) : handoff := Handoff (ho_pending h) (<[w := i]> (ho_sessions h)).
Definition forget (w : nat) (h : handoff) : handoff := Handoff (ho_pending h) (delete w (ho_sessions h)).

(* ------------------------------------------------------------------ *)
(** ** The table it stands for *)

(** The session of each connection, and the connection whose first callback
    has not come yet. *)
Record ledger := Ledger { lg_owner : gmap nat nat; lg_waiting : option nat }.

Definition no_owners : ledger := Ledger ∅ None.

(** A callback of [w]: orderly unless it is the first of a connection that
    nobody made while another one waits for its own. *)
Definition heard (w : nat) (g : ledger) : option ledger :=
  match lg_waiting g with
  | None => Some g
  | Some w' => if bool_decide (w = w') then Some (Ledger (lg_owner g) None)
               else if bool_decide (is_Some (lg_owner g !! w)) then Some g else None
  end.

(** A connection is made for [i] as [w]: orderly when none is waiting and
    [w] is not in use. *)
Definition opened (w i : nat) (g : ledger) : option ledger :=
  match lg_waiting g, lg_owner g !! w with
  | None, None => Some (Ledger (<[w := i]> (lg_owner g)) (Some w))
  | _, _ => None
  end.

Definition closed (w : nat) (g : ledger) : ledger := Ledger (delete w (lg_owner g)) (lg_waiting g).

Record agrees (h : handoff) (g : ledger) : Prop := {
  ag_pending : ho_pending h = (w ← lg_waiting g; lg_owner g !! w);
  ag_waiting : forall w, lg_waiting g = Some w -> is_Some (lg_owner g !! w);
  ag_sessions : ho_sessions h = match lg_waiting g with Some w => delete w (lg_owner g) | None => lg_owner g end;
}.

Lemma agrees_start : agrees no_sessions no_owners.
Proof. by split. Qed.

Lemma heard_owner w g g' : heard w g = Some g' -> lg_owner g' = lg_owner g /\ lg_waiting g' <> Some w.
Proof.
  unfold heard. destruct (lg_waiting g) as [w'|] eqn:E; [|intros [= <-]; by rewrite E].
  case_bool_decide; [by intros [= <-]|]. case_bool_decide; [|done]. intros [= <-]. rewrite E. split; [done|]. by intros [= ->].
Qed.

(** An orderly callback gets the session its connection was made for. *)
Lemma claim_agrees w h g g' : agrees h g -> heard w g = Some g' ->
  exists h', claim w h = (lg_owner g !! w, h') /\ agrees h' g'.
Proof.
  intros [Hp Hw Hs] Hg. unfold claim, heard in *. rewrite Hs, Hp. destruct (lg_waiting g) as [w'|] eqn:E; cbn.
  - destruct (Hw w' eq_refl) as [i Hi]. case_bool_decide as Heq; [subst w'|].
    + injection Hg as <-. rewrite lookup_delete_eq, Hi. cbn. eexists. split; [done|]. split; cbn; [done|done|].
      rewrite <-(insert_id (lg_owner g) w i) at 2 by done. apply insert_delete_eq.
    + case_bool_decide as Ho; [|done]. injection Hg as <-. destruct Ho as [j Hj].
      rewrite lookup_delete_ne, Hj by done. exists h. split; [done|]. split; rewrite ?E; done.
  - injection Hg as <-. exists h. split; [by destruct (lg_owner g !! w)|]. split; rewrite ?E; done.
Qed.

Lemma offer_agrees w i h g g' : agrees h g -> opened w i g = Some g' -> agrees (offer i h) g'.
Proof.
  intros [Hp Hw Hs] Hg. unfold opened in Hg. destruct (lg_waiting g) eqn:E; [done|]. destruct (lg_owner g !! w) eqn:Ew; [done|].
  injection Hg as <-. split; cbn.
  - by rewrite lookup_insert_eq.
  - intros ? [= <-]. by rewrite lookup_insert_eq.
  - by rewrite Hs, delete_insert_id.
Qed.

Lemma forget_agrees w h g : agrees h g -> lg_waiting g <> Some w -> agrees (forget w h) (closed w g).
Proof.
  intros [Hp Hw Hs] Hne. unfold forget, closed. split; cbn.
  - rewrite Hp. destruct (lg_waiting g) as [w'|]; [|done]. cbn. rewrite lookup_delete_ne; congruence.
  - intros w' E. rewrite lookup_delete_ne by congruence. by apply Hw.
  - rewrite Hs. destruct (lg_waiting g); [apply delete_delete|done].
Qed.

(* ------------------------------------------------------------------ *)
(** ** What holds without order *)

(** Every session is in one place at most. *)
Record linear (h : handoff) : Prop := {
  li_inj : forall w w' i, ho_sessions h !! w = Some i -> ho_sessions h !! w' = Some i -> w = w';
  li_pending : forall w i, ho_pending h = Some i -> ho_sessions h !! w <> Some i;
}.

(** Session [i] is nowhere. *)
Definition absent (i : nat) (h : handoff) : Prop := ho_pending h <> Some i /\ forall w, ho_sessions h !! w <> Some i.

Lemma no_sessions_linear : linear no_sessions.
Proof. by split. Qed.

Lemma claim_linear w h : linear h -> linear (claim w h).2.
Proof.
  intros [Hi Hp]. unfold claim. destruct (ho_sessions h !! w) as [j|] eqn:E; [by split|].
  destruct (ho_pending h) as [i|] eqn:Ep; [|split; cbn; [done|intros w0 i; by rewrite Ep]]. split; cbn; [|done].
  intros w1 w2 k H1 H2. rewrite lookup_insert_Some in H1, H2.
  destruct H1 as [[-> ->]|[? H1]], H2 as [[-> H2]|[? H2]]; try done; subst.
  - by destruct (Hp w2 k).
  - by destruct (Hp w1 k).
  - by apply (Hi w1 w2 k).
Qed.

Lemma offer_linear i h : linear h -> absent i h -> linear (offer i h).
Proof. intros [Hi Hp] [_ Ha]. split; cbn; [done|]. intros w j [= <-]. apply Ha. Qed.

Lemma forget_linear w h : linear h -> linear (forget w h).
Proof.
  intros [Hi Hp]. split; cbn.
  - intros w1 w2 i [_ H1]%lookup_delete_Some [_ H2]%lookup_delete_Some. by apply (Hi w1 w2 i).
  - intros w1 i E [_ H1]%lookup_delete_Some. by apply (Hp w1 i).
Qed.

Lemma claim_absent w i h : absent i h -> absent i (claim w h).2 /\ (claim w h).1 <> Some i.
Proof.
  intros [Hp Hs]. unfold claim. destruct (ho_sessions h !! w) as [j|] eqn:E; cbn.
  - split; [done|]. intros [= ->]. by apply (Hs w).
  - destruct (ho_pending h) as [j|] eqn:Ep; cbn; [|split; [split; [by rewrite Ep|done]|done]]. split; [|congruence]. split; cbn; [done|].
    intros w'. rewrite lookup_insert_Some. intros [[_ ->]|[_ H]]; [done|by apply (Hs w')].
Qed.

Lemma forget_absent w i h : absent i h -> absent i (forget w h).
Proof. intros [Hp Hs]. split; [done|]. cbn. intros w' [_ H]%lookup_delete_Some. by apply (Hs w'). Qed.

(** A session that a callback has found is nowhere once its [wsi] is forgotten. *)
Lemma claim_forget_absent w i h h' : linear h -> claim w h = (Some i, h') -> absent i (forget w h').
Proof.
  intros [Hi Hp] E. unfold claim in E. destruct (ho_sessions h !! w) as [j|] eqn:Ew.
  - injection E as -> <-. split; cbn; [intros Ep; by apply (Hp w i)|].
    intros w' [Hne H]%lookup_delete_Some. by destruct Hne; apply (Hi w w' i).
  - destruct (ho_pending h) as [j|] eqn:Ep; [|done]. injection E as -> <-. split; cbn; [done|].
    intros w' [Hne H]%lookup_delete_Some. rewrite lookup_insert_ne in H by done. by apply (Hp w' i).
Qed.

(** A session that has its [wsi] from the start. *)
Definition accepted (w i : nat) (g : ledger) : option ledger :=
  match lg_owner g !! w with None => Some (Ledger (<[w := i]> (lg_owner g)) (lg_waiting g)) | Some _ => None end.

Lemma bind_agrees w i h g g' : agrees h g -> accepted w i g = Some g' -> agrees (bind_wsi w i h) g'.
Proof.
  intros [Hp Hw Hs] Hg. unfold accepted in Hg. destruct (lg_owner g !! w) eqn:Ew; [done|]. injection Hg as <-.
  assert (Hne : forall w', lg_waiting g = Some w' -> w' <> w) by (intros w' E ->; destruct (Hw w E); congruence). split; cbn.
  - rewrite Hp. destruct (lg_waiting g) as [w'|]; [|done]. cbn. by rewrite lookup_insert_ne by (intros ->; by apply (Hne w')).
  - intros w' E. rewrite lookup_insert_ne by (intros ->; by apply (Hne w')). by apply Hw.
  - rewrite Hs. destruct (lg_waiting g) as [w'|]; [|done]. by rewrite delete_insert_ne by (by apply Hne).
Qed.

Lemma heard_again w g g' : heard w g = Some g' -> heard w g' = Some g'.
Proof.
  unfold heard. destruct (lg_waiting g) as [w'|] eqn:E; [|intros [= <-]; by rewrite E].
  case_bool_decide; [by intros [= <-]|]. case_bool_decide; [|done]. intros [= <-]. rewrite E.
  by rewrite bool_decide_false, bool_decide_true.
Qed.

(* ------------------------------------------------------------------ *)
(** ** What each session is told

    Sessions live in a list; an event on one of them acts as [run] says. *)

Section Told.
Context {S E : Type} (run : E -> S -> S).

Definition told (o : option nat) (es : list E) : list (nat * E) := match o with Some i => pair i <$> es | None => [] end.

Definition told_to (i : nat) (l : list (nat * E)) : list E := (List.filter (fun p => bool_decide (p.1 = i)) l).*2.

(** The sessions after what each was told. *)
Definition tell (l : list (nat * E)) (a : list S) : list S := foldl (fun a p => alter (run p.2) p.1 a) a l.

Definition run_all (es : list E) (s : S) : S := foldl (fun s e => run e s) s es.

Lemma tell_cons p l a : tell (p :: l) a = tell l (alter (run p.2) p.1 a).
Proof. done. Qed.

Lemma length_tell l a : length (tell l a) = length a.
Proof. revert a. induction l as [|p l IH]; intros a; [done|]. by rewrite tell_cons, IH, length_alter. Qed.

Lemma tell_app l l' a : tell (l ++ l') a = tell l' (tell l a).
Proof. apply foldl_app. Qed.

Lemma tell_lookup l a i : tell l a !! i = run_all (told_to i l) <$> a !! i.
Proof.
  revert a. induction l as [|[j e] l IH]; intros a; [cbn; by destruct (a !! i)|]. rewrite tell_cons, IH.
  unfold told_to. cbn. case_bool_decide as Hij; cbn.
  - subst j. rewrite list_lookup_alter_eq. by destruct (a !! i).
  - by rewrite list_lookup_alter_ne.
Qed.

Lemma tell_past l a b : Forall (fun p => p.1 < length a)%nat l -> tell l (a ++ b) = tell l a ++ b.
Proof.
  revert a. induction l as [|[j e] l IH]; intros a H; [done|]. inversion H as [|? ? Hj Hl]; subst. cbn in Hj. rewrite !tell_cons. cbn.
  rewrite alter_app_l by done. rewrite IH; [done|]. by rewrite length_alter.
Qed.

Lemma told_all o i es : o = Some i -> told_to i (told o es) = es.
Proof. intros ->. unfold told_to, told. induction es as [|e es IH]; [done|]. cbn. rewrite bool_decide_true by done. cbn. by f_equal. Qed.

Lemma told_other o i es : o <> Some i -> told_to i (told o es) = [].
Proof.
  intros H. unfold told_to, told. destruct o as [j|]; [|done]. induction es as [|e es IH]; [done|]. cbn.
  by rewrite bool_decide_false by congruence.
Qed.

Lemma told_to_app i l l' : told_to i (l ++ l') = told_to i l ++ told_to i l'.
Proof. unfold told_to. by rewrite List.filter_app, fmap_app. Qed.

Lemma told_in o es : Forall (fun p => o = Some p.1) (told o es).
Proof. destruct o as [i|]; [|constructor]. apply Forall_fmap. by apply Forall_true. Qed.
End Told.

Lemma told_to_elem {E} i l (e : E) : e ∈ told_to i l -> (i, e) ∈ l.
Proof.
  unfold told_to. intros ([j x] & -> & Hin)%list_elem_of_fmap. apply list_elem_of_In, filter_In in Hin as [Hin Hj]. apply bool_decide_eq_true in Hj.
  cbn in *. subst. by apply list_elem_of_In.
Qed.

(* ------------------------------------------------------------------ *)
(** ** The order of a session's events

    Sessions are numbered as they are made; [n] is the next number. *)

(** Session [i] has been made and has no connection. *)
Definition gone (i : nat) (g : ledger) (n : nat) : Prop := (i < n)%nat /\ forall w, lg_owner g !! w <> Some i.

(** Each session has one connection. *)
Definition owned_once (g : ledger) (n : nat) : Prop :=
  (forall w w' i, lg_owner g !! w = Some i -> lg_owner g !! w' = Some i -> w = w') /\ forall w i, lg_owner g !! w = Some i -> (i < n)%nat.

Lemma owned_start : owned_once no_owners 0.
Proof. split; intros w; cbn; intros *; by rewrite lookup_empty. Qed.

Lemma owned_same g g' n : lg_owner g' = lg_owner g -> owned_once g n -> owned_once g' n /\ forall i, gone i g n -> gone i g' n.
Proof. unfold owned_once, gone. by intros ->. Qed.

Lemma owned_closed w g n : owned_once g n ->
  owned_once (closed w g) n /\ (forall i, gone i g n -> gone i (closed w g) n) /\ forall i, lg_owner g !! w = Some i -> gone i (closed w g) n.
Proof.
  intros [Hi Hr]. unfold gone, closed. cbn. split; [split|split]; cbn.
  - intros w1 w2 i [_ H1]%lookup_delete_Some [_ H2]%lookup_delete_Some. by apply (Hi w1 w2 i).
  - intros w1 i [_ H1]%lookup_delete_Some. by apply (Hr w1).
  - intros i [Hlt Ho]. split; [done|]. intros w1 [_ H1]%lookup_delete_Some. by apply (Ho w1).
  - intros i E. split; [by apply (Hr w)|]. intros w1 [Hne H1]%lookup_delete_Some. by apply Hne, (Hi w w1 i).
Qed.

(** A connection made for a session that has none. *)
Lemma owned_insert w i g n wt : lg_owner g !! w = None -> owned_once g n -> (forall w', lg_owner g !! w' <> Some i) ->
  let g' := Ledger (<[w := i]> (lg_owner g)) wt in
  forall n', (i < n')%nat -> (n <= n')%nat -> owned_once g' n' /\ forall j, j <> i -> gone j g n -> gone j g' n'.
Proof.
  intros Hw [Hi Hr] Hno g' n' Hin Hn. unfold owned_once, gone. cbn. split; [split|].
  - intros w1 w2 j. rewrite !lookup_insert_Some. intros [[<- <-]|[? H1]] [[<- H2]|[? H2]]; try done.
    + by destruct (Hno w2).
    + subst. by destruct (Hno w1).
    + by apply (Hi w1 w2 j).
  - intros w1 j. rewrite lookup_insert_Some. intros [[<- <-]|[_ H1]]; [done|]. specialize (Hr w1 j H1). lia.
  - intros j Hj [Hlt Ho]. split; [lia|]. intros w1. rewrite lookup_insert_Some. intros [[_ ->]|[_ H1]]; [done|by apply (Ho w1)].
Qed.

Lemma opened_insert w i g g' : opened w i g = Some g' -> lg_owner g !! w = None /\ g' = Ledger (<[w := i]> (lg_owner g)) (Some w).
Proof. unfold opened. destruct (lg_waiting g); [done|]. destruct (lg_owner g !! w); [done|]. by intros [= <-]. Qed.

Section Order.
(** Which events are the last from the connection, and which come from
    elsewhere and may follow it. *)
Context {E : Type} (is_end is_own : E -> bool).

Fixpoint ended (es : list E) : Prop :=
  match es with
  | [] => True
  | e :: es => (is_end e = true -> Forall (fun e => is_own e = true) es) /\ ended es
  end.

Lemma ended_app a b : ended a -> ended b -> (existsb is_end a = true -> Forall (fun e => is_own e = true) b) -> ended (a ++ b).
Proof.
  induction a as [|e a IH]; [done|]. cbn. intros [He Ha] Hb Hab. split.
  - intros X. apply Forall_app. split; [by apply He|]. apply Hab. by rewrite X.
  - apply IH; [done|done|]. intros X. apply Hab. rewrite X. apply orb_true_r.
Qed.

Lemma ended_snoc es e : ended (es ++ [e]) -> ended es /\ (is_own e = false -> existsb is_end es = false).
Proof.
  induction es as [|x es IH]; [by split|]. cbn. intros [Hx He]. destruct (IH He) as [IH1 IH2]. split.
  - split; [|done]. intros X. specialize (Hx X). by apply Forall_app in Hx as [Hx _].
  - intros Hc. rewrite IH2, orb_false_r by done. destruct (is_end x) eqn:X; [|done]. specialize (Hx eq_refl).
    apply Forall_app in Hx as [_ Hx]. inversion Hx. congruence.
Qed.

(** What a step does to the order: who has a connection keeps it to itself,
    who has none has events of its own only, and an end takes the connection
    away. *)
Definition step_ok (g : ledger) (n : nat) (g' : ledger) (n' : nat) (l : list (nat * E)) : Prop :=
  owned_once g' n' /\ (forall i, gone i g n -> gone i g' n' /\ Forall (fun e => is_own e = true) (told_to i l)) /\
  (forall i, ended (told_to i l) /\ (existsb is_end (told_to i l) = true -> gone i g' n')).

Lemma step_ok_told g n g' n' o es : owned_once g' n' -> (forall i, gone i g n -> gone i g' n') ->
  (forall i, o = Some i -> exists w, lg_owner g !! w = Some i) -> ended es ->
  (forall i, o = Some i -> existsb is_end es = true -> gone i g' n') -> step_ok g n g' n' (told o es).
Proof.
  intros Ho Hg Hw He Hend. split; [done|]. split.
  - intros i Hi. split; [by apply Hg|]. rewrite told_other; [done|]. intros ->. destruct (Hw i eq_refl) as [w X]. by destruct Hi as [_ Hi]; apply (Hi w).
  - intros i. destruct (decide (o = Some i)) as [->|Hne]; [|by rewrite told_other]. rewrite (told_all (Some i)) by done. split; [done|]. by apply Hend.
Qed.

Lemma step_ok_none g n g' n' : owned_once g' n' -> (forall i, gone i g n -> gone i g' n') -> step_ok g n g' n' [].
Proof. intros Ho Hg. apply (step_ok_told g n g' n' None []); done. Qed.

(** An event that comes from elsewhere. *)
Lemma step_ok_own g n i e : owned_once g n -> is_own e = true -> is_end e = false -> step_ok g n g n [(i, e)].
Proof.
  intros Ho He Hne. split; [done|]. split.
  - intros j Hj. split; [done|]. unfold told_to. cbn. case_bool_decide; by repeat constructor.
  - intros j. unfold told_to. cbn. case_bool_decide; cbn; rewrite ?Hne; by repeat constructor.
Qed.

(** A callback of [w], the last one if [over]. *)
Lemma step_ok_callback w over es g g' n : owned_once g n -> heard w g = Some g' -> ended es -> (over = false -> existsb is_end es = false) ->
  step_ok g n (if over then closed w g' else g') n (told (lg_owner g !! w) es).
Proof.
  intros Ho Hg He Hov. pose proof (heard_owner _ _ _ Hg) as [Hown _].
  destruct (owned_same g g' n Hown Ho) as [H1 H2].
  destruct over.
  - destruct (owned_closed w g' n H1) as (H3 & H4 & H5). apply step_ok_told; try done; [intros i Hi; by apply H4, H2|by eexists|].
    intros i Hi _. apply H5. by rewrite Hown.
  - apply step_ok_told; try done; [by eexists|]. intros i _. by rewrite Hov.
Qed.
End Order.
