(* ===== verification/HttpClient.v ===== *)
(** * [HttpClientProtocol] of [lib/lws/protocols.js]

    The adapter between the native callbacks of HTTP client connections and
    requests: [connect] prepares a session, the callbacks of a [wsi] find it
    by [#session] ([Handoff]) and act on it.  The session has the stream of
    [ReadableStream] that the body of the response comes from.

    An event is one callback, the second half of [connect] (once the body of
    the request has been read) or what a consumer does to the stream of a
    session; [hclient_run] is any sequence of them.  A callback that throws
    has its error printed by the native side, and its effects stand.  The
    functions of the user are called last in each callback, so that what
    they do to the protocol is events that follow; the calls are recorded,
    as are those of the [wsi], with the session they are made for. *)

From S2P Require Import Prelude JsString StreamBase ReadableStream FedStream Headers Handoff.
Open Scope Z_scope.

(* ------------------------------------------------------------------ *)
(** ** Sessions *)

(** What [connect] reads of the request, and what of the response is told. *)
Record request := Request { rq_url : jsstr; rq_method : jsstr; rq_headers : list (jsstr * hvalue) }.
Record response := Response { rp_status : Z; rp_url : jsstr; rp_headers : list (jsstr * hvalue); rp_redirected : bool; rp_reader : nat }.

Inductive call :=
| AddHeader (name value : jsstr) | SetBodyPending (v : Z) | Write (data : bytes)     (* of the wsi *)
| CallHandler                                                                        (* fn(req, resp) *)
| CallError (message : jsstr) | CallRedirect (url : jsstr) (status : Z) | CallRead (data : bytes) | CallHandshake.

(** [cs_data] and [cs_calls] are history: the chunks made of the data that
    came, each known to the stream by its number, and the calls. *)
Record csession := CSession {
  cs_req : request; cs_stream : rstream; cs_body : option bytes; cs_redirected : bool; cs_resp : option response;
  cs_established : bool; cs_completed : bool; cs_data : list bytes; cs_calls : list call;
}.

Definition set_cs_stream v (s : csession) : csession := CSession (cs_req s) v (cs_body s) (cs_redirected s) (cs_resp s) (cs_established s) (cs_completed s) (cs_data s) (cs_calls s).
Definition set_cs_body v (s : csession) : csession := CSession (cs_req s) (cs_stream s) v (cs_redirected s) (cs_resp s) (cs_established s) (cs_completed s) (cs_data s) (cs_calls s).
Definition set_cs_redirected v (s : csession) : csession := CSession (cs_req s) (cs_stream s) (cs_body s) v (cs_resp s) (cs_established s) (cs_completed s) (cs_data s) (cs_calls s).
Definition set_cs_resp v (s : csession) : csession := CSession (cs_req s) (cs_stream s) (cs_body s) (cs_redirected s) v (cs_established s) (cs_completed s) (cs_data s) (cs_calls s).
Definition set_cs_established v (s : csession) : csession := CSession (cs_req s) (cs_stream s) (cs_body s) (cs_redirected s) (cs_resp s) v (cs_completed s) (cs_data s) (cs_calls s).
Definition set_cs_completed v (s : csession) : csession := CSession (cs_req s) (cs_stream s) (cs_body s) (cs_redirected s) (cs_resp s) (cs_established s) v (cs_data s) (cs_calls s).
Definition set_cs_data v (s : csession) : csession := CSession (cs_req s) (cs_stream s) (cs_body s) (cs_redirected s) (cs_resp s) (cs_established s) (cs_completed s) v (cs_calls s).
Definition set_cs_calls v (s : csession) : csession := CSession (cs_req s) (cs_stream s) (cs_body s) (cs_redirected s) (cs_resp s) (cs_established s) (cs_completed s) (cs_data s) v.

Abbreviation CM A := (SM csession A).

Definition lift {A} (o : outcome A) : CM A := fun s => (o, s).
Definition record (c : call) : CM unit := modify (fun s => set_cs_calls (cs_calls s ++ [c]) s).

(** [new ReadableStream({ start: c => (controller = c) })]: the strategy by
    default, no [pull] and no [cancel]. *)
Definition on_stream {A} (m : SM rstream A) : CM A := fun s => let '(o, t) := m (cs_stream s) in (o, set_cs_stream t s).
Definition stream_event (e : revent) : CM unit := on_stream (revent_run (Fin 1) unit_size no_pull e).

(** [{ req, stream, controller, body }] *)
Definition new_session (req : request) (body : option bytes) : csession :=
  CSession req new_stream body false None false false [] [].

(* ------------------------------------------------------------------ *)
(** ** What the callbacks do to a session *)

Fixpoint add_headers (l : list (jsstr * jsstr)) : CM unit :=
  match l with
  | [] => mret tt
  | (name, value) :: l => record (AddHeader name value) ;; add_headers l
  end.

Definition content_length : jsstr := js "content-length".

Definition append_handshake : CM unit :=
  s ← gets id;
  add_headers (entries (rq_headers (cs_req s))) ;;
  match cs_body s with
  | Some body =>
    b ← lift (has content_length (rq_headers (cs_req s)));
    (if negb (b : bool) then record (AddHeader content_length (to_string 10 (Z.of_nat (length body)))) else mret tt) ;;
    record (SetBodyPending 1)
  | None => mret tt
  end ;;
  record CallHandshake.

(** [buffered] is [wsi.bufferedAmount] after the write. *)
Definition write_body (buffered : Z) : CM unit :=
  s ← gets id;
  match cs_body s with
  | Some body => record (Write body) ;; modify (set_cs_body None)
  | None => mret tt
  end ;;
  if buffered =? 0 then record (SetBodyPending 0) else mret tt.

(** [new Response(session.stream, { status, ... })]: the headers first, then
    a reader is taken for the body, then the status is looked at and the
    headers are copied. *)
Definition new_Response (status : Z) (headers : headers_init) : CM response :=
  s ← gets id;
  h ← lift (new_Headers headers);
  r ← on_stream new_ReadableStreamDefaultReader;
  if negb (status =? 0) && ((status <? 200) || (599 <? status))
  then lift (Throw ErrRangeError "The status provided is outside the range [200, 599].")
  else
  h ← lift (new_Headers (FromHeaders h));
  mret (Response status (rq_url (cs_req s)) h (cs_redirected s) r).

Definition establish (status : Z) (headers : headers_init) : CM unit :=
  resp ← new_Response status headers;
  modify (set_cs_resp (Some resp)) ;;
  modify (set_cs_established true) ;;
  record CallHandler.

Definition receive (data : bytes) : CM unit :=
  n ← gets (fun s => length (cs_data s));
  modify (fun s => set_cs_data (cs_data s ++ [data]) s) ;;
  stream_event (EvController (CtlEnqueue (Z.of_nat n))) ;;
  record (CallRead data).

Definition complete : CM unit :=
  modify (set_cs_completed true) ;; stream_event (EvController CtlClose).

Definition close_session : CM unit :=
  s ← gets id;
  if negb (cs_established s) then record (CallError (js "closed")) else
  if negb (cs_completed s) then
    modify (set_cs_completed true) ;;
    try (stream_event (EvController CtlClose)) (fun _ => mret tt)
  else mret tt.

Definition dropped : reason := ErrorObj ErrError "dropped".
Definition drop_session : CM unit :=
  s ← gets id;
  if negb (cs_established s) then record (CallError (js "dropped")) else
  if negb (cs_completed s) then try (stream_event (EvController (CtlError dropped))) (fun _ => mret tt) else mret tt.

(* ------------------------------------------------------------------ *)
(** ** The protocol *)

(** [hc_arena] has every session that was made; [hc_orphans] the calls of
    the user's functions without a request. *)
Record hclient := HClient { hc_handoff : handoff; hc_redirecting : bool; hc_arena : list csession; hc_orphans : list call }.

Definition set_handoff v (h : hclient) : hclient := HClient v (hc_redirecting h) (hc_arena h) (hc_orphans h).
Definition set_redirecting v (h : hclient) : hclient := HClient (hc_handoff h) v (hc_arena h) (hc_orphans h).
Definition set_arena v (h : hclient) : hclient := HClient (hc_handoff h) (hc_redirecting h) v (hc_orphans h).
Definition set_orphans v (h : hclient) : hclient := HClient (hc_handoff h) (hc_redirecting h) (hc_arena h) v.

Definition new_HttpClientProtocol : hclient := HClient no_sessions false [] [].

Abbreviation PM A := (SM hclient A).

Definition session_of (w : nat) : PM (option nat) := fun h =>
  let '(i, ho) := claim w (hc_handoff h) in (Ok i, set_handoff ho h).
Definition delete_session (w : nat) : PM unit := modify (fun h => set_handoff (forget w (hc_handoff h)) h).
Definition set_pending (i : nat) : PM unit := modify (fun h => set_handoff (offer i (hc_handoff h)) h).

(** A program on the object of session [i]. *)
Definition on_session {A} (i : nat) (m : CM A) : PM A := fun h =>
  match hc_arena h !! i with
  | Some s => let '(o, s') := m s in (o, set_arena (<[i := s']> (hc_arena h)) h)
  | None => (Throw ErrTypeError not_a_function, h)
  end.
Definition with_session (o : option nat) (m : CM unit) : PM unit :=
  match o with Some i => on_session i m | None => mret tt end.
Definition orphan (c : call) : PM unit := modify (fun h => set_orphans (hc_orphans h ++ [c]) h).

(** [connect] once the body is read; the connection itself is native. *)
Definition connect (req : request) (body : option bytes) : PM unit :=
  i ← gets (fun h => length (hc_arena h));
  modify (fun h => set_arena (hc_arena h ++ [new_session req body]) h) ;;
  set_pending i.

Definition onServerNewClientInstantiated (w : nat) : PM unit := session_of w ;; mret tt.

Definition onClientAppendHandshakeHeader (w : nat) : PM unit :=
  o ← session_of w; with_session o append_handshake.

Definition onClientHttpWriteable (w : nat) (buffered : Z) : PM unit :=
  o ← session_of w; with_session o (write_body buffered).

Definition onClientHttpRedirect (w : nat) (url : jsstr) (status : Z) : PM unit :=
  o ← session_of w;
  match o with
  | Some i =>
    on_session i (modify (set_cs_redirected true)) ;;
    delete_session w ;;
    set_pending i ;;
    modify (set_redirecting true) ;;
    on_session i (record (CallRedirect url status))
  | None => orphan (CallRedirect url status)
  end.

Definition onEstablishedClientHttp (w : nat) (status : Z) (headers : headers_init) : PM unit :=
  o ← session_of w; with_session o (establish status headers).

Definition onReceiveClientHttpRead (w : nat) (data : bytes) : PM unit :=
  o ← session_of w;
  match o with Some i => on_session i (receive data) | None => orphan (CallRead data) end.

(** [wsi.httpClientRead(buf)] calls [onReceiveClientHttpRead] for what it
    reads, then answers [result], or throws; the value is for the native side. *)
Fixpoint read_chunks (w : nat) (chunks : list bytes) : PM unit :=
  match chunks with
  | [] => mret tt
  | data :: chunks => try (onReceiveClientHttpRead w data) (fun _ => mret tt) ;; read_chunks w chunks
  end.

Definition onReceiveClientHttp (w : nat) (chunks : list bytes) (result : outcome (option Z)) : PM (option Z) :=
  read_chunks w chunks ;;
  mret match result with Ok None | Throw _ _ => Some (-1) | Ok (Some _) => None end.

Definition onCompletedClientHttp (w : nat) : PM unit :=
  o ← session_of w; delete_session w ;; with_session o complete.

Definition onClosedClientHttp (w : nat) : PM unit :=
  o ← session_of w; delete_session w ;; with_session o close_session.

Definition onClientHttpDropProtocol (w : nat) : PM unit :=
  b ← gets hc_redirecting;
  if (b : bool) then modify (set_redirecting false) else
  o ← session_of w; delete_session w ;; with_session o drop_session.

Definition onClientConnectionError (w : nat) (msg : jsstr) : PM unit :=
  o ← session_of w; delete_session w ;;
  match o with Some i => on_session i (record (CallError msg)) | None => orphan (CallError msg) end.

(* ------------------------------------------------------------------ *)
(** ** Events *)

(** [Connect] and [Redirect] tell the [wsi] of the connection being made,
    which the protocol does not use: it is [clientConnect]'s answer, and
    that of a redirect is made by the native side. *)
Inductive hevent :=
| Connect (w : nat) (req : request) (body : option bytes)
| NewClientInstantiated (w : nat) | AppendHandshakeHeader (w : nat) | HttpWriteable (w : nat) (buffered : Z)
| Redirect (w w' : nat) (url : jsstr) (status : Z)
| Established (w : nat) (status : Z) (headers : headers_init)
| ReceiveHttp (w : nat) (chunks : list bytes) (result : outcome (option Z))
| Completed (w : nat) | ClosedHttp (w : nat) | DropProtocol (w : nat) | ConnectionError (w : nat) (msg : jsstr)
| Consume (i : nat) (e : revent).

Definition hevent_run (e : hevent) : PM unit :=
  match e with
  | Connect _ req body => connect req body
  | NewClientInstantiated w => onServerNewClientInstantiated w
  | AppendHandshakeHeader w => onClientAppendHandshakeHeader w
  | HttpWriteable w buffered => onClientHttpWriteable w buffered
  | Redirect w _ url status => onClientHttpRedirect w url status
  | Established w status headers => onEstablishedClientHttp w status headers
  | ReceiveHttp w chunks result => onReceiveClientHttp w chunks result ;; mret tt
  | Completed w => onCompletedClientHttp w
  | ClosedHttp w => onClosedClientHttp w
  | DropProtocol w => onClientHttpDropProtocol w
  | ConnectionError w msg => onClientConnectionError w msg
  | Consume i e => on_session i (stream_event e)
  end.

Definition hclient_run (es : list hevent) (h : hclient) : hclient := foldl (fun h e => (hevent_run e h).2) h es.
