(* ===== verification/HttpClientProps.v ===== *)
(** * Requests of one client do not meet

    [trace] reads off a sequence of events what each session is told, by the
    ledger of [Handoff] and without the protocol; it answers as long as every
    connection has its first callback before the next one is made and no
    callback comes from a connection that is over.  Then each session ends as
    if it had been alone ([client_sessions_independent]). *)

From S2P Require Import Prelude JsString StreamBase ReadableStream ReadableStreamInv Headers HeadersProps Handoff HttpClient.
Open Scope Z_scope.

(* ------------------------------------------------------------------ *)
(** ** One session *)

Inductive sevent :=
| SHandshake | SWriteable (buffered : Z) | SRedirect (url : jsstr) (status : Z) | SEstablished (status : Z) (headers : headers_init)
| SRead (data : bytes) | SCompleted | SClosed | SDropped | SError (msg : jsstr) | SConsume (e : revent).

Definition sevent_run (e : sevent) : SM csession unit :=
  match e with
  | SHandshake => append_handshake
  | SWriteable buffered => write_body buffered
  | SRedirect url status => modify (set_cs_redirected true) ;; record (CallRedirect url status)
  | SEstablished status headers => establish status headers
  | SRead data => receive data
  | SCompleted => complete
  | SClosed => close_session
  | SDropped => drop_session
  | SError msg => record (CallError msg)
  | SConsume e => stream_event e
  end.

Abbreviation csession_run := (fun e s => (sevent_run e s).2).
Definition session_run (es : list sevent) (s : csession) : csession := run_all csession_run es s.

(* ------------------------------------------------------------------ *)
(** ** What each session is told *)

(** [tr_redirect]: the connection whose redirect was not followed by its drop yet. *)
Record tracker := Tracker { tr_ledger : ledger; tr_redirect : option nat; tr_next : nat }.

Definition owner (w : nat) (t : tracker) : option nat := lg_owner (tr_ledger t) !! w.
Definition with_ledger (g : ledger) (t : tracker) : tracker := Tracker g (tr_redirect t) (tr_next t).

(** A callback of [w] that the session is told as [es]; the last one if [over]. *)
Definition callback (w : nat) (over : bool) (es : list sevent) (t : tracker) : option (tracker * list (nat * sevent)) :=
  g ← heard w (tr_ledger t);
  Some (with_ledger (if over then closed w g else g) t, told (owner w t) es).

Definition trace_step (e : hevent) (t : tracker) : option (tracker * list (nat * sevent)) :=
  match e with
  | Connect w _ _ => g ← opened w (tr_next t) (tr_ledger t); Some (Tracker g (tr_redirect t) (S (tr_next t)), [])
  | NewClientInstantiated w => callback w false [] t
  | AppendHandshakeHeader w => callback w false [SHandshake] t
  | HttpWriteable w buffered => callback w false [SWriteable buffered] t
  | Redirect w w' url status =>
    g ← heard w (tr_ledger t);
    match owner w t with
    | Some i => g ← opened w' i (closed w g); Some (Tracker g (Some w) (tr_next t), [(i, SRedirect url status)])
    | None => Some (with_ledger g t, [])
    end
  | Established w status headers => callback w false [SEstablished status headers] t
  | ReceiveHttp w [] _ => Some (t, [])
  | ReceiveHttp w chunks _ => callback w false (SRead <$> chunks) t
  | Completed w => callback w true [SCompleted] t
  | ClosedHttp w => callback w true [SClosed] t
  | DropProtocol w =>
    match tr_redirect t with
    | Some w0 => if bool_decide (w = w0) then Some (Tracker (tr_ledger t) None (tr_next t), []) else None
    | None => callback w true [SDropped] t
    end
  | ConnectionError w msg => callback w true [SError msg] t
  | Consume i e => if bool_decide (i < tr_next t)%nat then Some (t, [(i, SConsume e)]) else None
  end.

Fixpoint trace (es : list hevent) (t : tracker) : option (tracker * list (nat * sevent)) :=
  match es with
  | [] => Some (t, [])
  | e :: es => '(t, l) ← trace_step e t; '(t, l') ← trace es t; Some (t, l ++ l')
  end.

Definition start : tracker := Tracker no_owners None 0.

(** The sessions of the connections made, in their order. *)
Definition made (es : list hevent) : list csession :=
  omap (fun e => match e with Connect _ req body => Some (new_session req body) | _ => None end) es.

(* ------------------------------------------------------------------ *)
(** ** The simulation *)

Record sim (h : hclient) (t : tracker) : Prop := {
  sm_agrees : agrees (hc_handoff h) (tr_ledger t);
  sm_redirect : hc_redirecting h = bool_decide (is_Some (tr_redirect t));
  sm_next : length (hc_arena h) = tr_next t;
  sm_owner : forall w i, owner w t = Some i -> (i < tr_next t)%nat;
}.

Abbreviation tell := (tell csession_run).

Lemma on_session_eq {A} i (m : SM csession A) h s : hc_arena h !! i = Some s ->
  (on_session i m h).2 = set_arena (alter (fun s => (m s).2) i (hc_arena h)) h /\ (on_session i m h).1 = (m s).1.
Proof.
  intros E. unfold on_session. rewrite E. destruct (m s) as [o s'] eqn:Em. split; [|done]. cbn. f_equal.
  apply list_eq. intros j. destruct (decide (i = j)) as [<-|Hij].
  - rewrite list_lookup_alter_eq, list_lookup_insert_eq, E by (by apply lookup_lt_Some in E). cbn. by rewrite Em.
  - by rewrite list_lookup_alter_ne, list_lookup_insert_ne.
Qed.

Section Steps.
Context (h : hclient) (t : tracker) (H : sim h t).

Lemma owned_session w i : owner w t = Some i -> exists s, hc_arena h !! i = Some s.
Proof. intros E. apply lookup_lt_is_Some_2. rewrite (sm_next h t H). by apply (sm_owner h t H w). Qed.

Lemma sim_arena a : length a = length (hc_arena h) -> sim (set_arena a h) t.
Proof. intros E. destruct H as [H1 H2 H3 H4]. split; [done|done|cbn; congruence|done]. Qed.

Lemma session_of_sim w g : heard w (tr_ledger t) = Some g ->
  exists h', session_of w h = (Ok (owner w t), h') /\ sim h' (with_ledger g t) /\ hc_arena h' = hc_arena h.
Proof.
  intros Hg. destruct H as [H1 H2 H3 H4]. destruct (claim_agrees w _ _ _ H1 Hg) as (ho & E & Ha).
  unfold session_of. rewrite E. eexists. split; [done|]. split; [|done]. split; cbn; try done.
  intros w' i Ho. apply (H4 w'). unfold owner in *. cbn in Ho. by rewrite <-(proj1 (heard_owner _ _ _ Hg)).
Qed.

Lemma delete_session_sim w : lg_waiting (tr_ledger t) <> Some w ->
  sim (delete_session w h).2 (with_ledger (closed w (tr_ledger t)) t).
Proof.
  intros Hw. destruct H as [H1 H2 H3 H4]. split; cbn; try done; [by apply forget_agrees|].
  intros w' i Ho. apply (H4 w'). unfold owner, with_ledger, closed in *. cbn in Ho. by apply lookup_delete_Some in Ho as [_ Ho].
Qed.
End Steps.

Lemma with_session_sim h t w (e : sevent) : sim h t -> (forall i, owner w t = Some i -> is_Some (hc_arena h !! i)) ->
  let h' := (with_session (owner w t) (sevent_run e) h).2 in
  hc_arena h' = tell (told (owner w t) [e]) (hc_arena h) /\ hc_handoff h' = hc_handoff h /\ hc_redirecting h' = hc_redirecting h.
Proof.
  intros H Ho. destruct (owner w t) as [i|] eqn:E; [|done]. destruct (Ho i eq_refl) as [s Es].
  cbn. destruct (on_session_eq i (sevent_run e) h s Es) as [-> _]. done.
Qed.

(** What a callback does once it has found its session. *)
Definition acts (f : option nat -> SM hclient unit) (e : sevent) : Prop :=
  (forall i, f (Some i) = on_session i (sevent_run e)) /\
  (forall h, exists c, (f None h).2 = set_orphans c h).

Lemma acts_session e : acts (fun o => with_session o (sevent_run e)) e.
Proof. split; [done|]. intros h. exists (hc_orphans h). by destruct h. Qed.
Lemma acts_orphan e c : acts (fun o => match o with Some i => on_session i (sevent_run e) | None => orphan c end) e.
Proof. split; [done|]. intros h. by eexists. Qed.

Lemma callback_step h t w over f e t' l : sim h t -> acts f e -> callback w over [e] t = Some (t', l) ->
  let h' := ((o ← session_of w; (if over then delete_session w else mret tt) ;; f o) h).2 in
  sim h' t' /\ hc_arena h' = tell l (hc_arena h).
Proof.
  intros H [Hf Hn] E. unfold callback in E. destruct (heard w (tr_ledger t)) as [g|] eqn:Hg; [|done]. cbn in E. injection E as <- <-.
  destruct (session_of_sim h t H w g Hg) as (h1 & E1 & H1 & Ha). pose proof (heard_owner _ _ _ Hg) as [Hown Hw].
  rewrite (bind_ok _ _ _ _ _ E1). set (t1 := with_ledger (if over then closed w g else g) t).
  assert (exists h2, (if over then delete_session w else mret tt : SM hclient unit) h1 = (Ok tt, h2) /\ sim h2 t1 /\ hc_arena h2 = hc_arena h)
    as (h2 & E2 & H2 & Ha2).
  { destruct over; [|by exists h1]. eexists. split; [done|]. split; [|done].
    by apply (delete_session_sim h1 (with_ledger g t) H1 w). }
  rewrite (bind_ok _ _ _ _ _ E2), <-Ha2. destruct (owner w t) as [i|] eqn:Eo; cbn [told].
  - rewrite Hf. destruct (owned_session h t H w i Eo) as [s Es]. rewrite <-Ha2 in Es.
    destruct (on_session_eq i (sevent_run e) h2 s Es) as [-> _]. split; [|done]. apply sim_arena; [done|]. apply length_alter.
  - destruct (Hn h2) as [c ->]. split; [|done]. destruct H2 as [? ? ? ?]. by split.
Qed.

Lemma read_chunks_step chunks w : forall h t t' l, sim h t -> callback w false (SRead <$> chunks) t = Some (t', l) -> chunks <> [] ->
  let h' := (read_chunks w chunks h).2 in sim h' t' /\ hc_arena h' = tell l (hc_arena h).
Proof.
  induction chunks as [|data chunks IH]; intros h t t' l H E Hne; [done|]. cbv zeta. clear Hne.
  unfold callback in E. destruct (heard w (tr_ledger t)) as [g|] eqn:Hg; [|done]. cbn [mbind option_bind] in E. injection E as <- <-.
  pose proof (heard_owner _ _ _ Hg) as [Hown Hw].
  destruct (callback_step h t w false _ (SRead data) (with_ledger g t) (told (owner w t) [SRead data]) H (acts_orphan (SRead data) (CallRead data)))
    as [H1 Ha1]; [unfold callback; by rewrite Hg|].
  set (h1 := (_ h).2) in H1, Ha1.
  assert (Et : told (owner w t) (SRead <$> data :: chunks) = told (owner w t) [SRead data] ++ told (owner w t) (SRead <$> chunks))
    by (by destruct (owner w t)).
  change (told _ (SRead data :: _)) with (told (owner w t) (SRead <$> data :: chunks)).
  rewrite Et, tell_app, <-Ha1. cbn [read_chunks].
  assert (E1 : try (onReceiveClientHttpRead w data) (fun _ => mret tt) h = (Ok tt, h1)).
  { change h1 with (onReceiveClientHttpRead w data h).2. unfold try. by destruct (onReceiveClientHttpRead w data h) as [[[]|c m] h']. }
  rewrite (bind_ok _ _ _ _ _ E1). destruct chunks as [|data' chunks]; [by destruct (owner w t)|].
  apply (IH h1 (with_ledger g t)); [done| |done]. unfold callback. cbn [tr_ledger with_ledger]. rewrite (heard_again _ _ _ Hg).
  cbn. unfold owner. cbn. by rewrite Hown.
Qed.

Lemma connect_step h t w req body g : sim h t -> opened w (tr_next t) (tr_ledger t) = Some g ->
  let h' := (connect req body h).2 in
  sim h' (Tracker g (tr_redirect t) (S (tr_next t))) /\ hc_arena h' = hc_arena h ++ [new_session req body].
Proof.
  intros [H1 H2 H3 H4] Hg. cbv zeta. unfold connect. rewrite (gets_bind (fun h => length (hc_arena h))), H3, modify_bind. split; [|done]. split; cbn; [|done| |].
  - by apply (offer_agrees w _ _ (tr_ledger t)).
  - rewrite length_app, H3. cbn. lia.
  - intros w' i Ho. unfold opened in Hg. destruct (lg_waiting _); [done|]. destruct (lg_owner _ !! w) eqn:Ew; [done|].
    injection Hg as <-. unfold owner in Ho. cbn in Ho. apply lookup_insert_Some in Ho as [[_ <-]|[_ Ho]]; [lia|].
    specialize (H4 w' i Ho). lia.
Qed.

Lemma redirect_step h t w w' url status t' l : sim h t -> trace_step (Redirect w w' url status) t = Some (t', l) ->
  let h' := (onClientHttpRedirect w url status h).2 in sim h' t' /\ hc_arena h' = tell l (hc_arena h).
Proof.
  intros H E. cbn in E. destruct (heard w (tr_ledger t)) as [g|] eqn:Hg; [|done]. cbn in E.
  destruct (session_of_sim h t H w g Hg) as (h1 & E1 & H1 & Ha). pose proof (heard_owner _ _ _ Hg) as [Hown Hw].
  unfold onClientHttpRedirect. rewrite (bind_ok _ _ _ _ _ E1). destruct (owner w t) as [i|] eqn:Eo.
  - destruct (opened w' i (closed w g)) as [g'|] eqn:Hg'; [|done]. cbn in E. injection E as <- <-.
    destruct (owned_session h t H w i Eo) as [s Es]. rewrite <-Ha in Es.
    destruct (on_session_eq i (modify (set_cs_redirected true)) h1 s Es) as [E2 E2'].
    set (a2 := alter (fun s => (modify (set_cs_redirected true) s).2) i (hc_arena h1)) in E2.
    assert (E3 : on_session i (modify (set_cs_redirected true)) h1 = (Ok tt, set_arena a2 h1)) by (rewrite <-E2; destruct (on_session _ _ h1); by cbn in E2' |- *; rewrite E2').
    rewrite (bind_ok _ _ _ _ _ E3). cbv zeta.
    set (h3 := HClient (offer i (forget w (hc_handoff h1))) true a2 (hc_orphans h1)).
    match goal with |- sim ?r.2 _ /\ _ => change r with (on_session i (record (CallRedirect url status)) h3) end.
    assert (Es3 : hc_arena h3 !! i = Some (set_cs_redirected true s)) by (cbn; unfold a2; rewrite list_lookup_alter_eq, Es; done).
    destruct (on_session_eq i (record (CallRedirect url status)) h3 _ Es3) as [-> _].
    split.
    + destruct H1 as [A1 A2 A3 A4]. split; cbn.
      * apply (offer_agrees w' i _ (closed w g)); [|done]. by apply forget_agrees.
      * done.
      * unfold a2. rewrite !length_alter, A3. done.
      * intros w1 j Ho. unfold opened in Hg'. destruct (lg_waiting _); [done|]. destruct (lg_owner _ !! w') eqn:Ew; [done|].
        injection Hg' as <-. unfold owner in Ho. cbn in Ho. apply lookup_insert_Some in Ho as [[_ <-]|[_ Ho]].
        -- by apply (sm_owner h t H w).
        -- apply lookup_delete_Some in Ho as [_ Ho]. by apply (A4 w1).
    + cbn. unfold a2. rewrite Ha. apply list_eq. intros j. destruct (decide (j = i)) as [->|Hj].
      * rewrite !list_lookup_alter_eq. destruct (hc_arena h !! i); done.
      * by rewrite !list_lookup_alter_ne.
  - injection E as <- <-. split; [|done]. destruct H1 as [? ? ? ?]. by split.
Qed.

Definition made1 (e : hevent) : list csession := made [e].

Lemma event_step h t e t' l : sim h t -> trace_step e t = Some (t', l) ->
  let h' := (hevent_run e h).2 in sim h' t' /\ hc_arena h' = tell l (hc_arena h) ++ made1 e.
Proof.
  intros H E. cbv zeta.
  assert (Hc : forall w over f ev, acts f ev -> callback w over [ev] t = Some (t', l) ->
    let h' := ((o ← session_of w; (if over then delete_session w else mret tt) ;; f o) h).2 in
    sim h' t' /\ hc_arena h' = tell l (hc_arena h) ++ []).
  { intros w over f ev Hf Ev. rewrite app_nil_r. by apply (callback_step h t w over f ev). }
  destruct e as [w req body|w|w|w b|w w' url status|w status hs|w chunks result|w|w|w|w msg|i e]; cbn [hevent_run made1].
  - cbn in E. destruct (opened w _ _) as [g|] eqn:Hg; [|done]. cbn in E. injection E as <- <-. by apply connect_step with (w := w).
  - cbn in E. unfold callback in E. destruct (heard w _) as [g|] eqn:Hg; [|done]. cbn in E. injection E as <- <-.
    destruct (session_of_sim h t H w g Hg) as (h1 & E1 & H1 & Ha). unfold onServerNewClientInstantiated. rewrite (bind_ok _ _ _ _ _ E1).
    split; [done|]. cbn. rewrite Ha. by destruct (owner w t); cbn; rewrite app_nil_r.
  - exact (Hc w false _ SHandshake (acts_session _) E).
  - exact (Hc w false _ (SWriteable b) (acts_session _) E).
  - unfold made1, made. cbn. rewrite app_nil_r. by apply (redirect_step h t w w').
  - exact (Hc w false _ (SEstablished status hs) (acts_session _) E).
  - unfold made1, made. cbn [omap list_omap]. rewrite app_nil_r. destruct chunks as [|data chunks].
    + injection E as <- <-. done.
    + pose proof (read_chunks_step (data :: chunks) w h t t' l H E ltac:(done)) as Hr. cbv zeta in Hr.
      unfold onReceiveClientHttp, mbind, sm_bind. by destruct (read_chunks w (data :: chunks) h) as [[[]|c m] h'].
  - exact (Hc w true _ SCompleted (acts_session _) E).
  - exact (Hc w true _ SClosed (acts_session _) E).
  - unfold onClientHttpDropProtocol. cbn in E. pose proof (sm_redirect h t H) as Hr. rewrite (gets_bind hc_redirecting), Hr.
    destruct (tr_redirect t) as [w0|] eqn:Er.
    + destruct (bool_decide (w = w0)); [|done]. injection E as <- <-. rewrite bool_decide_true by done. cbn. rewrite app_nil_r. split; [|done]. destruct H as [? ? ? ?]. by split.
    + exact (Hc w true _ SDropped (acts_session _) E).
  - exact (Hc w true _ (SError msg) (acts_orphan _ (CallError msg)) E).
  - cbn in E. case_bool_decide as Hi; [|done]. injection E as <- <-. rewrite <-(sm_next h t H) in Hi.
    apply lookup_lt_is_Some in Hi as [s Es]. destruct (on_session_eq i (stream_event e) h s Es) as [-> _]. cbn. rewrite app_nil_r.
    split; [|done]. apply sim_arena; [done|]. apply length_alter.
Qed.

(** What a step tells is for one session, which has a connection or is consumed. *)
Lemma step_told e t t' l : trace_step e t = Some (t', l) ->
  Forall (fun p => (exists w, owner w t = Some p.1) \/ (p.1 < tr_next t)%nat /\ exists c, p.2 = SConsume c) l.
Proof.
  intros E.
  assert (Hc : forall w over es, callback w over es t = Some (t', l) -> Forall (fun p => (exists w, owner w t = Some p.1) \/
    (p.1 < tr_next t)%nat /\ exists c, p.2 = SConsume c) l).
  { intros w over es Ev. unfold callback in Ev. destruct (heard w _); [|done]. cbn in Ev. injection Ev as <- <-.
    eapply Forall_impl; [apply told_in|]. intros p Hp. left. by exists w. }
  destruct e as [w req body|w|w|w b|w w' url status|w status hs|w chunks result|w|w|w|w msg|i e]; cbn in E; try by eapply Hc.
  - destruct (opened _ _ _); [|done]. injection E as <- <-. constructor.
  - destruct (heard w _) as [g|]; [|done]. cbn in E. destruct (owner w t) as [i|] eqn:Eo; [|injection E as <- <-; constructor].
    destruct (opened _ _ _); [|done]. injection E as <- <-. constructor; [|constructor]. left. by exists w.
  - destruct chunks; [injection E as <- <-; constructor|]. by eapply Hc.
  - destruct (tr_redirect t); [|by eapply Hc]. case_bool_decide; [|done]. injection E as <- <-. constructor.
  - case_bool_decide; [|done]. injection E as <- <-. constructor; [|constructor]. right. split; [done|by eexists].
Qed.

Lemma trace_run es : forall h t t' l, sim h t -> trace es t = Some (t', l) ->
  sim (hclient_run es h) t' /\ hc_arena (hclient_run es h) = tell l (hc_arena h ++ made es).
Proof.
  induction es as [|e es IH]; intros h t t' l H E.
  - injection E as <- <-. cbn. by rewrite app_nil_r.
  - cbn in E. destruct (trace_step e t) as [[t1 l1]|] eqn:E1; [|done]. cbn in E. destruct (trace es t1) as [[t2 l2]|] eqn:E2; [|done].
    injection E as <- <-. destruct (event_step h t e t1 l1 H E1) as [H1 Ha1]. destruct (IH _ _ _ _ H1 E2) as [H2 Ha2].
    split; [done|]. change (hclient_run (e :: es) h) with (hclient_run es (hevent_run e h).2).
    rewrite Ha2, Ha1, tell_app. f_equal. rewrite <-app_assoc. change (made1 e ++ made es) with (omap (fun e => match e with Connect _ req body => Some (new_session req body) | _ => None end) [e] ++ made es).
    assert (Hm : made (e :: es) = made1 e ++ made es) by (unfold made1, made; cbn; by destruct e).
    change (omap _ [e]) with (made1 e). rewrite <-Hm. symmetry. apply tell_past.
    eapply Forall_impl; [by eapply step_told|]. rewrite (sm_next h t H). intros p [[w Hw]|[Hp _]]; [by apply (sm_owner h t H w)|done].
Qed.

Lemma sim_start : sim new_HttpClientProtocol start.
Proof. split; [apply agrees_start|done|done|]. intros w i. unfold owner. cbn. by rewrite lookup_empty. Qed.

(** C30: as long as every connection is heard of before the next one is made
    and none is heard of after its end, each session becomes what its own
    events, in their order, make of it alone, whatever happens to the other
    requests in between. *)
Theorem client_sessions_independent es t l : trace es start = Some (t, l) ->
  let h := hclient_run es new_HttpClientProtocol in
  length (hc_arena h) = length (made es) /\
  forall i s, made es !! i = Some s -> hc_arena h !! i = Some (session_run (told_to i l) s).
Proof.
  intros E. destruct (trace_run es _ _ _ _ sim_start E) as [_ Ha]. cbv zeta. rewrite Ha. cbn [hc_arena new_HttpClientProtocol app].
  split; [apply length_tell|]. intros i s Hs. by rewrite tell_lookup, Hs.
Qed.

(* ------------------------------------------------------------------ *)
(** ** An example: two requests at a time, one of them with a body *)

Definition demo_request : request := Request (js "http://a/") (js "GET") [(js "accept", HStr (js "*/*"))].
Definition demo_events : list hevent :=
  [Connect 1 demo_request None; NewClientInstantiated 1; Connect 2 demo_request (Some [1; 2]); AppendHandshakeHeader 2; HttpWriteable 2 0;
   Redirect 2 3 (js "http://b/") 302; DropProtocol 2; AppendHandshakeHeader 3; Established 1 200 FromNothing; Established 3 200 FromNothing;
   ReceiveHttp 1 [[10]; [11; 12]] (Ok (Some 3)); ReceiveHttp 3 [[20]] (Ok (Some 1)); Consume 0 (EvRead 0); HttpWriteable 3 0;
   Completed 1; ClosedHttp 1; DropProtocol 1; Consume 0 (EvRead 0); ClosedHttp 3; Consume 0 (EvRead 0)].

Lemma client_sessions_independent_witness : exists t l, trace demo_events start = Some (t, l) /\
  length (hc_arena (hclient_run demo_events new_HttpClientProtocol)) = 2%nat /\
  told_to 1 l = [SHandshake; SWriteable 0; SRedirect (js "http://b/") 302; SHandshake; SEstablished 200 FromNothing; SRead [20]; SWriteable 0; SClosed].
Proof.
  destruct (trace demo_events start) as [[t l]|] eqn:E; [|exfalso; revert E; vm_compute; discriminate].
  exists t, l. split; [done|]. split; [exact (proj1 (client_sessions_independent demo_events t l E))|].
  revert E. vm_compute. intros [= <- <-]. reflexivity.
Defined.
