(* ===== verification/HttpClientRuns.v ===== *)
(** * What holds of a client whatever the order of callbacks

    Every session is what some sequence of session events makes of it
    ([arena_runs]) and is in one place at most ([client_linear]); so the body
    of a request is written once ([request_body_written_once]).  And what
    goes wrong out of order: a connection that is over takes the session of
    the next one ([late_close_steals]). *)

From S2P Require Import Prelude JsString StreamBase ReadableStream Headers Handoff HttpClient HttpClientProps.
Open Scope Z_scope.

Lemma hclient_run_snoc es e h : hclient_run (es ++ [e]) h = (hevent_run e (hclient_run es h)).2.
Proof. unfold hclient_run. by rewrite foldl_app. Qed.

Lemma session_run_snoc es e s : session_run (es ++ [e]) s = (sevent_run e (session_run es s)).2.
Proof. unfold session_run, run_all. by rewrite foldl_app. Qed.

Lemma made_snoc es e : made (es ++ [e]) = made es ++ made1 e.
Proof. unfold made. by rewrite omap_app. Qed.

(* ------------------------------------------------------------------ *)
(** ** Sessions only see session events *)

Lemma on_session_tell i e h : hc_arena (on_session i (sevent_run e) h).2 = tell [(i, e)] (hc_arena h).
Proof.
  destruct (hc_arena h !! i) as [s|] eqn:E.
  - by destruct (on_session_eq i (sevent_run e) h s E) as [-> _].
  - unfold on_session. rewrite E. cbn. symmetry. apply list_eq. intros j. destruct (decide (i = j)) as [<-|].
    + by rewrite list_lookup_alter_eq, E.
    + by rewrite list_lookup_alter_ne.
Qed.

Lemma on_session_handoff {A} i (m : SM csession A) h : hc_handoff (on_session i m h).2 = hc_handoff h /\ hc_redirecting (on_session i m h).2 = hc_redirecting h.
Proof. unfold on_session. destruct (hc_arena h !! i); [|done]. by destruct (m _). Qed.

Lemma with_session_handoff o m h : hc_handoff (with_session o m h).2 = hc_handoff h.
Proof. destruct o; [|done]. apply on_session_handoff. Qed.

Lemma claim_twice w h : claim w (claim w h).2 = claim w h.
Proof.
  unfold claim. destruct (ho_sessions h !! w) as [i|] eqn:E; cbn; [by rewrite E|].
  destruct (ho_pending h) as [i|] eqn:Ep; cbn; [by rewrite lookup_insert_eq|]. by rewrite E, Ep.
Qed.

Lemma read_handoff w data h : hc_handoff (onReceiveClientHttpRead w data h).2 = (claim w (hc_handoff h)).2.
Proof.
  unfold onReceiveClientHttpRead, session_of, mbind, sm_bind. destruct (claim w (hc_handoff h)) as [[i|] ho]; [|done].
  by rewrite (proj1 (on_session_handoff _ _ _)).
Qed.

(** [h'] has the sessions of [h] after what the one that [w] finds was told. *)
Definition tells (w : nat) (h h' : hclient) : Prop :=
  exists l, hc_arena h' = tell l (hc_arena h) /\ Forall (fun p => (claim w (hc_handoff h)).1 = Some p.1) l.

Lemma tells_same w h h' : hc_arena h' = hc_arena h -> tells w h h'.
Proof. by exists []. Qed.

Lemma acts_tells w (over : bool) (f : option nat -> SM hclient unit) ev (h : hclient) : acts f ev ->
  tells w h ((o ← session_of w; (if over then delete_session w else mret tt) ;; f o) h).2.
Proof.
  intros [Hf Hn]. unfold tells, session_of, mbind, sm_bind. destruct (claim w (hc_handoff h)) as [o ho].
  set (h1 := set_handoff ho h).
  assert (exists h2 : hclient, (if over then delete_session w else (mret tt : SM hclient unit)) h1 = (Ok tt, h2) /\ hc_arena h2 = hc_arena h) as (h2 & E2 & Ha).
  { destruct over; by eexists. }
  fold h1. rewrite E2, <-Ha. destruct o as [i|].
  - exists [(i, ev)]. rewrite Hf. split; [apply on_session_tell|by repeat constructor].
  - exists []. by destruct (Hn h2) as [c ->].
Qed.

Lemma read_chunks_tells w chunks : forall h, tells w h (read_chunks w chunks h).2.
Proof.
  induction chunks as [|data chunks IH]; intros h; [by apply tells_same|]. cbn [read_chunks].
  destruct (acts_tells w false _ (SRead data) h (acts_orphan _ (CallRead data))) as (l & Hl & Hw). pose proof (read_handoff w data h) as Hr.
  set (h1 := (_ h).2) in Hl. change (onReceiveClientHttpRead w data h).2 with h1 in Hr.
  assert (E1 : try (onReceiveClientHttpRead w data) (fun _ => mret tt) h = (Ok tt, h1)).
  { change h1 with (onReceiveClientHttpRead w data h).2. unfold try. by destruct (onReceiveClientHttpRead w data h) as [[[]|c m] h']. }
  rewrite (bind_ok _ _ _ _ _ E1). destruct (IH h1) as (l' & Hl' & Hw'). exists (l ++ l'). rewrite Hl', Hl, tell_app. split; [done|].
  apply Forall_app. split; [done|]. by rewrite Hr, claim_twice in Hw'.
Qed.

Lemma redirect_tells w url status h : tells w h (onClientHttpRedirect w url status h).2.
Proof.
  unfold tells, onClientHttpRedirect, session_of, mbind at 1, sm_bind at 1. destruct (claim w (hc_handoff h)) as [[i|] ho]; [|by exists []].
  exists [(i, SRedirect url status)]. split; [|by repeat constructor]. unfold mbind at 1, sm_bind at 1, on_session at 1. cbn [set_handoff hc_arena].
  destruct (hc_arena h !! i) as [s|] eqn:E; cbn.
  - set (h2 := HClient (offer i (forget w ho)) true (<[i := set_cs_redirected true s]> (hc_arena h)) (hc_orphans h)).
    match goal with |- hc_arena ?r.2 = _ => change r with (on_session i (record (CallRedirect url status)) h2) end.
    assert (Es : hc_arena h2 !! i = Some (set_cs_redirected true s)) by (apply list_lookup_insert_eq; by apply lookup_lt_Some in E).
    unfold on_session. rewrite Es. cbn. rewrite list_insert_insert_eq. apply list_eq. intros j. destruct (decide (i = j)) as [<-|].
    + rewrite list_lookup_alter_eq, E, list_lookup_insert_eq by (by apply lookup_lt_Some in E). done.
    + by rewrite list_lookup_alter_ne, list_lookup_insert_ne.
  - apply list_eq. intros j. destruct (decide (i = j)) as [<-|]; [by rewrite list_lookup_alter_eq, E|by rewrite list_lookup_alter_ne].
Qed.

Lemma event_tells e h : exists l, hc_arena (hevent_run e h).2 = tell l (hc_arena h) ++ made1 e /\
  Forall (fun p => (exists w, (claim w (hc_handoff h)).1 = Some p.1) \/ exists c, e = Consume p.1 c) l.
Proof.
  assert (Hc : forall w h', tells w h h' -> exists l, hc_arena h' = tell l (hc_arena h) ++ [] /\
    Forall (fun p => (exists w, (claim w (hc_handoff h)).1 = Some p.1) \/ exists c, e = Consume p.1 c) l).
  { intros w h' (l & Hl & Hw). exists l. rewrite app_nil_r. split; [done|]. eapply Forall_impl; [done|]. intros p Hp. left. by exists w. }
  destruct e as [w req body|w|w|w b|w w' url status|w status hs|w chunks result|w|w|w|w msg|i e]; cbn [hevent_run]; try apply (Hc w).
  - by exists [].
  - apply tells_same. unfold onServerNewClientInstantiated, session_of, mbind, sm_bind. by destruct (claim w (hc_handoff h)).
  - exact (acts_tells w false _ _ h (acts_session SHandshake)).
  - exact (acts_tells w false _ _ h (acts_session (SWriteable b))).
  - apply redirect_tells.
  - exact (acts_tells w false _ _ h (acts_session (SEstablished status hs))).
  - destruct (read_chunks_tells w chunks h) as [l Hl]. exists l.
    unfold onReceiveClientHttp, mbind, sm_bind. by destruct (read_chunks w chunks h) as [[[]|c m] h'].
  - exact (acts_tells w true _ _ h (acts_session SCompleted)).
  - exact (acts_tells w true _ _ h (acts_session SClosed)).
  - unfold onClientHttpDropProtocol. rewrite (gets_bind hc_redirecting). destruct (hc_redirecting h); [by apply tells_same|].
    exact (acts_tells w true _ _ h (acts_session SDropped)).
  - exact (acts_tells w true _ _ h (acts_orphan (SError msg) (CallError msg))).
  - exists [(i, SConsume e)]. rewrite (on_session_tell i (SConsume e)). cbn [made1 made omap list_omap]. rewrite app_nil_r. split; [done|].
    constructor; [|constructor]. right. by exists e.
Qed.

Lemma arena_length es : length (hc_arena (hclient_run es new_HttpClientProtocol)) = length (made es).
Proof.
  induction es as [|e es IH] using rev_ind; [done|]. rewrite hclient_run_snoc, made_snoc. destruct (event_tells e (hclient_run es new_HttpClientProtocol)) as (l & -> & _).
  by rewrite !length_app, length_tell, IH.
Qed.

Lemma arena_runs es i s : made es !! i = Some s ->
  exists evs, hc_arena (hclient_run es new_HttpClientProtocol) !! i = Some (session_run evs s).
Proof.
  induction es as [|e es IH] using rev_ind; [done|]. rewrite hclient_run_snoc, made_snoc. intros Hs.
  pose proof (arena_length es) as Hlen. set (h := hclient_run es _) in *. destruct (event_tells e h) as (l & -> & _).
  apply lookup_app_Some in Hs as [Hs|[Hi Hs]].
  - destruct (IH Hs) as [evs E]. exists (evs ++ told_to i l). rewrite lookup_app_l by (rewrite length_tell, Hlen; by apply lookup_lt_Some in Hs).
    rewrite tell_lookup, E. cbn. unfold session_run, run_all. by rewrite foldl_app.
  - exists []. by rewrite lookup_app_r, length_tell, Hlen by (rewrite length_tell, Hlen; done).
Qed.

(* ------------------------------------------------------------------ *)
(** ** Where sessions are *)

(** Every session is in one place at most, and no other is anywhere. *)
Definition placed (h : hclient) : Prop :=
  linear (hc_handoff h) /\ forall i, (length (hc_arena h) <= i)%nat -> absent i (hc_handoff h).

(** What an event does to the handoff. *)
Inductive moves (e : hevent) (h : hclient) (ho : handoff) : Prop :=
| moves_same : ho = hc_handoff h -> moves e h ho
| moves_claim w : ho = (claim w (hc_handoff h)).2 -> moves e h ho
| moves_end w : ho = forget w (claim w (hc_handoff h)).2 -> moves e h ho
| moves_again w i : (claim w (hc_handoff h)).1 = Some i -> ho = offer i (forget w (claim w (hc_handoff h)).2) -> moves e h ho
| moves_new : made1 e <> [] -> ho = offer (length (hc_arena h)) (hc_handoff h) -> moves e h ho.

Lemma read_chunks_handoff w chunks : forall h, hc_handoff (read_chunks w chunks h).2 = match chunks with [] => hc_handoff h | _ => (claim w (hc_handoff h)).2 end.
Proof.
  induction chunks as [|data chunks IH]; intros h; [done|]. cbn [read_chunks]. pose proof (read_handoff w data h) as Hr.
  set (h1 := (onReceiveClientHttpRead w data h).2) in Hr.
  assert (E1 : try (onReceiveClientHttpRead w data) (fun _ => mret tt) h = (Ok tt, h1)).
  { unfold h1, try. by destruct (onReceiveClientHttpRead w data h) as [[[]|c m] h']. }
  rewrite (bind_ok _ _ _ _ _ E1), IH, Hr. destruct chunks; [done|]. by rewrite claim_twice.
Qed.

Lemma event_moves e h : moves e h (hc_handoff (hevent_run e h).2).
Proof.
  assert (Hc : forall w (m : option nat -> SM hclient unit), (forall o h, hc_handoff (m o h).2 = hc_handoff h) ->
    moves e h (hc_handoff ((o ← session_of w; m o) h).2) /\ moves e h (hc_handoff ((o ← session_of w; delete_session w ;; m o) h).2)).
  { intros w m Hm. unfold session_of, mbind, sm_bind. destruct (claim w (hc_handoff h)) as [o ho] eqn:E. cbn [delete_session modify]. rewrite !Hm. cbn.
    split; [apply (moves_claim _ _ _ w)|apply (moves_end _ _ _ w)]; by rewrite E. }
  pose proof (fun w m => Hc w (fun o => with_session o m) (fun o h => with_session_handoff o m h)) as Hs.
  destruct e as [w req body|w|w|w b|w w' url status|w status hs|w chunks result|w|w|w|w msg|i e]; cbn [hevent_run].
  - by apply moves_new.
  - apply (moves_claim _ _ _ w). unfold onServerNewClientInstantiated, session_of, mbind, sm_bind. by destruct (claim w (hc_handoff h)).
  - apply Hs.
  - apply Hs.
  - unfold onClientHttpRedirect, session_of, mbind at 1, sm_bind at 1. destruct (claim w (hc_handoff h)) as [[i|] ho] eqn:E.
    + unfold mbind at 1, sm_bind at 1, on_session at 1. cbn [set_handoff hc_arena].
      destruct (hc_arena h !! i) as [s|]; [|by apply (moves_claim _ _ _ w); rewrite E]. apply (moves_again _ _ _ w i); rewrite E; [done|].
      cbn. match goal with |- hc_handoff (?m ?x).2 = _ => change (m x) with (on_session i (record (CallRedirect url status)) (HClient (offer i (forget w ho)) true (<[i := set_cs_redirected true s]> (hc_arena h)) (hc_orphans h))) end.
      by rewrite (proj1 (on_session_handoff _ _ _)).
    + apply (moves_claim _ _ _ w). by rewrite E.
  - apply Hs.
  - pose proof (read_chunks_handoff w chunks h) as Hr. unfold onReceiveClientHttp, mbind, sm_bind.
    destruct (read_chunks w chunks h) as [[[]|c m] h']; cbn in *; rewrite Hr; (destruct chunks; [by apply moves_same|by apply (moves_claim _ _ _ w)]).
  - apply Hs.
  - apply Hs.
  - unfold onClientHttpDropProtocol. rewrite (gets_bind hc_redirecting). destruct (hc_redirecting h); [by apply moves_same|]. apply Hs.
  - apply (Hc w (fun o => match o with Some i => on_session i (record (CallError msg)) | None => orphan (CallError msg) end)).
    intros [i|] h'; [apply on_session_handoff|done].
  - apply moves_same. apply on_session_handoff.
Qed.

Lemma offer_absent i j h : absent i h -> i <> j -> absent i (offer j h).
Proof. intros [Hp Hs] Hij. split; cbn; [congruence|done]. Qed.

Lemma moves_absent i e h ho : moves e h ho -> absent i (hc_handoff h) -> i <> length (hc_arena h) -> absent i ho.
Proof.
  intros Hm Ha Hi. destruct Hm as [->|w ->|w ->|w j Hj ->|_ ->]; [done| | | |by apply offer_absent].
  - by apply claim_absent.
  - by apply forget_absent, claim_absent.
  - apply offer_absent; [by apply forget_absent, claim_absent|]. pose proof (proj2 (claim_absent w _ _ Ha)). congruence.
Qed.

Lemma moves_linear e h ho : placed h -> moves e h ho -> linear ho.
Proof.
  intros [Hl Ha] [->|w ->|w ->|w j Hj ->|_ ->]; [done|by apply claim_linear|by apply forget_linear, claim_linear| |].
  - destruct (claim w (hc_handoff h)) as [o h'] eqn:E. cbn in *. subst o.
    pose proof (claim_linear w _ Hl) as Hl'. rewrite E in Hl'. apply offer_linear; [by apply forget_linear|].
    by apply (claim_forget_absent w j _ _ Hl).
  - apply offer_linear; [done|]. by apply Ha.
Qed.

Lemma event_placed e h : placed h -> placed (hevent_run e h).2.
Proof.
  intros H. pose proof (event_moves e h) as Hm. split; [by apply moves_linear with (e := e) (h := h)|]. intros i Hi.
  destruct (event_tells e h) as (l & Hl & _). rewrite Hl, length_app, length_tell in Hi.
  destruct (decide (i = length (hc_arena h))) as [->|Hne].
  - inversion Hm as [E|w E|w E|w j Hj E|Hne E]; rewrite E.
    + by apply H.
    + apply claim_absent. by apply H.
    + apply forget_absent, claim_absent. by apply H.
    + assert (Ha : absent (length (hc_arena h)) (hc_handoff h)) by by apply H.
      apply offer_absent; [by apply forget_absent, claim_absent|]. pose proof (proj2 (claim_absent w _ _ Ha)). congruence.
    + exfalso. destruct e; try done. cbn in Hi. lia.
  - apply (moves_absent i e h); [done| |done]. apply H. lia.
Qed.

Lemma run_placed es : placed (hclient_run es new_HttpClientProtocol).
Proof.
  induction es as [|e es IH] using rev_ind; [by split; [apply no_sessions_linear|]|]. rewrite hclient_run_snoc. by apply event_placed.
Qed.

(** A callback at a [wsi] that has no session takes the pending one. *)
Lemma late_claim w i h : ho_sessions (hc_handoff h) !! w = None -> ho_pending (hc_handoff h) = Some i ->
  claim w (hc_handoff h) = (Some i, Handoff None (<[w := i]> (ho_sessions (hc_handoff h)))).
Proof. intros Hs Hp. unfold claim. by rewrite Hs, Hp. Qed.

(** What can change a session that is nowhere: its consumer. *)
Lemma absent_untouched e h i : absent i (hc_handoff h) -> (i < length (hc_arena h))%nat -> (forall c, e <> Consume i c) ->
  hc_arena (hevent_run e h).2 !! i = hc_arena h !! i.
Proof.
  intros Ha Hi Hc. destruct (event_tells e h) as (l & -> & Hl). rewrite lookup_app_l by by rewrite length_tell.
  rewrite tell_lookup. replace (told_to i l) with (@nil sevent); [by destruct (hc_arena h !! i)|]. unfold told_to.
  induction Hl as [|[j ev] l Hj _ IH]; [done|]. cbn in *. rewrite bool_decide_false; [done|]. intros ->.
  destruct Hj as [[w Hw]|[c Hcs]]; [by apply (proj2 (claim_absent w _ _ Ha))|by apply (Hc c)].
Qed.

Lemma absent_run es : forall h i, absent i (hc_handoff h) -> (i < length (hc_arena h))%nat -> (forall c, Consume i c ∉ es) ->
  hc_arena (hclient_run es h) !! i = hc_arena h !! i.
Proof.
  induction es as [|e es IH]; intros h i Ha Hi Hc; [done|]. change (hclient_run (e :: es) h) with (hclient_run es (hevent_run e h).2).
  pose proof (absent_untouched e h i Ha Hi) as Hu.
  rewrite IH, Hu; [done| | | |].
  - intros c ->. by apply (Hc c), list_elem_of_here.
  - eapply moves_absent; [apply event_moves|done|lia].
  - destruct (event_tells e h) as (l & -> & _). rewrite length_app, length_tell. lia.
  - intros c Hin. by apply (Hc c), list_elem_of_further.
Qed.

(** a connection that is over, or was never made here, takes the request
    that waits for its own when it closes or is dropped: the request is
    reported as failed though it has not begun, and nothing that happens to
    its connection reaches it any more. *)
Theorem late_close_steals es w i s e message msg : let h := hclient_run es new_HttpClientProtocol in
  ho_sessions (hc_handoff h) !! w = None -> ho_pending (hc_handoff h) = Some i -> hc_arena h !! i = Some s ->
  cs_established s = false -> hc_redirecting h = false ->
  (e, message) ∈ [(ClosedHttp w, js "closed"); (DropProtocol w, js "dropped"); (ConnectionError w msg, msg)] ->
  let h' := (hevent_run e h).2 in
  hc_arena h' !! i = Some (set_cs_calls (cs_calls s ++ [CallError message]) s) /\
  forall es', (forall c, Consume i c ∉ es') -> hc_arena (hclient_run es' h') !! i = hc_arena h' !! i.
Proof.
  cbv zeta. pose proof (run_placed es) as [Hl _]. set (h := hclient_run es _) in *. intros Hw Hp Hs He Hr Hin.
  pose proof (late_claim w i h Hw Hp) as Hcl. set (ho := Handoff None _) in Hcl.
  set (h2 := set_arena (<[i := set_cs_calls (cs_calls s ++ [CallError message]) s]> (hc_arena h)) (set_handoff (forget w ho) h)).
  assert (Hi : (i < length (hc_arena h))%nat) by by apply lookup_lt_Some in Hs.
  assert (Hd : forall f : option nat -> SM hclient unit, (o ← session_of w; delete_session w ;; f o) h = f (Some i) (set_handoff (forget w ho) h)).
  { intros f. unfold session_of, mbind at 1, sm_bind at 1. by rewrite Hcl. }
  assert (E : (hevent_run e h).2 = h2).
  { apply elem_of_cons in Hin as [[= -> ->]|Hin]; [|apply elem_of_cons in Hin as [[= -> ->]|Hin]; [|apply list_elem_of_singleton in Hin as [= -> ->]]]; cbn [hevent_run].
    - unfold onClosedClientHttp. rewrite Hd. unfold with_session, on_session. cbn [hc_arena set_handoff]. rewrite Hs. unfold close_session. rewrite gets_bind. unfold id. by rewrite He.
    - unfold onClientHttpDropProtocol. rewrite (gets_bind hc_redirecting), Hr, Hd. unfold with_session, on_session. cbn [hc_arena set_handoff]. rewrite Hs.
      unfold drop_session. rewrite gets_bind. unfold id. by rewrite He.
    - unfold onClientConnectionError. rewrite Hd. unfold on_session. cbn [hc_arena set_handoff]. by rewrite Hs. }
  rewrite E. split; [by apply list_lookup_insert_eq|]. intros es' Hc. apply absent_run; [|by cbn; rewrite length_insert|done].
  apply (claim_forget_absent w i _ _ Hl Hcl).
Qed.

(** A [connect] before the first callback of the connection made before takes
    the place of its request, which hears nothing either. *)
Theorem connect_loses_pending es i w req body : let h := hclient_run es new_HttpClientProtocol in
  ho_pending (hc_handoff h) = Some i ->
  forall es', (forall c, Consume i c ∉ es') ->
  hc_arena (hclient_run (Connect w req body :: es') h) !! i = hc_arena h !! i.
Proof.
  cbv zeta. pose proof (run_placed es) as Hpl. pose proof (event_placed (Connect w req body) _ Hpl) as Hpl'. set (h := hclient_run es _) in *. intros Hp es' Hc.
  change (hclient_run (_ :: es') h) with (hclient_run es' (hevent_run (Connect w req body) h).2).
  assert (Hi : (i < length (hc_arena h))%nat).
  { destruct (decide (i < length (hc_arena h))%nat); [done|]. destruct Hpl as [_ Ha]. by destruct (Ha i ltac:(lia)). }
  rewrite absent_run; [|split| |done].
  - change (hc_arena (hevent_run _ h).2) with (hc_arena h ++ [new_session req body]). by rewrite lookup_app_l.
  - cbn. intros [= E]. lia.
  - cbn. intros w'. by apply (li_pending _ (proj1 Hpl)).
  - change (hc_arena (hevent_run _ h).2) with (hc_arena h ++ [new_session req body]). rewrite length_app. lia.
Qed.

(* ------------------------------------------------------------------ *)
(** ** The body of a request *)

Definition is_write (c : call) : bool := match c with Write _ => true | _ => false end.

(** What is left to write, and what was written. *)
Definition written (s : csession) : option bytes * list call := (cs_body s, List.filter is_write (cs_calls s)).

(** A part of a session that a program leaves alone. *)
Definition same {T A} (F : csession -> T) (m : SM csession A) : Prop := forall s, F (m s).2 = F s.

Section Same.
Context {T : Type} (F : csession -> T).
Lemma same_bind {A B} (m : SM csession A) (f : A -> SM csession B) : same F m -> (forall a, same F (f a)) -> same F (m ≫= f).
Proof. intros Hm Hf s. unfold mbind, sm_bind. specialize (Hm s). destruct (m s) as [[a|c e] s']; [|done]. cbn in Hm. by rewrite Hf. Qed.
Lemma same_ret {A} (a : A) : same F (mret a).
Proof. done. Qed.
Lemma same_gets {A} (g : csession -> A) : same F (gets g).
Proof. done. Qed.
Lemma same_lift {A} (o : outcome A) : same F (lift o).
Proof. done. Qed.
Lemma same_modify g : (forall s, F (g s) = F s) -> same F (modify g).
Proof. intros Hg s. apply Hg. Qed.
Lemma same_stream {A} (m : SM rstream A) : (forall t s, F (set_cs_stream t s) = F s) -> same F (on_stream m).
Proof. intros Hs s. unfold on_stream. destruct (m (cs_stream s)). apply Hs. Qed.
Lemma same_record c : (forall s, F (set_cs_calls (cs_calls s ++ [c]) s) = F s) -> same F (record c).
Proof. by apply same_modify. Qed.
Lemma same_try {A} (m : SM csession A) f : same F m -> (forall r, same F (f r)) -> same F (try m f).
Proof. intros Hm Hf s. unfold try. specialize (Hm s). destruct (m s) as [[a|c e] s']; [done|]. cbn in Hm. by rewrite Hf. Qed.
End Same.

(** [rec] is for the calls that are recorded. *)
Ltac same rec := repeat first
  [ apply same_bind; [|intros ?] | apply same_ret | apply same_gets | apply same_lift | apply same_stream; done
  | apply same_record; solve [rec] | apply same_modify; done | apply same_try; [|intros ?]
  | match goal with |- same _ (if ?b then _ else _) => destruct b | |- same _ (match ?x with _ => _ end) => destruct x end ].

Lemma written_record c s : is_write c = false -> written (set_cs_calls (cs_calls s ++ [c]) s) = written s.
Proof. intros Hc. unfold written. cbn. rewrite List.filter_app. cbn. by rewrite Hc, app_nil_r. Qed.

Lemma same_add_headers {T} (F : csession -> T) l : (forall n v s, F (set_cs_calls (cs_calls s ++ [AddHeader n v]) s) = F s) -> same F (add_headers l).
Proof. intros HF. induction l as [|[name value] l IH]; cbn [add_headers]; [apply same_ret|]. apply same_bind; [by apply same_record|done]. Qed.

Ltac unfold_sevent := cbn [sevent_run]; unfold append_handshake, write_body, establish, new_Response, receive, complete, close_session, drop_session, stream_event.

Lemma sevent_written e s : (forall b, e <> SWriteable b) -> written (sevent_run e s).2 = written s.
Proof.
  intros Hne. assert (H : same written (sevent_run e)); [|apply H].
  destruct e as [|b|url status|status hs|data| | | |msg|c]; try (by destruct (Hne b)); unfold_sevent;
    repeat first [apply same_add_headers; intros; by apply written_record | progress same ltac:(intros; by apply written_record)].
Qed.

Lemma write_body_written b s : written (write_body b s).2 = (None, (written s).2 ++ match cs_body s with Some body => [Write body] | None => [] end).
Proof.
  unfold write_body. rewrite gets_bind. unfold id. destruct (cs_body s) as [body|] eqn:E.
  - destruct (b =? 0); unfold written, mbind, sm_bind; cbn; rewrite ?List.filter_app; cbn; by rewrite ?app_nil_r.
  - destruct (b =? 0); unfold written, mbind, sm_bind; cbn; rewrite ?List.filter_app; cbn; by rewrite ?app_nil_r, ?E.
Qed.

(** whatever the order of the callbacks, and however often lws asks for
    it, the body of a request is written at most once, whole; and it is
    written as soon as it is asked for. *)
Theorem request_body_written_once es i req body s : made es !! i = Some (new_session req body) ->
  hc_arena (hclient_run es new_HttpClientProtocol) !! i = Some s ->
  List.filter is_write (cs_calls s) = match cs_body s, body with None, Some b => [Write b] | _, _ => [] end /\
  (cs_body s = None \/ cs_body s = body) /\
  forall buffered, List.filter is_write (cs_calls (sevent_run (SWriteable buffered) s).2) = match body with Some b => [Write b] | None => [] end.
Proof.
  intros Hm Hs. destruct (arena_runs es i _ Hm) as [evs E]. rewrite Hs in E. injection E as ->.
  assert (H : let s := session_run evs (new_session req body) in
    List.filter is_write (cs_calls s) = match cs_body s, body with None, Some b => [Write b] | _, _ => [] end /\ (cs_body s = None \/ cs_body s = body)).
  { clear Hm Hs. induction evs as [|e evs IH] using rev_ind; [destruct body; cbn; by eauto|]. rewrite session_run_snoc. set (s := session_run evs _) in *. destruct IH as [IH1 IH2]. cbv zeta.
    assert (Hw : written (sevent_run e s).2 = written s \/ written (sevent_run e s).2 = (None, (written s).2 ++ match cs_body s with Some body => [Write body] | None => [] end)).
    { destruct e; try (left; by apply sevent_written). right. apply write_body_written. }
    unfold written in Hw. destruct Hw as [[= -> ->]|[= -> ->]]; [done|]. split; [|by left]. rewrite IH1.
    destruct IH2 as [->| ->]; destruct body; done. }
  cbv zeta in H. set (s := session_run evs _) in *. destruct H as [H1 H2]. split; [done|]. split; [done|].
  intros b. pose proof (write_body_written b s) as Hw. unfold written in Hw. injection Hw as _ Hw. cbn [sevent_run]. rewrite Hw, H1.
  destruct H2 as [->| ->]; by destruct body.
Qed.

(* ------------------------------------------------------------------ *)
(** ** Examples *)

Lemma request_body_written_once_witness : exists s, hc_arena (hclient_run demo_events new_HttpClientProtocol) !! 1%nat = Some s /\
  List.filter is_write (cs_calls s) = [Write [1; 2]].
Proof.
  destruct (hc_arena (hclient_run demo_events new_HttpClientProtocol) !! 1%nat) as [s|] eqn:E; [|exfalso; revert E; vm_compute; discriminate].
  exists s. split; [done|]. destruct (request_body_written_once demo_events 1 demo_request (Some [1; 2]) s eq_refl E) as [-> _].
  revert E. vm_compute. intros [= <-]. reflexivity.
Defined.

(** Request 0 is done; request 1 has just been made when the connection of
    request 0 closes. *)
Definition late_events : list hevent :=
  [Connect 1 demo_request None; NewClientInstantiated 1; Established 1 200 FromNothing; Completed 1; Connect 2 demo_request None].

Lemma late_close_steals_witness : exists s, hc_arena (hevent_run (ClosedHttp 1) (hclient_run late_events new_HttpClientProtocol)).2 !! 1%nat = Some s /\
  cs_calls s = [CallError (js "closed")].
Proof.
  eexists. split; [exact (proj1 (late_close_steals late_events 1 1 (new_session demo_request None) (ClosedHttp 1) (js "closed") [] eq_refl eq_refl eq_refl eq_refl eq_refl (list_elem_of_here _ _)))|].
  reflexivity.
Defined.

(** The drop that follows the redirect of one request is mistaken for that of
    another one, whose reader then waits for ever. *)
Example redirect_hides_drop : let h := hclient_run
  [Connect 1 demo_request None; NewClientInstantiated 1; Connect 2 demo_request None; Established 2 200 FromNothing;
   ReceiveHttp 2 [[7]] (Ok (Some 1)); Redirect 1 3 [] 302; NewClientInstantiated 3; DropProtocol 2; DropProtocol 1;
   Consume 1 (EvRead 0); Consume 1 (EvRead 0)] new_HttpClientProtocol in
  (fun s => (rs_reads (cs_stream s), rs_state (cs_stream s), cs_calls s)) <$> hc_arena h !! 1%nat =
    Some ([ReadChunk 0; ReadPending], Readable, [CallHandler; CallRead [7]]) /\ ho_sessions (hc_handoff h) !! 2%nat = Some 1%nat.
Proof. by vm_compute. Qed.

(** After the consumer has cancelled, the callback throws for what still comes. *)
Example cancelled_body_throws : let h := hclient_run
  [Connect 1 demo_request None; Established 1 200 FromNothing; Consume 0 (EvReaderCancel 0 Undefined)] new_HttpClientProtocol in
  (onReceiveClientHttpRead 1 [7] h).1 = Throw ErrTypeError "The stream is not in a state that permits enqueue" /\
  (onCompletedClientHttp 1 h).1 = Throw ErrTypeError "The stream is not in a state that permits close".
Proof. by vm_compute. Qed.
