(* ===== verification/HttpClientBody.v ===== *)
(** * The body of a response

    The stream of a session is fed by [onReceiveClientHttpRead] and read by
    whoever has the response.  [kept] says what no consumer changes of it, as
    long as nobody cancels; with the order of a session's events ([ended])
    and the invariant of [ReadableStreamInv] this gives what the consumer
    gets: the data in order, and the end only when the body has ended
    ([response_body_intact]). *)

From S2P Require Import Prelude JsString StreamBase ReadableStream ReadableStreamInv FedStream Headers Handoff HttpClient HttpClientProps HttpClientRuns.
Open Scope Z_scope.

(* ------------------------------------------------------------------ *)
(** ** The order of a session's events *)

Definition is_end (e : sevent) : bool := match e with SCompleted | SClosed | SDropped | SError _ => true | _ => false end.
Definition is_consume (e : sevent) : bool := match e with SConsume _ => true | _ => false end.

Abbreviation ended := (ended is_end is_consume).
Abbreviation owned_once t := (owned_once (tr_ledger t) (tr_next t)).
Abbreviation gone i t := (gone i (tr_ledger t) (tr_next t)).
Abbreviation step_ok t t' l := (step_ok is_end is_consume (tr_ledger t) (tr_next t) (tr_ledger t') (tr_next t') l).

Lemma callback_ok w over es t t' l : owned_once t -> callback w over es t = Some (t', l) -> ended es ->
  (over = false -> existsb is_end es = false) -> step_ok t t' l.
Proof.
  intros Ht E He Hov. unfold callback in E. destruct (heard w _) as [g|] eqn:Hg; [|done]. injection E as <- <-. by apply step_ok_callback.
Qed.

Lemma trace_step_ok e t t' l : owned_once t -> trace_step e t = Some (t', l) -> step_ok t t' l.
Proof.
  intros Ht E.
  destruct e as [w req body|w|w|w b|w w' url status|w status hs|w chunks result|w|w|w|w msg|i e]; cbn in E;
    try (by eapply (callback_ok w true [_]); [done|exact E|repeat constructor|]); try (by eapply (callback_ok w false [_]); [done|exact E|repeat constructor|]).
  - destruct (opened w _ _) as [g|] eqn:Hg; [|done]. cbn in E. injection E as <- <-. destruct (opened_insert _ _ _ _ Hg) as [Hw ->].
    destruct (owned_insert w (tr_next t) (tr_ledger t) (tr_next t) (Some w) Hw Ht) with (n' := S (tr_next t)) as [H1 H2];
      [intros w' Hw'; apply Ht in Hw'; lia|lia|lia|]. apply step_ok_none; [done|]. intros j Hj. apply H2; [|done]. destruct Hj; lia.
  - by eapply (callback_ok w false []); [done|exact E|done|].
  - destruct (heard w _) as [g|] eqn:Hg; [|done]. cbn in E. pose proof (heard_owner _ _ _ Hg) as [Hown _].
    destruct (owned_same _ g _ Hown Ht) as [H1 H2]. unfold owner in E. destruct (lg_owner (tr_ledger t) !! w) as [i|] eqn:Eo.
    + destruct (opened w' i (closed w g)) as [g'|] eqn:Hg'; [|done]. cbn in E. injection E as <- <-. destruct (opened_insert _ _ _ _ Hg') as [Hw' ->].
      destruct (owned_closed w g _ H1) as (H3 & H4 & H5). assert (Hi : Handoff.gone i (closed w g) (tr_next t)) by (apply H5; by rewrite Hown).
      destruct (owned_insert w' i (closed w g) (tr_next t) (Some w') Hw' H3 (proj2 Hi)) with (n' := tr_next t) as [H6 H7]; [apply Hi|lia|].
      apply (step_ok_told _ _ _ _ _ _ (Some i) [SRedirect url status]); try done.
      * intros j Hj. apply H7; [|by apply H4, H2]. intros ->. by apply (proj2 Hj w).
      * intros j [= <-]. by exists w.
    + injection E as <- <-. by apply step_ok_none.
  - destruct chunks as [|data chunks].
    { injection E as <- <-. by apply step_ok_none. }
    assert (Hne : forall l, existsb is_end (SRead <$> l) = false) by (intros l0; by induction l0).
    eapply (callback_ok w false (SRead <$> data :: chunks)); [done|exact E| |intros _; apply Hne].
    clear E. induction (data :: chunks) as [|d l0 IH]; by split.
  - destruct (tr_redirect t) as [w0|] eqn:Er; [|by eapply (callback_ok w true [_]); [done|exact E|repeat constructor|]].
    case_bool_decide; [|done]. injection E as <- <-. by apply step_ok_none.
  - case_bool_decide as Hi; [|done]. injection E as <- <-. by apply step_ok_own.
Qed.

Lemma trace_ended es : forall t t' l, owned_once t -> trace es t = Some (t', l) ->
  forall i, ended (told_to i l) /\ (gone i t -> Forall (fun e => is_consume e = true) (told_to i l)).
Proof.
  induction es as [|e es IH]; intros t t' l Ht E i; [injection E as <- <-; by split|].
  cbn in E. destruct (trace_step e t) as [[t1 l1]|] eqn:E1; [|done]. cbn in E. destruct (trace es t1) as [[t2 l2]|] eqn:E2; [|done].
  injection E as <- <-. destruct (trace_step_ok e t t1 l1 Ht E1) as (H1 & Hg & He). destruct (IH t1 t2 l2 H1 E2 i) as [Hi1 Hi2].
  destruct (He i) as [He1 He2]. rewrite told_to_app. split.
  - apply ended_app; [done|done|]. intros Hx. by apply Hi2, He2.
  - intros Hgi. destruct (Hg i Hgi) as [Hg1 Hg2]. apply Forall_app. split; [done|]. by apply Hi2.
Qed.

(* ------------------------------------------------------------------ *)
(** ** The body *)

Definition read_data (e : sevent) : option bytes := match e with SRead data => Some data | _ => None end.

(** What the connection of a session has read, in order. *)
Definition received (es : list sevent) : list bytes := omap read_data es.

Definition calm (e : sevent) : Prop := match e with SConsume c => gentle c | _ => True end.

(** The stream of a session after [es]. *)
Record body_ok (es : list sevent) (s : csession) (closing failed : bool) : Prop := {
  bo_inv : Inv false None (cs_stream s);
  bo_data : cs_data s = received es;
  bo_stream : Q (numbers (length (received es))) closing failed (cs_stream s);
  bo_failed : failed = true -> SDropped ∈ es;
  bo_closing : closing = true -> SCompleted ∈ es \/ SClosed ∈ es;
  bo_completed : SCompleted ∈ es -> closing = true /\ failed = false;
  bo_closed : SClosed ∈ es -> cs_established s = true -> closing = true /\ failed = false;
  bo_open : existsb is_end es = false -> cs_completed s = false;
}.

Lemma no_end_in es e : existsb is_end es = false -> is_end e = true -> e ∉ es.
Proof.
  intros Hn He Hin. assert (existsb is_end es = true); [|congruence]. apply existsb_exists. exists e. split; [by apply list_elem_of_In|done].
Qed.

Lemma body_before es s c f : body_ok es s c f -> existsb is_end es = false -> c = false /\ f = false.
Proof.
  intros [_ _ _ Hf Hc _ _ _] Hn. split.
  - destruct c; [|done]. destruct (Hc eq_refl) as [Hin|Hin]; by apply (no_end_in es _ Hn) in Hin.
  - destruct f; [|done]. specialize (Hf eq_refl). by apply (no_end_in es _ Hn) in Hf.
Qed.

Lemma stream_event_eq e s : (stream_event e s).2 = set_cs_stream (run_stream e (cs_stream s)) s.
Proof. unfold stream_event, on_stream, run_stream. by destruct (revent_run _ _ _ e (cs_stream s)). Qed.

(** What each event does to the parts the body depends on. *)
Definition parts (s : csession) := (cs_data s, cs_completed s, cs_established s, cs_stream s).

Lemma quiet_parts e s : match e with SHandshake | SWriteable _ | SRedirect _ _ | SError _ => True | _ => False end ->
  parts (sevent_run e s).2 = parts s.
Proof.
  intros He. assert (H : same parts (sevent_run e)); [|apply H].
  destruct e as [|b|url status|status hs|data| | | |msg|c]; try done; unfold_sevent;
    repeat first [by apply same_add_headers | progress same ltac:(done)].
Qed.

Lemma establish_parts status hs s : let s' := (establish status hs s).2 in
  cs_data s' = cs_data s /\ cs_completed s' = cs_completed s /\
  (cs_stream s' = cs_stream s \/ cs_stream s' = (new_ReadableStreamDefaultReader (cs_stream s)).2).
Proof.
  cbv zeta. split; [|split].
  - assert (H : same cs_data (establish status hs)) by (unfold establish, new_Response; same ltac:(done)). apply H.
  - assert (H : same cs_completed (establish status hs)) by (unfold establish, new_Response; same ltac:(done)). apply H.
  - unfold establish, new_Response, mbind, sm_bind, gets, lift, on_stream, id. destruct (new_Headers hs) as [h|c m]; [|by left].
    destruct (new_ReadableStreamDefaultReader (cs_stream s)) as [[r|c m] t]; [|by right].
    destruct (_ && _); [by right|]. destruct (new_Headers (FromHeaders h)); by right.
Qed.

Lemma receive_parts data s : let s' := (receive data s).2 in
  cs_data s' = cs_data s ++ [data] /\ cs_completed s' = cs_completed s /\ cs_established s' = cs_established s /\
  cs_stream s' = run_stream (EvController (CtlEnqueue (Z.of_nat (length (cs_data s))))) (cs_stream s).
Proof.
  cbv zeta. unfold receive. rewrite gets_bind, modify_bind. set (s1 := set_cs_data _ s). unfold mbind, sm_bind.
  pose proof (stream_event_eq (EvController (CtlEnqueue (Z.of_nat (length (cs_data s))))) s1) as E.
  destruct (stream_event _ s1) as [[[]|c m] s2]; cbn in E; subst s2; done.
Qed.

Lemma try_stream e (s : csession) : (try (stream_event e) (fun _ => mret tt) s).2 = set_cs_stream (run_stream e (cs_stream s)) s.
Proof. rewrite <-stream_event_eq. unfold try. by destruct (stream_event e s) as [[[]|c m] s']. Qed.

Lemma close_parts s : cs_completed s = false -> let s' := (close_session s).2 in
  cs_data s' = cs_data s /\ cs_established s' = cs_established s /\
  cs_stream s' = if cs_established s then run_stream (EvController CtlClose) (cs_stream s) else cs_stream s.
Proof.
  intros Hc. cbv zeta. unfold close_session. rewrite gets_bind. unfold id. rewrite Hc. destruct (cs_established s) eqn:E; cbn [negb]; [|done].
  rewrite modify_bind, try_stream. done.
Qed.

Lemma drop_parts s : cs_completed s = false -> let s' := (drop_session s).2 in
  cs_data s' = cs_data s /\ cs_established s' = cs_established s /\
  cs_stream s' = if cs_established s then run_stream (EvController (CtlError dropped)) (cs_stream s) else cs_stream s.
Proof.
  intros Hc. cbv zeta. unfold drop_session. rewrite gets_bind. unfold id. rewrite Hc. destruct (cs_established s) eqn:E; cbn [negb]; [|done].
  rewrite try_stream. done.
Qed.

Lemma in_snoc {A} (l : list A) x y : x <> y -> x ∈ l ++ [y] -> x ∈ l.
Proof. intros Hne [?|?%list_elem_of_singleton]%elem_of_app; [done|congruence]. Qed.

Lemma received_snoc es e : received (es ++ [e]) = received es ++ option_list (read_data e).
Proof. unfold received. rewrite omap_app. cbn. by destruct (read_data e). Qed.

(** An event that is no end and reads nothing. *)
Lemma body_same es e s s' c f : body_ok es s c f -> is_end e = false -> read_data e = None ->
  cs_data s' = cs_data s -> cs_completed s' = cs_completed s -> (SClosed ∈ es -> cs_established s' = cs_established s) ->
  Inv false None (cs_stream s') -> Q (numbers (length (received es))) c f (cs_stream s') -> body_ok (es ++ [e]) s' c f.
Proof.
  intros [Hi Hd Hs Hf Hc Hco Hcl Ho] He Hr Ed Ec Ee Hi' HQ.
  assert (Er : received (es ++ [e]) = received es) by (rewrite received_snoc, Hr; apply app_nil_r).
  assert (Hin : forall x, is_end x = true -> x ∈ es ++ [e] -> x ∈ es) by (intros x Hx; apply in_snoc; congruence).
  split; rewrite ?Er; try done.
  - by rewrite Ed.
  - intros Hx. apply elem_of_app. left. by apply Hf.
  - intros Hx. rewrite !elem_of_app. destruct (Hc Hx); by auto.
  - intros Hx%Hin; [|done]. by apply Hco.
  - intros Hx%Hin; [|done]. rewrite Ee by done. by apply Hcl.
  - rewrite existsb_app. cbn. rewrite He, orb_false_r. intros Hx. rewrite Ec. by apply Ho.
Qed.

Lemma body_step es e s c f : body_ok es s c f -> ended (es ++ [e]) -> calm e ->
  exists c' f', body_ok (es ++ [e]) (sevent_run e s).2 c' f'.
Proof.
  intros H [_ Hn]%ended_snoc Hcalm. pose proof H as [Hi Hd Hs Hf Hc Hco Hcl Ho].
  assert (Hq : match e with SHandshake | SWriteable _ | SRedirect _ _ | SError _ => True | _ => False end -> is_end e = false ->
    exists c' f', body_ok (es ++ [e]) (sevent_run e s).2 c' f').
  { intros He He'. pose proof (quiet_parts e s He) as [= E1 E2 E3 E4]. exists c, f. apply (body_same es e s); rewrite ?E4; try done. by destruct e. }
  assert (Hend : is_consume e = false -> c = false /\ f = false /\ cs_completed s = false /\ SCompleted ∉ es /\ SClosed ∉ es /\ SDropped ∉ es).
  { intros He. specialize (Hn He). destruct (body_before es s c f H Hn). split_and!; try done; [by apply Ho|..]; by apply (no_end_in es _ Hn). }
  destruct e as [|b|url status|status hs|data| | | |msg|ev]; try (by apply Hq).
  - destruct (establish_parts status hs s) as (E1 & E2 & E3). exists c, f. apply (body_same es _ s); try done.
    + intros Hin. by destruct (Hend eq_refl) as (_ & _ & _ & _ & Hno & _).
    + cbn [sevent_run]. destruct E3 as [-> | ->]; [done|]. by apply new_reader_good.
    + cbn [sevent_run]. destruct E3 as [-> | ->]; [done|]. by apply kept_new_reader.
  - destruct (receive_parts data s) as (E1 & E2 & E3 & E4). destruct (Hend eq_refl) as (-> & -> & Hcm & N1 & N2 & N3).
    assert (Er : received (es ++ [SRead data]) = received es ++ [data]) by apply received_snoc.
    exists false, false. split; cbn [sevent_run]; rewrite ?Er, ?E4; try done.
    + by apply run_stream_inv.
    + by rewrite E1, Hd.
    + rewrite length_app, Nat.add_1_r, numbers_S, Hd. by apply Q_enqueue.
    + intros Hin%in_snoc; done.
    + intros Hin%in_snoc; done.
    + by rewrite E2.
  - destruct (Hend eq_refl) as (-> & -> & Hcm & N1 & N2 & N3). exists true, false. cbn [sevent_run]. unfold complete.
    rewrite modify_bind, stream_event_eq. split; cbn; rewrite ?received_snoc, ?app_nil_r; try done.
    + by apply run_stream_inv.
    + by apply Q_ctl_close.
    + intros _. left. apply elem_of_app. right. by apply list_elem_of_singleton.
    + rewrite existsb_app, orb_true_r. done.
  - destruct (Hend eq_refl) as (-> & -> & Hcm & N1 & N2 & N3). destruct (close_parts s Hcm) as (E1 & E2 & E3).
    exists (cs_established s), false. split; cbn [sevent_run]; rewrite ?received_snoc, ?app_nil_r, ?E3; try done.
    + destruct (cs_established s); [by apply run_stream_inv|done].
    + by rewrite E1.
    + destruct (cs_established s); [by apply Q_ctl_close|done].
    + intros _. right. apply elem_of_app. right. by apply list_elem_of_singleton.
    + intros Hin%in_snoc; done.
    + intros _ Hx. by rewrite <-E2, Hx.
    + rewrite existsb_app, orb_true_r. done.
  - destruct (Hend eq_refl) as (-> & -> & Hcm & N1 & N2 & N3). destruct (drop_parts s Hcm) as (E1 & E2 & E3).
    exists false, (cs_established s). split; cbn [sevent_run]; rewrite ?received_snoc, ?app_nil_r, ?E3; try done.
    + destruct (cs_established s); [by apply run_stream_inv|done].
    + by rewrite E1.
    + destruct (cs_established s); [by apply Q_ctl_error|done].
    + intros _. apply elem_of_app. right. by apply list_elem_of_singleton.
    + intros Hin%in_snoc; done.
    + intros Hin%in_snoc; done.
    + rewrite existsb_app, orb_true_r. done.
  - destruct (Hend eq_refl) as (-> & -> & Hcm & N1 & N2 & N3).
    exists false, false. split; rewrite ?received_snoc, ?app_nil_r; try done.
    + intros Hin%in_snoc; done.
    + intros Hin%in_snoc; done.
  - exists c, f. apply (body_same es _ s); cbn [sevent_run]; rewrite ?stream_event_eq; try done.
    + by apply run_stream_inv.
    + by apply kept_event.
Qed.

Lemma body_run es req body : ended es -> Forall calm es -> exists c f, body_ok es (session_run es (new_session req body)) c f.
Proof.
  induction es as [|e es IH] using rev_ind; intros He Hc.
  - exists false, false. split; try done; [apply new_stream_inv|split; try done; by intros ?%elem_of_nil|by intros ?%elem_of_nil].
  - apply Forall_app in Hc as [Hc1 Hc2]. inversion Hc2 as [|? ? Hce _]; subst. destruct (IH (proj1 (ended_snoc _ _ _ _ He)) Hc1) as (c & f & H).
    rewrite session_run_snoc. by apply (body_step es e _ c f).
Qed.

Lemma made_session es s : s ∈ made es -> exists req body, s = new_session req body.
Proof. unfold made. rewrite list_elem_of_omap. intros ([] & _ & E); try done. injection E as <-. by do 2 eexists. Qed.

Lemma step_consume e t t' l i c : trace_step e t = Some (t', l) -> (i, SConsume c) ∈ l -> e = Consume i c.
Proof.
  intros E Hin.
  assert (Hc : forall w over es, callback w over es t = Some (t', l) -> Forall (fun e => is_consume e = false) es -> False).
  { intros w over es Ev Hes. unfold callback in Ev. destruct (heard w _); [|done]. cbn in Ev. injection Ev as <- <-.
    unfold told in Hin. destruct (owner w t); [|by apply elem_of_nil in Hin]. apply list_elem_of_fmap in Hin as (x & [= -> <-] & Hx).
    rewrite Forall_forall in Hes. specialize (Hes _ Hx). done. }
  destruct e as [w req body|w|w|w b|w w' url status|w status hs|w chunks result|w|w|w|w msg|j e]; cbn in E;
    try (exfalso; eapply Hc; [exact E|by repeat constructor]).
  - destruct (opened _ _ _); [|done]. injection E as <- <-. by apply elem_of_nil in Hin.
  - destruct (heard w _) as [g|]; [|done]. cbn in E. destruct (owner w t); [|injection E as <- <-; by apply elem_of_nil in Hin].
    destruct (opened _ _ _); [|done]. injection E as <- <-. by apply list_elem_of_singleton in Hin.
  - destruct chunks as [|d chunks]; [injection E as <- <-; by apply elem_of_nil in Hin|]. exfalso. eapply Hc; [exact E|]. by apply Forall_fmap, Forall_true.
  - destruct (tr_redirect t); [|exfalso; eapply Hc; [exact E|by repeat constructor]]. case_bool_decide; [|done]. injection E as <- <-. by apply elem_of_nil in Hin.
  - case_bool_decide; [|done]. injection E as <- <-. by apply list_elem_of_singleton in Hin as [= -> ->].
Qed.

Lemma trace_consume es : forall t t' l i c, trace es t = Some (t', l) -> (i, SConsume c) ∈ l -> Consume i c ∈ es.
Proof.
  induction es as [|e es IH]; intros t t' l i c E Hin; [injection E as <- <-; by apply elem_of_nil in Hin|].
  cbn in E. destruct (trace_step e t) as [[t1 l1]|] eqn:E1; [|done]. cbn in E. destruct (trace es t1) as [[t2 l2]|] eqn:E2; [|done].
  injection E as <- <-. apply elem_of_app in Hin as [Hin|Hin]; apply elem_of_cons; [left|right].
  - symmetry. by apply (step_consume e t t1 l1).
  - by apply (IH t1 t2 l2).
Qed.

(** C31: as long as connections are heard of in order and its consumer does
    not cancel, what the response of a request delivers is what its own
    connection read, in order, from the start; the end of the body is read
    only after all of it, and only when the body is complete or the
    connection has closed; and then no read waits for ever. *)
Theorem response_body_intact es t l i s : trace es start = Some (t, l) -> (forall c, Consume i c ∈ es -> gentle c) ->
  hc_arena (hclient_run es new_HttpClientProtocol) !! i = Some s ->
  let reads := rs_reads (cs_stream s) in
  let body := received (told_to i l) in
  let got := omap (fun c => body !! Z.to_nat c) (delivered reads) in
  got `prefix_of` body /\
  (ReadDone ∈ reads -> got = body /\ (SCompleted ∈ told_to i l \/ SClosed ∈ told_to i l)) /\
  (SCompleted ∈ told_to i l \/ SClosed ∈ told_to i l /\ cs_established s = true -> ReadPending ∉ reads).
Proof.
  intros E Hg Hs. destruct (trace_run es _ _ _ _ sim_start E) as [_ Ha]. cbn [hc_arena new_HttpClientProtocol app] in Ha.
  rewrite Ha, tell_lookup in Hs. destruct (made es !! i) as [s0|] eqn:Em; [|done]. cbn in Hs. injection Hs as <-.
  destruct (made_session es s0) as (req & b & ->); [by eapply list_elem_of_lookup_2|].
  destruct (body_run (told_to i l) req b) as (c & f & [Hi Hd Hq Hf Hc Hco Hcl _]).
  { by apply (trace_ended es start t l owned_start E). }
  { apply Forall_forall. intros [] Hin; try done. apply Hg. apply (trace_consume es start t l); [done|]. by apply told_to_elem. }
  fold (session_run (told_to i l) (new_session req b)). set (s := session_run _ _) in *. cbv zeta. set (evs := told_to i l) in *.
  destruct (stream_outcome _ _ _ _ Hi Hq) as ([rest Hpre] & Hdone & Hpend).
  assert (Hgot : omap (fun c => received evs !! Z.to_nat c) (delivered (rs_reads (cs_stream s))) = take (length (delivered (rs_reads (cs_stream s)))) (received evs)).
  { by eapply omap_numbers. }
  rewrite Hgot. split; [|split].
  - rewrite <-(take_drop (length (delivered (rs_reads (cs_stream s)))) (received evs)) at 2. by eexists.
  - intros [Hall Hclosed]%Hdone. split; [|by apply Hc]. rewrite Hall. unfold numbers. rewrite length_fmap, length_seq. apply firstn_all.
  - intros Hx. apply Hpend; (destruct Hx as [Hx|[Hx Hx']]; [by apply Hco|by apply Hcl]).
Qed.

Lemma response_body_intact_witness : exists t l s, trace demo_events start = Some (t, l) /\
  hc_arena (hclient_run demo_events new_HttpClientProtocol) !! 0%nat = Some s /\
  omap (fun c => received (told_to 0 l) !! Z.to_nat c) (delivered (rs_reads (cs_stream s))) = received (told_to 0 l) /\ received (told_to 0 l) = [[10]; [11; 12]].
Proof.
  destruct (trace demo_events start) as [[t l]|] eqn:E; [|exfalso; revert E; vm_compute; discriminate].
  destruct (hc_arena (hclient_run demo_events new_HttpClientProtocol) !! 0%nat) as [s|] eqn:Es; [|exfalso; revert Es; vm_compute; discriminate].
  assert (Hg : forall c, Consume 0 c ∈ demo_events -> gentle c).
  { assert (Hall : Forall (fun e => match e with Consume 0%nat c => gentle c | _ => True end) demo_events) by repeat constructor.
    intros c Hin. by apply (proj1 (Forall_forall _ _) Hall (Consume 0 c)). }
  assert (Hd : ReadDone ∈ rs_reads (cs_stream s)).
  { revert Es. vm_compute. intros [= <-]. cbn. right. right. left. }
  exists t, l, s. split; [done|]. split; [done|]. split.
  - exact (proj1 (proj1 (proj2 (response_body_intact demo_events t l 0 s E Hg Es)) Hd)).
  - revert E. vm_compute. intros [= <- <-]. reflexivity.
Defined.
