(* ===== verification/HttpServer.v ===== *)
(** * [HttpProtocol] of [lib/lws/protocols.js]

    The adapter between the native callbacks of an HTTP server and the
    requests of [lib/lws/request.js].  A connection outlives its requests:
    [onHttp] makes a request, and one with a body takes over its [wsi] in
    [#requests], so that the chunks that follow reach the sink of its stream
    ([FedStream]).  The constructor of [Body] takes a reader of that stream.

    An event is a callback, or what the consumer of a body does.  The handler
    is called last by [onHttp]; what it does are events that follow.  The
    parser of multipart bodies is native, and the optional hooks hand their
    arguments on as they are: both are left out. *)

From S2P Require Import Prelude JsString JsNumber StreamBase ReadableStream FedStream Request.
Open Scope Z_scope.

(* ------------------------------------------------------------------ *)
(** ** Whether a body will come *)

(** [Number(s) > 0] *)
Definition positive (v : jsdouble) : bool :=
  match v with DFin false m _ => 0 <? m | DInf false => true | _ => false end.

(** [/chunked/i.test(s)] *)
Fixpoint mentions_chunked (s : jsstr) : bool :=
  starts_with (js "chunked") (ascii_lower s) || match s with [] => false | _ :: t => mentions_chunked t end.

Definition hasBody (headers : list (jsstr * jsstr)) : bool :=
  match lookup (js "content-length") headers with Some cl => positive (Number cl) | None => false end ||
  mentions_chunked (default [] (lookup (js "transfer-encoding") headers)).

(* ------------------------------------------------------------------ *)
(** ** Requests *)

(** [sq_data] is history: the buffers given to the sink, each known to the
    stream by its number. *)
Record srequest := SRequest { sq_request : server_request; sq_stream : rstream; sq_data : list bytes }.

Section Server.
Context `{UpperTables}.

Abbreviation QM A := (SM srequest A) (only parsing).

Definition sink_event (e : revent) : QM unit := fun r =>
  let '(o, t) := revent_run (Fin 1) unit_size no_pull e (sq_stream r) in (o, SRequest (sq_request r) t (sq_data r)).

Definition new_request (c : wsi) : srequest := SRequest (new_ServerRequest c) (run_stream EvGetReader new_stream) [].

(** [readableStreamSink]: [write] and [close]. *)
Definition sink_write (buf : bytes) : QM unit :=
  n ← gets (fun r => length (sq_data r));
  modify (fun r => SRequest (sq_request r) (sq_stream r) (sq_data r ++ [buf])) ;;
  sink_event (EvController (CtlEnqueue (Z.of_nat n))).

Definition appendBody (buf : option bytes) : QM unit :=
  match buf with Some ((_ :: _) as buf) => sink_write buf | _ => mret tt end.
Definition closeBody : QM unit := sink_event (EvController CtlClose).

(* ------------------------------------------------------------------ *)
(** ** The protocol *)

Record hserver := HServer { hv_requests : gmap nat nat; hv_arena : list srequest }.

Definition new_HttpProtocol : hserver := HServer ∅ [].

Abbreviation VM A := (SM hserver A) (only parsing).

Definition on_request (i : nat) (m : QM unit) : VM unit := fun h =>
  match hv_arena h !! i with
  | Some r => let '(o, r) := m r in (o, HServer (hv_requests h) (<[i := r]> (hv_arena h)))
  | None => (Ok tt, h)
  end.

Definition set_requests (v : gmap nat nat) (h : hserver) : hserver := HServer v (hv_arena h).
Definition add_request (c : wsi) (h : hserver) : hserver := HServer (hv_requests h) (hv_arena h ++ [new_request c]).

Definition onHttp (w : nat) (c : wsi) : VM unit :=
  i ← gets (fun h => length (hv_arena h));
  modify (add_request c) ;;
  if hasBody (ws_headers c) then modify (fun h => set_requests (<[w := i]> (hv_requests h)) h)
  else on_request i closeBody.

Definition onHttpBody (w : nat) (buf : option bytes) : VM unit :=
  m ← gets hv_requests;
  match m !! w with Some i => on_request i (appendBody buf) | None => mret tt end.

Definition onHttpBodyCompletion (w : nat) : VM unit :=
  m ← gets hv_requests;
  match m !! w with Some i => on_request i closeBody | None => mret tt end.

Definition onClosedHttp (w : nat) : VM unit := modify (fun h => set_requests (delete w (hv_requests h)) h).

Inductive hevent :=
| OnHttp (w : nat) (c : wsi) | OnHttpBody (w : nat) (buf : option bytes) | OnHttpBodyCompletion (w : nat) | OnClosedHttp (w : nat)
| ConsumeBody (i : nat) (e : revent).

Definition hevent_run (e : hevent) : VM unit :=
  match e with
  | OnHttp w c => onHttp w c
  | OnHttpBody w buf => onHttpBody w buf
  | OnHttpBodyCompletion w => onHttpBodyCompletion w
  | OnClosedHttp w => onClosedHttp w
  | ConsumeBody i e => on_request i (sink_event e)
  end.

Definition hserver_run (es : list hevent) (h : hserver) : hserver := foldl (fun h e => (hevent_run e h).2) h es.
End Server.

Example has_body_length : hasBody [(js "content-length", js "12")] = true. Proof. vm_compute. reflexivity. Qed.
Example has_body_chunked : hasBody [(js "content-length", js "0"); (js "transfer-encoding", js "gzip, Chunked")] = true. Proof. vm_compute. reflexivity. Qed.
Example has_no_body : hasBody [(js "content-length", js "-1")] = false. Proof. vm_compute. reflexivity. Qed.
