(* ===== verification/HttpServerProps.v ===== *)
(** * The body of a request

    [own] picks from a sequence of events those that are about one request:
    the callbacks of its connection until the connection closes or another
    request with a body takes it over.  What the stream of the request
    delivers is what they brought ([request_body_intact]). *)

From S2P Require Import Prelude JsString JsNumber StreamBase ReadableStream ReadableStreamInv FedStream Request HttpServer.
Open Scope Z_scope.

Section Props.
Context `{UpperTables}.

(* ------------------------------------------------------------------ *)
(** ** The specification *)

(** The request on [w] hears of nothing after this event. *)
Definition takes_over (w : nat) (e : hevent) : bool :=
  match e with
  | OnHttp w' c => bool_decide (w' = w) && hasBody (ws_headers c)
  | OnClosedHttp w' => bool_decide (w' = w)
  | _ => false
  end.

Inductive upload := Chunk (buf : bytes) | Complete.
Definition upload_of (w : nat) (e : hevent) : option upload :=
  match e with
  | OnHttpBody w' (Some ((_ :: _) as buf)) => if bool_decide (w' = w) then Some (Chunk buf) else None
  | OnHttpBodyCompletion w' => if bool_decide (w' = w) then Some Complete else None
  | _ => None
  end.

Fixpoint own (w : nat) (es : list hevent) : list upload :=
  match es with
  | [] => []
  | e :: es => if takes_over w e then [] else option_list (upload_of w e) ++ own w es
  end.

(** The chunks until the body is complete, and whether it was. *)
Fixpoint uploaded (l : list upload) : list bytes * bool :=
  match l with
  | [] => ([], false)
  | Chunk buf :: l => let '(bufs, fin) := uploaded l in (buf :: bufs, fin)
  | Complete :: _ => ([], true)
  end.

(* ------------------------------------------------------------------ *)
(** ** What one request is fed *)

Fixpoint feeds (w i : nat) (active : bool) (n : nat) (es : list hevent) : list fed_event :=
  match es with
  | [] => []
  | e :: es =>
    match e with
    | ConsumeBody j c => (if bool_decide (j = i) then [Consumed c] else []) ++ feeds w i active n es
    | _ =>
      if takes_over w e then feeds w i false n es else
      match (if active then upload_of w e else None) with
      | Some (Chunk _) => Feed (CtlEnqueue (Z.of_nat n)) :: feeds w i active (S n) es
      | Some Complete => Feed CtlClose :: feeds w i active n es
      | None => feeds w i active n es
      end
    end
  end.

Definition chunks (l : list upload) : list bytes := omap (fun u => match u with Chunk buf => Some buf | Complete => None end) l.

(** Request [i] in a server: [active] when [w] still leads to it. *)
Record serves (h : hserver) (w i : nat) (active : bool) (r : srequest) : Prop := {
  se_request : hv_arena h !! i = Some r;
  se_active : hv_requests h !! w = Some i <-> active = true;
  se_only : forall w', hv_requests h !! w' = Some i -> w' = w;
}.

Lemma sink_event_eq e r : (sink_event e r).2 = SRequest (sq_request r) (run_stream e (sq_stream r)) (sq_data r).
Proof. unfold sink_event, run_stream. by destruct (revent_run _ _ _ e (sq_stream r)). Qed.

Lemma sink_write_eq buf r : (sink_write buf r).2 =
  SRequest (sq_request r) (run_stream (EvController (CtlEnqueue (Z.of_nat (length (sq_data r))))) (sq_stream r)) (sq_data r ++ [buf]).
Proof. unfold sink_write. rewrite gets_bind, modify_bind, sink_event_eq. done. Qed.

(** A step on request [j] seen from request [i]. *)
Lemma on_request_serves j m h w i active r : serves h w i active r ->
  serves (on_request j m h).2 w i active (if bool_decide (j = i) then (m r).2 else r).
Proof.
  intros [Hr Ha Ho]. unfold on_request. destruct (hv_arena h !! j) as [s|] eqn:Ej.
  - assert (Hlt : (j < length (hv_arena h))%nat) by by apply lookup_lt_Some in Ej. destruct (m s) as [o s'] eqn:Em. split; cbn; [|done|done].
    case_bool_decide as E; [subst j|by rewrite list_lookup_insert_ne].
    rewrite Hr in Ej. injection Ej as <-. by rewrite list_lookup_insert_eq, Em.
  - rewrite bool_decide_false by congruence. by split.
Qed.

Lemma add_request_serves c h w i active r : serves h w i active r -> serves (add_request c h) w i active r.
Proof. intros [Hr Ha Ho]. split; [|done|done]. cbn. by apply lookup_app_l_Some. Qed.

Lemma fed_step_app t es es' : foldl fed_step t (es ++ es') = foldl fed_step (foldl fed_step t es) es'.
Proof. apply foldl_app. Qed.

(** One event, as request [i] on [w] sees it. *)
Lemma hevent_serves e h w i active r : serves h w i active r ->
  let u := if active then upload_of w e else None in
  exists r', serves (hevent_run e h).2 w i (active && negb (takes_over w e)) r' /\
    match u, e with
    | Some (Chunk buf), _ => sq_stream r' = run_stream (EvController (CtlEnqueue (Z.of_nat (length (sq_data r))))) (sq_stream r) /\ sq_data r' = sq_data r ++ [buf]
    | Some Complete, _ => sq_stream r' = run_stream (EvController CtlClose) (sq_stream r) /\ sq_data r' = sq_data r
    | None, ConsumeBody j c => sq_stream r' = (if bool_decide (j = i) then run_stream c (sq_stream r) else sq_stream r) /\ sq_data r' = sq_data r
    | None, _ => sq_stream r' = sq_stream r /\ sq_data r' = sq_data r
    end.
Proof.
  intros Hs. pose proof Hs as [Hr Ha Ho]. assert (Hlt : (i < length (hv_arena h))%nat) by by apply lookup_lt_Some in Hr. cbv zeta.
  assert (Hto : forall w' m, hv_requests h !! w' = Some i -> bool_decide (w' = w) = true /\ active = true /\ serves (on_request i m h).2 w i active (m r).2).
  { intros w' m E. pose proof (Ho _ E) as ->. rewrite bool_decide_true by done. split; [done|]. split; [by apply Ha|].
    pose proof (on_request_serves i m h w i active r Hs) as Hx. by rewrite bool_decide_true in Hx. }
  assert (Hnot : forall w' m, (forall j, hv_requests h !! w' = Some j -> j <> i) ->
    (if active then bool_decide (w' = w) else false) = false /\ serves (match hv_requests h !! w' with Some j => on_request j m | None => mret tt end h).2 w i active r).
  { intros w' m Hj. split.
    - destruct active; [|done]. apply bool_decide_false. intros ->. by apply (Hj i); [apply Ha|].
    - destruct (hv_requests h !! w') as [j|] eqn:E; [|done]. pose proof (on_request_serves j m h w i active r Hs) as Hx. by rewrite bool_decide_false in Hx by by apply Hj. }
  destruct e as [w' c|w' buf|w'|w'|j c]; cbn [hevent_run takes_over upload_of].
  - unfold onHttp. rewrite gets_bind, modify_bind. pose proof (add_request_serves c _ _ _ _ _ Hs) as Hs'. destruct (hasBody (ws_headers c)); cbn [andb].
    + exists r. split; [|by destruct active]. destruct Hs' as [Hr' Ha' Ho']. split; cbn; [done| |].
      * rewrite andb_true_r. case_bool_decide as E; cbn; [subst w'; rewrite lookup_insert_eq, andb_false_r; split; [intros [= E]; lia|done]|by rewrite lookup_insert_ne, andb_true_r].
      * intros w0. rewrite lookup_insert_Some. intros [[_ E]|[_ E]]; [lia|by apply Ho].
    + exists r. rewrite andb_false_r. cbn [negb]. rewrite andb_true_r. split; [|by destruct active].
      pose proof (on_request_serves (length (hv_arena h)) closeBody _ _ _ _ _ Hs') as Hx. by rewrite bool_decide_false in Hx by lia.
  - cbn [negb]. rewrite andb_true_r. unfold onHttpBody. rewrite gets_bind. destruct (hv_requests h !! w') as [j|] eqn:E; [destruct (decide (j = i)) as [->|Hne]|].
    + destruct (Hto w' (appendBody buf) E) as (Hw & -> & Hx). eexists. split; [exact Hx|]. rewrite Hw. destruct buf as [[|b buf]|]; [by split| |by split].
      cbn [appendBody]. rewrite sink_write_eq. by split.
    + destruct (Hnot w' (appendBody buf)) as [Hw Hx]; [congruence|]. rewrite E in Hx. exists r. split; [done|]. destruct active; [rewrite Hw; by destruct buf as [[|b buf]|]|done].
    + destruct (Hnot w' (appendBody buf)) as [Hw Hx]; [congruence|]. exists r. split; [done|]. destruct active; [rewrite Hw; by destruct buf as [[|b buf]|]|done].
  - cbn [negb]. rewrite andb_true_r. unfold onHttpBodyCompletion. rewrite gets_bind. destruct (hv_requests h !! w') as [j|] eqn:E; [destruct (decide (j = i)) as [->|Hne]|].
    + destruct (Hto w' closeBody E) as (Hw & -> & Hx). eexists. split; [exact Hx|]. rewrite Hw. unfold closeBody. rewrite sink_event_eq. by split.
    + destruct (Hnot w' closeBody) as [Hw Hx]; [congruence|]. rewrite E in Hx. exists r. split; [done|]. destruct active; [by rewrite Hw|done].
    + destruct (Hnot w' closeBody) as [Hw Hx]; [congruence|]. exists r. split; [done|]. destruct active; [by rewrite Hw|done].
  - exists r. split; [|by destruct active]. split; cbn; [done| |].
    + case_bool_decide as E; cbn; [subst w'; rewrite lookup_delete_eq, andb_false_r; by split|by rewrite lookup_delete_ne, andb_true_r].
    + intros w0. rewrite lookup_delete_Some. intros [_ E]. by apply Ho.
  - cbn [negb]. rewrite andb_true_r. pose proof (on_request_serves j (sink_event c) h w i active r Hs) as Hx. eexists. split; [exact Hx|].
    assert ((if active then None else None) = None :> option upload) as -> by by destruct active. rewrite sink_event_eq. by case_bool_decide.
Qed.

Lemma run_serves es : forall h w i active r, serves h w i active r -> exists r' active',
  serves (hserver_run es h) w i active' r' /\
  sq_stream r' = foldl fed_step (sq_stream r) (feeds w i active (length (sq_data r)) es) /\
  sq_data r' = sq_data r ++ chunks (if active then own w es else []).
Proof.
  induction es as [|e es IH]; intros h w i active r Hs.
  - exists r, active. split; [done|]. split; [done|]. by destruct active; rewrite app_nil_r.
  - destruct (hevent_serves e h w i active r Hs) as (r1 & Hs1 & He). change (hserver_run (e :: es) h) with (hserver_run es (hevent_run e h).2).
    destruct (IH _ _ _ _ _ Hs1) as (r2 & a2 & Hs2 & E1 & E2). exists r2, a2. split; [done|]. rewrite E1, E2. clear E1 E2 Hs2 Hs1 Hs IH. cbn [feeds own].
    destruct (takes_over w e) eqn:Et.
    + assert (Hu : upload_of w e = None) by by destruct e. rewrite Hu in He. rewrite andb_false_r. assert ((if active then None else None) = None :> option upload) as Hn by by destruct active. rewrite Hn in He.
      destruct e; try done; destruct He as [-> ->]; (split; [done|]); by destruct active.
    + cbn [negb] in *. rewrite andb_true_r in *. destruct active.
      * destruct (upload_of w e) as [[buf|]|] eqn:Eu; cbn [option_list app].
        -- destruct He as [-> ->]. destruct e; try done; rewrite length_app, Nat.add_1_r; (split; [done|]); unfold chunks; cbn; by rewrite <-app_assoc.
        -- destruct He as [-> ->]. destruct e; done.
        -- destruct e; try (destruct He as [-> ->]; done). destruct He as [-> ->]. case_bool_decide; done.
      * destruct e; try (destruct He as [-> ->]; done). destruct He as [-> ->]. case_bool_decide; done.
Qed.

(** What the stream is fed, without the stream. *)
Lemma inactive_source w i n src es : foldl source_step src (feeds w i false n es) = src.
Proof.
  revert n src. induction es as [|e es IH]; intros n src; [done|]. cbn [feeds]. destruct e as [w' c|w' buf|w'|w'|j c]; try (destruct (takes_over _ _); apply IH).
  rewrite foldl_app. case_bool_decide; apply IH.
Qed.

Lemma complete_source w i l active n es : foldl source_step (Source l true false) (feeds w i active n es) = Source l true false.
Proof.
  revert active n. induction es as [|e es IH]; intros active n; [done|]. cbn [feeds].
  destruct e as [w' c|w' buf|w'|w'|j c]; try (destruct (takes_over _ _); [apply IH|]; destruct (if active then _ else _) as [[]|]; apply IH).
  rewrite foldl_app. case_bool_decide; apply IH.
Qed.

Lemma active_source w i es : forall n, foldl source_step (Source (numbers n) false false) (feeds w i true n es) =
  let '(bufs, fin) := uploaded (own w es) in Source (numbers (n + length bufs)) fin false.
Proof.
  induction es as [|e es IH]; intros n; cbn [feeds own]; [cbn; by rewrite Nat.add_0_r|].
  assert (Hmain : foldl source_step (Source (numbers n) false false) (match upload_of w e with Some (Chunk _) => Feed (CtlEnqueue (Z.of_nat n)) :: feeds w i true (S n) es | Some Complete => Feed CtlClose :: feeds w i true n es | None => feeds w i true n es end) =
    let '(bufs, fin) := uploaded (option_list (upload_of w e) ++ own w es) in Source (numbers (n + length bufs)) fin false).
  { destruct (upload_of w e) as [[buf|]|]; cbn [option_list app uploaded foldl source_step so_closed so_chunks so_failed].
    - change (option_list (Some (Chunk buf)) ++ own w es) with (Chunk buf :: own w es). cbn [uploaded]. rewrite <-numbers_S, IH. destruct (uploaded (own w es)) as [bufs fin]. cbn [length]. by rewrite Nat.add_succ_comm.
    - rewrite complete_source. change (option_list (Some Complete) ++ own w es) with (Complete :: own w es). cbn [uploaded length]. by rewrite Nat.add_0_r.
    - apply IH. }
  destruct e as [w' c|w' buf|w'|w'|j c]; try (destruct (takes_over w _); [rewrite inactive_source; cbn; by rewrite Nat.add_0_r|exact Hmain]).
  cbn [takes_over upload_of option_list app]. rewrite foldl_app. case_bool_decide; apply IH.
Qed.

Lemma uploaded_chunks l : (uploaded l).1 `prefix_of` chunks l.
Proof.
  induction l as [|[buf|] l IH]; [done| |apply prefix_nil]. cbn. destruct (uploaded l) as [bufs fin]. cbn in *. by apply prefix_cons.
Qed.

Lemma feeds_consumed w i c es : forall active n, Consumed c ∈ feeds w i active n es -> ConsumeBody i c ∈ es.
Proof.
  induction es as [|e es IH]; intros active n; cbn [feeds]; [by intros ?%elem_of_nil|]. rewrite elem_of_cons.
  destruct e as [w' x|w' buf|w'|w'|j x]; try (intros Hin; right; destruct (takes_over _ _); [by eapply IH|]; destruct (if active then _ else _) as [[]|];
    [apply elem_of_cons in Hin as [?|Hin]; [done|]|apply elem_of_cons in Hin as [?|Hin]; [done|]|]; by eapply IH).
  intros [Hin|Hin]%elem_of_app; [|right; by eapply IH]. case_bool_decide as E; [|by apply elem_of_nil in Hin].
  apply list_elem_of_singleton in Hin as [= ->]. subst j. by left.
Qed.

Lemma feeds_no_error w i op es : forall active n, Feed op ∈ feeds w i active n es -> match op with CtlError _ => False | _ => True end.
Proof.
  induction es as [|e es IH]; intros active n; cbn [feeds]; [by intros ?%elem_of_nil|].
  destruct e as [w' x|w' buf|w'|w'|j x]; try (destruct (takes_over _ _); [by apply IH|]; destruct (if active then _ else _) as [[]|]; [rewrite elem_of_cons; intros [[= ->]|Hin]; [done|by eapply IH]..|by apply IH]).
  intros [Hin|Hin]%elem_of_app; [|by eapply IH]. case_bool_decide; [by apply list_elem_of_singleton in Hin|by apply elem_of_nil in Hin].
Qed.

Lemma no_error_unbroken es : (forall op, Feed op ∈ es -> match op with CtlError _ => False | _ => True end) -> unbroken es.
Proof.
  intros He pre op post E. assert (Hpre : forall op, Feed op ∈ pre -> match op with CtlError _ => False | _ => True end) by (intros o Ho; apply He; rewrite E; apply elem_of_app; by left).
  clear E He. induction pre as [|e pre IH] using rev_ind; [done|]. unfold source_of in *. rewrite foldl_app. cbn [foldl].
  assert (IH' : so_failed (foldl source_step (Source [] false false) pre) = false) by (apply IH; intros o Ho; apply Hpre, elem_of_app; by left).
  specialize (Hpre). destruct e as [[x| |x]|x]; cbn; try done; [by destruct (so_closed _)|]. exfalso. by apply (Hpre (CtlError x)), elem_of_app; right; apply list_elem_of_singleton.
Qed.

Lemma omap_prefix {A} (body data : list A) (p q : list Z) : body `prefix_of` data -> p ++ q = numbers (length body) ->
  omap (fun c => data !! Z.to_nat c) p = take (length p) body.
Proof.
  intros Hpre E. rewrite <-(omap_numbers body p q E). assert (Hin : forall c, c ∈ p -> (Z.to_nat c < length body)%nat).
  { intros c Hc. assert (Hc' : c ∈ numbers (length body)) by (rewrite <-E; apply elem_of_app; by left). unfold numbers in Hc'.
    apply list_elem_of_fmap in Hc' as (k & -> & Hk). apply elem_of_seq in Hk. lia. }
  clear E q. induction p as [|c p IH]; [done|]. cbn. rewrite IH by (intros c' Hc'; apply Hin; by apply list_elem_of_further).
  assert (Hc : (Z.to_nat c < length body)%nat) by (apply Hin, list_elem_of_here). destruct (lookup_lt_is_Some_2 body _ Hc) as [x Hx].
  by rewrite Hx, (prefix_lookup_Some _ _ _ _ Hx Hpre).
Qed.

Definition is_request (e : hevent) : bool := match e with OnHttp _ _ => true | _ => false end.

(** Requests are numbered as they come. *)
Lemma arena_grows es : length (hv_arena (hserver_run es new_HttpProtocol)) = length (List.filter is_request es) /\
  forall w i, hv_requests (hserver_run es new_HttpProtocol) !! w = Some i -> (i < length (hv_arena (hserver_run es new_HttpProtocol)))%nat.
Proof.
  assert (Hon : forall i m h, length (hv_arena (on_request i m h).2) = length (hv_arena h) /\ hv_requests (on_request i m h).2 = hv_requests h).
  { intros i m h. unfold on_request. destruct (_ !! i); [|done]. destruct (m _). cbn. by rewrite length_insert. }
  unfold hserver_run. induction es as [|e es [IH1 IH2]] using rev_ind; [done|]. rewrite foldl_app, List.filter_app, length_app. cbn [foldl].
  set (h := foldl _ _ es) in *. assert (Hquiet : forall h', length (hv_arena h') = length (hv_arena h) /\ hv_requests h' = hv_requests h -> is_request e = false ->
    length (hv_arena h') = (length (List.filter is_request es) + length (List.filter is_request [e]))%nat /\ forall w i, hv_requests h' !! w = Some i -> (i < length (hv_arena h'))%nat).
  { intros h' [E1 E2] E. rewrite E1, E2. cbn. rewrite E. cbn. split; [lia|done]. }
  destruct e as [w c|w buf|w|w|i c]; cbn [hevent_run].
  - unfold onHttp. rewrite gets_bind, modify_bind. cbn. destruct (hasBody (ws_headers c)); cbn.
    + rewrite length_app. cbn. split; [lia|]. intros w' i. rewrite lookup_insert_Some. intros [[_ <-]|[_ E]]; [lia|]. specialize (IH2 _ _ E). lia.
    + destruct (Hon (length (hv_arena h)) closeBody (add_request c h)) as [E1 E2]. rewrite E1, E2. cbn. rewrite length_app. cbn. split; [lia|]. intros w' i E. specialize (IH2 _ _ E). lia.
  - apply Hquiet; [|done]. unfold onHttpBody. rewrite gets_bind. destruct (_ !! w); [apply Hon|done].
  - apply Hquiet; [|done]. unfold onHttpBodyCompletion. rewrite gets_bind. destruct (_ !! w); [apply Hon|done].
  - cbn. rewrite Nat.add_0_r. split; [done|]. intros w' i. rewrite lookup_delete_Some. intros [_ E]. by eapply IH2.
  - apply Hquiet; [|done]. apply Hon.
Qed.

(** C36: However the requests of many connections follow and interleave, as
    long as its own consumer does not cancel, what the body of a request
    delivers is what its own connection sent after its
    head, in order and from the start, until the connection closes or a
    request with a body takes it over; its end is read only after all of it
    once the body is complete, and then no read waits; a request without
    body ends at once. *)
Theorem request_body_intact pre w c post : let es := pre ++ OnHttp w c :: post in
  let i := length (List.filter is_request pre) in
  (forall e, ConsumeBody i e ∈ post -> gentle e) ->
  let '(body, fin) := if hasBody (ws_headers c) then uploaded (own w post) else ([], true) in
  exists r, hv_arena (hserver_run es new_HttpProtocol) !! i = Some r /\
    let reads := rs_reads (sq_stream r) in
    let got := omap (fun n => sq_data r !! Z.to_nat n) (delivered reads) in
    got `prefix_of` body /\ (ReadDone ∈ reads -> got = body /\ fin = true) /\ (fin = true -> ReadPending ∉ reads).
Proof.
  intros es i Hg. subst es. destruct (arena_grows pre) as [Hlen Hreq]. set (h := hserver_run pre new_HttpProtocol) in *.
  assert (Erun : hserver_run (pre ++ OnHttp w c :: post) new_HttpProtocol = hserver_run post (hevent_run (OnHttp w c) h).2) by (unfold hserver_run, h; by rewrite foldl_app).
  rewrite Erun. clear Erun. set (hb := hasBody (ws_headers c)).
  assert (Hs : serves (hevent_run (OnHttp w c) h).2 w i hb (if hb then new_request c else (closeBody (new_request c)).2)).
  { assert (Hnew : hv_arena (add_request c h) !! i = Some (new_request c)) by (cbn; unfold i; rewrite <-Hlen; by rewrite lookup_app_r, Nat.sub_diag by done).
    assert (Hno : forall w', hv_requests h !! w' <> Some i) by (intros w' E%Hreq; unfold i in E; lia).
    cbn [hevent_run]. unfold onHttp. rewrite gets_bind, modify_bind, Hlen. fold i hb. destruct hb.
    - split; cbn; [exact Hnew|by rewrite lookup_insert_eq|]. intros w'. rewrite lookup_insert_Some. intros [[? _]|[_ E]]; [done|by apply Hno in E].
    - unfold on_request. rewrite Hnew. destruct (closeBody (new_request c)) as [o r'] eqn:E. split; cbn; [|split; [intros E'; by apply Hno in E'|done]|intros w' E'; by apply Hno in E'].
      rewrite list_lookup_insert_eq; [done|]. unfold i. rewrite length_app, Hlen. cbn. lia. }
  destruct (run_serves post _ _ _ _ _ Hs) as (r & a & [Hr _ _] & Est & Edata).
  set (feed0 := Consumed EvGetReader :: (if hb then [] else [Feed CtlClose])).
  assert (Efed : sq_stream r = fed_run (feed0 ++ feeds w i hb 0 post)).
  { rewrite Est. unfold fed_run, feed0. rewrite foldl_app. destruct hb; [reflexivity|]. unfold closeBody. rewrite sink_event_eq.
    cbn [foldl fed_step sq_stream new_request]. reflexivity. }
  assert (Esrc : source_of (feed0 ++ feeds w i hb 0 post) = let '(body, fin) := if hb then uploaded (own w post) else ([], true) in Source (numbers (length body)) fin false).
  { unfold source_of, feed0. rewrite foldl_app. destruct hb; cbn [foldl source_step so_chunks so_closed so_failed].
    - change ([] : list Z) with (numbers 0). rewrite active_source. by destruct (uploaded (own w post)).
    - apply complete_source. }
  destruct (fed_stream_intact (feed0 ++ feeds w i hb 0 post)) as ([rest Hpre] & Hdone & Hpend).
  { intros e [He|He]%elem_of_app; [|by eapply Hg, feeds_consumed]. unfold feed0 in He. apply elem_of_cons in He as [[= ->]|He]; [done|].
    destruct hb; [by apply elem_of_nil in He|by apply list_elem_of_singleton in He]. }
  { apply no_error_unbroken. intros op [He|He]%elem_of_app; [|by eapply feeds_no_error]. unfold feed0 in He. apply elem_of_cons in He as [?|He]; [done|].
    destruct hb; [by apply elem_of_nil in He|by apply list_elem_of_singleton in He as [= ->]]. }
  rewrite Esrc, <-Efed in *. clear Esrc Efed Est Hs.
  assert (Hbody : (if hb then uploaded (own w post) else ([], true)).1 `prefix_of` sq_data r).
  { rewrite Edata. destruct hb; [|apply prefix_nil]. assert (Hd : sq_data (new_request c) = []) by done. rewrite Hd. apply uploaded_chunks. }
  destruct (if hb then uploaded (own w post) else ([], true)) as [body fin]. cbn [fst so_chunks so_closed so_failed] in *. exists r. split; [done|]. cbv zeta.
  rewrite (omap_prefix body (sq_data r) _ _ Hbody (eq_sym Hpre)). split; [|split].
  - rewrite <-(take_drop (length (delivered (rs_reads (sq_stream r)))) body) at 2. by eexists.
  - intros [Hall Hc]%Hdone. split; [|done]. rewrite Hall. unfold numbers. rewrite length_fmap, length_seq. apply firstn_all.
  - intros Hf. by apply Hpend.
Qed.
End Props.

(* ------------------------------------------------------------------ *)
(** ** Two connections *)

#[local] Instance server_upper : UpperTables := {| upper_nonascii := fun s => s |}.
Definition demo_head (length : string) : wsi := Wsi (Some (js "POST")) (Some (js "/")) [(js "content-length", js length)].
Definition demo_post : list hevent :=
  [OnHttp 2 (demo_head "1"); OnHttpBody 1 (Some [10; 11]); OnHttpBody 2 (Some [20]); ConsumeBody 1 (EvRead 0); ConsumeBody 1 (EvSettled 0 None);
   OnHttpBody 1 (Some [12]); ConsumeBody 1 (EvRead 0); OnHttpBodyCompletion 1; ConsumeBody 1 (EvRead 0); OnHttp 1 (demo_head "0"); OnHttpBodyCompletion 2; OnHttp 1 (demo_head "2");
   OnHttpBody 1 (Some [13; 14])].

Lemma request_body_intact_witness : exists r, hv_arena (hserver_run ([OnHttp 3 (demo_head "0")] ++ OnHttp 1 (demo_head "3") :: demo_post) new_HttpProtocol) !! 1%nat = Some r /\
  omap (fun n => sq_data r !! Z.to_nat n) (delivered (rs_reads (sq_stream r))) = [[10; 11]; [12]].
Proof.
  assert (Hg : forall e, ConsumeBody 1 e ∈ demo_post -> gentle e).
  { assert (Hall : Forall (fun e => match e with ConsumeBody 1%nat c => gentle c | _ => True end) demo_post) by repeat constructor.
    intros c Hin. by apply (proj1 (Forall_forall _ _) Hall (ConsumeBody 1 c)). }
  pose proof (request_body_intact [OnHttp 3 (demo_head "0")] 1 (demo_head "3") demo_post Hg) as Hx.
  assert (E : (if hasBody (ws_headers (demo_head "3")) then uploaded (own 1 demo_post) else ([], true)) = ([[10; 11]; [12]], true)) by (vm_compute; reflexivity).
  rewrite E in Hx. destruct Hx as (r & Hr & _ & Hd & _). exists r. split; [exact Hr|]. apply Hd.
  revert Hr. vm_compute. intros [= <-]. cbn. right. right. left.
Defined.

(** When the connection is lost before the body is complete its readers wait for ever. *)
Example lost_upload_hangs :
  let h := hserver_run [OnHttp 1 (demo_head "2"); OnHttpBody 1 (Some [10]); ConsumeBody 0 (EvRead 0); ConsumeBody 0 (EvRead 0); OnClosedHttp 1] new_HttpProtocol in
  (fun r => (rs_state (sq_stream r), rs_reads (sq_stream r))) <$> hv_arena h !! 0%nat = Some (Readable, [ReadChunk 0; ReadPending]).
Proof. by vm_compute. Qed.
