(* ===== verification/Topics.v ===== *)
(** * Server-side web sockets: topics and corks

    [TopicRegistry] of [lib/websocket.js] and the sockets that
    [WebSocket.protocol] makes for accepted connections, with
    [socket.subscribe], [publish] and [cork].  Sockets are numbered as they
    are accepted; a [Set] is the list of its elements in the order they were
    added.  A cork replaces [socket.send] by a function that fills its queue,
    and remembers the one it found: [sender] says which function it is.

    [write] of a connection that the native side has freed throws; that it
    is freed is an event.  The [drain] event is left out. *)

From S2P Require Import Prelude JsString StreamBase.
Open Scope Z_scope.

Abbreviation topic := jsstr (only parsing).

(* ------------------------------------------------------------------ *)
(** ** [Set] *)

Section JsSet.
Context {A : Type} `{EqDecision A}.
Definition set_add (x : A) (l : list A) : list A := if bool_decide (x ∈ l) then l else l ++ [x].
Definition set_delete (x : A) (l : list A) : list A := filter (fun y => y <> x) l.
End JsSet.

(* ------------------------------------------------------------------ *)
(** ** The registry *)

Record registry := Registry { tr_topics : gmap topic (list nat); tr_subscriptions : gmap nat (list topic) }.

Definition new_TopicRegistry : registry := Registry ∅ ∅.

Definition subscribers (t : topic) (r : registry) : list nat := default [] (tr_topics r !! t).

Definition subscribe (ws : nat) (t : topic) (r : registry) : registry :=
  let subs := default [] (tr_topics r !! t) in
  let topics := default [] (tr_subscriptions r !! ws) in
  Registry (<[t := set_add ws subs]> (tr_topics r)) (<[ws := set_add t topics]> (tr_subscriptions r)).

Definition unsubscribe (ws : nat) (t : topic) (r : registry) : registry :=
  Registry (alter (set_delete ws) t (tr_topics r)) (alter (set_delete t) ws (tr_subscriptions r)).

Definition isSubscribed (ws : nat) (t : topic) (r : registry) : bool :=
  match tr_topics r !! t with Some subs => bool_decide (ws ∈ subs) | None => false end.

Definition subscriberCount (t : topic) (r : registry) : nat :=
  match tr_topics r !! t with Some subs => length subs | None => 0 end.

Definition getSubscriptions (ws : nat) (r : registry) : list topic :=
  match tr_subscriptions r !! ws with Some topics => topics | None => [] end.

Definition cleanup (ws : nat) (r : registry) : registry :=
  match tr_subscriptions r !! ws with
  | None => r
  | Some topics => Registry (foldl (fun m t => alter (set_delete ws) t m) (tr_topics r) topics) (delete ws (tr_subscriptions r))
  end.

(* ------------------------------------------------------------------ *)
(** ** Sockets *)

Inductive message := Text (s : jsstr) | Binary (data : bytes).
Inductive ready := OPEN | CLOSED.

#[export] Instance message_eq_dec : EqDecision message.
Proof. solve_decision. Defined.

(** [socket.send]: the method of the class, or one that fills the queue of a cork. *)
Inductive sender := NativeSend | QueueInto (k : nat).
Record cork := Cork { ck_queue : list message; ck_original : sender }.

(** [so_written] is history: what [wsi.write] was given. *)
Record socket := Socket { so_wsi : nat; so_alive : bool; so_readyState : ready; so_send : sender; so_corks : list cork;
  so_written : list message; so_closed : list (option (Z * jsstr)) }.

Definition set_so_alive v (s : socket) : socket := Socket (so_wsi s) v (so_readyState s) (so_send s) (so_corks s) (so_written s) (so_closed s).
Definition set_so_readyState v (s : socket) : socket := Socket (so_wsi s) (so_alive s) v (so_send s) (so_corks s) (so_written s) (so_closed s).
Definition set_so_send v (s : socket) : socket := Socket (so_wsi s) (so_alive s) (so_readyState s) v (so_corks s) (so_written s) (so_closed s).
Definition set_so_corks v (s : socket) : socket := Socket (so_wsi s) (so_alive s) (so_readyState s) (so_send s) v (so_written s) (so_closed s).
Definition set_so_written v (s : socket) : socket := Socket (so_wsi s) (so_alive s) (so_readyState s) (so_send s) (so_corks s) v (so_closed s).
Definition set_so_closed v (s : socket) : socket := Socket (so_wsi s) (so_alive s) (so_readyState s) (so_send s) (so_corks s) (so_written s) v.

(** [WebSocket.#accept(wsi)] *)
Definition accept (w : nat) : socket := Socket w true OPEN NativeSend [] [] [].

Abbreviation WM A := (SM socket A).

Definition push_cork (m : message) (c : cork) : cork := Cork (ck_queue c ++ [m]) (ck_original c).

Definition not_connected : string := "write: s->wsi == NULL".

Definition send (m : message) : WM unit :=
  s ← gets id;
  match so_send s with
  | NativeSend => if so_alive s then modify (set_so_written (so_written s ++ [m])) else throw ErrError not_connected
  | QueueInto k => modify (set_so_corks (alter (push_cork m) k (so_corks s)))
  end.

(** [socket.cork(callback)] up to the call of [callback] *)
Definition cork_begin : WM nat :=
  s ← gets id;
  modify (set_so_corks (so_corks s ++ [Cork [] (so_send s)])) ;;
  modify (set_so_send (QueueInto (length (so_corks s)))) ;;
  mret (length (so_corks s)).

Fixpoint send_all (l : list message) : WM unit :=
  match l with
  | [] => mret tt
  | m :: l => send m ;; send_all l
  end.

(** How the callback ended: it returned (or its promise was fulfilled), it
    threw, or its promise was rejected. *)
Inductive cork_outcome := Returned | Fulfilled | Threw | Rejected.

Definition cork_end (k : nat) (o : cork_outcome) : WM unit :=
  s ← gets id;
  match so_corks s !! k with
  | None => mret tt
  | Some c =>
    let flush := modify (set_so_send (ck_original c)) ;; send_all (ck_queue c) in
    match o with
    | Returned => flush
    | Fulfilled => fun s => match flush s with (Throw e msg, s) => (Throw e msg, set_so_send (ck_original c) s) | r => r end
    | Threw => mret tt
    | Rejected => modify (set_so_send (ck_original c))
    end
  end.

(* ------------------------------------------------------------------ *)
(** ** The protocol *)

Record wsserver := WsServer { sv_sockets : gmap nat nat; sv_topics : registry; sv_arena : list socket }.

Definition new_wsserver : wsserver := WsServer ∅ new_TopicRegistry [].

Abbreviation VM A := (SM wsserver A).

Definition set_arena v (h : wsserver) : wsserver := WsServer (sv_sockets h) (sv_topics h) v.
Definition set_topics v (h : wsserver) : wsserver := WsServer (sv_sockets h) v (sv_arena h).
Definition no_socket : string := "not a function".
Definition on_socket {A} (i : nat) (m : WM A) : VM A := fun h =>
  match sv_arena h !! i with
  | Some s => let '(o, s') := m s in (o, set_arena (<[i := s']> (sv_arena h)) h)
  | None => (Throw ErrTypeError no_socket, h)
  end.

Section Server.
(** The native codec. *)
Variable encode : jsstr -> bytes.

Definition messageByteLength (m : message) : nat :=
  match m with Text s => length (encode s) | Binary data => length data end.

Fixpoint publish_to (subs : list nat) (m : message) (exclude : option nat) (sent : nat) : VM nat :=
  match subs with
  | [] => mret sent
  | ws :: subs =>
    if bool_decide (Some ws = exclude) then publish_to subs m exclude sent
    else on_socket ws (send m) ;; publish_to subs m exclude (sent + messageByteLength m)
  end.

Definition publish (t : topic) (m : message) (exclude : option nat) : VM nat :=
  r ← gets sv_topics;
  match tr_topics r !! t with
  | None => mret 0%nat
  | Some subs => if bool_decide (length subs = 0%nat) then mret 0%nat else publish_to subs m exclude 0
  end.

(** [open] up to the call of [callback], and [close] *)
Definition ws_open (w : nat) : VM unit := fun h =>
  (Ok tt, WsServer (<[w := length (sv_arena h)]> (sv_sockets h)) (sv_topics h) (sv_arena h ++ [accept w])).

Definition ws_close (w : nat) (info : option (Z * jsstr)) : VM unit :=
  m ← gets sv_sockets;
  match m !! w with
  | None => mret tt
  | Some i =>
    modify (fun h => set_topics (cleanup i (sv_topics h)) h) ;;
    on_socket i (modify (set_so_readyState CLOSED) ;; modify (fun s => set_so_closed (so_closed s ++ [info]) s))
  end.

(** Events: callbacks of the native side, and calls of the program. *)
Inductive wevent :=
| WsOpen (w : nat) | WsClose (w : nat) (info : option (Z * jsstr)) | WsFreed (i : nat)
| Subscribe (i : nat) (t : topic) | Unsubscribe (i : nat) (t : topic) | Publish (t : topic) (m : message) (by_ : option nat)
| Send (i : nat) (m : message) | CorkBegin (i : nat) | CorkEnd (i : nat) (k : nat) (o : cork_outcome).

Definition wevent_run (e : wevent) : VM unit :=
  match e with
  | WsOpen w => ws_open w
  | WsClose w info => ws_close w info
  | WsFreed i => on_socket i (modify (set_so_alive false))
  | Subscribe i t => modify (fun h => set_topics (subscribe i t (sv_topics h)) h)
  | Unsubscribe i t => modify (fun h => set_topics (unsubscribe i t (sv_topics h)) h)
  | Publish t m by_ => publish t m by_ ;; mret tt
  | Send i m => on_socket i (send m)
  | CorkBegin i => on_socket i cork_begin ;; mret tt
  | CorkEnd i k o => on_socket i (cork_end k o)
  end.

Definition wserver_run (es : list wevent) (h : wsserver) : wsserver := foldl (fun h e => (wevent_run e h).2) h es.
End Server.
