(* ===== verification/TopicsProps.v ===== *)
(** * What topics and corks promise

    The two maps of a [TopicRegistry] are views of one list of subscriptions
    ([registry_refines]), and [publish] hands a message once to each socket
    of that list up to the first that cannot send
    ([publish_reaches_subscribers]).  Corks that end in the
    reverse order of their beginning delay messages and keep their order
    ([cork_keeps_order]); those that do not can lose them. *)

From S2P Require Import Prelude JsString StreamBase Topics.
Open Scope Z_scope.

(* ------------------------------------------------------------------ *)
(** ** Sets and their views *)

Section Views.
Context {A B : Type} `{EqDecision A, EqDecision B}.

Lemma set_delete_idle (x : A) l : x ∉ l -> set_delete x l = l.
Proof. intros Hx. apply filter_Forall, Forall_forall. by intros y Hy ->. Qed.

Lemma set_delete_twice (x : A) l : set_delete x (set_delete x l) = set_delete x l.
Proof. apply set_delete_idle. unfold set_delete. rewrite list_elem_of_filter. by intros [? _]. Qed.

Lemma set_add_NoDup (x : A) l : NoDup l -> NoDup (set_add x l).
Proof.
  intros Hl. unfold set_add. case_bool_decide as Hx; [done|]. apply NoDup_app. split; [done|]. split; [|apply NoDup_singleton].
  by intros y Hy ->%list_elem_of_singleton.
Qed.

(** The first components of the pairs whose second is [b], in order, and the other way round. *)
Definition firsts (b : B) (P : list (A * B)) : list A := (filter (fun p => p.2 = b) P).*1.
Definition seconds (a : A) (P : list (A * B)) : list B := (filter (fun p => p.1 = a) P).*2.

Lemma firsts_elem a b P : a ∈ firsts b P <-> (a, b) ∈ P.
Proof.
  unfold firsts. rewrite list_elem_of_fmap. setoid_rewrite list_elem_of_filter. split.
  - by intros ([x y] & -> & <- & H).
  - intros H. by exists (a, b).
Qed.
Lemma seconds_elem a b P : b ∈ seconds a P <-> (a, b) ∈ P.
Proof.
  unfold seconds. rewrite list_elem_of_fmap. setoid_rewrite list_elem_of_filter. split.
  - by intros ([x y] & -> & <- & H).
  - intros H. by exists (a, b).
Qed.

Lemma firsts_add a b b' P : firsts b' (set_add (a, b) P) = if bool_decide (b = b') then set_add a (firsts b' P) else firsts b' P.
Proof.
  unfold set_add at 1. case_bool_decide as Hin; case_bool_decide as Hb; try done.
  - subst b'. unfold set_add. by rewrite bool_decide_true by by apply firsts_elem.
  - subst b'. unfold set_add. rewrite bool_decide_false by by rewrite firsts_elem. unfold firsts. by rewrite filter_app, filter_cons_True, fmap_app.
  - unfold firsts. rewrite filter_app, filter_cons_False by done. by rewrite app_nil_r.
Qed.
Lemma seconds_add a a' b P : seconds a' (set_add (a, b) P) = if bool_decide (a = a') then set_add b (seconds a' P) else seconds a' P.
Proof.
  unfold set_add at 1. case_bool_decide as Hin; case_bool_decide as Hb; try done.
  - subst a'. unfold set_add. by rewrite bool_decide_true by by apply seconds_elem.
  - subst a'. unfold set_add. rewrite bool_decide_false by by rewrite seconds_elem. unfold seconds. by rewrite filter_app, filter_cons_True, fmap_app.
  - unfold seconds. rewrite filter_app, filter_cons_False by done. by rewrite app_nil_r.
Qed.

(** Pairs taken out. *)
Lemma firsts_filter b (X : A * B -> Prop) `{forall p, Decision (X p)} (Y : A -> Prop) `{forall a, Decision (Y a)} P :
  (forall a, X (a, b) <-> Y a) -> firsts b (filter X P) = filter Y (firsts b P).
Proof.
  intros HXY. unfold firsts. induction P as [|[x y] P IH]; [done|]. rewrite !filter_cons. cbn.
  destruct (decide (X (x, y))) as [Hx|Hx], (decide (y = b)) as [->|Hy]; cbn; rewrite ?filter_cons; cbn.
  - rewrite (decide_True (P:=Y x)) by by apply HXY. rewrite decide_True by done. cbn. by f_equal.
  - by rewrite decide_False.
  - rewrite (decide_False (P:=Y x)) by by rewrite <-HXY. done.
  - done.
Qed.
Lemma seconds_filter a (X : A * B -> Prop) `{forall p, Decision (X p)} (Y : B -> Prop) `{forall b, Decision (Y b)} P :
  (forall b, X (a, b) <-> Y b) -> seconds a (filter X P) = filter Y (seconds a P).
Proof.
  intros HXY. unfold seconds. induction P as [|[x y] P IH]; [done|]. rewrite !filter_cons. cbn.
  destruct (decide (X (x, y))) as [Hx|Hx], (decide (x = a)) as [->|Hy]; cbn; rewrite ?filter_cons; cbn.
  - rewrite (decide_True (P:=Y y)) by by apply HXY. rewrite decide_True by done. cbn. by f_equal.
  - by rewrite decide_False.
  - rewrite (decide_False (P:=Y y)) by by rewrite <-HXY. done.
  - done.
Qed.
End Views.

(* ------------------------------------------------------------------ *)
(** ** The registry is one list of subscriptions *)

Inductive reg_op := RSubscribe (ws : nat) (t : topic) | RUnsubscribe (ws : nat) (t : topic) | RCleanup (ws : nat).

Definition reg_step (r : registry) (op : reg_op) : registry :=
  match op with RSubscribe ws t => subscribe ws t r | RUnsubscribe ws t => unsubscribe ws t r | RCleanup ws => cleanup ws r end.

(** The specification: the pairs subscribed, oldest first. *)
Definition spec_step (P : list (nat * topic)) (op : reg_op) : list (nat * topic) :=
  match op with
  | RSubscribe ws t => set_add (ws, t) P
  | RUnsubscribe ws t => set_delete (ws, t) P
  | RCleanup ws => filter (fun p => p.1 <> ws) P
  end.

Record reg_repr (r : registry) (P : list (nat * topic)) : Prop := {
  rr_topics : forall t, subscribers t r = firsts t P;
  rr_sockets : forall ws, getSubscriptions ws r = seconds ws P;
}.

Lemma reg_repr_new : reg_repr new_TopicRegistry [].
Proof. split; intros x; [unfold subscribers|unfold getSubscriptions]; cbn; by rewrite lookup_empty. Qed.

Lemma cleanup_topics (ws : nat) (ts : list topic) : forall (m : gmap topic (list nat)) (t : topic), default [] (foldl (fun m t => alter (set_delete ws) t m) m ts !! t) =
  if bool_decide (t ∈ ts) then set_delete ws (default [] (m !! t)) else default [] (m !! t) :> list nat.
Proof.
  induction ts as [|t' ts IH]; intros m t; [done|]. cbn [foldl]. rewrite IH. destruct (decide (t' = t)) as [->|Hne].
  - rewrite lookup_alter_eq, (bool_decide_true (t ∈ t :: ts)) by apply list_elem_of_here. case_bool_decide; destruct (m !! t); cbn; try done. apply set_delete_twice.
  - rewrite lookup_alter_ne by done. rewrite (bool_decide_ext (t ∈ t' :: ts) (t ∈ ts)); [done|]. rewrite elem_of_cons. naive_solver.
Qed.

Lemma reg_step_repr r P op : reg_repr r P -> reg_repr (reg_step r op) (spec_step P op).
Proof.
  intros [Ht Hs]. unfold subscribers, getSubscriptions in *.
  assert (Hs' : forall ws, default [] (tr_subscriptions r !! ws) = seconds ws P) by (intros ws; rewrite <-Hs; by destruct (_ !! ws)).
  destruct op as [ws t|ws t|ws]; cbn [reg_step spec_step].
  - split; [intros t'|intros ws']; unfold subscribers, getSubscriptions, subscribe; cbn.
    + rewrite firsts_add. case_bool_decide as E; [subst t'; by rewrite lookup_insert_eq, Ht|by rewrite lookup_insert_ne, Ht].
    + rewrite seconds_add. case_bool_decide as E; [subst ws'; by rewrite lookup_insert_eq, Hs'|by rewrite lookup_insert_ne, Hs].
  - split; [intros t'|intros ws']; unfold subscribers, getSubscriptions, unsubscribe; cbn.
    + destruct (decide (t = t')) as [<-|Hne].
      * rewrite lookup_alter_eq. unfold set_delete at 2. rewrite (firsts_filter t _ (fun y => y <> ws)); [|naive_solver].
        rewrite <-Ht. unfold set_delete. by destruct (tr_topics r !! t).
      * rewrite lookup_alter_ne by done. unfold set_delete. rewrite (firsts_filter t' _ (fun y => True)); [|naive_solver].
        rewrite Ht. symmetry. apply filter_Forall, Forall_true. done.
    + destruct (decide (ws = ws')) as [<-|Hne].
      * rewrite lookup_alter_eq. unfold set_delete at 2. rewrite (seconds_filter ws _ (fun y => y <> t)); [|naive_solver].
        rewrite <-Hs. unfold set_delete. by destruct (tr_subscriptions r !! ws).
      * rewrite lookup_alter_ne by done. unfold set_delete. rewrite (seconds_filter ws' _ (fun y => True)); [|naive_solver].
        rewrite Hs. symmetry. apply filter_Forall, Forall_true. done.
  - assert (Hsp : forall t, firsts t (filter (fun p => p.1 <> ws) P) = set_delete ws (firsts t P)).
    { intros t. apply (firsts_filter t _ (fun y => y <> ws)). done. }
    assert (Hss : forall ws', seconds ws' (filter (fun p => p.1 <> ws) P) = if decide (ws = ws') then [] else seconds ws' P).
    { intros ws'. destruct (decide (ws = ws')) as [<-|Hne].
      - rewrite (seconds_filter ws _ (fun y => False)); [|naive_solver]. by induction (seconds ws P).
      - rewrite (seconds_filter ws' _ (fun y => True)); [|naive_solver]. apply filter_Forall, Forall_true. done. }
    unfold cleanup. destruct (tr_subscriptions r !! ws) as [ts|] eqn:E.
    + specialize (Hs ws) as Hw. rewrite E in Hw. split; [intros t|intros ws']; unfold subscribers, getSubscriptions; cbn.
      * rewrite cleanup_topics, Hsp, Ht. case_bool_decide as Hin; [done|]. symmetry. apply set_delete_idle. by rewrite firsts_elem, <-seconds_elem, <-Hw.
      * rewrite Hss. destruct (decide (ws = ws')) as [<-|Hne]; [by rewrite lookup_delete_eq|by rewrite lookup_delete_ne, Hs].
    + specialize (Hs ws) as Hw. rewrite E in Hw. split; [intros t|intros ws']; unfold subscribers, getSubscriptions.
      * rewrite Hsp, Ht. symmetry. apply set_delete_idle. rewrite firsts_elem, <-seconds_elem, <-Hw. apply not_elem_of_nil.
      * rewrite Hss. destruct (decide (ws = ws')) as [<-|Hne]; [by rewrite E|by rewrite Hs].
Qed.

(* ------------------------------------------------------------------ *)
(** ** Publishing *)

(** A socket whose [send] does not throw. *)
Definition can_send (s : socket) : bool := match so_send s with NativeSend => so_alive s | QueueInto _ => true end.

Lemma send_ok m s : can_send s = true -> (send m s).1 = Ok tt.
Proof. unfold send, can_send. rewrite gets_bind. unfold id. destruct (so_send s); [by intros ->|done]. Qed.

Lemma on_socket_same {A} i (m : SM socket A) h : let h' := (on_socket i m h).2 in
  sv_topics h' = sv_topics h /\ sv_sockets h' = sv_sockets h /\ length (sv_arena h') = length (sv_arena h).
Proof. cbv zeta. unfold on_socket. destruct (sv_arena h !! i); [|done]. destruct (m s). cbn. by rewrite length_insert. Qed.

Section Publish.
Variable encode : jsstr -> bytes.

(** The sockets of a list that [publish] comes to before one whose [send] throws. *)
Definition can_reach (a : list socket) (i : nat) : bool := match a !! i with Some s => can_send s | None => false end.
Fixpoint reached (a : list socket) (l : list nat) : list nat :=
  match l with
  | [] => []
  | i :: l => if can_reach a i then i :: reached a l else []
  end.

(** What [publish] answers: the bytes when all of [l] were reached, and
    otherwise what the [send] of the next one threw. *)
Definition published (a : list socket) (m : message) (l : list nat) (sent : nat) : outcome nat :=
  match l !! length (reached a l) with
  | None => Ok (sent + messageByteLength encode m * length l)%nat
  | Some i => match a !! i with Some _ => Throw ErrError not_connected | None => Throw ErrTypeError no_socket end
  end.

Lemma reached_all a l : (forall i, i ∈ l -> can_reach a i = true) -> reached a l = l.
Proof. induction l as [|i l IH]; intros H; [done|]. cbn. rewrite H by apply list_elem_of_here. f_equal. apply IH. intros j Hj. by apply H, list_elem_of_further. Qed.

Lemma reached_sub a l i : i ∈ reached a l -> i ∈ l.
Proof. induction l as [|j l IH]; [done|]. cbn. destruct (can_reach a j); [rewrite !elem_of_cons; naive_solver|by intros ?%not_elem_of_nil]. Qed.

Lemma reached_insert a ws s l : ws ∉ l -> reached (<[ws := s]> a) l = reached a l.
Proof.
  induction l as [|j l IH]; [done|]. intros [Hj Hl]%not_elem_of_cons. cbn. unfold can_reach. rewrite list_lookup_insert_ne by done. by rewrite (IH Hl).
Qed.

Lemma published_insert a ws s m l n : ws ∉ l -> published (<[ws := s]> a) m l n = published a m l n.
Proof.
  intros Hl. unfold published. rewrite reached_insert by done. destruct (l !! _) as [i|] eqn:E; [|done].
  apply list_elem_of_lookup_2 in E. by rewrite list_lookup_insert_ne by (by intros ->).
Qed.

Lemma published_cons a m i l n : can_reach a i = true -> published a m (i :: l) n = published a m l (n + messageByteLength encode m)%nat.
Proof. intros H. unfold published. cbn. rewrite H. cbn. destruct (l !! _); [done|]. f_equal. lia. Qed.

Lemma publish_to_spec m exclude subs : NoDup subs -> forall n h, let R := filter (fun i => Some i <> exclude) subs in
  exists a, publish_to encode subs m exclude n h = (published (sv_arena h) m R n, set_arena a h) /\
    forall i, a !! i = (fun s => if bool_decide (i ∈ reached (sv_arena h) R) then (send m s).2 else s) <$> sv_arena h !! i.
Proof.
  cbv zeta. induction 1 as [|ws subs Hws Hnd IH]; intros n h.
  { exists (sv_arena h). split; [cbn; unfold published; cbn; rewrite Nat.mul_0_r, Nat.add_0_r; by destruct h|]. intros i. by destruct (sv_arena h !! i). }
  cbn [publish_to]. rewrite filter_cons. destruct (decide (Some ws = exclude)) as [He|He].
  { rewrite bool_decide_true, decide_False by (done || by intros []). apply IH. }
  rewrite bool_decide_false, decide_True by done. set (R := filter _ subs) in *.
  assert (HR : ws ∉ R) by (unfold R; rewrite list_elem_of_filter; naive_solver).
  destruct (can_reach (sv_arena h) ws) eqn:Hc.
  - unfold can_reach in Hc. destruct (sv_arena h !! ws) as [s|] eqn:Es; [|done].
    set (h1 := set_arena (<[ws := (send m s).2]> (sv_arena h)) h).
    assert (E1 : on_socket ws (send m) h = (Ok tt, h1)).
    { unfold on_socket, h1. rewrite Es. pose proof (send_ok m s Hc) as Ho. destruct (send m s) as [o s']. cbn in Ho |- *. by rewrite Ho. }
    rewrite (bind_ok _ _ _ _ _ E1). assert (Hlt : (ws < length (sv_arena h))%nat) by by apply lookup_lt_Some in Es.
    destruct (IH (n + messageByteLength encode m)%nat h1) as (a & E & Ha). exists a. unfold h1 in E, Ha. cbn in E, Ha.
    rewrite published_insert in E by done. rewrite reached_insert in Ha by done.
    assert (Hr : can_reach (sv_arena h) ws = true) by (unfold can_reach; by rewrite Es).
    rewrite published_cons by done. split; [exact E|]. intros i. rewrite Ha. cbn [reached]. rewrite Hr.
    destruct (decide (i = ws)) as [->|Hne].
    + rewrite list_lookup_insert_eq, Es by done. cbn. rewrite bool_decide_false by (by intros ?%reached_sub).
      by rewrite bool_decide_true by apply list_elem_of_here.
    + rewrite list_lookup_insert_ne by done. destruct (sv_arena h !! i); [|done]. cbn. f_equal.
      by rewrite (bool_decide_ext (i ∈ ws :: _) (i ∈ reached (sv_arena h) R)) by (rewrite elem_of_cons; naive_solver).
  - exists (sv_arena h). unfold published. cbn [reached]. rewrite Hc. cbn. split; [|intros i; by destruct (sv_arena h !! i)].
    unfold mbind, sm_bind, on_socket. unfold can_reach in Hc. destruct (sv_arena h !! ws) as [s|] eqn:Es; [|by destruct h].
    unfold can_send in Hc. unfold send. rewrite gets_bind. unfold id. destruct (so_send s); [|done]. rewrite Hc. cbn.
    rewrite list_insert_id by done. by destruct h.
Qed.

(** The subscriptions that a run of the server leaves. *)
Record abstract := Abstract { ab_sockets : gmap nat nat; ab_next : nat; ab_subs : list (nat * topic) }.

Definition abstract_step (a : abstract) (e : wevent) : abstract :=
  match e with
  | WsOpen w => Abstract (<[w := ab_next a]> (ab_sockets a)) (S (ab_next a)) (ab_subs a)
  | WsClose w _ => match ab_sockets a !! w with
                   | Some i => Abstract (ab_sockets a) (ab_next a) (spec_step (ab_subs a) (RCleanup i))
                   | None => a
                   end
  | Subscribe i t => Abstract (ab_sockets a) (ab_next a) (spec_step (ab_subs a) (RSubscribe i t))
  | Unsubscribe i t => Abstract (ab_sockets a) (ab_next a) (spec_step (ab_subs a) (RUnsubscribe i t))
  | _ => a
  end.

Definition abstract_run (es : list wevent) : abstract := foldl abstract_step (Abstract ∅ 0 []) es.
Definition subscriptions (es : list wevent) : list (nat * topic) := ab_subs (abstract_run es).

Record server_repr (h : wsserver) (a : abstract) : Prop := {
  sr_sockets : sv_sockets h = ab_sockets a;
  sr_next : length (sv_arena h) = ab_next a;
  sr_topics : reg_repr (sv_topics h) (ab_subs a);
  sr_once : NoDup (ab_subs a);
}.

Lemma publish_to_same subs m ex : forall n h, let h' := (publish_to encode subs m ex n h).2 in
  sv_topics h' = sv_topics h /\ sv_sockets h' = sv_sockets h /\ length (sv_arena h') = length (sv_arena h).
Proof.
  induction subs as [|ws subs IH]; intros n h; [done|]. cbn [publish_to]. destruct (bool_decide _); [apply IH|].
  unfold mbind, sm_bind. pose proof (on_socket_same ws (send m) h) as (H1 & H2 & H3). destruct (on_socket ws (send m) h) as [[[]|c msg] h1]; [|done].
  destruct (IH (n + messageByteLength encode m)%nat h1) as (I1 & I2 & I3). cbn in *. rewrite I1, I2, I3. done.
Qed.

Lemma publish_same t m ex h : let h' := (publish encode t m ex h).2 in
  sv_topics h' = sv_topics h /\ sv_sockets h' = sv_sockets h /\ length (sv_arena h') = length (sv_arena h).
Proof. cbv zeta. unfold publish. rewrite gets_bind. destruct (_ !! t) as [subs|]; [|done]. destruct (bool_decide _); [done|]. apply publish_to_same. Qed.

Lemma spec_step_once P op : NoDup P -> NoDup (spec_step P op).
Proof. intros H. destruct op; cbn; [by apply set_add_NoDup|by apply NoDup_filter|by apply NoDup_filter]. Qed.

Lemma server_same h h' a : sv_topics h' = sv_topics h /\ sv_sockets h' = sv_sockets h /\ length (sv_arena h') = length (sv_arena h) ->
  server_repr h a -> server_repr h' a.
Proof. intros (E1 & E2 & E3) [H1 H2 H3 H4]. split; [congruence|congruence|by rewrite E1|done]. Qed.

Lemma wevent_repr e h a : server_repr h a -> server_repr (wevent_run encode e h).2 (abstract_step a e).
Proof.
  intros H. pose proof H as [H1 H2 H3 H4].
  destruct e as [w|w info|i|i t|i t|t m ex|i m|i|i k o]; cbn [wevent_run abstract_step].
  - split; cbn; [by rewrite H1, H2|rewrite length_app, H2; cbn; lia|done|done].
  - unfold ws_close. rewrite (gets_bind sv_sockets), H1. destruct (ab_sockets a !! w) as [i|]; [|done]. rewrite modify_bind.
    eapply server_same; [apply on_socket_same|]. split; [done|done|by apply (reg_step_repr _ _ (RCleanup i))|by apply (spec_step_once _ (RCleanup i))].
  - eapply server_same; [apply on_socket_same|done].
  - split; [done|done|by apply (reg_step_repr _ _ (RSubscribe i t))|by apply (spec_step_once _ (RSubscribe i t))].
  - split; [done|done|by apply (reg_step_repr _ _ (RUnsubscribe i t))|by apply (spec_step_once _ (RUnsubscribe i t))].
  - pose proof (publish_same t m ex h) as Hp. unfold mbind, sm_bind. eapply server_same; [|done]. by destruct (publish encode t m ex h) as [[n|c msg] h'].
  - eapply server_same; [apply on_socket_same|done].
  - pose proof (on_socket_same i cork_begin h) as Hp. unfold mbind, sm_bind. eapply server_same; [|done]. by destruct (on_socket i cork_begin h) as [[n|c msg] h'].
  - eapply server_same; [apply on_socket_same|done].
Qed.

Lemma wserver_repr es : server_repr (wserver_run encode es new_wsserver) (abstract_run es).
Proof.
  unfold wserver_run, abstract_run. induction es as [|e es IH] using rev_ind; [split; [done|done|apply reg_repr_new|constructor]|].
  rewrite !foldl_app. by apply wevent_repr.
Qed.

(** C32: After any use of a server's sockets, [subscribe], [unsubscribe] and
    the close of a socket add up to one list of subscriptions, which all
    queries answer from.  The sockets subscribed to a topic but the excluded
    one are the recipients of [publish], each once, in the order they
    subscribed.  It gives the message to those up to the first whose [send]
    throws and touches no other socket.  When none throws all of them get
    the message and the answer is the bytes; otherwise [publish] throws what
    that [send] threw, and neither it nor those behind it get anything. *)
Theorem publish_reaches_subscribers es t m exclude : let h := wserver_run encode es new_wsserver in
  let P := subscriptions es in
  let R := filter (fun i => Some i <> exclude) (firsts t P) in
  let got := reached (sv_arena h) R in
  (forall i, isSubscribed i t (sv_topics h) = bool_decide ((i, t) ∈ P)) /\
  subscriberCount t (sv_topics h) = length (firsts t P) /\
  (forall i, getSubscriptions i (sv_topics h) = seconds i P) /\
  (NoDup R /\ forall i, i ∈ R <-> (i, t) ∈ P /\ Some i <> exclude) /\
  exists h', publish encode t m exclude h = (published (sv_arena h) m R 0, h') /\
    sv_topics h' = sv_topics h /\ sv_sockets h' = sv_sockets h /\
    (forall i, sv_arena h' !! i = (fun s => if bool_decide (i ∈ got) then (send m s).2 else s) <$> sv_arena h !! i) /\
    (Forall (fun i => can_reach (sv_arena h) i = true) R ->
     got = R /\ published (sv_arena h) m R 0 = Ok (messageByteLength encode m * length R)%nat).
Proof.
  cbv zeta. destruct (wserver_repr es) as [_ _ [Ht Hs] Hnd]. fold (subscriptions es) in *. set (h := wserver_run encode es new_wsserver) in *. set (P := subscriptions es) in *.
  specialize (Ht t) as Htt. unfold subscribers in Htt.
  assert (Hnd' : NoDup (firsts t P)).
  { unfold firsts. apply NoDup_fmap_2_strong; [|by apply NoDup_filter]. intros [x y] [x' y']. rewrite !list_elem_of_filter. cbn. by intros [-> _] [-> _] ->. }
  split; [|split; [|split; [|split; [split|]]]].
  - intros i. rewrite (bool_decide_ext _ _ (iff_sym (firsts_elem i t P))), <-Htt. unfold isSubscribed. destruct (_ !! t); [done|]. cbn. by rewrite bool_decide_false by apply not_elem_of_nil.
  - rewrite <-Htt. unfold subscriberCount. by destruct (_ !! t).
  - apply Hs.
  - by apply NoDup_filter.
  - intros i. rewrite list_elem_of_filter, firsts_elem. naive_solver.
  - destruct (publish_to_spec m exclude (firsts t P) Hnd' 0 h) as (a & E & Ha). exists (set_arena a h).
    assert (Ep : publish encode t m exclude h = publish_to encode (firsts t P) m exclude 0 h).
    { unfold publish. rewrite gets_bind, <-Htt. destruct (_ !! t) as [subs|]; [|done]. cbn. destruct subs; done. }
    rewrite Ep, E. split; [done|]. split; [done|]. split; [done|]. split; [exact Ha|].
    intros Hall. rewrite Forall_forall in Hall. unfold published. rewrite (reached_all _ _ Hall). split; [done|].
    by rewrite lookup_ge_None_2 by lia.
Qed.
End Publish.

(* ------------------------------------------------------------------ *)
(** ** Corks *)

Inductive use := USend (m : message) | UBegin | UEnd (k : nat) (o : cork_outcome).

Definition use_run (e : use) : SM socket unit :=
  match e with USend m => send m | UBegin => cork_begin ;; mret tt | UEnd k o => cork_end k o end.

Definition uses_run (es : list use) (s : socket) : socket := foldl (fun s e => (use_run e s).2) s es.

(** The corks that are open, innermost first, while each ends in its turn
    and without an error; [n] corks were begun. *)
Fixpoint brackets (n : nat) (open : list nat) (es : list use) : option (list nat) :=
  match es with
  | [] => Some open
  | USend _ :: es => brackets n open es
  | UBegin :: es => brackets (S n) (n :: open) es
  | UEnd k o :: es =>
    match open, o with
    | k' :: open, (Returned | Fulfilled) => if bool_decide (k = k') then brackets n open es else None
    | _, _ => None
    end
  end.

Definition sends (es : list use) : list message := omap (fun e => match e with USend m => Some m | _ => None end) es.

(** The function in [socket.send] belongs to the innermost cork, and each
    cork remembers that of the next one. *)
Inductive chain (corks : list cork) : sender -> list nat -> Prop :=
| chain_native : chain corks NativeSend []
| chain_queue k c ks : corks !! k = Some c -> Forall (fun k' => k' < k)%nat ks -> chain corks (ck_original c) ks -> chain corks (QueueInto k) (k :: ks).

(** What waits in the open corks, outermost first. *)
Definition waiting (corks : list cork) (ks : list nat) : list message :=
  concat ((fun k => match corks !! k with Some c => ck_queue c | None => [] end) <$> reverse ks).

#[local] Arguments waiting : simpl never.

Lemma waiting_cons corks k ks c : corks !! k = Some c -> waiting corks (k :: ks) = waiting corks ks ++ ck_queue c.
Proof. intros E. unfold waiting. by rewrite reverse_cons, fmap_app, concat_app; cbn; rewrite E, app_nil_r. Qed.

Lemma waiting_ext corks corks' ks : Forall (fun k => corks !! k = corks' !! k) ks -> waiting corks ks = waiting corks' ks.
Proof.
  intros H. unfold waiting. f_equal. apply list_fmap_ext. intros i k Hk. apply list_elem_of_lookup_2 in Hk. rewrite elem_of_reverse in Hk.
  rewrite Forall_forall in H. by rewrite (H k Hk).
Qed.

Lemma chain_lt corks f ks : chain corks f ks -> Forall (fun k => k < length corks)%nat ks.
Proof. induction 1 as [|k c ks E _ _ IH]; constructor; [by apply lookup_lt_Some in E|done]. Qed.

Lemma chain_ext corks corks' f ks : chain corks f ks -> Forall (fun k => (ck_original <$> corks !! k) = (ck_original <$> corks' !! k)) ks -> chain corks' f ks.
Proof.
  induction 1 as [|k c ks E Hlt _ IH]; intros H; [constructor|]. inversion H as [|? ? Hk Hks]; subst. rewrite E in Hk. cbn in Hk.
  destruct (corks' !! k) as [c'|] eqn:E'; [|done]. injection Hk as Hk. apply (chain_queue corks' k c'); [done|done|]. rewrite <-Hk. by apply IH.
Qed.

Record corked (s : socket) (ks : list nat) (sent : list message) : Prop := {
  co_alive : so_alive s = true;
  co_chain : chain (so_corks s) (so_send s) ks;
  co_sent : so_written s ++ waiting (so_corks s) ks = sent;
}.

Lemma corked_send m s ks sent : corked s ks sent -> exists s', send m s = (Ok tt, s') /\ corked s' ks (sent ++ [m]) /\
  length (so_corks s') = length (so_corks s).
Proof.
  intros [Ha Hc Hs]. unfold send. rewrite gets_bind. unfold id. inversion Hc as [E Ek|k c ks' E Hlt Hc' Ek]; subst.
  - rewrite Ha. eexists. split; [done|]. split; [|done]. split; cbn; [done|by rewrite <-E; constructor|].
    unfold waiting. cbn. by rewrite !app_nil_r.
  - eexists. split; [done|]. split; [|by cbn; rewrite length_alter].
    assert (Hne : Forall (fun k' => k' <> k) ks') by (eapply Forall_impl; [done|]; intros; cbn in *; lia).
    split; cbn; [done| |].
    + rewrite <-Ek. apply (chain_queue _ k (push_cork m c)); [by rewrite list_lookup_alter_eq, E|done|].
      eapply chain_ext; [done|]. eapply Forall_impl; [done|]. intros k' Hk'. cbn in *. by rewrite list_lookup_alter_ne.
    + rewrite (waiting_cons _ k ks' (push_cork m c)) by (by rewrite list_lookup_alter_eq, E). rewrite (waiting_cons (so_corks s) k ks' c) by done. cbn.
      rewrite (waiting_ext (alter (push_cork m) k (so_corks s)) (so_corks s)); [by rewrite <-!app_assoc|].
      eapply Forall_impl; [done|]. intros k' Hk'. cbn in *. by rewrite list_lookup_alter_ne.
Qed.

Lemma corked_send_all l : forall s ks sent, corked s ks sent -> exists s', send_all l s = (Ok tt, s') /\ corked s' ks (sent ++ l) /\
  length (so_corks s') = length (so_corks s).
Proof.
  induction l as [|m l IH]; intros s ks sent H; [exists s; by rewrite app_nil_r|]. cbn [send_all].
  destruct (corked_send m s ks sent H) as (s1 & E & H1 & L1). rewrite (bind_ok _ _ _ _ _ E).
  destruct (IH s1 ks (sent ++ [m]) H1) as (s2 & E2 & H2 & L2). exists s2. rewrite <-app_assoc in H2. split; [done|]. split; [done|]. congruence.
Qed.

Lemma corked_begin s ks sent : corked s ks sent -> corked (cork_begin s).2 (length (so_corks s) :: ks) sent /\
  length (so_corks (cork_begin s).2) = S (length (so_corks s)).
Proof.
  intros [Ha Hc Hs]. unfold cork_begin. rewrite gets_bind, !modify_bind. unfold id. pose proof (chain_lt _ _ _ Hc) as Hlt.
  assert (Hsame : Forall (fun k => so_corks s !! k = (so_corks s ++ [Cork [] (so_send s)]) !! k) ks).
  { eapply Forall_impl; [done|]. intros k Hk. cbn in *. by rewrite lookup_app_l. }
  assert (Hnew : (so_corks s ++ [Cork [] (so_send s)]) !! length (so_corks s) = Some (Cork [] (so_send s))) by (rewrite lookup_app_r, Nat.sub_diag by lia; done).
  split; [|cbn; rewrite length_app; cbn; lia]. split; cbn; [done| |].
  - apply (chain_queue _ _ _ _ Hnew Hlt). eapply chain_ext; [done|]. eapply Forall_impl; [done|]. intros k Hk. cbn in *. by rewrite Hk.
  - rewrite (waiting_cons _ _ _ _ Hnew), <-(waiting_ext _ _ _ Hsame). cbn. by rewrite app_nil_r.
Qed.

Lemma corked_end k ks o s sent : corked s (k :: ks) sent -> o = Returned \/ o = Fulfilled ->
  corked (cork_end k o s).2 ks sent /\ length (so_corks (cork_end k o s).2) = length (so_corks s).
Proof.
  intros [Ha Hc Hs] Ho. inversion Hc as [|k' c ks' E Hlt Hc' Ek]; subst. set (s1 := set_so_send (ck_original c) s).
  assert (H1 : corked s1 ks (so_written s ++ waiting (so_corks s) ks)) by by split.
  destruct (corked_send_all (ck_queue c) s1 _ _ H1) as (s2 & E2 & H2 & L2).
  assert (Er : (cork_end k o s).2 = s2).
  { unfold cork_end. rewrite gets_bind. unfold id. rewrite E. destruct Ho as [-> | ->]; [by rewrite modify_bind; fold s1; rewrite E2|].
    unfold mbind, sm_bind, modify. fold s1. by rewrite E2. }
  rewrite Er. split; [|done]. by rewrite (waiting_cons _ k ks c E), app_assoc.
Qed.

(** Corks that end in the reverse order of their beginning, without an
    error, only delay: what has been written and what waits in the open
    corks are the messages sent, each once and in their order, and with no
    cork open all of them have been written. *)
Theorem cork_keeps_order es w ks : brackets 0 [] es = Some ks -> let s := uses_run es (accept w) in
  so_written s ++ waiting (so_corks s) ks = sends es /\ (ks = [] -> so_written s = sends es).
Proof.
  intros Hb. assert (H : forall es ks' s sent, corked s ks' sent -> brackets (length (so_corks s)) ks' es = Some ks ->
    corked (uses_run es s) ks (sent ++ sends es)).
  { clear. induction es as [|e es IH]; intros ks' s sent H Hb; [injection Hb as <-; by rewrite app_nil_r|].
    change (uses_run (e :: es) s) with (uses_run es (use_run e s).2). destruct e as [m| |k o]; cbn [brackets] in Hb; cbn [use_run].
    - destruct (corked_send m s ks' sent H) as (s' & E & H' & L). rewrite E. change (sends (USend m :: es)) with ([m] ++ sends es).
      rewrite app_assoc. apply (IH ks'); [done|]. cbn. by rewrite L.
    - destruct (corked_begin s ks' sent H) as [H' L]. unfold mbind at 1, sm_bind at 1.
      assert (E : cork_begin s = (Ok (length (so_corks s)), (cork_begin s).2)) by done. rewrite E. cbn [snd mret sm_ret]. apply (IH (length (so_corks s) :: ks')); [done|]. by rewrite L.
    - destruct ks' as [|k' ks']; [done|]. destruct (decide (k = k')) as [->|Hne]; [|by rewrite bool_decide_false in Hb; destruct o].
      rewrite bool_decide_true in Hb by done.
      assert (Ho : o = Returned \/ o = Fulfilled) by (destruct o; try done; auto).
      destruct (corked_end k' ks' o s sent H Ho) as [H' L]. apply (IH ks'); [done|]. rewrite L. by destruct Ho as [-> | ->]. }
  destruct (H es [] (accept w) []) as [_ _ Hs]; [by split; try constructor|done|]. cbv zeta. split; [done|]. intros ->. unfold waiting in Hs. cbn in Hs. by rewrite app_nil_r in Hs.
Qed.

(** Examples: an ordinary run; two corks that overlap, and one that throws. *)
Definition demo_uses : list use := [USend (Text []); UBegin; USend (Binary [1]); UBegin; USend (Binary [2]); UEnd 1 Returned; USend (Binary [3]); UEnd 0 Fulfilled; USend (Binary [4])].

Lemma cork_keeps_order_witness : brackets 0 [] demo_uses = Some [] /\ so_written (uses_run demo_uses (accept 7)) = [Text []; Binary [1]; Binary [2]; Binary [3]; Binary [4]].
Proof. split; [reflexivity|]. exact (proj2 (cork_keeps_order demo_uses 7 [] eq_refl) eq_refl). Defined.

Example overlapping_corks_lose : let s := uses_run [UBegin; USend (Binary [1]); UBegin; USend (Binary [2]); UEnd 0 Fulfilled; UEnd 1 Fulfilled; USend (Binary [3])] (accept 7) in
  so_written s = [Binary [1]] /\ so_send s = QueueInto 0.
Proof. by vm_compute. Qed.

Example throwing_cork_mutes : so_written (uses_run [UBegin; USend (Binary [1]); UEnd 0 Threw; USend (Binary [2])] (accept 7)) = [].
Proof. by vm_compute. Qed.

(** A socket that subscribes after its close stays in the registry, and its
    [send] throws: nobody behind it gets a message of the topic. *)
Definition topic_a : topic := js "a".
Definition dead_events : list wevent :=
  [WsOpen 1; WsOpen 2; Subscribe 0 topic_a; WsClose 1 None; WsFreed 0; Subscribe 0 topic_a; Subscribe 1 topic_a].

Example dead_subscriber_blocks : let h := wserver_run (fun s => s) dead_events new_wsserver in
  let r := publish (fun s => s) topic_a (Binary [9]) None h in
  r.1 = Throw ErrError not_connected /\ so_written <$> sv_arena r.2 !! 1%nat = Some [].
Proof. by vm_compute. Qed.

Definition demo_wevents : list wevent :=
  [WsOpen 1; WsOpen 2; WsOpen 3; Subscribe 0 topic_a; Subscribe 1 topic_a; Subscribe 2 topic_a; WsClose 1 None; WsFreed 0; CorkBegin 2].

Lemma publish_reaches_subscribers_witness : exists h', publish (fun s => s) topic_a (Text (js "hi")) (Some 1%nat) (wserver_run (fun s => s) demo_wevents new_wsserver) = (Ok 2%nat, h') /\
  so_written <$> sv_arena h' !! 1%nat = Some [] /\ (fun s => ck_queue <$> so_corks s) <$> sv_arena h' !! 2%nat = Some [[Text (js "hi")]].
Proof.
  destruct (publish_reaches_subscribers (fun s => s) demo_wevents topic_a (Text (js "hi")) (Some 1%nat)) as (_ & _ & _ & _ & h' & E & _ & _ & Ha & Hall).
  destruct Hall as [_ Ep]; [vm_compute; repeat constructor|]. exists h'.
  split; [rewrite E, Ep; reflexivity|]. split; [rewrite (Ha 1%nat)|rewrite (Ha 2%nat)]; vm_compute; reflexivity.
Defined.
