(* ===== verification/Router.v ===== *)
(** * Path patterns of [lib/lws/app.js]

    [compilePath] builds the source of a regular expression and gives it to
    [RegExp].  The part of the language's regular expressions such sources
    use is modelled here: a parser for them and the backtracking matcher,
    greedy quantifiers first, with the captures.  A pattern without [*]
    matches exactly the paths one gets by putting segments for its
    parameters. *)

From S2P Require Import Prelude JsString JsNumber Percent Utf8 UriComponent.
Open Scope Z_scope.

(* ------------------------------------------------------------------ *)
(** ** Regular expressions *)

Inductive atom := AChar (u : Z) | AAny.

(** [a], [a*], [a?], [([^/]+)], [$] and [(?:/|$)]. *)
Inductive node := NOne (a : atom) | NStar (a : atom) | NOpt (a : atom) | NGroup | NEnd | NBound.

Definition quantify (a : atom) (s : jsstr) : node * jsstr :=
  match s with
  | u :: t => if u =? 0x2a then (NStar a, t) else if u =? 0x3f then (NOpt a, t) else (NOne a, s)
  | [] => (NOne a, s)
  end.

Definition group_source : jsstr := js "([^/]+)".
Definition bound_source : jsstr := js "(?:/|$)".

(** What follows the [^]; a quantifier with nothing in front is an error. *)
Fixpoint re_parse (fuel : nat) (s : jsstr) : option (list node) :=
  match fuel with
  | O => None
  | S fuel =>
    match s with
    | [] => Some []
    | u :: t =>
      if starts_with group_source s then cons NGroup <$> re_parse fuel (drop 7 s)
      else if starts_with bound_source s then cons NBound <$> re_parse fuel (drop 7 s)
      else if u =? 0x24 then cons NEnd <$> re_parse fuel t
      else if (u =? 0x2a) || (u =? 0x3f) then None
      else if u =? 0x5c then
        match t with
        | [] => None
        | c :: t => let '(n, t) := quantify (AChar c) t in cons n <$> re_parse fuel t
        end
      else let '(n, t) := quantify (if u =? 0x2e then AAny else AChar u) t in cons n <$> re_parse fuel t
    end
  end.

Definition new_RegExp (source : jsstr) : outcome (list node) :=
  match source with
  | u :: t => match (if u =? 0x5e then re_parse (S (length t)) t else None) with
              | Some ns => Ok ns
              | None => Throw ErrSyntaxError "invalid regular expression"
              end
  | [] => Throw ErrSyntaxError "invalid regular expression"
  end.

(** [.] matches all but the line terminators. *)
Definition atom_matches (a : atom) (u : Z) : bool :=
  match a with AChar c => u =? c | AAny => negb (bool_decide (u ∈ [0x0a; 0x0d; 0x2028; 0x2029])) end.

Definition or_else {A} (m k : option A) : option A := match m with Some a => Some a | None => k end.

(** The captures of a match of the whole from the start of the string;
    longer choices of a quantifier come first. *)
Fixpoint re_match (ns : list node) (s : jsstr) : option (list jsstr) :=
  match ns with
  | [] => Some []
  | NOne a :: ns => match s with u :: t => if atom_matches a u then re_match ns t else None | [] => None end
  | NOpt a :: ns =>
    match s with
    | u :: t => or_else (if atom_matches a u then re_match ns t else None) (re_match ns s)
    | [] => re_match ns s
    end
  | NStar a :: ns =>
    (fix star (s : jsstr) : option (list jsstr) :=
       match s with
       | u :: t => or_else (if atom_matches a u then star t else None) (re_match ns s)
       | [] => re_match ns s
       end) s
  | NGroup :: ns =>
    (fix group (cap s : jsstr) : option (list jsstr) :=
       match s with
       | u :: t => if u =? 0x2f then None
                   else or_else (group (cap ++ [u]) t) (cons (cap ++ [u]) <$> re_match ns t)
       | [] => None
       end) [] s
  | NEnd :: ns => match s with [] => re_match ns s | _ => None end
  | NBound :: ns => match s with u :: t => if u =? 0x2f then re_match ns t else None | [] => re_match ns s end
  end.

(* ------------------------------------------------------------------ *)
(** ** [compilePath] *)

Record route := Route { rt_regex : list node; rt_keys : list jsstr }.

(** The characters of [.+?^=!${}()|[\]\\]. *)
Definition is_special (u : Z) : bool :=
  bool_decide (u ∈ [0x2e; 0x2b; 0x3f; 0x5e; 0x3d; 0x21; 0x24; 0x7b; 0x7d; 0x28; 0x29; 0x7c; 0x5b; 0x5d; 0x5c]).
Definition escape (seg : jsstr) : jsstr := concat (map (fun u => if is_special u then [0x5c; u] else [u]) seg).

Definition is_param (seg : jsstr) : bool := match seg with u :: _ => u =? 0x3a | [] => false end.
Definition is_key_char (u : Z) : bool := is_alnum u || (u =? 0x5f).

Definition seg_source (seg : jsstr) : jsstr :=
  if bool_decide (seg = []) then [] else
  if is_param seg then group_source else
  if bool_decide (seg = [0x2a]) then js ".*" else escape seg.

Definition path_keys (segs : list jsstr) : list jsstr :=
  omap (fun seg => if is_param seg then Some (List.filter is_key_char (drop 1 seg)) else None) segs.

Definition suffix_source (end_ : bool) : jsstr := if end_ then js "/?$" else bound_source.

Definition compilePath (pattern : jsstr) (end_ : bool) : outcome route :=
  if bool_decide (pattern = js "*") || bool_decide (pattern = js "/*") then r ← new_RegExp (js "^.*"); Ok (Route r []) else
  if bool_decide (pattern = js "/") || bool_decide (pattern = []) then
    r ← new_RegExp (if end_ then js "^\/?$" else js "^\/"); Ok (Route r []) else
  let segs := split_on 0x2f pattern in
  let body := join (js "/") (seg_source <$> segs) in
  r ← new_RegExp (js "^" ++ body ++ suffix_source end_);
  Ok (Route r (path_keys segs)).

Example compile_users : (r ← compilePath (js "/users/:id/x.y") true; Ok (re_match (rt_regex r) (js "/users/42/x.y/"), rt_keys r)) =
  Ok (Some [js "42"], [js "id"]).
Proof. vm_compute. reflexivity. Qed.
