(* ===== verification/RouterProps.v ===== *)
(** * What a path pattern matches

    A pattern without [*] matches exactly the paths that have a segment for
    each of its parameters and its own text elsewhere, with an optional
    slash at the end of a route and anything from a slash on behind a
    mount; the captures are those segments. *)

From S2P Require Import Prelude JsString JsNumber Percent Utf8 UriComponent Router.
Open Scope Z_scope.

#[local] Arguments js : simpl never.

(* ------------------------------------------------------------------ *)
(** ** Parsing the source *)

(** [s] parses to [ns], whatever the fuel beyond its length. *)
Definition parses (s : jsstr) (ns : list node) : Prop := forall fuel, (length s < fuel)%nat -> re_parse fuel s = Some ns.

(** A source that does not begin with a quantifier. *)
Definition no_quantifier (s : jsstr) : Prop := match s with u :: _ => u <> 0x2a /\ u <> 0x3f | [] => True end.

Lemma quantify_none a s : no_quantifier s -> quantify a s = (NOne a, s).
Proof.
  destruct s as [|u t]; [done|]. intros [H1 H2]. cbn. by rewrite (proj2 (Z.eqb_neq _ _) H1), (proj2 (Z.eqb_neq _ _) H2).
Qed.

Lemma starts_with_head p u s : starts_with (p) (u :: s) = true -> match p with c :: _ => c = u | [] => True end.
Proof. unfold starts_with. rewrite bool_decide_eq_true. destruct p as [|c p]; [done|]. cbn. by intros [= -> _]. Qed.

Lemma no_group u s : u <> 0x28 -> starts_with group_source (u :: s) = false /\ starts_with bound_source (u :: s) = false.
Proof.
  intros Hu. split; apply not_true_iff_false; intros H%starts_with_head; by vm_compute in H.
Qed.

Lemma parses_nil : parses [] [].
Proof. intros [|fuel] Hf; [cbn in Hf; lia|done]. Qed.

(** A plain character, an escaped one, and the pieces of the code. *)
Lemma parses_char u s ns : is_special u = false -> u <> 0x2a -> no_quantifier s -> parses s ns -> parses (u :: s) (NOne (AChar u) :: ns).
Proof.
  intros Hs Hstar Hq Hp [|fuel] Hf; [lia|]. unfold is_special in Hs. apply bool_decide_eq_false in Hs. rewrite !not_elem_of_cons in Hs.
  destruct Hs as (H1&_&H2&_&_&_&H3&_&_&H4&_&_&_&_&H5&_).
  cbn [re_parse]. destruct (no_group u s) as [-> ->]; [done|]. rewrite (proj2 (Z.eqb_neq u 0x24)), (proj2 (Z.eqb_neq u 0x2a)), (proj2 (Z.eqb_neq u 0x3f)), (proj2 (Z.eqb_neq u 0x5c)), (proj2 (Z.eqb_neq u 0x2e)) by done.
  cbn [orb]. rewrite quantify_none by done. cbn in Hf. by rewrite (Hp fuel) by lia.
Qed.

Lemma parses_escaped u s ns : no_quantifier s -> parses s ns -> parses (0x5c :: u :: s) (NOne (AChar u) :: ns).
Proof.
  intros Hq Hp [|fuel] Hf; [lia|]. cbn [re_parse]. destruct (no_group 0x5c (u :: s)) as [-> ->]; [done|]. change (0x5c =? 0x24) with false. cbn [Z.eqb orb].
  cbn [Pos.eqb]. rewrite quantify_none by done. cbn in Hf. by rewrite (Hp fuel) by lia.
Qed.

Lemma parses_group s ns : parses s ns -> parses (group_source ++ s) (NGroup :: ns).
Proof.
  intros Hp [|fuel] Hf; [lia|]. assert (E : starts_with group_source (group_source ++ s) = true).
  { unfold starts_with. by rewrite take_app_length, bool_decide_eq_true_2. }
  assert (Hl : (length s < fuel)%nat) by (rewrite length_app in Hf; change (length group_source) with 7%nat in Hf; lia). clear Hf.
  change (group_source ++ s) with (0x28 :: drop 1 group_source ++ s) in *. cbn [re_parse]. rewrite E. change (drop 7 (0x28 :: drop 1 group_source ++ s)) with s.
  by rewrite (Hp fuel).
Qed.

Lemma parses_suffix (end_ : bool) : parses (suffix_source end_) (if end_ then [NOpt (AChar 0x2f); NEnd] else [NBound]).
Proof.
  intros fuel Hf. destruct end_.
  - change (length (suffix_source true)) with 3%nat in Hf. do 3 (destruct fuel as [|fuel]; [lia|]). destruct fuel as [|fuel]; [lia|]. vm_compute. reflexivity.
  - change (length (suffix_source false)) with 7%nat in Hf. destruct fuel as [|[|fuel]]; [lia..|]. vm_compute. reflexivity.
Qed.

(** The nodes of a segment. *)
Definition seg_nodes (seg : jsstr) : list node := if is_param seg then [NGroup] else (fun u => NOne (AChar u)) <$> seg.

Lemma escape_no_quantifier seg s : 0x2a ∉ seg -> no_quantifier s -> no_quantifier (escape seg ++ s).
Proof.
  intros Hstar Hs. destruct seg as [|u seg]; [done|]. apply not_elem_of_cons in Hstar as [Hu _]. unfold escape. cbn [map concat].
  destruct (is_special u) eqn:E; cbn; [done|]. split; [congruence|]. intros ->. by vm_compute in E.
Qed.

Lemma parses_escape seg s ns : 0x2a ∉ seg -> no_quantifier s -> parses s ns -> parses (escape seg ++ s) (((fun u => NOne (AChar u)) <$> seg) ++ ns).
Proof.
  intros Hstar Hs Hp. induction seg as [|u seg IH]; [done|]. apply not_elem_of_cons in Hstar as [Hu Hstar]. specialize (IH Hstar).
  pose proof (escape_no_quantifier seg s Hstar Hs) as Hq. unfold escape. cbn [map concat]. fold (escape seg). rewrite <- app_assoc, fmap_cons.
  destruct (is_special u) eqn:E; cbn [app]; [by apply parses_escaped|by apply parses_char].
Qed.

Lemma seg_source_no_quantifier seg s : 0x2a ∉ seg -> no_quantifier s -> no_quantifier (seg_source seg ++ s).
Proof.
  intros Hstar Hs. unfold seg_source. case_bool_decide; [done|]. destruct (is_param seg); [done|]. rewrite bool_decide_eq_false_2; [by apply escape_no_quantifier|].
  intros ->. by apply Hstar, list_elem_of_singleton.
Qed.

Lemma parses_seg seg s ns : 0x2a ∉ seg -> no_quantifier s -> parses s ns -> parses (seg_source seg ++ s) (seg_nodes seg ++ ns).
Proof.
  intros Hstar Hs Hp. unfold seg_source, seg_nodes. case_bool_decide as E; [by subst|]. destruct (is_param seg); [by apply parses_group|].
  rewrite bool_decide_eq_false_2; [by apply parses_escape|]. intros ->. by apply Hstar, list_elem_of_singleton.
Qed.

(** The nodes of segments joined by slashes, and what follows. *)
Fixpoint path_nodes (segs : list jsstr) (tail : list node) : list node :=
  match segs with
  | [] => tail
  | [seg] => seg_nodes seg ++ tail
  | seg :: segs => seg_nodes seg ++ NOne (AChar 0x2f) :: path_nodes segs tail
  end.

Lemma parses_path segs s ns : segs <> [] -> Forall (fun seg => 0x2a ∉ seg) segs -> no_quantifier s -> parses s ns ->
  parses (join (js "/") (seg_source <$> segs) ++ s) (path_nodes segs ns) /\ no_quantifier (join (js "/") (seg_source <$> segs) ++ s).
Proof.
  intros Hne Hall Hs Hp. induction Hall as [|seg segs Hseg Hsegs IH]; [done|]. destruct segs as [|seg2 segs].
  - cbn [fmap list_fmap join path_nodes]. by split; [apply parses_seg|apply seg_source_no_quantifier].
  - destruct IH as [IHp IHq]; [done|]. rewrite fmap_cons. change (join (js "/") (seg_source seg :: (seg_source <$> seg2 :: segs)))
      with (seg_source seg ++ js "/" ++ join (js "/") (seg_source <$> seg2 :: segs)).
    rewrite <- !app_assoc. change (js "/") with [0x2f] at 1 3. cbn [app].
    assert (Hslash : parses (0x2f :: join (js "/") (seg_source <$> seg2 :: segs) ++ s) (NOne (AChar 0x2f) :: path_nodes (seg2 :: segs) ns))
      by (apply parses_char; done).
    split; [by apply parses_seg|by apply seg_source_no_quantifier].
Qed.

(* ------------------------------------------------------------------ *)
(** ** Matching *)

Definition is_slash (u : Z) : bool := u =? 0x2f.
Definition at_boundary (s : jsstr) : Prop := s = [] \/ exists t, s = 0x2f :: t.

(** Nodes that match nothing but what begins at a boundary. *)
Definition bounded_nodes (ns : list node) : Prop := forall s caps, re_match ns s = Some caps -> at_boundary s.

(** A group takes the whole segment: a shorter choice is never followed by
    a boundary. *)
Lemma match_group ns s : bounded_nodes ns ->
  re_match (NGroup :: ns) s = let '(cap, r) := span (fun u => negb (is_slash u)) s in if nonempty cap then cons cap <$> re_match ns r else None.
Proof.
  intros Hb. cbn [re_match]. match goal with |- ?g [] s = _ => set (group := g) end.
  enough (Hg : forall s cap0, group cap0 s = let '(cap, r) := span (fun u => negb (is_slash u)) s in if nonempty cap then cons (cap0 ++ cap) <$> re_match ns r else None)
    by apply (Hg s []). clear s. intros s. induction s as [|u t IH]; intros cap0; [done|]. cbn [span].
  change (group cap0 (u :: t)) with (if u =? 0x2f then None else or_else (group (cap0 ++ [u]) t) (cons (cap0 ++ [u]) <$> re_match ns t)).
  unfold is_slash at 1. destruct (u =? 0x2f) eqn:E; [done|]. cbn [negb]. rewrite IH. destruct (span _ t) as [cap r] eqn:Es. cbn [nonempty].
  destruct cap as [|v cap]; cbn [nonempty or_else].
  - assert (r = t) as ->; [|done]. destruct t as [|v t]; cbn [span] in Es; [by injection Es|]. unfold is_slash in Es. destruct (v =? 0x2f); cbn in Es; [by injection Es|].
    by destruct (span _ t).
  - destruct t as [|w t]; [done|]. cbn [span] in Es. unfold is_slash in Es at 1. destruct (w =? 0x2f) eqn:Ew; [done|]. cbn [negb] in Es.
    assert (re_match ns (w :: t) = None) as ->.
    { destruct (re_match ns (w :: t)) as [c|] eqn:Em; [|done]. apply Hb in Em as [|[t' Ht]]; [done|]. injection Ht as -> _. done. }
    rewrite <- app_assoc. cbn [app]. cbn [fmap option_fmap option_map]. destruct (re_match ns r); done.
Qed.

Lemma match_chars seg ns s caps : re_match (((fun u => NOne (AChar u)) <$> seg) ++ ns) s = Some caps <-> exists r, s = seg ++ r /\ re_match ns r = Some caps.
Proof.
  revert s. induction seg as [|u seg IH]; intros s; cbn [fmap list_fmap app]; [split; [by exists s|by intros (r & -> & ?)]|].
  cbn [re_match atom_matches]. destruct s as [|v s]; [split; [done|by intros (r & ? & _)]|]. destruct (Z.eqb_spec v u) as [->|Hne].
  - rewrite IH. split; intros (r & Hr & Hm); exists r; (split; [|done]); [by f_equal|by injection Hr].
  - split; [done|]. intros (r & Hr & _). by injection Hr.
Qed.

Lemma span_spec f s p r : span f s = (p, r) -> s = p ++ r /\ Forall (fun u => f u = true) p /\ match r with u :: _ => f u = false | [] => True end.
Proof.
  revert p r. induction s as [|u s IH]; intros p r; cbn [span]; [by intros [= <- <-]|]. destruct (f u) eqn:E.
  - destruct (span f s) as [p' r'] eqn:Es. intros [= <- <-]. destruct (IH _ _ eq_refl) as (-> & Hf & Hr). split_and!; [done|by constructor|done].
  - by intros [= <- <-].
Qed.

Lemma span_app f p r : Forall (fun u => f u = true) p -> match r with u :: _ => f u = false | [] => True end -> span f (p ++ r) = (p, r).
Proof.
  intros Hp Hr. induction Hp as [|u p Hu _ IH]; cbn [app span]; [destruct r as [|u r]; [done|cbn; by rewrite Hr]|]. by rewrite Hu, IH.
Qed.

(** [parts] are [segs] with [caps] in the place of the parameters. *)
Inductive fills : list jsstr -> list jsstr -> list jsstr -> Prop :=
| fills_nil : fills [] [] []
| fills_text seg segs caps parts : is_param seg = false -> fills segs caps parts -> fills (seg :: segs) caps (seg :: parts)
| fills_param seg segs cap caps parts : is_param seg = true -> cap <> [] -> 0x2f ∉ cap -> fills segs caps parts ->
    fills (seg :: segs) (cap :: caps) (cap :: parts).

Lemma match_seg seg ns s caps : bounded_nodes ns -> re_match (seg_nodes seg ++ ns) s = Some caps <->
  if is_param seg then exists cap caps' r, caps = cap :: caps' /\ cap <> [] /\ 0x2f ∉ cap /\ s = cap ++ r /\ re_match ns r = Some caps'
  else exists r, s = seg ++ r /\ re_match ns r = Some caps.
Proof.
  intros Hb. unfold seg_nodes. destruct (is_param seg); [|apply match_chars]. cbn [app]. rewrite match_group by done. destruct (span _ s) as [cap r] eqn:Es. split.
  - apply span_spec in Es as (-> & Hf & _). destruct cap as [|u cap]; [done|]. cbn [nonempty]. destruct (re_match ns r) as [c|] eqn:Em; [|done]. intros [= <-].
    exists (u :: cap), c, r. split_and!; try done. intros Hin. rewrite Forall_forall in Hf. by specialize (Hf _ Hin).
  - intros (cap' & caps' & r' & -> & Hne & Hsl & -> & Hm). rewrite span_app in Es.
    + injection Es as <- <-. destruct cap'; [done|]. cbn [nonempty]. by rewrite Hm.
    + apply Forall_forall. intros u Hu. unfold is_slash. destruct (Z.eqb_spec u 0x2f) as [->|]; done.
    + apply Hb in Hm as [->|[t ->]]; done.
Qed.

Lemma match_path segs tail (ok : jsstr -> Prop) : segs <> [] -> (forall s caps, re_match tail s = Some caps <-> caps = [] /\ ok s) ->
  (forall s, ok s -> at_boundary s) ->
  forall s caps, re_match (path_nodes segs tail) s = Some caps <-> exists parts rest, fills segs caps parts /\ s = join (js "/") parts ++ rest /\ ok rest.
Proof.
  intros Hne Htail Hok. assert (Hbt : bounded_nodes tail) by (intros s caps [_ Ho]%Htail; by apply Hok).
  induction segs as [|seg segs IH]; [done|]. destruct segs as [|seg2 segs]; intros s caps.
  - cbn [path_nodes]. rewrite match_seg by done. destruct (is_param seg) eqn:Ep; split.
    + intros (cap & caps' & r & -> & Hc & Hs & -> & [-> Hr]%Htail). exists [cap], r. split_and!; [by apply fills_param; [| | |constructor]|done|done].
    + intros (parts & rest & Hf & -> & Hr). inversion Hf as [|? ? ? ? Hp|? ? cap ? ? ? Hc Hs Hf']; subst; [congruence|]. inversion Hf'; subst.
      exists cap, [], rest. split_and!; try done. by apply Htail.
    + intros (r & -> & [-> Hr]%Htail). exists [seg], r. split_and!; [by apply fills_text; [|constructor]|done|done].
    + intros (parts & rest & Hf & -> & Hr). inversion Hf as [|? ? ? ? Hp Hf'|]; subst; [|congruence]. inversion Hf'; subst. exists rest. split; [done|]. by apply Htail.
  - specialize (IH ltac:(done)). assert (Hslash : forall r c, re_match (NOne (AChar 0x2f) :: path_nodes (seg2 :: segs) tail) r = Some c <->
      exists r', r = 0x2f :: r' /\ re_match (path_nodes (seg2 :: segs) tail) r' = Some c) by (intros r c; apply (match_chars [0x2f])).
    assert (Hb : bounded_nodes (NOne (AChar 0x2f) :: path_nodes (seg2 :: segs) tail)) by (intros r c (r' & -> & _)%Hslash; right; by eexists).
    change (path_nodes (seg :: seg2 :: segs) tail) with (seg_nodes seg ++ NOne (AChar 0x2f) :: path_nodes (seg2 :: segs) tail).
    rewrite match_seg by done.
    assert (Hjoin : forall p parts rest, fills (seg2 :: segs) rest parts -> forall t, join (js "/") (p :: parts) ++ t = p ++ 0x2f :: join (js "/") parts ++ t).
    { intros p parts rest Hf t. inversion Hf; subst; cbn [join]; rewrite <- !app_assoc; done. }
    destruct (is_param seg) eqn:Ep; split.
    + intros (cap & caps' & r & -> & Hc & Hs & -> & (r' & -> & (parts & rest & Hf & -> & Hr)%IH)%Hslash). exists (cap :: parts), rest.
      split_and!; [by apply fills_param|by erewrite Hjoin|done].
    + intros (parts & rest & Hf & -> & Hr). inversion Hf as [|? ? ? ? Hp|? ? cap caps' parts' ? Hc Hs Hf']; subst; [congruence|].
      eexists cap, caps', _. split_and!; [done..|by erewrite Hjoin|]. apply Hslash. eexists. split; [done|]. apply IH. by exists parts', rest.
    + intros (r & -> & (r' & -> & (parts & rest & Hf & -> & Hr)%IH)%Hslash). exists (seg :: parts), rest. split_and!; [by apply fills_text|by erewrite Hjoin|done].
    + intros (parts & rest & Hf & -> & Hr). inversion Hf as [|? ? ? parts' Hp Hf'|]; subst; [|congruence].
      eexists. split; [by erewrite Hjoin|]. apply Hslash. eexists. split; [done|]. apply IH. by exists parts', rest.
Qed.

(** What may follow the pattern: a slash at the end of a route, anything
    from a slash on behind a mount. *)
Definition may_follow (end_ : bool) (rest : jsstr) : Prop := if end_ then rest = [] \/ rest = [0x2f] else at_boundary rest.

Lemma match_suffix (end_ : bool) s caps : re_match (if end_ then [NOpt (AChar 0x2f); NEnd] else [NBound]) s = Some caps <-> caps = [] /\ may_follow end_ s.
Proof.
  unfold may_follow, at_boundary. destruct end_, s as [|u t]; cbn [re_match atom_matches].
  - split; [intros [= <-]; split; [done|by left]|by intros [-> _]].
  - destruct (Z.eqb_spec u 0x2f) as [->|Hu]; [destruct t|]; cbn; (split; [try done|]); try (intros [= <-]; split; [done|by right]); intros [-> [|Hr]]; try done; by injection Hr.
  - split; [intros [= <-]; split; [done|by left]|by intros [-> _]].
  - destruct (Z.eqb_spec u 0x2f) as [->|Hu]; (split; [try done|]); [intros [= <-]; split; [done|right; by eexists]|by intros [-> _]|].
    intros [-> [|[t' Hr]]]; [done|]. by injection Hr.
Qed.

(** For every pattern without a [*] (and not the root) [compilePath]
    succeeds, and its regular expression matches a path with the captures
    [caps] exactly when the path is the pattern with the captures, each a
    non-empty segment, in the place of its parameters, followed by what
    may follow; there is one key for each capture. *)
Theorem route_matches pattern end_ : 0x2a ∉ pattern -> pattern <> [] -> pattern <> js "/" ->
  exists r, compilePath pattern end_ = Ok r /\ forall path caps, re_match (rt_regex r) path = Some caps <->
    exists parts rest, fills (split_on 0x2f pattern) caps parts /\ path = join (js "/") parts ++ rest /\ may_follow end_ rest /\ length caps = length (rt_keys r).
Proof.
  intros Hstar Hne Hroot. unfold compilePath. rewrite (bool_decide_eq_false_2 (pattern = js "*")), (bool_decide_eq_false_2 (pattern = js "/*")).
  2-3: by intros ->; apply Hstar; apply (bool_decide_unpack _); vm_compute; exact I.
  rewrite (bool_decide_eq_false_2 (pattern = js "/")), (bool_decide_eq_false_2 (pattern = [])) by done. cbn [orb].
  set (segs := split_on 0x2f pattern). assert (Hsegs : segs <> []) by (unfold segs; destruct pattern as [|u p]; cbn; [done|]; destruct (u =? 0x2f), (split_on 0x2f p); done).
  assert (Hall : Forall (fun seg => 0x2a ∉ seg) segs).
  { unfold segs. clear -Hstar. induction pattern as [|u p IH]; cbn; [by constructor; [apply not_elem_of_nil|]|].
    apply not_elem_of_cons in Hstar as [Hu Hp]. specialize (IH Hp). destruct (u =? 0x2f); [by constructor; [apply not_elem_of_nil|]|].
    destruct (split_on 0x2f p) as [|q qs]; [constructor; [apply not_elem_of_cons; split; [done|apply not_elem_of_nil]|done]|]. inversion IH; subst. constructor; [by apply not_elem_of_cons|done]. }
  assert (Hq : no_quantifier (suffix_source end_)) by (destruct end_; vm_compute; by split).
  destruct (parses_path segs (suffix_source end_) _ Hsegs Hall Hq (parses_suffix end_)) as [Hp _].
  assert (Hreg : new_RegExp (js "^" ++ join (js "/") (seg_source <$> segs) ++ suffix_source end_) = Ok (path_nodes segs (if end_ then [NOpt (AChar 0x2f); NEnd] else [NBound]))).
  { change (js "^") with [0x5e]. cbn [app]. unfold new_RegExp. rewrite Z.eqb_refl. by rewrite Hp by lia. }
  rewrite Hreg. cbn [mbind outcome_bind]. eexists. split; [reflexivity|]. intros path caps. cbn [rt_regex rt_keys].
  rewrite (match_path segs _ (may_follow end_) Hsegs (match_suffix end_)) by (intros s; destruct end_; [intros [->| ->]; [by left|right; by eexists]|done]).
  assert (Hlen : forall parts, fills segs caps parts -> length caps = length (path_keys segs)).
  { clear. intros parts. induction 1 as [|? ? ? ? Ep ? IH|? ? ? ? ? Ep ? ? ? IH]; [done|..]; cbn [path_keys omap list_omap]; rewrite Ep; cbn [length]; by rewrite IH. }
  split; intros (parts & rest & Hf & H1 & H2); exists parts, rest; [by eauto|by destruct H2].
Qed.

Lemma route_matches_witness : exists r, compilePath (js "/users/:id/posts") false = Ok r /\ forall path caps, re_match (rt_regex r) path = Some caps <->
  exists parts rest, fills (split_on 0x2f (js "/users/:id/posts")) caps parts /\ path = join (js "/") parts ++ rest /\ may_follow false rest /\ length caps = length (rt_keys r).
Proof.
  apply (route_matches (js "/users/:id/posts") false); [|vm_compute; discriminate|vm_compute; discriminate]. apply (bool_decide_unpack _). vm_compute. exact I.
Defined.
