(* ===== verification/Serve.v ===== *)
(** * [serve] of [lib/serve.js]

    Routes in the shape of Bun's table, the answer of a handler flushed onto
    a [ServerResponse], the queue of the iterator form and the upgrade of a
    connection to a web socket.

    The program's handlers are arguments: a function from the request to what
    the call did.  A body is the list of chunks its stream gives and the error
    that ends it, if one does; [respond] awaits between chunks, but nobody
    else has the response meanwhile.  [stack_text] is [String(e?.stack ?? e)]
    of an error, which the engine decides. *)

From S2P Require Import Prelude JsString JsNumber Percent Utf8 UriComponent Headers StreamBase ServerResponse Request Router.
Open Scope Z_scope.

(* ------------------------------------------------------------------ *)
(** ** Objects *)

Section Assoc.
Context {V : Type}.

(** The own properties of an object without prototype, in their order. *)
Fixpoint assoc_put (k : jsstr) (v : V) (o : list (jsstr * V)) : list (jsstr * V) :=
  match o with [] => [(k, v)] | (n, w) :: o => if bool_decide (n = k) then (n, v) :: o else (n, w) :: assoc_put k v o end.
Fixpoint assoc_get (k : jsstr) (o : list (jsstr * V)) : option V :=
  match o with [] => None | (n, w) :: o => if bool_decide (n = k) then Some w else assoc_get k o end.
(** [Object.keys] *)
Definition object_keys (o : list (jsstr * V)) : list jsstr := own_names ((fun p => (p.1, HStr [])) <$> o).
End Assoc.

(* ------------------------------------------------------------------ *)
(** ** Fetch responses *)

Record fbody := FBody { bd_init : option chunk; bd_chunks : list chunk; bd_error : option (error_class * string) }.
Record fresponse := FResponse { fr_status : Z; fr_headers : list (jsstr * hvalue); fr_body : option fbody }.

(** What the constructor is given: nothing, a string or buffer, a stream or
    iterable, a value it refuses. *)
Inductive body_init := NoBody | Literal (c : chunk) | Streamed (chunks : list chunk) (e : option (error_class * string)) | BadBody.

Definition new_Body (b : body_init) : outcome (option fbody) :=
  match b with
  | NoBody => Ok None
  | Literal c => Ok (Some (FBody (Some c) [c] None))
  | Streamed chunks e => Ok (Some (FBody None chunks e))
  | BadBody => Throw ErrTypeError "Body.constructor: bad body"
  end.

Definition new_Response (b : body_init) (status : option Z) (headers : headers_init) : outcome fresponse :=
  body ← new_Body b;
  let status := default 200 status in
  if negb (status =? 0) && ((status <? 200) || (599 <? status)) then Throw ErrRangeError "The status provided is outside the range [200, 599]." else
  headers ← new_Headers headers;
  Ok (FResponse status headers body).

(** What a handler may give: [null] or [undefined], a [Response], an object
    with the properties of one, another value. *)
Inductive value := VNothing | VResponse (r : fresponse) | VObject (b : body_init) (status : option Z) (headers : headers_init) | VPrimitive.

Definition toResponse (v : value) : outcome fresponse :=
  match v with
  | VNothing => new_Response NoBody (Some 404) FromNothing
  | VResponse r => Ok r
  | VObject b status headers => new_Response b status headers
  | VPrimitive => new_Response NoBody None FromNothing
  end.

(** The call of a handler: it returned a value, a promise, or threw. *)
Inductive result := Returned (v : value) | Promised (v : outcome value) | Threw (c : error_class) (msg : string).

Definition awaited (r : result) : outcome value :=
  match r with Returned v => Ok v | Promised v => v | Threw c msg => Throw c msg end.

Section Serve.
Context `{TextCodec} `{UpperTables}.
Variable stack_text : error_class -> string -> jsstr.

Abbreviation PM A := (SM response A) (only parsing).

(* ------------------------------------------------------------------ *)
(** ** Flushing *)

Fixpoint append_each (l : list (jsstr * jsstr)) : PM unit :=
  match l with [] => mret tt | (name, value) :: l => rappend name value ;; append_each l end.

Fixpoint write_each (chunks : list chunk) (e : option (error_class * string)) : PM unit :=
  match chunks with
  | [] => match e with Some (c, msg) => throw c msg | None => mret tt end
  | c :: chunks => write (Some c) ;; write_each chunks e
  end.

Definition flush (r : fresponse) : PM unit :=
  status (fr_status r) ;;
  append_each (forEach (fr_headers r)) ;;
  match fr_body r with
  | None => end_ None
  | Some b => write_each (bd_chunks b) (bd_error b) ;; end_ None
  end.

Definition of_outcome {A} (o : outcome A) : PM A := fun s => (o, s).

Definition error_text (e : reason) : jsstr := match e with ErrorObj c msg => stack_text c msg | _ => [] end.
Definition error_response (e : reason) : outcome fresponse :=
  new_Response (Literal (CStr (error_text e))) (Some 500) (FromObject [(content_type, HStr (js "text/plain"))]).

Definition respond (r : outcome value) : PM unit :=
  try (v ← of_outcome r; response ← of_outcome (toResponse v); flush response)
      (fun e => sent ← gets rp_headersSent;
                if sent : bool then mret tt else response ← of_outcome (error_response e); flush response).

(* ------------------------------------------------------------------ *)
(** ** Requests *)

Record conn := Conn { cn_wsi : wsi; cn_tls : bool; cn_peer : option jsstr }.

(** [fq_url] is what the constructor of [Request] is given. *)
Record frequest := FRequest { fq_url : jsstr; fq_method : jsstr; fq_headers : list (jsstr * hvalue); fq_body : bool;
  fq_params : list (jsstr * jsstr); fq_peer : option jsstr }.

Definition NO_BODY_METHODS : list jsstr := [js "GET"; js "HEAD"].
Definition scheme (tls : bool) : jsstr := if tls then js "https" else js "http".
Definition host_of (headers : list (jsstr * jsstr)) : jsstr := default (js "localhost") (lookup (js "host") headers).
Definition header_object (headers : list (jsstr * jsstr)) : headers_init := FromObject ((fun p => (p.1, HStr p.2)) <$> headers).

Definition toRequest (c : conn) : outcome frequest :=
  let req := new_ServerRequest (cn_wsi c) in
  let url := scheme (cn_tls c) ++ js "://" ++ host_of (sr_headers req) ++ sr_originalUrl req in
  headers ← new_Headers (header_object (sr_headers req));
  Ok (FRequest url (normalizeMethod (sr_method req)) headers (negb (bool_decide (sr_method req ∈ NO_BODY_METHODS))) [] (cn_peer c)).

Definition requestFromWsi (c : conn) : outcome frequest :=
  let url := scheme (cn_tls c) ++ js "://" ++ host_of (ws_headers (cn_wsi c)) ++ default (js "/") (ws_uri (cn_wsi c)) in
  headers ← new_Headers (header_object (ws_headers (cn_wsi c)));
  Ok (FRequest url (normalizeMethod (or_string (ws_method (cn_wsi c)) (js "GET"))) headers false [] (cn_peer c)).

Definition set_params (params : list (jsstr * jsstr)) (q : frequest) : frequest :=
  FRequest (fq_url q) (fq_method q) (fq_headers q) (fq_body q) params (fq_peer q).

(* ------------------------------------------------------------------ *)
(** ** Routes *)

Abbreviation handler := (frequest -> result) (only parsing).

(** The buffer of the body is made at the first call and kept, so that each
    call gives what the first gave. *)
Definition staticHandler (r : fresponse) : handler := fun _ => Promised (
  buf ← match fr_body r with
        | None => Ok []
        | Some b => match bd_error b with Some (c, msg) => Throw c msg | None => Ok (concat (chunk_bytes <$> bd_chunks b)) end
        end;
  headers ← new_Headers (FromHeaders (fr_headers r));
  response ← new_Response (Literal (CBuf buf)) (Some (fr_status r)) (FromHeaders headers);
  Ok (VResponse response)).

(** An entry of the option: a function, a [Response], an object of methods
    whose values may be nullish, anything else. *)
Inductive entry := EFunction (h : handler) | EResponse (r : fresponse) | EMethods (methods : list (jsstr * option handler)) | EOther.
Inductive target := TAny (h : handler) | TMethods (methods : list (jsstr * option handler)).
Record troute := TRoute { tr_route : route; tr_target : target }.

Definition upper_methods (l : list (jsstr * option handler)) : list (jsstr * option handler) :=
  foldl (fun o p => assoc_put (toUpperCase p.1) p.2 o) [] l.

(** The patterns in the order of [for(const pattern in routes)]. *)
Fixpoint compileRoutes (routes : list (jsstr * entry)) : outcome (list troute) :=
  match routes with
  | [] => Ok []
  | (pattern, e) :: routes =>
    r ← compilePath pattern true;
    table ← compileRoutes routes;
    Ok (match e with
        | EFunction h => TRoute r (TAny h) :: table
        | EResponse response => TRoute r (TAny (staticHandler response)) :: table
        | EMethods l => TRoute r (TMethods (upper_methods l)) :: table
        | EOther => table
        end)
  end.

(** [params[keys[i]] = decodeURIComponent(m[i + 1])]; a capture that is not
    there is [undefined]. *)
Fixpoint read_params (keys captures : list jsstr) (params : list (jsstr * jsstr)) : outcome (list (jsstr * jsstr)) :=
  match keys with
  | [] => Ok params
  | key :: keys =>
    v ← decodeURIComponent (match captures with c :: _ => c | [] => js "undefined" end);
    read_params keys (tail captures) (assoc_put key v params)
  end.

Inductive matched := MAllow (params : list (jsstr * jsstr)) (allow : list jsstr) | MHandler (params : list (jsstr * jsstr)) (h : handler).

Definition method_handler (method : jsstr) (methods : list (jsstr * option handler)) : option handler :=
  match assoc_get method methods with
  | Some (Some h) => Some h
  | _ => if bool_decide (method = js "HEAD") then mjoin (assoc_get (js "GET") methods) else None
  end.

Fixpoint matchRoute (table : list troute) (path method : jsstr) : outcome (option matched) :=
  match table with
  | [] => Ok None
  | r :: table =>
    match re_match (rt_regex (tr_route r)) path with
    | None => matchRoute table path method
    | Some captures =>
      params ← read_params (rt_keys (tr_route r)) captures [];
      Ok (Some (match tr_target r with
                | TAny h => MHandler params h
                | TMethods methods => match method_handler method methods with
                                      | Some h => MHandler params h
                                      | None => MAllow params (object_keys methods)
                                      end
                end))
    end
  end.

(* ------------------------------------------------------------------ *)
(** ** The queue of the iterator form *)

(** Promises of [next] are numbered as they are made; [aq_settled] is what
    they were fulfilled with, in order. *)
Record async_queue (A : Type) := AsyncQueue { aq_values : list A; aq_waiters : list nat; aq_next : nat; aq_settled : list (nat * A) }.
#[global] Arguments AsyncQueue {A}.
#[global] Arguments aq_values {A}.
#[global] Arguments aq_waiters {A}.
#[global] Arguments aq_next {A}.
#[global] Arguments aq_settled {A}.

Definition asyncQueue {A} : async_queue A := AsyncQueue [] [] 0 [].

Definition aq_push {A} (v : A) (q : async_queue A) : async_queue A :=
  match aq_waiters q with
  | waiter :: waiters => AsyncQueue (aq_values q) waiters (aq_next q) (aq_settled q ++ [(waiter, v)])
  | [] => AsyncQueue (aq_values q ++ [v]) [] (aq_next q) (aq_settled q)
  end.

Definition aq_take {A} (q : async_queue A) : async_queue A :=
  match aq_values q with
  | v :: values => AsyncQueue values (aq_waiters q) (S (aq_next q)) (aq_settled q ++ [(aq_next q, v)])
  | [] => AsyncQueue [] (aq_waiters q ++ [aq_next q]) (S (aq_next q)) (aq_settled q)
  end.

(* ------------------------------------------------------------------ *)
(** ** The server *)

Record server := Server { sv_timeoutSeconds : Z; sv_pendingRequests : Z; sv_pendingWebSockets : Z }.

Definition new_Server : server := Server 0 0 0.
Definition timeout (seconds : Z) (s : server) : server := Server seconds (sv_pendingRequests s) (sv_pendingWebSockets s).
Definition incrementRequests (s : server) : server := Server (sv_timeoutSeconds s) (sv_pendingRequests s + 1) (sv_pendingWebSockets s).
Definition decrementRequests (s : server) : server := Server (sv_timeoutSeconds s) (Z.max 0 (sv_pendingRequests s - 1)) (sv_pendingWebSockets s).
Definition incrementWebSockets (s : server) : server := Server (sv_timeoutSeconds s) (sv_pendingRequests s) (sv_pendingWebSockets s + 1).
Definition decrementWebSockets (s : server) : server := Server (sv_timeoutSeconds s) (sv_pendingRequests s) (Z.max 0 (sv_pendingWebSockets s - 1)).

(** The call of [setTimeout] on the connection, if there is one. *)
Definition applyTimeout (s : server) : option Z := if sv_timeoutSeconds s =? 0 then None else Some (sv_timeoutSeconds s).

(** What one request changes: its response, the timer of its connection and
    the queue of the iterator. *)
Record exchange := Exchange { ex_response : response; ex_timer : option Z; ex_queue : async_queue frequest }.

Abbreviation XM A := (SM exchange A) (only parsing).

Definition on_response {A} (m : PM A) : XM A := fun x =>
  let '(o, s) := m (ex_response x) in (o, Exchange s (ex_timer x) (ex_queue x)).
Definition set_timer (t : Z) (x : exchange) : exchange := Exchange (ex_response x) (Some t) (ex_queue x).
Definition queue_push (q : frequest) (x : exchange) : exchange := Exchange (ex_response x) (ex_timer x) (aq_push q (ex_queue x)).

(** A call of an async function whose promise nobody looks at. *)
Definition detached (m : PM unit) : PM unit := fun s => (Ok tt, (m s).2).

Definition answer (r : result) : XM unit :=
  match r with Threw c msg => throw c msg | _ => on_response (detached (respond (awaited r))) end.

Definition not_allowed (allow : list jsstr) : outcome fresponse :=
  new_Response NoBody (Some 405) (FromObject [(js "allow", HStr (join (js ", ") allow))]).

Definition handleRequest (srv : server) (table : option (list troute)) (fetchHandler : option handler) (c : conn) : XM unit :=
  match applyTimeout srv with Some t => modify (set_timer t) | None => mret tt end ;;
  let req := new_ServerRequest (cn_wsi c) in
  m ← on_response (of_outcome (match table with Some t => matchRoute t (sr_path req) (sr_method req) | None => Ok None end));
  match m with
  | Some (MAllow _ allow) => r ← on_response (of_outcome (not_allowed allow)); answer (Returned (VResponse r))
  | Some (MHandler params h) =>
    request ← on_response (of_outcome (toRequest c));
    answer (h (set_params params request))
  | None =>
    request ← on_response (of_outcome (toRequest c));
    match fetchHandler with
    | Some h => answer (h request)
    | None => modify (queue_push request)
    end
  end.

(* ------------------------------------------------------------------ *)
(** ** Upgrades *)

(** Requests are objects: [pd_request] is which one.  The value that an
    option may have under [data] is a number. *)
Record pending := Pending { pd_request : nat; pd_accepted : bool; pd_data : option Z; pd_decided : bool }.

(** [us_rejections] is history: the responses to refused upgrades. *)
Record upgrades := Upgrades { us_data : gmap nat (option Z); us_pending : option pending; us_rejections : list (nat * response) }.

Definition no_upgrades : upgrades := Upgrades ∅ None [].

Abbreviation UM A := (SM upgrades A) (only parsing).

Definition set_us_data v (u : upgrades) : upgrades := Upgrades v (us_pending u) (us_rejections u).
Definition set_us_pending v (u : upgrades) : upgrades := Upgrades (us_data u) v (us_rejections u).

Definition upgradeConnection (request : nat) (data : option Z) : UM bool :=
  p ← gets us_pending;
  match p with
  | Some p =>
    if negb (bool_decide (pd_request p = request)) || pd_decided p then mret false else
    modify (set_us_pending (Some (Pending (pd_request p) true data true))) ;; mret true
  | None => mret false
  end.

(** The calls of [server.upgrade] that the handler makes before it returns, with their answers. *)
Fixpoint upgrade_calls (calls : list (nat * option Z)) : UM (list bool) :=
  match calls with
  | [] => mret []
  | (request, data) :: calls => b ← upgradeConnection request data; bs ← upgrade_calls calls; mret (b :: bs)
  end.

(** [undefined] when the body cannot be had at once. *)
Definition syncResponseBytes (r : fresponse) : option bytes :=
  match fr_body r with
  | None => Some []
  | Some b => match bd_init b with Some c => Some (chunk_bytes c) | None => None end
  end.

Definition reject_with (r : fresponse) (data : bytes) : PM unit :=
  status (fr_status r) ;;
  append_each (forEach (fr_headers r)) ;;
  end_ (Some (CBuf data)).

(** The hook for an upgrade to a web socket on connection [w], whose request
    is [request]; the handler makes [calls] and ends with [r].  Of the numbers
    it returns 0 goes on, 1 has been answered, -1 hangs up. *)
Definition upgradeHook (w request : nat) (calls : list (nat * option Z)) (r : result) : UM Z :=
  modify (set_us_pending (Some (Pending request false None false))) ;;
  upgrade_calls calls ;;
  p ← gets us_pending;
  modify (set_us_pending None) ;;
  match r with
  | Threw c msg => throw c msg
  | _ =>
    if (match p with Some p => pd_accepted p | None => false end) then
      modify (fun u => set_us_data (<[w := match p with Some p => pd_data p | None => None end]> (us_data u)) u) ;; mret 0
    else
      match r with
      | Promised _ | Threw _ _ => mret (-1)
      | Returned v => fun u =>
        match toResponse v with
        | Throw c msg => (Throw c msg, u)
        | Ok response =>
          match syncResponseBytes response with
          | None => (Ok (-1), u)
          | Some data =>
            let '(o, resp) := reject_with response data new_ServerResponse in
            (match o with Ok _ => Ok 1 | Throw c msg => Throw c msg end, Upgrades (us_data u) (us_pending u) (us_rejections u ++ [(w, resp)]))
          end
        end
      end
  end.

(** The [open] of a web socket: the data its request was accepted with. *)
Definition ws_opened (w : nat) : UM (option (option Z)) :=
  m ← gets us_data;
  match m !! w with
  | Some d => modify (fun u => set_us_data (base.delete w (us_data u)) u) ;; mret (Some d)
  | None => mret None
  end.

(** How the native side, which calls the hook, reads what came of it: an
    exception is printed, and its value converted to an integer like any
    other.  What the engine makes of it is [thrown_int32] (0 in QuickJS,
    the number of a hook that allows the upgrade). *)
Variable thrown_int32 : Z.
Definition protocol_callback (o : outcome Z) : Z := match o with Ok code => code | Throw _ _ => thrown_int32 end.

Inductive uevent := UHook (w request : nat) (calls : list (nat * option Z)) (r : result) | UForeign (request : nat) (data : option Z) | UOpen (w : nat).

(** What an event gives: of a hook, what it returned or threw, and the number that lws is told. *)
Inductive ureply := UCode (o : outcome Z) (code : Z) | UAnswer (b : outcome bool) | UData (d : outcome (option (option Z))).

Definition uevent_run (e : uevent) (u : upgrades) : ureply * upgrades :=
  match e with
  | UHook w request calls r => let '(o, u) := upgradeHook w request calls r u in (UCode o (protocol_callback o), u)
  | UForeign request data => let '(o, u) := upgradeConnection request data u in (UAnswer o, u)
  | UOpen w => let '(o, u) := ws_opened w u in (UData o, u)
  end.
End Serve.

