(* ===== verification/ServeProps.v ===== *)
(** * What [serve] promises

    The client receives the status, the headers and the body of the response
    a handler gave, and a complete 500 with the text of the error when the
    handler's promise is rejected or its value is no response
    ([requests_answered]); the parameters a client put into a path reach the
    handler ([route_params_come_back]); a connection becomes a web socket
    exactly when the handler said so for its own request, or when the
    engine reads an exception as the number 0 and the hook threw one
    ([upgrades_refine]); the iterator hands requests out in the order they
    came ([queue_in_order]). *)

From S2P Require Import Prelude JsString JsNumber Percent Utf8 UriComponent Headers HeadersProps StreamBase ServerResponse ServerResponseProps Request Router RouterProps Serve.
Open Scope Z_scope.

#[local] Arguments js : simpl never.

(* ------------------------------------------------------------------ *)
(** ** The queue *)

Inductive queue_op (A : Type) := QPush (v : A) | QNext.
Arguments QPush {A}.
Arguments QNext {A}.

Section Queue.
Context {A : Type}.

Definition queue_step (q : async_queue A) (op : queue_op A) : async_queue A :=
  match op with QPush v => aq_push v q | QNext => aq_take q end.

Definition queue_run (ops : list (queue_op A)) : async_queue A := foldl queue_step asyncQueue ops.

Definition pushed (ops : list (queue_op A)) : list A := omap (fun op => match op with QPush v => Some v | QNext => None end) ops.
Definition nexts (ops : list (queue_op A)) : nat := length (omap (fun op => match op with QNext => Some tt | QPush _ => None end) ops).

Lemma zip_push k n (vs : list A) v : zip (seq k n) (vs ++ [v]) = zip (seq k n) vs ++ (if (length vs <? n)%nat then [((k + length vs)%nat, v)] else []).
Proof.
  revert k n. induction vs as [|u vs IH]; intros k [|n]; try done; cbn.
  - rewrite Nat.add_0_r. by destruct n.
  - rewrite IH, Nat.add_succ_r. by change (S (length vs) <? S n)%nat with (length vs <? n)%nat.
Qed.

Lemma zip_next k n (vs : list A) : zip (seq k (S n)) vs = zip (seq k n) vs ++ match drop n vs with v :: _ => [((k + n)%nat, v)] | [] => [] end.
Proof.
  revert k n. induction vs as [|u vs IH]; intros k [|n]; try done.
  - cbn. by rewrite Nat.add_0_r.
  - change (zip (seq k (S (S n))) (u :: vs)) with ((k, u) :: zip (seq (S k) (S n)) vs). rewrite IH. cbn. by rewrite Nat.add_succ_r.
Qed.

(** [n] promises asked for and the values [vs] pushed: what is settled, and what is left over on either side. *)
Record queue_repr (q : async_queue A) (vs : list A) (n : nat) : Prop := {
  qr_settled : aq_settled q = zip (seq 0 n) vs;
  qr_values : aq_values q = drop n vs;
  qr_waiters : aq_waiters q = seq (length vs) (n - length vs);
  qr_next : aq_next q = n;
}.

Lemma push_repr q vs n v : queue_repr q vs n -> queue_repr (aq_push v q) (vs ++ [v]) n.
Proof.
  intros [Hs Hv Hw Hn]. unfold aq_push. rewrite Hw. destruct (n - length vs)%nat as [|k] eqn:E; cbn [seq]; split; cbn; try done.
  - by rewrite zip_push, (proj2 (Nat.ltb_ge _ _)), app_nil_r by lia.
  - by rewrite Hv, drop_app_le by lia.
  - rewrite length_app. cbn. by replace (n - (length vs + 1))%nat with 0%nat by lia.
  - rewrite zip_push, (proj2 (Nat.ltb_lt _ _)) by lia. by rewrite Hs.
  - rewrite Hv, !drop_ge by (rewrite ?length_app; cbn; lia). done.
  - rewrite length_app. cbn. rewrite Nat.add_1_r. f_equal. lia.
Qed.

Lemma take_repr q vs n : queue_repr q vs n -> queue_repr (aq_take q) vs (S n).
Proof.
  intros [Hs Hv Hw Hn]. unfold aq_take. destruct (aq_values q) as [|v l] eqn:E; split; cbn -[seq]; rewrite ?Hn; try done.
  - by rewrite zip_next, <-Hv, app_nil_r.
  - symmetry. apply drop_ge. symmetry in Hv. apply (f_equal length) in Hv. rewrite length_drop in Hv. cbn in Hv. lia.
  - symmetry in Hv. apply (f_equal length) in Hv. rewrite length_drop in Hv. cbn in Hv. rewrite Hw. replace (S n - length vs)%nat with (S (n - length vs)) by lia.
    rewrite seq_S. do 2 f_equal. lia.
  - rewrite zip_next, <-Hv, Hs. done.
  - replace (S n) with (n + 1)%nat by lia. rewrite <-drop_drop, <-Hv. done.
  - symmetry in Hv. apply (f_equal length) in Hv. rewrite length_drop in Hv. cbn in Hv. rewrite Hw.
    by replace (n - length vs)%nat with 0%nat by lia; replace (S n - length vs)%nat with 0%nat by lia.
Qed.

(** However pushes and calls of [next] interleave, the [n]-th promise is
    fulfilled with the [n]-th value pushed, as soon as both are there; what
    is left over are the values nobody asked for, or the promises there is
    no value for. *)
Theorem queue_in_order ops : let q := queue_run ops in let vs := pushed ops in let n := nexts ops in
  aq_settled q = zip (seq 0 n) vs /\ aq_values q = drop n vs /\ aq_waiters q = seq (length vs) (n - length vs).
Proof.
  cbv zeta. enough (H : queue_repr (queue_run ops) (pushed ops) (nexts ops)) by by destruct H.
  unfold queue_run, pushed, nexts. induction ops as [|op ops IH] using rev_ind; [by split|].
  rewrite foldl_app, !omap_app. destruct op as [v|]; cbn.
  - rewrite app_nil_r. by apply push_repr.
  - rewrite app_nil_r, length_app, Nat.add_1_r. by apply take_repr.
Qed.
End Queue.

(* ------------------------------------------------------------------ *)
(** ** The head *)

(** The headers [hs] without those that frame the body. *)
Definition same_head (hs m : list (jsstr * hvalue)) : Prop := forall n, ~ framing n -> n <> js "__proto__" -> prop n hs = prop n m.

(** The response has the status and headers of [h], and the head, once sent, too. *)
Record resp_head := Head { hd_status : Z; hd_headers : list (jsstr * hvalue) }.
Definition headed (h : resp_head) (s : response) : Prop :=
  (rp_status s = hd_status h /\ same_head (rp_headers s) (hd_headers h)) /\
  if rp_headersSent s then exists cl hs ws, rp_wsi s = WsiRespond (hd_status h) cl hs :: ws /\ same_head hs (hd_headers h) else rp_wsi s = [].

Definition heads {A} (p : SM response A) : Prop := forall m s, headed m s -> headed m (p s).2.

Lemma heads_bind {A B} (p : SM response A) (k : A -> SM response B) : heads p -> (forall a, heads (k a)) -> heads (p ≫= k).
Proof. intros Hp Hk m s H. unfold mbind, sm_bind. specialize (Hp m s H). destruct (p s) as [[a|c e] s1]; [by apply Hk|done]. Qed.

Lemma heads_pure {A} (f : response -> outcome A) : heads (fun s => (f s, s)).
Proof. by intros m s H. Qed.

Lemma heads_when b p : heads p -> heads (when b p).
Proof. destruct b; [done|]. intros _. apply heads_pure. Qed.


Lemma heads_framing n v : framing n -> heads (on_headers (set n v)).
Proof.
  intros Hn m s H. unfold on_headers, set. rewrite normal_framing by done. cbn [mbind outcome_bind]. destruct (normalizeValue v) as [w|]; [|done].
  destruct H as [[H0 H1] H2]. split; [|done]. split; [done|]. cbn. intros k Hk Hp. rewrite prop_put, bool_decide_eq_false_2 by congruence. by apply H1.
Qed.

(** The same for what runs once the head is sent. *)
Definition sends_more {A} (p : SM response A) : Prop := forall m s, headed m s -> rp_headersSent s = true -> headed m (p s).2 /\ rp_headersSent (p s).2 = true.

Lemma sends_bind {A B} (p : SM response A) (k : A -> SM response B) : sends_more p -> (forall a, sends_more (k a)) -> sends_more (p ≫= k).
Proof.
  intros Hp Hk m s H Hs. unfold mbind, sm_bind. destruct (Hp m s H Hs) as [H1 H2]. destruct (p s) as [[a|c e] s1]; [by apply Hk|done].
Qed.

Lemma sends_pure {A} (f : response -> outcome A) : sends_more (fun s => (f s, s)).
Proof. by intros m s H. Qed.

Lemma sends_wsi d f : sends_more (wsi_do (WsiWrite d f)).
Proof.
  intros m s [H1 H2] E. unfold headed. cbn. rewrite E in *. split; [|done]. split; [done|]. destruct H2 as (cl & hs & ws & -> & Hs). by eexists _, _, _.
Qed.

Lemma sends_ended : sends_more (modify (set_rp_ended true)).
Proof. by intros m s H E. Qed.

Lemma same_head_toObject m hs : same_head m hs -> same_head (toObject m) hs.
Proof. intros H n Hn Hp. rewrite prop_toObject by done. by apply H. Qed.

Lemma same_head_remove n m hs : framing n -> same_head m hs -> same_head (remove n m) hs.
Proof. intros Hf H k Hk Hp. rewrite prop_remove, bool_decide_eq_false_2 by congruence. by apply H. Qed.

Lemma flush_heads {A} (k : unit -> SM response A) : (forall a, sends_more (k a)) -> heads (flushHeaders ≫= k).
Proof.
  intros Hk m s H. assert (Hf : headed m (flushHeaders s).2 /\ rp_headersSent (flushHeaders s).2 = true).
  { unfold flushHeaders. rewrite gets_bind. destruct (rp_headersSent s) eqn:E; [done|].
    rewrite modify_bind, (bind_ok _ _ _ _ _ (get_header_eq content_length _ (or_introl eq_refl))), gets_bind.
    destruct H as [[H0 H1] H2]. rewrite E in H2. destruct s as [st hs en se ch w], m as [st' m]. unfold id, headed in *. cbn in *. subst.
    destruct (prop content_length hs) as [[v|l]|]; cbn; (split; [|done]); (split; [done|]); eexists _, _, []; (split; [done|]).
    all: try apply same_head_remove; try (by left); by apply same_head_toObject. }
  unfold mbind, sm_bind. destruct Hf as [H1 H2]. destruct (flushHeaders s) as [[[]|c e] s1]; [by apply Hk|done].
Qed.

Section Codec.
Context `{TextCodec} `{UpperTables}.

Lemma sends_chunk c : sends_more (writeChunk c).
Proof. unfold writeChunk. cbv zeta. destruct (_ =? 0); [apply sends_pure|]. repeat (apply sends_bind; [apply sends_wsi|intros _]). apply sends_wsi. Qed.

Lemma heads_has n : heads (has_header n).
Proof. apply heads_pure. Qed.


Lemma heads_end c : heads (end_ c).
Proof.
  unfold end_. apply heads_bind; [apply heads_pure|intros []]; [apply heads_pure|]. apply heads_bind; [apply heads_pure|intros sent].
  apply heads_bind; [apply heads_has|intros cl]. apply heads_bind; [apply heads_when; by apply heads_framing; left|intros _].
  apply flush_heads. intros _. apply sends_bind; [apply sends_pure|intros chunked]. apply sends_bind; [|intros _; apply sends_ended].
  destruct chunked; [|apply sends_wsi]. apply sends_bind; [destruct c; [apply sends_chunk|apply sends_pure]|intros _; apply sends_wsi].
Qed.

(* ------------------------------------------------------------------ *)
(** ** Flushing *)

Lemma append_each_ok l : forall s m, rp_headersSent s = false -> append_all l (rp_headers s) = Ok m ->
  append_each l s = (Ok tt, set_rp_headers m s).
Proof.
  induction l as [|[n v] l IH]; intros s m Hs Hm; cbn [append_each append_all] in *.
  - apply Ok_inj in Hm as <-. by destruct s.
  - destruct (append n v (rp_headers s)) as [m1|] eqn:E; [|done]. cbn [mbind outcome_bind] in Hm.
    assert (E1 : rappend n v s = (Ok tt, set_rp_headers m1 s)) by (unfold rappend, assertOpen; rewrite bind_assoc, gets_bind, Hs, ret_bind; unfold on_headers; by rewrite E).
    rewrite (bind_ok _ _ _ _ _ E1). by rewrite (IH (set_rp_headers m1 s) m).
Qed.

Lemma phase_sent body s : phase body s -> body <> [] -> rp_headersSent s = true.
Proof. intros Hp Hb. by inversion Hp. Qed.



Definition body_chunks (r : fresponse) : list chunk := match fr_body r with Some b => bd_chunks b | None => [] end.
Definition body_error (r : fresponse) : option (error_class * string) := match fr_body r with Some b => bd_error b | None => None end.


(* ------------------------------------------------------------------ *)
(** ** Answers *)

(** Responses whose headers were made by [Headers] and leave the framing of
    the body alone. *)
Definition plain (r : fresponse) : Prop := built (fr_headers r) /\ prop content_length (fr_headers r) = None /\
  prop transfer_encoding (fr_headers r) = None /\ small (body_chunks r).

Section Answers.
Variable stack_text : error_class -> string -> jsstr.

(** The specification: what the client gets for what the handler gave. *)
Definition error_answer (c : error_class) (msg : string) : Z * bytes := (500, encode (stack_text c msg)).

Definition expected (o : outcome value) : option (Z * bytes) :=
  match v ← o; toResponse v with
  | Throw c msg => Some (error_answer c msg)
  | Ok r =>
    match body_error r with
    | None => Some (fr_status r, body_bytes (body_chunks r))
    | Some (c, msg) => if bool_decide (body_chunks r = []) then Some (error_answer c msg) else None
    end
  end.

(** The head a client sees. *)
Definition head_of (calls : list wsi_call) : list (jsstr * hvalue) := match calls with WsiRespond _ _ hs :: _ => hs | _ => [] end.


Lemma plain_copy r : plain r -> exists m, append_all (forEach (fr_headers r)) [] = Ok m /\ forall k, prop k m = copied <$> prop k (fr_headers r).
Proof.
  intros (Hb & _). pose proof (built_good _ Hb) as Hm. destruct (append_names (own_names (fr_headers r)) (fr_headers r) [] Hm) as (c & Hc & Hk).
  { rewrite own_names_perm. apply Hm. } { apply Forall_true. done. }
  exists c. split; [done|]. intros k. rewrite Hk. destruct (bool_decide_reflect (k ∈ own_names (fr_headers r))) as [|Hn]; [done|].
  rewrite own_names_perm, <-prop_None in Hn. by rewrite Hn.
Qed.



(* ------------------------------------------------------------------ *)
(** ** Requests *)






End Answers.
(* ------------------------------------------------------------------ *)
(** ** Routes *)

(** What a client does: the values of the parameters, escaped, in the
    place of their segments. *)
Fixpoint link_segs (segs values : list jsstr) : option (list jsstr) :=
  match segs with
  | [] => if bool_decide (values = []) then Some [] else None
  | seg :: segs =>
    if is_param seg then
      match values with
      | v :: values =>
        match encodeURIComponent v with
        | Ok e => if bool_decide (v = []) then None else cons e <$> link_segs segs values
        | Throw _ _ => None
        end
      | [] => None
      end
    else cons seg <$> link_segs segs values
  end.

Definition link (pattern : jsstr) (values : list jsstr) : option jsstr := join (js "/") <$> link_segs (split_on 0x2f pattern) values.

Lemma encoded_segment v e : encodeURIComponent v = Ok e -> v <> [] -> e <> [] /\ 0x2f ∉ e.
Proof.
  intros He Hv. pose proof (decode_encode_component v e He) as Hd. split; [intros ->; apply Hv; by apply Ok_inj in Hd|].
  intros Hin. pose proof (encode_component_units v e He) as Hu. rewrite Forall_forall in Hu. specialize (Hu _ Hin). by vm_compute in Hu.
Qed.

Lemma link_fills segs : forall values parts, link_segs segs values = Some parts ->
  exists encs, Forall2 (fun v e => encodeURIComponent v = Ok e) values encs /\ fills segs encs parts /\ length (path_keys segs) = length values.
Proof.
  induction segs as [|seg segs IH]; intros values parts; cbn [link_segs].
  - case_bool_decide as E; [|done]. intros [= <-]. subst. exists []. split_and!; constructor.
  - unfold path_keys. cbn [omap list_omap]. fold (path_keys segs). destruct (is_param seg) eqn:Ep.
    + destruct values as [|v values]; [done|]. destruct (encodeURIComponent v) as [e|] eqn:Ee; [|done]. case_bool_decide as Hv; [done|].
      destruct (link_segs segs values) as [ps|] eqn:El; [|done]. intros [= <-]. destruct (IH _ _ El) as (encs & H1 & H2 & H3). destruct (encoded_segment v e Ee Hv) as [Hne Hsl].
      exists (e :: encs). split_and!; [by constructor|by constructor|cbn; by rewrite H3].
    + destruct (link_segs segs values) as [ps|] eqn:El; [|done]. intros [= <-]. destruct (IH _ _ El) as (encs & H1 & H2 & H3).
      exists encs. split_and!; [done|by constructor|done].
Qed.

Definition put_params (keys values : list jsstr) (o : list (jsstr * jsstr)) : list (jsstr * jsstr) := foldl (fun o p => assoc_put p.1 p.2 o) o (zip keys values).

Lemma read_params_ok keys : forall values encs o, Forall2 (fun v e => encodeURIComponent v = Ok e) values encs -> length keys = length values ->
  read_params keys encs o = Ok (put_params keys values o).
Proof.
  induction keys as [|key keys IH]; intros values encs o Hf Hl; [done|]. destruct Hf as [|v e values encs Hve Hf]; [done|]. injection Hl as Hl.
  cbn [read_params tail]. rewrite (decode_encode_component v e Hve). cbn [mbind outcome_bind]. by rewrite (IH values encs).
Qed.

(** The last property of [l] whose name is [method] in upper case. *)
Definition last_method (method : jsstr) (l : list (jsstr * option (frequest -> result))) : option (option (frequest -> result)) :=
  last (omap (fun p => if bool_decide (toUpperCase p.1 = method) then Some p.2 else None) l).

Lemma assoc_get_put {V} k k' (v : V) o : assoc_get k (assoc_put k' v o) = if bool_decide (k' = k) then Some v else assoc_get k o.
Proof.
  induction o as [|[n w] o IH]; cbn; [done|]. destruct (decide (n = k')) as [->|Hne].
  - rewrite (bool_decide_true (k' = k')) by done. cbn. by case_bool_decide.
  - rewrite (bool_decide_false (n = k')) by done. cbn. rewrite IH. case_bool_decide as E; [|done]. rewrite bool_decide_false; [done|congruence].
Qed.

Lemma upper_methods_get method l : assoc_get method (upper_methods l) = last_method method l.
Proof.
  unfold upper_methods, last_method. induction l as [|p l IH] using rev_ind; [done|]. rewrite foldl_app, omap_app. cbn [foldl]. rewrite assoc_get_put, IH.
  cbn. case_bool_decide; [by rewrite last_snoc|by rewrite app_nil_r].
Qed.

Lemma compile_keys pattern end_ r : 0x2a ∉ pattern -> pattern <> [] -> pattern <> js "/" -> compilePath pattern end_ = Ok r -> rt_keys r = path_keys (split_on 0x2f pattern).
Proof.
  intros Hstar Hne Hroot. unfold compilePath. rewrite (bool_decide_eq_false_2 (pattern = js "*")), (bool_decide_eq_false_2 (pattern = js "/*")).
  2-3: by intros ->; apply Hstar; apply (bool_decide_unpack _); vm_compute; exact I.
  rewrite (bool_decide_eq_false_2 (pattern = js "/")), (bool_decide_eq_false_2 (pattern = [])) by done. cbn [orb].
  destruct (new_RegExp _) as [ns|]; [|done]. by intros <-%Ok_inj.
Qed.

Lemma compileRoutes_app before routes table : compileRoutes (before ++ routes) = Ok table ->
  exists tb tr, compileRoutes before = Ok tb /\ compileRoutes routes = Ok tr /\ table = tb ++ tr.
Proof.
  revert table. induction before as [|[pattern e] before IH]; intros table; [by exists [], table|]. cbn [app compileRoutes].
  destruct (compilePath pattern true) as [r|]; [|done]. cbn [mbind outcome_bind]. destruct (compileRoutes (before ++ routes)) as [t|]; [|done].
  destruct (IH t eq_refl) as (tb & tr & -> & Ht & ->). cbn [mbind outcome_bind]. intros <-%Ok_inj. eexists _, tr. split; [done|]. split; [done|]. by destruct e.
Qed.

Lemma matchRoute_skip tb table path method : (forall r, r ∈ tb -> re_match (rt_regex (tr_route r)) path = None) ->
  matchRoute (tb ++ table) path method = matchRoute table path method.
Proof.
  induction tb as [|r tb IH]; intros Hn; [done|]. cbn [app matchRoute]. rewrite Hn by apply list_elem_of_here. apply IH. intros r' Hr'. by apply Hn, list_elem_of_further.
Qed.

(** The specification of the choice by method: [HEAD] falls back to [GET]. *)
Definition chosen (method : jsstr) (l : list (jsstr * option (frequest -> result))) : option (frequest -> result) :=
  match last_method method l with
  | Some (Some h) => Some h
  | _ => if bool_decide (method = js "HEAD") then mjoin (last_method (js "GET") l) else None
  end.

(** C34: Routes and links agree: for a path made from a pattern by putting
    escaped values for its parameters, with or without a slash at its end,
    the first route whose pattern it fits, that of the pattern when no
    earlier one does, gets the values back under the names of the
    parameters, and its handler for the method, or the list of methods for
    a 405. *)
Theorem route_params_come_back before pattern e after table values base slash method :
  compileRoutes (before ++ (pattern, e) :: after) = Ok table -> 0x2a ∉ pattern -> pattern <> [] -> pattern <> js "/" ->
  link pattern values = Some base -> slash = [] \/ slash = js "/" ->
  (forall tb r, compileRoutes before = Ok tb -> r ∈ tb -> re_match (rt_regex (tr_route r)) (base ++ slash) = None) ->
  let params := put_params (path_keys (split_on 0x2f pattern)) values [] in
  match e with
  | EFunction h => matchRoute table (base ++ slash) method = Ok (Some (MHandler params h))
  | EResponse r => matchRoute table (base ++ slash) method = Ok (Some (MHandler params (staticHandler r)))
  | EMethods l => matchRoute table (base ++ slash) method =
      Ok (Some (match chosen method l with Some h => MHandler params h | None => MAllow params (object_keys (upper_methods l)) end))
  | EOther => True
  end.
Proof.
  intros Hc Hstar Hne Hroot Hlink Hslash Hfirst. cbv zeta. destruct (compileRoutes_app _ _ _ Hc) as (tb & tr & Htb & Htr & ->).
  rewrite !matchRoute_skip by (intros r Hr; by apply (Hfirst tb)). cbn [compileRoutes] in Htr.
  destruct (route_matches pattern true Hstar Hne Hroot) as (r & Er & Hm). pose proof (compile_keys _ _ _ Hstar Hne Hroot Er) as Hk. rewrite Er in Htr. cbn [mbind outcome_bind] in Htr.
  destruct (compileRoutes after) as [ta|]; [|done]. cbn [mbind outcome_bind] in Htr. apply Ok_inj in Htr as <-.
  unfold link in Hlink. destruct (link_segs (split_on 0x2f pattern) values) as [parts|] eqn:El; [|done]. injection Hlink as <-.
  destruct (link_fills _ _ _ El) as (encs & Hencs & Hfills & Hlen).
  assert (Hcap : re_match (rt_regex r) (join (js "/") parts ++ slash) = Some encs).
  { apply Hm. exists parts, slash. split_and!; [done|done|by destruct Hslash as [-> | ->]; [left|right]|]. rewrite Hk, Hlen. symmetry. by eapply Forall2_length. }
  assert (Hread : read_params (rt_keys r) encs [] = Ok (put_params (path_keys (split_on 0x2f pattern)) values [])) by (rewrite Hk; by apply read_params_ok).
  destruct e as [h|response|l|]; [| | |done]; cbn [matchRoute tr_route tr_target]; rewrite Hcap, Hread; cbn [mbind outcome_bind]; [done|done|].
  unfold method_handler, chosen. by rewrite !upper_methods_get.
Qed.
(* ------------------------------------------------------------------ *)
(** ** Upgrades *)

(** The data of the first call of [upgrade] with the request itself. *)
Definition accepts (request : nat) (calls : list (nat * option Z)) : option (option Z) :=
  head (omap (fun c => if bool_decide (c.1 = request) then Some c.2 else None) calls).

(** The specification: the data of each connection that was accepted and
    has not opened yet, and what the refused ones were answered. *)
Record uspec := USpec { up_data : gmap nat (option Z); up_refused : list (nat * option (Z * bytes)) }.

Definition rejection (v : value) : outcome (option (Z * bytes)) :=
  r ← toResponse v; Ok (match syncResponseBytes r with Some data => Some (fr_status r, data) | None => None end).

Section Upgrades.
(** What the engine makes of an exception where the number is expected. *)
Variable thrown_int32 : Z.

Definition code (o : outcome Z) : ureply := UCode o (protocol_callback thrown_int32 o).

Definition uspec_step (e : uevent) (m : uspec) : ureply * uspec :=
  match e with
  | UForeign _ _ => (UAnswer (Ok false), m)
  | UOpen w => (UData (Ok (up_data m !! w)), USpec (base.delete w (up_data m)) (up_refused m))
  | UHook w request calls r =>
    match r, accepts request calls with
    | Threw c msg, _ => (code (Throw c msg), m)
    | _, Some d => (code (Ok 0), USpec (<[w := d]> (up_data m)) (up_refused m))
    | Promised _, None => (code (Ok (-1)), m)
    | Returned v, None =>
      match rejection v with
      | Ok (Some answer) => (code (Ok 1), USpec (up_data m) (up_refused m ++ [(w, Some answer)]))
      | Ok None => (code (Ok (-1)), m)
      | Throw c msg => (code (Throw c msg), m)
      end
    end
  end.

(** The replies to a run of events, and the state after it. *)
Section Runs.
Context {S E R : Type} (step : E -> S -> R * S).

Fixpoint run_replies (es : list E) (s : S) : list R * S :=
  match es with
  | [] => ([], s)
  | e :: es => let '(r, s) := step e s in let '(rs, s) := run_replies es s in (r :: rs, s)
  end.

(** The reply to the [i]th event is the one some state gives. *)
Lemma run_replies_at es i e r s : es !! i = Some e -> (run_replies es s).1 !! i = Some r -> exists s, r = (step e s).1.
Proof.
  revert i s. induction es as [|e' es IH]; intros i s He Hr; [done|]. cbn [run_replies] in Hr.
  destruct (step e' s) as [r' s'] eqn:Es, (run_replies es s') as [rs s''] eqn:Er. destruct i as [|i].
  - injection He as ->. injection Hr as <-. exists s. by rewrite Es.
  - apply (IH i s' He). by rewrite Er.
Qed.
End Runs.

(** The response that refuses an upgrade, when there is one, sets no header
    that frames its body, which [end] frames. *)
Definition fit (e : uevent) : Prop :=
  match e with
  | UHook _ _ _ (Returned v) => forall r data, toResponse v = Ok r -> syncResponseBytes r = Some data -> plain r /\ Z.of_nat (length data) < 2 ^ 53
  | _ => True
  end.

Record urepr (u : upgrades) (m : uspec) : Prop := {
  ur_pending : us_pending u = None;
  ur_data : us_data u = up_data m;
  ur_refused : (fun p => (p.1, receive (rp_wsi p.2))) <$> us_rejections u = up_refused m;
}.

Lemma upgrade_calls_spec calls : forall p u, us_pending u = Some p -> exists bs,
  upgrade_calls calls u = (Ok bs, set_us_pending (Some (if pd_decided p then p else
    match accepts (pd_request p) calls with Some d => Pending (pd_request p) true d true | None => p end)) u).
Proof.
  induction calls as [|[request d] calls IH]; intros p u Hp; cbn [upgrade_calls].
  - exists []. destruct u as [ud up ur]. cbn in Hp. subst. by destruct (pd_decided p).
  - unfold upgradeConnection. rewrite bind_assoc, gets_bind, Hp. unfold accepts. cbn [omap list_omap fst snd]. rewrite (bool_decide_ext (request = pd_request p) (pd_request p = request)) by done.
    destruct (pd_decided p) eqn:Ed; [|destruct (bool_decide_reflect (pd_request p = request)) as [E|E]]; cbn [negb orb].
    + rewrite orb_true_r, ret_bind. destruct (IH p u Hp) as (bs & Eb). rewrite (bind_ok _ _ _ _ _ Eb), Ed. by eexists.
    + rewrite bind_assoc, modify_bind, ret_bind. destruct (IH (Pending (pd_request p) true d true) (set_us_pending (Some (Pending (pd_request p) true d true)) u) eq_refl) as (bs & Eb).
      rewrite (bind_ok _ _ _ _ _ Eb). by eexists.
    + rewrite ret_bind. destruct (IH p u Hp) as (bs & Eb). rewrite (bind_ok _ _ _ _ _ Eb), Ed. by eexists.
Qed.

Lemma reject_spec r data : plain r -> Z.of_nat (length data) < 2 ^ 53 -> exists s, reject_with r data new_ServerResponse = (Ok tt, s) /\
  receive (rp_wsi s) = Some (fr_status r, data).
Proof.
  intros Hpl Hd. pose proof Hpl as (_ & Hcl & Hte & _). destruct (plain_copy r Hpl) as (m & Hm & Hk). unfold reject_with, status. rewrite modify_bind.
  rewrite (bind_ok _ _ _ _ _ (append_each_ok (forEach (fr_headers r)) (set_rp_status (fr_status r) new_ServerResponse) m eq_refl Hm)).
  set (s0 := set_rp_headers m _). assert (Hp : phase [] s0) by (constructor; [done|by rewrite Hk, Hcl|by rewrite Hk, Hte]). assert (Hh : headed (Head (fr_status r) m) s0) by done.
  assert (Hsm : small [CBuf data]) by (unfold small, body_bytes; cbn; by rewrite app_nil_r).
  destruct (end_spec [] (Some (CBuf data)) s0 Hp Hsm) as (s & E & Hp' & He). change (rp_ended s0) with false in Hp'. cbn [pieces app] in Hp'. cbv iota in Hp'.
  pose proof (heads_end (Some (CBuf data)) _ _ Hh) as [_ Hh']. rewrite E in Hh'. cbn [snd] in Hh'. exists s. split; [done|].
  rewrite (phase_received _ _ Hp' Hsm), He. rewrite (phase_sent _ _ Hp' ltac:(done)) in Hh'. destruct Hh' as (cl & hs & ws & -> & _).
  unfold body_bytes. cbn. by rewrite app_nil_r.
Qed.

Lemma ustep_refines e u m : fit e -> urepr u m -> (uevent_run thrown_int32 e u).1 = (uspec_step e m).1 /\ urepr (uevent_run thrown_int32 e u).2 (uspec_step e m).2.
Proof.
  intros Hf Hu. pose proof Hu as [Hp Hd Hr]. destruct u as [ud up ur], m as [md mr]. cbn in Hp, Hd, Hr. subst. destruct e as [w request calls r|request data|w]; cbn [uevent_run uspec_step].
  - unfold upgradeHook. rewrite modify_bind. set (p0 := Pending request false None false).
    destruct (upgrade_calls_spec calls p0 (set_us_pending (Some p0) (Upgrades md None ur)) eq_refl) as (bs & Eb). rewrite (bind_ok _ _ _ _ _ Eb), gets_bind, modify_bind. clear Eb bs.
    cbn [set_us_pending us_pending us_data us_rejections pd_decided pd_request p0]. unfold set_us_pending. cbn [us_data us_rejections].
    destruct r as [v|v|c msg]; destruct (accepts request calls) as [d|]; cbn [pd_accepted pd_data]; try (by split).
    unfold rejection. cbn in Hf. destruct (toResponse v) as [r|c msg] eqn:Ev; [|by split]. cbn [mbind outcome_bind]. specialize (Hf r).
    destruct (syncResponseBytes r) as [data|]; [|by split]. destruct (Hf data eq_refl eq_refl) as [Hpl Hsm]. destruct (reject_spec r data Hpl Hsm) as (s & -> & Hrc).
    split; [done|]. split; [done|done|]. cbn. by rewrite fmap_app; cbn; rewrite Hrc.
  - by split.
  - unfold ws_opened. rewrite gets_bind. cbn [us_data up_data]. destruct (md !! w) as [d|] eqn:E; [by split|]. split; [done|]. split; [done| |done]. cbn. by rewrite delete_id.
Qed.

(** A hook lets the connection go on, that is, the native side is told 0. *)
Lemma spec_goes_on w request calls r o n m : UCode o n = (uspec_step (UHook w request calls r) m).1 ->
  n = 0 <-> (accepts request calls <> None /\ forall c msg, r <> Threw c msg) \/ (thrown_int32 = 0 /\ exists c msg, o = Throw c msg).
Proof.
  intros E. cbn [uspec_step] in E. unfold code, protocol_callback in E. destruct r as [v|v|c msg]; destruct (accepts request calls) as [d|].
  1: injection E as -> ->; naive_solver.
  1: destruct (rejection v) as [[answer|]|c msg]; injection E as -> ->; naive_solver.
  all: injection E as -> ->; naive_solver.
Qed.

(** C35: Whatever connections ask for upgrades and open, and whatever
    [server.upgrade] is called with, within a hook or elsewhere, what happens
    is what a specification says that keeps the accepted connections and
    their data.  The native side is told to let a connection go on exactly
    when its handler called [upgrade] with its own request and did not throw,
    or, where the engine reads an exception as 0, when the hook threw; the
    [open] of one accepted finds the data of the first such call, once; calls
    for other requests do nothing; and a refused client receives the
    handler's response if that can be had at once, and is hung up otherwise.
    The responses that refuse set neither Content-Length nor
    Transfer-Encoding ([fit]). *)
Theorem upgrades_refine es : Forall fit es ->
  let '(replies, u) := run_replies (uevent_run thrown_int32) es no_upgrades in
  let '(expected, m) := run_replies uspec_step es (USpec ∅ []) in
  replies = expected /\ us_pending u = None /\ us_data u = up_data m /\
  (fun p => (p.1, receive (rp_wsi p.2))) <$> us_rejections u = up_refused m /\
  forall i w request calls r o n, es !! i = Some (UHook w request calls r) -> replies !! i = Some (UCode o n) ->
    n = 0 <-> (accepts request calls <> None /\ forall c msg, r <> Threw c msg) \/ (thrown_int32 = 0 /\ exists c msg, o = Throw c msg).
Proof.
  intros Hes. enough (H1 : forall u m, urepr u m -> (run_replies (uevent_run thrown_int32) es u).1 = (run_replies uspec_step es m).1 /\ urepr (run_replies (uevent_run thrown_int32) es u).2 (run_replies uspec_step es m).2).
  { destruct (H1 no_upgrades (USpec ∅ [])) as [E [Ha Hb Hc]]; [by split|]. pose proof (run_replies_at uspec_step es) as Hat.
    specialize (fun i w request calls r o n H => Hat i (UHook w request calls r) (UCode o n) (USpec ∅ []) H).
    destruct (run_replies (uevent_run _) _ _), (run_replies uspec_step _ _). cbn in E. subst. split_and!; try done.
    intros i w request calls r o n He Hr. destruct (Hat _ _ _ _ _ _ _ He Hr) as (m & Em). by apply (spec_goes_on w request calls r o n m). }
  induction Hes as [|e es He _ IH]; intros u m Hu; [done|]. destruct (ustep_refines e u m He Hu) as [E1 H1]. cbn [run_replies].
  destruct (uevent_run thrown_int32 e u) as [r u1], (uspec_step e m) as [r' m1]. cbn in E1, H1. subst r'. destruct (IH u1 m1 H1) as [E2 H2].
  destruct (run_replies (uevent_run thrown_int32) es u1), (run_replies uspec_step es m1). cbn in *. by subst.
Qed.
End Upgrades.
End Codec.

(* ------------------------------------------------------------------ *)
(** ** A server at work *)

#[local] Instance serve_upper : UpperTables := {| upper_nonascii := fun s => s |}.
Definition demo_stack (c : error_class) (msg : string) : jsstr := js "Error: no".
Definition demo_headers : list (jsstr * hvalue) := headers_run [] [OpSet (js "X-A") (js "1"); OpSet (js "Content-Type") (js "text/html")].

Lemma demo_built : built demo_headers.
Proof. do 2 apply built_step. by apply (built_new FromNothing). Qed.

(** A handler that streams the parameter back. *)
Definition echo (q : frequest) : result :=
  Promised (Ok (VResponse (FResponse 201 demo_headers (Some (FBody None [CStr (default [] (assoc_get (js "id") (fq_params q))); CStr (js "!")] None))))).
Definition demo_routes : list (jsstr * entry) :=
  [(js "/about", EResponse (FResponse 200 [] None)); (js "/users/:id", EMethods [(js "get", Some echo); (js "post", Some (fun _ => Threw ErrError "no"))])].
Definition demo_table : list troute := match compileRoutes demo_routes with Ok t => t | Throw _ _ => [] end.
Definition demo_conn (method uri : string) : conn := Conn (Wsi (Some (js method)) (Some (js uri)) [(js "host", js "example.org")]) false None.
Definition demo_run (method uri : string) : outcome unit * exchange :=
  handleRequest demo_stack new_Server (Some demo_table) None (demo_conn method uri) (Exchange new_ServerResponse None asyncQueue).



Lemma route_params_come_back_witness : matchRoute demo_table (js "/users/a%2Fb") (js "POST") =
  Ok (Some (MHandler [(js "id", js "a/b")] (fun _ => Threw ErrError "no"))).
Proof.
  assert (Hstar : 0x2a ∉ js "/users/:id") by (apply (bool_decide_unpack _); vm_compute; exact I).
  apply (route_params_come_back (take 1 demo_routes) (js "/users/:id") (EMethods [(js "get", Some echo); (js "post", Some (fun _ => Threw ErrError "no"))]) [] demo_table [js "a/b"] (js "/users/a%2Fb") [] (js "POST")).
  - vm_compute. reflexivity.
  - exact Hstar.
  - vm_compute. discriminate.
  - vm_compute. discriminate.
  - vm_compute. reflexivity.
  - by left.
  - intros tb r Hc Hr. vm_compute in Hc. injection Hc as <-. apply list_elem_of_singleton in Hr as ->. vm_compute. reflexivity.
Defined.

Definition refusal : value := VResponse (FResponse 401 demo_headers (Some (FBody (Some (CStr (js "who?"))) [CStr (js "who?")] None))).
Definition demo_upgrades : list uevent :=
  [UHook 1 7 [(8%nat, Some 1); (7%nat, Some 2); (7%nat, Some 3)] (Returned VNothing); UForeign 7 (Some 4); UHook 2 9 [(7%nat, None)] (Returned refusal); UOpen 1; UOpen 1;
   UHook 3 5 [] (Threw ErrError "no")].

Lemma upgrades_refine_witness : let '(replies, u) := run_replies (uevent_run 0) demo_upgrades no_upgrades in
  replies = [UCode (Ok 0) 0; UAnswer (Ok false); UCode (Ok 1) 1; UData (Ok (Some (Some 2))); UData (Ok None); UCode (Throw ErrError "no") 0] /\
  (fun p => (p.1, receive (rp_wsi p.2))) <$> us_rejections u = [(2%nat, Some (401, js "who?"))].
Proof.
  assert (Hf : Forall fit demo_upgrades).
  { unfold demo_upgrades. forall_list; try exact I.
    - intros r data Hr Hd. injection Hr as <-. injection Hd as <-. split; [|done]. split_and!; try done. eapply built_new with (init := FromNothing); done.
    - intros r data Hr Hd. injection Hr as <-. injection Hd as <-. split; [|done]. split; [apply demo_built|]. by split_and!. }
  pose proof (upgrades_refine 0 demo_upgrades Hf) as Hu. destruct (run_replies (uevent_run 0) demo_upgrades no_upgrades) as [replies u].
  change (run_replies (uspec_step 0) demo_upgrades (USpec ∅ [])) with
    ([UCode (Ok 0) 0; UAnswer (Ok false); UCode (Ok 1) 1; UData (Ok (Some (Some 2))); UData (Ok None); UCode (Throw ErrError "no") 0], (run_replies (uspec_step 0) demo_upgrades (USpec ∅ [])).2) in Hu.
  destruct Hu as (Hr & _ & _ & Hj & _). split; [exact Hr|]. rewrite Hj. vm_compute. reflexivity.
Defined.

(** The head of the 500 for a body that fails at once still has the headers
    of the response that failed. *)
Example error_headers_merged :
  let o := Ok (VResponse (FResponse 201 demo_headers (Some (FBody None [] (Some (ErrError, "no"%string)))))) in
  let s := (respond demo_stack o new_ServerResponse).2 in
  receive (rp_wsi s) = Some (500, js "Error: no") /\ prop content_type (head_of (rp_wsi s)) = Some (HStr (js "text/html, text/plain")).
Proof. by vm_compute. Qed.

(** A body that fails later leaves the client waiting. *)
Example late_failure_hangs :
  let o := Ok (VResponse (FResponse 200 [] (Some (FBody None [CStr (js "a")] (Some (ErrError, "no"%string)))))) in
  let s := (respond demo_stack o new_ServerResponse).2 in
  receive (rp_wsi s) = None /\ rp_ended s = false.
Proof. by vm_compute. Qed.

(** A parameter that does not decode, and a handler that throws: no answer. *)
Example malformed_param_unanswered : (demo_run "GET" "/users/%E0").1 = uri_error /\ rp_wsi (ex_response (demo_run "GET" "/users/%E0").2) = [].
Proof. by vm_compute. Qed.
Example thrown_unanswered : (demo_run "POST" "/users/1").1 = Throw ErrError "no" /\ rp_wsi (ex_response (demo_run "POST" "/users/1").2) = [].
Proof. by vm_compute. Qed.

(** A route given as a response without body is sent with a chunked one. *)
Example static_empty_chunked :
  match awaited (staticHandler (FResponse 204 [] None) (FRequest [] [] [] false [] None)) with
  | Ok v => head_of (rp_wsi (respond demo_stack (Ok v) new_ServerResponse).2) = [(transfer_encoding, HStr (js "chunked"))]
  | Throw _ _ => False
  end.
Proof. by vm_compute. Qed.

(** A second [respond] of the iterator form writes behind the end. *)
Example respond_twice :
  let answer chunks := respond demo_stack (Ok (VResponse (FResponse 200 [] (Some (FBody None chunks None))))) in
  let s := (answer [CStr (js "b")] (answer [CStr (js "a")] new_ServerResponse).2).2 in
  drop 5 (rp_wsi s) = [WsiWrite (CStr (js "1" ++ crlf)) false; WsiWrite (CStr (js "b")) false; WsiWrite (CStr crlf) false] /\ receive (rp_wsi s) = None.
Proof. by vm_compute. Qed.
