(* ===== verification/App.v ===== *)
(** * The middleware chain of [lib/lws/app.js]

    [App] keeps layers; [dispatch] runs them.  Handlers are programs that
    act on request and response, suspend, call [next], wait for it or not,
    start a sub-router, or leave work running behind.  What is asynchronous
    is a machine of runs (calls of the inner function [run]), strands (the
    handlers' threads of control) and chains (calls of [dispatch]); a
    scheduler takes any step that is enabled, which covers every order the
    event loop may choose. *)

From S2P Require Import Prelude JsString JsNumber Percent UriComponent Headers StreamBase ServerResponse Router.
Open Scope Z_scope.

(* ------------------------------------------------------------------ *)
(** ** Request, response and handlers *)

(** What handlers share: the request's fields that [dispatch] uses, and the
    response. *)
Record world := World { w_method : jsstr; w_path : jsstr; w_params : gmap (list Z) (list Z); w_res : response }.

Definition set_w_path v w := World (w_method w) v (w_params w) (w_res w).
Definition set_w_params v w := World (w_method w) (w_path w) v (w_res w).
Definition set_w_res v w := World (w_method w) (w_path w) (w_params w) v.

(** Errors as conditions: [undefined] and 0 are no errors. *)
Definition truthy (err : reason) : bool := match err with Undefined => false | User n => negb (n =? 0) | ErrorObj _ _ => true end.

(** A handler from where it stands.  [PNext] calls [next] and names the run
    it starts; [PFork] leaves a program running; [PDispatch] starts the
    chain of another application. *)
Inductive prog :=
| PReturn
| PThrow (e : reason)
| PDo (f : world -> world) (k : world -> prog)
| PSuspend (k : prog)
| PNext (err : reason) (k : nat -> prog)
| PAwaitRun (run : nat) (k : option reason -> prog)
| PFork (p : prog) (k : prog)
| PDispatch (app : nat) (k : nat -> prog)
| PAwaitChain (chain : nat) (k : reason + bool -> prog).

(** A function with its number of parameters, a router, or something that
    is neither. *)
Inductive handler := HFun (arity : nat) (f : reason -> prog) | HApp (app : nat) | HOther.

Record layer := Layer { ly_method : option jsstr; ly_prefix : jsstr; ly_route : route; ly_isError : bool; ly_handler : reason -> prog }.

(** [req.path.slice(path.length) || '/'] *)
Definition mounted_path (prefix path : jsstr) : jsstr :=
  match drop (length prefix) path with [] => js "/" | p => p end.

(** The handler [use] makes for a router.  It does not wait for [next]. *)
Definition mount_handler (prefix : jsstr) (app : nat) (err : reason) : prog :=
  PDo (fun w => w) (fun w =>
    let saved := w_path w in
    PDo (set_w_path (mounted_path prefix saved)) (fun _ =>
      PDispatch app (fun c => PAwaitChain c (fun res =>
        PDo (set_w_path saved) (fun _ =>
          match res with
          | inr true => PReturn
          | inr false => PNext Undefined (fun _ => PReturn)
          | inl e => PNext e (fun _ => PReturn)
          end))))).

Definition new_Layer (method : option jsstr) (prefix : jsstr) (r : route) (arity : nat) (h : reason -> prog) : layer :=
  Layer method prefix r (arity =? 4)%nat h.

(** [app.use(path, ...handlers)].  Only [compilePath] throws, at the first
    handler, before any layer is added. *)
Fixpoint use (path : jsstr) (handlers : list handler) (layers : list layer) : outcome (list layer) :=
  match handlers with
  | [] => Ok layers
  | h :: handlers =>
    match h with
    | HApp app => r ← compilePath path false; use path handlers (layers ++ [new_Layer None path r 3 (mount_handler path app)])
    | HFun arity f => r ← compilePath path false; use path handlers (layers ++ [new_Layer None path r arity f])
    | HOther => use path handlers layers
    end
  end.

(** [app._route(method, path, handlers)] *)
Definition route_layers (method path : jsstr) (handlers : list handler) (layers : list layer) : outcome (list layer) :=
  r ← compilePath path true;
  Ok (layers ++ omap (fun h => match h with HFun arity f => Some (new_Layer (Some method) (js "/") r arity f) | _ => None end) handlers).

Definition METHODS : list jsstr := [js "GET"; js "POST"; js "PUT"; js "DELETE"; js "PATCH"; js "HEAD"; js "OPTIONS"].

Fixpoint all_methods (methods : list jsstr) (path : jsstr) (handlers : list handler) (layers : list layer) : outcome (list layer) :=
  match methods with
  | [] => Ok layers
  | m :: methods => layers ← route_layers m path handlers layers; all_methods methods path handlers layers
  end.

Definition all (path : jsstr) (handlers : list handler) (layers : list layer) : outcome (list layer) := all_methods METHODS path handlers layers.

(* ------------------------------------------------------------------ *)
(** ** The machine *)

(** A call of [run]: in its loop, waiting for the handler it called, given
    over to another run, or settled. *)
Inductive run_state := RLoop (err : reason) | RWait | RFollow (run : nat) | RDone (res : option reason).

(** [rn_layer] is the layer whose handler the run called, [rn_advanced] the
    flag of that call, [rn_threw] whether the handler threw. *)
Record run := Run { rn_chain : nat; rn_state : run_state; rn_layer : option nat; rn_advanced : bool; rn_threw : bool }.
Record strand := Strand { sd_run : nat; sd_main : bool; sd_prog : prog }.
Record chain := Chain { ch_app : nat; ch_i : nat; ch_responded : bool; ch_root : nat; ch_result : option (reason + bool) }.

(** A handler's call: what it was given and the request at that time. *)
Record call := Call { cl_chain : nat; cl_layer : nat; cl_err : reason; cl_method : jsstr; cl_path : jsstr }.

Record machine := Machine { mc_world : world; mc_chains : list chain; mc_runs : list run; mc_strands : list strand; mc_log : list call }.

Definition set_rn_state v r := Run (rn_chain r) v (rn_layer r) (rn_advanced r) (rn_threw r).
Definition set_rn_advanced r := Run (rn_chain r) (rn_state r) (rn_layer r) true (rn_threw r).
Definition set_ch_i v c := Chain (ch_app c) v (ch_responded c) (ch_root c) (ch_result c).
Definition set_ch_responded c := Chain (ch_app c) (ch_i c) true (ch_root c) (ch_result c).
Definition set_ch_result v c := Chain (ch_app c) (ch_i c) (ch_responded c) (ch_root c) (Some v).

Definition set_world v m := Machine v (mc_chains m) (mc_runs m) (mc_strands m) (mc_log m).
Definition upd_chain c f m := Machine (mc_world m) (alter f c (mc_chains m)) (mc_runs m) (mc_strands m) (mc_log m).
Definition upd_run r f m := Machine (mc_world m) (mc_chains m) (alter f r (mc_runs m)) (mc_strands m) (mc_log m).
Definition set_prog s p m := Machine (mc_world m) (mc_chains m) (mc_runs m) (alter (fun d => Strand (sd_run d) (sd_main d) p) s (mc_strands m)) (mc_log m).
Definition add_run r m := Machine (mc_world m) (mc_chains m) (mc_runs m ++ [r]) (mc_strands m) (mc_log m).
Definition add_strand d m := Machine (mc_world m) (mc_chains m) (mc_runs m) (mc_strands m ++ [d]) (mc_log m).
Definition add_chain c m := Machine (mc_world m) (mc_chains m ++ [c]) (mc_runs m) (mc_strands m) (mc_log m).
Definition add_call c m := Machine (mc_world m) (mc_chains m) (mc_runs m) (mc_strands m) (mc_log m ++ [c]).

Definition new_run (c : nat) (err : reason) : run := Run c (RLoop err) None false false.

(** [app.dispatch(req, res)] up to its first [await]. *)
Definition dispatch (app : nat) (m : machine) : machine :=
  add_run (new_run (length (mc_chains m)) Undefined) (add_chain (Chain app 0 false (length (mc_runs m)) None) m).

Section Machine.
Context `{TextCodec}.
(** The layers of each application, and [String(err.stack || err.message || err)]. *)
Variables (apps : nat -> list layer) (error_text : reason -> jsstr).

(** [req.params[key] = decodeURIComponent(capture)] for each key. *)
Fixpoint set_params (keys caps : list jsstr) (params : gmap (list Z) (list Z)) : gmap (list Z) (list Z) * option reason :=
  match keys with
  | [] => (params, None)
  | key :: keys =>
    match decodeURIComponent (default [] (head caps)) with
    | Ok v => set_params keys (drop 1 caps) (<[key := v]> params)
    | Throw c e => (params, Some (ErrorObj c e))
    end
  end.

Definition plain_text : jsstr := js "text/plain".
Definition reply (code : Z) (text : jsstr) : SM response unit := status code ;; type plain_text ;; end_ (Some (CStr text)).

(** The end of the loop: an error nobody handled is answered with 500. *)
Definition drained (r c : nat) (err : reason) (m : machine) : machine :=
  if negb (truthy err) then upd_run r (set_rn_state (RDone None)) m else
  let m := upd_chain c set_ch_responded m in
  if rp_headersSent (w_res (mc_world m)) then upd_run r (set_rn_state (RDone None)) m else
  let '(o, res) := reply 500 (error_text err) (w_res (mc_world m)) in
  upd_run r (set_rn_state (RDone (match o with Ok _ => None | Throw k e => Some (ErrorObj k e) end))) (set_world (set_w_res res (mc_world m)) m).

(** One turn of the loop. *)
Definition loop_turn (r : nat) (rn : run) (err : reason) (ch : chain) (m : machine) : machine :=
  let c := rn_chain rn in let i := ch_i ch in let w := mc_world m in
  match apps (ch_app ch) !! i with
  | None => drained r c err m
  | Some ly =>
    let m := upd_chain c (set_ch_i (S i)) m in
    if match ly_method ly with Some k => negb (bool_decide (k = w_method w)) | None => false end then m else
    match re_match (rt_regex (ly_route ly)) (w_path w) with
    | None => m
    | Some caps =>
      let '(params, thrown) := set_params (rt_keys (ly_route ly)) caps (w_params w) in
      let m := set_world (set_w_params params w) m in
      match thrown with
      | Some e => upd_run r (set_rn_state (RDone (Some e))) m
      | None =>
        if negb (eqb (truthy err) (ly_isError ly)) then m else
        add_strand (Strand r true (ly_handler ly err))
          (add_call (Call c i err (w_method w) (w_path w)) (upd_run r (fun _ => Run c RWait (Some i) false false) m))
      end
    end
  end.

Definition step_run (r : nat) (m : machine) : option machine :=
  rn ← mc_runs m !! r;
  match rn_state rn with
  | RLoop err => ch ← mc_chains m !! rn_chain rn; Some (loop_turn r rn err ch m)
  | RFollow r' => rn' ← mc_runs m !! r';
    match rn_state rn' with RDone res => Some (upd_run r (set_rn_state (RDone res)) m) | _ => None end
  | RWait | RDone _ => None
  end.

(** The handler's promise is fulfilled, or rejected: [catch(e) { return run(e); }]. *)
Definition handler_returned (r : nat) (rn : run) (m : machine) : machine :=
  let m := if rn_advanced rn then m else upd_chain (rn_chain rn) set_ch_responded m in
  upd_run r (set_rn_state (RDone None)) m.
Definition handler_threw (r : nat) (rn : run) (e : reason) (m : machine) : machine :=
  add_run (new_run (rn_chain rn) e)
    (upd_run r (fun rn => Run (rn_chain rn) (RFollow (length (mc_runs m))) (rn_layer rn) (rn_advanced rn) true) m).

(** A strand at its end is not stepped again. *)
Definition finish_strand (s : nat) (m : machine) : machine :=
  Machine (mc_world m) (mc_chains m) (mc_runs m) (alter (fun d => Strand (sd_run d) false PReturn) s (mc_strands m)) (mc_log m).

Definition step_strand (s : nat) (m : machine) : option machine :=
  d ← mc_strands m !! s;
  rn ← mc_runs m !! sd_run d;
  match sd_prog d with
  | PReturn => if sd_main d then Some (finish_strand s (handler_returned (sd_run d) rn m)) else None
  | PThrow e => Some (finish_strand s (if sd_main d then handler_threw (sd_run d) rn e m else m))
  | PDo f k => let w := f (mc_world m) in Some (set_prog s (k w) (set_world w m))
  | PSuspend k => Some (set_prog s k m)
  | PNext err k => Some (set_prog s (k (length (mc_runs m))) (add_run (new_run (rn_chain rn) err) (upd_run (sd_run d) set_rn_advanced m)))
  | PAwaitRun r k => rn' ← mc_runs m !! r; match rn_state rn' with RDone res => Some (set_prog s (k res) m) | _ => None end
  | PFork p k => Some (add_strand (Strand (sd_run d) false p) (set_prog s k m))
  | PDispatch app k => Some (set_prog s (k (length (mc_chains m))) (dispatch app m))
  | PAwaitChain c k => ch ← mc_chains m !! c; res ← ch_result ch; Some (set_prog s (k res) m)
  end.

(** [await run(); return responded || res.sent;] *)
Definition step_chain (c : nat) (m : machine) : option machine :=
  ch ← mc_chains m !! c;
  rn ← mc_runs m !! ch_root ch;
  match ch_result ch, rn_state rn with
  | None, RDone None => Some (upd_chain c (set_ch_result (inr (ch_responded ch || rp_ended (w_res (mc_world m))))) m)
  | None, RDone (Some e) => Some (upd_chain c (set_ch_result (inl e)) m)
  | _, _ => None
  end.

Inductive step : machine -> machine -> Prop :=
| StepRun r m m' : step_run r m = Some m' -> step m m'
| StepStrand s m m' : step_strand s m = Some m' -> step m m'
| StepChain c m m' : step_chain c m = Some m' -> step m m'.

(** A request to application [app]. *)
Definition start (app : nat) (w : world) : machine := dispatch app (Machine w [] [] [] []).

Inductive reachable (app : nat) (w : world) : machine -> Prop :=
| reach_start : reachable app w (start app w)
| reach_step m m' : reachable app w m -> step m m' -> reachable app w m'.

(** What [listen] does when the chain's promise settles. *)
Definition handled (res : reason + bool) (w : world) : world :=
  if rp_headersSent (w_res w) then w else
  match res with
  | inr true => w
  | inr false => set_w_res (reply 404 (js "Not Found") (w_res w)).2 w
  | inl e => set_w_res (reply 500 (error_text e) (w_res w)).2 w
  end.
End Machine.
