(* ===== verification/AppProps.v ===== *)
(** * What the middleware chain promises

    Whatever handlers do and in whatever order the event loop runs them, a
    chain calls its layers in order and each at most once, only layers that
    match, error handlers for errors only; and it reports that nobody
    answered only when every handler it called has passed the request on,
    has thrown, or is still running. *)

From stdpp Require Import sorting.
From S2P Require Import Prelude JsString JsNumber Percent Utf8 UriComponent Headers StreamBase ServerResponse Router App.
Open Scope Z_scope.

Section Chain.
Context `{TextCodec} (apps : nat -> list layer) (error_text : reason -> jsstr).

(* ------------------------------------------------------------------ *)
(** ** The invariant *)

(** The layers chain [c] has called a handler of, in order. *)
Definition called (c : nat) (log : list call) : list nat := omap (fun cl => if bool_decide (cl_chain cl = c) then Some (cl_layer cl) else None) log.

(** A call is of a layer that matches method, path and error. *)
Definition call_ok (ch : chain) (cl : call) : Prop := exists ly, apps (ch_app ch) !! cl_layer cl = Some ly /\
  (forall k, ly_method ly = Some k -> k = cl_method cl) /\ is_Some (re_match (rt_regex (ly_route ly)) (cl_path cl)) /\
  truthy (cl_err cl) = ly_isError ly.

(** A run whose handler has returned without [next] has answered. *)
Definition run_ok (chains : list chain) (rn : run) : Prop := exists ch, chains !! rn_chain rn = Some ch /\
  (ch_responded ch = true \/ rn_layer rn = None \/ rn_state rn = RWait \/ rn_advanced rn = true \/ rn_threw rn = true).

Record inv (m : machine) : Prop := {
  inv_runs : Forall (run_ok (mc_chains m)) (mc_runs m);
  inv_calls : Forall (fun cl => exists ch, mc_chains m !! cl_chain cl = Some ch /\ call_ok ch cl /\
    exists r rn, mc_runs m !! r = Some rn /\ rn_chain rn = cl_chain cl /\ rn_layer rn = Some (cl_layer cl)) (mc_log m);
  inv_order : forall c ch, mc_chains m !! c = Some ch -> StronglySorted lt (called c (mc_log m)) /\ Forall (fun i => i < ch_i ch)%nat (called c (mc_log m));
}.

(** How chains and runs may grow. *)
Definition chains_grow (cs cs' : list chain) : Prop := forall c ch, cs !! c = Some ch ->
  exists ch', cs' !! c = Some ch' /\ ch_app ch' = ch_app ch /\ (ch_i ch <= ch_i ch')%nat /\ (ch_responded ch = true -> ch_responded ch' = true).
Definition runs_grow (rs rs' : list run) : Prop := forall r rn l, rs !! r = Some rn -> rn_layer rn = Some l ->
  exists rn', rs' !! r = Some rn' /\ rn_chain rn' = rn_chain rn /\ rn_layer rn' = Some l.

Lemma chains_grow_refl cs : chains_grow cs cs.
Proof. intros c ch Hc. exists ch. split_and!; auto. Qed.

Lemma chains_grow_alter f c cs : (forall ch, ch_app (f ch) = ch_app ch /\ (ch_i ch <= ch_i (f ch))%nat /\ (ch_responded ch = true -> ch_responded (f ch) = true)) ->
  chains_grow cs (alter f c cs).
Proof.
  intros Hf k ch Hk. destruct (decide (c = k)) as [->|Hne].
  - exists (f ch). split; [|apply Hf]. rewrite list_lookup_alter_eq, Hk. reflexivity.
  - exists ch. rewrite list_lookup_alter_ne by done. split_and!; auto.
Qed.

Lemma chains_grow_app cs cs' : chains_grow cs (cs ++ cs').
Proof. intros c ch Hc. exists ch. split_and!; auto. by apply lookup_app_l_Some. Qed.

Lemma runs_grow_refl rs : runs_grow rs rs.
Proof. intros r rn l Hr Hl. by exists rn. Qed.
Lemma runs_grow_alter f r rs : (forall rn, rn_chain (f rn) = rn_chain rn /\ (forall l, rn_layer rn = Some l -> rn_layer (f rn) = Some l)) -> runs_grow rs (alter f r rs).
Proof.
  intros Hf k rn l Hk Hl. destruct (decide (r = k)) as [->|Hne].
  - exists (f rn). rewrite list_lookup_alter_eq, Hk. destruct (Hf rn) as [Hc Hly]. split_and!; [done|done|by apply Hly].
  - exists rn. by rewrite list_lookup_alter_ne by done.
Qed.
Lemma runs_grow_app rs rs' : runs_grow rs (rs ++ rs').
Proof. intros r rn l Hr Hl. exists rn. split_and!; try done. by apply lookup_app_l_Some. Qed.

Lemma run_ok_grow cs cs' rn : chains_grow cs cs' -> run_ok cs rn -> run_ok cs' rn.
Proof. intros Hg (ch & Hch & Hor). destruct (Hg _ _ Hch) as (ch' & Hch' & _ & _ & Hr). exists ch'. split; [done|]. destruct Hor as [?|?]; [left; auto|by right]. Qed.

Lemma called_none c log : Forall (fun cl => cl_chain cl <> c) log -> called c log = [].
Proof. induction 1 as [|cl log Hc _ IH]; [done|]. unfold called in *. cbn. by rewrite bool_decide_eq_false_2, IH by done. Qed.

(** A step that calls no handler. *)
Lemma inv_quiet m m' : inv m -> mc_log m' = mc_log m -> chains_grow (mc_chains m) (mc_chains m') -> runs_grow (mc_runs m) (mc_runs m') ->
  Forall (run_ok (mc_chains m')) (mc_runs m') -> inv m'.
Proof.
  intros [Hr Hc Ho] Hl Hcs Hrs Hok. split; [done| |].
  - rewrite Hl. eapply Forall_impl; [exact Hc|]. cbv beta. intros cl (ch & Hch & (ly & Hly & Hrest) & r & rn & Hrn & E1 & E2).
    destruct (Hcs _ _ Hch) as (ch' & Hch' & Ha & _). destruct (Hrs _ _ _ Hrn E2) as (rn' & Hrn' & E1' & E2').
    exists ch'. split; [done|]. split; [exists ly; by rewrite Ha|]. exists r, rn'. split_and!; congruence.
  - rewrite Hl. intros c ch' Hch'. destruct (mc_chains m !! c) as [ch|] eqn:E.
    + destruct (Ho _ _ E) as [Hs Hlt]. destruct (Hcs _ _ E) as (ch2 & E2 & _ & Hi & _). rewrite Hch' in E2. injection E2 as <-. split; [done|].
      eapply Forall_impl; [exact Hlt|]. cbv beta. lia.
    + rewrite called_none; [split; constructor|]. eapply Forall_impl; [exact Hc|]. cbv beta. intros cl (ch & Hch & _) E'. rewrite E' in Hch. congruence.
Qed.

Lemma runs_alter_ok cs f r rs : Forall (run_ok cs) rs -> (forall rn, rs !! r = Some rn -> run_ok cs rn -> run_ok cs (f rn)) -> Forall (run_ok cs) (alter f r rs).
Proof.
  intros Hall Hf. apply Forall_lookup. intros k rn Hk. rewrite Forall_lookup in Hall. destruct (decide (r = k)) as [->|Hne].
  - rewrite list_lookup_alter_eq in Hk. destruct (rs !! k) as [rn0|] eqn:E; [|done]. injection Hk as <-. apply Hf; [done|by eapply Hall].
  - rewrite list_lookup_alter_ne in Hk by done. by eapply Hall.
Qed.

Lemma runs_grow_ok cs cs' rs : chains_grow cs cs' -> Forall (run_ok cs) rs -> Forall (run_ok cs') rs.
Proof. intros Hg Hall. eapply Forall_impl; [exact Hall|]. intros rn. by apply run_ok_grow. Qed.

(** What a step does to runs, seen from [inv]. *)
Definition keeps_run (f : run -> run) : Prop := forall rn, rn_chain (f rn) = rn_chain rn /\ rn_layer (f rn) = rn_layer rn /\
  (rn_advanced rn = true -> rn_advanced (f rn) = true) /\ (rn_threw rn = true -> rn_threw (f rn) = true).

Lemma inv_world w m : inv m -> inv (set_world w m).
Proof. intros Hm. apply (inv_quiet m _ Hm); [done|apply chains_grow_refl|apply runs_grow_refl|apply Hm]. Qed.
Lemma inv_set_prog s p m : inv m -> inv (set_prog s p m).
Proof. intros Hm. apply (inv_quiet m _ Hm); [done|apply chains_grow_refl|apply runs_grow_refl|apply Hm]. Qed.
Lemma inv_add_strand d m : inv m -> inv (add_strand d m).
Proof. intros Hm. apply (inv_quiet m _ Hm); [done|apply chains_grow_refl|apply runs_grow_refl|apply Hm]. Qed.
Lemma inv_finish s m : inv m -> inv (finish_strand s m).
Proof. intros Hm. apply (inv_quiet m _ Hm); [done|apply chains_grow_refl|apply runs_grow_refl|apply Hm]. Qed.

Lemma inv_chain c f m : inv m -> (forall ch, ch_app (f ch) = ch_app ch /\ (ch_i ch <= ch_i (f ch))%nat /\ (ch_responded ch = true -> ch_responded (f ch) = true)) ->
  inv (upd_chain c f m).
Proof.
  intros Hm Hf. apply (inv_quiet m); [done|done|by apply chains_grow_alter|apply runs_grow_refl|].
  eapply runs_grow_ok; [by apply chains_grow_alter|apply Hm].
Qed.

Lemma inv_run r f m : inv m -> (forall rn, rn_chain (f rn) = rn_chain rn /\ (forall l, rn_layer rn = Some l -> rn_layer (f rn) = Some l)) ->
  (forall rn, mc_runs m !! r = Some rn -> run_ok (mc_chains m) rn -> run_ok (mc_chains m) (f rn)) -> inv (upd_run r f m).
Proof.
  intros Hm Hf Hok. apply (inv_quiet m); [done|done|apply chains_grow_refl|by apply runs_grow_alter|]. apply runs_alter_ok; [apply Hm|done].
Qed.

Lemma inv_add_run c err m : inv m -> is_Some (mc_chains m !! c) -> inv (add_run (new_run c err) m).
Proof.
  intros Hm [ch Hch]. apply (inv_quiet m); [done|done|apply chains_grow_refl|apply runs_grow_app|]. apply Forall_app. split; [apply Hm|].
  constructor; [|done]. exists ch. split; [done|]. right. by left.
Qed.

Lemma inv_dispatch app m : inv m -> inv (dispatch app m).
Proof.
  intros Hm. unfold dispatch. apply inv_add_run.
  - apply (inv_quiet m); [done|done|apply chains_grow_app|apply runs_grow_refl|]. eapply runs_grow_ok; [apply chains_grow_app|apply Hm].
  - cbn. rewrite lookup_app_r by done. rewrite Nat.sub_diag. by eexists.
Qed.

(* ------------------------------------------------------------------ *)
(** ** Every step keeps it *)

Lemma inv_state r st m : inv m -> (forall rn, mc_runs m !! r = Some rn -> (rn_state rn = RWait -> rn_advanced rn = true \/ rn_layer rn = None \/
    exists ch, mc_chains m !! rn_chain rn = Some ch /\ ch_responded ch = true)) ->
  inv (upd_run r (set_rn_state st) m).
Proof.
  intros Hm Hw. apply inv_run; [done|by intros rn|]. intros rn Hrn (ch & Hch & Hor). exists ch. split; [done|]. cbn.
  destruct Hor as [?|[?|[Hst|[?|?]]]]; auto. destruct (Hw rn Hrn Hst) as [?|[?|(ch' & Hch' & ?)]]; auto. left. congruence.
Qed.

Lemma inv_drained r c err m : inv m -> (forall rn, mc_runs m !! r = Some rn -> rn_state rn <> RWait) -> inv (drained error_text r c err m).
Proof.
  intros Hm Hw. unfold drained. destruct (truthy err); cbn [negb].
  - assert (Hc : inv (upd_chain c set_ch_responded m)) by (apply inv_chain; [done|]; intros ch; split_and!; auto).
    destruct (rp_headersSent _); [apply inv_state; [done|]; intros rn Hrn Hst; by destruct (Hw rn Hrn)|].
    destruct (reply 500 _ _) as [o res]. apply inv_state; [by apply inv_world|]. intros rn Hrn Hst. by destruct (Hw rn Hrn).
  - apply inv_state; [done|]. intros rn Hrn Hst. by destruct (Hw rn Hrn).
Qed.

(** The turn that calls a handler. *)
Lemma inv_call r rn err ch m i ly w : inv m -> mc_runs m !! r = Some rn -> rn_layer rn = None -> mc_chains m !! rn_chain rn = Some ch -> i = ch_i ch ->
  apps (ch_app ch) !! i = Some ly -> (forall k, ly_method ly = Some k -> k = w_method w) -> is_Some (re_match (rt_regex (ly_route ly)) (w_path w)) ->
  truthy err = ly_isError ly ->
  inv (add_call (Call (rn_chain rn) i err (w_method w) (w_path w))
    (upd_run r (fun _ => Run (rn_chain rn) RWait (Some i) false false) (upd_chain (rn_chain rn) (set_ch_i (S i)) m))).
Proof.
  intros Hm Hr Hnl Hch -> Hly Hk Hp He. set (f := fun _ : run => _). set (cl := Call _ _ _ _ _).
  assert (Hg : chains_grow (mc_chains m) (alter (set_ch_i (S (ch_i ch))) (rn_chain rn) (mc_chains m))).
  { intros k ch0 Hk0. destruct (decide (rn_chain rn = k)) as [<-|Hne].
    - rewrite Hch in Hk0. injection Hk0 as <-. exists (set_ch_i (S (ch_i ch)) ch). rewrite list_lookup_alter_eq, Hch. split_and!; auto; cbn; lia.
    - exists ch0. rewrite list_lookup_alter_ne by done. split_and!; auto. }
  assert (Hrs : runs_grow (mc_runs m) (alter f r (mc_runs m))).
  { intros k rn0 l Hk0 Hl. destruct (decide (r = k)) as [<-|Hne]; [congruence|]. exists rn0. by rewrite list_lookup_alter_ne by done. }
  destruct Hm as [Hruns Hcalls Hord].
  assert (Hcl : forall c, called c (mc_log m ++ [cl]) = called c (mc_log m) ++ if bool_decide (rn_chain rn = c) then [ch_i ch] else []).
  { intros c. unfold called. rewrite omap_app. cbn. by case_bool_decide. }
  split; cbn [mc_chains mc_runs mc_log add_call upd_run upd_chain].
  - apply runs_alter_ok; [by eapply runs_grow_ok|]. intros rn0 Hrn0 _. unfold f. exists (set_ch_i (S (ch_i ch)) ch). cbn.
    rewrite list_lookup_alter_eq, Hch. split; [done|]. auto.
  - apply Forall_app. split.
    + eapply Forall_impl; [exact Hcalls|]. cbv beta. intros x (ch0 & Hch0 & (ly0 & Hly0 & Hrest) & k & rn0 & Hrn0 & E1 & E2).
      destruct (Hg _ _ Hch0) as (ch' & Hch' & Ha & _). destruct (Hrs _ _ _ Hrn0 E2) as (rn' & Hrn' & E1' & E2').
      exists ch'. split; [done|]. split; [exists ly0; by rewrite Ha|]. exists k, rn'. split_and!; congruence.
    + constructor; [|done]. exists (set_ch_i (S (ch_i ch)) ch). cbn. rewrite list_lookup_alter_eq, Hch. split; [done|]. split; [by exists ly|].
      exists r, (f rn). by rewrite list_lookup_alter_eq, Hr.
  - intros c ch' Hch'. rewrite Hcl. destruct (decide (rn_chain rn = c)) as [<-|Hne].
    + rewrite list_lookup_alter_eq, Hch in Hch'. injection Hch' as <-. rewrite bool_decide_eq_true_2 by done. cbn. destruct (Hord _ _ Hch) as [Hs Hlt]. split.
      * apply StronglySorted_app_2; [|done|by repeat constructor]. intros x y Hx Hy. apply list_elem_of_singleton in Hy as ->. rewrite Forall_forall in Hlt. by apply Hlt.
      * apply Forall_app. split; [eapply Forall_impl; [exact Hlt|]; cbv beta; lia|]. constructor; [lia|done].
    + rewrite list_lookup_alter_ne in Hch' by done. rewrite bool_decide_eq_false_2 by done. rewrite app_nil_r. by apply Hord.
Qed.

Lemma inv_threw_run m r rn k : inv m -> mc_runs m !! r = Some rn -> inv (upd_run r (fun rn => Run (rn_chain rn) (RFollow k) (rn_layer rn) (rn_advanced rn) true) m).
Proof.
  intros Hm Hr. apply inv_run; [done|by intros x; split|]. intros x Hx (ch & Hch & _). exists ch. split; [done|]. auto 10.
Qed.

(** A run that loops has not called a handler yet. *)
Definition looping_fresh (m : machine) : Prop := forall r rn err, mc_runs m !! r = Some rn -> rn_state rn = RLoop err -> rn_layer rn = None.

Lemma chain_of m r rn : inv m -> mc_runs m !! r = Some rn -> exists ch, mc_chains m !! rn_chain rn = Some ch.
Proof. intros Hm Hr. pose proof (inv_runs _ Hm) as Hall. rewrite Forall_lookup in Hall. destruct (Hall _ _ Hr) as (ch & Hch & _). by exists ch. Qed.

Lemma fresh_same m m' : mc_runs m' = mc_runs m -> looping_fresh m -> looping_fresh m'.
Proof. intros E Hf r rn err. rewrite E. apply Hf. Qed.
Lemma fresh_upd r f m : looping_fresh m -> (forall rn, mc_runs m !! r = Some rn -> (forall err, rn_state (f rn) <> RLoop err) \/ (rn_state (f rn) = rn_state rn /\ rn_layer (f rn) = rn_layer rn)) ->
  looping_fresh (upd_run r f m).
Proof.
  intros Hf Hu k rn err Hk Hst. cbn in Hk. destruct (decide (r = k)) as [<-|Hne].
  - rewrite list_lookup_alter_eq in Hk. destruct (mc_runs m !! r) as [rn0|] eqn:E; [|done]. injection Hk as <-. destruct (Hu rn0 eq_refl) as [Hn|[Es El]]; [by destruct (Hn err)|].
    rewrite El. rewrite Es in Hst. by eapply Hf.
  - rewrite list_lookup_alter_ne in Hk by done. by eapply Hf.
Qed.
Lemma fresh_add c err m : looping_fresh m -> looping_fresh (add_run (new_run c err) m).
Proof.
  intros Hf k rn e Hk Hst. cbn in Hk. apply lookup_app_Some in Hk as [Hk|[_ Hk]]; [by eapply Hf|]. apply list_lookup_singleton_Some in Hk as [_ <-]. done.
Qed.

Definition good_machine (m : machine) : Prop := inv m /\ looping_fresh m.

Lemma drained_fresh r c err m : looping_fresh m -> looping_fresh (drained error_text r c err m).
Proof.
  intros Hf. unfold drained. destruct (negb _); [apply fresh_upd; [done|by left]|]. destruct (rp_headersSent _); [apply fresh_upd; [exact (fresh_same m _ eq_refl Hf)|by left]|].
  destruct (reply 500 _ _) as [o res]. apply fresh_upd; [exact (fresh_same m _ eq_refl Hf)|by left].
Qed.

Lemma loop_turn_good r rn err ch m : good_machine m -> mc_runs m !! r = Some rn -> rn_state rn = RLoop err -> mc_chains m !! rn_chain rn = Some ch ->
  good_machine (loop_turn apps error_text r rn err ch m).
Proof.
  intros [Hm Hf] Hr Hst Hch. pose proof (Hf _ _ _ Hr Hst) as Hnl. unfold loop_turn. destruct (apps (ch_app ch) !! ch_i ch) as [ly|] eqn:Hly.
  2:{ split; [apply inv_drained; [done|]; intros rn0 Hrn0; rewrite Hr in Hrn0; injection Hrn0 as <-; by rewrite Hst|by apply drained_fresh]. }
  assert (Hm1 : inv (upd_chain (rn_chain rn) (set_ch_i (S (ch_i ch))) m)).
  { apply (inv_quiet m); [done|done| |apply runs_grow_refl|].
    - intros k ch0 Hk0. destruct (decide (rn_chain rn = k)) as [<-|Hne].
      + rewrite Hch in Hk0. injection Hk0 as <-. exists (set_ch_i (S (ch_i ch)) ch). cbn [mc_chains upd_chain]. rewrite list_lookup_alter_eq, Hch. split_and!; auto; cbn; lia.
      + exists ch0. cbn [mc_chains upd_chain]. rewrite list_lookup_alter_ne by done. split_and!; auto.
    - apply Forall_forall. intros x Hx. pose proof (inv_runs _ Hm) as Hall. rewrite Forall_forall in Hall. destruct (Hall x Hx) as (ch0 & Hch0 & Hor).
      destruct (decide (rn_chain rn = rn_chain x)) as [E|Hne].
      + exists (set_ch_i (S (ch_i ch)) ch0). cbn [mc_chains upd_chain]. rewrite E, list_lookup_alter_eq, Hch0. by split.
      + exists ch0. cbn [mc_chains upd_chain]. rewrite list_lookup_alter_ne by done. by split. }
  assert (Hf1 : looping_fresh (upd_chain (rn_chain rn) (set_ch_i (S (ch_i ch))) m)) by exact (fresh_same m _ eq_refl Hf).
  destruct (match ly_method ly with Some k => _ | None => false end) eqn:Hcond; [by split|].
  assert (Hmeth : forall k, ly_method ly = Some k -> k = w_method (mc_world m)).
  { intros k Hk. rewrite Hk in Hcond. by apply negb_false_iff, bool_decide_eq_true in Hcond. }
  destruct (re_match _ _) as [caps|] eqn:Hre; [|by split]. destruct (set_params _ _ _) as [params [e|]].
  { split; [apply inv_state; [by apply inv_world|]; intros rn0 Hrn0; cbn in Hrn0; rewrite Hr in Hrn0; injection Hrn0 as <-; by rewrite Hst|].
    apply fresh_upd; [exact (fresh_same m _ eq_refl Hf)|by left]. }
  destruct (eqb (truthy err) (ly_isError ly)) eqn:He; cbn [negb]; [|split; [by apply inv_world|exact (fresh_same m _ eq_refl Hf)]]. apply eqb_prop in He.
  split; [|apply fresh_same with (upd_run r (fun _ => Run (rn_chain rn) RWait (Some (ch_i ch)) false false) m); [done|apply fresh_upd; [done|by left]]].
  apply inv_add_strand. pose proof (inv_call r rn err ch (set_world (set_w_params params (mc_world m)) m) (ch_i ch) ly (mc_world m)) as Hc.
  apply Hc; [by apply inv_world|done..|by rewrite Hre|done].
Qed.

Lemma step_good m m' : good_machine m -> step apps error_text m m' -> good_machine m'.
Proof.
  intros [Hm Hf] Hs. destruct Hs as [r m m' Hs|s m m' Hs|c m m' Hs].
  - unfold step_run in Hs. destruct (mc_runs m !! r) as [rn|] eqn:Hr; [|done]. cbn in Hs. destruct (rn_state rn) as [err| |r'|res] eqn:Hst; try done.
    + destruct (mc_chains m !! rn_chain rn) as [ch|] eqn:Hch; [|done]. cbn in Hs. injection Hs as <-. by apply loop_turn_good.
    + destruct (mc_runs m !! r') as [rn'|]; [|done]. cbn in Hs. destruct (rn_state rn') as [| | |res]; try done. injection Hs as <-. split.
      * apply inv_state; [done|]. intros rn0 Hrn0. rewrite Hr in Hrn0. injection Hrn0 as <-. by rewrite Hst.
      * apply fresh_upd; [done|by left].
  - unfold step_strand in Hs. destruct (mc_strands m !! s) as [d|] eqn:Hd; [|done]. cbn in Hs. destruct (mc_runs m !! sd_run d) as [rn|] eqn:Hr; [|done]. cbn in Hs.
    destruct (chain_of _ _ _ Hm Hr) as [ch Hch].
    destruct (sd_prog d) as [|e|f k|k|err k|r' k|p k|app k|c k].
    + destruct (sd_main d); [|done]. injection Hs as <-. split.
      * apply inv_finish. unfold handler_returned. destruct (rn_advanced rn) eqn:Ha.
        -- apply inv_state; [done|]. intros rn0 Hrn0 _. rewrite Hr in Hrn0. injection Hrn0 as <-. by left.
        -- apply inv_state; [apply inv_chain; [done|]; intros x; split_and!; auto|]. intros rn0 Hrn0 _. cbn in Hrn0. rewrite Hr in Hrn0. injection Hrn0 as <-.
           right. right. exists (set_ch_responded ch). cbn. by rewrite list_lookup_alter_eq, Hch.
      * apply fresh_same with (handler_returned (sd_run d) rn m); [done|]. unfold handler_returned. apply fresh_upd; [|by left]. destruct (rn_advanced rn); [done|exact (fresh_same m _ eq_refl Hf)].
    + injection Hs as <-. split.
      * apply inv_finish. destruct (sd_main d); [|done]. apply inv_add_run; [by eapply inv_threw_run|by eexists].
      * apply fresh_same with (if sd_main d then handler_threw (sd_run d) rn e m else m); [done|]. destruct (sd_main d); [|done]. apply fresh_add, fresh_upd; [done|by left].
    + injection Hs as <-. split; [by apply inv_set_prog, inv_world|exact (fresh_same m _ eq_refl Hf)].
    + injection Hs as <-. split; [by apply inv_set_prog|exact (fresh_same m _ eq_refl Hf)].
    + injection Hs as <-. split.
      * apply inv_set_prog, inv_add_run; [|by eexists]. apply inv_run; [done|by intros x; split|]. intros x _ (c & Hc & _). exists c. split; [done|]. auto 10.
      * apply fresh_same with (add_run (new_run (rn_chain rn) err) (upd_run (sd_run d) set_rn_advanced m)); [done|]. apply fresh_add, fresh_upd; [done|by right].
    + destruct (mc_runs m !! r') as [rn'|]; [|done]. cbn in Hs. destruct (rn_state rn'); try done. injection Hs as <-. split; [by apply inv_set_prog|exact (fresh_same m _ eq_refl Hf)].
    + injection Hs as <-. split; [by apply inv_add_strand, inv_set_prog|exact (fresh_same m _ eq_refl Hf)].
    + injection Hs as <-. split; [by apply inv_set_prog, inv_dispatch|]. apply fresh_same with (dispatch app m); [done|]. by apply fresh_add.
    + destruct (mc_chains m !! c) as [ch'|]; [|done]. cbn in Hs. destruct (ch_result ch') as [res|]; [|done]. cbn in Hs. injection Hs as <-.
      split; [by apply inv_set_prog|exact (fresh_same m _ eq_refl Hf)].
  - unfold step_chain in Hs. destruct (mc_chains m !! c) as [ch|] eqn:Hc; [|done]. cbn in Hs. destruct (mc_runs m !! ch_root ch) as [rn|]; [|done]. cbn in Hs.
    destruct (ch_result ch); [done|]. destruct (rn_state rn) as [| | |[e|]]; try done; injection Hs as <-;
      (split; [apply inv_chain; [done|]; intros x; split_and!; auto|exact (fresh_same m _ eq_refl Hf)]).
Qed.

Lemma start_machine_good app w : good_machine (start app w).
Proof.
  split.
  - apply inv_dispatch. split; [constructor|constructor|]. by intros c ch.
  - apply fresh_add. by intros r rn err.
Qed.

Lemma reachable_good app w m : reachable apps error_text app w m -> good_machine m.
Proof. induction 1 as [|m m' _ IH Hs]; [apply start_machine_good|by eapply step_good]. Qed.

(* ------------------------------------------------------------------ *)
(** ** The claims *)

(** C25: In every state a request can lead to - whatever handlers do,
    calling [next] twice, late, or not at all, and in whatever order the
    event loop runs them - each chain has called its layers in order and
    each at most once, and every call was of a layer whose method and
    pattern match the request as it then was, of an error handler exactly
    when there was an error. *)
Theorem chain_in_order app w m : reachable apps error_text app w m ->
  (forall c, StronglySorted lt (called c (mc_log m))) /\
  Forall (fun cl => exists ch, mc_chains m !! cl_chain cl = Some ch /\ call_ok ch cl) (mc_log m).
Proof.
  intros [Hm _]%reachable_good. split.
  - intros c. destruct (mc_chains m !! c) as [ch|] eqn:E; [by apply (inv_order _ Hm c ch)|]. rewrite called_none; [constructor|].
    eapply Forall_impl; [apply (inv_calls _ Hm)|]. cbv beta. intros cl (ch & Hch & _) Ec. rewrite Ec in Hch. congruence.
  - eapply Forall_impl; [apply (inv_calls _ Hm)|]. cbv beta. intros cl (ch & ? & ? & _). by exists ch.
Qed.

(** When a chain reports that nobody has answered - so that the
    server sends a 404 - the response has not been ended, and each handler
    the chain has called has called [next], has thrown, or is still
    running. *)
Theorem chain_not_found app w m m' c ch : reachable apps error_text app w m -> step_chain c m = Some m' ->
  mc_chains m' !! c = Some ch -> ch_result ch = Some (inr false) ->
  rp_ended (w_res (mc_world m)) = false /\
  Forall (fun cl => cl_chain cl = c -> exists r rn, mc_runs m !! r = Some rn /\ rn_chain rn = c /\ rn_layer rn = Some (cl_layer cl) /\
    (rn_advanced rn = true \/ rn_threw rn = true \/ rn_state rn = RWait)) (mc_log m).
Proof.
  intros [Hm _]%reachable_good Hs Hch Hres. unfold step_chain in Hs. destruct (mc_chains m !! c) as [ch0|] eqn:Hc; [|done]. cbn in Hs.
  destruct (mc_runs m !! ch_root ch0) as [rn0|]; [|done]. cbn in Hs. destruct (ch_result ch0) eqn:Er; [done|].
  destruct (rn_state rn0) as [| | |[e|]]; try done; injection Hs as <-; cbn in Hch; rewrite list_lookup_alter_eq, Hc in Hch; injection Hch as <-; [done|].
  cbn in Hres. injection Hres as Hres. apply orb_false_iff in Hres as [Hnr He]. split; [done|].
  eapply Forall_impl; [apply (inv_calls _ Hm)|]. cbv beta. intros cl (ch & Hch & _ & r & rn & Hrn & E1 & E2) Ecl. exists r, rn. split_and!; [done|congruence|done|].
  pose proof (inv_runs _ Hm) as Hall. rewrite Forall_lookup in Hall. destruct (Hall _ _ Hrn) as (ch1 & Hch1 & Hor). rewrite E1, Ecl, Hc in Hch1. injection Hch1 as <-.
  destruct Hor as [?|[?|[?|[?|?]]]]; [congruence|congruence|auto..].
Qed.
End Chain.

(* ------------------------------------------------------------------ *)
(** ** Schedules, and witnesses *)

Section Schedule.
Context `{TextCodec} (apps : nat -> list layer) (error_text : reason -> jsstr).

Inductive pick := PickRun (r : nat) | PickStrand (s : nat) | PickChain (c : nat).

Fixpoint sched (picks : list pick) (m : machine) : option machine :=
  match picks with
  | [] => Some m
  | p :: picks =>
    m ← match p with PickRun r => step_run apps error_text r m | PickStrand s => step_strand s m | PickChain c => step_chain c m end;
    sched picks m
  end.

Lemma sched_reachable app w picks : forall m m', reachable apps error_text app w m -> sched picks m = Some m' -> reachable apps error_text app w m'.
Proof.
  induction picks as [|p picks IH]; intros m m' Hm; cbn [sched]; [by intros [= <-]|]. destruct p.
  - destruct (step_run _ _ _ _) as [m1|] eqn:E; [|done]. apply IH. eapply reach_step; [exact Hm|by eapply StepRun].
  - destruct (step_strand _ _) as [m1|] eqn:E; [|done]. apply IH. eapply reach_step; [exact Hm|by eapply StepStrand].
  - destruct (step_chain _ _) as [m1|] eqn:E; [|done]. apply IH. eapply reach_step; [exact Hm|by eapply StepChain].
Qed.
End Schedule.

(** A router without layers at [/api], then a route whose handler waits
    before it answers. *)
Definition slow_handler (err : reason) : prog :=
  PSuspend (PDo (fun w => set_w_res (end_ (Some (CStr (js "ok"))) (w_res w)).2 w) (fun _ => PReturn)).
Definition slow_layers : list layer :=
  match (l ← use (js "/api") [HApp 1] []; route_layers (js "GET") (js "/api/x") [HFun 2 slow_handler] l) with Ok l => l | Throw _ _ => [] end.
Definition slow_apps (app : nat) : list layer := match app with O => slow_layers | _ => [] end.
Definition slow_world : world := World (js "GET") (js "/api/x") ∅ new_ServerResponse.
Definition slow_picks : list pick :=
  [PickRun 0; PickStrand 0; PickStrand 0; PickStrand 0; PickRun 1; PickChain 1; PickStrand 0; PickStrand 0; PickStrand 0; PickRun 2; PickStrand 0].
Definition slow_machine : machine :=
  default (start 0 slow_world) (sched slow_apps (fun _ => []) slow_picks (start 0 slow_world)).

Lemma slow_reachable : reachable slow_apps (fun _ => []) 0 slow_world slow_machine.
Proof.
  unfold slow_machine. destruct (sched _ _ _ _) as [m|] eqn:Em; [eapply sched_reachable; [apply reach_start|exact Em]|].
  assert (E : match sched slow_apps (fun _ => []) slow_picks (start 0 slow_world) with Some _ => true | None => false end = true) by (vm_compute; reflexivity).
  by rewrite Em in E.
Qed.

(** Behind a router that does not answer, [next] is called without being
    waited for: the chain reports that nobody answered while the handler
    behind the router is still at work, and the server sends a 404. *)
Lemma mounted_router_early_404 : match step_chain 0 slow_machine with
  | Some m' => (ch_result <$> (mc_chains m' !! 0%nat), called 0 (mc_log m'), rn_state <$> (mc_runs m' !! 2%nat)) =
      (Some (Some (inr false)), [0; 1]%nat, Some RWait) /\
      rp_status (w_res (handled (fun _ => []) (inr false) (mc_world m'))) = 404
  | None => False
  end.
Proof. vm_compute. by split. Qed.

Lemma chain_in_order_witness : called 0 (mc_log slow_machine) = [0; 1]%nat /\
  (forall c, StronglySorted lt (called c (mc_log slow_machine))).
Proof. split; [vm_compute; reflexivity|]. exact (proj1 (chain_in_order slow_apps (fun _ => []) 0 slow_world slow_machine slow_reachable)). Defined.

Lemma chain_not_found_witness : rp_ended (w_res (mc_world slow_machine)) = false.
Proof.
  assert (Hs : match step_chain 0 slow_machine with Some m' => mc_chains m' !! 0%nat = Some (Chain 0 2 false 0 (Some (inr false))) | None => False end)
    by (vm_compute; reflexivity).
  destruct (step_chain 0 slow_machine) as [m'|] eqn:E; [|done].
  exact (proj1 (chain_not_found slow_apps (fun _ => []) 0 slow_world slow_machine m' 0 _ slow_reachable E Hs eq_refl)).
Defined.

(** A router mounted at the root sees paths without their first slash. *)
Lemma root_mount_strips path : path <> [] -> mounted_path (js "/") (0x2f :: path) = path.
Proof. unfold mounted_path. change (length (js "/")) with 1%nat. cbn. by destruct path. Qed.
