(* ===== verification/StreamCalls.v ===== *)
(** * What an operation of a stream asks of its sink or source

    The streams record the calls of their sink and source next to what they
    wait for.  [orderly] says that an operation of a writable stream adds
    calls with their promises, and gives the sink a chunk or closes it only
    as the last thing it does, from a stream that stays writable; [consults]
    says the same of a readable stream and its source.  Both follow the code
    by composition, without the invariants. *)

From S2P Require Import Prelude StreamBase ReadableStream WritableStream ReadableStreamInv.
Open Scope Z_scope.

Create HintDb calls discriminated.
#[export] Hint Constants Opaque : calls.

(* ------------------------------------------------------------------ *)
(** ** The writable stream *)

Definition goes_with (c : sink_call) (k : wait) : Prop :=
  match c, k with
  | SinkWrite _, WaitWrite | SinkClose, WaitClose | SinkAbort _, WaitAbort _ => True
  | _, _ => False
  end.

(** A call that only a writable stream makes. *)
Definition feeds (c : sink_call) : bool := match c with SinkWrite _ | SinkClose => true | _ => false end.

(** What an operation adds. *)
Record asks (new : list (sink_call * wait)) (s s' : wstream) : Prop := {
  as_calls : sink_calls s' = sink_calls s ++ new.*1;
  as_awaited : awaited s' = awaited s ++ new.*2;
  as_pairs : Forall (fun p => goes_with p.1 p.2) new;
  as_state : st_state s <> Writable -> st_state s' <> Writable;
}.

Definition aloof {A} (m : SM wstream A) : Prop :=
  forall s, exists new, asks new s (m s).2 /\ Forall (fun p => feeds p.1 = false) new.

Definition orderly {A} (m : SM wstream A) : Prop :=
  forall s, exists new, asks new s (m s).2 /\
    (existsb feeds new.*1 = true -> st_state s = Writable /\ st_state (m s).2 = Writable).

Lemma asks_nil s : asks [] s s.
Proof. split; rewrite ?app_nil_r; done. Qed.

Lemma asks_app new1 new2 s1 s2 s3 : asks new1 s1 s2 -> asks new2 s2 s3 -> asks (new1 ++ new2) s1 s3.
Proof.
  intros [C1 A1 P1 S1] [C2 A2 P2 S2]. split.
  - by rewrite C2, C1, fmap_app, app_assoc.
  - by rewrite A2, A1, fmap_app, app_assoc.
  - by apply Forall_app.
  - auto.
Qed.

Lemma feeds_none (new : list (sink_call * wait)) : Forall (fun p => feeds p.1 = false) new -> existsb feeds new.*1 = false.
Proof. induction 1 as [|[c k] new H _ IH]; [done|]. cbn in *. by rewrite H. Qed.

Lemma aloof_orderly {A} (m : SM wstream A) : aloof m -> orderly m.
Proof. intros H s. destruct (H s) as (new & Ha & Hn). exists new. split; [done|]. by rewrite (feeds_none _ Hn). Qed.

Lemma aloof_bind {A B} (m : SM wstream A) (f : A -> SM wstream B) : aloof m -> (forall a, aloof (f a)) -> aloof (m ≫= f).
Proof.
  intros Hm Hf s. destruct (Hm s) as (n1 & A1 & F1). unfold mbind, sm_bind. destruct (m s) as [[a|c e] s1]; [|by exists n1].
  destruct (Hf a s1) as (n2 & A2 & F2). exists (n1 ++ n2). split; [by eapply asks_app|]. by apply Forall_app.
Qed.

Lemma orderly_bind {A B} (m : SM wstream A) (f : A -> SM wstream B) : aloof m -> (forall a, orderly (f a)) -> orderly (m ≫= f).
Proof.
  intros Hm Hf s. destruct (Hm s) as (n1 & A1 & F1). unfold mbind, sm_bind. destruct (m s) as [[a|c e] s1].
  - destruct (Hf a s1) as (n2 & A2 & F2). exists (n1 ++ n2). split; [by eapply asks_app|].
    rewrite fmap_app, existsb_app, (feeds_none _ F1). intros E. destruct (F2 E) as [Hs Hs']. split; [|done].
    destruct (decide (st_state s = Writable)) as [|Hn]; [done|]. by destruct (as_state _ _ _ A1 Hn).
  - exists n1. split; [done|]. by rewrite (feeds_none _ F1).
Qed.

Lemma orderly_ret {A B} (m : SM wstream A) (b : A -> B) : orderly m -> orderly (m ≫= fun a => mret (b a)).
Proof. intros H s. destruct (H s) as (new & Ha & Hf). exists new. unfold mbind, sm_bind. by destruct (m s) as [[a|c e] s']. Qed.

Lemma orderly_fmap {A B} (m : SM wstream A) (b : A -> B) : orderly m -> orderly (b <$> m).
Proof. intros H s. destruct (H s) as (new & Ha & Hf). exists new. unfold fmap, sm_fmap. by destruct (m s) as [[a|c e] s']. Qed.

Lemma orderly_gets {A B} (g : wstream -> A) (f : A -> SM wstream B) : (forall s, exists new, asks new s (f (g s) s).2 /\
    (existsb feeds new.*1 = true -> st_state s = Writable /\ st_state (f (g s) s).2 = Writable)) -> orderly (gets g ≫= f).
Proof. intros H s. apply H. Qed.

Section Basic.
Context {A : Type}.
Lemma aloof_pure (m : SM wstream A) : (forall s, (m s).2 = s) -> aloof m.
Proof. intros H s. exists []. rewrite H. split; [apply asks_nil|done]. Qed.
Lemma aloof_ret (a : A) : aloof (mret a).
Proof. by apply aloof_pure. Qed.
Lemma aloof_throw c msg : aloof (throw c msg : SM wstream A).
Proof. by apply aloof_pure. Qed.
Lemma aloof_gets (g : wstream -> A) : aloof (gets g).
Proof. by apply aloof_pure. Qed.
End Basic.

Lemma aloof_assert b : aloof (assert b).
Proof. by apply aloof_pure. Qed.
Lemma aloof_writer n : aloof (the_writer n).
Proof. apply aloof_pure. intros s. unfold the_writer. by destruct (writers s !! n). Qed.
Lemma aloof_modify g : (forall s, sink_calls (g s) = sink_calls s /\ awaited (g s) = awaited s /\
    (st_state s <> Writable -> st_state (g s) <> Writable)) -> aloof (modify g).
Proof. intros H s. destruct (H s) as (H1 & H2 & H3). exists []. split; [|done]. split; cbn; rewrite ?app_nil_r; done. Qed.

#[export] Hint Resolve aloof_ret aloof_throw aloof_gets aloof_assert aloof_writer : calls.

(** Follow the code; what is left are the calls of the sink. *)
Ltac aloof := repeat first
  [ solve [auto with calls] | apply aloof_bind; [|intros ?] | apply aloof_modify; done
  | match goal with |- aloof (if ?b then _ else _) => destruct b | |- aloof (match ?x with _ => _ end) => destruct x end ].

Lemma aloof_new_promise : aloof new_promise.
Proof. intros s. exists []. split; [|done]. split; cbn; rewrite ?app_nil_r; done. Qed.
Lemma aloof_settle p v : aloof (settle_promise p v).
Proof. unfold settle_promise. aloof. Qed.
Lemma aloof_set_writer n r : aloof (set_writer n r).
Proof. unfold set_writer. aloof. Qed.
#[export] Hint Resolve aloof_new_promise aloof_settle aloof_set_writer : calls.
Lemma aloof_rejected r : aloof (promiseRejectedWith r).
Proof. unfold promiseRejectedWith. aloof. Qed.
Lemma aloof_resolved : aloof promiseResolvedWith.
Proof. unfold promiseResolvedWith. aloof. Qed.
Lemma aloof_for_writer f : (forall w, aloof (f w)) -> aloof (for_writer f).
Proof. intros H. unfold for_writer. aloof. Qed.
#[export] Hint Resolve aloof_rejected aloof_resolved : calls.

Section WriterPromises.
Variables (w : nat) (e : reason).
Lemma aloof_closed_init : aloof (defaultWriterClosedPromiseInitialize w).
Proof. unfold defaultWriterClosedPromiseInitialize. aloof. Qed.
Lemma aloof_closed_reject : aloof (defaultWriterClosedPromiseReject w e).
Proof. unfold defaultWriterClosedPromiseReject. aloof. Qed.
Lemma aloof_closed_resolve : aloof (defaultWriterClosedPromiseResolve w).
Proof. unfold defaultWriterClosedPromiseResolve. aloof. Qed.
Lemma aloof_ready_init : aloof (defaultWriterReadyPromiseInitialize w).
Proof. unfold defaultWriterReadyPromiseInitialize. aloof. Qed.
Lemma aloof_ready_reject : aloof (defaultWriterReadyPromiseReject w e).
Proof. unfold defaultWriterReadyPromiseReject. aloof. Qed.
Lemma aloof_ready_resolve : aloof (defaultWriterReadyPromiseResolve w).
Proof. unfold defaultWriterReadyPromiseResolve. aloof. Qed.
End WriterPromises.
#[export] Hint Resolve aloof_closed_init aloof_closed_reject aloof_closed_resolve aloof_ready_init aloof_ready_reject aloof_ready_resolve : calls.

Lemma aloof_ensure_rejected w e : aloof (WritableStreamDefaultWriterEnsureReadyPromiseRejected w e).
Proof. unfold WritableStreamDefaultWriterEnsureReadyPromiseRejected, defaultWriterReadyPromiseInitializeAsRejected. aloof. Qed.
Lemma aloof_enqueue v z : aloof (EnqueueValueWithSize v z).
Proof. unfold EnqueueValueWithSize. aloof. Qed.
Lemma aloof_dequeue : aloof DequeueValue.
Proof. unfold DequeueValue. aloof. Qed.
Lemma aloof_peek : aloof PeekQueueValue.
Proof. unfold PeekQueueValue. aloof. Qed.
Lemma aloof_reset : aloof ResetQueue.
Proof. unfold ResetQueue. aloof. Qed.
Lemma aloof_clear : aloof WritableStreamDefaultControllerClearAlgorithms.
Proof. unfold WritableStreamDefaultControllerClearAlgorithms. aloof. Qed.
#[export] Hint Resolve aloof_ensure_rejected aloof_enqueue aloof_dequeue aloof_peek aloof_reset aloof_clear : calls.
#[export] Hint Extern 2 (aloof (for_writer _)) => apply aloof_for_writer; intros ?; aloof : calls.

Lemma aloof_update_backpressure b : aloof (WritableStreamUpdateBackpressure b).
Proof. unfold WritableStreamUpdateBackpressure. aloof. Qed.
Lemma aloof_reject_close : aloof WritableStreamRejectCloseAndClosedPromiseIfNeeded.
Proof. unfold WritableStreamRejectCloseAndClosedPromiseIfNeeded. aloof. Qed.
#[export] Hint Resolve aloof_update_backpressure aloof_reject_close : calls.

Lemma aloof_call_abort r a : aloof (call_sink (SinkAbort r) (WaitAbort a)).
Proof.
  intros s. unfold call_sink. rewrite gets_bind. destruct (ct_algorithms s); [|exists []; split; [apply asks_nil|done]].
  exists [(SinkAbort r, WaitAbort a)]. split; [|by repeat constructor]. split; try done. by repeat constructor.
Qed.
#[export] Hint Resolve aloof_call_abort : calls.

Lemma aloof_finish_erroring : aloof WritableStreamFinishErroring.
Proof. unfold WritableStreamFinishErroring, reject_all. aloof. Qed.
#[export] Hint Resolve aloof_finish_erroring : calls.
Lemma aloof_start_erroring r : aloof (WritableStreamStartErroring r).
Proof. unfold WritableStreamStartErroring. aloof. Qed.
#[export] Hint Resolve aloof_start_erroring : calls.
Lemma aloof_deal r : aloof (WritableStreamDealWithRejection r).
Proof. unfold WritableStreamDealWithRejection. aloof. Qed.
Lemma aloof_error r : aloof (WritableStreamDefaultControllerError r).
Proof. unfold WritableStreamDefaultControllerError. aloof. Qed.
#[export] Hint Resolve aloof_deal aloof_error : calls.
Lemma aloof_error_if_needed r : aloof (WritableStreamDefaultControllerErrorIfNeeded r).
Proof. unfold WritableStreamDefaultControllerErrorIfNeeded. aloof. Qed.
#[export] Hint Resolve aloof_error_if_needed : calls.

(** Code that leaves a writable stream writable. *)
Definition stays {A} (m : SM wstream A) : Prop :=
  forall s, exists new, asks new s (m s).2 /\ st_state (m s).2 = st_state s.

Lemma stays_bind {A B} (m : SM wstream A) (f : A -> SM wstream B) : stays m -> (forall a, stays (f a)) -> stays (m ≫= f).
Proof.
  intros Hm Hf s. destruct (Hm s) as (n1 & A1 & F1). unfold mbind, sm_bind. destruct (m s) as [[a|c e] s1]; [|by exists n1].
  destruct (Hf a s1) as (n2 & A2 & F2). exists (n1 ++ n2). split; [by eapply asks_app|]. by rewrite F2.
Qed.
Lemma stays_pure {A} (m : SM wstream A) : (forall s, (m s).2 = s) -> stays m.
Proof. intros H s. exists []. rewrite H. split; [apply asks_nil|done]. Qed.
Lemma stays_modify g : (forall s, sink_calls (g s) = sink_calls s /\ awaited (g s) = awaited s /\ st_state (g s) = st_state s) -> stays (modify g).
Proof. intros H s. destruct (H s) as (H1 & H2 & H3). exists []. split; [|done]. split; cbn; rewrite ?app_nil_r, ?H3; done. Qed.
Lemma stays_call c k : goes_with c k -> stays (call_sink c k).
Proof.
  intros Hc s. unfold call_sink. rewrite gets_bind. destruct (ct_algorithms s); [|exists []; split; [apply asks_nil|done]].
  exists [(c, k)]. split; [|done]. split; try done. by repeat constructor.
Qed.

Lemma stays_dequeue : stays DequeueValue.
Proof.
  unfold DequeueValue. apply stays_bind; [by apply stays_pure|]. intros [|[v z] q]; [by apply stays_pure|].
  repeat first [apply stays_modify; done | apply stays_pure; done | apply stays_bind; [|intros ?]].
Qed.

Lemma orderly_advance : orderly WritableStreamDefaultControllerAdvanceQueueIfNeeded.
Proof.
  unfold WritableStreamDefaultControllerAdvanceQueueIfNeeded. apply orderly_gets. intros s. cbn [id].
  assert (Ha : forall m : SM wstream unit, aloof m -> exists new, asks new s (m s).2 /\
    (existsb feeds new.*1 = true -> st_state s = Writable /\ st_state (m s).2 = Writable)).
  { intros m Hm. by apply aloof_orderly. }
  destruct (negb (ct_started s)); [by apply Ha; auto with calls|]. destruct (is_some (st_inFlightWrite s)); [by apply Ha; auto with calls|].
  destruct (state_is [Closed; Errored] s) eqn:E1; [apply Ha, aloof_pure; done|]. cbn [negb]. rewrite assert_bind by done.
  destruct (state_is [Erroring] s) eqn:E2; [by apply Ha; auto with calls|]. destruct (bool_decide _); [by apply Ha; auto with calls|].
  assert (Hs : st_state s = Writable).
  { unfold state_is in *. apply bool_decide_eq_false in E1, E2. rewrite !elem_of_cons in E1. rewrite elem_of_cons in E2. destruct (st_state s); naive_solver. }
  match goal with |- context [(?m s).2] => enough (stays m) as Hm by (destruct (Hm s) as (new & Hn & Es); exists new; by rewrite Es) end.
  apply stays_bind; [apply stays_pure; intros s'; unfold PeekQueueValue; rewrite gets_bind; by destruct (ct_queue s') as [|[]]|].
  intros [c|]; repeat first [apply stays_call; done | apply stays_dequeue | apply stays_pure; done | apply stays_modify; done | apply stays_bind; [|intros ?]].
Qed.

#[export] Hint Resolve orderly_advance : calls.

(** Follow the code to its last step. *)
Ltac orderly := repeat first
  [ solve [auto with calls] | apply aloof_orderly; solve [auto with calls]
  | apply (orderly_ret _ (fun _ => _)); solve [auto with calls] | apply orderly_bind; [solve [aloof]|intros ?] | apply orderly_fmap
  | match goal with |- orderly (if ?b then _ else _) => destruct b | |- orderly (match ?x with _ => _ end) => destruct x end
  | apply aloof_orderly; solve [aloof] ].

Lemma orderly_settled hwm k res : orderly (on_settled hwm k res).
Proof.
  destruct k, res; cbn; unfold on_start_fulfilled, on_start_rejected, on_write_fulfilled, on_write_rejected, on_close_fulfilled,
    on_close_rejected, on_abort_fulfilled, on_abort_rejected, resolve_in_flight; orderly.
Qed.

Lemma aloof_abort r : aloof (WritableStreamAbort r []).
Proof. unfold WritableStreamAbort. cbn [mapM]. aloof. Qed.
Lemma orderly_close : orderly WritableStreamClose.
Proof. unfold WritableStreamClose. orderly. Qed.

#[export] Hint Resolve aloof_abort orderly_close : calls.

Lemma aloof_try {A} (m : SM wstream A) f : aloof m -> (forall e, aloof (f e)) -> aloof (try m f).
Proof.
  intros Hm Hf s. destruct (Hm s) as (n1 & A1 & F1). unfold try. destruct (m s) as [[a|c e] s1]; [by exists n1|].
  destruct (Hf (ErrorObj c e) s1) as (n2 & A2 & F2). exists (n1 ++ n2). split; [by eapply asks_app|]. by apply Forall_app.
Qed.

Lemma orderly_write_sized hwm w c z : orderly (write_sized hwm w c z).
Proof. unfold write_sized. orderly; apply orderly_bind; [apply aloof_try; [aloof|intros; aloof]|intros ?]; orderly. Qed.
#[export] Hint Resolve orderly_write_sized : calls.

(** Calls on a stream whose controller, with its signal, stays inside. *)
Definition writer_call (e : event) : bool :=
  match e with
  | EvAbort _ ls | EvWriterAbort _ _ ls => bool_decide (ls = [])
  | EvError _ | EvSettle _ _ => false
  | _ => true
  end.
Definition reader_call (e : revent) : bool :=
  match e with EvController _ | EvSettled _ _ => false | _ => true end.

Definition external (e : event) : Prop := match e with EvAbort _ ls | EvWriterAbort _ _ ls => ls = [] | EvSettle _ _ => False | _ => True end.

Lemma orderly_event hwm size e : external e -> orderly (run_event hwm size e).
Proof.
  destruct e as [|r ls| |n r ls|n|n|n c|n|r|i res]; try done; intros Hp; cbn in Hp; subst; cbn [run_event]; unfold ignore.
  - apply aloof_orderly. unfold new_WritableStreamDefaultWriter, defaultWriterReadyPromiseInitializeAsResolved,
      defaultWriterReadyPromiseInitializeAsRejected, defaultWriterClosedPromiseInitializeAsRejected. aloof.
  - apply (orderly_ret _ (fun _ => tt)), aloof_orderly. unfold stream_abort. aloof.
  - apply (orderly_ret _ (fun _ => tt)). unfold stream_close. orderly.
  - apply (orderly_ret _ (fun _ => tt)), aloof_orderly. unfold writer_abort. aloof.
  - apply (orderly_ret _ (fun _ => tt)). unfold writer_close. orderly.
  - apply aloof_orderly. unfold writer_releaseLock, WritableStreamDefaultWriterRelease, defaultWriterClosedPromiseInitializeAsRejected. aloof.
  - apply (orderly_ret _ (fun _ => tt)). unfold writer_write, WritableStreamDefaultWriterWrite. orderly.
  - apply aloof_orderly. unfold writer_desiredSize. aloof.
  - apply aloof_orderly. unfold controller_error. aloof.
Qed.

(** A settlement, on what is left to wait for. *)
Lemma orderly_settle hwm size i res s k : awaited s !! i = Some k ->
  run_event hwm size (EvSettle i res) s = on_settled hwm k res (set_awaited (delete i (awaited s)) s).
Proof. intros H. cbn [run_event]. rewrite gets_bind. cbn [id]. rewrite H. by rewrite modify_bind. Qed.

(* ------------------------------------------------------------------ *)
(** ** The readable stream *)

Definition source_goes_with (c : source_call) (k : rwait) : Prop :=
  match c, k with SourcePull, ReadableStream.WaitPull | SourceCancel _, ReadableStream.WaitCancel _ => True | _, _ => False end.

Abbreviation open_source := ReadableStreamDefaultControllerCanCloseOrEnqueue.

(** What an operation of a consumer adds: pulls, or the cancellation when
    [cancels].  It leaves the controller's side alone. *)
Record consulted (cancels : bool) (new : list (source_call * rwait)) (s s' : rstream) : Prop := {
  co_calls : rs_calls s' = rs_calls s ++ new.*1;
  co_awaited : rs_awaited s' = rs_awaited s ++ new.*2;
  co_pairs : Forall (fun p => source_goes_with p.1 p.2 /\ is_cancel p.1 = cancels) new;
  co_accepted : rs_accepted s' = rs_accepted s;
  co_requested : rc_closeRequested s' = rc_closeRequested s;
  co_open : open_source s = false -> open_source s' = false /\ (cancels = false -> new = []);
  co_closed : rs_state s' = ReadableStream.Closed -> rs_state s = ReadableStream.Closed \/ rc_closeRequested s = true \/ cancels = true;
}.

Definition consults {A} (k : bool) (m : SM rstream A) : Prop := forall s, exists new, consulted k new s (m s).2.

Lemma consulted_nil k s : consulted k [] s s.
Proof. split; rewrite ?app_nil_r; auto. Qed.

Lemma consulted_app k new1 new2 s1 s2 s3 : consulted k new1 s1 s2 -> consulted k new2 s2 s3 -> consulted k (new1 ++ new2) s1 s3.
Proof.
  intros [C1 A1 P1 E1 R1 O1 D1] [C2 A2 P2 E2 R2 O2 D2]. split.
  - by rewrite C2, C1, fmap_app, app_assoc.
  - by rewrite A2, A1, fmap_app, app_assoc.
  - by apply Forall_app.
  - congruence.
  - congruence.
  - intros H. destruct (O1 H) as [H2 N1]. destruct (O2 H2) as [H3 N2]. split; [done|]. intros Hk. by rewrite N1, N2.
  - rewrite R1 in D2. naive_solver.
Qed.

(** A change of the consumer's side only. *)
Definition source_view (s : rstream) := (rs_calls s, rs_awaited s, rs_accepted s, rc_closeRequested s, rs_state s).

Lemma consulted_view k s s' : source_view s' = source_view s -> consulted k [] s s'.
Proof.
  unfold source_view. intros [= E1 E2 E3 E4 E5]. split; rewrite ?app_nil_r; auto; [|rewrite E5; auto].
  unfold ReadableStreamDefaultControllerCanCloseOrEnqueue, rstate_is. rewrite E4, E5. auto.
Qed.

Section Consults.
Variable k : bool.

Lemma consults_bind {A B} (m : SM rstream A) (f : A -> SM rstream B) : consults k m -> (forall a, consults k (f a)) -> consults k (m ≫= f).
Proof.
  intros Hm Hf s. destruct (Hm s) as (n1 & C1). unfold mbind, sm_bind. destruct (m s) as [[a|c e] s1]; [|by exists n1].
  destruct (Hf a s1) as (n2 & C2). exists (n1 ++ n2). by eapply consulted_app.
Qed.
Lemma consults_view {A} (m : SM rstream A) : (forall s, source_view (m s).2 = source_view s) -> consults k m.
Proof. intros H s. exists []. apply consulted_view, H. Qed.
Lemma consults_modify g : (forall s, source_view (g s) = source_view s) -> consults k (modify g).
Proof. intros H. by apply consults_view. Qed.
Lemma consults_ret {A} (a : A) : consults k (mret a).
Proof. by apply consults_view. Qed.
Lemma consults_throw {A} c msg : consults k (throw c msg : SM rstream A).
Proof. by apply consults_view. Qed.
Lemma consults_gets {A} (g : rstream -> A) : consults k (gets g).
Proof. by apply consults_view. Qed.
Lemma consults_assert b : consults k (assert b).
Proof. by apply consults_view. Qed.
Lemma consults_reader r : consults k (the_reader r).
Proof. apply consults_view. intros s. unfold the_reader. by destruct (rs_readers s !! r). Qed.
Lemma consults_promise v : consults k (ReadableStream.new_promise v).
Proof. by apply consults_view. Qed.
Lemma consults_new_read v : consults k (new_read v).
Proof. by apply consults_view. Qed.
End Consults.
#[export] Hint Resolve consults_ret consults_throw consults_gets consults_assert consults_reader consults_promise consults_new_read : calls.

Ltac consults := repeat first
  [ solve [auto with calls] | apply consults_bind; [|intros ?] | apply consults_modify; done
  | match goal with |- consults _ (if ?b then _ else _) => destruct b | |- consults _ (match ?x with _ => _ end) => destruct x end ].

Section ReaderPromises.
Variables (k : bool) (r : nat) (e : reason) (v : read_result).
Lemma consults_settle p x : consults k (ReadableStream.settle_promise p x).
Proof. by apply consults_view. Qed.
Lemma consults_set_reader x : consults k (set_reader r x).
Proof. by apply consults_view. Qed.
Lemma consults_settle_read : consults k (settle_read v r).
Proof. by apply consults_view. Qed.
Hint Resolve consults_settle consults_set_reader consults_settle_read : calls.
Lemma consults_closed_init : consults k (defaultReaderClosedPromiseInitialize r).
Proof. unfold defaultReaderClosedPromiseInitialize. consults. Qed.
Lemma consults_closed_reject : consults k (defaultReaderClosedPromiseReject r e).
Proof. unfold defaultReaderClosedPromiseReject. consults. Qed.
Lemma consults_closed_resolve : consults k (defaultReaderClosedPromiseResolve r).
Proof. unfold defaultReaderClosedPromiseResolve. consults. Qed.
Lemma consults_settle_requests : consults k (settle_requests v r).
Proof. unfold settle_requests. consults. Qed.
End ReaderPromises.
#[export] Hint Resolve consults_settle consults_set_reader consults_settle_read consults_closed_init consults_closed_reject
  consults_closed_resolve consults_settle_requests : calls.

Lemma consults_for_reader k f : (forall r, consults k (f r)) -> consults k (for_reader f).
Proof. intros H. unfold for_reader. consults. Qed.
#[export] Hint Extern 2 (consults _ (for_reader _)) => apply consults_for_reader; intros ?; consults : calls.

Section Operations.
Variables (hwm : jsnum) (strategySize : Z -> outcome jsnum) (pullOps : nat -> list ctl_op).
Hypothesis Hpull : forall n, pullOps n = [].

(** A pull is called only for an open source, and by the last step. *)
Lemma consults_call_pull : consults false (CallPullIfNeeded hwm strategySize pullOps).
Proof.
  intros s. unfold CallPullIfNeeded. cbn [ReadableStreamDefaultControllerCallPullIfNeeded].
  destruct (should_pull hwm s) as (b & E & Hb). rewrite (bind_ok _ _ _ _ _ E). destruct b; cbn [negb]; [|exists []; apply consulted_nil].
  destruct (Hb eq_refl) as (Hs & Hc & _). rewrite gets_bind. cbn [id]. destruct (rc_pulling s); [exists []; by apply consulted_view|].
  destruct (rc_pullAgain s); [exists []; by apply consulted_view|]. cbn [negb]. rewrite assert_bind, modify_bind, gets_bind by done.
  unfold call_source. rewrite Hpull. cbn [run_ops]. rewrite bind_assoc, gets_bind. destruct (rc_algorithms _); [|exists []; by apply consulted_view].
  rewrite modify_bind. exists [(SourcePull, ReadableStream.WaitPull)]. split; try done; cbn.
  - by repeat constructor.
  - intros Ho. by rewrite (proj2 (can_close_inv s)) in Ho.
  - auto.
Qed.

Lemma consults_get_reader k : consults k new_ReadableStreamDefaultReader.
Proof.
  unfold new_ReadableStreamDefaultReader, ReadableStreamReaderGenericInitialize, defaultReaderClosedPromiseInitializeAsRejected. consults.
Qed.
Lemma consults_release k r : consults k (reader_releaseLock r).
Proof.
  unfold reader_releaseLock, ReadableStreamReaderGenericRelease, ReadableStreamDefaultReaderErrorReadRequests,
    defaultReaderClosedPromiseInitializeAsRejected. consults.
Qed.
Lemma consults_dequeue k : consults k ReadableStream.DequeueValue.
Proof. unfold ReadableStream.DequeueValue. consults. Qed.
Lemma consults_reset k : consults k ReadableStream.ResetQueue.
Proof. by apply consults_view. Qed.
Hint Resolve consults_call_pull consults_dequeue consults_reset : calls.

(** The end of a stream: by the source's wish, or by a cancellation. *)
Lemma consulted_end k st s s' : source_view s' = source_view (set_rs_state st s) -> st <> Readable ->
  (st = ReadableStream.Closed -> rc_closeRequested s = true \/ k = true) -> consulted k [] s s'.
Proof.
  unfold source_view. rprojs. intros [= E1 E2 E3 E4 E5] Hst Hc. split; rewrite ?app_nil_r; auto.
  - intros _. unfold ReadableStreamDefaultControllerCanCloseOrEnqueue, rstate_is. rewrite E5, bool_decide_false by done.
    by rewrite andb_false_r.
  - rewrite E5. auto.
Qed.

Lemma view_for_reader f s : (forall r s, source_view (f r s).2 = source_view s) -> source_view (for_reader f s).2 = source_view s.
Proof. intros H. unfold for_reader. rewrite gets_bind. by destruct (rs_reader s). Qed.

Lemma view_bind {A} (m : SM rstream A) (f : A -> SM rstream unit) : (forall s, source_view (m s).2 = source_view s) ->
  (forall a s, source_view (f a s).2 = source_view s) -> forall s, source_view ((m ≫= f) s).2 = source_view s.
Proof. intros Hm Hf s. unfold mbind, sm_bind. specialize (Hm s). destruct (m s) as [[a|c e] s1]; [by rewrite Hf|done]. Qed.

Lemma view_the_reader r s : source_view (the_reader r s).2 = source_view s.
Proof. unfold the_reader. by destruct (rs_readers s !! r). Qed.
Lemma view_settle_requests v r s : source_view (settle_requests v r s).2 = source_view s.
Proof. apply view_bind; [apply view_the_reader|]. intros x. by apply view_bind. Qed.

Lemma stream_close_view s : source_view (ReadableStreamClose s).2 = source_view s \/
  source_view (ReadableStreamClose s).2 = source_view (set_rs_state ReadableStream.Closed s).
Proof.
  unfold ReadableStreamClose. rewrite gets_bind. cbn [id]. destruct (rstate_is Readable s); [|by left]. right.
  rewrite assert_bind, modify_bind by done. apply view_for_reader. intros r. apply view_bind; [|intros _; apply view_settle_requests].
  intros s1. apply view_bind; [apply view_the_reader|]. intros x s2. by destruct (negb (rd_resolvers x)).
Qed.

Lemma stream_error_view e s : source_view (ReadableStreamError e s).2 = source_view s \/
  source_view (ReadableStreamError e s).2 = source_view (set_rs_state ReadableStream.Errored s).
Proof.
  unfold ReadableStreamError. rewrite gets_bind. cbn [id]. destruct (rstate_is Readable s); [|by left]. right.
  rewrite assert_bind, !modify_bind by done. rewrite view_for_reader; [done|]. intros r. apply view_bind; [|intros _; apply view_settle_requests].
  intros s1. apply view_bind; [apply view_the_reader|]. intros x s2. by destruct (negb (rd_resolvers x)).
Qed.

Lemma consults_stream_close : consults true ReadableStreamClose.
Proof.
  intros s. exists []. destruct (stream_close_view s) as [E|E]; [by apply consulted_view|].
  eapply consulted_end; [exact E|done|]. auto.
Qed.
Hint Resolve consults_stream_close : calls.

Lemma consults_ctl_error k e : consults k (ReadableStreamDefaultControllerError e).
Proof.
  unfold ReadableStreamDefaultControllerError. apply consults_bind; [auto with calls|]. intros s0.
  destruct (negb _); [auto with calls|]. apply consults_bind; [auto with calls|intros _].
  apply consults_bind; [by apply consults_modify|intros _]. intros s. exists [].
  destruct (stream_error_view e s) as [E|E]; [by apply consulted_view|]. by eapply consulted_end; [exact E|..].
Qed.
Hint Resolve consults_ctl_error : calls.

Lemma consults_pull_steps v : consults false (PullSteps hwm strategySize pullOps v).
Proof.
  unfold PullSteps. apply consults_bind; [auto with calls|intros q]. destruct (bool_decide _).
  - apply consults_bind; [auto with calls|intros c]. intros s. rewrite gets_bind. cbn [id].
    assert (exists new, consulted false new s ((if rc_closeRequested s && bool_decide (rc_queue s = [])
      then ReadableStreamDefaultControllerClearAlgorithms ;; ReadableStreamClose else CallPullIfNeeded hwm strategySize pullOps) s).2) as [n1 C1].
    { destruct (rc_closeRequested s) eqn:Er; cbn [andb]; [|apply consults_call_pull].
      destruct (bool_decide (rc_queue s = [])); [|apply consults_call_pull].
      exists []. unfold ReadableStreamDefaultControllerClearAlgorithms. rewrite modify_bind.
      destruct (stream_close_view (set_rc_algorithms false s)) as [E|E]; [by apply consulted_view; rewrite E|].
      eapply consulted_end; [exact E|done|]. auto. }
    unfold mbind at 1, sm_bind at 1. destruct (_ s) as [[[]|c1 m1] s1]; [|by exists n1].
    destruct (consults_settle_read false v (ReadChunk c) s1) as [n2 C2]. exists (n1 ++ n2). by eapply consulted_app.
  - unfold ReadableStreamAddReadRequest. consults.
Qed.
Hint Resolve consults_pull_steps : calls.

Lemma consults_read r : consults false (reader_read hwm strategySize pullOps r).
Proof.
  unfold reader_read, ReadableStream.promiseRejectedWith, ReadableStreamDefaultReaderRead. consults.
Qed.

Lemma consults_cancel_steps e : consults true (CancelSteps e).
Proof.
  unfold CancelSteps. apply consults_bind; [auto with calls|intros _]. apply consults_bind; [auto with calls|intros p].
  apply consults_bind; [|intros _; apply consults_bind; [by apply consults_modify|auto with calls]].
  intros s. unfold call_source. rewrite gets_bind. destruct (rc_algorithms s); [|exists []; apply consulted_nil].
  exists [(SourceCancel e, ReadableStream.WaitCancel p)]. split; try done; cbn.
  - by repeat constructor.
  - auto.
Qed.
Hint Resolve consults_cancel_steps : calls.

Lemma consults_cancel e : consults true (ReadableStreamCancel e).
Proof.
  unfold ReadableStreamCancel, ReadableStream.promiseResolvedWith, ReadableStream.promiseRejectedWith. consults.
Qed.
Hint Resolve consults_cancel : calls.

Definition consumer_call (e : revent) : Prop := match e with EvController _ | EvSettled _ _ => False | _ => True end.
Definition cancels (e : revent) : bool := match e with EvCancel _ | EvReaderCancel _ _ => true | _ => false end.

Lemma consults_event e : consumer_call e -> consults (cancels e) (revent_run hwm strategySize pullOps e).
Proof.
  destruct e as [|e|r|r e|r|op|i [e|]]; try done; intros _; cbn [revent_run cancels]; unfold ReadableStream.ignore.
  - apply consults_bind; [apply consults_get_reader|auto with calls].
  - apply consults_bind; [unfold stream_cancel, ReadableStream.promiseRejectedWith; consults|auto with calls].
  - apply consults_bind; [apply consults_read|auto with calls].
  - apply consults_bind; [unfold reader_cancel, ReadableStream.promiseRejectedWith; consults|auto with calls].
  - apply consults_release.
Qed.

Lemma consults_settled k res : consults false (ReadableStream.on_settled hwm strategySize pullOps k res).
Proof.
  destruct k, res; cbn; unfold ReadableStream.on_start_fulfilled, on_pull_fulfilled, on_source_rejected; consults.
Qed.
End Operations.

(* ------------------------------------------------------------------ *)
(** ** The controllers *)

(** A writable stream that nobody aborts errs without a call of its sink. *)
Definition silent {A} (m : SM wstream A) : Prop := forall s, st_pendingAbort s = None ->
  st_pendingAbort (m s).2 = None /\ sink_calls (m s).2 = sink_calls s /\ awaited (m s).2 = awaited s.

Lemma silent_bind {A B} (m : SM wstream A) (f : A -> SM wstream B) : silent m -> (forall a, silent (f a)) -> silent (m ≫= f).
Proof.
  intros Hm Hf s Hs. destruct (Hm s Hs) as (H1 & H2 & H3). unfold mbind, sm_bind. destruct (m s) as [[a|c e] s1]; [|done]. cbn in *.
  destruct (Hf a s1 H1) as (? & ? & ?). split_and!; [done|congruence|congruence].
Qed.
Lemma silent_pure {A} (m : SM wstream A) : (forall s, (m s).2 = s) -> silent m.
Proof. intros H s Hs. by rewrite H. Qed.
Lemma silent_modify g : (forall s, st_pendingAbort s = None -> st_pendingAbort (g s) = None /\ sink_calls (g s) = sink_calls s /\ awaited (g s) = awaited s) ->
  silent (modify g).
Proof. done. Qed.
Lemma silent_the_writer n : silent (the_writer n).
Proof. apply silent_pure. intros s. unfold the_writer. by destruct (writers s !! n). Qed.
Lemma silent_new_promise : silent new_promise.
Proof. by intros s Hs. Qed.

#[export] Hint Resolve silent_the_writer silent_new_promise : calls.

Ltac silent := repeat first
  [ solve [auto with calls] | apply silent_modify; done | apply silent_pure; done
  | match goal with |- silent (if ?b then _ else _) => destruct b | |- silent (match ?x with _ => _ end) => destruct x end
  | apply silent_bind; [|intros ?] ].

Lemma silent_reject_close : silent WritableStreamRejectCloseAndClosedPromiseIfNeeded.
Proof. unfold WritableStreamRejectCloseAndClosedPromiseIfNeeded, settle_promise, for_writer, defaultWriterClosedPromiseReject, set_writer. silent. Qed.

Lemma silent_finish_erroring : silent WritableStreamFinishErroring.
Proof.
  intros s Hs. unfold WritableStreamFinishErroring. rewrite gets_bind. cbn [id]. rewrite Hs. revert s Hs.
  enough (forall s0, silent (assert (state_is [Erroring] s0) ;; assert (negb (WritableStreamHasOperationMarkedInFlight s0)) ;;
    modify (set_st_state Errored) ;; ResetQueue ;; storedError ← gets st_storedError;
    reject_all storedError (st_writeRequests s0) ;; modify (set_st_writeRequests []) ;;
    WritableStreamRejectCloseAndClosedPromiseIfNeeded)) as H by (intros s; exact (H s s)).
  intros s0. unfold ResetQueue, reject_all. do 7 (apply silent_bind; [silent|intros ?]). apply silent_reject_close.
Qed.
#[export] Hint Resolve silent_finish_erroring : calls.

Lemma silent_error r : silent (WritableStreamDefaultControllerErrorIfNeeded r).
Proof.
  unfold WritableStreamDefaultControllerErrorIfNeeded, WritableStreamDefaultControllerError, WritableStreamDefaultControllerClearAlgorithms,
    WritableStreamStartErroring, for_writer, WritableStreamDefaultWriterEnsureReadyPromiseRejected, defaultWriterReadyPromiseInitializeAsRejected,
    defaultWriterReadyPromiseInitialize, defaultWriterReadyPromiseReject, settle_promise, set_writer.
  silent.
Qed.

Section Controllers.
Variables (hwm : jsnum) (strategySize : Z -> outcome jsnum) (pullOps : nat -> list ctl_op).
Hypothesis Hpull : forall n, pullOps n = [].
Hypothesis Hsize : forall chunk c msg, strategySize chunk = Throw c msg -> is_defect c msg = false.
Abbreviation should := (ReadableStreamDefaultControllerShouldCallPull hwm).
Abbreviation call_pull := (CallPullIfNeeded hwm strategySize pullOps).
Abbreviation RInv := (ReadableStreamInv.Inv false None).

Lemma should_same s s' : (rc_closeRequested s', rs_state s', rc_started s', rs_reader s', rs_readers s', rc_total s') =
  (rc_closeRequested s, rs_state s, rc_started s, rs_reader s, rs_readers s, rc_total s) -> (should s').1 = (should s).1.
Proof.
  intros [= E1 E2 E3 E4 E5 E6]. unfold ReadableStreamDefaultControllerShouldCallPull. rewrite !gets_bind. cbn [id].
  unfold ReadableStreamDefaultControllerCanCloseOrEnqueue, rstate_is, IsReadableStreamLocked, ReadableStreamGetNumReadRequests, requests,
    ReadableStreamDefaultControllerGetDesiredSize. rewrite E1, E2, E3, E4, E5, E6.
  destruct (negb _); [done|]. destruct (negb _); [done|]. destruct (_ && _); [done|]. by destruct (rs_state s).
Qed.

(** [CallPullIfNeeded] pulls, or remembers to, when it should. *)
Lemma call_pull_effect s : RInv s -> exists b s', should s = (Ok b, s) /\ call_pull s = (Ok tt, s') /\ RInv s' /\ should s' = (Ok b, s') /\
  (if b then open_source s = true /\ (s' = set_rc_pullAgain true s \/ rc_pulling s = false /\ s' = pull_called s) else s' = s).
Proof.
  intros H. destruct (should_pull hwm s) as (b & E & Hb). destruct (call_pull_quiet hwm strategySize pullOps Hsize false None s H) as (s' & Hc & Hi).
  exists b, s'. split_and!; [done|done|done|..].
  all: revert Hc; unfold CallPullIfNeeded; cbn [ReadableStreamDefaultControllerCallPullIfNeeded]; rewrite (bind_ok _ _ _ _ _ E);
    destruct b; cbn [negb]; [|by intros [= <-]]; destruct (Hb eq_refl) as (Hs & Hr & Ht); rewrite gets_bind; cbn [id];
    destruct (rc_pulling s) eqn:Ep.
  all: try match goal with |- (modify _ _ = _) -> _ => intros [= <-] end.
  1: { pose proof (should_same s (set_rc_pullAgain true s) eq_refl) as Hsh. rewrite E in Hsh. destruct (should_pull hwm (set_rc_pullAgain true s)) as (b & E' & _).
    rewrite E' in *. cbn in Hsh. by injection Hsh as ->. }
  2: { split; [by apply can_close_inv|by left]. }
  all: assert (Hag : rc_pullAgain s = false) by (destruct H as [_ Hp]; destruct (rc_pullAgain s); [by rewrite Hp in Ep|done]);
    rewrite Hag; cbn [negb]; rewrite assert_bind, modify_bind, gets_bind by done; unfold call_source; rewrite Hpull, bind_assoc, gets_bind;
    change (rc_algorithms (set_rc_pulling true s)) with (rc_algorithms s); rewrite (fl_algorithms s) by (done || apply H); rewrite modify_bind;
    cbn [run_ops]; intros [= <-].
  - pose proof (should_same s (pull_called s) eq_refl) as Hsh. rewrite E in Hsh. destruct (should_pull hwm (pull_called s)) as (b & E' & _).
    change (should (pull_called s) = (Ok true, pull_called s)). rewrite E' in *. cbn in Hsh. by injection Hsh as ->.
  - split; [by apply can_close_inv|by right].
Qed.

(** An accepted chunk: the source is pulled at most once. *)
Record enqueued (chunk : Z) (new : list (source_call * rwait)) (s s' : rstream) : Prop := {
  en_calls : rs_calls s' = rs_calls s ++ new.*1;
  en_awaited : rs_awaited s' = rs_awaited s ++ new.*2;
  en_accepted : rs_accepted s' = rs_accepted s ++ [chunk];
  en_open : open_source s' = true;
  en_again : rc_pullAgain s = true -> rc_pullAgain s' = true;
  en_should : (should s' = (Ok false, s') /\ new = []) \/
    (should s' = (Ok true, s') /\ (rc_pullAgain s' = true /\ new = [] \/ rc_pullAgain s = false /\ new = [(SourcePull, ReadableStream.WaitPull)]));
}.

Lemma fulfill_view chunk s : exists o s', ReadableStreamFulfillReadRequest chunk false s = (o, s') /\ source_view s' = source_view s /\
  rc_pullAgain s' = rc_pullAgain s.
Proof.
  unfold ReadableStreamFulfillReadRequest. rewrite gets_bind. unfold mbind at 1, sm_bind at 1, assert, assert_default, id.
  destruct (bool_decide _); [|by eexists _, s]. unfold for_reader. rewrite gets_bind. destruct (rs_reader s) as [r|]; [|by eexists _, s].
  unfold mbind, sm_bind, the_reader. destruct (rs_readers s !! r) as [x|]; [|by eexists _, s]. by destruct (rd_requests x); eexists _, _.
Qed.

Lemma ctl_error_effect e s : RInv s -> exists s', ReadableStreamDefaultControllerError e s = (Ok tt, s') /\ RInv s' /\ open_source s' = false /\
  rs_state s' <> Readable /\ (rs_state s <> Readable /\ s' = s \/
    rs_storedError s' = e /\ source_view s' = source_view (set_rs_state ReadableStream.Errored s)).
Proof.
  intros H. destruct (ctl_error_good false e None s H) as [Hi _]. revert Hi.
  unfold ReadableStreamDefaultControllerError. rewrite gets_bind. cbn [id]. unfold rstate_is. case_bool_decide as Hs; cbn [negb].
  - unfold ReadableStream.ResetQueue, ReadableStreamDefaultControllerClearAlgorithms. rewrite !modify_bind.
    set (s1 := set_rc_algorithms false (set_rc_total 0 (set_rc_queue [] s))).
    pose proof H as [[Hr _ _ _] _]. rewrite Hs in Hr. rewrite (error_eq s1 e) by done. intros Hi. eexists. split; [done|]. split; [done|].
    split; [unfold terminate, ReadableStreamDefaultControllerCanCloseOrEnqueue, rstate_is; cbn; by rewrite andb_false_r|]. split; [done|].
    right. by split.
  - intros Hi. exists s. split_and!; try done; [|by left]. unfold ReadableStreamDefaultControllerCanCloseOrEnqueue, rstate_is.
    rewrite bool_decide_false by done. by rewrite andb_false_r.
Qed.

Lemma ctl_close_effect s : RInv s -> exists s', ReadableStreamDefaultControllerClose s = (Ok tt, s') /\ RInv s' /\ open_source s' = false /\
  (open_source s = false /\ s' = s \/ open_source s = true /\ rc_closeRequested s' = true /\
    rs_calls s' = rs_calls s /\ rs_awaited s' = rs_awaited s /\ rs_accepted s' = rs_accepted s).
Proof.
  intros H. destruct (ctl_close_good false None s H) as [Hi _]. revert Hi.
  unfold ReadableStreamDefaultControllerClose. rewrite gets_bind. cbn [id].
  destruct (open_source s) eqn:Eo; cbn [negb]; [|intros Hi; exists s; split_and!; try done; by left].
  rewrite modify_bind. apply can_close_inv in Eo as [Hc Hs].
  destruct (bool_decide (rc_queue s = [])).
  - unfold ReadableStreamDefaultControllerClearAlgorithms. rewrite modify_bind.
    set (s1 := set_rc_algorithms false (set_rc_closeRequested true s)).
    pose proof H as [[Hr _ _ _] _]. rewrite Hs in Hr. rewrite (close_eq s1) by done.
    intros Hi. eexists. split; [done|]. split; [done|]. split; [done|]. by right.
  - intros Hi. eexists. split; [done|]. split; [done|]. split; [done|]. by right.
Qed.

Lemma enqueue_effect chunk s : RInv s -> open_source s = true ->
  exists o s', ReadableStreamDefaultControllerEnqueue strategySize call_pull chunk s = (o, s') /\ RInv s' /\
    match o with
    | Ok _ => exists new, enqueued chunk new s s'
    | Throw cl msg => is_defect cl msg = false /\ rs_storedError s' = ErrorObj cl msg /\
        source_view s' = source_view (set_rs_state ReadableStream.Errored s)
    end.
Proof.
  intros H Ho. apply can_close_inv in Ho as [Hc Hs]. unfold ReadableStreamDefaultControllerEnqueue. rewrite gets_bind. cbn [id].
  rewrite (proj2 (can_close_inv s)) by done. cbn [negb].
  assert (exists o s1, (if IsReadableStreamLocked s && (0 <? ReadableStreamGetNumReadRequests s)%nat
      then ReadableStreamFulfillReadRequest chunk false else enqueue_sized strategySize chunk) s = (o, s1) /\
    match o with
    | Ok _ => source_view s1 = source_view s /\ rc_pullAgain s1 = rc_pullAgain s /\ RInv (set_rs_accepted (rs_accepted s1 ++ [chunk]) s1)
    | Throw cl msg => RInv s1 /\ is_defect cl msg = false /\ rs_storedError s1 = ErrorObj cl msg /\
        source_view s1 = source_view (set_rs_state ReadableStream.Errored s)
    end) as (o & s1 & E & Hm).
  { destruct (IsReadableStreamLocked s && _) eqn:El.
    - apply andb_true_iff in El as [_ El%Nat.ltb_lt]. destruct (fulfill_good false None s chunk H) as (s1 & E & _ & Hi).
      { unfold ReadableStreamGetNumReadRequests in El. destruct (requests s); [cbn in El; lia|done]. }
      destruct (fulfill_view chunk s) as (o & s1' & E' & Hv & Ha). rewrite E in E'. injection E' as <- <-. by exists (Ok tt), s1.
    - assert (Hq : requests s = []).
      { destruct (requests s) eqn:Eq; [done|]. destruct (requests_readable false None s H) as (r & x & _ & Er & _); [by rewrite Eq|].
        revert El. unfold IsReadableStreamLocked, ReadableStreamGetNumReadRequests. by rewrite Er, Eq. }
      pose proof (enqueue_sized_good strategySize Hsize false None s chunk H Hs Hq) as Hg. revert Hg. unfold enqueue_sized.
      rewrite (fl_algorithms s) by (done || apply H). cbn [negb].
      assert (Hf : forall cl msg, is_defect cl msg = false -> exists o s1,
        (ReadableStreamDefaultControllerError (ErrorObj cl msg) ;; @throw rstream unit cl msg) s = (o, s1) /\
        match o with
        | Ok _ => source_view s1 = source_view s /\ rc_pullAgain s1 = rc_pullAgain s /\ RInv (set_rs_accepted (rs_accepted s1 ++ [chunk]) s1)
        | Throw cl msg => RInv s1 /\ is_defect cl msg = false /\ rs_storedError s1 = ErrorObj cl msg /\
            source_view s1 = source_view (set_rs_state ReadableStream.Errored s)
        end).
      { intros cl msg Hd. destruct (ctl_error_effect (ErrorObj cl msg) s H) as (s1 & E & Hi & _ & _ & [[? _]|[He Hv]]); [done|].
        exists (Throw cl msg), s1. by rewrite (bind_ok _ _ _ _ _ E). }
      destruct (strategySize chunk) as [size|cl msg] eqn:E; [|intros _; by apply Hf, (Hsize chunk)].
      unfold ReadableStream.EnqueueValueWithSize. destruct size as [z| | |]; try by (intros _; apply Hf).
      destruct (0 <=? z); [|intros _; by apply Hf]. intros Hg. by eexists (Ok tt), _. }
  destruct o as [[]|cl msg].
  - rewrite (bind_ok _ _ _ _ _ E), modify_bind. destruct Hm as (Hv & Ha & Hi). set (s2 := set_rs_accepted _ _) in *.
    destruct (call_pull_effect s2 Hi) as (b & s' & Eb & Ec & Hi' & Eb' & Hb). exists (Ok tt), s'. split; [done|]. split; [done|].
    injection Hv as V1 V2 V3 V4 V5.
    assert (Ho2 : forall t, rc_closeRequested t = rc_closeRequested s2 -> rs_state t = rs_state s2 -> open_source t = true).
    { intros t T1 T2. apply can_close_inv. rewrite T1, T2. unfold s2. rprojs. by rewrite V4, V5. }
    destruct b; [destruct Hb as (_ & [->|[Hp ->]])|subst s'].
    + exists []. split; rprojs; rewrite ?app_nil_r, ?V1, ?V2, ?V3; try done; [by apply Ho2|]. right. split; [done|]. by left.
    + assert (Hag : rc_pullAgain s = false).
      { rewrite <-Ha. change (rc_pullAgain s2 = false). destruct Hi as [_ Hpl]. destruct (rc_pullAgain s2); [by rewrite Hpl in Hp|done]. }
      exists [(SourcePull, ReadableStream.WaitPull)]. split; [..|right; split; [exact Eb'|by right]];
        unfold pull_called; rprojs; rewrite ?V1, ?V2, ?V3, ?Ha; try done. by apply Ho2.
    + exists []. split; rprojs; rewrite ?app_nil_r, ?V1, ?V2, ?V3, ?Ha; try done; [by apply Ho2|]. by left.
  - exists (Throw cl msg), s1. split; [|exact Hm]. unfold mbind at 1, sm_bind at 1. by rewrite E.
Qed.

(** A stream that is closed was closed by its controller, or cancelled. *)
Lemma cancel_closes e s : RInv s -> rs_state (ReadableStreamCancel e s).2 = ReadableStream.Closed ->
  rs_state s = ReadableStream.Closed \/ existsb is_cancel (rs_calls (ReadableStreamCancel e s).2) = true.
Proof.
  intros H. unfold ReadableStreamCancel. rewrite modify_bind, gets_bind. cbn [id].
  set (s1 := set_rs_disturbed true s). change (rs_state s1) with (rs_state s). destruct (rs_state s) eqn:Hs; [|by left|].
  - intros _. right. pose proof (disturbed_inv _ _ _ H) as H1. fold s1 in H1. pose proof H1 as [[Hr _ _ Hf] _].
    change (rs_state s1) with (rs_state s) in Hr. rewrite Hs in Hr. rewrite (bind_ok _ _ _ _ _ (close_eq s1 Hs Hr)).
    unfold CancelSteps, ReadableStream.ResetQueue, call_source. rewrite modify_bind. unfold mbind at 1, sm_bind at 1, ReadableStream.new_promise.
    rewrite bind_assoc, gets_bind. unfold terminate. cbn. rewrite (fl_algorithms s) by (done || apply H). cbn.
    rewrite modify_bind. unfold mbind, sm_bind. cbn. rewrite existsb_app. cbn. by rewrite orb_true_r.
  - unfold ReadableStream.promiseRejectedWith, ReadableStream.new_promise. cbn. congruence.
Qed.

Lemma consumer_closes e s : RInv s -> consumer_call e -> let s' := (revent_run hwm strategySize pullOps e s).2 in
  rs_state s' = ReadableStream.Closed ->
  rs_state s = ReadableStream.Closed \/ rc_closeRequested s = true \/ existsb is_cancel (rs_calls s') = true.
Proof.
  intros H He. cbv zeta. destruct (cancels e) eqn:Ec.
  2: { destruct (consults_event hwm strategySize pullOps Hpull e He s) as (new & [? ? ? ? ? ? Hcl]). rewrite Ec in Hcl.
    intros Hs. destruct (Hcl Hs) as [?|[?|[=]]]; auto. }
  assert (Hcase : forall r, rs_state (ReadableStream.ignore (ReadableStreamCancel r) s).2 = ReadableStream.Closed ->
    rs_state s = ReadableStream.Closed \/ rc_closeRequested s = true \/
    existsb is_cancel (rs_calls (ReadableStream.ignore (ReadableStreamCancel r) s).2) = true).
  { intros r. pose proof (cancel_closes r s H) as Hr. unfold ReadableStream.ignore, mbind, sm_bind in *.
    destruct (ReadableStreamCancel r s) as [[a|c m] s1]; cbn in *; intros E; destruct (Hr E); auto. }
  destruct e as [|r|n|n r|n|op|i res]; try done; cbn [revent_run].
  - unfold stream_cancel. unfold ReadableStream.ignore. rewrite bind_assoc, gets_bind. cbn [id]. destruct (IsReadableStreamLocked s); [|apply Hcase].
    unfold ReadableStream.promiseRejectedWith, ReadableStream.new_promise. cbn. auto.
  - unfold reader_cancel, ReadableStream.ignore. rewrite bind_assoc. destruct (rs_readers s !! n) as [x|] eqn:Ex.
    + rewrite (the_reader_bind n x) by done. destruct (negb (rd_owner x)); [|apply Hcase].
      unfold ReadableStream.promiseRejectedWith, ReadableStream.new_promise. cbn. auto.
    + unfold mbind at 1, sm_bind at 1, the_reader. rewrite Ex. cbn. auto.
Qed.
End Controllers.
