(* ===== verification/TransformStream.v ===== *)
(** * The transform stream of [lib/lws/streams.js]

    [TransformStream] with its controller, on top of the two machines of
    [WritableStream] and [ReadableStream]: the sink of the one and the
    source of the other are the algorithms of this class.  A stream records
    the calls of its sink or source and goes on; here every call is followed
    at once by the body of the algorithm.  That is what the code does, since
    after such a call the stream touches nothing the algorithm reads or
    writes.  The transformer is outside: what its methods do to the
    controller while they run is a parameter, its promises settle by
    events. *)

From S2P Require Import Prelude StreamBase ReadableStream WritableStream StreamCalls.
Open Scope Z_scope.

(** The promise an algorithm has returned: that of [start], the wait of a
    write for a change of backpressure, the promise of [transform] (with its
    value, if the code knows it already), a settled one,
    [backpressureChangePromise] (by number), [finishPromise]; [PNever] when
    the algorithm threw, so that no handler is installed. *)
Inductive apromise :=
| PStart | PBlocked (n : nat) (chunk : Z) | PTransform (known : option (option reason)) | PSettled (res : option reason)
| PChange (n : nat) | PFinish | PNever.

(** The algorithm whose promise [finishPromise] waits for. *)
Inductive finisher := FinishAbort (r : reason) | FinishClose | FinishCancel (r : reason).

(** The fields of [STRM] and [CTRL].  [ts_changes] counts the promises
    [backpressureChangePromise] has held: all but the last are resolved.
    [ts_sink] and [ts_source] go with [awaited] and [rs_awaited], position by
    position.  Histories: the chunks [transformAlgorithm] was called with,
    and what the methods of the controller threw. *)
Record tstream := TStream {
  ts_writable : wstream; ts_readable : rstream;
  ts_backpressure : option bool; ts_changes : nat;
  ts_algorithms : bool;            (* the three algorithms are still there *)
  ts_start : option (option reason);
  ts_finish : option settlement; ts_finishing : option finisher;
  ts_sink : list apromise; ts_source : list apromise;
  ts_transformed : list Z; ts_thrown : list reason;
}.

Definition set_ts_writable v (s : tstream) : tstream := TStream v (ts_readable s) (ts_backpressure s) (ts_changes s) (ts_algorithms s) (ts_start s) (ts_finish s) (ts_finishing s) (ts_sink s) (ts_source s) (ts_transformed s) (ts_thrown s).
Definition set_ts_readable v (s : tstream) : tstream := TStream (ts_writable s) v (ts_backpressure s) (ts_changes s) (ts_algorithms s) (ts_start s) (ts_finish s) (ts_finishing s) (ts_sink s) (ts_source s) (ts_transformed s) (ts_thrown s).
Definition set_ts_change b n (s : tstream) : tstream := TStream (ts_writable s) (ts_readable s) b n (ts_algorithms s) (ts_start s) (ts_finish s) (ts_finishing s) (ts_sink s) (ts_source s) (ts_transformed s) (ts_thrown s).
Definition set_ts_algorithms v (s : tstream) : tstream := TStream (ts_writable s) (ts_readable s) (ts_backpressure s) (ts_changes s) v (ts_start s) (ts_finish s) (ts_finishing s) (ts_sink s) (ts_source s) (ts_transformed s) (ts_thrown s).
Definition set_ts_start v (s : tstream) : tstream := TStream (ts_writable s) (ts_readable s) (ts_backpressure s) (ts_changes s) (ts_algorithms s) v (ts_finish s) (ts_finishing s) (ts_sink s) (ts_source s) (ts_transformed s) (ts_thrown s).
Definition set_ts_finish v (s : tstream) : tstream := TStream (ts_writable s) (ts_readable s) (ts_backpressure s) (ts_changes s) (ts_algorithms s) (ts_start s) v (ts_finishing s) (ts_sink s) (ts_source s) (ts_transformed s) (ts_thrown s).
Definition set_ts_finishing v (s : tstream) : tstream := TStream (ts_writable s) (ts_readable s) (ts_backpressure s) (ts_changes s) (ts_algorithms s) (ts_start s) (ts_finish s) v (ts_sink s) (ts_source s) (ts_transformed s) (ts_thrown s).
Definition set_ts_sink v (s : tstream) : tstream := TStream (ts_writable s) (ts_readable s) (ts_backpressure s) (ts_changes s) (ts_algorithms s) (ts_start s) (ts_finish s) (ts_finishing s) v (ts_source s) (ts_transformed s) (ts_thrown s).
Definition set_ts_source v (s : tstream) : tstream := TStream (ts_writable s) (ts_readable s) (ts_backpressure s) (ts_changes s) (ts_algorithms s) (ts_start s) (ts_finish s) (ts_finishing s) (ts_sink s) v (ts_transformed s) (ts_thrown s).
Definition set_ts_transformed v (s : tstream) : tstream := TStream (ts_writable s) (ts_readable s) (ts_backpressure s) (ts_changes s) (ts_algorithms s) (ts_start s) (ts_finish s) (ts_finishing s) (ts_sink s) (ts_source s) v (ts_thrown s).
Definition set_ts_thrown v (s : tstream) : tstream := TStream (ts_writable s) (ts_readable s) (ts_backpressure s) (ts_changes s) (ts_algorithms s) (ts_start s) (ts_finish s) (ts_finishing s) (ts_sink s) (ts_source s) (ts_transformed s) v.

(* ------------------------------------------------------------------ *)
(** ** State and exceptions *)

(** Code on the transform stream that may throw any value. *)
Definition TM (A : Type) := tstream -> (A + reason) * tstream.

#[export] Instance tm_ret : MRet TM := fun A a s => (inl a, s).
#[export] Instance tm_bind : MBind TM := fun A B f m s =>
  match m s with
  | (inl a, s') => f a s'
  | (inr e, s') => (inr e, s')
  end.

Definition raise {A} (e : reason) : TM A := fun s => (inr e, s).
Definition attempt {A} (m : TM A) : TM (A + reason) := fun s => let '(r, s') := m s in (inl r, s').
Definition result {A} (r : A + reason) : TM A := fun s => (r, s).
Definition get {A} (f : tstream -> A) : TM A := fun s => (inl (f s), s).
Definition update (f : tstream -> tstream) : TM unit := fun s => (inl tt, f s).

Definition of_outcome {A} (o : outcome A) : A + reason := match o with Ok a => inl a | Throw c msg => inr (ErrorObj c msg) end.
Definition check (b : bool) : TM unit := result (of_outcome (assert_default b)).

(** An operation of one of the two sides. *)
Definition on_writable {A} (m : SM wstream A) : TM A := fun s =>
  let '(o, w) := m (ts_writable s) in (of_outcome o, set_ts_writable w s).
Definition on_readable {A} (m : SM rstream A) : TM A := fun s =>
  let '(o, r) := m (ts_readable s) in (of_outcome o, set_ts_readable r s).

(** The promise of an algorithm, kept with the call. *)
Definition keep (push : apromise -> tstream -> tstream) (m : TM apromise) : TM unit :=
  r ← attempt m;
  match r with
  | inl p => update (push p)
  | inr e => update (push PNever) ;; raise e
  end.

Fixpoint each {A} (f : A -> TM unit) (l : list A) : TM unit :=
  match l with [] => mret tt | a :: l => f a ;; each f l end.

(** An operation of the writable side, and the algorithms it calls. *)
Definition with_sink {A} (method : sink_call -> TM apromise) (m : SM wstream A) : TM A :=
  n ← get (fun s => length (sink_calls (ts_writable s)));
  r ← attempt (on_writable m);
  calls ← get (fun s => drop n (sink_calls (ts_writable s)));
  each (fun c => keep (fun p s => set_ts_sink (ts_sink s ++ [p]) s) (method c)) calls ;;
  result r.

Definition with_source {A} (method : source_call -> TM apromise) (m : SM rstream A) : TM A :=
  n ← get (fun s => length (rs_calls (ts_readable s)));
  r ← attempt (on_readable m);
  calls ← get (fun s => drop n (rs_calls (ts_readable s)));
  each (fun c => keep (fun p s => set_ts_source (ts_source s ++ [p]) s) (method c)) calls ;;
  result r.

(** A call that the operation cannot make. *)
Definition no_call {A} (c : A) : TM apromise := raise (ErrorObj ErrAssertionError "no such call").

(* ------------------------------------------------------------------ *)
(** ** The transformer *)

(** What a transformer does to its controller. *)
Inductive transform_op := OpEnqueue (chunk : Z) | OpError (e : reason) | OpTerminate.

(** Its methods, each optional, as what they do to the controller before
    they return; the [n]-th call of [transform] has number [n]. *)
Record transformer := Transformer {
  tr_start : option (list transform_op);
  tr_transform : option (nat -> Z -> list transform_op);
  tr_flush : option (list transform_op);
  tr_cancel : option (reason -> list transform_op);
}.

Definition identity_transformer : transformer := Transformer None None None None.

(** The readable side's [pull] is [pullAlgorithm], which leaves its
    controller alone. *)
Definition no_ops (n : nat) : list ctl_op := [].

Section Transform.
Variables (tr : transformer) (whwm rhwm : jsnum) (wsize : Z -> jsnum + reason) (rsize : Z -> outcome jsnum).

Definition TransformStreamSetBackpressure (backpressure : bool) : TM unit :=
  b ← get ts_backpressure;
  check (bool_decide (b <> Some backpressure)) ;;
  update (fun s => set_ts_change (Some backpressure) (S (ts_changes s)) s).

Definition TransformStreamUnblockWrite : TM unit :=
  b ← get ts_backpressure;
  if bool_decide (b = Some true) then TransformStreamSetBackpressure false else mret tt.

Definition TransformStreamDefaultControllerClearAlgorithms : TM unit := update (set_ts_algorithms false).

(** No sink method runs inside: the stream has no abort to answer. *)
Definition error_writable (e : reason) : TM unit := with_sink no_call (WritableStreamDefaultControllerErrorIfNeeded e).

Definition TransformStreamErrorWritableAndUnblockWrite (e : reason) : TM unit :=
  TransformStreamDefaultControllerClearAlgorithms ;; error_writable e ;; TransformStreamUnblockWrite.

Definition TransformStreamError (e : reason) : TM unit :=
  on_readable (ReadableStreamDefaultControllerError e) ;; TransformStreamErrorWritableAndUnblockWrite e.

(* ------------------------------------------------------------------ *)
(** ** The controller *)

Definition pullAlgorithm : TM apromise :=
  s ← get id;
  check (bool_decide (ts_backpressure s = Some true)) ;;
  check (0 <? ts_changes s)%nat ;;
  TransformStreamSetBackpressure false ;;
  n ← get ts_changes;
  mret (PChange (n - 1)).

(** The calls a controller operation makes of the source. *)
Definition pull_only (c : source_call) : TM apromise := match c with SourcePull => pullAlgorithm | _ => no_call c end.

Definition call_pull : SM rstream unit := CallPullIfNeeded rhwm rsize no_ops.

Definition ReadableStreamDefaultControllerHasBackpressure : SM rstream bool :=
  b ← ReadableStreamDefaultControllerShouldCallPull rhwm; mret (negb b).

Definition TransformStreamDefaultControllerEnqueue (chunk : Z) : TM unit :=
  s ← get id;
  if negb (ReadableStreamDefaultControllerCanCloseOrEnqueue (ts_readable s))
  then raise (type_error "Readable side is not in a state that permits enqueue") else
  r ← attempt (with_source pull_only (ReadableStreamDefaultControllerEnqueue rsize call_pull chunk));
  match r with
  | inr e =>
    TransformStreamErrorWritableAndUnblockWrite e ;;
    e ← get (fun s => rs_storedError (ts_readable s)); raise e
  | inl _ =>
    backpressure ← on_readable ReadableStreamDefaultControllerHasBackpressure;
    b ← get ts_backpressure;
    if bool_decide (Some backpressure <> b) then check backpressure ;; TransformStreamSetBackpressure true else mret tt
  end.

Definition controller_terminate : TM unit :=
  on_readable ReadableStreamDefaultControllerClose ;;
  TransformStreamErrorWritableAndUnblockWrite (type_error "TransformStream terminated").

(** [desiredSize] *)
Definition controller_desiredSize (s : tstream) : option jsnum := ReadableStreamDefaultControllerGetDesiredSize rhwm (ts_readable s).

Definition controller_op (op : transform_op) : TM unit :=
  match op with
  | OpEnqueue chunk => TransformStreamDefaultControllerEnqueue chunk
  | OpError e => TransformStreamError e
  | OpTerminate => controller_terminate
  end.

(** A call of the controller, and what it throws to its caller. *)
Definition controller_call (op : transform_op) : TM (option reason) :=
  r ← attempt (controller_op op);
  match r with
  | inl _ => mret None
  | inr e => update (fun s => set_ts_thrown (ts_thrown s ++ [e]) s) ;; mret (Some e)
  end.

(** A method of the transformer may catch what a call throws or end with
    it; its list has the calls it makes. *)
Definition run_method (ops : option (list transform_op)) : TM unit :=
  match ops with Some ops => each (fun op => controller_call op ;; mret tt) ops | None => mret tt end.

(* ------------------------------------------------------------------ *)
(** ** The algorithms *)

Definition not_a_function : reason := type_error ReadableStream.not_a_function.

Definition TransformStreamDefaultControllerPerformTransform (chunk : Z) : TM apromise :=
  s ← get id;
  if negb (ts_algorithms s) then raise not_a_function else
  update (set_ts_transformed (ts_transformed s ++ [chunk])) ;;
  match tr_transform tr with
  | Some f => run_method (Some (f (length (ts_transformed s)) chunk)) ;; mret (PTransform None)
  | None => e ← controller_call (OpEnqueue chunk); mret (PTransform (Some e))
  end.

Definition writeAlgorithm (chunk : Z) : TM apromise :=
  s ← get id;
  check (state_is [Writable] (ts_writable s)) ;;
  if bool_decide (ts_backpressure s = Some true) then
    check (0 <? ts_changes s)%nat ;;
    mret (PBlocked (ts_changes s - 1) chunk)
  else TransformStreamDefaultControllerPerformTransform chunk.

(** The handler of a write that waited for a change of backpressure. *)
Definition on_backpressure_change (chunk : Z) : TM apromise :=
  w ← get ts_writable;
  if state_is [Erroring] w then mret (PSettled (Some (st_storedError w))) else
  check (state_is [Writable] w) ;;
  TransformStreamDefaultControllerPerformTransform chunk.

(** The common part of [abortAlgorithm], [closeAlgorithm] and
    [cancelAlgorithm]; [method] is the transformer's. *)
Definition finish_algorithm (k : finisher) (method : option (list transform_op)) : TM apromise :=
  s ← get id;
  match ts_finish s with
  | Some _ => mret PFinish
  | None =>
    update (set_ts_finish (Some Pending)) ;;
    if negb (ts_algorithms s) then raise not_a_function else
    run_method method ;;
    TransformStreamDefaultControllerClearAlgorithms ;;
    update (set_ts_finishing (Some k)) ;;
    mret PFinish
  end.

Definition cancel_method (r : reason) : option (list transform_op) := (fun f => f r) <$> tr_cancel tr.
Definition abortAlgorithm (r : reason) : TM apromise := finish_algorithm (FinishAbort r) (cancel_method r).
Definition closeAlgorithm : TM apromise := finish_algorithm FinishClose (tr_flush tr).
Definition cancelAlgorithm (r : reason) : TM apromise := finish_algorithm (FinishCancel r) (cancel_method r).

(** [defaultControllerFinishPromiseResolve] and [...Reject]: the resolving
    functions are there as long as the promise is pending. *)
Definition defaultControllerFinishPromise (v : settlement) : TM unit :=
  update (fun s => match ts_finish s with Some Pending => set_ts_finish (Some v) s | _ => s end).

(** The handlers of the promise of [cancel] or [flush]. *)
Definition on_finished (k : finisher) (res : option reason) : TM unit :=
  s ← get id;
  match k, res with
  | FinishCancel r, None =>
    if bool_decide (st_state (ts_writable s) = Errored)
    then defaultControllerFinishPromise (Rejected (st_storedError (ts_writable s)))
    else error_writable r ;; TransformStreamUnblockWrite ;; defaultControllerFinishPromise Fulfilled
  | FinishCancel _, Some e =>
    error_writable e ;; TransformStreamUnblockWrite ;; defaultControllerFinishPromise (Rejected e)
  | FinishAbort _, Some e | FinishClose, Some e =>
    on_readable (ReadableStreamDefaultControllerError e) ;; defaultControllerFinishPromise (Rejected e)
  | k, None =>
    if bool_decide (rs_state (ts_readable s) = ReadableStream.Errored)
    then defaultControllerFinishPromise (Rejected (rs_storedError (ts_readable s)))
    else
      on_readable (match k with FinishAbort r => ReadableStreamDefaultControllerError r | _ => ReadableStreamDefaultControllerClose end) ;;
      defaultControllerFinishPromise Fulfilled
  end.

Definition sink_method (c : sink_call) : TM apromise :=
  match c with
  | SinkStart => mret PStart
  | SinkWrite chunk => writeAlgorithm chunk
  | SinkClose => closeAlgorithm
  | SinkAbort r => abortAlgorithm r
  end.

Definition source_method (c : source_call) : TM apromise :=
  match c with
  | SourceStart => mret PStart
  | SourcePull => pullAlgorithm
  | SourceCancel r => cancelAlgorithm r
  end.

(* ------------------------------------------------------------------ *)
(** ** Construction and events *)

Definition blank_tstream : tstream :=
  TStream InitializeWritableStream InitializeReadableStream None 0 false None None None [] [] [] [].

Definition set_up : TM unit :=
  with_sink sink_method (SetUpWritableStreamDefaultController whwm) ;;
  with_source source_method SetUpReadableStreamDefaultController ;;
  TransformStreamSetBackpressure true ;;
  update (set_ts_algorithms true) ;;
  run_method (tr_start tr).

Definition new_tstream : tstream := (set_up blank_tstream).2.

(** What can happen between two turns of the event loop: a call on the
    writable or readable side, a call of the controller, the settlement of
    the promise of [start], the handler of the promise an algorithm
    returned, the end of a write's wait, the settlement of the promise of
    [transform], of [flush] or of [cancel]. *)
Inductive tevent :=
| TWriter (e : event) | TReader (e : revent) | TController (op : transform_op)
| TStart (res : option reason) | TSink (i : nat) | TSource (i : nat)
| TUnblocked (i : nat) | TTransformed (i : nat) (res : option reason) | TFinished (res : option reason).

(** The value a promise has, if it is settled. *)
Definition value_of (s : tstream) (p : apromise) : option (option reason) :=
  match p with
  | PStart => ts_start s
  | PSettled res => Some res
  | PChange n => if (S n <? ts_changes s)%nat then Some None else None
  | PFinish => match ts_finish s with
               | Some Fulfilled => Some None
               | Some (Rejected e) => Some (Some e)
               | _ => None
               end
  | PBlocked _ _ | PTransform _ | PNever => None
  end.

(** A method that is absent fulfils its promise. *)
Definition possible {A} (method : option A) (res : option reason) : bool :=
  match method, res with None, Some _ => false | _, _ => true end.

Definition settle_job (i : nat) (p : apromise) : TM unit := update (fun s => set_ts_sink (<[i := p]> (ts_sink s)) s).

Definition tevent_run (e : tevent) : TM unit :=
  s ← get id;
  match e with
  | TWriter e => if writer_call e then with_sink sink_method (run_event whwm wsize e) else mret tt
  | TReader e => if reader_call e then with_source source_method (revent_run rhwm rsize no_ops e) else mret tt
  | TController op => controller_call op ;; mret tt
  | TStart res =>
    if bool_decide (ts_start s = None) && possible (tr_start tr) res then update (set_ts_start (Some res)) else mret tt
  | TSink i =>
    match ts_sink s !! i ≫= value_of s with
    | Some res => update (set_ts_sink (delete i (ts_sink s))) ;; with_sink sink_method (run_event whwm wsize (EvSettle i res))
    | None => mret tt
    end
  | TSource i =>
    match ts_source s !! i ≫= value_of s with
    | Some res => update (set_ts_source (delete i (ts_source s))) ;; with_source source_method (revent_run rhwm rsize no_ops (EvSettled i res))
    | None => mret tt
    end
  | TUnblocked i =>
    match ts_sink s !! i with
    | Some (PBlocked n chunk) =>
      if (S n <? ts_changes s)%nat then
        r ← attempt (on_backpressure_change chunk);
        match r with
        | inl p => settle_job i p
        | inr e => settle_job i (PSettled (Some e)) ;; raise e
        end
      else mret tt
    | _ => mret tt
    end
  | TTransformed i res =>
    match ts_sink s !! i with
    | Some (PTransform known) =>
      if bool_decide (known = None \/ known = Some res) then
        match res with
        | None => settle_job i (PSettled None)
        | Some e => TransformStreamError e ;; settle_job i (PSettled (Some e))
        end
      else mret tt
    | _ => mret tt
    end
  | TFinished res =>
    match ts_finishing s with
    | Some k =>
      if match k with FinishClose => possible (tr_flush tr) res | _ => possible (tr_cancel tr) res end
      then update (set_ts_finishing None) ;; on_finished k res
      else mret tt
    | None => mret tt
    end
  end.

Definition tstream_run (es : list tevent) (s : tstream) : tstream := foldl (fun s e => (tevent_run e s).2) s es.
End Transform.

(** The constructor; [None] for a high water mark that is not given. *)
Definition new_TransformStream (tr : transformer) (readableType writableType : bool) (readable writable : option jsnum)
    (rsize : Z -> outcome jsnum) : outcome tstream :=
  if readableType then Throw ErrRangeError "Invalid readableType specified" else
  if writableType then Throw ErrRangeError "Invalid writableType specified" else
  rhwm ← ExtractHighWaterMark readable (Fin 0);
  whwm ← ExtractHighWaterMark writable (Fin 1);
  Ok (new_tstream tr whwm rhwm rsize).
