(* ===== verification/TransformStreamInv.v ===== *)
(** * The invariant of the transform stream

    A transform stream is its two sides, each in the invariant of its own
    machine, tied by what the algorithms keep: which promise each side
    waits for, that a pull is owed while there is no backpressure, that the
    transformer is given the chunks of the writes in order. *)

From S2P Require Import Prelude StreamBase ReadableStream ReadableStreamInv WritableStream WritableStreamWriters WritableStreamInv WritableStreamCalls WritableStreamProps StreamCalls TransformStream.
Open Scope Z_scope.

(** The chunks a sink was given. *)
Definition write_of (c : sink_call) : option Z := match c with SinkWrite chunk => Some chunk | _ => None end.
Definition writes (s : tstream) : list Z := omap write_of (sink_calls (ts_writable s)).

(** The promise of an algorithm fits what its stream waits for. *)
Definition sink_job (k : wait) (p : apromise) : Prop :=
  match k, p with
  | WaitStart, PStart | WaitWrite, (PBlocked _ _ | PTransform _ | PSettled _ | PNever)
  | (WaitClose | WaitAbort _), (PFinish | PNever) => True
  | _, _ => False
  end.
Definition source_job (k : rwait) (p : apromise) : Prop :=
  match k, p with
  | ReadableStream.WaitStart, PStart | ReadableStream.WaitPull, PChange _ | ReadableStream.WaitCancel _, (PFinish | PNever) => True
  | _, _ => False
  end.

Definition defect (e : reason) : Prop := match e with ErrorObj c msg => is_defect c msg = true | _ => False end.

(** When the code can trip over itself: the algorithms have been cleared,
    or a pull has been answered and is owed again before its handler ran. *)
Definition excused (s : tstream) : Prop :=
  ts_algorithms s = false \/ ts_backpressure s = Some true /\ rc_pullAgain (ts_readable s) = true.

Definition RInv (r : rstream) : Prop := ReadableStreamInv.Inv false None r.

Section Core.
Variables (whwm : jsnum) (plain : bool).

(** [hist] lists the accepted writes.  [extra]: what the readable side waits
    for while the algorithm that answers it still runs.  When the
    transformer is the identity ([plain]), the chunks [pend] have been given
    to it and not been enqueued yet. *)
Record core (hist pend : list Z) (extra : list rwait) (s : tstream) : Prop := {
  c_writable : WritableStreamInv.Inv whwm hist (ts_writable s);
  c_readable : RInv (ts_readable s);
  c_source : exists l, rs_awaited (ts_readable s) = l ++ extra /\ Forall2 source_job l (ts_source s);
  c_extra : extra <> [] -> open_source (ts_readable s) = false;
  c_change : ts_backpressure s <> None /\ (0 < ts_changes s)%nat;
  c_demand : open_source (ts_readable s) = true -> ts_backpressure s = Some false -> PChange (ts_changes s - 1) ∈ ts_source s;
  c_given : ts_transformed s `prefix_of` writes s;
  c_finishing : is_Some (ts_finishing s) -> ts_algorithms s = false;
  c_close : ts_finishing s = Some FinishClose -> ts_transformed s = writes s /\ SinkClose ∈ sink_calls (ts_writable s);
  c_cancel : forall r, ts_finishing s = Some (FinishCancel r) -> open_source (ts_readable s) = false;
  c_passed : plain = true -> rs_accepted (ts_readable s) `prefix_of` ts_transformed s /\
    (open_source (ts_readable s) = true -> rs_accepted (ts_readable s) ++ pend = ts_transformed s);
  c_end : plain = true -> rs_state (ts_readable s) = ReadableStream.Closed \/ rc_closeRequested (ts_readable s) = true ->
    existsb is_cancel (rs_calls (ts_readable s)) = true \/
    rs_accepted (ts_readable s) = writes s /\ SinkClose ∈ sink_calls (ts_writable s);
}.

(** What the readable side and the controller leave alone. *)
Record side (s s' : tstream) : Prop := {
  f_calls : sink_calls (ts_writable s') = sink_calls (ts_writable s);
  f_awaited : awaited (ts_writable s') = awaited (ts_writable s);
  f_state : st_state (ts_writable s') = Writable -> st_state (ts_writable s) = Writable;
  f_sink : ts_sink s' = ts_sink s;
  f_transformed : ts_transformed s' = ts_transformed s;
  f_algorithms : ts_algorithms s' = true -> ts_algorithms s = true;
}.

(** What was thrown to the transformer is no defect, or excused. *)
Definition threw (s s' : tstream) : Prop :=
  exists new, ts_thrown s' = ts_thrown s ++ new /\ Forall (fun e => defect e -> excused s') new.

Record frame (s s' : tstream) : Prop := {
  f_side : side s s';
  f_open : open_source (ts_readable s) = false -> open_source (ts_readable s') = false;
  f_excused : excused s -> excused s';
  f_thrown : threw s s';
}.

Lemma side_refl s : side s s.
Proof. by split. Qed.
Lemma side_trans s1 s2 s3 : side s1 s2 -> side s2 s3 -> side s1 s3.
Proof. intros [? ? ? ? ? ?] [? ? ? ? ? ?]. split; try congruence; auto. Qed.

Lemma threw_same s s' : ts_thrown s' = ts_thrown s -> threw s s'.
Proof. intros E. exists []. by rewrite app_nil_r. Qed.

Lemma threw_trans s1 s2 s3 : threw s1 s2 -> threw s2 s3 -> (excused s2 -> excused s3) -> threw s1 s3.
Proof.
  intros (n1 & E1 & H1) (n2 & E2 & H2) Hx. exists (n1 ++ n2). rewrite E2, E1, app_assoc. split; [done|]. apply Forall_app. split; [|done].
  eapply Forall_impl; [exact H1|]. auto.
Qed.

Lemma frame_refl s : frame s s.
Proof. split; [apply side_refl|done|done|by apply threw_same]. Qed.

Lemma frame_trans s1 s2 s3 : frame s1 s2 -> frame s2 s3 -> frame s1 s3.
Proof. intros [? ? ? ?] [? ? ? ?]. split; [by eapply side_trans|auto|auto|by eapply threw_trans]. Qed.

(** A step that throws nothing. *)
Lemma frame_step s s' : side s s' -> ts_thrown s' = ts_thrown s -> (open_source (ts_readable s) = false -> open_source (ts_readable s') = false) ->
  (excused s -> excused s') -> frame s s'.
Proof. intros. split; [done|done|done|by apply threw_same]. Qed.

(** A step that ends without the algorithms excuses what came before. *)
Lemma frame_cleared s s1 s' : side s s1 -> ts_thrown s1 = ts_thrown s -> frame s1 s' -> ts_algorithms s' = false ->
  (open_source (ts_readable s) = false -> open_source (ts_readable s') = false) -> frame s s'.
Proof.
  intros Hs Ht [Hs' ? ? Htr] Ha Ho. split; [by eapply side_trans|done|by left|].
  destruct Htr as (new & E & H). exists new. by rewrite E, Ht.
Qed.

(** A controller operation: the core is kept, and a defect is excused. *)
Definition kept {A} (hist pend : list Z) (extra : list rwait) (s : tstream) (x : (A + reason) * tstream) : Prop :=
  core hist pend extra x.2 /\ frame s x.2 /\ match x.1 with inl _ => True | inr e => defect e -> excused x.2 end.

Lemma core_pend hist pend pend' extra s : plain = false -> core hist pend extra s -> core hist pend' extra s.
Proof. intros Hp [? ? ? ? ? ? ? ? ? ? ? ?]. split; try done; by rewrite Hp. Qed.

(** The readable side is not open: nothing is pending. *)
Lemma core_shut hist pend pend' extra s : open_source (ts_readable s) = false -> core hist pend extra s -> core hist pend' extra s.
Proof. intros Ho [? ? ? ? ? ? ? ? ? ? Hp ?]. split; try done. intros Hpl. destruct (Hp Hpl) as [? _]. split; [done|]. by rewrite Ho. Qed.

(** Another writable side with the same calls. *)
Lemma core_writable hist pend extra s w : core hist pend extra s -> WritableStreamInv.Inv whwm hist w ->
  sink_calls w = sink_calls (ts_writable s) -> core hist pend extra (set_ts_writable w s).
Proof. intros [? ? ? ? ? ? ? ? ? ? ? ?] Hw E. unfold writes in *. split; unfold writes; cbn; rewrite ?E; done. Qed.

(** Another readable side that is shut, with the same controller. *)
Lemma core_readable_shut hist pend pend' extra s r : core hist pend extra s -> RInv r -> open_source r = false ->
  rs_awaited r = rs_awaited (ts_readable s) -> rs_accepted r = rs_accepted (ts_readable s) ->
  existsb is_cancel (rs_calls r) = existsb is_cancel (rs_calls (ts_readable s)) ->
  (plain = true -> rs_state r = ReadableStream.Closed \/ rc_closeRequested r = true ->
    rs_state (ts_readable s) = ReadableStream.Closed \/ rc_closeRequested (ts_readable s) = true \/
    rs_accepted (ts_readable s) = writes s /\ SinkClose ∈ sink_calls (ts_writable s)) ->
  core hist pend' extra (set_ts_readable r s).
Proof.
  intros [? ? ? ? ? ? ? ? ? ? Hp He] Hr Ho E1 E2 E3 Hc. split; unfold writes; cbn; rewrite ?E1, ?E2, ?E3, ?Ho; try done.
  - intros Hpl. destruct (Hp Hpl) as [? _]. by split.
  - intros Hpl H. destruct (Hc Hpl H) as [?|[?|?]]; auto.
Qed.

(** The state outside the two sides. *)
Lemma core_rest hist pend extra s s' : core hist pend extra s -> ts_writable s' = ts_writable s -> ts_readable s' = ts_readable s ->
  ts_source s' = ts_source s -> ts_transformed s' = ts_transformed s ->
  (ts_backpressure s' = ts_backpressure s /\ ts_changes s' = ts_changes s \/
    open_source (ts_readable s) = false /\ ts_backpressure s' <> None /\ (0 < ts_changes s')%nat) ->
  (is_Some (ts_finishing s') -> ts_finishing s' = ts_finishing s /\ ts_algorithms s' = ts_algorithms s \/
    ts_algorithms s' = false /\ (ts_finishing s' = Some FinishClose -> ts_transformed s = writes s /\ SinkClose ∈ sink_calls (ts_writable s)) /\
    (forall r, ts_finishing s' = Some (FinishCancel r) -> open_source (ts_readable s) = false)) ->
  core hist pend extra s'.
Proof.
  intros [? ? ? ? ? Hd ? Hf Hcl Hca ? ?] E1 E2 E3 E4 Hb Hfin. unfold writes in *. split; unfold writes; rewrite ?E1, ?E2, ?E3, ?E4; try done.
  - by destruct Hb as [[-> ->]|(_ & ? & ?)].
  - destruct Hb as [[-> ->]|(-> & _)]; [done|]. intros; discriminate.
  - intros Hs. destruct (Hfin Hs) as [[E5 ->]|[? _]]; [|done]. apply Hf. by rewrite <-E5.
  - intros Es. destruct (Hfin ltac:(rewrite Es; by eexists)) as [[E5 _]|(_ & Hx & _)]; [apply Hcl; by rewrite <-E5|by apply Hx].
  - intros r Es. destruct (Hfin ltac:(rewrite Es; by eexists)) as [[E5 _]|(_ & _ & Hx)]; [apply (Hca r); by rewrite <-E5|by apply (Hx r)].
Qed.
End Core.

(* ------------------------------------------------------------------ *)
(** ** Stepping *)

Lemma get_bind {A B} (g : tstream -> A) (f : A -> TM B) s : (get g ≫= f) s = f (g s) s.
Proof. done. Qed.
Lemma update_bind {B} (g : tstream -> tstream) (f : unit -> TM B) s : (update g ≫= f) s = f tt (g s).
Proof. done. Qed.
Lemma tm_bind_inl {A B} (m : TM A) (f : A -> TM B) s a s' : m s = (inl a, s') -> (m ≫= f) s = f a s'.
Proof. unfold mbind, tm_bind. by intros ->. Qed.
Lemma tm_bind_inr {A B} (m : TM A) (f : A -> TM B) s e s' : m s = (inr e, s') -> (m ≫= f) s = (inr e, s').
Proof. unfold mbind, tm_bind. by intros ->. Qed.
Lemma check_bind {B} b (f : unit -> TM B) s : b = true -> (check b ≫= f) s = f tt s.
Proof. by intros ->. Qed.
Lemma attempt_bind {A B} (m : TM A) (f : A + reason -> TM B) s r s' : m s = (r, s') -> (attempt m ≫= f) s = f r s'.
Proof. intros E. apply tm_bind_inl. unfold attempt. by rewrite E. Qed.

(** An operation of a side, run. *)
Lemma on_readable_eq {A} (m : SM rstream A) s o r : m (ts_readable s) = (o, r) -> on_readable m s = (of_outcome o, set_ts_readable r s).
Proof. intros E. unfold on_readable. by rewrite E. Qed.
Lemma on_writable_eq {A} (m : SM wstream A) s o w : m (ts_writable s) = (o, w) -> on_writable m s = (of_outcome o, set_ts_writable w s).
Proof. intros E. unfold on_writable. by rewrite E. Qed.

(** The calls an operation has added are answered one by one. *)
Lemma with_source_eq {A} method (m : SM rstream A) s o r new : m (ts_readable s) = (o, r) -> rs_calls r = rs_calls (ts_readable s) ++ new ->
  with_source method m s =
  (each (fun c => keep (fun p s => set_ts_source (ts_source s ++ [p]) s) (method c)) new ;; result (of_outcome o)) (set_ts_readable r s).
Proof.
  intros E Ec. unfold with_source. rewrite get_bind, (attempt_bind _ _ _ _ _ (on_readable_eq m s o r E)), get_bind. cbn. by rewrite Ec, drop_app_length.
Qed.
Lemma with_sink_eq {A} method (m : SM wstream A) s o w new : m (ts_writable s) = (o, w) -> sink_calls w = sink_calls (ts_writable s) ++ new ->
  with_sink method m s =
  (each (fun c => keep (fun p s => set_ts_sink (ts_sink s ++ [p]) s) (method c)) new ;; result (of_outcome o)) (set_ts_writable w s).
Proof.
  intros E Ec. unfold with_sink. rewrite get_bind, (attempt_bind _ _ _ _ _ (on_writable_eq m s o w E)), get_bind. cbn. by rewrite Ec, drop_app_length.
Qed.

Lemma keep_ok push m s p s' : m s = (inl p, s') -> keep push m s = (inl tt, push p s').
Proof. intros E. unfold keep. by rewrite (attempt_bind _ _ _ _ _ E). Qed.
Lemma keep_err push m s e s' : m s = (inr e, s') -> keep push m s = (inr e, push PNever s').
Proof. intros E. unfold keep. by rewrite (attempt_bind _ _ _ _ _ E). Qed.

(** [pullAlgorithm], when there is backpressure. *)
Lemma pull_eq s : ts_backpressure s = Some true -> (0 < ts_changes s)%nat ->
  pullAlgorithm s = (inl (PChange (ts_changes s)), set_ts_change (Some false) (S (ts_changes s)) s).
Proof.
  intros Hb Hc. unfold pullAlgorithm, TransformStreamSetBackpressure. rewrite get_bind. cbn [id].
  rewrite check_bind by (by apply bool_decide_eq_true). rewrite check_bind by (by apply Nat.ltb_lt).
  change ((TransformStreamSetBackpressure false ;; n ← get ts_changes; mret (PChange (n - 1))) s = (inl (PChange (ts_changes s)), set_ts_change (Some false) (S (ts_changes s)) s)).
  rewrite (tm_bind_inl _ _ s tt (set_ts_change (Some false) (S (ts_changes s)) s)).
  - rewrite get_bind. cbn. by rewrite Nat.sub_0_r.
  - unfold TransformStreamSetBackpressure. rewrite get_bind, Hb. by rewrite check_bind.
Qed.

(** The promise of a pull, among the jobs of the source. *)
Lemma source_pulls l js : Forall2 source_job l js -> forall n, PChange n ∈ js -> (0 < waits is_pull_wait l)%nat.
Proof.
  intros H n [i Hi]%list_elem_of_lookup. destruct (Forall2_lookup_r _ _ _ _ _ H Hi) as (k & Hk & Hj).
  destruct k; try done. pose proof (waits_delete is_pull_wait l i _ Hk) as Hd. cbn in Hd. lia.
Qed.

Section Operations.
Variables (tr : transformer) (whwm rhwm : jsnum) (wsize : Z -> jsnum + reason) (rsize : Z -> outcome jsnum) (plain : bool).
Hypothesis Hsize : forall chunk c msg, rsize chunk = Throw c msg -> is_defect c msg = false.
Hypothesis Hplain : plain = true -> tr = identity_transformer.
Abbreviation core := (core whwm plain).
Abbreviation kept := (kept whwm plain).
Implicit Types (s : tstream).

Lemma no_ops_nil n : no_ops n = [].
Proof. done. Qed.

(* ------------------------------------------------------------------ *)
(** ** Errors *)

Lemma unblock_ok hist pend extra s : core hist pend extra s -> open_source (ts_readable s) = false -> ts_algorithms s = false ->
  exists s', TransformStreamUnblockWrite s = (inl tt, s') /\ core hist pend extra s' /\ frame s s' /\ ts_algorithms s' = false /\
    ts_readable s' = ts_readable s /\ ts_writable s' = ts_writable s.
Proof.
  intros Hc Ho Ha. unfold TransformStreamUnblockWrite, TransformStreamSetBackpressure. rewrite get_bind. case_bool_decide as Hb.
  - rewrite get_bind, Hb, check_bind by done. eexists. split; [done|]. split_and!; try done.
    + apply (core_rest _ _ _ _ _ s); try done; [|by left]. right. split; [done|]. cbn. split; [done|lia].
    + apply frame_step; [by split|done|done|by left].
  - exists s. by split_and!; try apply frame_refl.
Qed.

Lemma error_writable_ok hist pend extra s e : core hist pend extra s ->
  exists s', error_writable e s = (inl tt, s') /\ core hist pend extra s' /\ frame s s' /\ ts_algorithms s' = ts_algorithms s /\
    st_state (ts_writable s') <> Writable /\ ts_readable s' = ts_readable s.
Proof.
  intros Hc. pose proof (c_writable _ _ _ _ _ _ Hc) as Hw. destruct (error_if_needed_ok whwm hist (ts_writable s) e Hw) as (w & E & Hi & Hs).
  assert (Hq : sink_calls w = sink_calls (ts_writable s) /\ awaited w = awaited (ts_writable s)).
  { destruct (decide (st_state (ts_writable s) = Writable)) as [Hst|Hst].
    - destruct (silent_error e (ts_writable s)) as (_ & H1 & H2); [|by rewrite E in H1, H2].
      destruct Hw as [_ Hw]. rewrite Hst in Hw. destruct Hw as (ph & v & cs & _ & Hw & _). by apply (wi_abort _ _ _ _ _ _ Hw).
    - revert E. unfold WritableStreamDefaultControllerErrorIfNeeded, state_is. rewrite gets_bind. cbn [id]. rewrite bool_decide_false.
      { by intros [= <-]. } by rewrite list_elem_of_singleton. }
  destruct Hq as [Hq Hq2]. unfold error_writable. rewrite (with_sink_eq _ _ _ _ _ [] E) by by rewrite app_nil_r.
  eexists. split; [reflexivity|]. split_and!; try done; [by apply core_writable|].
  apply frame_step; try done.
Qed.

Lemma error_unblock_ok hist pend extra s e : core hist pend extra s -> open_source (ts_readable s) = false ->
  exists s', TransformStreamErrorWritableAndUnblockWrite e s = (inl tt, s') /\ core hist pend extra s' /\ frame s s' /\
    ts_algorithms s' = false /\ ts_readable s' = ts_readable s.
Proof.
  intros Hc Ho. unfold TransformStreamErrorWritableAndUnblockWrite, TransformStreamDefaultControllerClearAlgorithms. rewrite update_bind.
  set (s1 := set_ts_algorithms false s). assert (Hc1 : core hist pend extra s1) by (destruct Hc; by split).
  destruct (error_writable_ok _ _ _ _ e Hc1) as (s2 & E2 & Hc2 & F2 & A2 & _ & R2). rewrite (tm_bind_inl _ _ _ _ _ E2).
  destruct (unblock_ok _ _ _ s2 Hc2) as (s3 & E3 & Hc3 & F3 & A3 & R3 & _); [by rewrite R2|by rewrite A2|].
  exists s3. split; [done|]. split; [done|]. split; [|by rewrite A3, R3, R2].
  apply (frame_trans s s1); [apply frame_step; [by split|done|done|by left]|]. by eapply frame_trans.
Qed.

(** An error of the readable side. *)
Lemma error_readable_ok hist pend extra s e : core hist pend extra s ->
  exists r, on_readable (ReadableStreamDefaultControllerError e) s = (inl tt, set_ts_readable r s) /\
    core hist pend extra (set_ts_readable r s) /\ open_source r = false.
Proof.
  intros Hc. destruct (ctl_error_effect e (ts_readable s)) as (r & E & Hi & Ho & _ & Hr); [apply Hc|].
  exists r. rewrite (on_readable_eq _ _ _ _ E). split; [done|]. split; [|done].
  destruct Hr as [[_ ->]|[_ [= E1 E2 E3 E4 E5]]].
  - destruct s, Hc; by split.
  - apply (core_readable_shut _ _ _ pend); try done; [by rewrite E1|]. rewrite E4, E5. intros _ [|]; [done|auto].
Qed.

Lemma transform_error_ok hist pend extra s e : core hist pend extra s ->
  exists s', TransformStreamError e s = (inl tt, s') /\ core hist pend extra s' /\ frame s s' /\ ts_algorithms s' = false.
Proof.
  intros Hc. unfold TransformStreamError. destruct (error_readable_ok hist pend extra s e Hc) as (r & E & Hc1 & Ho).
  rewrite (tm_bind_inl _ _ _ _ _ E). destruct (error_unblock_ok _ _ _ _ e Hc1 Ho) as (s' & E' & Hc' & F & A & _).
  exists s'. split; [done|]. split; [done|]. split; [|done].
  apply (frame_cleared s (set_ts_readable r s)); try done. intros _. by apply F.
Qed.

Lemma terminate_ok hist pend extra s : plain = false -> core hist pend extra s ->
  exists s', controller_terminate s = (inl tt, s') /\ core hist pend extra s' /\ frame s s' /\ ts_algorithms s' = false.
Proof.
  intros Hp Hc. unfold controller_terminate. destruct (ctl_close_effect (ts_readable s)) as (r & E & Hi & Ho & Hr); [apply Hc|].
  rewrite (tm_bind_inl _ _ _ _ _ (on_readable_eq _ _ _ _ E)).
  assert (Hc1 : core hist pend extra (set_ts_readable r s)).
  { destruct Hr as [[_ ->]|(_ & _ & E1 & E2 & E3)]; [destruct s, Hc; by split|].
    apply (core_readable_shut _ _ _ pend); try done; [by rewrite E1|]. by rewrite Hp. }
  destruct (error_unblock_ok _ _ _ _ (type_error "TransformStream terminated") Hc1 Ho) as (s' & E' & Hc' & F & A & _).
  exists s'. split; [done|]. split; [done|]. split; [|done].
  apply (frame_cleared s (set_ts_readable r s)); try done. intros _. by apply F.
Qed.
(* ------------------------------------------------------------------ *)
(** ** [enqueue] *)

(** With no backpressure on an open readable side, a pull is under way. *)
Lemma demand_pulled hist pend extra s : core hist pend extra s -> open_source (ts_readable s) = true -> ts_backpressure s = Some false ->
  (0 < waits is_pull_wait (rs_awaited (ts_readable s)))%nat.
Proof.
  intros Hc Ho Hb. destruct (c_source _ _ _ _ _ _ Hc) as (l & El & Hl).
  assert (extra = []) as -> by (destruct extra; [done|]; pose proof (c_extra _ _ _ _ _ _ Hc ltac:(done)); congruence).
  rewrite El, app_nil_r. eapply source_pulls; [exact Hl|]. by eapply c_demand.
Qed.

Lemma has_backpressure_eq s b : ReadableStreamDefaultControllerShouldCallPull rhwm (ts_readable s) = (Ok b, ts_readable s) ->
  on_readable (ReadableStreamDefaultControllerHasBackpressure rhwm) s = (inl (negb b), s).
Proof.
  intros E. rewrite (on_readable_eq _ _ (Ok (negb b)) (ts_readable s)); [by destruct s|].
  unfold ReadableStreamDefaultControllerHasBackpressure. by rewrite (bind_ok _ _ _ _ _ E).
Qed.

(** The chunk is in: [backpressure] follows. *)
Definition settle_backpressure : TM unit :=
  backpressure ← on_readable (ReadableStreamDefaultControllerHasBackpressure rhwm);
  b ← get ts_backpressure;
  if bool_decide (Some backpressure <> b) then check backpressure ;; TransformStreamSetBackpressure true else mret tt.

Lemma settle_backpressure_ok hist pend extra s b : core hist pend extra s ->
  ReadableStreamDefaultControllerShouldCallPull rhwm (ts_readable s) = (Ok b, ts_readable s) ->
  (b = true -> ts_backpressure s = Some true -> rc_pullAgain (ts_readable s) = true) ->
  kept hist pend extra s (settle_backpressure s).
Proof.
  intros Hc Eb Hag. unfold settle_backpressure. rewrite (tm_bind_inl _ _ _ _ _ (has_backpressure_eq _ _ Eb)), get_bind.
  destruct (c_change _ _ _ _ _ _ Hc) as [Hn Hpos]. destruct (ts_backpressure s) as [bp|] eqn:Ebp; [|done].
  destruct b, bp; cbn [negb]; [rewrite bool_decide_true by done|rewrite bool_decide_false by (intros H; by apply H)..|rewrite bool_decide_true by done].
  - unfold check, TransformStreamInv.kept, mbind, tm_bind, result; cbn. split; [done|]. split; [apply frame_refl|]. intros _. right. auto.
  - split; [done|]. by split; [apply frame_refl|].
  - split; [done|]. by split; [apply frame_refl|].
  - unfold TransformStreamSetBackpressure. rewrite check_bind, get_bind, Ebp, check_bind by done. split; [|split; [|done]]; cbn.
    + destruct Hc as [? ? ? ? ? ? ? ? ? ? ? ?]. split; try done; cbn. split; [done|lia].
    + apply frame_step; try done. intros [?|[? _]]; [by left|congruence].
Qed.

Lemma open_source_inv r : open_source r = true -> ~ (rs_state r = ReadableStream.Closed \/ rc_closeRequested r = true).
Proof. intros [? ?]%can_close_inv [?|?]; congruence. Qed.

(** The readable side that has taken the chunk without a pull. *)
Lemma enqueued_core hist chunk s r : core hist [chunk] [] s -> open_source (ts_readable s) = true -> RInv r ->
  enqueued rhwm chunk [] (ts_readable s) r -> core hist [] [] (set_ts_readable r s) /\ frame s (set_ts_readable r s).
Proof.
  intros Hc Ho Hi [E1 E2 E3 Eo Eag _]. cbn in E1, E2. rewrite app_nil_r in E1, E2. pose proof (open_source_inv r Eo). split.
  - destruct Hc as [? ? ? ? ? ? ? ? ? Hca Hp ?]. split; cbn; unfold writes in *; cbn; rewrite ?E2; try done; auto.
    + intros e Ef. by rewrite (Hca e Ef) in Ho.
    + intros Hpl. destruct (Hp Hpl) as [_ Hq]. rewrite E3, app_nil_r, Hq by done. done.
  - apply frame_step; try done; [by rewrite Ho|]. intros [?|[? ?]]; [by left|right; cbn; auto].
Qed.

(** The one that has pulled for more. *)
Lemma enqueued_pulled hist chunk s r : core hist [chunk] [] s -> open_source (ts_readable s) = true -> RInv r ->
  enqueued rhwm chunk [(SourcePull, ReadableStream.WaitPull)] (ts_readable s) r -> rc_pullAgain (ts_readable s) = false ->
  ts_backpressure s = Some true /\
  let s' := set_ts_source (ts_source s ++ [PChange (ts_changes s)]) (set_ts_change (Some false) (S (ts_changes s)) (set_ts_readable r s)) in
  core hist [] [] s' /\ frame s s'.
Proof.
  intros Hc Ho Hi [E1 E2 E3 Eo _ _] Hag. cbn in E1, E2. destruct (c_change _ _ _ _ _ _ Hc) as [Hn Hpos].
  assert (Hb : ts_backpressure s = Some true).
  { destruct (ts_backpressure s) as [[|]|] eqn:Eb; [done| |done]. pose proof (demand_pulled _ _ _ _ Hc Ho Eb) as Hw.
    destruct Hi as [[_ _ _ Hf] _]. pose proof (fl_pull _ Hf) as Hle. rewrite E2, waits_app in Hle. cbn in Hle. destruct (rc_pulling r); lia. }
  split; [done|]. cbv zeta. split.
  - pose proof (open_source_inv r Eo). destruct Hc as [? ? (l & El & Hl) ? ? ? ? ? ? Hca Hp ?]. rewrite app_nil_r in El.
    split; cbn; unfold writes in *; cbn; try done; auto.
    + exists (rs_awaited r). rewrite app_nil_r. split; [done|]. rewrite E2, El. apply Forall2_app; [done|]. by constructor.
    + intros _ _. rewrite Nat.sub_0_r. apply elem_of_app. right. by apply list_elem_of_singleton.
    + intros e Ef. by rewrite (Hca e Ef) in Ho.
    + intros Hpl. destruct (Hp Hpl) as [_ Hq]. rewrite E3, app_nil_r, Hq by done. done.
  - apply frame_step; try done; [by rewrite Ho|]. intros [?|[_ ?]]; [by left|congruence].
Qed.

Lemma kept_frame {A} hist pend extra s s1 (x : (A + reason) * tstream) : frame s s1 -> kept hist pend extra s1 x -> kept hist pend extra s x.
Proof. intros F (Hc & F' & Hr). split; [done|]. split; [by eapply frame_trans|done]. Qed.

Lemma enqueue_ok hist extra s chunk : core hist [chunk] extra s ->
  kept hist [] extra s (TransformStreamDefaultControllerEnqueue rhwm rsize chunk s).
Proof.
  intros Hc. unfold TransformStreamDefaultControllerEnqueue. rewrite get_bind. cbn [id].
  destruct (open_source (ts_readable s)) eqn:Ho; cbn [negb].
  2: { split; [by eapply core_shut|]. split; [apply frame_refl|]. intros [=]. }
  assert (Hx : extra = []) by (destruct extra; [done|]; pose proof (c_extra _ _ _ _ _ _ Hc ltac:(done)); congruence). subst extra.
  destruct (enqueue_effect rhwm rsize no_ops no_ops_nil Hsize chunk (ts_readable s)) as (o & r & E & Hi & Hr); [apply Hc|done|].
  fold (call_pull rhwm rsize) in E. destruct o as [[]|cl msg].
  - destruct Hr as (new & Hen). destruct (en_should _ _ _ _ _ Hen) as [[Esh ->]|[Esh [[Hag ->]|[Hag ->]]]].
    + destruct (enqueued_core _ _ _ _ Hc Ho Hi Hen) as [Hc1 F1]. apply (kept_frame _ _ _ _ _ _ F1).
      rewrite (attempt_bind _ _ s (inl tt) (set_ts_readable r s)); [by apply (settle_backpressure_ok _ _ _ _ false)|].
      by rewrite (with_source_eq _ _ _ _ _ [] E) by apply (en_calls _ _ _ _ _ Hen).
    + destruct (enqueued_core _ _ _ _ Hc Ho Hi Hen) as [Hc1 F1]. apply (kept_frame _ _ _ _ _ _ F1).
      rewrite (attempt_bind _ _ s (inl tt) (set_ts_readable r s)); [by apply (settle_backpressure_ok _ _ _ _ true)|].
      by rewrite (with_source_eq _ _ _ _ _ [] E) by apply (en_calls _ _ _ _ _ Hen).
    + destruct (enqueued_pulled _ _ _ _ Hc Ho Hi Hen Hag) as [Hb [Hc1 F1]]. apply (kept_frame _ _ _ _ _ _ F1).
      set (s1 := set_ts_source _ _) in *.
      rewrite (attempt_bind _ _ s (inl tt) s1); [by apply (settle_backpressure_ok _ _ _ _ true)|].
      rewrite (with_source_eq _ _ _ _ _ [SourcePull] E) by apply (en_calls _ _ _ _ _ Hen). cbn [each].
      rewrite (tm_bind_inl _ _ _ tt s1); [done|]. rewrite (tm_bind_inl _ _ _ tt s1); [done|].
      exact (keep_ok (fun p s => set_ts_source (ts_source s ++ [p]) s) pullAlgorithm _ _ _ (pull_eq (set_ts_readable r s) Hb (proj2 (c_change _ _ _ _ _ _ Hc)))).
  - destruct Hr as (Hd & He & Hv). injection Hv as V1 V2 V3 V4 V5.
    rewrite (attempt_bind _ _ s (inr (ErrorObj cl msg)) (set_ts_readable r s)) by (by rewrite (with_source_eq _ _ _ _ _ [] E) by by rewrite app_nil_r).
    assert (Hor : open_source r = false).
    { unfold ReadableStreamDefaultControllerCanCloseOrEnqueue, rstate_is. rewrite V5. cbn. by rewrite andb_false_r. }
    assert (Hc1 : core hist [] [] (set_ts_readable r s)).
    { apply (core_readable_shut _ _ _ [chunk]); try done; [by rewrite V1|]. rewrite V4, V5. intros _ [|]; [done|auto]. }
    destruct (error_unblock_ok _ _ _ _ (ErrorObj cl msg) Hc1 Hor) as (s' & E' & Hc' & F & A & R).
    rewrite (tm_bind_inl _ _ _ _ _ E'), get_bind. split; [done|]. split; [|by intros _; left]. cbn [snd raise].
    apply (frame_cleared s (set_ts_readable r s)); try done. intros _. by rewrite R.
Qed.
(* ------------------------------------------------------------------ *)
(** ** The controller *)

Lemma controller_op_ok hist pend extra s op : core hist pend extra s ->
  (plain = true -> exists chunk, op = OpEnqueue chunk /\ pend = [chunk]) -> kept hist [] extra s (controller_op rhwm rsize op s).
Proof.
  intros Hc Hp. assert (Hcase : plain = true \/ plain = false) by (destruct plain; auto). destruct Hcase as [Hpl|Hpl].
  { destruct (Hp Hpl) as (chunk & -> & ->). by apply enqueue_ok. }
  destruct op as [chunk|e|]; cbn [controller_op].
  - apply enqueue_ok. by eapply core_pend.
  - destruct (transform_error_ok hist [] extra s e) as (s' & -> & ? & ? & _); [by eapply core_pend|by split].
  - destruct (terminate_ok hist [] extra s) as (s' & -> & ? & ? & _); [done|by eapply core_pend|by split].
Qed.

Lemma controller_call_ok hist pend extra s op : core hist pend extra s ->
  (plain = true -> exists chunk, op = OpEnqueue chunk /\ pend = [chunk]) ->
  exists x s', controller_call rhwm rsize op s = (inl x, s') /\ core hist [] extra s' /\ frame s s'.
Proof.
  intros Hc Hp. destruct (controller_op_ok _ _ _ _ op Hc Hp) as (Hc' & F & Hx). unfold controller_call.
  destruct (controller_op rhwm rsize op s) as [[[]|e] s1] eqn:E; cbn in Hc', F, Hx; rewrite (attempt_bind _ _ _ _ _ E).
  - by exists None, s1.
  - rewrite update_bind. eexists _, _. split; [reflexivity|]. split; [destruct Hc'; by split|].
    apply (frame_trans s s1 _ F). split; [by split|done|done|]. exists [e]. split; [done|]. by apply Forall_singleton.
Qed.

Lemma run_method_ok hist extra s ops : core hist [] extra s -> (plain = true -> ops = None) ->
  exists s', run_method rhwm rsize ops s = (inl tt, s') /\ core hist [] extra s' /\ frame s s'.
Proof.
  destruct ops as [ops|]; [|intros Hc _; exists s; split; [done|]; split; [done|apply frame_refl]].
  intros Hc Hp. assert (Hpl : plain = false) by (clear - Hp; destruct plain; [by specialize (Hp eq_refl)|done]). clear Hp. cbn [run_method].
  revert s Hc. induction ops as [|op ops IH]; intros s Hc; [exists s; split; [done|]; split; [done|apply frame_refl]|]. cbn [each].
  destruct (controller_call_ok hist [] extra s op Hc) as (x & s1 & E & Hc1 & F1); [by rewrite Hpl|].
  destruct (IH s1 Hc1) as (s2 & E2 & Hc2 & F2). exists s2. split; [|split; [done|by eapply frame_trans]].
  rewrite (tm_bind_inl _ _ s tt s1) by by rewrite (tm_bind_inl _ _ _ _ _ E). done.
Qed.

(** [transform] is called with the next chunk. *)
Lemma perform_ok hist s chunk : core hist [] [] s -> (ts_algorithms s = true -> (ts_transformed s ++ [chunk]) `prefix_of` writes s) ->
  (ts_algorithms s = false /\ TransformStreamDefaultControllerPerformTransform tr rhwm rsize chunk s = (inr not_a_function, s)) \/
  (ts_algorithms s = true /\ exists k s', TransformStreamDefaultControllerPerformTransform tr rhwm rsize chunk s = (inl (PTransform k), s') /\
    core hist [] [] s' /\ frame (set_ts_transformed (ts_transformed s ++ [chunk]) s) s').
Proof.
  intros Hc Hpre. unfold TransformStreamDefaultControllerPerformTransform. rewrite get_bind. cbn [id].
  destruct (ts_algorithms s) eqn:Ha; cbn [negb]; [right|by left]. split; [done|]. rewrite update_bind. specialize (Hpre eq_refl).
  set (s1 := set_ts_transformed _ s). assert (Hc1 : core hist [chunk] [] s1).
  { destruct Hc as [? ? ? ? ? ? ? Hf ? ? Hp ?]. assert (Hfin : forall k, ts_finishing s <> Some k).
    { intros k E. by rewrite Hf in Ha; [|rewrite E; eexists]. }
    split; try done; cbn; unfold writes in *; cbn.
    - intros E. by destruct (Hfin FinishClose).
    - intros Hpl. destruct (Hp Hpl) as [[l ->] Hq]. split; [exists (l ++ [chunk]); by rewrite app_assoc|].
      intros Ho. by rewrite <-(Hq Ho), app_nil_r. }
  destruct (tr_transform tr) as [f|] eqn:Ef.
  - assert (Hpl : plain = false) by (clear - Ef Hplain; destruct plain; [by rewrite Hplain in Ef|done]).
    destruct (run_method_ok hist [] s1 (Some (f (length (ts_transformed s)) chunk))) as (s2 & E & Hc2 & F2);
      [by eapply core_pend|by rewrite Hpl|].
    rewrite (tm_bind_inl _ _ _ _ _ E). by exists None, s2.
  - destruct (controller_call_ok hist [chunk] [] s1 (OpEnqueue chunk) Hc1) as (x & s2 & E & Hc2 & F2); [by intros _; exists chunk|].
    rewrite (tm_bind_inl _ _ _ _ _ E). by exists (Some x), s2.
Qed.

Lemma cancel_method_plain r : plain = true -> cancel_method tr r = None.
Proof. intros Hp. unfold cancel_method. by rewrite Hplain. Qed.

Lemma side_finish_ok hist extra s k method : core hist [] extra s -> (plain = true -> method = None) ->
  (k = FinishClose -> ts_algorithms s = true -> ts_transformed s = writes s /\ SinkClose ∈ sink_calls (ts_writable s)) ->
  (forall r, k = FinishCancel r -> open_source (ts_readable s) = false) ->
  exists x s', finish_algorithm rhwm rsize k method s = (x, s') /\ core hist [] extra s' /\ frame s s' /\
    (x = inl PFinish \/ x = inr not_a_function /\ ts_algorithms s' = false).
Proof.
  intros Hc Hp Hcl Hca. unfold finish_algorithm. rewrite get_bind. cbn [id].
  destruct (ts_finish s) as [v|]; [exists (inl PFinish), s; split_and!; [done|done|apply frame_refl|by left]|].
  rewrite update_bind. set (s1 := set_ts_finish _ s). assert (Hc1 : core hist [] extra s1) by (destruct Hc; by split).
  assert (F1 : frame s s1) by (apply frame_step; done).
  destruct (ts_algorithms s) eqn:Ha; cbn [negb]; [|exists (inr not_a_function), s1; split_and!; [done|done|done|by right]].
  destruct (run_method_ok hist extra s1 method Hc1 Hp) as (s2 & E & Hc2 & F2). rewrite (tm_bind_inl _ _ _ _ _ E).
  unfold TransformStreamDefaultControllerClearAlgorithms. rewrite !update_bind.
  eexists _, _. split; [reflexivity|]. split; [|split; [|by left]].
  - apply (core_rest _ _ _ _ _ s2); try done; [by left|]. intros _. right. split; [done|]. destruct F2 as [[E1 E2 _ _ E3 _] Ho _ _]. split.
    + intros [= ->]. destruct (Hcl eq_refl eq_refl) as [H1 H2]. unfold writes in *. by rewrite E1, E3.
    + intros r [= ->]. apply Ho. by apply (Hca r).
  - apply (frame_trans s s1 _ F1), (frame_trans s1 s2 _ F2), frame_step; [by split|done|done|by left].
Qed.
(** The handlers of the promise of [flush] or [cancel]. *)
Lemma settle_finish_ok hist pend extra s v : core hist pend extra s ->
  exists s', defaultControllerFinishPromise v s = (inl tt, s') /\ core hist pend extra s' /\ frame s s'.
Proof.
  intros Hc. unfold defaultControllerFinishPromise, update. eexists. split; [reflexivity|].
  destruct (ts_finish s) as [[| |]|]; try (split; [done|apply frame_refl]). split; [destruct Hc; by split|]. by apply frame_step.
Qed.

(** The cancellation reaches the writable side. *)
Lemma finish_cancel_ok hist s e v : core hist [] [] s -> ts_algorithms s = false -> open_source (ts_readable s) = false ->
  exists s', (error_writable e ;; TransformStreamUnblockWrite ;; defaultControllerFinishPromise v) s = (inl tt, s') /\
    core hist [] [] s' /\ frame s s'.
Proof.
  intros Hc Ha Ho. destruct (error_writable_ok _ _ _ _ e Hc) as (s1 & E1 & Hc1 & F1 & A1 & _ & R1).
  rewrite (tm_bind_inl _ _ _ _ _ E1).
  destruct (unblock_ok _ _ _ s1 Hc1) as (s2 & E2 & Hc2 & F2 & _); [by rewrite R1|by rewrite A1|].
  rewrite (tm_bind_inl _ _ _ _ _ E2). destruct (settle_finish_ok _ _ _ s2 v Hc2) as (s3 & E3 & Hc3 & F3).
  exists s3. split; [done|]. split; [done|]. by eapply frame_trans; [|eapply frame_trans].
Qed.

(** The end reaches the readable side. *)
Lemma finish_readable_ok hist s m r v : core hist [] [] s -> ts_algorithms s = false ->
  on_readable m s = (inl tt, set_ts_readable r s) -> core hist [] [] (set_ts_readable r s) -> open_source r = false ->
  exists s', (on_readable m ;; defaultControllerFinishPromise v) s = (inl tt, s') /\ core hist [] [] s' /\ frame s s'.
Proof.
  intros Hc Ha E Hc1 Ho. rewrite (tm_bind_inl _ _ _ _ _ E). destruct (settle_finish_ok _ _ _ _ v Hc1) as (s' & E' & Hc' & F').
  exists s'. split; [done|]. split; [done|]. apply (frame_trans s (set_ts_readable r s)); [|done]. apply frame_step; [by split|done|done|by left].
Qed.

Lemma close_readable_ok hist s : core hist [] [] s -> (ts_transformed s = writes s /\ SinkClose ∈ sink_calls (ts_writable s)) ->
  exists r, on_readable ReadableStreamDefaultControllerClose s = (inl tt, set_ts_readable r s) /\
    core hist [] [] (set_ts_readable r s) /\ open_source r = false.
Proof.
  intros Hc [Ht Hin]. destruct (ctl_close_effect (ts_readable s)) as (r & E & Hi & Ho & Hr); [apply Hc|].
  exists r. split; [by rewrite (on_readable_eq _ _ _ _ E)|]. split; [|done].
  destruct Hr as [[_ ->]|(Hop & _ & E1 & E2 & E3)]; [destruct s, Hc; by split|].
  apply (core_readable_shut _ _ _ []); try done; [by rewrite E1|]. intros Hpl _. right; right. split; [|done].
  destruct (c_passed _ _ _ _ _ _ Hc Hpl) as [_ Hq]. rewrite <-Ht, <-(Hq Hop). by rewrite app_nil_r.
Qed.

Lemma on_finished_ok hist s k res : core hist [] [] s -> ts_algorithms s = false ->
  (k = FinishClose -> ts_transformed s = writes s /\ SinkClose ∈ sink_calls (ts_writable s)) ->
  (forall r, k = FinishCancel r -> open_source (ts_readable s) = false) ->
  exists s', on_finished k res s = (inl tt, s') /\ core hist [] [] s' /\ frame s s'.
Proof.
  intros Hc Ha Hcl Hca. unfold on_finished. rewrite get_bind. cbn [id].
  destruct k as [r| |r], res as [e|].
  - destruct (error_readable_ok _ _ _ s e Hc) as (r' & E & Hc1 & Ho). by apply (finish_readable_ok _ _ _ r').
  - destruct (bool_decide _); [by apply settle_finish_ok|].
    destruct (error_readable_ok _ _ _ s r Hc) as (r' & E & Hc1 & Ho). by apply (finish_readable_ok _ _ _ r').
  - destruct (error_readable_ok _ _ _ s e Hc) as (r' & E & Hc1 & Ho). by apply (finish_readable_ok _ _ _ r').
  - destruct (bool_decide _); [by apply settle_finish_ok|].
    destruct (close_readable_ok _ s Hc) as (r' & E & Hc1 & Ho); [by apply Hcl|]. by apply (finish_readable_ok _ _ _ r').
  - apply finish_cancel_ok; [done|done|by apply (Hca r)].
  - destruct (bool_decide _); [by apply settle_finish_ok|]. apply finish_cancel_ok; [done|done|by apply (Hca r)].
Qed.

(* ------------------------------------------------------------------ *)
(** ** The sink of the writable side *)

(** Where the chunks are: all transformed, or one that waits. *)
Definition order (s : tstream) : Prop :=
  st_state (ts_writable s) = Writable -> ts_algorithms s = true ->
  match ts_sink s with
  | [PBlocked _ chunk] => ts_transformed s ++ [chunk] = writes s
  | _ => ts_transformed s = writes s
  end.

Record tinv (hist : list Z) (s : tstream) : Prop := {
  ti_core : core hist [] [] s;
  ti_sink : Forall2 sink_job (awaited (ts_writable s)) (ts_sink s);
  ti_order : order s;
}.

(** The answer of an event. *)
Definition answered {A} (s : tstream) (x : (A + reason) * tstream) : Prop :=
  threw s x.2 /\ match x.1 with inl _ => True | inr e => defect e -> excused x.2 end.

Lemma starts_open v : SinkClose ∉ SinkStart :: (SinkWrite <$> v).
Proof. intros [?|(?&?&_)%list_elem_of_fmap]%elem_of_cons; done. Qed.

(** Closing is the last thing a sink is asked. *)
Lemma closed_last hist w before cs : WritableStreamInv.Inv whwm hist w -> sink_calls w = before ++ cs -> SinkClose ∈ before -> cs = [].
Proof.
  intros Hw E Hin. destruct (inv_given whwm _ _ Hw) as (v & tl & Ev & _ & _ & Htl). rewrite E in Ev.
  destruct cs as [|x cs _] using rev_ind; [done|]. exfalso. change (SinkStart :: ?l ++ tl) with ((SinkStart :: l) ++ tl) in Ev.
  assert (Htl' : tl = [] \/ exists y, tl = [y]) by (destruct Htl as [?|[[? _]|[? ?]]]; eauto).
  apply (starts_open v). destruct Htl' as [->|[y ->]].
  - rewrite app_nil_r in Ev. rewrite <-Ev. apply elem_of_app. by left.
  - rewrite app_assoc in Ev. apply app_inj_tail in Ev as [<- _]. apply elem_of_app. by left.
Qed.

Lemma core_grow hist hist' s w cs : core hist [] [] s -> WritableStreamInv.Inv whwm hist' w ->
  sink_calls w = sink_calls (ts_writable s) ++ cs -> core hist' [] [] (set_ts_writable w s).
Proof.
  intros Hc Hw E. assert (Hcl : SinkClose ∈ sink_calls (ts_writable s) -> sink_calls w = sink_calls (ts_writable s)).
  { intros Hin. by rewrite E, (closed_last _ _ _ _ Hw E Hin), app_nil_r. }
  destruct Hc as [? ? ? ? ? ? [l Hl] ? Hcl' ? ? He]. unfold writes in *. split; try done; unfold writes; cbn.
  - rewrite E, omap_app, Hl. exists (l ++ omap write_of cs). by rewrite app_assoc.
  - intros Ef. destruct (Hcl' Ef) as [H1 H2]. by rewrite (Hcl H2).
  - intros Hpl Hend. destruct (He Hpl Hend) as [?|[H1 H2]]; [by left|right]. by rewrite (Hcl H2).
Qed.

(** A call of the sink, and the state in which its promise is kept. *)
Lemma sink_call_ok hist s c k : core hist [] [] s -> ts_sink s = [] -> awaited (ts_writable s) = [k] -> goes_with c k ->
  (feeds c = true -> st_state (ts_writable s) = Writable) ->
  (st_state (ts_writable s) = Writable -> ts_algorithms s = true -> ts_transformed s ++ option_list (write_of c) = writes s) ->
  (ts_algorithms s = true -> (ts_transformed s ++ option_list (write_of c)) `prefix_of` writes s) ->
  (c = SinkClose -> SinkClose ∈ sink_calls (ts_writable s)) ->
  let x := keep (fun p s => set_ts_sink (ts_sink s ++ [p]) s) (sink_method tr rhwm rsize c) s in
  tinv hist x.2 /\ answered s x.
Proof.
  intros Hc Hs Ha Hk Hst Hord Hpre Hclose. cbv zeta.
  (* the promise, kept *)
  assert (Hkeep : forall p s', core hist [] [] s' -> side s s' \/ side (set_ts_transformed (ts_transformed s ++ option_list (write_of c)) s) s' ->
    sink_job k p -> order (set_ts_sink [p] s') -> tinv hist (set_ts_sink (ts_sink s' ++ [p]) s')).
  { intros p s' Hc' Hf Hj Ho. assert (E : ts_sink s' = [] /\ awaited (ts_writable s') = [k]).
    { destruct Hf as [[_ E1 _ E2 _ _]|[_ E1 _ E2 _ _]]; cbn in E1, E2; by rewrite E1, E2. }
    destruct E as [E1 E2]. rewrite E1. split; [destruct Hc'; by split|cbn; rewrite E2; by constructor|exact Ho]. }
  assert (Hfinish : forall fk method, sink_method tr rhwm rsize c = finish_algorithm rhwm rsize fk method -> write_of c = None ->
    (sink_job k PFinish /\ sink_job k PNever) -> (plain = true -> method = None) -> (forall r, fk <> FinishCancel r) -> (fk = FinishClose -> c = SinkClose) ->
    tinv hist (keep (fun p s => set_ts_sink (ts_sink s ++ [p]) s) (sink_method tr rhwm rsize c) s).2 /\
    answered s (keep (fun p s => set_ts_sink (ts_sink s ++ [p]) s) (sink_method tr rhwm rsize c) s)).
  { intros fk method Em Hw [Hj1 Hj2] Hp Hnc Hfc. rewrite Em. rewrite Hw in *. cbn in Hord. rewrite app_nil_r in Hord.
    destruct (side_finish_ok hist [] s fk method Hc Hp) as (x & s' & E & Hc' & F & Hx).
    { intros Efk Hal. assert (Ec := Hfc Efk). split; [|by apply Hclose]. apply Hord; [|done]. apply Hst. by rewrite Ec. }
    { intros r Er. by destruct (Hnc r). }
    assert (Ho : forall p, match p with PBlocked _ _ => False | _ => True end -> order (set_ts_sink [p] s')).
    { intros p Hp'. unfold order. cbn. destruct F as [[E1 _ E2 _ E3 E4] _ _ _]. unfold writes in *. cbn. rewrite E1, E3. destruct p; try done; auto. }
    destruct Hx as [->|[-> Hx]].
    - rewrite (keep_ok _ _ _ _ _ E). split; [|split; [apply F|done]]. apply Hkeep; [done|by left; apply F|done|by apply Ho].
    - rewrite (keep_err _ _ _ _ _ E). split; [|split; [apply F|by left]]. apply Hkeep; [done|by left; apply F|done|by apply Ho]. }
  destruct c as [|chunk| |r]; [by destruct k| | |].
  - destruct k; try done. clear Hfinish. cbn [sink_method write_of option_list] in *.
    assert (Hperf : forall n, core hist [] [] s /\ order (set_ts_sink [PBlocked n chunk] s)).
    { intros n. split; [done|]. intros Hw Hal. cbn. by apply Hord. }
    unfold writeAlgorithm. assert (Hw : st_state (ts_writable s) = Writable) by by apply Hst.
    set (m := (s0 ← get id; _)).
    assert (Em : m s = if bool_decide (ts_backpressure s = Some true) then (inl (PBlocked (ts_changes s - 1) chunk), s)
      else TransformStreamDefaultControllerPerformTransform tr rhwm rsize chunk s).
    { unfold m. rewrite get_bind. cbn [id]. rewrite check_bind by (unfold state_is; by rewrite Hw).
      destruct (bool_decide _); [|done]. rewrite check_bind by (apply Nat.ltb_lt; apply Hc). done. }
    destruct (bool_decide _).
    + rewrite (keep_ok _ _ _ _ _ Em). split; [|split; [by apply threw_same|done]].
      apply Hkeep; [done|left; apply side_refl|done|by apply Hperf].
    + destruct (perform_ok hist s chunk Hc Hpre) as [[Hal E]|(Hal & k' & s' & E & Hc' & F)]; rewrite E in Em.
      * rewrite (keep_err _ _ _ _ _ Em). split; [|split; [by apply threw_same|by left]].
        apply Hkeep; [done|left; apply side_refl|done|]. intros _. cbn. congruence.
      * rewrite (keep_ok _ _ _ _ _ Em). split; [|split; [|done]].
        -- apply Hkeep; [done|right; apply F|done|]. intros _ _. cbn. destruct F as [[E1 _ _ _ E3 _] _ _ _]. unfold writes in *. cbn in *. rewrite E1, E3. auto.
        -- apply F.
  - destruct k; try done. apply (Hfinish FinishClose (tr_flush tr)); try done. intros Hp. by rewrite Hplain.
  - destruct k; try done. apply (Hfinish (FinishAbort r) (cancel_method tr r)); try done. apply cancel_method_plain.
Qed.
Lemma forall2_nil_l {A B} (P : A -> B -> Prop) l : Forall2 P [] l -> l = [].
Proof. by inversion 1. Qed.

(** An operation of the writable side, with the calls it makes; [aw] is
    what the side waited for besides. *)
Lemma with_sink_ok {A} hist hist' s (m : SM wstream A) o w new aw : core hist [] [] s -> Forall2 sink_job aw (ts_sink s) -> order s ->
  m (ts_writable s) = (o, w) -> WritableStreamInv.Inv whwm hist' w -> asks new (set_awaited aw (ts_writable s)) w ->
  (existsb feeds new.*1 = true -> st_state (ts_writable s) = Writable /\ st_state w = Writable) ->
  match o with Ok _ => True | Throw c msg => is_defect c msg = false end ->
  let x := with_sink (sink_method tr rhwm rsize) m s in tinv hist' x.2 /\ answered s x.
Proof.
  intros Hc Hj Hord E Hw [E1 E2 Hpairs Hst] Hfeed Ho. cbv zeta. change (sink_calls w = sink_calls (ts_writable s) ++ new.*1) in E1.
  change (awaited w = aw ++ new.*2) in E2. change (st_state (ts_writable s) <> Writable -> st_state w <> Writable) in Hst.
  assert (Hst' : st_state w = Writable -> st_state (ts_writable s) = Writable).
  { intros. destruct (decide (st_state (ts_writable s) = Writable)) as [|Hn]; [done|]. by destruct (Hst Hn). }
  rewrite (with_sink_eq _ _ _ _ _ _ E E1). pose proof (core_grow _ _ _ _ _ Hc Hw E1) as Hc1.
  destruct (inv_given whwm _ _ Hw) as (_ & _ & _ & _ & Hlen & _). rewrite E2, length_app, length_fmap in Hlen.
  assert (Hres : forall s1, tinv hist' s1 -> threw s s1 -> tinv hist' (result (of_outcome o) s1).2 /\ answered s (result (of_outcome o) s1)).
  { intros s1 Ht Hth. split; [done|]. split; [done|]. destruct o as [a|cl msg]; [done|]. cbn. by rewrite Ho. }
  destruct new as [|[c k] new].
  - cbn. apply Hres; [|by apply threw_same]. cbn in E1, E2. rewrite app_nil_r in E1, E2. split; [done|cbn; by rewrite E2|].
    intros Hs Ha. specialize (Hord (Hst' Hs) Ha). unfold writes in *. cbn in *. by rewrite E1.
  - destruct new; [|cbn in Hlen; lia]. destruct aw; [|cbn in Hlen; lia]. apply forall2_nil_l in Hj. cbn in E1, E2.
    rewrite Forall_singleton in Hpairs. cbn in Hpairs, Hfeed. rewrite orb_false_r in Hfeed. cbn [fmap list_fmap each fst].
    set (s1 := set_ts_writable w s) in *.
    assert (Hwr : writes s1 = writes s ++ option_list (write_of c)).
    { unfold writes, s1. cbn. rewrite E1, omap_app. by destruct c. }
    assert (Hold : st_state w = Writable -> ts_algorithms s = true -> ts_transformed s = writes s).
    { intros Hs Ha. specialize (Hord (Hst' Hs) Ha). by rewrite Hj in Hord. }
    assert (Hpre : ts_algorithms s1 = true -> (ts_transformed s1 ++ option_list (write_of c)) `prefix_of` writes s1).
    { intros Ha. cbn. rewrite Hwr. destruct (feeds c) eqn:Hf; [by rewrite (Hold (proj2 (Hfeed eq_refl)) Ha)|].
      destruct c; try done; cbn; rewrite !app_nil_r; apply Hc. }
    assert (Hclose : c = SinkClose -> SinkClose ∈ sink_calls (ts_writable s1)).
    { intros ->. cbn. rewrite E1. apply elem_of_app. right. by apply list_elem_of_singleton. }
    destruct (sink_call_ok hist' s1 c k Hc1 Hj E2 Hpairs (fun Hf => proj2 (Hfeed Hf))) as [Ht [Hth Hx]]; [|done|done|].
    { intros Hs Ha. cbn. by rewrite Hwr, Hold. }
    change (threw s1 ?x) with (threw s x) in Hth.
    destruct (keep _ _ s1) as [[[]|e] s2] eqn:Ek; cbn in Ht, Hth, Hx.
    + rewrite (tm_bind_inl _ _ s1 tt s2) by by rewrite (tm_bind_inl _ _ _ _ _ Ek). by apply Hres.
    + rewrite (tm_bind_inr _ _ s1 e s2) by by rewrite (tm_bind_inr _ _ _ _ _ Ek). done.
Qed.
(* ------------------------------------------------------------------ *)
(** ** The source of the readable side *)

(** What an operation of a consumer of the readable side leaves behind,
    once its calls are answered. *)
Definition source_done (hist : list Z) {A} (s : tstream) (x : (A + reason) * tstream) : Prop :=
  core hist [] [] x.2 /\ side s x.2 /\ answered s x.

(** The readable side after such an operation, with the jobs of [s']. *)
Lemma consulted_core hist extra s s' cancels new : core hist [] [] s -> RInv (ts_readable s') -> consulted cancels new (ts_readable s) (ts_readable s') ->
  (rs_state (ts_readable s') = ReadableStream.Closed -> rs_state (ts_readable s) = ReadableStream.Closed \/
    rc_closeRequested (ts_readable s) = true \/ existsb is_cancel (rs_calls (ts_readable s')) = true) ->
  ts_writable s' = ts_writable s -> ts_transformed s' = ts_transformed s -> ts_finishing s' = ts_finishing s -> ts_algorithms s' = ts_algorithms s ->
  (exists js, ts_source s' = ts_source s ++ js /\ exists l, rs_awaited (ts_readable s') = rs_awaited (ts_readable s) ++ l ++ extra /\ Forall2 source_job l js) ->
  (extra <> [] -> open_source (ts_readable s') = false) ->
  (ts_backpressure s' <> None /\ (0 < ts_changes s')%nat) ->
  (open_source (ts_readable s) = true -> ts_backpressure s' = Some false -> PChange (ts_changes s' - 1) ∈ ts_source s') ->
  core hist [] extra s'.
Proof.
  intros Hc Hr [E1 E2 _ E3 E4 Eo _] Hcl W1 W2 W3 W4 (js & Ejs & l' & El' & Hjs) Hx Hch Hd.
  pose proof Hc as [? ? (l & El & Hl) _ _ _ ? ? ? Hca Hp He].
  assert (Hopen : open_source (ts_readable s') = true -> open_source (ts_readable s) = true).
  { intros H. destruct (open_source (ts_readable s)) eqn:E; [done|]. destruct (Eo eq_refl). congruence. }
  split; unfold writes; rewrite ?W1, ?W2, ?W3, ?W4; try done.
  - exists (l ++ l'). rewrite app_nil_r in El. rewrite El', El, Ejs, app_assoc. split; [done|]. by apply Forall2_app.
  - auto.
  - intros e Ef. destruct (open_source (ts_readable s')) eqn:E; [|done]. rewrite (Hca e Ef) in Hopen. by specialize (Hopen eq_refl).
  - intros Hpl. destruct (Hp Hpl) as [? Hq]. rewrite E3. split; [done|]. auto.
  - intros Hpl Hend. rewrite E3. rewrite E4 in Hend.
    assert (Hcase : existsb is_cancel (rs_calls (ts_readable s')) = true \/ rs_state (ts_readable s) = ReadableStream.Closed \/ rc_closeRequested (ts_readable s) = true).
    { destruct Hend as [Hend|Hend]; [destruct (Hcl Hend) as [?|[?|?]]; auto|auto]. }
    destruct Hcase as [?|Hold]; [by left|]. destruct (He Hpl Hold) as [Hk|?]; [left|by right]. by rewrite E1, existsb_app, Hk.
Qed.

(** At most one call. *)
Lemma consulted_one cancels new r r' : RInv r' -> consulted cancels new r r' ->
  new = [] \/ exists c k, new = [(c, k)] /\ source_goes_with c k /\ is_cancel c = cancels.
Proof.
  intros Hr [_ E2 Hpairs _ _ _ _]. destruct new as [|[c k] new]; [by left|right]. exists c, k.
  apply Forall_cons in Hpairs as [[Hg Hk] Hpairs]. destruct new as [|[c2 k2] new]; [done|]. exfalso.
  apply Forall_cons in Hpairs as [[Hg2 Hk2] _]. cbn in *. destruct Hr as [[_ _ _ Hf] _].
  assert (Hw : forall f, waits f (rs_awaited r') = (waits f (rs_awaited r) + (if f k then 1 else 0) + ((if f k2 then 1 else 0) + waits f new.*2))%nat).
  { intros f. rewrite E2. unfold waits. rewrite List.filter_app, length_app. cbn. destruct (f k), (f k2); cbn; lia. }
  destruct c, k; try done; destruct c2, k2; try done; cbn in Hk, Hk2; try congruence.
  - pose proof (fl_pull _ Hf) as Hle. rewrite Hw in Hle. cbn in Hle. destruct (rc_pulling r'); lia.
  - pose proof (fl_cancel _ Hf) as Hle. rewrite Hw in Hle. cbn in Hle. destruct (decide _); lia.
Qed.

Lemma with_source_ok {A} hist s (m : SM rstream A) o r cancels new : core hist [] [] s -> m (ts_readable s) = (o, r) -> RInv r ->
  consulted cancels new (ts_readable s) r ->
  (rs_state r = ReadableStream.Closed -> rs_state (ts_readable s) = ReadableStream.Closed \/ rc_closeRequested (ts_readable s) = true \/
    existsb is_cancel (rs_calls r) = true) ->
  match o with Ok _ => True | Throw c msg => is_defect c msg = false end ->
  source_done hist s (with_source (source_method tr rhwm rsize) m s).
Proof.
  intros Hc E Hr Hco Hcl Ho. pose proof Hco as [E1 E2 _ _ _ Eop _]. rewrite (with_source_eq _ _ _ _ _ _ E E1).
  assert (Hres : forall s1, core hist [] [] s1 -> side s s1 -> threw s s1 -> source_done hist s (result (of_outcome o) s1)).
  { intros s1 Ht Hs Hth. split; [done|]. split; [done|]. split; [done|]. destruct o as [a|cl msg]; [done|]. cbn. by rewrite Ho. }
  pose proof (c_change _ _ _ _ _ _ Hc) as [Hn Hpos].
  destruct (consulted_one _ _ _ _ Hr Hco) as [->|(c & k & -> & Hg & Hk)].
  { cbn in *. rewrite app_nil_r in E2. apply Hres; [|by split|by apply threw_same].
    apply (consulted_core _ _ s (set_ts_readable r s) cancels []); try done.
    - exists []. rewrite app_nil_r. split; [done|]. exists []. cbn. by rewrite app_nil_r.
    - apply Hc. }
  cbn [fmap list_fmap each fst snd] in *. destruct c as [| |e]; [by destruct k| |].
  - destruct k; try done. cbn in Hk. subst cancels. cbn in E2.
    assert (Hopen : open_source (ts_readable s) = true).
    { destruct (open_source (ts_readable s)) eqn:Eo; [done|]. by destruct (Eop eq_refl) as [_ Hnew]; specialize (Hnew eq_refl). }
    assert (Hb : ts_backpressure s = Some true).
    { destruct (ts_backpressure s) as [[|]|] eqn:Eb; [done| |done]. pose proof (demand_pulled _ _ _ _ Hc Hopen Eb) as Hw.
      destruct Hr as [[_ _ _ Hf] _]. pose proof (fl_pull _ Hf) as Hle. rewrite E2, waits_app in Hle. cbn in Hle. destruct (rc_pulling r); lia. }
    set (s1 := set_ts_source (ts_source s ++ [PChange (ts_changes s)]) (set_ts_change (Some false) (S (ts_changes s)) (set_ts_readable r s))).
    rewrite (tm_bind_inl _ _ (set_ts_readable r s) tt s1).
    + apply Hres; [|by split|by apply threw_same].
      apply (consulted_core _ _ s s1 false [(SourcePull, ReadableStream.WaitPull)]); try done.
      * exists [PChange (ts_changes s)]. split; [done|]. exists [ReadableStream.WaitPull]. split; [done|]. by constructor.
      * cbn. split; [done|lia].
      * intros _ _. cbn. rewrite Nat.sub_0_r. apply elem_of_app. right. by apply list_elem_of_singleton.
    + rewrite (tm_bind_inl _ _ _ tt s1); [done|].
      exact (keep_ok (fun p s => set_ts_source (ts_source s ++ [p]) s) pullAlgorithm _ _ _ (pull_eq (set_ts_readable r s) Hb Hpos)).
  - destruct k as [| |p]; try done. set (s1 := set_ts_readable r s).
    assert (Hshut : open_source r = false).
    { destruct (open_source r) eqn:Eo; [|done]. apply can_close_inv in Eo as [_ Hs]. destruct Hr as [[_ _ _ Hf] _].
      pose proof (fl_cancel _ Hf) as Hle. rewrite E2, waits_app in Hle. cbn in Hle. rewrite decide_True in Hle by done. lia. }
    assert (Hc1 : core hist [] [ReadableStream.WaitCancel p] s1).
    { apply (consulted_core _ _ s s1 cancels [(SourceCancel e, ReadableStream.WaitCancel p)]); try done.
      - exists []. rewrite app_nil_r. split; [done|]. by exists [].
      - apply Hc. }
    destruct (side_finish_ok hist _ s1 (FinishCancel e) (cancel_method tr e) Hc1 (cancel_method_plain e)) as (x & s2 & Ef & Hc2 & F & Hx); try done.
    assert (Hpush : forall j, source_job (ReadableStream.WaitCancel p) j -> core hist [] [] (set_ts_source (ts_source s2 ++ [j]) s2)).
    { intros j Hj. destruct Hc2 as [? ? (l & El & Hl) Ho2 ? Hd ? ? ? ? ? ?]. split; try done; cbn.
      - exists (l ++ [ReadableStream.WaitCancel p]). rewrite app_nil_r. split; [done|]. apply Forall2_app; [done|]. by constructor.
      - intros Ho'. rewrite Ho2 in Ho' by done. done. }
    destruct Hx as [->|[-> Hx]].
    + rewrite (tm_bind_inl _ _ s1 tt (set_ts_source (ts_source s2 ++ [PFinish]) s2)).
      * apply Hres; [by apply Hpush|destruct F as [[] _ _ _]; by split|apply F].
      * rewrite (tm_bind_inl _ _ _ tt (set_ts_source (ts_source s2 ++ [PFinish]) s2)); [done|].
        exact (keep_ok (fun p s => set_ts_source (ts_source s ++ [p]) s) (cancelAlgorithm tr rhwm rsize e) _ _ _ Ef).
    + assert (Ek := keep_err (fun p s => set_ts_source (ts_source s ++ [p]) s) (cancelAlgorithm tr rhwm rsize e) _ _ _ Ef).
      change (cancelAlgorithm tr rhwm rsize e) with (source_method tr rhwm rsize (SourceCancel e)) in Ek.
      rewrite (tm_bind_inr _ _ s1 not_a_function (set_ts_source (ts_source s2 ++ [PNever]) s2)) by by rewrite (tm_bind_inr _ _ _ _ _ Ek).
      split; [by apply Hpush|]. split; [destruct F as [[] _ _ _]; by split|]. split; [apply F|]. intros _. by left.
Qed.
(* ------------------------------------------------------------------ *)
(** ** Events *)

(** The chunks an event adds to the accepted writes. *)
Definition taccepted (e : tevent) (s : tstream) : list Z :=
  match e with TWriter e => if writer_call e then accepted_by wsize e (ts_writable s) else [] | _ => [] end.

(** A change of the controller alone. *)
Lemma tinv_frame hist s s' : tinv hist s -> core hist [] [] s' -> frame s s' -> tinv hist s'.
Proof.
  intros [Hc Hj Ho] Hc' [[E1 E2 Es E3 E4 Ea] _ _ _]. split; [done|by rewrite E2, E3|].
  intros Hs Ha. specialize (Ho (Es Hs) (Ea Ha)). unfold writes in *. by rewrite E1, E3, E4.
Qed.

Lemma answered_ok {A} s (a : A) s' : threw s s' -> answered s (inl a, s').
Proof. by split. Qed.

Lemma tinv_same hist s : tinv hist s -> tinv hist s /\ answered s (@inl unit reason tt, s).
Proof. intros H. split; [done|]. by apply answered_ok, threw_same. Qed.

Lemma known_no_defect {A} (o : outcome A) : known_result o -> match o with Ok _ => True | Throw c msg => is_defect c msg = false end.
Proof.
  destruct o as [a|c msg]; [done|]. unfold known_result, known_errors. intros H.
  repeat (apply elem_of_cons in H as [[= -> ->]|H]; [by vm_compute|]). by apply elem_of_nil in H.
Qed.

(** A call of the writable side. *)
Lemma writer_event_ok hist s e : tinv hist s -> writer_call e = true ->
  let x := with_sink (sink_method tr rhwm rsize) (run_event whwm wsize e) s in
  tinv (hist ++ accepted_by wsize e (ts_writable s)) x.2 /\ answered s x.
Proof.
  intros [Hc Hj Ho] He. destruct (event_ok whwm wsize hist (ts_writable s) e (c_writable _ _ _ _ _ _ Hc)) as (o & w & E & Hw & Hres).
  assert (Hx : external e) by (destruct e; try done; cbn in *; by apply bool_decide_eq_true in He).
  destruct (orderly_event whwm wsize e Hx (ts_writable s)) as (new & Hasks & Hf). rewrite E in Hasks, Hf. cbn in Hasks, Hf.
  apply (with_sink_ok hist _ s _ o w new (awaited (ts_writable s))); try done.
  - by destruct (ts_writable s).
  - apply known_no_defect. by destruct e.
Qed.

(** The handler of the sink's promise. *)
Lemma job_one hist s i p : tinv hist s -> ts_sink s !! i = Some p ->
  i = 0%nat /\ ts_sink s = [p] /\ exists k, awaited (ts_writable s) = [k] /\ sink_job k p.
Proof.
  intros [Hc Hj _] Hp. destruct (Forall2_lookup_r _ _ _ _ _ Hj Hp) as (k & Hk & Hkp).
  destruct (awaits_one whwm hist (ts_writable s) i k (c_writable _ _ _ _ _ _ Hc) Hk) as [-> Ha]. rewrite Ha in Hj.
  split; [done|]. split; [|by exists k]. inversion Hj as [|? ? ? ? ? Hn E1 E2]; subst. inversion Hn; subst. rewrite <-E2 in Hp. cbn in Hp. congruence.
Qed.

Lemma sink_event_ok hist s i p res : tinv hist s -> ts_sink s !! i = Some p -> value_of s p = Some res ->
  let x := with_sink (sink_method tr rhwm rsize) (run_event whwm wsize (EvSettle i res)) (set_ts_sink (delete i (ts_sink s)) s) in
  tinv hist x.2 /\ answered s x.
Proof.
  intros Ht Hp Hv. destruct (job_one _ _ _ _ Ht Hp) as (-> & Es & k & Ek & Hk). destruct Ht as [Hc Hj Ho]. rewrite Es in *. cbn [delete list_delete].
  set (s1 := set_ts_sink [] s).
  destruct (event_ok whwm wsize hist (ts_writable s) (EvSettle 0 res) (c_writable _ _ _ _ _ _ Hc)) as (o & w & E & Hw & Hres).
  cbn [accepted_by] in Hw. rewrite app_nil_r in Hw.
  destruct (orderly_settled whwm k res (set_awaited [] (ts_writable s))) as (new & Hasks & Hf).
  assert (E' := E). rewrite (orderly_settle _ _ _ _ _ k) in E' by by rewrite Ek. rewrite Ek in E'. cbn [delete list_delete] in E'. rewrite E' in Hasks, Hf.
  apply (with_sink_ok hist hist s1 _ o w new []); try done.
  - destruct Hc; by split.
  - intros Hs Ha. specialize (Ho Hs Ha). rewrite Es in Ho. change (ts_transformed s = writes s). by destruct p.
  - destruct Hres as [->|(r & _ & _ & ->)]; done.
Qed.

(** A call of the readable side. *)
Lemma reader_event_ok hist s e : tinv hist s -> reader_call e = true ->
  let x := with_source (source_method tr rhwm rsize) (revent_run rhwm rsize no_ops e) s in tinv hist x.2 /\ answered s x.
Proof.
  intros Ht He. assert (Hx : consumer_call e) by by destruct e. pose proof (c_readable _ _ _ _ _ _ (ti_core _ _ Ht)) as Hr.
  destruct (event_good rhwm rsize no_ops Hsize e (ts_readable s) Hr) as [Hi Ho].
  destruct (consults_event rhwm rsize no_ops no_ops_nil e Hx (ts_readable s)) as (new & Hco).
  pose proof (consumer_closes rhwm rsize no_ops no_ops_nil e (ts_readable s) Hr Hx) as Hcl.
  destruct (revent_run rhwm rsize no_ops e (ts_readable s)) as [o r] eqn:E. cbn in Hi, Ho, Hco, Hcl.
  destruct (with_source_ok hist s _ o r _ new (ti_core _ _ Ht) E Hi Hco Hcl Ho) as (Hc' & [E1 E2 Es E3 E4 Ea] & Ha).
  split; [|done]. split; [done|by rewrite E2, E3; apply Ht|]. intros Hs Hal. pose proof (ti_order _ _ Ht (Es Hs) (Ea Hal)) as Hord.
  unfold writes in *. by rewrite E1, E3, E4.
Qed.
(** The handler of the source's promise. *)
Lemma elem_of_delete {A} (l : list A) i x y : x ∈ l -> l !! i = Some y -> x <> y -> x ∈ delete i l.
Proof.
  intros Hx Hy Hne. rewrite <-(take_drop_middle l i y Hy) in Hx. rewrite delete_take_drop.
  apply elem_of_app in Hx as [?|[?|?]%elem_of_cons]; [apply elem_of_app; by left|done|apply elem_of_app; by right].
Qed.

Lemma source_settled_core hist s i p res k : core hist [] [] s -> ts_source s !! i = Some p -> value_of s p = Some res ->
  rs_awaited (ts_readable s) !! i = Some k ->
  core hist [] [] (set_ts_source (delete i (ts_source s)) (set_ts_readable (set_rs_awaited (delete i (rs_awaited (ts_readable s))) (ts_readable s)) s)).
Proof.
  intros [? Hr (l & El & Hl) ? ? Hd ? ? ? ? ? ?] Hp Hv Hk. rewrite app_nil_r in El. split; try done; cbn.
  - by eapply delete_inv.
  - exists (delete i l). rewrite app_nil_r, El. split; [done|]. by apply Forall2_delete.
  - intros Ho Hb. eapply elem_of_delete; [by apply Hd|exact Hp|]. intros <-. revert Hv. unfold value_of.
    destruct (Nat.ltb_spec (S (ts_changes s - 1)) (ts_changes s)); [lia|done].
Qed.

Lemma source_event_ok hist s i p res : tinv hist s -> ts_source s !! i = Some p -> value_of s p = Some res ->
  let x := with_source (source_method tr rhwm rsize) (revent_run rhwm rsize no_ops (EvSettled i res)) (set_ts_source (delete i (ts_source s)) s) in
  tinv hist x.2 /\ answered s x.
Proof.
  intros Ht Hp Hv. pose proof (ti_core _ _ Ht) as Hc. pose proof (c_readable _ _ _ _ _ _ Hc) as Hr.
  destruct (c_source _ _ _ _ _ _ Hc) as (l & El & Hl). rewrite app_nil_r in El.
  destruct (Forall2_lookup_r _ _ _ _ _ Hl Hp) as (k & Hk & _). rewrite <-El in Hk.
  pose proof (source_settled_core _ _ _ _ _ _ Hc Hp Hv Hk) as Hc0.
  set (r0 := set_rs_awaited (delete i (rs_awaited (ts_readable s))) (ts_readable s)) in *. set (s0 := set_ts_source _ _) in Hc0.
  destruct (event_good rhwm rsize no_ops Hsize (EvSettled i res) (ts_readable s) Hr) as [Hi Ho].
  destruct (consults_settled rhwm rsize no_ops no_ops_nil k res r0) as (new & Hco).
  assert (E : revent_run rhwm rsize no_ops (EvSettled i res) (ts_readable s) = ReadableStream.on_settled rhwm rsize no_ops k res r0).
  { cbn [revent_run]. rewrite gets_bind, Hk. by rewrite modify_bind. }
  rewrite E in Hi, Ho. destruct (ReadableStream.on_settled rhwm rsize no_ops k res r0) as [o r] eqn:E0. cbn in Hi, Ho, Hco.
  assert (Eq : with_source (source_method tr rhwm rsize) (revent_run rhwm rsize no_ops (EvSettled i res)) (set_ts_source (delete i (ts_source s)) s) =
    with_source (source_method tr rhwm rsize) (ReadableStream.on_settled rhwm rsize no_ops k res) s0).
  { rewrite (with_source_eq _ _ (set_ts_source (delete i (ts_source s)) s) o r new.*1 E (co_calls _ _ _ _ Hco)).
    by rewrite (with_source_eq _ _ s0 o r new.*1 E0 (co_calls _ _ _ _ Hco)). }
  cbv zeta. rewrite Eq. destruct (with_source_ok hist s0 _ o r false new Hc0 E0 Hi Hco) as (Hc' & [E1 E2 Es E3 E4 Ea] & Ha); [|done|].
  { intros Hs. destruct (co_closed _ _ _ _ Hco Hs) as [?|[?|[=]]]; auto. }
  split; [|exact Ha]. split; [done|by rewrite E2, E3; apply Ht|]. intros Hs Hal. pose proof (ti_order _ _ Ht (Es Hs) (Ea Hal)) as Hord.
  unfold writes in *. by rewrite E1, E3, E4.
Qed.

(** A change of the one job of the sink. *)
Lemma tinv_job hist s k p q : tinv hist s -> awaited (ts_writable s) = [k] -> ts_sink s = [p] -> sink_job k q ->
  (st_state (ts_writable s) = Writable -> ts_algorithms s = true ->
    match q with PBlocked _ chunk => ts_transformed s ++ [chunk] = writes s | _ => ts_transformed s = writes s end) ->
  tinv hist (set_ts_sink (<[0%nat := q]> (ts_sink s)) s).
Proof.
  intros [Hc _ _] Ha Hs Hq Ho. rewrite Hs. cbn [insert list_insert]. split; [destruct Hc; by split|cbn; rewrite Ha; by constructor|].
  intros Hw Hal. cbn in *. by apply Ho.
Qed.

(** The end of a write's wait. *)
Lemma unblocked_ok hist s i n chunk : tinv hist s -> ts_sink s !! i = Some (PBlocked n chunk) ->
  let x := (r ← attempt (on_backpressure_change tr rhwm rsize chunk);
            match r with inl p => settle_job i p | inr e => settle_job i (PSettled (Some e)) ;; raise e end) s in
  tinv hist x.2 /\ answered s x.
Proof.
  intros Ht Hp. destruct (job_one _ _ _ _ Ht Hp) as (-> & Es & k & Ek & Hk). destruct k; try done. pose proof (ti_core _ _ Ht) as Hc.
  assert (Hst : st_state (ts_writable s) = Writable \/ st_state (ts_writable s) = Erroring).
  { destruct (inv_awaits whwm hist _ _ Writing (c_writable _ _ _ _ _ _ Hc) Ek eq_refl) as [[? _]|[? _]]; auto. }
  cbv zeta. set (m := on_backpressure_change tr rhwm rsize chunk).
  destruct (decide (st_state (ts_writable s) = Erroring)) as [He|He].
  - assert (Em : m s = (inl (PSettled (Some (st_storedError (ts_writable s)))), s)).
    { unfold m, on_backpressure_change. rewrite get_bind. unfold state_is. by rewrite He. }
    rewrite (attempt_bind _ _ _ _ _ Em). split; [|by apply answered_ok, threw_same].
    apply (tinv_job hist s WaitWrite (PBlocked n chunk)); try done. congruence.
  - destruct Hst as [Hw|]; [|done].
    assert (Em : m s = TransformStreamDefaultControllerPerformTransform tr rhwm rsize chunk s).
    { unfold m, on_backpressure_change. rewrite get_bind. unfold state_is. by rewrite Hw. }
    destruct (perform_ok hist s chunk Hc) as [[Hal E]|(Hal & k' & s' & E & Hc' & F)].
    { intros Hal. pose proof (ti_order _ _ Ht Hw Hal) as Ho. rewrite Es in Ho. rewrite Ho. by exists []; rewrite app_nil_r. }
    + rewrite E in Em. rewrite (attempt_bind _ _ _ _ _ Em). unfold settle_job. rewrite update_bind.
      split; [|split; [by apply threw_same|by left]].
      apply (tinv_job hist s WaitWrite (PBlocked n chunk)); try done. congruence.
    + rewrite E in Em. rewrite (attempt_bind _ _ _ _ _ Em).
      pose proof (ti_order _ _ Ht Hw Hal) as Ho. rewrite Es in Ho. destruct F as [[E1 E2 _ E3 E4 _] _ _ Hth]. cbn in E1, E2, E3, E4.
      split; [|by apply answered_ok].
      change (tinv hist (set_ts_sink (<[0%nat := PTransform k']> (ts_sink s')) s')). rewrite E3, Es. cbn [insert list_insert].
      split; [destruct Hc'; by split|cbn; rewrite E2, Ek; by constructor|]. intros _ _. unfold writes in *. cbn. by rewrite E1, E4.
Qed.

Lemma transformed_ok hist s i known res : tinv hist s -> ts_sink s !! i = Some (PTransform known) ->
  let x := match res with
           | None => settle_job i (PSettled None)
           | Some e => TransformStreamError e ;; settle_job i (PSettled (Some e))
           end s in
  tinv hist x.2 /\ answered s x.
Proof.
  intros Ht Hp. destruct (job_one _ _ _ _ Ht Hp) as (-> & Es & k & Ek & Hk). destruct k; try done. pose proof (ti_core _ _ Ht) as Hc.
  cbv zeta. destruct res as [e|].
  - destruct (transform_error_ok hist [] [] s e Hc) as (s' & E & Hc' & F & Ha). rewrite (tm_bind_inl _ _ _ _ _ E).
    split; [|apply answered_ok; apply F]. pose proof (tinv_frame _ _ _ Ht Hc' F) as Ht'. destruct F as [[_ E2 _ E3 _ _] _ _ _].
    apply (tinv_job hist s' WaitWrite (PTransform known)); try done; [by rewrite E2|by rewrite E3|congruence].
  - split; [|by apply answered_ok, threw_same]. apply (tinv_job hist s WaitWrite (PTransform known)); try done.
    intros Hw Hal. pose proof (ti_order _ _ Ht Hw Hal) as Ho. by rewrite Es in Ho.
Qed.

Lemma finished_ok hist s k res : tinv hist s -> ts_finishing s = Some k ->
  let x := (update (set_ts_finishing None) ;; on_finished k res) s in tinv hist x.2 /\ answered s x.
Proof.
  intros Ht Hk. pose proof (ti_core _ _ Ht) as Hc. pose proof (c_finishing _ _ _ _ _ _ Hc ltac:(by rewrite Hk)) as Ha.
  cbv zeta. rewrite update_bind. set (s1 := set_ts_finishing None s).
  assert (Hc1 : core hist [] [] s1) by (apply (core_rest _ _ _ _ _ s); try done; [by left|by intros [? [=]]]).
  destruct (on_finished_ok hist s1 k res Hc1 Ha) as (s' & E & Hc' & F).
  { intros ->. by apply (c_close _ _ _ _ _ _ Hc). }
  { intros r ->. by apply (c_cancel _ _ _ _ _ _ Hc r). }
  rewrite E. split; [|apply answered_ok; apply F]. apply (tinv_frame _ s1); [|done|done]. destruct Ht; by split.
Qed.

(** Every event keeps the invariant, and trips over nothing it is not
    excused for. *)
Lemma tevent_ok hist s e : tinv hist s -> (plain = true -> forall op, e <> TController op) ->
  let x := tevent_run tr whwm rhwm wsize rsize e s in tinv (hist ++ taccepted e s) x.2 /\ answered s x.
Proof.
  intros Ht Hp. unfold tevent_run. cbv zeta. rewrite get_bind. cbn [id]. unfold taccepted.
  destruct e as [e|e|op|res|i|i|i|i res|res]; rewrite ?app_nil_r.
  - destruct (writer_call e) eqn:E; [by apply writer_event_ok|]. rewrite app_nil_r. by apply tinv_same.
  - destruct (reader_call e) eqn:E; [by apply reader_event_ok|by apply tinv_same].
  - assert (Hpl : plain = false) by (clear - Hp; destruct plain; [by destruct (Hp eq_refl op)|done]).
    destruct (controller_call_ok hist [] [] s op (ti_core _ _ Ht)) as (x & s' & E & Hc' & F); [by rewrite Hpl|].
    rewrite (tm_bind_inl _ _ _ _ _ E). split; [by eapply tinv_frame|]. apply answered_ok, F.
  - destruct (_ && _); [|by apply tinv_same]. split; [|by apply answered_ok, threw_same]. destruct Ht as [[] ? ?]. by split.
  - destruct (ts_sink s !! i) as [p|] eqn:Ep; cbn; [|by apply tinv_same]. destruct (value_of s p) as [res|] eqn:Ev; [|by apply tinv_same].
    rewrite update_bind. by eapply sink_event_ok.
  - destruct (ts_source s !! i) as [p|] eqn:Ep; cbn; [|by apply tinv_same]. destruct (value_of s p) as [res|] eqn:Ev; [|by apply tinv_same].
    rewrite update_bind. by eapply source_event_ok.
  - destruct (ts_sink s !! i) as [[| n chunk| | | | |]|] eqn:Ep; try by apply tinv_same.
    destruct (_ <? _)%nat; [|by apply tinv_same]. by apply (unblocked_ok _ _ _ n).
  - destruct (ts_sink s !! i) as [[| | known| | | |]|] eqn:Ep; try by apply tinv_same.
    destruct (bool_decide _); [|by apply tinv_same]. by apply (transformed_ok _ _ _ known).
  - destruct (ts_finishing s) as [k|] eqn:Ek; [|by apply tinv_same]. destruct (match k with FinishClose => _ | _ => _ end); [|by apply tinv_same].
    by apply finished_ok.
Qed.

(** The chunks accepted along a run. *)
Fixpoint taccepted_run (es : list tevent) (s : tstream) : list Z :=
  match es with
  | [] => []
  | e :: es => taccepted e s ++ taccepted_run es (tevent_run tr whwm rhwm wsize rsize e s).2
  end.

Lemma tstream_run_inv es : forall hist s, tinv hist s -> (plain = true -> forall op, TController op ∉ es) ->
  tinv (hist ++ taccepted_run es s) (tstream_run tr whwm rhwm wsize rsize es s).
Proof.
  induction es as [|e es IH]; intros hist s Ht Hp; cbn; [by rewrite app_nil_r|]. rewrite app_assoc. apply IH.
  - apply tevent_ok; [done|]. intros Hpl op ->. destruct (Hp Hpl op). apply elem_of_cons. by left.
  - intros Hpl op Hin. destruct (Hp Hpl op). apply elem_of_cons. by right.
Qed.
End Operations.
