(* ===== verification/TransformStreamProps.v ===== *)
(** * What the transform stream promises

    Safety of every schedule, with the two situations in which the code
    trips over itself; the order in which the transformer sees the writes;
    and for the identity transformer, that the readable side delivers what
    the writable side accepted.  The runs at the end show what happens in
    those situations. *)

From S2P Require Import Prelude StreamBase ReadableStream ReadableStreamInv WritableStream WritableStreamInv WritableStreamProps StreamCalls TransformStream TransformStreamInv.
Open Scope Z_scope.

Section Props.
Variables (tr : transformer) (whwm rhwm : jsnum) (wsize : Z -> jsnum + reason) (rsize : Z -> outcome jsnum).
Hypothesis Hsize : forall chunk c msg, rsize chunk = Throw c msg -> is_defect c msg = false.

Abbreviation new := (new_tstream tr whwm rhwm rsize).
Abbreviation run es := (tstream_run tr whwm rhwm wsize rsize es new).
Abbreviation accepted es := (taccepted_run tr whwm rhwm wsize rsize es new).

(** The state in which [start] runs. *)
Definition constructed : tstream :=
  TStream (WritableStream.new_stream whwm) ReadableStream.new_stream (Some true) 1 true None None None [PStart] [PStart] [] [].

Lemma start_writable : SetUpWritableStreamDefaultController whwm InitializeWritableStream = (Ok tt, WritableStream.new_stream whwm) /\
  sink_calls (WritableStream.new_stream whwm) = [SinkStart] /\ awaited (WritableStream.new_stream whwm) = [WaitStart].
Proof. cbv -[num_nonpos num_sub]. by destruct (num_nonpos (num_sub whwm 0)). Qed.

Lemma set_up_eq : set_up tr whwm rhwm rsize blank_tstream = run_method rhwm rsize (tr_start tr) constructed.
Proof.
  destruct start_writable as (Ew & Ec & _). unfold set_up.
  set (s1 := set_ts_sink [PStart] (set_ts_writable (WritableStream.new_stream whwm) blank_tstream)).
  set (s2 := set_ts_source [PStart] (set_ts_readable ReadableStream.new_stream s1)).
  rewrite (tm_bind_inl _ _ _ tt s1) by (by rewrite (with_sink_eq _ _ blank_tstream _ _ [SinkStart] Ew Ec)).
  rewrite (tm_bind_inl _ _ _ tt s2) by (by rewrite (with_source_eq _ _ s1 (Ok tt) ReadableStream.new_stream [SourceStart])).
  unfold TransformStreamSetBackpressure. rewrite (tm_bind_inl _ _ s2 tt (set_ts_change (Some true) 1 s2)); [|by rewrite get_bind, check_bind].
  by rewrite update_bind.
Qed.

Lemma constructed_inv plain : tinv whwm plain [] constructed.
Proof.
  destruct start_writable as (_ & Hc & Ha). split.
  - split; unfold writes; cbn [ts_writable ts_readable ts_source ts_transformed ts_finishing ts_backpressure ts_changes constructed]; rewrite ?Hc; try done.
    + apply new_stream_ok.
    + apply new_stream_inv.
    + exists [ReadableStream.WaitStart]. split; [done|]. by repeat constructor.
    + split; [done|lia].
    + by intros _ [?|?].
  - cbn. rewrite Ha. by repeat constructor.
  - intros _ _. unfold writes. cbn. by rewrite Hc.
Qed.

Lemma new_inv plain : (plain = true -> tr = identity_transformer) -> tinv whwm plain [] new.
Proof.
  intros Hp. unfold new_tstream. rewrite set_up_eq.
  destruct (run_method_ok tr whwm rhwm rsize plain Hsize Hp [] [] constructed (tr_start tr) (ti_core _ _ _ _ (constructed_inv plain))) as (s & -> & Hc & F).
  { intros Hpl. by rewrite (Hp Hpl). }
  by eapply tinv_frame; [apply constructed_inv|..].
Qed.

Lemma sides_reached es plain : (plain = true -> tr = identity_transformer /\ forall op, TController op ∉ es) ->
  tinv whwm plain (accepted es) (run es).
Proof.
  intros Hp. apply (tstream_run_inv tr whwm rhwm wsize rsize plain Hsize (fun H => proj1 (Hp H)) es []);
    [apply new_inv; intros Hpl; by apply Hp|intros Hpl; by apply Hp].
Qed.

(** C38: Whatever the transformer does and in whatever order the event loop
    runs the two sides of a transform stream, no assertion fails and no
    cleared algorithm is called, neither in an event nor in a call of the
    controller, except when the algorithms have been cleared, or when a pull
    is owed again while the handler of the one before has not run. *)
Theorem transform_stream_safe es e : let s := run es in let x := tevent_run tr whwm rhwm wsize rsize e s in
  (exists thrown, ts_thrown x.2 = ts_thrown s ++ thrown /\ Forall (fun r => defect r -> excused x.2) thrown) /\
  match x.1 with inl _ => True | inr r => defect r -> excused x.2 end.
Proof.
  cbv zeta. by destruct (tevent_ok tr whwm rhwm wsize rsize false Hsize ltac:(done) _ _ e (sides_reached es false ltac:(done)) ltac:(done)) as [_ ?].
Qed.

(** What was written, given to the transformer, and not yet. *)
Lemma writes_prefix plain hist s : tinv whwm plain hist s -> ts_transformed s `prefix_of` writes s /\ writes s `prefix_of` hist /\
  (SinkClose ∈ sink_calls (ts_writable s) -> writes s = hist).
Proof.
  intros Ht. pose proof (ti_core _ _ _ _ Ht) as Hc. split; [apply Hc|].
  destruct (inv_given whwm _ _ (c_writable _ _ _ _ _ _ Hc)) as (v & tl & Ev & Hp & _ & Htl).
  assert (Ew : writes s = v).
  { unfold writes. rewrite Ev. cbn. rewrite omap_app.
    assert (omap write_of tl = []) as -> by (destruct Htl as [->|[[-> _]|[? ->]]]; done).
    rewrite app_nil_r. clear. induction v as [|x v IH]; [done|]. cbn. by rewrite IH. }
  rewrite Ew. split; [done|]. intros Hin. rewrite Ev in Hin. destruct Htl as [->|[[-> ->]|[r ->]]]; [|done|]; exfalso.
  - rewrite app_nil_r in Hin. by apply (starts_open v).
  - change (SinkStart :: ?l ++ ?m) with ((SinkStart :: l) ++ m) in Hin. apply elem_of_app in Hin as [Hin|Hin]; [by apply (starts_open v)|].
    by apply list_elem_of_singleton in Hin.
Qed.

(** C39: The transformer is given the accepted chunks in the order of the
    writes.  While the writable side is writable and the algorithms are
    there, all that the sink was given has been transformed, except the one
    chunk that waits for the readable side to want more; and the transformer
    is flushed only when it has been given every accepted chunk. *)
Theorem transform_in_order es : let s := run es in
  ts_transformed s `prefix_of` accepted es /\
  (st_state (ts_writable s) = Writable -> ts_algorithms s = true -> exists waiting,
    ts_transformed s ++ waiting = writes s /\ (waiting = [] \/ exists n chunk, waiting = [chunk] /\ ts_sink s = [PBlocked n chunk])) /\
  (ts_finishing s = Some FinishClose -> ts_transformed s = accepted es).
Proof.
  cbv zeta. pose proof (sides_reached es false ltac:(done)) as Ht. destruct (writes_prefix _ _ _ Ht) as (H1 & H2 & H3).
  split; [by etrans|]. split.
  - intros Hw Ha. pose proof (ti_order _ _ _ _ Ht Hw Ha) as Ho.
    destruct (ts_sink (run es)) as [|[| n chunk| | | | |] [|]]; try (exists []; rewrite app_nil_r; by auto).
    exists [chunk]. split; [done|]. right. eauto.
  - intros Hf. destruct (c_close _ _ _ _ _ _ (ti_core _ _ _ _ Ht) Hf) as [-> Hin]. by apply H3.
Qed.
End Props.

(* ------------------------------------------------------------------ *)
(** ** The identity transformer *)

(** C37: Through a transform stream with no transformer, whatever the two
    strategies, the order of events and the readers and writers, the chunks
    delivered, then those queued, are the first of the chunks the writable
    side accepted, in that order.  When the readable side has closed and
    nobody cancelled it, all of them have been delivered. *)
Theorem identity_transform_intact whwm rhwm wsize rsize es :
  (forall chunk c msg, rsize chunk = Throw c msg -> is_defect c msg = false) -> (forall op, TController op ∉ es) ->
  let s0 := new_tstream identity_transformer whwm rhwm rsize in
  let s := tstream_run identity_transformer whwm rhwm wsize rsize es s0 in
  let accepted := taccepted_run identity_transformer whwm rhwm wsize rsize es s0 in
  (delivered (rs_reads (ts_readable s)) ++ (rc_queue (ts_readable s)).*1) `prefix_of` accepted /\
  (rs_state (ts_readable s) = ReadableStream.Closed -> (forall r, SourceCancel r ∉ rs_calls (ts_readable s)) ->
    delivered (rs_reads (ts_readable s)) = accepted).
Proof.
  intros Hsize Hes. cbv zeta.
  pose proof (sides_reached identity_transformer whwm rhwm wsize rsize Hsize es true ltac:(done)) as Ht.
  set (s := tstream_run _ _ _ _ _ _ _) in *. set (hist := taccepted_run _ _ _ _ _ _ _) in *.
  destruct (writes_prefix _ _ _ _ Ht) as (H1 & H2 & H3). pose proof (ti_core _ _ _ _ Ht) as Hc.
  destruct (c_readable _ _ _ _ _ _ Hc) as [[_ _ (lost & Hacc & Hlo) Hf] _]. cbn in Hacc.
  destruct (c_passed _ _ _ _ _ _ Hc eq_refl) as [Hp _]. split.
  - etrans; [|etrans; [exact Hp|etrans; [exact H1|exact H2]]]. rewrite <-Hacc. exists lost. by rewrite app_assoc.
  - intros Hs Hn. assert (Hk : existsb is_cancel (rs_calls (ts_readable s)) = false).
    { apply not_true_is_false. intros (c & Hin%list_elem_of_In & Hk)%existsb_exists. destruct c as [| |r]; try done. by destruct (Hn r). }
    destruct (c_end _ _ _ _ _ _ Hc eq_refl (or_introl Hs)) as [Hk'|[Ha Hin]]; [congruence|].
    assert (lost = []) as ->.
    { destruct lost; [done|]. destruct (Hlo ltac:(done)) as [_ [?|?]]; congruence. }
    rewrite (fl_ended _ Hf) in Hacc by congruence. cbn in Hacc. rewrite app_nil_r in Hacc.
    by rewrite Hacc, Ha, (H3 Hin).
Qed.

(* ------------------------------------------------------------------ *)
(** ** Runs *)

Definition one_each (chunk : Z) : jsnum + reason := inl (Fin 1).
Definition one_unit (chunk : Z) : outcome jsnum := Ok (Fin 1).

Lemma one_unit_ok chunk c msg : one_unit chunk = Throw c msg -> is_defect c msg = false.
Proof. done. Qed.

(** The default strategies: high water marks 1 and 0. *)
Definition new_default (tr : transformer) : tstream := new_tstream tr (Fin 1) (Fin 0) one_unit.
Definition step_default (tr : transformer) (e : tevent) (s : tstream) : (unit + reason) * tstream :=
  tevent_run tr (Fin 1) (Fin 0) one_each one_unit e s.
Definition run_default (tr : transformer) (es : list tevent) : tstream :=
  tstream_run tr (Fin 1) (Fin 0) one_each one_unit es (new_default tr).

(** A writer, a reader, and both sides started. *)
Definition both_started : list tevent := [TWriter EvGetWriter; TReader EvGetReader; TStart None; TSink 0; TSource 0].

(** Two chunks and the end, to a reader that reads three times. *)
Definition pass_two : list tevent := both_started ++
  [TReader (EvRead 0); TWriter (EvWrite 0 7); TWriter (EvWrite 0 8); TTransformed 0 None; TWriter (EvWriterClose 0); TSink 0; TSource 0;
   TReader (EvRead 0); TUnblocked 0; TTransformed 0 None; TSink 0; TReader (EvRead 0); TFinished None; TSink 0].

Example two_passed : let s := run_default identity_transformer pass_two in
  rs_reads (ts_readable s) = [ReadChunk 7; ReadChunk 8; ReadDone] /\ st_state (ts_writable s) = Closed /\ ts_transformed s = [7; 8].
Proof. by vm_compute. Qed.

Lemma no_controller_call es : forallb (fun e => match e with TController _ => false | _ => true end) es = true -> forall op, TController op ∉ es.
Proof. intros H op Hin. rewrite forallb_forall in H. by specialize (H _ (proj1 (list_elem_of_In _ _) Hin)). Qed.

Lemma identity_transform_intact_witness : let s := run_default identity_transformer pass_two in
  delivered (rs_reads (ts_readable s)) = [7; 8].
Proof.
  cbv zeta. unfold run_default, new_default.
  destruct (identity_transform_intact (Fin 1) (Fin 0) one_each one_unit pass_two one_unit_ok (no_controller_call pass_two eq_refl)) as [_ H].
  rewrite H; [by vm_compute|by vm_compute|]. intros r Hin. vm_compute in Hin. by repeat (apply elem_of_cons in Hin as [?|Hin]; [done|]); apply elem_of_nil in Hin.
Defined.

(** A transformer that passes on every chunk twice. *)
Definition doubler : transformer := Transformer None (Some (fun _ chunk => [OpEnqueue chunk; OpEnqueue chunk])) None None.

Lemma transform_in_order_witness : let s := run_default doubler (take 8 pass_two) in
  ts_transformed s `prefix_of` [7; 8] /\ rs_accepted (ts_readable s) = [7; 7].
Proof.
  split; [|by vm_compute]. destruct (transform_in_order doubler (Fin 1) (Fin 0) one_each one_unit one_unit_ok (take 8 pass_two)) as [H _]. exact H.
Defined.

(** A transformer whose methods leave the controller alone, which others
    hold. *)
Definition outside : transformer := Transformer None (Some (fun _ _ => [])) None None.

Lemma transform_stream_safe_witness : let s := run_default outside both_started in let x := step_default outside (TReader (EvRead 0)) s in
  match x.1 with inl _ => True | inr r => defect r -> excused x.2 end.
Proof.
  cbv zeta. unfold run_default, step_default, new_default.
  by destruct (transform_stream_safe outside (Fin 1) (Fin 0) one_each one_unit one_unit_ok both_started (TReader (EvRead 0))) as [_ H].
Defined.

(** The assertion of [enqueue]: chunk 1 answers a read and the pull; two
    more reads come before the handler of that pull has run, so that it is
    owed again when chunk 2 comes. *)
Example enqueue_trips : let s := run_default outside (both_started ++
    [TReader (EvRead 0); TController (OpEnqueue 1); TReader (EvRead 0); TReader (EvRead 0); TController (OpEnqueue 2)]) in
  ts_thrown s = [ErrorObj ErrAssertionError "Assertion failed"] /\ ts_algorithms s = true /\
  rs_reads (ts_readable s) = [ReadChunk 1; ReadChunk 2; ReadPending].
Proof. by vm_compute. Qed.

(** [terminate] clears the algorithms; a reader that cancels before it has
    read what is queued calls one of them: [cancel] throws, the chunk is
    gone. *)
Example cancel_after_terminate : let s := run_default outside (both_started ++ [TController (OpEnqueue 1); TController OpTerminate]) in
  let x := step_default outside (TReader (EvReaderCancel 0 (User 3))) s in
  (rc_queue (ts_readable s)).*1 = [1] /\ x.1 = inr (ErrorObj ErrTypeError "not a function") /\ rc_queue (ts_readable x.2) = [].
Proof. by vm_compute. Qed.

(** While a cancellation is answered the writable side still takes writes:
    [write] throws, and the stream never finishes erroring, so that an abort
    waits for ever. *)
Example write_during_cancel : let s := run_default outside (both_started ++ [TReader (EvRead 0); TReader (EvReaderCancel 0 (User 3))]) in
  let x := step_default outside (TWriter (EvWrite 0 5)) s in
  let s' := tstream_run outside (Fin 1) (Fin 0) one_each one_unit [TFinished None; TSource 0; TSource 0; TWriter (EvWriterAbort 0 (User 9) [])] x.2 in
  x.1 = inr (ErrorObj ErrTypeError "not a function") /\ st_state (ts_writable s') = Erroring /\
  ts_sink s' = [PNever] /\ last (promises (ts_writable s')) = Some Pending.
Proof. by vm_compute. Qed.

(** An abort during a write, then an error of the transformer: when the
    write ends, [abortAlgorithm] calls a method that was cleared, and the
    abort is never answered. *)
Example abort_after_error : let s := run_default outside (both_started ++
    [TReader (EvRead 0); TWriter (EvWrite 0 5); TWriter (EvWriterAbort 0 (User 9) []); TController (OpError (User 4)); TTransformed 0 None]) in
  let x := step_default outside (TSink 0) s in
  x.1 = inr (ErrorObj ErrTypeError "not a function") /\ ts_sink x.2 = [PNever] /\ last (promises (ts_writable x.2)) = Some Pending.
Proof. by vm_compute. Qed.

(** A chunk whose transformation fails errors the readable side; the
    writable side meets the [ReferenceError] of a failed write and stays
    erroring, its writer's [closed] pending. *)
Example failed_transform : let s := run_default outside (both_started ++ [TReader (EvRead 0); TWriter (EvWrite 0 5); TTransformed 0 (Some (User 4))]) in
  let x := step_default outside (TSink 0) s in
  rs_reads (ts_readable x.2) = [ReadError (User 4)] /\ x.1 = inr (ErrorObj ErrReferenceError "error is not defined") /\
  st_state (ts_writable x.2) = Erroring /\ ts_sink x.2 = [] /\
  w_closed <$> writers (ts_writable x.2) !! 0%nat = Some (WP 1 WpPending true).
Proof. by vm_compute. Qed.
