(* ===== verification/StreamAdapter.v ===== *)
(** * [StreamAdapter] of [lib/lws/protocols.js]

    The adapter that turns a web socket or a raw connection into a pair of
    streams: [session] makes them, and the callbacks of a [wsi] find theirs
    by [#session] ([Handoff]).  What is read comes from the callbacks
    ([FedStream]); what is written goes out one chunk at a time, each when
    the connection asks for it.  [WebSocketStream], [TCPSocketStream] and
    [UDPSocketStream] are this adapter under the roles [WsProtocol],
    [WsClientProtocol] and [RawProtocol], whose callbacks are the events
    here; nothing sets [#pending] of [WsClientProtocol], so that its
    handlers only pass on what they are given.

    A message is opaque to the code, as are the chunks of the streams: both
    are numbers.  The methods of a [wsi] are native: [write] takes what it is
    given, and once the native side has freed a connection [wantWrite] and
    [write] throw and [close] does nothing. *)

From S2P Require Import Prelude JsString StreamBase ReadableStream WritableStream StreamCalls FedStream Handoff.
Open Scope Z_scope.

(* ------------------------------------------------------------------ *)
(** ** Sessions *)

(** Which method closes the connection. *)
Inductive closer := ByCancel | ByClose | ByAbort (r : reason).

(** The calls of the [wsi]. *)
Inductive wcall := WantWrite | Write (chunk : Z) | CloseWsi (c : closer).

(** The promise of a method of the sink: [wantWrite] has been called for a
    chunk, its callback has come and [write] is next, or it is settled. *)
Inductive sink_promise := SinkWaits (chunk : Z) | SinkReady (chunk : Z) | SinkDone (res : option reason).

(** [{ box, readable, writable, resolveOpened, rejectOpened, resolveClosed }],
    the promises by what they are settled with.  [ss_freed]: the native
    connection is gone.  [ss_sink] goes with [awaited], position by position.
    [ss_calls] is history. *)
Record socket_session (X I : Type) := SSession {
  ss_wsi : option nat; ss_readable : rstream; ss_writable : wstream;
  ss_opened : option (X + reason); ss_closed : option I;
  ss_freed : bool; ss_sink : list sink_promise; ss_calls : list wcall;
}.
Arguments SSession {X I}.
Arguments ss_wsi {X I}.
Arguments ss_readable {X I}.
Arguments ss_writable {X I}.
Arguments ss_opened {X I}.
Arguments ss_closed {X I}.
Arguments ss_freed {X I}.
Arguments ss_sink {X I}.
Arguments ss_calls {X I}.

Section Session.
Context {X I : Type}.
(** The reason [wantWrite] and [write] throw when the connection is gone. *)
Variable (gone : reason).

Abbreviation session := (socket_session X I) (only parsing).
Abbreviation EM A := (SM (socket_session X I) A) (only parsing).

Definition set_ss_wsi v (s : session) : session := SSession v (ss_readable s) (ss_writable s) (ss_opened s) (ss_closed s) (ss_freed s) (ss_sink s) (ss_calls s).
Definition set_ss_readable v (s : session) : session := SSession (ss_wsi s) v (ss_writable s) (ss_opened s) (ss_closed s) (ss_freed s) (ss_sink s) (ss_calls s).
Definition set_ss_writable v (s : session) : session := SSession (ss_wsi s) (ss_readable s) v (ss_opened s) (ss_closed s) (ss_freed s) (ss_sink s) (ss_calls s).
Definition set_ss_opened v (s : session) : session := SSession (ss_wsi s) (ss_readable s) (ss_writable s) v (ss_closed s) (ss_freed s) (ss_sink s) (ss_calls s).
Definition set_ss_closed v (s : session) : session := SSession (ss_wsi s) (ss_readable s) (ss_writable s) (ss_opened s) v (ss_freed s) (ss_sink s) (ss_calls s).
Definition set_ss_freed v (s : session) : session := SSession (ss_wsi s) (ss_readable s) (ss_writable s) (ss_opened s) (ss_closed s) v (ss_sink s) (ss_calls s).
Definition set_ss_sink v (s : session) : session := SSession (ss_wsi s) (ss_readable s) (ss_writable s) (ss_opened s) (ss_closed s) (ss_freed s) v (ss_calls s).
Definition set_ss_calls v (s : session) : session := SSession (ss_wsi s) (ss_readable s) (ss_writable s) (ss_opened s) (ss_closed s) (ss_freed s) (ss_sink s) v.

Definition record (c : wcall) (s : session) : session := set_ss_calls (ss_calls s ++ [c]) s.
Definition answer (p : sink_promise) (s : session) : session := set_ss_sink (ss_sink s ++ [p]) s.

Definition no_wsi : reason := ErrorObj ErrTypeError "cannot read property 'wantWrite' of undefined".

(** [wsi.wantWrite] in [waitWrite], and [box.wsi && safeClose(box.wsi, ...)]. *)
Definition waitWrite (chunk : Z) (s : session) : session :=
  match ss_wsi s with
  | None => answer (SinkDone (Some no_wsi)) s
  | Some _ => if ss_freed s then answer (SinkDone (Some gone)) s else answer (SinkWaits chunk) (record WantWrite s)
  end.
Definition safeClose (c : closer) (s : session) : session :=
  match ss_wsi s with Some _ => if ss_freed s then s else record (CloseWsi c) s | None => s end.

(** The methods of the sink and of the source.  The sink has no [start]. *)
Definition sink_method (s : session) (c : sink_call) : session :=
  match c with
  | SinkStart => answer (SinkDone None) s
  | SinkWrite chunk => waitWrite chunk s
  | SinkClose => answer (SinkDone None) (safeClose ByClose s)
  | SinkAbort r => answer (SinkDone None) (safeClose (ByAbort r) s)
  end.
Definition source_method (s : session) (c : source_call) : session :=
  match c with SourceCancel _ => safeClose ByCancel s | _ => s end.

(** An operation of one of the streams, and the methods it calls.  They
    touch nothing of that stream; a native [close] that runs [onClosed] at
    once reaches the other stream only. *)
Definition writable_event (e : event) : EM unit := fun s =>
  let '(o, w) := run_event (Fin 1) (fun _ => inl (Fin 1)) e (ss_writable s) in
  (o, foldl sink_method (set_ss_writable w s) (drop (length (sink_calls (ss_writable s))) (sink_calls w))).
Definition readable_event (e : revent) : EM unit := fun s =>
  let '(o, r) := revent_run (Fin 1) unit_size no_pull e (ss_readable s) in
  (o, foldl source_method (set_ss_readable r s) (drop (length (rs_calls (ss_readable s))) (rs_calls r))).

Definition blank_session (wsi : option nat) (opened : option (X + reason)) : session :=
  SSession wsi ReadableStream.new_stream (WritableStream.new_stream (Fin 1)) opened None false [] [].

(** What [session] makes, [opened] of an accepted connection being resolved
    at once. *)
Definition new_session (wsi : option nat) (opened : option (X + reason)) : session :=
  foldl sink_method (blank_session wsi opened) (sink_calls (WritableStream.new_stream (Fin 1))).

(** The resolving functions act once. *)
Definition resolveOpened (v : X) : EM unit := modify (fun s => match ss_opened s with None => set_ss_opened (Some (inl v)) s | Some _ => s end).
Definition rejectOpened (e : reason) : EM unit := modify (fun s => match ss_opened s with None => set_ss_opened (Some (inr e)) s | Some _ => s end).
Definition resolveClosed (v : I) : EM unit := modify (fun s => match ss_closed s with None => set_ss_closed (Some v) s | Some _ => s end).

(** What the callbacks do to the session they find. *)
Definition message_session (data : Z) : EM unit := readable_event (EvController (CtlEnqueue data)).
Definition close_session (info : I) : EM unit :=
  try (readable_event (EvController CtlClose)) (fun _ => mret tt) ;; resolveClosed info.
Definition error_session (err : reason) : EM unit :=
  try (readable_event (EvController (CtlError err))) (fun _ => mret tt) ;; rejectOpened err.

(* ------------------------------------------------------------------ *)
(** ** What happens to a session between callbacks *)

(** A call of the program on one of the streams, the handlers of the promise
    of the source or of the sink, the callback of [wantWrite], the rest of
    [write] after its [await], the end of the native connection. *)
Inductive use :=
| UReader (e : revent) | UWriter (e : event) | UReact (i : nat) | USink (i : nat) | UWriteable (i : nat) | UResume (i : nat) | UFreed.

(** The program has the streams from [opened]. *)
Definition handed (s : session) : bool :=
  match ss_wsi s, ss_opened s with Some _, Some (inl _) => true | _, _ => false end.

Definition use_run (u : use) : EM unit :=
  s ← gets id;
  match u with
  | UReader e => if handed s && reader_call e then readable_event e else mret tt
  | UWriter e => if handed s && writer_call e then writable_event e else mret tt
  | UReact i => readable_event (EvSettled i None)
  | USink i =>
    match ss_sink s !! i with
    | Some (SinkDone res) => modify (set_ss_sink (delete i (ss_sink s))) ;; writable_event (EvSettle i res)
    | _ => mret tt
    end
  | UWriteable i =>
    match ss_sink s !! i with
    | Some (SinkWaits chunk) => if ss_freed s then mret tt else modify (set_ss_sink (<[i := SinkReady chunk]> (ss_sink s)))
    | _ => mret tt
    end
  | UResume i =>
    match ss_sink s !! i with
    | Some (SinkReady chunk) =>
      if ss_freed s then modify (set_ss_sink (<[i := SinkDone (Some gone)]> (ss_sink s)))
      else modify (record (Write chunk)) ;; modify (set_ss_sink (<[i := SinkDone None]> (ss_sink s)))
    | _ => mret tt
    end
  | UFreed => modify (set_ss_freed true)
  end.
End Session.

(* ------------------------------------------------------------------ *)
(** ** The adapter and its roles *)

Section Adapter.
Context {X I : Type}.
(** [extra] and [closeInfo], and what a freed connection throws. *)
Variables (extra : nat -> X) (closeInfo : nat -> option Z -> option jsstr -> I) (gone : reason).

(** [#pending] with [#sessions], the sessions, and what [WsCloseTracker] of
    the role remembers. *)
Record adapter := Adapter { ad_handoff : handoff; ad_arena : list (socket_session X I); ad_closing : gmap nat (Z * jsstr) }.

Definition new_StreamAdapter : adapter := Adapter no_sessions [] ∅.

Abbreviation AM A := (SM adapter A) (only parsing).

Definition set_handoff v (h : adapter) : adapter := Adapter v (ad_arena h) (ad_closing h).
Definition set_arena v (h : adapter) : adapter := Adapter (ad_handoff h) v (ad_closing h).
Definition set_closing v (h : adapter) : adapter := Adapter (ad_handoff h) (ad_arena h) v.

Definition on_session (i : nat) (m : SM (socket_session X I) unit) : AM unit := fun h =>
  match ad_arena h !! i with
  | Some s => let '(o, s') := m s in (o, set_arena (<[i := s']> (ad_arena h)) h)
  | None => (Ok tt, h)
  end.

(** [session(wsi)] *)
Definition session (wsi : option nat) : AM unit :=
  i ← gets (fun h => length (ad_arena h));
  match wsi with
  | Some w =>
    modify (fun h => set_arena (ad_arena h ++ [new_session gone (Some w) (Some (inl (extra w)))]) h) ;;
    modify (fun h => set_handoff (bind_wsi w i (ad_handoff h)) h)
  | None =>
    modify (fun h => set_arena (ad_arena h ++ [new_session gone None None]) h) ;;
    modify (fun h => set_handoff (offer i (ad_handoff h)) h)
  end.

(** [#session(wsi)]; a session that was pending gets its [wsi]. *)
Definition session_of (w : nat) : AM (option nat) :=
  h ← gets ad_handoff;
  let '(o, h') := claim w h in
  modify (set_handoff h') ;;
  match ho_sessions h !! w, o with
  | None, Some i => on_session i (modify (set_ss_wsi (Some w)))
  | _, _ => mret tt
  end ;;
  mret o.

Definition open (w : nat) : AM unit :=
  o ← session_of w;
  match o with Some i => on_session i (resolveOpened (extra w)) | None => mret tt end.

Definition message (w : nat) (data : Z) : AM unit :=
  o ← session_of w;
  match o with Some i => on_session i (message_session data) | None => mret tt end.

Definition delete_session (w : nat) : AM unit := modify (fun h => set_handoff (forget w (ad_handoff h)) h).

Definition close (w : nat) (code : option Z) (why : option jsstr) : AM unit :=
  o ← session_of w;
  delete_session w ;;
  match o with Some i => on_session i (close_session (closeInfo w code why)) | None => mret tt end.

Definition error (w : nat) (msg : string) : AM unit :=
  o ← session_of w;
  delete_session w ;;
  match o with Some i => on_session i (error_session (ErrorObj ErrError msg)) | None => mret tt end.

(** [peerClose] and [take] of [WsCloseTracker]. *)
Definition peerClose (w : nat) (code : Z) (why : jsstr) : AM unit :=
  modify (fun h => set_closing (<[w := (code, why)]> (ad_closing h)) h).
Definition take_closing (w : nat) : AM (option (Z * jsstr)) :=
  m ← gets ad_closing;
  modify (set_closing (delete w m)) ;; mret (m !! w).

(** [onClosed] and [onClientClosed]. *)
Definition onClosed (w : nat) : AM unit :=
  info ← take_closing w;
  close w (fst <$> info) (snd <$> info).

(** A client makes a session and a connection, whose [wsi] the native side
    knows; a server makes a session for the [wsi] it has accepted.  Then the
    callbacks of the roles, the last for raw connections, and what happens to
    session [i]. *)
Inductive aevent :=
| AConnect (w : nat) | AAccept (w : nat) | AOpen (w : nat) | AMessage (w : nat) (data : Z)
| APeerClose (w : nat) (code : Z) (why : jsstr) | AClosed (w : nat) | AError (w : nat) (msg : string) | ARawClose (w : nat)
| AUse (i : nat) (u : use).

Definition aevent_run (e : aevent) : AM unit :=
  match e with
  | AConnect _ => session None
  | AAccept w => session (Some w)
  | AOpen w => open w
  | AMessage w data => message w data
  | APeerClose w code why => peerClose w code why
  | AClosed w => onClosed w
  | AError w msg => error w msg
  | ARawClose w => close w None None
  | AUse i u => on_session i (use_run gone u)
  end.

Definition adapter_run (es : list aevent) (h : adapter) : adapter := foldl (fun h e => (aevent_run e h).2) h es.
End Adapter.
Arguments adapter X I : clear implicits.

(* ------------------------------------------------------------------ *)
(** ** [ContextRefCounter] of [lib/lws/context.js] *)

(** [rc_scheduled] counts the microtasks that wait, [rc_destroyed] the calls
    of [destroy]; a key is a number. *)
Record refcounter := RefCounter { rc_count : Z; rc_serverMode : bool; rc_keys : gset nat; rc_scheduled : nat; rc_destroyed : nat }.

Definition new_ContextRefCounter : refcounter := RefCounter 0 false ∅ 0 0.

Definition ref_add (key : nat) (c : refcounter) : refcounter :=
  RefCounter (rc_count c + 1) (rc_serverMode c) ({[key]} ∪ rc_keys c) (rc_scheduled c) (rc_destroyed c).
Definition markServer (c : refcounter) : refcounter :=
  RefCounter (rc_count c) true (rc_keys c) (rc_scheduled c) (rc_destroyed c).
Definition ref_release (key : nat) (c : refcounter) : refcounter :=
  if bool_decide (key ∉ rc_keys c) then c else
  let count := rc_count c - 1 in
  RefCounter count (rc_serverMode c) (rc_keys c ∖ {[key]})
    (if (0 <? count) || rc_serverMode c then rc_scheduled c else S (rc_scheduled c)) (rc_destroyed c).
(** The microtask of a release. *)
Definition ref_microtask (c : refcounter) : refcounter :=
  match rc_scheduled c with
  | O => c
  | S n => RefCounter (rc_count c) (rc_serverMode c) (rc_keys c) n
      (if (rc_count c =? 0) && negb (rc_serverMode c) then S (rc_destroyed c) else rc_destroyed c)
  end.

Inductive ref_event := RefAdd (key : nat) | RefRelease (key : nat) | RefServer | RefMicrotask.
Definition ref_step (c : refcounter) (e : ref_event) : refcounter :=
  match e with RefAdd k => ref_add k c | RefRelease k => ref_release k c | RefServer => markServer c | RefMicrotask => ref_microtask c end.
Definition ref_run (es : list ref_event) : refcounter := foldl ref_step new_ContextRefCounter es.
