(* ===== verification/StreamAdapterProps.v ===== *)
(** * What the two streams of a connection promise

    For every session: what its reader gets is what its own connection sent
    and what its connection is given is what its writer wrote, in order, each
    chunk after the connection asked for it ([socket_streams_intact]).  The
    write side needs no order of callbacks; the read side follows
    [FedStream], and [trace] reads off by the ledger of [Handoff] what each
    session is told. *)

From S2P Require Import Prelude JsString StreamBase ReadableStream ReadableStreamInv WritableStream WritableStreamWriters WritableStreamInv WritableStreamCalls WritableStreamProps StreamCalls FedStream Handoff StreamAdapter.
Open Scope Z_scope.

Section Props.
Context {X I : Type} (extra : nat -> X) (closeInfo : nat -> option Z -> option jsstr -> I) (gone : reason).

Abbreviation session := (socket_session X I).

(* ------------------------------------------------------------------ *)
(** ** The write side of a session *)

(** The chunks the sink was given, and those that wait to be written. *)
Definition write_of (c : sink_call) : option Z := match c with SinkWrite chunk => Some chunk | _ => None end.
Definition owed_of (p : sink_promise) : option Z := match p with SinkWaits chunk | SinkReady chunk => Some chunk | SinkDone _ => None end.

Definition given_chunks (s : session) : list Z := omap write_of (sink_calls (ss_writable s)).
Definition owed (s : session) : list Z := omap owed_of (ss_sink s).

(** The chunks handed to the connection, and the calls that pace them. *)
Definition sent_of (c : wcall) : option Z := match c with Write chunk => Some chunk | _ => None end.
Definition paces (c : wcall) : bool := match c with CloseWsi _ => false | _ => true end.
Definition sent (s : session) : list Z := omap sent_of (ss_calls s).
Definition pacing (s : session) : list wcall := List.filter paces (ss_calls s).

(** Each chunk after the connection asked for it. *)
Definition paced (chunks : list Z) : list wcall := chunks ≫= (fun c => [WantWrite; Write c]).

(** A promise of the sink fits what the stream waits for. *)
Definition fits (k : wait) (p : sink_promise) : Prop := match k with WaitWrite => True | _ => owed_of p = None end.

Record winv (hist : list Z) (s : session) : Prop := {
  wv_stream : WritableStreamInv.Inv (Fin 1) hist (ss_writable s);
  wv_fits : Forall2 fits (awaited (ss_writable s)) (ss_sink s);
  wv_hist : ss_wsi s = None -> hist = [];
  wv_sent : sent s ++ owed s `prefix_of` given_chunks s;
  wv_all : ss_freed s = false -> sent s ++ owed s = given_chunks s;
  wv_paced : exists tl, pacing s = paced (sent s) ++ tl /\ (tl = [] \/ tl = [WantWrite]) /\
    (ss_freed s = false -> tl = match owed s with [] => [] | _ => [WantWrite] end);
  wv_closed : CloseWsi ByClose ∈ ss_calls s -> SinkClose ∈ sink_calls (ss_writable s) /\ sent s = hist;
}.

(** The end of a stream's calls. *)
Lemma given_shape hist s : winv hist s -> exists w tl, given_chunks s = w /\ w `prefix_of` hist /\
  sink_calls (ss_writable s) = SinkStart :: (SinkWrite <$> w) ++ tl /\
  (tl = [] \/ (tl = [SinkClose] /\ w = hist) \/ exists r, tl = [SinkAbort r]).
Proof.
  intros H. destruct (inv_given (Fin 1) hist (ss_writable s) (wv_stream _ _ H)) as (w & tl & E & Hp & _ & Ht).
  exists w, tl. split; [|done]. unfold given_chunks. rewrite E. cbn. rewrite omap_app.
  assert (Hn : omap write_of tl = []) by (by destruct Ht as [->|[[-> _]|[r ->]]]). rewrite Hn, app_nil_r.
  clear. induction w as [|c w IH]; [done|]. cbn. by f_equal.
Qed.

Lemma sent_given hist s : winv hist s -> sent s `prefix_of` hist.
Proof.
  intros H. destruct (given_shape hist s H) as (w & tl & E & Hp & _). etrans; [|exact Hp]. rewrite <-E.
  etrans; [|apply (wv_sent _ _ H)]. by apply prefix_app_r.
Qed.

(** A session whose write side is the same. *)
Lemma winv_same hist s s' : winv hist s -> ss_writable s' = ss_writable s -> ss_sink s' = ss_sink s -> ss_calls s' = ss_calls s ->
  ss_freed s' = ss_freed s -> (ss_wsi s' = None -> ss_wsi s = None) -> winv hist s'.
Proof.
  intros [H1 H2 H3 H4 H5 H6 H7] E1 E2 E3 E4 E5. unfold sent, owed, given_chunks, pacing in *.
  split; unfold sent, owed, given_chunks, pacing; rewrite ?E1, ?E2, ?E3, ?E4; auto.
Qed.

(** Nothing follows the close of a sink. *)
Lemma close_last hist w cs new : WritableStreamInv.Inv (Fin 1) hist w -> sink_calls w = cs ++ new -> SinkClose ∈ cs ->
  new = [] /\ omap write_of cs = hist.
Proof.
  intros Hi E Hc. destruct (inv_given (Fin 1) hist w Hi) as (ws & tl & Es & _ & _ & Ht). rewrite E in Es.
  assert (Hno : SinkClose ∉ SinkStart :: (SinkWrite <$> ws)).
  { intros [?|(c & ? & _)%list_elem_of_fmap]%elem_of_cons; done. }
  assert (Hw : omap write_of (SinkWrite <$> ws) = ws) by (clear; induction ws as [|c ws IH]; [done|]; cbn; by f_equal).
  destruct Ht as [->|[[-> ->]|[r ->]]].
  - destruct Hno. rewrite app_nil_r in Es. rewrite <-Es. apply elem_of_app. by left.
  - destruct new as [|x new _] using rev_ind.
    + split; [done|]. rewrite app_nil_r in Es. rewrite Es. cbn. rewrite omap_app, Hw. cbn. by rewrite app_nil_r.
    + destruct Hno. rewrite app_comm_cons, app_assoc in Es. apply app_inj_tail in Es as [Es _]. rewrite <-Es. apply elem_of_app. by left.
  - assert (Hin : SinkClose ∈ SinkStart :: (SinkWrite <$> ws) ++ [SinkAbort r]) by (rewrite <-Es; apply elem_of_app; by left).
    rewrite app_comm_cons in Hin. apply elem_of_app in Hin as [Hin|Hin%list_elem_of_singleton]; done.
Qed.

(** [s0] is a session whose stream has become [w]: the calls of [new] are
    next.  At most one is, and then nothing else is awaited. *)
Record waiting (hist : list Z) (w : wstream) (new : list (sink_call * wait)) (s0 : session) : Prop := {
  wa_stream : WritableStreamInv.Inv (Fin 1) hist w;
  wa_calls : sink_calls w = sink_calls (ss_writable s0) ++ new.*1;
  wa_one : new = [] /\ Forall2 fits (awaited w) (ss_sink s0) \/
    exists c k, new = [(c, k)] /\ goes_with c k /\ awaited w = [k] /\ ss_sink s0 = [];
}.

Lemma asks_waiting hist w new s0 aw : WritableStreamInv.Inv (Fin 1) hist w -> sink_calls w = sink_calls (ss_writable s0) ++ new.*1 ->
  awaited w = aw ++ new.*2 -> Forall (fun p => goes_with p.1 p.2) new -> Forall2 fits aw (ss_sink s0) -> waiting hist w new s0.
Proof.
  intros Hi Hc Ha Hg Hf. split; [done|done|]. destruct (inv_given (Fin 1) hist w Hi) as (_ & _ & _ & _ & Hone & _).
  rewrite Ha in Hone. destruct new as [|[c k] [|]]; cbn in *.
  - left. rewrite Ha, app_nil_r. by split.
  - right. exists c, k. assert (aw = []) as -> by (destruct aw; [done|]; cbn in Hone; rewrite length_app in Hone; cbn in Hone; lia).
    inversion Hf. inversion Hg. by split_and!.
  - rewrite length_app in Hone. cbn in Hone. lia.
Qed.

(** The write side of [s0] before the step, without its promises. *)
Record wold (hist : list Z) (s0 : session) : Prop := {
  wo_hist : ss_wsi s0 = None -> hist = [];
  wo_sent : sent s0 ++ owed s0 `prefix_of` given_chunks s0;
  wo_all : ss_freed s0 = false -> sent s0 ++ owed s0 = given_chunks s0;
  wo_paced : exists tl, pacing s0 = paced (sent s0) ++ tl /\ (tl = [] \/ tl = [WantWrite]) /\
    (ss_freed s0 = false -> tl = match owed s0 with [] => [] | _ => [WantWrite] end);
  wo_closed : CloseWsi ByClose ∈ ss_calls s0 -> SinkClose ∈ sink_calls (ss_writable s0) /\ sent s0 = given_chunks s0;
}.

Lemma winv_old hist s : winv hist s -> wold hist s.
Proof.
  intros [H1 H2 H3 H4 H5 H6 H7]. split; try done. intros [Hc Hs]%H7. split; [done|]. rewrite Hs.
  destruct (close_last hist (ss_writable s) (sink_calls (ss_writable s)) [] H1) as [_ E]; [by rewrite app_nil_r|done|]. by rewrite <-E.
Qed.

(** The stream goes on without a call. *)
Lemma nothing_waits hist hist' w s0 : wold hist s0 -> (ss_wsi s0 = None -> hist' = []) -> waiting hist' w [] s0 ->
  winv hist' (set_ss_writable w s0).
Proof.
  intros [H1 H2 H3 H4 H5] Hw [Hi Hc Hone]. cbn in Hc. rewrite app_nil_r in Hc. destruct Hone as [[_ Hf]|(c & k & ? & _)]; [|done].
  unfold sent, owed, given_chunks, pacing in *. split; unfold sent, owed, given_chunks, pacing; cbn; rewrite ?Hc; try done.
  intros [Hx Hs]%H5. split; [done|]. rewrite Hs. apply (close_last hist' w _ []); [done|by rewrite app_nil_r|done].
Qed.

Lemma given_snoc hist w s0 c k : waiting hist w [(c, k)] s0 -> omap write_of (sink_calls w) = given_chunks s0 ++ option_list (write_of c).
Proof. intros H. rewrite (wa_calls _ _ _ _ H). cbn. rewrite omap_app. cbn. by destruct (write_of c). Qed.

(** What a method may record of the connection, and its promise. *)
Inductive reply (freed : bool) : sink_call -> sink_promise -> list wcall -> Prop :=
| reply_want x : freed = false -> reply freed (SinkWrite x) (SinkWaits x) [WantWrite]
| reply_gone x e : freed = true -> reply freed (SinkWrite x) (SinkDone (Some e)) []
| reply_close : freed = false -> reply freed SinkClose (SinkDone None) [CloseWsi ByClose]
| reply_late : reply freed SinkClose (SinkDone None) []
| reply_abort r l : l = [] \/ l = [CloseWsi (ByAbort r)] -> reply freed (SinkAbort r) (SinkDone None) l.

(** The step from [s0] whose stream has become [w] with the call [c]. *)
Lemma waiting_call hist hist' w s0 c k p r : wold hist s0 -> (ss_wsi s0 = None -> hist' = []) -> waiting hist' w [(c, k)] s0 ->
  reply (ss_freed s0) c p r ->
  winv hist' (set_ss_sink [p] (set_ss_calls (ss_calls s0 ++ r) (set_ss_writable w s0))).
Proof.
  intros [H1 H2 H3 (tl & H4 & Ht & Htl) H5] Hw Hwa Hr. pose proof (given_snoc _ _ _ _ _ Hwa) as Hgiven.
  destruct Hwa as [Hi Hc [[? _]|(c' & k' & [= <- <-] & Hg & Ha & Hs0)]]; [done|]. cbn in Hc.
  assert (Ho : owed s0 = []) by (unfold owed; by rewrite Hs0). rewrite Ho, app_nil_r in *.
  assert (Hold : CloseWsi ByClose ∉ ss_calls s0).
  { intros [Hx _]%H5. by destruct (close_last hist' w _ _ Hi Hc Hx). }
  assert (Hsent : omap sent_of r = []) by by destruct Hr as [| | | |? ? [->| ->]].
  assert (Hpre : given_chunks s0 `prefix_of` omap write_of (sink_calls w)) by (rewrite Hgiven; by apply prefix_app_r).
  unfold sent, pacing in *.
  split; unfold sent, owed, given_chunks, pacing; cbn; rewrite ?omap_app, ?Hsent, ?List.filter_app, ?H4, ?app_nil_r; try done.
  - rewrite Ha. constructor; [|constructor]. by destruct Hr, k.
  - rewrite Hgiven. destruct Hr; cbn; rewrite ?app_nil_r; try done; [by rewrite H3|]. etrans; [exact H2|]. by apply prefix_app_r.
  - intros Hf. rewrite Hgiven, (H3 Hf). destruct Hr; cbn; rewrite ?app_nil_r; congruence.
  - destruct Hr as [x Hf|x e Hf| | |? ? [->| ->]]; cbn; rewrite ?app_nil_r; [|by exists tl..].
    exists [WantWrite]. rewrite (Htl Hf), app_nil_r. auto.
  - intros [Hin|Hin]%elem_of_app; [done|]. destruct Hr as [|x e Hf|Hf| |? ? [->| ->]]; try by apply list_elem_of_singleton in Hin || apply elem_of_nil in Hin.
    assert (Hx : SinkClose ∈ sink_calls w) by (rewrite Hc; apply elem_of_app; right; by left). split; [done|].
    rewrite (H3 Hf). destruct (close_last hist' w (sink_calls w) [] Hi) as [_ <-]; [by rewrite app_nil_r|done|].
    rewrite Hgiven. cbn. by rewrite app_nil_r.
Qed.

(** No chunk is given to the sink of a session without a [wsi]. *)
Lemma no_write hist w x : WritableStreamInv.Inv (Fin 1) hist w -> hist = [] -> SinkWrite x ∉ sink_calls w.
Proof.
  intros Hi -> Hin. destruct (inv_given (Fin 1) [] w Hi) as (ws & tl & Es & Hp & _ & Ht). apply prefix_nil_inv in Hp as ->.
  rewrite Es in Hin. cbn in Hin. apply elem_of_cons in Hin as [?|Hin]; [done|].
  destruct Ht as [->|[[-> _]|[r ->]]]; [by apply elem_of_nil in Hin|by apply list_elem_of_singleton in Hin..].
Qed.

(** The stream of [s0] has become [w], and the methods its calls name run. *)
Lemma waiting_ok hist hist' w new s0 : wold hist s0 -> (ss_wsi s0 = None -> hist' = []) -> waiting hist' w new s0 ->
  winv hist' (foldl (sink_method gone) (set_ss_writable w s0) (drop (length (sink_calls (ss_writable s0))) (sink_calls w))).
Proof.
  intros Ho Hw Hwa. pose proof Hwa as [Hi Hc Hone]. rewrite Hc, drop_app_length. destruct Hone as [[-> _]|(c & k & -> & Hg & Ha & Hs0)].
  { by apply (nothing_waits hist). }
  cbn [fmap list_fmap fst foldl].
  assert (Hcall : forall p r, reply (ss_freed s0) c p r -> sink_method gone (set_ss_writable w s0) c =
    set_ss_sink [p] (set_ss_calls (ss_calls s0 ++ r) (set_ss_writable w s0)) -> winv hist' (sink_method gone (set_ss_writable w s0) c)).
  { intros p r Hr ->. by apply (waiting_call hist hist' w s0 c k). }
  assert (Hsame : forall p, sink_method gone (set_ss_writable w s0) c = answer p (set_ss_writable w s0) ->
    sink_method gone (set_ss_writable w s0) c = set_ss_sink [p] (set_ss_calls (ss_calls s0 ++ []) (set_ss_writable w s0))).
  { intros p ->. unfold answer, set_ss_sink, set_ss_calls. cbn. by rewrite Hs0, app_nil_r. }
  assert (Hnew : forall p r, sink_method gone (set_ss_writable w s0) c = answer p (record r (set_ss_writable w s0)) ->
    sink_method gone (set_ss_writable w s0) c = set_ss_sink [p] (set_ss_calls (ss_calls s0 ++ [r]) (set_ss_writable w s0))).
  { intros p r ->. unfold answer, record, set_ss_sink, set_ss_calls. cbn. by rewrite Hs0. }
  destruct c as [|x| |r]; [by destruct k|..]; cbn [sink_method] in *; unfold waitWrite, safeClose in *; cbn [ss_wsi ss_freed set_ss_writable] in *;
    destruct (ss_wsi s0) eqn:Ew; try destruct (ss_freed s0) eqn:Ef.
  all: try (eapply Hcall; [|apply Hsame; reflexivity]; by constructor; auto).
  all: try (eapply Hcall; [|apply Hnew; reflexivity]; by constructor; auto).
  destruct (no_write hist' w x Hi (Hw eq_refl)). rewrite Hc. apply elem_of_app. right. by left.
Qed.

(* ------------------------------------------------------------------ *)
(** ** What happens to a session keeps its write side *)

Abbreviation fixed_size := (fun _ : Z => inl (Fin 1) : jsnum + reason).

(** The chunks that a use makes the writable stream accept. *)
Definition accepted_use (u : use) (s : session) : list Z :=
  match u with UWriter e => if handed s && writer_call e then accepted_by fixed_size e (ss_writable s) else [] | _ => [] end.

Lemma writer_call_external e : writer_call e = true -> external e.
Proof. destruct e; try done; cbn; intros ?%bool_decide_eq_true; done. Qed.

Lemma writable_event_ok hist s e : winv hist s -> writer_call e = true -> is_Some (ss_wsi s) ->
  winv (hist ++ accepted_by fixed_size e (ss_writable s)) (writable_event gone e s).2.
Proof.
  intros H He [w Hw]. unfold writable_event. destruct (event_ok (Fin 1) fixed_size hist _ e (wv_stream _ _ H)) as (o & t & E & Hi & _). rewrite E. cbn [snd].
  destruct (orderly_event (Fin 1) fixed_size e (writer_call_external e He) (ss_writable s)) as (new & [Hc Ha Hg _] & _).
  rewrite E in Hc, Ha. cbn in Hc, Ha. apply (waiting_ok hist _ t new); [by apply winv_old|congruence|].
  by apply (asks_waiting _ _ _ _ (awaited (ss_writable s))); [..|apply H].
Qed.

(** What the sink's stream waits for is one promise at most. *)
Lemma sink_one hist s i p : winv hist s -> ss_sink s !! i = Some p -> exists k, i = 0%nat /\ ss_sink s = [p] /\ awaited (ss_writable s) = [k] /\ fits k p.
Proof.
  intros H Hp. destruct (Forall2_lookup_r _ _ _ _ _ (wv_fits _ _ H) Hp) as (k & Hk & Hf).
  destruct (awaits_one (Fin 1) hist _ i k (wv_stream _ _ H) Hk) as [-> Ha]. exists k. split_and!; try done.
  pose proof (wv_fits _ _ H) as Hall. rewrite Ha in Hall. destruct (ss_sink s) as [|q [|]]; inversion Hall as [|? ? ? ? ? Hn]; [|by inversion Hn].
  by injection Hp as ->.
Qed.

Lemma sink_settled_ok hist s res : winv hist s -> ss_sink s = [SinkDone res] ->
  winv hist (writable_event gone (EvSettle 0 res) (set_ss_sink [] s)).2.
Proof.
  intros H Hs. destruct (sink_one hist s 0 (SinkDone res) H) as (k & _ & _ & Ha & _); [by rewrite Hs|].
  unfold writable_event. cbn [ss_writable set_ss_sink].
  destruct (event_ok (Fin 1) fixed_size hist _ (EvSettle 0 res) (wv_stream _ _ H)) as (o & t & E & Hi & _). rewrite E. cbn [snd].
  cbn in Hi. rewrite app_nil_r in Hi. rewrite (orderly_settle (Fin 1) fixed_size 0 res _ k) in E by by rewrite Ha.
  destruct (orderly_settled (Fin 1) k res (set_awaited (delete 0%nat (awaited (ss_writable s))) (ss_writable s))) as (new & [Hc Haw Hg _] & _).
  rewrite E in Hc, Haw. cbn in Hc, Haw. rewrite Ha in Haw. cbn in Haw.
  apply (waiting_ok hist hist t new (set_ss_sink [] s)); [|apply H|by apply (asks_waiting _ _ _ _ [])].
  pose proof (winv_old _ _ H) as [O1 O2 O3 O4 O5]. unfold sent, owed, given_chunks, pacing in *. rewrite Hs in *. by split.
Qed.

(** Closing for the reader, or after an abort, changes nothing here. *)
Lemma record_close hist s c : winv hist s -> c <> ByClose -> winv hist (record (CloseWsi c) s).
Proof.
  intros [H1 H2 H3 H4 H5 (tl & H6 & Ht & Htl) H7] Hc. unfold sent, owed, given_chunks, pacing in *.
  split; unfold sent, owed, given_chunks, pacing; cbn; rewrite ?omap_app, ?List.filter_app; cbn; rewrite ?app_nil_r; try done.
  - by exists tl.
  - intros [Hin|Hin%list_elem_of_singleton]%elem_of_app; [by apply H7|congruence].
Qed.

Lemma readable_event_ok hist s e : winv hist s -> winv hist (readable_event e s).2.
Proof.
  intros H. unfold readable_event. destruct (revent_run _ _ _ e (ss_readable s)) as [o r]. cbn [snd].
  assert (H0 : winv hist (set_ss_readable r s)) by by apply (winv_same hist s). revert H0.
  generalize (drop (length (rs_calls (ss_readable s))) (rs_calls r)), (set_ss_readable r s). clear.
  intros l. induction l as [|c l IH]; intros t Ht; [done|]. apply IH. destruct c; try done. cbn. unfold safeClose.
  destruct (ss_wsi t); [|done]. destruct (ss_freed t); [done|]. by apply record_close.
Qed.

Lemma fits_write k p : fits k p -> is_Some (owed_of p) -> k = WaitWrite.
Proof. destruct k; [|done|..]; cbn; by intros -> [? ?]. Qed.

Lemma use_ok hist s u : winv hist s -> winv (hist ++ accepted_use u s) (use_run gone u s).2.
Proof.
  intros H. unfold use_run. rewrite gets_bind. unfold id. destruct u as [e|e|i|i|i|i|]; cbn [accepted_use]; rewrite ?app_nil_r.
  - destruct (handed s && reader_call e); [by apply readable_event_ok|done].
  - destruct (handed s) eqn:Eh; cbn [andb]; [|by rewrite app_nil_r]. destruct (writer_call e) eqn:Ee; [|by rewrite app_nil_r].
    apply writable_event_ok; [done|done|]. unfold handed in Eh. by destruct (ss_wsi s).
  - by apply readable_event_ok.
  - destruct (ss_sink s !! i) as [[c|c|res]|] eqn:Ei; try done. destruct (sink_one _ _ _ _ H Ei) as (k & -> & Hs & _).
    rewrite modify_bind, Hs. by apply sink_settled_ok.
  - destruct (ss_sink s !! i) as [[c|c|res]|] eqn:Ei; try done. destruct (sink_one _ _ _ _ H Ei) as (k & -> & Hs & Ha & Hf).
    destruct (ss_freed s) eqn:Ef; [done|]. destruct H as [H1 H2 H3 H4 H5 H6 H7]. unfold sent, owed, given_chunks, pacing in *. rewrite Hs in *.
    apply fits_write in Hf as ->; [|done].
    split; unfold sent, owed, given_chunks, pacing; cbn in *; try done. rewrite Ha. by repeat constructor.
  - destruct (ss_sink s !! i) as [[c|c|res]|] eqn:Ei; try done. destruct (sink_one _ _ _ _ H Ei) as (k & -> & Hs & Ha & Hf).
    pose proof (winv_old _ _ H) as Hold. apply fits_write in Hf as ->; [|done].
    destruct H as [H1 H2 H3 H4 H5 (tl & H6 & Ht & Htl) H7]. unfold sent, owed, given_chunks, pacing in *. rewrite Hs in *. cbn in H4, H5, Htl.
    destruct (ss_freed s) eqn:Ef; [|rewrite modify_bind]; split; unfold sent, owed, given_chunks, pacing; cbn in *; rewrite ?Ha, ?omap_app, ?List.filter_app, ?Ef; try done.
    + by repeat constructor.
    + rewrite app_nil_r. etrans; [|exact H4]. by apply prefix_app_r.
    + exists tl. done.
    + by repeat constructor.
    + cbn. by rewrite app_nil_r.
    + cbn. rewrite app_nil_r. by apply H5.
    + exists []. split; [|by auto]. rewrite H6, (Htl eq_refl), app_nil_r. unfold paced. rewrite bind_app. cbn. by rewrite <-app_assoc.
    + intros [Hin|Hin%list_elem_of_singleton]%elem_of_app; [|done]. destruct (wo_closed _ _ Hold Hin) as [_ E]. unfold sent, given_chunks in E.
      rewrite <-(H5 eq_refl) in E. apply (f_equal length) in E. rewrite length_app in E. cbn in E. lia.
  - destruct H as [H1 H2 H3 H4 H5 (tl & H6 & Ht & Htl) H7]. split; try done. by exists tl.
Qed.

(* ------------------------------------------------------------------ *)
(** ** Sessions by what they are told *)

Inductive sevent := SBind (w : nat) | SOpened (x : X) | SMessage (data : Z) | SClose (info : I) | SError (err : reason) | SUse (u : use).

Definition sevent_run (e : sevent) : SM session unit :=
  match e with
  | SBind w => modify (set_ss_wsi (Some w))
  | SOpened x => resolveOpened x
  | SMessage data => message_session data
  | SClose info => close_session info
  | SError err => error_session err
  | SUse u => use_run gone u
  end.

Definition sstep (e : sevent) (s : session) : session := (sevent_run e s).2.

(** The chunks that the writer of a session has had accepted. *)
Definition accepted_here (e : sevent) (s : session) : list Z := match e with SUse u => accepted_use u s | _ => [] end.
Fixpoint taken (es : list sevent) (s : session) : list Z :=
  match es with [] => [] | e :: es => accepted_here e s ++ taken es (sstep e s) end.

Lemma try_state {A B} (m : SM session A) (k : SM session B) s (b : A) : (try m (fun _ => mret b) ;; k) s = k (m s).2.
Proof. unfold try, mbind, sm_bind. by destruct (m s) as [[a|c e] s']. Qed.

Lemma close_state info s : sstep (SClose info) s = (resolveClosed info (readable_event (EvController CtlClose) s).2).2.
Proof. unfold sstep. cbn. unfold close_session. by rewrite try_state. Qed.
Lemma error_state err s : sstep (SError err) s = (rejectOpened err (readable_event (EvController (CtlError err)) s).2).2.
Proof. unfold sstep. cbn. unfold error_session. by rewrite try_state. Qed.

Lemma winv_step hist s e : winv hist s -> winv (hist ++ accepted_here e s) (sstep e s).
Proof.
  intros H. destruct e as [w|x|d|info|err|u]; cbn [accepted_here]; rewrite ?app_nil_r.
  - by apply (winv_same hist s).
  - unfold sstep. cbn. unfold resolveOpened, modify. destruct (ss_opened s) eqn:E; [done|]. by apply (winv_same hist s).
  - by apply readable_event_ok.
  - rewrite close_state. pose proof (readable_event_ok hist s (EvController CtlClose) H) as H1.
    unfold resolveClosed, modify. cbn. destruct (ss_closed _); [done|]. by eapply winv_same.
  - rewrite error_state. pose proof (readable_event_ok hist s (EvController (CtlError err)) H) as H1.
    unfold rejectOpened, modify. cbn. destruct (ss_opened _); [done|]. by eapply winv_same.
  - by apply use_ok.
Qed.

Lemma winv_run es : forall hist s, winv hist s -> winv (hist ++ taken es s) (run_all sstep es s).
Proof.
  induction es as [|e es IH]; intros hist s H; cbn; [by rewrite app_nil_r|]. rewrite app_assoc. by apply IH, winv_step.
Qed.

Lemma winv_new wsi opened : winv [] (new_session gone wsi opened).
Proof.
  split; try done.
  - exact (new_stream_ok (Fin 1)).
  - by repeat constructor.
  - exists []. by split_and!; [|left|].
  - by intros ?%elem_of_nil.
Qed.

(* ------------------------------------------------------------------ *)
(** ** The read side of a session *)

Definition message_of (e : sevent) : option Z := match e with SMessage data => Some data | _ => None end.
Definition is_close (e : sevent) : bool := match e with SClose _ => true | _ => false end.
Definition is_error (e : sevent) : bool := match e with SError _ => true | _ => false end.
Definition is_end (e : sevent) : bool := is_close e || is_error e.
Definition is_use (e : sevent) : bool := match e with SUse _ => true | _ => false end.

(** Nobody cancels. *)
Definition calm (e : sevent) : Prop := match e with SUse (UReader e) => gentle e | _ => True end.

Definition rinv (es : list sevent) (s : session) : Prop :=
  ReadableStreamInv.Inv false None (ss_readable s) /\ Q (omap message_of es) (existsb is_close es) (existsb is_error es) (ss_readable s).

Lemma source_methods_readable l : forall s : session, ss_readable (foldl source_method s l) = ss_readable s.
Proof.
  induction l as [|c l IH]; intros s; [done|]. cbn. rewrite IH. destruct c; try done. cbn. unfold safeClose.
  destruct (ss_wsi s); [|done]. by destruct (ss_freed s).
Qed.
Lemma sink_methods_readable l : forall s : session, ss_readable (foldl (sink_method gone) s l) = ss_readable s.
Proof.
  induction l as [|c l IH]; intros s; [done|]. cbn. rewrite IH.
  destruct c; cbn; unfold waitWrite, safeClose, answer, record; (destruct (ss_wsi s); [|done]); by destruct (ss_freed s).
Qed.

Lemma readable_after e (s : session) : ss_readable (readable_event e s).2 = run_stream e (ss_readable s).
Proof. unfold readable_event, run_stream. destruct (revent_run _ _ _ e (ss_readable s)) as [o r]. apply source_methods_readable. Qed.
Lemma writable_after e (s : session) : ss_readable (writable_event gone e s).2 = ss_readable s.
Proof. unfold writable_event. destruct (run_event _ _ e (ss_writable s)) as [o w]. cbn [snd]. by rewrite sink_methods_readable. Qed.

(** What a use does to the stream that is read. *)
Definition read_use (u : use) (s : session) : option revent :=
  match u with UReader e => if handed s && reader_call e then Some e else None | UReact i => Some (EvSettled i None) | _ => None end.

Lemma use_readable u (s : session) : ss_readable (use_run gone u s).2 = match read_use u s with Some e => run_stream e (ss_readable s) | None => ss_readable s end.
Proof.
  unfold use_run. rewrite gets_bind. unfold id. destruct u as [e|e|i|i|i|i|]; cbn [read_use]; try done.
  - destruct (handed s && reader_call e); [by rewrite readable_after|done].
  - destruct (handed s && writer_call e); [by rewrite writable_after|done].
  - by rewrite readable_after.
  - destruct (ss_sink s !! i) as [[c|c|res]|]; try done. by rewrite modify_bind, writable_after.
  - destruct (ss_sink s !! i) as [[c|c|res]|]; try done. by destruct (ss_freed s).
  - destruct (ss_sink s !! i) as [[c|c|res]|]; try done. by destruct (ss_freed s).
Qed.

Lemma existsb_snoc {A} (f : A -> bool) l x : existsb f (l ++ [x]) = existsb f l || f x.
Proof. rewrite existsb_app. cbn. by rewrite orb_false_r. Qed.

Lemma no_end es : existsb is_end es = false -> existsb is_close es = false /\ existsb is_error es = false.
Proof. induction es as [|e es IH]; [done|]. cbn. intros [[-> ->]%orb_false_iff H]%orb_false_iff. by apply IH. Qed.

Lemma rinv_step es e s : rinv es s -> ended is_end is_use (es ++ [e]) -> calm e -> rinv (es ++ [e]) (sstep e s).
Proof.
  intros [Hi HQ] [_ He]%ended_snoc Hc. unfold rinv. rewrite omap_app, !existsb_snoc.
  destruct e as [w|x|d|info|err|u]; cbn [is_close is_error omap list_omap message_of]; rewrite ?app_nil_r, ?orb_false_r, ?orb_true_r.
  - done.
  - unfold sstep. cbn. unfold resolveOpened, modify. by destruct (ss_opened s).
  - destruct (no_end es (He eq_refl)) as [Ec Ee]. rewrite Ec, Ee in *. unfold sstep. cbn. unfold message_session. rewrite readable_after.
    split; [by apply run_stream_inv|by apply Q_enqueue].
  - destruct (no_end es (He eq_refl)) as [Ec Ee]. rewrite Ec, Ee in *. rewrite close_state.
    assert (E : ss_readable (resolveClosed info (readable_event (EvController CtlClose) s).2).2 = run_stream (EvController CtlClose) (ss_readable s)).
    { rewrite <-readable_after. unfold resolveClosed, modify. cbn. by destruct (ss_closed _). }
    rewrite E. split; [by apply run_stream_inv|by apply Q_ctl_close].
  - destruct (no_end es (He eq_refl)) as [Ec Ee]. rewrite Ec, Ee in *. rewrite error_state.
    assert (E : ss_readable (rejectOpened err (readable_event (EvController (CtlError err)) s).2).2 = run_stream (EvController (CtlError err)) (ss_readable s)).
    { rewrite <-readable_after. unfold rejectOpened, modify. cbn. by destruct (ss_opened _). }
    rewrite E. split; [by apply run_stream_inv|by apply Q_ctl_error].
  - unfold sstep. cbn [sevent_run]. rewrite use_readable. destruct (read_use u s) as [e|] eqn:Eu; [|done].
    split; [by apply run_stream_inv|]. apply kept_event; [|done]. destruct u; try done; cbn in Eu.
    + destruct (_ && _); [|done]. by injection Eu as <-.
    + by injection Eu as <-.
Qed.

Lemma rinv_run es wsi opened : ended is_end is_use es -> Forall calm es -> rinv es (run_all sstep es (new_session gone wsi opened)).
Proof.
  induction es as [|e es IH] using rev_ind; intros He Hc.
  - split; [apply new_stream_inv|]. split; try done. by intros ?%elem_of_nil.
  - apply Forall_app in Hc as [Hc1 Hc2]. inversion Hc2. subst. unfold run_all. rewrite foldl_app. apply rinv_step; [|done|done].
    apply IH; [|done]. by apply ended_snoc in He as [? _].
Qed.

(* ------------------------------------------------------------------ *)
(** ** What each session is told *)

(** The ledger, the next number, and how the peers of open connections have
    said they close. *)
Record tracker := Tracker { tr_ledger : ledger; tr_next : nat; tr_closing : gmap nat (Z * jsstr) }.

Definition start : tracker := Tracker no_owners 0 ∅.

(** The first callback of a connection that was made brings its [wsi]. *)
Definition binds (w : nat) (g : ledger) : list sevent := if bool_decide (lg_waiting g = Some w) then [SBind w] else [].

(** A callback of [w] that its session is told as [e]; the last one if [over]. *)
Definition callback (w : nat) (over : bool) (e : sevent) (t : tracker) : option (tracker * list (nat * sevent)) :=
  g ← heard w (tr_ledger t);
  Some (Tracker (if over then closed w g else g) (tr_next t) (tr_closing t), told (lg_owner (tr_ledger t) !! w) (binds w (tr_ledger t) ++ [e])).

Definition without_closing (w : nat) (t : tracker) : tracker := Tracker (tr_ledger t) (tr_next t) (delete w (tr_closing t)).

Definition trace_step (e : aevent) (t : tracker) : option (tracker * list (nat * sevent)) :=
  match e with
  | AConnect w => g ← opened w (tr_next t) (tr_ledger t); Some (Tracker g (S (tr_next t)) (tr_closing t), [])
  | AAccept w => g ← accepted w (tr_next t) (tr_ledger t); Some (Tracker g (S (tr_next t)) (tr_closing t), [])
  | AOpen w => callback w false (SOpened (extra w)) t
  | AMessage w data => callback w false (SMessage data) t
  | APeerClose w code why => Some (Tracker (tr_ledger t) (tr_next t) (<[w := (code, why)]> (tr_closing t)), [])
  | AClosed w =>
    let info := tr_closing t !! w in callback w true (SClose (closeInfo w (fst <$> info) (snd <$> info))) (without_closing w t)
  | AError w msg => callback w true (SError (ErrorObj ErrError msg)) t
  | ARawClose w => callback w true (SClose (closeInfo w None None)) t
  | AUse i u => if bool_decide (i < tr_next t)%nat then Some (t, [(i, SUse u)]) else None
  end.

Fixpoint trace (es : list aevent) (t : tracker) : option (tracker * list (nat * sevent)) :=
  match es with
  | [] => Some (t, [])
  | e :: es => '(t, l) ← trace_step e t; '(t, l') ← trace es t; Some (t, l ++ l')
  end.

(** The sessions as they are made, in their order. *)
Definition made1 (e : aevent) : list session :=
  match e with
  | AConnect _ => [new_session gone None None]
  | AAccept w => [new_session gone (Some w) (Some (inl (extra w)))]
  | _ => []
  end.
Definition made (es : list aevent) : list session := es ≫= made1.

Abbreviation tell := (tell sstep).
Abbreviation run := (adapter_run extra closeInfo gone).
Abbreviation step := (aevent_run extra closeInfo gone).

Record sim (h : adapter X I) (t : tracker) : Prop := {
  sm_agrees : agrees (ad_handoff h) (tr_ledger t);
  sm_owned : owned_once (tr_ledger t) (tr_next t);
  sm_next : length (ad_arena h) = tr_next t;
  sm_closing : ad_closing h = tr_closing t;
}.

Lemma socket_on_session_eq i (e : sevent) (h : adapter X I) : (i < length (ad_arena h))%nat ->
  (on_session i (sevent_run e) h).2 = set_arena (tell [(i, e)] (ad_arena h)) h.
Proof.
  intros [s E]%lookup_lt_is_Some. unfold on_session. rewrite E. destruct (sevent_run e s) as [o s'] eqn:Em. cbn. f_equal.
  apply list_eq. intros j. destruct (decide (i = j)) as [<-|Hij].
  - rewrite list_lookup_alter_eq, list_lookup_insert_eq, E by (by apply lookup_lt_Some in E). unfold sstep. cbn. by rewrite Em.
  - by rewrite list_lookup_alter_ne, list_lookup_insert_ne.
Qed.

(** A callback finds the session of its connection, and binds it if it is the
    first. *)
Lemma socket_session_of_sim w h t g : sim h t -> heard w (tr_ledger t) = Some g -> let o := lg_owner (tr_ledger t) !! w in
  exists h', session_of w h = (Ok o, h') /\ sim h' (Tracker g (tr_next t) (tr_closing t)) /\
    ad_arena h' = tell (told o (binds w (tr_ledger t))) (ad_arena h).
Proof.
  intros [H1 H2 H3 H4] Hg o. destruct (claim_agrees w _ _ _ H1 Hg) as (ho & E & Ha).
  pose proof (heard_owner _ _ _ Hg) as [Hown _]. destruct (owned_same _ g _ Hown H2) as [H5 _].
  unfold session_of. rewrite gets_bind, E. fold o. rewrite modify_bind.
  set (h1 := set_handoff ho h). assert (Hs : sim h1 (Tracker g (tr_next t) (tr_closing t))) by by split.
  assert (Hb : match ho_sessions (ad_handoff h) !! w, o with None, Some i => on_session i (sevent_run (SBind w)) | _, _ => mret tt end h1 =
    (Ok tt, set_arena (tell (told o (binds w (tr_ledger t))) (ad_arena h)) h1)).
  { unfold binds. rewrite (ag_sessions _ _ H1). unfold o. destruct (lg_waiting (tr_ledger t)) as [w'|] eqn:Ew.
    - case_bool_decide as Hw.
      + injection Hw as ->. rewrite lookup_delete_eq. destruct (ag_waiting _ _ H1 w Ew) as [i Hi]. rewrite Hi.
        pose proof (socket_on_session_eq i (SBind w) h1) as Hon. assert (Hi' : (i < length (ad_arena h1))%nat) by (cbn; rewrite H3; by apply H2 in Hi).
        specialize (Hon Hi'). destruct (lookup_lt_is_Some_2 _ _ Hi') as [s Es]. unfold on_session in *. rewrite Es in *. cbn in *. by rewrite Hon.
      + rewrite lookup_delete_ne by congruence. destruct (lg_owner _ !! w); by destruct h.
    - rewrite bool_decide_false by done. destruct (lg_owner _ !! w); by destruct h. }
  exists (set_arena (tell (told o (binds w (tr_ledger t))) (ad_arena h)) h1). split; [|split; [|reflexivity]].
  - change (modify (set_ss_wsi (Some w))) with (sevent_run (SBind w)). by rewrite (bind_ok _ _ _ _ _ Hb).
  - destruct Hs as [? ? Hl ?]. split; try done. cbn. by rewrite length_tell.
Qed.

Lemma socket_callback_step h t w over e t' l : sim h t -> callback w over e t = Some (t', l) ->
  let h' := ((o ← session_of w; (if over then delete_session w else mret tt) ;;
    match o with Some i => on_session i (sevent_run e) | None => mret tt end) h).2 in
  sim h' t' /\ ad_arena h' = tell l (ad_arena h).
Proof.
  intros H E. unfold callback in E. destruct (heard w (tr_ledger t)) as [g|] eqn:Hg; [|done]. cbn in E. injection E as <- <-.
  destruct (socket_session_of_sim w h t g H Hg) as (h1 & E1 & [A1 A2 A3 A4] & Ha). pose proof (heard_owner _ _ _ Hg) as [Hown Hw]. rewrite (bind_ok _ _ _ _ _ E1).
  set (o := lg_owner (tr_ledger t) !! w) in *. set (g' := if over then closed w g else g).
  assert (exists h2, (if over then delete_session w else mret tt : SM (adapter X I) unit) h1 = (Ok tt, h2) /\
    sim h2 (Tracker g' (tr_next t) (tr_closing t)) /\ ad_arena h2 = ad_arena h1) as (h2 & E2 & H2 & Ha2).
  { destruct over; [|by exists h1]. eexists. split; [done|]. split; [|done]. split; cbn; [by apply forget_agrees|by apply owned_closed|done|done]. }
  rewrite (bind_ok _ _ _ _ _ E2). assert (Hl : tell (told o (binds w (tr_ledger t) ++ [e])) (ad_arena h) = tell (told o [e]) (ad_arena h2)).
  { rewrite Ha2, Ha, <-tell_app. f_equal. destruct o; [|done]. cbn. by rewrite fmap_app. }
  rewrite Hl. destruct o as [i|] eqn:Eo; [|done]. rewrite (socket_on_session_eq i e).
  - split; [|done]. destruct H2 as [B1 B2 B3 B4]. split; try done. cbn. by rewrite length_alter.
  - rewrite (sm_next _ _ H2). cbn. unfold o in Eo. rewrite <-(sm_next _ _ H). rewrite (sm_next _ _ H). by apply (sm_owned _ _ H) in Eo.
Qed.

(** A session is made for [w]. *)
Lemma made_step h t g wsi opened w ho : sim h t -> lg_owner (tr_ledger t) !! w = None ->
  (exists wt, g = Ledger (<[w := tr_next t]> (lg_owner (tr_ledger t))) wt) -> agrees ho g ->
  sim (Adapter ho (ad_arena h ++ [new_session gone wsi opened]) (ad_closing h)) (Tracker g (S (tr_next t)) (tr_closing t)).
Proof.
  intros [H1 H2 H3 H4] Hw [wt ->] Ha. split; cbn; [done| |rewrite length_app, H3; cbn; lia|done].
  apply (owned_insert w (tr_next t) (tr_ledger t) (tr_next t) wt Hw H2); [|lia|lia]. intros w' Hw'. apply H2 in Hw'. lia.
Qed.

Lemma socket_event_step h t e t' l : sim h t -> trace_step e t = Some (t', l) ->
  sim (step e h).2 t' /\ ad_arena (step e h).2 = tell l (ad_arena h) ++ made1 e.
Proof.
  intros H E. destruct e as [w|w|w|w d|w code why|w|w msg|w|i u]; cbn [made1]; rewrite ?app_nil_r.
  - cbn in E. destruct (opened w _ _) as [g|] eqn:Hg; [|done]. cbn in E. injection E as <- <-. destruct (opened_insert _ _ _ _ Hg) as [Hw Hg'].
    split; [|done]. apply (made_step h t g None None w (offer (length (ad_arena h)) (ad_handoff h)) H Hw); [by eexists|].
    rewrite (sm_next _ _ H). by apply (offer_agrees w _ _ (tr_ledger t)); [apply H|].
  - cbn in E. destruct (accepted w _ _) as [g|] eqn:Hg; [|done]. cbn in E. injection E as <- <-. split; [|done].
    assert (Hb : agrees (bind_wsi w (length (ad_arena h)) (ad_handoff h)) g).
    { rewrite (sm_next _ _ H). by apply (bind_agrees w _ _ (tr_ledger t)); [apply H|]. }
    unfold accepted in Hg. destruct (lg_owner (tr_ledger t) !! w) eqn:Hw; [done|]. injection Hg as <-.
    by apply (made_step h t _ (Some w) (Some (inl (extra w))) w _ H Hw); [eexists|].
  - exact (socket_callback_step h t w false (SOpened (extra w)) t' l H E).
  - exact (socket_callback_step h t w false (SMessage d) t' l H E).
  - injection E as <- <-. split; [|done]. destruct H as [H1 H2 H3 H4]. split; try done. cbn. by rewrite H4.
  - cbn [trace_step] in E. pose proof (sm_closing _ _ H) as Hcl. cbn [aevent_run]. unfold onClosed, take_closing.
    rewrite bind_assoc, gets_bind, Hcl. rewrite bind_assoc, modify_bind, ret_bind.
    set (h1 := set_closing _ h). assert (H1 : sim h1 (without_closing w t)).
    { destruct H as [A1 A2 A3 A4]. by split. }
    exact (socket_callback_step h1 (without_closing w t) w true _ t' l H1 E).
  - exact (socket_callback_step h t w true (SError (ErrorObj ErrError msg)) t' l H E).
  - exact (socket_callback_step h t w true (SClose (closeInfo w None None)) t' l H E).
  - cbn in E. case_bool_decide as Hi; [|done]. injection E as <- <-. rewrite <-(sm_next _ _ H) in Hi. cbn [aevent_run].
    change (use_run gone u) with (sevent_run (SUse u)). rewrite (socket_on_session_eq i (SUse u) h Hi). split; [|done].
    destruct H as [A1 A2 A3 A4]. split; try done. cbn. by rewrite length_alter.
Qed.

(** What a step tells respects the order of each session, is for sessions
    there are, and uses them as the events say. *)
Record telling (e : aevent) (t t' : tracker) (l : list (nat * sevent)) : Prop := {
  te_order : step_ok is_end is_use (tr_ledger t) (tr_next t) (tr_ledger t') (tr_next t') l;
  te_sessions : Forall (fun p => p.1 < tr_next t)%nat l;
  te_uses : forall i u, (i, SUse u) ∈ l -> e = AUse i u;
}.

Lemma callback_telling ev w over e t t0 t' l : owned_once (tr_ledger t) (tr_next t) -> tr_ledger t0 = tr_ledger t -> tr_next t0 = tr_next t ->
  callback w over e t0 = Some (t', l) -> is_end e = over -> is_use e = false -> telling ev t t' l.
Proof.
  intros Ht E1 E2 Ev He Hu. unfold callback in Ev. rewrite E1, E2 in Ev. destruct (heard w _) as [g|] eqn:Hg; [|done].
  cbn in Ev. injection Ev as <- <-. assert (Hb : existsb is_end (binds w (tr_ledger t)) = false) by (unfold binds; by case_bool_decide). split.
  - apply step_ok_callback; [done|done| |].
    + unfold binds. case_bool_decide; cbn; (split; [|try done]); intros ?; by repeat constructor.
    + intros ->. by rewrite existsb_snoc, Hb, He.
  - eapply Forall_impl; [apply told_in|]. intros p Hp. by apply Ht in Hp.
  - intros i u Hin. exfalso. unfold told in Hin. destruct (lg_owner _ !! w); [|by apply elem_of_nil in Hin].
    apply list_elem_of_fmap in Hin as (x & [= _ <-] & [Hin|Hin%list_elem_of_singleton]%elem_of_app); [|by subst].
    unfold binds in Hin. case_bool_decide; [by apply list_elem_of_singleton in Hin|by apply elem_of_nil in Hin].
Qed.

Lemma made_telling e t g w wt t' : owned_once (tr_ledger t) (tr_next t) -> lg_owner (tr_ledger t) !! w = None ->
  g = Ledger (<[w := tr_next t]> (lg_owner (tr_ledger t))) wt -> tr_ledger t' = g -> tr_next t' = S (tr_next t) -> telling e t t' [].
Proof.
  intros Ht Hw -> E1 E2. split; [|constructor|by intros ? ? ?%elem_of_nil]. rewrite E1, E2.
  destruct (owned_insert w (tr_next t) (tr_ledger t) (tr_next t) wt Hw Ht) with (n' := S (tr_next t)) as [H1 H2]; [|lia|lia|].
  { intros w' Hw'. apply Ht in Hw'. lia. }
  apply step_ok_none; [done|]. intros j Hj. apply H2; [|done]. destruct Hj. lia.
Qed.

Lemma trace_step_telling e t t' l : owned_once (tr_ledger t) (tr_next t) -> trace_step e t = Some (t', l) -> telling e t t' l.
Proof.
  intros Ht E. destruct e as [w|w|w|w d|w code why|w|w msg|w|i u]; cbn in E; try (by eapply callback_telling; [exact Ht| | |exact E| |]).
  - destruct (opened w _ _) as [g|] eqn:Hg; [|done]. cbn in E. injection E as <- <-. destruct (opened_insert _ _ _ _ Hg) as [Hw Hg'].
    by eapply made_telling.
  - unfold accepted in E. destruct (lg_owner (tr_ledger t) !! w) eqn:Hw; [done|]. cbn in E. injection E as <- <-. by eapply made_telling.
  - injection E as <- <-. split; [by apply step_ok_none|constructor|by intros ? ? ?%elem_of_nil].
  - case_bool_decide as Hi; [|done]. injection E as <- <-. split; [by apply step_ok_own|by repeat constructor|].
    by intros j v [= -> ->]%list_elem_of_singleton.
Qed.

Lemma socket_trace_run es : forall h t t' l, sim h t -> trace es t = Some (t', l) ->
  sim (run es h) t' /\ ad_arena (run es h) = tell l (ad_arena h ++ made es).
Proof.
  induction es as [|e es IH]; intros h t t' l H E; [injection E as <- <-; cbn; by rewrite app_nil_r|].
  cbn in E. destruct (trace_step e t) as [[t1 l1]|] eqn:E1; [|done]. cbn in E. destruct (trace es t1) as [[t2 l2]|] eqn:E2; [|done].
  injection E as <- <-. destruct (socket_event_step h t e t1 l1 H E1) as [H1 Ha1]. destruct (IH _ _ _ _ H1 E2) as [H2 Ha2].
  split; [done|]. change (run (e :: es) h) with (run es (step e h).2). rewrite Ha2, Ha1, tell_app, <-app_assoc. f_equal.
  symmetry. apply tell_past. rewrite (sm_next _ _ H). apply (trace_step_telling e t t1 l1 (sm_owned _ _ H) E1).
Qed.

Lemma socket_trace_ended es : forall t t' l, owned_once (tr_ledger t) (tr_next t) -> trace es t = Some (t', l) ->
  forall i, (ended is_end is_use (told_to i l) /\
    (Handoff.gone i (tr_ledger t) (tr_next t) -> Forall (fun e => is_use e = true) (told_to i l))) /\
    forall u, SUse u ∈ told_to i l -> AUse i u ∈ es.
Proof.
  induction es as [|e es IH]; intros t t' l Ht E i; [injection E as <- <-; split; [done|]; by intros u ?%elem_of_nil|].
  cbn in E. destruct (trace_step e t) as [[t1 l1]|] eqn:E1; [|done]. cbn in E. destruct (trace es t1) as [[t2 l2]|] eqn:E2; [|done].
  injection E as <- <-. destruct (trace_step_telling e t t1 l1 Ht E1) as [(H1 & Hg & He) _ Hu].
  destruct (IH t1 t2 l2 H1 E2 i) as [[Hi1 Hi2] Hi3]. destruct (He i) as [He1 He2]. rewrite told_to_app. split; [split|].
  - apply ended_app; [done|done|]. intros Hx. by apply Hi2, He2.
  - intros Hgi. destruct (Hg i Hgi) as [Hg1 Hg2]. apply Forall_app. split; [done|]. by apply Hi2.
  - intros u [Hin|Hin]%elem_of_app; apply elem_of_cons; [left|right; by apply Hi3]. symmetry. by apply Hu, told_to_elem.
Qed.

Lemma socket_sim_start : sim new_StreamAdapter start.
Proof. split; [apply agrees_start|apply owned_start|done|done]. Qed.

Lemma socket_made_session es s : s ∈ made es -> exists wsi opened, s = new_session gone wsi opened.
Proof.
  intros (e & He & _)%list_elem_of_bind. destruct e; cbn in He; try (by apply elem_of_nil in He); apply list_elem_of_singleton in He as ->; by do 2 eexists.
Qed.

(** C40: as long as every connection is heard of before the next one is made
    and none after its end, the streams of a session are those of its own
    connection.  What its reader gets is what its connection sent, in order,
    from the start, unless it cancels; the end comes after all of it and a
    close, and after a close no read waits.  What its connection is given is
    what its writer wrote, in order, each chunk after the connection asked
    for it and the one before was given; the connection is closed for the
    writer only after all of it. *)
Theorem socket_streams_intact es t l i s0 : trace es start = Some (t, l) -> made es !! i = Some s0 ->
  exists s, ad_arena (run es new_StreamAdapter) !! i = Some s /\
    let own := told_to i l in
    let messages := omap message_of own in
    let reads := rs_reads (ss_readable s) in
    ((forall e, AUse i (UReader e) ∈ es -> gentle e) ->
      delivered reads `prefix_of` messages /\
      (ReadDone ∈ reads -> delivered reads = messages /\ existsb is_close own = true) /\
      (existsb is_close own = true -> existsb is_error own = false -> ReadPending ∉ reads)) /\
    sent s `prefix_of` taken own s0 /\
    (exists tl, pacing s = paced (sent s) ++ tl /\ (tl = [] \/ tl = [WantWrite])) /\
    (CloseWsi ByClose ∈ ss_calls s -> sent s = taken own s0).
Proof.
  intros E Hs0. destruct (socket_trace_run es _ _ _ _ socket_sim_start E) as [_ Ha]. cbn [ad_arena new_StreamAdapter app] in Ha.
  destruct (socket_made_session es s0) as (wsi & op & Hnew); [by eapply list_elem_of_lookup_2|].
  destruct (socket_trace_ended es start t l owned_start E i) as [[He _] Hu].
  exists (run_all sstep (told_to i l) s0). rewrite Ha, tell_lookup, Hs0. split; [done|]. cbv zeta. subst s0. split.
  - intros Hg. destruct (rinv_run (told_to i l) wsi op He) as [Hi HQ].
    { apply Forall_forall. intros [| | | | |[e| | | | | |]] Hin; try done. by apply Hg, Hu. }
    by apply stream_outcome.
  - pose proof (winv_run (told_to i l) [] _ (winv_new wsi op)) as Hw. cbn [app] in Hw. split; [by apply sent_given|]. split.
    + destruct (wv_paced _ _ Hw) as (tl & ? & ? & _). by exists tl.
    + apply (wv_closed _ _ Hw).
Qed.
End Props.

(* ------------------------------------------------------------------ *)
(** ** A write that outlives its connection *)

(** What waits for a freed connection waits for ever. *)
Definition stranded {X I} (c : Z) (s : socket_session X I) : Prop := ss_freed s = true /\ head (ss_sink s) = Some (SinkWaits c).

Section Stranded.
Context {X I : Type} (gone : reason) (c : Z).

Lemma stranded_answers l : forall s : socket_session X I, stranded c s -> stranded c (foldl (sink_method gone) s l).
Proof.
  induction l as [|x l IH]; intros s [Hf Hh]; [done|]. cbn. apply IH.
  assert (Ha : forall p, stranded c (answer p s)) by (intros p; split; [done|]; cbn; by destruct (ss_sink s)).
  destruct x; cbn; unfold waitWrite, safeClose; destruct (ss_wsi s); rewrite ?Hf; apply Ha.
Qed.

Lemma stranded_sources l : forall s : socket_session X I, stranded c s -> stranded c (foldl source_method s l).
Proof.
  induction l as [|x l IH]; intros s [Hf Hh]; [done|]. cbn. apply IH. destruct x; try done. cbn. unfold safeClose.
  destruct (ss_wsi s); [|done]. by rewrite Hf.
Qed.

Lemma stranded_writable e (s : socket_session X I) : stranded c s -> stranded c (writable_event gone e s).2.
Proof. intros H. unfold writable_event. destruct (run_event _ _ e (ss_writable s)) as [o w]. by apply stranded_answers. Qed.
Lemma stranded_readable e (s : socket_session X I) : stranded c s -> stranded c (readable_event e s).2.
Proof. intros H. unfold readable_event. destruct (revent_run _ _ _ e (ss_readable s)) as [o r]. by apply stranded_sources. Qed.

Lemma stranded_use u (s : socket_session X I) : stranded c s -> stranded c (use_run gone u s).2.
Proof.
  intros H. pose proof H as [Hf Hh]. unfold use_run. rewrite gets_bind. unfold id.
  destruct (ss_sink s) as [|p l] eqn:Es; [done|]. injection Hh as ->. destruct u as [e|e|i|i|i|i|]; try done.
  - destruct (_ && _); [by apply stranded_readable|done].
  - destruct (_ && _); [by apply stranded_writable|done].
  - by apply stranded_readable.
  - destruct i as [|i]; [done|]. cbn. destruct (l !! i) as [[]|]; try done. rewrite modify_bind. apply stranded_writable. by split.
  - destruct (_ !! i) as [[]|]; try done. by rewrite Hf.
  - destruct i as [|i]; [done|]. cbn. destruct (l !! i) as [[]|]; try done. rewrite Hf. by split.
  - split; [done|]; cbn; by rewrite Es.
Qed.

(** When a connection goes while a write waits for it, no use of the streams
    ever settles that write: neither [close] nor [error] of the adapter tells
    the writable stream. *)
Theorem freed_write_never_settles us (s : socket_session X I) : stranded c s ->
  stranded c (foldl (fun s u => (use_run gone u s).2) s us).
Proof. revert s. induction us as [|u us IH]; intros s H; [done|]. cbn. by apply IH, stranded_use. Qed.
End Stranded.

(* ------------------------------------------------------------------ *)
(** ** [ContextRefCounter] *)

(** Nobody adds a key that is held. *)
Fixpoint fresh_adds (held : gset nat) (es : list ref_event) : Prop :=
  match es with
  | [] => True
  | RefAdd k :: es => k ∉ held /\ fresh_adds ({[k]} ∪ held) es
  | RefRelease k :: es => fresh_adds (held ∖ {[k]}) es
  | _ :: es => fresh_adds held es
  end.

Lemma ref_count es : forall c, rc_count c = Z.of_nat (size (rc_keys c)) -> fresh_adds (rc_keys c) es ->
  let c' := foldl ref_step c es in rc_count c' = Z.of_nat (size (rc_keys c')).
Proof.
  induction es as [|e es IH]; intros c Hc Hf; [done|]. apply (IH (ref_step c e)); destruct e as [k|k| |]; cbn in *.
  - rewrite size_union by set_solver. rewrite size_singleton. lia.
  - unfold ref_release. case_bool_decide as Hk; [done|]. cbn.
    rewrite size_difference by set_solver. rewrite size_singleton.
    assert (size (rc_keys c) <> 0%nat) by (intros Hz%size_empty_inv; set_solver). lia.
  - done.
  - unfold ref_microtask. by destruct (rc_scheduled c).
  - apply Hf.
  - unfold ref_release. case_bool_decide as Hk; [|done]. by replace (rc_keys c) with (rc_keys c ∖ {[k]}) by (apply leibniz_equiv; set_solver).
  - done.
  - unfold ref_microtask. by destruct (rc_scheduled c).
Qed.

(** A context is destroyed only when nobody holds it and it serves nobody. *)
Theorem context_kept_while_held es : fresh_adds ∅ es -> let c := ref_run es in
  rc_count c = Z.of_nat (size (rc_keys c)) /\
  (rc_destroyed (ref_microtask c) <> rc_destroyed c -> rc_keys c = ∅ /\ rc_serverMode c = false).
Proof.
  intros Hf c. assert (Hc : rc_count c = Z.of_nat (size (rc_keys c))) by by apply (ref_count es).
  split; [done|]. unfold ref_microtask. destruct (rc_scheduled c); [done|]. cbn.
  destruct (rc_count c =? 0) eqn:E0, (rc_serverMode c); try done. intros _. split; [|done].
  apply leibniz_equiv, size_empty_inv. lia.
Qed.

(** Two releases may each leave their microtask. *)
Example destroyed_twice : rc_destroyed (ref_run [RefAdd 1; RefRelease 1; RefAdd 2; RefRelease 2; RefMicrotask; RefMicrotask]) = 2%nat.
Proof. vm_compute. reflexivity. Qed.

(* ------------------------------------------------------------------ *)
(** ** Runs *)

Definition demo_gone : reason := ErrorObj ErrError "s->wsi == NULL".
Definition demo_extra (w : nat) : nat := w.
Definition demo_info (w : nat) (code : option Z) (why : option jsstr) : option Z := code.
Abbreviation demo_run es := (adapter_run demo_extra demo_info demo_gone es new_StreamAdapter).

(** Writes [chunk] and lets it go out. *)
Definition demo_write (i : nat) (chunk : Z) : list aevent :=
  [AUse i (UWriter (EvWrite 0 chunk)); AUse i (UWriteable 0); AUse i (UResume 0); AUse i (USink 0)].

(** A client's connection 5 and an accepted one 6. *)
Definition demo_talk : list aevent :=
  [AConnect 5; AAccept 6; AOpen 5; AUse 0 (USink 0); AUse 0 (UWriter EvGetWriter); AUse 0 (UReader EvGetReader);
   AMessage 6 60; AMessage 5 50] ++ demo_write 0 1 ++ demo_write 0 2 ++
  [AMessage 5 51; AUse 0 (UReader (EvRead 0)); AUse 0 (UReader (EvRead 0)); AUse 0 (UWriter (EvWriterClose 0)); AUse 0 (USink 0);
   APeerClose 5 1000 []; AUse 0 (UReader (EvRead 0)); AClosed 5; AUse 0 UFreed; AUse 0 (USink 0)].

Lemma socket_streams_intact_witness : exists t l s, trace demo_extra demo_info demo_talk start = Some (t, l) /\
  ad_arena (demo_run demo_talk) !! 0%nat = Some s /\
  delivered (rs_reads (ss_readable s)) = omap message_of (told_to 0 l) /\ delivered (rs_reads (ss_readable s)) = [50; 51] /\
  ss_closed s = Some (Some 1000) /\ sent s = [1; 2] /\ ss_calls s = [WantWrite; Write 1; WantWrite; Write 2; CloseWsi ByClose] /\
  sent s `prefix_of` taken demo_gone (told_to 0 l) (new_session demo_gone None None).
Proof.
  destruct (trace demo_extra demo_info demo_talk start) as [[t l]|] eqn:E; [|exfalso; revert E; vm_compute; discriminate].
  destruct (socket_streams_intact demo_extra demo_info demo_gone demo_talk t l 0 (new_session demo_gone None None) E eq_refl) as (s & Hs & Hr & Hw & _).
  assert (Hg : forall e, AUse 0 (UReader e) ∈ demo_talk -> gentle e).
  { assert (Hall : Forall (fun e => match e with AUse 0%nat (UReader e) => gentle e | _ => True end) demo_talk) by repeat constructor.
    intros e Hin. by apply (proj1 (Forall_forall _ _) Hall (AUse 0 (UReader e))). }
  destruct (Hr Hg) as (_ & Hdone & _). exists t, l, s. split; [done|]. split; [done|].
  revert Hs Hdone. vm_compute (ad_arena _ !! _). intros [= <-] Hdone. split; [apply Hdone; cbn; right; right; left|].
  split_and!; try reflexivity. exact Hw.
Defined.

(** A second connection made before the first is heard of takes its place:
    the first session never opens. *)
Example second_connect_takes_over :
  (fun s => (ss_wsi s, ss_opened s)) <$> ad_arena (demo_run [AConnect 5; AConnect 6; AOpen 5; AOpen 6]) =
    [(None, None); (Some 5%nat, Some (inl 5%nat))].
Proof. vm_compute. reflexivity. Qed.

(** A message that comes after a cancel throws out of the callback. *)
Example message_after_cancel :
  (aevent_run demo_extra demo_info demo_gone (AMessage 5 50) (demo_run [AConnect 5; AOpen 5; AUse 0 (UReader (EvCancel Undefined))])).1 =
    Throw ErrTypeError "The stream is not in a state that permits enqueue".
Proof. vm_compute. reflexivity. Qed.

(** The connection closes while a write waits: [closed] is resolved and the
    stream still writable, with its write in flight. *)
Example close_strands_write : let h := demo_run [AConnect 5; AOpen 5; AUse 0 (USink 0); AUse 0 (UWriter EvGetWriter);
    AUse 0 (UWriter (EvWrite 0 1)); APeerClose 5 1001 []; AClosed 5; AUse 0 UFreed] in
  exists s, ad_arena h = [s] /\ ss_closed s = Some (Some 1001) /\ stranded 1 s /\
    st_state (ss_writable s) = Writable /\ is_some (st_inFlightWrite (ss_writable s)) = true.
Proof. eexists. split; [vm_compute; reflexivity|]. by split_and!. Qed.
